(* ===== verification/_CoqProject ===== *)
-Q . S2P
Prelude.v
Tables.v
GoStrings.v
Base64.v
Float64.v
Regex.v
Detectors.v
Values.v
CustomDetectors.v
Dlp.v
Tmpl.v
Authz.v
Ratelimit.v
Compliance.v
GenCache.v
DlpPolicy.v
Secrets.v
ApprovalRules.v
Approvals.v
AuthzCache.v
Invalidation.v
Sha256.v
AuditEvents.v
AuditChain.v
AuditRetention.v
AuditSpool.v
AuditWriter.v
OAuth.v
OAuthFlow.v
Keyring.v
Ssrf.v
McpSessions.v
ApiKeys.v
Directory.v
Members.v
Roles.v
Adapter.v
ToolAnnotations.v
BoundedStore.v
Calls.v
ResponseCache.v
Blobs.v
Redact.v
Engine.v
Invoke.v
DatabasePool.v
DatabaseEngine.v
Revisions.v
ConnectorStore.v
Resync.v
McpServers.v
ConnectorHistory.v
ConnectorDemo.v
ConnectorGuarantees.v
ConnectorApprovals.v
