(* ===== verification/Prelude.v ===== *)
(** * supermcp: a verification development

    supermcp is a gateway between MCP clients (language-model agents) and the
    systems an organisation lets them use. An administrator stores
    connectors and the tools on them; a client signs in or presents a key,
    lists the tools it may use and calls one. Between the call and the
    upstream system stand an authorisation check, a rate limit, a data-loss
    scan of the arguments, possibly a person's approval, the rendering of the
    tool's template, a guard on outbound connections, a scan of the answer,
    a cache, and an audit stream that cannot be rewritten unnoticed. This
    development models those parts, from the Go sources under [src/], and
    proves what they promise.

    ** How the model is made

    A Go function is a Rocq function of the same name. What it changes is
    passed explicitly: rows of tables, a process's maps, a log of what was
    emitted. A function returning [(T, error)] is a [result]. A transaction
    is a function of its tables that leaves them as they were when it
    returns an error; where other requests run between two transactions or
    two critical sections of one function, either the function takes what
    they did as an argument, or it is split into steps of an inductive
    relation and the theorems are about reachable states. Strings are bytes;
    integers are [Z] or [N], wrapped where the code lets them wrap; times are
    integers in the unit of the code (nanoseconds in Go, microseconds in
    Postgres) and clocks are arguments. Code that is not in the repository
    (SHA-256 apart, which is written out in Sha256.v) is an argument, and a
    class or section hypothesis states the documented behaviour that is
    relied on: AES-GCM, ECDSA, JSON codecs, Redis commands, regexp parsing,
    JMESPath, the net package's text functions, Go's Unicode case mappings.
    Every theorem with a hypothesis is followed or accompanied by a witness
    that applies it to concrete values. No theorem assumes that SHA-256 has
    no collision: the ones about digests exhibit one.

    ** The files

    Shared:
    - Prelude: results, options, lists, the arithmetic of slices, tactics
      and the hint databases.
    - Tables: UPDATE, DELETE and SELECT on a table as a list of rows.
    - GoStrings, Base64, Float64: [strings], [unicode], unpadded base64 and
      float64 as far as the program uses them.
    - Regex: Go's leftmost-first matching; sound and complete for the
      language an expression denotes.
    - Values: decoded JSON, the [any] of the sources.
    - GenCache: the contract of a cache guarded by generation counters. Its
      freshness theorem is proved once against the classes [GenCache] and
      [GenCacheLaws], and inherited by AuthzCache and DlpPolicy.
    - BoundedStore: a store bounded by entries and bytes, for ResponseCache
      and Blobs.
    - Sha256: the digest of FIPS 180-4.

    Who may do what:
    - Authz (internal/authz/authz.go): permissions, bindings, [Evaluate] and
      its cache; AuthzCache: the cache under interleaved loads and writes;
      Invalidation (internal/invalidation): the payloads by which one replica
      tells the others; Compliance (internal/compliance/access.go): the
      access review's second computation of the same decisions.
    - Directory, Members, Roles (internal/identity/members.go, the
      memberships written by sign-in and provisioning,
      internal/httpapi/roles.go): the rows behind the evaluator and every
      operation that changes them. [Directory.authz_view] is what
      [Authz.load] reads of them, so the theorems of Members and Roles speak
      of what the evaluator grants; [Directory.credentials] are the rows of
      OAuth and ApiKeys, which the end of a membership revokes.
    - ApiKeys (internal/mcpauth/apikeys.go), OAuth and OAuthFlow
      (oauth.go, clients.go), Keyring (keys.go): how a client proves who it
      is. OAuth has the server's functions one at a time, OAuthFlow the
      requests interleaved down to single statements, Keyring the replicas'
      copies of the signing keys.
    - Ratelimit (internal/hardening/ratelimit.go): the sliding window and the
      token bucket.

    What may be sent and shown:
    - Detectors, CustomDetectors, Dlp, DlpPolicy (internal/dlp): what counts
      as sensitive, the scan and the masking of a value, the policy that
      governs a call and the rows it is read from.
    - ApprovalRules, Approvals (internal/governance/approvals.go): which
      calls need a person, and the life of the request that asks for one.
    - Tmpl (pkg/tmpl): placeholders, into values, URL paths and SQL.
    - Ssrf (internal/ssrf, internal/safeurl): what may be dialled.
    - Redact (internal/connector/redact.go): what of a configuration may be
      shown.
    - Secrets (internal/secrets): envelope encryption. [Secrets.Sealer] is
      the interface the clients' theorems use (Approvals, Keyring, Blobs);
      [Secrets.sealer_at] discharges it.

    What is configured:
    - Revisions (internal/governance/revisions.go): the numbered history of
      every configuration.
    - ConnectorStore (internal/connector/connector.go, tools.go): connectors,
      tools, credentials and upstream tokens as rows, and every operation of
      the service as one transaction, with the checks of a definition.
      Resync (resync.go): bringing a connector up to the bundled catalogue.
      McpServers (internal/mcpserver): the servers clients connect to, and
      what one serves.
    - ConnectorHistory: the operations of these services and of Approvals as
      the steps of a history. Each has one of the effects of
      [ConnectorHistory.effect], and [ConnectorHistory.run_op_lawful] says
      so; the theorems of ConnectorGuarantees and ConnectorApprovals are
      proved from the effects. ConnectorDemo is the workspace they are
      applied to.

    One call:
    - Adapter, ToolAnnotations (pkg/adapter, internal/tool/annotations.go):
      a tool's definition, and what clients are told it does.
    - Calls, Engine, ResponseCache, Blobs, Invoke (internal/invoke,
      internal/engine/engine.go, internal/transform): the executor. [Invoke]
      composes the other components (Approvals.Check, Dlp.Screen,
      ResponseCache, Blobs, the transform, AuditEvents) as [Execute] does.
    - DatabaseEngine, DatabasePool (internal/engine/database,
      internal/dbpool): tools that run on a database.
    - McpSessions (internal/mcp/sessions.go): the sessions of a replica.

    What was done:
    - AuditEvents, AuditWriter, AuditSpool, AuditChain, AuditRetention
      (internal/audit): what an event may carry; its way through queue,
      overflow and disk to the stream, or to a counted loss; the stream's
      hash links and their verification; cutting and scrubbing it.

    ** What the theorems show

    - Decisions are the declared rules: [Authz.Evaluate_allow_iff],
      [Roles.preview_foretells], [Approvals.Check_gates],
      [OAuth.code_exchange_exactly].
    - State stays well formed through every history of operations:
      [AuditRetention.lawful_history_verifies],
      [Roles.roles_stay_well_formed], [Roles.an_owner_remains],
      [McpSessions.held_within_limits], [DatabasePool.no_pool_is_lost],
      [ConnectorGuarantees.a_new_surface_has_a_new_version].
    - No history of operations, interleaved where requests are, opens what
      was closed: [OAuthFlow.a_credential_is_answered_once],
      [OAuthFlow.ended_session_leaves_no_token],
      [AuthzCache.cached_bindings_fresh], [Keyring.signed_token_verifies],
      [ApiKeys.keys_never_gain], [Members.ended_member_is_refused],
      [ToolAnnotations.saves_do_not_declassify], [Approvals.approval_runs_once],
      [ConnectorGuarantees.no_lost_update],
      [ConnectorGuarantees.the_reviewed_plan_is_applied],
      [ConnectorApprovals.an_open_request_is_for_what_was_asked].
    - What crosses a boundary is what was meant to:
      [Invoke.what_leaves_was_agreed_and_screened],
      [Tmpl.SQL_text_independent_of_params], [Ssrf.guarded_dial],
      [Blobs.blob_reaches_its_owner],
      [AuditEvents.stored_payload_tells_no_more],
      [DatabaseEngine.read_only_connector_only_queries],
      [ResponseCache.hit_answers_the_question].
    - Optimised or stateful code equals a pure definition:
      [Dlp.Apply_masks], [Dlp.maskSpans_exact], the matcher of Regex, the
      windows of Detectors.
    - Nothing is lost silently: [AuditWriter.every_event_accounted],
      [Invoke.every_call_is_recorded],
      [AuditChain.verified_history_cannot_be_rewritten].
    - Where the code does less than its comments or documents say, a lemma or
      an Example exhibits it, such as [Invoke.size_cap_needs_a_transform],
      [Roles.deleting_a_role_opens_its_tools],
      [ConnectorApprovals.a_moved_connector_keeps_its_requests] and
      [DatabaseEngine.statements_hidden_by_a_string].

    ** Fuel

    Most functions are structural. The others take fuel that their callers
    set to a bound the recursion cannot reach, and a lemma beside each says
    so or the theorems are proved of the fuelled call as the callers make it:
    a star in Regex gets the length of the remaining text (every round
    consumes a symbol); searching a text gets one more than its length; the
    loops of GoStrings, Detectors, Tmpl and CustomDetectors that walk a
    string get its length; [Dlp.mask_loop] gets the number of hits;
    [AuditSpool.write_loop] the number of entries, [AuditWriter.replay] the
    number of segments; the chunks of Sha256 the length of the padded
    message. Delivery in AuditWriter, which retries, has its own bound from
    the configured attempts ([AuditWriter.deliver_decides]).

    ** Not modelled

    - Handlers of internal/httpapi and internal/mcp (apart from the sessions,
      roles and key routes): decoding a request, calling a modelled component
      and encoding its answer. They keep no state of their own.
    - Clients of outside systems: the HTTP engines (REST, GraphQL,
      catalogue), single sign-on protocols, upstream OAuth, key services,
      the exporters of the audit stream, SMTP, telemetry.
    - The drivers and the pool below a transaction, partitions, migrations
      (the SQL functions the modelled writes call are modelled with them).
    - Importers of API descriptions (OpenAPI, Postman, curl, GraphQL) and the
      validator and converter of adapter files: they produce definitions that
      an administrator reviews before anything uses them, and change no state.
    - Configuration, the command line, the web frontend and the tests.
    - Of the modelled packages: listings that only read rows, log lines and
      metrics, and file-system work such as heartbeats in the spool and
      taking over another replica's directory. *)

From Stdlib Require Export Ascii.
From stdpp Require Export base tactics list gmap strings sorting.
From Stdlib Require Export ZArith Lia.

Declare Scope go_scope.
Delimit Scope go_scope with go.

(** ** Results of fallible Go code *)

(** A Go function returning [(T, error)]: the value, or the error. *)
Inductive result (E A : Type) : Type :=
| Ok (a : A)
| Err (e : E).
Arguments Ok {E A} a.
Arguments Err {E A} e.

#[export] Instance result_ret {E} : MRet (result E) := fun A a => Ok a.
#[export] Instance result_bind {E} : MBind (result E) := fun A B f m =>
  match m with Ok a => f a | Err e => Err e end.
#[export] Instance result_fmap {E} : FMap (result E) := fun A B f m =>
  match m with Ok a => Ok (f a) | Err e => Err e end.

Definition is_ok {E A} (r : result E A) : bool :=
  match r with Ok _ => true | Err _ => false end.

(** A sequence succeeds when each part does. *)
Lemma bind_ok {E A B} (m : result E A) (f : A -> result E B) b : m ≫= f = Ok b <-> exists a, m = Ok a /\ f a = Ok b.
Proof. destruct m as [a|e]; cbn; [|by split; [|intros (? & ? & _)]]. split; [by eauto|]. by intros (? & [= ->] & ?). Qed.

(** ** Tactics *)

(** Turn boolean hypotheses into propositions, and split conjunctions. *)
Ltac bool_prop :=
  repeat match goal with
  | H : (_ && _)%bool = true |- _ => apply andb_true_iff in H; destruct H
  | H : (_ || _)%bool = false |- _ => apply orb_false_iff in H; destruct H
  | H : (_ || _)%bool = true |- _ => apply orb_true_iff in H
  | H : (_ && _)%bool = false |- _ => apply andb_false_iff in H
  | H : negb _ = true |- _ => apply negb_true_iff in H
  | H : negb _ = false |- _ => apply negb_false_iff in H
  | H : bool_decide _ = true |- _ => apply bool_decide_eq_true in H
  | H : bool_decide _ = false |- _ => apply bool_decide_eq_false in H
  | H : Z.ltb _ _ = true |- _ => apply Z.ltb_lt in H
  | H : Z.ltb _ _ = false |- _ => apply Z.ltb_ge in H
  | H : Z.leb _ _ = true |- _ => apply Z.leb_le in H
  | H : Z.leb _ _ = false |- _ => apply Z.leb_gt in H
  | H : Z.eqb _ _ = true |- _ => apply Z.eqb_eq in H
  | H : Z.eqb _ _ = false |- _ => apply Z.eqb_neq in H
  | H : Nat.ltb _ _ = true |- _ => apply Nat.ltb_lt in H
  | H : Nat.ltb _ _ = false |- _ => apply Nat.ltb_ge in H
  | H : Nat.leb _ _ = true |- _ => apply Nat.leb_le in H
  | H : Nat.leb _ _ = false |- _ => apply Nat.leb_gt in H
  | H : Nat.eqb _ _ = true |- _ => apply Nat.eqb_eq in H
  | H : Nat.eqb _ _ = false |- _ => apply Nat.eqb_neq in H
  | H : String.eqb _ _ = true |- _ => apply String.eqb_eq in H
  | H : String.eqb _ _ = false |- _ => apply String.eqb_neq in H
  end.

(** ** Strings *)

Create HintDb go.
Create Rewrite HintDb go.

Lemma app_cons_str (a : Ascii.ascii) (s t : string) : String a s +:+ t = String a (s +:+ t).
Proof. done. Qed.

Lemma app_empty_l (s : string) : "" +:+ s = s.
Proof. done. Qed.

Lemma app_empty_r (s : string) : s +:+ "" = s.
Proof. induction s as [|a s IH]; [done|]. by rewrite app_cons_str, IH. Qed.

Lemma app_assoc_str (a b c : string) : (a +:+ b) +:+ c = a +:+ (b +:+ c).
Proof. induction a as [|x a IH]; [done|]. by rewrite !app_cons_str, IH. Qed.

Lemma prefix_app (s t : string) : String.prefix s (s +:+ t) = true.
Proof.
  induction s as [|a s IH]; [by destruct t|]. rewrite app_cons_str. cbn.
  destruct (Ascii.ascii_dec a a); [done|congruence].
Qed.

Lemma prefix_true (s t : string) : String.prefix s t = true -> exists u, t = s +:+ u.
Proof.
  revert t; induction s as [|a s IH]; intros t H; [by exists t|].
  destruct t as [|b t]; [done|]. cbn in H.
  destruct (Ascii.ascii_dec a b) as [->|]; [|done].
  destruct (IH t H) as [u ->]. by exists u.
Qed.

#[export] Hint Rewrite app_empty_l app_empty_r app_cons_str app_assoc_str prefix_app : go.
#[export] Hint Resolve prefix_app : go.

(** A byte occurs in a string. *)
Definition has_byte (c : Ascii.ascii) (s : string) : bool :=
  existsb (fun a => bool_decide (a = c)) (String.list_ascii_of_string s).

(** Two strings split at the first occurrence of a byte split alike. *)
Lemma app_sep_inj (c : Ascii.ascii) (a b x y : string) :
  has_byte c a = false -> has_byte c b = false ->
  a +:+ String c x = b +:+ String c y -> a = b /\ x = y.
Proof.
  revert b; induction a as [|u a IH]; intros [|v b] Ha Hb E;
    rewrite ?app_empty_l, ?app_cons_str in E; cbn in *.
  - by simplify_eq.
  - simplify_eq. rewrite bool_decide_eq_true_2 in Hb by done. done.
  - simplify_eq. rewrite bool_decide_eq_true_2 in Ha by done. done.
  - bool_prop. simplify_eq. destruct (IH b) as [-> ->]; auto.
Qed.

(** ** Lists *)

Lemma existsb_bool_decide_elem {A} `{EqDecision A} (x : A) (l : list A) :
  existsb (fun y => bool_decide (y = x)) l = true <-> x ∈ l.
Proof.
  rewrite existsb_exists. setoid_rewrite bool_decide_eq_true.
  rewrite list_elem_of_In. split; [by intros (? & ? & ->)|by exists x].
Qed.

Lemma existsb_elem {A} (f : A -> bool) (l : list A) :
  existsb f l = true <-> exists x, x ∈ l /\ f x = true.
Proof. rewrite existsb_exists. by setoid_rewrite list_elem_of_In. Qed.

Lemma existsb_false_elem {A} (f : A -> bool) (l : list A) :
  existsb f l = false <-> forall x, x ∈ l -> f x = false.
Proof.
  rewrite <-not_true_iff_false, existsb_elem. split.
  - intros H x Hx. apply not_true_iff_false. eauto.
  - intros H (x & Hx & E). rewrite H in E; done.
Qed.

Lemma filter_length_impl {A} (P Q : A -> Prop) `{!forall x, Decision (P x), !forall x, Decision (Q x)} (l : list A) :
  (forall x, x ∈ l -> P x -> Q x) -> length (filter P l) <= length (filter Q l).
Proof.
  induction l as [|x l IH]; intros HPQ; [done|]. rewrite !filter_cons.
  assert (IH' : length (filter P l) <= length (filter Q l)).
  { apply IH. intros y Hy. apply HPQ. by right. }
  assert (Hx : P x -> Q x) by (apply HPQ; left).
  repeat case_decide; cbn; try lia. tauto.
Qed.

Lemma filter_ext_in {A} (P Q : A -> Prop) `{!forall x, Decision (P x), !forall x, Decision (Q x)} (l : list A) :
  (forall x, x ∈ l -> P x <-> Q x) -> filter P l = filter Q l.
Proof.
  induction l as [|x l IH]; intros HPQ; [done|]. rewrite !filter_cons.
  rewrite IH by (intros y Hy; apply HPQ; by right).
  pose proof (HPQ x ltac:(left)). repeat case_decide; [done|tauto|tauto|done].
Qed.

Lemma filter_keeps_all {A} (f : A -> bool) l : (forall x, x ∈ l -> f x = true) -> List.filter f l = l.
Proof.
  induction l as [|x l IH]; intros H; [done|]. cbn. rewrite (H x) by left. f_equal. apply IH. intros y Hy. apply H. by right.
Qed.

Lemma filter_drops_all {A} (f : A -> bool) l : (forall x, x ∈ l -> f x = false) -> List.filter f l = [].
Proof.
  induction l as [|x l IH]; intros H; [done|]. cbn. rewrite (H x) by left. apply IH. intros y Hy. apply H. by right.
Qed.

Lemma filter_bool_perm {A} (f : A -> bool) (a b : list A) : a ≡ₚ b -> List.filter f a ≡ₚ List.filter f b.
Proof. induction 1; cbn; repeat case_match; try done; [by constructor|by constructor|by etrans]. Qed.

Lemma perm_eq {A} (l k : list A) : l = k -> l ≡ₚ k.
Proof. by intros ->. Qed.
