(* ===== verification/Tables.v ===== *)
(** * Tables: SQL tables as lists of rows

    The statements the components run on a table, and what they keep: UPDATE
    and DELETE with a WHERE, a SELECT by a unique column, row counts.  A
    table is the list of its rows in the order they were inserted. *)
From S2P Require Import Prelude.

Open Scope list_scope.

(** UPDATE ... WHERE [p]. *)
Definition update_where {A} (p : A -> bool) (f : A -> A) (l : list A) : list A := map (fun x => if p x then f x else x) l.

(** DELETE ... WHERE [p]. *)
Definition delete_where {A} (p : A -> bool) (l : list A) : list A := List.filter (fun x => negb (p x)) l.

Definition is_null {A} (x : option A) : bool := match x with None => true | Some _ => false end.

Lemma find_elem {A} (p : A -> bool) l x : List.find p l = Some x -> x ∈ l /\ p x = true.
Proof. intros H. apply find_some in H as [? ?]. by rewrite list_elem_of_In. Qed.

Lemma update_where_none {A} (p : A -> bool) f l : (forall x, x ∈ l -> p x = false) -> update_where p f l = l.
Proof.
  intros H. unfold update_where. induction l as [|a l IH]; [done|]. simpl. rewrite (H a) by constructor.
  f_equal. apply IH. intros x Hx. apply H. by constructor.
Qed.

Lemma elem_of_update {A} (p : A -> bool) f l y :
  y ∈ update_where p f l <-> exists x, x ∈ l /\ y = (if p x then f x else x).
Proof. unfold update_where. rewrite list_elem_of_fmap. naive_solver. Qed.

Lemma elem_of_delete {A} (p : A -> bool) l x : x ∈ delete_where p l <-> x ∈ l /\ p x = false.
Proof. unfold delete_where. rewrite !list_elem_of_In, filter_In, negb_true_iff. done. Qed.

(** The rows a statement does not speak of, in their order. *)
Lemma filter_update {A} (q p : A -> bool) f l : (forall x, p x = true -> q x = false /\ q (f x) = false) ->
  List.filter q (update_where p f l) = List.filter q l.
Proof.
  intros H. unfold update_where. induction l as [|x l IH]; [done|]. simpl. destruct (p x) eqn:E; [|by rewrite IH].
  destruct (H x E) as [-> ->]. exact IH.
Qed.

Lemma filter_delete {A} (q p : A -> bool) l : (forall x, p x = true -> q x = false) ->
  List.filter q (delete_where p l) = List.filter q l.
Proof.
  intros H. unfold delete_where. induction l as [|x l IH]; [done|]. simpl. destruct (p x) eqn:E; simpl; [rewrite (H x E)|]; by rewrite IH.
Qed.

Lemma find_update {A} (p q : A -> bool) f l : (forall x, q (f x) = q x) ->
  List.find q (update_where p f l) = (fun x => if p x then f x else x) <$> List.find q l.
Proof.
  intros H. induction l as [|a l IH]; [done|]. simpl. destruct (p a) eqn:E; [rewrite H|]; destruct (q a); simpl; rewrite ?E; done.
Qed.


Lemma is_null_true {A} (x : option A) : is_null x = true <-> x = None.
Proof. by destruct x. Qed.

Lemma find_snoc {A} (p : A -> bool) l x : (forall y, y ∈ l -> p y = false) -> p x = true -> List.find p (l ++ [x]) = Some x.
Proof.
  intros H P. induction l as [|a l IH]; simpl; [by rewrite P|]. rewrite (H a) by constructor. apply IH. intros y Hy. apply H. by constructor.
Qed.

Lemma map_update {A B} (g : A -> B) p h l : (forall x, g (h x) = g x) -> map g (update_where p h l) = map g l.
Proof. intros H. unfold update_where. rewrite map_map. apply map_ext. intros x. by destruct (p x). Qed.

Lemma sublist_map_filter {A B} (g : A -> B) p l : sublist (map g (List.filter p l)) (map g l).
Proof. induction l as [|x l IH]; [done|]. simpl. destruct (p x); simpl; by constructor. Qed.

Lemma NoDup_map_inj {A B} (g : A -> B) (l : list A) x y : NoDup (map g l) -> x ∈ l -> y ∈ l -> g x = g y -> x = y.
Proof.
  induction l as [|a l IH]; [by intros _ ?%elem_of_nil|]. simpl. intros [N D]%NoDup_cons Hx Hy E.
  apply elem_of_cons in Hx as [->|Hx], Hy as [->|Hy]; [done|..|by apply IH].
  - destruct N. rewrite E. apply list_elem_of_fmap. by exists y.
  - destruct N. rewrite <- E. apply list_elem_of_fmap. by exists x.
Qed.

Lemma length_filter_delete {A} (p : A -> bool) i l x : l !! i = Some x ->
  length (List.filter p l) = (if p x then 1 else 0) + length (List.filter p (delete i l)).
Proof.
  revert i. induction l as [|y l IH]; intros [|i]; simpl; try done.
  - intros [= ->]. by destruct (p x).
  - intros H. specialize (IH i H). destruct (p y); simpl; rewrite IH; [|done]. lia.
Qed.

Lemma length_filter_sublist {A} (p : A -> bool) l k : sublist l k -> length (List.filter p l) <= length (List.filter p k).
Proof. induction 1; simpl; [done|destruct (p x); simpl; lia..]. Qed.

Lemma find_keyed {A} (key : A -> string) l x : NoDup (map key l) -> x ∈ l ->
  List.find (fun y => String.eqb (key y) (key x)) l = Some x.
Proof.
  intros N Hx. destruct (List.find _ l) as [y|] eqn:E.
  - apply find_elem in E as [Hy E]. apply String.eqb_eq in E. f_equal. by apply (NoDup_map_inj key l).
  - exfalso. rewrite list_elem_of_In in Hx. apply find_none with (x := x) in E; [|done]. by rewrite String.eqb_refl in E.
Qed.

Lemma find_then {A} (p : A -> bool) l x : List.find p (l ++ [x]) = match List.find p l with Some y => Some y | None => if p x then Some x else None end.
Proof. induction l as [|a l IH]; [done|]. simpl. by destruct (p a). Qed.
