(* ===== verification/GoStrings.v ===== *)
(** * GoStrings: the part of Go's [strings] and [unicode] the program uses

    A Go string is a sequence of bytes: a [string] here.  [strings.ToLower]
    and [strings.ToUpper] leave the ASCII path for a string with a byte of
    0x80 or more, where they need the Unicode tables; the mapping they then
    apply is an argument. *)

From S2P Require Import Prelude.

Definition byte_val (a : ascii) : Z := Z.of_nat (nat_of_ascii a).

Definition is_ascii_byte (a : ascii) : bool := (byte_val a <? 128)%Z.

Fixpoint str_drop (n : nat) (s : string) : string :=
  match n, s with
  | S n, String _ s => str_drop n s
  | _, _ => s
  end.

Fixpoint str_take (n : nat) (s : string) : string :=
  match n, s with
  | S n, String a s => String a (str_take n s)
  | _, _ => ""
  end.

Definition HasPrefix (s p : string) : bool := String.prefix p s.

Definition str_rev (s : string) : string :=
  String.string_of_list_ascii (rev (String.list_ascii_of_string s)).

Definition HasSuffix (s p : string) : bool := String.prefix (str_rev p) (str_rev s).

(** [strings.TrimSuffix]. *)
Definition TrimSuffix (s suf : string) : string :=
  if HasSuffix s suf then str_take (String.length s - String.length suf) s else s.

(** [strings.Index]; [None] is -1. *)
Fixpoint Index (s sub : string) : option nat :=
  if String.prefix sub s then Some 0
  else match s with
       | "" => None
       | String _ s => S <$> Index s sub
       end.

Definition Contains (s sub : string) : bool :=
  match Index s sub with Some _ => true | None => false end.

(** [strings.Cut]: before, after, found. *)
Fixpoint Cut (s sep : string) : string * string * bool :=
  if String.prefix sep s then ("", str_drop (String.length sep) s, true)
  else match s with
       | "" => ("", "", false)
       | String a s => let '(b, af, found) := Cut s sep in (String a b, af, found)
       end.

(** [strings.Split] for a separator of one byte. *)
Fixpoint Split (s : string) (c : ascii) : list string :=
  match s with
  | "" => [""]
  | String a s =>
      if decide (a = c) then "" :: Split s c
      else match Split s c with
           | h :: t => String a h :: t
           | [] => [String a ""]
           end
  end.

Fixpoint Join (l : list string) (sep : string) : string :=
  match l with
  | [] => ""
  | [x] => x
  | x :: l => x +:+ sep +:+ Join l sep
  end.

Fixpoint str_map (f : ascii -> ascii) (s : string) : string :=
  match s with "" => "" | String a s => String (f a) (str_map f s) end.

Fixpoint str_forall (f : ascii -> bool) (s : string) : bool :=
  match s with "" => true | String a s => f a && str_forall f s end.

(** *** Case *)

Definition lower_byte (a : ascii) : ascii :=
  if ((65 <=? byte_val a) && (byte_val a <=? 90))%Z
  then ascii_of_nat (nat_of_ascii a + 32) else a.

Definition upper_byte (a : ascii) : ascii :=
  if ((97 <=? byte_val a) && (byte_val a <=? 122))%Z
  then ascii_of_nat (nat_of_ascii a - 32) else a.

(** [map] is what [unicode.ToLower] makes of a string that is not ASCII. *)
Definition ToLower (map : string -> string) (s : string) : string :=
  if str_forall is_ascii_byte s then str_map lower_byte s else map s.

Definition ToUpper (map : string -> string) (s : string) : string :=
  if str_forall is_ascii_byte s then str_map upper_byte s else map s.

(** *** White space: the UTF-8 encodings of the runes [unicode.IsSpace] holds of *)

Definition bytes_str (l : list nat) : string := String.string_of_list_ascii (map ascii_of_nat l).

Definition space_encodings : list string :=
  map (fun n => bytes_str [n]) [9; 10; 11; 12; 13; 32] ++
  map bytes_str [[194; 133]; [194; 160]; [225; 154; 128];
    [226; 128; 128]; [226; 128; 129]; [226; 128; 130]; [226; 128; 131]; [226; 128; 132]; [226; 128; 133];
    [226; 128; 134]; [226; 128; 135]; [226; 128; 136]; [226; 128; 137]; [226; 128; 138];
    [226; 128; 168]; [226; 128; 169]; [226; 128; 175]; [226; 129; 159]; [227; 128; 128]].

(** Drop leading members of [encs]; fuel is the length of the string. *)
Fixpoint trim_go (encs : list string) (fuel : nat) (s : string) : string :=
  match fuel with
  | 0 => s
  | S fuel =>
      match List.find (fun e => String.prefix e s) encs with
      | Some e => trim_go encs fuel (str_drop (String.length e) s)
      | None => s
      end
  end.

Definition TrimLeftSpace (s : string) : string := trim_go space_encodings (String.length s) s.

Definition TrimRightSpace (s : string) : string :=
  str_rev (trim_go (map str_rev space_encodings) (String.length s) (str_rev s)).

Definition TrimSpace (s : string) : string := TrimRightSpace (TrimLeftSpace s).

(** *** Lemmas *)

Lemma str_drop_app (s t : string) : str_drop (String.length s) (s +:+ t) = t.
Proof. induction s as [|a s IH]; [by destruct t|]. rewrite app_cons_str. exact IH. Qed.

Lemma str_take_app (s t : string) : str_take (String.length s) (s +:+ t) = s.
Proof. induction s as [|a s IH]; [by destruct t|]. rewrite app_cons_str. cbn. by rewrite IH. Qed.

Lemma length_str_take n s : n <= String.length s -> String.length (str_take n s) = n.
Proof. revert s; induction n as [|n IH]; intros [|c s] H; cbn in *; try lia. rewrite IH; lia. Qed.

Lemma length_str_drop n s : String.length (str_drop n s) = String.length s - n.
Proof. revert s; induction n as [|n IH]; intros [|c s]; cbn; try lia. apply IH. Qed.

Lemma str_take_drop n s : str_take n s +:+ str_drop n s = s.
Proof.
  revert s; induction n as [|n IH]; intros [|a s]; try done. cbn. by rewrite app_cons_str, IH.
Qed.

Lemma length_app_str (s t : string) : String.length (s +:+ t) = String.length s + String.length t.
Proof. induction s as [|a s IH]; [done|]. rewrite app_cons_str. cbn. by rewrite IH. Qed.

#[export] Hint Rewrite str_drop_app str_take_app str_take_drop length_app_str : go.

Lemma Cut_not_found s sep b a : Cut s sep = (b, a, false) -> b = s /\ a = "".
Proof.
  revert b a; induction s as [|x s IH]; intros b a; cbn [Cut]; destruct (String.prefix sep _); try done.
  - by intros [= <- <-].
  - destruct (Cut s sep) as [[b' a'] f] eqn:E. intros [= <- <- ->].
    destruct (IH b' a' eq_refl) as [-> ->]. done.
Qed.

Lemma prefix_drop p s : String.prefix p s = true -> p +:+ str_drop (String.length p) s = s.
Proof. intros [u ->]%prefix_true. by rewrite str_drop_app. Qed.

Lemma Cut_found s sep b a : Cut s sep = (b, a, true) -> s = b +:+ sep +:+ a.
Proof.
  revert b a; induction s as [|x s IH]; intros b a; cbn [Cut]; destruct (String.prefix sep _) eqn:P; try done.
  - intros [= <- <-]. by rewrite app_empty_l, prefix_drop.
  - intros [= <- <-]. by rewrite app_empty_l, prefix_drop.
  - destruct (Cut s sep) as [[b' a'] f] eqn:E. intros [= <- <- ->].
    rewrite (IH b' a' eq_refl). by autorewrite with go.
Qed.

Lemma prefix_single (c x : ascii) (s : string) :
  String.prefix (String c "") (String x s) = bool_decide (c = x).
Proof.
  cbn. destruct (ascii_dec c x) as [->|]; [|by rewrite bool_decide_eq_false_2].
  rewrite bool_decide_eq_true_2 by done. by destruct s.
Qed.

(** A one-byte cut splits at the first occurrence. *)
Lemma Cut_byte (c : ascii) (b a : string) :
  has_byte c b = false -> Cut (b +:+ String c a) (String c "") = (b, a, true).
Proof.
  induction b as [|x b IH]; intros H.
  - rewrite app_empty_l. cbn [Cut]. rewrite prefix_single, bool_decide_eq_true_2 by done. by destruct a.
  - cbn in H. bool_prop. rewrite app_cons_str. cbn [Cut].
    rewrite prefix_single, bool_decide_eq_false_2 by congruence. by rewrite IH.
Qed.

Lemma Cut_byte_none (c : ascii) (s : string) :
  has_byte c s = false -> Cut s (String c "") = (s, "", false).
Proof.
  induction s as [|x s IH]; intros H; [done|]. cbn in H. bool_prop. cbn [Cut].
  rewrite prefix_single, bool_decide_eq_false_2 by congruence. by rewrite IH.
Qed.

(** *** Trimming twice *)

Lemma app_inj_str (a b c : string) : a +:+ b = a +:+ c -> b = c.
Proof. induction a as [|x a IH]; [done|]. rewrite !app_cons_str. intros [= H]. by apply IH. Qed.

Lemma find_prefix_none encs s :
  List.find (fun e => String.prefix e s) encs = None <-> (forall e, e ∈ encs -> String.prefix e s = false).
Proof.
  induction encs as [|e encs IH]; cbn [List.find]; [split; [by intros _ ? ?%not_elem_of_nil|done]|].
  destruct (String.prefix e s) eqn:E; [split; [done|intros H; rewrite (H e) in E; [done|by left]]|].
  rewrite IH. split; intros H x; [intros [->|Hx]%elem_of_cons; [done|by apply H]|intros Hx; apply H; by right].
Qed.

Section trim.
Context (encs : list string) (Hne : forall e, e ∈ encs -> e <> "").

Lemma trim_go_done fuel s : String.length s <= fuel -> forall e, e ∈ encs -> String.prefix e (trim_go encs fuel s) = false.
Proof.
  revert s; induction fuel as [|fuel IH]; intros s Hl; cbn [trim_go].
  - destruct s; [|cbn in Hl; lia]. intros e He. pose proof (Hne e He). by destruct e.
  - destruct (List.find _ encs) as [e|] eqn:E; [|by apply find_prefix_none].
    apply find_some in E as [He Hp]. apply list_elem_of_In in He. apply IH.
    apply prefix_true in Hp as [u ->]. rewrite str_drop_app. rewrite length_app_str in Hl.
    pose proof (Hne e He). destruct e; [done|cbn in Hl; lia].
Qed.

Lemma trim_go_fixed fuel s : (forall e, e ∈ encs -> String.prefix e s = false) -> trim_go encs fuel s = s.
Proof. intros H. destruct fuel as [|fuel]; [done|]. cbn [trim_go]. by rewrite (proj2 (find_prefix_none encs s) H). Qed.

Lemma trim_go_suffix fuel s : exists p, s = p +:+ trim_go encs fuel s.
Proof.
  revert s; induction fuel as [|fuel IH]; intros s; cbn [trim_go]; [by exists ""|].
  destruct (List.find _ encs) as [e|] eqn:E; [|by exists ""].
  apply find_some in E as [_ Hp]. apply prefix_true in Hp as [u ->]. rewrite str_drop_app.
  destruct (IH u) as [p Hu]. exists (e +:+ p). by rewrite app_assoc_str, <-Hu.
Qed.
End trim.

Lemma list_of_app (a b : string) :
  String.list_ascii_of_string (a +:+ b) = String.list_ascii_of_string a ++ String.list_ascii_of_string b.
Proof. induction a as [|x a IH]; [done|]. rewrite app_cons_str. cbn. by rewrite IH. Qed.

Lemma string_of_app (a b : list ascii) :
  String.string_of_list_ascii (a ++ b) = String.string_of_list_ascii a +:+ String.string_of_list_ascii b.
Proof. induction a as [|x a IH]; [done|]. cbn. by rewrite IH. Qed.

Lemma string_length_of (l : list ascii) : String.length (String.string_of_list_ascii l) = length l.
Proof. induction l as [|a l IH]; [done|]. cbn. by rewrite IH. Qed.

Lemma length_list_of (s : string) : length (String.list_ascii_of_string s) = String.length s.
Proof. induction s; cbn; congruence. Qed.

Lemma str_rev_app a b : str_rev (a +:+ b) = str_rev b +:+ str_rev a.
Proof. unfold str_rev. by rewrite list_of_app, rev_app_distr, string_of_app. Qed.

Lemma str_rev_involutive s : str_rev (str_rev s) = s.
Proof.
  unfold str_rev. by rewrite String.list_ascii_of_string_of_list_ascii, rev_involutive, String.string_of_list_ascii_of_string.
Qed.

Lemma HasSuffix_true s p : HasSuffix s p = true <-> exists u, s = u +:+ p.
Proof.
  unfold HasSuffix. split.
  - intros [u E]%prefix_true. exists (str_rev u). by rewrite <- (str_rev_involutive s), E, str_rev_app, str_rev_involutive.
  - intros [u ->]. by rewrite str_rev_app, prefix_app.
Qed.

Lemma length_str_rev s : String.length (str_rev s) = String.length s.
Proof.
  induction s as [|a s IH]; [done|]. change (String a s) with (String a "" +:+ s).
  rewrite str_rev_app, !length_app_str, IH. cbn. lia.
Qed.

Lemma spaces_nonempty e : e ∈ space_encodings -> e <> "".
Proof. intros H ->. by vm_compute in H; repeat (apply elem_of_cons in H as [?|H]; [done|]); apply not_elem_of_nil in H. Qed.

Lemma rev_spaces_nonempty e : e ∈ map str_rev space_encodings -> e <> "".
Proof.
  intros (x & -> & Hx)%list_elem_of_fmap H. apply (spaces_nonempty x Hx).
  by rewrite <-(str_rev_involutive x), H.
Qed.

Lemma prefix_app_l p a b : String.prefix p a = true -> String.prefix p (a +:+ b) = true.
Proof. intros [u ->]%prefix_true. rewrite app_assoc_str. apply prefix_app. Qed.

Lemma TrimSpace_idem s : TrimSpace (TrimSpace s) = TrimSpace s.
Proof.
  unfold TrimSpace at 1. set (l := TrimLeftSpace s). set (t := TrimSpace s).
  assert (Ht : t = TrimRightSpace l) by done.
  assert (Hl : forall e, e ∈ space_encodings -> String.prefix e l = false) by (apply trim_go_done; [apply spaces_nonempty|done]).
  destruct (trim_go_suffix (map str_rev space_encodings) (String.length l) (str_rev l)) as [p Hp].
  assert (Hpre : l = t +:+ str_rev p).
  { rewrite Ht. unfold TrimRightSpace. by rewrite <-str_rev_app, <-Hp, str_rev_involutive. }
  assert (TrimLeftSpace t = t) as ->.
  { apply trim_go_fixed. intros e He. apply not_true_iff_false. intros H. apply (prefix_app_l _ _ (str_rev p)) in H.
    rewrite <-Hpre, Hl in H; done. }
  unfold TrimRightSpace. rewrite (trim_go_fixed (map str_rev space_encodings)); [apply str_rev_involutive|].
  rewrite Ht. unfold TrimRightSpace. rewrite str_rev_involutive.
  apply trim_go_done; [apply rev_spaces_nonempty|]. by rewrite length_str_rev.
Qed.

(** *** [strings.Fields]: the runs between white space *)

Definition push_field (cur : string) (fs : list string) : list string :=
  if String.eqb cur "" then fs else cur :: fs.

(** [skip] bytes of a space are left; [cur] is the field so far. *)
Fixpoint fields_go (skip : nat) (cur s : string) : list string :=
  match s with
  | "" => push_field cur []
  | String c s' =>
      match skip with
      | S skip => fields_go skip cur s'
      | 0 => match List.find (fun e => String.prefix e s) space_encodings with
             | Some e => push_field cur (fields_go (String.length e - 1) "" s')
             | None => fields_go 0 (cur +:+ String c "") s'
             end
      end
  end.

Definition Fields (s : string) : list string := fields_go 0 "" s.

(** ASCII without white space: the bytes of a word. *)
Definition word_byte (c : ascii) : bool := is_ascii_byte c && negb (existsb (Ascii.eqb c) (map ascii_of_nat [9; 10; 11; 12; 13; 32])).

Lemma word_byte_no_space c s : word_byte c = true -> List.find (fun e => String.prefix e (String c s)) space_encodings = None.
Proof.
  intros H. destruct c as [[] [] [] [] [] [] [] []]; try discriminate H; reflexivity.
Qed.

Lemma fields_word w s cur : str_forall word_byte w = true ->
  fields_go 0 cur (w +:+ s) = fields_go 0 (cur +:+ w) s.
Proof.
  revert cur. induction w as [|c w IH]; intros cur H.
  - by rewrite app_empty_r.
  - simpl in H. bool_prop. rewrite app_cons_str. cbn [fields_go]. rewrite word_byte_no_space by done.
    rewrite IH by done. by rewrite app_assoc_str.
Qed.

Lemma fields_space cur s : fields_go 0 cur (" " +:+ s) = push_field cur (fields_go 0 "" s).
Proof. rewrite app_cons_str, app_empty_l. by destruct s. Qed.

(** A word, as a scope or a role name is one. *)
Definition is_word_str (w : string) : bool := negb (String.eqb w "") && str_forall word_byte w.

Lemma Fields_Join l : Forall (fun w => is_word_str w = true) l -> Fields (Join l " ") = l.
Proof.
  unfold Fields. induction l as [|w l IH]; [done|]. intros F. inversion F as [|? ? H F']; subst.
  unfold is_word_str in H. bool_prop.
  assert (push_field w (fields_go 0 "" (Join l " ")) = w :: l) as E.
  { rewrite IH by done. unfold push_field. by rewrite (proj2 (String.eqb_neq _ _)). }
  destruct l as [|w' l].
  - simpl in *. rewrite <- (app_empty_r w) at 1. rewrite fields_word by done. simpl. exact E.
  - cbn [Join]. rewrite fields_word by done. rewrite app_empty_l. exact (eq_trans (fields_space _ _) E).
Qed.

Example Fields_runs : Fields "  a  b	c " = ["a"; "b"; "c"].
Proof. reflexivity. Qed.

(** ** Splitting and joining *)

Lemma Split_no_sep c s : has_byte c s = false -> Split s c = [s].
Proof.
  induction s as [|a s IH]; intros H; [done|]. cbn in H. bool_prop. cbn.
  destruct (decide (a = c)); [done|]. by rewrite IH.
Qed.

Lemma Split_parts c s : Forall (fun x => has_byte c x = false) (Split s c).
Proof.
  induction s as [|a s IH]; cbn; [by repeat constructor|]. destruct (decide (a = c)) as [->|N]; [by constructor|].
  destruct (Split s c) as [|h t]; [constructor; [|constructor]|inversion IH as [|? ? Hh Ht]; subst; constructor; [|done]];
    cbn; rewrite bool_decide_eq_false_2 by done; done.
Qed.

Lemma Split_app c x s : has_byte c x = false -> Split (x +:+ String c s) c = x :: Split s c.
Proof.
  induction x as [|a x IH]; intros H; [rewrite app_empty_l; cbn; by rewrite decide_True|]. cbn in H. bool_prop.
  rewrite app_cons_str. cbn. rewrite decide_False by done. by rewrite IH.
Qed.

Lemma Split_nonempty c s : Split s c <> [].
Proof. destruct s as [|a s]; cbn; [done|]. destruct (decide (a = c)); [done|]. by destruct (Split s c). Qed.

Lemma Split_Join c l : l <> [] -> Forall (fun x => has_byte c x = false) l -> Split (Join l (String c "")) c = l.
Proof.
  induction l as [|x l IH]; [done|]. intros _ F. inversion F as [|? ? Hx Hl]; subst. destruct l as [|y l]; [by apply Split_no_sep|].
  change (Join (x :: y :: l) (String c "")) with (x +:+ String c "" +:+ Join (y :: l) (String c "")).
  rewrite app_cons_str, app_empty_l, Split_app by done. by rewrite IH.
Qed.
