(* ===== verification/Base64.v ===== *)
(** * Base64: the unpadded URL alphabet (base64.RawURLEncoding)

    What the credential code of [internal/mcpauth] writes digests, signatures
    and token parts in.  Encoding is total; decoding is the library's, which
    skips line breaks, refuses any other byte outside the alphabet and a last
    group of one character, and ignores the spare bits of a short last group.
    Decoding undoes encoding, so encoding loses nothing. *)
From S2P Require Import Prelude GoStrings.

(** ** The alphabet *)

Definition url_char (n : Z) : ascii :=
  ascii_of_nat (Z.to_nat (if n <? 26 then n + 65 else if n <? 52 then n + 71 else if n <? 62 then n - 4
    else if n =? 62 then 45 else 95)%Z).

Definition url_val (c : ascii) : option Z :=
  let v := byte_val c in
  (if (65 <=? v) && (v <=? 90) then Some (v - 65)
   else if (97 <=? v) && (v <=? 122) then Some (v - 71)
   else if (48 <=? v) && (v <=? 57) then Some (v + 4)
   else if v =? 45 then Some 62 else if v =? 95 then Some 63 else None)%Z.

Definition sextets : list Z := map Z.of_nat (seq 0 64).

Lemma url_val_char n : (0 <= n < 64)%Z -> url_val (url_char n) = Some n.
Proof.
  intros R. assert (Forall (fun n => url_val (url_char n) = Some n) sextets) as H
    by (apply (bool_decide_unpack _); vm_compute; exact I).
  rewrite Forall_forall in H. apply H. unfold sextets. apply list_elem_of_fmap.
  exists (Z.to_nat n). split; [lia|]. apply elem_of_seq. lia.
Qed.

(** ** Encoding: three bytes are four characters, a short group two or three *)

Fixpoint encode_go (s : list ascii) : list ascii :=
  match s with
  | a :: b :: c :: s =>
      let n := (byte_val a * 65536 + byte_val b * 256 + byte_val c)%Z in
      url_char (n / 262144) :: url_char ((n / 4096) mod 64) :: url_char ((n / 64) mod 64) :: url_char (n mod 64) :: encode_go s
  | [a; b] =>
      let n := (byte_val a * 65536 + byte_val b * 256)%Z in
      [url_char (n / 262144); url_char ((n / 4096) mod 64); url_char ((n / 64) mod 64)]
  | [a] =>
      let n := (byte_val a * 65536)%Z in
      [url_char (n / 262144); url_char ((n / 4096) mod 64)]
  | [] => []
  end%Z.

Definition b64 (s : string) : string := String.string_of_list_ascii (encode_go (String.list_ascii_of_string s)).

Definition is_break (c : ascii) : bool := (byte_val c =? 10)%Z || (byte_val c =? 13)%Z.

Definition byte_of (n : Z) : ascii := ascii_of_nat (Z.to_nat (n mod 256)).

Fixpoint decode_go (s : list ascii) : option (list ascii) :=
  match s with
  | [] => Some []
  | a :: b :: c :: d :: s =>
      w ← url_val a; x ← url_val b; y ← url_val c; z ← url_val d;
      let n := (w * 262144 + x * 4096 + y * 64 + z)%Z in
      r ← decode_go s;
      Some (byte_of (n / 65536) :: byte_of (n / 256) :: byte_of n :: r)
  | [a; b; c] =>
      w ← url_val a; x ← url_val b; y ← url_val c;
      let n := (w * 262144 + x * 4096 + y * 64)%Z in
      Some [byte_of (n / 65536); byte_of (n / 256)]
  | [a; b] =>
      w ← url_val a; x ← url_val b;
      let n := (w * 262144 + x * 4096)%Z in
      Some [byte_of (n / 65536)]
  | [_] => None
  end%Z.

Definition unb64 (s : string) : option string :=
  String.string_of_list_ascii <$> decode_go (List.filter (fun c => negb (is_break c)) (String.list_ascii_of_string s)).

(** ** What the alphabet and a group keep *)

Lemma byte_range c : (0 <= byte_val c < 256)%Z.
Proof. unfold byte_val. pose proof (nat_ascii_bounded c). lia. Qed.

Lemma byte_of_val n c : (n mod 256 = byte_val c)%Z -> byte_of n = c.
Proof. intros E. unfold byte_of. rewrite E. unfold byte_val. rewrite Nat2Z.id. apply ascii_nat_embedding. Qed.

Lemma url_char_url n : (0 <= n < 64)%Z -> is_break (url_char n) = false.
Proof.
  intros H. pose proof (url_val_char _ H) as E. destruct (is_break (url_char n)) eqn:B; [|done].
  exfalso. unfold is_break in B. bool_prop.
  unfold url_val in E. destruct B as [B|B]; bool_prop; rewrite B in E; discriminate.
Qed.

(** Lists three bytes at a time. *)
Lemma triples_ind {A} (P : list A -> Prop) :
  P [] -> (forall a, P [a]) -> (forall a b, P [a; b]) -> (forall a b c l, P l -> P (a :: b :: c :: l)) -> forall l, P l.
Proof.
  intros P0 P1 P2 P3. refine (fix go l := _).
  destruct l as [|a [|b [|c l]]]; [apply P0|apply P1|apply P2|apply P3, go].
Qed.

Ltac byte_ranges :=
  repeat match goal with
  | a : ascii |- _ => lazymatch goal with H : (0 <= byte_val a < 256)%Z |- _ => fail | _ => pose proof (byte_range a) end
  end.

Ltac sextet := byte_ranges; Z.div_mod_to_equations; lia.

Lemma encode_unbroken l : List.filter (fun c => negb (is_break c)) (encode_go l) = encode_go l.
Proof.
  apply filter_keeps_all. intros x Hx.
  enough (Forall (fun c => is_break c = false) (encode_go l)) as F by (rewrite Forall_forall in F; by rewrite (F _ Hx)).
  clear x Hx. induction l using triples_ind; simpl; repeat constructor; try apply url_char_url; try done; sextet.
Qed.

Lemma decode_encode l : decode_go (encode_go l) = Some l.
Proof.
  induction l as [|a|a b|a b c l IH] using triples_ind; [done|..]; cbn [encode_go decode_go];
    rewrite !url_val_char by sextet; cbn [mbind option_bind]; [..|rewrite IH; cbn [mbind option_bind]]; repeat f_equal;
    apply byte_of_val; sextet.
Qed.

(** Decoding undoes encoding. *)
Lemma unb64_b64 s : unb64 (b64 s) = Some s.
Proof.
  unfold unb64, b64. rewrite String.list_ascii_of_string_of_list_ascii, encode_unbroken, decode_encode. simpl.
  by rewrite String.string_of_list_ascii_of_string.
Qed.

Lemma b64_length s : String.length (b64 s) = (4 * String.length s + 2) / 3.
Proof.
  unfold b64. rewrite string_length_of, <- (length_list_of s).
  induction (String.list_ascii_of_string s) as [|a|a b|a b c l IH] using triples_ind; [done..|]. cbn [encode_go length].
  rewrite IH. replace (4 * S (S (S (length l))) + 2) with (4 * length l + 2 + 4 * 3) by lia. rewrite Nat.div_add by done. lia.
Qed.

Lemma b64_inj s t : b64 s = b64 t -> s = t.
Proof. intros E. apply (f_equal unb64) in E. rewrite !unb64_b64 in E. congruence. Qed.

(** The alphabet holds neither of the separators the callers use. *)
Lemma url_char_plain n : (0 <= n < 64)%Z -> url_char n <> "."%char /\ url_char n <> ":"%char.
Proof.
  intros H. pose proof (url_val_char _ H) as E. split; intros B; rewrite B in E; discriminate.
Qed.

Lemma b64_no_dot s : has_byte "." (b64 s) = false /\ has_byte ":" (b64 s) = false.
Proof.
  unfold has_byte, b64. rewrite String.list_ascii_of_string_of_list_ascii.
  enough (Forall (fun c => c <> "."%char /\ c <> ":"%char) (encode_go (String.list_ascii_of_string s))) as F.
  { split; apply existsb_false_elem; intros x Hx; rewrite Forall_forall in F; destruct (F _ Hx); by apply bool_decide_eq_false. }
  induction (String.list_ascii_of_string s) using triples_ind; simpl; repeat constructor; try apply url_char_plain; try done; sextet.
Qed.

(** The digest of RFC 7636, appendix B. *)
Example b64_rfc7636 :
  b64 (bytes_str [19; 211; 30; 150; 26; 26; 216; 236; 47; 22; 177; 12; 76; 152; 46; 8; 118; 168; 120; 173; 109; 241;
                  68; 86; 110; 225; 137; 74; 203; 112; 249; 195]) = "E9Melhoa2OwvFrEMTJguCHaoeK1t8URWbuGJSstw-cM".
Proof. reflexivity. Qed.

Example unb64_spare_bits : unb64 "QR" = Some "A" /\ unb64 "QQ" = Some "A" /\ unb64 "Q" = None /\ unb64 "QQ==" = None.
Proof. repeat split. Qed.
