(* ===== verification/Float64.v ===== *)
(** * Float64: Go's float64 arithmetic and its integer widths

    A float64 is the IEEE 754 binary64 value of [SpecFloat], the executable
    specification of the standard library: 53 bits of precision, largest
    exponent 1024.  Durations are int64 nanoseconds. *)

From Stdlib Require Import SpecFloat.
From S2P Require Import Prelude.

Definition float64 : Type := spec_float.

Definition prec : Z := 53.
Definition emax : Z := 1024.

Definition f_add : float64 -> float64 -> float64 := SFadd prec emax.
Definition f_sub : float64 -> float64 -> float64 := SFsub prec emax.
Definition f_mul : float64 -> float64 -> float64 := SFmul prec emax.
Definition f_div : float64 -> float64 -> float64 := SFdiv prec emax.
Definition f_lt (a b : float64) : bool := SFltb a b.
Definition f_le (a b : float64) : bool := SFleb a b.

(** [float64(n)] for an integer. *)
Definition f_of_Z (n : Z) : float64 := binary_normalize prec emax n 0 false.

Definition min_int64 : Z := - 2 ^ 63.
Definition max_int64 : Z := 2 ^ 63 - 1.
Definition in_int64 (z : Z) : bool := ((min_int64 <=? z) && (z <=? max_int64))%Z.

(** Two's complement wrap-around at 64 bits. *)
Definition wrap64 (z : Z) : Z := ((z + 2 ^ 63) mod 2 ^ 64 - 2 ^ 63)%Z.

(** The value of a finite float truncated towards zero. *)
Definition f_trunc (f : float64) : Z :=
  match f with
  | S754_finite s m e =>
      let v := if (0 <=? e)%Z then (Z.pos m * 2 ^ e)%Z else (Z.pos m / 2 ^ (- e))%Z in
      if s then (- v)%Z else v
  | _ => 0%Z
  end.

(** [int64(f)]: truncation; what is out of range, infinite or not a number
    gives the value amd64's conversion gives. *)
Definition Z_of_f (f : float64) : Z :=
  match f with
  | S754_infinity _ | S754_nan => min_int64
  | _ => if in_int64 (f_trunc f) then f_trunc f else min_int64
  end.

Definition Second : Z := 1000000000.
Definition Minute : Z := 60 * Second.
Definition Hour : Z := 60 * Minute.
Definition Millisecond : Z := 1000000.

(** [Duration.Seconds]. *)
Definition Seconds (d : Z) : float64 :=
  f_add (f_of_Z (Z.quot d Second)) (f_div (f_of_Z (Z.rem d Second)) (f_of_Z Second)).

(** [Time.Sub] saturates at the ends of int64. *)
Definition time_sub (a b : Z) : Z := Z.max min_int64 (Z.min max_int64 (a - b)).

(** Subtracting one from a small whole float is exact: checked by
    computation for every count a budget of this program can reach. *)
Definition max_exact : nat := 1024.

Definition feqb (a b : float64) : bool :=
  match a, b with
  | S754_finite s m e, S754_finite s' m' e' => Bool.eqb s s' && Pos.eqb m m' && Z.eqb e e'
  | S754_zero s, S754_zero s' => Bool.eqb s s'
  | _, _ => false
  end.

Lemma feqb_eq a b : feqb a b = true -> a = b.
Proof.
  destruct a, b; cbn; try done.
  - intros H%Bool.eqb_prop. by subst.
  - intros H. bool_prop. f_equal; [by apply Bool.eqb_prop|by apply Pos.eqb_eq|done].
Qed.

Definition exact_at (n : nat) : bool :=
  let a := f_of_Z (Z.of_nat (S n)) in
  feqb (f_sub a (f_of_Z 1)) (f_of_Z (Z.of_nat n)) && f_le (f_of_Z 1) a &&
  Z.eqb (Z_of_f (f_of_Z (Z.of_nat n))) (Z.of_nat n) && negb (f_lt a (f_of_Z (Z.of_nat n))).

Lemma exact_all : forallb exact_at (seq 0 max_exact) = true.
Proof. vm_compute. reflexivity. Qed.

Lemma exact n : n < max_exact -> exact_at n = true.
Proof.
  intros H. pose proof exact_all as E. rewrite forallb_forall in E. apply E, in_seq. lia.
Qed.

Lemma f_pred n : n < max_exact -> f_sub (f_of_Z (Z.of_nat (S n))) (f_of_Z 1) = f_of_Z (Z.of_nat n).
Proof. intros H%exact. unfold exact_at in H. bool_prop. by apply feqb_eq. Qed.

Lemma f_one_le n : n < max_exact -> f_le (f_of_Z 1) (f_of_Z (Z.of_nat (S n))) = true.
Proof. intros H%exact. unfold exact_at in H. by bool_prop. Qed.

Lemma Z_of_f_small n : n < max_exact -> Z_of_f (f_of_Z (Z.of_nat n)) = Z.of_nat n.
Proof. intros H%exact. unfold exact_at in H. by bool_prop. Qed.

(** Whole numbers below 2^53 are held exactly: nothing is rounded away when
    one is read back. *)
Lemma digits_size m : digits2_pos m = Pos.size m.
Proof. induction m; simpl; congruence. Qed.

Lemma digits_bound m : (Z.pos m < 2 ^ 53)%Z -> (Z.pos (digits2_pos m) <= 53)%Z.
Proof.
  intros H. rewrite digits_size. pose proof (Pos.size_le m) as S.
  assert (2 ^ Z.pos (Pos.size m) <= 2 * Z.pos m)%Z as S' by (rewrite <- Pos2Z.inj_pow; lia).
  destruct (Z.le_gt_cases (Z.pos (Pos.size m)) 53) as [?|G]; [done|].
  assert (2 ^ 54 <= 2 ^ Z.pos (Pos.size m))%Z by (apply Z.pow_le_mono_r; lia). lia.
Qed.

Lemma digits_shift m d : digits2_pos (Pos.iter xO m d) = (digits2_pos m + d)%positive.
Proof.
  revert d. apply Pos.peano_ind; [simpl; lia|]. intros d IH. rewrite Pos.iter_succ. simpl. rewrite IH. lia.
Qed.

Lemma iter_shift m d : Z.pos (Pos.iter xO m d) = (Z.pos m * 2 ^ Z.pos d)%Z.
Proof. pose proof (Zpower.shift_pos_correct d m) as E. unfold Zpower.shift_pos in E. rewrite E. rewrite Z.pow_pos_fold. lia. Qed.

Lemma round_aux_exact s m e : Z.pos (digits2_pos m) = prec -> (-1074 <= e <= 0)%Z ->
  binary_round_aux prec emax s (Z.pos m) e loc_Exact = S754_finite s m e.
Proof.
  intros D R. unfold binary_round_aux, shr_fexp. cbn [shr_record_of_loc Zdigits2]. rewrite D.
  assert (fexp prec emax (prec + e) - e = 0)%Z as E by (unfold fexp, emin, prec, emax; lia). rewrite E.
  cbn [shr shr_m loc_of_shr_record round_nearest_even]. cbn [shr_record_of_loc Zdigits2]. rewrite D, E. cbn [shr shr_m].
  by rewrite (proj2 (Z.leb_le _ _)) by (unfold prec, emax; lia).
Qed.

Lemma normalize_pos s m : (Z.pos m < 2 ^ 53)%Z ->
  exists m' d, binary_round prec emax s m 0 = S754_finite s m' (- Z.of_N d) /\ Z.pos m' = (Z.pos m * 2 ^ Z.of_N d)%Z.
Proof.
  intros H%digits_bound. unfold binary_round, shl_align.
  assert (fexp prec emax (Z.pos (digits2_pos m) + 0) - 0 = Z.pos (digits2_pos m) - 53)%Z as ->
    by (unfold fexp, emin, prec, emax; lia).
  destruct (Z.pos (digits2_pos m) - 53)%Z as [|d|d] eqn:E; [|lia|].
  - exists m, 0%N. split; [|lia]. apply round_aux_exact; unfold prec; lia.
  - exists (Pos.iter xO m d), (N.pos d). split; [|apply iter_shift].
    assert (fexp prec emax (Z.pos (digits2_pos m) + 0) = - Z.pos d)%Z as -> by (unfold fexp, emin, prec, emax; lia).
    apply round_aux_exact; [rewrite digits_shift; unfold prec; lia|lia].
Qed.

Lemma f_trunc_scaled s m' m d : Z.pos m' = (Z.pos m * 2 ^ Z.of_N d)%Z ->
  f_trunc (S754_finite s m' (- Z.of_N d)) = if s then Z.neg m else Z.pos m.
Proof.
  intros E. unfold f_trunc. destruct (0 <=? - Z.of_N d)%Z eqn:L; bool_prop.
  - assert (d = 0%N) as -> by lia. simpl in E |- *. rewrite Z.mul_1_r in E. rewrite !E. destruct s; lia.
  - rewrite Z.opp_involutive, E, Z.div_mul by (apply Z.pow_nonzero; lia). by destruct s.
Qed.

Lemma Z_of_f_of_Z n : (Z.abs n < 2 ^ 53)%Z -> Z_of_f (f_of_Z n) = n.
Proof.
  intros H. unfold f_of_Z, binary_normalize. destruct n as [|m|m]; [done|..];
    [destruct (normalize_pos false m) as (m' & d & -> & E)|destruct (normalize_pos true m) as (m' & d & -> & E)]; try lia;
    unfold Z_of_f; rewrite (f_trunc_scaled _ _ _ _ E); unfold in_int64, min_int64, max_int64;
    rewrite !(proj2 (Z.leb_le _ _)) by lia; done.
Qed.
