(* ===== verification/Regex.v ===== *)
(** Go's regular expressions, as far as the program uses them.

    A [re] has the operators of Go's [regexp/syntax]; [mt] is the leftmost
    first matcher (a backtracking search with explicit continuations, in the
    priority order the syntax gives), [find_all] is [FindAllStringIndex].
    [Matches] says, without any order, which prefixes of a text an
    expression matches; the matcher is sound and complete for it, which is
    what the detectors' theorems use.  The symbols are a type of their own:
    bytes for the built-in detectors (their expressions are ASCII), runes
    for the expressions an administrator writes. *)
From S2P Require Import Prelude.

Set Warnings "-register-all".

Section regex.
Context {A : Type} `{EqDecision A}.
Context (word nl : A -> bool).

Inductive re : Type :=
  | NoMatch
  | EmptyMatch
  | Literal (l : list A)
  | CharClass (p : A -> bool)
  | AnyCharNotNL
  | AnyChar
  | BeginLine
  | EndLine
  | BeginText
  | EndText
  | WordBoundary
  | NoWordBoundary
  | Capture (r : re)
  | Star (greedy : bool) (r : re)
  | Plus (greedy : bool) (r : re)
  | Quest (greedy : bool) (r : re)
  | Repeat (min : nat) (max : option nat) (greedy : bool) (r : re)
  | Concat (l : list re)
  | Alternate (l : list re).

(** ** Positions *)

(** A position is the symbol before it, if any, and the text after it. *)
Definition at_word (o : option A) : bool := from_option word false o.

Definition boundary (prev : option A) (s : list A) : bool := negb (Bool.eqb (at_word prev) (at_word (head s))).

Definition line_begins (prev : option A) : bool := from_option nl true prev.

Definition line_ends (s : list A) : bool := from_option nl true (head s).

Definition is_none {B} (o : option B) : bool := match o with None => true | Some _ => false end.

Definition adv (prev : option A) (s : list A) (n : nat) : option A :=
  match n with 0 => prev | S n => s !! n end.

(** ** The matcher *)

(** What remains to be matched after the expression, as a search that says
    how many symbols it takes. *)
Definition cont : Type := option A -> list A -> option nat.

Definition matcher : Type := cont -> cont.

Definition m_assert (b : option A -> list A -> bool) : matcher :=
  fun k prev s => if b prev s then k prev s else None.

Definition m_set (p : A -> bool) : matcher :=
  fun k prev s => match s with
                  | c :: s => if p c then option_map S (k (Some c) s) else None
                  | [] => None
                  end.

Definition m_cat (f g : matcher) : matcher := fun k => f (g k).

Definition m_alt (f g : matcher) : matcher :=
  fun k prev s => match f k prev s with Some n => Some n | None => g k prev s end.

Definition m_opt (greedy : bool) (f : matcher) : matcher :=
  if greedy then m_alt f id else m_alt id f.

Fixpoint m_times (n : nat) (f : matcher) : matcher :=
  match n with 0 => id | S n => m_cat f (m_times n f) end.

Fixpoint m_upto (n : nat) (greedy : bool) (f : matcher) : matcher :=
  match n with 0 => id | S n => m_opt greedy (m_cat f (m_upto n greedy f)) end.

(** Each turn takes at least one symbol, so the text's length bounds them. *)
Fixpoint m_loop (fuel : nat) (greedy : bool) (f : matcher) (k : cont) : cont :=
  fun prev s =>
    match fuel with
    | 0 => k prev s
    | S fuel =>
        let again := f (fun prev' s' => if length s' <? length s then m_loop fuel greedy f k prev' s' else None) in
        if greedy
        then match again prev s with Some n => Some n | None => k prev s end
        else match k prev s with Some n => Some n | None => again prev s end
    end.

Definition m_star (greedy : bool) (f : matcher) : matcher := fun k prev s => m_loop (length s) greedy f k prev s.

Definition m_lit (l : list A) : matcher :=
  foldr (fun c f => m_cat (m_set (fun x => bool_decide (x = c))) f) id l.

Fixpoint mt (r : re) : matcher :=
  match r with
  | NoMatch => m_assert (fun _ _ => false)
  | EmptyMatch => id
  | Literal l => m_lit l
  | CharClass p => m_set p
  | AnyCharNotNL => m_set (fun c => negb (nl c))
  | AnyChar => m_set (fun _ => true)
  | BeginLine => m_assert (fun prev _ => line_begins prev)
  | EndLine => m_assert (fun _ s => line_ends s)
  | BeginText => m_assert (fun prev _ => is_none prev)
  | EndText => m_assert (fun _ s => is_none (head s))
  | WordBoundary => m_assert boundary
  | NoWordBoundary => m_assert (fun prev s => negb (boundary prev s))
  | Capture r => mt r
  | Star g r => m_star g (mt r)
  | Plus g r => m_cat (mt r) (m_star g (mt r))
  | Quest g r => m_opt g (mt r)
  | Repeat n None g r => m_cat (m_times n (mt r)) (m_star g (mt r))
  | Repeat n (Some m) g r => m_cat (m_times n (mt r)) (m_upto (m - n) g (mt r))
  | Concat l => foldr (fun r f => m_cat (mt r) f) id l
  | Alternate l => foldr (fun r f => m_alt (mt r) f) (m_assert (fun _ _ => false)) l
  end.

(** How much of [s] the expression takes at its start. *)
Definition match_here (r : re) (prev : option A) (s : list A) : option nat := mt r (fun _ _ => Some 0) prev s.

(** The leftmost match: where it starts and how long it is. *)
Fixpoint find_from (r : re) (prev : option A) (s : list A) : option (nat * nat) :=
  match match_here r prev s with
  | Some n => Some (0, n)
  | None => match s with
            | [] => None
            | c :: s => option_map (fun p => (S p.1, p.2)) (find_from r (Some c) s)
            end
  end.

(** The matches from [offset] on, left to right and without overlap; after
    an empty one the search moves on by one symbol. *)
Fixpoint find_loop (fuel : nat) (r : re) (prev : option A) (s : list A) (offset : nat) : list (nat * nat) :=
  match fuel with
  | 0 => []
  | S fuel =>
      match find_from r prev s with
      | None => []
      | Some (a, n) =>
          let step := a + (n `max` 1) in
          (offset + a, offset + a + n) ::
          (if step <=? length s then find_loop fuel r (adv prev s step) (drop step s) (offset + step) else [])
      end
  end.

Definition find_all (r : re) (s : list A) : list (nat * nat) := find_loop (S (length s)) r None s 0.

(** [MatchString]. *)
Definition match_string (r : re) (s : list A) : bool := negb (is_none (find_from r None s)).

(** ** What an expression matches *)

Definition rel : Type := option A -> list A -> nat -> Prop.

Definition r_set (p : A -> bool) : rel := fun _ s n => n = 1 /\ exists c s', s = c :: s' /\ p c = true.

Definition r_assert (b : option A -> list A -> bool) : rel := fun prev s n => n = 0 /\ b prev s = true.

Definition r_eps : rel := fun _ _ n => n = 0.

Definition r_cat (R T : rel) : rel :=
  fun prev s n => exists a b, n = a + b /\ R prev s a /\ T (adv prev s a) (drop a s) b.

Definition r_alt (R T : rel) : rel := fun prev s n => R prev s n \/ T prev s n.

Inductive r_star (R : rel) : rel :=
  | star_stop prev s : r_star R prev s 0
  | star_step prev s a b : R prev s a -> 0 < a -> r_star R (adv prev s a) (drop a s) b -> r_star R prev s (a + b).

Fixpoint r_times (n : nat) (R : rel) : rel :=
  match n with 0 => r_eps | S n => r_cat R (r_times n R) end.

Fixpoint r_upto (n : nat) (R : rel) : rel :=
  match n with 0 => r_eps | S n => r_alt (r_cat R (r_upto n R)) r_eps end.

Fixpoint Matches (r : re) : rel :=
  match r with
  | NoMatch => r_assert (fun _ _ => false)
  | EmptyMatch => r_eps
  | Literal l => foldr (fun c T => r_cat (r_set (fun x => bool_decide (x = c))) T) r_eps l
  | CharClass p => r_set p
  | AnyCharNotNL => r_set (fun c => negb (nl c))
  | AnyChar => r_set (fun _ => true)
  | BeginLine => r_assert (fun prev _ => line_begins prev)
  | EndLine => r_assert (fun _ s => line_ends s)
  | BeginText => r_assert (fun prev _ => is_none prev)
  | EndText => r_assert (fun _ s => is_none (head s))
  | WordBoundary => r_assert boundary
  | NoWordBoundary => r_assert (fun prev s => negb (boundary prev s))
  | Capture r => Matches r
  | Star _ r => r_star (Matches r)
  | Plus _ r => r_cat (Matches r) (r_star (Matches r))
  | Quest _ r => r_alt (Matches r) r_eps
  | Repeat n None _ r => r_cat (r_times n (Matches r)) (r_star (Matches r))
  | Repeat n (Some m) _ r => r_cat (r_times n (Matches r)) (r_upto (m - n) (Matches r))
  | Concat l => foldr (fun r T => r_cat (Matches r) T) r_eps l
  | Alternate l => foldr (fun r T => r_alt (Matches r) T) (r_assert (fun _ _ => false)) l
  end.

(** A matcher that finds what a relation allows and nothing else. *)
Record implements (f : matcher) (R : rel) : Prop := {
  im_len : forall prev s n, R prev s n -> n <= length s;
  im_sound : forall k prev s x, f k prev s = Some x ->
    exists n m, R prev s n /\ k (adv prev s n) (drop n s) = Some m /\ x = n + m;
  im_complete : forall k prev s n, R prev s n -> k (adv prev s n) (drop n s) <> None -> f k prev s <> None;
}.

Lemma adv_add prev s a b : a <= length s -> adv (adv prev s a) (drop a s) b = adv prev s (a + b).
Proof.
  intros Ha. destruct b as [|b]; cbn [adv]; [by rewrite Nat.add_0_r|].
  rewrite lookup_drop, Nat.add_succ_r. done.
Qed.

Lemma implements_set p : implements (m_set p) (r_set p).
Proof.
  split.
  - intros prev s n (-> & c & s' & -> & _). cbn. lia.
  - intros k prev [|c s] x; [done|]. cbn. destruct (p c) eqn:Hp; [|done].
    destruct (k (Some c) s) as [m|] eqn:Hk; [|done]. intros [= <-].
    exists 1, m. split; [split; [done|]; by eexists _, _|]. split; [|done]. cbn. by rewrite drop_0.
  - intros k prev s n (-> & c & s' & -> & Hp) Hk. cbn in *. rewrite Hp.
    rewrite ?drop_0 in Hk. by destruct (k (Some c) s').
Qed.

Lemma implements_assert b : implements (m_assert b) (r_assert b).
Proof.
  split.
  - intros prev s n [-> _]. lia.
  - intros k prev s x. unfold m_assert. destruct (b prev s) eqn:Hb; [|done]. intros Hk.
    exists 0, x. by split_and!.
  - intros k prev s n [-> Hb] Hk. unfold m_assert. by rewrite Hb.
Qed.

Lemma implements_eps : implements id r_eps.
Proof.
  split.
  - intros prev s n ->. lia.
  - intros k prev s x Hk. exists 0, x. by split_and!.
  - intros k prev s n -> Hk. done.
Qed.

Lemma implements_cat f g R T : implements f R -> implements g T -> implements (m_cat f g) (r_cat R T).
Proof.
  intros F G. split.
  - intros prev s n (a & b & -> & Ha & Hb). apply (im_len _ _ F) in Ha. apply (im_len _ _ G) in Hb.
    rewrite length_drop in Hb. lia.
  - intros k prev s x Hx. apply (im_sound _ _ F) in Hx as (a & m & Ha & Hm & ->).
    apply (im_sound _ _ G) in Hm as (b & m' & Hb & Hm' & ->).
    exists (a + b), m'. split_and!; [by exists a, b| |lia].
    rewrite <-adv_add by (by apply (im_len _ _ F) in Ha). by rewrite <-drop_drop.
  - intros k prev s n (a & b & -> & Ha & Hb) Hk. apply (im_complete _ _ F _ _ _ a Ha).
    apply (im_complete _ _ G _ _ _ b Hb). rewrite adv_add by (by apply (im_len _ _ F) in Ha).
    by rewrite drop_drop.
Qed.

Lemma implements_alt f g R T : implements f R -> implements g T -> implements (m_alt f g) (r_alt R T).
Proof.
  intros F G. split.
  - intros prev s n [H|H]; [by apply (im_len _ _ F) in H|by apply (im_len _ _ G) in H].
  - intros k prev s x. unfold m_alt. destruct (f k prev s) as [y|] eqn:Hf.
    + intros [= ->]. apply (im_sound _ _ F) in Hf as (a & m & ? & ? & ?). exists a, m. split_and!; [by left|done|done].
    + intros Hg. apply (im_sound _ _ G) in Hg as (a & m & ? & ? & ?). exists a, m. split_and!; [by right|done|done].
  - intros k prev s n [H|H] Hk; unfold m_alt.
    + apply (im_complete _ _ F k) in H; [|done]. by destruct (f k prev s).
    + destruct (f k prev s); [done|]. by apply (im_complete _ _ G k) in H.
Qed.

Lemma implements_ext f R T : (forall prev s n, R prev s n <-> T prev s n) -> implements f R -> implements f T.
Proof.
  intros E F. split.
  - intros prev s n H%E. by apply (im_len _ _ F) in H.
  - intros k prev s x Hx. apply (im_sound _ _ F) in Hx as (a & m & Ha%E & ? & ?). by exists a, m.
  - intros k prev s n H%E. by apply (im_complete _ _ F).
Qed.

Lemma implements_opt g f R : implements f R -> implements (m_opt g f) (r_alt R r_eps).
Proof.
  intros F. unfold m_opt. destruct g.
  - apply implements_alt; [done|apply implements_eps].
  - apply (implements_ext _ (r_alt r_eps R)); [unfold r_alt; tauto|].
    apply implements_alt; [apply implements_eps|done].
Qed.

Lemma implements_times n f R : implements f R -> implements (m_times n f) (r_times n R).
Proof.
  intros F. induction n as [|n IH]; [apply implements_eps|by apply implements_cat].
Qed.

Lemma implements_upto n g f R : implements f R -> implements (m_upto n g f) (r_upto n R).
Proof.
  intros F. induction n as [|n IH]; [apply implements_eps|].
  by apply implements_opt, implements_cat.
Qed.

Lemma r_star_len R prev s n : (forall prev s n, R prev s n -> n <= length s) -> r_star R prev s n -> n <= length s.
Proof.
  intros HR. induction 1 as [|prev s a b Ha Hp _ IH]; [lia|]. apply HR in Ha. rewrite length_drop in IH. lia.
Qed.

Lemma m_loop_sound f R g : implements f R -> forall fuel k prev s x,
  m_loop fuel g f k prev s = Some x ->
  exists n m, r_star R prev s n /\ k (adv prev s n) (drop n s) = Some m /\ x = n + m.
Proof.
  intros F. induction fuel as [|fuel IH]; intros k prev s x.
  { cbn. intros Hk. exists 0, x. split_and!; [constructor|done|done]. }
  assert (Hk : k prev s = Some x ->
    exists n m, r_star R prev s n /\ k (adv prev s n) (drop n s) = Some m /\ x = n + m).
  { intros Hk. exists 0, x. split_and!; [constructor|done|done]. }
  assert (Ha : f (fun prev' s' => if length s' <? length s then m_loop fuel g f k prev' s' else None) prev s = Some x ->
    exists n m, r_star R prev s n /\ k (adv prev s n) (drop n s) = Some m /\ x = n + m).
  { intros Ha. apply (im_sound _ _ F) in Ha as (a & m & Ha & Hm & ->).
    destruct (_ <? _) eqn:Hl; [|done]. bool_prop. apply IH in Hm as (b & m' & Hb & Hm' & ->).
    pose proof (im_len _ _ F _ _ _ Ha) as Hla. rewrite length_drop in Hl.
    exists (a + b), m'. split_and!; [econstructor; [done|lia|done]| |lia].
    rewrite <-adv_add by done. by rewrite <-drop_drop. }
  cbn [m_loop]. destruct g.
  - destruct (f _ prev s) as [y|] eqn:E; [intros [= ->]; by apply Ha|apply Hk].
  - destruct (k prev s) as [y|] eqn:E; [intros [= ->]; by apply Hk|apply Ha].
Qed.

Lemma m_loop_complete f R g : implements f R -> forall fuel k prev s n,
  length s <= fuel -> r_star R prev s n -> k (adv prev s n) (drop n s) <> None -> m_loop fuel g f k prev s <> None.
Proof.
  intros F. induction fuel as [|fuel IH]; intros k prev s n Hl Hs Hk.
  { apply r_star_len in Hs; [|apply (im_len _ _ F)]. replace n with 0 in Hk by lia. done. }
  assert (Ha : k prev s <> None \/ f (fun prev' s' => if length s' <? length s then m_loop fuel g f k prev' s' else None) prev s <> None).
  { inversion Hs as [|? ? a b Ha Hp Hb]; subst; [by left|right].
    pose proof (im_len _ _ F _ _ _ Ha) as Hla.
    apply (im_complete _ _ F _ _ _ a Ha). rewrite length_drop.
    rewrite (proj2 (Nat.ltb_lt _ _)) by lia. apply (IH _ _ _ b); [rewrite length_drop; lia|done|].
    by rewrite adv_add, drop_drop. }
  cbn [m_loop]. destruct g; destruct Ha as [Ha|Ha];
    destruct (f _ prev s), (k prev s); done.
Qed.

Lemma implements_star g f R : implements f R -> implements (m_star g f) (r_star R).
Proof.
  intros F. split.
  - intros prev s n. apply r_star_len, (im_len _ _ F).
  - intros k prev s x. unfold m_star. by apply m_loop_sound.
  - intros k prev s n Hs Hk. unfold m_star. by eapply m_loop_complete.
Qed.

(** Induction over the lists of expressions too. *)
Definition re_ind' (P : re -> Prop)
  (HNo : P NoMatch) (HEm : P EmptyMatch) (HLit : forall l, P (Literal l)) (HCl : forall p, P (CharClass p))
  (HNN : P AnyCharNotNL) (HAny : P AnyChar) (HBL : P BeginLine) (HEL : P EndLine) (HBT : P BeginText)
  (HET : P EndText) (HW : P WordBoundary) (HNW : P NoWordBoundary)
  (HCap : forall r, P r -> P (Capture r)) (HSt : forall g r, P r -> P (Star g r))
  (HPl : forall g r, P r -> P (Plus g r)) (HQ : forall g r, P r -> P (Quest g r))
  (HRep : forall n m g r, P r -> P (Repeat n m g r))
  (HCat : forall l, Forall P l -> P (Concat l)) (HAlt : forall l, Forall P l -> P (Alternate l)) :
  forall r, P r :=
  fix go r :=
    let gol := fix gol (l : list re) : Forall P l :=
      match l with [] => Forall_nil_2 P | r :: l => Forall_cons_2 P r l (go r) (gol l) end in
    match r with
    | NoMatch => HNo | EmptyMatch => HEm | Literal l => HLit l | CharClass p => HCl p
    | AnyCharNotNL => HNN | AnyChar => HAny | BeginLine => HBL | EndLine => HEL | BeginText => HBT
    | EndText => HET | WordBoundary => HW | NoWordBoundary => HNW
    | Capture r => HCap r (go r) | Star g r => HSt g r (go r) | Plus g r => HPl g r (go r)
    | Quest g r => HQ g r (go r) | Repeat n m g r => HRep n m g r (go r)
    | Concat l => HCat l (gol l) | Alternate l => HAlt l (gol l)
    end.

(** The matcher finds exactly what the expression matches. *)
Lemma mt_implements r : implements (mt r) (Matches r).
Proof.
  induction r using re_ind'; cbn [mt Matches];
    eauto using implements_set, implements_assert, implements_eps, implements_cat, implements_star, implements_opt.
  - induction l as [|c l IH]; cbn; [apply implements_eps|]. apply implements_cat; [apply implements_set|done].
  - destruct m; apply implements_cat; eauto using implements_times, implements_upto, implements_star.
  - induction H as [|r l Hr _ IH]; cbn; [apply implements_eps|by apply implements_cat].
  - induction H as [|r l Hr _ IH]; cbn; [apply implements_assert|by apply implements_alt].
Qed.

Lemma Matches_length r prev s n : Matches r prev s n -> n <= length s.
Proof. apply (im_len _ _ (mt_implements r)). Qed.

Lemma match_here_sound r prev s n : match_here r prev s = Some n -> Matches r prev s n.
Proof.
  intros H. apply (im_sound _ _ (mt_implements r)) in H as (a & m & Ha & [= <-] & ->). by rewrite Nat.add_0_r.
Qed.

Lemma match_here_complete r prev s n : Matches r prev s n -> match_here r prev s <> None.
Proof. intros H. by apply (im_complete _ _ (mt_implements r) _ _ _ n H). Qed.

Lemma find_from_spec r prev s a n :
  find_from r prev s = Some (a, n) ->
  Matches r (adv prev s a) (drop a s) n /\ a + n <= length s /\
  (forall i m, i < a -> ~ Matches r (adv prev s i) (drop i s) m).
Proof.
  revert prev a; induction s as [|c s IH]; intros prev a H; cbn [find_from] in H;
    destruct (match_here r prev _) as [k|] eqn:E.
  - injection H as <- <-. apply match_here_sound in E. split_and!; [done| |lia].
    by apply Matches_length in E.
  - done.
  - injection H as <- <-. apply match_here_sound in E. split_and!; [done| |lia].
    by apply Matches_length in E.
  - destruct (find_from r (Some c) s) as [[a' n']|] eqn:Hf; [|done]. injection H as <- <-.
    apply IH in Hf as (H1 & H2 & H3). split_and!.
    + destruct a'; done.
    + cbn. lia.
    + intros i m Hi HM. destruct i as [|i]; [by apply match_here_complete in HM|].
      apply (H3 i m); [lia|]. by destruct i.
Qed.

Lemma find_from_none r prev s i m :
  find_from r prev s = None -> i <= length s -> ~ Matches r (adv prev s i) (drop i s) m.
Proof.
  revert prev i; induction s as [|c s IH]; intros prev i H Hi HM; cbn [find_from] in H;
    destruct (match_here r prev _) as [k|] eqn:E; try done.
  - destruct i as [|i]; [|cbn in Hi; lia]. by apply match_here_complete in HM.
  - destruct (find_from r (Some c) s) as [?|] eqn:Hf; [done|].
    destruct i as [|i]; [by apply match_here_complete in HM|].
    apply (IH (Some c) i Hf); [cbn in Hi; lia|]. by destruct i.
Qed.

(** Everything [find_loop] reports matches, where it says. *)
Lemma find_loop_sound fuel r prev s offset a b :
  (a, b) ∈ find_loop fuel r prev s offset ->
  offset <= a /\ a <= b /\ b <= offset + length s /\
  Matches r (adv prev s (a - offset)) (drop (a - offset) s) (b - a).
Proof.
  revert prev s offset; induction fuel as [|fuel IH]; intros prev s offset; cbn [find_loop].
  { by intros ?%not_elem_of_nil. }
  destruct (find_from r prev s) as [[i n]|] eqn:E; [|by intros ?%not_elem_of_nil].
  apply find_from_spec in E as (HM & Hl & _). rewrite elem_of_cons. intros [[= -> ->]|H].
  - replace (offset + i - offset) with i by lia. replace (offset + i + n - (offset + i)) with n by lia.
    split_and!; [lia|lia|lia|done].
  - destruct (_ <=? _) eqn:Hs; [|by apply not_elem_of_nil in H]. bool_prop.
    apply IH in H as (H1 & H2 & H3 & H4). rewrite length_drop in H3.
    split_and!; [lia|lia|lia|]. rewrite adv_add, drop_drop in H4 by lia.
    by replace (i + (n `max` 1) + (a - (offset + (i + (n `max` 1))))) with (a - offset) in H4 by lia.
Qed.

(** Every place where the expression matches is inside a reported match, or
    is where one starts. *)
Lemma find_loop_complete fuel r prev s offset i m :
  length s < fuel -> i <= length s -> Matches r (adv prev s i) (drop i s) m ->
  exists a b, (a, b) ∈ find_loop fuel r prev s offset /\ a <= offset + i /\ (offset + i < b \/ offset + i = a).
Proof.
  revert prev s offset i; induction fuel as [|fuel IH]; intros prev s offset i Hf Hi HM; [lia|].
  cbn [find_loop]. destruct (find_from r prev s) as [[a n]|] eqn:E.
  2: { by eapply find_from_none in E. }
  apply find_from_spec in E as (HMa & Hl & Hleft).
  assert (a <= i). { destruct (decide (a <= i)); [done|]. exfalso. apply (Hleft i m); [lia|done]. }
  set (step := a + (n `max` 1)). destruct (decide (i < step)).
  - exists (offset + a), (offset + a + n). split; [by left|]. unfold step in *. lia.
  - rewrite (proj2 (Nat.leb_le step (length s))) by lia.
    destruct (IH (adv prev s step) (drop step s) (offset + step) (i - step)) as (x & y & Hin & H1 & H2).
    + rewrite length_drop. lia.
    + rewrite length_drop. lia.
    + rewrite adv_add, drop_drop by lia. by replace (step + (i - step)) with i by lia.
    + exists x, y. split; [by right|]. lia.
Qed.

Lemma find_all_sound r s a b :
  (a, b) ∈ find_all r s -> a <= b /\ b <= length s /\ Matches r (adv None s a) (drop a s) (b - a).
Proof.
  intros H. apply find_loop_sound in H as (_ & H2 & H3 & H4). rewrite Nat.sub_0_r in H4. by split_and!.
Qed.

Lemma find_all_complete r s i m :
  i <= length s -> Matches r (adv None s i) (drop i s) m ->
  exists a b, (a, b) ∈ find_all r s /\ a <= i /\ (i < b \/ i = a).
Proof. intros Hi HM. unfold find_all. eapply find_loop_complete in HM; [exact HM|lia|done]. Qed.
(** ** Expressions without assertions

    Such an expression matches a piece of text wherever the piece stands;
    and a relation is over an alphabet when it only takes its symbols. *)
Fixpoint plain (r : re) : bool :=
  match r with
  | BeginLine | EndLine | BeginText | EndText | WordBoundary | NoWordBoundary => false
  | Capture r | Star _ r | Plus _ r | Quest _ r | Repeat _ _ _ r => plain r
  | Concat l | Alternate l => forallb plain l
  | _ => true
  end.

Definition local_rel (R : rel) : Prop :=
  forall prev s n prev' s', R prev s n -> take n s = take n s' -> n <= length s -> n <= length s' -> R prev' s' n.

Lemma local_set p : local_rel (r_set p).
Proof.
  intros prev s n prev' s' (-> & c & t & -> & Hp) E _ Hl. split; [done|].
  destruct s' as [|c' s']; [cbn in Hl; lia|]. cbn in E. injection E as <-. eauto.
Qed.

Lemma local_eps : local_rel r_eps.
Proof. by intros prev s n prev' s' ->. Qed.

Lemma local_cat R T : local_rel R -> local_rel T -> local_rel (r_cat R T).
Proof.
  intros HR HT prev s n prev' s' (a & b & -> & Ha & Hb) E Hl Hl'.
  assert (Ea : take a s = take a s').
  { apply (f_equal (take a)) in E. rewrite !take_take in E. by replace (a `min` (a + b)) with a in E by lia. }
  exists a, b. split; [done|]. split; [apply (HR prev s); [done|done|lia|lia]|].
  apply (HT (adv prev s a) (drop a s)); [done| |rewrite length_drop; lia|rewrite length_drop; lia].
  by rewrite !take_drop_commute, E.
Qed.

Lemma local_alt R T : local_rel R -> local_rel T -> local_rel (r_alt R T).
Proof. intros HR HT prev s n prev' s' [H|H] E Hl Hl'; [left; by eapply HR|right; by eapply HT]. Qed.

Lemma local_star R : local_rel R -> local_rel (r_star R).
Proof.
  intros HR prev s n prev' s' H. revert prev' s'. induction H as [prev s|prev s a b Ha Hpos _ IH]; intros prev' s' E Hl Hl'.
  { constructor. }
  assert (Ea : take a s = take a s').
  { apply (f_equal (take a)) in E. rewrite !take_take in E. by replace (a `min` (a + b)) with a in E by lia. }
  constructor; [apply (HR prev s); [done|done|lia|lia]|done|].
  apply IH; [by rewrite !take_drop_commute, E|rewrite length_drop; lia|rewrite length_drop; lia].
Qed.

Lemma local_times n R : local_rel R -> local_rel (r_times n R).
Proof. intros HR. induction n; cbn; [apply local_eps|by apply local_cat]. Qed.

Lemma local_upto n R : local_rel R -> local_rel (r_upto n R).
Proof. intros HR. induction n; cbn; [apply local_eps|apply local_alt; [by apply local_cat|apply local_eps]]. Qed.

Lemma local_never (b : option A -> list A -> bool) : (forall prev s, b prev s = false) -> local_rel (r_assert b).
Proof. intros Hb prev s n prev' s' [_ H]. by rewrite Hb in H. Qed.

Lemma plain_local r : plain r = true -> local_rel (Matches r).
Proof.
  induction r using re_ind'; cbn [plain Matches]; intros Hp; try done;
    eauto using local_never, local_eps, local_set, local_cat, local_star, local_alt.
  - induction l as [|c l IHl]; cbn [foldr]; [apply local_eps|apply local_cat; [apply local_set|done]].
  - destruct m; apply local_cat; eauto using local_times, local_star, local_upto.
  - induction H as [|r l Hr _ IH]; cbn in *; [apply local_eps|]. bool_prop. apply local_cat; auto.
  - induction H as [|r l Hr _ IH]; cbn in *; [by apply local_never|]. bool_prop. apply local_alt; auto.
Qed.

(** Only symbols of [P] are taken. *)
Definition over (P : A -> Prop) (R : rel) : Prop := forall prev s n, R prev s n -> Forall P (take n s).

Fixpoint alphabet (P : A -> Prop) (r : re) : Prop :=
  match r with
  | Literal l => Forall P l
  | CharClass p => forall c, p c = true -> P c
  | AnyCharNotNL | AnyChar => False
  | Capture r | Star _ r | Plus _ r | Quest _ r | Repeat _ _ _ r => alphabet P r
  | Concat l | Alternate l => foldr (fun r Q => alphabet P r /\ Q) True l
  | _ => True
  end.

Section over.
Context (P : A -> Prop).

Lemma over_set p : (forall c, p c = true -> P c) -> over P (r_set p).
Proof. intros Hp prev s n (-> & c & t & -> & Hc). cbn. repeat constructor; auto. Qed.

Lemma over_zero (R : rel) : (forall prev s n, R prev s n -> n = 0) -> over P R.
Proof. intros H prev s n ->%H. constructor. Qed.

Lemma over_cat R T : over P R -> over P T -> over P (r_cat R T).
Proof.
  intros HR HT prev s n (a & b & -> & Ha%HR & Hb%HT). rewrite <-(take_drop a s), take_app.
  apply Forall_app. split.
  - rewrite take_take. by replace ((a + b) `min` a) with a by lia.
  - rewrite length_take. destruct (decide (a <= length s)).
    + by replace (a + b - a `min` length s) with b by lia.
    + rewrite drop_ge by lia. by rewrite take_nil.
Qed.

Lemma over_alt R T : over P R -> over P T -> over P (r_alt R T).
Proof. intros HR HT prev s n [H|H]; eauto. Qed.

Lemma over_star R : over P R -> over P (r_star R).
Proof.
  intros HR prev s n H. induction H as [prev s|prev s a b Ha Hpos Hb IH]; [constructor|].
  assert (Hc : over P (r_cat R (fun _ s n => Forall P (take n s)))) by (apply over_cat; [done|by intros ???]).
  apply (Hc prev). by exists a, b.
Qed.

Lemma over_times n R : over P R -> over P (r_times n R).
Proof. intros HR. induction n; cbn; [by apply over_zero|by apply over_cat]. Qed.

Lemma over_upto n R : over P R -> over P (r_upto n R).
Proof. intros HR. induction n; cbn; [by apply over_zero|apply over_alt; [by apply over_cat|by apply over_zero]]. Qed.

Lemma over_assert b : over P (r_assert b).
Proof. apply over_zero. by intros prev s n [-> _]. Qed.

Lemma alphabet_over r : alphabet P r -> over P (Matches r).
Proof.
  induction r using re_ind'; cbn [alphabet Matches]; intros Hp; try done;
    eauto using over_assert, over_set, over_cat, over_star, over_alt, over_zero.
  - induction Hp as [|c l Hc _ IHl]; cbn [foldr]; [by apply over_zero|apply over_cat; [|done]].
    apply over_set. by intros c' ->%bool_decide_eq_true.
  - destruct m; apply over_cat; eauto using over_times, over_star, over_upto.
  - induction H as [|r l Hr _ IH]; cbn in *; [by apply over_zero|]. destruct Hp. apply over_cat; auto.
  - induction H as [|r l Hr _ IH]; cbn in *; [apply over_assert|]. destruct Hp. apply over_alt; auto.
Qed.
End over.

(** Matches are reported from left to right, without overlap. *)
Fixpoint spans_from (pos : nat) (l : list (nat * nat)) (len : nat) : Prop :=
  match l with [] => pos <= len | (a, b) :: l => pos <= a /\ a <= b /\ spans_from b l len end.

Lemma find_loop_spans fuel r prev s offset :
  spans_from offset (find_loop fuel r prev s offset) (offset + length s).
Proof.
  revert prev s offset; induction fuel as [|fuel IH]; intros prev s offset; cbn [find_loop spans_from]; [lia|].
  destruct (find_from r prev s) as [[a n]|] eqn:E; [|cbn; lia].
  apply find_from_spec in E as (_ & Hl & _). cbn [spans_from]. split; [lia|split; [lia|]].
  destruct (_ <=? _) eqn:Hs; [|cbn; lia]. bool_prop. set (step := a + (n `max` 1)) in *.
  specialize (IH (adv prev s step) (drop step s) (offset + step)). rewrite length_drop in IH.
  replace (offset + step + (length s - step)) with (offset + length s) in IH by lia.
  destruct (find_loop _ _ _ _ _) as [|[x y] l0]; cbn [spans_from] in *; [lia|]. destruct IH as (H1 & H2 & H3). split_and!; [lia|done|done].
Qed.

Lemma find_all_spans r s : spans_from 0 (find_all r s) (length s).
Proof. apply (find_loop_spans _ r None s 0). Qed.
End regex.

Arguments NoMatch {A}.
Arguments EmptyMatch {A}.
Arguments AnyCharNotNL {A}.
Arguments AnyChar {A}.
Arguments BeginLine {A}.
Arguments EndLine {A}.
Arguments BeginText {A}.
Arguments EndText {A}.
Arguments WordBoundary {A}.
Arguments NoWordBoundary {A}.
Arguments re A : clear implicits.

(** ** Bytes *)

Section bytes.
Local Open Scope char_scope.

Definition between (lo hi c : ascii) : bool :=
  (N_of_ascii lo <=? N_of_ascii c)%N && (N_of_ascii c <=? N_of_ascii hi)%N.

Definition is_digit (c : ascii) : bool := between "0" "9" c.

Definition is_upper (c : ascii) : bool := between "A" "Z" c.

Definition is_lower (c : ascii) : bool := between "a" "z" c.

Definition is_alnum (c : ascii) : bool := is_digit c || is_upper c || is_lower c.

(** [\w], which is what [\b] looks at. *)
Definition is_word (c : ascii) : bool := is_alnum c || Ascii.eqb c "_".

Definition newline : ascii := "010".

Definition is_nl (c : ascii) : bool := Ascii.eqb c newline.

(** One of the bytes of a string. *)
Definition one_of (l : list ascii) (c : ascii) : bool := existsb (Ascii.eqb c) l.
End bytes.



Definition bytes_of : string -> list ascii := String.list_ascii_of_string.

Definition string_of : list ascii -> string := String.string_of_list_ascii.

Definition lit (s : string) : re ascii := Literal (bytes_of s).

Definition find_bytes (r : re ascii) (s : list ascii) : list (nat * nat) := find_all is_word is_nl r s.
