(* ===== verification/Detectors.v ===== *)
(** * Detectors: what the data-loss scan looks for

    [internal/dlp/detectors.go].  A detector gives the byte spans of a string
    it takes for a sensitive value.  The built-ins narrow the text to windows
    (runs of digits, the neighbourhood of an [@]), run their regular
    expressions there and discard what fails a check (Luhn, ISO 7064 mod-97
    and MOD 11,10, the ranges a number is never issued from).  Offsets are
    [nat]; [strings.ToLower]'s Unicode mapping is an argument. *)
From S2P Require Import Prelude GoStrings Regex.

Open Scope list_scope.

Inductive Confidence : Type := NoConfidence | ConfidenceLow | ConfidenceMedium | ConfidenceHigh.

#[export] Instance Confidence_eq_dec : EqDecision Confidence.
Proof. solve_decision. Defined.

Definition KindPaymentCard : string := "payment_card".
Definition KindIBAN : string := "iban".
Definition KindEmail : string := "email".
Definition KindPhone : string := "phone".
Definition KindUSSSN : string := "us_ssn".
Definition KindDETaxID : string := "de_tax_id".
Definition KindCredential : string := "credential".

Definition DetectorPaymentCard : string := "payment_card".
Definition DetectorIBAN : string := "iban".
Definition DetectorEmail : string := "email".
Definition DetectorPhone : string := "phone".
Definition DetectorUSSSN : string := "us_ssn".
Definition DetectorDETaxID : string := "de_tax_id".
Definition DetectorCredential : string := "credential".
Definition DetectorSecretKey : string := "secret_key".

Record Match : Type := mkMatch { m_Start : nat; m_End : nat; m_Confidence : Confidence; m_Rule : string }.

(** The [Detector] interface. *)
Record Detector : Type := mkDetector { d_Name : string; d_Kind : string; d_Find : list ascii -> list Match }.

Record span : Type := mkSpan { sp_start : nat; sp_end : nat }.

Record rule : Type := mkRule {
  r_name : string;
  r_re : re ascii;
  r_conf : Confidence;
  r_pre : option (list ascii -> bool);
  r_check : option (list ascii -> Confidence * bool);
}.

Record patternDetector : Type := mkPattern {
  pd_name : string;
  pd_kind : string;
  pd_window : option (list ascii -> list span);
  pd_rules : list rule;
}.

Definition maxFindings : nat := 100.

Definition findCap : nat := maxFindings + 1.

(** [s[a:b]]. *)
Definition slice (s : list ascii) (a b : nat) : list ascii := take (b - a) (drop a s).

(** ** Digits and checks *)

Definition digit_val (c : ascii) : Z := (byte_val c - 48)%Z.

Definition onlyDigits (s : list ascii) : list ascii := List.filter is_digit s.

(** A run of one repeated digit. *)
Definition uniform (d : list ascii) : bool :=
  match d with [] => true | c :: d => forallb (Ascii.eqb c) d end.

Definition prefix (d : list ascii) (n : nat) : Z :=
  if length d <? n then (-1)%Z else foldl (fun v c => v * 10 + digit_val c)%Z 0%Z (take n d).

(** From the last digit to the first; every second one is doubled. *)
Fixpoint luhn_loop (l : list ascii) (sum : Z) (double : bool) : Z :=
  match l with
  | [] => sum
  | c :: l =>
      let n := digit_val c in
      let n := if double then (let n := n * 2 in if 9 <? n then n - 9 else n)%Z else n in
      luhn_loop l (sum + n) (negb double)
  end.

Definition luhn (d : list ascii) : bool := (luhn_loop (rev d) 0 false mod 10 =? 0)%Z.

Definition cardScheme (d : list ascii) : bool :=
  let n := length d in
  let p2 := prefix d 2 in
  let p4 := prefix d 4 in
  let within lo x hi := ((lo <=? x) && (x <=? hi))%Z in
  if bool_decide (head d = Some "4"%char) && ((n =? 13) || (n =? 16) || (n =? 19)) then true
  else if within 51%Z p2 55%Z && (n =? 16) then true
  else if within 2221%Z p4 2720%Z && (n =? 16) then true
  else if ((p2 =? 34) || (p2 =? 37))%Z && (n =? 15) then true
  else if ((p4 =? 6011) || (p2 =? 65))%Z && (16 <=? n) then true
  else if within 3528%Z p4 3589%Z && (16 <=? n) then true
  else ((p2 =? 36) || (p2 =? 38) || within 300 (Z.quot p4 10) 305)%Z && (14 <=? n).

Definition checkCard (s : list ascii) : Confidence * bool :=
  let digits := onlyDigits s in
  if (length digits <? 13) || (19 <? length digits) || uniform digits || negb (luhn digits)
  then (NoConfidence, false)
  else if cardScheme digits then (ConfidenceHigh, true)
  else (ConfidenceMedium, true).

Definition ibanLengths : list (string * nat) :=
  [("AD", 24); ("AE", 23); ("AT", 20); ("BE", 16); ("BG", 22); ("CH", 21); ("CY", 28); ("CZ", 24);
   ("DE", 22); ("DK", 18); ("EE", 20); ("ES", 24); ("FI", 18); ("FR", 27); ("GB", 22); ("GR", 27);
   ("HR", 21); ("HU", 28); ("IE", 22); ("IS", 26); ("IT", 27); ("LI", 21); ("LT", 20); ("LU", 20);
   ("LV", 21); ("MC", 27); ("MT", 31); ("NL", 18); ("NO", 15); ("PL", 28); ("PT", 25); ("RO", 24);
   ("SE", 24); ("SI", 19); ("SK", 24); ("SM", 27); ("TR", 26)].

Definition iban_length (country : string) : option nat :=
  snd <$> List.find (fun e => String.eqb e.1 country) ibanLengths.

(** The remainder after reading the character at [(i+4) mod len]; [None] is
    the early [return false]. *)
Definition mod97_step (rem : Z) (ch : ascii) : option Z :=
  if is_digit ch then Some ((rem * 10 + digit_val ch) mod 97)%Z
  else if is_upper ch then Some ((rem * 100 + (byte_val ch - 65) + 10) mod 97)%Z
  else None.

Fixpoint mod97_loop (l : list ascii) (rem : Z) : option Z :=
  match l with
  | [] => Some rem
  | ch :: l => match mod97_step rem ch with Some rem => mod97_loop l rem | None => None end
  end.

Definition mod97 (c : list ascii) : bool :=
  let at4 := map (fun i => default "000"%char (c !! ((i + 4) mod length c))) (seq 0 (length c)) in
  match mod97_loop at4 0 with Some rem => (rem =? 1)%Z | None => false end.

Definition checkIBAN (s : list ascii) : Confidence * bool :=
  let c := List.filter (fun x => negb (Ascii.eqb x " ")) s in
  if (length c <? 15) || (34 <? length c) || negb (mod97 c) then (NoConfidence, false)
  else match iban_length (string_of (take 2 c)) with
       | Some want => if negb (length c =? want) then (NoConfidence, false) else (ConfidenceHigh, true)
       | None => (ConfidenceMedium, true)
       end.

Definition checkE164 (s : list ascii) : Confidence * bool :=
  let d := onlyDigits s in
  (ConfidenceMedium, (8 <=? length d) && (length d <=? 15) && negb (uniform d)).

Definition checkNationalPhone (s : list ascii) : Confidence * bool :=
  let d := onlyDigits s in
  (ConfidenceLow, (10 <=? length d) && (length d <=? 13) && negb (uniform d)).

Definition checkSSN (s : list ascii) : Confidence * bool :=
  let d := onlyDigits s in
  let area := string_of (slice d 0 3) in
  let group := string_of (slice d 3 5) in
  let serial := string_of (slice d 5 9) in
  if String.eqb area "000" || String.eqb area "666" || bool_decide (head d = Some "9"%char)
     || String.eqb group "00" || String.eqb serial "0000"
  then (NoConfidence, false)
  else (ConfidenceHigh, true).

(** How often each digit occurs. *)
Definition digit_counts (l : list ascii) : list nat :=
  map (fun d => length (List.filter (fun c => digit_val c =? Z.of_nat d)%Z l)) (seq 0 10).

(** ISO 7064 MOD 11,10. *)
Definition mod11_step (product : Z) (c : ascii) : Z :=
  let sum := ((digit_val c + product) mod 10)%Z in
  let sum := if (sum =? 0)%Z then 10%Z else sum in
  ((2 * sum) mod 11)%Z.

Definition mod11 (l : list ascii) : Z := foldl mod11_step 10%Z l.

Definition checkDETaxID (s : list ascii) : Confidence * bool :=
  if bool_decide (head s = Some "0"%char) then (NoConfidence, false)
  else
    let first := take 10 s in
    if negb (forallb is_digit first) then (NoConfidence, false)
    else
      let counts := digit_counts first in
      if existsb (fun n => 3 <? n) counts then (NoConfidence, false)
      else
        let repeats := length (List.filter (fun n => (n =? 2) || (n =? 3)) counts) in
        if negb (repeats =? 1) then (NoConfidence, false)
        else if negb (((11 - mod11 first) mod 10 =? digit_val (default "000"%char (s !! 10%nat)))%Z)
        then (NoConfidence, false)
        else (ConfidenceHigh, true).

(** ** Windows *)

Definition spanContext : nat := 2.

Definition isDigit (c : ascii) : bool := is_digit c.

Definition isUpper (c : ascii) : bool := is_upper c.

Definition digitSeps (c : ascii) : bool := one_of (bytes_of " -.()/") c.

Definition min2 (a b : nat) : nat := if a <? b then a else b.

(** The inner loop of [digitSpans], from position [i]. *)
Fixpoint digit_run (l : list ascii) (i digits last : nat) : nat * nat * nat :=
  match l with
  | c :: l =>
      if isDigit c then digit_run l (S i) (S digits) i
      else if digitSeps c then digit_run l (S i) digits last
      else (i, digits, last)
  | [] => (i, digits, last)
  end.

(** The outer loop; each turn moves [i] on, so the length is fuel enough. *)
Fixpoint digit_spans_from (fuel : nat) (s : list ascii) (min i : nat) : list span :=
  match fuel with
  | 0 => []
  | S fuel =>
      match s !! i with
      | None => []
      | Some c =>
          if negb (isDigit c) then digit_spans_from fuel s min (S i)
          else
            let '(i', digits, last) := digit_run (drop i s) i 0 i in
            let rest := digit_spans_from fuel s min i' in
            if min <=? digits
            then mkSpan (i - spanContext) (min2 (last + 1 + spanContext) (length s)) :: rest
            else rest
      end
  end.

Definition digitSpans (s : list ascii) (min : nat) : list span := digit_spans_from (length s) s min 0.

Definition digitWindows (min : nat) : list ascii -> list span := fun s => digitSpans s min.

(** Append [w] to the windows, merged with the last one where they touch.
    [out] is the list built so far, last first. *)
Definition merge_window (out : list span) (w : span) : list span :=
  match out with
  | o :: out' => if sp_start w <=? sp_end o then mkSpan (sp_start o) (sp_end w) :: out' else w :: out
  | [] => [w]
  end.

(** The positions of [c]: what the [IndexByte] loop of [anchorSpans] visits. *)
Fixpoint positions (f : list ascii -> bool) (s : list ascii) (i : nat) : list nat :=
  match s with
  | [] => []
  | c :: s' => (if f s then [i] else []) ++ positions f s' (S i)
  end.

Definition anchorSpans (s : list ascii) (c : ascii) (before after : nat) : list span :=
  rev (foldl (fun out at_ => merge_window out (mkSpan (at_ - before) (min2 (at_ + after) (length s)))) []
         (positions (fun s => bool_decide (head s = Some c)) s 0)).

Definition anchorWindows (c : ascii) (before after : nat) : list ascii -> list span :=
  fun s => anchorSpans s c before after.

(** Two capitals and two digits. *)
Definition iban_start (s : list ascii) : bool :=
  match s with
  | a :: b :: c :: d :: _ => isUpper a && isUpper b && isDigit c && isDigit d
  | _ => false
  end.

Definition ibanWindows (s : list ascii) : list span :=
  rev (foldl (fun out i => merge_window out (mkSpan (i - spanContext) (min2 (i + 45) (length s)))) []
         (positions iban_start s 0)).

(** ** The search *)

(** The loop over one rule's candidates: the cap is on what is kept. *)
Fixpoint find_locs (r : rule) (s : list ascii) (offset : nat) (locs : list (nat * nat)) (out : list Match) : list Match :=
  match locs with
  | [] => out
  | (a, b) :: locs =>
      if findCap <=? length out then out
      else
        let '(conf, ok) := match r_check r with
                           | Some check => let '(c, ok) := check (slice s a b) in
                                           (if decide (c = NoConfidence) then r_conf r else c, ok)
                           | None => (r_conf r, true)
                           end in
        find_locs r s offset locs
          (if (ok : bool) then out ++ [mkMatch (offset + a) (offset + b) conf (r_name r)] else out)
  end.

(** [find]: a rule after one that reached the cap adds nothing, so the
    early return is the fall-through. *)
Definition find_rule (s : list ascii) (offset : nat) (out : list Match) (r : rule) : list Match :=
  if match r_pre r with Some pre => negb (pre s) | None => false end then out
  else find_locs r s offset (find_bytes (r_re r) s) out.

Definition find (d : patternDetector) (s : list ascii) (offset : nat) (out : list Match) : list Match :=
  foldl (find_rule s offset) out (pd_rules d).

Fixpoint find_windows (d : patternDetector) (s : list ascii) (ws : list span) (out : list Match) : list Match :=
  match ws with
  | [] => out
  | w :: ws =>
      let out := find d (slice s (sp_start w) (sp_end w)) (sp_start w) out in
      if findCap <=? length out then out else find_windows d s ws out
  end.

Definition Find (d : patternDetector) (s : list ascii) : list Match :=
  match pd_window d with
  | None => find d s 0 []
  | Some window => find_windows d s (window s) []
  end.

Definition pattern_Detector (d : patternDetector) : Detector := mkDetector (pd_name d) (pd_kind d) (Find d).

(** [fieldDetector]: nothing in the text is a match. *)
Definition field_Detector (name kind : string) : Detector := mkDetector name kind (fun _ => []).

(** ** The expressions *)

Definition dg : re ascii := CharClass is_digit.
Definition cls (p : ascii -> bool) : re ascii := CharClass p.
Definition oneof (s : string) : re ascii := CharClass (one_of (bytes_of s)).
Definition rep (min max : nat) (r : re ascii) : re ascii := Repeat min (Some max) true r.
Definition at_least (min : nat) (r : re ascii) : re ascii := Repeat min None true r.
Definition opt (r : re ascii) : re ascii := Quest true r.
Definition alnum_or (s : string) : ascii -> bool := fun c => is_alnum c || one_of (bytes_of s) c.

Definition cardRe : re ascii :=
  Concat [WordBoundary; dg; rep 12 18 (Concat [opt (oneof " -"); dg]); WordBoundary].

Definition ibanRe : re ascii :=
  Concat [WordBoundary; rep 2 2 (cls is_upper); rep 2 2 dg;
          rep 11 30 (Concat [opt (lit " "); cls (fun c => is_upper c || is_digit c)]); WordBoundary].

Definition emailRe : re ascii :=
  Concat [WordBoundary; Plus true (cls (alnum_or "._%+-")); lit "@"; cls is_alnum;
          opt (Concat [Star true (cls (alnum_or "-")); cls is_alnum]);
          Star true (Concat [lit "."; Plus true (cls (alnum_or "-"))]);
          lit "."; rep 2 24 (cls (fun c => is_upper c || is_lower c)); WordBoundary].

Definition phoneE164Re : re ascii :=
  Concat [lit "+"; dg; rep 7 14 (Concat [opt (oneof " .()-"); dg]); WordBoundary].

Definition phoneUSRe : re ascii :=
  Concat [Alternate [Concat [WordBoundary; rep 3 3 dg; oneof " .-"];
                     Concat [lit "("; rep 3 3 dg; lit ")"; opt (oneof " .-")]];
          rep 3 3 dg; oneof " .-"; rep 4 4 dg; WordBoundary].

Definition phoneDERe : re ascii :=
  Concat [WordBoundary; lit "0"; rep 2 4 dg; oneof " /-"; rep 3 9 dg; WordBoundary].

Definition ssnRe : re ascii :=
  Concat [WordBoundary; Capture (rep 3 3 dg); oneof " -"; Capture (rep 2 2 dg); oneof " -"; Capture (rep 4 4 dg);
          WordBoundary].

Definition deTaxRe : re ascii := Concat [WordBoundary; rep 11 11 dg; WordBoundary].

Definition literals (want : list string) : list ascii -> bool :=
  fun s => existsb (Contains (string_of s)) want.

Definition hasAt (s : list ascii) : bool := existsb (Ascii.eqb "@") s.

(** A letter in either case, and the letters and digits of the [(?i)] rule:
    under case folding [A-Z] also holds the Kelvin sign and the long s. *)
Definition fold_letter (c : ascii) : re ascii := cls (fun x => Ascii.eqb (lower_byte x) c).

Definition fold_lit (s : string) : list (re ascii) := map fold_letter (bytes_of s).

Definition fold_class (p : ascii -> bool) : re ascii :=
  Alternate [cls p; Literal (map ascii_of_nat [226; 132; 170]); Literal (map ascii_of_nat [197; 191])].

Definition prefixed (names : list string) : re ascii := Alternate (map lit names).

Definition leakRules : list rule :=
  let leak name re pre := mkRule name re ConfidenceHigh (Some (literals pre)) None in
  [leak "github" (Concat [WordBoundary; lit "gh"; oneof "pousr"; lit "_"; rep 36 255 (cls is_alnum); WordBoundary])
     ["ghp_"; "gho_"; "ghu_"; "ghs_"; "ghr_"];
   leak "slack" (Concat [WordBoundary; lit "xox"; oneof "abprs"; lit "-"; at_least 10 (cls (alnum_or "-"))]) ["xox"];
   leak "stripe" (Concat [WordBoundary; oneof "sr"; lit "k_"; Alternate [lit "live"; lit "test"]; lit "_";
                          at_least 16 (cls is_alnum)])
     ["sk_live_"; "sk_test_"; "rk_live_"; "rk_test_"];
   leak "aws_access_key" (Concat [WordBoundary; prefixed ["AKIA"; "ASIA"; "AIDA"; "AGPA"; "ANPA"; "AROA"];
                                  rep 16 16 (cls (fun c => is_upper c || is_digit c)); WordBoundary])
     ["AKIA"; "ASIA"; "AIDA"; "AGPA"; "ANPA"; "AROA"];
   leak "google_api_key" (Concat [WordBoundary; lit "AIza"; rep 35 35 (cls (alnum_or "_-")); WordBoundary]) ["AIza"];
   leak "openai" (Concat [WordBoundary; lit "sk-"; opt (lit "proj-"); at_least 20 (cls (alnum_or "_-"))]) ["sk-"];
   leak "private_key" (Concat [lit "-----BEGIN "; opt (prefixed ["RSA "; "EC "; "DSA "; "OPENSSH "; "PGP "]);
                               lit "PRIVATE KEY-----"]) ["PRIVATE KEY"];
   leak "jwt" (Concat [WordBoundary; lit "eyJ"; at_least 8 (cls (alnum_or "_-")); lit "."; at_least 8 (cls (alnum_or "_-"));
                       lit "."; at_least 5 (cls (alnum_or "_-"))]) ["eyJ"];
   mkRule "bearer" (Concat (WordBoundary :: fold_lit "bearer" ++
                            [lit " "; at_least 20 (fold_class (alnum_or "-._~+/")); rep 0 2 (lit "=")]))
     ConfidenceMedium (Some (literals ["earer "; "EARER "])) None].

(** ** The registry *)

Definition checked (name : string) (r : re ascii) (check : list ascii -> Confidence * bool) : rule :=
  mkRule name r NoConfidence None (Some check).

Definition paymentCard : patternDetector :=
  mkPattern DetectorPaymentCard KindPaymentCard (Some (digitWindows 13)) [checked "luhn" cardRe checkCard].

Definition iban : patternDetector :=
  mkPattern DetectorIBAN KindIBAN (Some ibanWindows) [checked "mod97" ibanRe checkIBAN].

Definition email : patternDetector :=
  mkPattern DetectorEmail KindEmail (Some (anchorWindows "@" 72 260))
    [mkRule "address" emailRe ConfidenceHigh (Some hasAt) None].

Definition phone : patternDetector :=
  mkPattern DetectorPhone KindPhone (Some (digitWindows 8))
    [checked "e164" phoneE164Re checkE164; checked "us" phoneUSRe checkNationalPhone;
     checked "de" phoneDERe checkNationalPhone].

Definition usSSN : patternDetector :=
  mkPattern DetectorUSSSN KindUSSSN (Some (digitWindows 9)) [checked "ssn" ssnRe checkSSN].

Definition deTaxID : patternDetector :=
  mkPattern DetectorDETaxID KindDETaxID (Some (digitWindows 11)) [checked "steuer_id" deTaxRe checkDETaxID].

Definition credential : patternDetector := mkPattern DetectorCredential KindCredential None leakRules.

Definition builtins : list Detector :=
  map pattern_Detector [paymentCard; iban; email; phone; usSSN; deTaxID; credential] ++
  [field_Detector DetectorSecretKey KindCredential].

Definition DetectorNames : list string := map d_Name builtins.

(** [byName]. *)
Definition Lookup (name : string) : option Detector := List.find (fun d => String.eqb (d_Name d) name) builtins.

Definition secretNames : list string :=
  ["password"; "secret"; "token"; "apikey"; "api_key"; "authorization"; "credential"; "passwd"; "pwd"].

Definition looksSecret (to_lower : string -> string) (key : string) : bool :=
  existsb (Contains (ToLower to_lower key)) secretNames.

(** ** The digit windows *)

Definition run_char (c : ascii) : bool := isDigit c || digitSeps c.

Definition byte_at (f : ascii -> bool) (s : list ascii) (k : nat) : Prop := exists c, s !! k = Some c /\ f c = true.

Definition digit_at : list ascii -> nat -> Prop := byte_at isDigit.
Definition run_at : list ascii -> nat -> Prop := byte_at run_char.
Definition break_at : list ascii -> nat -> Prop := byte_at (fun c => negb (run_char c)).

Lemma byte_at_drop f s i k : byte_at f (drop i s) k <-> byte_at f s (i + k).
Proof. unfold byte_at. by setoid_rewrite lookup_drop. Qed.

Lemma digit_run_at s k : digit_at s k -> run_at s k.
Proof. intros (c & H & E). exists c. split; [done|]. unfold run_char. by rewrite E. Qed.

Lemma run_not_break s k : run_at s k -> break_at s k -> False.
Proof. intros (c & H & E) (c' & H' & E'). bool_prop. rewrite H in H'. injection H' as <-. congruence. Qed.

Definition digit_count (s : list ascii) : nat := length (onlyDigits s).

Lemma digit_count_app a b : digit_count (a ++ b) = digit_count a + digit_count b.
Proof. unfold digit_count, onlyDigits. by rewrite List.filter_app, length_app. Qed.

Lemma digit_run_spec l i d last : exists n, let '(i', d', last') := digit_run l i d last in
  i' = i + n /\ n <= length l /\ (forall m, m < n -> run_at l m) /\ (n = length l \/ break_at l n) /\
  d' = d + digit_count (take n l) /\
  ((last' = last /\ forall m, m < n -> ~ digit_at l m) \/
   exists m, m < n /\ last' = i + m /\ digit_at l m /\ forall m', m < m' < n -> ~ digit_at l m').
Proof.
  revert i d last; induction l as [|c l IH]; intros i d last.
  { exists 0. cbn. split_and!; try lia. left. split; [done|lia]. }
  cbn [digit_run].
  assert (Hbit : forall f m, byte_at f (c :: l) (S m) <-> byte_at f l m) by done.
  assert (Hstep : forall d' last0 n, run_char c = true -> 
    let '(i', d'', last') := digit_run l (S i) d' last0 in
    (i' = S i + n /\ n <= length l /\ (forall m, m < n -> run_at l m) /\ (n = length l \/ break_at l n)) ->
    i' = i + S n /\ S n <= length (c :: l) /\ (forall m, m < S n -> run_at (c :: l) m) /\
    (S n = length (c :: l) \/ break_at (c :: l) (S n))).
  { intros d' last0 n Hc. destruct (digit_run l (S i) d' last0) as [[i' ?] ?]. intros (-> & Hn & Hr & He).
    split_and!; [lia|cbn; lia| |destruct He as [->|He]; [by left|by right]].
    intros [|m] Hm; [by exists c|apply Hbit, Hr; lia]. }
  destruct (isDigit c) eqn:Hd.
  - assert (Hc : run_char c = true) by (unfold run_char; by rewrite Hd).
    destruct (IH (S i) (S d) i) as [n Hn]. exists (S n). specialize (Hstep (S d) i n Hc).
    destruct (digit_run l (S i) (S d) i) as [[i' d'] last'].
    destruct Hn as (H1 & H2 & H3 & H4 & H5 & H6). destruct Hstep as (E1 & E2 & E3 & E4); [done|].
    split_and!; try done.
    + rewrite H5. cbn [take]. change (c :: take n l) with ([c] ++ take n l). rewrite digit_count_app.
      unfold digit_count at 2, onlyDigits. cbn [List.filter]. unfold isDigit in Hd. rewrite Hd. cbn [length]. lia.
    + right. destruct H6 as [(-> & H6)|(m & Hm & -> & Hdm & Hu)].
      * exists 0. split_and!; [lia|lia|by exists c|]. intros [|m'] Hm'; [lia|]. refine (H6 m' _). lia.
      * exists (S m). split_and!; [lia|lia|done|]. intros [|m'] Hm'; [lia|]. refine (Hu m' _). lia.
  - assert (Hnd : forall m, m < 1 -> ~ digit_at (c :: l) m).
    { intros m Hm (c' & Hl & Hc'). replace m with 0 in Hl by lia. injection Hl as <-. congruence. }
    destruct (digitSeps c) eqn:Hs.
    + assert (Hc : run_char c = true) by (unfold run_char; by rewrite Hs, orb_true_r).
      destruct (IH (S i) d last) as [n Hn]. exists (S n). specialize (Hstep d last n Hc).
      destruct (digit_run l (S i) d last) as [[i' d'] last'].
      destruct Hn as (H1 & H2 & H3 & H4 & H5 & H6). destruct Hstep as (E1 & E2 & E3 & E4); [done|].
      split_and!; try done.
      * rewrite H5. cbn [take]. change (c :: take n l) with ([c] ++ take n l). rewrite digit_count_app.
        unfold digit_count at 2, onlyDigits. cbn [List.filter]. unfold isDigit in Hd. by rewrite Hd.
      * destruct H6 as [(-> & H6)|(m & Hm & -> & Hdm & Hu)].
        -- left. split; [done|]. intros [|m] Hm; [by apply Hnd; lia|]. refine (H6 m _). lia.
        -- right. exists (S m). split_and!; [lia|lia|done|]. intros [|m'] Hm'; [lia|]. refine (Hu m' _). lia.
    + exists 0. split_and!; [lia|lia|lia| |cbn; lia|left; split; [done|lia]].
      right. exists c. split; [done|]. unfold run_char. by rewrite Hd, Hs.
Qed.

(** A maximal run: it starts and ends with a digit, and a character that
    ends a run lies between it and every digit outside. *)
Record is_run (s : list ascii) (i j : nat) : Prop := {
  run_lt : i < j <= length s;
  run_first : digit_at s i;
  run_last : digit_at s (j - 1);
  run_all : forall k, i <= k < j -> run_at s k;
  run_before : forall q, q < i -> digit_at s q -> exists k, q < k < i /\ break_at s k;
  run_after : forall q, j <= q -> digit_at s q -> exists k, j <= k < q /\ break_at s k;
}.

Definition window_of (s : list ascii) (i j : nat) : span :=
  mkSpan (i - spanContext) (min2 (j + spanContext) (length s)).

(** Where the outer loop stands: a run before it has ended. *)
Definition between_runs (s : list ascii) (p : nat) : Prop :=
  forall q, q < p -> digit_at s q -> exists k, q < k <= p /\ (break_at s k \/ length s <= k).

Lemma digit_spans_step s p c i' d last :
  s !! p = Some c -> isDigit c = true -> between_runs s p -> digit_run (drop p s) p 0 p = (i', d, last) ->
  p < i' <= length s /\ is_run s p (last + 1) /\ last < i' /\ between_runs s i' /\
  (forall k, p <= k < i' -> run_at s k) /\ (i' = length s \/ break_at s i') /\ d = digit_count (slice s p i').
Proof.
  intros Hc Hd Hb E. destruct (digit_run_spec (drop p s) p 0 p) as [n Hn]. rewrite E in Hn.
  destruct Hn as (-> & Hn & Hr & He & -> & Hlast). rewrite length_drop in Hn, He.
  pose proof (lookup_lt_Some _ _ _ Hc) as Hp.
  assert (Hd0 : digit_at (drop p s) 0). { apply byte_at_drop. rewrite Nat.add_0_r. by exists c. }
  assert (Hn0 : 0 < n).
  { destruct n; [|lia]. exfalso. destruct He as [He|He]; [lia|]. eapply run_not_break; [|exact He].
    by apply digit_run_at. }
  assert (Hl : exists m, m < n /\ last = p + m /\ digit_at (drop p s) m /\ forall m', m < m' < n -> ~ digit_at (drop p s) m').
  { destruct Hlast as [(-> & Hno)|Hl]; [exfalso; by apply (Hno 0)|done]. }
  clear Hlast. destruct Hl as (m & Hm & -> & Hdm & Hu).
  assert (Hrun : forall k, p <= k < p + n -> run_at s k).
  { intros k Hk. specialize (Hr (k - p)). apply byte_at_drop in Hr; [|lia]. by replace (p + (k - p)) with k in Hr by lia. }
  assert (Hend : p + n = length s \/ break_at s (p + n)).
  { destruct He as [He|He]; [left; lia|right]. by apply byte_at_drop in He. }
  split_and!; try done; try lia.
  - constructor.
    + lia.
    + by exists c.
    + replace (p + m + 1 - 1) with (p + m) by lia. by apply byte_at_drop in Hdm.
    + intros k Hk. apply Hrun. lia.
    + intros q Hq Hdq. destruct (Hb q Hq Hdq) as (k & Hk & [Hbk|Hbk]); [|lia]. exists k. split; [|done].
      enough (k <> p) by lia. intros ->. eapply run_not_break; [|exact Hbk]. apply digit_run_at. by exists c.
    + intros q Hq Hdq. destruct (decide (q < p + n)).
      * exfalso. apply (Hu (q - p)); [lia|]. apply byte_at_drop. by replace (p + (q - p)) with q by lia.
      * destruct Hdq as (x & Hx & Hdx). pose proof (lookup_lt_Some _ _ _ Hx).
        destruct Hend as [Hend|Hend]; [lia|]. exists (p + n). split; [|done].
        enough (q <> p + n) by lia. intros ->. eapply run_not_break; [|exact Hend].
        apply digit_run_at. by exists x.
  - intros q Hq Hdq. exists (p + n). split; [lia|]. destruct Hend as [Hend|Hend]; [right; lia|by left].
  - unfold slice. by replace (p + n - p) with n by lia.
Qed.

Lemma between_runs_skip s p c : s !! p = Some c -> isDigit c = false -> between_runs s p -> between_runs s (S p).
Proof.
  intros Hc Hd Hb q Hq Hdq. assert (q <> p).
  { intros ->. destruct Hdq as (x & Hx & Hdx). rewrite Hc in Hx. injection Hx as <-. congruence. }
  destruct (Hb q) as (k & Hk & Hb'); [lia|done|]. exists k. split; [lia|done].
Qed.

(** Every window is that of a maximal run with enough digits. *)
Lemma digit_spans_sound fuel s min p w :
  between_runs s p -> w ∈ digit_spans_from fuel s min p ->
  exists i j, p <= i /\ w = window_of s i j /\ is_run s i j.
Proof.
  revert p; induction fuel as [|fuel IH]; intros p Hb; cbn [digit_spans_from].
  { by intros ?%not_elem_of_nil. }
  destruct (s !! p) as [c|] eqn:Hc; [|by intros ?%not_elem_of_nil].
  destruct (isDigit c) eqn:Hd; cbn [negb].
  - destruct (digit_run (drop p s) p 0 p) as [[i' d] last] eqn:E.
    apply (digit_spans_step s p c) in E as (H1 & H2 & _ & H3 & _); [|done..].
    intros Hw. assert (Hw' : w = window_of s p (last + 1) \/ w ∈ digit_spans_from fuel s min i').
    { destruct (min <=? d); [apply elem_of_cons in Hw as [->|Hw]; [by left|by right]|by right]. }
    destruct Hw' as [->|Hw']; [by exists p, (last + 1)|].
    apply IH in Hw' as (i & j & Hi & ? & ?); [|done]. exists i, j. split_and!; [lia|done|done].
  - intros Hw. apply IH in Hw as (i & j & Hi & ? & ?); [|by eapply between_runs_skip].
    exists i, j. split_and!; [lia|done|done].
Qed.

Lemma digit_count_slice s a b i j : a <= i -> i <= j -> j <= b -> digit_count (slice s i j) <= digit_count (slice s a b).
Proof.
  intros H1 H2 H3. unfold slice.
  assert (E : take (b - a) (drop a s) = take (i - a) (drop a s) ++ take (j - i) (drop i s) ++ take (b - j) (drop j s)).
  { replace (b - a) with ((i - a) + ((j - i) + (b - j))) by lia.
    rewrite <-take_take_drop. f_equal. rewrite drop_drop. replace (a + (i - a)) with i by lia.
    rewrite <-take_take_drop. f_equal. rewrite drop_drop. by replace (i + (j - i)) with j by lia. }
  rewrite E, !digit_count_app. lia.
Qed.

(** Digits and separators with enough digits among them lie in one window. *)
Lemma digit_spans_complete fuel s min p i j :
  length s - p <= fuel -> between_runs s p -> p <= i -> i < j <= length s ->
  digit_at s i -> digit_at s (j - 1) -> (forall k, i <= k < j -> run_at s k) ->
  min <= digit_count (slice s i j) ->
  exists i0 j0, window_of s i0 j0 ∈ digit_spans_from fuel s min p /\ i0 <= i /\ j <= j0 /\ is_run s i0 j0.
Proof.
  revert p; induction fuel as [|fuel IH]; intros p Hf Hb Hp Hij Hdi Hdj Hr Hmin; [lia|].
  cbn [digit_spans_from]. destruct (lookup_lt_is_Some_2 s p) as [c Hc]; [lia|]. rewrite Hc.
  destruct (isDigit c) eqn:Hd; cbn [negb].
  - destruct (digit_run (drop p s) p 0 p) as [[i' d] last] eqn:E.
    apply (digit_spans_step s p c) in E as (H1 & H2 & H2' & H3 & H4 & H5 & ->); [|done..].
    destruct (decide (i < i')).
    + assert (j <= i').
      { destruct (decide (j <= i')); [done|]. exfalso. destruct H5 as [H5|H5]; [lia|].
        eapply run_not_break; [|exact H5]. apply Hr. lia. }
      assert (j <= last + 1).
      { destruct (decide (j <= last + 1)); [done|]. exfalso.
        destruct (run_after _ _ _ H2 (j - 1)) as (k & Hk & Hbk); [lia|done|].
        eapply run_not_break; [|exact Hbk]. apply H4. pose proof (run_lt _ _ _ H2). lia. }
      pose proof (digit_count_slice s p i' i j). rewrite (proj2 (Nat.leb_le min _)) by lia.
      exists p, (last + 1). split_and!; [by left|lia|lia|done].
    + destruct (IH i') as (i0 & j0 & Hin & ?); [lia|done|lia|done..|].
      exists i0, j0. split; [|done]. destruct (min <=? _); [by right|done].
  - assert (p <> i). { intros ->. destruct Hdi as (x & Hx & Hdx). rewrite Hc in Hx. injection Hx as <-. congruence. }
    apply IH; try done; [lia|by eapply between_runs_skip|lia].
Qed.

Lemma between_runs_0 s : between_runs s 0.
Proof. intros q Hq. lia. Qed.

Lemma digitSpans_sound s min w : w ∈ digitSpans s min -> exists i j, w = window_of s i j /\ is_run s i j.
Proof.
  intros H. apply digit_spans_sound in H as (i & j & _ & ? & ?); [|apply between_runs_0]. by exists i, j.
Qed.

Lemma min2_min a b : min2 a b = a `min` b.
Proof. unfold min2. destruct (a <? b) eqn:E; bool_prop; lia. Qed.

Lemma window_of_ok s i j : is_run s i j -> sp_start (window_of s i j) <= sp_end (window_of s i j) <= length s.
Proof.
  intros H%run_lt. unfold window_of, spanContext. cbn [sp_start sp_end]. rewrite min2_min. lia.
Qed.

(** A numeric detector misses nothing by looking at windows: digits and
    separators that start and end with a digit and hold at least [min]
    digits lie in one window, with the two bytes on each side that decide
    the word boundaries (or the ends of the text). *)
Theorem digitWindows_cover s min i j :
  i < j <= length s -> digit_at s i -> digit_at s (j - 1) -> (forall k, i <= k < j -> run_at s k) ->
  min <= digit_count (slice s i j) ->
  exists w, w ∈ digitWindows min s /\ sp_start w <= i - 2 /\ (j + 2) `min` length s <= sp_end w.
Proof.
  intros Hij Hi Hj Hr Hm.
  destruct (digit_spans_complete (length s) s min 0 i j) as (i0 & j0 & Hin & H1 & H2 & H3);
    [lia|apply between_runs_0|lia|done..|].
  exists (window_of s i0 j0). split; [done|]. unfold window_of, spanContext. cbn [sp_start sp_end].
  rewrite min2_min. pose proof (run_lt _ _ _ H3). lia.
Qed.

(** ** What [Find] reports *)

(** What the rule's check makes of a candidate. *)
Definition judged (r : rule) (cand : list ascii) : Confidence * bool :=
  match r_check r with
  | Some check => let '(c, ok) := check cand in (if decide (c = NoConfidence) then r_conf r else c, ok)
  | None => (r_conf r, true)
  end.

Definition pre_ok (r : rule) (s : list ascii) : bool := match r_pre r with Some pre => pre s | None => true end.

Definition reported (r : rule) (s : list ascii) (offset : nat) (ab : nat * nat) : Match :=
  mkMatch (offset + ab.1) (offset + ab.2) (judged r (slice s ab.1 ab.2)).1 (r_name r).

Lemma find_locs_eq r s offset a b locs out :
  find_locs r s offset ((a, b) :: locs) out =
  if findCap <=? length out then out
  else find_locs r s offset locs
    (if (judged r (slice s a b)).2 then out ++ [reported r s offset (a, b)] else out).
Proof.
  cbn [find_locs]. destruct (findCap <=? length out); [done|]. unfold reported, judged. cbn [fst snd].
  destruct (r_check r) as [check|]; [|done]. by destruct (check _) as [c ok].
Qed.

Lemma find_locs_sound r s offset locs out m :
  m ∈ find_locs r s offset locs out ->
  m ∈ out \/ exists ab, ab ∈ locs /\ m = reported r s offset ab /\ (judged r (slice s ab.1 ab.2)).2 = true.
Proof.
  revert out; induction locs as [|[a b] locs IH]; intros out; [by left|]. rewrite find_locs_eq.
  destruct (findCap <=? length out); [by left|].
  intros [H|(ab & Hin & ? & ?)]%IH; [|right; exists ab; split_and!; [by right|done|done]].
  destruct (snd (judged r (slice s a b))) eqn:E; [|by left].
  apply elem_of_app in H as [H|H]; [by left|right]. apply list_elem_of_singleton in H as ->.
  exists (a, b). split_and!; [by left|done|done].
Qed.

Lemma find_locs_grows r s offset locs out : length out <= length (find_locs r s offset locs out) /\ incl out (find_locs r s offset locs out).
Proof.
  revert out; induction locs as [|[a b] locs IH]; intros out; [split; [done|apply incl_refl]|]. rewrite find_locs_eq.
  destruct (findCap <=? length out); [split; [done|apply incl_refl]|].
  destruct (snd (judged r _)); [|apply IH]. destruct (IH (out ++ [reported r s offset (a, b)])) as [H1 H2].
  rewrite length_app in H1. split; [lia|]. intros x Hx. apply H2, in_or_app. by left.
Qed.

Lemma find_locs_complete r s offset locs out ab :
  ab ∈ locs -> (judged r (slice s ab.1 ab.2)).2 = true ->
  findCap <= length (find_locs r s offset locs out) \/ In (reported r s offset ab) (find_locs r s offset locs out).
Proof.
  intros Hin Hj. revert out; induction locs as [|[a b] locs IH]; intros out; [by apply not_elem_of_nil in Hin|].
  rewrite find_locs_eq. destruct (findCap <=? length out) eqn:Hc; [bool_prop; by left|].
  apply elem_of_cons in Hin as [->|Hin]; [|by apply IH].
  cbn [fst snd] in Hj. rewrite Hj. right. apply find_locs_grows, in_or_app. right. by left.
Qed.

Lemma find_sound d s offset out m :
  m ∈ find d s offset out ->
  m ∈ out \/ exists r ab, r ∈ pd_rules d /\ ab ∈ find_bytes (r_re r) s /\ m = reported r s offset ab /\
    (judged r (slice s ab.1 ab.2)).2 = true.
Proof.
  unfold find. revert out; induction (pd_rules d) as [|r rs IH]; intros out; [by left|]. cbn [foldl].
  intros [H|(r' & ab & Hr & H)]%IH; [|right; exists r', ab; split; [by right|done]].
  unfold find_rule in H. destruct (match r_pre r with Some pre => negb (pre s) | None => false end); [by left|].
  apply find_locs_sound in H as [H|(ab & ? & ? & ?)]; [by left|right].
  exists r, ab. split_and!; [by left|done|done|done].
Qed.

Lemma find_grows d s offset out : length out <= length (find d s offset out) /\ incl out (find d s offset out).
Proof.
  unfold find. revert out; induction (pd_rules d) as [|r rs IH]; intros out; [split; [done|apply incl_refl]|].
  cbn [foldl]. destruct (IH (find_rule s offset out r)) as [H1 H2].
  assert (length out <= length (find_rule s offset out r) /\ incl out (find_rule s offset out r)) as [H3 H4].
  { unfold find_rule. destruct (match r_pre r with Some pre => negb (pre s) | None => false end);
      [split; [done|apply incl_refl]|apply find_locs_grows]. }
  split; [lia|by eapply incl_tran].
Qed.

Lemma find_complete d s offset out r ab :
  r ∈ pd_rules d -> pre_ok r s = true -> ab ∈ find_bytes (r_re r) s -> (judged r (slice s ab.1 ab.2)).2 = true ->
  findCap <= length (find d s offset out) \/ In (reported r s offset ab) (find d s offset out).
Proof.
  intros Hr Hpre Hab Hj. unfold find. revert out; induction (pd_rules d) as [|r' rs IH]; intros out;
    [by apply not_elem_of_nil in Hr|]. cbn [foldl].
  apply elem_of_cons in Hr as [->|Hr]; [|by apply IH].
  pose proof (find_grows (mkPattern "" "" None rs) s offset (find_rule s offset out r')) as [H1 H2].
  unfold find in H1, H2. cbn [pd_rules] in H1, H2.
  assert (findCap <= length (find_rule s offset out r') \/ In (reported r' s offset ab) (find_rule s offset out r')) as [H|H].
  { unfold find_rule. unfold pre_ok in Hpre. destruct (r_pre r') as [pre|]; [rewrite Hpre; cbn [negb]|];
      by apply find_locs_complete. }
  - left. lia.
  - right. by apply H2.
Qed.

Lemma find_windows_sound d s ws out m :
  m ∈ find_windows d s ws out ->
  m ∈ out \/ exists w r ab, w ∈ ws /\ r ∈ pd_rules d /\ ab ∈ find_bytes (r_re r) (slice s (sp_start w) (sp_end w)) /\
    m = reported r (slice s (sp_start w) (sp_end w)) (sp_start w) ab /\
    (judged r (slice (slice s (sp_start w) (sp_end w)) ab.1 ab.2)).2 = true.
Proof.
  revert out; induction ws as [|w ws IH]; intros out; [by left|]. cbn [find_windows].
  intros H. assert (H' : m ∈ find d (slice s (sp_start w) (sp_end w)) (sp_start w) out \/
    m ∈ find_windows d s ws (find d (slice s (sp_start w) (sp_end w)) (sp_start w) out)).
  { destruct (findCap <=? _); [by left|by right]. }
  assert (Hin : m ∈ find d (slice s (sp_start w) (sp_end w)) (sp_start w) out -> m ∈ out \/
    exists w0 r ab, w0 ∈ w :: ws /\ r ∈ pd_rules d /\ ab ∈ find_bytes (r_re r) (slice s (sp_start w0) (sp_end w0)) /\
    m = reported r (slice s (sp_start w0) (sp_end w0)) (sp_start w0) ab /\
    (judged r (slice (slice s (sp_start w0) (sp_end w0)) ab.1 ab.2)).2 = true).
  { intros [?|(r & ab & ?)]%find_sound; [by left|right]. exists w, r, ab. split; [by left|done]. }
  destruct H' as [H'|[H'|(w0 & r & ab & Hw & ?)]%IH]; [by apply Hin|by apply Hin|right].
  exists w0, r, ab. split; [by right|done].
Qed.

Lemma find_windows_complete d s ws out w r ab :
  w ∈ ws -> r ∈ pd_rules d -> pre_ok r (slice s (sp_start w) (sp_end w)) = true ->
  ab ∈ find_bytes (r_re r) (slice s (sp_start w) (sp_end w)) ->
  (judged r (slice (slice s (sp_start w) (sp_end w)) ab.1 ab.2)).2 = true ->
  findCap <= length (find_windows d s ws out) \/
  In (reported r (slice s (sp_start w) (sp_end w)) (sp_start w) ab) (find_windows d s ws out).
Proof.
  intros Hw Hr Hp Hab Hj.
  assert (Hgrow : forall ws out, incl out (find_windows d s ws out)).
  { clear. induction ws as [|w ws IH]; intros out; [apply incl_refl|]. cbn [find_windows].
    pose proof (find_grows d (slice s (sp_start w) (sp_end w)) (sp_start w) out) as [_ H].
    destruct (findCap <=? _); [done|]. by eapply incl_tran. }
  revert out; induction ws as [|w' ws IH]; intros out; [by apply not_elem_of_nil in Hw|]. cbn [find_windows].
  apply elem_of_cons in Hw as [->|Hw].
  - destruct (find_complete d _ (sp_start w') out r ab Hr Hp Hab Hj) as [H|H].
    + left. by rewrite (proj2 (Nat.leb_le _ _)) by done.
    + right. destruct (findCap <=? _); [done|]. by apply Hgrow.
  - destruct (findCap <=? length (find d (slice s (sp_start w') (sp_end w')) (sp_start w') out)) eqn:E;
      [bool_prop; by left|by apply IH].
Qed.

(** The windows of a detector: the whole text when it has none. *)
Definition windows (d : patternDetector) (s : list ascii) : list span :=
  match pd_window d with None => [mkSpan 0 (length s)] | Some window => window s end.

Lemma slice_all s : slice s 0 (length s) = s.
Proof. unfold slice. rewrite drop_0, Nat.sub_0_r. by rewrite firstn_all. Qed.

Lemma Find_windows d s : exists ws, Find d s = find_windows d s ws [] /\ ws = windows d s.
Proof.
  exists (windows d s). split; [|done]. unfold Find, windows. destruct (pd_window d) as [window|]; [done|].
  cbn [find_windows sp_start sp_end]. rewrite slice_all. by destruct (findCap <=? _).
Qed.

Lemma Find_sound d s m :
  m ∈ Find d s ->
  exists w r ab, w ∈ windows d s /\ r ∈ pd_rules d /\ ab ∈ find_bytes (r_re r) (slice s (sp_start w) (sp_end w)) /\
    m = reported r (slice s (sp_start w) (sp_end w)) (sp_start w) ab /\
    (judged r (slice (slice s (sp_start w) (sp_end w)) ab.1 ab.2)).2 = true.
Proof.
  destruct (Find_windows d s) as (ws & -> & ->). intros [H|?]%find_windows_sound; [by apply not_elem_of_nil in H|done].
Qed.

Lemma Find_complete d s w r ab :
  w ∈ windows d s -> r ∈ pd_rules d -> pre_ok r (slice s (sp_start w) (sp_end w)) = true ->
  ab ∈ find_bytes (r_re r) (slice s (sp_start w) (sp_end w)) ->
  (judged r (slice (slice s (sp_start w) (sp_end w)) ab.1 ab.2)).2 = true ->
  findCap <= length (Find d s) \/ In (reported r (slice s (sp_start w) (sp_end w)) (sp_start w) ab) (Find d s).
Proof.
  intros. destruct (Find_windows d s) as (ws & -> & ->). by apply find_windows_complete.
Qed.

(** ** The anchored windows *)

Definition anchored (s : list ascii) (before after : nat) (ps : list nat) (out : list span) : list span :=
  foldl (fun out at_ => merge_window out (mkSpan (at_ - before) (min2 (at_ + after) (length s)))) out ps.

(** After the positions up to [q]. *)
Definition anchor_inv (s : list ascii) (before after q : nat) (out : list span) : Prop :=
  forall o, o ∈ out -> sp_start o <= sp_end o /\ sp_start o <= q - before /\ sp_end o <= (q + after) `min` length s.

Definition covers (s : list ascii) (before after : nat) (out : list span) (p : nat) : Prop :=
  exists o, o ∈ out /\ sp_start o <= p - before /\ (p + after) `min` length s <= sp_end o.

Lemma merge_window_inv s before after q p out :
  anchor_inv s before after q out -> q <= p -> p < length s ->
  let out' := merge_window out (mkSpan (p - before) (min2 (p + after) (length s))) in
  anchor_inv s before after p out' /\ covers s before after out' p /\
  (forall p', covers s before after out p' -> covers s before after out' p').
Proof.
  intros Hinv Hq Hp. cbn zeta. rewrite min2_min.
  assert (Hnew : covers s before after (mkSpan (p - before) ((p + after) `min` length s) :: out) p).
  { eexists. split; [by left|]. cbn. lia. }
  destruct out as [|o out]; cbn [merge_window].
  { split_and!; [|done|].
    - intros o ->%list_elem_of_singleton. cbn. lia.
    - intros p' (o & Ho & _). by apply not_elem_of_nil in Ho. }
  destruct (Hinv o) as (H1 & H2 & H3); [by left|]. cbn [sp_start sp_end].
  destruct (p - before <=? sp_end o) eqn:E; bool_prop.
  - split_and!.
    + intros x [->|Hx]%elem_of_cons; [cbn; lia|]. destruct (Hinv x) as (? & ? & ?); [by right|]. lia.
    + eexists. split; [by left|]. cbn. lia.
    + intros p' (x & [->|Hx]%elem_of_cons & Hs & He); [eexists; split; [by left|]; cbn; lia|].
      exists x. split; [by right|done].
  - split_and!; [|done|].
    + intros x [->|Hx]%elem_of_cons; [cbn; lia|]. destruct (Hinv x Hx) as (? & ? & ?). lia.
    + intros p' (x & Hx & ?). exists x. split; [by right|done].
Qed.

Lemma positions_spec f s i : forall p, p ∈ positions f s i <-> i <= p < i + length s /\ f (drop (p - i) s) = true.
Proof.
  revert i; induction s as [|c s IH]; intros i p.
  { cbn. split; [by intros ?%not_elem_of_nil|lia]. }
  cbn [positions]. rewrite elem_of_app, IH. cbn [length]. split.
  - intros [H|[H1 H2]].
    + destruct (f (c :: s)) eqn:E; [|by apply not_elem_of_nil in H]. apply list_elem_of_singleton in H as ->.
      rewrite Nat.sub_diag. split; [lia|done].
    + split; [lia|]. replace (p - i) with (S (p - S i)) by lia. done.
  - intros [H1 H2]. destruct (decide (p = i)) as [->|].
    + left. rewrite Nat.sub_diag in H2. cbn [drop] in H2. rewrite H2. by left.
    + right. split; [lia|]. by replace (p - i) with (S (p - S i)) in H2 by lia.
Qed.

Lemma positions_sorted f s i : StronglySorted lt (positions f s i).
Proof.
  revert i; induction s as [|c s IH]; intros i; [constructor|]. cbn [positions].
  destruct (f (c :: s)); cbn [app]; [|apply IH]. constructor; [apply IH|].
  apply Forall_forall. intros p [? _]%positions_spec. lia.
Qed.

Lemma anchored_spec s before after ps q out :
  anchor_inv s before after q out -> StronglySorted lt ps ->
  (forall p, p ∈ ps -> q <= p < length s) ->
  (exists q', anchor_inv s before after q' (anchored s before after ps out)) /\
  (forall p, p ∈ ps \/ covers s before after out p -> covers s before after (anchored s before after ps out) p).
Proof.
  revert q out; induction ps as [|p ps IH]; intros q out Hinv Hs Hb.
  { split; [by exists q|]. intros p [H|H]; [by apply not_elem_of_nil in H|done]. }
  inversion Hs as [|? ? Hs' Hp]; subst. rewrite Forall_forall in Hp.
  destruct (merge_window_inv s before after q p out) as (H1 & H2 & H3); [done|apply Hb; by left..|].
  destruct (IH p _ H1 Hs') as [H4 H5].
  { intros x Hx. specialize (Hp x Hx). assert (q <= x < length s) by (apply Hb; by right). lia. }
  split; [exact H4|]. intros x [[->|Hx]%elem_of_cons|Hx]; apply H5; [by right|by left|right; by apply H3].
Qed.

Lemma anchored_windows s before after f :
  let ws := rev (anchored s before after (positions f s 0) []) in
  (forall w, w ∈ ws -> sp_start w <= sp_end w <= length s) /\
  (forall p, p < length s -> f (drop p s) = true ->
     exists w, w ∈ ws /\ sp_start w <= p - before /\ (p + after) `min` length s <= sp_end w).
Proof.
  cbn zeta. destruct (anchored_spec s before after (positions f s 0) 0 []) as [[q H1] H2].
  - intros o Ho. by apply not_elem_of_nil in Ho.
  - apply positions_sorted.
  - intros p [? _]%positions_spec. lia.
  - split.
    + intros w Hw. rewrite list_elem_of_In, <-in_rev, <-list_elem_of_In in Hw.
      destruct (H1 w Hw) as (? & ? & ?). lia.
    + intros p Hp Hf. destruct (H2 p) as (w & Hw & ?).
      * left. apply positions_spec. rewrite Nat.sub_0_r. split; [lia|done].
      * exists w. split; [|done]. by rewrite list_elem_of_In, <-in_rev, <-list_elem_of_In.
Qed.

(** Every address lies in a window: each [@] has a window that reaches
    72 bytes before it and 260 from it on (or to the ends of the text),
    however many addresses there are and however their windows merge. *)
Theorem anchorWindows_cover s p :
  s !! p = Some "@"%char ->
  exists w, w ∈ anchorWindows "@" 72 260 s /\ sp_start w <= p - 72 /\ (p + 260) `min` length s <= sp_end w.
Proof.
  intros Hp. apply (anchored_windows s 72 260 (fun s => bool_decide (head s = Some "@"%char))).
  - by apply lookup_lt_Some in Hp.
  - rewrite bool_decide_eq_true_2; [done|]. rewrite head_lookup, lookup_drop, Nat.add_0_r. done.
Qed.

(** ** Spans lie in the text *)

Definition in_bounds (s : list ascii) (m : Match) : Prop := m_Start m <= m_End m <= length s.

Lemma length_slice s a b : length (slice s a b) = (b - a) `min` (length s - a).
Proof. unfold slice. by rewrite length_take, length_drop. Qed.

Lemma Find_in_bounds d s m :
  (forall w, w ∈ windows d s -> sp_start w <= sp_end w <= length s) -> m ∈ Find d s -> in_bounds s m.
Proof.
  intros Hw (w & r & ab & Hin & _ & Hab & -> & _)%Find_sound. apply Hw in Hin.
  destruct ab as [a b]. apply find_all_sound in Hab as (H1 & H2 & _). rewrite length_slice in H2.
  unfold in_bounds. cbn [reported m_Start m_End fst snd]. lia.
Qed.

Lemma digit_windows_ok min s w : w ∈ digitWindows min s -> sp_start w <= sp_end w <= length s.
Proof. intros (i & j & -> & H)%digitSpans_sound. by apply window_of_ok. Qed.

Lemma builtins_in_bounds d s m : d ∈ builtins -> m ∈ d_Find d s -> in_bounds s m.
Proof.
  intros Hd. unfold builtins in Hd. rewrite elem_of_app in Hd. destruct Hd as [Hd|Hd].
  - apply list_elem_of_fmap in Hd as (p & -> & Hp). cbn. apply Find_in_bounds.
    repeat (apply elem_of_cons in Hp as [->|Hp]); [..|by apply not_elem_of_nil in Hp];
      unfold windows, paymentCard, iban, email, phone, usSSN, deTaxID, credential; cbn [pd_window].
    all: try (intros w Hw; by eapply digit_windows_ok).
    + apply (proj1 (anchored_windows s 2 45 iban_start)).
    + apply (proj1 (anchored_windows s 72 260 (fun s => bool_decide (head s = Some "@"%char)))).
    + intros w ->%list_elem_of_singleton. cbn. lia.
  - apply list_elem_of_singleton in Hd as ->. cbn. by intros ?%not_elem_of_nil.
Qed.

(** ** What the expressions match *)

(** [R] takes only symbols that satisfy [f]. *)
Definition all_in (f : ascii -> bool) (R : @rel ascii) : Prop :=
  forall prev s n, R prev s n -> n <= length s /\ forall k, k < n -> byte_at f s k.

Lemma all_in_set f p : (forall c, p c = true -> f c = true) -> all_in f (r_set p).
Proof.
  intros H prev s n (-> & c & s' & -> & Hc). split; [cbn; lia|]. intros k Hk. replace k with 0 by lia.
  exists c. split; [done|by apply H].
Qed.

Lemma all_in_assert f b : all_in f (r_assert b).
Proof. intros prev s n [-> _]. split; [lia|intros k Hk; lia]. Qed.

Lemma all_in_eps f : all_in f r_eps.
Proof. intros prev s n H. unfold r_eps in H. subst n. split; [lia|intros k Hk; lia]. Qed.

Lemma all_in_cat f R T : all_in f R -> all_in f T -> all_in f (r_cat R T).
Proof.
  intros HR HT prev s n (a & b & -> & Ha & Hb). apply HR in Ha as [Hla Ha]. apply HT in Hb as [Hlb Hb].
  rewrite length_drop in Hlb. split; [lia|]. intros k Hk. destruct (decide (k < a)); [by apply Ha|].
  specialize (Hb (k - a)). rewrite byte_at_drop in Hb. replace (a + (k - a)) with k in Hb by lia. apply Hb. lia.
Qed.

Lemma all_in_alt f R T : all_in f R -> all_in f T -> all_in f (r_alt R T).
Proof. intros HR HT prev s n [H|H]; [by apply HR in H|by apply HT in H]. Qed.

Lemma all_in_times f R n : all_in f R -> all_in f (r_times n R).
Proof. intros HR. induction n; [apply all_in_eps|by apply all_in_cat]. Qed.

Lemma all_in_upto f R n : all_in f R -> all_in f (r_upto n R).
Proof. intros HR. induction n; [apply all_in_eps|apply all_in_alt; [by apply all_in_cat|apply all_in_eps]]. Qed.

(** A repetition takes at least as many symbols as its lower bound. *)
Lemma times_at_least n (R : @rel ascii) prev s m :
  (forall prev s n, R prev s n -> 1 <= n) -> r_times n R prev s m -> n <= m.
Proof.
  intros HR. revert prev s m; induction n as [|n IH]; intros prev s m; [lia|].
  intros (a & b & -> & Ha & Hb). apply HR in Ha. apply IH in Hb. lia.
Qed.

(** What one turn of [R] takes off a run of symbols, [n] turns take. *)
Lemma times_ones n (R : @rel ascii) prev s :
  (forall prev k, k < n -> R prev (drop k s) 1) -> r_times n R prev s n.
Proof.
  revert prev s; induction n as [|n IH]; intros prev s HR; [done|].
  exists 1, n. split_and!; [done|specialize (HR prev 0); rewrite drop_0 in HR; apply HR; lia|].
  apply IH. intros prev' k Hk. rewrite drop_drop. apply HR. lia.
Qed.

Lemma upto_ones n k (R : @rel ascii) prev s :
  k <= n -> (forall prev i, i < k -> R prev (drop i s) 1) -> r_upto n R prev s k.
Proof.
  revert k prev s; induction n as [|n IH]; intros k prev s Hk HR; [by replace k with 0 by lia|].
  destruct k as [|k]; [by right|]. left. exists 1, k.
  split_and!; [done|specialize (HR prev 0); rewrite drop_0 in HR; apply HR; lia|].
  apply IH; [lia|]. intros prev' i Hi. rewrite drop_drop. apply HR. lia.
Qed.

(** Symbols of a group such as [(?:[ -]?\d)]. *)
Definition card_char (c : ascii) : bool := is_digit c || one_of (bytes_of " -") c.

Definition card_group : @rel ascii := Matches is_word is_nl (Concat [opt (oneof " -"); dg]).

Lemma card_group_in : all_in card_char card_group.
Proof.
  unfold card_group. cbn [Matches foldr opt oneof dg].
  assert (H1 : forall c, one_of (bytes_of " -") c = true -> card_char c = true).
  { intros c H. unfold card_char. by rewrite H, orb_true_r. }
  assert (H2 : forall c, is_digit c = true -> card_char c = true).
  { intros c H. unfold card_char. by rewrite H. }
  eauto 10 using all_in_cat, all_in_alt, all_in_set, all_in_eps.
Qed.

Lemma card_group_digit prev s n : card_group prev s n -> 1 <= n /\ digit_at s (n - 1).
Proof.
  intros (a & b & -> & _ & (d & e & -> & (-> & c & s' & Hd & Hc) & ->)).
  split; [lia|]. rewrite Nat.add_0_r. replace (a + 1 - 1) with (a + 0) by lia.
  apply byte_at_drop. exists c. rewrite Hd. done.
Qed.

Lemma card_group_one prev s c s' : s = c :: s' -> is_digit c = true -> card_group prev s 1.
Proof.
  intros -> Hc. exists 0, 1. split_and!; [done|by right|]. exists 1, 0. split_and!; [done| |done].
  split; [done|]. by exists c, s'.
Qed.

(** What [cardRe] matches starts and ends with a digit at word boundaries and
    holds nothing but digits, spaces and hyphens. *)
Lemma cardRe_shape prev s n :
  Matches is_word is_nl cardRe prev s n ->
  boundary is_word prev s = true /\ digit_at s 0 /\ digit_at s (n - 1) /\ 13 <= n <= length s /\
  (forall k, k < n -> byte_at card_char s k) /\
  boundary is_word (adv prev s n) (drop n s) = true.
Proof.
  intros HM. pose proof (Matches_length _ _ _ _ _ _ HM) as Hlen. unfold cardRe in HM. cbn [Matches foldr dg rep] in HM.
  change (Matches is_word is_nl (Concat [opt (oneof " -"); CharClass is_digit])) with card_group in HM.
  destruct HM as (? & n1 & -> & [-> Hb] & HM). cbn [adv] in HM. rewrite drop_0 in HM.
  destruct HM as (? & n2 & -> & Hdg & HM).
  pose proof Hdg as (-> & c & s' & -> & Hc).
  destruct HM as (n3 & n4 & -> & Hrep & HM). destruct HM as (? & z & -> & [-> Hb'] & Hz). unfold r_eps in Hz. subst z.
  rewrite !Nat.add_0_r, !Nat.add_0_l in *.
  assert (Hrep' := Hrep). destruct Hrep' as (a & b & Hab & Ha & Hb2).
  assert (Hdig : all_in card_char (r_cat (r_times 12 card_group) (r_upto (18 - 12) card_group))).
  { apply all_in_cat; [apply all_in_times|apply all_in_upto]; apply card_group_in. }
  pose proof (times_at_least _ _ _ _ _ (fun p s n H => proj1 (card_group_digit p s n H)) Ha).
  apply Hdig in Hrep as [Hl Hin].
  assert (Hlast : forall k (R : @rel ascii) p t m, (forall p s n, R p s n -> 1 <= n /\ digit_at s (n - 1)) ->
    r_times k R p t m -> 0 < m -> digit_at t (m - 1)).
  { clear. induction k as [|k IH]; intros R p t m HR; [by intros ->; lia|].
    intros (x & y & -> & Hx & Hy) Hm. apply HR in Hx as [Hx1 Hx2]. destruct (decide (y = 0)) as [->|].
    - by rewrite Nat.add_0_r.
    - apply IH in Hy; [|done|lia]. apply byte_at_drop in Hy. by replace (x + (y - 1)) with (x + y - 1) in Hy by lia. }
  assert (Hlast' : forall k (R : @rel ascii) p t m, (forall p s n, R p s n -> 1 <= n /\ digit_at s (n - 1)) ->
    r_upto k R p t m -> 0 < m -> digit_at t (m - 1)).
  { clear. induction k as [|k IH]; intros R p t m HR; [by intros ->; lia|].
    intros [(x & y & -> & Hx & Hy)| ->] Hm; [|lia]. apply HR in Hx as [Hx1 Hx2]. destruct (decide (y = 0)) as [->|].
    - by rewrite Nat.add_0_r.
    - apply IH in Hy; [|done|lia]. apply byte_at_drop in Hy. by replace (x + (y - 1)) with (x + y - 1) in Hy by lia. }
  split_and!; try done.
  - by exists c.
  - subst n3. change (S a + b - 1) with (1 + (a + b) - 1).
    destruct (decide (b = 0)) as [->|].
    + apply (Hlast _ _ _ _ _ card_group_digit) in Ha; [|lia]. apply byte_at_drop in Ha.
      by replace (1 + (a - 1)) with (1 + (a + 0) - 1) in Ha by lia.
    + apply (Hlast' _ _ _ _ _ card_group_digit) in Hb2; [|lia]. rewrite drop_drop in Hb2. apply byte_at_drop in Hb2.
      by replace (1 + a + (b - 1)) with (1 + (a + b) - 1) in Hb2 by lia.
  - lia.
  - intros [|k] Hk; [exists c; split; [done|]; unfold card_char; by rewrite Hc|].
    specialize (Hin k). apply (byte_at_drop _ _ 1). apply Hin. lia.
Qed.

(** A whole run of 13 to 19 digits between word boundaries is a match. *)
Lemma cardRe_digits prev s n :
  13 <= n <= 19 -> (forall k, k < n -> digit_at s k) -> boundary is_word prev s = true ->
  boundary is_word (adv prev s n) (drop n s) = true -> Matches is_word is_nl cardRe prev s n.
Proof.
  intros Hn Hd Hb He. unfold cardRe. cbn [Matches foldr dg rep].
  change (Matches is_word is_nl (Concat [opt (oneof " -"); CharClass is_digit])) with card_group.
  assert (Hlen : n <= length s).
  { destruct (Hd (n - 1)) as (c & Hc%lookup_lt_Some & _); lia. }
  assert (Hone : forall prev k, k < n -> card_group prev (drop k s) 1).
  { intros prev' k Hk. destruct (Hd k Hk) as (c & Hc & Hdc). by eapply card_group_one; [apply drop_S|]. }
  exists 0, n. split_and!; [done|done|]. cbn [adv]. rewrite drop_0.
  exists 1, (n - 1). split_and!; [lia| |].
  { destruct (Hd 0) as (c & Hc & Hdc); [lia|]. split; [done|]. exists c, (drop 1 s). split; [|done].
    rewrite <-(drop_0 s) at 1. by apply drop_S. }
  exists (n - 1), 0. split_and!; [lia| |].
  - exists 12, (n - 13). split_and!; [lia| |].
    + apply times_ones. intros prev' k Hk. rewrite drop_drop. apply Hone. lia.
    + apply upto_ones; [lia|]. intros prev' k Hk. rewrite !drop_drop. apply Hone. lia.
  - exists 0, 0. split_and!; [done|split; [done|]|done]. rewrite adv_add, drop_drop by lia.
    by replace (1 + (n - 1)) with n by lia.
Qed.

Lemma slice_lookup s a b k : k < b - a -> slice s a b !! k = s !! (a + k).
Proof. intros Hk. unfold slice. by rewrite lookup_take_lt, lookup_drop. Qed.

Lemma slice_slice s a b i j : a <= b -> i <= j -> a + j <= b -> slice (slice s a b) i j = slice s (a + i) (a + j).
Proof.
  intros H1 H2 H3. unfold slice. rewrite skipn_firstn_comm, drop_drop, take_take. f_equal. lia.
Qed.

(** Word boundaries in a window are word boundaries in the text, where the
    window holds the bytes on both sides or ends with the text. *)
Lemma boundary_window s ws we k :
  ws <= we <= length s -> k <= we - ws -> (k = 0 -> ws = 0) -> (k = we - ws -> we = length s) ->
  boundary is_word (adv None (slice s ws we) k) (drop k (slice s ws we)) =
  boundary is_word (adv None s (ws + k)) (drop (ws + k) s).
Proof.
  intros Hw Hk H0 H1. unfold boundary. f_equal. f_equal.
  - destruct k as [|k]; [rewrite H0 by done; done|]. rewrite Nat.add_succ_r. cbn [adv].
    by rewrite slice_lookup by lia.
  - rewrite !head_lookup, !lookup_drop, !Nat.add_0_r. destruct (decide (k = we - ws)) as [E|E].
    + rewrite lookup_ge_None_2 by (rewrite length_slice; lia). by rewrite lookup_ge_None_2 by lia.
    + by rewrite slice_lookup by lia.
Qed.

(** The text of a match, and the byte before a position. *)
Definition text_of (s : list ascii) (m : Match) : list ascii := slice s (m_Start m) (m_End m).

Definition word_at (s : list ascii) (k : nat) : bool := at_word is_word (s !! k).

Lemma digit_is_word s k : digit_at s k -> word_at s k = true.
Proof. intros (c & Hc & Hd). unfold word_at, at_word. rewrite Hc. cbn. unfold isDigit in Hd. unfold is_word, is_alnum. by rewrite Hd. Qed.

Lemma card_not_break s k : byte_at card_char s k -> run_at s k.
Proof.
  intros (c & Hc & Hd). exists c. split; [done|]. unfold run_char, isDigit, card_char in *.
  destruct (is_digit c); [done|]. cbn in *. unfold digitSeps, one_of in *. cbn in *.
  rewrite !orb_true_iff in *. tauto.
Qed.

(** A span of the text that starts and ends with a digit and holds digits
    and separators only stays inside a maximal run it meets. *)
Lemma span_in_run s i j a b :
  is_run s i j -> a < b -> digit_at s a -> digit_at s (b - 1) -> (forall k, a <= k < b -> run_at s k) ->
  i < b -> a < j -> i <= a /\ b <= j.
Proof.
  intros H Hab Ha Hb Hr H1 H2. split.
  - destruct (decide (i <= a)); [done|]. exfalso.
    destruct (run_before _ _ _ H a) as (k & Hk & Hbk); [lia|done|]. eapply run_not_break; [|done]. apply Hr. lia.
  - destruct (decide (b <= j)); [done|]. exfalso.
    destruct (run_after _ _ _ H (b - 1)) as (k & Hk & Hbk); [lia|done|]. eapply run_not_break; [|done]. apply Hr. lia.
Qed.

Lemma is_run_unique s i j i0 j0 : is_run s i j -> is_run s i0 j0 -> i0 <= i -> j <= j0 -> i0 = i /\ j0 = j.
Proof.
  intros H H0 Hi Hj. pose proof (run_lt _ _ _ H). pose proof (run_lt _ _ _ H0).
  destruct (span_in_run s i j i0 j0 H); [lia|apply H0..|lia|lia|lia].
Qed.

(** What a match of [cardRe] in the window of a run is in the text. *)
Lemma card_in_window s i j a b :
  is_run s i j ->
  let w := window_of s i j in
  (a, b) ∈ find_bytes cardRe (slice s (sp_start w) (sp_end w)) ->
  i <= sp_start w + a /\ sp_start w + b <= j /\ a + 13 <= b /\ b <= sp_end w - sp_start w /\
  digit_at s (sp_start w + a) /\ digit_at s (sp_start w + b - 1) /\
  boundary is_word (adv None s (sp_start w + a)) (drop (sp_start w + a) s) = true /\
  boundary is_word (adv None s (sp_start w + b)) (drop (sp_start w + b) s) = true.
Proof.
  intros Hrun. cbn zeta. pose proof (window_of_ok _ _ _ Hrun) as Hw. pose proof (run_lt _ _ _ Hrun) as Hij.
  set (w := window_of s i j) in *. set (ws := sp_start w) in *. set (we := sp_end w) in *.
  assert (Hws : ws = i - 2) by done.
  assert (Hwe : we = (j + 2) `min` length s) by (unfold we, w, window_of; cbn; apply min2_min).
  intros (Hab & Hb & HM)%find_all_sound. rewrite length_slice in Hb.
  apply cardRe_shape in HM as (B1 & D1 & D2 & Hn & Hall & B2). rewrite adv_add, drop_drop in B2
    by (rewrite length_slice; lia). replace (a + (b - a)) with b in B2 by lia.
  assert (Hdrop : forall f k, k < b - a -> byte_at f (drop a (slice s ws we)) k -> byte_at f s (ws + a + k)).
  { intros f k Hk (c & Hc & Hf). rewrite lookup_drop, slice_lookup in Hc by lia.
    exists c. by rewrite <-Nat.add_assoc. }
  apply Hdrop in D1, D2; [|lia|lia]. rewrite Nat.add_0_r in D1.
  replace (ws + a + (b - a - 1)) with (ws + b - 1) in D2 by lia.
  assert (Hr : forall k, ws + a <= k < ws + b -> run_at s k).
  { intros k Hk. specialize (Hall (k - (ws + a))). apply Hdrop in Hall; [|lia|lia].
    apply card_not_break in Hall. by replace (ws + a + (k - (ws + a))) with k in Hall by lia. }
  destruct (span_in_run s i j (ws + a) (ws + b) Hrun) as [H1 H2]; [lia|done..|lia|lia|].
  rewrite boundary_window in B1, B2 by lia. by split_and!; try lia.
Qed.

Lemma boundary_digit_before s k : digit_at s k -> boundary is_word (adv None s k) (drop k s) = true ->
  k = 0 \/ word_at s (k - 1) = false.
Proof.
  intros Hd%digit_is_word Hb. unfold boundary in Hb. rewrite head_lookup, lookup_drop, Nat.add_0_r in Hb.
  unfold word_at in Hd. rewrite Hd in Hb. destruct k as [|k]; [by left|right]. cbn [adv] in Hb.
  unfold word_at. rewrite Nat.sub_1_r. cbn [Nat.pred]. by destruct (at_word is_word (s !! k)).
Qed.

Lemma boundary_digit_after s k : 0 < k -> digit_at s (k - 1) ->
  boundary is_word (adv None s k) (drop k s) = negb (word_at s k).
Proof.
  intros Hk Hd%digit_is_word. unfold boundary. rewrite head_lookup, lookup_drop, Nat.add_0_r.
  destruct k as [|k]; [lia|]. cbn [adv]. rewrite Nat.sub_1_r in Hd. cbn [Nat.pred] in Hd. unfold word_at in Hd.
  rewrite Hd. unfold word_at. by destruct (at_word is_word (s !! S k)).
Qed.

(** Nothing but a card number is reported as one: the span lies in the
    text, holds 13 to 19 digits that are not one repeated digit and pass the
    Luhn check, and does not sit inside a longer identifier, whatever the
    windows cut off. *)
Theorem card_match_sound s m :
  m ∈ Find paymentCard s ->
  in_bounds s m /\
  (let d := onlyDigits (text_of s m) in 13 <= length d <= 19 /\ luhn d = true /\ uniform d = false) /\
  (m_Start m = 0 \/ word_at s (m_Start m - 1) = false) /\ word_at s (m_End m) = false.
Proof.
  intros Hm. assert (Hb : in_bounds s m).
  { eapply Find_in_bounds; [|exact Hm]. intros w. apply digit_windows_ok. }
  split; [done|]. apply Find_sound in Hm as (w & r & [a b] & Hw & Hr & Hab & -> & Hj).
  apply list_elem_of_singleton in Hr as ->. apply digitSpans_sound in Hw as (i & j & -> & Hrun).
  pose proof (window_of_ok _ _ _ Hrun) as Hok.
  apply card_in_window in Hab as (H1 & H2 & H3 & H4 & D1 & D2 & B1 & B2); [|done].
  cbn [fst snd] in Hj. rewrite slice_slice in Hj by lia. cbn [reported m_Start m_End fst snd text_of].
  split; [|split].
  - unfold judged, checked in Hj. cbn [r_check] in Hj. unfold text_of. cbn [reported m_Start m_End fst snd].
    unfold checkCard in Hj. set (d := onlyDigits _) in *.
    destruct ((length d <? 13) || (19 <? length d) || uniform d || negb (luhn d)) eqn:E; [done|].
    rewrite !orb_false_iff, !Nat.ltb_ge, negb_false_iff in E. destruct E as [[[? ?] ?] ?].
    split; [lia|split; assumption].
  - apply (boundary_digit_before _ _ D1 B1).
  - rewrite boundary_digit_after in B2 by (done || lia). by apply negb_true_iff in B2.
Qed.

Lemma card_match_sound_witness :
  let s := bytes_of "pay 4111 1111 1111 1111 now" in
  in_bounds s (mkMatch 4 23 ConfidenceHigh "luhn") /\ word_at s 23 = false.
Proof.
  cbn zeta. destruct (card_match_sound (bytes_of "pay 4111 1111 1111 1111 now") (mkMatch 4 23 ConfidenceHigh "luhn"))
    as (H1 & _ & _ & H2).
  - apply list_elem_of_In. left. vm_compute. reflexivity.
  - split; [exact H1|exact H2].
Defined.

(** A stretch of digits is its own digits. *)
Lemma digits_only s i j : j <= length s -> (forall k, i <= k < j -> digit_at s k) -> onlyDigits (slice s i j) = slice s i j.
Proof.
  intros Hj Hd. unfold onlyDigits. apply forallb_filter_id, forallb_forall. intros c Hc.
  apply list_elem_of_In, list_elem_of_lookup_1 in Hc as (k & Hk).
  pose proof (lookup_lt_Some _ _ _ Hk) as Hkl. rewrite length_slice in Hkl. rewrite slice_lookup in Hk by lia.
  destruct (Hd (i + k)) as (c' & Hc' & Hdc); [lia|]. assert (c' = c) as -> by congruence. exact Hdc.
Qed.

(** A digit after a byte that is no word byte starts at a boundary. *)
Lemma boundary_at_digit s i : digit_at s i -> (i = 0 \/ word_at s (i - 1) = false) -> boundary is_word (adv None s i) (drop i s) = true.
Proof.
  intros Hd Hpre. unfold boundary. rewrite head_lookup, lookup_drop, Nat.add_0_r.
  pose proof (digit_is_word s i) as Hw1. unfold word_at in *. rewrite Hw1 by exact Hd.
  destruct Hpre as [->|Hpre]; [done|]. destruct i as [|i]; [done|]. cbn [adv].
  rewrite Nat.sub_1_r in Hpre. cbn [Nat.pred] in Hpre. by rewrite Hpre.
Qed.

(** A card number written as one run of digits is found: if it is a run
    of its own, no letter or underscore touches it, it passes Luhn and is not
    one repeated digit, then the detector reports exactly that span (or has
    reached its cap, and the scan then takes the whole text for a match). *)
Theorem card_found s i j :
  is_run s i j -> (forall k, i <= k < j -> digit_at s k) -> 13 <= j - i <= 19 ->
  (i = 0 \/ word_at s (i - 1) = false) -> word_at s j = false ->
  luhn (slice s i j) = true -> uniform (slice s i j) = false ->
  findCap <= length (Find paymentCard s) \/
  exists c, In (mkMatch i j c "luhn") (Find paymentCard s).
Proof.
  intros Hrun Hd Hn Hpre Hpost Hluhn Huni. pose proof (run_lt _ _ _ Hrun) as Hij.
  assert (Hdig : onlyDigits (slice s i j) = slice s i j) by (apply digits_only; [lia|done]).
  assert (Hsl : length (slice s i j) = j - i) by (rewrite length_slice; lia).
  destruct (digit_spans_complete (length s) s 13 0 i j) as (i0 & j0 & Hw & Hi0 & Hj0 & Hrun0);
    [lia|apply between_runs_0|lia|lia|apply Hd; lia|apply Hd; lia|intros k Hk; by apply digit_run_at, Hd| |].
  { unfold digit_count. rewrite Hdig. lia. }
  destruct (is_run_unique s i j i0 j0) as [-> ->]; [done..|].
  set (w := window_of s i j) in *. set (ws := sp_start w). set (we := sp_end w).
  assert (Hws : ws = i - 2) by done.
  assert (Hwe : we = (j + 2) `min` length s) by (unfold we, w, window_of; cbn; apply min2_min).
  assert (Hb1 : boundary is_word (adv None s i) (drop i s) = true) by (apply boundary_at_digit; [apply Hd; lia|done]).
  assert (Hb2 : boundary is_word (adv None s j) (drop j s) = true).
  { rewrite boundary_digit_after; [by rewrite Hpost|lia|apply Hd; lia]. }
  destruct (find_all_complete is_word is_nl cardRe (slice s ws we) (i - ws) (j - i)) as (a & b & Hab & Ha & Hcover).
  { rewrite length_slice. lia. }
  { apply cardRe_digits; [done| | |].
    - intros k Hk. apply byte_at_drop. destruct (Hd (i + k)) as (c & Hc & Hdc); [lia|]. exists c.
      rewrite slice_lookup by lia. split; [|done]. rewrite <-Hc. f_equal. lia.
    - rewrite boundary_window by lia. by replace (ws + (i - ws)) with i by lia.
    - rewrite adv_add, drop_drop by (rewrite length_slice; lia). rewrite boundary_window by lia.
      by replace (ws + (i - ws + (j - i))) with j by lia. }
  destruct (card_in_window s i j a b Hrun Hab) as (H1 & H2 & H3 & H4 & D1 & D2 & B1 & B2).
  fold w in H1, H2, H4, D1, D2, B1, B2. fold ws in H1, H2, H4, D1, D2, B1, B2. fold we in H4.
  assert (Ea : ws + a = i) by lia.
  assert (Eb : ws + b = j).
  { destruct (decide (ws + b = j)); [done|]. rewrite boundary_digit_after in B2 by (done || lia).
    rewrite digit_is_word in B2; [done|]. apply Hd. lia. }
  destruct (Find_complete paymentCard s w (checked "luhn" cardRe checkCard) (a, b)) as [H|H].
  - exact Hw.
  - by left.
  - done.
  - exact Hab.
  - cbn [fst snd]. rewrite slice_slice by lia. fold ws. rewrite Ea, Eb. unfold judged, checked. cbn [r_check].
    unfold checkCard. rewrite Hdig, Huni, Hluhn, Hsl.
    rewrite (proj2 (Nat.ltb_ge (j - i) 13)), (proj2 (Nat.ltb_ge 19 (j - i))) by lia. cbn. by destruct (cardScheme _).
  - by left.
  - right. unfold reported in H. cbn [fst snd] in H. fold ws in H.
    eexists. replace i with (ws + a) at 1. replace j with (ws + b) at 1. exact H.
Qed.

Lemma card_found_witness :
  let s := bytes_of "4111111111111111" in
  findCap <= length (Find paymentCard s) \/ exists c, In (mkMatch 0 16 c "luhn") (Find paymentCard s).
Proof.
  cbn zeta.
  assert (Hd : forall k, 0 <= k < 16 -> digit_at (bytes_of "4111111111111111") k).
  { intros k Hk. do 16 (destruct k as [|k]; [by eexists|]). lia. }
  apply (card_found (bytes_of "4111111111111111") 0 16); [|exact Hd|lia|by left|reflexivity|reflexivity|reflexivity].
  constructor; [cbn; lia|apply Hd; lia|apply (Hd 15); lia|intros k Hk; by apply digit_run_at, Hd|lia|].
  intros q Hq (c & Hc & _). apply lookup_lt_Some in Hc. cbn in Hc. lia.
Defined.

Lemma digitWindows_cover_witness :
  exists w, w ∈ digitWindows 8 (bytes_of "tel: +49 30-901820, ok") /\ sp_start w <= 6 - 2 /\ 20 <= sp_end w.
Proof.
  destruct (digitWindows_cover (bytes_of "tel: +49 30-901820, ok") 8 6 18) as (w & H1 & H2 & H3).
  - cbn. lia.
  - by eexists.
  - by eexists.
  - intros k Hk. do 6 (destruct k as [|k]; [lia|]). do 12 (destruct k as [|k]; [by eexists|]). lia.
  - vm_compute. lia.
  - exists w. split; [exact H1|]. cbn in H3. lia.
Defined.

Lemma anchorWindows_cover_witness :
  exists w, w ∈ anchorWindows "@" 72 260 (bytes_of "a@b") /\ sp_start w <= 0.
Proof.
  destruct (anchorWindows_cover (bytes_of "a@b") 1) as (w & H1 & H2 & _); [reflexivity|].
  exists w. split; [exact H1|cbn in H2; lia].
Defined.

(** ** The checks against their references *)

Lemma digit_val_range c : is_digit c = true -> (0 <= digit_val c <= 9)%Z.
Proof.
  unfold is_digit, between, digit_val, byte_val. intros [H1%N.leb_le H2%N.leb_le]%andb_true_iff.
  change (N_of_ascii "0"%char) with 48%N in H1. change (N_of_ascii "9"%char) with 57%N in H2.
  unfold nat_of_ascii. lia.
Qed.

Lemma digit_val_inj c c' : digit_val c = digit_val c' -> c = c'.
Proof.
  unfold digit_val, byte_val. intros H. rewrite <-(ascii_nat_embedding c), <-(ascii_nat_embedding c'). f_equal. lia.
Qed.

(** What one digit adds to the Luhn sum. *)
Definition luhn_term (double : bool) (n : Z) : Z :=
  if double then (let n := n * 2 in if 9 <? n then n - 9 else n)%Z else n.

Lemma luhn_loop_sum l sum double : luhn_loop l sum double = (sum + luhn_loop l 0 double)%Z.
Proof.
  revert sum double; induction l as [|c l IH]; intros sum double; cbn [luhn_loop]; [lia|].
  cbn zeta. rewrite (IH (sum + _)%Z), (IH (0 + _)%Z). destruct double; lia.
Qed.

Lemma luhn_loop_app a b sum double :
  luhn_loop (a ++ b) sum double = luhn_loop b (luhn_loop a sum double) (xorb double (Nat.odd (length a))).
Proof.
  revert sum double; induction a as [|c a IH]; intros sum double; cbn [app luhn_loop length].
  { by rewrite xorb_false_r. }
  rewrite IH. f_equal. rewrite Nat.odd_succ, <-Nat.negb_odd. by destruct double, (Nat.odd (length a)).
Qed.

Lemma luhn_term_inj double n n' :
  (0 <= n <= 9)%Z -> (0 <= n' <= 9)%Z -> (luhn_term double n mod 10 = luhn_term double n' mod 10)%Z -> n = n'.
Proof.
  intros H H'. unfold luhn_term. destruct double.
  - cbn zeta. destruct (9 <? n * 2)%Z eqn:E, (9 <? n' * 2)%Z eqn:E'; bool_prop; intros He;
      rewrite !Z.mod_small in He by lia; lia.
  - intros He. rewrite !Z.mod_small in He by lia. lia.
Qed.

(** The Luhn check catches every mistyped digit: of two numbers that
    differ in one digit at most one passes. *)
Theorem luhn_detects_one_digit a c c' b :
  is_digit c = true -> is_digit c' = true -> c <> c' ->
  luhn (a ++ c :: b) = true -> luhn (a ++ c' :: b) = false.
Proof.
  intros Hc Hc' Hne H. apply not_true_iff_false. intros H'. apply Hne, digit_val_inj.
  apply digit_val_range in Hc, Hc'. unfold luhn in *. bool_prop.
  rewrite !rev_app_distr in H, H'. cbn [rev] in H, H'. rewrite <-!app_assoc in H, H'. cbn [app] in H, H'.
  rewrite luhn_loop_app in H, H'. cbn [luhn_loop] in H, H'.
  set (dbl := xorb false _) in *. rewrite luhn_loop_sum in H, H'.
  fold (luhn_term dbl (digit_val c)) in H. fold (luhn_term dbl (digit_val c')) in H'.
  apply (luhn_term_inj dbl); [done|done|].
  set (x := luhn_term dbl (digit_val c)) in *. set (y := luhn_term dbl (digit_val c')) in *.
  set (u := luhn_loop (rev b) 0 false) in *. set (v := luhn_loop (rev a) 0 _) in *. clearbody x y u v.
  replace x with (u + x + v - (u + v))%Z by lia. replace y with (u + y + v - (u + v))%Z by lia.
  by rewrite Zminus_mod, H, (Zminus_mod (u + y + v)), H'.
Qed.

Lemma luhn_detects_one_digit_witness : luhn (bytes_of "4111111111111121") = false.
Proof.
  apply (luhn_detects_one_digit (bytes_of "41111111111111") "1" "2" (bytes_of "1"));
    [reflexivity|reflexivity|discriminate|reflexivity].
Defined.

(** ISO 7064 mod-97 as the standard states it: the number spelled by the
    characters, letters read as 10 to 35, with the first four moved last. *)
Fixpoint iso_value (l : list ascii) (v : Z) : Z :=
  match l with
  | [] => v
  | c :: l => iso_value l (if is_digit c then v * 10 + digit_val c else v * 100 + (byte_val c - 65 + 10))%Z
  end.

Definition iso_chars (l : list ascii) : bool := forallb (fun c => is_digit c || is_upper c) l.

Lemma mod97_loop_value l v :
  mod97_loop l (v mod 97) = if iso_chars l then Some (iso_value l v mod 97)%Z else None.
Proof.
  revert v; induction l as [|c l IH]; intros v; [done|]. cbn [mod97_loop iso_chars forallb iso_value].
  unfold mod97_step. destruct (is_digit c) eqn:Hd; cbn [orb andb].
  - rewrite <-Z.add_mod_idemp_l, Z.mul_mod_idemp_l, Z.add_mod_idemp_l by lia. apply IH.
  - destruct (is_upper c); cbn [andb]; [|done]. rewrite <-IH. f_equal.
    rewrite <-Z.add_assoc, <-Z.add_mod_idemp_l, Z.mul_mod_idemp_l, Z.add_mod_idemp_l by lia. done.
Qed.

Lemma rotate4 (c : list ascii) :
  4 <= length c ->
  map (fun i => default "000"%char (c !! ((i + 4) mod length c))) (seq 0 (length c)) = drop 4 c ++ take 4 c.
Proof.
  intros Hl. apply list_eq. intros i. rewrite list_lookup_fmap.
  destruct (decide (i < length c)) as [Hi|Hi].
  - rewrite lookup_seq_lt by done. cbn [fmap option_fmap option_map]. cbn [Nat.add].
    destruct (decide (i + 4 < length c)).
    + rewrite Nat.mod_small by done. rewrite lookup_app_l by (rewrite length_drop; lia).
      rewrite lookup_drop, (Nat.add_comm 4 i). destruct (lookup_lt_is_Some_2 c (i + 4)) as [x ->]; [lia|]. done.
    + replace (i + 4) with (i + 4 - length c + 1 * length c) by lia. rewrite Nat.Div0.mod_add.
      rewrite Nat.mod_small by lia. rewrite lookup_app_r by (rewrite length_drop; lia). rewrite length_drop.
      rewrite lookup_take_lt by lia. replace (i - (length c - 4)) with (i + 4 - length c) by lia.
      destruct (lookup_lt_is_Some_2 c (i + 4 - length c)) as [x ->]; [lia|]. done.
  - rewrite lookup_seq_ge by lia. rewrite lookup_ge_None_2; [done|].
    rewrite length_app, length_drop, length_take. lia.
Qed.

(** The rolling remainder is the ISO 7064 check: an account number of at
    least four characters passes exactly when it holds only digits and
    capitals and the number it spells, its first four characters moved to
    the end, is 1 modulo 97. *)
Theorem mod97_is_iso7064 c :
  4 <= length c ->
  mod97 c = (iso_chars c && (iso_value (drop 4 c ++ take 4 c) 0 mod 97 =? 1)%Z).
Proof.
  intros Hl. unfold mod97. rewrite rotate4 by done.
  rewrite (mod97_loop_value _ 0 : mod97_loop (drop 4 c ++ take 4 c) 0 = _).
  assert (iso_chars (drop 4 c ++ take 4 c) = iso_chars c) as ->.
  { unfold iso_chars. rewrite forallb_app, andb_comm, <-forallb_app. by rewrite take_drop. }
  by destruct (iso_chars c).
Qed.

Lemma mod97_is_iso7064_witness : mod97 (bytes_of "DE89370400440532013000") = true.
Proof. rewrite (mod97_is_iso7064 (bytes_of "DE89370400440532013000")); [reflexivity|cbn; lia]. Defined.

(** ** What the greedy expressions miss *)

(** The search takes the longest candidate and judges only that one, so
    a value followed by more characters its expression allows is lost: a
    card number followed by a space and its security code, and an account
    number followed by a space and a currency, are not reported, though
    each is when it stands alone. *)
Theorem greedy_candidate_hides_value :
  map (fun m => (m_Start m, m_End m)) (Find paymentCard (bytes_of "4111111111111111")) = [(0, 16)] /\
  Find paymentCard (bytes_of "4111111111111111 123") = [] /\
  map (fun m => (m_Start m, m_End m)) (Find iban (bytes_of "DE89370400440532013000")) = [(0, 22)] /\
  Find iban (bytes_of "DE89370400440532013000 EUR") = [].
Proof. split_and!; vm_compute; reflexivity. Qed.
