(* ===== verification/Values.v ===== *)
(** * Values: decoded JSON

    What Go's [any] holds after decoding JSON or YAML, shared by the
    components that walk values.  A [map[string]any] is the list of its
    entries in the order of its keys, each key once ([wf]); so two maps that
    Go finds equal are equal lists, and a walk over the sorted keys is a walk
    over the list.

    [VTyped v] is a value of a type that is not one of those, such as the
    [[]map[string]any] of a table's rows or the [map[string]string] of an
    answer's headers: the program's type switches have no case for it, and it
    encodes to the JSON that [v] encodes to. *)
From S2P Require Import Prelude GoStrings Float64 Regex.
From stdpp Require Import pretty.

Set Warnings "-register-all".

Inductive value : Type :=
  | VNil
  | VBool (b : bool)
  | VInt (n : Z)
  | VFloat (f : float64)
  | VNumber (s : string)
  | VStr (s : string)
  | VList (l : list value)
  | VMap (m : list (string * value))
  | VTyped (v : value).

(** [strconv.Itoa], [FormatInt] in base 10. *)
Definition Itoa (n : Z) : string := pretty n.

(** [strconv.Atoi]. *)
Fixpoint digits_val (s : string) (v : Z) : option Z :=
  match s with
  | "" => Some v
  | String c s => if is_digit c then digits_val s (v * 10 + (byte_val c - 48))%Z else None
  end.

Definition Atoi (s : string) : option Z :=
  let '(neg, body) := match s with
                      | String c r => if Ascii.eqb c "-" then (true, r) else if Ascii.eqb c "+" then (false, r) else (false, s)
                      | "" => (false, "")
                      end in
  match body with
  | "" => None
  | _ => match digits_val body 0 with
         | Some v => let v := if (neg : bool) then (- v)%Z else v in if in_int64 v then Some v else None
         | None => None
         end
  end.

(** [strconv.ParseInt] in base 10 at 64 bits: the value it returns, with the
    error beside it; out of range it is the nearest end. *)
Inductive num_error : Type := ErrSyntax | ErrRange.

Fixpoint uint_loop (s : string) (n : Z) : Z * option num_error :=
  match s with
  | "" => (n, None)
  | String c s =>
      if negb (is_digit c) then (0%Z, Some ErrSyntax)
      else let m := (n * 10 + (byte_val c - 48))%Z in
           if (m <? 2 ^ 64)%Z then uint_loop s m else ((2 ^ 64 - 1)%Z, Some ErrRange)
  end.

Definition ParseInt (s : string) : Z * option num_error :=
  let '(neg, body) := match s with
                      | String c r => if Ascii.eqb c "+" then (false, r) else if Ascii.eqb c "-" then (true, r) else (false, s)
                      | "" => (false, "")
                      end in
  match (if String.eqb body "" then (0%Z, Some ErrSyntax) else uint_loop body 0) with
  | (_, Some ErrSyntax) => (0%Z, Some ErrSyntax)
  | (un, err) =>
      if negb neg && (2 ^ 63 <=? un)%Z then ((2 ^ 63 - 1)%Z, Some ErrRange)
      else if (neg : bool) && (2 ^ 63 <? un)%Z then ((- 2 ^ 63)%Z, Some ErrRange)
      else (if (neg : bool) then (- un)%Z else un, err)
  end.

(** Keys in the order of [sort.Strings]. *)
Definition key_lt (a b : string) : Prop := String.ltb a b = true.

Definition keys (m : list (string * value)) : list string := m.*1.

Definition obj_get (m : list (string * value)) (k : string) : option value :=
  snd <$> List.find (fun e => String.eqb e.1 k) m.

(** [m[k] = v]. *)
Fixpoint obj_set (m : list (string * value)) (k : string) (v : value) : list (string * value) :=
  match m with
  | [] => [(k, v)]
  | (k', v') :: m' =>
      if String.eqb k' k then (k, v) :: m'
      else if String.ltb k k' then (k, v) :: (k', v') :: m'
      else (k', v') :: obj_set m' k v
  end.

Lemma obj_get_set m k k' v : obj_get (obj_set m k v) k' = if String.eqb k k' then Some v else obj_get m k'.
Proof.
  unfold obj_get. induction m as [|[a w] m IH]; simpl.
  - by destruct (String.eqb k k').
  - destruct (String.eqb_spec a k) as [->|N]; [simpl; by destruct (String.eqb k k')|].
    destruct (String.ltb k a); simpl.
    + by destruct (String.eqb k k').
    + destruct (String.eqb_spec a k') as [->|N']; [by rewrite (proj2 (String.eqb_neq k k') (not_eq_sym N))|exact IH].
Qed.

Section induction.
Context (P : value -> Prop).
Context (HNil : P VNil) (HBool : forall b, P (VBool b)) (HInt : forall n, P (VInt n))
  (HFloat : forall f, P (VFloat f)) (HNumber : forall s, P (VNumber s)) (HStr : forall s, P (VStr s))
  (HList : forall l, Forall P l -> P (VList l)) (HMap : forall m, Forall (fun e => P e.2) m -> P (VMap m))
  (HTyped : forall v, P v -> P (VTyped v)).

Definition value_ind' : forall v, P v :=
  fix go v :=
    match v with
    | VNil => HNil
    | VBool b => HBool b
    | VInt n => HInt n
    | VFloat f => HFloat f
    | VNumber s => HNumber s
    | VStr s => HStr s
    | VList l => HList l ((fix gol (l : list value) : Forall P l :=
                             match l with [] => Forall_nil_2 P | v :: l => Forall_cons_2 P v l (go v) (gol l) end) l)
    | VMap m => HMap m ((fix gom (m : list (string * value)) : Forall (fun e => P e.2) m :=
                           match m with
                           | [] => Forall_nil_2 (fun e => P e.2)
                           | e :: m => Forall_cons_2 (fun e => P e.2) e m (go e.2) (gom m)
                           end) m)
    | VTyped v => HTyped v (go v)
    end.
End induction.

(** Every map has its keys in order, each once. *)
Fixpoint wf (v : value) : Prop :=
  match v with
  | VList l => (fix wfl l := match l with [] => True | v :: l => wf v /\ wfl l end) l
  | VMap m => StronglySorted key_lt (keys m) /\
              (fix wfm m := match m with [] => True | (_, v) :: m => wf v /\ wfm m end) m
  | _ => True
  end.

Lemma wf_list l : wf (VList l) <-> Forall wf l.
Proof.
  induction l as [|v l IH]; [split; [constructor|done]|]. rewrite Forall_cons, <-IH. done.
Qed.

Lemma wf_map m : wf (VMap m) <-> StronglySorted key_lt (keys m) /\ Forall (fun e => wf e.2) m.
Proof.
  cbn [wf]. apply and_iff_compat_l. induction m as [|[k v] m IH]; [split; [constructor|done]|].
  rewrite Forall_cons, <-IH. done.
Qed.

Lemma ltb_irrefl s : String.ltb s s = false.
Proof.
  unfold String.ltb. replace (String.compare s s) with Eq; [done|]. symmetry.
  induction s as [|a s IH]; [done|]. cbn. unfold Ascii.compare. by rewrite N.compare_refl.
Qed.

Lemma key_lt_ne a b : key_lt a b -> a <> b.
Proof. intros H ->. unfold key_lt in H. by rewrite ltb_irrefl in H. Qed.

Lemma sorted_keys_NoDup m : StronglySorted key_lt (keys m) -> NoDup (keys m).
Proof.
  induction 1 as [|k l _ IH Hk]; constructor; [|done]. rewrite Forall_forall in Hk.
  intros Hin. by apply (key_lt_ne k k (Hk k Hin)).
Qed.

(** Setting a key that is there replaces its entry. *)
Lemma obj_set_middle pre k v v' post :
  StronglySorted key_lt (keys (pre ++ (k, v) :: post)) ->
  obj_set (pre ++ (k, v) :: post) k v' = pre ++ (k, v') :: post.
Proof.
  induction pre as [|[k0 v0] pre IH]; intros Hs; cbn [app obj_set].
  - by rewrite String.eqb_refl.
  - cbn in Hs. inversion Hs as [|? ? Hs' Hk]; subst.
    assert (key_lt k0 k) as Hlt.
    { rewrite Forall_forall in Hk. apply Hk. unfold keys. rewrite fmap_app, elem_of_app. right. by left. }
    rewrite (proj2 (String.eqb_neq k0 k)) by (by apply key_lt_ne).
    assert (String.ltb k k0 = false) as ->.
    { unfold key_lt, String.ltb in *. rewrite String.compare_antisym. by destruct (String.compare k0 k). }
    f_equal. by apply IH.
Qed.

(** The strict order of strings. *)
Lemma ltb_leb a b : String.ltb a b = negb (String.leb b a).
Proof. unfold String.ltb, String.leb. rewrite (String.compare_antisym b a). by destruct (String.compare a b). Qed.

Lemma ltb_trans a b c : String.ltb a b = true -> String.ltb b c = true -> String.ltb a c = true.
Proof.
  rewrite !ltb_leb, !negb_true_iff. intros H1 H2. apply not_true_iff_false. intros H.
  assert (Hab : String.le a b). { destruct (String.le_total a b) as [?|Hba]; [done|]. unfold String.le in Hba. by rewrite H1 in Hba. }
  assert (Hcb : String.le c b) by (transitivity a; [unfold String.le; by rewrite H|done]).
  unfold String.le in Hcb. by rewrite H2 in Hcb.
Qed.

Lemma ltb_asym a b : String.ltb a b = true -> String.ltb b a = false.
Proof. intros H. apply not_true_iff_false. intros H'. pose proof (ltb_trans _ _ _ H H') as E. by rewrite ltb_irrefl in E. Qed.

Lemma ltb_total a b : String.ltb a b = false -> String.ltb b a = false -> a = b.
Proof.
  rewrite !ltb_leb, !negb_false_iff. intros H1 H2. by apply String.leb_antisym.
Qed.
