(* ===== verification/CustomDetectors.v ===== *)
(** * CustomDetectors: an organisation's own detectors

    [internal/dlp/custom.go].  An administrator's expression is parsed,
    refused when it is too short, too long, can match nothing, or compiles to
    too large a program, and tried on samples before it is stored.  The
    parser and the compiler of [regexp/syntax] are arguments (a tree, and
    the size of its program); what a tree matches is [Regex.Matches], over
    the runes of the text. *)
From S2P Require Import Prelude GoStrings Regex Detectors Values.

Open Scope list_scope.

(** ** Runes: [utf8.DecodeRune], with the width of each; a byte that starts
    no valid encoding is U+FFFD of width 1. *)

Definition cont_byte (lo hi : Z) (c : ascii) : bool := ((lo <=? byte_val c) && (byte_val c <=? hi))%Z.

(** The second byte's range, by the first byte: the tables of unicode/utf8. *)
Definition second_range (b : Z) : Z * Z :=
  if (b =? 224)%Z then (160, 191)%Z else if (b =? 237)%Z then (128, 159)%Z
  else if (b =? 240)%Z then (144, 191)%Z else if (b =? 244)%Z then (128, 143)%Z else (128, 191)%Z.

Definition low6 (c : ascii) : Z := (byte_val c - 128)%Z.

Definition decode_rune (s : list ascii) : option (Z * nat) :=
  match s with
  | [] => None
  | b0 :: rest =>
      let b := byte_val b0 in
      let bad := Some (65533%Z, 1) in
      let '(lo, hi) := second_range b in
      if (b <? 128)%Z then Some (b, 1)
      else if (b <? 194)%Z then bad
      else match rest with
      | [] => bad
      | b1 :: rest =>
        if negb (cont_byte lo hi b1) then bad
        else if (b <? 224)%Z then Some (((b - 192) * 64 + low6 b1)%Z, 2)
        else match rest with
        | [] => bad
        | b2 :: rest =>
          if negb (cont_byte 128 191 b2) then bad
          else if (b <? 240)%Z then Some ((((b - 224) * 64 + low6 b1) * 64 + low6 b2)%Z, 3)
          else match rest with
          | [] => bad
          | b3 :: _ =>
            if negb (cont_byte 128 191 b3) || (245 <=? b)%Z then bad
            else Some (((((b - 240) * 64 + low6 b1) * 64 + low6 b2) * 64 + low6 b3)%Z, 4)
          end
        end
      end
  end.

Fixpoint runes_loop (fuel : nat) (s : list ascii) : list (Z * nat) :=
  match fuel with
  | 0 => []
  | S fuel => match decode_rune s with
              | None => []
              | Some (r, w) => (r, w) :: runes_loop fuel (drop w s)
              end
  end.

Definition runes (s : list ascii) : list (Z * nat) := runes_loop (length s) s.

Definition rune_word (r : Z) : bool :=
  ((48 <=? r) && (r <=? 57) || (65 <=? r) && (r <=? 90) || (97 <=? r) && (r <=? 122) || (r =? 95))%Z.

Definition rune_nl (r : Z) : bool := (r =? 10)%Z.

(** The byte offset of a rune's position. *)
Definition byte_offset (rs : list (Z * nat)) (n : nat) : nat := list_sum (map snd (take n rs)).

(** [FindAllStringIndex(s, n)] and [MatchString]. *)
Definition find_runes (r : re Z) (s : list ascii) (n : nat) : list (nat * nat) :=
  let rs := runes s in
  map (fun ab => (byte_offset rs ab.1, byte_offset rs ab.2)) (take n (find_all rune_word rune_nl r (map fst rs))).

Definition match_runes (r : re Z) (s : list ascii) : bool := match_string rune_word rune_nl r (map fst (runes s)).

(** ** Checking a pattern *)

Definition CustomPrefix : string := "custom:".
Definition MaxPatternBytes : nat := 512.
Definition MinPatternBytes : nat := 3.
Definition MaxSamples : nat := 20.
Definition MaxSampleBytes : nat := 1024.
Definition maxDescriptionChars : nat := 500.
Definition MaxProgramInsts : Z := 256.
Definition ScanCostBudget : Z := Z.shiftl 16 20.
Definition maxTestMatches : nat := 20.
Definition FlagCaseInsensitive : string := "i".

(** A [DetectorError]: the field and why. *)
Record DetectorError : Type := mkDetectorError { de_Field : string; de_Reason : string }.

Record CustomDetector : Type := mkCustom {
  c_ID : string;
  c_OrgID : string;
  c_Name : string;
  c_Description : string;
  c_Pattern : string;
  c_Flags : string;
  c_MustMatch : list string;
  c_MustNotMatch : list string;
  c_Enabled : bool;
  c_Version : Z;
}.

Definition Ref (c : CustomDetector) : string := CustomPrefix +:+ c_Name c.

Definition slug_char (c : ascii) : bool := is_lower c || is_digit c.

Definition slugRe : re ascii :=
  Concat [BeginText; cls slug_char; rep 1 62 (cls (fun c => slug_char c || one_of (bytes_of "_-") c)); EndText].

Definition ValidSlug (s : string) : bool := match_string is_word is_nl slugRe (bytes_of s).

(** [strings.CutPrefix]: the slug when the name is a custom one. *)
Definition IsCustom (name : string) : option string :=
  if HasPrefix name CustomPrefix then Some (str_drop (String.length CustomPrefix) name) else None.

Fixpoint nullable {A} (r : re A) : bool :=
  match r with
  | EmptyMatch | BeginLine | EndLine | BeginText | EndText | WordBoundary | NoWordBoundary => true
  | Literal l => length l =? 0
  | Capture r => nullable r
  | Plus _ r => nullable r
  | Star _ _ | Quest _ _ => true
  | Repeat min _ _ r => (min =? 0) || nullable r
  | Concat l => forallb nullable l
  | Alternate l => existsb nullable l
  | NoMatch | CharClass _ | AnyChar | AnyCharNotNL => false
  end.

Section custom.
(** [syntax.Parse] with [syntax.Perl], simplified; [syntax.Compile]'s
    program size, which has an error of its own; what a parse error says. *)
Context (parse : string -> result string (re Z)) (compile : re Z -> result string Z).

Definition invalid {A} (field reason : string) : result DetectorError A := Err (mkDetectorError field reason).

Definition source_of (pattern flags : string) : string :=
  if String.eqb flags FlagCaseInsensitive then "(?i)" +:+ pattern else pattern.

Definition CompilePattern (pattern flags : string) : result DetectorError (re Z) :=
  if String.length pattern <? MinPatternBytes then invalid "pattern" "a pattern is at least 3 bytes"
  else if MaxPatternBytes <? String.length pattern then invalid "pattern" "a pattern is at most 512 bytes"
  else if negb (String.eqb flags "" || String.eqb flags FlagCaseInsensitive)
  then invalid "flags" "the only flag is i (case-insensitive)"
  else match parse (source_of pattern flags) with
  | Err e => invalid "pattern" ("the pattern does not compile: " +:+ e)
  | Ok parsed =>
      if nullable parsed
      then invalid "pattern" "the pattern can match an empty string; make at least one part of it required"
      else match compile parsed with
      | Err e => invalid "pattern" ("the pattern does not compile: " +:+ e)
      | Ok n =>
          if (MaxProgramInsts <? n)%Z
          then invalid "pattern" ("the pattern compiles to " +:+ Itoa n +:+ " instructions and the limit is " +:+ Itoa MaxProgramInsts
                 +:+ "; it would be too slow to run on every tool call. Use smaller repetition counts")
          else Ok parsed
      end
  end.

Definition ProgramSize (pattern flags : string) : result DetectorError Z :=
  match parse (source_of pattern flags) with
  | Err e => invalid "pattern" ("the pattern does not compile: " +:+ e)
  | Ok parsed => match compile parsed with
                 | Err e => invalid "pattern" ("the pattern does not compile: " +:+ e)
                 | Ok n => Ok n
                 end
  end.

Definition sample_field (field : string) (i : nat) : string := field +:+ "[" +:+ Itoa (Z.of_nat i) +:+ "]".

Fixpoint check_lengths (field : string) (i : nat) (samples : list string) : result DetectorError unit :=
  match samples with
  | [] => Ok tt
  | s :: samples =>
      if MaxSampleBytes <? String.length s then invalid (sample_field field i) "a sample is at most 1024 bytes"
      else check_lengths field (S i) samples
  end.

Definition checkSamples (field : string) (samples : list string) (limit : nat) : result DetectorError unit :=
  if limit <? length samples then invalid field ("at most " +:+ Itoa (Z.of_nat limit) +:+ " samples")
  else check_lengths field 0 samples.

(** The loop over one list of samples: each must match, or none may. *)
Fixpoint try_samples (field verb : string) (want : bool) (r : re Z) (i : nat) (samples : list string) :
    result DetectorError unit :=
  match samples with
  | [] => Ok tt
  | s :: samples =>
      if Bool.eqb (match_runes r (bytes_of s)) want then try_samples field verb want r (S i) samples
      else invalid (sample_field field i) ("sample " +:+ Itoa (Z.of_nat (S i)) +:+ " of " +:+ field +:+ verb)
  end.

Definition Validate_custom (c : CustomDetector) : result DetectorError unit :=
  if negb (ValidSlug (c_Name c))
  then invalid "name" "a name is 2 to 63 characters of lower-case letters, digits, - and _, starting with a letter or digit"
  else
    let n := length (runes (bytes_of (c_Description c))) in
    if maxDescriptionChars <? n
    then invalid "description" ("the description is " +:+ Itoa (Z.of_nat n) +:+ " characters long; the limit is 500")
    else
      r ← CompilePattern (c_Pattern c) (c_Flags c);
      _ ← checkSamples "mustMatch" (c_MustMatch c) MaxSamples;
      _ ← checkSamples "mustNotMatch" (c_MustNotMatch c) MaxSamples;
      _ ← try_samples "mustMatch" " does not match the pattern" true r 0 (c_MustMatch c);
      try_samples "mustNotMatch" " matches the pattern" false r 0 (c_MustNotMatch c).

(** [customDetector.Find]: its matches, up to the cap. *)
Definition custom_find (r : re Z) (s : list ascii) : list Match :=
  map (fun ab => mkMatch ab.1 ab.2 ConfidenceHigh "pattern") (find_runes r s findCap).

Definition NewCustom (c : CustomDetector) : result DetectorError Detector :=
  match CompilePattern (c_Pattern c) (c_Flags c) with
  | Err e => Err e
  | Ok r => Ok (mkDetector (Ref c) (Ref c) (custom_find r))
  end.

Record SampleResult : Type := mkSample { sr_Index : nat; sr_Matched : bool; sr_Matches : list (nat * nat); sr_More : bool }.

Definition test_sample (r : re Z) (i : nat) (s : string) : SampleResult :=
  let locs := find_runes r (bytes_of s) (maxTestMatches + 1) in
  mkSample i (0 <? length locs) (take maxTestMatches locs) (maxTestMatches <? length locs).

Definition TestPattern (pattern flags : string) (samples : list string) : result DetectorError (list SampleResult) :=
  r ← CompilePattern pattern flags;
  _ ← checkSamples "samples" samples (2 * MaxSamples);
  Ok (imap (test_sample r) samples).
End custom.

(** [scanCost]: the instructions the detectors sum to, and the most a policy
    reading so many bytes may run. *)
Definition scanCost (sizes : list Z) (maxBytes : Z) : Z * Z :=
  let maxBytes := if (maxBytes <=? 0)%Z then 65536%Z else maxBytes in
  (foldl Z.add 0%Z sizes, Z.quot ScanCostBudget maxBytes).

(** ** An accepted pattern never matches nothing *)

Lemma times_pos {A} n (R : @rel A) prev s m :
  n <> 0 -> (forall prev s m, R prev s m -> 0 < m) -> r_times n R prev s m -> 0 < m.
Proof. destruct n; [done|]. intros _ HR (a & b & -> & Ha & _). apply HR in Ha. lia. Qed.

Lemma nullable_matches {A} `{EqDecision A} (word nl : A -> bool) (r : re A) :
  nullable r = false -> forall prev s n, Matches word nl r prev s n -> 0 < n.
Proof.
  induction r as [| |l|p| | | | | | | | |r IH|g r IH|g r IH|g r IH|n m g r IH|l IH|l IH] using re_ind';
    cbn [nullable Matches]; try done.
  - intros _ prev s n [_ ?]. done.
  - destruct l as [|c l]; [done|]. intros _ prev s n. cbn [foldr]. intros (a & b & -> & [-> _] & _). lia.
  - intros _ prev s n [-> _]. lia.
  - intros _ prev s n [-> _]. lia.
  - intros _ prev s n [-> _]. lia.
  - intros Hr prev s n (a & b & -> & Ha & _). specialize (IH Hr _ _ _ Ha). lia.
  - intros [Hn Hr]%orb_false_iff prev s k. bool_prop. destruct m as [m|]; intros (a & b & -> & Ha & _);
      pose proof (times_pos n _ _ _ _ Hn (IH Hr) Ha); lia.
  - intros Hl prev s n. revert prev s n Hl. induction IH as [|r l Hr _ IHl]; intros prev s n Hl; [done|].
    cbn [forallb foldr] in *. intros (a & b & -> & Ha & Hb). destruct (nullable r) eqn:E.
    + cbn in Hl. specialize (IHl _ _ _ Hl Hb). lia.
    + specialize (Hr eq_refl _ _ _ Ha). lia.
  - intros Hl prev s n. induction IH as [|r l Hr _ IHl]; cbn [existsb foldr] in *; [by intros [_ ?]|].
    apply orb_false_iff in Hl as [Hn Hl]. intros [Ha|Hb]; [by apply (Hr Hn _ _ _ Ha)|by apply IHl].
Qed.

Lemma decode_rune_width s r w : decode_rune s = Some (r, w) -> 1 <= w <= length s.
Proof.
  unfold decode_rune. destruct s as [|b0 s]; [done|]. destruct (second_range (byte_val b0)) as [lo hi].
  destruct (byte_val b0 <? 128)%Z; [intros [= _ <-]; cbn; lia|].
  destruct (byte_val b0 <? 194)%Z; [intros [= _ <-]; cbn; lia|].
  destruct s as [|b1 s]; [intros [= _ <-]; cbn; lia|].
  destruct (negb (cont_byte lo hi b1)); [intros [= _ <-]; cbn; lia|].
  destruct (byte_val b0 <? 224)%Z; [intros [= _ <-]; cbn; lia|].
  destruct s as [|b2 s]; [intros [= _ <-]; cbn; lia|].
  destruct (negb (cont_byte 128 191 b2)); [intros [= _ <-]; cbn; lia|].
  destruct (byte_val b0 <? 240)%Z; [intros [= _ <-]; cbn; lia|].
  destruct s as [|b3 s]; [intros [= _ <-]; cbn; lia|].
  destruct (_ || _); intros [= _ <-]; cbn; lia.
Qed.

Lemma decode_rune_some b0 s : decode_rune (b0 :: s) <> None.
Proof.
  unfold decode_rune. destruct (second_range (byte_val b0)) as [lo hi].
  destruct (byte_val b0 <? 128)%Z; [done|]. destruct (byte_val b0 <? 194)%Z; [done|].
  destruct s as [|b1 s]; [done|]. destruct (negb (cont_byte lo hi b1)); [done|].
  destruct (byte_val b0 <? 224)%Z; [done|].
  destruct s as [|b2 s]; [done|]. destruct (negb (cont_byte 128 191 b2)); [done|].
  destruct (byte_val b0 <? 240)%Z; [done|].
  destruct s as [|b3 s]; [done|]. by destruct (_ || _).
Qed.

(** The runes of a text are all of it, each at least a byte. *)
Lemma runes_loop_widths fuel s :
  length s <= fuel -> Forall (fun rw => 1 <= rw.2) (runes_loop fuel s) /\ list_sum (map snd (runes_loop fuel s)) = length s.
Proof.
  revert s; induction fuel as [|fuel IH]; intros s Hs; cbn [runes_loop].
  { split; [constructor|]. cbn. lia. }
  destruct (decode_rune s) as [[r w]|] eqn:E.
  - apply decode_rune_width in E. destruct (IH (drop w s)) as [H1 H2]; [rewrite length_drop; lia|].
    split; [constructor; [cbn; lia|done]|]. cbn [map list_sum snd foldr].
    change (foldr Nat.add 0 (map snd (runes_loop fuel (drop w s)))) with (list_sum (map snd (runes_loop fuel (drop w s)))).
    rewrite H2, length_drop. lia.
  - destruct s as [|b s]; [split; [constructor|done]|]. by apply decode_rune_some in E.
Qed.

Lemma runes_widths s : Forall (fun rw => 1 <= rw.2) (runes s) /\ list_sum (map snd (runes s)) = length s.
Proof. by apply runes_loop_widths. Qed.

Lemma list_sum_take_drop l n m : n <= m -> list_sum (take m l) = list_sum (take n l) + list_sum (take (m - n) (drop n l)).
Proof. intros H. rewrite <-list_sum_app. f_equal. replace m with (n + (m - n)) at 1 by lia. by rewrite take_take_drop. Qed.

Lemma byte_offset_le s n : byte_offset (runes s) n <= length s.
Proof.
  destruct (runes_widths s) as [_ <-]. unfold byte_offset. rewrite <-firstn_map.
  rewrite <-(take_drop n (map snd (runes s))) at 2. rewrite list_sum_app. lia.
Qed.

Lemma byte_offset_lt s n m : n < m <= length (runes s) -> byte_offset (runes s) n < byte_offset (runes s) m.
Proof.
  intros H. unfold byte_offset. rewrite <-!firstn_map. rewrite (list_sum_take_drop _ n m) by lia.
  destruct (lookup_lt_is_Some_2 (runes s) n) as [[r w] Hr]; [lia|].
  rewrite (drop_S (map snd (runes s)) w n) by (by rewrite list_lookup_fmap, Hr).
  replace (m - n) with (S (m - n - 1)) by lia. cbn [take].
  change (list_sum (?x :: ?l)) with (x + list_sum l).
  assert (1 <= w); [|lia]. destruct (runes_widths s) as [Hw _]. rewrite Forall_forall in Hw.
  apply (Hw (r, w)). by eapply list_elem_of_lookup_2.
Qed.

Lemma custom_find_spans r s m :
  nullable r = false -> m ∈ custom_find r s -> m_Start m < m_End m <= length s.
Proof.
  intros Hr Hm. unfold custom_find, find_runes in Hm. apply list_elem_of_fmap in Hm as (ab & -> & Hab).
  apply list_elem_of_fmap in Hab as ([a b] & -> & Hin). apply elem_of_take in Hin as (i & Hin & _).
  apply list_elem_of_lookup_2, find_all_sound in Hin as (H1 & H2 & HM). cbn [fst snd m_Start m_End].
  rewrite length_map in H2. apply (nullable_matches _ _ r Hr) in HM.
  split; [apply byte_offset_lt; lia|apply byte_offset_le].
Qed.

Lemma CompilePattern_ok parse compile pattern flags r :
  CompilePattern parse compile pattern flags = Ok r ->
  nullable r = false /\ parse (source_of pattern flags) = Ok r /\ exists n, compile r = Ok n /\ (n <= MaxProgramInsts)%Z.
Proof.
  unfold CompilePattern. repeat (destruct (_ <? _); [done|]). destruct (negb _); [done|].
  destruct (parse _) as [p|e]; [|done]. destruct (nullable p) eqn:E; [done|].
  destruct (compile p) as [n|e] eqn:En; [|done]. destruct (MaxProgramInsts <? n)%Z eqn:Hn; [done|]. bool_prop.
  intros [= <-]. split_and!; [done|done|by exists n].
Qed.

(** A custom detector that was built never reports nothing: each of its
    matches covers at least one byte and lies in the text, so a mask never
    puts a token between two characters. *)
Theorem custom_matches_cover_bytes parse compile c d s m :
  NewCustom parse compile c = Ok d -> m ∈ d_Find d s -> m_Start m < m_End m <= length s.
Proof.
  unfold NewCustom. destruct (CompilePattern _ _ _ _) as [r|e] eqn:E; [|done]. intros [= <-]. cbn [d_Find].
  apply CompilePattern_ok in E as [Hr _]. by apply custom_find_spans.
Qed.

(** A stand-in for the parser and the compiler: one expression, [CN\d]. *)
Definition demo_parse (s : string) : result string (re Z) :=
  if String.eqb s "CN\d" then Ok (Concat [Literal [67; 78]%Z; CharClass (fun r => (48 <=? r) && (r <=? 57))%Z]) else Err "other".

Definition demo_detector : CustomDetector := mkCustom "1" "o" "contract" "" "CN\d" "" ["CN7"] ["CN"] true 1.

Definition demo_re : re Z := Concat [Literal [67; 78]%Z; CharClass (fun r => (48 <=? r) && (r <=? 57))%Z].

Lemma custom_matches_cover_bytes_witness : m_Start (mkMatch 2 5 ConfidenceHigh "pattern") < 5.
Proof.
  apply (custom_matches_cover_bytes demo_parse (fun _ => Ok 5%Z) demo_detector
    (mkDetector "custom:contract" "custom:contract" (custom_find demo_re)) (bytes_of "a CN7") (mkMatch 2 5 ConfidenceHigh "pattern")).
  - reflexivity.
  - vm_compute. by left.
Defined.

(** What is stored has been tried: of a detector that validates, the
    name is a slug, every sample that must match contains a match of the
    expression it will run and no sample that must not does. *)
Theorem validated_detector_meets_samples parse compile c :
  Validate_custom parse compile c = Ok tt ->
  ValidSlug (c_Name c) = true /\
  exists r, CompilePattern parse compile (c_Pattern c) (c_Flags c) = Ok r /\
    (forall s, s ∈ c_MustMatch c -> match_runes r (bytes_of s) = true) /\
    (forall s, s ∈ c_MustNotMatch c -> match_runes r (bytes_of s) = false).
Proof.
  unfold Validate_custom. destruct (ValidSlug (c_Name c)); cbn [negb]; [|done]. destruct (_ <? _); [done|].
  destruct (CompilePattern _ _ _ _) as [r|e]; [|done]. cbn [mbind result_bind].
  destruct (checkSamples "mustMatch" _ _) as [[]|e]; [|done]. cbn.
  destruct (checkSamples "mustNotMatch" _ _) as [[]|e]; [|done]. cbn.
  assert (Htry : forall field verb want i l, try_samples field verb want r i l = Ok tt ->
    forall s, s ∈ l -> match_runes r (bytes_of s) = want).
  { clear. intros field verb want i l. revert i. induction l as [|x l IH]; intros i H s Hs; [by apply not_elem_of_nil in Hs|].
    cbn [try_samples] in H. destruct (Bool.eqb _ want) eqn:E; [|done]. apply eqb_prop in E.
    apply elem_of_cons in Hs as [->|Hs]; [done|by eapply IH]. }
  destruct (try_samples _ _ true _ _ _) as [[]|e] eqn:H1; [|done]. cbn. intros H2.
  split; [done|]. exists r. split; [done|]. split; eauto.
Qed.

Lemma validated_detector_meets_samples_witness : ValidSlug "contract" = true.
Proof.
  apply (validated_detector_meets_samples demo_parse (fun _ => Ok 5%Z) demo_detector). vm_compute. reflexivity.
Defined.
