(* ===== verification/Dlp.v ===== *)
(** * Dlp: scanning and masking a value

    [internal/dlp/dlp.go].  One walk over a value runs the detectors over
    every string within a byte budget and a deadline, records what it found
    and, for the mask action, rewrites the strings.  The scanner's mutable
    part is threaded through the walk; [clock n] is what the [n]-th read of
    the clock answers. *)
From S2P Require Import Prelude GoStrings Regex Detectors Values.

Open Scope list_scope.

Inductive Action : Type := ActionAllow | ActionMask | ActionRefuse | ActionOther (s : string).

#[export] Instance Action_eq_dec : EqDecision Action.
Proof. solve_decision. Defined.

Record Finding : Type := mkFinding {
  f_Detector : string;
  f_Rule : string;
  f_Kind : string;
  f_Confidence : Confidence;
  f_Path : string;
  f_Start : nat;
  f_End : nat;
}.

Record Options : Type := mkOptions {
  o_Detectors : list Detector;
  o_MaxBytes : Z;
  o_Root : string;
  o_Deadline : option Z;
}.

Record Result : Type := mkResult { rs_Findings : list Finding; rs_Matches : nat; rs_Bytes : nat; rs_Truncated : bool }.

(** The fixed part of a scanner, and the part the walk changes. *)
Record scanner : Type := mkScanner {
  s_detectors : list Detector;
  s_secretKey : bool;
  s_mask : bool;
  s_deadline : option Z;
}.

Record scan : Type := mkScan { sc_budget : Z; sc_timedOut : bool; sc_reads : nat; sc_res : Result }.

Definition DefaultMaxBytes : Z := Z.shiftl 64 10.

Definition maxInt : Z := 9223372036854775807.

Definition ruleTooMany : string := "too_many_matches".

(** [errors.Is] of what [Apply] returns. *)
Inductive scan_error : Type := ErrRefusedDeadline | ErrRefusedKinds (kinds : string).

Definition newScanner (opt : Options) (mask : bool) : scanner * scan :=
  let dets := match o_Detectors opt with [] => builtins | dets => dets end in
  let budget := if (o_MaxBytes opt =? 0)%Z then DefaultMaxBytes
                else if (o_MaxBytes opt <? 0)%Z then maxInt else o_MaxBytes opt in
  (mkScanner (List.filter (fun d => negb (String.eqb (d_Name d) DetectorSecretKey)) dets)
             (existsb (fun d => String.eqb (d_Name d) DetectorSecretKey) dets) mask (o_Deadline opt),
   mkScan budget false 0 (mkResult [] 0 0 false)).

Definition root (opt : Options) : string := if String.eqb (o_Root opt) "" then "$" else o_Root opt.

Definition redaction (k : string) : string := "<redacted:" +:+ k +:+ ">".

(** [utf8.RuneStart]. *)
Definition RuneStart (c : ascii) : bool := negb ((128 <=? byte_val c) && (byte_val c <? 192))%Z.

Fixpoint runeBoundary (s : list ascii) (n : nat) : nat :=
  match n with
  | 0 => 0
  | S n' => match s !! n with
            | Some c => if RuneStart c then n else runeBoundary s n'
            | None => n
            end
  end.

Definition record (f : Finding) (st : scan) : scan :=
  let r := sc_res st in
  let findings := if length (rs_Findings r) <? maxFindings then rs_Findings r ++ [f] else rs_Findings r in
  mkScan (sc_budget st) (sc_timedOut st) (sc_reads st) (mkResult findings (S (rs_Matches r)) (rs_Bytes r) (rs_Truncated r)).

(** ** Masking a string *)

(** The inner loop: the hits that start before the end reached so far. *)
Fixpoint absorb (hits : list Finding) (end_ : nat) : nat * list Finding :=
  match hits with
  | h :: hits' => if f_Start h <? end_ then absorb hits' (if end_ <? f_End h then f_End h else end_) else (end_, hits)
  | [] => (end_, [])
  end.

(** The outer loop, which takes at least one hit a turn. *)
Fixpoint mask_loop (fuel : nat) (s : list ascii) (hits : list Finding) (last : nat) (b : list ascii) : list ascii :=
  match fuel, hits with
  | S fuel, h :: hits =>
      let '(end_, rest) := absorb hits (f_End h) in
      if f_Start h <? last then mask_loop fuel s rest last b
      else mask_loop fuel s rest end_ (b ++ slice s last (f_Start h) ++ bytes_of (redaction (f_Kind h)))
  | _, _ => b ++ drop last s
  end.

Definition maskSpans (s : list ascii) (hits : list Finding) : list ascii := mask_loop (length hits) s hits 0 [].

(** The order [slices.SortFunc] is given; which of two equal spans comes
    first is not determined, and no theorem here depends on it. *)
Definition hit_le (a b : Finding) : Prop := f_Start a < f_Start b \/ f_Start a = f_Start b /\ f_End a <= f_End b.

#[export] Instance hit_le_dec a b : Decision (hit_le a b).
Proof. unfold hit_le. apply _. Defined.

Definition sort_hits (hits : list Finding) : list Finding := merge_sort hit_le hits.

(** ** The walk *)

Section walk.
Context (to_lower : string -> string) (clock : nat -> Z) (sc : scanner).

(** The hits of one detector over [part] of a string of [len] bytes. *)
Definition detector_hits (d : Detector) (part : list ascii) (path : string) (len : nat) : list Finding :=
  let ms := d_Find d part in
  match ms with
  | m0 :: _ =>
      if maxFindings <? length ms
      then [mkFinding (d_Name d) ruleTooMany (d_Kind d) (m_Confidence m0) path 0 len]
      else map (fun m => mkFinding (d_Name d) (m_Rule m) (d_Kind d) (m_Confidence m) path (m_Start m) (m_End m)) ms
  | [] => []
  end.

(** The loop over the detectors; [None] when the deadline cut it off. *)
Fixpoint run_detectors (ds : list Detector) (part : list ascii) (path : string) (len : nat) (hits : list Finding)
    (st : scan) : option (list Finding) * scan :=
  match ds with
  | [] => (Some hits, st)
  | d :: ds =>
      let next st := run_detectors ds part path len (hits ++ detector_hits d part path len) st in
      match s_deadline sc with
      | None => next st
      | Some dl =>
          let st' := mkScan (sc_budget st) (sc_timedOut st) (S (sc_reads st)) (sc_res st) in
          if (clock (sc_reads st) <? dl)%Z then next st'
          else (None, mkScan (sc_budget st) true (S (sc_reads st)) (sc_res st))
      end
  end.

Definition truncate (st : scan) : scan :=
  mkScan (sc_budget st) (sc_timedOut st) (sc_reads st)
    (mkResult (rs_Findings (sc_res st)) (rs_Matches (sc_res st)) (rs_Bytes (sc_res st)) true).

Definition charge (n : nat) (st : scan) : scan :=
  mkScan (sc_budget st - Z.of_nat n) (sc_timedOut st) (sc_reads st)
    (mkResult (rs_Findings (sc_res st)) (rs_Matches (sc_res st)) (rs_Bytes (sc_res st) + n) (rs_Truncated (sc_res st))).

Definition text (str : string) (path : string) (st : scan) : string * scan :=
  let s := bytes_of str in
  if bool_decide (str = "") || sc_timedOut st then (str, st)
  else if (sc_budget st <=? 0)%Z then (str, truncate st)
  else
    let over := (sc_budget st <? Z.of_nat (length s))%Z in
    let part := if over then take (runeBoundary s (Z.to_nat (sc_budget st))) s else s in
    let st := if over then truncate st else st in
    let st := charge (length part) st in
    match run_detectors (s_detectors sc) part path (length s) [] st with
    | (None, st) => (str, st)
    | (Some [], st) => (str, st)
    | (Some hits, st) =>
        let hits := sort_hits hits in
        let st := foldl (fun st f => record f st) st hits in
        if negb (s_mask sc) then (str, st) else (string_of (maskSpans s hits), st)
    end.

Definition secret_finding (path : string) : Finding :=
  mkFinding DetectorSecretKey "field_name" KindCredential ConfidenceHigh path 0 0.

Definition secret_redaction : value := VStr (redaction KindCredential).

(** [walk], with [object] and [array] as its inner loops: [out] is the copy,
    once one has been made. *)
Fixpoint walk (v : value) (path : string) (st : scan) : value * bool * scan :=
  match v with
  | VNil => (VNil, false, st)
  | VStr s => let '(out, st) := text s path st in (VStr out, negb (String.eqb out s), st)
  | VMap m =>
      let fix object (es : list (string * value)) (out : option (list (string * value))) (st : scan) :=
        match es with
        | [] => (match out with Some out => (VMap out, true) | None => (VMap m, false) end, st)
        | (k, e) :: es =>
            let child := path +:+ "." +:+ k in
            if s_secretKey sc && looksSecret to_lower k then
              let st := record (secret_finding child) st in
              if negb (s_mask sc) then object es out st
              else object es (Some (obj_set (default m out) k secret_redaction)) st
            else
              let '(got, changed, st) := walk e child st in
              object es (if (changed : bool) then Some (obj_set (default m out) k got) else out) st
        end in
      object m None st
  | VList a =>
      let fix array (es : list value) (i : nat) (out : option (list value)) (st : scan) :=
        match es with
        | [] => (match out with Some out => (VList out, true) | None => (VList a, false) end, st)
        | e :: es =>
            let '(got, changed, st) := walk e (path +:+ "[" +:+ Itoa (Z.of_nat i) +:+ "]") st in
            array es (S i) (if (changed : bool) then Some (<[ i := got ]> (default a out)) else out) st
        end in
      array a 0 None st
  | _ => (v, false, st)
  end.
End walk.

(** ** The entry points *)

Definition Kinds (r : Result) : list string := merge_sort String.le (remove_dups (map f_Kind (rs_Findings r))).

Definition Clean (r : Result) : bool := (rs_Matches r =? 0) && negb (rs_Truncated r).

Definition Apply (to_lower : string -> string) (clock : nat -> Z) (v : value) (act : Action) (opt : Options) :
    result scan_error value * Result :=
  let '(sc, st) := newScanner opt (bool_decide (act = ActionMask)) in
  let '(out, _, st) := walk to_lower clock sc v (root opt) st in
  if sc_timedOut st then (Err ErrRefusedDeadline, sc_res st)
  else if bool_decide (act = ActionRefuse) && (0 <? rs_Matches (sc_res st))
  then (Err (ErrRefusedKinds (Join (Kinds (sc_res st)) ", ")), sc_res st)
  else (Ok out, sc_res st).

Definition Scan (to_lower : string -> string) (clock : nat -> Z) (v : value) (opt : Options) : Result :=
  (Apply to_lower clock v ActionAllow opt).2.

(** ** What masking a string does *)

Definition covered (hits : list Finding) (p : nat) : bool :=
  existsb (fun h => (f_Start h <=? p) && (p <? f_End h)) hits.

(** The masked string as a sequence of bytes kept and tokens put in. *)
Inductive piece : Type := Keep (p : nat) | Token (kind : string).

Definition render_piece (s : list ascii) (pc : piece) : list ascii :=
  match pc with Keep p => slice s p (S p) | Token k => bytes_of (redaction k) end.

Definition render (s : list ascii) (pcs : list piece) : list ascii := List.concat (map (render_piece s) pcs).

Definition kept (pcs : list piece) : list nat := omap (fun pc => match pc with Keep p => Some p | Token _ => None end) pcs.

Lemma covered_true hits p : covered hits p = true <-> exists h, h ∈ hits /\ f_Start h <= p < f_End h.
Proof.
  unfold covered. rewrite existsb_exists. split; intros (h & Hh & H); exists h.
  - rewrite list_elem_of_In. bool_prop. split; [done|lia].
  - rewrite <-list_elem_of_In. split; [done|]. rewrite andb_true_iff, Nat.leb_le, Nat.ltb_lt. lia.
Qed.

Lemma covered_false hits p : (forall h, h ∈ hits -> ~ f_Start h <= p < f_End h) -> covered hits p = false.
Proof. intros H. apply not_true_iff_false. intros (h & Hh & Hp)%covered_true. by apply (H h). Qed.

(** A group of overlapping hits: what it takes, and how far it reaches. *)
Lemma absorb_spec hits e :
  StronglySorted (fun a b => f_Start a <= f_Start b) hits ->
  exists pre, let '(e', rest) := absorb hits e in
  hits = pre ++ rest /\ e <= e' /\ (forall h, h ∈ pre -> f_End h <= e') /\
  (forall p, e <= p < e' -> covered pre p = true) /\ (forall h, h ∈ rest -> e' <= f_Start h) /\
  (forall n, e <= n -> (forall h, h ∈ hits -> f_End h <= n) -> e' <= n).
Proof.
  revert e; induction hits as [|h hits IH]; intros e Hs; cbn [absorb].
  { exists []. split_and!; try done; intros; [by apply not_elem_of_nil in H|lia|by apply not_elem_of_nil in H]. }
  inversion Hs as [|? ? Hs' Hh]; subst. rewrite Forall_forall in Hh.
  destruct (f_Start h <? e) eqn:E; bool_prop.
  - set (e1 := if e <? f_End h then f_End h else e).
    assert (He1 : e <= e1 /\ f_End h <= e1 /\ (e1 = e \/ e1 = f_End h)).
    { unfold e1. destruct (e <? f_End h) eqn:E1; bool_prop; lia. }
    destruct (IH e1 Hs') as [pre Hpre]. exists (h :: pre). destruct (absorb hits e1) as [e' rest].
    destruct Hpre as (-> & H1 & H2 & H3 & H4 & H5). split_and!; [done|lia| | |done|].
    + intros x [->|Hx]%elem_of_cons; [lia|by apply H2].
    + intros p Hp. apply covered_true. destruct (decide (p < e1)).
      * exists h. split; [by left|]. lia.
      * destruct (proj1 (covered_true pre p)) as (x & Hx & ?); [apply H3; lia|]. exists x. split; [by right|done].
    + intros n Hn Hx. apply H5; [|intros x Hin; apply Hx; by right].
      assert (f_End h <= n) by (apply Hx; by left). lia.
  - exists []. split_and!; try done; intros; [by apply not_elem_of_nil in H|lia| ].
    apply elem_of_cons in H as [->|Hin]; [lia|]. specialize (Hh _ Hin). lia.
Qed.

Lemma render_app s a b : render s (a ++ b) = render s a ++ render s b.
Proof. unfold render. by rewrite map_app, concat_app. Qed.

Lemma render_keep s a n : a + n <= length s -> render s (map Keep (seq a n)) = slice s a (a + n).
Proof.
  revert a; induction n as [|n IH]; intros a H; cbn [seq map].
  { unfold slice. by rewrite Nat.add_0_r, Nat.sub_diag. }
  change (render s (Keep a :: map Keep (seq (S a) n))) with (slice s a (S a) ++ render s (map Keep (seq (S a) n))).
  rewrite IH by lia. unfold slice. replace (S a - a) with 1 by lia. replace (a + S n - a) with (1 + n) by lia.
  replace (S a + n - S a) with n by lia. rewrite <-take_take_drop, drop_drop. by rewrite (Nat.add_1_r a).
Qed.

Lemma kept_app a b : kept (a ++ b) = kept a ++ kept b.
Proof. apply omap_app. Qed.

Lemma elem_of_seq' a n p : p ∈ seq a n <-> a <= p < a + n.
Proof. by rewrite list_elem_of_In, in_seq. Qed.

Definition hit_ok (len : nat) (h : Finding) : Prop := f_Start h <= f_End h <= len.

(** The matches that begin a group: no match before reaches past where it
    starts. *)
Fixpoint leaders (reach : nat) (hits : list Finding) : list Finding :=
  match hits with
  | h :: hits => (if reach <=? f_Start h then [h] else []) ++ leaders (Nat.max reach (f_End h)) hits
  | [] => []
  end.

(** What stands at a position: the token of each group that begins there,
    and the byte itself if no match covers it. *)
Definition layout_at (heads hits : list Finding) (len p : nat) : list piece :=
  map (fun h => Token (f_Kind h)) (List.filter (fun h => f_Start h =? p) heads) ++
  (if (p <? len) && negb (covered hits p) then [Keep p] else []).

(** The positions from [a] to the end of the string. *)
Definition layout (heads hits : list Finding) (len a : nat) : list piece :=
  List.concat (map (layout_at heads hits len) (seq a (S len - a))).

Lemma absorb_leaders hits e : let '(e', rest) := absorb hits e in leaders e hits = leaders e' rest.
Proof.
  revert e; induction hits as [|h hits IH]; intros e; cbn [absorb]; [done|]. destruct (f_Start h <? e) eqn:E; [|reflexivity]. bool_prop.
  cbn [leaders]. rewrite (proj2 (Nat.leb_gt _ _)) by lia. specialize (IH (Nat.max e (f_End h))). cbn [app].
  destruct (e <? f_End h) eqn:E1; bool_prop; [rewrite Nat.max_r in * by lia|rewrite Nat.max_l in * by lia]; exact IH.
Qed.

Lemma leaders_in reach hits h : h ∈ leaders reach hits -> h ∈ hits.
Proof.
  revert reach; induction hits as [|x hits IH]; intros reach; cbn; [done|]. destruct (reach <=? f_Start x); cbn; rewrite ?elem_of_cons; intros H; [destruct H; [by left|]|];
    right; eauto.
Qed.

Lemma layout_split heads hits len a b c : a <= b -> b <= c -> c <= S len ->
  layout heads hits len a = concat (map (layout_at heads hits len) (seq a (b - a))) ++
    concat (map (layout_at heads hits len) (seq b (c - b))) ++ layout heads hits len c.
Proof.
  intros Ha Hb Hc. unfold layout. replace (S len - a) with ((b - a) + ((c - b) + (S len - c))) by lia.
  rewrite !seq_app, !map_app, !concat_app. replace (a + (b - a)) with b by lia. by replace (b + (c - b)) with c by lia.
Qed.

Lemma layout_ext heads heads' hits hits' len a : (forall p, a <= p -> layout_at heads hits len p = layout_at heads' hits' len p) ->
  layout heads hits len a = layout heads' hits' len a.
Proof. intros H. unfold layout. f_equal. apply map_ext_in. intros p Hp%in_seq. apply H. lia. Qed.

Lemma layout_keeps heads hits len a n : a + n <= len -> (forall p, a <= p < a + n -> covered hits p = false) ->
  (forall h, h ∈ heads -> a + n <= f_Start h) -> concat (map (layout_at heads hits len) (seq a n)) = map Keep (seq a n).
Proof.
  intros Hl Hc Hh. revert a Hl Hc Hh. induction n as [|n IH]; intros a Hl Hc Hh; [done|]. cbn [seq map concat].
  rewrite IH; [|lia|intros; apply Hc; lia|intros h Hin; specialize (Hh h Hin); lia]. unfold layout_at at 1.
  rewrite filter_drops_all; [|intros h Hin; apply Nat.eqb_neq; specialize (Hh h Hin); lia].
  rewrite (proj2 (Nat.ltb_lt _ _)), Hc by lia. done.
Qed.

Lemma layout_nothing heads hits len a n : (forall p, a <= p < a + n -> covered hits p = true) ->
  (forall h p, h ∈ heads -> a <= p < a + n -> f_Start h <> p) -> concat (map (layout_at heads hits len) (seq a n)) = [].
Proof.
  revert a; induction n as [|n IH]; intros a Hc Hh; [done|]. cbn [seq map concat]. rewrite IH; [|intros; apply Hc; lia|intros h p ? ?; apply Hh; [done|lia]].
  unfold layout_at. rewrite filter_drops_all; [|intros h Hin; apply Nat.eqb_neq; apply Hh; [done|lia]]. rewrite Hc by lia. by rewrite andb_false_r.
Qed.

(** A byte that is kept is one no match covers. *)
Lemma layout_kept heads hits len a p : p ∈ kept (layout heads hits len a) -> covered hits p = false.
Proof.
  unfold layout. induction (seq a (S len - a)) as [|q l IH]; [by intros H%not_elem_of_nil|]. cbn [map concat]. rewrite kept_app.
  intros [H|H]%elem_of_app; [|by apply IH]. unfold layout_at in H. rewrite kept_app in H. apply elem_of_app in H as [H|H].
  - exfalso. induction (List.filter _ heads) as [|h hs IHh]; [by apply not_elem_of_nil in H|done].
  - destruct ((q <? len) && negb (covered hits q)) eqn:E; [|by apply not_elem_of_nil in H]. apply list_elem_of_singleton in H as ->. by bool_prop.
Qed.

(** One group, and what follows it. *)
Lemma layout_group h pre rest len last e : last <= f_Start h -> f_Start h <= f_End h -> f_End h <= e -> e <= len ->
  (forall x, x ∈ pre -> f_Start h <= f_Start x /\ f_End x <= e) -> (forall x, x ∈ rest -> e <= f_Start x) ->
  (forall p, f_End h <= p < e -> covered pre p = true) ->
  layout (h :: leaders e rest) (h :: pre ++ rest) len last =
  map Keep (seq last (f_Start h - last)) ++ Token (f_Kind h) :: layout (leaders e rest) rest len e.
Proof.
  intros H1 H2 H3 H4 Hp Hr Hc. assert (forall x, x ∈ leaders e rest -> e <= f_Start x) as Hl by (intros x Hx; eapply Hr, leaders_in, Hx).
  assert (forall p, f_Start h <= p < e -> covered (h :: pre ++ rest) p = true) as Hcov.
  { intros p Hin. apply covered_true. destruct (decide (p < f_End h)); [exists h; split; [by left|lia]|].
    destruct (proj1 (covered_true pre p)) as (x & Hx & ?); [apply Hc; lia|]. exists x. split; [right; apply elem_of_app; by left|done]. }
  assert (forall p, e <= p -> covered (h :: pre ++ rest) p = covered rest p) as Hafter.
  { intros p Hin. apply eq_iff_eq_true. rewrite !covered_true. split; intros (x & Hx & Hx'); exists x; (split; [|done]).
    - apply elem_of_cons in Hx as [->|[Hx|Hx]%elem_of_app]; [lia| |done]. apply Hp in Hx. lia.
    - right. apply elem_of_app. by right. }
  rewrite (layout_split _ _ _ last (f_Start h) e) by lia. rewrite layout_keeps.
  2: lia. 2: { intros p Hin. apply covered_false. intros x [->|[Hx|Hx]%elem_of_app]%elem_of_cons; [lia|apply Hp in Hx; lia|apply Hr in Hx; lia]. }
  2: { intros x [->|Hx]%elem_of_cons; [lia|]. apply Hl in Hx. lia. }
  f_equal. destruct (decide (f_Start h = e)) as [Ee|Ne].
  - rewrite Ee, Nat.sub_diag. cbn [seq map concat app]. unfold layout. replace (S len - e) with (S (len - e)) by lia. cbn [seq map concat].
    rewrite (app_comm_cons (layout_at _ _ _ e)). f_equal.
    + unfold layout_at. cbn [List.filter]. rewrite Ee, Nat.eqb_refl. cbn [map app]. by rewrite (Hafter e) by lia.
    + f_equal. apply map_ext_in. intros p Hin%in_seq. unfold layout_at. cbn [List.filter]. rewrite (proj2 (Nat.eqb_neq (f_Start h) p)) by lia.
      by rewrite (Hafter p) by lia.
  - replace (e - f_Start h) with (S (e - f_Start h - 1)) by lia. cbn [seq map concat]. rewrite layout_nothing.
    2: { intros p Hin. apply Hcov. lia. } 2: { intros x p [->|Hx]%elem_of_cons Hin; [lia|]. apply Hl in Hx. lia. }
    unfold layout_at at 1. cbn [List.filter]. rewrite Nat.eqb_refl, Hcov, andb_false_r by lia. rewrite filter_drops_all.
    2: { intros x Hx%Hl. apply Nat.eqb_neq. lia. }
    cbn [map app]. f_equal. apply layout_ext. intros p Hin. unfold layout_at. cbn [List.filter]. rewrite (proj2 (Nat.eqb_neq (f_Start h) p)) by lia.
    by rewrite (Hafter p).
Qed.

Lemma mask_loop_spec fuel s hits last b :
  length hits <= fuel -> last <= length s -> StronglySorted (fun a b => f_Start a <= f_Start b) hits ->
  (forall h, h ∈ hits -> last <= f_Start h /\ hit_ok (length s) h) ->
  mask_loop fuel s hits last b = b ++ render s (layout (leaders last hits) hits (length s) last).
Proof.
  assert (Hend : forall s b last, last <= length s -> b ++ drop last s = b ++ render s (layout [] [] (length s) last)).
  { clear. intros s b last Hl. f_equal. rewrite (layout_split _ _ _ last (length s) (length s)) by lia. rewrite layout_keeps; [|lia|done|].
    2: { intros h Hin. by apply not_elem_of_nil in Hin. }
    rewrite Nat.sub_diag. cbn [seq map concat app]. unfold layout. replace (S (length s) - length s) with 1 by lia. cbn [seq map concat].
    unfold layout_at. rewrite Nat.ltb_irrefl. cbn [List.filter map app andb]. rewrite app_nil_r, render_keep by lia.
    unfold slice. rewrite firstn_all2; [done|rewrite length_drop; lia]. }
  revert hits last b; induction fuel as [|fuel IH]; intros hits last b Hf Hl Hs Hh.
  { destruct hits; [|cbn in Hf; lia]. by apply Hend. }
  destruct hits as [|h hits]; [by apply Hend|]. cbn [mask_loop].
  inversion Hs as [|? ? Hs' Hfirst]; subst. rewrite Forall_forall in Hfirst.
  pose proof (absorb_leaders hits (f_End h)) as Ll.
  destruct (absorb_spec hits (f_End h) Hs') as [pre Hpre]. destruct (absorb hits (f_End h)) as [e rest].
  destruct Hpre as (-> & H1 & H2 & H3 & H4 & H5).
  destruct (Hh h) as [Hlast Hok]; [by left|]. destruct Hok as [Hse Hel].
  rewrite (proj2 (Nat.ltb_ge _ _)) by done.
  assert (Hele : e <= length s).
  { apply H5; [done|]. intros x Hx. destruct (Hh x) as [_ [_ ?]]; [by right|done]. }
  rewrite length_cons, length_app in Hf. rewrite (IH rest e).
  2: lia. 2: done. 2: { clear -Hs'. induction pre as [|x pre IHp]; [done|]. cbn in Hs'. inversion Hs'; subst. auto. }
  2: { intros x Hx. split; [by apply H4|]. apply Hh. right. apply elem_of_app. by right. }
  cbn [leaders]. rewrite (proj2 (Nat.leb_le _ _)), Nat.max_r, Ll by lia. cbn [app].
  rewrite (layout_group h pre rest (length s) last e); try done.
  - rewrite render_app, render_keep by lia. replace (last + (f_Start h - last)) with (f_Start h) by lia.
    change (render s (Token (f_Kind h) :: ?x)) with (bytes_of (redaction (f_Kind h)) ++ render s x). by rewrite <-!app_assoc.
  - intros x Hx. split; [apply Hfirst, elem_of_app; by left|by apply H2].
Qed.

(** C30. Masking takes out every byte of every match and no other byte, and
    leaves one token per group of matches: read position by position, the
    masked string holds the token of each group that begins there, which
    names the kind of the group's first match, and the byte itself exactly
    if no match covers it.  A match begins a group when no match before it
    reaches past where it starts. *)
Theorem maskSpans_exact s hits :
  StronglySorted (fun a b => f_Start a <= f_Start b) hits -> (forall h, h ∈ hits -> hit_ok (length s) h) ->
  maskSpans s hits = render s (layout (leaders 0 hits) hits (length s) 0).
Proof.
  intros Hs Hh. apply mask_loop_spec; [done|lia|done|]. intros h Hin. split; [lia|by apply Hh].
Qed.

Definition hit_at (a b : nat) : Finding := mkFinding "email" "address" "email" ConfidenceHigh "$" a b.

Lemma maskSpans_exact_witness :
  maskSpans (bytes_of "abcdefgh") [hit_at 1 3; hit_at 2 5; hit_at 6 7] =
    render (bytes_of "abcdefgh") [Keep 0; Token "email"; Keep 5; Token "email"; Keep 7].
Proof.
  refine (maskSpans_exact (bytes_of "abcdefgh") [hit_at 1 3; hit_at 2 5; hit_at 6 7] _ _).
  - repeat constructor; cbn; lia.
  - intros h Hh. unfold hit_ok. repeat (apply elem_of_cons in Hh as [->|Hh]); [cbn; lia..|].
    by apply not_elem_of_nil in Hh.
Defined.

(** ** What the walk does *)

Section walk_lemmas.
Context (to_lower : string -> string) (clock : nat -> Z) (sc : scanner).

Abbreviation walk := (walk to_lower clock sc).
Abbreviation text := (text clock sc).

(** The loops of [walk], for the proofs. *)
Definition walk_object (m : list (string * value)) (path : string) :=
  fix object (es : list (string * value)) (out : option (list (string * value))) (st : scan) : value * bool * scan :=
    match es with
    | [] => (match out with Some out => (VMap out, true) | None => (VMap m, false) end, st)
    | (k, e) :: es =>
        let child := path +:+ "." +:+ k in
        if s_secretKey sc && looksSecret to_lower k then
          let st := record (secret_finding child) st in
          if negb (s_mask sc) then object es out st
          else object es (Some (obj_set (default m out) k secret_redaction)) st
        else
          let '(got, changed, st) := walk e child st in
          object es (if (changed : bool) then Some (obj_set (default m out) k got) else out) st
    end.

Definition elem_path (path : string) (i : nat) : string := path +:+ "[" +:+ Itoa (Z.of_nat i) +:+ "]".

Definition walk_array (a : list value) (path : string) :=
  fix array (es : list value) (i : nat) (out : option (list value)) (st : scan) : value * bool * scan :=
    match es with
    | [] => (match out with Some out => (VList out, true) | None => (VList a, false) end, st)
    | e :: es =>
        let '(got, changed, st) := walk e (elem_path path i) st in
        array es (S i) (if (changed : bool) then Some (<[ i := got ]> (default a out)) else out) st
    end.

Lemma walk_map m path st : walk (VMap m) path st = walk_object m path m None st.
Proof. reflexivity. Qed.

Lemma walk_list a path st : walk (VList a) path st = walk_array a path a 0 None st.
Proof. reflexivity. Qed.

(** What holds from one state of the scan to the next holds over a walk. *)
Section preserved.
Context (R : scan -> scan -> Prop) `{!PreOrder R}.
Context (Htext : forall s path st, R st (text s path st).2) (Hrec : forall f st, R st (record f st)).

Lemma walk_preserves v : forall path st, R st (walk v path st).2.
Proof using All.
  induction v as [|b|n|f|s|s|l IH|m IH|] using value_ind'; intros path st; try (cbn; reflexivity).
  - cbn [Dlp.walk]. pose proof (Htext s path st) as H. by destruct (text s path st).
  - rewrite walk_list. enough (Hl : forall a i out st, R st (walk_array a path l i out st).2) by apply Hl.
    induction IH as [|e l He _ IHl]; intros a i out st'; [cbn; by destruct out|].
    cbn [walk_array]. pose proof (He (elem_path path i) st') as H. destruct (walk e _ st') as [[got changed] st''].
    etransitivity; [exact H|apply IHl].
  - rewrite walk_map. enough (Hm : forall m0 out st, R st (walk_object m0 path m out st).2) by apply Hm.
    induction IH as [|[k e] m He _ IHm]; intros m0 out st'; [cbn; by destruct out|].
    cbn [walk_object]. destruct (s_secretKey sc && looksSecret to_lower k).
    + etransitivity; [apply Hrec|]. destruct (negb (s_mask sc)); apply IHm.
    + pose proof (He (path +:+ "." +:+ k) st') as H. cbn [snd] in H. destruct (walk e _ st') as [[got changed] st''].
      etransitivity; [exact H|apply IHm].
Qed.
End preserved.

(** The detectors read the clock and nothing else of the state. *)
Lemma run_detectors_state ds part path len hits st :
  let '(r, st') := run_detectors clock sc ds part path len hits st in
  sc_budget st' = sc_budget st /\ sc_res st' = sc_res st /\
  (match r with
   | Some hits' => sc_timedOut st' = sc_timedOut st /\
                   hits' = hits ++ concat (map (fun d => detector_hits d part path len) ds)
   | None => sc_timedOut st' = true
   end).
Proof.
  revert hits st; induction ds as [|d ds IH]; intros hits st; cbn [run_detectors map concat].
  { by rewrite app_nil_r. }
  rewrite app_assoc. destruct (s_deadline sc) as [dl|]; [|apply IH].
  destruct (clock (sc_reads st) <? dl)%Z; [|done].
  set (st' := mkScan _ _ _ _). specialize (IH (hits ++ detector_hits d part path len) st').
  by destruct (run_detectors _ _ _ _ _ _ _ _).
Qed.

Lemma record_all_state hits st :
  let st' := foldl (fun st f => record f st) st hits in
  sc_budget st' = sc_budget st /\ sc_timedOut st' = sc_timedOut st /\ rs_Bytes (sc_res st') = rs_Bytes (sc_res st) /\
  rs_Truncated (sc_res st') = rs_Truncated (sc_res st) /\ rs_Matches (sc_res st') = rs_Matches (sc_res st) + length hits.
Proof.
  revert st; induction hits as [|h hits IH]; intros st; cbn [foldl length]; [split_and!; try done; lia|].
  destruct (IH (record h st)) as (H1 & H2 & H3 & H4 & H5). cbn in *. split_and!; try done. lia.
Qed.

(** ** Accounting *)

(** The budget pays for the bytes read and the findings are capped. *)
Record accounted (b0 : Z) (st : scan) : Prop := {
  ac_budget : (sc_budget st + Z.of_nat (rs_Bytes (sc_res st)) = b0)%Z;
  ac_left : (0 <= sc_budget st)%Z;
  ac_findings : length (rs_Findings (sc_res st)) = rs_Matches (sc_res st) `min` maxFindings;
}.

Lemma record_accounted b0 f st : accounted b0 st -> accounted b0 (record f st).
Proof.
  intros [H1 H2 H3]. constructor; cbn [record sc_budget sc_res rs_Bytes rs_Findings rs_Matches]; [done|done|].
  unfold maxFindings in *. destruct (_ <? 100) eqn:E; bool_prop; rewrite ?length_app; cbn [length]; lia.
Qed.

Lemma records_accounted b0 hits st : accounted b0 st -> accounted b0 (foldl (fun st f => record f st) st hits).
Proof. revert st; induction hits as [|h hits IH]; intros st H; [done|]. by apply IH, record_accounted. Qed.

Lemma runeBoundary_le s n : runeBoundary s n <= n.
Proof.
  induction n as [|n IH]; [done|]. cbn [runeBoundary]. destruct (s !! S n) as [c|]; [destruct (RuneStart c)|]; lia.
Qed.

Lemma text_accounted b0 s path st : accounted b0 st -> accounted b0 (text s path st).2.
Proof.
  intros H. unfold Dlp.text. destruct (bool_decide (s = "") || sc_timedOut st); [done|].
  destruct (sc_budget st <=? 0)%Z eqn:Hb; [by destruct H; constructor|]. bool_prop.
  set (over := (sc_budget st <? Z.of_nat (length (bytes_of s)))%Z).
  set (part := if over then take _ _ else _). set (st1 := charge (length part) _).
  assert (H1 : accounted b0 st1).
  { destruct H as [A1 A2 A3].
    assert (Z.of_nat (length part) <= sc_budget st)%Z.
    { unfold part. destruct over eqn:Ho; [|unfold over in Ho; bool_prop; lia].
      rewrite length_take. pose proof (runeBoundary_le (bytes_of s) (Z.to_nat (sc_budget st))). lia. }
    unfold st1. destruct over; constructor; cbn; (done || lia). }
  pose proof (run_detectors_state (s_detectors sc) part path (length (bytes_of s)) [] st1) as Hr.
  destruct (run_detectors _ _ _ _ _ _ _ _) as [[hits|] st2]; destruct Hr as (E1 & E2 & _).
  - assert (H2 : accounted b0 st2) by (destruct H1; constructor; by rewrite ?E1, ?E2).
    destruct hits as [|h hits]; [done|]. destruct (negb (s_mask sc)); by apply records_accounted.
  - destruct H1; constructor; cbn [snd]; by rewrite ?E1, ?E2.
Qed.

Lemma walk_accounted b0 v path st : accounted b0 st -> accounted b0 (walk v path st).2.
Proof.
  assert (PreOrder (fun st st' => accounted b0 st -> accounted b0 st')).
  { split; [by intros x|intros x y z; tauto]. }
  apply (walk_preserves (fun st st' => accounted b0 st -> accounted b0 st')).
  - intros s p st'. apply text_accounted.
  - intros f st'. apply record_accounted.
Qed.
End walk_lemmas.

Lemma newScanner_accounted opt mask :
  accounted (sc_budget (newScanner opt mask).2) (newScanner opt mask).2.
Proof.
  unfold newScanner. constructor; cbn [snd sc_budget sc_res rs_Bytes rs_Findings rs_Matches]; [lia| |done].
  destruct (o_MaxBytes opt =? 0)%Z; [by vm_compute|]. destruct (o_MaxBytes opt <? 0)%Z eqn:E; [by vm_compute|].
  bool_prop. lia.
Qed.

Lemma Apply_res to_lower clock v act opt :
  let '(sc, st) := newScanner opt (bool_decide (act = ActionMask)) in
  (Apply to_lower clock v act opt).2 = sc_res (walk to_lower clock sc v (root opt) st).2.
Proof.
  unfold Apply. destruct (newScanner _ _) as [sc st]. destruct (walk _ _ _ _ _ _) as [[out ch] st']. cbn.
  destruct (sc_timedOut st'); [done|]. by destruct (_ && _).
Qed.

(** The scan is bounded: whatever the value, it reads no more bytes than
    the policy's limit (or the default), and its record names every match up
    to a hundred and counts them all. *)
Theorem scan_is_bounded to_lower clock v act opt :
  let r := (Apply to_lower clock v act opt).2 in
  (Z.of_nat (rs_Bytes r) <= if o_MaxBytes opt =? 0 then 65536 else if o_MaxBytes opt <? 0 then maxInt else o_MaxBytes opt)%Z /\
  length (rs_Findings r) = rs_Matches r `min` 100.
Proof.
  cbn zeta. pose proof (Apply_res to_lower clock v act opt) as E.
  pose proof (newScanner_accounted opt (bool_decide (act = ActionMask))) as H.
  destruct (newScanner opt _) as [sc st] eqn:Hn. rewrite E. cbn [snd] in H.
  apply (walk_accounted to_lower clock sc _ v (root opt)) in H as [H1 H2 H3]. split; [|exact H3].
  assert (sc_budget st = if o_MaxBytes opt =? 0 then 65536 else if o_MaxBytes opt <? 0 then maxInt else o_MaxBytes opt)%Z as <-; [|lia].
  unfold newScanner in Hn. injection Hn as <- <-. done.
Qed.

(** ** The walk computes a function of the value *)

Section reference.
Context (to_lower : string -> string) (clock : nat -> Z) (sc : scanner).

(** The hits in one string, and the string they leave. *)
Definition string_hits (s : string) (path : string) : list Finding :=
  if bool_decide (s = "") then []
  else concat (map (fun d => detector_hits d (bytes_of s) path (length (bytes_of s))) (s_detectors sc)).

Definition masked_text (s : string) (path : string) : string :=
  match string_hits s path with
  | [] => s
  | hits => if s_mask sc then string_of (maskSpans (bytes_of s) (sort_hits hits)) else s
  end.

Definition secret_field (k : string) : bool := s_secretKey sc && looksSecret to_lower k.

(** What the value becomes when the whole of it is read. *)
Fixpoint masked (v : value) (path : string) : value :=
  match v with
  | VStr s => VStr (masked_text s path)
  | VMap m =>
      VMap (map (fun '(k, e) =>
        (k, if secret_field k then (if s_mask sc then secret_redaction else e) else masked e (path +:+ "." +:+ k))) m)
  | VList l => VList ((fix go i l := match l with [] => [] | e :: l => masked e (elem_path path i) :: go (S i) l end) 0 l)
  | _ => v
  end.

(** How many matches there are in it. *)
Fixpoint count (v : value) (path : string) : nat :=
  match v with
  | VStr s => length (string_hits s path)
  | VMap m =>
      list_sum (map (fun '(k, e) => if secret_field k then 1 else count e (path +:+ "." +:+ k)) m)
  | VList l => (fix go i l := match l with [] => 0 | e :: l => count e (elem_path path i) + go (S i) l end) 0 l
  | _ => 0
  end.

Definition complete (st : scan) : Prop := rs_Truncated (sc_res st) = false /\ sc_timedOut st = false.

Definition matches (st : scan) : nat := rs_Matches (sc_res st).

Abbreviation walk := (walk to_lower clock sc).
Abbreviation text := (text clock sc).

Lemma text_complete s path st :
  let '(out, st') := text s path st in
  complete st' -> complete st /\ out = masked_text s path /\ matches st' = matches st + length (string_hits s path).
Proof.
  unfold Dlp.text, masked_text, string_hits. destruct (bool_decide (s = "")) eqn:Hs; cbn [orb].
  { intros H. split_and!; try apply H; [done|cbn; lia]. }
  destruct (sc_timedOut st) eqn:Ht; [by intros [_ ?]; congruence|].
  destruct (sc_budget st <=? 0)%Z; [by intros [? _]|].
  set (over := (sc_budget st <? _)%Z). set (st1 := charge _ _).
  assert (H1 : complete st1 -> over = false /\ complete st).
  { unfold st1. destruct over; [by intros [? _]|]. done. }
  assert (Hm : matches st1 = matches st) by (unfold st1; by destruct over).
  pose proof (run_detectors_state clock sc (s_detectors sc) (if over then take (runeBoundary (bytes_of s) (Z.to_nat (sc_budget st))) (bytes_of s) else bytes_of s)
    path (length (bytes_of s)) [] st1) as Hr.
  destruct (run_detectors _ _ _ _ _ _ _ _) as [[hits|] st2]; destruct Hr as (E1 & E2 & E3).
  2: { intros [_ ?]. congruence. }
  destruct E3 as [E3 E4]. cbn [app] in E4.
  assert (H2 : complete st2 -> over = false /\ complete st).
  { intros [? ?]. apply H1. split; congruence. }
  assert (Hm2 : matches st2 = matches st) by (rewrite <-Hm; unfold matches; by rewrite E2).
  destruct hits as [|h hits].
  - intros [Ho Hc]%H2. rewrite Ho in E4. rewrite <-E4. split_and!; [apply Hc..|done|cbn; lia].
  - set (st3 := foldl _ _ _).
    pose proof (record_all_state (sort_hits (h :: hits)) st2) as (R1 & R2 & R3 & R4 & R5).
    assert (Hlen : length (sort_hits (h :: hits)) = length (h :: hits)).
    { apply Permutation_length, merge_sort_Permutation. }
    assert (H3 : complete st3 -> over = false /\ complete st).
    { intros [? ?]. apply H2. unfold st3 in *. split; congruence. }
    destruct (s_mask sc) eqn:Hmask; cbn [negb]; intros [Ho Hc]%H3; rewrite Ho in E4; rewrite <-E4;
      (split; [done|split; [done|]]); unfold matches in *; unfold st3; rewrite R5, Hlen; lia.
Qed.

Lemma record_complete f st : complete (record f st) <-> complete st.
Proof. done. Qed.

Definition walk_ok (v : value) : Prop := forall path st,
  let '(got, changed, st') := walk v path st in
  (changed = false -> got = v) /\
  (complete st' -> complete st /\ got = masked v path /\ matches st' = matches st + count v path).

Lemma walk_array_ok (l : list value) : Forall walk_ok l -> walk_ok (VList l).
Proof.
  intros Hl path st. rewrite walk_list. cbn [masked count].
  enough (H : forall es i out st, Forall walk_ok es -> length (default l out) = i + length es ->
    drop i (default l out) = es ->
    let '(got, changed, st') := walk_array to_lower clock sc l path es i out st in
    (changed = false -> got = VList l) /\
    (complete st' -> complete st /\
      got = VList (take i (default l out) ++
        (fix go i l := match l with [] => [] | e :: l => masked e (elem_path path i) :: go (S i) l end) i es) /\
      matches st' = matches st +
        (fix go i l := match l with [] => 0 | e :: l => count e (elem_path path i) + go (S i) l end) i es)).
  { by apply (H l 0 None st). }
  clear Hl. intros es. induction es as [|e es IH]; intros i out st0 Hes Hlen Hdrop.
  { cbn. rewrite app_nil_r. rewrite firstn_all2 by (cbn in Hlen; lia).
    destruct out as [out|]; (split; [done|]; intros Hc; split_and!; [apply Hc..|done|lia]). }
  inversion Hes as [|? ? He Hes']; subst. cbn [walk_array]. specialize (He (elem_path path i) st0).
  destruct (walk e _ st0) as [[got changed] st1]. destruct He as [Hgot Hc].
  set (out1 := if changed then _ else out).
  assert (Hi : default l out !! i = Some e).
  { rewrite <-(Nat.add_0_r i), <-lookup_drop, Hdrop. done. }
  assert (Hout1 : default l out1 = <[i:=got]> (default l out)).
  { unfold out1. destruct changed; [done|]. rewrite Hgot by done. by rewrite list_insert_id. }
  specialize (IH (S i) out1 st1 Hes').
  destruct (walk_array to_lower clock sc l path es (S i) out1 st1) as [[got' changed'] st2]. destruct IH as [IH1 IH2].
  { rewrite Hout1, length_insert, Hlen. cbn. lia. }
  { rewrite Hout1, drop_insert_lt by lia.
    replace (S i) with (i + 1) by lia. by rewrite <-drop_drop, Hdrop. }
  split; [done|]. intros Hc2. apply IH2 in Hc2 as (C1 & -> & C3). apply Hc in C1 as (C1 & -> & C4).
  split_and!; [apply C1..| |lia]. f_equal. rewrite Hout1.
  rewrite (take_S_r _ i (masked e (elem_path path i))).
  - rewrite take_insert_ge by lia. by rewrite <-app_assoc.
  - apply list_lookup_insert_eq. rewrite Hlen. cbn. lia.
Qed.

(** The entries of a map after the walk. *)
Definition masked_entry (path : string) (e : string * value) : string * value :=
  (e.1, if secret_field e.1 then (if s_mask sc then secret_redaction else e.2) else masked e.2 (path +:+ "." +:+ e.1)).

Lemma masked_map m path : masked (VMap m) path = VMap (map (masked_entry path) m).
Proof. cbn [masked]. f_equal. apply map_ext. by intros [k e]. Qed.

Lemma keys_masked path m : keys (map (masked_entry path) m) = keys m.
Proof. unfold keys. induction m as [|e m IH]; [done|]. cbn. by f_equal. Qed.

Definition count_entry (path : string) (p : string * value) : nat :=
  let '(k, e) := p in if secret_field k then 1 else count e (path +:+ "." +:+ k).

Lemma count_map m path : count (VMap m) path = list_sum (map (count_entry path) m).
Proof. reflexivity. Qed.

Definition count_elems (path : string) : nat -> list value -> nat :=
  fix go i l := match l with [] => 0 | e :: l => count e (elem_path path i) + go (S i) l end.

Lemma count_list l path : count (VList l) path = count_elems path 0 l.
Proof. reflexivity. Qed.

Lemma count_entries_cons path p m :
  list_sum (map (count_entry path) (p :: m)) = count_entry path p + list_sum (map (count_entry path) m).
Proof. reflexivity. Qed.

Lemma walk_object_ok (m : list (string * value)) :
  Forall (fun e => walk_ok e.2) m -> StronglySorted key_lt (keys m) -> walk_ok (VMap m).
Proof.
  intros Hm Hs path st. rewrite walk_map, masked_map. cbn [count].
  enough (H : forall es pre out st, Forall (fun e => walk_ok e.2) es -> m = pre ++ es ->
    default m out = map (masked_entry path) pre ++ es \/ True ->
    let '(got, changed, st') := walk_object to_lower clock sc m path es out st in
    (changed = false -> got = VMap m) /\
    (complete st' -> complete st /\
      (default m out = map (masked_entry path) pre ++ es -> got = VMap (map (masked_entry path) m)) /\
      matches st' = matches st +
        list_sum (map (count_entry path) es))).
  { specialize (H m [] None st Hm). destruct (walk_object to_lower clock sc m path m None st) as [[got changed] st'].
    destruct H as [H1 H2]; [done|by right|]. split; [done|]. intros (C1 & C2 & C3)%H2. split_and!; [apply C1..|by apply C2|done]. }
  clear Hm st. induction es as [|[k e] es IH]; intros pre out st Hes Hpre _.
  { cbn. rewrite app_nil_r in Hpre. subst pre. destruct out as [out|]; (split; [done|]); intros Hc;
      (split; [done|split; [|lia]]); intros Hd; rewrite app_nil_r in Hd; f_equal; exact Hd. }
  inversion Hes as [|? ? He Hes']; subst. cbn [walk_object]. cbn [snd] in He.
  assert (Hset : forall v, default (pre ++ (k, e) :: es) out = map (masked_entry path) pre ++ (k, e) :: es ->
    obj_set (default (pre ++ (k, e) :: es) out) k v = map (masked_entry path) pre ++ (k, v) :: es).
  { intros v ->. apply obj_set_middle. unfold keys in *. rewrite fmap_app in *. fold (keys (map (masked_entry path) pre)).
    rewrite keys_masked. done. }
  assert (Hnext : pre ++ (k, e) :: es = (pre ++ [(k, e)]) ++ es) by (by rewrite <-app_assoc).
  assert (Hsnoc : forall x, map (masked_entry path) pre ++ (k, x) :: es = map (masked_entry path) (pre ++ [(k, e)]) ++ es <->
    (k, x) = masked_entry path (k, e)).
  { intros x. rewrite map_app, <-app_assoc. cbn [map app]. split; [|by intros ->]. intros E%app_inv_head. congruence. }
  destruct (s_secretKey sc && looksSecret to_lower k) eqn:Hsec.
  - assert (Hentry : masked_entry path (k, e) = (k, if s_mask sc then secret_redaction else e)).
    { unfold masked_entry, secret_field. cbn [fst snd]. by rewrite Hsec. }
    set (st1 := record _ st).
    set (out1 := if negb (s_mask sc) then out else Some (obj_set (default (pre ++ (k, e) :: es) out) k secret_redaction)).
    specialize (IH (pre ++ [(k, e)]) out1 st1 Hes' Hnext (or_intror I)).
    assert (Hw : (if negb (s_mask sc) then walk_object to_lower clock sc (pre ++ (k, e) :: es) path es out st1
       else walk_object to_lower clock sc (pre ++ (k, e) :: es) path es
              (Some (obj_set (default (pre ++ (k, e) :: es) out) k secret_redaction)) st1) =
       walk_object to_lower clock sc (pre ++ (k, e) :: es) path es out1 st1).
    { unfold out1. by destruct (negb (s_mask sc)). }
    unfold walk_object in Hw, IH |- *. rewrite Hw. clear Hw.
    destruct (_ es out1 st1) as [[got changed] st']. destruct IH as [IH1 IH2]. split; [done|].
    intros (C1 & C2 & C3)%IH2. split; [done|]. split.
    + intros Hd. apply C2. unfold out1. destruct (s_mask sc); cbn [negb default from_option id].
      * rewrite Hset by done. apply Hsnoc. by rewrite Hentry.
      * rewrite Hd. apply Hsnoc. by rewrite Hentry.
    + rewrite count_entries_cons. unfold count_entry at 1, secret_field. rewrite Hsec. unfold matches in *. rewrite C3.
      unfold st1. cbn [record sc_res rs_Matches]. lia.
  - assert (Hentry : masked_entry path (k, e) = (k, masked e (path +:+ "." +:+ k))).
    { unfold masked_entry, secret_field. cbn [fst snd]. by rewrite Hsec. }
    specialize (He (path +:+ "." +:+ k) st). destruct (walk e _ st) as [[got changed] st1]. destruct He as [Hgot Hc].
    set (out1 := if changed then _ else out).
    specialize (IH (pre ++ [(k, e)]) out1 st1 Hes' Hnext (or_intror I)).
    unfold walk_object in IH |- *.
    destruct (_ es out1 st1) as [[got' changed'] st']. destruct IH as [IH1 IH2]. split; [done|].
    intros (C1 & C2 & C3)%IH2. apply Hc in C1 as (C1 & -> & C4). split; [done|]. split.
    + intros Hd. apply C2. unfold out1. destruct changed; cbn [default from_option id].
      * rewrite Hset by done. apply Hsnoc. by rewrite Hentry.
      * rewrite Hd. apply Hsnoc. rewrite Hentry. by rewrite Hgot.
    + rewrite count_entries_cons. unfold count_entry at 1, secret_field. rewrite Hsec, C3, C4. lia.
Qed.

Lemma walk_correct v : wf v -> walk_ok v.
Proof.
  induction v as [|b|n|f|s|s|l IH|m IH|] using value_ind'; intros Hwf;
    try (intros path st; cbn; split; [done|]; intros Hc; split_and!; [apply Hc..|done|lia]).
  - intros path st. cbn [Dlp.walk masked count]. pose proof (text_complete s path st) as H.
    destruct (text s path st) as [out st']. split.
    + intros E%negb_false_iff%String.eqb_eq. by subst.
    + intros (H1 & -> & H2)%H. split; [exact H1|split; done].
  - apply walk_array_ok. apply wf_list in Hwf. rewrite Forall_forall in *. auto.
  - apply wf_map in Hwf as [Hs Hwf]. apply walk_object_ok; [|done]. rewrite Forall_forall in *. auto.
Qed.
End reference.

(** ** What the entry points promise *)

Section promises.
Context (to_lower : string -> string) (clock : nat -> Z).

Lemma text_unmasked sc s path st : s_mask sc = false -> (text clock sc s path st).1 = s.
Proof.
  intros Hm. unfold text. destruct (_ || _); [done|]. destruct (_ <=? 0)%Z; [done|].
  destruct (run_detectors _ _ _ _ _ _ _ _) as [[[|h hits]|] st']; try done. by rewrite Hm.
Qed.

Lemma walk_unmasked sc v : s_mask sc = false -> forall path st, (walk to_lower clock sc v path st).1.2 = false.
Proof.
  intros Hm. induction v as [|b|n|f|s|s|l IH|m IH|] using value_ind'; intros path st; try done.
  - cbn [walk]. pose proof (text_unmasked sc s path st Hm) as H. destruct (text clock sc s path st) as [out st'].
    cbn in *. subst. by rewrite String.eqb_refl.
  - rewrite walk_list. enough (H : forall i st, (walk_array to_lower clock sc l path l i None st).1.2 = false) by apply H.
    assert (Hl : forall a i st, (walk_array to_lower clock sc a path l i None st).1.2 = false); [|by intros; apply Hl].
    induction IH as [|e l He _ IHl]; intros a i st'; [done|]. cbn [walk_array].
    specialize (He (elem_path path i) st'). destruct (walk _ _ _ e _ st') as [[got changed] st'']. cbn in He. subst. apply IHl.
  - rewrite walk_map.
    assert (Hl : forall m0 st, (walk_object to_lower clock sc m0 path m None st).1.2 = false); [|by apply Hl].
    induction IH as [|[k e] m He _ IHl]; intros m0 st'; [done|]. cbn [walk_object].
    destruct (_ && _); [rewrite Hm; apply IHl|].
    specialize (He (path +:+ "." +:+ k) st'). cbn [snd] in He. destruct (walk _ _ _ e _ st') as [[got changed] st''].
    cbn in He. subst. apply IHl.
Qed.

(** The detectors an option set runs over the strings. *)
Definition scanner_of (opt : Options) (act : Action) : scanner := (newScanner opt (bool_decide (act = ActionMask))).1.

Definition start_of (opt : Options) (act : Action) : scan := (newScanner opt (bool_decide (act = ActionMask))).2.

Lemma Apply_eq v act opt :
  Apply to_lower clock v act opt =
  let '(out, _, st) := walk to_lower clock (scanner_of opt act) v (root opt) (start_of opt act) in
  if sc_timedOut st then (Err ErrRefusedDeadline, sc_res st)
  else if bool_decide (act = ActionRefuse) && (0 <? rs_Matches (sc_res st))
  then (Err (ErrRefusedKinds (Join (Kinds (sc_res st)) ", ")), sc_res st)
  else (Ok out, sc_res st).
Proof. reflexivity. Qed.

(** What an action other than masking answers. *)
Lemma Apply_cases v act opt :
  wf v -> act <> ActionMask ->
  let st := (walk to_lower clock (scanner_of opt act) v (root opt) (start_of opt act)).2 in
  Apply to_lower clock v act opt =
    (if sc_timedOut st then Err ErrRefusedDeadline
     else if bool_decide (act = ActionRefuse) && (0 <? rs_Matches (sc_res st))
     then Err (ErrRefusedKinds (Join (Kinds (sc_res st)) ", ")) else Ok v, sc_res st).
Proof.
  intros Hwf Hact. cbn zeta. rewrite Apply_eq.
  assert (Hm : s_mask (scanner_of opt act) = false).
  { unfold scanner_of, newScanner. cbn [fst s_mask]. by apply bool_decide_eq_false_2. }
  pose proof (walk_correct to_lower clock (scanner_of opt act) v Hwf (root opt) (start_of opt act)) as H.
  pose proof (walk_unmasked _ v Hm (root opt) (start_of opt act)) as Hch.
  destruct (walk _ _ _ _ _ _) as [[got changed] st]. cbn in Hch. subst changed. destruct H as [H _]. cbn [snd].
  destruct (sc_timedOut st); [done|]. destruct (_ && _); [done|]. by rewrite H.
Qed.

Lemma Apply_ok_unmasked v act opt out res :
  wf v -> act <> ActionMask -> Apply to_lower clock v act opt = (Ok out, res) ->
  out = v /\ (act = ActionRefuse -> rs_Matches res = 0).
Proof.
  intros Hwf Hact. rewrite Apply_cases by done. set (st := _.2). destruct (sc_timedOut st); [done|].
  destruct (bool_decide (act = ActionRefuse) && (0 <? rs_Matches (sc_res st))) eqn:E; [done|].
  intros [= <- <-]. split; [done|]. intros ->. rewrite bool_decide_eq_true_2 in E by done.
  rewrite andb_true_l in E. bool_prop. lia.
Qed.

(** Only masking changes a value: the other actions give back the value
    as it came in or refuse it; refusing gives it back only when the scan
    matched nothing, and allowing refuses it only when the scan ran out of
    time. *)
Theorem Apply_unmasked v act opt :
  wf v -> act <> ActionMask ->
  (forall out res, Apply to_lower clock v act opt = (Ok out, res) -> out = v /\ (act = ActionRefuse -> rs_Matches res = 0)) /\
  (forall e res, Apply to_lower clock v act opt = (Err e, res) -> act <> ActionRefuse -> e = ErrRefusedDeadline).
Proof.
  intros Hwf Hact. split; [intros out res; by apply Apply_ok_unmasked|]. intros e res.
  rewrite Apply_cases by done. set (st := _.2). destruct (sc_timedOut st); [by intros [= <- _]|].
  destruct (bool_decide (act = ActionRefuse)) eqn:E; [by bool_prop|done].
Qed.

(** C31. When the whole value was read in time, masking yields exactly the
    value with each string masked by its own matches and each field named
    for a secret replaced whole, whatever the order and the copying of the
    walk. *)
Theorem Apply_masks v opt :
  wf v ->
  let r := Apply to_lower clock v ActionMask opt in
  rs_Truncated r.2 = false ->
  r.1 = Err ErrRefusedDeadline \/ r.1 = Ok (masked to_lower (scanner_of opt ActionMask) v (root opt)).
Proof.
  intros Hwf. cbn zeta. rewrite Apply_eq.
  pose proof (walk_correct to_lower clock (scanner_of opt ActionMask) v Hwf (root opt) (start_of opt ActionMask)) as H.
  destruct (walk _ _ _ _ _ _) as [[got changed] st]. destruct H as [_ H].
  destruct (sc_timedOut st) eqn:Ht; [by left|]. rewrite (bool_decide_eq_false_2 (ActionMask = ActionRefuse)) by done.
  cbn [andb fst snd]. intros Htr. right. f_equal. by apply H.
Qed.

(** A string of the value outside the fields a secret is named by. *)
Inductive carries (sc : scanner) (s : string) : value -> Prop :=
  | carries_str : carries sc s (VStr s)
  | carries_list l v : v ∈ l -> carries sc s v -> carries sc s (VList l)
  | carries_map m k v : (k, v) ∈ m -> secret_field to_lower sc k = false -> carries sc s v -> carries sc s (VMap m).

Lemma carries_count sc s v path :
  carries sc s v -> exists path', length (string_hits sc s path') <= count to_lower sc v path.
Proof.
  intros H. revert path. induction H as [|l v Hin _ IH|m k v Hin Hk _ IH]; intros path.
  - by exists path.
  - rewrite count_list. generalize 0. induction l as [|e l IHl]; intros i; [by apply not_elem_of_nil in Hin|].
    cbn [count_elems]. apply elem_of_cons in Hin as [->|Hin].
    + destruct (IH (elem_path path i)) as [p Hp]. exists p. lia.
    + destruct (IHl Hin (S i)) as [p Hp]. exists p. lia.
  - destruct (IH (path +:+ "." +:+ k)) as [p Hp]. exists p. rewrite count_map.
    induction m as [|[k' v'] m IHm]; [by apply not_elem_of_nil in Hin|]. rewrite count_entries_cons.
    apply elem_of_cons in Hin as [[= <- <-]|Hin].
    + cbn [count_entry]. rewrite Hk. lia.
    + specialize (IHm Hin). lia.
Qed.

(** A scan that says clean is one: if it saw no match, was not cut short
    and finished in time, then no detector finds anything in any string of
    the value, the fields named for a secret excepted, and of those there
    are none. *)
Theorem clean_scan_is_clean v act opt out res :
  wf v -> Apply to_lower clock v act opt = (Ok out, res) -> Clean res = true ->
  forall s d, carries (scanner_of opt act) s v -> s <> "" -> d ∈ s_detectors (scanner_of opt act) ->
  d_Find d (bytes_of s) = [].
Proof.
  intros Hwf. rewrite Apply_eq.
  pose proof (walk_correct to_lower clock (scanner_of opt act) v Hwf (root opt) (start_of opt act)) as H.
  destruct (walk _ _ _ _ _ _) as [[got changed] st]. destruct H as [_ H].
  destruct (sc_timedOut st) eqn:Ht; [done|]. intros Hr Hclean.
  assert (res = sc_res st) as -> by (by destruct (_ && _); injection Hr).
  unfold Clean in Hclean. bool_prop. destruct H as (_ & _ & Hc); [by split|]. unfold matches in Hc.
  intros s d Hs Hne Hd. apply (carries_count _ _ _ (root opt)) in Hs as [p Hp].
  assert (Hnil : string_hits (scanner_of opt act) s p = []) by (apply length_zero_iff_nil; lia).
  unfold string_hits in Hnil. rewrite bool_decide_eq_false_2 in Hnil by done.
  assert (Hdn : detector_hits d (bytes_of s) p (length (bytes_of s)) = []).
  { apply concat_nil_Forall in Hnil. rewrite List.Forall_forall in Hnil. apply Hnil, in_map_iff. exists d.
    split; [done|by apply list_elem_of_In]. }
  unfold detector_hits in Hdn. destruct (d_Find d (bytes_of s)) as [|m ms]; [done|].
  by destruct (maxFindings <? _).
Qed.
End promises.

Lemma string_of_bytes l : bytes_of (string_of l) = l.
Proof. unfold bytes_of, string_of. apply String.list_ascii_of_string_of_list_ascii. Qed.

#[export] Instance hit_le_trans : Transitive hit_le.
Proof. intros a b c. unfold hit_le. lia. Qed.

#[export] Instance hit_le_total : Total hit_le.
Proof. intros a b. unfold hit_le. lia. Qed.

Lemma sort_hits_sorted hits : StronglySorted (fun a b => f_Start a <= f_Start b) (sort_hits hits).
Proof.
  assert (StronglySorted hit_le (sort_hits hits)) as H.
  { apply (StronglySorted_merge_sort hit_le). }
  induction H as [|h l _ IH Hh]; constructor; [done|]. eapply Forall_impl; [exact Hh|].
  intros x Hx. unfold hit_le in Hx. lia.
Qed.

(** A string of a mask: no byte of a match is left in it. *)
Lemma masked_text_hides sc s path :
  s_mask sc = true -> s <> "" ->
  (forall d m, d ∈ s_detectors sc -> m ∈ d_Find d (bytes_of s) -> in_bounds (bytes_of s) m) ->
  exists pcs, bytes_of (masked_text sc s path) = render (bytes_of s) pcs /\
    forall d m p, d ∈ s_detectors sc -> m ∈ d_Find d (bytes_of s) -> m_Start m <= p < m_End m -> p ∉ kept pcs.
Proof.
  intros Hm Hs Hb. set (hits := string_hits sc s path).
  assert (Hhits : forall h, h ∈ hits <-> exists d, d ∈ s_detectors sc /\ h ∈ detector_hits d (bytes_of s) path (length (bytes_of s))).
  { intros h. unfold hits, string_hits. rewrite bool_decide_eq_false_2 by done.
    rewrite list_elem_of_In, in_concat. split.
    - intros (l & Hl & Hh). apply in_map_iff in Hl as (d & <- & Hd). exists d. by rewrite !list_elem_of_In.
    - intros (d & Hd & Hh). exists (detector_hits d (bytes_of s) path (length (bytes_of s))).
      rewrite <-!list_elem_of_In in *. split; [|done]. rewrite list_elem_of_In. apply in_map_iff. exists d. by rewrite <-list_elem_of_In. }
  assert (Hdet : forall d h, d ∈ s_detectors sc -> h ∈ detector_hits d (bytes_of s) path (length (bytes_of s)) -> hit_ok (length (bytes_of s)) h).
  { intros d h Hd Hh. unfold detector_hits in Hh. destruct (d_Find d (bytes_of s)) as [|m0 ms] eqn:E; [by apply not_elem_of_nil in Hh|].
    destruct (maxFindings <? _).
    - apply list_elem_of_singleton in Hh as ->. unfold hit_ok. cbn [f_Start f_End]. lia.
    - apply list_elem_of_In, in_map_iff in Hh as (m & <- & Hin). apply (Hb d m Hd). rewrite E. by apply list_elem_of_In. }
  assert (Hcov : forall d m p, d ∈ s_detectors sc -> m ∈ d_Find d (bytes_of s) -> m_Start m <= p < m_End m -> covered hits p = true).
  { intros d m p Hd Hin Hp. apply covered_true. pose proof (Hb d m Hd Hin) as Hok. unfold in_bounds in Hok.
    unfold detector_hits in *. destruct (d_Find d (bytes_of s)) as [|m0 ms] eqn:E; [by apply not_elem_of_nil in Hin|].
    setoid_rewrite Hhits. destruct (maxFindings <? length (m0 :: ms)) eqn:Hc.
    - exists (mkFinding (d_Name d) ruleTooMany (d_Kind d) (m_Confidence m0) path 0 (length (bytes_of s))).
      split; [|cbn [f_Start f_End]; lia]. exists d. split; [done|]. rewrite E, Hc. by left.
    - exists (mkFinding (d_Name d) (m_Rule m) (d_Kind d) (m_Confidence m) path (m_Start m) (m_End m)).
      split; [|done]. exists d. split; [done|]. rewrite E, Hc. apply list_elem_of_In, in_map_iff. exists m.
      split; [done|by apply list_elem_of_In]. }
  unfold masked_text. fold hits. destruct hits as [|h hs] eqn:Eh.
  - exists (map Keep (seq 0 (length (bytes_of s)))). split; [by rewrite render_keep, slice_all by lia|].
    intros d m p Hd Hin Hp. by specialize (Hcov d m p Hd Hin Hp).
  - rewrite Hm, string_of_bytes. rewrite <-Eh in *.
    exists (layout (leaders 0 (sort_hits hits)) (sort_hits hits) (length (bytes_of s)) 0). split.
    + apply mask_loop_spec; [done|lia|apply sort_hits_sorted|]. intros x Hx. unfold sort_hits in Hx.
      rewrite merge_sort_Permutation in Hx. split; [lia|]. apply Hhits in Hx as (d & Hd & Hx). by eapply Hdet.
    + intros d m p Hd Hin Hp Hk%layout_kept. assert (Hc : covered (sort_hits hits) p = true); [|congruence].
      apply covered_true. destruct (proj1 (covered_true hits p)) as (x & Hx & ?); [by apply (Hcov d m p)|].
      exists x. split; [|done]. unfold sort_hits. by rewrite merge_sort_Permutation.
Qed.

(** Masking with the built-in detectors leaves no byte of a match: in
    any string the whole of which is read, every byte that any of them
    claims is gone from the masked string, which otherwise is the string
    with tokens in place of what was taken out. *)
Theorem builtins_mask_hides sc s path :
  s_mask sc = true -> s <> "" -> (forall d, d ∈ s_detectors sc -> d ∈ builtins) ->
  exists pcs, bytes_of (masked_text sc s path) = render (bytes_of s) pcs /\
    forall d m p, d ∈ s_detectors sc -> m ∈ d_Find d (bytes_of s) -> m_Start m <= p < m_End m -> p ∉ kept pcs.
Proof.
  intros Hm Hs Hd. apply masked_text_hides; [done|done|]. intros d m Hin. by apply builtins_in_bounds, Hd.
Qed.

Definition mask_all : scanner := scanner_of (mkOptions [] 0 "" None) ActionMask.

Lemma builtins_mask_hides_witness :
  exists pcs, bytes_of (masked_text mask_all "mail a@b.co now" "$") = render (bytes_of "mail a@b.co now") pcs /\ 7 ∉ kept pcs.
Proof.
  destruct (builtins_mask_hides mask_all "mail a@b.co now" "$") as (pcs & H1 & H2); [reflexivity|discriminate| |].
  - intros d Hd. apply list_elem_of_In, filter_In in Hd as [Hd _]. by apply list_elem_of_In.
  - exists pcs. split; [exact H1|]. apply (H2 (pattern_Detector email) (mkMatch 5 11 ConfidenceHigh "address")).
    + apply list_elem_of_In, filter_In. split; [|reflexivity]. right. right. by left.
    + apply list_elem_of_In. vm_compute. by left.
    + cbn. lia.
Defined.

Definition all_builtins : Options := mkOptions [] 0 "" None.

Lemma Apply_unmasked_witness :
  fst (Apply id (fun _ => 0%Z) (VStr "hello") ActionRefuse all_builtins) = Ok (VStr "hello") /\ VStr "hello" = VStr "hello".
Proof.
  split; [vm_compute; reflexivity|].
  apply (proj1 (Apply_unmasked id (fun _ => 0%Z) (VStr "hello") ActionRefuse all_builtins I ltac:(discriminate))
    (VStr "hello") (mkResult [] 0 5 false)). vm_compute. reflexivity.
Defined.

Definition login : value := VMap [("password", VStr "x"); ("to", VStr "a@b.co")].

Lemma login_wf : wf login.
Proof. repeat constructor. Qed.

Lemma Apply_masks_witness :
  fst (Apply id (fun _ => 0%Z) login ActionMask all_builtins) =
  Ok (VMap [("password", VStr "<redacted:credential>"); ("to", VStr "<redacted:email>")]).
Proof.
  destruct (Apply_masks id (fun _ => 0%Z) login all_builtins login_wf) as [H|H];
    [vm_compute; reflexivity|exfalso; revert H; vm_compute; discriminate|].
  rewrite H. vm_compute. reflexivity.
Defined.

Lemma clean_scan_is_clean_witness : d_Find (pattern_Detector email) (bytes_of "hello") = [].
Proof.
  apply (clean_scan_is_clean id (fun _ => 0%Z) (VList [VStr "hello"]) ActionAllow all_builtins
    (VList [VStr "hello"]) (mkResult [] 0 5 false)) with (s := "hello").
  - by split.
  - vm_compute. reflexivity.
  - reflexivity.
  - eapply carries_list; [by left|constructor].
  - discriminate.
  - apply list_elem_of_In, filter_In. split; [|reflexivity]. right. right. by left.
Defined.
