(* ===== verification/Tmpl.v ===== *)
(** * Tmpl: placeholders in templates

    [pkg/tmpl/tmpl.go]: the only place [{{namespace.path | filter}}] is
    interpreted.  A string is cut at its placeholders, each is looked up and
    run through its filters, and the result is spliced back: into a value, a
    URL path (escaped) or a SQL statement (as bind placeholders).  What
    encodes and decodes JSON and prints a float is an argument, as is the
    Unicode case mapping.  A Go run-time panic is a value of the error
    type. *)
From S2P Require Import Prelude GoStrings Float64 Regex Values.

Open Scope list_scope.

Record Filter : Type := mkFilter { fl_Name : string; fl_Arg : string }.

Record Ref : Type := mkRef { r_NS : string; r_Path : list string; r_Filters : list Filter; r_raw : string }.

Record Vars : Type := mkVars {
  v_Params : list (string * value);
  v_Env : gmap string string;
  v_Caller : gmap string string;
  v_Auth : gmap string string;
  v_Req : gmap string string;
}.

Inductive Mode : Type := Value | Path | Strict.

#[export] Instance Mode_eq_dec : EqDecision Mode.
Proof. solve_decision. Defined.

Inductive Dialect : Type := Postgres | MySQL | MSSQL | Oracle | SQLite.

(** The errors, by what their message says; [At] is the prefix [RenderValue]
    puts before the error of a map's entry. *)
Inductive tmpl_error : Type :=
  | Unterminated (at_ : nat) (shown : string)
  | NotDotted (raw : string)
  | UnknownNamespace (raw ns : string)
  | TakesNoArgument (raw name : string)
  | UnknownFilter (raw name : string)
  | ErrUnset (which : string)
  | Encoding (why : string)
  | At (key : string) (e : tmpl_error)
  | Panic.

(** The double quote, and the two delimiters. *)
Definition dq : string := String (ascii_of_nat 34) "".
Definition opening : string := "{{".
Definition closing : string := "}}".

Definition truncate (s : string) : string := if 60 <? String.length s then str_take 57 s +:+ "..." else s.

(** [s[a:b]], which panics when the bounds are out of order or of range. *)
Definition slice_str (s : string) (a b : Z) : result tmpl_error string :=
  if ((0 <=? a) && (a <=? b) && (b <=? Z.of_nat (String.length s)))%Z
  then Ok (str_take (Z.to_nat (b - a)) (str_drop (Z.to_nat a) s)) else Err Panic.

Definition slen (s : string) : Z := Z.of_nat (String.length s).

(** ** Parsing *)

Definition namespaces : list string := ["params"; "env"; "caller"; "auth"; "req"].

Definition plain_filters : list string := ["raw"; "json"; "urlencode"; "base64"; "upper"; "lower"].

Definition member (x : string) (l : list string) : bool := existsb (String.eqb x) l.

Fixpoint parse_filters (raw : string) (parts : list string) : result tmpl_error (list Filter) :=
  match parts with
  | [] => Ok []
  | f :: parts =>
      let '(name, arg, _) := Cut (TrimSpace f) ":" in
      if member name plain_filters && negb (String.eqb arg "")
      then Err (TakesNoArgument raw name)
      else if negb (member name plain_filters) && negb (member name ["default"; "join"])
      then Err (UnknownFilter raw name)
      else rest ← parse_filters raw parts; Ok (mkFilter name arg :: rest)
  end.

Definition parseRef (raw : string) : result tmpl_error Ref :=
  inner ← slice_str raw 2 (slen raw - 2);
  let body := TrimSpace inner in
  if HasPrefix body dq && HasSuffix body dq then
    text ← slice_str body 1 (slen body - 1);
    Ok (mkRef "literal" [text] [] raw)
  else
    let parts := Split body "|" in
    let head := TrimSpace (hd "" parts) in
    let '(ns, path, ok) := Cut head "." in
    if negb ok || String.eqb ns "" || String.eqb path ""
    then Err (NotDotted raw)
    else if negb (member ns namespaces)
    then Err (UnknownNamespace raw ns)
    else filters ← parse_filters raw (tl parts); Ok (mkRef ns (Split path ".") filters raw).

(** The loop from [s[i:]]; every placeholder takes at least four bytes, so
    the length is fuel enough. *)
Fixpoint refs_from (fuel : nat) (s : string) (i : nat) : result tmpl_error (list Ref) :=
  match fuel with
  | 0 => Ok []
  | S fuel =>
      match Index (str_drop i s) opening with
      | None => Ok []
      | Some at_ =>
          let start := at_ + i in
          match Index (str_drop start s) closing with
          | None => Err (Unterminated start (truncate s))
          | Some e =>
              ref ← parseRef (str_take (e + 2) (str_drop start s));
              rest ← refs_from fuel s (start + e + 2);
              Ok (ref :: rest)
          end
      end
  end.

Definition Refs (s : string) : result tmpl_error (list Ref) := refs_from (S (String.length s)) s 0.

(** ** Looking up *)

Definition strMap (m : gmap string string) (path : list string) : option value :=
  match path with
  | [k] => VStr <$> m !! k
  | _ => None
  end.

Definition step_into (cur : value) (p : string) : option value :=
  match cur with
  | VMap m => obj_get m p
  | VList l => match Atoi p with
               | Some i => if (i <? 0)%Z then None else l !! Z.to_nat i
               | None => None
               end
  | _ => None
  end.

Definition walk_path (m : list (string * value)) (path : list string) : option value :=
  match foldl (fun cur p => match cur with Some cur => step_into cur p | None => None end) (Some (VMap m)) path with
  | Some VNil => None
  | r => r
  end.

Definition lookup_ref (v : Vars) (r : Ref) : option value :=
  if String.eqb (r_NS r) "literal" then Some (VStr (hd "" (r_Path r)))
  else if String.eqb (r_NS r) "params" then walk_path (v_Params v) (r_Path r)
  else if String.eqb (r_NS r) "env" then strMap (v_Env v) (r_Path r)
  else if String.eqb (r_NS r) "caller" then strMap (v_Caller v) (r_Path r)
  else if String.eqb (r_NS r) "auth" then strMap (v_Auth v) (r_Path r)
  else if String.eqb (r_NS r) "req" then strMap (v_Req v) (r_Path r)
  else None.

(** ** Escaping *)

Definition hex_digit (n : Z) : ascii := ascii_of_nat (Z.to_nat (if (n <? 10)%Z then (48 + n)%Z else (55 + n)%Z)).

Definition percent (c : ascii) : string :=
  String "%" (String (hex_digit (byte_val c / 16)) (String (hex_digit (byte_val c mod 16)) "")).

Definition unreserved (c : ascii) : bool := is_alnum c || one_of (bytes_of "-_.~") c.

(** [url.PathEscape] keeps the reserved characters a segment may hold. *)
Definition path_kept (c : ascii) : bool := unreserved c || one_of (bytes_of "$&+:=@") c.

Fixpoint PathEscape (s : string) : string :=
  match s with
  | "" => ""
  | String c s => (if path_kept c then String c "" else percent c) +:+ PathEscape s
  end.

Fixpoint QueryEscape (s : string) : string :=
  match s with
  | "" => ""
  | String c s =>
      (if unreserved c then String c "" else if Ascii.eqb c " " then "+" else percent c) +:+ QueryEscape s
  end.

Definition escapeSegment (s : string) : string := PathEscape s.

(** [base64.StdEncoding]. *)
Definition base64_char (n : Z) : ascii :=
  ascii_of_nat (Z.to_nat (if (n <? 26)%Z then 65 + n else if (n <? 52)%Z then 71 + n else if (n <? 62)%Z then n - 4
                          else if (n =? 62)%Z then 43 else 47)%Z).

Fixpoint base64_encode (s : list ascii) : string :=
  match s with
  | a :: b :: c :: s =>
      let n := (byte_val a * 65536 + byte_val b * 256 + byte_val c)%Z in
      String (base64_char (n / 262144)) (String (base64_char ((n / 4096) mod 64))
        (String (base64_char ((n / 64) mod 64)) (String (base64_char (n mod 64)) (base64_encode s))))
  | [a; b] =>
      let n := (byte_val a * 65536 + byte_val b * 256)%Z in
      String (base64_char (n / 262144)) (String (base64_char ((n / 4096) mod 64)) (String (base64_char ((n / 64) mod 64)) "="))
  | [a] =>
      let n := (byte_val a * 65536)%Z in
      String (base64_char (n / 262144)) (String (base64_char ((n / 4096) mod 64)) "==")
  | [] => ""
  end.

(** ** Rendering *)

(** [==] on float64. *)
Definition f_eqb (a b : float64) : bool := SpecFloat.SFeqb a b.

Section render.
(** [json.Marshal], [json.Unmarshal] into [any], [strconv.FormatFloat(x,
    'f', -1, 64)] and the Unicode case mappings. *)
Context (marshal : value -> result string string) (unmarshal : string -> option value)
  (format_float : float64 -> string) (lower upper : string -> string).

Definition Stringify (v : value) : string :=
  match v with
  | VNil => ""
  | VStr s => s
  | VBool b => if b then "true" else "false"
  | VFloat x => if f_eqb x (f_of_Z (Z_of_f x)) then Itoa (Z_of_f x) else format_float x
  | VInt n => Itoa n
  | VNumber s => s
  | VList _ | VMap _ | VTyped _ => match marshal v with Ok b => b | Err _ => "" end
  end.

(** One stage of the pipe: the value, whether it is set, whether [raw] was
    seen.  The value of an unset reference is [VNil]. *)
Definition apply_filter (f : Filter) (st : value * bool * bool) : result tmpl_error (value * bool * bool) :=
  let '(val, ok, raw) := st in
  let n := fl_Name f in
  if String.eqb n "default" then
    if ok then Ok st else Ok (match unmarshal (fl_Arg f) with Some d => d | None => VStr (fl_Arg f) end, true, raw)
  else if String.eqb n "raw" then Ok (val, ok, true)
  else if negb ok then Ok st
  else if String.eqb n "json" then
    match marshal val with Ok b => Ok (VStr b, ok, raw) | Err e => Err (Encoding e) end
  else if String.eqb n "urlencode" then Ok (VStr (QueryEscape (Stringify val)), ok, raw)
  else if String.eqb n "base64" then Ok (VStr (base64_encode (bytes_of (Stringify val))), ok, raw)
  else if String.eqb n "upper" then Ok (VStr (ToUpper upper (Stringify val)), ok, raw)
  else if String.eqb n "lower" then Ok (VStr (ToLower lower (Stringify val)), ok, raw)
  else if String.eqb n "join" then
    match val with
    | VList l => Ok (VStr (Join (map Stringify l) (if String.eqb (fl_Arg f) "" then "," else fl_Arg f)), ok, raw)
    | _ => Ok st
    end
  else Ok st.

Fixpoint run_filters (fs : list Filter) (st : value * bool * bool) : result tmpl_error (value * bool * bool) :=
  match fs with
  | [] => Ok st
  | f :: fs => st ← apply_filter f st; run_filters fs st
  end.

Definition applyFilters (val : option value) (fs : list Filter) : result tmpl_error (value * bool * bool) :=
  run_filters fs (match val with Some v => (v, true, false) | None => (VNil, false, false) end).

(** A reference's value, after its filters. *)
Definition resolve (vars : Vars) (r : Ref) : result tmpl_error (value * bool * bool) :=
  applyFilters (lookup_ref vars r) (r_Filters r).

(** The text before the next placeholder and after it: [strings.Index] finds
    it, and slicing at -1 would panic. *)
Definition cut_at (tail raw : string) : result tmpl_error (string * string) :=
  match Index tail raw with
  | Some at_ => Ok (str_take at_ tail, str_drop (at_ + String.length raw) tail)
  | None => Err Panic
  end.

(** The interpolation loop of [Render]: the text so far and what is unset. *)
Fixpoint interpolate (vars : Vars) (mode : Mode) (refs : list Ref) (tail : string) (sb : string) (missing : list string) :
    result tmpl_error (string * list string) :=
  match refs with
  | [] => Ok (sb +:+ tail, missing)
  | r :: refs =>
      cut ← cut_at tail (r_raw r);
      let '(lit, tail) := (cut : string * string) in
      st ← resolve vars r;
      let '(val, present, raw) := (st : value * bool * bool) in
      if negb present then interpolate vars mode refs tail (sb +:+ lit) (missing ++ [r_raw r])
      else if bool_decide (mode = Path) && negb raw
      then interpolate vars mode refs tail (sb +:+ lit +:+ escapeSegment (Stringify val)) missing
      else interpolate vars mode refs tail (sb +:+ lit +:+ Stringify val) missing
  end.

(** [Render]; [Ok None] is the unset result of [Value] mode. *)
Definition Render (s : string) (vars : Vars) (mode : Mode) : result tmpl_error (option value) :=
  refs ← Refs s;
  match refs with
  | [] => Ok (Some (VStr s))
  | [r] =>
      if String.eqb (r_raw r) s then
        st ← resolve vars r;
        let '(val, present, raw) := (st : value * bool * bool) in
        if negb present
        then if decide (mode = Value) then Ok None else Err (ErrUnset (r_raw r))
        else if bool_decide (mode = Path) && negb raw then Ok (Some (VStr (escapeSegment (Stringify val))))
        else if bool_decide (mode = Path) then Ok (Some (VStr (Stringify val)))
        else Ok (Some val)
      else
        res ← interpolate vars mode refs s "" [];
        let '(text, missing) := (res : string * list string) in
        match missing with
        | [] => Ok (Some (VStr text))
        | _ => if decide (mode = Value) then Ok None else Err (ErrUnset (Join missing ", "))
        end
  | _ =>
      res ← interpolate vars mode refs s "" [];
      let '(text, missing) := (res : string * list string) in
      match missing with
      | [] => Ok (Some (VStr text))
      | _ => if decide (mode = Value) then Ok None else Err (ErrUnset (Join missing ", "))
      end
  end.

Definition RenderString (s : string) (vars : Vars) (mode : Mode) : result tmpl_error string :=
  r ← Render s vars mode;
  match r with Some v => Ok (Stringify v) | None => Err (ErrUnset "") end.

(** [RenderValue]; [None] is the unset marker.  Go ranges over a map in no
    order, which decides only which of several errors is reported. *)
Fixpoint RenderValue (vars : Vars) (v : value) : result tmpl_error (option value) :=
  match v with
  | VStr s => Render s vars Value
  | VMap m =>
      let fix go m := match m with
                      | [] => Ok []
                      | (k, e) :: m =>
                          r ← (match RenderValue vars e with Err Panic => Err Panic | Err e => Err (At k e) | Ok r => Ok r end);
                          rest ← go m;
                          Ok (match r with Some r => (k, r) :: rest | None => rest end)
                      end in
      out ← go m; Ok (Some (VMap out))
  | VList l =>
      let fix go l := match l with
                      | [] => Ok []
                      | e :: l =>
                          r ← RenderValue vars e;
                          rest ← go l;
                          Ok (match r with Some r => r :: rest | None => rest end)
                      end in
      out ← go l; Ok (Some (VList out))
  | _ => Ok (Some v)
  end.

(** ** SQL *)

Definition bind_mark (d : Dialect) (n : nat) : string :=
  match d with
  | Postgres => "$" +:+ Itoa (Z.of_nat n)
  | MSSQL => "@p" +:+ Itoa (Z.of_nat n - 1)
  | Oracle => ":b" +:+ Itoa (Z.of_nat n - 1)
  | MySQL | SQLite => "?"
  end.

Fixpoint sql_loop (vars : Vars) (d : Dialect) (refs : list Ref) (tail sb : string) (args : list value) :
    result tmpl_error (string * list value) :=
  match refs with
  | [] => Ok (sb +:+ tail, args)
  | r :: refs =>
      cut ← cut_at tail (r_raw r);
      let '(lit, tail) := (cut : string * string) in
      st ← resolve vars r;
      let '(val, present, raw) := (st : value * bool * bool) in
      if negb (String.eqb (r_NS r) "params") || raw then
        if negb present then Err (ErrUnset (r_raw r))
        else sql_loop vars d refs tail (sb +:+ lit +:+ Stringify val) args
      else
        let args := args ++ [if present then val else VNil] in
        sql_loop vars d refs tail (sb +:+ lit +:+ bind_mark d (length args)) args
  end.

Definition SQL (stmt : string) (vars : Vars) (d : Dialect) : result tmpl_error (string * list value) :=
  refs ← Refs stmt;
  sql_loop vars d refs stmt "" [].
End render.

(** [Names]: the distinct references, sorted; none of a malformed string. *)
Definition ref_name (r : Ref) : string := r_NS r +:+ "." +:+ Join (r_Path r) ".".

Definition Names (s : string) : list string :=
  let refs := match Refs s with Ok refs => refs | Err _ => [] end in
  merge_sort String.le (remove_dups (map ref_name (List.filter (fun r => negb (String.eqb (r_NS r) "literal")) refs))).

(** ** Where the placeholders are *)

Lemma Index_spec s sub n : Index s sub = Some n ->
  n + String.length sub <= String.length s /\ String.prefix sub (str_drop n s) = true /\
  (forall m, m < n -> String.prefix sub (str_drop m s) = false).
Proof.
  revert n; induction s as [|c s IH]; intros n; cbn [Index].
  - destruct (String.prefix sub "") eqn:E; [|done]. intros [= <-]. split_and!; [|done|lia].
    apply prefix_true in E as [u E]. by destruct sub.
  - destruct (String.prefix sub (String c s)) eqn:E.
    + intros [= <-]. split_and!; [|done|lia]. apply prefix_true in E as [u ->]. rewrite length_app_str. lia.
    + destruct (Index s sub) as [k|]; [|done]. cbn. intros [= <-]. destruct (IH k eq_refl) as (H1 & H2 & H3).
      split_and!; [cbn; lia|done|]. intros [|m] Hm; [done|]. apply H3. lia.
Qed.

Lemma Index_first s sub n :
  n <= String.length s -> String.prefix sub (str_drop n s) = true ->
  (forall m, m < n -> String.prefix sub (str_drop m s) = false) -> Index s sub = Some n.
Proof.
  revert n; induction s as [|c s IH]; intros n Hl Hp Hf.
  - replace n with 0 in * by (cbn in Hl; lia). cbn [Index]. by rewrite (Hp : String.prefix sub "" = true).
  - cbn [Index]. destruct n as [|n]; [by rewrite (Hp : String.prefix sub (String c s) = true)|].
    rewrite (Hf 0 ltac:(lia) : String.prefix sub (String c s) = false).
    rewrite (IH n); [done|cbn in Hl; lia|done|]. intros m Hm. apply (Hf (S m)). lia.
Qed.

Lemma str_drop_drop n m s : str_drop m (str_drop n s) = str_drop (n + m) s.
Proof. revert s; induction n as [|n IH]; intros s; [done|]. destruct s as [|c s]; [by destruct m|]. apply IH. Qed.

Lemma prefix_take n s : String.prefix (str_take n s) s = true.
Proof. rewrite <-(str_take_drop n s) at 2. apply prefix_app. Qed.

Lemma prefix_trans p q s : String.prefix p q = true -> String.prefix q s = true -> String.prefix p s = true.
Proof. intros [u ->]%prefix_true [v ->]%prefix_true. rewrite app_assoc_str. apply prefix_app. Qed.

Lemma prefix_take_le n p s : String.length p <= n -> String.prefix p s = true -> String.prefix p (str_take n s) = true.
Proof.
  intros Hn [u ->]%prefix_true. revert n Hn. induction p as [|c p IH]; intros n Hn; [by destruct (str_take _ _)|].
  destruct n as [|n]; [cbn in Hn; lia|]. rewrite app_cons_str. cbn. destruct (ascii_dec c c); [|done]. apply IH. cbn in Hn. lia.
Qed.

Lemma parseRef_raw raw r : parseRef raw = Ok r -> r_raw r = raw.
Proof.
  unfold parseRef. destruct (slice_str raw _ _) as [inner|e]; [|done]. cbn.
  destruct (HasPrefix _ _ && _).
  - destruct (slice_str _ _ _) as [t|e]; [|done]. cbn. by intros [= <-].
  - destruct (Cut _ _) as [[ns path] ok]. destruct (_ || _); [done|]. destruct (negb _); [done|].
    destruct (parse_filters raw _) as [fs|e]; [|done]. cbn. by intros [= <-].
Qed.

(** A string cut at its placeholders: the text before each, and the rest. *)
Inductive segments : string -> list (string * Ref) -> string -> Prop :=
  | seg_end tail : Index tail opening = None -> segments tail [] tail
  | seg_ref lit r tail segs rest :
      Index (lit +:+ r_raw r +:+ tail) opening = Some (String.length lit) ->
      Index (lit +:+ r_raw r +:+ tail) (r_raw r) = Some (String.length lit) ->
      segments tail segs rest -> segments (lit +:+ r_raw r +:+ tail) ((lit, r) :: segs) rest.

Lemma refs_from_segments fuel s i refs :
  refs_from fuel s i = Ok refs -> String.length s < fuel + i -> i <= String.length s ->
  exists segs rest, segments (str_drop i s) segs rest /\ refs = map snd segs.
Proof.
  revert i refs; induction fuel as [|fuel IH]; intros i refs; cbn [refs_from]; [lia|].
  set (tail := str_drop i s). destruct (Index tail opening) as [at_|] eqn:Ho.
  2: { intros [= <-] _ _. exists [], tail. split; [by constructor|done]. }
  destruct (Index (str_drop (at_ + i) s) closing) as [e|] eqn:Hc; [|done].
  intros H Hf Hi. apply Index_spec in Ho as Ho'. destruct Ho' as (Hol & Hop & Hof).
  apply Index_spec in Hc as (Hcl & _ & _). change (String.length opening) with 2 in Hol. change (String.length closing) with 2 in Hcl.
  assert (Hd : str_drop (at_ + i) s = str_drop at_ tail) by (unfold tail; rewrite str_drop_drop; f_equal; lia).
  rewrite Hd in *. rewrite length_str_drop in Hcl. set (raw := str_take (e + 2) (str_drop at_ tail)) in *.
  destruct (parseRef raw) as [r|err] eqn:Hp; [|done]. cbn in H. apply parseRef_raw in Hp.
  destruct (refs_from fuel s (at_ + i + e + 2)) as [rest|err] eqn:Hr; [|done]. cbn in H. injection H as <-.
  assert (Htl : String.length tail = String.length s - i) by (unfold tail; apply length_str_drop).
  apply IH in Hr as (segs & last & Hs & ->); [|lia|lia].
  assert (Htail : tail = str_take at_ tail +:+ raw +:+ str_drop (at_ + i + e + 2) s).
  { rewrite <-(str_take_drop at_ tail) at 1. f_equal. unfold raw.
    rewrite <-(str_take_drop (e + 2) (str_drop at_ tail)) at 1. f_equal.
    rewrite str_drop_drop. unfold tail. rewrite str_drop_drop. f_equal. lia. }
  assert (Hlit : String.length (str_take at_ tail) = at_) by (apply length_str_take; lia).
  exists ((str_take at_ tail, r) :: segs), last. split; [|done]. rewrite Htail at 1. rewrite <-Hp.
  apply seg_ref; [| |done]; rewrite Hp, <-Htail, Hlit; [done|].
  apply Index_first; [lia|apply prefix_take|].
  intros m Hm. apply not_true_iff_false. intros Hpre. specialize (Hof m Hm). apply not_true_iff_false in Hof. apply Hof.
  eapply prefix_trans; [|exact Hpre]. unfold raw. apply prefix_take_le; [cbn; lia|]. exact Hop.
Qed.

Lemma Refs_segments s refs : Refs s = Ok refs -> exists segs rest, segments s segs rest /\ refs = map snd segs.
Proof. intros H. apply refs_from_segments in H; [done|lia|lia]. Qed.

(** The search of the splicing loops finds each placeholder where it was parsed. *)
Lemma cut_at_segment lit r tail :
  Index (lit +:+ r_raw r +:+ tail) (r_raw r) = Some (String.length lit) ->
  cut_at (lit +:+ r_raw r +:+ tail) (r_raw r) = Ok (lit, tail).
Proof.
  intros H. unfold cut_at. rewrite H. rewrite str_take_app. f_equal. f_equal.
  rewrite <-app_assoc_str, <-length_app_str. apply str_drop_app.
Qed.

(** ** What rendering promises *)

Section promises.
Context (marshal : value -> result string string) (unmarshal : string -> option value)
  (format_float : float64 -> string) (lower upper : string -> string).

Abbreviation apply_filter := (apply_filter marshal unmarshal format_float lower upper).
Abbreviation run_filters := (run_filters marshal unmarshal format_float lower upper).
Abbreviation resolve := (resolve marshal unmarshal format_float lower upper).
Abbreviation Stringify := (Stringify marshal format_float).
Abbreviation interpolate := (interpolate marshal unmarshal format_float lower upper).
Abbreviation Render := (Render marshal unmarshal format_float lower upper).
Abbreviation sql_loop := (sql_loop marshal unmarshal format_float lower upper).
Abbreviation SQL := (SQL marshal unmarshal format_float lower upper).

Definition has_raw (r : Ref) : bool := existsb (fun f => String.eqb (fl_Name f) "raw") (r_Filters r).

Lemma apply_filter_raw f v ok raw v' ok' raw' :
  apply_filter f (v, ok, raw) = Ok (v', ok', raw') -> raw' = raw || String.eqb (fl_Name f) "raw".
Proof.
  unfold Tmpl.apply_filter. destruct (String.eqb (fl_Name f) "default") eqn:Hd.
  { apply String.eqb_eq in Hd. rewrite Hd. destruct ok; intros [= _ _ <-]; by rewrite orb_false_r. }
  destruct (String.eqb (fl_Name f) "raw"); [intros [= _ _ <-]; by rewrite orb_true_r|]. rewrite orb_false_r.
  destruct ok; cbn [negb]; [|by intros [= _ _ <-]].
  repeat (destruct (String.eqb (fl_Name f) _); [try (destruct (marshal v)); try (destruct v); by intros ?; simplify_eq|]).
  by intros ?; simplify_eq.
Qed.

Lemma run_filters_raw fs v ok raw v' ok' raw' :
  run_filters fs (v, ok, raw) = Ok (v', ok', raw') -> raw' = raw || existsb (fun f => String.eqb (fl_Name f) "raw") fs.
Proof.
  revert v ok raw; induction fs as [|f fs IH]; intros v ok raw; cbn [Tmpl.run_filters existsb].
  { intros [= _ _ <-]. by rewrite orb_false_r. }
  destruct (apply_filter f _) as [[[v1 ok1] raw1]|e] eqn:E; [|done]. cbn. intros H%IH.
  apply apply_filter_raw in E. by rewrite H, E, orb_assoc.
Qed.

Lemma resolve_raw vars r v ok raw : resolve vars r = Ok (v, ok, raw) -> raw = has_raw r.
Proof. unfold Tmpl.resolve, applyFilters. by destruct (lookup_ref vars r); intros ->%run_filters_raw. Qed.

(** A parameter bound, not spliced. *)
Definition bound (r : Ref) : bool := String.eqb (r_NS r) "params" && negb (has_raw r).

(** Two sets of values that differ in the tool call's arguments only. *)
Definition same_operator (a b : Vars) : Prop :=
  v_Env a = v_Env b /\ v_Caller a = v_Caller b /\ v_Auth a = v_Auth b /\ v_Req a = v_Req b.

Lemma resolve_same vars vars' r :
  same_operator vars vars' -> String.eqb (r_NS r) "params" = false -> resolve vars r = resolve vars' r.
Proof.
  intros (H1 & H2 & H3 & H4) Hn. unfold Tmpl.resolve. f_equal. unfold lookup_ref. by rewrite Hn, H1, H2, H3, H4.
Qed.

Lemma sql_loop_same vars vars' d tail segs rest sb args args' t t' b b' :
  same_operator vars vars' -> segments tail segs rest ->
  (forall r, r ∈ map snd segs -> r_NS r = "params" -> has_raw r = false) -> length args = length args' ->
  sql_loop vars d (map snd segs) tail sb args = Ok (t, b) ->
  sql_loop vars' d (map snd segs) tail sb args' = Ok (t', b') ->
  t = t' /\ length b = length b' /\ length b = length args + length (List.filter bound (map snd segs)).
Proof.
  intros Hop Hs. revert sb args args'. induction Hs as [tail Hi|lit r tail segs rest Ho Hi Hs IH]; intros sb args args' Hraw Hlen.
  { cbn. intros [= <- <-] [= <- <-]. split_and!; [done|done|lia]. }
  cbn [map Tmpl.sql_loop snd]. rewrite !cut_at_segment by done. cbn [mbind result_bind].
  destruct (resolve vars r) as [[[v ok] raw]|e] eqn:E1; [|done]. cbn.
  destruct (resolve vars' r) as [[[v' ok'] raw']|e] eqn:E2; [|by intros _ [=]]. cbn.
  pose proof (resolve_raw _ _ _ _ _ E1) as ->. pose proof (resolve_raw _ _ _ _ _ E2) as ->.
  assert (Hraw' : forall r', r' ∈ map snd segs -> r_NS r' = "params" -> has_raw r' = false).
  { intros r' Hr'. apply Hraw. by right. }
  unfold bound at 1. destruct (String.eqb (r_NS r) "params") eqn:Hns; cbn [negb orb andb].
  - rewrite (Hraw r ltac:(by left)) by (by apply String.eqb_eq). cbn [negb].
    assert (Hl' : forall x y : value, length (args ++ [x]) = length (args' ++ [y])) by (intros; by rewrite !length_app, Hlen).
    rewrite !length_app, <-Hlen. intros H1 H2.
    destruct (IH _ _ _ Hraw' (Hl' _ _) H1 H2) as (-> & -> & Hl). split_and!; [done|done|].
    rewrite length_app in Hl. cbn [length List.filter] in Hl |- *. rewrite Hl. lia.
  - rewrite (resolve_same vars vars' r Hop Hns), E2 in E1. injection E1 as -> -> .
    destruct ok; cbn [negb]; [|done]. intros H1 H2. by apply (IH _ _ _ Hraw' Hlen H1 H2).
Qed.

(** C13. A tool call cannot change the statement: unless the operator wrote
    [|raw] on a parameter, the SQL text rendered for two calls is the same
    text, whatever their arguments hold, and each parameter placeholder
    binds one argument. *)
Theorem SQL_text_independent_of_params stmt refs vars vars' d t args t' args' :
  Refs stmt = Ok refs -> (forall r, r ∈ refs -> r_NS r = "params" -> has_raw r = false) -> same_operator vars vars' ->
  SQL stmt vars d = Ok (t, args) -> SQL stmt vars' d = Ok (t', args') ->
  t = t' /\ length args = length args' /\ length args = length (List.filter bound refs).
Proof.
  intros Hr Hraw Hop. unfold Tmpl.SQL. rewrite Hr. cbn. apply Refs_segments in Hr as (segs & rest & Hs & ->).
  by apply (sql_loop_same vars vars' d stmt segs rest "" [] []).
Qed.

(** ** Paths *)

Fixpoint occurrences (c : ascii) (s : string) : nat :=
  match s with "" => 0 | String x s => (if Ascii.eqb x c then 1 else 0) + occurrences c s end.

Lemma occurrences_app c s t : occurrences c (s +:+ t) = occurrences c s + occurrences c t.
Proof. induction s as [|x s IH]; [done|]. rewrite app_cons_str. cbn. rewrite IH. lia. Qed.

Lemma hex_digit_alnum n : (0 <= n < 16)%Z -> is_alnum (hex_digit n) = true.
Proof.
  intros Hn. assert (Hall : forallb (fun k => is_alnum (hex_digit (Z.of_nat k))) (seq 0 16) = true) by reflexivity.
  rewrite forallb_forall in Hall. specialize (Hall (Z.to_nat n)). rewrite Z2Nat.id in Hall by lia.
  apply Hall, in_seq. lia.
Qed.

Lemma byte_val_range c : (0 <= byte_val c < 256)%Z.
Proof. unfold byte_val. pose proof (nat_ascii_bounded c). lia. Qed.

(** What escaping a segment never lets through. *)
Lemma escapeSegment_free c s : path_kept c = false -> c <> "%"%char -> occurrences c (escapeSegment s) = 0.
Proof.
  intros Hk Hp. unfold escapeSegment. induction s as [|x s IH]; [done|]. cbn [PathEscape]. rewrite occurrences_app, IH, Nat.add_0_r.
  assert (Hal : forall y, is_alnum y = true -> Ascii.eqb y c = false).
  { intros y Hy. apply Ascii.eqb_neq. intros ->. unfold path_kept, unreserved in Hk. rewrite Hy in Hk. done. }
  destruct (path_kept x) eqn:Hx.
  - cbn. destruct (Ascii.eqb x c) eqn:E; [|done]. apply Ascii.eqb_eq in E. congruence.
  - unfold percent. cbn [occurrences]. pose proof (byte_val_range x).
    rewrite (proj2 (Ascii.eqb_neq "%"%char c)) by (by apply not_eq_sym).
    rewrite !(Hal (hex_digit _)); [done|apply hex_digit_alnum..].
    + apply Z.mod_pos_bound. lia.
    + split; [apply Z.div_pos; lia|apply Z.div_lt_upper_bound; lia].
Qed.

(** The text of a template outside its placeholders. *)
Definition literal_text (segs : list (string * Ref)) (rest : string) : string := Join (map fst segs ++ [rest]) "".

Lemma literal_text_cons lit r segs rest : literal_text ((lit, r) :: segs) rest = lit +:+ literal_text segs rest.
Proof. unfold literal_text. cbn [map fst app Join]. by destruct (map fst segs ++ [rest]) eqn:E; [by destruct (map fst segs)|]. Qed.

Lemma interpolate_path c vars tail segs rest sb missing out missing' :
  path_kept c = false -> c <> "%"%char -> segments tail segs rest ->
  (forall r, r ∈ map snd segs -> has_raw r = false) ->
  interpolate vars Path (map snd segs) tail sb missing = Ok (out, missing') ->
  occurrences c out = occurrences c sb + occurrences c (literal_text segs rest).
Proof.
  intros Hk Hp Hs. revert sb missing. induction Hs as [tail Hi|lit r tail segs rest Ho Hi Hs IH]; intros sb missing Hraw.
  { cbn. intros [= <- <-]. apply occurrences_app. }
  rewrite literal_text_cons, occurrences_app.
  cbn [map Tmpl.interpolate snd]. rewrite cut_at_segment by done. cbn [mbind result_bind].
  destruct (resolve vars r) as [[[v ok] raw]|e] eqn:E; [|done]. cbn [mbind result_bind].
  apply resolve_raw in E as ->. rewrite (Hraw r) by (by left).
  assert (Hraw' : forall r', r' ∈ map snd segs -> has_raw r' = false) by (intros r' Hr'; apply Hraw; by right).
  destruct ok; cbn [negb andb]; intros H; apply (IH _ _ Hraw') in H; rewrite H, !occurrences_app; [|lia].
  rewrite escapeSegment_free by done. lia.
Qed.

(** A parameter never adds a segment, a query or a fragment to a path: a
    template rendered for a URL path has as many slashes, question marks and
    hashes (and other bytes a segment may not hold) as its own text outside
    the placeholders, whatever the values are, unless it says [|raw]. *)
Theorem Path_keeps_structure c s refs vars out :
  path_kept c = false -> c <> "%"%char -> Refs s = Ok refs -> (forall r, r ∈ refs -> has_raw r = false) ->
  Render s vars Path = Ok (Some (VStr out)) ->
  exists segs rest, segments s segs rest /\ refs = map snd segs /\
    occurrences c out = occurrences c (literal_text segs rest).
Proof.
  intros Hk Hp Hr Hraw. unfold Tmpl.Render. rewrite Hr. cbn. apply Refs_segments in Hr as (segs & rest & Hs & ->).
  intros H. exists segs, rest. split_and!; [done|done|].
  assert (Hint : forall out0, (res ← interpolate vars Path (map snd segs) s "" [];
      let '(text, missing) := (res : string * list string) in
      match missing with [] => Ok (Some (VStr text)) | _ => if decide (Path = Value) then Ok None else Err (ErrUnset (Join missing ", ")) end)
      = Ok (Some (VStr out0)) -> occurrences c out0 = occurrences c (literal_text segs rest)).
  { intros out0. destruct (interpolate vars Path (map snd segs) s "" []) as [[text missing]|e] eqn:E; [|done]. cbn.
    destruct missing; [|done]. intros [= <-]. eapply interpolate_path in E; [|done..]. by rewrite E. }
  destruct (map snd segs) as [|r [|r' rs]] eqn:Em; [| |by apply Hint].
  - destruct segs; [|done]. injection H as <-. inversion Hs; subst. by apply Hint.
  - destruct (String.eqb (r_raw r) s) eqn:Hw; [|by apply Hint].
    destruct segs as [|[lit r0] [|? ?]]; try done. injection Em as ->.
    apply String.eqb_eq in Hw. inversion Hs as [|lit' r' tail segs' rest' Ho Hi Hs']; subst. inversion Hs'; subst.
    assert (lit = "" /\ rest = "") as [-> ->].
    { assert (Hl : String.length (lit +:+ r_raw r +:+ rest) = String.length (r_raw r)) by congruence.
      rewrite !length_app_str in Hl. split; [destruct lit|destruct rest]; [done|cbn in Hl; lia|done|cbn in Hl; lia]. }
    destruct (resolve vars r) as [[[v ok] raw]|e] eqn:E; [|done]. cbn in H. apply resolve_raw in E as ->.
    rewrite (Hraw r) in H by (by left). destruct ok; cbn in H; [|done]. injection H as <-.
    by rewrite escapeSegment_free.
Qed.

(** ** Panics *)

Lemma resolve_no_panic vars r : resolve vars r <> Err Panic.
Proof.
  unfold Tmpl.resolve, applyFilters. generalize (match lookup_ref vars r with Some v => (v, true, false) | None => (VNil, false, false) end).
  induction (r_Filters r) as [|f fs IH]; intros st; [done|]. cbn [Tmpl.run_filters].
  assert (apply_filter f st <> Err Panic).
  { unfold Tmpl.apply_filter. destruct st as [[v ok] raw]. destruct (String.eqb (fl_Name f) "default"); [by destruct ok|].
    destruct (String.eqb (fl_Name f) "raw"); [done|]. destruct ok; cbn [negb]; [|done].
    repeat (destruct (String.eqb (fl_Name f) _); [try (destruct (marshal v)); try (destruct v); done|]). done. }
  destruct (apply_filter f st) as [st'|e]; [apply IH|]. cbn. congruence.
Qed.

Lemma interpolate_no_panic vars mode tail segs rest sb missing :
  segments tail segs rest -> interpolate vars mode (map snd segs) tail sb missing <> Err Panic.
Proof.
  intros Hs. revert sb missing. induction Hs as [tail Hi|lit r tail segs rest Ho Hi Hs IH]; intros sb missing; [done|].
  cbn [map Tmpl.interpolate snd]. rewrite cut_at_segment by done. cbn [mbind result_bind].
  pose proof (resolve_no_panic vars r). destruct (resolve vars r) as [[[v ok] raw]|e]; [|cbn; congruence]. cbn.
  destruct (negb ok); [apply IH|]. destruct (_ && _); apply IH.
Qed.

Lemma sql_loop_no_panic vars d tail segs rest sb args :
  segments tail segs rest -> sql_loop vars d (map snd segs) tail sb args <> Err Panic.
Proof.
  intros Hs. revert sb args. induction Hs as [tail Hi|lit r tail segs rest Ho Hi Hs IH]; intros sb args; [done|].
  cbn [map Tmpl.sql_loop snd]. rewrite cut_at_segment by done. cbn [mbind result_bind].
  pose proof (resolve_no_panic vars r). destruct (resolve vars r) as [[[v ok] raw]|e]; [|cbn; congruence]. cbn.
  destruct (_ || raw); [|apply IH]. destruct (negb ok); [done|apply IH].
Qed.

(** Only parsing can panic: a template that parses renders, in every
    mode and to SQL, to a result or an error and never panics, because each
    placeholder is found again where it was parsed. *)
Theorem rendering_never_panics s vars mode d :
  Refs s <> Err Panic -> Render s vars mode <> Err Panic /\ SQL s vars d <> Err Panic.
Proof.
  intros Hn. unfold Tmpl.Render, Tmpl.SQL. destruct (Refs s) as [refs|e] eqn:E; [|by split; cbn; congruence]. cbn.
  apply Refs_segments in E as (segs & rest & Hs & ->). split; [|by eapply sql_loop_no_panic].
  assert (Hint : (res ← interpolate vars mode (map snd segs) s "" [];
      let '(text, missing) := (res : string * list string) in
      match missing with [] => Ok (Some (VStr text)) | _ => if decide (mode = Value) then Ok None else Err (ErrUnset (Join missing ", ")) end)
      <> Err Panic).
  { pose proof (interpolate_no_panic vars mode s segs rest "" [] Hs).
    destruct (interpolate _ _ _ _ _ _) as [[text missing]|e]; [|cbn; congruence]. cbn.
    destruct missing; [done|]. by destruct (decide (mode = Value)). }
  destruct (map snd segs) as [|r [|r' rs]]; [done| |exact Hint].
  destruct (String.eqb _ s); [|exact Hint]. pose proof (resolve_no_panic vars r).
  destruct (resolve vars r) as [[[v ok] raw]|e]; [|cbn; congruence]. cbn.
  destruct (negb ok); [by destruct (decide (mode = Value))|]. by destruct (_ && negb raw), (bool_decide (mode = Path)).
Qed.
End promises.

(** ** The panic of a lone quote *)

Lemma parse_filters_no_panic raw parts : parse_filters raw parts <> Err Panic.
Proof.
  induction parts as [|f parts IH]; [done|]. cbn [parse_filters]. destruct (Cut _ _) as [[name arg] ?].
  destruct (_ && _); [done|]. destruct (_ && _); [done|]. destruct (parse_filters raw parts); [done|]. cbn. congruence.
Qed.

Lemma slice_str_ok s a b : a <= b -> b <= String.length s ->
  slice_str s (Z.of_nat a) (Z.of_nat b) = Ok (str_take (b - a) (str_drop a s)).
Proof.
  intros H1 H2. unfold slice_str.
  assert ((0 <=? Z.of_nat a)%Z && (Z.of_nat a <=? Z.of_nat b)%Z && (Z.of_nat b <=? Z.of_nat (String.length s))%Z = true) as -> by lia.
  rewrite Nat2Z.id. by replace (Z.to_nat (Z.of_nat b - Z.of_nat a)) with (b - a) by lia.
Qed.

Lemma prefix_len p s : HasPrefix s p = true -> String.length p <= String.length s.
Proof. unfold HasPrefix. intros [u ->]%prefix_true. rewrite length_app_str. lia. Qed.

(** A placeholder makes the parser panic exactly when its trimmed body is one
    double quote: both its first and its last byte, with nothing between. *)
Lemma parseRef_panics raw :
  4 <= String.length raw ->
  parseRef raw = Err Panic <-> TrimSpace (str_take (String.length raw - 4) (str_drop 2 raw)) = dq.
Proof.
  intros Hl. unfold parseRef, slen.
  replace (Z.of_nat (String.length raw) - 2)%Z with (Z.of_nat (String.length raw - 2)) by lia.
  change 2%Z with (Z.of_nat 2). rewrite slice_str_ok by lia. cbn [mbind result_bind].
  replace (String.length raw - 2 - 2) with (String.length raw - 4) by lia.
  set (body := TrimSpace _). clearbody body. destruct (HasPrefix body dq && HasSuffix body dq) eqn:Hq.
  - apply andb_true_iff in Hq as [Hp Hs]. apply prefix_len in Hp as Hn. cbn in Hn.
    destruct (decide (String.length body = 1)) as [H1|H1].
    + unfold HasPrefix in Hp. apply prefix_true in Hp as [u ->]. rewrite length_app_str in H1.
      destruct u; [|cbn in H1; lia]. split; [done|]. by intros _.
    + replace (Z.of_nat (String.length body) - 1)%Z with (Z.of_nat (String.length body - 1)) by lia.
      change 1%Z with (Z.of_nat 1). rewrite slice_str_ok by lia. cbn. split; [done|]. intros ->. by cbn in H1.
  - split; [|intros ->; by vm_compute in Hq].
    destruct (Cut _ _) as [[ns path] ok]. destruct (_ || _); [done|]. destruct (negb _); [done|].
    pose proof (parse_filters_no_panic raw (tl (Split body "|"))). destruct (parse_filters _ _); [done|]. cbn. congruence.
Qed.

(** ** On concrete templates *)

Definition vars_with (params : list (string * value)) : Vars := mkVars params {["SCHEMA" := "sales"]} ∅ ∅ ∅.

Definition no_marshal (v : value) : result string string := Err "unsupported".

Definition stmt : string := "SELECT * FROM {{env.SCHEMA}}.t WHERE id = {{params.id}} AND n < {{ params.n | default:7 }}".

Example stmt_rendered :
  SQL no_marshal (fun _ => None) (fun _ => "") id id stmt (vars_with [("id", VStr "1 OR 1=1")]) Postgres
  = Ok ("SELECT * FROM sales.t WHERE id = $1 AND n < $2", [VStr "1 OR 1=1"; VStr "7"]).
Proof. vm_compute. reflexivity. Qed.

Definition stmt_refs : list Ref :=
  [mkRef "env" ["SCHEMA"] [] "{{env.SCHEMA}}"; mkRef "params" ["id"] [] "{{params.id}}";
   mkRef "params" ["n"] [mkFilter "default" "7"] "{{ params.n | default:7 }}"].

Lemma SQL_text_independent_of_params_witness :
  exists t args args',
    SQL no_marshal (fun _ => None) (fun _ => "") id id stmt (vars_with [("id", VStr "1; DROP TABLE t")]) MSSQL = Ok (t, args) /\
    SQL no_marshal (fun _ => None) (fun _ => "") id id stmt (vars_with [("id", VInt 3); ("n", VNil)]) MSSQL = Ok (t, args') /\
    length args = length args' /\ length args = 2.
Proof.
  eexists _, _, _. split; [vm_compute; reflexivity|]. split; [vm_compute; reflexivity|].
  eapply (SQL_text_independent_of_params no_marshal (fun _ => None) (fun _ => "") id id stmt stmt_refs
    (vars_with [("id", VStr "1; DROP TABLE t")]) (vars_with [("id", VInt 3); ("n", VNil)]) MSSQL).
  - vm_compute. reflexivity.
  - intros r Hr _. unfold stmt_refs in Hr. rewrite !elem_of_cons, elem_of_nil in Hr. by destruct_or! Hr; subst.
  - by split_and!.
  - vm_compute. reflexivity.
  - vm_compute. reflexivity.
Defined.

Definition path_tmpl : string := "/v1/users/{{params.id}}/orders?state={{params.state}}".

Definition path_refs : list Ref :=
  [mkRef "params" ["id"] [] "{{params.id}}"; mkRef "params" ["state"] [] "{{params.state}}"].

Lemma Path_keeps_structure_witness :
  exists segs rest,
    segments path_tmpl segs rest /\ path_refs = map snd segs /\
    occurrences "/" "/v1/users/..%2Fadmin%3Fall=1/orders?state=a%23b" = occurrences "/" (literal_text segs rest).
Proof.
  apply (Path_keeps_structure no_marshal (fun _ => None) (fun _ => "") id id "/" path_tmpl path_refs
    (vars_with [("id", VStr "../admin?all=1"); ("state", VStr "a#b")])).
  - reflexivity.
  - discriminate.
  - vm_compute. reflexivity.
  - intros r Hr. unfold path_refs in Hr. rewrite !elem_of_cons, elem_of_nil in Hr. by destruct_or! Hr; subst.
  - vm_compute. reflexivity.
Defined.

Lemma rendering_never_panics_witness :
  Render no_marshal (fun _ => None) (fun _ => "") id id stmt (vars_with []) Strict <> Err Panic /\
  SQL no_marshal (fun _ => None) (fun _ => "") id id stmt (vars_with []) Oracle <> Err Panic.
Proof. apply rendering_never_panics. vm_compute. discriminate. Defined.

(** The escape that would write a closing delimiter is cut at the closing
    delimiter inside its quotes: the body left is one double quote, and
    parsing panics, as it does on a placeholder that holds a lone quote.
    The escape of the opening delimiter parses. *)
Lemma placeholder_of_a_quote_panics :
  Refs ("{{" +:+ dq +:+ "}}") = Err Panic /\
  Refs ("{{ " +:+ dq +:+ "}}" +:+ dq +:+ " }}") = Err Panic /\
  Refs ("{{ " +:+ dq +:+ "{{" +:+ dq +:+ " }}") = Ok [mkRef "literal" ["{{"] [] ("{{ " +:+ dq +:+ "{{" +:+ dq +:+ " }}")].
Proof. split_and!; vm_compute; reflexivity. Qed.
