(* ===== verification/Authz.v ===== *)
(** * Authz: the authorisation evaluator (internal/authz/authz.go)

    The closed permission set, principals, resources, role bindings, the
    evaluator with its cache and its generation counters, the queries of
    [load] as functions of the rows they read, and [Evaluate] with every
    guard in the code's order.  The interleaving of loads and invalidations
    is in AuthzCache.v; the access review's copies of the decision are in
    Compliance.v. *)

From S2P Require Import Prelude.

(** ** Permissions *)

Definition Permission : Type := string.

Definition OrgRead : Permission := "org:read".
Definition OrgUpdate : Permission := "org:update".
Definition OrgDelete : Permission := "org:delete".
Definition OrgMembersManage : Permission := "org:members:manage".
Definition OrgSettingsManage : Permission := "org:settings:manage".
Definition OrgBillingManage : Permission := "org:billing:manage".
Definition ConnectorsRead : Permission := "connectors:read".
Definition ConnectorsCreate : Permission := "connectors:create".
Definition ConnectorsUpdate : Permission := "connectors:update".
Definition ConnectorsDelete : Permission := "connectors:delete".
Definition ConnectorsAuth : Permission := "connectors:auth:update".
Definition ConnectorsTest : Permission := "connectors:test".
Definition ToolsRead : Permission := "tools:read".
Definition ToolsUpdate : Permission := "tools:update".
Definition ToolsInvoke : Permission := "tools:invoke".
Definition ToolsInvokeDestr : Permission := "tools:invoke:destructive".
Definition ServersRead : Permission := "servers:read".
Definition ServersCreate : Permission := "servers:create".
Definition ServersUpdate : Permission := "servers:update".
Definition ServersDelete : Permission := "servers:delete".
Definition RolesRead : Permission := "roles:read".
Definition RolesManage : Permission := "roles:manage".
Definition APIKeysSelf : Permission := "apikeys:self:manage".
Definition APIKeysOrg : Permission := "apikeys:org:manage".
Definition ServiceAccounts : Permission := "serviceaccounts:manage".
Definition IdpManage : Permission := "idp:manage".
Definition ScimManage : Permission := "scim:manage".
Definition AuditRead : Permission := "audit:read".
Definition AuditExport : Permission := "audit:export".
Definition AuditPolicy : Permission := "audit:policy:manage".
Definition ApprovalsRequest : Permission := "approvals:request".
Definition ApprovalsDecide : Permission := "approvals:decide".
Definition DLPManage : Permission := "dlp:manage".
Definition RevisionsRollback : Permission := "revisions:rollback".
Definition SecretsRotate : Permission := "secrets:rotate".
Definition Wildcard : Permission := "*".

Definition All : list Permission :=
  [OrgRead; OrgUpdate; OrgDelete; OrgMembersManage; OrgSettingsManage; OrgBillingManage;
   ConnectorsRead; ConnectorsCreate; ConnectorsUpdate; ConnectorsDelete; ConnectorsAuth; ConnectorsTest;
   ToolsRead; ToolsUpdate; ToolsInvoke; ToolsInvokeDestr; ServersRead; ServersCreate; ServersUpdate; ServersDelete;
   RolesRead; RolesManage; APIKeysSelf; APIKeysOrg; ServiceAccounts; IdpManage; ScimManage;
   AuditRead; AuditExport; AuditPolicy; ApprovalsRequest; ApprovalsDecide; DLPManage; RevisionsRollback; SecretsRotate].

Definition known : gset Permission := {[ Wildcard ]} ∪ list_to_set All.

Definition Valid (p : Permission) : bool := bool_decide (p ∈ known).

Definition ScopeToolsRead : string := "mcp:tools:read".
Definition ScopeToolsInvoke : string := "mcp:tools:invoke".
Definition ScopeOrg : string := "mcp:org".
Definition ScopeSCIM : string := "scim:write".

(** ** Principals and resources *)

(** [PrincipalKind] is a string in the code: the four constants, and any
    other value, which the code treats as a user. *)
Inductive PrincipalKind : Type :=
| KindUser
| KindServiceAccount
| KindAPIKey
| KindAnonymous
| KindOther (s : string).

Definition kind_string (k : PrincipalKind) : string :=
  match k with
  | KindUser => "user" | KindServiceAccount => "service_account" | KindAPIKey => "api_key"
  | KindAnonymous => "anonymous" | KindOther s => s
  end.

#[export] Instance PrincipalKind_eq_dec : EqDecision PrincipalKind.
Proof. solve_decision. Defined.

(** Times are nanoseconds on one clock. *)
Record SignIn : Type := mkSignIn {
  si_At : Z;
  si_Method : string;
  si_ProviderID : string;
  si_Methods : list string;
}.

Record Principal : Type := mkPrincipal {
  p_Kind : PrincipalKind;
  p_ID : string;
  p_OrgID : string;
  p_SessionID : string;
  p_APIKeyID : string;
  p_ClientID : string;
  p_ServerID : string;
  p_Scopes : list string;
  p_MFA : bool;
  p_AuthMethod : string;
  p_Email : string;
  p_PasswordExpired : bool;
  p_SignIn : SignIn;
}.

Definition BindingPrincipal (p : Principal) : string * string :=
  match p_Kind p with
  | KindAPIKey => ("user", p_ID p)
  | KindServiceAccount => ("service_account", p_ID p)
  | _ => ("user", p_ID p)
  end.

Record Resource : Type := mkResource {
  r_OrgID : string;
  r_ServerID : string;
  r_ConnectorID : string;
  r_ToolID : string;
  r_Destructive : bool;
}.

Definition set_r_OrgID (o : string) (r : Resource) : Resource :=
  mkResource o (r_ServerID r) (r_ConnectorID r) (r_ToolID r) (r_Destructive r).

Record Decision : Type := mkDecision { d_Allow : bool; d_Reason : string }.

Definition deny_because (reason : string) : Decision := mkDecision false reason.

Record binding : Type := mkBinding {
  b_roleID : string;
  b_scopeKind : string;
  b_scopeID : string;
  b_permissions : gset Permission;
  b_expiresAt : option Z;
}.

(** [deny] and [allow] map a tool to the set of roles a rule names. *)
Record cacheEntry : Type := mkEntry {
  ce_bindings : list binding;
  ce_deny : gmap string (gset string);
  ce_allow : gmap string (gset string);
  ce_at : Z;
}.

(** ** The evaluator *)

(** [gen] and the values of [orgGen] are uint64 counters. *)
Record Evaluator : Type := mkEvaluator {
  e_TTL : Z;
  e_hook : bool;
  e_cache : gmap string cacheEntry;
  e_gen : Z;
  e_orgGen : gmap string Z;
}.

Definition u64 (z : Z) : Z := z mod 2 ^ 64.

Definition New (hook : bool) : Evaluator :=
  mkEvaluator (30 * 1000000000) hook ∅ 0 ∅.

Definition cacheKey (orgID kind id : string) : string :=
  orgID +:+ "|" +:+ kind +:+ "|" +:+ id.

(** A map read of a missing key yields 0, and [m[k]++] writes it back. *)
Definition orgGen_of (e : Evaluator) (orgID : string) : Z :=
  default 0%Z (e_orgGen e !! orgID).

Definition bump_orgGen (orgID : string) (e : Evaluator) : gmap string Z :=
  <[ orgID := u64 (orgGen_of e orgID + 1) ]> (e_orgGen e).

Definition InvalidateOrg (e : Evaluator) (orgID : string) : Evaluator :=
  let prefix := orgID +:+ "|" in
  mkEvaluator (e_TTL e) (e_hook e)
    (filter (fun kv => String.prefix prefix kv.1 = false) (e_cache e))
    (e_gen e) (bump_orgGen orgID e).

Definition InvalidateAll (e : Evaluator) : Evaluator :=
  mkEvaluator (e_TTL e) (e_hook e) ∅ (u64 (e_gen e + 1)) ∅.

(** [Invalidate] with the source it reports to [OnInvalidate], if set. *)
Definition Invalidate (e : Evaluator) (orgID kind id : string) : Evaluator * option string :=
  let e' :=
    if decide (orgID = "") then InvalidateAll e
    else if decide (id = "") then InvalidateOrg e orgID
    else mkEvaluator (e_TTL e) (e_hook e)
           (delete (cacheKey orgID kind id) (e_cache e))
           (e_gen e) (bump_orgGen orgID e) in
  (e', if e_hook e then Some "local" else None).

(** ** What [load] reads

    The rows of the four tables its two queries touch.  Row order is
    whatever the database returns. *)

Record binding_row : Type := mkBindingRow {
  br_organization_id : string;
  br_role_id : string;
  br_principal_kind : string;
  br_principal_id : string;
  br_scope_kind : string;
  br_scope_id : option string;
  br_expires_at : option Z;
}.

Record role_row : Type := mkRoleRow { rr_id : string; rr_permissions : list string }.

Record member_row : Type := mkMemberRow {
  mr_organization_id : string;
  mr_user_id : string;
  mr_deactivated_at : option Z;
}.

Record rule_row : Type := mkRuleRow {
  tr_organization_id : string;
  tr_tool_id : string;
  tr_role_id : string;
  tr_effect : string;
}.

Record authz_db : Type := mkDB {
  db_role_bindings : list binding_row;
  db_roles : list role_row;
  db_members : list member_row;
  db_rules : list rule_row;
}.

(** The EXISTS sub-query: an active membership of the organisation. *)
Definition active_member (db : authz_db) (org user : string) : bool :=
  existsb (fun m => bool_decide (mr_organization_id m = org) &&
                    bool_decide (mr_user_id m = user) &&
                    bool_decide (mr_deactivated_at m = None)) (db_members db).

Definition scan_binding (b : binding_row) (r : role_row) : binding :=
  mkBinding (br_role_id b) (br_scope_kind b) (default "" (br_scope_id b))
            (list_to_set (rr_permissions r)) (br_expires_at b).

(** The first query: the join, the WHERE clause and the row scan. *)
Definition query_bindings (db : authz_db) (org kind id : string) : list binding :=
  b ← db_role_bindings db;
  r ← db_roles db;
  if bool_decide (rr_id r = br_role_id b) &&
     bool_decide (br_organization_id b = org) &&
     bool_decide (br_principal_kind b = kind) &&
     bool_decide (br_principal_id b = id) &&
     (bool_decide (kind <> "user") || active_member db org id)
  then [scan_binding b r] else [].

(** [m[toolID][roleID] = true], the inner map made on first use. *)
Definition add_rule (toolID roleID : string) (m : gmap string (gset string)) :
    gmap string (gset string) :=
  <[ toolID := {[ roleID ]} ∪ default ∅ (m !! toolID) ]> m.

(** The second query's loop: a row goes to [deny] or, with any other
    effect, to [allow]. *)
Definition add_rule_row (e : cacheEntry) (r : rule_row) : cacheEntry :=
  if decide (tr_effect r = "deny")
  then mkEntry (ce_bindings e) (add_rule (tr_tool_id r) (tr_role_id r) (ce_deny e)) (ce_allow e) (ce_at e)
  else mkEntry (ce_bindings e) (ce_deny e) (add_rule (tr_tool_id r) (tr_role_id r) (ce_allow e)) (ce_at e).

Definition org_rules (db : authz_db) (org : string) : list rule_row :=
  filter (fun r => tr_organization_id r = org) (db_rules db).

(** The two statements of the transaction, each on the database as it is when
    it runs: at the default isolation another commit may fall between. *)
Definition read_statements (db db2 : authz_db) (org kind id : string) (at_ : Z) : cacheEntry :=
  foldl add_rule_row (mkEntry (query_bindings db org kind id) ∅ ∅ at_) (org_rules db2 org).

Definition read_entry (db : authz_db) (org kind id : string) (at_ : Z) : cacheEntry := read_statements db db org kind id at_.

(** ** load, in the three pieces its locks make of it *)

Definition principal_key (p : Principal) : string :=
  let '(kind, id) := BindingPrincipal p in cacheKey (p_OrgID p) kind id.

(** The first critical section: a fresh entry, or the generations to
    compare at the end. *)
Definition load_hit (e : Evaluator) (p : Principal) (now : Z) : option cacheEntry :=
  c ← e_cache e !! principal_key p;
  if decide (now - ce_at c < e_TTL e)%Z then Some c else None.

Definition load_gens (e : Evaluator) (p : Principal) : Z * Z :=
  (e_gen e, orgGen_of e (p_OrgID p)).

(** The transaction; [None] is a database that fails. *)
Definition load_read (db : option authz_db) (p : Principal) (at_ : Z) : result string cacheEntry :=
  match db with
  | None => Err "database"
  | Some db => let '(kind, id) := BindingPrincipal p in Ok (read_entry db (p_OrgID p) kind id at_)
  end.

(** The last critical section: keep what was read only if no invalidation
    moved either generation meanwhile. *)
Definition load_store (e : Evaluator) (p : Principal) (gens : Z * Z) (c : cacheEntry) : Evaluator :=
  if decide (load_gens e p = gens)
  then mkEvaluator (e_TTL e) (e_hook e) (<[ principal_key p := c ]> (e_cache e)) (e_gen e) (e_orgGen e)
  else e.

(** Run without interruption. [now] and [at_] are the two clock reads. *)
Definition load (e : Evaluator) (db : option authz_db) (p : Principal) (now at_ : Z) :
    result string cacheEntry * Evaluator :=
  match load_hit e p now with
  | Some c => (Ok c, e)
  | None =>
      let gens := load_gens e p in
      match load_read db p at_ with
      | Err err => (Err err, e)
      | Ok c => (Ok c, load_store e p gens c)
      end
  end.

(** ** Evaluate *)

Definition hasScope (scopes : list string) (s : string) : bool :=
  existsb (fun x => bool_decide (x = s)) scopes.

Definition scopeContains (b : binding) (r : Resource) : bool :=
  if decide (b_scopeKind b = "org") then true
  else if decide (b_scopeKind b = "server") then
    bool_decide (r_ServerID r <> "") && bool_decide (r_ServerID r = b_scopeID b)
  else if decide (b_scopeKind b = "connector") then
    bool_decide (r_ConnectorID r <> "") && bool_decide (r_ConnectorID r = b_scopeID b)
  else if decide (b_scopeKind b = "tool") then
    bool_decide (r_ToolID r <> "") && bool_decide (r_ToolID r = b_scopeID b)
  else false.

(** The switch over the permission for a credential with scopes and
    without the org scope: the reason it is refused, if it is. *)
Definition scope_refusal (scopes : list string) (perm : Permission) : option string :=
  if negb (bool_decide (scopes = [])) && negb (hasScope scopes ScopeOrg) then
    if decide (perm = ToolsRead) then
      if negb (hasScope scopes ScopeToolsRead) && negb (hasScope scopes ScopeToolsInvoke)
      then Some ("missing scope " +:+ ScopeToolsRead) else None
    else if decide (perm = ToolsInvoke \/ perm = ToolsInvokeDestr) then
      if negb (hasScope scopes ScopeToolsInvoke)
      then Some ("missing scope " +:+ ScopeToolsInvoke) else None
    else if decide (perm = ScimManage) then
      if negb (hasScope scopes ScopeSCIM)
      then Some ("missing scope " +:+ ScopeSCIM) else None
    else Some ("scoped credential cannot " +:+ perm)
  else None.

(** Everything [Evaluate] checks before it loads: a refusal, or the
    resource with its organisation filled in. *)
Definition evaluate_guards (p : Principal) (perm : Permission) (r : Resource) :
    Decision + Resource :=
  if decide (p_Kind p = KindAnonymous) then inl (deny_because "anonymous")
  else
    let r := if decide (r_OrgID r = "") then set_r_OrgID (p_OrgID p) r else r in
    if decide (p_OrgID p = "" \/ r_OrgID r <> p_OrgID p) then inl (deny_because "org mismatch")
    else if decide (p_ServerID p <> "" /\ r_ServerID r <> "" /\ r_ServerID r <> p_ServerID p)
    then inl (deny_because "token is bound to another server")
    else match scope_refusal (p_Scopes p) perm with
         | Some reason => inl (deny_because reason)
         | None => inr r
         end.

Definition expired (b : binding) (now : Z) : bool :=
  match b_expiresAt b with Some t => (t <? now)%Z | None => false end.

Definition matched (c : cacheEntry) (now : Z) (r : Resource) : list binding :=
  filter (fun b => expired b now = false /\ scopeContains b r = true) (ce_bindings c).

Definition grants (b : binding) (want : Permission) : bool :=
  bool_decide (Wildcard ∈ b_permissions b) || bool_decide (want ∈ b_permissions b).

Definition has (bs : list binding) (want : Permission) : bool :=
  existsb (fun b => grants b want) bs.

Definition is_invoke (perm : Permission) : bool :=
  bool_decide (perm = ToolsInvoke) || bool_decide (perm = ToolsInvokeDestr).

(** [entry.deny[toolID][roleID]] over the matched bindings, first hit. *)
Definition denied_role (c : cacheEntry) (toolID : string) (bs : list binding) : option string :=
  b_roleID <$> List.find (fun b => bool_decide (b_roleID b ∈ default ∅ (ce_deny c !! toolID))) bs.

(** Everything [Evaluate] decides from the loaded entry. *)
Definition evaluate_entry (c : cacheEntry) (now : Z) (perm : Permission) (r : Resource) : Decision :=
  let ms := matched c now r in
  if decide (ms = []) then deny_because "no binding"
  else match (if decide (r_ToolID r <> "") then denied_role c (r_ToolID r) ms else None) with
  | Some role => deny_because ("explicitly denied for role " +:+ role)
  | None =>
    if negb (has ms perm) then deny_because ("no role grants " +:+ perm)
    else
      let allowRoles := default ∅ (ce_allow c !! r_ToolID r) in
      if is_invoke perm && bool_decide (r_ToolID r <> "") && bool_decide (allowRoles <> ∅) &&
         negb (existsb (fun b => bool_decide (b_roleID b ∈ allowRoles)) ms)
      then deny_because "tool is restricted to specific roles"
      else if r_Destructive r && bool_decide (perm = ToolsInvoke) && negb (has ms ToolsInvokeDestr)
      then deny_because "destructive tools need tools:invoke:destructive"
      else mkDecision true ""
  end.

(** [Evaluate]: [None] is a nil principal; the three times are the clock
    reads of [load] and of the expiry check. *)
Definition Evaluate (e : Evaluator) (db : option authz_db) (p : option Principal)
    (perm : Permission) (r : Resource) (t_hit t_at now : Z) : result string Decision * Evaluator :=
  match p with
  | None => (Ok (deny_because "anonymous"), e)
  | Some p =>
      match evaluate_guards p perm r with
      | inl d => (Ok d, e)
      | inr r =>
          match load e db p t_hit t_at with
          | (Err err, e) => (Err err, e)
          | (Ok c, e) => (Ok (evaluate_entry c now perm r), e)
          end
      end
  end.

Inductive require_error : Type :=
| ErrDenied (perm : Permission) (reason : string)
| ErrLoad (err : string).

Definition Require (e : Evaluator) (db : option authz_db) (p : option Principal)
    (perm : Permission) (r : Resource) (t_hit t_at now : Z) : result require_error unit * Evaluator :=
  match Evaluate e db p perm r t_hit t_at now with
  | (Err err, e) => (Err (ErrLoad err), e)
  | (Ok d, e) => if d_Allow d then (Ok tt, e) else (Err (ErrDenied perm (d_Reason d)), e)
  end.

(** ** EffectivePermissions and ValidatePermissions *)

(** The loop over the bindings: [None] when it returned the whole set. *)
Fixpoint collect_perms (bs : list binding) (set : gset Permission) : option (gset Permission) :=
  match bs with
  | [] => Some set
  | b :: bs =>
      if decide (b_scopeKind b <> "org") then collect_perms bs set
      else if decide (Wildcard ∈ b_permissions b) then None
      else collect_perms bs (b_permissions b ∪ set)
  end.

Definition sorted_perms (s : gset Permission) : list Permission :=
  merge_sort String.le (elements s).

Definition EffectivePermissions (e : Evaluator) (db : option authz_db) (p : Principal) (t_hit t_at : Z) :
    result string (list Permission) * Evaluator :=
  match load e db p t_hit t_at with
  | (Err err, e) => (Err err, e)
  | (Ok c, e) =>
      (Ok match collect_perms (ce_bindings c) ∅ with
          | None => Wildcard :: All
          | Some s => sorted_perms s
          end, e)
  end.

(** The unknown names, in order; the code's error joins them. *)
Definition ValidatePermissions (perms : list string) : result (list string) unit :=
  let bad := filter (fun s => Valid s = false) perms in
  if decide (bad = []) then Ok tt else Err bad.

(** ** The decision, stated without the code's order *)

(** What a credential's scopes let through. *)
Definition scope_permits (scopes : list string) (perm : Permission) : Prop :=
  scopes = [] \/ ScopeOrg ∈ scopes \/
  (perm = ToolsRead /\ (ScopeToolsRead ∈ scopes \/ ScopeToolsInvoke ∈ scopes)) \/
  ((perm = ToolsInvoke \/ perm = ToolsInvokeDestr) /\ ScopeToolsInvoke ∈ scopes) \/
  (perm = ScimManage /\ ScopeSCIM ∈ scopes).

(** The reach of a binding. *)
Definition reaches (b : binding) (r : Resource) : Prop :=
  b_scopeKind b = "org" \/
  (b_scopeKind b = "server" /\ r_ServerID r <> "" /\ r_ServerID r = b_scopeID b) \/
  (b_scopeKind b = "connector" /\ r_ConnectorID r <> "" /\ r_ConnectorID r = b_scopeID b) \/
  (b_scopeKind b = "tool" /\ r_ToolID r <> "" /\ r_ToolID r = b_scopeID b).

(** A binding that counts for this resource now. *)
Record in_force (c : cacheEntry) (now : Z) (r : Resource) (b : binding) : Prop := {
  inf_held : b ∈ ce_bindings c;
  inf_live : forall t, b_expiresAt b = Some t -> (now <= t)%Z;
  inf_reaches : reaches b r;
}.

Definition holds (b : binding) (perm : Permission) : Prop :=
  Wildcard ∈ b_permissions b \/ perm ∈ b_permissions b.

Record may (c : cacheEntry) (now : Z) (p : Principal) (perm : Permission) (r : Resource) : Prop := {
  may_named : p_Kind p <> KindAnonymous;
  may_org : p_OrgID p <> "" /\ (r_OrgID r = "" \/ r_OrgID r = p_OrgID p);
  may_server : p_ServerID p = "" \/ r_ServerID r = "" \/ r_ServerID r = p_ServerID p;
  may_scope : scope_permits (p_Scopes p) perm;
  may_granted : exists b, in_force c now r b /\ holds b perm;
  may_undenied : r_ToolID r <> "" ->
    forall b, in_force c now r b -> b_roleID b ∉ default ∅ (ce_deny c !! r_ToolID r);
  may_listed : perm = ToolsInvoke \/ perm = ToolsInvokeDestr -> r_ToolID r <> "" ->
    default ∅ (ce_allow c !! r_ToolID r) = ∅ \/
    exists b, in_force c now r b /\ b_roleID b ∈ default ∅ (ce_allow c !! r_ToolID r);
  may_destroy : r_Destructive r = true -> perm = ToolsInvoke ->
    exists b, in_force c now r b /\ holds b ToolsInvokeDestr;
}.

(** ** Lemmas about the pieces *)

Lemma hasScope_spec scopes s : hasScope scopes s = true <-> s ∈ scopes.
Proof. apply existsb_bool_decide_elem. Qed.

Lemma hasScope_false scopes s : hasScope scopes s = false <-> s ∉ scopes.
Proof. rewrite <-hasScope_spec. by rewrite not_true_iff_false. Qed.

Lemma scope_refusal_spec scopes perm :
  scope_refusal scopes perm = None <-> scope_permits scopes perm.
Proof.
  unfold scope_refusal, scope_permits. rewrite <-!hasScope_spec.
  destruct (decide (scopes = [])) as [->|Hne]; [split; [by left|done]|].
  rewrite (bool_decide_eq_false_2 (scopes = [])) by done. cbn [negb andb].
  destruct (hasScope scopes ScopeOrg); [split; [auto|done]|]. cbn [negb].
  destruct (decide (perm = ToolsRead)) as [->|H1];
    [|destruct (decide (perm = ToolsInvoke \/ perm = ToolsInvokeDestr)) as [H2|H2];
      [|destruct (decide (perm = ScimManage)) as [->|H3]]];
    destruct (hasScope scopes ScopeToolsRead), (hasScope scopes ScopeToolsInvoke),
      (hasScope scopes ScopeSCIM); cbn [negb andb];
    split; intros H; try discriminate H; try done; try tauto;
    repeat match goal with
      | H : _ /\ _ |- _ => destruct H
      | H : _ \/ _ |- _ => destruct H
      end; try discriminate; subst; try discriminate; tauto.
Qed.

Lemma scopeContains_spec b r : scopeContains b r = true <-> reaches b r.
Proof.
  unfold scopeContains, reaches.
  repeat match goal with |- context [decide (b_scopeKind b = ?k)] =>
    destruct (decide (b_scopeKind b = k)) as [->|]
  end; rewrite ?andb_true_iff, ?bool_decide_eq_true; intuition congruence.
Qed.

Lemma expired_spec b now :
  expired b now = false <-> forall t, b_expiresAt b = Some t -> (now <= t)%Z.
Proof.
  unfold expired. destruct (b_expiresAt b) as [t|]; [|naive_solver].
  rewrite Z.ltb_ge. naive_solver.
Qed.

Lemma matched_spec c now r b : b ∈ matched c now r <-> in_force c now r b.
Proof.
  unfold matched. rewrite list_elem_of_filter, expired_spec, scopeContains_spec.
  split; [intros [[? ?] ?]; by constructor|intros [? ? ?]; done].
Qed.

Lemma grants_spec b perm : grants b perm = true <-> holds b perm.
Proof. unfold grants, holds. by rewrite orb_true_iff, !bool_decide_eq_true. Qed.

Lemma has_spec c now r perm :
  has (matched c now r) perm = true <-> exists b, in_force c now r b /\ holds b perm.
Proof.
  unfold has. rewrite existsb_elem. by setoid_rewrite matched_spec; setoid_rewrite grants_spec.
Qed.

Lemma is_invoke_spec perm : is_invoke perm = true <-> perm = ToolsInvoke \/ perm = ToolsInvokeDestr.
Proof. unfold is_invoke. by rewrite orb_true_iff, !bool_decide_eq_true. Qed.

Lemma denied_role_None c tool bs :
  denied_role c tool bs = None <-> forall b, b ∈ bs -> b_roleID b ∉ default ∅ (ce_deny c !! tool).
Proof.
  unfold denied_role. split.
  - intros E b Hb Hin. destruct (List.find _ bs) eqn:F; [done|].
    apply List.find_none with (x := b) in F; [|by apply list_elem_of_In].
    by rewrite bool_decide_eq_true_2 in F.
  - intros H. destruct (List.find _ bs) as [b|] eqn:F; [|done].
    apply List.find_some in F as [Hb%list_elem_of_In E]. bool_prop. by apply H in Hb.
Qed.

(** The part of the specification that is about the loaded entry. *)
Definition entry_may (c : cacheEntry) (now : Z) (perm : Permission) (r : Resource) : Prop :=
  (exists b, in_force c now r b /\ holds b perm) /\
  (r_ToolID r <> "" -> forall b, in_force c now r b -> b_roleID b ∉ default ∅ (ce_deny c !! r_ToolID r)) /\
  (perm = ToolsInvoke \/ perm = ToolsInvokeDestr -> r_ToolID r <> "" ->
    default ∅ (ce_allow c !! r_ToolID r) = ∅ \/
    exists b, in_force c now r b /\ b_roleID b ∈ default ∅ (ce_allow c !! r_ToolID r)) /\
  (r_Destructive r = true -> perm = ToolsInvoke ->
    exists b, in_force c now r b /\ holds b ToolsInvokeDestr).

Lemma evaluate_entry_spec c now perm r :
  d_Allow (evaluate_entry c now perm r) = true <-> entry_may c now perm r.
Proof.
  unfold evaluate_entry, entry_may. set (ms := matched c now r).
  pose proof (has_spec c now r perm) as Hp. pose proof (has_spec c now r ToolsInvokeDestr) as Hd.
  pose proof (matched_spec c now r) as Hm. fold ms in Hp, Hd, Hm.
  pose proof (is_invoke_spec perm) as Hi.
  set (allowed := default ∅ (ce_allow c !! r_ToolID r)).
  assert (Hl : existsb (fun b => bool_decide (b_roleID b ∈ allowed)) ms = true <->
    exists b, in_force c now r b /\ b_roleID b ∈ allowed).
  { rewrite existsb_elem. setoid_rewrite Hm. by setoid_rewrite bool_decide_eq_true. }
  assert (Hden : (if decide (r_ToolID r <> "") then denied_role c (r_ToolID r) ms else None) = None <->
    (r_ToolID r <> "" -> forall b, in_force c now r b -> b_roleID b ∉ default ∅ (ce_deny c !! r_ToolID r))).
  { case_decide; [|tauto]. rewrite denied_role_None. setoid_rewrite Hm. tauto. }
  destruct (decide (ms = [])) as [E|_].
  { split; [done|]. intros [(b & Hb%Hm & _) _]. rewrite E in Hb. by apply not_elem_of_nil in Hb. }
  destruct (if decide (r_ToolID r <> "") then _ else _) as [role|].
  { split; [done|]. intros (_ & Hu & _). by apply Hden in Hu. }
  destruct (has ms perm); cbn [negb]; [|split; [done|]; intros [Hx _]; by apply Hp in Hx].
  destruct (is_invoke perm && bool_decide (r_ToolID r <> "") && bool_decide (allowed <> ∅) &&
    negb (existsb (fun b => bool_decide (b_roleID b ∈ allowed)) ms)) eqn:W.
  { bool_prop. split; [done|]. intros (_ & _ & Hw & _).
    destruct Hw as [|Hw]; [by apply Hi|done|done|]. apply Hl in Hw. congruence. }
  destruct (r_Destructive r && bool_decide (perm = ToolsInvoke) && negb (has ms ToolsInvokeDestr)) eqn:D.
  { bool_prop. split; [done|]. intros (_ & _ & _ & Hx).
    apply Hd in Hx; [congruence|done|done]. }
  split; [intros _|done]. split_and!; [by apply Hp|by apply Hden| |].
  - intros Hinv%Hi Ht. rewrite Hinv, (bool_decide_eq_true_2 (r_ToolID r <> "")) in W by done.
    destruct (decide (allowed = ∅)) as [|Hne]; [by left|right].
    rewrite bool_decide_eq_true_2 in W by done. apply Hl. by apply negb_false_iff in W.
  - intros Hr ->. rewrite Hr, bool_decide_eq_true_2 in D by done.
    apply Hd. by apply negb_false_iff in D.
Qed.

Lemma evaluate_guards_spec p perm r :
  match evaluate_guards p perm r with
  | inl d => d_Allow d = false /\
      ~ (p_Kind p <> KindAnonymous /\
         (p_OrgID p <> "" /\ (r_OrgID r = "" \/ r_OrgID r = p_OrgID p)) /\
         (p_ServerID p = "" \/ r_ServerID r = "" \/ r_ServerID r = p_ServerID p) /\
         scope_permits (p_Scopes p) perm)
  | inr r' => r' = set_r_OrgID (p_OrgID p) r /\
      p_Kind p <> KindAnonymous /\
      (p_OrgID p <> "" /\ (r_OrgID r = "" \/ r_OrgID r = p_OrgID p)) /\
      (p_ServerID p = "" \/ r_ServerID r = "" \/ r_ServerID r = p_ServerID p) /\
      scope_permits (p_Scopes p) perm
  end.
Proof.
  pose proof (scope_refusal_spec (p_Scopes p) perm) as S.
  unfold evaluate_guards. destruct r as [o s cn t dstr].
  destruct (decide (p_Kind p = KindAnonymous)); [split; [done|tauto]|].
  assert (Ho : (if decide (r_OrgID (mkResource o s cn t dstr) = "")
    then set_r_OrgID (p_OrgID p) (mkResource o s cn t dstr) else mkResource o s cn t dstr) =
    mkResource (if decide (o = "") then p_OrgID p else o) s cn t dstr) by (cbn; by case_decide).
  rewrite Ho; clear Ho. cbn -[scope_permits].
  set (o' := if decide (o = "") then p_OrgID p else o).
  assert (Heq : o' = p_OrgID p <-> o = "" \/ o = p_OrgID p) by (unfold o'; case_decide; naive_solver).
  clearbody o'.
  destruct (decide (p_OrgID p = "" \/ o' <> p_OrgID p)) as [H1|H1];
    [split; [done|]; destruct H1; tauto|].
  destruct (decide (p_OrgID p = "")) as [|]; [tauto|].
  destruct (decide (o' = p_OrgID p)) as [->|]; [|tauto].
  destruct (decide (p_ServerID p <> "" /\ s <> "" /\ s <> p_ServerID p)) as [H3|H3];
    [split; [done|]; tauto|].
  destruct (scope_refusal (p_Scopes p) perm) as [reason|].
  - split; [done|]. intros (_ & _ & _ & Hs). by apply S in Hs.
  - split; [done|]. split_and!; [done|done|tauto| |by apply S].
    destruct (decide (p_ServerID p = "")), (decide (s = "")), (decide (s = p_ServerID p)); tauto.
Qed.

Lemma set_r_OrgID_in_force c now o r b : in_force c now (set_r_OrgID o r) b <-> in_force c now r b.
Proof. split; intros [? ? ?]; by constructor. Qed.

Lemma set_r_OrgID_entry_may c now perm o r :
  entry_may c now perm (set_r_OrgID o r) <-> entry_may c now perm r.
Proof. unfold entry_may. by setoid_rewrite set_r_OrgID_in_force. Qed.

Lemma may_split c now p perm r :
  may c now p perm r <->
  (p_Kind p <> KindAnonymous /\
   (p_OrgID p <> "" /\ (r_OrgID r = "" \/ r_OrgID r = p_OrgID p)) /\
   (p_ServerID p = "" \/ r_ServerID r = "" \/ r_ServerID r = p_ServerID p) /\
   scope_permits (p_Scopes p) perm) /\ entry_may c now perm r.
Proof.
  unfold entry_may. split.
  - intros [? ? ? ? ? ? ? ?]. tauto.
  - intros [(? & ? & ? & ?) (? & ? & ? & ?)]. by constructor.
Qed.

Lemma evaluate_entry_allow c now perm r :
  d_Allow (evaluate_entry c now perm r) = true -> evaluate_entry c now perm r = mkDecision true "".
Proof.
  unfold evaluate_entry. destruct (decide _); [done|].
  destruct (if decide _ then denied_role _ _ _ else None); [done|].
  destruct (negb _); [done|]. destruct (_ && negb (existsb _ _)); [done|].
  by destruct (_ && negb (has _ ToolsInvokeDestr)).
Qed.

Lemma Evaluate_allow_char e db p perm r t_hit t_at now :
  (exists e', Evaluate e db p perm r t_hit t_at now = (Ok (mkDecision true ""), e')) <->
  exists pr c e', p = Some pr /\ load e db pr t_hit t_at = (Ok c, e') /\ may c now pr perm r.
Proof.
  unfold Evaluate. destruct p as [pr|]; [|naive_solver].
  pose proof (evaluate_guards_spec pr perm r) as G.
  destruct (evaluate_guards pr perm r) as [d|r'].
  { destruct G as [Hd G]. split; [intros [e' [= ->]]; done|].
    intros (? & c & e' & [= <-] & _ & [H _]%may_split). done. }
  destruct G as [-> G]. destruct (load e db pr t_hit t_at) as [[c|err] e'] eqn:L;
    [|split; [by intros [? ?]|intros (? & ? & ? & [= <-] & ? & _); congruence]].
  pose proof (evaluate_entry_spec c now perm (set_r_OrgID (p_OrgID pr) r)) as S.
  rewrite set_r_OrgID_entry_may in S. split.
  - intros [? [= E _]]. exists pr, c, e'. split_and!; [done..|]. apply may_split. split; [done|].
    apply S. by rewrite E.
  - intros (? & c' & e'' & [= <-] & L' & [_ H]%may_split). rewrite L in L'. injection L' as <- <-.
    exists e'. apply S, evaluate_entry_allow in H. by rewrite H.
Qed.

(** *** What an invalidation drops *)

Lemma principal_key_prefix p : String.prefix (p_OrgID p +:+ "|") (principal_key p) = true.
Proof.
  unfold principal_key. destruct (BindingPrincipal p) as [kind id]. unfold cacheKey.
  rewrite <-app_assoc_str. apply prefix_app.
Qed.

Lemma InvalidateOrg_lookup e org k :
  e_cache (InvalidateOrg e org) !! k =
  if String.prefix (org +:+ "|") k then None else e_cache e !! k.
Proof.
  cbn. rewrite map_lookup_filter. destruct (e_cache e !! k) as [c|]; cbn.
  - destruct (String.prefix (org +:+ "|") k) eqn:E; [by rewrite option_guard_False by congruence|].
    by rewrite option_guard_True.
  - by destruct (String.prefix _ _).
Qed.

Lemma load_hit_InvalidateOrg e p now : load_hit (InvalidateOrg e (p_OrgID p)) p now = None.
Proof. unfold load_hit. by rewrite InvalidateOrg_lookup, principal_key_prefix. Qed.

Lemma load_hit_InvalidateAll e p now : load_hit (InvalidateAll e) p now = None.
Proof. unfold load_hit. cbn. by rewrite lookup_empty. Qed.

Lemma load_miss e db p now at_ c e' :
  load_hit e p now = None -> load e (Some db) p now at_ = (Ok c, e') ->
  c = read_entry db (p_OrgID p) (BindingPrincipal p).1 (BindingPrincipal p).2 at_.
Proof.
  intros H. unfold load, load_read. rewrite H.
  destruct (BindingPrincipal p) as [kind id]. cbn. by intros [= <- _].
Qed.

(** *** What [load] reads *)

Lemma foldl_rules_bindings rows c : ce_bindings (foldl add_rule_row c rows) = ce_bindings c.
Proof.
  revert c; induction rows as [|r rows IH]; intros c; cbn; [done|].
  rewrite IH. unfold add_rule_row. by case_decide.
Qed.

Lemma read_entry_bindings db org kind id at_ :
  ce_bindings (read_entry db org kind id at_) = query_bindings db org kind id.
Proof. unfold read_entry, read_statements. by rewrite foldl_rules_bindings. Qed.

Lemma query_bindings_elem db org kind id b :
  b ∈ query_bindings db org kind id <->
  exists br rr, br ∈ db_role_bindings db /\ rr ∈ db_roles db /\ b = scan_binding br rr /\
    rr_id rr = br_role_id br /\ br_organization_id br = org /\ br_principal_kind br = kind /\
    br_principal_id br = id /\ (kind <> "user" \/ active_member db org id = true).
Proof.
  unfold query_bindings. rewrite list_elem_of_bind. split.
  - intros (br & (rr & Hb & Hr)%list_elem_of_bind & Hbr). exists br, rr.
    destruct (_ && _) eqn:E in Hb; [|by apply not_elem_of_nil in Hb].
    apply list_elem_of_singleton in Hb as ->.
    rewrite !andb_true_iff, orb_true_iff, !bool_decide_eq_true in E. tauto.
  - intros (br & rr & ? & ? & -> & E1 & E2 & E3 & E4 & E5). exists br. split; [|done].
    apply list_elem_of_bind. exists rr. split; [|done].
    replace (_ && _) with true; [by apply list_elem_of_singleton|]. symmetry.
    rewrite !andb_true_iff, orb_true_iff, !bool_decide_eq_true. tauto.
Qed.

(** *** What [EffectivePermissions] collects *)

Lemma collect_perms_spec bs set :
  match collect_perms bs set with
  | None => exists b, b ∈ bs /\ b_scopeKind b = "org" /\ Wildcard ∈ b_permissions b
  | Some set' =>
      (forall b, b ∈ bs -> b_scopeKind b = "org" -> Wildcard ∉ b_permissions b) /\
      (forall q, q ∈ set' <-> q ∈ set \/ exists b, b ∈ bs /\ b_scopeKind b = "org" /\ q ∈ b_permissions b)
  end.
Proof.
  revert set; induction bs as [|b bs IH]; intros set; cbn [collect_perms].
  { split; [set_solver|]. intros q. split; [auto|]. intros [?|(? & ?%not_elem_of_nil & _)]; done. }
  case_decide as Ek.
  - specialize (IH set). destruct (collect_perms bs set).
    + destruct IH as [H1 H2]. split; [intros b0 [->|]%elem_of_cons ?; [done|by apply H1]|].
      intros q. rewrite H2. setoid_rewrite elem_of_cons. naive_solver.
    + destruct IH as (b0 & ? & ?). exists b0. split; [by right|done].
  - assert (b_scopeKind b = "org") by (destruct (decide (b_scopeKind b = "org")); tauto).
    case_decide as Ew; [exists b; split; [by left|done]|].
    specialize (IH (b_permissions b ∪ set)). destruct (collect_perms bs _).
    + destruct IH as [H1 H2]. split; [intros b0 [->|]%elem_of_cons ?; [done|by apply H1]|].
      intros q. rewrite H2, elem_of_union. setoid_rewrite elem_of_cons. naive_solver.
    + destruct IH as (b0 & ? & ?). exists b0. split; [by right|done].
Qed.

Lemma sorted_perms_elem s q : q ∈ sorted_perms s <-> q ∈ s.
Proof. unfold sorted_perms. by rewrite merge_sort_Permutation, elem_of_elements. Qed.

(** ** Properties *)

(** C3. [Evaluate] allows a request exactly when the principal is named and
    not anonymous, its bindings load, and the declarative rule [may] holds of
    what was loaded: organisation, server and scope limits, a live binding
    that reaches the resource and grants the permission, no denied role, a
    listed role where the tool lists roles, and the destructive permission
    for a destructive tool. *)
Theorem Evaluate_allow_iff e db p perm r t_hit t_at now :
  (exists e', Evaluate e db p perm r t_hit t_at now = (Ok (mkDecision true ""), e')) <->
  exists pr c e', p = Some pr /\ load e db pr t_hit t_at = (Ok c, e') /\ may c now pr perm r.
Proof. apply Evaluate_allow_char. Qed.

Definition unscoped (p : Principal) : Principal :=
  mkPrincipal (p_Kind p) (p_ID p) (p_OrgID p) (p_SessionID p) (p_APIKeyID p) (p_ClientID p) ""
    [] (p_MFA p) (p_AuthMethod p) (p_Email p) (p_PasswordExpired p) (p_SignIn p).

(** A credential's scopes and its server binding only take away: whatever
    [Evaluate] allows to a scoped or server-bound credential it allows, in the
    same state, to the same principal without scopes and without the server. *)
Theorem scoped_credential_attenuates e db p perm r t_hit t_at now e' :
  Evaluate e db (Some p) perm r t_hit t_at now = (Ok (mkDecision true ""), e') ->
  exists e'', Evaluate e db (Some (unscoped p)) perm r t_hit t_at now = (Ok (mkDecision true ""), e'').
Proof.
  intros H. apply Evaluate_allow_char.
  destruct (proj1 (Evaluate_allow_char e db (Some p) perm r t_hit t_at now) (ex_intro _ e' H))
    as (pr & c & e0 & [= <-] & L & M).
  exists (unscoped p), c, e0. split_and!; [done|exact L|].
  destruct M as [? ? ? ? ? ? ? ?]. constructor; cbn; auto. by left.
Qed.

(** A workspace with one member, one server-scoped role, and one tool rule. *)
Definition example_db : authz_db :=
  mkDB [mkBindingRow "o" "op" "user" "u" "server" (Some "s1") None]
       [mkRoleRow "op" ["tools:read"; "tools:invoke"]]
       [mkMemberRow "o" "u" None] [mkRuleRow "o" "t9" "op" "deny"].

Definition example_signin : SignIn := mkSignIn 0 "password" "" [].

Definition example_key : Principal :=
  mkPrincipal KindAPIKey "u" "o" "" "k1" "" "s1" ["mcp:tools:invoke"] false "api_key" "" false example_signin.

Definition example_tool (t : string) : Resource := mkResource "" "s1" "" t false.

Lemma scoped_credential_attenuates_witness :
  exists e'', Evaluate (New false) (Some example_db) (Some (unscoped example_key)) ToolsInvoke
    (example_tool "t1") 0 0 0 = (Ok (mkDecision true ""), e'').
Proof.
  eapply (scoped_credential_attenuates (New false) (Some example_db) example_key ToolsInvoke
    (example_tool "t1") 0 0 0). vm_compute. reflexivity.
Defined.

(** A person who is not an active member holds nothing: once the
    organisation's cache has been invalidated, [Evaluate] refuses every
    request of a principal whose bindings are a user's and whose membership
    row is missing or deactivated, whatever roles are still bound to them. *)
Theorem deactivated_member_fails_closed e db p perm r t_hit t_at now :
  (BindingPrincipal p).1 = "user" -> active_member db (p_OrgID p) (p_ID p) = false ->
  exists d e', Evaluate (InvalidateOrg e (p_OrgID p)) (Some db) (Some p) perm r t_hit t_at now = (Ok d, e')
    /\ d_Allow d = false.
Proof.
  intros Hk Hm. set (e0 := InvalidateOrg e (p_OrgID p)).
  destruct (Evaluate e0 (Some db) (Some p) perm r t_hit t_at now) as [[d|err] e'] eqn:E.
  - exists d, e'. split; [done|]. apply not_true_iff_false. intros Hd.
    assert (d = mkDecision true "") as ->.
    { revert E Hd. unfold Evaluate. pose proof (evaluate_guards_spec p perm r) as G.
      destruct (evaluate_guards p perm r); [intros [= -> _]; destruct G; congruence|].
      destruct (load _ _ _ _ _) as [[c|] ?]; intros [= <- _]. apply evaluate_entry_allow. }
    destruct (proj1 (Evaluate_allow_char e0 (Some db) (Some p) perm r t_hit t_at now) (ex_intro _ e' E))
      as (pr & c & e1 & [= <-] & L & M).
    apply load_miss in L as ->; [|apply load_hit_InvalidateOrg].
    destruct (may_granted _ _ _ _ _ M) as (b & [Hb _ _] & _).
    rewrite read_entry_bindings, query_bindings_elem in Hb.
    destruct Hb as (? & ? & _ & _ & _ & _ & _ & _ & _ & [H|H]); [done|].
    replace (BindingPrincipal p).2 with (p_ID p) in H; [congruence|].
    unfold BindingPrincipal. by destruct (p_Kind p).
  - exfalso. revert E. unfold Evaluate. destruct (evaluate_guards p perm r); [done|].
    unfold load, load_read, e0. rewrite load_hit_InvalidateOrg. by destruct (BindingPrincipal p).
Qed.

Definition example_left : authz_db :=
  mkDB [mkBindingRow "o" "op" "user" "u" "org" None None] [mkRoleRow "op" ["*"]]
       [mkMemberRow "o" "u" (Some 5%Z)] [].

Lemma deactivated_member_fails_closed_witness :
  exists d e', Evaluate (InvalidateOrg (New true) "o") (Some example_left) (Some example_key)
    ToolsInvoke (example_tool "t1") 0 0 0 = (Ok d, e') /\ d_Allow d = false.
Proof. apply (deactivated_member_fails_closed (New true) example_left example_key); reflexivity. Defined.
