(* ===== verification/Ratelimit.v ===== *)
(** * Ratelimit: per-identity budgets (internal/hardening/ratelimit.go)

    The budgets, the shared sliding window (the Lua script, over the Redis
    sorted set it runs on), the in-memory token bucket with its float64
    arithmetic and its eviction, and the limiter that chooses between them
    and never falls open.  Redis itself is not in the repository: a sorted
    set is whatever implements [SortedSet], whose laws are the documented
    behaviour of the four commands the script uses. *)

From Stdlib Require Import SpecFloat.
From S2P Require Import Prelude GoStrings Float64 Authz.

Record Limit : Type := mkLimit { l_Name : string; l_Burst : Z; l_Window : Z }.

Record Budgets : Type := mkBudgets {
  bg_SignIn : Limit;
  bg_Register : Limit;
  bg_Invite : Limit;
  bg_DCR : Limit;
  bg_ToolCall : Limit;
  bg_Analytics : Limit;
  bg_DLPTest : Limit;
  bg_API : Limit;
}.

Definition DefaultBudgets : Budgets := {|
  bg_SignIn := mkLimit "signin" 10 Minute;
  bg_Register := mkLimit "register" 5 Hour;
  bg_Invite := mkLimit "invite" 5 Hour;
  bg_DCR := mkLimit "dcr" 10 Hour;
  bg_ToolCall := mkLimit "tool_call" 600 Minute;
  bg_Analytics := mkLimit "analytics" 30 Minute;
  bg_DLPTest := mkLimit "dlp_test" 60 Minute;
  bg_API := mkLimit "api" 300 Minute;
|}.

Record RateDecision : Type := mkRate {
  rd_Allowed : bool;
  rd_Limit : Z;
  rd_Remaining : Z;
  rd_ResetAfter : Z;
  rd_RetryAfter : Z;
  rd_Degraded : bool;
}.

(** ** The shared window *)

(** A Redis sorted set: unique members, each with a score. *)
Class SortedSet (T : Type) : Type := {
  zelems : T -> list (string * Z);
  zremrangebyscore : T -> Z -> T;
  zcard : T -> Z;
  zadd : T -> Z -> string -> T;
  zfirst : T -> option Z;
  zempty : T;
}.

Class SortedSetLaws (T : Type) `{SortedSet T} : Prop := {
  zelems_empty : zelems zempty = [];
  zelems_rem s x : zelems (zremrangebyscore s x) ≡ₚ filter (fun p => x < p.2)%Z (zelems s);
  zcard_elems s : zcard s = Z.of_nat (length (zelems s));
  zelems_add s x m : m ∉ (zelems s).*1 -> zelems (zadd s x m) ≡ₚ (m, x) :: zelems s;
  zfirst_none s : zfirst s = None <-> zelems s = [];
  zfirst_least s x : zfirst s = Some x ->
    x ∈ (zelems s).*2 /\ (forall y, y ∈ (zelems s).*2 -> x <= y)%Z;
}.

Section script.
Context {T : Type} `{SortedSet T}.

(** The script of [slidingWindowSrc]: the new set and (allowed, remaining,
    reset).  Its numbers are integers below 2^53, exact in Lua. *)
Definition slidingWindow (s : T) (now window limit : Z) (member : string) : T * (Z * Z * Z) :=
  let s := zremrangebyscore s (now - window) in
  let count := zcard s in
  let '(s, count, allowed) :=
    if (count <? limit)%Z then (zadd s now member, count + 1, 1)%Z else (s, count, 0)%Z in
  let reset :=
    match zfirst s with
    | Some oldest => let reset := (oldest + window - now)%Z in if (reset <? 0)%Z then 0%Z else reset
    | None => window
    end in
  let remaining := (limit - count)%Z in
  let remaining := if (remaining <? 0)%Z then 0%Z else remaining in
  (s, (allowed, remaining, reset)).

(** [PEXPIRE key window]: Redis drops the key once [window] milliseconds of
    its own clock have passed since the last run, at [last], without
    another. *)
Definition expire (s : T) (last at_ window : Z) : T :=
  if (last + window <=? at_)%Z then zempty else s.
End script.

(** One value of a script's reply. *)
Inductive redis_value : Type :=
| RInt (z : Z)
| ROther.

(** [redisBacking.allow] after the call: the reply decoded. *)
Definition decode_reply (raw : result string (list redis_value)) (limit : Limit) : result string RateDecision :=
  match raw with
  | Err e => Err ("redis sliding window: " +:+ e)
  | Ok [a; b; c] =>
      match a, b, c with
      | RInt allowed, RInt remaining, RInt resetMS =>
          let reset := wrap64 (resetMS * Millisecond) in
          let ok := bool_decide (allowed = 1%Z) in
          Ok (mkRate ok (l_Burst limit) remaining reset (if ok then 0%Z else reset) false)
      | _, _, _ => Err "redis sliding window returned a non-integer value"
      end
  | Ok _ => Err "redis sliding window returned the wrong number of values"
  end.

(** ** The in-memory token bucket *)

Record bucket : Type := mkBucket { bk_tokens : float64; bk_last : Z }.

Record memoryBacking : Type := mkMemory {
  mb_buckets : gmap string bucket;
  mb_divisor : Z;
  mb_maxKeys : Z;
}.

Definition set_buckets (m : memoryBacking) (b : gmap string bucket) : memoryBacking :=
  mkMemory b (mb_divisor m) (mb_maxKeys m).

Definition effective_burst (m : memoryBacking) (burst : Z) : Z :=
  let n := Z.quot burst (mb_divisor m) in if (n <? 1)%Z then 1%Z else n.

Definition spanFor (tokens rate : float64) : Z :=
  if f_le tokens (S754_zero false) || f_le rate (S754_zero false) then 0%Z
  else Z_of_f (f_mul (f_div tokens rate) (f_of_Z Second)).

Definition map_len (b : gmap string bucket) : Z := Z.of_nat (size b).

Definition last_seen (b : gmap string bucket) : list Z :=
  merge_sort Z.le (map (fun kv => bk_last kv.2) (map_to_list b)).

Definition evictLocked (m : memoryBacking) (now window : Z) : memoryBacking :=
  let buckets := filter (fun kv => (time_sub now (bk_last kv.2) < window)%Z) (mb_buckets m) in
  if (map_len buckets <? mb_maxKeys m)%Z then set_buckets m buckets
  else
    let seen := last_seen buckets in
    let cutoff := default 0%Z (seen !! (length seen / 2)) in
    set_buckets m (filter (fun kv => (cutoff < bk_last kv.2)%Z) buckets).

(** The bucket after the refill for the time since it was last seen. *)
Definition refill (b : bucket) (capacity rate : float64) (now : Z) : bucket :=
  let elapsed := time_sub now (bk_last b) in
  let b := if (0 <? elapsed)%Z
           then mkBucket (f_add (bk_tokens b) (f_mul (Seconds elapsed) rate)) now else b in
  if f_lt capacity (bk_tokens b) then mkBucket capacity (bk_last b) else b.

Definition memory_allow (m : memoryBacking) (key : string) (limit : Limit) (now : Z) :
    memoryBacking * RateDecision :=
  let effective := effective_burst m (l_Burst limit) in
  let capacity := f_of_Z effective in
  let rate := f_div capacity (Seconds (l_Window limit)) in
  let m := match mb_buckets m !! key with
           | None => if (mb_maxKeys m <=? map_len (mb_buckets m))%Z
                     then evictLocked m now (l_Window limit) else m
           | Some _ => m
           end in
  let b := default (mkBucket capacity now) (mb_buckets m !! key) in
  let b := refill b capacity rate now in
  let '(b, allowed, retry) :=
    if f_le (f_of_Z 1) (bk_tokens b)
    then (mkBucket (f_sub (bk_tokens b) (f_of_Z 1)) (bk_last b), true, 0%Z)
    else (b, false, spanFor (f_sub (f_of_Z 1) (bk_tokens b)) rate) in
  (set_buckets m (<[ key := b ]> (mb_buckets m)),
   mkRate allowed effective (Z_of_f (bk_tokens b)) (spanFor (f_sub capacity (bk_tokens b)) rate) retry false).

(** ** The limiter *)

Inductive Mode : Type := ModeRedis | ModeMemory | ModeFallback.

#[export] Instance Mode_eq_dec : EqDecision Mode.
Proof. solve_decision. Defined.

Record Limiter : Type := mkLimiter {
  lm_redis : bool;
  lm_memory : memoryBacking;
  lm_mode : Mode;
  lm_recoverAfter : Z;
  lm_retryRedisAt : Z;
}.

(** [Swap] of the mode: the calls of [onDegraded] it makes are the modes
    reported, in order. *)
Definition degrade (l : Limiter) (now : Z) : Limiter * list Mode :=
  (mkLimiter (lm_redis l) (lm_memory l) ModeFallback (lm_recoverAfter l) (now + lm_recoverAfter l),
   if decide (lm_mode l = ModeFallback) then [] else [ModeFallback]).

Definition recover (l : Limiter) : Limiter * list Mode :=
  (mkLimiter (lm_redis l) (lm_memory l) ModeRedis (lm_recoverAfter l) (lm_retryRedisAt l),
   if decide (lm_mode l = ModeRedis) then [] else [ModeRedis]).

Definition useRedis (l : Limiter) (now : Z) : bool :=
  if negb (lm_redis l) then false
  else if decide (lm_mode l = ModeRedis) then true
  else (lm_retryRedisAt l <=? now)%Z.

Definition set_memory (l : Limiter) (m : memoryBacking) : Limiter :=
  mkLimiter (lm_redis l) m (lm_mode l) (lm_recoverAfter l) (lm_retryRedisAt l).

Definition degraded_decision (d : RateDecision) : RateDecision :=
  mkRate (rd_Allowed d) (rd_Limit d) (rd_Remaining d) (rd_ResetAfter d) (rd_RetryAfter d) true.

(** The tail of [Allow]: the verdict of the in-memory backing. *)
Definition allow_memory (l : Limiter) (key : string) (limit : Limit) (now : Z) : Limiter * RateDecision :=
  let '(m, d) := memory_allow (lm_memory l) (l_Name limit +:+ ":" +:+ key) limit now in
  (set_memory l m, degraded_decision d).

(** [Allow]: [ctx_err] is the context's error, [raw] what the script call
    returns if it is made, [now] the clock and [now'] its second read, in
    [degrade].  The third result is the modes reported. *)
Definition Allow (l : Limiter) (ctx_err : option string) (raw : result string (list redis_value))
    (key : string) (limit : Limit) (now now' : Z) : result string RateDecision * Limiter * list Mode :=
  if bool_decide (l_Name limit = "") || (l_Burst limit <=? 0)%Z || (l_Window limit <=? 0)%Z
  then (Err "rate limit budget needs a name, a positive burst and a positive window", l, [])
  else match ctx_err with
  | Some err => (Err err, l, [])
  | None =>
    if useRedis l now then
      match decode_reply raw limit with
      | Ok d => let '(l, ev) := recover l in (Ok d, l, ev)
      | Err _ => let '(l, ev) := degrade l now' in
                 let '(l, d) := allow_memory l key limit now in (Ok d, l, ev)
      end
    else let '(l, d) := allow_memory l key limit now in (Ok d, l, [])
  end.

(** [BoundedLimiter.Allow]. *)
Definition Bounded_Allow (l : Limiter) (limit : Limit) (ctx_err : option string)
    (raw : result string (list redis_value)) (key : string) (now now' : Z) : bool * Limiter * list Mode :=
  let '(r, l, ev) := Allow l ctx_err raw key limit now now' in
  (match r with Ok d => rd_Allowed d | Err _ => false end, l, ev).

Definition Degraded (l : Limiter) : bool := negb (bool_decide (lm_mode l = ModeRedis)).

(** [New]'s options; a URL is absent, malformed or parsed by the client
    library, and [ping] is what the first ping answers. *)
Inductive redis_url : Type := NoURL | BadURL (err : string) | ParsedURL.

Definition New (url : redis_url) (replicas maxKeys recoverAfter : Z) (ping : option string) (now : Z) :
    result string (Limiter * list Mode) :=
  let replicas := if (replicas <? 1)%Z then 1%Z else replicas in
  let maxKeys := if (maxKeys <=? 0)%Z then 100000%Z else maxKeys in
  let recoverAfter := if (recoverAfter <=? 0)%Z then (5 * Second)%Z else recoverAfter in
  let memory := mkMemory ∅ replicas maxKeys in
  match url with
  | NoURL => Ok (mkLimiter false memory ModeMemory recoverAfter 0, [])
  | BadURL err => Err ("parse redis url: " +:+ err)
  | ParsedURL =>
      let l := mkLimiter true memory ModeRedis recoverAfter 0 in
      match ping with
      | None => Ok (l, [])
      | Some _ => Ok (degrade l now)
      end
  end.

(** ** Headers and identities *)

Definition ceilSeconds (d : Z) : Z :=
  if (d <=? 0)%Z then 0%Z else Z.quot (wrap64 (d + Second - 1)) Second.

(** The headers set, with the integers [Itoa] prints. *)
Definition SetHeaders (d : RateDecision) : list (string * Z) :=
  [("RateLimit-Limit", rd_Limit d); ("RateLimit-Remaining", rd_Remaining d);
   ("RateLimit-Reset", ceilSeconds (rd_ResetAfter d))] ++
  (if rd_Allowed d then [] else [("Retry-After", ceilSeconds (rd_RetryAfter d))]).

(** [Identity]: [host] is [clientAddr] of the remote address. *)
Definition Identity (p : option Principal) (host : string) : string :=
  let ip := "ip:" +:+ host in
  match p with
  | Some p =>
      if decide (p_Kind p = KindAnonymous) then ip
      else if decide (p_APIKeyID p <> "") then "key:" +:+ p_APIKeyID p
      else if decide (p_ID p <> "") then kind_string (p_Kind p) +:+ ":" +:+ p_ID p
      else ip
  | None => ip
  end.

(** ** The sliding window admits at most [limit] calls in any window *)

Section window.
Context {T : Type} `{SortedSetLaws T}.
Context (window limit : Z).

(** One run of the script: when it ran, by Redis's clock; what the caller
    read on its own clock before it sent the call; the member. *)
Record run : Type := mkRun { rn_at : Z; rn_now : Z; rn_member : string }.

(** The key, Redis's clock at the last run, and the runs that admitted. *)
Record wstate : Type := mkW { w_set : T; w_last : Z; w_adm : list run }.

Definition wstep (w : wstate) (r : run) : wstate * bool :=
  let s := expire (w_set w) (w_last w) (rn_at r) window in
  let '(s, (allowed, _, _)) := slidingWindow s (rn_now r) window limit (rn_member r) in
  let ok := bool_decide (allowed = 1%Z) in
  (mkW s (rn_at r) (if ok then r :: w_adm w else w_adm w), ok).

Fixpoint wrun (w : wstate) (runs : list run) : wstate :=
  match runs with
  | [] => w
  | r :: runs => wrun (wstep w r).1 runs
  end.

(** Runs in the order Redis made them: its clock does not go back. *)
Fixpoint in_order (last : Z) (runs : list run) : Prop :=
  match runs with
  | [] => True
  | r :: runs => (last <= rn_at r)%Z /\ in_order (rn_at r) runs
  end.

(** What a caller read is at most [late] behind and at most [early] ahead
    of Redis's clock when the script runs. *)
Context (late early : Z).

Definition read_within (r : run) : Prop := (rn_at r - late <= rn_now r <= rn_at r + early)%Z.

(** The interval of Redis's clock that ends at [t]. *)
Definition span : Z := (window - late - early)%Z.

Definition in_span (t : Z) (r : run) : Prop := (t - span < rn_at r <= t)%Z.

#[local] Instance in_span_dec t r : base.Decision (in_span t r).
Proof. unfold in_span. apply _. Defined.

(** How many runs admitted in the interval that ends at [t]. *)
Definition admitted_in (t : Z) (adm : list run) : nat := length (filter (in_span t) adm).

Definition entry_of (r : run) : string * Z := (rn_member r, rn_now r).

Record winv (w : wstate) : Prop := {
  wi_kept r : r ∈ w_adm w -> (w_last w - span < rn_at r)%Z -> entry_of r ∈ zelems (w_set w);
  wi_known m : m ∈ (zelems (w_set w)).*1 -> m ∈ map rn_member (w_adm w);
  wi_distinct : NoDup (map rn_member (w_adm w));
  wi_last r : r ∈ w_adm w -> read_within r /\ (rn_at r <= w_last w)%Z;
  wi_limit t : (Z.of_nat (admitted_in t (w_adm w)) <= limit)%Z;
}.

Lemma winv_initial last : (0 <= limit)%Z -> winv (mkW zempty last []).
Proof.
  intros Hl. constructor; cbn; try (intros ? Hp; by apply not_elem_of_nil in Hp).
  - intros m. rewrite zelems_empty. intros Hm. by apply not_elem_of_nil in Hm.
  - constructor.
  - intros t. cbn. lia.
Qed.

(** The set the script counts: what it trimmed the key to. *)
Definition trimmed (w : wstate) (r : run) : T :=
  zremrangebyscore (expire (w_set w) (w_last w) (rn_at r) window) (rn_now r - window).

(** Neither the trim nor the expiry takes a run of the interval that ends
    now, however far the reads of the clocks lie apart. *)
Lemma trimmed_keeps w r x : winv w -> (w_last w <= rn_at r)%Z -> read_within r ->
  x ∈ w_adm w -> (rn_at r - span < rn_at x)%Z -> entry_of x ∈ zelems (trimmed w r).
Proof.
  intros I Ho Hr Hx Hs. destruct (wi_last w I x Hx) as [Hw Hl]. unfold read_within, span in *. unfold trimmed.
  rewrite zelems_rem, list_elem_of_filter. split; [cbn; lia|]. unfold expire.
  rewrite (proj2 (Z.leb_gt _ _)) by lia. apply (wi_kept w I x Hx). unfold span. lia.
Qed.

Lemma trimmed_known w r m : winv w -> m ∈ (zelems (trimmed w r)).*1 -> m ∈ map rn_member (w_adm w).
Proof.
  intros I ([? z] & -> & Hin)%list_elem_of_fmap. unfold trimmed, expire in Hin.
  rewrite zelems_rem in Hin. apply list_elem_of_filter in Hin as [_ Hin]. destruct (_ <=? _)%Z.
  - rewrite zelems_empty in Hin. by apply not_elem_of_nil in Hin.
  - apply (wi_known w I), list_elem_of_fmap. by eexists.
Qed.

Lemma NoDup_map_filter {A B} (f : A -> B) (P : A -> Prop) `{!forall x, base.Decision (P x)} (l : list A) :
  NoDup (map f l) -> NoDup (map f (filter P l)).
Proof. intros N. eapply sublist_NoDup; [exact N|]. apply fmap_sublist, sublist_filter. Qed.

(** The count the script compares is at least that of the interval. *)
Lemma trimmed_counts w r : winv w -> (w_last w <= rn_at r)%Z -> read_within r ->
  (Z.of_nat (admitted_in (rn_at r) (w_adm w)) <= zcard (trimmed w r))%Z.
Proof.
  intros I Ho Hr. rewrite zcard_elems. apply inj_le. unfold admitted_in.
  rewrite <- (length_map entry_of). apply submseteq_length, NoDup_submseteq.
  - pose proof (NoDup_map_filter _ (in_span (rn_at r)) _ (wi_distinct w I)) as N.
    apply (NoDup_fmap_1 fst). change (NoDup (map fst (map entry_of (filter (in_span (rn_at r)) (w_adm w))))). by rewrite map_map.
  - intros e (x & -> & Hx)%list_elem_of_fmap. apply list_elem_of_filter in Hx as [Hs Hx]. unfold in_span in Hs.
    apply trimmed_keeps; [done|done|done|done|lia].
Qed.

Lemma wstep_inv w r : winv w -> (w_last w <= rn_at r)%Z -> read_within r -> rn_member r ∉ map rn_member (w_adm w) ->
  winv (wstep w r).1.
Proof.
  intros I Ho Hr Hm. pose proof (trimmed_counts w r I Ho Hr) as Hc. unfold wstep, slidingWindow.
  fold (trimmed w r). assert (forall x, x ∈ w_adm w -> read_within x /\ (rn_at x <= rn_at r)%Z) as Hl.
  { intros x Hx. destruct (wi_last w I x Hx). split; [done|lia]. }
  destruct (zcard (trimmed w r) <? limit)%Z eqn:Hlt; bool_prop; [rewrite bool_decide_eq_true_2 by done|]; cbn.
  2: { constructor; cbn; [|by intros m; apply trimmed_known|apply I|done|apply I]. intros x Hx Hs. by apply trimmed_keeps. }
  assert (rn_member r ∉ (zelems (trimmed w r)).*1) as Hn by (intros Hin; by eapply Hm, trimmed_known).
  constructor; cbn.
  - intros x [->|Hx]%elem_of_cons Hs; rewrite zelems_add by done; [by left|right; by apply trimmed_keeps].
  - intros m. rewrite zelems_add by done. cbn. rewrite !elem_of_cons. intros [->|Hin]; [by left|right; by eapply trimmed_known].
  - apply NoDup_cons. split; [done|apply I].
  - intros x [->|Hx]%elem_of_cons; [split; [done|lia]|by apply Hl].
  - intros t. unfold admitted_in. case_decide as Hs; [|apply I].
    change (Z.of_nat (S (admitted_in t (w_adm w))) <= limit)%Z.
    assert (admitted_in t (w_adm w) <= admitted_in (rn_at r) (w_adm w)); [|lia].
    apply filter_length_impl. intros x Hx. destruct (Hl x Hx). unfold in_span in *. lia.
Qed.

Lemma wstep_adm w r : w_last (wstep w r).1 = rn_at r /\
  forall m, m ∈ map rn_member (w_adm (wstep w r).1) -> m = rn_member r \/ m ∈ map rn_member (w_adm w).
Proof.
  unfold wstep. destruct (slidingWindow _ _ _ _ _) as [s [[a b] z]]. cbn. split; [done|]. intros m.
  case_bool_decide; cbn; [rewrite elem_of_cons; tauto|tauto].
Qed.

Lemma wrun_inv runs w : winv w -> in_order (w_last w) runs -> Forall read_within runs -> NoDup (map rn_member runs) ->
  (forall m, m ∈ map rn_member runs -> m ∉ map rn_member (w_adm w)) -> winv (wrun w runs).
Proof.
  revert w; induction runs as [|r runs IH]; intros w I Ho Hr Hd Hf; [done|]. cbn in *.
  destruct Ho as [Hn Ho]. apply NoDup_cons in Hd as [Hm Hd]. apply Forall_cons in Hr as [Hr Hrs].
  destruct (wstep_adm w r) as [El Hs]. apply IH; [|by rewrite El|done|done|].
  - apply wstep_inv; [done|done|done|]. apply Hf. by left.
  - intros x Hx [->|Hin]%Hs; [done|]. by apply (Hf x); [right|].
Qed.
End window.

(** A sorted set as a list, for the witnesses. *)
Fixpoint zleast (l : list (string * Z)) : option Z :=
  match l with
  | [] => None
  | (_, x) :: l => match zleast l with None => Some x | Some y => Some (Z.min x y) end
  end.

#[export] Instance list_SortedSet : SortedSet (list (string * Z)) := {
  zelems s := s;
  zremrangebyscore s x := filter (fun p => x < p.2)%Z s;
  zcard s := Z.of_nat (length s);
  zadd s x m := (m, x) :: filter (fun p => p.1 <> m) s;
  zfirst := zleast;
  zempty := [];
}.

#[export] Instance list_SortedSetLaws : SortedSetLaws (list (string * Z)).
Proof.
  split; try done.
  - intros s x m Hm. cbn. apply perm_skip. apply perm_eq.
    transitivity (filter (fun _ : string * Z => True) s).
    + apply filter_ext_in. intros p Hp. split; [done|]. intros _ <-. apply Hm.
      apply list_elem_of_fmap. by exists p.
    + clear. induction s as [|p s IH]; [done|]. by rewrite filter_cons_True, IH.
  - intros s. cbn. destruct s as [|[m x] s]; cbn; [done|]. by destruct (zleast s).
  - intros s. cbn. induction s as [|[m y] s IH]; intros x; cbn; [done|].
    destruct (zleast s) as [z|] eqn:E; intros [= <-].
    + destruct (IH z eq_refl) as [Hin Hle]. split.
      * destruct (Z.min_spec y z) as [[_ ->]|[_ ->]]; set_solver.
      * intros v [->|Hv]%elem_of_cons; [lia|]. specialize (Hle v Hv). lia.
    + assert (s = []) as -> by (destruct s as [|[? ?] s]; [done|cbn in E; by destruct (zleast s)]).
      set_solver.
Qed.

(** C29. The shared budget is a sliding window, up to how far the clocks
    lie apart.  Over any sequence of runs of the script on one key, in the
    order Redis made them, by any number of replicas and with distinct
    members: when what every caller read on its own clock is at most [late]
    behind and [early] ahead of Redis's clock at its run, no interval of
    Redis's clock of length [window - late - early], wherever it ends, holds
    more than [limit] admitted calls.  The reads need not be in order, and
    Redis expiring the key by its own clock changes nothing. *)
Theorem sliding_window_limit {T : Type} `{SortedSetLaws T} window limit late early last runs t :
  (0 <= limit)%Z -> in_order last runs -> Forall (read_within late early) runs -> NoDup (map rn_member runs) ->
  (Z.of_nat (admitted_in window late early t (w_adm (wrun window limit (mkW (T := T) zempty last []) runs))) <= limit)%Z.
Proof.
  intros Hl Ho Hr Hd. eapply wi_limit. apply wrun_inv; [by apply winv_initial|done|done|done|].
  intros m _ Hm. by apply not_elem_of_nil in Hm.
Qed.

(** Three calls of the first millisecond, a fourth a window later, and a
    fifth that was read before the fourth and reached Redis after it. *)
Definition overtaken : list run := [mkRun 1 1 "a"; mkRun 1 1 "b"; mkRun 1 1 "c"; mkRun 1001 1001 "d"; mkRun 1001 1000 "e"]%Z.

Lemma sliding_window_limit_witness :
  (Z.of_nat (admitted_in 1000 1 0 1001 (w_adm (wrun 1000 3 (mkW (T := list (string * Z)) zempty 0 []) overtaken))) <= 3)%Z.
Proof.
  apply sliding_window_limit; [lia|cbn; lia| |].
  - repeat constructor; cbn; lia.
  - apply (bool_decide_unpack _). vm_compute. exact I.
Defined.

(** By what the callers read, four of them are inside one window: the bound
    is one of Redis's clock, and the width it loses is needed. *)
Example reads_of_one_window_may_exceed_the_limit :
  map rn_now (w_adm (wrun 1000 3 (mkW (T := list (string * Z)) zempty 0 []) overtaken)) = [1000; 1001; 1; 1; 1]%Z.
Proof. vm_compute. reflexivity. Qed.

(** A refusal says when to come back, and it is right: if the script
    refuses a call and reports [reset], then a call made [reset]
    milliseconds later, with no call between, is admitted. *)
Theorem refused_call_may_retry {T : Type} `{SortedSetLaws T} (s s' : T) now window limit m m' remaining reset :
  (0 < limit)%Z -> (zcard s <= limit)%Z ->
  slidingWindow s now window limit m = (s', (0, remaining, reset))%Z ->
  (0 <= reset)%Z /\ remaining = 0%Z /\
  exists s'' r' z', slidingWindow s' (now + reset) window limit m' = (s'', (1, r', z'))%Z.
Proof.
  intros Hl Hs. unfold slidingWindow. set (s1 := zremrangebyscore s (now - window)).
  destruct (zcard s1 <? limit)%Z eqn:Hc; [by intros [=]|]. bool_prop.
  assert (Hcard : (zcard s1 <= zcard s)%Z).
  { rewrite !zcard_elems. unfold s1. rewrite zelems_rem. pose proof (length_filter (fun p => now - window < p.2)%Z (zelems s)). lia. }
  destruct (zfirst s1) as [oldest|] eqn:F.
  2: { apply zfirst_none in F. rewrite zcard_elems, F in Hc. cbn in Hc. lia. }
  pose proof (zfirst_least s1 oldest F) as [Hin Hle].
  assert (now - window < oldest)%Z.
  { apply list_elem_of_fmap in Hin as (p & -> & Hp). unfold s1 in Hp.
    rewrite zelems_rem in Hp. by apply list_elem_of_filter in Hp as [? _]. }
  rewrite (proj2 (Z.ltb_ge (oldest + window - now) 0)) by lia.
  intros [= <- <- <-]. split; [lia|]. split; [destruct (limit - zcard s1 <? 0)%Z eqn:?; bool_prop; lia|].
  set (s2 := zremrangebyscore s1 (now + (oldest + window - now) - window)).
  assert (Hc2 : (zcard s2 < zcard s1)%Z).
  { rewrite !zcard_elems. unfold s2. rewrite zelems_rem. apply inj_lt.
    apply list_elem_of_fmap in Hin as (p & -> & Hp).
    apply length_filter_lt with (x := p); [done|cbn; lia]. }
  rewrite (proj2 (Z.ltb_lt (zcard s2) limit)) by lia.
  destruct (zfirst _); by repeat eexists.
Qed.

Lemma refused_call_may_retry_witness :
  exists s'' r' z', slidingWindow (T := list (string * Z)) [("a", 0); ("b", 300)]%Z (400 + 600) 1000 2 "d"
    = (s'', (1, r', z'))%Z.
Proof.
  apply (refused_call_may_retry (T := list (string * Z)) [("a", 0); ("b", 300)]%Z _ 400 1000 2 "c" "d" 0 600);
    [lia|cbn; lia|reflexivity].
Defined.

(** ** The in-memory bucket *)

(** Positive finite floats in the order of their exponents and mantissas. *)
Definition pos_le (a b : float64) : bool :=
  match a, b with
  | S754_finite false m e, S754_finite false m' e' =>
      (e <? e')%Z || ((e =? e')%Z && (m <=? m')%positive)
  | _, _ => false
  end.

Lemma pos_le_not_lt a b : pos_le a b = true -> f_lt b a = false.
Proof.
  destruct a as [| | |[] m e], b as [| | |[] m' e']; try done. unfold f_lt, SFltb, SFcompare. cbn.
  intros Hp. destruct (Z.compare_spec e' e) as [->|Hlt|Hgt].
  - rewrite Z.ltb_irrefl in Hp. cbn in Hp. rewrite Z.eqb_refl in Hp. cbn in Hp.
    apply Pos.leb_le in Hp. fold (Pos.compare m' m).
    destruct (Pos.compare_spec m' m); try done. lia.
  - rewrite (proj2 (Z.ltb_ge e e')) in Hp by lia. rewrite (proj2 (Z.eqb_neq e e')) in Hp by lia. done.
  - done.
Qed.

Lemma pos_le_trans a b c : pos_le a b = true -> pos_le b c = true -> pos_le a c = true.
Proof.
  destruct a as [| | |[] m e], b as [| | |[] m' e'], c as [| | |[] m'' e'']; try done. cbn.
  rewrite !orb_true_iff, !andb_true_iff, !Z.ltb_lt, !Z.eqb_eq, !Pos.leb_le. lia.
Qed.

Definition ascends (n : nat) : bool := pos_le (f_of_Z (Z.of_nat (S n))) (f_of_Z (Z.of_nat (S (S n)))).

Lemma ascends_all : forallb ascends (seq 0 max_exact) = true.
Proof. vm_compute. reflexivity. Qed.

Lemma ascends_at n : n < max_exact -> ascends n = true.
Proof.
  intros H. pose proof ascends_all as E. rewrite forallb_forall in E. apply E, in_seq. lia.
Qed.

Lemma f_of_Z_pos n : n < max_exact -> exists m e, f_of_Z (Z.of_nat (S n)) = S754_finite false m e.
Proof.
  intros H%ascends_at. unfold ascends, pos_le in H.
  destruct (f_of_Z (Z.of_nat (S n))) as [| | |[] m e]; try done. by exists m, e.
Qed.

Lemma f_of_Z_pos_le n m :
  n <= m -> m < max_exact -> pos_le (f_of_Z (Z.of_nat (S n))) (f_of_Z (Z.of_nat (S m))) = true.
Proof.
  intros Hnm Hm. induction m as [|m IH].
  - destruct n as [|n]; [reflexivity|lia].
  - destruct (decide (n = S m)) as [->|].
    + destruct (f_of_Z_pos (S m) Hm) as (p & e & ->). cbn. by rewrite Z.eqb_refl, Pos.leb_refl, orb_true_r.
    + eapply pos_le_trans; [apply IH; lia|]. apply (ascends_at m). lia.
Qed.

Lemma f_of_Z_mono n m : n <= m -> m <= max_exact -> f_lt (f_of_Z (Z.of_nat m)) (f_of_Z (Z.of_nat n)) = false.
Proof.
  intros Hnm Hm. destruct m as [|m]; [by destruct n; [|lia]|].
  destruct n as [|n]; [|apply pos_le_not_lt, f_of_Z_pos_le; lia].
  by destruct (f_of_Z_pos m Hm) as (p & e & ->).
Qed.

(** [k] calls for one key at one instant, and their verdicts. *)
Fixpoint calls_at (k : nat) (m : memoryBacking) (key : string) (limit : Limit) (now : Z) : list (bool * Z) :=
  match k with
  | 0 => []
  | S k => let '(m, d) := memory_allow m key limit now in
           (rd_Allowed d, rd_Remaining d) :: calls_at k m key limit now
  end.

(** The verdicts a budget of [n] gives [k] calls that come at once. *)
Fixpoint burst_verdicts (k n : nat) : list (bool * Z) :=
  match k, n with
  | 0, _ => []
  | S k, S n => (true, Z.of_nat n) :: burst_verdicts k n
  | S k, 0 => (false, 0%Z) :: burst_verdicts k 0
  end.

Lemma refill_same_instant t cap rate now :
  f_lt cap t = false -> refill (mkBucket t now) cap rate now = mkBucket t now.
Proof.
  intros H. unfold refill. cbn [bk_last]. replace (time_sub now now) with 0%Z
    by (unfold time_sub; by rewrite Z.sub_diag).
  change (0 <? 0)%Z with false. cbn [bk_tokens]. by rewrite H.
Qed.

Lemma memory_allow_same_instant m key limit now n cap :
  effective_burst m (l_Burst limit) = Z.of_nat cap -> n <= cap -> cap <= max_exact ->
  mb_buckets m !! key = Some (mkBucket (f_of_Z (Z.of_nat n)) now) ->
  exists d, memory_allow m key limit now =
    (set_buckets m (<[ key := mkBucket (f_of_Z (Z.of_nat (pred n))) now ]> (mb_buckets m)), d) /\
    rd_Allowed d = negb (n =? 0) /\ rd_Remaining d = Z.of_nat (pred n) /\ rd_Limit d = Z.of_nat cap.
Proof.
  intros He Hn Hc Hb. unfold memory_allow. rewrite He, Hb.
  rewrite Hb. cbn [default from_option id]. rewrite refill_same_instant by (by apply f_of_Z_mono).
  cbn [bk_tokens bk_last]. destruct n as [|n]; cbn [pred].
  - change (f_le (f_of_Z 1) (f_of_Z (Z.of_nat 0))) with false. cbn iota. by eexists.
  - rewrite f_one_le, f_pred by lia. eexists. split; [done|]. cbn.
    by rewrite Z_of_f_small by lia.
Qed.

Lemma calls_at_burst k m key limit now n cap :
  effective_burst m (l_Burst limit) = Z.of_nat cap -> n <= cap -> cap <= max_exact ->
  mb_buckets m !! key = Some (mkBucket (f_of_Z (Z.of_nat n)) now) ->
  calls_at k m key limit now = burst_verdicts k n.
Proof.
  revert m n; induction k as [|k IH]; intros m n He Hn Hc Hb; [done|].
  destruct (memory_allow_same_instant m key limit now n cap He Hn Hc Hb) as (d & E & Ha & Hr & _).
  cbn [calls_at]. rewrite E, Ha, Hr. rewrite (IH _ (pred n)); [by destruct n|done|lia|done|].
  apply lookup_insert_eq.
Qed.

(** A replica's bucket gives a burst its budget and no more: [k] calls
    that arrive together for an identity not seen before are allowed exactly
    up to the replica's share of the budget, each reporting what is left,
    and the rest are refused; the float64 arithmetic loses nothing for
    shares up to 1024. *)
Theorem burst_gets_its_budget k m key limit now n :
  mb_buckets m !! key = None -> (map_len (mb_buckets m) < mb_maxKeys m)%Z ->
  effective_burst m (l_Burst limit) = Z.of_nat n -> n <= 1024 ->
  calls_at k m key limit now = burst_verdicts k n.
Proof.
  intros Hk Hm He Hn. destruct k as [|k]; [done|].
  assert (Hstep : memory_allow m key limit now =
    memory_allow (set_buckets m (<[ key := mkBucket (f_of_Z (Z.of_nat n)) now ]> (mb_buckets m))) key limit now).
  { unfold memory_allow. change (effective_burst (set_buckets m _) (l_Burst limit)) with (effective_burst m (l_Burst limit)).
    rewrite He, Hk. rewrite (proj2 (Z.leb_gt _ _)) by done. rewrite Hk.
    cbn [mb_buckets set_buckets]. rewrite lookup_insert_eq. cbn [mb_buckets set_buckets]. rewrite lookup_insert_eq.
    cbn [default from_option id]. destruct (f_le (f_of_Z 1) _); cbn; unfold set_buckets; cbn; by rewrite insert_insert_eq. }
  rewrite <-(calls_at_burst (S k) (set_buckets m (<[ key := mkBucket (f_of_Z (Z.of_nat n)) now ]> (mb_buckets m)))
    key limit now n n); [|done|done|exact Hn|apply lookup_insert_eq].
  cbn [calls_at]. by rewrite Hstep.
Qed.

Lemma burst_gets_its_budget_witness :
  calls_at 4 (mkMemory ∅ 2 100) "signin:ip:x" (mkLimit "signin" 5 Minute) 7 =
  [(true, 1); (true, 0); (false, 0); (false, 0)]%Z.
Proof.
  rewrite (burst_gets_its_budget 4 (mkMemory ∅ 2 100) "signin:ip:x" (mkLimit "signin" 5 Minute) 7 2);
    [reflexivity|reflexivity|reflexivity|reflexivity|lia].
Defined.

(** *** The map stays bounded *)

Lemma size_filter_le (P : string * bucket -> Prop) `{!forall x, base.Decision (P x)} (b : gmap string bucket) :
  size (filter P b) <= size b.
Proof. apply map_size_filter. Qed.

(** In a sorted list everything up to an index is at most what is there. *)
Lemma sorted_prefix (l : list Z) i c :
  StronglySorted Z.le l -> l !! i = Some c -> length (filter (fun x => c < x)%Z l) <= length l - S i.
Proof.
  revert l; induction i as [|i IH]; intros l Hs Hi.
  - destruct l as [|x l]; [done|]. cbn in Hi. injection Hi as ->. rewrite filter_cons_False by lia.
    cbn. pose proof (length_filter (fun x => c < x)%Z l). lia.
  - destruct l as [|x l]; [done|]. cbn in Hi. inversion Hs as [|? ? Hs' Hx]; subst.
    rewrite filter_cons_False; [cbn; by apply IH|].
    apply list_elem_of_lookup_2 in Hi. rewrite Forall_forall in Hx. specialize (Hx _ Hi). lia.
Qed.

Lemma last_seen_perm b : last_seen b ≡ₚ map (fun kv => bk_last kv.2) (map_to_list b).
Proof. apply merge_sort_Permutation. Qed.

Lemma size_filter_last (c : Z) (b : gmap string bucket) :
  size (filter (fun kv => c < bk_last kv.2)%Z b) = length (filter (fun x => c < x)%Z (last_seen b)).
Proof.
  rewrite last_seen_perm, map_filter_alt, map_size_list_to_map.
  2: { eapply sublist_NoDup; [apply (NoDup_fst_map_to_list b)|]. apply fmap_sublist, sublist_filter. }
  induction (map_to_list b) as [|kv l IH]; [done|]. cbn [map]. rewrite !filter_cons.
  repeat case_decide; cbn; by rewrite ?IH.
Qed.

Lemma evictLocked_size m now window :
  (1 <= mb_maxKeys m)%Z -> (map_len (mb_buckets m) <= mb_maxKeys m)%Z ->
  (map_len (mb_buckets (evictLocked m now window)) < mb_maxKeys m)%Z /\
  mb_maxKeys (evictLocked m now window) = mb_maxKeys m.
Proof.
  intros H1 Hm. unfold evictLocked.
  set (bs := filter _ (mb_buckets m)). destruct (map_len bs <? mb_maxKeys m)%Z eqn:E.
  { bool_prop. done. }
  bool_prop. split; [|done]. cbn [mb_buckets set_buckets].
  assert (Hle : (map_len bs <= map_len (mb_buckets m))%Z).
  { unfold map_len. pose proof (size_filter_le (fun kv => (time_sub now (bk_last kv.2) < window)%Z) (mb_buckets m)).
    fold bs in H. lia. }
  assert (Hlen : length (last_seen bs) = size bs).
  { rewrite last_seen_perm, length_map. by rewrite length_map_to_list. }
  unfold map_len in *. rewrite size_filter_last.
  set (i := length (last_seen bs) / 2). assert (Hi : i < length (last_seen bs)).
  { unfold i. apply Nat.div_lt; lia. }
  destruct (lookup_lt_is_Some_2 _ _ Hi) as [c Hc]. rewrite Hc. cbn [default from_option id].
  pose proof (sorted_prefix (last_seen bs) i c) as Hp.
  assert (StronglySorted Z.le (last_seen bs)) by (apply (StronglySorted_merge_sort Z.le)).
  specialize (Hp H Hc). lia.
Qed.

(** The map the call's bucket is written into, and what is written. *)
Definition room (m : memoryBacking) (key : string) (limit : Limit) (now : Z) : memoryBacking :=
  match mb_buckets m !! key with
  | None => if (mb_maxKeys m <=? map_len (mb_buckets m))%Z
            then evictLocked m now (l_Window limit) else m
  | Some _ => m
  end.

Lemma memory_allow_buckets m key limit now :
  exists b, (memory_allow m key limit now).1 =
            set_buckets (room m key limit now) (<[ key := b ]> (mb_buckets (room m key limit now))).
Proof.
  unfold memory_allow, room. destruct (f_le (f_of_Z 1) _); by eexists.
Qed.

Lemma memory_allow_bounded m key limit now :
  (1 <= mb_maxKeys m)%Z -> (map_len (mb_buckets m) <= mb_maxKeys m)%Z ->
  let m' := (memory_allow m key limit now).1 in
  mb_maxKeys m' = mb_maxKeys m /\ (map_len (mb_buckets m') <= mb_maxKeys m)%Z.
Proof.
  intros H1 Hm. cbn zeta. destruct (memory_allow_buckets m key limit now) as [b ->].
  cbn [set_buckets mb_maxKeys mb_buckets].
  pose proof (evictLocked_size m now (l_Window limit) H1 Hm) as [He Hk].
  unfold room. destruct (mb_buckets m !! key) as [b'|] eqn:Hb.
  - split; [done|]. unfold map_len. rewrite map_size_insert_Some by eauto. done.
  - assert (Hi : forall bs : gmap string bucket, (map_len (<[ key := b ]> bs) <= map_len bs + 1)%Z).
    { intros bs. unfold map_len. rewrite map_size_insert. destruct (bs !! key); unfold id; lia. }
    destruct (mb_maxKeys m <=? map_len (mb_buckets m))%Z eqn:E; bool_prop.
    + split; [done|]. specialize (Hi (mb_buckets (evictLocked m now (l_Window limit)))). lia.
    + split; [done|]. specialize (Hi (mb_buckets m)). lia.
Qed.

(** The bucket map never holds more than [maxKeys] identities, whatever
    calls arrive and whatever their keys, budgets and times. *)
Theorem buckets_stay_bounded (calls : list (string * Limit * Z)) divisor maxKeys :
  (1 <= maxKeys)%Z ->
  let m := foldl (fun m c => (memory_allow m c.1.1 c.1.2 c.2).1) (mkMemory ∅ divisor maxKeys) calls in
  (map_len (mb_buckets m) <= maxKeys)%Z.
Proof.
  intros H1. cbn zeta.
  assert (Hg : forall m, mb_maxKeys m = maxKeys -> (map_len (mb_buckets m) <= maxKeys)%Z ->
    (map_len (mb_buckets (foldl (fun m c => (memory_allow m c.1.1 c.1.2 c.2).1) m calls)) <= maxKeys)%Z).
  2: { apply Hg; [done|]. unfold map_len. cbn [mb_buckets]. rewrite map_size_empty. lia. }
  induction calls as [|c calls IH]; intros m Hk Hm; [done|]. cbn [foldl].
  destruct (memory_allow_bounded m c.1.1 c.1.2 c.2) as [E1 E2]; [by rewrite Hk|by rewrite Hk|].
  apply IH; congruence.
Qed.

Lemma buckets_stay_bounded_witness :
  (map_len (mb_buckets (foldl (fun m c => (memory_allow m c.1.1 c.1.2 c.2).1) (mkMemory ∅ 1 2)
     [("a", bg_ToolCall DefaultBudgets, 1); ("b", bg_ToolCall DefaultBudgets, 2);
      ("c", bg_ToolCall DefaultBudgets, 3)]%Z)) <= 2)%Z.
Proof. apply buckets_stay_bounded. lia. Defined.

(** *** What an eviction loses *)

(** The verdicts of a sequence of calls. *)
Fixpoint verdicts (m : memoryBacking) (calls : list (string * Limit * Z)) : list bool :=
  match calls with
  | [] => []
  | c :: calls => let '(m, d) := memory_allow m c.1.1 c.1.2 c.2 in rd_Allowed d :: verdicts m calls
  end.

Definition registrations (now : Z) : list (string * Limit * Z) :=
  repeat ("register:ip:a", bg_Register DefaultBudgets, now) 5.

Definition tool_caller (k : string) (now : Z) : string * Limit * Z :=
  ("tool_call:" +:+ k, bg_ToolCall DefaultBudgets, now).

(** An eviction can change a verdict: the eviction judges every bucket
    by the window of the call that triggers it, so a registration budget (5
    an hour) spent a minute ago is dropped by a tool call (a one-minute
    window) that finds the map full, and the next registration, refused
    without that tool call, is allowed. *)
Theorem eviction_changes_verdict :
  let later := (61 * Second)%Z in
  let m := mkMemory ∅ 1 2 in
  let again := ("register:ip:a", bg_Register DefaultBudgets, later) in
  last (verdicts m (registrations 0 ++ [tool_caller "x" 1; again])) = Some false /\
  last (verdicts m (registrations 0 ++ [tool_caller "x" 1; tool_caller "y" later; again])) = Some true.
Proof. split; vm_compute; reflexivity. Qed.

(** ** The limiter's verdicts *)

Lemma memory_allow_limit m key limit now :
  rd_Limit (memory_allow m key limit now).2 = effective_burst m (l_Burst limit).
Proof. unfold memory_allow. by destruct (f_le _ _). Qed.

(** The floor of one call per window: a budget is never divided to nothing. *)
Lemma effective_burst_pos m burst : (1 <= effective_burst m burst)%Z.
Proof. unfold effective_burst. destruct (_ <? 1)%Z eqn:E; bool_prop; lia. Qed.

Definition usable (limit : Limit) : Prop :=
  l_Name limit <> "" /\ (0 < l_Burst limit)%Z /\ (0 < l_Window limit)%Z.

Lemma Allow_usable l raw key limit now now' :
  usable limit ->
  Allow l None raw key limit now now' =
    if useRedis l now then
      match decode_reply raw limit with
      | Ok d => let '(l, ev) := recover l in (Ok d, l, ev)
      | Err _ => let '(l, ev) := degrade l now' in
                 let '(l, d) := allow_memory l key limit now in (Ok d, l, ev)
      end
    else let '(l, d) := allow_memory l key limit now in (Ok d, l, []).
Proof.
  intros (Hn & Hb & Hw). unfold Allow.
  rewrite bool_decide_eq_false_2 by done.
  rewrite (proj2 (Z.leb_gt (l_Burst limit) 0)), (proj2 (Z.leb_gt (l_Window limit) 0)) by done. done.
Qed.

Lemma allow_memory_spec l key limit now :
  let '(l', d) := allow_memory l key limit now in
  rd_Limit d = effective_burst (lm_memory l) (l_Burst limit) /\ rd_Degraded d = true /\
  lm_redis l' = lm_redis l /\ lm_mode l' = lm_mode l /\ lm_retryRedisAt l' = lm_retryRedisAt l.
Proof.
  unfold allow_memory.
  pose proof (memory_allow_limit (lm_memory l) (l_Name limit +:+ ":" +:+ key) limit now) as H.
  destruct (memory_allow _ _ _ _) as [m d]. cbn in *. by split_and!.
Qed.

(** A usable budget on a live context always gets a verdict, whatever
    Redis answers: the shared one when Redis serves it, and otherwise the
    replica's own, marked degraded, under its share of the budget, which is
    at least one call.  After a Redis failure no call tries Redis again
    before [recoverAfter] has passed. *)
Theorem Allow_always_decides l raw key limit now now' :
  usable limit ->
  exists d l' ev, Allow l None raw key limit now now' = (Ok d, l', ev) /\
  (useRedis l now = true -> forall d0, decode_reply raw limit = Ok d0 -> d = d0 /\ Degraded l' = false) /\
  (useRedis l now = false \/ (exists e, decode_reply raw limit = Err e) ->
     rd_Degraded d = true /\ rd_Limit d = effective_burst (lm_memory l) (l_Burst limit) /\ (1 <= rd_Limit d)%Z) /\
  (useRedis l now = true -> (exists e, decode_reply raw limit = Err e) ->
     lm_mode l' = ModeFallback /\
     forall t, (t < now' + lm_recoverAfter l)%Z -> useRedis l' t = false).
Proof.
  intros Hu. rewrite Allow_usable by done. destruct (useRedis l now) eqn:Hr.
  - destruct (decode_reply raw limit) as [d|e] eqn:Hd.
    + destruct (recover l) as [l' ev] eqn:Hrec. unfold recover in Hrec. injection Hrec as <- _.
      eexists d, _, ev. split_and!; [done|..].
      * intros _ d0 [= ->]. by split.
      * by intros [?|[? ?]].
      * by intros _ [? ?].
    + pose proof (allow_memory_spec (degrade l now').1 key limit now) as Hs.
      destruct (degrade l now') as [l1 ev] eqn:Hg. cbn [fst] in Hs.
      destruct (allow_memory l1 key limit now) as [l' d]. destruct Hs as (H1 & H2 & H3 & H4 & H5).
      unfold degrade in Hg. injection Hg as <- _. cbn in *.
      exists d, l', ev. split_and!; try done.
      * intros _. split_and!; [done|done|]. rewrite H1. apply effective_burst_pos.
      * intros _ _. split; [done|]. intros t Ht. unfold useRedis. rewrite H3, H4, H5.
        destruct (lm_redis l); [|done]. cbn. rewrite decide_False by done. by apply Z.leb_gt.
  - pose proof (allow_memory_spec l key limit now) as Hs.
    destruct (allow_memory l key limit now) as [l' d]. destruct Hs as (H1 & H2 & _).
    exists d, l', []. split_and!; try done. intros _. split_and!; [done|done|].
    rewrite H1. apply effective_burst_pos.
Qed.

(** A limiter on a Redis that has stopped answering. *)
Definition broken_redis : Limiter := mkLimiter true (mkMemory ∅ 3 100) ModeRedis (5 * Second) 0.

Lemma Allow_always_decides_witness :
  exists d l' ev, Allow broken_redis None (Err "i/o timeout") "k" (mkLimit "signin" 2 Minute) 7 9 = (Ok d, l', ev)
  /\ rd_Limit d = 1%Z.
Proof.
  destruct (Allow_always_decides broken_redis (Err "i/o timeout") "k" (mkLimit "signin" 2 Minute) 7 9)
    as (d & l' & ev & E & _ & H & _); [by split_and!|].
  exists d, l', ev. split; [exact E|]. apply H. right. by eexists.
Defined.
