(* ===== verification/Compliance.v ===== *)
(** * Compliance: the access review's effective permissions (internal/compliance/access.go)

    The review computes for itself what [Authz.Evaluate] would answer at
    workspace scope: [effective] from a principal's bindings, and
    [narrowByScopes] on top for a credential.  The theorems compare the two
    computations, and [EffectivePermissions] with both. *)

From S2P Require Import Prelude Authz.

Record Binding : Type := mkReviewBinding {
  rb_ID : string;
  rb_RoleID : string;
  rb_RoleName : string;
  rb_ScopeKind : string;
  rb_ScopeID : string;
  rb_Source : string;
  rb_ExpiresAt : option Z;
  rb_Expired : bool;
  rb_Permissions : list string;
  rb_Privileged : list string;
}.

Definition rb_lapsed (b : Binding) (now : Z) : bool :=
  match rb_ExpiresAt b with Some t => (t <? now)%Z | None => false end.

(** The inner loop of [effective]: [None] when the wildcard returns. *)
Fixpoint add_perms (perms : list string) (set : gset string) : option (gset string) :=
  match perms with
  | [] => Some set
  | perm :: perms => if decide (perm = Wildcard) then None else add_perms perms ({[ perm ]} ∪ set)
  end.

Fixpoint effective_set (bs : list Binding) (now : Z) (set : gset string) : option (gset string) :=
  match bs with
  | [] => Some set
  | b :: bs =>
      if decide (rb_ScopeKind b <> "org") then effective_set bs now set
      else if rb_lapsed b now then effective_set bs now set
      else set ← add_perms (rb_Permissions b) set; effective_set bs now set
  end.

Definition effective (bs : list Binding) (now : Z) : list string :=
  match effective_set bs now ∅ with
  | None => Wildcard :: All
  | Some set => sorted_perms set
  end.

(** The set [allowed] that [narrowByScopes] builds. *)
Definition allowed_by_scopes (scopes : list string) : gset string :=
  (if hasScope scopes ScopeToolsRead || hasScope scopes ScopeToolsInvoke then {[ ToolsRead ]} else ∅) ∪
  (if hasScope scopes ScopeToolsInvoke then {[ ToolsInvoke; ToolsInvokeDestr ]} else ∅).

Definition narrowByScopes (ownerPerms scopes : list string) : list string :=
  if bool_decide (scopes = []) || hasScope scopes ScopeOrg then ownerPerms
  else filter (fun perm => perm ∈ allowed_by_scopes scopes) ownerPerms.

Definition privileged : gset string :=
  list_to_set [Wildcard; OrgDelete; OrgMembersManage; OrgSettingsManage; OrgBillingManage; RolesManage;
    APIKeysOrg; ServiceAccounts; IdpManage; ScimManage; AuditExport; AuditPolicy; ApprovalsDecide;
    DLPManage; RevisionsRollback; SecretsRotate; ToolsInvokeDestr; ConnectorsAuth; ConnectorsDelete;
    ServersDelete].

(** The loop of [credentialFindings] that looks for a privileged
    permission: the one it reports, if any. *)
Definition privileged_finding (effective : list string) : option string :=
  List.find (fun perm => bool_decide (perm ∈ privileged)) effective.

(** ** The two readings of one role binding *)

(** A review binding as [load] scans the same row. *)
Definition to_binding (b : Binding) : binding :=
  mkBinding (rb_RoleID b) (rb_ScopeKind b) (rb_ScopeID b) (list_to_set (rb_Permissions b)) (rb_ExpiresAt b).

(** The resource of a request about the workspace as a whole. *)
Definition workspace_resource : Resource := mkResource "" "" "" "" false.

Definition counts (b : Binding) (now : Z) : Prop :=
  rb_ScopeKind b = "org" /\ rb_lapsed b now = false.

Lemma add_perms_spec perms set :
  match add_perms perms set with
  | None => Wildcard ∈ perms
  | Some set' => (Wildcard ∉ perms) /\ (forall q, q ∈ set' <-> q ∈ set \/ q ∈ perms)
  end.
Proof.
  revert set; induction perms as [|perm perms IH]; intros set; cbn; [set_solver|].
  case_decide as E; [rewrite E; by left|].
  specialize (IH ({[perm]} ∪ set)). destruct (add_perms perms _) as [set'|]; [|by right].
  destruct IH as [H1 H2]. split; [set_solver|]. intros q. rewrite H2. set_solver.
Qed.

(** What the loop over the bindings returns. *)
Definition eff_spec (bs : list Binding) (now : Z) (set : gset string) (res : option (gset string)) : Prop :=
  match res with
  | None => exists b, b ∈ bs /\ counts b now /\ Wildcard ∈ rb_Permissions b
  | Some set' =>
      (forall b, b ∈ bs -> counts b now -> Wildcard ∉ rb_Permissions b) /\
      (forall q, q ∈ set' <-> q ∈ set \/ exists b, b ∈ bs /\ counts b now /\ q ∈ rb_Permissions b)
  end.

Lemma eff_spec_skip b bs now set res :
  ~ counts b now -> eff_spec bs now set res -> eff_spec (b :: bs) now set res.
Proof.
  intros Hn. destruct res as [set'|]; cbn.
  - intros [H1 H2]. split; [intros b0 [->|]%elem_of_cons Hc; [done|by apply H1]|].
    intros q. rewrite H2. setoid_rewrite elem_of_cons. naive_solver.
  - intros (b0 & ? & ? & ?). exists b0. split; [by right|done].
Qed.

Lemma effective_set_spec bs now set : eff_spec bs now set (effective_set bs now set).
Proof.
  revert set; induction bs as [|b bs IH]; intros set; cbn [effective_set].
  { split; [set_solver|]. intros q. split; [auto|]. intros [?|(? & ?%not_elem_of_nil & _)]; done. }
  case_decide as Ek; [apply eff_spec_skip; [unfold counts; tauto|apply IH]|].
  destruct (rb_lapsed b now) eqn:El;
    [apply eff_spec_skip; [intros [_ ?]; congruence|apply IH]|].
  assert (Hc : counts b now) by (split; [destruct (decide (rb_ScopeKind b = "org")); tauto|done]).
  pose proof (add_perms_spec (rb_Permissions b) set) as A.
  destruct (add_perms (rb_Permissions b) set) as [s|]; cbn [mbind option_bind].
  2: { exists b. split; [by left|done]. }
  destruct A as [A1 A2]. specialize (IH s). destruct (effective_set bs now s) as [set'|].
  - destruct IH as [H1 H2]. split; [intros b0 [->|]%elem_of_cons Hb; [done|by apply H1]|].
    intros q. rewrite H2, A2. setoid_rewrite elem_of_cons. naive_solver.
  - destruct IH as (b0 & ? & ? & ?). exists b0. split; [by right|done].
Qed.

Lemma effective_spec bs now perm :
  perm ∈ All ->
  perm ∈ effective bs now <->
  exists b, b ∈ bs /\ counts b now /\ (Wildcard ∈ rb_Permissions b \/ perm ∈ rb_Permissions b).
Proof.
  intros Ha. unfold effective. pose proof (effective_set_spec bs now ∅) as S.
  destruct (effective_set bs now ∅) as [set|].
  - destruct S as [S1 S2]. rewrite sorted_perms_elem, S2. set_solver.
  - destruct S as (b & ? & ? & ?). split; [intros _; exists b; auto|intros _; by right].
Qed.

Lemma narrowByScopes_spec owner scopes perm :
  perm ∈ narrowByScopes owner scopes <->
  perm ∈ owner /\ (scopes = [] \/ ScopeOrg ∈ scopes \/
    (perm = ToolsRead /\ (ScopeToolsRead ∈ scopes \/ ScopeToolsInvoke ∈ scopes)) \/
    ((perm = ToolsInvoke \/ perm = ToolsInvokeDestr) /\ ScopeToolsInvoke ∈ scopes)).
Proof.
  unfold narrowByScopes, allowed_by_scopes.
  rewrite <-!(hasScope_spec scopes).
  destruct (decide (scopes = [])) as [->|Hne]; [cbn; tauto|].
  rewrite (bool_decide_eq_false_2 (scopes = [])) by done. cbn [orb].
  destruct (hasScope scopes ScopeOrg); cbn [orb]; [tauto|]. rewrite list_elem_of_filter.
  destruct (hasScope scopes ScopeToolsRead), (hasScope scopes ScopeToolsInvoke); cbn [orb];
    rewrite ?elem_of_union, ?elem_of_singleton; set_solver.
Qed.

(** ** Properties *)

Section review.
Context (c : cacheEntry) (bs : list Binding) (now : Z).
Context (Hbs : ce_bindings c = map to_binding bs).

(** What holds at workspace scope is what a counted binding grants. *)
Lemma entry_may_workspace perm :
  entry_may c now perm workspace_resource <->
  exists b, b ∈ bs /\ counts b now /\ (Wildcard ∈ rb_Permissions b \/ perm ∈ rb_Permissions b).
Proof.
  unfold entry_may. cbn. split.
  - intros [(b & [Hb Hl Hr] & Hh) _]. rewrite Hbs in Hb.
    apply list_elem_of_fmap in Hb as (b' & -> & Hb'). exists b'. split; [done|]. split; [split|].
    + destruct Hr as [?|[[_ [? _]]|[[_ [? _]]|[_ [? _]]]]]; done.
    + unfold rb_lapsed. apply (proj2 (expired_spec (to_binding b') now)) in Hl. exact Hl.
    + unfold holds in Hh. cbn in Hh. by rewrite !elem_of_list_to_set in Hh.
  - intros (b & Hb & [Hk Hl] & Hh). split_and!; [|done|done|done].
    exists (to_binding b). split.
    + constructor; [rewrite Hbs; apply list_elem_of_fmap; by exists b| |by left].
      by apply (proj1 (expired_spec (to_binding b) now)).
    + unfold holds. cbn. by rewrite !elem_of_list_to_set.
Qed.
End review.

(** The access review agrees with the evaluator: over the same bindings,
    a permission other than [scim:manage] is in [narrowByScopes (effective
    ..)] exactly when [Evaluate] allows that credential to use it on the
    workspace as a whole. *)
Theorem review_agrees_with_Evaluate e db p perm t_hit t_at now c e' bs :
  load e db p t_hit t_at = (Ok c, e') -> ce_bindings c = map to_binding bs ->
  p_Kind p <> KindAnonymous -> p_OrgID p <> "" -> perm ∈ All -> perm <> ScimManage ->
  perm ∈ narrowByScopes (effective bs now) (p_Scopes p) <->
  exists e'', Evaluate e db (Some p) perm workspace_resource t_hit t_at now =
    (Ok (mkDecision true ""), e'').
Proof.
  intros L Hbs Hk Ho Ha Hs. rewrite Evaluate_allow_char, narrowByScopes_spec, effective_spec by done.
  rewrite <-(entry_may_workspace c bs now Hbs perm). split.
  - intros [Hm Hsc]. exists p, c, e'. split_and!; [done|done|]. apply may_split.
    split; [|done]. split_and!; [done|done|by left|by right; left|]. unfold scope_permits. tauto.
  - intros (? & c' & e'' & [= <-] & L' & [(_ & _ & _ & Hsc) Hm]%may_split).
    rewrite L in L'. injection L' as <- <-. split; [done|].
    unfold scope_permits in Hsc. tauto.
Qed.

Definition example_review : list Binding :=
  [mkReviewBinding "b1" "adm" "Admin" "org" "" "manual" None false ["*"] ["*"]].

Definition example_review_db : authz_db :=
  mkDB [mkBindingRow "o" "adm" "user" "u" "org" None None] [mkRoleRow "adm" ["*"]]
       [mkMemberRow "o" "u" None] [].

Definition key_with (scopes : list string) : Principal :=
  mkPrincipal KindAPIKey "u" "o" "" "k1" "" "" scopes false "api_key" "" false example_signin.

Lemma review_agrees_with_Evaluate_witness :
  ToolsRead ∈ narrowByScopes (effective example_review 0) ["mcp:tools:read"] <->
  exists e'', Evaluate (New false) (Some example_review_db) (Some (key_with ["mcp:tools:read"]))
    ToolsRead workspace_resource 0 0 0 = (Ok (mkDecision true ""), e'').
Proof.
  eapply (review_agrees_with_Evaluate (New false) (Some example_review_db)
    (key_with ["mcp:tools:read"]) ToolsRead 0 0 0); try reflexivity; try discriminate.
  apply (bool_decide_unpack _). vm_compute. exact I.
Defined.

(** The one permission on which the review and the evaluator part: a
    credential whose only scope is [scim:write], acting for a principal that
    holds [scim:manage] on the workspace, is allowed [scim:manage] by
    [Evaluate], while the review gives the same credential no permission at
    all and so never reports it as a privileged credential. *)
Theorem scim_credential_missing_from_review e db p t_hit t_at now c e' bs :
  load e db p t_hit t_at = (Ok c, e') -> ce_bindings c = map to_binding bs ->
  p_Kind p <> KindAnonymous -> p_OrgID p <> "" -> p_Scopes p = [ScopeSCIM] ->
  ScimManage ∈ effective bs now ->
  (exists e'', Evaluate e db (Some p) ScimManage workspace_resource t_hit t_at now =
    (Ok (mkDecision true ""), e'')) /\
  narrowByScopes (effective bs now) (p_Scopes p) = [] /\
  privileged_finding (narrowByScopes (effective bs now) (p_Scopes p)) = None /\
  privileged_finding [ScimManage] = Some ScimManage.
Proof.
  intros L Hbs Hk Ho Hs Hm. assert (Hall : ScimManage ∈ All) by (apply (bool_decide_unpack _); by vm_compute).
  assert (Hn : narrowByScopes (effective bs now) (p_Scopes p) = []).
  { apply elem_of_nil_inv. intros q Hq%narrowByScopes_spec. rewrite Hs in Hq.
    destruct Hq as [_ [?|[?|[[_ ?]|[_ ?]]]]]; set_solver. }
  split; [|split_and!; [done|by rewrite Hn|by vm_compute]].
  apply Evaluate_allow_char. exists p, c, e'. split_and!; [done|done|]. apply may_split. split.
  - split_and!; [done|done|by left|by right; left|]. unfold scope_permits. rewrite Hs.
    do 4 right. split; [done|]. by apply list_elem_of_singleton.
  - apply (entry_may_workspace c bs now Hbs). by apply effective_spec.
Qed.

Lemma scim_credential_missing_from_review_witness :
  narrowByScopes (effective example_review 0) ["scim:write"] = [].
Proof.
  eapply (scim_credential_missing_from_review (New false) (Some example_review_db)
    (key_with ["scim:write"]) 0 0 0); try reflexivity; try discriminate.
  apply (bool_decide_unpack _). vm_compute. exact I.
Defined.

(** *** EffectivePermissions *)

(** [EffectivePermissions] lists a permission of the closed set exactly
    when some workspace binding that was loaded carries it or the wildcard,
    whether or not that binding has expired: it can list what [Evaluate]
    refuses. *)
Theorem EffectivePermissions_ignores_expiry e db p t_hit t_at c e' perm :
  load e db p t_hit t_at = (Ok c, e') -> perm ∈ All ->
  exists out, EffectivePermissions e db p t_hit t_at = (Ok out, e') /\
    (perm ∈ out <-> exists b, b ∈ ce_bindings c /\ b_scopeKind b = "org" /\ holds b perm) /\
    (forall now, (forall b, b ∈ ce_bindings c -> expired b now = true) ->
      forall r e'', Evaluate e db (Some p) perm r t_hit t_at now <> (Ok (mkDecision true ""), e'')).
Proof.
  intros L Ha. unfold EffectivePermissions. rewrite L. eexists. split; [done|]. split.
  - pose proof (collect_perms_spec (ce_bindings c) ∅) as S. unfold holds.
    destruct (collect_perms (ce_bindings c) ∅) as [set|].
    + destruct S as [S1 S2]. rewrite sorted_perms_elem, S2. set_solver.
    + destruct S as (b & ? & ? & ?). split; [intros _; exists b; auto|intros _; by right].
  - intros now Hx r e'' E.
    destruct (proj1 (Evaluate_allow_char e db (Some p) perm r t_hit t_at now) (ex_intro _ e'' E))
      as (? & c' & ? & [= <-] & L' & M). rewrite L in L'. injection L' as <- <-.
    destruct (may_granted _ _ _ _ _ M) as (b & [Hb Hl _] & _).
    apply expired_spec in Hl. rewrite Hx in Hl; done.
Qed.

Definition example_expired_db : authz_db :=
  mkDB [mkBindingRow "o" "adm" "user" "u" "org" None (Some 5%Z)] [mkRoleRow "adm" ["tools:read"]]
       [mkMemberRow "o" "u" None] [].

Lemma EffectivePermissions_ignores_expiry_witness :
  exists out e', EffectivePermissions (New false) (Some example_expired_db) (key_with []) 9 9 = (Ok out, e')
    /\ out = [ToolsRead].
Proof.
  edestruct (EffectivePermissions_ignores_expiry (New false) (Some example_expired_db) (key_with [])
    9 9) as (out & E & _); [reflexivity|apply (bool_decide_unpack (ToolsRead ∈ All)); vm_compute; exact I|].
  exists out. eexists. split; [exact E|]. vm_compute in E. injection E. auto.
Defined.
