(* ===== verification/GenCache.v ===== *)
(** * GenCache: what a generation-guarded cache promises

    The authorisation evaluator (internal/authz) and the data-loss policies
    (internal/dlp) each keep a per-process cache of what they read from the
    database, and guard it the same way: a load remembers two generation
    counters under the lock, reads the database without the lock, and stores
    what it read only if neither counter has moved.  This file states that
    contract once: the operations ([GenCache]), their laws
    ([GenCacheLaws]), the interleavings of loads, writes and invalidations
    as a step relation, and the freshness theorem every instance inherits. *)

From S2P Require Import Prelude.

(** [K] is a cache key, [E] an entry, [S] the cache's state.  A token is the
    pair (full flushes, this organisation's invalidations). *)
Class GenCache (S K E : Type) : Type := {
  gc_org : K -> string;
  gc_get : S -> K -> option E;
  gc_token : S -> string -> Z * Z;
  gc_store : S -> K -> Z * Z -> E -> S;
  gc_inv_key : S -> K -> S;
  gc_inv_org : S -> string -> S;
  gc_inv_all : S -> S;
}.

(** The counters are uint64; [gc_max] is one past the last value. *)
Definition gc_max : Z := 2 ^ 64.

Class GenCacheLaws (S K E : Type) `{EqDecision K} `{GenCache S K E} : Prop := {
  gc_get_store s k tok e k' :
    gc_get (gc_store s k tok e) k' =
      if decide (gc_token s (gc_org k) = tok /\ k = k') then Some e else gc_get s k';
  gc_token_store s k tok e o : gc_token (gc_store s k tok e) o = gc_token s o;
  gc_get_inv_key s k : gc_get (gc_inv_key s k) k = None;
  gc_get_inv_key_sub s k k' e : gc_get (gc_inv_key s k) k' = Some e -> gc_get s k' = Some e;
  gc_get_inv_org s o k : gc_org k = o -> gc_get (gc_inv_org s o) k = None;
  gc_get_inv_org_sub s o k e : gc_get (gc_inv_org s o) k = Some e -> gc_get s k = Some e;
  gc_get_inv_all s k : gc_get (gc_inv_all s) k = None;
  gc_token_inv_key s k o : (0 <= (gc_token s (gc_org k)).2 < gc_max - 1)%Z ->
    gc_token (gc_inv_key s k) o =
      if decide (gc_org k = o) then ((gc_token s o).1, (gc_token s o).2 + 1)%Z else gc_token s o;
  gc_token_inv_org s o o' : (0 <= (gc_token s o).2 < gc_max - 1)%Z ->
    gc_token (gc_inv_org s o) o' =
      if decide (o = o') then ((gc_token s o').1, (gc_token s o').2 + 1)%Z else gc_token s o';
  gc_token_inv_all s o : (0 <= (gc_token s o).1 < gc_max - 1)%Z ->
    gc_token (gc_inv_all s) o = ((gc_token s o).1 + 1, 0)%Z;
}.

Section system.
Context {S K E DB : Type} `{EqDecision K} `{GenCache S K E} `{!GenCacheLaws S K E}.
(** [built db db2 k e]: [e] is an entry a load of [k] makes when its first
    statement finds the database as [db] and its second as [db2]. *)
Context (built : DB -> DB -> K -> E -> Prop).

(** A load in flight: its key, the token it started from, the version its
    first statement read and, once the second has run, the entry and the
    versions it was read at. *)
Record flight : Type := mkFlight {
  f_key : K;
  f_tok : Z * Z;
  f_first : option nat;
  f_read : option (E * nat * nat);
}.

(** [sy_dbs] is the history of committed database states, the current one
    last; [sy_floor k] is the version current when [k] was last
    invalidated; [sy_invs] counts invalidations. *)
Record system : Type := mkSystem {
  sy_cache : S;
  sy_dbs : list DB;
  sy_flights : gmap nat flight;
  sy_floor : K -> nat;
  sy_invs : nat;
}.

Definition version (y : system) : nat := pred (length (sy_dbs y)).

Definition raise_floor (y : system) (hit : K -> bool) : K -> nat :=
  fun k => if hit k then version y else sy_floor y k.

Inductive step : system -> system -> Prop :=
| step_commit y db :
    step y (mkSystem (sy_cache y) (sy_dbs y ++ [db]) (sy_flights y) (sy_floor y) (sy_invs y))
| step_inv_key y k :
    step y (mkSystem (gc_inv_key (sy_cache y) k) (sy_dbs y) (sy_flights y)
      (raise_floor y (fun k' => bool_decide (k = k'))) (Datatypes.S (sy_invs y)))
| step_inv_org y o :
    step y (mkSystem (gc_inv_org (sy_cache y) o) (sy_dbs y) (sy_flights y)
      (raise_floor y (fun k' => bool_decide (gc_org k' = o))) (Datatypes.S (sy_invs y)))
| step_inv_all y :
    step y (mkSystem (gc_inv_all (sy_cache y)) (sy_dbs y) (sy_flights y)
      (raise_floor y (fun _ => true)) (Datatypes.S (sy_invs y)))
| step_begin y t k :
    sy_flights y !! t = None ->
    step y (mkSystem (sy_cache y) (sy_dbs y)
      (<[t := mkFlight k (gc_token (sy_cache y) (gc_org k)) None None]> (sy_flights y))
      (sy_floor y) (sy_invs y))
| step_first y t f :
    sy_flights y !! t = Some f ->
    step y (mkSystem (sy_cache y) (sy_dbs y)
      (<[t := mkFlight (f_key f) (f_tok f) (Some (version y)) None]> (sy_flights y))
      (sy_floor y) (sy_invs y))
| step_read y t f v db db2 e :
    sy_flights y !! t = Some f -> f_first f = Some v -> sy_dbs y !! v = Some db -> last (sy_dbs y) = Some db2 ->
    built db db2 (f_key f) e ->
    step y (mkSystem (sy_cache y) (sy_dbs y)
      (<[t := mkFlight (f_key f) (f_tok f) (f_first f) (Some (e, v, version y))]> (sy_flights y))
      (sy_floor y) (sy_invs y))
| step_finish y t f e v v2 :
    sy_flights y !! t = Some f -> f_read f = Some (e, v, v2) ->
    step y (mkSystem (gc_store (sy_cache y) (f_key f) (f_tok f) e) (sy_dbs y)
      (delete t (sy_flights y)) (sy_floor y) (sy_invs y))
| step_fail y t :
    step y (mkSystem (sy_cache y) (sy_dbs y) (delete t (sy_flights y)) (sy_floor y) (sy_invs y)).

(** A process starts with an empty cache and one database state. *)
Definition initial (y : system) : Prop :=
  exists s db, y = mkSystem s [db] ∅ (fun _ => 0) 0 /\
    (forall k, gc_get s k = None) /\ (forall o, gc_token s o = (0, 0)%Z).

Inductive reachable : system -> Prop :=
| reach_init y : initial y -> reachable y
| reach_step y y' : reachable y -> step y y' -> reachable y'.

(** An entry read from states no older than [k]'s last invalidation. *)
Definition read_at (y : system) (k : K) (e : E) (v v2 : nat) : Prop :=
  sy_floor y k <= v <= v2 /\ exists db db2, sy_dbs y !! v = Some db /\ sy_dbs y !! v2 = Some db2 /\ built db db2 k e.

Definition fresh_at (y : system) (k : K) (e : E) : Prop := exists v v2, read_at y k e v v2.

(** Lexicographic order on tokens. *)
Definition tok_le (a b : Z * Z) : Prop := (a.1 < b.1 \/ (a.1 = b.1 /\ a.2 <= b.2))%Z.

Record inv (y : system) : Prop := {
  inv_dbs : sy_dbs y <> [];
  inv_floor k : sy_floor y k <= version y;
  inv_tok o : (0 <= (gc_token (sy_cache y) o).1 <= Z.of_nat (sy_invs y))%Z /\
              (0 <= (gc_token (sy_cache y) o).2 <= Z.of_nat (sy_invs y))%Z;
  inv_flight t f : sy_flights y !! t = Some f ->
    tok_le (f_tok f) (gc_token (sy_cache y) (gc_org (f_key f)));
  inv_first t f v : sy_flights y !! t = Some f -> f_first f = Some v ->
    v <= version y /\ (f_tok f = gc_token (sy_cache y) (gc_org (f_key f)) -> sy_floor y (f_key f) <= v);
  inv_read t f e v v2 : sy_flights y !! t = Some f -> f_read f = Some (e, v, v2) ->
    f_tok f = gc_token (sy_cache y) (gc_org (f_key f)) -> read_at y (f_key f) e v v2;
  inv_cache k e : gc_get (sy_cache y) k = Some e -> fresh_at y k e;
}.

Definition tok_lt (a b : Z * Z) : Prop := (a.1 < b.1 \/ (a.1 = b.1 /\ a.2 < b.2))%Z.

Lemma tok_le_lt a b c : tok_le a b -> tok_lt b c -> tok_le a c /\ a <> c.
Proof. unfold tok_le, tok_lt. destruct a, b, c; cbn. intros; split; [lia|]. intros [= -> ->]. lia. Qed.

Lemma tok_le_refl a : tok_le a a.
Proof. unfold tok_le. lia. Qed.

Lemma read_mono y y' k e v v2 :
  sy_floor y' k <= sy_floor y k -> (forall v db, sy_dbs y !! v = Some db -> sy_dbs y' !! v = Some db) ->
  read_at y k e v v2 -> read_at y' k e v v2.
Proof. intros Hf Hd ([? ?] & db & db2 & ? & ? & ?). split; [lia|]. exists db, db2. auto. Qed.

Lemma fresh_mono y y' k e :
  sy_floor y' k <= sy_floor y k -> (forall v db, sy_dbs y !! v = Some db -> sy_dbs y' !! v = Some db) ->
  fresh_at y k e -> fresh_at y' k e.
Proof. intros Hf Hd (v & v2 & R). exists v, v2. by eapply read_mono. Qed.

(** What an invalidation does to the cache and to the tokens, whichever of
    the three it is. *)
Record invalidates (s s' : S) (hit : K -> bool) (n : nat) : Prop := {
  ivd_drop k : hit k = true -> gc_get s' k = None;
  ivd_sub k e : gc_get s' k = Some e -> gc_get s k = Some e;
  ivd_tok o : gc_token s' o = gc_token s o \/ tok_lt (gc_token s o) (gc_token s' o);
  ivd_hit k : hit k = true -> tok_lt (gc_token s (gc_org k)) (gc_token s' (gc_org k));
  ivd_bound o : (0 <= (gc_token s' o).1 <= Z.of_nat n)%Z /\ (0 <= (gc_token s' o).2 <= Z.of_nat n)%Z;
}.

Lemma inv_invalidate y s' hit :
  inv y -> invalidates (sy_cache y) s' hit (Datatypes.S (sy_invs y)) ->
  inv (mkSystem s' (sy_dbs y) (sy_flights y) (raise_floor y hit) (Datatypes.S (sy_invs y))).
Proof.
  intros [I1 I2 I3 I4 I7 I5 I6] [D1 D2 D3 D4 D5].
  assert (forall t f, sy_flights y !! t = Some f -> f_tok f = gc_token s' (gc_org (f_key f)) ->
    hit (f_key f) = false /\ f_tok f = gc_token (sy_cache y) (gc_org (f_key f))) as Miss.
  { intros t f Hf Ht. specialize (I4 t f Hf). destruct (hit (f_key f)) eqn:Hh.
    { apply (tok_le_lt _ _ _ I4) in D4 as [_ []]; done. }
    split; [done|]. destruct (D3 (gc_org (f_key f))) as [E'|Hlt]; [by rewrite <- E'|].
    by apply (tok_le_lt _ _ _ I4) in Hlt as [_ []]. }
  constructor; cbn; try done.
  - intros k. unfold raise_floor. destruct (hit k); [done|apply I2].
  - intros t f Hf. specialize (I4 t f Hf). destruct (D3 (gc_org (f_key f))) as [->|Hlt]; [done|].
    by apply (tok_le_lt _ _ _ I4 Hlt).
  - intros t f v Hf Hv. destruct (I7 t f v Hf Hv) as [L F]. split; [done|]. intros Ht. destruct (Miss _ _ Hf Ht) as [Hh Ht'].
    unfold raise_floor. rewrite Hh. auto.
  - intros t f e v v2 Hf Hr Ht. destruct (Miss _ _ Hf Ht) as [Hh Ht']. unfold read_at. cbn. unfold raise_floor. rewrite Hh.
    by apply (I5 t f).
  - intros k e Hg. destruct (hit k) eqn:Hh; [rewrite D1 in Hg; done|].
    apply D2, I6 in Hg as (v & v2 & R). exists v, v2. unfold read_at. cbn. unfold raise_floor. by rewrite Hh.
Qed.

Lemma lookup_snoc_lt {A} (l : list A) x v y : l !! v = Some y -> (l ++ [x]) !! v = Some y.
Proof. intros Hv. rewrite lookup_app_l; [done|]. by eapply lookup_lt_Some. Qed.

Lemma invalidates_key s k n :
  (forall o, (0 <= (gc_token s o).1 <= Z.of_nat n)%Z /\ (0 <= (gc_token s o).2 <= Z.of_nat n)%Z) ->
  (Z.of_nat n < gc_max - 1)%Z ->
  invalidates s (gc_inv_key s k) (fun k' => bool_decide (k = k')) (Datatypes.S n).
Proof.
  intros Hb Hn. pose proof (Hb (gc_org k)). constructor.
  - intros k' Hk. bool_prop. subst. apply gc_get_inv_key.
  - intros k' e. apply gc_get_inv_key_sub.
  - intros o. rewrite gc_token_inv_key by lia. case_decide; [|by left].
    right. unfold tok_lt; cbn; lia.
  - intros k' Hk. bool_prop. subst. rewrite gc_token_inv_key, decide_True by (done || lia).
    unfold tok_lt; cbn; lia.
  - intros o. rewrite gc_token_inv_key by lia. specialize (Hb o). case_decide; cbn; lia.
Qed.

Lemma invalidates_org s o n :
  (forall o, (0 <= (gc_token s o).1 <= Z.of_nat n)%Z /\ (0 <= (gc_token s o).2 <= Z.of_nat n)%Z) ->
  (Z.of_nat n < gc_max - 1)%Z ->
  invalidates s (gc_inv_org s o) (fun k' => bool_decide (gc_org k' = o)) (Datatypes.S n).
Proof.
  intros Hb Hn. pose proof (Hb o). constructor.
  - intros k' Hk. bool_prop. by apply gc_get_inv_org.
  - intros k' e. apply gc_get_inv_org_sub.
  - intros o'. rewrite gc_token_inv_org by lia. case_decide; [|by left].
    right. unfold tok_lt; cbn; lia.
  - intros k' Hk. bool_prop. subst. rewrite gc_token_inv_org, decide_True by (done || lia).
    unfold tok_lt; cbn; lia.
  - intros o'. rewrite gc_token_inv_org by lia. specialize (Hb o'). case_decide; cbn; lia.
Qed.

Lemma invalidates_all s n :
  (forall o, (0 <= (gc_token s o).1 <= Z.of_nat n)%Z /\ (0 <= (gc_token s o).2 <= Z.of_nat n)%Z) ->
  (Z.of_nat n < gc_max - 1)%Z ->
  invalidates s (gc_inv_all s) (fun _ => true) (Datatypes.S n).
Proof.
  intros Hb Hn. constructor.
  - intros k' _. apply gc_get_inv_all.
  - intros k' e. by rewrite gc_get_inv_all.
  - intros o. specialize (Hb o). rewrite gc_token_inv_all by lia. right. unfold tok_lt; cbn; lia.
  - intros k' _. specialize (Hb (gc_org k')). rewrite gc_token_inv_all by lia. unfold tok_lt; cbn; lia.
  - intros o. specialize (Hb o). rewrite gc_token_inv_all by lia. cbn; lia.
Qed.

Lemma inv_flights_subset y fl :
  inv y -> (forall t f, fl !! t = Some f -> sy_flights y !! t = Some f) ->
  inv (mkSystem (sy_cache y) (sy_dbs y) fl (sy_floor y) (sy_invs y)).
Proof. intros [I1 I2 I3 I4 I7 I5 I6] Hs. constructor; cbn; eauto. Qed.

Lemma inv_initial y : initial y -> inv y.
Proof.
  intros (s & db & -> & Hg & Ht). constructor; cbn; try done.
  - intros o. rewrite Ht. cbn. lia.
  - intros k e. by rewrite Hg.
Qed.

Lemma inv_step y y' :
  inv y -> step y y' -> (Z.of_nat (sy_invs y') < gc_max)%Z -> inv y'.
Proof.
  intros I St Hn. pose proof I as [I1 I2 I3 I4 I7 I5 I6]. destruct St; cbn in Hn.
  - assert (version y <= pred (length (sy_dbs y ++ [db]))) as Hv by (unfold version; rewrite length_app; cbn; lia).
    assert (forall v d, sy_dbs y !! v = Some d -> (sy_dbs y ++ [db]) !! v = Some d) as Hl by (intros v d; apply lookup_snoc_lt).
    constructor; cbn; try done.
    + by destruct (sy_dbs y).
    + intros k. specialize (I2 k). unfold version. cbn. unfold version in *. lia.
    + intros t f v Hf Hr. destruct (I7 t f v Hf Hr). unfold version. cbn. unfold version in *. split; [lia|done].
    + intros t f e v v2 Hf Hr Ht. eapply read_mono, I5; [done|exact Hl|done..].
    + intros k e Hg. eapply fresh_mono, I6, Hg; [done|exact Hl].
  - apply inv_invalidate; [done|]. apply invalidates_key; [done|lia].
  - apply inv_invalidate; [done|]. apply invalidates_org; [done|lia].
  - apply inv_invalidate; [done|]. apply invalidates_all; [done|lia].
  - constructor; cbn; try done.
    + intros t' f [[<- <-]|[? ?]]%lookup_insert_Some; [apply tok_le_refl|eauto].
    + intros t' f v [[<- <-]|[? ?]]%lookup_insert_Some Hr; [done|eauto].
    + intros t' f e v v2 [[<- <-]|[? ?]]%lookup_insert_Some Hr; [done|]. by apply (I5 t' f).
  - constructor; cbn; try done.
    + intros t' f' [[<- <-]|[? ?]]%lookup_insert_Some; cbn; eauto.
    + intros t' f' v [[<- <-]|[? ?]]%lookup_insert_Some Hr; [|eauto]. injection Hr as <-. cbn. split; [done|]. intros _. apply I2.
    + intros t' f' e v v2 [[<- <-]|[? ?]]%lookup_insert_Some Hr; [done|]. by apply (I5 t' f').
  - destruct (I7 t f v) as [Hv Hf]; [done..|]. constructor; cbn; try done.
    + intros t' f' [[<- <-]|[? ?]]%lookup_insert_Some; cbn; eauto.
    + intros t' f' v' [[<- <-]|[? ?]]%lookup_insert_Some Hr; cbn in *; eauto.
    + intros t' f' e' v' v2 [[<- <-]|[? ?]]%lookup_insert_Some Hr Ht; cbn in *; [|by apply (I5 t' f')].
      injection Hr as <- <- <-. split; [cbn; auto|]. exists db, db2. split_and!; [done| |done].
      unfold version. by rewrite <-last_lookup.
  - constructor; cbn; try done.
    + intros o. rewrite gc_token_store. apply I3.
    + intros t' f' [_ ?]%lookup_delete_Some. rewrite gc_token_store. eauto.
    + intros t' f' v' [_ ?]%lookup_delete_Some. rewrite gc_token_store. eauto.
    + intros t' f' e' v' v2' [_ ?]%lookup_delete_Some. rewrite gc_token_store. intros. by apply (I5 t' f').
    + intros k e' Hg. rewrite gc_get_store in Hg. case_decide as Ht; [|by apply I6].
      destruct Ht as [Ht <-]. simplify_eq. exists v, v2. by apply (I5 t f).
  - apply inv_flights_subset; [done|]. by intros t' f' [_ ?]%lookup_delete_Some.
Qed.

Lemma step_invs y y' : step y y' -> sy_invs y <= sy_invs y'.
Proof. destruct 1; cbn; lia. Qed.

Lemma reachable_inv y : reachable y -> (Z.of_nat (sy_invs y) < gc_max)%Z -> inv y.
Proof.
  induction 1 as [y Hi|y y' Hr IH Hs]; intros Hn; [by apply inv_initial|].
  pose proof (step_invs _ _ Hs). eapply inv_step; [apply IH; lia|done|done].
Qed.

(** Whatever the cache answers was read at or after the last invalidation. *)
Lemma cache_answers_fresh y k e :
  reachable y -> (Z.of_nat (sy_invs y) < gc_max)%Z ->
  gc_get (sy_cache y) k = Some e -> fresh_at y k e.
Proof. intros Hr Hn. apply inv_cache. by apply reachable_inv. Qed.

End system.
