(* ===== verification/DlpPolicy.v ===== *)
(** * DlpPolicy: which rule governs a call, and its store

    [internal/dlp/policy.go].  A policy is scoped to an organisation, a
    connector or a tool; the narrowest that matches a call governs it.
    [Screen] applies it to one half of the call.  The policies and the
    compiled custom detectors are cached per organisation behind generation
    counters (an instance of [GenCache]); the writes are transactions on the
    tenant's tables, given here as functions of their rows. *)
From S2P Require Import Prelude GoStrings Regex Detectors Values CustomDetectors Dlp GenCache.

Open Scope list_scope.

Inductive Stage : Type := StageArguments | StageResult | StageBoth | StageOther (s : string).

#[export] Instance Stage_eq_dec : EqDecision Stage.
Proof. solve_decision. Defined.

Definition stage_string (s : Stage) : string :=
  match s with StageArguments => "arguments" | StageResult => "result" | StageBoth => "both" | StageOther s => s end.

Record ScanPolicy : Type := mkPolicy {
  pl_ID : string;
  pl_OrgID : string;
  pl_Name : string;
  pl_ConnectorID : string;
  pl_ToolID : string;
  pl_Scan : Stage;
  pl_Detectors : list string;
  pl_Action : Action;
  pl_Enabled : bool;
  pl_MaxBytes : Z;
  pl_CreatedBy : string;
  pl_CreatedAt : Z;
  pl_UpdatedAt : Z;
}.

#[export] Instance ScanPolicy_eq_dec : EqDecision ScanPolicy.
Proof. solve_decision. Defined.

(** ** Resolution *)

Definition policy_matches (p : ScanPolicy) (connectorID toolID : string) : bool :=
  if negb (pl_Enabled p) then false
  else if negb (String.eqb (pl_ConnectorID p) "") && negb (String.eqb (pl_ConnectorID p) connectorID) then false
  else if negb (String.eqb (pl_ToolID p) "") && negb (String.eqb (pl_ToolID p) toolID) then false
  else true.

Definition specificity (p : ScanPolicy) : nat :=
  if negb (String.eqb (pl_ToolID p) "") then 2 else if negb (String.eqb (pl_ConnectorID p) "") then 1 else 0.

Definition strictness (a : Action) : nat :=
  match a with ActionRefuse => 2 | ActionMask => 1 | _ => 0 end.

(** Whether [a] should replace [b]. *)
Definition better (a b : ScanPolicy) : bool :=
  if negb (specificity a =? specificity b) then specificity b <? specificity a
  else if negb (strictness (pl_Action a) =? strictness (pl_Action b))
  then strictness (pl_Action b) <? strictness (pl_Action a)
  else String.ltb (pl_ID a) (pl_ID b).

Fixpoint select_loop (list : list ScanPolicy) (connectorID toolID : string) (best : option ScanPolicy) : option ScanPolicy :=
  match list with
  | [] => best
  | p :: list =>
      select_loop list connectorID toolID
        (if negb (policy_matches p connectorID toolID) then best
         else match best with
              | None => Some p
              | Some b => if better p b then Some p else best
              end)
  end.

Definition Select (list : list ScanPolicy) (connectorID toolID : string) : option ScanPolicy :=
  select_loop list connectorID toolID None.

Definition Covers (p : ScanPolicy) (s : Stage) : bool :=
  bool_decide (pl_Scan p = StageBoth) || bool_decide (pl_Scan p = s).

(** ** Validation *)

Inductive policy_error : Type :=
  | ErrInvalid (why : string)
  | ErrNotFound
  | ErrConcurrentChange (code : string)
  | ErrDatabase (code : string).

(** A detector name the policy may carry. *)
Definition known_detector (name : string) : bool :=
  match IsCustom name with
  | Some slug => ValidSlug slug
  | None => match Lookup name with Some _ => true | None => false end
  end.

Definition Validate_policy (p : ScanPolicy) : result policy_error unit :=
  if String.eqb (TrimSpace (pl_Name p)) "" then Err (ErrInvalid "it needs a name")
  else if match pl_Scan p with StageOther _ => true | _ => false end
  then Err (ErrInvalid "scan must be arguments, result or both")
  else if match pl_Action p with ActionOther _ => true | _ => false end
  then Err (ErrInvalid "the action must be allow, mask or refuse")
  else if negb (String.eqb (pl_ToolID p) "") && String.eqb (pl_ConnectorID p) ""
  then Err (ErrInvalid "a tool-scoped policy must name the tool's connector too")
  else match List.find (fun name => negb (known_detector name)) (pl_Detectors p) with
  | Some name => Err (ErrInvalid ("no detector called " +:+ name))
  | None => if (pl_MaxBytes p <? 0)%Z then Err (ErrInvalid "maxBytes cannot be negative") else Ok tt
  end.

(** ** Running a policy *)

(** The detectors a policy's names stand for: built-ins, then the
    organisation's own; a name that is neither is left out. *)
Definition resolve_names (names : list string) (custom : gmap string Detector) : list Detector :=
  omap (fun name => match Lookup name with Some d => Some d | None => custom !! name end) names.

Definition OptionsWith (p : ScanPolicy) (root : string) (custom : gmap string Detector) : Options * bool :=
  match pl_Detectors p with
  | [] => (mkOptions [] (pl_MaxBytes p) root None, true)
  | names =>
      let ds := resolve_names names custom in
      (mkOptions ds (pl_MaxBytes p) root None, 0 <? length ds)
  end.

Definition Options_of (p : ScanPolicy) (root : string) : Options := (OptionsWith p root ∅).1.

Record cacheEntry : Type := mkEntry {
  ce_list : list ScanPolicy;
  ce_custom : gmap string Detector;
  ce_broken : gmap string DetectorError;
  ce_at : Z;
}.

Record Screened : Type := mkScreened {
  sd_Value : value;
  sd_Applied : bool;
  sd_ScanPolicy : option ScanPolicy;
  sd_Result : Result;
}.

(** Why [Screen] stops a call or cannot judge it. *)
Inductive screen_error : Type :=
  | ErrUnreadable (why : string)
  | ErrRefusedBroken (name : string) (reason : DetectorError)
  | ErrRefusedScan (e : scan_error).

Definition MaxScanTime : Z := 1000000000.

Definition scanDeadline (ctx_deadline : option Z) (now : Z) : Z :=
  let dl := (now + MaxScanTime)%Z in
  match ctx_deadline with
  | Some d => if (d <? dl)%Z then d else dl
  | None => dl
  end.

Definition no_result : Result := mkResult [] 0 0 false.

(** [Resolve]; [e] is what [entry] answers. *)
Definition Resolve (e : result string cacheEntry) (orgID connectorID toolID : string) : result string (option ScanPolicy) :=
  if String.eqb orgID "" then Ok None
  else match e with
  | Err why => Err why
  | Ok e => Ok (Select (ce_list e) connectorID toolID)
  end.

(** [Screen]: [e1] is what [entry] answers for [Resolve], [e2] what it
    answers after; [reads] are the scan's reads of the clock. *)
Definition Screen (to_lower : string -> string) (reads : nat -> Z) (configured : bool)
    (e1 e2 : result string cacheEntry) (ctx_deadline : option Z) (now : Z)
    (orgID connectorID toolID : string) (stage : Stage) (v : value) : Screened * option screen_error :=
  let out := mkScreened v false None no_result in
  if negb configured || match v with VNil => true | _ => false end then (out, None)
  else match Resolve e1 orgID connectorID toolID with
  | Err why => (out, Some (ErrUnreadable why))
  | Ok None => (out, None)
  | Ok (Some rule) =>
      if negb (Covers rule stage) then (out, None)
      else match e2 with
      | Err why => (out, Some (ErrUnreadable why))
      | Ok e =>
          let out := mkScreened v true (Some rule) no_result in
          match list_find (fun name => is_Some (ce_broken e !! name)) (pl_Detectors rule) with
          | Some (_, name) =>
              (out, Some (ErrRefusedBroken name (default (mkDetectorError "" "") (ce_broken e !! name))))
          | None =>
              let '(opt, run) := OptionsWith rule ("$." +:+ stage_string stage) (ce_custom e) in
              if negb run then (out, None)
              else
                let opt := mkOptions (o_Detectors opt) (o_MaxBytes opt) (o_Root opt) (Some (scanDeadline ctx_deadline now)) in
                let '(r, res) := Apply to_lower reads v (pl_Action rule) opt in
                match r with
                | Err e => (mkScreened v true (Some rule) res, Some (ErrRefusedScan e))
                | Ok value => (mkScreened value true (Some rule) res, None)
                end
          end
      end
  end.

(** ** What a scan is worth storing *)

Definition maxFindingPaths : nat := 20.
Definition maxFindingRows : nat := 32.

Record findingRow : Type := mkRow {
  fr_detector : string;
  fr_rule : string;
  fr_kind : string;
  fr_confidence : Confidence;
  fr_matches : nat;
  fr_paths : list string;
}.

(** The row's place in the [index] map: its detector, rule and confidence. *)
Definition row_key (r : findingRow) : string * string * Confidence := (fr_detector r, fr_rule r, fr_confidence r).

Definition finding_key (f : Finding) : string * string * Confidence := (f_Detector f, f_Rule f, f_Confidence f).

Definition add_to_row (f : Finding) (r : findingRow) : findingRow :=
  mkRow (fr_detector r) (fr_rule r) (fr_kind r) (fr_confidence r) (S (fr_matches r))
    (if (length (fr_paths r) <? maxFindingPaths) && negb (existsb (String.eqb (f_Path f)) (fr_paths r))
     then fr_paths r ++ [f_Path f] else fr_paths r).

Definition aggregate_step (rows : list findingRow) (f : Finding) : list findingRow :=
  match list_find (fun r => row_key r = finding_key f) rows with
  | Some (i, r) => <[ i := add_to_row f r ]> rows
  | None =>
      if maxFindingRows <=? length rows then rows
      else rows ++ [add_to_row f (mkRow (f_Detector f) (f_Rule f) (f_Kind f) (f_Confidence f) 0 [])]
  end.

Definition aggregate (res : Result) : list findingRow := foldl aggregate_step [] (rs_Findings res).

(** ** The cache *)

Definition policyTTL : Z := 30000000000.

Definition u64 (n : Z) : Z := (n mod 2 ^ 64)%Z.

Record Policies : Type := mkPolicies {
  ps_cache : gmap string cacheEntry;
  ps_compiled : gmap string (gmap string Detector);
  ps_gen : Z;
  ps_orgGen : gmap string Z;
}.

Definition NewPolicies : Policies := mkPolicies ∅ ∅ 0 ∅.

Definition orgGen (p : Policies) (orgID : string) : Z := default 0%Z (ps_orgGen p !! orgID).

(** [entry]: the cached entry while it is younger than [policyTTL]. *)
Definition entry_hit (p : Policies) (orgID : string) (now : Z) : option cacheEntry :=
  match ps_cache p !! orgID with
  | Some e => if (now - ce_at e <? policyTTL)%Z then Some e else None
  | None => None
  end.

(** [load], in its three parts.  The first runs under the lock. *)
Definition load_start (p : Policies) (orgID : string) : (Z * Z) * gmap string Detector :=
  ((ps_gen p, orgGen p orgID), default ∅ (ps_compiled p !! orgID)).

Definition compiled_key (c : CustomDetector) : string := c_ID c +:+ "@" +:+ Itoa (c_Version c).

Section load.
Context (parse : string -> result string (re Z)) (compile : re Z -> result string Z).

(** The second, without the lock, makes an entry of the rows the transaction
    read: the compiled map, the usable detectors and the broken ones. *)
Definition compile_step (prev : gmap string Detector)
    (acc : gmap string Detector * gmap string Detector * gmap string DetectorError) (c : CustomDetector) :=
  let '(compiled, custom, broken) := acc in
  match match prev !! compiled_key c with Some d => Ok d | None => NewCustom parse compile c end with
  | Ok d => (<[ compiled_key c := d ]> compiled, <[ Ref c := d ]> custom, broken)
  | Err e => (compiled, custom, <[ Ref c := e ]> broken)
  end.

Definition load_build (prev : gmap string Detector) (rows : list ScanPolicy) (stored : list CustomDetector) (now : Z) :
    cacheEntry * gmap string Detector :=
  let '(compiled, custom, broken) := foldl (compile_step prev) (∅, ∅, ∅) stored in
  (mkEntry rows custom broken now, compiled).
End load.

(** The third stores it unless an invalidation came between. *)
Definition load_finish (p : Policies) (orgID : string) (tok : Z * Z) (e : cacheEntry) (compiled : gmap string Detector) : Policies :=
  if bool_decide ((ps_gen p, orgGen p orgID) = tok)
  then mkPolicies (<[ orgID := e ]> (ps_cache p)) (<[ orgID := compiled ]> (ps_compiled p)) (ps_gen p) (ps_orgGen p)
  else p.

Definition InvalidateOrg (p : Policies) (orgID : string) : Policies :=
  mkPolicies (delete orgID (ps_cache p)) (ps_compiled p) (ps_gen p) (<[ orgID := u64 (orgGen p orgID + 1) ]> (ps_orgGen p)).

Definition InvalidateAll (p : Policies) : Policies :=
  mkPolicies ∅ (ps_compiled p) (u64 (ps_gen p + 1)) ∅.

(** ** The writes *)

(** One organisation's rows, as its transactions see them under row-level
    security, and the revisions written beside them. *)
Inductive revision : Type :=
  | RevBaseline (id : string) (before : ScanPolicy)
  | RevRecord (id action : string) (entity : ScanPolicy) (actorID : string).

Record tenant_db : Type := mkDB {
  db_connectors : list string;
  db_tools : list (string * string);
  db_detectors : list CustomDetector;
  db_policies : list ScanPolicy;
  db_revisions : list revision;
}.

Definition with_policies (db : tenant_db) (ps : list ScanPolicy) : tenant_db :=
  mkDB (db_connectors db) (db_tools db) (db_detectors db) ps (db_revisions db).

Definition add_revision (db : tenant_db) (r : revision) : tenant_db :=
  mkDB (db_connectors db) (db_tools db) (db_detectors db) (db_policies db) (db_revisions db ++ [r]).

(** [scopeExists]. *)
Definition scopeExists (db : tenant_db) (v : ScanPolicy) : result policy_error unit :=
  if negb (String.eqb (pl_ConnectorID v) "") && negb (existsb (String.eqb (pl_ConnectorID v)) (db_connectors db))
  then Err (ErrInvalid ("no connector " +:+ pl_ConnectorID v +:+ " in this organisation"))
  else if negb (String.eqb (pl_ToolID v) "") &&
          negb (existsb (fun t => String.eqb t.1 (pl_ToolID v) && String.eqb t.2 (pl_ConnectorID v)) (db_tools db))
  then Err (ErrInvalid ("no tool " +:+ pl_ToolID v +:+ " on connector " +:+ pl_ConnectorID v))
  else Ok tt.

Definition effectiveMaxBytes (n : Z) : Z := if (n <=? 0)%Z then DefaultMaxBytes else n.

(** The custom detectors named, each once, in order. *)
Definition wanted (names : list string) : list string :=
  foldl (fun want n => match IsCustom n with
                       | Some slug => if existsb (String.eqb slug) want then want else want ++ [slug]
                       | None => want
                       end) [] names.

Section writes.
Context (parse : string -> result string (re Z)) (compile : re Z -> result string Z).

Fixpoint sizes_of (db : tenant_db) (want : list string) (sizes : list Z) : result policy_error (list Z) :=
  match want with
  | [] => Ok sizes
  | slug :: want =>
      match List.find (fun c => String.eqb (c_Name c) slug) (db_detectors db) with
      | None => Err (ErrInvalid ("no detector called " +:+ CustomPrefix +:+ slug +:+ " in this organisation"))
      | Some c =>
          match ProgramSize parse compile (c_Pattern c) (c_Flags c) with
          | Err _ => Err (ErrInvalid ("the detector " +:+ CustomPrefix +:+ slug +:+ " cannot be compiled"))
          | Ok size => sizes_of db want (sizes ++ [size])
          end
      end
  end.

Definition customCheck (db : tenant_db) (v : ScanPolicy) : result policy_error unit :=
  match wanted (pl_Detectors v) with
  | [] => Ok tt
  | want =>
      match sizes_of db want [] with
      | Err e => Err e
      | Ok sizes =>
          let '(total, limit) := scanCost sizes (pl_MaxBytes v) in
          if (limit <? total)%Z
          then Err (ErrInvalid ("the custom detectors this policy names compile to " +:+ Itoa total
                 +:+ " instructions, and a policy reading " +:+ Itoa (effectiveMaxBytes (pl_MaxBytes v))
                 +:+ " bytes may run at most " +:+ Itoa limit +:+ "; name fewer or simpler ones, or lower maxBytes"))
          else Ok tt
      end
  end.

(** The scope's unique index, and the primary key; 23505 either way. *)
Definition same_scope (a b : ScanPolicy) : bool :=
  String.eqb (pl_ConnectorID a) (pl_ConnectorID b) && String.eqb (pl_ToolID a) (pl_ToolID b).

Definition stamped (v : ScanPolicy) (by_ : string) (created updated : Z) : ScanPolicy :=
  mkPolicy (pl_ID v) (pl_OrgID v) (pl_Name v) (pl_ConnectorID v) (pl_ToolID v) (pl_Scan v) (pl_Detectors v)
    (pl_Action v) (pl_Enabled v) (pl_MaxBytes v) by_ created updated.

Definition insertPolicy (db : tenant_db) (v : ScanPolicy) (now : Z) : result policy_error (tenant_db * ScanPolicy) :=
  if existsb (fun p => String.eqb (pl_ID p) (pl_ID v) || same_scope p v) (db_policies db) then Err (ErrDatabase "23505")
  else let v := stamped v (pl_CreatedBy v) now now in Ok (with_policies db (db_policies db ++ [v]), v).

Definition lockPolicy (db : tenant_db) (id : string) : result policy_error ScanPolicy :=
  match List.find (fun p => String.eqb (pl_ID p) id) (db_policies db) with
  | Some p => Ok p
  | None => Err ErrNotFound
  end.

Definition updatePolicy (db : tenant_db) (v : ScanPolicy) (now : Z) : result policy_error (tenant_db * ScanPolicy) :=
  match List.find (fun p => String.eqb (pl_ID p) (pl_ID v)) (db_policies db) with
  | None => Err ErrNotFound
  | Some old =>
      if existsb (fun p => negb (String.eqb (pl_ID p) (pl_ID v)) && same_scope p v) (db_policies db)
      then Err (ErrDatabase "23505")
      else let v := stamped v (pl_CreatedBy old) (pl_CreatedAt old) now in
           Ok (with_policies db (map (fun p => if String.eqb (pl_ID p) (pl_ID v) then v else p) (db_policies db)), v)
  end.

(** The recorder: nothing when no history is configured; a baseline only
    when the entity has no revision yet. *)
Definition rev_id (r : revision) : string := match r with RevBaseline id _ => id | RevRecord id _ _ _ => id end.

Definition record_revision (on : bool) (db : tenant_db) (v : ScanPolicy) (action actorID : string) : tenant_db :=
  if on then add_revision db (RevRecord (pl_ID v) action v actorID) else db.

Definition baseline (on : bool) (db : tenant_db) (before : ScanPolicy) : tenant_db :=
  if on && negb (existsb (fun r => String.eqb (rev_id r) (pl_ID before)) (db_revisions db))
  then add_revision db (RevBaseline (pl_ID before) before) else db.

(** [concurrent(scopeConflict(err))]. *)
Definition write_error (e : policy_error) : policy_error :=
  match e with
  | ErrDatabase code =>
      if String.eqb code "23505"
      then ErrInvalid "this connector or tool already has a rule, and a scope has exactly one; change the rule that is there, or narrow this one to a connector or a tool that has none"
      else if String.eqb code "40P01" then ErrConcurrentChange code
      else e
  | _ => e
  end.

Definition placed (v : ScanPolicy) (orgID id : string) : ScanPolicy :=
  mkPolicy id orgID (pl_Name v) (pl_ConnectorID v) (pl_ToolID v) (pl_Scan v) (pl_Detectors v)
    (pl_Action v) (pl_Enabled v) (pl_MaxBytes v) (pl_CreatedBy v) (pl_CreatedAt v) (pl_UpdatedAt v).

(** What the commit answers: the database may abort any transaction. *)
Definition commit {A} (fault : option string) (r : result policy_error A) : result policy_error A :=
  match fault, r with Some code, Ok _ => Err (ErrDatabase code) | _, _ => r end.

Definition create_tx (on : bool) (db : tenant_db) (v : ScanPolicy) (now : Z) : result policy_error (tenant_db * ScanPolicy) :=
  _ ← scopeExists db v;
  _ ← customCheck db v;
  w ← insertPolicy db v now;
  Ok (record_revision on w.1 w.2 "create" (pl_CreatedBy w.2), w.2).

Definition edit_tx (on : bool) (db : tenant_db) (before v : ScanPolicy) (actorID : string) (now : Z) :
    result policy_error (tenant_db * ScanPolicy) :=
  _ ← scopeExists db v;
  _ ← customCheck db v;
  w ← updatePolicy db v now;
  Ok (record_revision on (baseline on w.1 before) w.2 "update" actorID, w.2).

Definition update_tx (on : bool) (db : tenant_db) (v : ScanPolicy) (actorID : string) (now : Z) :
    result policy_error (tenant_db * ScanPolicy) :=
  before ← lockPolicy db (pl_ID v);
  edit_tx on db before v actorID now.

Definition restore_tx (on : bool) (db : tenant_db) (v : ScanPolicy) (actorID : string) (now : Z) :
    result policy_error (tenant_db * ScanPolicy * option ScanPolicy) :=
  match lockPolicy db (pl_ID v) with
  | Err ErrNotFound =>
      _ ← scopeExists db v;
      _ ← customCheck db v;
      w ← insertPolicy db v now;
      Ok (record_revision on w.1 w.2 "create" actorID, w.2, None)
  | Err e => Err e
  | Ok before =>
      w ← edit_tx on db before v actorID now;
      Ok (w.1, w.2, Some before)
  end.

Definition delete_tx (on : bool) (db : tenant_db) (id actorID : string) : result policy_error tenant_db :=
  before ← lockPolicy db id;
  let db := with_policies db (List.filter (fun p => negb (String.eqb (pl_ID p) id)) (db_policies db)) in
  Ok (record_revision on (baseline on db before) before "delete" actorID).

(** The four writes: the store and the cache after, and the answer. *)
Definition Create (on : bool) (newID orgID : string) (v : ScanPolicy) (now : Z) (fault : option string)
    (db : tenant_db) (p : Policies) : result policy_error ScanPolicy * tenant_db * Policies :=
  match Validate_policy v with
  | Err e => (Err e, db, p)
  | Ok _ =>
      match commit fault (create_tx on db (placed v orgID newID) now) with
      | Err e => (Err (write_error e), db, p)
      | Ok (db, v) => (Ok v, db, InvalidateOrg p orgID)
      end
  end.

Definition Update (on : bool) (orgID id : string) (v : ScanPolicy) (actorID : string) (now : Z) (fault : option string)
    (db : tenant_db) (p : Policies) : result policy_error ScanPolicy * tenant_db * Policies :=
  match Validate_policy v with
  | Err e => (Err e, db, p)
  | Ok _ =>
      match commit fault (update_tx on db (placed v orgID id) actorID now) with
      | Err e => (Err (write_error e), db, p)
      | Ok (db, v) => (Ok v, db, InvalidateOrg p orgID)
      end
  end.

Definition Restore_policy (on : bool) (orgID id : string) (v : ScanPolicy) (actorID : string) (now : Z) (fault : option string)
    (db : tenant_db) (p : Policies) : result policy_error (ScanPolicy * option ScanPolicy) * tenant_db * Policies :=
  match Validate_policy v with
  | Err e => (Err e, db, p)
  | Ok _ =>
      match commit fault (restore_tx on db (placed v orgID id) actorID now) with
      | Err e => (Err (write_error e), db, p)
      | Ok (db, v, replaced) => (Ok (v, replaced), db, InvalidateOrg p orgID)
      end
  end.

Definition Delete (on : bool) (orgID id actorID : string) (fault : option string)
    (db : tenant_db) (p : Policies) : result policy_error unit * tenant_db * Policies :=
  match commit fault (delete_tx on db id actorID) with
  | Err e => (Err e, db, p)
  | Ok db => (Ok tt, db, InvalidateOrg p orgID)
  end.
End writes.

(** ** The governing policy *)

Lemma better_irrefl p : better p p = false.
Proof. unfold better. by rewrite !Nat.eqb_refl, ltb_irrefl. Qed.

(** The order [better] compares by. *)
Lemma better_true a b :
  better a b = true <->
  specificity b < specificity a \/
  (specificity a = specificity b /\ strictness (pl_Action b) < strictness (pl_Action a)) \/
  (specificity a = specificity b /\ strictness (pl_Action a) = strictness (pl_Action b) /\ String.ltb (pl_ID a) (pl_ID b) = true).
Proof.
  unfold better. destruct (specificity a =? specificity b) eqn:E1; cbn [negb]; bool_prop.
  - destruct (strictness (pl_Action a) =? strictness (pl_Action b)) eqn:E2; cbn [negb]; bool_prop.
    + split; [intros H; right; right; done|]. intros [?|[[_ ?]|(_ & _ & ?)]]; [lia|lia|done].
    + rewrite Nat.ltb_lt. split; [intros H; right; left; done|]. intros [?|[[_ ?]|(_ & ? & _)]]; [lia|lia|lia].
  - rewrite Nat.ltb_lt. split; [intros H; by left|]. intros [?|[[? _]|(? & _)]]; lia.
Qed.

Lemma better_trans a b c : better a b = true -> better b c = true -> better a c = true.
Proof.
  rewrite !better_true. intros [?|[[? ?]|(? & ? & H)]] [?|[[? ?]|(? & ? & H')]]; try (left; lia); try (right; left; lia).
  right; right. split_and!; [lia|lia|by eapply ltb_trans].
Qed.

(** Two policies neither of which is better have the same rank. *)
Lemma better_compare a b :
  better a b = true \/ better b a = true \/
  (specificity a = specificity b /\ strictness (pl_Action a) = strictness (pl_Action b) /\ pl_ID a = pl_ID b).
Proof.
  destruct (better a b) eqn:E1; [by left|]. destruct (better b a) eqn:E2; [by right; left|]. right; right.
  apply not_true_iff_false in E1, E2. rewrite better_true in E1, E2.
  assert (specificity a = specificity b) by lia. assert (strictness (pl_Action a) = strictness (pl_Action b)) by lia.
  split_and!; [done|done|]. apply ltb_total; apply not_true_iff_false; intros ?; [apply E1|apply E2]; right; right; by split_and!.
Qed.

Lemma not_better_trans a b c : better a b = false -> better b c = false -> better a c = false.
Proof.
  intros H1 H2. apply not_true_iff_false. intros H. apply not_true_iff_false in H2. apply H2.
  destruct (better_compare a b) as [?|[Hba|(E1 & E2 & E3)]]; [congruence|by eapply better_trans|].
  apply better_true. apply better_true in H. by rewrite <-E1, <-E2, <-E3.
Qed.

Lemma select_loop_spec list c t best r :
  select_loop list c t best = r ->
  (forall p, p ∈ list -> policy_matches p c t = true -> exists q, r = Some q /\ better p q = false) /\
  (forall b, best = Some b -> exists q, r = Some q /\ better b q = false) /\
  (forall q, r = Some q -> best = Some q \/ (q ∈ list /\ policy_matches q c t = true)).
Proof.
  revert best; induction list as [|p list IH]; intros best; cbn [select_loop].
  { intros <-. split_and!; [by intros ? ?%not_elem_of_nil| |by left].
    intros b ->. exists b. by rewrite better_irrefl. }
  intros H. apply IH in H as (H1 & H2 & H3). clear IH.
  destruct (policy_matches p c t) eqn:Hp; cbn [negb] in *.
  2: { split_and!; [|done|].
    - intros x [->|Hx]%elem_of_cons Hm; [congruence|by apply H1].
    - intros q Hq. destruct (H3 q Hq) as [?|[? ?]]; [by left|right; split; [by right|done]]. }
  set (next := match best with Some b => if better p b then Some p else best | None => Some p end) in *.
  assert (Hnext : exists b, next = Some b /\ better p b = false /\ (forall b', best = Some b' -> better b' b = false) /\
    (best = Some b \/ b = p)).
  { unfold next. destruct best as [b|]; [destruct (better p b) eqn:Hb|].
    - exists p. split_and!; [done|apply better_irrefl| |by right]. intros b' [= <-].
      apply not_true_iff_false. intros Hbp. pose proof (better_trans _ _ _ Hb Hbp) as E. by rewrite better_irrefl in E.
    - exists b. split_and!; [done|done| |by left]. intros b' [= <-]. apply better_irrefl.
    - exists p. split_and!; [done|apply better_irrefl|done|by right]. }
  destruct Hnext as (b & Hn & Hpb & Hold & Hfrom). destruct (H2 b Hn) as (q & -> & Hq). split_and!.
  - intros x [->|Hx]%elem_of_cons Hm; [|by apply H1]. exists q. split; [done|by eapply not_better_trans].
  - intros b' Hb'. exists q. split; [done|]. eapply not_better_trans; [by apply Hold|done].
  - intros x Hx. destruct (H3 x Hx) as [E|[? ?]]; [|right; split; [by right|done]].
    rewrite Hn in E. injection E as <-. destruct Hfrom as [?| ->]; [by left|right; split; [by left|done]].
Qed.

(** The narrowest rule governs, and rules of the same reach never
    disagree into permissiveness: a call has a governing policy exactly when
    some enabled policy's scope covers it, that policy is one of them, and no
    other that matches is more specific or, at the same reach, stricter. *)
Theorem Select_narrowest_then_strictest rules connectorID toolID :
  (Select rules connectorID toolID = None <-> forall p, p ∈ rules -> policy_matches p connectorID toolID = false) /\
  (forall q, Select rules connectorID toolID = Some q ->
     q ∈ rules /\ policy_matches q connectorID toolID = true /\
     forall p, p ∈ rules -> policy_matches p connectorID toolID = true ->
       specificity p <= specificity q /\
       (specificity p = specificity q -> strictness (pl_Action p) <= strictness (pl_Action q))).
Proof.
  destruct (select_loop_spec rules connectorID toolID None _ eq_refl) as (H1 & _ & H3). fold (Select rules connectorID toolID) in *.
  split.
  - split.
    + intros E p Hp. apply not_true_iff_false. intros Hm. destruct (H1 p Hp Hm) as (q & Hq & _). congruence.
    + intros Hn. destruct (Select rules connectorID toolID) as [q|] eqn:E; [|done].
      destruct (H3 q eq_refl) as [?|[Hin Hm]]; [done|]. by rewrite Hn in Hm.
  - intros q E. destruct (H3 q E) as [?|[Hin Hm]]; [done|]. split_and!; [done|done|].
    intros p Hp Hpm. destruct (H1 p Hp Hpm) as (q' & Hq' & Hb). rewrite E in Hq'. injection Hq' as <-.
    apply not_true_iff_false in Hb. rewrite better_true in Hb. split; [lia|]. intros ?.
    destruct (decide (strictness (pl_Action p) <= strictness (pl_Action q))); [done|].
    exfalso. apply Hb. right; left. lia.
Qed.

Definition org_rule (id : string) (a : Action) : ScanPolicy :=
  mkPolicy id "o" "rule" "" "" StageBoth [] a true 0 "" 0 0.

(** ** What a screen lets through *)

(** A refusing policy fails closed: a call that its screen lets go on
    carries the value as it came in, nothing in it matched, and no detector
    the policy names is one that cannot run. *)
Theorem Screen_refusing_policy to_lower reads configured e1 e2 dl now orgID connectorID toolID stage v out rule :
  wf v ->
  Screen to_lower reads configured e1 e2 dl now orgID connectorID toolID stage v = (out, None) ->
  sd_ScanPolicy out = Some rule -> pl_Action rule = ActionRefuse ->
  sd_Value out = v /\ rs_Matches (sd_Result out) = 0 /\
  exists e, e2 = Ok e /\ forall name, name ∈ pl_Detectors rule -> ce_broken e !! name = None.
Proof.
  intros Hwf. unfold Screen. destruct (_ || _); [by intros [= <-]|].
  destruct (Resolve e1 orgID connectorID toolID) as [[p|]|why]; [|by intros [= <-]|done].
  destruct (negb (Covers p stage)); [by intros [= <-]|]. destruct e2 as [e|why]; [|done].
  destruct (list_find _ _) as [[i name]|] eqn:Hfind; [done|].
  assert (Hok : forall name, name ∈ pl_Detectors p -> ce_broken e !! name = None).
  { intros name Hn. apply list_find_None in Hfind. rewrite Forall_forall in Hfind. specialize (Hfind name Hn).
    by apply eq_None_not_Some in Hfind. }
  destruct (OptionsWith p _ (ce_custom e)) as [opt run]. destruct run; cbn [negb].
  2: { intros [= <-] [= <-] _. cbn. split_and!; [done|done|]. by exists e. }
  destruct (Apply to_lower reads v (pl_Action p) _) as [r res] eqn:Ha. destruct r as [value|err]; [|done].
  intros [= <-] [= <-] Hact. cbn [sd_Value sd_Result].
  rewrite Hact in Ha. apply Apply_ok_unmasked in Ha as [-> Hm]; [|done|done].
  split_and!; [done|by apply Hm|]. by exists e.
Qed.

Definition entry_of (ps : list ScanPolicy) : cacheEntry := mkEntry ps ∅ ∅ 0.

Lemma Screen_refusing_policy_witness :
  let e := Ok (entry_of [org_rule "1" ActionRefuse]) in
  snd (Screen id (fun _ => 0%Z) true e e None 0 "o" "c" "t" StageArguments (VStr "hello")) = None /\
  sd_Value (fst (Screen id (fun _ => 0%Z) true e e None 0 "o" "c" "t" StageArguments (VStr "hello"))) = VStr "hello".
Proof.
  split; [vm_compute; reflexivity|].
  refine (proj1 (Screen_refusing_policy id (fun _ => 0%Z) true (Ok (entry_of [org_rule "1" ActionRefuse]))
    (Ok (entry_of [org_rule "1" ActionRefuse])) None 0 "o" "c" "t" StageArguments (VStr "hello") _ (org_rule "1" ActionRefuse) I _ _ _));
    vm_compute; reflexivity.
Defined.

Lemma resolve_names_elem names custom d :
  d ∈ resolve_names names custom ->
  exists name, name ∈ names /\ (Lookup name = Some d \/ (Lookup name = None /\ custom !! name = Some d)).
Proof.
  unfold resolve_names. intros (name & Hin & Hd)%list_elem_of_omap. exists name. split; [done|].
  destruct (Lookup name) as [d'|]; [left; congruence|by right].
Qed.

(** A policy runs the detectors it names and never more: when it names
    some, the options carry only detectors its names stand for; and if none
    of them can run the caller is told not to scan, because an empty list
    would have meant every built-in. *)
Theorem OptionsWith_runs_what_it_names p root custom :
  pl_Detectors p <> [] ->
  (forall d, d ∈ o_Detectors (OptionsWith p root custom).1 -> exists name, name ∈ pl_Detectors p /\
     (Lookup name = Some d \/ (Lookup name = None /\ custom !! name = Some d))) /\
  ((OptionsWith p root custom).2 = true <-> o_Detectors (OptionsWith p root custom).1 <> []).
Proof.
  intros Hn. assert (E : OptionsWith p root custom =
    (mkOptions (resolve_names (pl_Detectors p) custom) (pl_MaxBytes p) root None, 0 <? length (resolve_names (pl_Detectors p) custom))).
  { unfold OptionsWith. by destruct (pl_Detectors p). }
  rewrite E. cbn [fst snd o_Detectors]. split; [intros d; apply resolve_names_elem|].
  rewrite Nat.ltb_lt. destruct (resolve_names _ _) as [|d l]; cbn [length]; split; (done || lia).
Qed.

Lemma OptionsWith_runs_what_it_names_witness :
  let p := mkPolicy "1" "o" "r" "" "" StageBoth ["custom:gone"] ActionMask true 0 "" 0 0 in
  ((OptionsWith p "$" ∅).2 = true <-> o_Detectors (OptionsWith p "$" ∅).1 <> []).
Proof.
  cbn zeta. apply (OptionsWith_runs_what_it_names (mkPolicy "1" "o" "r" "" "" StageBoth ["custom:gone"] ActionMask true 0 "" 0 0) "$" ∅).
  discriminate.
Defined.

(** *** The recorded rows *)

(** How many of the findings are a row's. *)
Definition matches_of (key : string * string * Confidence) (fs : list Finding) : nat :=
  length (filter (fun f => finding_key f = key) fs).

Record rows_ok (fs : list Finding) (rows : list findingRow) : Prop := {
  ro_rows : length rows <= maxFindingRows;
  ro_keys : NoDup (map row_key rows);
  ro_paths : Forall (fun r => length (fr_paths r) <= maxFindingPaths /\ NoDup (fr_paths r)) rows;
  ro_count : Forall (fun r => fr_matches r = matches_of (row_key r) fs) rows;
  ro_missing : forall f, f ∈ fs -> finding_key f ∈ map row_key rows \/ length rows = maxFindingRows;
  ro_new : length rows < maxFindingRows -> forall k, k ∉ map row_key rows -> matches_of k fs = 0;
}.

Lemma matches_of_snoc k fs f :
  matches_of k (fs ++ [f]) = matches_of k fs + (if decide (finding_key f = k) then 1 else 0).
Proof.
  unfold matches_of. rewrite filter_app, length_app, filter_cons. by case_decide.
Qed.

Lemma add_to_row_paths f r :
  length (fr_paths r) <= maxFindingPaths /\ NoDup (fr_paths r) ->
  length (fr_paths (add_to_row f r)) <= maxFindingPaths /\ NoDup (fr_paths (add_to_row f r)).
Proof.
  intros [H1 H2]. cbn [add_to_row fr_paths].
  destruct ((length (fr_paths r) <? maxFindingPaths) && negb (existsb (String.eqb (f_Path f)) (fr_paths r))) eqn:E; [|done].
  bool_prop. rewrite length_app. cbn [length]. split; [lia|]. apply NoDup_app. split_and!; [done| |apply NoDup_singleton].
  intros x Hx ->%list_elem_of_singleton. apply not_true_iff_false in H0. apply H0, existsb_exists.
  exists (f_Path f). split; [by apply list_elem_of_In|apply String.eqb_refl].
Qed.

Lemma map_row_key_insert rows i r f :
  rows !! i = Some r -> row_key r = finding_key f -> map row_key (<[ i := add_to_row f r ]> rows) = map row_key rows.
Proof.
  intros Hi Hk. change (row_key <$> <[i:=add_to_row f r]> rows = row_key <$> rows).
  rewrite list_fmap_insert. apply list_insert_id. by rewrite list_lookup_fmap, Hi.
Qed.

Lemma aggregate_step_ok fs rows f : rows_ok fs rows -> rows_ok (fs ++ [f]) (aggregate_step rows f).
Proof.
  intros [H1 H2 H3 H4 H5 H6]. unfold aggregate_step. destruct (list_find _ rows) as [[i r]|] eqn:E.
  - apply list_find_Some in E as (Hi & Hk & _). rewrite Forall_forall in H3, H4.
    pose proof (list_elem_of_lookup_2 _ _ _ Hi) as Hr. constructor.
    + by rewrite length_insert.
    + by rewrite (map_row_key_insert _ _ r).
    + apply Forall_insert; [by apply Forall_forall|]. by apply add_to_row_paths, H3.
    + apply Forall_forall. intros x Hx. apply list_elem_of_lookup in Hx as [j Hj].
      rewrite matches_of_snoc. destruct (decide (i = j)) as [<-|Hne].
      * rewrite list_lookup_insert_eq in Hj by (by eapply lookup_lt_Some). injection Hj as <-.
        change (row_key (add_to_row f r)) with (row_key r). rewrite decide_True by done.
        cbn [add_to_row fr_matches]. rewrite (H4 r Hr). lia.
      * rewrite list_lookup_insert_ne in Hj by done. rewrite decide_False.
        -- rewrite Nat.add_0_r. apply H4. by eapply list_elem_of_lookup_2.
        -- intros Hk'. apply Hne. eapply (NoDup_lookup (map row_key rows)); [exact H2| |].
           ++ rewrite list_lookup_fmap, Hi. cbn. by rewrite Hk.
           ++ rewrite list_lookup_fmap, Hj. cbn. by rewrite Hk'.
    + intros x [Hx|Hx]%elem_of_app; rewrite (map_row_key_insert _ _ r), length_insert by done; [by apply H5|].
      apply list_elem_of_singleton in Hx as ->. left. rewrite <-Hk. by apply list_elem_of_fmap_2.
    + rewrite length_insert, (map_row_key_insert _ _ r) by done. intros Hl k Hnk. rewrite matches_of_snoc, decide_False.
      * by rewrite H6.
      * intros <-. apply Hnk. rewrite <-Hk. by apply list_elem_of_fmap_2.
  - apply list_find_None in E. rewrite Forall_forall in E.
    assert (Hnew : finding_key f ∉ map row_key rows).
    { intros (r & Hr & Hin)%list_elem_of_fmap. by apply (E r Hin). }
    destruct (maxFindingRows <=? length rows) eqn:Hfull; bool_prop.
    + constructor; try done.
      * apply Forall_forall. intros x Hx. rewrite matches_of_snoc. rewrite decide_False.
        -- rewrite Nat.add_0_r. rewrite Forall_forall in H4. by apply H4.
        -- intros Hk. apply Hnew. rewrite Hk. by apply list_elem_of_fmap_2.
      * intros x _. right. lia.
      * lia.
    + set (r := add_to_row f _). assert (Hrk : row_key r = finding_key f) by done. constructor.
      * rewrite length_app. cbn [length]. lia.
      * rewrite map_app. cbn [map]. rewrite Hrk. apply NoDup_app. split_and!; [done| |apply NoDup_singleton].
        intros x Hx ->%list_elem_of_singleton. done.
      * apply Forall_app. split; [done|]. constructor; [|constructor]. apply add_to_row_paths. cbn.
        split; [unfold maxFindingPaths; lia|constructor].
      * apply Forall_app. split; [|constructor; [|constructor]].
        -- apply Forall_forall. intros x Hx. rewrite matches_of_snoc, decide_False.
           ++ rewrite Nat.add_0_r. rewrite Forall_forall in H4. by apply H4.
           ++ intros Hk. apply Hnew. rewrite Hk. by apply list_elem_of_fmap_2.
        -- rewrite Hrk, matches_of_snoc, decide_True by done. rewrite (H6 Hfull _ Hnew). done.
      * intros x [Hx|Hx]%elem_of_app; rewrite map_app, elem_of_app.
        -- destruct (H5 x Hx) as [?|?]; [left; by left|lia].
        -- apply list_elem_of_singleton in Hx as ->. left. right. cbn [map]. rewrite Hrk. by left.
      * rewrite length_app. cbn [length]. intros Hl k Hk. rewrite map_app, not_elem_of_app in Hk. destruct Hk as [Hk1 Hk2].
        rewrite matches_of_snoc, decide_False; [by rewrite H6 by (done || lia)|]. intros <-. apply Hk2. cbn [map]. rewrite Hrk. by left.
Qed.

Lemma aggregate_ok res : rows_ok (rs_Findings res) (aggregate res).
Proof.
  unfold aggregate. assert (H : forall fs done rows, rows_ok done rows -> rows_ok (done ++ fs) (foldl aggregate_step rows fs)).
  { induction fs as [|f fs IH]; intros ds rows H; [by rewrite app_nil_r|]. cbn [foldl].
    change (f :: fs) with ([f] ++ fs). rewrite app_assoc. by apply IH, aggregate_step_ok. }
  apply (H _ []). constructor; cbn; try constructor.
  - unfold maxFindingRows. lia.
  - by apply not_elem_of_nil in H0.
Qed.

(** What a scan leaves in the database is bounded and right: at most 32
    rows of at most 20 distinct paths each, one row per detector, rule and
    confidence, each counting exactly its findings; and unless there are 32
    rows every finding has one. *)
Theorem aggregate_rows_right res :
  let rows := aggregate res in
  length rows <= 32 /\ NoDup (map row_key rows) /\
  (forall r, r ∈ rows -> length (fr_paths r) <= 20 /\ NoDup (fr_paths r) /\ fr_matches r = matches_of (row_key r) (rs_Findings res)) /\
  (length rows < 32 -> forall f, f ∈ rs_Findings res -> finding_key f ∈ map row_key rows).
Proof.
  cbn zeta. destruct (aggregate_ok res) as [H1 H2 H3 H4 H5 _]. rewrite Forall_forall in H3, H4. split_and!.
  - exact H1.
  - exact H2.
  - intros r Hr. destruct (H3 r Hr). split_and!; [done|done|by apply H4].
  - intros Hl f Hf. destruct (H5 f Hf) as [?|E]; [done|]. unfold maxFindingRows in E. lia.
Qed.

(** ** The cache keeps the generation contract *)

(** An entry with the compiled map stored beside it. *)
Abbreviation stored_entry := (cacheEntry * gmap string Detector)%type.

#[export] Instance Policies_GenCache : GenCache Policies string stored_entry := {
  gc_org := id;
  gc_get p k := (fun e => (e, default ∅ (ps_compiled p !! k))) <$> ps_cache p !! k;
  gc_token p o := (load_start p o).1;
  gc_store p k tok e := load_finish p k tok e.1 e.2;
  gc_inv_key := InvalidateOrg;
  gc_inv_org := InvalidateOrg;
  gc_inv_all := InvalidateAll;
}.

Lemma u64_next z : (0 <= z < gc_max - 1)%Z -> u64 (z + 1) = (z + 1)%Z.
Proof. unfold u64, gc_max. intros. apply Z.mod_small. lia. Qed.

Lemma InvalidateOrg_token p o o' : (0 <= orgGen p o < gc_max - 1)%Z ->
  (load_start (InvalidateOrg p o) o').1 =
    if decide (o = o') then ((load_start p o').1.1, (load_start p o').1.2 + 1)%Z else (load_start p o').1.
Proof.
  unfold load_start, InvalidateOrg, orgGen. cbn. intros H. rewrite lookup_insert.
  case_decide; [subst|done]. cbn. by rewrite u64_next.
Qed.

#[export] Instance Policies_GenCacheLaws : GenCacheLaws Policies string stored_entry.
Proof.
  split.
  - intros p k tok [e cm] k'. cbn. unfold load_finish. cbn. case_bool_decide as Ht; cbn.
    + rewrite !lookup_insert. case_decide as Hk; [subst; by rewrite decide_True|]. by rewrite decide_False by tauto.
    + by rewrite decide_False by tauto.
  - intros p k tok e o. cbn. unfold load_finish, load_start. by case_bool_decide.
  - intros p k. cbn. by rewrite lookup_delete_eq.
  - intros p k k' e. cbn. destruct (decide (k = k')) as [<-|]; [by rewrite lookup_delete_eq|by rewrite lookup_delete_ne].
  - intros p o k <-. cbn. by rewrite lookup_delete_eq.
  - intros p o k e. cbn. destruct (decide (o = k)) as [<-|]; [by rewrite lookup_delete_eq|by rewrite lookup_delete_ne].
  - intros p k. cbn. by rewrite lookup_empty.
  - intros p k o H. by apply (InvalidateOrg_token p k o).
  - intros p o o' H. by apply (InvalidateOrg_token p o o').
  - intros p o H. cbn in *. unfold orgGen. cbn. rewrite lookup_empty. by rewrite u64_next.
Qed.

Section fresh.
Context (parse : string -> result string (re Z)) (compile : re Z -> result string Z).

(** The entry a load of an organisation makes of its rows: the enabled
    detectors, compiled afresh or found in a map of compiled ones. *)
Definition policies_built (db db2 : string -> tenant_db) (orgID : string) (e : stored_entry) : Prop :=
  exists prev at_, e = load_build parse compile prev (db_policies (db orgID)) (List.filter c_Enabled (db_detectors (db2 orgID))) at_.

(** The policies a call is judged by are never older than the last
    invalidation: in every interleaving of writes, invalidations and loads,
    an entry the cache serves holds the policies of some committed state no
    older than the one current when its organisation was last invalidated.
    (Runs of fewer than 2^64 invalidations.) *)
Theorem cached_policies_fresh (y : system (S := Policies) (K := string) (E := stored_entry) (DB := string -> tenant_db))
    orgID now e :
  reachable policies_built y -> (Z.of_nat (sy_invs y) < 2 ^ 64)%Z ->
  entry_hit (sy_cache y) orgID now = Some e ->
  exists v db, sy_floor y orgID <= v /\ sy_dbs y !! v = Some db /\ ce_list e = db_policies (db orgID).
Proof.
  intros Hr Hn Hh. unfold entry_hit in Hh. destruct (ps_cache (sy_cache y) !! orgID) as [e'|] eqn:E; [|done].
  destruct (_ <? _)%Z; [|done]. injection Hh as ->.
  destruct (cache_answers_fresh policies_built y orgID (e, default ∅ (ps_compiled (sy_cache y) !! orgID)) Hr Hn)
    as (v & v2 & [? ?] & db & db2 & ? & ? & prev & at_ & Hb).
  { cbn. by rewrite E. }
  exists v, db. split_and!; [done|done|]. unfold load_build in Hb. destruct (foldl _ _ _) as [[cm cu] br]. by injection Hb as -> _.
Qed.
End fresh.

Definition no_parse (s : string) : result string (re Z) := Err s.
Definition no_compile (r : re Z) : result string Z := Err "none".

Definition one_policy (o : string) : tenant_db := mkDB [] [] [] [org_rule "1" ActionRefuse] [].

Abbreviation psystem := (system (S := Policies) (K := string) (E := stored_entry) (DB := string -> tenant_db)).

Definition built_entry : stored_entry := (entry_of [org_rule "1" ActionRefuse], ∅).

Definition prun0 : psystem := mkSystem NewPolicies [one_policy] ∅ (fun _ => 0) 0.
Definition prun1 : psystem :=
  mkSystem (gc_inv_org (sy_cache prun0) "o") (sy_dbs prun0) ∅ (raise_floor prun0 (fun k' => bool_decide (gc_org k' = "o"))) 1.
Definition prun2 : psystem :=
  mkSystem (sy_cache prun1) (sy_dbs prun1) (<[0 := mkFlight "o" (gc_token (sy_cache prun1) (gc_org "o")) None None]> (sy_flights prun1))
    (sy_floor prun1) (sy_invs prun1).
Definition prun2' : psystem :=
  mkSystem (sy_cache prun2) (sy_dbs prun2) (<[0 := mkFlight "o" (gc_token (sy_cache prun1) (gc_org "o")) (Some 0) None]> (sy_flights prun2))
    (sy_floor prun2) (sy_invs prun2).
Definition prun3 : psystem :=
  mkSystem (sy_cache prun2') (sy_dbs prun2')
    (<[0 := mkFlight "o" (gc_token (sy_cache prun1) (gc_org "o")) (Some 0) (Some (built_entry, 0, 0))]> (sy_flights prun2'))
    (sy_floor prun2') (sy_invs prun2').
Definition prun4 : psystem :=
  mkSystem (gc_store (sy_cache prun3) "o" (gc_token (sy_cache prun1) (gc_org "o")) built_entry) (sy_dbs prun3)
    (delete 0 (sy_flights prun3)) (sy_floor prun3) (sy_invs prun3).

Lemma prun4_reachable : reachable (policies_built no_parse no_compile) prun4.
Proof.
  eapply (reach_step _ prun3); [|exact (step_finish _ prun3 0 (mkFlight "o" (0, 1)%Z (Some 0) (Some (built_entry, 0, 0))) built_entry 0 0 eq_refl eq_refl)].
  eapply (reach_step _ prun2'); [|exact (step_read _ prun2' 0 (mkFlight "o" (0, 1)%Z (Some 0) None) 0 one_policy one_policy built_entry eq_refl eq_refl eq_refl eq_refl
    (ex_intro _ ∅ (ex_intro _ 0%Z eq_refl)))].
  eapply (reach_step _ prun2); [|exact (step_first _ prun2 0 (mkFlight "o" (0, 1)%Z None None) eq_refl)].
  eapply (reach_step _ prun1); [|by apply (step_begin _ prun1 0 "o")].
  eapply (reach_step _ prun0); [|apply (step_inv_org _ prun0 "o")].
  apply reach_init. exists NewPolicies, one_policy. split; [reflexivity|].
  split; [intros k; reflexivity|intros o; reflexivity].
Qed.

Lemma cached_policies_fresh_witness :
  exists v db, 0 <= v /\ sy_dbs prun4 !! v = Some db /\ [org_rule "1" ActionRefuse] = db_policies (db "o").
Proof.
  apply (cached_policies_fresh no_parse no_compile prun4 "o" 1 (entry_of [org_rule "1" ActionRefuse]));
    [apply prun4_reachable|reflexivity|vm_compute; reflexivity].
Defined.

(** ** What a write does *)

Section write_theorems.
Context (parse : string -> result string (re Z)) (compile : re Z -> result string Z).

(** One rule per scope and per id: what the schema's indexes keep. *)
Definition scopes_unique (db : tenant_db) : Prop :=
  NoDup (map pl_ID (db_policies db)) /\
  NoDup (map (fun p => (pl_ConnectorID p, pl_ToolID p)) (db_policies db)).

Lemma same_scope_true a b : same_scope a b = true <-> (pl_ConnectorID a, pl_ToolID a) = (pl_ConnectorID b, pl_ToolID b).
Proof.
  unfold same_scope. rewrite andb_true_iff, !String.eqb_eq. split; [by intros [-> ->]|by intros [= -> ->]].
Qed.

Lemma insertPolicy_unique db v now db' v' :
  insertPolicy db v now = Ok (db', v') -> scopes_unique db -> scopes_unique db'.
Proof.
  unfold insertPolicy. destruct (existsb _ _) eqn:E; [done|]. intros [= <- <-] [H1 H2].
  assert (Hn : forall p, p ∈ db_policies db -> pl_ID p <> pl_ID v /\ same_scope p v = false).
  { intros p Hp. apply not_true_iff_false in E. split.
    - intros Heq. apply E, existsb_exists. exists p. rewrite <-list_elem_of_In, Heq, String.eqb_refl. done.
    - apply not_true_iff_false. intros Hs. apply E, existsb_exists. exists p. rewrite <-list_elem_of_In, Hs, orb_true_r. done. }
  split; cbn [db_policies with_policies]; rewrite map_app; apply NoDup_app; (split; [done|split; [|apply NoDup_singleton]]);
    intros x Hx ->%list_elem_of_singleton; apply list_elem_of_fmap in Hx as (p & Hx & Hp); destruct (Hn p Hp) as [? Hs].
  - by cbn in Hx.
  - apply not_true_iff_false in Hs. apply Hs, same_scope_true. by cbn in Hx.
Qed.

Lemma updatePolicy_unique db v now db' v' :
  updatePolicy db v now = Ok (db', v') -> scopes_unique db -> scopes_unique db'.
Proof.
  unfold updatePolicy. destruct (List.find _ _) as [old|] eqn:Ef; [|done]. destruct (existsb _ _) eqn:E; [done|].
  intros [= <- <-] [H1 H2]. set (w := stamped v _ _ _).
  assert (Hn : forall p, p ∈ db_policies db -> pl_ID p <> pl_ID v -> same_scope p v = false).
  { intros p Hp Hne. apply not_true_iff_false. intros Hs. apply not_true_iff_false in E. apply E, existsb_exists. exists p.
    rewrite <-list_elem_of_In, Hs, (proj2 (String.eqb_neq _ _)) by done. done. }
  set (f := fun p => if String.eqb (pl_ID p) (pl_ID v) then w else p).
  assert (Hid : forall p, pl_ID (f p) = pl_ID p).
  { intros p. unfold f. destruct (String.eqb _ _) eqn:Ep; [|done]. apply String.eqb_eq in Ep. by rewrite Ep. }
  split; cbn [db_policies with_policies]; fold f.
  - rewrite map_map. by rewrite (map_ext _ pl_ID) by done.
  - rewrite map_map. apply NoDup_fmap_2_strong; [|by eapply NoDup_fmap_1].
    intros p q Hp Hq Heq. destruct (decide (pl_ID p = pl_ID q)) as [Ei|Ne].
    + apply list_elem_of_lookup in Hp as [i Hi], Hq as [j Hj].
      assert (i = j) as ->; [|congruence]. eapply (NoDup_lookup (map pl_ID (db_policies db))); [done| |];
        rewrite list_lookup_fmap; [rewrite Hi|rewrite Hj]; cbn; by f_equal.
    + exfalso. unfold f in Heq. destruct (String.eqb (pl_ID p) (pl_ID v)) eqn:Ep, (String.eqb (pl_ID q) (pl_ID v)) eqn:Eq.
      * apply String.eqb_eq in Ep, Eq. congruence.
      * apply String.eqb_neq in Eq. specialize (Hn q Hq Eq). apply not_true_iff_false in Hn. apply Hn, same_scope_true. by rewrite <-Heq.
      * apply String.eqb_neq in Ep. specialize (Hn p Hp Ep). apply not_true_iff_false in Hn. apply Hn, same_scope_true. by rewrite Heq.
      * apply Ne. apply list_elem_of_lookup in Hp as [i Hi], Hq as [j Hj].
        assert (i = j) as ->; [|congruence]. eapply (NoDup_lookup (map (fun p => (pl_ConnectorID p, pl_ToolID p)) (db_policies db)));
          [done| |]; rewrite list_lookup_fmap; [rewrite Hi|rewrite Hj]; cbn; by f_equal.
Qed.

Lemma filter_unique db f : scopes_unique db -> scopes_unique (with_policies db (List.filter f (db_policies db))).
Proof.
  assert (Hf : forall {A} (g : ScanPolicy -> A) l, NoDup (map g l) -> NoDup (map g (List.filter f l))).
  { intros A g l. induction l as [|p l IH]; [done|]. cbn [map List.filter]. rewrite NoDup_cons. intros [Hn Hl].
    destruct (f p); [|by apply IH]. cbn [map]. apply NoDup_cons. split; [|by apply IH].
    intros (q & Hq & Hin)%list_elem_of_fmap. apply Hn. rewrite Hq. apply list_elem_of_fmap_2.
    rewrite list_elem_of_In in Hin |- *. by apply filter_In in Hin as [? _]. }
  intros [H1 H2]. split; by apply Hf.
Qed.

Lemma record_unique on db v a i : scopes_unique db -> scopes_unique (record_revision on db v a i).
Proof. unfold record_revision. by destruct on. Qed.

Lemma baseline_unique on db b : scopes_unique db -> scopes_unique (baseline on db b).
Proof. unfold baseline. by destruct (on && _). Qed.

Lemma create_tx_unique on db v now db' v' : create_tx parse compile on db v now = Ok (db', v') -> scopes_unique db -> scopes_unique db'.
Proof.
  unfold create_tx. destruct (scopeExists db v) as [[]|e]; [|done]. cbn. destruct (customCheck _ _ _ _) as [[]|e]; [|done]. cbn.
  destruct (insertPolicy db v now) as [[d w]|e] eqn:E; [|done]. cbn. intros [= <- <-] H.
  apply record_unique. by eapply insertPolicy_unique.
Qed.

Lemma edit_tx_unique on db b v i now db' v' : edit_tx parse compile on db b v i now = Ok (db', v') -> scopes_unique db -> scopes_unique db'.
Proof.
  unfold edit_tx. destruct (scopeExists db v) as [[]|e]; [|done]. cbn. destruct (customCheck _ _ _ _) as [[]|e]; [|done]. cbn.
  destruct (updatePolicy db v now) as [[d w]|e] eqn:E; [|done]. cbn. intros [= <- <-] H.
  apply record_unique, baseline_unique. by eapply updatePolicy_unique.
Qed.

(** A write: what it leaves and whether it succeeded. *)
Inductive write : Type :=
  | WCreate (newID : string) (v : ScanPolicy)
  | WUpdate (id : string) (v : ScanPolicy) (actorID : string)
  | WRestore (id : string) (v : ScanPolicy) (actorID : string)
  | WDelete (id actorID : string).

Definition ok {E A} (r : result E A) : bool := match r with Ok _ => true | Err _ => false end.

Definition run_write (on : bool) (orgID : string) (w : write) (now : Z) (fault : option string) (db : tenant_db) (p : Policies) :
    bool * tenant_db * Policies :=
  match w with
  | WCreate i v => let '(r, db, p) := Create parse compile on i orgID v now fault db p in (ok r, db, p)
  | WUpdate i v a => let '(r, db, p) := Update parse compile on orgID i v a now fault db p in (ok r, db, p)
  | WRestore i v a => let '(r, db, p) := Restore_policy parse compile on orgID i v a now fault db p in (ok r, db, p)
  | WDelete i a => let '(r, db, p) := Delete on orgID i a fault db p in (ok r, db, p)
  end.

Lemma commit_ok {A} fault (r : result policy_error A) a : commit fault r = Ok a -> r = Ok a.
Proof. destruct fault, r; by intros [=]; subst. Qed.

(** A policy write is all or nothing, and no replica serves what it
    replaced from its own cache: a write that fails, for whatever reason and
    at whatever point, leaves the rows, the history and the cache as they
    were; one that succeeds leaves at most one rule per scope, if there was
    at most one before, and the organisation's cached policies are gone. *)
Theorem write_all_or_nothing on orgID w now fault db p :
  let '(done_, db', p') := run_write on orgID w now fault db p in
  (done_ = false -> db' = db /\ p' = p) /\
  (done_ = true -> ps_cache p' !! orgID = None /\ (scopes_unique db -> scopes_unique db')).
Proof.
  assert (Hinv : ps_cache (InvalidateOrg p orgID) !! orgID = None) by apply lookup_delete_eq.
  destruct w as [i v|i v a|i v a|i a]; cbn [run_write].
  - unfold Create. destruct (Validate_policy v); [|done].
    destruct (commit _ _) as [[d x]|e] eqn:E; [|done]. split; [done|]. intros _. split; [done|].
    apply commit_ok in E. by eapply create_tx_unique.
  - unfold Update. destruct (Validate_policy v); [|done].
    destruct (commit _ _) as [[d x]|e] eqn:E; [|done]. split; [done|]. intros _. split; [done|].
    apply commit_ok in E. unfold update_tx in E. destruct (lockPolicy _ _) as [b|e]; [|done]. by eapply edit_tx_unique.
  - unfold Restore_policy. destruct (Validate_policy v); [|done].
    destruct (commit _ _) as [[[d x] y]|e] eqn:E; [|done]. split; [done|]. intros _. split; [done|].
    apply commit_ok in E. unfold restore_tx in E. destruct (lockPolicy _ _) as [b|[]]; try done.
    + destruct (edit_tx _ _ _ _ _ _ _ _) as [[d' x']|e] eqn:Ee; [|done]. cbn in E. injection E as <- <- <-. by eapply edit_tx_unique.
    + destruct (scopeExists _ _) as [[]|e]; [|done]. cbn in E. destruct (customCheck _ _ _ _) as [[]|e]; [|done]. cbn in E.
      destruct (insertPolicy _ _ _) as [[d' x']|e] eqn:Ee; [|done]. cbn in E. injection E as <- <- <-.
      intros H. apply record_unique. by eapply insertPolicy_unique.
  - unfold Delete. destruct (commit _ _) as [d|e] eqn:E; [|done]. split; [done|]. intros _. split; [done|].
    apply commit_ok in E. unfold delete_tx in E. destruct (lockPolicy _ _) as [b|e]; [|done]. cbn in E. injection E as <-.
    intros H. by apply record_unique, baseline_unique, filter_unique.
Qed.

(** A policy that is stored fits the cost budget: when the check of its
    custom detectors passes, their programs' instructions together times the
    bytes the policy reads stay within [ScanCostBudget]. *)
Theorem customCheck_fits_budget db v sizes :
  customCheck parse compile db v = Ok tt -> sizes_of parse compile db (wanted (pl_Detectors v)) [] = Ok sizes ->
  (0 <= pl_MaxBytes v)%Z -> (foldl Z.add 0 sizes * effectiveMaxBytes (pl_MaxBytes v) <= ScanCostBudget)%Z.
Proof.
  unfold customCheck. destruct (wanted (pl_Detectors v)) as [|n want] eqn:Hw.
  { cbn. intros _ [= <-] H. vm_compute. done. }
  intros H Hs Hm. rewrite Hs in H. unfold scanCost in H.
  change 65536%Z with DefaultMaxBytes in H. fold (effectiveMaxBytes (pl_MaxBytes v)) in H.
  set (b := effectiveMaxBytes _) in *. set (total := foldl _ _ _) in *.
  assert (0 < b)%Z. { unfold b, effectiveMaxBytes, DefaultMaxBytes. destruct (_ <=? 0)%Z eqn:E; [by vm_compute|]. by bool_prop. }
  destruct (Z.quot ScanCostBudget b <? total)%Z eqn:Hl; [done|]. bool_prop.
  rewrite Z.quot_div_nonneg in Hl by (done || by vm_compute).
  pose proof (Z.mul_div_le ScanCostBudget b ltac:(done)). nia.
Qed.
End write_theorems.

Definition custom_rule : ScanPolicy := mkPolicy "1" "o" "r" "" "" StageBoth ["custom:contract"] ActionMask true 0 "" 0 0.

Definition demo_db : tenant_db := mkDB [] [] [demo_detector] [] [].

Lemma customCheck_fits_budget_witness : (foldl Z.add 0 [5] * effectiveMaxBytes 0 <= ScanCostBudget)%Z.
Proof.
  apply (customCheck_fits_budget demo_parse (fun _ => Ok 5%Z) demo_db custom_rule [5%Z]);
    [vm_compute; reflexivity|vm_compute; reflexivity|done].
Defined.
