(* ===== verification/Secrets.v ===== *)
(** * Secrets: envelope encryption

    [internal/secrets/secrets.go].  A master key (KEK) wraps data keys, a
    data key seals values with AES-256-GCM bound to the row that holds them.
    The cipher of the standard library and the master keys are arguments
    with the laws they document; the sealer's state is its key store and
    the data keys it has unwrapped.  [Sealer] at the top is the interface
    the other components use; [sealer_at] at the end discharges it. *)
From S2P Require Import Prelude GoStrings.

Open Scope list_scope.

(** [secrets.AAD]: the row a sealed value belongs to. *)
Record AAD : Type := mkAAD { aad_Table : string; aad_Column : string; aad_RowID : string; aad_OrgID : string }.

(** ** The interface

    What is sealed for an organisation is never empty, and opens to what
    was sealed for the same row.  [nonce] is the randomness. *)
Class Sealer : Type := {
  Seal : string -> string -> string -> AAD -> result string string;
  Unseal : string -> string -> AAD -> result string string;
  Seal_nonempty nonce org p aad c : Seal nonce org p aad = Ok c -> String.length c <> 0;
  Unseal_Seal nonce org p aad c : Seal nonce org p aad = Ok c -> Unseal org c aad = Ok p;
}.

(** ** The implementation *)

Definition NUL : ascii := ascii_of_nat 0.

Definition aad_bytes (a : AAD) : string :=
  aad_Table a +:+ String NUL (aad_Column a +:+ String NUL (aad_RowID a +:+ String NUL (aad_OrgID a))).

Definition formatVersion : ascii := ascii_of_nat 1.
Definition keyIDLen : nat := 16.
Definition nonceLen : nat := 12.
Definition headerLen : nat := 1 + keyIDLen + nonceLen.
Definition dekLen : nat := 32.
Definition tagLen : nat := 16.

Inductive secret_error : Type :=
  | ErrMalformed
  | ErrUnknownKey
  | ErrNotHeld (ref : string)
  | ErrWrongLength
  | ErrNoDataKey (scope : string)
  | ErrKey (why : string).

Record DataKey : Type := mkDataKey {
  dk_ID : string;
  dk_Scope : string;
  dk_KEKRef : string;
  dk_Wrapped : string;
  dk_Status : string;
}.

Definition ScopeOrg (orgID : string) : string := "org:" +:+ orgID.
Definition ScopeInstance : string := "instance".

(** *** The key store ([MemoryKeyStore]) *)

Definition is_active (scope : string) (k : DataKey) : bool := String.eqb (dk_Scope k) scope && String.eqb (dk_Status k) "active".

Definition Active (keys : list DataKey) (scope : string) : option DataKey := List.find (is_active scope) keys.

Definition Get (keys : list DataKey) (id : string) : option DataKey := List.find (fun k => String.eqb (dk_ID k) id) keys.

(** [Put] keeps the first active key of a scope. *)
Definition Put (keys : list DataKey) (k : DataKey) : list DataKey :=
  if existsb (is_active (dk_Scope k)) keys then keys
  else List.filter (fun k' => negb (String.eqb (dk_ID k') (dk_ID k))) keys ++ [k].

(** *** Master keys *)

(** [KEK], with [forRef] of [crossRef]; a key that does not implement it
    stands for no other reference. *)
Class KEK (K : Type) : Type := {
  Ref : K -> string;
  Wrap : K -> string -> string -> result string string;
  Unwrap : K -> string -> result string string;
  forRef : K -> string -> option K;
  Unwrap_Wrap k nonce dek w : String.length nonce = nonceLen -> Wrap k nonce dek = Ok w -> Unwrap k w = Ok dek;
}.

(** [crypto/aes] and [crypto/cipher]: AES-GCM under a key, a nonce and
    additional data; [gcm_seal] appends a 16-byte tag. *)
Class GCM : Type := {
  gcm_seal : string -> string -> string -> string -> string;
  gcm_open : string -> string -> string -> string -> option string;
  gcm_open_seal key nonce p aad : gcm_open key nonce (gcm_seal key nonce p aad) aad = Some p;
  gcm_length key nonce p aad : String.length (gcm_seal key nonce p aad) = String.length p + tagLen;
}.

(** [aes.NewCipher] takes a key of 16, 24 or 32 bytes. *)
Definition aes_key (key : string) : bool := existsb (Nat.eqb (String.length key)) [16; 24; 32].

Section sealer.
Context {K : Type} `{KEK K} `{GCM}.

Record sealer : Type := mkSealer {
  s_kek : K;
  s_older : list K;
  s_store : list DataKey;
  s_deks : gmap string string;
}.

Definition New_sealer (kek : K) (store : list DataKey) (decryptOnly : list K) : sealer := mkSealer kek decryptOnly store ∅.

Definition with_dek (s : sealer) (id dek : string) : sealer := mkSealer (s_kek s) (s_older s) (s_store s) (<[ id := dek ]> (s_deks s)).

Definition Forget (s : sealer) : sealer := mkSealer (s_kek s) (s_older s) (s_store s) ∅.

Definition openerFor (k : K) (ref : string) : option K :=
  if String.eqb (Ref k) ref then Some k else forRef k ref.

(** The last loop of [kekFor]. *)
Fixpoint first_opener (ks : list K) (ref : string) : option K :=
  match ks with
  | [] => None
  | k :: ks => match openerFor k ref with Some k => Some k | None => first_opener ks ref end
  end.

Definition kekFor (s : sealer) (dk : DataKey) : result secret_error K :=
  let ref := dk_KEKRef dk in
  if String.eqb ref (Ref (s_kek s)) then Ok (s_kek s)
  else match List.find (fun k => String.eqb (Ref k) ref) (s_older s) with
  | Some k => Ok k
  | None =>
      match openerFor (s_kek s) ref with
      | Some k => Ok k
      | None => match first_opener (s_older s) ref with
                | Some k => Ok k
                | None => Err (ErrNotHeld ref)
                end
      end
  end.

(** [unwrap], which remembers what it unwrapped. *)
Definition unwrap (s : sealer) (dk : DataKey) : result secret_error string * sealer :=
  match s_deks s !! dk_ID dk with
  | Some dek => (Ok dek, s)
  | None =>
      match kekFor s dk with
      | Err e => (Err e, s)
      | Ok kek =>
          match Unwrap kek (dk_Wrapped dk) with
          | Err e => (Err (ErrKey e), s)
          | Ok dek => if negb (String.length dek =? dekLen) then (Err ErrWrongLength, s)
                      else (Ok dek, with_dek s (dk_ID dk) dek)
          end
      end
  end.

(** The randomness of one [Seal]: a new data key, its wrapping, its
    identifier, and the nonce. *)
Record randomness : Type := mkRandom { rnd_dek : string; rnd_wrap : string; rnd_id : string; rnd_nonce : string }.

Definition activeKey (s : sealer) (scope : string) (r : randomness) : result secret_error DataKey * sealer :=
  match Active (s_store s) scope with
  | Some dk => (Ok dk, s)
  | None =>
      match Wrap (s_kek s) (rnd_wrap r) (rnd_dek r) with
      | Err e => (Err (ErrKey e), s)
      | Ok wrapped =>
          let nk := mkDataKey (rnd_id r) scope (Ref (s_kek s)) wrapped "active" in
          let s := mkSealer (s_kek s) (s_older s) (Put (s_store s) nk) (s_deks s) in
          match Active (s_store s) scope with
          | None => (Err (ErrNoDataKey scope), s)
          | Some dk => (Ok dk, if String.eqb (dk_ID dk) (dk_ID nk) then with_dek s (dk_ID nk) (rnd_dek r) else s)
          end
      end
  end.

Definition Seal_value (s : sealer) (scope p : string) (aad : AAD) (r : randomness) : result secret_error string * sealer :=
  match activeKey s scope r with
  | (Err e, s) => (Err e, s)
  | (Ok dk, s) =>
      match unwrap s dk with
      | (Err e, s) => (Err e, s)
      | (Ok dek, s) =>
          if negb (aes_key dek) then (Err (ErrKey "aes"), s)
          else (Ok (String formatVersion (dk_ID dk +:+ rnd_nonce r +:+ gcm_seal dek (rnd_nonce r) p (aad_bytes aad))), s)
      end
  end.

Definition starts_with_version (c : string) : bool :=
  match c with String v _ => Ascii.eqb v formatVersion | "" => false end.

Definition Open_value (s : sealer) (c : string) (aad : AAD) : result secret_error string * sealer :=
  if (String.length c <? headerLen + 16) || negb (starts_with_version c) then (Err ErrMalformed, s)
  else
    let id := str_take keyIDLen (str_drop 1 c) in
    match Get (s_store s) id with
    | None => (Err ErrUnknownKey, s)
    | Some dk =>
        match unwrap s dk with
        | (Err e, s) => (Err e, s)
        | (Ok dek, s) =>
            if negb (aes_key dek) then (Err (ErrKey "aes"), s)
            else
              let nonce := str_take nonceLen (str_drop (1 + keyIDLen) c) in
              match gcm_open dek nonce (str_drop headerLen c) (aad_bytes aad) with
              | Some p => (Ok p, s)
              | None => (Err ErrMalformed, s)
              end
        end
    end.

Definition KeyID (c : string) : result secret_error string :=
  if (String.length c <? headerLen) || negb (starts_with_version c) then Err ErrMalformed
  else Ok (str_take keyIDLen (str_drop 1 c)).
End sealer.
Arguments sealer K : clear implicits.

(** ** The local master key *)

Definition local_aad : string := "supermcp-dek".

Record Local : Type := mkLocal { l_key : string; l_ref : string }.

(** [NewLocal]; [decode] is base64, standard then raw. *)
Definition NewLocal (decode decode_raw : string -> option string) (b64 ref : string) : option Local :=
  let key := match decode (TrimSpace b64) with Some k => Some k | None => decode_raw (TrimSpace b64) end in
  match key with
  | Some k => if String.length k =? 32 then Some (mkLocal k ref) else None
  | None => None
  end.

Section local.
Context `{GCM}.

Definition Local_Wrap (l : Local) (nonce dek : string) : result string string :=
  if negb (aes_key (l_key l)) then Err "aes"
  else Ok (nonce +:+ gcm_seal (l_key l) nonce dek local_aad).

Definition Local_Unwrap (l : Local) (w : string) : result string string :=
  if negb (aes_key (l_key l)) then Err "aes"
  else if String.length w <? nonceLen + 16 then Err "malformed"
  else match gcm_open (l_key l) (str_take nonceLen w) (str_drop nonceLen w) local_aad with
       | Some dek => Ok dek
       | None => Err "authentication failed"
       end.

Lemma Local_Unwrap_Wrap l nonce dek w : String.length nonce = nonceLen -> Local_Wrap l nonce dek = Ok w -> Local_Unwrap l w = Ok dek.
Proof.
  intros Hn. unfold Local_Wrap, Local_Unwrap. destruct (negb _); [done|]. intros [= <-].
  rewrite length_app_str, gcm_length, Hn. destruct (Nat.ltb_spec (nonceLen + (String.length dek + tagLen)) (nonceLen + 16)).
  { unfold tagLen in *. lia. }
  rewrite <-Hn, str_take_app, str_drop_app. by rewrite gcm_open_seal.
Qed.

(** The local key is a master key that stands for no other reference. *)
#[export] Instance Local_KEK : KEK Local := {|
  Ref l := "local:" +:+ l_ref l; Wrap := Local_Wrap; Unwrap := Local_Unwrap; forRef _ _ := None;
  Unwrap_Wrap := Local_Unwrap_Wrap |}.
End local.

(** ** Additional data *)

(** Two rows whose names hold no NUL have different additional data. *)
Lemma aad_bytes_inj a b :
  has_byte NUL (aad_Table a) = false -> has_byte NUL (aad_Table b) = false ->
  has_byte NUL (aad_Column a) = false -> has_byte NUL (aad_Column b) = false ->
  has_byte NUL (aad_RowID a) = false -> has_byte NUL (aad_RowID b) = false ->
  aad_bytes a = aad_bytes b -> a = b.
Proof.
  unfold aad_bytes. intros H1 H2 H3 H4 H5 H6 E.
  apply app_sep_inj in E as [E1 E]; [|done..]. apply app_sep_inj in E as [E2 E]; [|done..].
  apply app_sep_inj in E as [E3 E4]; [|done..]. destruct a, b. cbn in *. by subst.
Qed.

(** ** What is sealed opens *)

Section opens.
Context {K : Type} `{KEK K} `{GCM}.

(** A sealed value, as its bytes are laid out. *)
Definition sealed (dk : DataKey) (dek nonce p : string) (aad : AAD) : string :=
  String formatVersion (dk_ID dk +:+ nonce +:+ gcm_seal dek nonce p (aad_bytes aad)).

Lemma length_sealed dk dek nonce p aad : String.length (dk_ID dk) = keyIDLen -> String.length nonce = nonceLen ->
  String.length (sealed dk dek nonce p aad) = headerLen + (String.length p + tagLen).
Proof.
  intros H1 H2. unfold sealed. cbn [String.length]. rewrite !length_app_str, gcm_length, H1, H2. unfold headerLen. lia.
Qed.

Lemma str_drop_add n m s : str_drop (n + m) s = str_drop m (str_drop n s).
Proof. revert s; induction n as [|n IH]; intros s; [done|]. destruct s as [|c s]; [by destruct m|]. apply IH. Qed.

(** The key's identifier and the nonce are read back where they were put. *)
Lemma sealed_parts dk dek nonce p aad : String.length (dk_ID dk) = keyIDLen -> String.length nonce = nonceLen ->
  let c := sealed dk dek nonce p aad in
  str_take keyIDLen (str_drop 1 c) = dk_ID dk /\ str_take nonceLen (str_drop (1 + keyIDLen) c) = nonce /\
  str_drop headerLen c = gcm_seal dek nonce p (aad_bytes aad).
Proof.
  intros H1 H2. unfold sealed, headerLen. rewrite !str_drop_add. change (str_drop 1 (String formatVersion ?s)) with s.
  rewrite <-H1, str_take_app, str_drop_app. rewrite <-H2, str_take_app, str_drop_app. done.
Qed.

Lemma Open_sealed s dk dek nonce p aad :
  String.length (dk_ID dk) = keyIDLen -> String.length nonce = nonceLen -> aes_key dek = true ->
  Get (s_store s) (dk_ID dk) = Some dk -> (unwrap s dk).1 = Ok dek ->
  (Open_value s (sealed dk dek nonce p aad) aad).1 = Ok p.
Proof.
  intros H1 H2 Ha Hg Hu. unfold Open_value. rewrite length_sealed by done.
  destruct (Nat.ltb_spec (headerLen + (String.length p + tagLen)) (headerLen + 16)); [unfold tagLen in *; lia|].
  cbn [orb negb starts_with_version sealed]. rewrite Ascii.eqb_refl. cbn [negb].
  destruct (sealed_parts dk dek nonce p aad H1 H2) as (-> & -> & ->). rewrite Hg.
  destruct (unwrap s dk) as [[dek'|e] s']; cbn in Hu; [|done]. injection Hu as ->. rewrite Ha. cbn. by rewrite gcm_open_seal.
Qed.

(** Every key in the cache is what its master key unwraps. *)
Record coherent (s : sealer K) : Prop := {
  coh_ids : NoDup (map dk_ID (s_store s));
  coh_len : Forall (fun k => String.length (dk_ID k) = keyIDLen) (s_store s);
  coh_deks : forall id dek, s_deks s !! id = Some dek ->
    String.length dek = dekLen /\
    exists dk kek, Get (s_store s) id = Some dk /\ kekFor s dk = Ok kek /\ Unwrap kek (dk_Wrapped dk) = Ok dek;
}.

Lemma Get_some keys id dk : Get keys id = Some dk -> dk ∈ keys /\ dk_ID dk = id.
Proof. intros [Hin E]%find_some. split; [by apply list_elem_of_In|by apply String.eqb_eq]. Qed.

Lemma Get_elem keys dk : NoDup (map dk_ID keys) -> dk ∈ keys -> Get keys (dk_ID dk) = Some dk.
Proof.
  induction keys as [|k keys IH]; intros Hn Hin; [by apply not_elem_of_nil in Hin|]. cbn in Hn. inversion Hn as [|? ? Hk Hn']; subst.
  cbn. destruct (String.eqb_spec (dk_ID k) (dk_ID dk)) as [E|E].
  - apply elem_of_cons in Hin as [->|Hin]; [done|]. exfalso. apply Hk. rewrite E. by apply list_elem_of_fmap_2.
  - apply elem_of_cons in Hin as [->|Hin]; [done|]. by apply IH.
Qed.

Lemma Active_some keys scope dk : Active keys scope = Some dk -> dk ∈ keys /\ is_active scope dk = true.
Proof. intros [Hin E]%find_some. split; [by apply list_elem_of_In|done]. Qed.

Lemma unwrap_ok s dk dek s' :
  coherent s -> Get (s_store s) (dk_ID dk) = Some dk -> unwrap s dk = (Ok dek, s') ->
  coherent s' /\ s_kek s' = s_kek s /\ s_older s' = s_older s /\ s_store s' = s_store s /\
  s_deks s' !! dk_ID dk = Some dek /\ String.length dek = dekLen /\
  exists kek, kekFor s dk = Ok kek /\ Unwrap kek (dk_Wrapped dk) = Ok dek.
Proof.
  intros Hc Hg. unfold unwrap. destruct (s_deks s !! dk_ID dk) as [d|] eqn:Hd.
  - intros [= <- <-]. destruct (coh_deks s Hc _ _ Hd) as (Hl & dk' & kek & Hg' & Hk & Hu).
    replace dk' with dk in * by congruence. split_and!; try done. by exists kek.
  - destruct (kekFor s dk) as [kek|] eqn:Hk; [|done]. destruct (Unwrap kek _) as [d|] eqn:Hu; [|done].
    destruct (Nat.eqb_spec (String.length d) dekLen); [|done]. cbn. intros [= <- <-].
    split_and!; try done; [|by cbn; rewrite lookup_insert_eq|by exists kek].
    constructor; [apply Hc|apply Hc|]. cbn. intros id dek' [[<- <-]|[_ Hd']]%lookup_insert_Some.
    + split; [done|]. by exists dk, kek.
    + by apply (coh_deks s Hc).
Qed.

(** The randomness has the sizes [Seal] draws, and the identifier is new. *)
Record random_ok (s : sealer K) (r : randomness) : Prop := {
  ro_dek : String.length (rnd_dek r) = dekLen;
  ro_wrap : String.length (rnd_wrap r) = nonceLen;
  ro_id : String.length (rnd_id r) = keyIDLen;
  ro_nonce : String.length (rnd_nonce r) = nonceLen;
  ro_fresh : rnd_id r ∉ map dk_ID (s_store s);
}.

Lemma Get_app keys k id : id <> dk_ID k -> Get (keys ++ [k]) id = Get keys id.
Proof.
  intros Hne. unfold Get. induction keys as [|x keys IH]; cbn.
  - by rewrite (proj2 (String.eqb_neq (dk_ID k) id)) by (by apply not_eq_sym).
  - by destruct (String.eqb (dk_ID x) id).
Qed.

Lemma Get_snoc keys k : dk_ID k ∉ map dk_ID keys -> Get (keys ++ [k]) (dk_ID k) = Some k.
Proof.
  intros Hni. unfold Get. induction keys as [|x keys IH]; cbn; [by rewrite String.eqb_refl|].
  cbn in Hni. apply not_elem_of_cons in Hni as [Hne Hni]. rewrite (proj2 (String.eqb_neq _ _)) by (by apply not_eq_sym). by apply IH.
Qed.

Lemma Put_fresh keys k : List.find (is_active (dk_Scope k)) keys = None -> dk_ID k ∉ map dk_ID keys -> Put keys k = keys ++ [k].
Proof.
  intros Hf Hni. unfold Put.
  assert (existsb (is_active (dk_Scope k)) keys = false) as ->.
  { apply existsb_false_elem. intros x Hx. apply (find_none _ _ Hf). by apply list_elem_of_In. }
  f_equal. clear Hf. induction keys as [|x keys IH]; [done|]. cbn in *. apply not_elem_of_cons in Hni as [Hne Hni].
  rewrite (proj2 (String.eqb_neq _ _)) by (by apply not_eq_sym). cbn. by rewrite IH.
Qed.

(** The store and the keys that open it, as [Seal] leaves them. *)
Lemma activeKey_ok s scope r dk s' :
  coherent s -> random_ok s r -> activeKey s scope r = (Ok dk, s') ->
  coherent s' /\ s_kek s' = s_kek s /\ s_older s' = s_older s /\ Get (s_store s') (dk_ID dk) = Some dk /\
  is_active scope dk = true /\
  (s_store s' = s_store s \/ (s_store s' = s_store s ++ [dk] /\ dk_KEKRef dk = Ref (s_kek s) /\ Active (s_store s) scope = None)).
Proof.
  intros Hc Hr. unfold activeKey. destruct (Active (s_store s) scope) as [k|] eqn:Ha.
  { intros [= <- <-]. apply Active_some in Ha as [Hin Hact]. split_and!; try done; [|by left].
    apply Get_elem; [apply Hc|done]. }
  destruct (Wrap _ _ _) as [w|] eqn:Hw; [|done].
  set (nk := mkDataKey (rnd_id r) scope (Ref (s_kek s)) w "active").
  rewrite (Put_fresh (s_store s) nk) by (first [exact Ha|apply Hr]).
  assert (Hact : is_active scope nk = true) by (unfold is_active; cbn; by rewrite String.eqb_refl).
  assert (Active (s_store s ++ [nk]) scope = Some nk) as Hak.
  { revert Ha. clear -Hact. unfold Active. induction (s_store s) as [|x l IH]; cbn; [by rewrite Hact|]. by destruct (is_active scope x). }
  cbn [s_store]. rewrite Hak, String.eqb_refl. intros [= <- <-].
  assert (Hg : Get (s_store s ++ [nk]) (dk_ID nk) = Some nk) by (apply Get_snoc, Hr).
  split_and!; try done; [|right; by split_and!].
  constructor; cbn.
  - rewrite map_app. apply NoDup_app. split_and!; [apply Hc| |apply NoDup_singleton].
    intros x Hx ->%list_elem_of_singleton. by apply (ro_fresh s r Hr).
  - apply Forall_app. split; [apply Hc|]. constructor; [apply Hr|done].
  - intros id dek [[<- <-]|[Hne Hd]]%lookup_insert_Some.
    + split; [apply Hr|]. exists nk, (s_kek s). split_and!; [exact Hg| |by eapply Unwrap_Wrap; [apply Hr|]].
      unfold kekFor. cbn. by rewrite String.eqb_refl.
    + destruct (coh_deks s Hc _ _ Hd) as (Hl & dk & kek & Hg' & Hk & Hu). split; [done|]. exists dk, kek.
      split_and!; [|exact Hk|done]. change (Get (s_store s ++ [nk]) id = Some dk). by rewrite Get_app by (by apply not_eq_sym).
Qed.

(** What a value was sealed with. *)
Lemma Seal_sealed s scope p aad r c s' :
  coherent s -> random_ok s r -> Seal_value s scope p aad r = (Ok c, s') ->
  exists dk dek kek, c = sealed dk dek (rnd_nonce r) p aad /\ coherent s' /\ s_kek s' = s_kek s /\ s_older s' = s_older s /\
    String.length (dk_ID dk) = keyIDLen /\ aes_key dek = true /\ String.length dek = dekLen /\
    Get (s_store s') (dk_ID dk) = Some dk /\ s_deks s' !! dk_ID dk = Some dek /\
    kekFor s' dk = Ok kek /\ Unwrap kek (dk_Wrapped dk) = Ok dek /\
    (s_store s' = s_store s \/ (s_store s' = s_store s ++ [dk] /\ dk_KEKRef dk = Ref (s_kek s) /\ Active (s_store s) scope = None)).
Proof.
  intros Hc Hr. unfold Seal_value. destruct (activeKey s scope r) as [[dk|e] s1] eqn:Ha; [|done].
  destruct (activeKey_ok _ _ _ _ _ Hc Hr Ha) as (Hc1 & Hk1 & Ho1 & Hg1 & _ & Hst).
  destruct (unwrap s1 dk) as [[dek|e] s2] eqn:Hu; [|done].
  destruct (unwrap_ok _ _ _ _ Hc1 Hg1 Hu) as (Hc2 & Hk2 & Ho2 & Hs2 & Hd & Hl & kek & Hkek & Huw).
  destruct (aes_key dek) eqn:Hae; [|done]. cbn. intros [= <- <-]. exists dk, dek, kek.
  rewrite Hs2, Hk2, Ho2. split_and!; try done.
  - pose proof (coh_len s1 Hc1) as Hlen. rewrite Forall_forall in Hlen. apply Hlen. by apply Get_some in Hg1 as [? _].
  - unfold kekFor in *. by rewrite Hk2, Ho2.
Qed.

(** What is sealed opens.  A value sealed under a scope opens to what
    was sealed for the same row, at once and after the unwrapped keys are
    forgotten; it names a key of the store; and sealing adds to the store at
    most the scope's first data key, wrapped by the master key in use, never
    by an older one. *)
Theorem sealed_value_opens s scope p aad r c s' :
  coherent s -> random_ok s r -> Seal_value s scope p aad r = (Ok c, s') ->
  (Open_value s' c aad).1 = Ok p /\ (Open_value (Forget s') c aad).1 = Ok p /\ coherent s' /\
  (exists id dk, KeyID c = Ok id /\ Get (s_store s') id = Some dk) /\
  (s_store s' = s_store s \/
   exists nk, s_store s' = s_store s ++ [nk] /\ dk_KEKRef nk = Ref (s_kek s) /\ Active (s_store s) scope = None).
Proof.
  intros Hc Hr Hs. destruct (Seal_sealed _ _ _ _ _ _ _ Hc Hr Hs) as
    (dk & dek & kek & -> & Hc' & _ & _ & Hid & Hae & Hl & Hg & Hd & Hk & Hu & Hst).
  pose proof (ro_nonce s r Hr) as Hn. split_and!; [| |done| |].
  - apply Open_sealed; try done. unfold unwrap. by rewrite Hd.
  - apply Open_sealed; try done. unfold unwrap. cbn [s_deks Forget]. rewrite lookup_empty.
    change (kekFor (Forget s') dk) with (kekFor s' dk). rewrite Hk, Hu, Hl. done.
  - exists (dk_ID dk), dk. split; [|done]. unfold KeyID. rewrite length_sealed by done.
    destruct (Nat.ltb_spec (headerLen + (String.length p + tagLen)) headerLen); [lia|].
    cbn [orb negb starts_with_version sealed]. rewrite Ascii.eqb_refl. cbn [negb].
    by destruct (sealed_parts dk dek (rnd_nonce r) p aad Hid Hn) as (-> & _).
  - destruct Hst as [?|(? & ? & ?)]; [by left|right; by exists dk].
Qed.

(** A new master key does not close what the old one sealed: a process
    that seals under another key and holds the old one for opening opens
    every value whose data key the old one is recorded for. *)
Theorem old_master_key_still_opens s scope p aad r c s' kek2 older2 :
  coherent s -> random_ok s r -> Seal_value s scope p aad r = (Ok c, s') -> Ref kek2 <> Ref (s_kek s) ->
  (forall id dk, KeyID c = Ok id -> Get (s_store s') id = Some dk -> dk_KEKRef dk = Ref (s_kek s)) ->
  (Open_value (New_sealer kek2 (s_store s') (s_kek s :: older2)) c aad).1 = Ok p.
Proof.
  intros Hc Hr Hs Hne Href. destruct (Seal_sealed _ _ _ _ _ _ _ Hc Hr Hs) as
    (dk & dek & kek & -> & Hc' & Hk' & _ & Hid & Hae & Hl & Hg & Hd & Hk & Hu & Hst).
  pose proof (ro_nonce s r Hr) as Hn.
  assert (Hdk : dk_KEKRef dk = Ref (s_kek s)).
  { apply (Href (dk_ID dk)); [|done]. unfold KeyID. rewrite length_sealed by done.
    destruct (Nat.ltb_spec (headerLen + (String.length p + tagLen)) headerLen); [lia|].
    cbn [orb negb starts_with_version sealed]. rewrite Ascii.eqb_refl. cbn [negb].
    by destruct (sealed_parts dk dek (rnd_nonce r) p aad Hid Hn) as (-> & _). }
  apply Open_sealed; try done. unfold unwrap. cbn [s_deks New_sealer]. rewrite lookup_empty.
  assert (kek = s_kek s) as ->. { unfold kekFor in Hk. rewrite Hk', Hdk, String.eqb_refl in Hk. by injection Hk as <-. }
  assert (kekFor (New_sealer kek2 (s_store s') (s_kek s :: older2)) dk = Ok (s_kek s)) as ->.
  { unfold kekFor. cbn. rewrite Hdk, (proj2 (String.eqb_neq _ _)) by (by apply not_eq_sym). by rewrite String.eqb_refl. }
  rewrite Hu, Hl. done.
Qed.

Lemma first_opener_some ks ref k : first_opener ks ref = Some k -> exists k0, k0 ∈ ks /\ openerFor k0 ref = Some k.
Proof.
  induction ks as [|k0 ks IH]; [done|]. cbn. destruct (openerFor k0 ref) eqn:E.
  - intros [= <-]. exists k0. split; [by left|done].
  - intros (k1 & Hk & ?)%IH. exists k1. split; [by right|done].
Qed.

Lemma first_opener_none ks ref : first_opener ks ref = None -> forall k0, k0 ∈ ks -> openerFor k0 ref = None.
Proof.
  induction ks as [|k1 ks IH]; [by intros _ ? ?%not_elem_of_nil|]. cbn. destruct (openerFor k1 ref) eqn:E; [done|].
  intros Hn k0 [->|Hk]%elem_of_cons; [done|by apply IH].
Qed.

(** A data key is opened by the master key its record names.  A held
    key with exactly that reference is always chosen over one that only
    stands in for it; a stand-in is a key some held key offers for the
    reference; and when no held key has or answers for the reference nothing
    is tried at all. *)
Theorem kekFor_by_reference s dk :
  let held := s_kek s :: s_older s in
  match kekFor s dk with
  | Ok k => (k ∈ held /\ Ref k = dk_KEKRef dk) \/
            ((forall k0, k0 ∈ held -> Ref k0 <> dk_KEKRef dk) /\ exists k0, k0 ∈ held /\ forRef k0 (dk_KEKRef dk) = Some k)
  | Err e => e = ErrNotHeld (dk_KEKRef dk) /\ forall k0, k0 ∈ held -> Ref k0 <> dk_KEKRef dk /\ forRef k0 (dk_KEKRef dk) = None
  end.
Proof.
  cbn zeta. unfold kekFor. destruct (String.eqb_spec (dk_KEKRef dk) (Ref (s_kek s))) as [E|E]; [left; split; [by left|done]|].
  destruct (List.find _ (s_older s)) as [k|] eqn:Hf.
  { apply find_some in Hf as [Hin Hr]. left. split; [right; by apply list_elem_of_In|by apply String.eqb_eq]. }
  assert (Hno : forall k0, k0 ∈ s_kek s :: s_older s -> Ref k0 <> dk_KEKRef dk).
  { intros k0 [->|Hk]%elem_of_cons; [by apply not_eq_sym|]. apply list_elem_of_In in Hk.
    apply (find_none _ _ Hf) in Hk. by apply String.eqb_neq. }
  assert (Hop : forall k0, k0 ∈ s_kek s :: s_older s -> openerFor k0 (dk_KEKRef dk) = forRef k0 (dk_KEKRef dk)).
  { intros k0 Hk. unfold openerFor. by rewrite (proj2 (String.eqb_neq _ _) (Hno k0 Hk)). }
  destruct (openerFor (s_kek s) (dk_KEKRef dk)) as [k|] eqn:H1.
  { right. split; [done|]. exists (s_kek s). rewrite <-Hop by left. split; [by left|done]. }
  destruct (first_opener (s_older s) (dk_KEKRef dk)) as [k|] eqn:H2.
  { right. split; [done|]. apply first_opener_some in H2 as (k0 & Hk0 & Hk). exists k0. split; [by right|]. by rewrite <-Hop by (by right). }
  split; [done|]. intros k0 Hk0. split; [by apply Hno|]. rewrite <-Hop by done.
  apply elem_of_cons in Hk0 as [->|Hk0]; [done|]. by eapply first_opener_none.
Qed.

(** ** The interface, discharged

    A sealer whose organisations have their data keys: one that has not is
    refused here, where the code would mint its first. *)
Section instance.
Context (s : sealer K) (Hc : coherent s).

Definition known_key (scope : string) : bool := match Active (s_store s) scope with Some _ => true | None => false end.

Definition seal_with (nonce scope p : string) (aad : AAD) : result string string :=
  if negb (String.length nonce =? nonceLen) || negb (known_key scope) then Err "sealer"
  else match (Seal_value s scope p aad (mkRandom "" "" "" nonce)).1 with Ok c => Ok c | Err _ => Err "sealer" end.

Definition unseal_with (org c : string) (aad : AAD) : result string string :=
  match (Open_value s c aad).1 with Ok p => Ok p | Err _ => Err "sealer" end.

Lemma seal_with_sealed nonce scope p aad c : seal_with nonce scope p aad = Ok c ->
  exists dk dek, c = sealed dk dek nonce p aad /\ String.length nonce = nonceLen /\ String.length (dk_ID dk) = keyIDLen /\
    aes_key dek = true /\ Get (s_store s) (dk_ID dk) = Some dk /\ (unwrap s dk).1 = Ok dek.
Proof.
  unfold seal_with, known_key, Seal_value, activeKey.
  destruct (Nat.eqb_spec (String.length nonce) nonceLen) as [Hn|]; [|done]. cbn [negb orb].
  destruct (Active (s_store s) scope) as [dk|] eqn:Ha; [|done]. cbn [negb].
  destruct (unwrap s dk) as [[dek|e] s'] eqn:Hu; [|done]. destruct (aes_key dek) eqn:Hae; [|done]. cbn. intros [= <-].
  apply Active_some in Ha as [Hin _]. exists dk, dek. rewrite Hu. split_and!; try done.
  - pose proof (coh_len s Hc) as Hl. rewrite Forall_forall in Hl. by apply Hl.
  - apply Get_elem; [apply Hc|done].
Qed.

Lemma seal_with_nonempty nonce scope p aad c : seal_with nonce scope p aad = Ok c -> String.length c <> 0.
Proof. intros (dk & dek & -> & _)%seal_with_sealed. done. Qed.

Lemma unseal_seal_with nonce scope org p aad c : seal_with nonce scope p aad = Ok c -> unseal_with org c aad = Ok p.
Proof.
  intros (dk & dek & -> & Hn & Hid & Hae & Hg & Hu)%seal_with_sealed. unfold unseal_with.
  by rewrite (Open_sealed s dk dek nonce p aad).
Qed.

Definition sealer_at : Sealer := {|
  Seal nonce org := seal_with nonce (ScopeOrg org); Unseal := unseal_with;
  Seal_nonempty nonce org := seal_with_nonempty nonce (ScopeOrg org); Unseal_Seal nonce org := unseal_seal_with nonce (ScopeOrg org) org |}.
End instance.
End opens.

(** ** On concrete keys *)

(** A cipher that hides nothing and keeps its lengths. *)
Definition plain_tag : string := "0123456789abcdef".

Definition plain_seal (key nonce p aad : string) : string := p +:+ plain_tag.

Definition plain_open (key nonce c aad : string) : option string := Some (str_take (String.length c - tagLen) c).

Lemma plain_open_seal key nonce p aad : plain_open key nonce (plain_seal key nonce p aad) aad = Some p.
Proof.
  unfold plain_open, plain_seal. rewrite length_app_str. replace (String.length p + String.length plain_tag - tagLen) with (String.length p).
  - by rewrite str_take_app.
  - change (String.length plain_tag) with tagLen. lia.
Qed.

Lemma plain_length key nonce p aad : String.length (plain_seal key nonce p aad) = String.length p + tagLen.
Proof. unfold plain_seal. by rewrite length_app_str. Qed.

#[local] Instance plain_gcm : GCM := {|
  gcm_seal := plain_seal; gcm_open := plain_open; gcm_open_seal := plain_open_seal; gcm_length := plain_length |}.

Definition env_key : Local := mkLocal "0123456789abcdef0123456789abcdef" "env:ENCRYPTION_KEK".
Definition file_key : Local := mkLocal "fedcba9876543210fedcba9876543210" "file:/run/kek".

Definition empty_sealer : sealer Local := New_sealer env_key [] [].

Lemma empty_coherent : coherent empty_sealer.
Proof. constructor; [constructor|constructor|]. intros id dek Hd. cbn in Hd. by rewrite lookup_empty in Hd. Qed.

Definition draw : randomness := mkRandom "abcdefghabcdefghabcdefghabcdefgh" "nonce-wrap-1" "data-key-id-0001" "nonce-seal-1".

Lemma draw_ok : random_ok empty_sealer draw.
Proof. constructor; try reflexivity. apply not_elem_of_nil. Qed.

Definition secret_row : AAD := mkAAD "connectors" "credentials_enc" "c1" "o1".

Definition sealed_once := Seal_value empty_sealer (ScopeOrg "o1") "hunter2" secret_row draw.

Lemma sealed_value_opens_witness :
  exists c, sealed_once.1 = Ok c /\ (Open_value (Forget sealed_once.2) c secret_row).1 = Ok "hunter2".
Proof.
  eexists. split; [vm_compute; reflexivity|].
  exact (proj1 (proj2 (sealed_value_opens empty_sealer (ScopeOrg "o1") "hunter2" secret_row draw _ sealed_once.2
    empty_coherent draw_ok ltac:(vm_compute; reflexivity)))).
Defined.

Lemma old_master_key_still_opens_witness :
  exists c, sealed_once.1 = Ok c /\
    (Open_value (New_sealer file_key (s_store sealed_once.2) [env_key]) c secret_row).1 = Ok "hunter2".
Proof.
  eexists. split; [vm_compute; reflexivity|].
  apply (old_master_key_still_opens empty_sealer (ScopeOrg "o1") "hunter2" secret_row draw _ sealed_once.2 file_key []
    empty_coherent draw_ok).
  - vm_compute. reflexivity.
  - discriminate.
  - intros id dk Hid Hg. vm_compute in Hid. injection Hid as <-. vm_compute in Hg. injection Hg as <-. reflexivity.
Defined.

(** The interface holds of a running sealer. *)
Lemma second_coherent : coherent sealed_once.2.
Proof.
  assert (Hs : exists c, sealed_once = (Ok c, sealed_once.2)) by (eexists; vm_compute; reflexivity).
  destruct Hs as [c Hs]. by apply (Seal_sealed _ _ _ _ _ _ _ empty_coherent draw_ok) in Hs as (dk & dek & kek & _ & Hc & _).
Qed.

Example interface_used :
  let S := sealer_at sealed_once.2 second_coherent in
  exists c, @Seal S "nonce-seal-2" "o1" "again" secret_row = Ok c /\ @Unseal S "o1" c secret_row = Ok "again".
Proof. eexists. split; [vm_compute; reflexivity|]. vm_compute. reflexivity. Qed.
