(* ===== verification/ApprovalRules.v ===== *)
(** * ApprovalRules: which calls need a person

    The rules of [internal/governance/approvals.go]: an argument condition,
    what a rule matches, which of several rules governs a call, and what
    makes a rule storable.  What encodes JSON and parses a number is an
    argument.  The requests the rules raise are in [Approvals.v]. *)
From S2P Require Import Prelude GoStrings Float64 Values.

Open Scope list_scope.

Definition ScopeOrganization : string := "organization".
Definition ScopeServer : string := "server".
Definition ScopeConnector : string := "connector".
Definition ScopeTool : string := "tool".

Definition TriggerDestructive : string := "destructive".
Definition TriggerTool : string := "tool".
Definition TriggerCondition : string := "condition".

Definition EffectRequire : string := "require".
Definition EffectAllow : string := "allow".

Definition OpEquals : string := "eq".
Definition OpNotEquals : string := "ne".
Definition OpGreaterThan : string := "gt".
Definition OpGreaterOrEqual : string := "gte".
Definition OpLessThan : string := "lt".
Definition OpLessOrEqual : string := "lte".
Definition OpContains : string := "contains".
Definition OpPrefix : string := "prefix".
Definition OpIn : string := "in".
Definition OpExists : string := "exists".
Definition OpAbsent : string := "absent".

(** [defaultTTL], in seconds as a rule stores it. *)
Definition defaultTTL : Z := 3600.

Record ApprovalCondition : Type := mkCondition { cn_Arg : string; cn_Op : string; cn_Value : value }.

Record ApprovalPolicy : Type := mkRule {
  ap_ID : string;
  ap_OrgID : string;
  ap_Name : string;
  ap_Scope : string;
  ap_ScopeID : string;
  ap_Trigger : string;
  ap_ToolName : string;
  ap_Conditions : list ApprovalCondition;
  ap_Effect : string;
  ap_TTL : Z;
  ap_Enabled : bool;
  ap_CreatedBy : string;
  ap_CreatedAt : Z;
  ap_UpdatedAt : Z;
}.

Record CallRef : Type := mkCall {
  cl_OrgID : string;
  cl_ServerID : string;
  cl_ConnectorID : string;
  cl_ToolID : string;
  cl_ToolName : string;
  cl_Destructive : bool;
  cl_ActorKind : string;
  cl_ActorID : string;
  cl_ActorDisplay : string;
  cl_Args : list (string * value);
}.

(** ** Conditions *)

Definition lookup_step (cur : option value) (part : string) : option value :=
  match cur with Some (VMap m) => obj_get m part | _ => None end.

Definition lookup_arg (args : list (string * value)) (path : string) : option value :=
  foldl lookup_step (Some (VMap args)) (Split path ".").

Definition orders (sign : Z) (op : string) : bool :=
  if String.eqb op OpGreaterThan then (0 <? sign)%Z
  else if String.eqb op OpGreaterOrEqual then (0 <=? sign)%Z
  else if String.eqb op OpLessThan then (sign <? 0)%Z
  else if String.eqb op OpLessOrEqual then (sign <=? 0)%Z
  else false.

(** [strings.Compare]. *)
Definition Compare (a b : string) : Z :=
  match String.compare a b with Lt => -1 | Eq => 0 | Gt => 1 end%Z.

Definition validOp (op : string) : bool :=
  existsb (String.eqb op) [OpEquals; OpNotEquals; OpGreaterThan; OpGreaterOrEqual; OpLessThan; OpLessOrEqual;
    OpContains; OpPrefix; OpIn; OpExists; OpAbsent].

Section conditions.
(** [json.Marshal], and [strconv.ParseFloat] as [json.Number.Float64] calls it. *)
Context (marshal : value -> result string string) (parse_float : string -> option float64).

Definition toFloat (v : value) : option float64 :=
  match v with
  | VFloat x => Some x
  | VInt n => Some (f_of_Z n)
  | VNumber s => parse_float s
  | _ => None
  end.

Definition sameValue (a b : value) : bool :=
  match toFloat a with
  | Some x => match toFloat b with Some y => SpecFloat.SFeqb x y | None => false end
  | None => match marshal a, marshal b with Ok ea, Ok eb => String.eqb ea eb | _, _ => false end
  end.

Definition compare (a b : value) (op : string) : bool :=
  match toFloat a, toFloat b with
  | Some x, Some y => if f_lt x y then orders (-1) op else if f_lt y x then orders 1 op else orders 0 op
  | _, _ => match a, b with VStr sa, VStr sb => orders (Compare sa sb) op | _, _ => false end
  end.

Definition contains (v want : value) : bool :=
  match v with
  | VStr x => match want with VStr s => Contains x s | _ => false end
  | VList l => existsb (fun item => sameValue item want) l
  | _ => false
  end.

(** [ApprovalCondition.matches]. *)
Definition condition_matches (c : ApprovalCondition) (args : list (string * value)) : bool :=
  let op := cn_Op c in
  match lookup_arg args (cn_Arg c) with
  | None => String.eqb op OpAbsent
  | Some v =>
      if String.eqb op OpExists then true
      else if String.eqb op OpAbsent then false
      else if String.eqb op OpEquals then sameValue v (cn_Value c)
      else if String.eqb op OpNotEquals then negb (sameValue v (cn_Value c))
      else if existsb (String.eqb op) [OpGreaterThan; OpGreaterOrEqual; OpLessThan; OpLessOrEqual]
      then compare v (cn_Value c) op
      else if String.eqb op OpContains then contains v (cn_Value c)
      else if String.eqb op OpPrefix
      then match v, cn_Value c with VStr s, VStr want => HasPrefix s want | _, _ => false end
      else if String.eqb op OpIn
      then match cn_Value c with VList l => existsb (sameValue v) l | _ => false end
      else false
  end.

(** ** Rules *)

Definition scopeMatches (p : ApprovalPolicy) (c : CallRef) : bool :=
  let named id := negb (String.eqb (ap_ScopeID p) "") && String.eqb (ap_ScopeID p) id in
  if String.eqb (ap_Scope p) ScopeOrganization || String.eqb (ap_Scope p) "" then true
  else if String.eqb (ap_Scope p) ScopeServer then named (cl_ServerID c)
  else if String.eqb (ap_Scope p) ScopeConnector then named (cl_ConnectorID c)
  else if String.eqb (ap_Scope p) ScopeTool then named (cl_ToolID c)
  else false.

(** [ApprovalPolicy.Matches]. *)
Definition rule_matches (p : ApprovalPolicy) (c : CallRef) : bool :=
  if negb (scopeMatches p c) then false
  else if String.eqb (ap_Trigger p) TriggerDestructive then cl_Destructive c
  else if String.eqb (ap_Trigger p) TriggerTool
  then negb (String.eqb (ap_ToolName p) "") && String.eqb (ap_ToolName p) (cl_ToolName c)
  else if String.eqb (ap_Trigger p) TriggerCondition
  then match ap_Conditions p with
       | [] => false
       | conds => forallb (fun cond => condition_matches cond (cl_Args c)) conds
       end
  else false.

Definition rank (p : ApprovalPolicy) : nat :=
  if String.eqb (ap_Scope p) ScopeTool then 3
  else if String.eqb (ap_Scope p) ScopeConnector then 2
  else if String.eqb (ap_Scope p) ScopeServer then 1
  else 0.

(** The switch of [Governing]'s loop: does [p] take over from the best so far? *)
Definition takes_over (p : ApprovalPolicy) (best : option ApprovalPolicy) : bool :=
  match best with
  | None => true
  | Some b => (rank b <? rank p)
              || ((rank p =? rank b) && String.eqb (ap_Effect p) EffectRequire && String.eqb (ap_Effect b) EffectAllow)
  end.

Fixpoint govern_loop (c : CallRef) (list : list ApprovalPolicy) (best : option ApprovalPolicy) : option ApprovalPolicy :=
  match list with
  | [] => best
  | p :: list =>
      if negb (rule_matches p c) then govern_loop c list best
      else govern_loop c list (if takes_over p best then Some p else best)
  end.
End conditions.

(** The WHERE clause of [Governing]. *)
Definition where_governing (c : CallRef) (p : ApprovalPolicy) : bool :=
  ap_Enabled p &&
  (String.eqb (ap_Scope p) ScopeOrganization
   || String.eqb (ap_Scope p) ScopeServer && String.eqb (ap_ScopeID p) (cl_ServerID c)
   || String.eqb (ap_Scope p) ScopeConnector && String.eqb (ap_ScopeID p) (cl_ConnectorID c)
   || String.eqb (ap_Scope p) ScopeTool && String.eqb (ap_ScopeID p) (cl_ToolID c)).

(** ORDER BY created_at, id. *)
Definition rule_le (a b : ApprovalPolicy) : Prop :=
  (ap_CreatedAt a < ap_CreatedAt b)%Z \/ (ap_CreatedAt a = ap_CreatedAt b /\ String.le (ap_ID a) (ap_ID b)).

#[export] Instance rule_le_dec a b : Decision (rule_le a b).
Proof. unfold rule_le. solve_decision. Defined.

(** The statement of [Governing] over an organisation's rules. *)
Definition governing_rules (rules : list ApprovalPolicy) (c : CallRef) : list ApprovalPolicy :=
  merge_sort rule_le (List.filter (where_governing c) rules).

(** The statement of [Reaches]. *)
Definition Reaches (rules : list ApprovalPolicy) (serverID : string) (connectorIDs toolIDs : list string) : bool :=
  existsb (fun p =>
    ap_Enabled p && String.eqb (ap_Effect p) EffectRequire &&
    (String.eqb (ap_Scope p) ScopeOrganization
     || String.eqb (ap_Scope p) ScopeServer && String.eqb (ap_ScopeID p) serverID
     || String.eqb (ap_Scope p) ScopeConnector && existsb (String.eqb (ap_ScopeID p)) connectorIDs
     || String.eqb (ap_Scope p) ScopeTool && existsb (String.eqb (ap_ScopeID p)) toolIDs)) rules.

(** ** What is storable *)

Inductive invalid_policy : Type :=
  | NeedsName
  | NeedsScopeID (scope : string)
  | UnknownScope (scope : string)
  | NeedsToolName
  | NeedsConditions
  | ConditionNeedsArg (i : nat)
  | UnknownOp (op : string)
  | UnknownTrigger (trigger : string)
  | UnknownEffect (effect : string)
  | BadTTL.

Fixpoint check_conditions (i : nat) (conds : list ApprovalCondition) : result invalid_policy unit :=
  match conds with
  | [] => Ok tt
  | c :: conds =>
      if String.eqb (TrimSpace (cn_Arg c)) "" then Err (ConditionNeedsArg (i + 1))
      else if negb (validOp (cn_Op c)) then Err (UnknownOp (cn_Op c))
      else check_conditions (S i) conds
  end.

(** The switch on the scope: the scope's id, kept or cleared. *)
Definition normal_scope (scope scopeID : string) : result invalid_policy string :=
  if String.eqb scope ScopeOrganization then Ok ""
  else if String.eqb scope ScopeServer || String.eqb scope ScopeConnector || String.eqb scope ScopeTool
  then if String.eqb scopeID "" then Err (NeedsScopeID scope) else Ok scopeID
  else Err (UnknownScope scope).

(** The switch on the trigger: the tool name and the conditions it keeps. *)
Definition normal_trigger (trigger toolName : string) (conds : list ApprovalCondition) :
    result invalid_policy (string * list ApprovalCondition) :=
  if String.eqb trigger TriggerDestructive then Ok ("", [])
  else if String.eqb trigger TriggerTool
  then if String.eqb toolName "" then Err NeedsToolName else Ok (toolName, [])
  else if String.eqb trigger TriggerCondition
  then match conds with
       | [] => Err NeedsConditions
       | _ => _ ← check_conditions 0 conds; Ok (toolName, conds)
       end
  else Err (UnknownTrigger trigger).

(** [normalise]: the rule with its defaults, or what is wrong with it. *)
Definition normalise (p : ApprovalPolicy) : result invalid_policy ApprovalPolicy :=
  let name := TrimSpace (ap_Name p) in
  if String.eqb name "" then Err NeedsName
  else
    let scope := if String.eqb (ap_Scope p) "" then ScopeOrganization else ap_Scope p in
    let effect := if String.eqb (ap_Effect p) "" then EffectRequire else ap_Effect p in
    let ttl := if (ap_TTL p =? 0)%Z then defaultTTL else ap_TTL p in
    scopeID ← normal_scope scope (TrimSpace (ap_ScopeID p));
    kept ← normal_trigger (ap_Trigger p) (TrimSpace (ap_ToolName p)) (ap_Conditions p);
    if negb (String.eqb effect EffectRequire) && negb (String.eqb effect EffectAllow) then Err (UnknownEffect effect)
    else if ((ttl <? 60) || (604800 <? ttl))%Z then Err BadTTL
    else Ok (mkRule (ap_ID p) (ap_OrgID p) name scope scopeID (ap_Trigger p) kept.1 kept.2 effect ttl
               (ap_Enabled p) (ap_CreatedBy p) (ap_CreatedAt p) (ap_UpdatedAt p)).

(** The CHECK constraints of the table (00012_approvals.sql). *)
Definition rule_checks (p : ApprovalPolicy) : Prop :=
  ap_Scope p ∈ [ScopeOrganization; ScopeServer; ScopeConnector; ScopeTool] /\
  ap_Trigger p ∈ [TriggerDestructive; TriggerTool; TriggerCondition] /\
  ap_Effect p ∈ [EffectRequire; EffectAllow] /\
  (60 <= ap_TTL p <= 604800)%Z /\
  (ap_Scope p = ScopeOrganization \/ ap_ScopeID p <> "") /\
  (ap_Trigger p <> TriggerTool \/ ap_ToolName p <> "") /\
  (ap_Trigger p <> TriggerCondition \/ ap_Conditions p <> []).

(** ** Which rule governs *)

(** The width of a rule, and at one width whether it needs a person. *)
Definition weight (p : ApprovalPolicy) : nat := 2 * rank p + (if String.eqb (ap_Effect p) EffectRequire then 1 else 0).

Definition effect_known (p : ApprovalPolicy) : Prop := ap_Effect p = EffectRequire \/ ap_Effect p = EffectAllow.

Section governing.
Context (marshal : value -> result string string) (parse_float : string -> option float64).

Abbreviation rule_matches := (rule_matches marshal parse_float).
Abbreviation govern_loop := (govern_loop marshal parse_float).
Abbreviation condition_matches := (condition_matches marshal parse_float).

(** The rule [Governing] finds among an organisation's. *)
Definition governing (rules : list ApprovalPolicy) (c : CallRef) : option ApprovalPolicy :=
  govern_loop c (governing_rules rules c) None.

Lemma takes_over_weight p b : effect_known p -> effect_known b -> takes_over p (Some b) = true <-> weight b < weight p.
Proof.
  unfold takes_over, weight, effect_known. rewrite orb_true_iff, !andb_true_iff, Nat.ltb_lt, Nat.eqb_eq.
  intros [-> | ->] [-> | ->]; cbn; split; intuition (try lia; try done).
Qed.

Lemma govern_loop_spec c rules best r :
  Forall effect_known rules -> (forall b, best = Some b -> effect_known b) ->
  govern_loop c rules best = r ->
  (forall b, best = Some b -> exists p, r = Some p /\ weight b <= weight p) /\
  (forall q, q ∈ rules -> rule_matches q c = true -> exists p, r = Some p /\ weight q <= weight p) /\
  (forall p, r = Some p -> best = Some p \/ (p ∈ rules /\ rule_matches p c = true)).
Proof.
  intros Hk. revert best; induction Hk as [|q rules Hq Hk IH]; intros best Hb; cbn [ApprovalRules.govern_loop].
  { intros <-. split_and!; [|by intros ? ?%not_elem_of_nil|by left]. intros b ->. by exists b. }
  assert (Hnext : forall b, (if takes_over q best then Some q else best) = Some b -> effect_known b).
  { intros b. destruct (takes_over q best); [by intros [= <-]|apply Hb]. }
  destruct (rule_matches q c) eqn:Hm; cbn [negb]; intros H; apply IH in H as (H1 & H2 & H3); try done.
  2: { split_and!; [done| |].
    - intros x [->|Hx]%elem_of_cons Hxm; [congruence|by apply H2].
    - intros p Hp. destruct (H3 p Hp) as [?|[? ?]]; [by left|]. right. split; [by right|done]. }
  destruct (takes_over q best) eqn:Ht.
  - destruct (H1 q eq_refl) as (p & -> & Hp). split_and!.
    + intros b ->. apply takes_over_weight in Ht; [|done|by apply Hb]. exists p. split; [done|lia].
    + intros x [->|Hx]%elem_of_cons Hxm; [by exists p|by apply H2].
    + intros p' Hp'. right. destruct (H3 p' Hp') as [[= <-]|[? ?]]; (split; [|done]); [by left|by right].
  - destruct best as [b|]; [|done]. destruct (H1 b eq_refl) as (p & -> & Hp). split_and!.
    + intros b' [= <-]. by exists p.
    + intros x [->|Hx]%elem_of_cons Hxm; [|by apply H2]. exists p. split; [done|].
      destruct (decide (weight b < weight q)) as [Hw|Hw]; [|lia].
      apply takes_over_weight in Hw; [congruence|done|by apply Hb].
    + intros p' Hp'. destruct (H3 p' Hp') as [?|[? ?]]; [by left|right; split; [by right|done]].
Qed.

Lemma elem_of_governing_rules rules c p :
  p ∈ governing_rules rules c <-> p ∈ rules /\ where_governing c p = true.
Proof. unfold governing_rules. rewrite merge_sort_Permutation, list_elem_of_In, filter_In, <-list_elem_of_In. done. Qed.

(** The WHERE clause loses no rule that matches. *)
Lemma where_governing_matches p c :
  rule_checks p -> rule_matches p c = true -> where_governing c p = ap_Enabled p.
Proof.
  intros (Hs & _) Hm.
  assert (Hsm : scopeMatches p c = true) by (unfold ApprovalRules.rule_matches in Hm; by destruct (scopeMatches p c)).
  unfold where_governing, scopeMatches in *. rewrite !elem_of_cons, elem_of_nil in Hs.
  destruct_or! Hs; rewrite Hs in *; cbn in Hsm |- *; [by rewrite andb_true_r|..];
    apply andb_true_iff in Hsm as [_ ->]; by rewrite andb_true_r.
Qed.

(** The narrowest rule governs, and at one width the one that needs a
    person: there is a governing rule exactly when some enabled rule of the
    organisation matches the call, it is one of those, and every other is
    broader, or as wide and no stricter. *)
Theorem Governing_narrowest_then_strictest rules c :
  Forall rule_checks rules ->
  (governing rules c = None <-> forall q, q ∈ rules -> ap_Enabled q = true -> rule_matches q c = false) /\
  (forall p, governing rules c = Some p ->
     p ∈ rules /\ ap_Enabled p = true /\ rule_matches p c = true /\
     forall q, q ∈ rules -> ap_Enabled q = true -> rule_matches q c = true ->
       rank q < rank p \/ (rank q = rank p /\ (ap_Effect q = EffectRequire -> ap_Effect p = EffectRequire))).
Proof.
  intros Hall. rewrite Forall_forall in Hall.
  assert (Hk : Forall effect_known (governing_rules rules c)).
  { apply Forall_forall. intros p (Hp & _)%elem_of_governing_rules. destruct (Hall p Hp) as (_ & _ & He & _).
    rewrite !elem_of_cons, elem_of_nil in He. unfold effect_known. tauto. }
  assert (Hin : forall q, q ∈ rules -> ap_Enabled q = true -> rule_matches q c = true -> q ∈ governing_rules rules c).
  { intros q Hq He Hm. apply elem_of_governing_rules. split; [done|]. rewrite where_governing_matches; auto. }
  destruct (govern_loop_spec c (governing_rules rules c) None (governing rules c) Hk ltac:(done) eq_refl) as (_ & H2 & H3).
  split; [split|].
  - intros Hn q Hq He. apply not_true_iff_false. intros Hm. destruct (H2 q) as (p & Hp & _); [by apply Hin|done|congruence].
  - intros Hno. destruct (governing rules c) as [p|]; [|done]. destruct (H3 p eq_refl) as [?|[Hp Hm]]; [done|].
    apply elem_of_governing_rules in Hp as [Hp Hw]. unfold where_governing in Hw. bool_prop. rewrite Hno in Hm; done.
  - intros p Hp. destruct (H3 p Hp) as [?|[Hr Hm]]; [done|].
    pose proof Hr as Hr'. apply elem_of_governing_rules in Hr' as [Hr' Hw]. unfold where_governing in Hw. bool_prop.
    split_and!; [done..|]. intros q Hq He Hqm. destruct (H2 q) as (p' & Hp' & Hle); [by apply Hin|done|].
    replace p' with p in Hle by congruence. unfold weight in Hle.
    rewrite Forall_forall in Hk. destruct (Hk p Hr) as [E|E], (Hk q (Hin q Hq He Hqm)) as [E'|E'];
      rewrite E, E' in Hle |- *; cbn in Hle; (destruct (decide (rank q < rank p)); [by left|right; split; [lia|]]); try done; lia.
Qed.
End governing.

Section conditions_facts.
Context (marshal : value -> result string string) (parse_float : string -> option float64).

(** A rule about an argument does not reach a call that leaves the
    argument out: every comparison but [absent] fails on it, so the rule
    does not match, and with no other rule nobody is asked. *)
Theorem missing_argument_ungated p c cond :
  ap_Trigger p = TriggerCondition -> cond ∈ ap_Conditions p -> cn_Op cond <> OpAbsent ->
  lookup_arg (cl_Args c) (cn_Arg cond) = None ->
  rule_matches marshal parse_float p c = false /\ governing marshal parse_float [p] c = None.
Proof.
  intros Ht Hc Ho Hl.
  assert (Hm : rule_matches marshal parse_float p c = false).
  { unfold rule_matches. rewrite Ht. destruct (negb _); [done|]. cbn.
    destruct (ap_Conditions p) as [|c0 conds]; [done|]. apply not_true_iff_false. intros Hf.
    apply list_elem_of_In in Hc.
    pose proof (proj1 (forallb_forall (fun d => condition_matches marshal parse_float d (cl_Args c)) (c0 :: conds)) Hf cond Hc) as Hx.
    cbn in Hx. unfold condition_matches in Hx. rewrite Hl in Hx. by apply Ho, String.eqb_eq, Hx. }
  split; [done|]. unfold governing. destruct (governing_rules [p] c) as [|q l] eqn:E; [done|].
  assert (Hall : forall x, x ∈ q :: l -> x = p).
  { intros x Hx. rewrite <-E in Hx. apply elem_of_governing_rules in Hx as [Hx _]. by apply list_elem_of_singleton in Hx. }
  clear E. induction (q :: l) as [|x k IH]; [done|]. cbn [govern_loop].
  rewrite (Hall x) by (by left). rewrite Hm. apply IH. intros y Hy. apply Hall. by right.
Qed.
End conditions_facts.

(** ** Storing a rule *)

Lemma check_conditions_ok i conds : check_conditions i conds = Ok tt ->
  Forall (fun c => TrimSpace (cn_Arg c) <> "" /\ validOp (cn_Op c) = true) conds.
Proof.
  revert i; induction conds as [|c conds IH]; intros i; cbn [check_conditions]; [by constructor|].
  destruct (String.eqb (TrimSpace (cn_Arg c)) "") eqn:E; [done|]. destruct (validOp (cn_Op c)) eqn:Hv; cbn; [|done].
  intros H%IH. constructor; [|done]. by apply String.eqb_neq in E.
Qed.

Lemma normal_scope_ok s i j : normal_scope s i = Ok j ->
  s ∈ [ScopeOrganization; ScopeServer; ScopeConnector; ScopeTool] /\ (s = ScopeOrganization \/ j <> "") /\
  (s = ScopeOrganization /\ j = "" \/ j = i) /\ normal_scope s j = Ok j.
Proof.
  unfold normal_scope. rewrite !elem_of_cons.
  destruct (String.eqb s ScopeOrganization) eqn:E1; [intros [= <-]; apply String.eqb_eq in E1; split_and!; auto|].
  destruct (_ || _) eqn:E2; [|done]. destruct (String.eqb i "") eqn:Ei; [done|]. intros [= <-]. rewrite Ei.
  split_and!; auto.
  - apply orb_true_iff in E2 as [E2|E2]; [apply orb_true_iff in E2 as [E2|E2]|]; apply String.eqb_eq in E2; auto 6.
  - right. by apply String.eqb_neq.
Qed.

Lemma normal_trigger_ok t n cs n' cs' : normal_trigger t n cs = Ok (n', cs') ->
  t ∈ [TriggerDestructive; TriggerTool; TriggerCondition] /\ (t <> TriggerTool \/ n' <> "") /\
  (t <> TriggerCondition \/ cs' <> []) /\ (n' = "" \/ n' = n) /\ normal_trigger t n' cs' = Ok (n', cs').
Proof.
  unfold normal_trigger. rewrite !elem_of_cons.
  destruct (String.eqb t TriggerDestructive) eqn:E1.
  { intros [= <- <-]. apply String.eqb_eq in E1. subst. split_and!; auto; by left. }
  destruct (String.eqb t TriggerTool) eqn:E2.
  { destruct (String.eqb n "") eqn:En; [done|]. intros [= <- <-]. rewrite En. apply String.eqb_eq in E2. subst.
    apply String.eqb_neq in En. split_and!; auto. }
  destruct (String.eqb t TriggerCondition) eqn:E3; [|done]. destruct cs as [|c cs]; [done|].
  destruct (check_conditions 0 (c :: cs)) as [[]|] eqn:Hc; [|done]. cbn. intros [= <- <-]. rewrite Hc.
  apply String.eqb_eq in E3. subst. split_and!; auto.
Qed.

(** What [normalise] accepts the table accepts: every CHECK constraint
    holds of the rule it returns, each condition names an argument and a
    known comparison, and normalising again changes nothing. *)
Theorem normalise_storable p q :
  normalise p = Ok q ->
  rule_checks q /\ ap_Name q <> "" /\ normalise q = Ok q /\
  (ap_Trigger q = TriggerCondition ->
   Forall (fun c => TrimSpace (cn_Arg c) <> "" /\ validOp (cn_Op c) = true) (ap_Conditions q)).
Proof.
  unfold normalise at 1. destruct (String.eqb (TrimSpace (ap_Name p)) "") eqn:En; [done|].
  set (scope := if String.eqb (ap_Scope p) "" then _ else _). set (effect := if String.eqb (ap_Effect p) "" then _ else _).
  set (ttl := if (ap_TTL p =? 0)%Z then _ else _).
  destruct (normal_scope _ _) as [j|] eqn:Hs; [|done]. cbn. destruct (normal_trigger _ _ _) as [[n cs]|] eqn:Ht; [|done]. cbn.
  destruct (negb _ && _) eqn:He; [done|]. destruct (_ || _) eqn:Httl; [done|].
  intros H. injection H as <-. apply normal_scope_ok in Hs as (Hs1 & Hs2 & Hs3 & Hs4).
  pose proof Ht as Ht0. apply normal_trigger_ok in Ht as (Ht1 & Ht2 & Ht3 & Ht4 & Ht5).
  assert (He' : effect ∈ [EffectRequire; EffectAllow]).
  { rewrite !elem_of_cons. destruct (String.eqb effect EffectRequire) eqn:E1; [apply String.eqb_eq in E1; auto|].
    destruct (String.eqb effect EffectAllow) eqn:E2; [apply String.eqb_eq in E2; auto|done]. }
  assert (Hscope : (if String.eqb scope "" then ScopeOrganization else scope) = scope).
  { destruct (String.eqb_spec scope "") as [E|_]; [|done]. rewrite E, !elem_of_cons, elem_of_nil in Hs1. intuition discriminate. }
  assert (Heff : (if String.eqb effect "" then EffectRequire else effect) = effect).
  { destruct (String.eqb_spec effect "") as [E|_]; [|done]. rewrite E, !elem_of_cons, elem_of_nil in He'. intuition discriminate. }
  assert (Hel : forall A (x y : A), (if negb (String.eqb effect EffectRequire) && negb (String.eqb effect EffectAllow) then x else y) = y)
    by (intros; by rewrite He).
  bool_prop. split_and!; cbn [ap_Name ap_Trigger ap_Conditions fst snd].
  - unfold rule_checks. cbn. split_and!; try done; lia.
  - done.
  - unfold normalise. cbn [ap_ID ap_OrgID ap_Name ap_Scope ap_ScopeID ap_Trigger ap_ToolName ap_Conditions ap_Effect ap_TTL ap_Enabled ap_CreatedBy ap_CreatedAt ap_UpdatedAt fst snd]. rewrite TrimSpace_idem, (proj2 (String.eqb_neq _ _) En), Hscope, Heff.
    assert (TrimSpace j = j) as ->. { destruct Hs3 as [[_ ->]| ->]; [done|apply TrimSpace_idem]. }
    assert (TrimSpace n = n) as ->. { destruct Ht4 as [->| ->]; [done|apply TrimSpace_idem]. }
    rewrite (proj2 (Z.eqb_neq ttl 0)) by lia. rewrite Hs4. cbn [mbind result_bind]. rewrite Ht5. cbn [mbind result_bind fst snd]. rewrite Hel.
    by rewrite (proj2 (Z.ltb_ge ttl 60)), (proj2 (Z.ltb_ge 604800 ttl)) by lia.
  - intros E. rewrite E in Ht0. unfold normal_trigger in Ht0. cbn in Ht0. destruct (ap_Conditions p) as [|c0 cs0]; [done|].
    destruct (check_conditions 0 _) as [[]|] eqn:Hc; [|done]. cbn in Ht0. injection Ht0 as <- <-. by eapply check_conditions_ok.
Qed.

(** ** On concrete rules *)

Definition no_encoding (v : value) : result string string := Err "unsupported".
Definition no_number (s : string) : option float64 := None.

Definition rule_of (id scope scopeID trigger tool : string) (conds : list ApprovalCondition) (effect : string) : ApprovalPolicy :=
  mkRule id "o" id scope scopeID trigger tool conds effect 3600 true "admin" 0 0.

Definition call_of (args : list (string * value)) : CallRef :=
  mkCall "o" "srv1" "con1" "tool1" "refund_payment" true "user" "alice" "alice@example.com" args.

Definition org_destructive : ApprovalPolicy := rule_of "1" ScopeOrganization "" TriggerDestructive "" [] EffectRequire.
Definition sandbox_exempt : ApprovalPolicy := rule_of "2" ScopeConnector "con1" TriggerTool "refund_payment" [] EffectAllow.
Definition tool_require : ApprovalPolicy := rule_of "3" ScopeConnector "con1" TriggerDestructive "" [] EffectRequire.
Definition over_1000 : ApprovalCondition := mkCondition "order.amount" OpGreaterThan (VInt 1000).
Definition large_refunds : ApprovalPolicy := rule_of "4" ScopeOrganization "" TriggerCondition "" [over_1000] EffectRequire.

Example narrower_exempts : governing no_encoding no_number [org_destructive; sandbox_exempt] (call_of []) = Some sandbox_exempt.
Proof. vm_compute. reflexivity. Qed.

Example disagreement_requires :
  governing no_encoding no_number [org_destructive; sandbox_exempt; tool_require] (call_of []) = Some tool_require.
Proof. vm_compute. reflexivity. Qed.

Example over_the_limit :
  governing no_encoding no_number [large_refunds] (call_of [("order", VMap [("amount", VInt 5000)])]) = Some large_refunds.
Proof. vm_compute. reflexivity. Qed.

Lemma rule_checks_demo : Forall rule_checks [org_destructive; sandbox_exempt; tool_require].
Proof.
  repeat (apply Forall_cons; split); [| | |done]; unfold rule_checks; cbn;
    (split_and!; [by rewrite !elem_of_cons; auto 6|by rewrite !elem_of_cons; auto 6|by rewrite !elem_of_cons; auto 6|lia|lia|..]);
    try (by left); by right.
Qed.

Lemma Governing_narrowest_then_strictest_witness :
  (governing no_encoding no_number [org_destructive; sandbox_exempt; tool_require] (call_of []) = None <->
   forall q, q ∈ [org_destructive; sandbox_exempt; tool_require] -> ap_Enabled q = true ->
     rule_matches no_encoding no_number q (call_of []) = false) /\
  rank sandbox_exempt = rank tool_require.
Proof.
  split; [|reflexivity].
  exact (proj1 (Governing_narrowest_then_strictest no_encoding no_number _ (call_of []) rule_checks_demo)).
Defined.

Lemma missing_argument_ungated_witness :
  rule_matches no_encoding no_number large_refunds (call_of [("order", VMap [("total", VInt 5000)])]) = false /\
  governing no_encoding no_number [large_refunds] (call_of [("order", VMap [("total", VInt 5000)])]) = None.
Proof.
  apply (missing_argument_ungated no_encoding no_number large_refunds _ over_1000).
  - reflexivity.
  - left.
  - discriminate.
  - reflexivity.
Defined.

Definition typed_rule : ApprovalPolicy :=
  mkRule "9" "o" " big refunds " "" "stale" TriggerCondition " " [over_1000] "" 0 true "admin" 0 0.

Lemma normalise_storable_witness :
  exists q, normalise typed_rule = Ok q /\ ap_Name q = "big refunds" /\ ap_ScopeID q = "" /\ ap_TTL q = 3600%Z /\ rule_checks q.
Proof.
  assert (H : exists q, normalise typed_rule = Ok q /\ ap_Name q = "big refunds" /\ ap_ScopeID q = "" /\ ap_TTL q = 3600%Z).
  { eexists. split_and!; vm_compute; reflexivity. }
  destruct H as (q & Hq & H1 & H2 & H3). exists q.
  exact (conj Hq (conj H1 (conj H2 (conj H3 (proj1 (normalise_storable typed_rule q Hq)))))).
Defined.
