(* ===== verification/Approvals.v ===== *)
(** * Approvals: the requests a person answers

    The request half of [internal/governance/approvals.go].  A gated call
    raises a request whose arguments are sealed; someone other than the
    asker decides it; the asker replays it once, with the sealed arguments.

    A world is the two tables and the audit events emitted.  Each operation
    is one transaction on it: the statements of the source in their order,
    rolled back when the transaction's function returns an error.  Row-level
    security is the organisation test every statement carries.  Operations
    are steps taken one after the other, as the row locks and the advisory
    lock of [Raise] order them; time is the transaction's [now()] in
    microseconds.  The sealer is an interface, [Sealer], which states what
    [internal/secrets] promises; what the Go library and the tables of other
    components answer is in [Runtime]. *)
From S2P Require Import Prelude GoStrings Float64 Regex Detectors Values CustomDetectors Dlp Secrets ApprovalRules.

Open Scope list_scope.

Inductive State : Type :=
  | StatePending | StateApproved | StateRejected | StateExpired | StateCancelled | StateConsumed.

#[export] Instance State_eq_dec : EqDecision State.
Proof. solve_decision. Defined.

Definition state_string (s : State) : string :=
  match s with
  | StatePending => "pending" | StateApproved => "approved" | StateRejected => "rejected"
  | StateExpired => "expired" | StateCancelled => "cancelled" | StateConsumed => "consumed"
  end.

Definition ArgApprovalID : string := "_approval".
Definition maxPendingPerTool : nat := 20.
Definition maxReason : nat := 2000.
Definition MaxAcknowledgement : nat := 500.

(** The columns fixed when the row is written, and those a transition moves
    (the table's GRANT draws the same line); a NULL column is [None]. *)
Record Asked : Type := mkAsked {
  q_ID : string;
  q_OrgID : string;
  q_PolicyName : string;
  q_ServerID : string;
  q_ConnectorID : string;
  q_ToolID : string;
  q_ToolName : string;
  q_RequestedBy : string;
  q_RequesterKind : string;
  q_RequesterDisplay : string;
  q_CreatedAt : Z;
  q_TTL : Z;
}.

Record Progress : Type := mkProgress {
  g_PolicyID : string;
  g_State : State;
  g_ExpiresAt : Z;
  g_DecidedBy : option string;
  g_DecidedAt : option Z;
  g_CancelledAt : option Z;
  g_ConsumedAt : option Z;
  g_Reason : string;
  g_AcknowledgedAt : option Z;
  g_Acknowledgement : string;
}.

Record ApprovalRequest : Type := mkRequest {
  ar_Asked : Asked;
  ar_Progress : Progress;
  ar_Args : option (list (string * value));
}.

(** A row of [approval_requests]. *)
Record row : Type := mkReqRow { rw_Asked : Asked; rw_Progress : Progress; rw_Args : string }.

Record Outcome : Type := mkOutcome {
  oc_Required : bool;
  oc_Args : list (string * value);
  oc_Request : option ApprovalRequest;
  oc_Message : string;
}.

Record Notice : Type := mkNotice {
  nt_Status : string;
  nt_RequestID : string;
  nt_State : State;
  nt_Tool : string;
  nt_ApprovalPolicy : string;
  nt_ExpiresAt : Z;
  nt_Reason : string;
  nt_RetryWith : string;
  nt_Acknowledged : bool;
}.

Record Decision_ : Type := mkDecision { de_Approve : bool; de_ActorID : string; de_ActorDisplay : string; de_Reason : string }.

Record Event : Type := mkEvent {
  ev_OrgID : string;
  ev_Category : string;
  ev_Action : string;
  ev_Outcome : string;
  ev_ActorKind : string;
  ev_ActorID : string;
  ev_ActorDisplay : string;
  ev_TargetKind : string;
  ev_TargetID : string;
  ev_TargetDisplay : string;
  ev_Meta : list (string * value);
}.

Record world : Type := mkWorld { w_requests : list row; w_rules : list ApprovalPolicy; w_events : list Event }.

Definition with_requests (w : world) (rs : list row) : world := mkWorld rs (w_rules w) (w_events w).

Definition add_event (w : world) (e : Event) : world := mkWorld (w_requests w) (w_rules w) (w_events w ++ [e]).

Inductive approval_error : Type :=
  | ErrNoOrg
  | ErrApprovalNotFound
  | ErrAlreadyDecided
  | ErrRequestExpired
  | ErrSelfDecision
  | ErrNotRequester
  | ErrTooManyPending
  | ErrNotPending
  | ErrConfirmed
  | ErrMissing (what : string)
  | ErrEncoding (why : string)
  | ErrSealer (why : string)
  | ErrPostgres (code : string).

(** ** The interfaces

    [Sealer] is in [Secrets.v]. *)

(** [encoding/json], [strconv], [time], [unicode], and the tables that
    name users and service accounts. *)
Class Runtime : Type := {
  Marshal : value -> result string string;
  Unmarshal : string -> option value;
  ParseFloat : string -> option float64;
  FormatTime : Z -> string;
  Quote : string -> string;
  IsControl : Z -> bool;
  UnicodeLower : string -> string;
  Clock : nat -> Z;
  NameIn : string -> string -> option string;
}.

(** ** Text the asker wrote *)

Definition encode_rune (r : Z) : string :=
  let byte n := ascii_of_nat (Z.to_nat n) in
  (if r <? 128 then String (byte r) ""
   else if r <? 2048 then String (byte (192 + r / 64)) (String (byte (128 + r mod 64)) "")
   else if r <? 65536
   then String (byte (224 + r / 4096)) (String (byte (128 + (r / 64) mod 64)) (String (byte (128 + r mod 64)) ""))
   else String (byte (240 + r / 262144)) (String (byte (128 + (r / 4096) mod 64))
          (String (byte (128 + (r / 64) mod 64)) (String (byte (128 + r mod 64)) ""))))%Z.

Definition encode_runes (l : list Z) : string := foldr (fun r s => encode_rune r +:+ s) "" l.

Definition orDefault (s fallback : string) : string := if String.eqb (TrimSpace s) "" then fallback else s.

(** ** Statements *)

Definition set_state (s : State) (g : Progress) : Progress :=
  mkProgress (g_PolicyID g) s (g_ExpiresAt g) (g_DecidedBy g) (g_DecidedAt g) (g_CancelledAt g) (g_ConsumedAt g)
    (g_Reason g) (g_AcknowledgedAt g) (g_Acknowledgement g).

(** The SQL of [effectiveState]. *)
Definition effectiveState (now : Z) (g : Progress) : State :=
  if decide (g_State g = StatePending) then if (g_ExpiresAt g <=? now)%Z then StateExpired else StatePending else g_State g.

(** [scanRequest] of the common columns. *)
Definition scanRequest (now : Z) (r : row) : ApprovalRequest :=
  mkRequest (rw_Asked r) (set_state (effectiveState now (rw_Progress r)) (rw_Progress r)) None.

Definition row_id (r : row) : string := q_ID (rw_Asked r).

Definition visible (org : string) (r : row) : bool := String.eqb (q_OrgID (rw_Asked r)) org.

Definition is_state (s : State) (r : row) : bool := bool_decide (g_State (rw_Progress r) = s).

Definition moved (f : Progress -> Progress) (r : row) : row := mkReqRow (rw_Asked r) (f (rw_Progress r)) (rw_Args r).

(** UPDATE ... WHERE p, the rows and how many. *)
Definition update_rows (p : row -> bool) (f : Progress -> Progress) (rs : list row) : list row :=
  map (fun r => if p r then moved f r else r) rs.

(** The one row of an UPDATE ... WHERE id = $1 ... RETURNING. *)
Definition returning (p : row -> bool) (f : Progress -> Progress) (rs : list row) : option row :=
  moved f <$> List.find p rs.

(** SELECT ... WHERE id = $1. *)
Definition find_row (org id : string) (rs : list row) : option row :=
  List.find (fun r => visible org r && String.eqb (row_id r) id) rs.

Definition seconds (n : Z) : Z := (n * 1000000)%Z.

(** [DB.Tx]: what the function wrote is kept when it returns no error. *)
Definition Tx {A} (org : string) (rs : list row) (body : list row -> list row * result approval_error A) :
    list row * result approval_error A :=
  if String.eqb org "" then (rs, Err ErrNoOrg)
  else match body rs with
       | (rs', Ok a) => (rs', Ok a)
       | (_, Err e) => (rs, Err e)
       end.

Definition read (now : Z) (org id : string) (rs : list row) : result approval_error ApprovalRequest :=
  match find_row org id rs with
  | Some r => Ok (scanRequest now r)
  | None => Err ErrApprovalNotFound
  end.

Section operations.
Context `{Sealer} `{Runtime}.

Definition rule_governing : list ApprovalPolicy -> CallRef -> option ApprovalPolicy := governing Marshal ParseFloat.

Definition RequesterText (s : string) (limit : nat) : string :=
  let keep r := if ((r =? 10) || (r =? 13) || (r =? 9))%Z then [32%Z] else if IsControl r then [] else [r] in
  let out := TrimSpace (encode_runes (flat_map keep (map fst (runes (bytes_of s))))) in
  let out := match (Apply UnicodeLower Clock (VStr out) ActionMask (mkOptions [] 0 "" None)).1 with
             | Ok (VStr m) => m
             | _ => out
             end in
  let rs := map fst (runes (bytes_of out)) in
  if limit <? length rs then TrimSpace (encode_runes (take limit rs)) else out.

(** [json.Marshal] of the arguments. *)
Definition canonical (args : list (string * value)) : result approval_error string :=
  match Marshal (VMap args) with Ok b => Ok b | Err e => Err (ErrEncoding e) end.

(** [splitApprovalID]. *)
Definition splitApprovalID (args : list (string * value)) : string * list (string * value) :=
  (TrimSpace (match obj_get args ArgApprovalID with Some (VStr s) => s | _ => "" end),
   List.filter (fun e => negb (String.eqb e.1 ArgApprovalID)) args).

Definition argsAAD (orgID id : string) : AAD := mkAAD "approval_requests" "args_enc" id orgID.

(** [Approvals.open]: JSON null leaves no arguments. *)
Definition open_args (orgID id sealed : string) : result approval_error (list (string * value)) :=
  match Unseal orgID sealed (argsAAD orgID id) with
  | Err e => Err (ErrSealer e)
  | Ok plain =>
      match Unmarshal plain with
      | Some (VMap m) => Ok m
      | Some VNil => Ok []
      | _ => Err (ErrEncoding "arguments")
      end
  end.

Definition nameOf (kind id : string) : string :=
  if String.eqb kind "service_account" then default "" (NameIn "service_account" id)
  else if String.eqb kind "user" || String.eqb kind "" then default "" (NameIn "user" id)
  else "".

Definition emit (r : ApprovalRequest) (action : string) (meta : list (string * value)) (w : world) : world :=
  let a := ar_Asked r in
  add_event w (mkEvent (q_OrgID a) "governance" action "success" (q_RequesterKind a) (q_RequestedBy a)
    (q_RequesterDisplay a) "tool" (q_ToolID a) (q_ToolName a) (obj_set meta "request" (VStr (q_ID a)))).

Definition Governing (w : world) (c : CallRef) : result approval_error (option ApprovalPolicy) :=
  if String.eqb (cl_OrgID c) "" then Err ErrNoOrg
  else Ok (rule_governing (List.filter (fun p => String.eqb (ap_OrgID p) (cl_OrgID c)) (w_rules w)) c).

(** ** Raising a request *)

(** The WHERE clause of [sameCall]: a request still open, or a refusal that
    stands. *)
Definition where_same_call (now : Z) (c : CallRef) (r : row) : bool :=
  let g := rw_Progress r in
  visible (cl_OrgID c) r
  && String.eqb (q_ToolID (rw_Asked r)) (cl_ToolID c) && String.eqb (q_RequestedBy (rw_Asked r)) (cl_ActorID c)
  && (is_state StatePending r && (now <? g_ExpiresAt g)%Z
      || is_state StateRejected r
         && match g_DecidedAt g with Some t => (now - seconds (q_TTL (rw_Asked r)) <? t)%Z | None => false end).

(** ORDER BY created_at DESC. *)
Definition newest_first (a b : row) : Prop := (q_CreatedAt (rw_Asked b) <= q_CreatedAt (rw_Asked a))%Z.

#[export] Instance newest_first_dec a b : Decision (newest_first a b).
Proof. unfold newest_first. solve_decision. Defined.

Definition candidates (now : Z) (c : CallRef) (rs : list row) : list row :=
  take maxPendingPerTool (merge_sort newest_first (List.filter (where_same_call now c) rs)).

(** The loop that opens each candidate. *)
Fixpoint find_same (now : Z) (c : CallRef) (args : string) (found : list row) : result approval_error (option ApprovalRequest) :=
  match found with
  | [] => Ok None
  | r :: found =>
      prev ← open_args (cl_OrgID c) (row_id r) (rw_Args r);
      same ← canonical prev;
      if String.eqb same args then Ok (Some (scanRequest now r)) else find_same now c args found
  end.

Definition sameCall (now : Z) (c : CallRef) (args : string) (rs : list row) :
    result approval_error (option ApprovalRequest * nat) :=
  let found := candidates now c rs in
  same ← find_same now c args found;
  Ok (same, length (List.filter (is_state StatePending) found)).

(** [int(ttl.Seconds())]. *)
Definition ttl_seconds (policy : option ApprovalPolicy) : Z :=
  let ttl := match policy with
             | Some p => if (0 <? ap_TTL p)%Z then wrap64 (ap_TTL p * Second) else Hour
             | None => Hour
             end in
  Z_of_f (Seconds ttl).

(** The row [Raise] inserts. *)
Definition new_row (now : Z) (c : CallRef) (id policyID policyName display : string) (ttl : Z) (sealed : string) : row :=
  mkReqRow
    (mkAsked id (cl_OrgID c) policyName (cl_ServerID c) (cl_ConnectorID c) (cl_ToolID c) (cl_ToolName c) (cl_ActorID c)
       (orDefault (cl_ActorKind c) "user") display now ttl)
    (mkProgress policyID StatePending (now + seconds ttl) None None None None "" None "")
    sealed.

(** INSERT, with the primary key, the policy's foreign key and the check on
    the ttl. *)
Definition insert_row (rules : list ApprovalPolicy) (r : row) (rs : list row) : list row * result approval_error row :=
  if existsb (fun r' => String.eqb (row_id r') (row_id r)) rs then (rs, Err (ErrPostgres "23505"))
  else if negb (String.eqb (g_PolicyID (rw_Progress r)) "")
          && negb (existsb (fun p => String.eqb (ap_ID p) (g_PolicyID (rw_Progress r))) rules)
  then (rs, Err (ErrPostgres "23503"))
  else if (q_TTL (rw_Asked r) <=? 0)%Z then (rs, Err (ErrPostgres "23514"))
  else (rs ++ [r], Ok r).

(** The transaction of [Raise]. *)
Definition raise_tx (now : Z) (c : CallRef) (policy : option ApprovalPolicy) (id args sealed : string)
    (rules : list ApprovalPolicy) (rs : list row) : list row * result approval_error ApprovalRequest :=
  match sameCall now c args rs with
  | Err e => (rs, Err e)
  | Ok (Some existing, _) => (rs, Ok existing)
  | Ok (None, pending) =>
      if maxPendingPerTool <=? pending then (rs, Err ErrTooManyPending)
      else
        let display := if String.eqb (cl_ActorDisplay c) "" then nameOf (cl_ActorKind c) (cl_ActorID c) else cl_ActorDisplay c in
        let pid := match policy with Some p => ap_ID p | None => "" end in
        let pname := match policy with Some p => ap_Name p | None => "" end in
        match insert_row rules (new_row now c id pid pname display (ttl_seconds policy) sealed) rs with
        | (rs, Ok r) => (rs, Ok (scanRequest now r))
        | (rs, Err e) => (rs, Err e)
        end
  end.

(** [id] is what [NewID] answers, [nonce] the sealer's randomness. *)
Definition Raise (now : Z) (c : CallRef) (policy : option ApprovalPolicy) (id nonce : string) (w : world) :
    world * result approval_error ApprovalRequest :=
  if String.eqb (cl_OrgID c) "" then (w, Err ErrNoOrg)
  else if String.eqb (cl_ToolID c) "" then (w, Err (ErrMissing "an approval request needs the tool it is about"))
  else if String.eqb (cl_ActorID c) "" then (w, Err (ErrMissing "an approval request needs to name who asked for it"))
  else match canonical (cl_Args c) with
  | Err e => (w, Err e)
  | Ok args =>
      match Seal nonce (cl_OrgID c) args (argsAAD (cl_OrgID c) id) with
      | Err e => (w, Err (ErrSealer e))
      | Ok sealed =>
          match Tx (cl_OrgID c) (w_requests w) (raise_tx now c policy id args sealed (w_rules w)) with
          | (rs, Err e) => (with_requests w rs, Err e)
          | (rs, Ok out) =>
              let w := with_requests w rs in
              let name := match policy with Some p => ap_Name p | None => "" end in
              (if String.eqb (q_ID (ar_Asked out)) id then emit out "approval.request" [("policy", VStr name)] w else w, Ok out)
          end
      end
  end.

(** ** Using a request *)

Definition waiting (r : ApprovalRequest) : Outcome :=
  let id := q_ID (ar_Asked r) in
  let g := ar_Progress r in
  let at_ := FormatTime (g_ExpiresAt g) in
  mkOutcome true [] (Some r)
    match g_State g with
    | StatePending =>
        "This call needs a person to approve it before it can run. Request " +:+ id +:+ " is waiting, and lapses at " +:+ at_
        +:+ ". Do not repeat the call as it stands: once someone has approved it, call this tool again with "
        +:+ Quote ArgApprovalID +:+ " set to " +:+ Quote id
        +:+ ", and the arguments that were approved are the ones that will run."
    | StateApproved =>
        "Request " +:+ id +:+ " has been approved but could not be used. It may belong to another caller, or it may have lapsed at "
        +:+ at_ +:+ "."
    | StateRejected =>
        "Request " +:+ id +:+ " was refused: " +:+ orDefault (g_Reason g) "no reason given"
        +:+ ". Do not try this call again; tell the person you are working for that it was declined."
    | StateExpired =>
        "Request " +:+ id +:+ " lapsed at " +:+ at_ +:+ " without an answer. Nobody refused it and nobody agreed to it."
    | StateCancelled => "Request " +:+ id +:+ " was withdrawn before anyone answered it."
    | StateConsumed => "Request " +:+ id +:+ " has already been used. An approval is good for one call."
    end.

(** [Outcome.Notice]. *)
Definition notice (o : Outcome) : option Notice :=
  match oc_Request o with
  | None => None
  | Some r =>
      let g := ar_Progress r in
      Some (mkNotice ("approval_" +:+ state_string (g_State g)) (q_ID (ar_Asked r)) (g_State g) (q_ToolName (ar_Asked r))
              (q_PolicyName (ar_Asked r)) (g_ExpiresAt g) (g_Reason g)
              (if decide (g_State g = StatePending) then ArgApprovalID
               else if decide (g_State g = StateApproved) then ArgApprovalID else "") false)
  end.

Definition consume (now : Z) (g : Progress) : Progress :=
  mkProgress (g_PolicyID g) StateConsumed (g_ExpiresAt g) (g_DecidedBy g) (g_DecidedAt g) (g_CancelledAt g) (Some now)
    (g_Reason g) (g_AcknowledgedAt g) (g_Acknowledgement g).

Definition where_claim (now : Z) (org id actor : string) (r : row) : bool :=
  visible org r && String.eqb (row_id r) id && String.eqb (q_RequestedBy (rw_Asked r)) actor
  && is_state StateApproved r && (now <? g_ExpiresAt (rw_Progress r))%Z.

(** The transaction of [claim]: the request, and its sealed arguments when
    this call spent it. *)
Definition claim_tx (now : Z) (org id actor : string) (rs : list row) :
    list row * result approval_error (ApprovalRequest * string) :=
  let p := where_claim now org id actor in
  match returning p (consume now) rs with
  | Some r => (update_rows p (consume now) rs, Ok (scanRequest now r, rw_Args r))
  | None => match read now org id rs with
            | Ok q => (rs, Ok (q, ""))
            | Err e => (rs, Err e)
            end
  end.

Definition claim (now : Z) (c : CallRef) (id : string) (w : world) : world * result approval_error Outcome :=
  match Tx (cl_OrgID c) (w_requests w) (claim_tx now (cl_OrgID c) id (cl_ActorID c)) with
  | (rs, Err e) => (with_requests w rs, Err e)
  | (rs, Ok (req, sealed)) =>
      let w := with_requests w rs in
      if String.length sealed =? 0 then (w, Ok (waiting req))
      else match open_args (cl_OrgID c) id sealed with
           | Err e => (w, Err e)
           | Ok args =>
               (emit req "approval.replay" [("decidedBy", VStr (default "" (g_DecidedBy (ar_Progress req))))] w,
                Ok (mkOutcome false args (Some req) ""))
           end
  end.

(** The call [Check] goes on with: the approval argument taken out. *)
Definition stripped (c : CallRef) : CallRef :=
  mkCall (cl_OrgID c) (cl_ServerID c) (cl_ConnectorID c) (cl_ToolID c) (cl_ToolName c) (cl_Destructive c)
    (cl_ActorKind c) (cl_ActorID c) (cl_ActorDisplay c) (splitApprovalID (cl_Args c)).2.

Definition Check_call (now : Z) (c : CallRef) (newID nonce : string) (w : world) : world * result approval_error Outcome :=
  let claimID := (splitApprovalID (cl_Args c)).1 in
  let c := stripped c in
  if negb (String.eqb claimID "") then claim now c claimID w
  else match Governing w c with
  | Err e => (w, Err e)
  | Ok None => (w, Ok (mkOutcome false (cl_Args c) None ""))
  | Ok (Some policy) =>
      if String.eqb (ap_Effect policy) EffectAllow then (w, Ok (mkOutcome false (cl_Args c) None ""))
      else match Raise now c (Some policy) newID nonce w with
           | (w, Err e) => (w, Err e)
           | (w, Ok req) => (w, Ok (waiting req))
           end
  end.

(** ** Answering a request *)

Definition decided (now ttl : Z) (d : Decision_) (g : Progress) : Progress :=
  mkProgress (g_PolicyID g) (if de_Approve d then StateApproved else StateRejected)
    (if de_Approve d then now + seconds ttl else g_ExpiresAt g)%Z (Some (de_ActorID d)) (Some now)
    (g_CancelledAt g) (g_ConsumedAt g) (TrimSpace (de_Reason d)) (g_AcknowledgedAt g) (g_Acknowledgement g).

(** The new progress depends on the row's ttl. *)
Definition decided_row (now : Z) (d : Decision_) (r : row) : row :=
  moved (decided now (q_TTL (rw_Asked r)) d) r.

Definition where_decide (now : Z) (org id actor : string) (r : row) : bool :=
  visible org r && String.eqb (row_id r) id && is_state StatePending r && (now <? g_ExpiresAt (rw_Progress r))%Z
  && negb (String.eqb (q_RequestedBy (rw_Asked r)) actor).

(** [refuseDecision]: its rows are the transaction's, which its error rolls
    back. *)
Definition refuseDecision (now : Z) (org id actor : string) (rs : list row) : list row * approval_error :=
  match read now org id rs with
  | Err e => (rs, e)
  | Ok current =>
      if String.eqb (q_RequestedBy (ar_Asked current)) actor then (rs, ErrSelfDecision)
      else if decide (g_State (ar_Progress current) = StateExpired)
      then (update_rows (fun r => visible org r && String.eqb (row_id r) id && is_state StatePending r) (set_state StateExpired) rs,
            ErrRequestExpired)
      else (rs, ErrAlreadyDecided)
  end.

Definition decide_tx (now : Z) (org id : string) (d : Decision_) (rs : list row) :
    list row * result approval_error ApprovalRequest :=
  let p := where_decide now org id (de_ActorID d) in
  match List.find p rs with
  | Some r => (map (fun r => if p r then decided_row now d r else r) rs, Ok (scanRequest now (decided_row now d r)))
  | None => let '(rs, e) := refuseDecision now org id (de_ActorID d) rs in (rs, Err e)
  end.

Definition Decide (now : Z) (org id : string) (d : Decision_) (w : world) : world * result approval_error ApprovalRequest :=
  if String.eqb (de_ActorID d) "" then (w, Err (ErrMissing "a decision needs to name who made it"))
  else if negb (de_Approve d) && String.eqb (TrimSpace (de_Reason d)) "" then (w, Err (ErrMissing "a refusal needs a reason"))
  else let '(rs, r) := Tx org (w_requests w) (decide_tx now org id d) in (with_requests w rs, r).

(** ** Withdrawing and confirming *)

Definition cancelled (now : Z) (reason : string) (g : Progress) : Progress :=
  mkProgress (g_PolicyID g) StateCancelled (g_ExpiresAt g) (g_DecidedBy g) (g_DecidedAt g) (Some now) (g_ConsumedAt g)
    reason (g_AcknowledgedAt g) (g_Acknowledgement g).

Definition is_none {A} (o : option A) : bool := match o with None => true | Some _ => false end.

Definition where_cancel (org id actor : string) (unconfirmedOnly : bool) (r : row) : bool :=
  visible org r && String.eqb (row_id r) id && is_state StatePending r && String.eqb (q_RequestedBy (rw_Asked r)) actor
  && (negb unconfirmedOnly || is_none (g_AcknowledgedAt (rw_Progress r))).

Definition cancel_tx (now : Z) (org id actor reason : string) (unconfirmedOnly : bool) (rs : list row) :
    list row * result approval_error ApprovalRequest :=
  let p := where_cancel org id actor unconfirmedOnly in
  let f := cancelled now (RequesterText reason maxReason) in
  match returning p f rs with
  | Some r => (update_rows p f rs, Ok (scanRequest now r))
  | None =>
      match read now org id rs with
      | Err e => (rs, Err e)
      | Ok current =>
          if negb (String.eqb (q_RequestedBy (ar_Asked current)) actor) then (rs, Err ErrNotRequester)
          else if unconfirmedOnly && bool_decide (g_State (ar_Progress current) = StatePending)
                  && negb (is_none (g_AcknowledgedAt (ar_Progress current)))
          then (rs, Err ErrConfirmed)
          else if decide (g_State (ar_Progress current) = StateExpired) then (rs, Err ErrRequestExpired)
          else (rs, Err ErrAlreadyDecided)
      end
  end.

Definition cancel (now : Z) (org id actor reason : string) (unconfirmedOnly : bool) (w : world) :
    world * result approval_error ApprovalRequest :=
  if String.eqb actor "" then (w, Err (ErrMissing "withdrawing a request needs to name who did it"))
  else let '(rs, r) := Tx org (w_requests w) (cancel_tx now org id actor reason unconfirmedOnly) in (with_requests w rs, r).

Definition Cancel (now : Z) (org id actor reason : string) (w : world) := cancel now org id actor reason false w.

Definition Withdraw (now : Z) (org id actor reason : string) (w : world) := cancel now org id actor reason true w.

Definition acknowledged (now : Z) (note : string) (g : Progress) : Progress :=
  mkProgress (g_PolicyID g) (g_State g) (g_ExpiresAt g) (g_DecidedBy g) (g_DecidedAt g) (g_CancelledAt g) (g_ConsumedAt g)
    (g_Reason g) (Some now) note.

Definition where_acknowledge (now : Z) (org id actor : string) (r : row) : bool :=
  visible org r && String.eqb (row_id r) id && String.eqb (q_RequestedBy (rw_Asked r)) actor && is_state StatePending r
  && (now <? g_ExpiresAt (rw_Progress r))%Z && is_none (g_AcknowledgedAt (rw_Progress r)).

(** The request, and whether this call wrote the confirmation. *)
Definition acknowledge_tx (now : Z) (org id actor note : string) (rs : list row) :
    list row * result approval_error (ApprovalRequest * bool) :=
  let p := where_acknowledge now org id actor in
  match returning p (acknowledged now note) rs with
  | Some r => (update_rows p (acknowledged now note) rs, Ok (scanRequest now r, true))
  | None =>
      match read now org id rs with
      | Err e => (rs, Err e)
      | Ok current =>
          if negb (String.eqb (q_RequestedBy (ar_Asked current)) actor) then (rs, Err ErrNotRequester)
          else if decide (g_State (ar_Progress current) = StatePending) then (rs, Ok (current, false))
          else (rs, Err ErrNotPending)
      end
  end.

Definition Acknowledge (now : Z) (org id actor note : string) (w : world) : world * result approval_error ApprovalRequest :=
  if String.eqb actor "" then (w, Err (ErrMissing "confirming a request needs to name who did it"))
  else
    let note := RequesterText note MaxAcknowledgement in
    match Tx org (w_requests w) (acknowledge_tx now org id actor note) with
    | (rs, Err e) => (with_requests w rs, Err e)
    | (rs, Ok (out, wrote)) =>
        let w := with_requests w rs in
        (if (wrote : bool) then emit out "approval.acknowledge" [("withNote", VBool (negb (String.eqb note "")))] w else w, Ok out)
    end.

(** ** Reading, and settling *)

Definition Get_request (now : Z) (org id : string) (w : world) : result approval_error ApprovalRequest :=
  if String.eqb org "" then Err ErrNoOrg else read now org id (w_requests w).

Definition Open_request (now : Z) (org id : string) (w : world) : result approval_error ApprovalRequest :=
  if String.eqb org "" then Err ErrNoOrg
  else match find_row org id (w_requests w) with
  | None => Err ErrApprovalNotFound
  | Some r =>
      args ← open_args org id (rw_Args r);
      let q := scanRequest now r in
      Ok (mkRequest (ar_Asked q) (ar_Progress q) (Some args))
  end.

(** [state] [None] reads every state. *)
Definition List_requests (now : Z) (org : string) (state : option State) (requester : string) (limit : Z) (w : world) :
    result approval_error (list ApprovalRequest) :=
  let limit := if ((limit <=? 0) || (200 <? limit))%Z then 50%Z else limit in
  if String.eqb org "" then Err ErrNoOrg
  else
    let p r := visible org r
      && match state with Some s => bool_decide (effectiveState now (rw_Progress r) = s) | None => true end
      && (String.eqb requester "" || String.eqb (q_RequestedBy (rw_Asked r)) requester) in
    Ok (map (scanRequest now) (take (Z.to_nat limit) (merge_sort newest_first (List.filter p (w_requests w))))).

(** [Sweep], across every organisation: the world and how many were settled. *)
Definition where_sweep (now : Z) (r : row) : bool := is_state StatePending r && (g_ExpiresAt (rw_Progress r) <=? now)%Z.

Definition Sweep (now : Z) (w : world) : world * nat :=
  (with_requests w (update_rows (where_sweep now) (set_state StateExpired) (w_requests w)),
   length (List.filter (where_sweep now) (w_requests w))).

(** [cancelApprovalsTx] of [internal/connector/tools.go]: a tool whose
    definition changed or that was removed. *)
Definition cancelApprovalsTx (now : Z) (org toolID reason : string) (w : world) : world :=
  with_requests w (update_rows
    (fun r => visible org r && String.eqb (q_ToolID (rw_Asked r)) toolID && (is_state StatePending r || is_state StateApproved r))
    (cancelled now reason) (w_requests w)).

(** Any write of the rules: the requests of a rule that is gone lose its id
    (ON DELETE SET NULL). *)
Definition write_rules (rules : list ApprovalPolicy) (w : world) : world :=
  mkWorld
    (update_rows (fun r => negb (existsb (fun p => String.eqb (ap_ID p) (g_PolicyID (rw_Progress r))) rules))
       (fun g => mkProgress "" (g_State g) (g_ExpiresAt g) (g_DecidedBy g) (g_DecidedAt g) (g_CancelledAt g) (g_ConsumedAt g)
                   (g_Reason g) (g_AcknowledgedAt g) (g_Acknowledgement g)) (w_requests w))
    rules (w_events w).

(** ** Histories *)

Inductive op : Type :=
  | OpCheck (now : Z) (c : CallRef) (newID nonce : string)
  | OpDecide (now : Z) (org id : string) (d : Decision_)
  | OpCancel (now : Z) (org id actor reason : string) (unconfirmedOnly : bool)
  | OpAcknowledge (now : Z) (org id actor note : string)
  | OpSweep (now : Z)
  | OpToolChanged (now : Z) (org toolID reason : string)
  | OpRules (rules : list ApprovalPolicy).

Inductive answer : Type :=
  | RCheck (r : result approval_error Outcome)
  | RRequest (r : result approval_error ApprovalRequest)
  | RCount (n : nat)
  | RDone.

Definition exec (w : world) (o : op) : world * answer :=
  match o with
  | OpCheck now c newID nonce => let '(w, r) := Check_call now c newID nonce w in (w, RCheck r)
  | OpDecide now org id d => let '(w, r) := Decide now org id d w in (w, RRequest r)
  | OpCancel now org id actor reason u => let '(w, r) := cancel now org id actor reason u w in (w, RRequest r)
  | OpAcknowledge now org id actor note => let '(w, r) := Acknowledge now org id actor note w in (w, RRequest r)
  | OpSweep now => let '(w, n) := Sweep now w in (w, RCount n)
  | OpToolChanged now org t reason => (cancelApprovalsTx now org t reason w, RDone)
  | OpRules rules => (write_rules rules w, RDone)
  end.

Definition start : world := mkWorld [] [] [].

(** A history, oldest first, and the world it leads to. *)
Inductive happened : list (op * answer) -> world -> Prop :=
  | hap_start : happened [] start
  | hap_step h w o : happened h w -> happened (h ++ [(o, (exec w o).2)]) (exec w o).1.
End operations.

(** ** How rows move *)

Section moves.
Context `{Sealer} `{Runtime}.

(** What one operation may do to one row.  Every constructor keeps what was
    asked and what was sealed. *)
Inductive transition (o : op) (r : row) : row -> Prop :=
  | tr_same : transition o r r
  | tr_policy p : 
      transition o r (moved (fun g => mkProgress p (g_State g) (g_ExpiresAt g) (g_DecidedBy g) (g_DecidedAt g) (g_CancelledAt g)
        (g_ConsumedAt g) (g_Reason g) (g_AcknowledgedAt g) (g_Acknowledgement g)) r)
  | tr_decide now org id d :
      o = OpDecide now org id d -> de_ActorID d <> "" -> org <> "" ->
      negb (de_Approve d) && String.eqb (TrimSpace (de_Reason d)) "" = false -> where_decide now org id (de_ActorID d) r = true ->
      transition o r (decided_row now d r)
  | tr_consume now c newID nonce id :
      o = OpCheck now c newID nonce -> id = (splitApprovalID (cl_Args c)).1 -> id <> "" ->
      where_claim now (cl_OrgID c) id (cl_ActorID c) r = true -> transition o r (moved (consume now) r)
  | tr_cancel now reason :
      g_State (rw_Progress r) = StatePending \/ g_State (rw_Progress r) = StateApproved ->
      transition o r (moved (cancelled now reason) r)
  | tr_acknowledge now note :
      g_State (rw_Progress r) = StatePending -> transition o r (moved (acknowledged now note) r)
  | tr_expire now :
      g_State (rw_Progress r) = StatePending -> (g_ExpiresAt (rw_Progress r) <= now)%Z ->
      transition o r (moved (set_state StateExpired) r).

Lemma transition_keeps o r r' : transition o r r' -> rw_Asked r' = rw_Asked r /\ rw_Args r' = rw_Args r.
Proof. by destruct 1. Qed.

(** The row a gated call inserts. *)
Definition inserts (o : op) (r : row) : Prop :=
  exists now c nonce policy display args,
    o = OpCheck now c (row_id r) nonce /\ (splitApprovalID (cl_Args c)).1 = "" /\
    cl_OrgID c <> "" /\ cl_ActorID c <> "" /\
    canonical (splitApprovalID (cl_Args c)).2 = Ok args /\
    Seal nonce (cl_OrgID c) args (argsAAD (cl_OrgID c) (row_id r)) = Ok (rw_Args r) /\
    (0 < ttl_seconds (Some policy))%Z /\
    r = new_row now (stripped c) (row_id r) (ap_ID policy) (ap_Name policy) display (ttl_seconds (Some policy)) (rw_Args r).

(** What one operation does to the table: move rows, or insert one. *)
Definition table_step (o : op) (rs rs' : list row) : Prop :=
  Forall2 (transition o) rs rs' \/
  exists r, rs' = rs ++ [r] /\ inserts o r /\ existsb (fun r' => String.eqb (row_id r') (row_id r)) rs = false.

Lemma transitions_same o rs : Forall2 (transition o) rs rs.
Proof. induction rs; constructor; [constructor|done]. Qed.

Lemma step_same o rs : table_step o rs rs.
Proof. left. apply transitions_same. Qed.

Lemma step_map o rs (p : row -> bool) (f : row -> row) :
  (forall r, p r = true -> transition o r (f r)) -> table_step o rs (map (fun r => if p r then f r else r) rs).
Proof.
  intros Hf. left. induction rs as [|r rs IH]; cbn; constructor; [|done]. destruct (p r) eqn:E; [by apply Hf|constructor].
Qed.

Lemma is_state_true s r : is_state s r = true <-> g_State (rw_Progress r) = s.
Proof. unfold is_state. apply bool_decide_eq_true. Qed.

Lemma Tx_cases {A} org rs (body : list row -> list row * result approval_error A) rs' x :
  Tx org rs body = (rs', x) ->
  (rs' = rs /\ exists e, x = Err e) \/ (org <> "" /\ exists a, x = Ok a /\ body rs = (rs', Ok a)).
Proof.
  unfold Tx. destruct (String.eqb_spec org ""); [intros [= <- <-]; left; eauto|].
  destruct (body rs) as [rs1 [a|e]]; intros [= <- <-]; [right; eauto|left; eauto].
Qed.

Lemma raise_step now c policy newID nonce w w' x :
  Raise now (stripped c) (Some policy) newID nonce w = (w', x) -> (splitApprovalID (cl_Args c)).1 = "" ->
  table_step (OpCheck now c newID nonce) (w_requests w) (w_requests w').
Proof.
  unfold Raise. intros Hr Hid. cbn [stripped cl_OrgID cl_ToolID cl_ActorID cl_Args] in Hr.
  destruct (String.eqb_spec (cl_OrgID c) ""); [injection Hr as <- <-; apply step_same|].
  destruct (String.eqb_spec (cl_ToolID c) ""); [injection Hr as <- <-; apply step_same|].
  destruct (String.eqb_spec (cl_ActorID c) ""); [injection Hr as <- <-; apply step_same|].
  destruct (canonical _) as [args|] eqn:Hc; [|injection Hr as <- <-; apply step_same].
  destruct (Seal _ _ _ _) as [sealed|] eqn:Hs; [|injection Hr as <- <-; apply step_same].
  destruct (Tx _ _ _) as [rs [out|e]] eqn:Ht; apply Tx_cases in Ht as [[-> [e' He]]|(_ & a & Ha & Hb)]; try done.
  2: { injection Hr as <- <-. apply step_same. }
  assert (w_requests w' = rs) as -> by (injection Hr as <- _; by destruct (String.eqb _ _)). clear Hr.
  unfold raise_tx in Hb. destruct (sameCall _ _ _ _) as [[[ex|] n']|]; [injection Hb as <- _; apply step_same| |done].
  destruct (maxPendingPerTool <=? n'); [done|]. unfold insert_row in Hb.
  set (nr := new_row _ _ _ _ _ _ _ _) in Hb. destruct (existsb _ _) eqn:Hfresh; [done|].
  destruct (_ && _); [done|]. destruct (Z.leb_spec (q_TTL (rw_Asked nr)) 0); [done|]. injection Hb as <- _.
  right. exists nr. split; [done|]. split; [|exact Hfresh].
  exists now, c, nonce, policy, (if String.eqb (cl_ActorDisplay c) "" then nameOf (cl_ActorKind c) (cl_ActorID c) else cl_ActorDisplay c), args.
  split_and!; done.
Qed.

Lemma claim_step now c newID nonce id w w' x :
  claim now (stripped c) id w = (w', x) -> id = (splitApprovalID (cl_Args c)).1 -> id <> "" ->
  table_step (OpCheck now c newID nonce) (w_requests w) (w_requests w').
Proof.
  unfold claim. intros Hr Hid Hne. destruct (Tx _ _ _) as [rs [[req sealed]|e]] eqn:Ht;
    apply Tx_cases in Ht as [[-> [e' He]]|(_ & a & Ha & Hb)]; try done.
  2: { injection Hr as <- <-. apply step_same. }
  assert (w_requests w' = rs) as ->.
  { destruct (_ =? 0); [injection Hr as <- _; done|]. destruct (open_args _ _ _); by injection Hr as <- _. }
  unfold claim_tx in Hb. destruct (returning _ _ _) as [r0|].
  - injection Hb as <- _. apply step_map. intros r Hw. by eapply tr_consume.
  - destruct (read _ _ _ _); [|done]. injection Hb as <- _. apply step_same.
Qed.

(** Every operation moves rows by transitions, or inserts one. *)
Lemma exec_table_step w o : table_step o (w_requests w) (w_requests (exec w o).1).
Proof.
  destruct o as [now c newID nonce|now org id d|now org id actor reason u|now org id actor note|now|now org t reason|rules]; cbn [exec].
  - unfold Check_call. destruct (String.eqb_spec (splitApprovalID (cl_Args c)).1 "") as [Hid|Hid]; cbn [negb].
    + destruct (Governing w (stripped c)) as [[policy|]|e]; [|apply step_same..].
      destruct (String.eqb (ap_Effect policy) EffectAllow); [apply step_same|].
      destruct (Raise _ _ _ _ _ _) as [w' [req|e]] eqn:Hr; cbn [fst]; by eapply raise_step.
    + destruct (claim _ _ _ _) as [w' x] eqn:Hr. cbn [fst]. by eapply claim_step.
  - unfold Decide. destruct (String.eqb_spec (de_ActorID d) ""); [apply step_same|].
    destruct (_ && _) eqn:Hreason; [apply step_same|]. destruct (Tx _ _ _) as [rs x] eqn:Ht. cbn.
    apply Tx_cases in Ht as [[-> _]|(? & a & _ & Hb)]; [apply step_same|]. unfold decide_tx in Hb.
    destruct (List.find _ _) as [r0|].
    + injection Hb as <- _. apply step_map. intros r Hw. by eapply tr_decide.
    + by destruct (refuseDecision _ _ _ _ _).
  - unfold cancel. destruct (String.eqb_spec actor ""); [apply step_same|].
    destruct (Tx _ _ _) as [rs x] eqn:Ht. cbn. apply Tx_cases in Ht as [[-> _]|(_ & a & _ & Hb)]; [apply step_same|].
    unfold cancel_tx in Hb. destruct (returning _ _ _) as [r0|].
    + injection Hb as <- _. apply step_map. intros r Hw. apply tr_cancel. left. unfold where_cancel in Hw. bool_prop. by apply is_state_true.
    + destruct (read _ _ _ _); [|done]. by repeat case_match.
  - unfold Acknowledge. destruct (String.eqb_spec actor ""); [apply step_same|].
    destruct (Tx _ _ _) as [rs x] eqn:Ht.
    assert (table_step (OpAcknowledge now org id actor note) (w_requests w) rs); [|by destruct x as [[out []]|e]].
    apply Tx_cases in Ht as [[-> _]|(_ & a & _ & Hb)]; [apply step_same|].
    unfold acknowledge_tx in Hb. destruct (returning _ _ _) as [r0|].
    + injection Hb as <- _. apply step_map. intros r Hw. apply tr_acknowledge. unfold where_acknowledge in Hw. bool_prop. by apply is_state_true.
    + destruct (read _ _ _ _); [|done]. destruct (negb _); [done|]. destruct (decide _); [|done]. injection Hb as <- _. apply step_same.
  - apply step_map. intros r Hw. unfold where_sweep in Hw. bool_prop. apply (tr_expire _ _ now); [by apply is_state_true|done].
  - apply step_map. intros r Hw. bool_prop. apply tr_cancel. rewrite <-!is_state_true. done.
  - apply step_map. intros r Hw. constructor.
Qed.
End moves.

Section histories.
Context `{Sealer} `{Runtime}.

(** The state machine: only a pending and an approved request move. *)
Definition next_state (s s' : State) : Prop :=
  s' = s \/
  match s with
  | StatePending => s' ∈ [StateApproved; StateRejected; StateExpired; StateCancelled]
  | StateApproved => s' ∈ [StateConsumed; StateCancelled]
  | _ => False
  end.

Lemma where_decide_true now org id actor r : where_decide now org id actor r = true ->
  q_OrgID (rw_Asked r) = org /\ row_id r = id /\ g_State (rw_Progress r) = StatePending /\
  (now < g_ExpiresAt (rw_Progress r))%Z /\ q_RequestedBy (rw_Asked r) <> actor.
Proof. unfold where_decide, visible. intros Hw. bool_prop. rewrite <-is_state_true. split_and!; auto. Qed.

Lemma where_claim_true now org id actor r : where_claim now org id actor r = true ->
  q_OrgID (rw_Asked r) = org /\ row_id r = id /\ g_State (rw_Progress r) = StateApproved /\
  (now < g_ExpiresAt (rw_Progress r))%Z /\ q_RequestedBy (rw_Asked r) = actor.
Proof. unfold where_claim, visible. intros Hw. bool_prop. rewrite <-is_state_true. split_and!; auto. Qed.

Lemma transition_next o r r' : transition o r r' -> next_state (g_State (rw_Progress r)) (g_State (rw_Progress r')).
Proof.
  unfold next_state. destruct 1 as [| |now org id d Ho Hd Horg Hreason Hw|now c nid nonce id Ho Hi Hn Hw|now reason Hs| |now Hs]; cbn;
    try (by left); right.
  - apply where_decide_true in Hw as (_ & _ & -> & _). rewrite !elem_of_cons. destruct (de_Approve d); auto.
  - apply where_claim_true in Hw as (_ & _ & -> & _). rewrite !elem_of_cons. auto.
  - destruct Hs as [-> | ->]; rewrite !elem_of_cons; auto 6.
  - rewrite Hs, !elem_of_cons. auto.
Qed.

(** A request is never rewritten or deleted: an operation keeps every
    row's identity, asker, tool, time to live and sealed arguments, moves
    its state only along pending to approved, rejected, expired or
    cancelled, and approved to consumed or cancelled, and adds at most one
    row. *)
Theorem requests_only_move_forward w o :
  exists moved new, w_requests (exec w o).1 = moved ++ new /\ length new <= 1 /\
    Forall2 (fun r r' => rw_Asked r' = rw_Asked r /\ rw_Args r' = rw_Args r /\
      next_state (g_State (rw_Progress r)) (g_State (rw_Progress r'))) (w_requests w) moved.
Proof.
  destruct (exec_table_step w o) as [Ht|(r & -> & _)].
  - exists (w_requests (exec w o).1), []. rewrite app_nil_r. split_and!; [done|cbn; lia|].
    eapply Forall2_impl; [exact Ht|]. intros r r' Hr. cbn. pose proof (transition_keeps _ _ _ Hr) as [? ?].
    split_and!; [done|done|by eapply transition_next].
  - exists (w_requests w), [r]. split_and!; [done|cbn; lia|].
    apply Forall2_same_length_lookup. split; [done|]. intros i x y Hx Hy. replace y with x by congruence. split_and!; [done|done|by left].
Qed.

(** The CHECK constraints of the table (00012_approvals.sql). *)
Definition row_checks (r : row) : Prop :=
  let g := rw_Progress r in
  (forall d, g_DecidedBy g = Some d -> d <> q_RequestedBy (rw_Asked r)) /\
  is_none (g_DecidedBy g) = is_none (g_DecidedAt g) /\
  (g_State g ∈ [StateApproved; StateRejected; StateConsumed] -> g_DecidedBy g <> None) /\
  (g_State g = StateCancelled -> g_CancelledAt g <> None) /\
  (g_State g = StateConsumed -> g_ConsumedAt g <> None) /\
  (0 < q_TTL (rw_Asked r))%Z.

Lemma transition_checks o r r' : transition o r r' -> row_checks r -> row_checks r'.
Proof.
  intros Ht (H1 & H2 & H3 & H4 & H5 & H6). destruct (transition_keeps _ _ _ Ht) as [Ha _].
  unfold row_checks. rewrite Ha.
  destruct Ht as [|p|now org id d Ho Hd Horg Hreason Hw|now c nid nonce id Ho Hi Hn Hw|now reason Hs|now note Hs|now Hs]; cbn; [done|done| | | | |].
  - apply where_decide_true in Hw as (_ & _ & _ & _ & Hne). split_and!; try done.
    + intros x [= <-] E. by apply Hne.
    + by destruct (de_Approve d).
    + by destruct (de_Approve d).
  - apply where_claim_true in Hw as (_ & _ & Hs & _). split_and!; try done.
    intros _. apply H3. rewrite Hs. by left.
  - split_and!; try done. rewrite !elem_of_cons, elem_of_nil. intuition discriminate.
  - by split_and!.
  - split_and!; try done. rewrite !elem_of_cons, elem_of_nil. intuition discriminate.
Qed.

Lemma inserts_checks o r : inserts o r -> row_checks r.
Proof.
  intros (now & c & nonce & policy & display & args & _ & _ & _ & _ & _ & _ & Ht & ->). unfold row_checks. cbn.
  split_and!; try done. rewrite !elem_of_cons, elem_of_nil. intuition discriminate.
Qed.

Lemma Forall2_ids o rs rs' : Forall2 (transition o) rs rs' -> map row_id rs' = map row_id rs.
Proof.
  induction 1 as [|r r' rs rs' Ht _ IH]; [done|]. cbn [map]. f_equal; [|done].
  unfold row_id. by rewrite (proj1 (transition_keeps _ _ _ Ht)).
Qed.

Lemma table_step_ids o rs rs' : table_step o rs rs' -> NoDup (map row_id rs) -> NoDup (map row_id rs').
Proof.
  intros [Ht|(r & -> & _ & Hf)] Hn; [by rewrite (Forall2_ids _ _ _ Ht)|].
  rewrite map_app. apply NoDup_app. split_and!; [done| |apply NoDup_singleton].
  intros x (y & -> & Hy)%list_elem_of_fmap [E|Hx]%elem_of_cons; [|by apply not_elem_of_nil in Hx].
  rewrite existsb_false_elem in Hf. specialize (Hf y Hy). apply String.eqb_neq in Hf. by apply Hf.
Qed.

Lemma happened_ids h w : happened h w -> NoDup (map row_id (w_requests w)).
Proof. induction 1 as [|h w o _ IH]; [constructor|]. eapply table_step_ids; [apply exec_table_step|done]. Qed.

(** The code never needs the constraints that guard it: in every
    history every row has its own id and meets every CHECK of the table, so
    nobody's request is decided by its asker, whatever is sent and in
    whatever order. *)
Theorem rows_meet_table_checks h w :
  happened h w -> NoDup (map row_id (w_requests w)) /\ Forall row_checks (w_requests w).
Proof.
  intros Hh. split; [by eapply happened_ids|]. induction Hh as [|h w o _ IH]; [constructor|].
  destruct (exec_table_step w o) as [Ht|(r & -> & Hi & _)].
  - induction Ht as [|r r' rs rs' Hr _ IHt]; [done|]. inversion IH; subst. constructor; [by eapply transition_checks|by apply IHt].
  - apply Forall_app. split; [done|]. constructor; [|done]. by eapply inserts_checks.
Qed.

(** ** Replaying *)

Definition claimed (c : CallRef) : string := (splitApprovalID (cl_Args c)).1.

(** A call that ran under the approval [id]. *)
Definition ran (id : string) (e : op * answer) : Prop :=
  exists now c newID nonce out,
    e = (OpCheck now c newID nonce, RCheck (Ok out)) /\ claimed c = id /\ id <> "" /\ oc_Required out = false.

(** What sealed arguments decode to. *)
Definition decoded (args : string) : option (list (string * value)) :=
  match Unmarshal args with Some (VMap m) => Some m | Some VNil => Some [] | _ => None end.

Lemma find_update_rows p f rs : List.find p rs = None -> update_rows p f rs = rs.
Proof.
  unfold update_rows. induction rs as [|r rs IH]; [done|]. cbn. destruct (p r); [done|]. intros H'. by rewrite IH.
Qed.

(** A call that ran under an approval spent it. *)
Lemma check_ran w now c newID nonce out :
  (exec w (OpCheck now c newID nonce)).2 = RCheck (Ok out) -> claimed c <> "" -> oc_Required out = false ->
  exists r, r ∈ w_requests w /\ where_claim now (cl_OrgID c) (claimed c) (cl_ActorID c) r = true /\
    open_args (cl_OrgID c) (claimed c) (rw_Args r) = Ok (oc_Args out) /\
    w_requests (exec w (OpCheck now c newID nonce)).1
      = update_rows (where_claim now (cl_OrgID c) (claimed c) (cl_ActorID c)) (consume now) (w_requests w).
Proof.
  cbn [exec]. unfold Check_call. fold (claimed c). intros Ha Hne Hreq.
  destruct (String.eqb_spec (claimed c) ""); [done|]. cbn [negb] in *.
  destruct (claim now (stripped c) (claimed c) w) as [w' x] eqn:Hc. cbn in Ha |- *. injection Ha as ->.
  unfold claim in Hc. cbn [stripped cl_OrgID cl_ActorID] in Hc.
  destruct (Tx _ _ _) as [rs [[req sealed]|e]] eqn:Ht; [|done].
  apply Tx_cases in Ht as [[_ [e' He]]|(_ & a & [= <-] & Hb)]; [done|].
  unfold claim_tx, returning in Hb. destruct (List.find _ _) as [r|] eqn:Hf; cbn in Hb.
  - injection Hb as <- <- <-. apply find_some in Hf as [Hin Hw]. exists r.
    split_and!; [by apply list_elem_of_In|done| |].
    + destruct (_ =? 0); [by injection Hc as <- <-|]. destruct (open_args _ _ _); [|done]. by injection Hc as <- <-.
    + destruct (_ =? 0); [by injection Hc as <- <-|]. destruct (open_args _ _ _); [|done]. by injection Hc as <- <-.
  - destruct (read _ _ _ _); [|done]. injection Hb as <- <- <-. cbn in Hc. by injection Hc as <- <-.
Qed.

(** The answer to a gated call that inserted its request. *)
Lemma insert_answered w o r :
  w_requests (exec w o).1 = w_requests w ++ [r] -> inserts o r ->
  exists now c nonce out q, o = OpCheck now c (row_id r) nonce /\ (exec w o).2 = RCheck (Ok out) /\
    oc_Required out = true /\ oc_Request out = Some q /\ ar_Asked q = rw_Asked r.
Proof.
  intros Hw (now & c & nonce & policy & display & args & -> & Hid & _ & _ & _ & _ & _ & Hr).
  exists now, c, nonce. cbn [exec] in *. unfold Check_call in *. rewrite Hid in *. cbn [String.eqb negb] in *.
  assert (Hno : forall rs : list row, rs = rs ++ [r] -> False).
  { intros rs E. apply (f_equal length) in E. rewrite length_app in E. cbn in E. lia. }
  destruct (Governing w (stripped c)) as [[p|]|e]; cbn in Hw; [|by apply Hno in Hw..].
  destruct (String.eqb (ap_Effect p) EffectAllow); [by apply Hno in Hw|].
  destruct (Raise _ _ _ _ _ _) as [w' [req|e]] eqn:HR; cbn in Hw |- *.
  - exists (waiting req), req. split_and!; try done.
    unfold Raise in HR. repeat (destruct (String.eqb _ ""); [done|]). destruct (canonical _) as [b|]; [|done].
    destruct (Seal _ _ _ _) as [sealed|]; [|done]. destruct (Tx _ _ _) as [rs [out|e]] eqn:Ht; [|done].
    apply Tx_cases in Ht as [[_ [e' He]]|(_ & a & [= <-] & Hb)]; [done|].
    assert (Hrs : w_requests w' = rs) by (injection HR as <- _; by destruct (String.eqb _ _)).
    assert (req = out) as -> by congruence. rewrite Hrs in Hw. unfold raise_tx in Hb.
    destruct (sameCall _ _ _ _) as [[[ex|] k]|]; [|destruct (maxPendingPerTool <=? k); [done|]|done].
    + injection Hb as <- _. by apply Hno in Hw.
    + unfold insert_row in Hb. destruct (existsb _ _); [done|]. destruct (_ && _); [done|]. destruct (_ <=? 0)%Z; [done|].
      injection Hb as <- <-. apply app_inv_head in Hw. by injection Hw as <-.
  - exfalso. unfold Raise in HR. repeat (destruct (String.eqb _ ""); [injection HR as <- _; by apply Hno in Hw|]).
    destruct (canonical _) as [b|]; [|injection HR as <- _; by apply Hno in Hw].
    destruct (Seal _ _ _ _) as [sealed|]; [|injection HR as <- _; by apply Hno in Hw].
    destruct (Tx _ _ _) as [rs [out|e1]] eqn:Ht; [done|]. injection HR as <- _. cbn in Hw.
    apply Tx_cases in Ht as [[-> _]|(_ & a & Ha & _)]; [by apply Hno in Hw|done].
Qed.

(** *** What a history shows of a row *)

Definition raised_at (h : list (op * answer)) (j : nat) (r : row) : Prop :=
  exists now c nonce args out q,
    h !! j = Some (OpCheck now c (row_id r) nonce, RCheck (Ok out)) /\ claimed c = "" /\
    oc_Required out = true /\ oc_Request out = Some q /\ ar_Asked q = rw_Asked r /\
    cl_OrgID c = q_OrgID (rw_Asked r) /\ cl_ActorID c = q_RequestedBy (rw_Asked r) /\
    canonical (splitApprovalID (cl_Args c)).2 = Ok args /\
    Unseal (cl_OrgID c) (rw_Args r) (argsAAD (cl_OrgID c) (row_id r)) = Ok args.

Definition approved_at (h : list (op * answer)) (k : nat) (r : row) : Prop :=
  exists now d q,
    h !! k = Some (OpDecide now (q_OrgID (rw_Asked r)) (row_id r) d, RRequest (Ok q)) /\ ar_Asked q = rw_Asked r /\
    de_Approve d = true /\ de_ActorID d <> q_RequestedBy (rw_Asked r) /\
    g_ExpiresAt (rw_Progress r) = (now + seconds (q_TTL (rw_Asked r)))%Z.

Definition row_told (h : list (op * answer)) (r : row) : Prop :=
  exists j, raised_at h j r /\
    (g_State (rw_Progress r) ∈ [StateApproved; StateConsumed] -> exists k, j < k /\ approved_at h k r).

Lemma row_told_snoc h e r : row_told h r -> row_told (h ++ [e]) r.
Proof.
  intros (j & (now & c & nonce & args & out & q & Hj & Hr) & Hk). exists j. split.
  - exists now, c, nonce, args, out, q. split; [by apply lookup_app_l_Some|done].
  - intros Hs. destruct (Hk Hs) as (k & Hlt & now' & d & q' & Hk' & Hd). exists k. split; [done|].
    exists now', d, q'. split; [by apply lookup_app_l_Some|done].
Qed.

Lemma find_unique rs (p : row -> bool) r :
  NoDup (map row_id rs) -> r ∈ rs -> p r = true -> (forall r', p r' = true -> row_id r' = row_id r) -> List.find p rs = Some r.
Proof.
  induction rs as [|x rs IH]; intros Hn Hin Hp Hu; [by apply not_elem_of_nil in Hin|]. cbn. cbn in Hn. inversion Hn as [|? ? Hx Hn']; subst.
  destruct (p x) eqn:E.
  - apply elem_of_cons in Hin as [->|Hin]; [done|]. exfalso. apply Hx. rewrite (Hu x E). by apply list_elem_of_fmap_2.
  - apply elem_of_cons in Hin as [->|Hin]; [congruence|]. by apply IH.
Qed.

(** An approval that went through was answered as such. *)
Lemma decide_answered w now org id d r :
  NoDup (map row_id (w_requests w)) -> r ∈ w_requests w -> where_decide now org id (de_ActorID d) r = true ->
  de_ActorID d <> "" -> org <> "" -> negb (de_Approve d) && String.eqb (TrimSpace (de_Reason d)) "" = false ->
  exists q, (exec w (OpDecide now org id d)).2 = RRequest (Ok q) /\ ar_Asked q = rw_Asked r.
Proof.
  intros Hn Hin Hw Hd Ho Hr. cbn [exec]. unfold Decide, Tx. rewrite (proj2 (String.eqb_neq _ _) Hd), Hr, (proj2 (String.eqb_neq _ _) Ho).
  unfold decide_tx. rewrite (find_unique _ _ r Hn Hin Hw).
  - eexists. split; [done|]. done.
  - intros r' Hw'. apply where_decide_true in Hw as (_ & -> & _), Hw' as (_ & -> & _). done.
Qed.

Lemma approved_at_snoc h e k r r' :
  approved_at h k r -> rw_Asked r' = rw_Asked r -> g_ExpiresAt (rw_Progress r') = g_ExpiresAt (rw_Progress r) ->
  approved_at (h ++ [e]) k r'.
Proof.
  intros (now & d & q & Hk & Hq & Hd & Hne & He) Ha Hx. exists now, d, q. unfold row_id. rewrite Ha, Hx.
  split_and!; [by apply lookup_app_l_Some|done..].
Qed.

Lemma raised_at_snoc h e j r r' :
  raised_at h j r -> rw_Asked r' = rw_Asked r -> rw_Args r' = rw_Args r -> raised_at (h ++ [e]) j r'.
Proof.
  intros (now & c & nonce & args & out & q & Hj & Hr) Ha Hx. exists now, c, nonce, args, out, q. unfold row_id. rewrite Ha, Hx.
  split; [by apply lookup_app_l_Some|done].
Qed.

Lemma raised_at_lt h j r : raised_at h j r -> j < length h.
Proof. intros (now & c & nonce & args & out & q & Hj & _). by apply lookup_lt_Some in Hj. Qed.

Lemma transition_told h w o r r' :
  NoDup (map row_id (w_requests w)) -> r ∈ w_requests w -> row_told h r -> transition o r r' ->
  row_told (h ++ [(o, (exec w o).2)]) r'.
Proof.
  intros Hn Hin (j & Hj & Hk) Htr. destruct (transition_keeps _ _ _ Htr) as [Ha Hx]. exists j.
  split; [by eapply raised_at_snoc|]. intros Hs.
  assert (Hold : g_State (rw_Progress r) ∈ [StateApproved; StateConsumed] ->
    g_ExpiresAt (rw_Progress r') = g_ExpiresAt (rw_Progress r) ->
    exists k, j < k /\ approved_at (h ++ [(o, (exec w o).2)]) k r').
  { intros Hst He. destruct (Hk Hst) as (k & Hlt & Happ). exists k. split; [done|]. by eapply approved_at_snoc. }
  destruct Htr as [|p|now org id d -> Hd Horg Hreason Hw|now c nid nonce id -> Hi Hne Hw|now reason Hst|now note Hst|now Hst];
    cbn in Hs, Hold; try (by apply Hold).
  - destruct (de_Approve d) eqn:Hap; [|by rewrite !elem_of_cons, elem_of_nil in Hs; intuition discriminate].
    exists (length h). split; [by eapply raised_at_lt|].
    destruct (decide_answered w now org id d r Hn Hin Hw Hd Horg ltac:(by rewrite Hap)) as (q & Hq & Hask).
    apply where_decide_true in Hw as (Ho & Hid & _ & _ & Hby). exists now, d, q.
    rewrite Hq, list_lookup_middle by done. cbn. change (row_id (decided_row now d r)) with (row_id r). rewrite Ho, Hid, Hap.
    split_and!; auto.
  - apply where_claim_true in Hw as (_ & _ & Hst & _). apply Hold; [|done]. rewrite Hst. by left.
  - rewrite !elem_of_cons, elem_of_nil in Hs; intuition discriminate.
  - rewrite !elem_of_cons, elem_of_nil in Hs; intuition discriminate.
Qed.

Lemma happened_told h w : happened h w -> Forall (row_told h) (w_requests w).
Proof.
  induction 1 as [|h w o Hh IH]; [constructor|]. pose proof (happened_ids _ _ Hh) as Hn. rewrite Forall_forall in IH.
  destruct (exec_table_step w o) as [Ht|(r & Hrs & Hi & _)].
  - apply Forall_forall. intros r' Hr'. apply list_elem_of_lookup in Hr' as [i Hr'].
    destruct (Forall2_lookup_r _ _ _ _ _ Ht Hr') as (r & Hr & Htr). apply list_elem_of_lookup_2 in Hr. by eapply transition_told; eauto.
  - rewrite Hrs. apply Forall_app. split; [apply Forall_forall; intros r' Hr'; apply row_told_snoc; by apply IH|].
    constructor; [|done]. destruct (insert_answered w o r Hrs Hi) as (now & c & nonce & out & q & -> & Ha & Hreq & Hq & Hask).
    destruct Hi as (now' & c' & nonce' & policy & display & args & [= <- <- <-] & Hid & _ & _ & Hc & Hs & _ & Hr).
    exists (length h). split; [|rewrite Hr; cbn; rewrite !elem_of_cons, elem_of_nil; intuition discriminate].
    exists now, c, nonce, args, out, q. rewrite Ha, list_lookup_middle by done.
    assert (q_OrgID (rw_Asked r) = cl_OrgID c /\ q_RequestedBy (rw_Asked r) = cl_ActorID c) as [-> ->] by (by rewrite Hr).
    split_and!; try done. by eapply Unseal_Seal.
Qed.

(** What a run under an approval rests on. *)
Definition answered_for (h : list (op * answer)) (i : nat) (now : Z) (c : CallRef) (out : Outcome) : Prop :=
  exists j k now0 c0 nonce0 out0 args nowd d q,
    j < k < i /\
    h !! j = Some (OpCheck now0 c0 (claimed c) nonce0, RCheck (Ok out0)) /\ oc_Required out0 = true /\
    cl_OrgID c0 = cl_OrgID c /\ cl_ActorID c0 = cl_ActorID c /\
    canonical (splitApprovalID (cl_Args c0)).2 = Ok args /\ decoded args = Some (oc_Args out) /\
    h !! k = Some (OpDecide nowd (cl_OrgID c) (claimed c) d, RRequest (Ok q)) /\
    de_Approve d = true /\ de_ActorID d <> cl_ActorID c /\ (now < nowd + seconds (q_TTL (ar_Asked q)))%Z.

(** Every run spent a row, which stays spent. *)
Lemma ran_consumed h w i e id :
  happened h w -> h !! i = Some e -> ran id e -> exists r, r ∈ w_requests w /\ row_id r = id /\ g_State (rw_Progress r) = StateConsumed.
Proof.
  intros Hh. revert i e; induction Hh as [|h w o Hh IH]; intros i e Hi Hran; [by rewrite lookup_nil in Hi|].
  apply lookup_snoc_Some in Hi as [[Hlt Hi]|[-> <-]].
  - destruct (IH i e Hi Hran) as (r & Hr & Hid & Hs).
    destruct (exec_table_step w o) as [Ht|(r1 & -> & _)]; [|exists r; rewrite elem_of_app; auto].
    apply list_elem_of_lookup in Hr as [n Hr]. destruct (Forall2_lookup_l _ _ _ _ _ Ht Hr) as (r' & Hr' & Htr).
    exists r'. split; [by eapply list_elem_of_lookup_2|]. unfold row_id. rewrite (proj1 (transition_keeps _ _ _ Htr)). split; [done|].
    apply transition_next in Htr as [->|Hn]; [done|]. by rewrite Hs in Hn.
  - destruct Hran as (now & c & nid & nonce & out & [= -> Ha] & Hid & Hne & Hreq). rewrite <-Hid in Hne.
    destruct (check_ran w now c nid nonce out Ha Hne Hreq) as (r & Hr & Hw & _ & Hrs). rewrite Hrs.
    exists (moved (consume now) r). apply where_claim_true in Hw as Hw'. destruct Hw' as (_ & Hid' & _). split_and!; [|by rewrite <-Hid|done].
    unfold update_rows. apply list_elem_of_fmap. exists r. by rewrite Hw.
Qed.

Lemma same_row rs r r' : NoDup (map row_id rs) -> r ∈ rs -> r' ∈ rs -> row_id r = row_id r' -> r = r'.
Proof.
  intros Hn (i & Hi)%list_elem_of_lookup (j & Hj)%list_elem_of_lookup E.
  assert (i = j); [|congruence]. eapply (NoDup_lookup (map row_id rs)); [done|by rewrite list_lookup_fmap, Hi|].
  rewrite list_lookup_fmap, Hj. cbn. by rewrite E.
Qed.

(** C1. An approval is good for one call of its asker.  In every history, a
    call that runs under an approval was asked for earlier by the same caller
    in the same organisation; someone else approved exactly that request
    after it was raised; the approval has not lapsed; what runs are the
    arguments of the call that was held, whatever the replay sent; and no
    other call ever ran under it. *)
Theorem approval_runs_once h w i now c newID nonce out :
  happened h w -> h !! i = Some (OpCheck now c newID nonce, RCheck (Ok out)) ->
  claimed c <> "" -> oc_Required out = false ->
  answered_for h i now c out /\ (forall i' e, h !! i' = Some e -> ran (claimed c) e -> i' = i).
Proof.
  intros Hh Hi Hne Hreq. revert i Hi; induction Hh as [|h w o Hh IH]; intros i Hi; [by rewrite lookup_nil in Hi|].
  pose proof (happened_ids _ _ Hh) as Hn.
  apply lookup_snoc_Some in Hi as [[Hlt Hi]|[-> Heq]].
  - destruct (IH i Hi) as [(j & k & now0 & c0 & nonce0 & out0 & args & nowd & d & q & Hjk & Hj & Ho & Hc & Ha & Hcan & Hdec & Hk & Hd) Honce].
    split.
    { exists j, k, now0, c0, nonce0, out0, args, nowd, d, q. destruct Hd as (Hd1 & Hd2 & Hd3).
      split_and!; try assumption; try lia; by apply lookup_app_l_Some. }
    intros i' e Hi' Hran. apply lookup_snoc_Some in Hi' as [[_ Hi']|[-> <-]]; [by eapply Honce|]. exfalso.
    destruct Hran as (now1 & c1 & nid & nonce1 & out1 & [= -> Ha1] & Hid & Hne1 & Hreq1). rewrite <-Hid in Hne1.
    destruct (check_ran w now1 c1 nid nonce1 out1 Ha1 Hne1 Hreq1) as (r & Hr & Hw & _).
    apply where_claim_true in Hw as (_ & Hrid & Hst & _).
    destruct (ran_consumed h w i _ (claimed c) Hh Hi) as (r' & Hr' & Hrid' & Hst').
    { by exists now, c, newID, nonce, out. }
    assert (r = r') by (eapply same_row; eauto; congruence). congruence.
  - injection Heq as -> Ha. symmetry in Ha.
    assert (Hx : (exec w (OpCheck now c newID nonce)).2 = RCheck (Ok out)) by done.
    destruct (check_ran w now c newID nonce out Hx Hne Hreq) as (r & Hr & Hw & Hopen & _).
    apply where_claim_true in Hw as (Horg & Hrid & Hst & Hexp & Hby).
    pose proof (happened_told _ _ Hh) as Htold. rewrite Forall_forall in Htold.
    destruct (Htold r Hr) as (j & (now0 & c0 & nonce0 & args & out0 & q0 & Hj & _ & Ho0 & _ & _ & Hc0 & Ha0 & Hcan & Hun) & Hk).
    destruct (Hk ltac:(rewrite Hst; by left)) as (k & Hjk & nowd & d & q & Hkk & Hq & Hap & Hne' & He).
    split.
    + exists j, k, now0, c0, nonce0, out0, args, nowd, d, q. rewrite Hrid in *. rewrite Horg, Hby in *. rewrite Hc0 in *.
      apply lookup_lt_Some in Hkk as Hkl. split_and!; try done; try (by apply lookup_app_l_Some).
      * unfold open_args in Hopen. rewrite Hun in Hopen. unfold decoded. destruct (Unmarshal args) as [[]|]; try done; by injection Hopen as ->.
      * rewrite Hq, <-He. done.
    + intros i' e Hi' Hran. apply lookup_snoc_Some in Hi' as [[Hl Hi']|[-> _]]; [|done]. exfalso.
      destruct (ran_consumed h w i' e (claimed c) Hh Hi' Hran) as (r' & Hr' & Hrid' & Hst').
      assert (r = r') by (eapply same_row; eauto; congruence). congruence.
Qed.
End histories.

(** ** Each operation's answer *)

Section answers.
Context `{Sealer} `{Runtime}.

Lemma with_requests_same w : with_requests w (w_requests w) = w.
Proof. by destruct w. Qed.

Lemma find_row_some org id rs r : find_row org id rs = Some r -> r ∈ rs /\ q_OrgID (rw_Asked r) = org /\ row_id r = id.
Proof.
  unfold find_row, visible. intros [Hin Hp]%find_some. bool_prop. split; [by apply list_elem_of_In|done].
Qed.

Lemma find_row_unique org id rs r :
  NoDup (map row_id rs) -> r ∈ rs -> q_OrgID (rw_Asked r) = org -> row_id r = id -> find_row org id rs = Some r.
Proof.
  intros Hn Hin <- <-. apply find_unique; [done|done| |].
  - unfold visible. by rewrite !String.eqb_refl.
  - unfold visible. intros r' Hr'. by bool_prop.
Qed.

Lemma where_decide_iff now org id actor r :
  q_OrgID (rw_Asked r) = org -> row_id r = id ->
  where_decide now org id actor r = true <->
  effectiveState now (rw_Progress r) = StatePending /\ q_RequestedBy (rw_Asked r) <> actor.
Proof.
  intros <- <-. unfold where_decide, visible, effectiveState, is_state. rewrite !String.eqb_refl. cbn [andb].
  rewrite !andb_true_iff, negb_true_iff, String.eqb_neq, bool_decide_eq_true, Z.ltb_lt.
  destruct (decide (g_State (rw_Progress r) = StatePending)) as [E|E]; [|tauto].
  destruct (Z.leb_spec (g_ExpiresAt (rw_Progress r)) now); split; intros; destruct_and?; split_and?; try done; lia.
Qed.

(** What a decision answers, on every branch: an unknown request, one's
    own, one already lapsed and one already answered are told apart in that
    order and change nothing; any other pending request takes the answer. *)
Theorem Decide_answers now org id d w :
  NoDup (map row_id (w_requests w)) -> org <> "" -> de_ActorID d <> "" ->
  negb (de_Approve d) && String.eqb (TrimSpace (de_Reason d)) "" = false ->
  Decide now org id d w =
    match find_row org id (w_requests w) with
    | None => (w, Err ErrApprovalNotFound)
    | Some r =>
        if String.eqb (q_RequestedBy (rw_Asked r)) (de_ActorID d) then (w, Err ErrSelfDecision)
        else match effectiveState now (rw_Progress r) with
        | StatePending =>
            (with_requests w (map (fun r' => if String.eqb (row_id r') id then decided_row now d r' else r') (w_requests w)),
             Ok (scanRequest now (decided_row now d r)))
        | StateExpired => (w, Err ErrRequestExpired)
        | _ => (w, Err ErrAlreadyDecided)
        end
    end.
Proof.
  intros Hn Ho Ha Hr. unfold Decide, Tx.
  rewrite (proj2 (String.eqb_neq _ _) Ha), Hr, (proj2 (String.eqb_neq _ _) Ho). unfold decide_tx.
  destruct (List.find (where_decide _ _ _ _) _) as [r|] eqn:Hf.
  - apply find_some in Hf as [Hin Hw]. apply list_elem_of_In in Hin.
    pose proof (where_decide_true _ _ _ _ _ Hw) as (Horg & Hid & _ & _ & Hby).
    rewrite (find_row_unique org id _ r) by done. apply where_decide_iff in Hw as [Hs _]; [|done|done].
    rewrite (proj2 (String.eqb_neq _ _) Hby), Hs. f_equal. f_equal. apply map_ext_in. intros r' Hr'. apply list_elem_of_In in Hr'.
    destruct (String.eqb_spec (row_id r') id) as [E|E].
    + replace r' with r by (eapply same_row; eauto; congruence). by rewrite (proj2 (where_decide_iff now org id (de_ActorID d) r Horg Hid)).
    + destruct (where_decide _ _ _ _ r') eqn:Hw'; [|done]. by apply where_decide_true in Hw' as (_ & ? & _).
  - unfold refuseDecision, read. destruct (find_row org id (w_requests w)) as [r|] eqn:Hr0; [|by rewrite with_requests_same].
    apply find_row_some in Hr0 as (Hin & Horg & Hid). apply list_elem_of_In in Hin. pose proof (find_none _ _ Hf r Hin) as Hw.
    cbn [scanRequest ar_Asked ar_Progress set_state g_State].
    destruct (String.eqb_spec (q_RequestedBy (rw_Asked r)) (de_ActorID d)) as [E|E]; [by rewrite with_requests_same|].
    assert (effectiveState now (rw_Progress r) <> StatePending).
    { intros Hs. rewrite (proj2 (where_decide_iff now org id (de_ActorID d) r Horg Hid)) in Hw; done. }
    destruct (effectiveState now (rw_Progress r)); [congruence|..];
      destruct (decide _); try done; cbn; by rewrite with_requests_same.
Qed.

(** A lapsed request is not closed.  A reader is told it expired, and a
    decider too, but the statement by which the refusal settles it is rolled
    back with the refusal: the row stays pending, and until a sweep its
    asker may still withdraw it, turning an expired request into a
    cancelled one. *)
Theorem lapsed_request_is_not_settled now org r d w reason :
  NoDup (map row_id (w_requests w)) -> r ∈ w_requests w -> org <> "" -> q_OrgID (rw_Asked r) = org ->
  g_State (rw_Progress r) = StatePending -> (g_ExpiresAt (rw_Progress r) <= now)%Z ->
  de_ActorID d <> "" -> de_ActorID d <> q_RequestedBy (rw_Asked r) -> q_RequestedBy (rw_Asked r) <> "" ->
  negb (de_Approve d) && String.eqb (TrimSpace (de_Reason d)) "" = false ->
  (exists q, Get_request now org (row_id r) w = Ok q /\ g_State (ar_Progress q) = StateExpired) /\
  Decide now org (row_id r) d w = (w, Err ErrRequestExpired) /\
  exists q, (Cancel now org (row_id r) (q_RequestedBy (rw_Asked r)) reason w).2 = Ok q /\ g_State (ar_Progress q) = StateCancelled.
Proof.
  intros Hn Hin Ho Horg Hs He Hd Hne Hby Hr.
  assert (Hrow : find_row org (row_id r) (w_requests w) = Some r) by by apply find_row_unique.
  assert (Heff : effectiveState now (rw_Progress r) = StateExpired).
  { unfold effectiveState. rewrite decide_True by done. by rewrite (proj2 (Z.leb_le _ _) He). }
  split_and!.
  - unfold Get_request, read. rewrite (proj2 (String.eqb_neq _ _) Ho), Hrow. eexists. by split.
  - unfold Decide, Tx. rewrite (proj2 (String.eqb_neq _ _) Hd), Hr, (proj2 (String.eqb_neq _ _) Ho). unfold decide_tx.
    destruct (List.find _ _) as [r'|] eqn:Hf.
    { apply find_some in Hf as [Hin' Hw]. apply list_elem_of_In in Hin'.
      apply where_decide_true in Hw as (_ & Hid & _ & Hlt & _).
      assert (r' = r) as -> by (eapply same_row; eauto). lia. }
    unfold refuseDecision, read. rewrite Hrow. cbn [scanRequest ar_Asked ar_Progress set_state g_State].
    rewrite (proj2 (String.eqb_neq _ _)) by (by apply not_eq_sym). rewrite Heff, decide_True by done. cbn. by rewrite with_requests_same.
  - unfold Cancel, cancel, Tx. rewrite (proj2 (String.eqb_neq _ _) Hby), (proj2 (String.eqb_neq _ _) Ho). unfold cancel_tx, returning.
    rewrite (find_unique _ _ r Hn Hin).
    + cbn. eexists. split; [done|]. done.
    + unfold where_cancel, visible. rewrite Horg, !String.eqb_refl, (proj2 (is_state_true _ _) Hs). done.
    + unfold where_cancel. intros r' Hr'. by bool_prop.
Qed.

(** A replay does not look at the tool.  Two calls of one caller that
    name the same request get the same answer whatever tool, connector and
    server each is for; so an approval given for one tool runs another with
    the arguments that were approved, and no rule about the other tool is
    asked. *)
Theorem replay_ignores_the_tool w now c c' newID nonce :
  claimed c <> "" -> cl_OrgID c' = cl_OrgID c -> cl_ActorID c' = cl_ActorID c -> cl_Args c' = cl_Args c ->
  exec w (OpCheck now c' newID nonce) = exec w (OpCheck now c newID nonce).
Proof.
  intros Hne Ho Ha Hg. cbn [exec]. unfold Check_call. rewrite Hg. fold (claimed c).
  destruct (String.eqb_spec (claimed c) ""); [done|]. cbn [negb]. unfold claim. cbn [stripped cl_OrgID cl_ActorID]. by rewrite Ho, Ha.
Qed.

Lemma find_same_some now c args found q : find_same now c args found = Ok (Some q) ->
  exists r prev, r ∈ found /\ q = scanRequest now r /\ open_args (cl_OrgID c) (row_id r) (rw_Args r) = Ok prev /\ canonical prev = Ok args.
Proof.
  induction found as [|r found IH]; [done|]. cbn [find_same].
  destruct (open_args _ _ _) as [prev|] eqn:Hop; [|done]. cbn. destruct (canonical prev) as [same|] eqn:Hc; [|done]. cbn.
  destruct (String.eqb_spec same args) as [->|].
  - intros [= <-]. exists r, prev. split_and!; [by left|done..].
  - intros (r' & prev' & Hin & Hr)%IH. exists r', prev'. split; [by right|done].
Qed.

Lemma elem_of_candidates now c rs r : r ∈ candidates now c rs -> r ∈ rs /\ where_same_call now c r = true.
Proof.
  unfold candidates. intros Hr. apply elem_of_take in Hr as (i & Hr & _). apply list_elem_of_lookup_2 in Hr.
  rewrite merge_sort_Permutation, list_elem_of_In, filter_In, <-list_elem_of_In in Hr. done.
Qed.

(** C36. What [Check] does with a call that names no request.  It lets the
    call run exactly when no rule governs it or the governing rule exempts
    it, with the caller's arguments less the approval argument and nothing
    recorded.  A held call answers with a request of the same caller, tool
    and organisation for the same arguments: one that is open or whose
    refusal stands, or the one it has just recorded, sealed. *)
Theorem Check_gates now c newID nonce w w' out :
  claimed c = "" -> Check_call now c newID nonce w = (w', Ok out) ->
  let rules := List.filter (fun p => String.eqb (ap_OrgID p) (cl_OrgID c)) (w_rules w) in
  (oc_Required out = false <-> match rule_governing rules (stripped c) with Some p => ap_Effect p = EffectAllow | None => True end) /\
  (oc_Required out = false -> w' = w /\ oc_Args out = (splitApprovalID (cl_Args c)).2 /\ oc_Request out = None) /\
  (oc_Required out = true -> exists r args, oc_Request out = Some (scanRequest now r) /\ r ∈ w_requests w' /\
     q_OrgID (rw_Asked r) = cl_OrgID c /\ q_RequestedBy (rw_Asked r) = cl_ActorID c /\ q_ToolID (rw_Asked r) = cl_ToolID c /\
     canonical (splitApprovalID (cl_Args c)).2 = Ok args /\
     ((w_requests w' = w_requests w /\ exists prev, open_args (cl_OrgID c) (row_id r) (rw_Args r) = Ok prev /\ canonical prev = Ok args /\
         (g_State (rw_Progress r) = StatePending \/ g_State (rw_Progress r) = StateRejected)) \/
      (w_requests w' = w_requests w ++ [r] /\ g_State (rw_Progress r) = StatePending /\
         Unseal (cl_OrgID c) (rw_Args r) (argsAAD (cl_OrgID c) (row_id r)) = Ok args))).
Proof.
  intros Hid Hck rules. unfold Check_call in Hck. fold (claimed c) in Hck. rewrite Hid in Hck. cbn [String.eqb negb] in Hck.
  unfold Governing in Hck. cbn [stripped cl_OrgID] in Hck. fold rules in Hck.
  destruct (String.eqb (cl_OrgID c) "") eqn:Ho; [done|].
  change (mkCall (cl_OrgID c) _ _ _ _ _ _ _ _ _) with (stripped c) in Hck.
  destruct (rule_governing rules (stripped c)) as [p|]; [|injection Hck as <- <-; by split_and!].
  destruct (String.eqb_spec (ap_Effect p) EffectAllow) as [E|E]; [injection Hck as <- <-; by split_and!|].
  destruct (Raise _ _ _ _ _ _) as [w1 [req|e]] eqn:HR; [|done]. injection Hck as <- <-.
  split_and!; [by split; cbn; [|intros ?; congruence]|done|]. intros _.
  unfold Raise in HR. cbn [stripped cl_OrgID cl_ToolID cl_ActorID cl_Args] in HR. rewrite Ho in HR.
  repeat (destruct (String.eqb _ "") in HR; [done|]).
  destruct (canonical _) as [args|] eqn:Hc; [|done].
  destruct (Seal _ _ _ _) as [sealed|] eqn:Hs; [|done]. destruct (Tx _ _ _) as [rs [out|e]] eqn:Ht; [|done].
  apply Tx_cases in Ht as [[_ [e' He]]|(_ & a & [= <-] & Hb)]; [done|].
  assert (req = out) as -> by congruence. unfold raise_tx in Hb.
  destruct (sameCall _ _ _ _) as [[[ex|] k]|] eqn:Hsame; [| |done].
  - injection Hb as <- <-. unfold sameCall in Hsame. destruct (find_same _ _ _ _) as [[q|]|] eqn:Hfs; try done. cbn in Hsame.
    injection Hsame as -> _. apply find_same_some in Hfs as (r & prev & Hin & -> & Hop & Hcan).
    apply elem_of_candidates in Hin as [Hin Hw]. unfold where_same_call, visible in Hw. cbn [stripped cl_OrgID cl_ToolID cl_ActorID] in Hw, Hop.
    apply andb_true_iff in Hw as [Hw Hst]. bool_prop.
    assert (Hw1 : w_requests w1 = w_requests w) by (injection HR as <-; by destruct (String.eqb _ newID)).
    exists r, args. rewrite Hw1. split_and!; try done. left. split; [done|]. exists prev. split_and!; [done..|].
    destruct Hst as [Hst|Hst]; bool_prop; rewrite <-!is_state_true; auto.
  - destruct (maxPendingPerTool <=? k); [done|]. unfold insert_row in Hb. destruct (existsb _ _); [done|].
    destruct (_ && _); [done|]. destruct (_ <=? 0)%Z; [done|]. injection Hb as <- <-.
    assert (Hw1 : w_requests w1 = w_requests w ++ [new_row now (stripped c) newID (ap_ID p) (ap_Name p)
      (if String.eqb (cl_ActorDisplay (stripped c)) "" then nameOf (cl_ActorKind (stripped c)) (cl_ActorID (stripped c)) else cl_ActorDisplay (stripped c))
      (ttl_seconds (Some p)) sealed]) by (injection HR as <-; by destruct (String.eqb _ newID)).
    eexists _, args. split; [done|]. rewrite Hw1. split; [apply elem_of_app; right; by left|].
    split_and!; try done. right. split_and!; [done..|]. by eapply Unseal_Seal.
Qed.
End answers.

(** ** On a concrete workspace *)

(** A sealer that marks what it sealed, and arguments of at most one string. *)
Definition demo_seal (nonce org p : string) (aad : AAD) : result string string := Ok ("!" +:+ p).

Definition demo_unseal (org c : string) (aad : AAD) : result string string :=
  match c with String _ p => Ok p | "" => Err "empty" end.

Lemma demo_seal_nonempty nonce org p aad c : demo_seal nonce org p aad = Ok c -> String.length c <> 0.
Proof. by intros [= <-]. Qed.

Lemma demo_unseal_seal nonce org p aad c : demo_seal nonce org p aad = Ok c -> demo_unseal org c aad = Ok p.
Proof. by intros [= <-]. Qed.

#[local] Instance demo_sealer : Sealer := {|
  Seal := demo_seal; Unseal := demo_unseal; Seal_nonempty := demo_seal_nonempty; Unseal_Seal := demo_unseal_seal |}.

Definition demo_marshal (v : value) : result string string :=
  match v with
  | VMap [] => Ok "{}"
  | VMap [(k, VStr s)] => Ok (k +:+ ":" +:+ s)
  | _ => Err "not in the example"
  end.

Definition demo_unmarshal (s : string) : option value :=
  match Cut s ":" with
  | (k, v, true) => Some (VMap [(k, VStr v)])
  | _ => Some (VMap [])
  end.

#[local] Instance demo_runtime : Runtime := {|
  Marshal := demo_marshal; Unmarshal := demo_unmarshal; ParseFloat := fun _ => None; FormatTime := fun _ => "then";
  Quote := fun s => s; IsControl := fun r => (r <? 32)%Z; UnicodeLower := id; Clock := fun _ => 0%Z;
  NameIn := fun _ _ => None |}.

Definition hold_destructive : ApprovalPolicy := rule_of "p1" ScopeOrganization "" TriggerDestructive "" [] EffectRequire.

Definition tool_call (tool actor : string) (args : list (string * value)) : CallRef :=
  mkCall "o" "srv" "con" tool tool true "user" actor (actor +:+ "@example.com") args.

Definition the_draft : list (string * value) := [("draft", VStr "7")].

Definition delete_draft : CallRef := tool_call "delete_draft" "alice" the_draft.

(** Another tool, called with the identifier of the request about the draft. *)
Definition refund_under_r1 : CallRef := tool_call "refund_payment" "alice" [(ArgApprovalID, VStr "r1"); ("amount", VStr "10000")].

Definition delete_under_r1 : CallRef := tool_call "delete_draft" "alice" [(ArgApprovalID, VStr "r1"); ("amount", VStr "10000")].

Definition bob_approves : Decision_ := mkDecision true "bob" "Bob" "".

Definition demo_ops : list op :=
  [OpRules [hold_destructive]; OpCheck 1000 delete_draft "r1" "n1"; OpDecide 2000 "o" "r1" bob_approves].

Definition after (ops : list op) : world := foldl (fun w o => (exec w o).1) start ops.

Fixpoint history_from (w : world) (ops : list op) : list (op * answer) :=
  match ops with [] => [] | o :: ops => (o, (exec w o).2) :: history_from (exec w o).1 ops end.

Lemma happened_from h w ops : happened h w -> happened (h ++ history_from w ops) (foldl (fun w o => (exec w o).1) w ops).
Proof.
  revert h w; induction ops as [|o ops IH]; intros h w Hh; cbn; [by rewrite app_nil_r|].
  rewrite cons_middle, app_assoc. apply IH. by constructor.
Qed.

Lemma happened_after ops : happened (history_from start ops) (after ops).
Proof. apply (happened_from [] start ops). constructor. Qed.

Example the_other_tool_is_gated :
  (exec (after [OpRules [hold_destructive]]) (OpCheck 3000 (tool_call "refund_payment" "alice" the_draft) "r2" "n2")).2
  = RCheck (Ok (waiting (scanRequest 3000 (new_row 3000 (tool_call "refund_payment" "alice" the_draft) "r2" "p1" "p1"
      "alice@example.com" 3600 "!draft:7")))).
Proof. vm_compute. reflexivity. Qed.

(** Bob approved deleting a draft; Alice's refund runs. *)
Lemma replay_ignores_the_tool_witness :
  exec (after demo_ops) (OpCheck 3000 refund_under_r1 "r2" "n2") = exec (after demo_ops) (OpCheck 3000 delete_under_r1 "r2" "n2") /\
  exists q, (exec (after demo_ops) (OpCheck 3000 refund_under_r1 "r2" "n2")).2 = RCheck (Ok (mkOutcome false the_draft (Some q) "")) /\
    q_ToolName (ar_Asked q) = "delete_draft" /\ cl_ToolName refund_under_r1 = "refund_payment".
Proof.
  split.
  - apply (replay_ignores_the_tool (after demo_ops) 3000 delete_under_r1 refund_under_r1); vm_compute; [discriminate|reflexivity..].
  - eexists. split_and!; vm_compute; reflexivity.
Defined.

Definition replayed : list op := demo_ops ++ [OpCheck 3000 delete_under_r1 "r2" "n2"; OpCheck 4000 delete_under_r1 "r3" "n3"].

Lemma approval_runs_once_witness :
  exists now c newID nonce out,
    history_from start replayed !! 3 = Some (OpCheck now c newID nonce, RCheck (Ok out)) /\
    oc_Args out = the_draft /\ answered_for (history_from start replayed) 3 now c out.
Proof.
  eexists _, _, _, _, _. split; [vm_compute; reflexivity|]. split; [reflexivity|].
  apply (approval_runs_once _ _ 3 3000 delete_under_r1 "r2" "n2" _ (happened_after replayed)); vm_compute; [reflexivity|discriminate|reflexivity].
Defined.

Lemma rows_meet_table_checks_witness :
  happened (history_from start replayed) (after replayed) /\ Forall row_checks (w_requests (after replayed)).
Proof.
  split; [apply happened_after|]. exact (proj2 (rows_meet_table_checks _ _ (happened_after replayed))).
Defined.

Lemma demo_ids : NoDup (map row_id (w_requests (after demo_ops))).
Proof. vm_compute. apply NoDup_singleton. Qed.

Lemma Decide_answers_witness :
  exists w', Decide 2500 "o" "r1" (mkDecision false "carol" "Carol" "no") (after demo_ops) = (w', Err ErrAlreadyDecided).
Proof.
  eexists. rewrite (Decide_answers 2500 "o" "r1" (mkDecision false "carol" "Carol" "no") (after demo_ops) demo_ids); try discriminate.
  - vm_compute. reflexivity.
  - vm_compute. reflexivity.
Defined.

Definition list_page_2 : CallRef := tool_call "list_drafts" "alice" [(ArgApprovalID, VStr " "); ("page", VStr "2")].

Lemma Check_gates_witness :
  exists w' out, Check_call 3000 list_page_2 "r2" "n2" start = (w', Ok out) /\
    oc_Required out = false /\ w' = start /\ oc_Args out = [("page", VStr "2")].
Proof.
  assert (Hc : exists w' out, Check_call 3000 list_page_2 "r2" "n2" start
    = (w', Ok out) /\ oc_Required out = false) by (eexists _, _; split; vm_compute; reflexivity).
  destruct Hc as (w' & out & Hc & Ho). exists w', out.
  destruct (proj1 (proj2 (Check_gates 3000 list_page_2 "r2" "n2" start w' out (eq_refl : claimed list_page_2 = "") Hc)) Ho) as (Hw & Ha & _).
  exact (conj Hc (conj Ho (conj Hw Ha))).
Defined.

Definition lapse : Z := 1000 + seconds 3600.

Definition raised_only : list op := [OpRules [hold_destructive]; OpCheck 1000 delete_draft "r1" "n1"].

Definition held : row := new_row 1000 delete_draft "r1" "p1" "p1" "alice@example.com" 3600 "!draft:7".

Lemma held_row : w_requests (after raised_only) = [held].
Proof. vm_compute. reflexivity. Qed.

Lemma lapsed_request_is_not_settled_witness :
  Decide lapse "o" "r1" bob_approves (after raised_only) = (after raised_only, Err ErrRequestExpired) /\
  exists q, (Cancel lapse "o" "r1" "alice" "" (after raised_only)).2 = Ok q /\ g_State (ar_Progress q) = StateCancelled.
Proof.
  apply (lapsed_request_is_not_settled lapse "o" held bob_approves (after raised_only) ""); rewrite ?held_row;
    try discriminate; try reflexivity; first [apply NoDup_singleton|left].
Defined.

(** The calls [first] to [last] of one tool with different arguments. *)
Definition drafts (first count : nat) : list op :=
  map (fun i => OpCheck (1000 + Z.of_nat i) (tool_call "delete_draft" "alice" [("draft", VStr (Itoa (Z.of_nat i)))])
                  ("r" +:+ Itoa (Z.of_nat i)) "n") (seq first count).

Definition waiting_count (w : world) : nat := length (List.filter (is_state StatePending) (w_requests w)).

(** The bound on a caller's queue does not hold.  The count is taken over
    the newest twenty requests that are open or whose refusal stands, so each
    refusal makes room for more: with twenty waiting the next call is
    refused, but once the newest of them is answered no, two more are
    recorded and twenty-one wait.  A call repeated after its request has
    fallen out of the newest twenty is recorded again. *)
Theorem refusals_unbound_the_queue :
  let full := OpRules [hold_destructive] :: drafts 1 20 in
  let refused := full ++ [OpDecide 5000 "o" "r20" (mkDecision false "bob" "Bob" "no")] in
  waiting_count (after full) = maxPendingPerTool /\
  (exec (after full) (OpCheck 6000 (tool_call "delete_draft" "alice" [("draft", VStr "21")]) "r21" "n")).2 = RCheck (Err ErrTooManyPending) /\
  waiting_count (after (refused ++ drafts 21 2)) = S maxPendingPerTool /\
  map row_id (List.filter (fun r => String.eqb (rw_Args r) "!draft:1")
    (w_requests (after (refused ++ drafts 21 2 ++ [OpCheck 7000 (tool_call "delete_draft" "alice" [("draft", VStr "1")]) "again" "n"]))))
  = ["r1"; "again"].
Proof. split_and!; vm_compute; reflexivity. Qed.
