(* ===== verification/AuthzCache.v ===== *)
(** * AuthzCache: the evaluator's cache under interleaved loads and writes

    [Authz.Evaluator] implements the [GenCache] contract: [load_hit],
    [load_gens] and [load_store] are its lookup, token and guarded store,
    and [Invalidate] is its three invalidations.  The freshness theorem then
    says what no interleaving of requests, database commits and
    invalidations can break. *)

From S2P Require Import Prelude Authz GenCache.

(** A cache key as the evaluator builds it: an organisation id that is not
    empty and has no separator in it (ids are UUIDs, and [Evaluate] refuses
    an empty organisation before it loads), one of the two kinds a binding
    has, and an id that is not empty. *)
Definition key_wf (t : string * string * string) : bool :=
  negb (bool_decide (t.1.1 = "")) && negb (has_byte "|"%char t.1.1) &&
  (bool_decide (t.1.2 = "user") || bool_decide (t.1.2 = "service_account")) &&
  negb (bool_decide (t.2 = "")).

Definition akey : Type := { t : string * string * string | key_wf t = true }.

Definition ak_org (k : akey) : string := (`k).1.1.
Definition ak_kind (k : akey) : string := (`k).1.2.
Definition ak_id (k : akey) : string := (`k).2.
Definition ak_string (k : akey) : string := cacheKey (ak_org k) (ak_kind k) (ak_id k).

#[export] Instance akey_eq_dec : EqDecision akey.
Proof. unfold akey. apply _. Defined.

Lemma cacheKey_prefix org org' kind id :
  has_byte "|"%char org = false -> has_byte "|"%char org' = false ->
  String.prefix (org +:+ "|") (cacheKey org' kind id) = bool_decide (org = org').
Proof.
  intros H H'. apply eq_bool_prop_intro. rewrite !Is_true_true, bool_decide_eq_true.
  unfold cacheKey. split.
  - intros [u E]%prefix_true. autorewrite with go in E. by apply app_sep_inj in E as [-> _].
  - intros ->. rewrite <-app_assoc_str. apply prefix_app.
Qed.

Lemma cacheKey_inj o k i o' k' i' :
  has_byte "|"%char o = false -> has_byte "|"%char o' = false ->
  has_byte "|"%char k = false -> has_byte "|"%char k' = false ->
  cacheKey o k i = cacheKey o' k' i' -> o = o' /\ k = k' /\ i = i'.
Proof.
  intros Ho Ho' Hk Hk' E. unfold cacheKey in E. autorewrite with go in E.
  apply app_sep_inj in E as [-> E]; [|done..]. by apply app_sep_inj in E as [-> ->].
Qed.

Lemma akey_facts (k : akey) :
  has_byte "|"%char (ak_org k) = false /\ has_byte "|"%char (ak_kind k) = false /\
  ak_org k <> "" /\ ak_id k <> "" /\ (ak_kind k = "user" \/ ak_kind k = "service_account").
Proof.
  destruct k as [[[o kd] i] Hk]. unfold key_wf in Hk. unfold ak_org, ak_kind, ak_id. cbn in *. bool_prop.
  match goal with H : _ \/ _ |- _ => destruct H end; bool_prop; subst; split_and!; auto.
Qed.

Lemma ak_string_inj a b : ak_string a = ak_string b <-> a = b.
Proof.
  split; [|by intros ->]. intros E.
  destruct (akey_facts a) as (A1 & A2 & _), (akey_facts b) as (B1 & B2 & _).
  apply cacheKey_inj in E as (E1 & E2 & E3); [|done..].
  apply (sig_eq_pi _). clear - E1 E2 E3.
  destruct a as [[[? ?] ?] Ha], b as [[[? ?] ?] Hb]. unfold ak_org, ak_kind, ak_id in *. cbn in *.
  by subst.
Qed.

(** A principal whose bindings are cached under [k]. *)
Definition key_principal (k : akey) : Principal :=
  mkPrincipal (if decide (ak_kind k = "service_account") then KindServiceAccount else KindUser)
    (ak_id k) (ak_org k) "" "" "" "" [] false "" "" false (mkSignIn 0 "" "" []).

Lemma key_principal_key k : principal_key (key_principal k) = ak_string k.
Proof.
  unfold principal_key, key_principal, BindingPrincipal. cbn.
  destruct (akey_facts k) as (_ & _ & _ & _ & [E|E]); by case_decide; unfold ak_string; rewrite ?E; try congruence.
Qed.

Definition org_principal (o : string) : Principal :=
  mkPrincipal KindUser "" o "" "" "" "" [] false "" "" false (mkSignIn 0 "" "" []).

(** The contract's operations are the evaluator's own functions. *)
#[export] Instance Evaluator_GenCache : GenCache Evaluator akey cacheEntry := {
  gc_org := ak_org;
  gc_get e k := e_cache e !! ak_string k;
  gc_token e o := load_gens e (org_principal o);
  gc_store e k tok c := load_store e (key_principal k) tok c;
  gc_inv_key e k := (Invalidate e (ak_org k) (ak_kind k) (ak_id k)).1;
  gc_inv_org := InvalidateOrg;
  gc_inv_all := InvalidateAll;
}.

Lemma u64_succ z : (0 <= z < gc_max - 1)%Z -> u64 (z + 1) = (z + 1)%Z.
Proof. unfold u64, gc_max. intros. apply Z.mod_small. lia. Qed.

Lemma bump_orgGen_lookup o o' e :
  default 0%Z (bump_orgGen o e !! o') = if decide (o = o') then u64 (orgGen_of e o + 1) else orgGen_of e o'.
Proof. unfold bump_orgGen, orgGen_of. rewrite lookup_insert. by case_decide. Qed.

Lemma Invalidate_key e (k : akey) :
  (Invalidate e (ak_org k) (ak_kind k) (ak_id k)).1 =
  mkEvaluator (e_TTL e) (e_hook e) (delete (ak_string k) (e_cache e)) (e_gen e) (bump_orgGen (ak_org k) e).
Proof.
  destruct (akey_facts k) as (_ & _ & Ho & Hi & _). unfold Invalidate.
  by rewrite (decide_False (P := ak_org k = "")), (decide_False (P := ak_id k = "")) by done.
Qed.

#[local] Arguments Invalidate : simpl never.

#[export] Instance Evaluator_GenCacheLaws : GenCacheLaws Evaluator akey cacheEntry.
Proof.
  split.
  - intros e k tok c k'. cbn. unfold load_store, load_gens. rewrite key_principal_key. cbn.
    pose proof (ak_string_inj k k') as I.
    case_decide; cbn; rewrite ?lookup_insert; repeat case_decide; tauto.
  - intros e k tok c o. cbn. unfold load_store. by case_decide.
  - intros e k. cbn. rewrite Invalidate_key. cbn. apply lookup_delete_eq.
  - intros e k k' c. cbn. rewrite Invalidate_key. cbn. by intros [_ ?]%lookup_delete_Some.
  - intros e o k <-. cbn. rewrite (InvalidateOrg_lookup e (ak_org k)). destruct (akey_facts k) as (? & _).
    unfold ak_string. rewrite cacheKey_prefix by done. by rewrite bool_decide_eq_true_2.
  - intros e o k c. cbn. rewrite (InvalidateOrg_lookup e o). by destruct (String.prefix _ _).
  - intros e k. apply lookup_empty.
  - intros e k o. cbn. intros. rewrite Invalidate_key. unfold load_gens, orgGen_of at 1. cbn.
    rewrite bump_orgGen_lookup. case_decide; [|done]. subst. by rewrite u64_succ.
  - intros e o o'. cbn. intros. unfold load_gens, orgGen_of at 1. cbn.
    rewrite bump_orgGen_lookup. case_decide; [|done]. subst. by rewrite u64_succ.
  - intros e o. cbn. intros. unfold load_gens, orgGen_of. cbn. rewrite u64_succ by done.
    by rewrite lookup_empty.
Qed.

(** ** Properties *)

(** The entry a load of [k] makes of what its two statements find, at some
    clock read. *)
Definition authz_built (db db2 : authz_db) (k : akey) (c : cacheEntry) : Prop :=
  exists at_, c = read_statements db db2 (ak_org k) (ak_kind k) (ak_id k) at_.

Definition principal_akey (p : Principal) (H : key_wf (p_OrgID p, (BindingPrincipal p).1, (BindingPrincipal p).2) = true) : akey :=
  exist _ (p_OrgID p, (BindingPrincipal p).1, (BindingPrincipal p).2) H.

Lemma load_hit_get e p H now c :
  load_hit e p now = Some c -> gc_get e (principal_akey p H) = Some c.
Proof.
  unfold load_hit, principal_key, principal_akey. cbn. unfold ak_string, ak_org, ak_kind, ak_id. cbn.
  destruct (BindingPrincipal p) as [kind id]. cbn.
  destruct (e_cache e !! _) as [c'|]; cbn; [|done]. by case_decide.
Qed.

(** C32. A cached answer is never older than the last invalidation.  In every
    interleaving of commits, invalidations and loads that are split into
    their four steps, when [load] answers a principal from the cache, its
    bindings are what the first query returns on some committed database
    state, its rules what the second returns on that state or a later one,
    and neither is older than the state current when that principal's entry
    was last invalidated.  (Runs of fewer than 2^64 invalidations, the width
    of the generation counters.) *)
Theorem cached_bindings_fresh (y : system (S := Evaluator) (K := akey) (E := cacheEntry) (DB := authz_db))
    p (H : key_wf (p_OrgID p, (BindingPrincipal p).1, (BindingPrincipal p).2) = true) now c :
  reachable authz_built y -> (Z.of_nat (sy_invs y) < 2 ^ 64)%Z ->
  load_hit (sy_cache y) p now = Some c ->
  exists v v2 db db2 at_, sy_floor y (principal_akey p H) <= v <= v2 /\ sy_dbs y !! v = Some db /\ sy_dbs y !! v2 = Some db2 /\
    c = read_statements db db2 (p_OrgID p) (BindingPrincipal p).1 (BindingPrincipal p).2 at_.
Proof.
  intros Hr Hn Hh. apply (load_hit_get _ _ H) in Hh.
  destruct (cache_answers_fresh authz_built y _ c Hr Hn Hh) as (v & v2 & ? & db & db2 & ? & ? & at_ & ->).
  by exists v, v2, db, db2, at_.
Qed.

(** A run: a commit, an invalidation of the organisation, then a load whose
    second query comes after another commit, and which is stored. *)
Definition witness_key : akey := exist _ ("o", "user", "u") eq_refl.

Definition witness_entry : cacheEntry := read_statements example_left example_db "o" "user" "u" 7.

Abbreviation asystem := (system (S := Evaluator) (K := akey) (E := cacheEntry) (DB := authz_db)).

Definition run0 : asystem := mkSystem (New false) [example_db] ∅ (fun _ => 0) 0.
Definition run1 : asystem :=
  mkSystem (sy_cache run0) (sy_dbs run0 ++ [example_left]) (sy_flights run0) (sy_floor run0) (sy_invs run0).
Definition run2 : asystem :=
  mkSystem (gc_inv_org (sy_cache run1) "o") (sy_dbs run1) (sy_flights run1)
    (raise_floor run1 (fun k' => bool_decide (gc_org k' = "o"))) (S (sy_invs run1)).
Definition the_token : Z * Z := gc_token (sy_cache run2) (gc_org witness_key).
Definition run3 : asystem :=
  mkSystem (sy_cache run2) (sy_dbs run2) (<[1 := mkFlight witness_key the_token None None]> (sy_flights run2)) (sy_floor run2) (sy_invs run2).
Definition run4 : asystem :=
  mkSystem (sy_cache run3) (sy_dbs run3) (<[1 := mkFlight witness_key the_token (Some 1) None]> (sy_flights run3)) (sy_floor run3) (sy_invs run3).
Definition run5 : asystem :=
  mkSystem (sy_cache run4) (sy_dbs run4 ++ [example_db]) (sy_flights run4) (sy_floor run4) (sy_invs run4).
Definition run6 : asystem :=
  mkSystem (sy_cache run5) (sy_dbs run5) (<[1 := mkFlight witness_key the_token (Some 1) (Some (witness_entry, 1, 2))]> (sy_flights run5))
    (sy_floor run5) (sy_invs run5).
Definition run7 : asystem :=
  mkSystem (gc_store (sy_cache run6) witness_key the_token witness_entry) (sy_dbs run6) (delete 1 (sy_flights run6)) (sy_floor run6) (sy_invs run6).

Lemma run7_reachable : reachable authz_built run7.
Proof.
  eapply (reach_step _ run6); [|exact (step_finish authz_built run6 1
    (mkFlight witness_key (0, 1)%Z (Some 1) (Some (witness_entry, 1, 2))) witness_entry 1 2 eq_refl eq_refl)].
  eapply (reach_step _ run5); [|exact (step_read authz_built run5 1
    (mkFlight witness_key (0, 1)%Z (Some 1) None) 1 example_left example_db witness_entry eq_refl eq_refl eq_refl eq_refl
    (ex_intro _ 7%Z eq_refl))].
  eapply (reach_step _ run4); [|apply (step_commit authz_built run4 example_db)].
  eapply (reach_step _ run3); [|exact (step_first authz_built run3 1 (mkFlight witness_key (0, 1)%Z None None) eq_refl)].
  eapply (reach_step _ run2); [|by apply (step_begin authz_built run2 1 witness_key)].
  eapply (reach_step _ run1); [|apply (step_inv_org authz_built run1 "o")].
  eapply (reach_step _ run0); [|apply (step_commit authz_built run0 example_left)].
  apply reach_init. exists (New false), example_db. split; [reflexivity|].
  split; [intros k; apply lookup_empty|intros o; reflexivity].
Qed.

Lemma cached_bindings_fresh_witness :
  exists v v2 db db2 at_, 1 <= v <= v2 /\ [example_db; example_left; example_db] !! v = Some db /\ [example_db; example_left; example_db] !! v2 = Some db2 /\
    witness_entry = read_statements db db2 "o" "user" "u" at_.
Proof.
  apply (cached_bindings_fresh run7 (key_principal witness_key) eq_refl 8 witness_entry);
    [apply run7_reachable|reflexivity|vm_compute; reflexivity].
Defined.
