(* ===== verification/Invalidation.v ===== *)
(** * Invalidation: cache invalidation across replicas (internal/invalidation)

    The payloads the database's triggers send, how a replica reads them, and
    what the listener does to the caches registered with it.  A registered
    cache is anything that implements the [GenCache] contract, so the
    theorems hold of the evaluator and of the policies reader alike. *)

From S2P Require Import Prelude GoStrings GenCache.

Definition Kind : Type := string.
Definition KindAuthz : Kind := "authz".
Definition KindDLP : Kind := "dlp".
Definition allOrgs : string := "*".
Definition probeKind : string := "probe".

Definition Payload (kind : Kind) (orgID : string) : string :=
  let orgID := if decide (orgID = "") then allOrgs else orgID in
  kind +:+ ":" +:+ orgID.

Record message : Type := mkMessage {
  m_kind : Kind;
  m_orgID : string;
  m_all : bool;
  m_probe : bool;
}.

Definition parse (payload : string) : message :=
  let '(kind, org, ok) := Cut payload ":" in
  if negb ok || bool_decide (kind = "") then mkMessage "" "" true false
  else if decide (kind = probeKind) then mkMessage "" org false true
  else mkMessage kind org (bool_decide (org = "") || bool_decide (org = allOrgs)) false.

(** A value of the [Cache] interface: a state with its two operations. *)
Record Cache : Type := mkCache {
  ca_S : Type; ca_K : Type; ca_E : Type;
  ca_dec : EqDecision ca_K;
  ca_ops : GenCache ca_S ca_K ca_E;
  ca_laws : GenCacheLaws ca_S ca_K ca_E;
  ca_state : ca_S;
}.

Definition ca_inv_org (c : Cache) (o : string) : Cache :=
  mkCache (ca_S c) (ca_K c) (ca_E c) (ca_dec c) (ca_ops c) (ca_laws c)
    (@gc_inv_org _ _ _ (ca_ops c) (ca_state c) o).

Definition ca_inv_all (c : Cache) : Cache :=
  mkCache (ca_S c) (ca_K c) (ca_E c) (ca_dec c) (ca_ops c) (ca_laws c)
    (@gc_inv_all _ _ _ (ca_ops c) (ca_state c)).

(** The cache holds nothing of organisation [o]. *)
Definition forgets (o : string) (c : Cache) : Prop :=
  forall k, @gc_org _ _ _ (ca_ops c) k = o -> @gc_get _ _ _ (ca_ops c) (ca_state c) k = None.

(** [Listener.caches], a map from a kind to the caches registered for it. *)
Abbreviation caches := (gmap string (list Cache)).

(** [Register]; a nil interface value is [None]. *)
Definition Register (l : caches) (kind : Kind) (c : option Cache) : caches :=
  match c with
  | None => l
  | Some c => <[ kind := default [] (l !! kind) ++ [c] ]> l
  end.

Definition flush (l : caches) : caches := map ca_inv_all <$> l.

(** The caches after the payload, and whether it was the awaited probe. *)
Definition dispatch (l : caches) (payload nonce : string) : caches * bool :=
  let m := parse payload in
  if m_probe m then (l, negb (bool_decide (nonce = "")) && bool_decide (m_orgID m = nonce))
  else if decide (m_kind m <> KindAuthz /\ m_kind m <> KindDLP) then (flush l, false)
  else match default [] (l !! m_kind m) with
       | [] => (l, false)
       | cs => (<[ m_kind m := map (fun c => if m_all m then ca_inv_all c else ca_inv_org c (m_orgID m)) cs ]> l, false)
       end.

(** ** Properties *)

Lemma forgets_all o c : forgets o (ca_inv_all c).
Proof. intros k _. cbn. apply (@gc_get_inv_all _ _ _ _ _ (ca_laws c)). Qed.

Lemma forgets_org o c : forgets o (ca_inv_org c o).
Proof. intros k Hk. cbn. by apply (@gc_get_inv_org _ _ _ _ _ (ca_laws c)). Qed.

Definition kind_wf (kind : Kind) : Prop := kind = KindAuthz \/ kind = KindDLP.

Lemma parse_Payload_known kind org : kind_wf kind ->
  parse (Payload kind org) =
  mkMessage kind (if decide (org = "") then "*" else org) (bool_decide (org = "" \/ org = "*")) false.
Proof.
  intros Hk. unfold parse, Payload.
  set (o := if decide (org = "") then allOrgs else org).
  assert (E : Cut (kind +:+ ":" +:+ o) ":" = (kind, o, true)).
  { rewrite app_cons_str, app_empty_l. apply Cut_byte. by destruct Hk as [->| ->]. }
  rewrite E. cbn [negb orb].
  rewrite bool_decide_eq_false_2 by (by destruct Hk as [->| ->]).
  rewrite decide_False by (by destruct Hk as [->| ->]). f_equal.
  unfold o, allOrgs. apply eq_bool_prop_intro. rewrite !Is_true_true, orb_true_iff, !bool_decide_eq_true.
  case_decide; naive_solver.
Qed.

(** Payloads round-trip: what the triggers send for one organisation, or
    for none, is read back as that kind and that organisation, or as every
    organisation. *)
Theorem parse_Payload kind org :
  kind = KindAuthz \/ kind = KindDLP -> org <> "*" ->
  parse (Payload kind org) =
  if decide (org = "") then mkMessage kind "*" true false else mkMessage kind org false false.
Proof.
  intros Hk Ho. rewrite parse_Payload_known by done.
  case_decide; [by rewrite bool_decide_eq_true_2 by auto|].
  by rewrite bool_decide_eq_false_2 by tauto.
Qed.

Lemma parse_Payload_witness : parse "authz:o1" = mkMessage "authz" "o1" false false.
Proof. apply (parse_Payload KindAuthz "o1"); [by left|discriminate]. Defined.

(** A notification reaches every cache it is about: whatever the caches
    hold, after the payload for a kind and an organisation every cache
    registered for that kind has forgotten that organisation (and everything,
    when the payload names no organisation); a payload that is neither a
    known kind nor a probe empties every registered cache. *)
Theorem dispatch_delivers (l : caches) (nonce : string) :
  (forall kind org o cs c, kind_wf kind -> org = "" \/ org = "*" \/ org = o ->
    (dispatch l (Payload kind org) nonce).1 !! kind = Some cs -> c ∈ cs -> forgets o c) /\
  (forall payload k o cs c, m_probe (parse payload) = false -> ~ kind_wf (m_kind (parse payload)) ->
    (dispatch l payload nonce).1 !! k = Some cs -> c ∈ cs -> forgets o c).
Proof.
  split.
  - intros kind org o cs c Hk Ho. unfold dispatch. rewrite parse_Payload_known by done. cbn.
    rewrite decide_False by (unfold kind_wf in Hk; tauto).
    destruct (l !! kind) as [[|c0 cs0]|] eqn:L; cbn; rewrite ?L;
      [by intros [= <-] ?%not_elem_of_nil| |done].
    rewrite lookup_insert_eq. intros [= <-].
    change (ca_inv_all c0 :: _) with (map ca_inv_all (c0 :: cs0)).
    case_bool_decide as Hall.
    + change (c ∈ map ca_inv_all (c0 :: cs0) -> forgets o c).
      intros (c' & -> & _)%list_elem_of_fmap. apply forgets_all.
    + change (c ∈ map (fun x => ca_inv_org x (if decide (org = "") then "*" else org)) (c0 :: cs0) -> forgets o c).
      rewrite decide_False by tauto. assert (org = o) as <- by tauto.
      intros (c' & -> & _)%list_elem_of_fmap. apply forgets_org.
  - intros payload k o cs c Hp Hk. unfold dispatch. rewrite Hp.
    rewrite decide_True by (unfold kind_wf in Hk; tauto). cbn. unfold flush. rewrite lookup_fmap.
    destruct (l !! k) as [cs0|]; cbn; [|done]. intros [= <-] (c' & -> & _)%list_elem_of_fmap.
    apply forgets_all.
Qed.
