(* ===== verification/Sha256.v ===== *)
(** * Sha256: the digest the audit chain is built on

    [crypto/sha256] of Go's standard library: SHA-256 of FIPS 180-4, over
    strings of bytes.  A word is a [Z] below 2^32.  The development's
    theorems about digests speak of collisions of this function, never of
    their absence. *)
From S2P Require Import Prelude GoStrings.

Open Scope list_scope.
Open Scope Z_scope.

Definition word_mask : Z := 0xffffffff.

Definition add32 (a b : Z) : Z := Z.land (a + b) word_mask.

Definition rotr (n x : Z) : Z := Z.lor (Z.shiftr x n) (Z.land (Z.shiftl x (32 - n)) word_mask).

Definition Ch (x y z : Z) : Z := Z.lxor (Z.land x y) (Z.land (Z.lxor x word_mask) z).
Definition Maj (x y z : Z) : Z := Z.lxor (Z.lxor (Z.land x y) (Z.land x z)) (Z.land y z).
Definition Sigma0 (x : Z) : Z := Z.lxor (Z.lxor (rotr 2 x) (rotr 13 x)) (rotr 22 x).
Definition Sigma1 (x : Z) : Z := Z.lxor (Z.lxor (rotr 6 x) (rotr 11 x)) (rotr 25 x).
Definition sigma0 (x : Z) : Z := Z.lxor (Z.lxor (rotr 7 x) (rotr 18 x)) (Z.shiftr x 3).
Definition sigma1 (x : Z) : Z := Z.lxor (Z.lxor (rotr 17 x) (rotr 19 x)) (Z.shiftr x 10).

(** The constants are fractions of roots of the first primes: their first 32
    bits, of the cube roots of sixty-four for the rounds and of the square
    roots of eight for the first state. *)
Definition is_prime (n : nat) : bool := forallb (fun d => negb (n mod d =? 0)%nat) (seq 2 (n - 2)).

Definition first_primes (n : nat) : list Z := map Z.of_nat (take n (List.filter is_prime (seq 2 310))).

Fixpoint cube_root (bits : nat) (r n : Z) : Z :=
  match bits with
  | O => r
  | S bits => let t := r + 2 ^ Z.of_nat bits in cube_root bits (if t * t * t <=? n then t else r) n
  end.

Definition round_constants : list Z :=
  Eval vm_compute in map (fun p => cube_root 36 0 (p * 2 ^ 96) mod 2 ^ 32) (first_primes 64).

Record digest_state : Type := mkState { sa : Z; sb : Z; sc : Z; sd : Z; se : Z; sf : Z; sg : Z; sh : Z }.

Definition initial_state : digest_state :=
  Eval vm_compute in
    match map (fun p => Z.sqrt (p * 2 ^ 64) mod 2 ^ 32) (first_primes 8) with
    | [a; b; c; d; e; f; g; h] => mkState a b c d e f g h
    | _ => mkState 0 0 0 0 0 0 0 0
    end.

(** The padding: a one bit, zeros, and the length in bits. *)
Definition big_endian (n : nat) (x : Z) : list Z :=
  rev (map (fun i => Z.land (Z.shiftr x (8 * Z.of_nat i)) 255) (seq 0 n)).

Definition padded (msg : list Z) : list Z :=
  msg ++ [128] ++ replicate (Z.to_nat ((55 - Z.of_nat (length msg)) mod 64)) 0 ++ big_endian 8 (8 * Z.of_nat (length msg)).

Definition word_of (l : list Z) : Z := foldl (fun acc b => 256 * acc + b) 0 l.

Fixpoint chunks {A} (fuel size : nat) (l : list A) : list (list A) :=
  match fuel, l with
  | S fuel, _ :: _ => take size l :: chunks fuel size (drop size l)
  | _, _ => []
  end.

(** The sixteen words of a block, extended to sixty-four; the list is the
    last sixteen, newest first. *)
Fixpoint schedule (n : nat) (recent : list Z) : list Z :=
  match n with
  | O => []
  | S n =>
      let w i := nth i recent 0 in
      let x := add32 (add32 (sigma1 (w 1%nat)) (w 6%nat)) (add32 (sigma0 (w 14%nat)) (w 15%nat)) in
      x :: schedule n (x :: take 15 recent)
  end.

Definition message_words (block : list Z) : list Z :=
  let ws := map word_of (chunks 16 4 block) in ws ++ schedule 48 (rev ws).

Definition round (s : digest_state) (kw : Z * Z) : digest_state :=
  let t1 := add32 (add32 (sh s) (Sigma1 (se s))) (add32 (Ch (se s) (sf s) (sg s)) (add32 kw.1 kw.2)) in
  let t2 := add32 (Sigma0 (sa s)) (Maj (sa s) (sb s) (sc s)) in
  mkState (add32 t1 t2) (sa s) (sb s) (sc s) (add32 (sd s) t1) (se s) (sf s) (sg s).

Definition compress (s : digest_state) (block : list Z) : digest_state :=
  let r := foldl round s (zip round_constants (message_words block)) in
  mkState (add32 (sa s) (sa r)) (add32 (sb s) (sb r)) (add32 (sc s) (sc r)) (add32 (sd s) (sd r))
    (add32 (se s) (se r)) (add32 (sf s) (sf r)) (add32 (sg s) (sg r)) (add32 (sh s) (sh r)).

Definition sum_bytes (msg : list Z) : list Z :=
  let p := padded msg in
  let s := foldl compress initial_state (chunks (length p) 64 p) in
  flat_map (big_endian 4) [sa s; sb s; sc s; sd s; se s; sf s; sg s; sh s].

(** [sha256.Sum256]. *)
Definition sha256 (s : string) : string :=
  String.string_of_list_ascii
    (map (fun b => ascii_of_nat (Z.to_nat b)) (sum_bytes (map byte_val (String.list_ascii_of_string s)))).

Close Scope Z_scope.

Lemma length_big_endian n x : length (big_endian n x) = n.
Proof. unfold big_endian. by rewrite length_rev, length_map, length_seq. Qed.

(** A digest has 32 bytes. *)
Lemma sha256_length s : String.length (sha256 s) = 32.
Proof.
  unfold sha256. rewrite string_length_of, length_map. unfold sum_bytes.
  set (t := foldl compress _ _). cbn [flat_map]. by rewrite !length_app, !length_big_endian.
Qed.

(** Two different texts with one digest. *)
Definition collision (hash : string -> string) (x y : string) : Prop := x <> y /\ hash x = hash y.

Lemma digest_eq hash x y : hash x = hash y -> x = y \/ collision hash x y.
Proof. intros E. destruct (decide (x = y)); [by left|by right]. Qed.

Definition nibble (c : ascii) : Z :=
  let v := byte_val c in if (v <? 58)%Z then (v - 48)%Z else (v - 87)%Z.

Fixpoint from_hex (l : list ascii) : list Z :=
  match l with a :: b :: l => (16 * nibble a + nibble b)%Z :: from_hex l | _ => [] end.

(** The vector of FIPS 180-4 for a one-block message. *)
Example sha256_abc :
  sum_bytes [97; 98; 99]%Z =
    from_hex (String.list_ascii_of_string "ba7816bf8f01cfea414140de5dae2223b00361a396177a9cb410ff61f20015ad").
Proof. vm_compute. reflexivity. Qed.
