(* ===== verification/AuditEvents.v ===== *)
(** * AuditEvents: what an audit event may carry

    The event of [internal/audit/audit.go], the payload policy of
    [policy.go] (what a tool call's arguments and results leave in the
    stream: nothing, their shape, a masked copy, everything) with its short
    cache, and the before-and-after of [diff.go].  JSON encoding, the
    Unicode case mapping and SHA-256 are arguments. *)
From S2P Require Import Prelude GoStrings Regex Detectors Float64 Values Authz.

Open Scope list_scope.

Definition CategoryAuth : string := "auth".
Definition CategoryAdmin : string := "admin".
Definition CategoryTool : string := "tool".
Definition CategoryAuthz : string := "authz".
Definition CategorySecrets : string := "secrets".
Definition CategorySystem : string := "system".
Definition CategoryGovernan : string := "governance".

Definition Success : string := "success".
Definition Failure : string := "failure".
Definition Denied : string := "denied".

Definition PayloadMode : Type := string.
Definition PayloadNone : PayloadMode := "none".
Definition PayloadMetadata : PayloadMode := "metadata".
Definition PayloadMasked : PayloadMode := "masked".
Definition PayloadFull : PayloadMode := "full".

Definition DefaultPayloadMode : PayloadMode := PayloadMetadata.

Definition payloadSetting : string := "audit.payload".

Definition policyTTL : Z := 30 * Second.

(** A field of type [any] that is nil is [None]. *)
Record AuditEvent : Type := mkAuditEvent {
  e_OrgID : string;
  e_Category : string;
  e_Action : string;
  e_Outcome : string;
  e_ActorKind : string;
  e_ActorID : string;
  e_ActorDisplay : string;
  e_OnBehalfOf : string;
  e_TargetKind : string;
  e_TargetID : string;
  e_TargetDisplay : string;
  e_RequestID : string;
  e_SessionID : string;
  e_IP : string;
  e_UserAgent : string;
  e_Diff : option value;
  e_Payload : option value;
  e_Meta : option (list (string * value));
}.

(** [FromPrincipal]. *)
Definition FromPrincipal (e : AuditEvent) (p : option Principal) : AuditEvent :=
  match p with
  | None =>
      mkAuditEvent (e_OrgID e) (e_Category e) (e_Action e) (e_Outcome e) "anonymous" (e_ActorID e) (e_ActorDisplay e)
        (e_OnBehalfOf e) (e_TargetKind e) (e_TargetID e) (e_TargetDisplay e) (e_RequestID e) (e_SessionID e) (e_IP e)
        (e_UserAgent e) (e_Diff e) (e_Payload e) (e_Meta e)
  | Some p =>
      mkAuditEvent (if String.eqb (e_OrgID e) "" then p_OrgID p else e_OrgID e) (e_Category e) (e_Action e) (e_Outcome e)
        (kind_string (p_Kind p)) (p_ID p) (p_Email p)
        (e_OnBehalfOf e) (e_TargetKind e) (e_TargetID e) (e_TargetDisplay e) (e_RequestID e) (p_SessionID p) (e_IP e)
        (e_UserAgent e) (e_Diff e) (e_Payload e) (e_Meta e)
  end.

(** ** What is kept of a payload *)

Definition kindOf (v : value) : string :=
  match v with
  | VNil => "null"
  | VBool _ => "boolean"
  | VFloat _ | VInt _ => "number"
  | VStr _ => "string"
  | VList _ => "array"
  | VMap _ => "object"
  | VNumber _ | VTyped _ => "value"
  end.

(** The structure without the values. *)
Definition shape (v : value) : value :=
  match v with
  | VNil => VNil
  | VMap m => VMap (map (fun e => (e.1, VStr (kindOf e.2))) m)
  | VList l => VMap [("_len", VInt (Z.of_nat (length l))); ("_type", VStr "array")]
  | VStr s => VMap [("_len", VInt (Z.of_nat (String.length s))); ("_type", VStr "string")]
  | _ => VStr (kindOf v)
  end.

(** [maskPatterns], in order.  Under [(?i)] the letters s and k also stand
    for the long s and the Kelvin sign. *)
Definition fold_sk (c : ascii) : re ascii :=
  match lower_byte c with
  | "s"%char => Alternate [fold_letter "s"; Literal (map ascii_of_nat [197; 191])]
  | "k"%char => Alternate [fold_letter "k"; Literal (map ascii_of_nat [226; 132; 170])]
  | l => fold_letter l
  end.

Definition fold_word (s : string) : re ascii := Concat (map fold_sk (bytes_of s)).

Definition cardPattern : re ascii :=
  Concat [WordBoundary; rep 13 19 (Concat [dg; opt (oneof " -")]); WordBoundary].

Definition is_letter (c : ascii) : bool := is_upper c || is_lower c.

Definition emailPattern : re ascii :=
  Concat [Plus true (cls (alnum_or "._%+-")); lit "@"; Plus true (cls (alnum_or ".-")); lit "."; at_least 2 (cls is_letter)].

Definition ibanPattern : re ascii :=
  Concat [WordBoundary; rep 2 2 (cls is_upper); rep 2 2 dg; rep 10 30 (cls (fun c => is_upper c || is_digit c)); WordBoundary].

Definition ssnPattern : re ascii :=
  Concat [WordBoundary; rep 3 3 dg; lit "-"; rep 2 2 dg; lit "-"; rep 4 4 dg; WordBoundary].

Definition tokenPattern : re ascii :=
  Concat [WordBoundary;
          Alternate (map fold_word ["sk"; "pk"; "smk"; "ghp"] ++
                     [Concat [fold_word "xox"; Alternate (cls (one_of (bytes_of "baprBAPR")) :: [fold_sk "s"])]]);
          oneof "-_"; at_least 16 (fold_class (alnum_or "-_"))].

Definition maskPatterns : list (re ascii) := [cardPattern; emailPattern; ibanPattern; ssnPattern; tokenPattern].

Definition redacted : string := "<redacted>".

(** The text with the spans replaced, from [pos] on. *)
Fixpoint splice (s : list ascii) (pos : nat) (spans : list (nat * nat)) (repl : list ascii) : list ascii :=
  match spans with
  | [] => drop pos s
  | (a, b) :: spans => slice s pos a ++ repl ++ splice s b spans repl
  end.

(** [ReplaceAllString] for an expression that matches no empty text and a
    replacement without [$]. *)
Definition ReplaceAll (r : re ascii) (s repl : list ascii) : list ascii := splice s 0 (find_bytes r s) repl.

Definition maskString (s : string) : string :=
  string_of (foldl (fun s r => ReplaceAll r s (bytes_of redacted)) (bytes_of s) maskPatterns).

Definition MaskText (s : string) : string := maskString s.

Definition secretNames : list string :=
  ["password"; "secret"; "token"; "apikey"; "api_key"; "authorization"; "credential"; "passwd"; "pwd"].

Section payload.
Context (map_lower : string -> string).

Definition looksSecret (key : string) : bool :=
  existsb (Contains (ToLower map_lower key)) secretNames.

Fixpoint mask (v : value) : value :=
  match v with
  | VStr s => VStr (maskString s)
  | VMap m => VMap (map (fun e => (e.1, if looksSecret e.1 then VStr redacted else mask e.2)) m)
  | VList l => VList (map mask l)
  | v => v
  end.

(** [Apply] of [policy.go]; nil is [VNil]. *)
Definition Apply_payload (mode : PayloadMode) (input output : value) : value * value :=
  if String.eqb mode PayloadNone then (VNil, VNil)
  else if String.eqb mode PayloadFull then (input, output)
  else if String.eqb mode PayloadMasked then (mask input, mask output)
  else (shape input, shape output).
End payload.

(** ** The organisation's choice, with its cache *)

Record policyEntry : Type := mkPolicyEntry { pe_mode : PayloadMode; pe_at : Z }.

Definition known_mode (m : string) : bool :=
  existsb (String.eqb m) [PayloadNone; PayloadMetadata; PayloadMasked; PayloadFull].

(** What the settings query answers: a row's decoded value when it is a JSON
    string, no row, or a database error. *)
Inductive setting_read : Type := SettingString (s : string) | SettingOther | SettingNoRow | SettingError.

Definition stored_mode (r : setting_read) : PayloadMode :=
  match r with
  | SettingString v => if known_mode v then v else DefaultPayloadMode
  | _ => DefaultPayloadMode
  end.

(** [Mode]: the answer, and the cache after it.  [now1] is read at the
    lookup and [now2] when the entry is stored; a nil receiver is [None]. *)
Definition Mode_of (cache : option (gmap string policyEntry)) (now1 now2 : Z) (read : setting_read) (orgID : string)
  : PayloadMode * option (gmap string policyEntry) :=
  match cache with
  | None => (DefaultPayloadMode, None)
  | Some c =>
      let miss := (stored_mode read, Some (<[orgID := mkPolicyEntry (stored_mode read) now2]> c)) in
      if String.eqb orgID "" then (DefaultPayloadMode, Some c)
      else match c !! orgID with
           | Some e => if (time_sub now1 (pe_at e) <? policyTTL)%Z then (pe_mode e, Some c) else miss
           | None => miss
           end
  end.

(** [SetMode]: refused, or what is written to [org_settings] and the cache
    without the organisation's entry; [db] is the transaction's answer. *)
Definition SetMode (c : gmap string policyEntry) (orgID : string) (mode : PayloadMode) (db : result string unit)
  : result string (gmap string policyEntry) :=
  if negb (known_mode mode) then Err "the payload policy must be none, metadata, masked or full"
  else match db with Err e => Err e | Ok _ => Ok (delete orgID c) end.

(** ** What a change looked like *)

Record Diff : Type := mkDiff { Before : list (string * value); After : list (string * value) }.

(** [reflect.DeepEqual] on decoded JSON. *)
Fixpoint DeepEqual (a b : value) : bool :=
  match a, b with
  | VNil, VNil => true
  | VBool x, VBool y => Bool.eqb x y
  | VInt x, VInt y => (x =? y)%Z
  | VFloat x, VFloat y => SpecFloat.SFeqb x y
  | VNumber x, VNumber y => String.eqb x y
  | VStr x, VStr y => String.eqb x y
  | VList l, VList k =>
      (fix go l k := match l, k with
                     | [], [] => true
                     | x :: l, y :: k => DeepEqual x y && go l k
                     | _, _ => false
                     end) l k
  | VMap m, VMap n =>
      (fix go m n := match m, n with
                     | [], [] => true
                     | (j, x) :: m, (k, y) :: n => String.eqb j k && DeepEqual x y && go m n
                     | _, _ => false
                     end) m n
  | VTyped x, VTyped y => DeepEqual x y
  | _, _ => false
  end.

Definition hex_digit (n : nat) : ascii := default "0"%char (bytes_of "0123456789abcdef" !! n).

(** [hex.EncodeToString]. *)
Definition hex (s : string) : string :=
  string_of (flat_map (fun c => [hex_digit (nat_of_ascii c / 16); hex_digit (nat_of_ascii c mod 16)]) (bytes_of s)).

Section diff.
Context (map_lower : string -> string) (Marshal : value -> result string string) (sha256 : string -> string).

Definition redactValue (key : string) (v : value) : value :=
  if negb (looksSecret map_lower key) || match v with VNil => true | _ => false end then v
  else match Marshal v with
       | Err _ => VStr "<redacted>"
       | Ok b => VStr ("<redacted:" +:+ hex (str_take 4 (sha256 b)) +:+ ">")
       end.

(** One turn of the first loop of [Changes]. *)
Definition changed_in (a : list (string * value)) (d : Diff) (e : string * value) : Diff :=
  match obj_get a e.1 with
  | Some av =>
      if DeepEqual e.2 av then d
      else mkDiff (obj_set (Before d) e.1 (redactValue e.1 e.2)) (obj_set (After d) e.1 (redactValue e.1 av))
  | None => mkDiff (obj_set (Before d) e.1 (redactValue e.1 e.2)) (After d)
  end.

(** One turn of the second. *)
Definition added_in (b : list (string * value)) (d : Diff) (e : string * value) : Diff :=
  match obj_get b e.1 with
  | Some _ => d
  | None => mkDiff (Before d) (obj_set (After d) e.1 (redactValue e.1 e.2))
  end.

(** The arguments are what [toMap] makes of the two values: a JSON object's
    fields, or nil. *)
Definition Changes (before after : option (list (string * value))) : option Diff :=
  match before, after with
  | None, None => None
  | _, _ =>
      let b := default [] before in
      let a := default [] after in
      let d := foldl (added_in b) (foldl (changed_in a) (mkDiff [] []) b) a in
      match Before d, After d with [], [] => None | _, _ => Some d end
  end.

Definition redact_all (m : list (string * value)) : list (string * value) :=
  map (fun e => (e.1, redactValue e.1 e.2)) m.

Definition Created (v : option (list (string * value))) : option Diff :=
  option_map (fun m => mkDiff [] (redact_all m)) v.

Definition Deleted (v : option (list (string * value))) : option Diff :=
  option_map (fun m => mkDiff (redact_all m) []) v.
End diff.

Arguments Changes map_lower Marshal sha256 before after : simpl never.

(** ** What a masked text no longer holds *)

Definition infix (t s : list ascii) : Prop := exists u v, s = u ++ t ++ v.

Definition angle (c : ascii) : Prop := c = "<"%char \/ c = ">"%char.

Definition unmarked (t : list ascii) : Prop := Forall (fun c => ~ angle c) t.

Lemma infix_trans t u s : infix t u -> infix u s -> infix t s.
Proof. intros (a & b & ->) (c & d & ->). exists (c ++ a), (b ++ d). by rewrite !app_assoc. Qed.

Lemma infix_slice s a b t : infix t (slice s a b) -> exists i, a <= i /\ i + length t <= b `max` a /\ i + length t <= length s `max` a /\
  (t = [] \/ t = slice s i (i + length t)).
Proof.
  intros (u & v & E). exists (a + length u).
  assert (Hl : length (slice s a b) = length u + length t + length v) by (rewrite E, !length_app; lia).
  unfold slice in *. rewrite length_take, length_drop in Hl. split_and!; [lia|lia|lia|].
  destruct t as [|c t]; [by left|]. cbn [length] in *. right.
  replace (a + length u + S (length t) - (a + length u)) with (S (length t)) by lia.
  rewrite <-drop_drop.
  transitivity (take (S (length t)) (drop (length u) (take (b - a) (drop a s)))).
  - rewrite E. rewrite drop_app_length. by rewrite (take_app_length' (c :: t) v).
  - rewrite !take_drop_commute, take_take. do 3 f_equal. lia.
Qed.

(** A piece without a separator is on one side of it. *)
Lemma infix_around c t x y : ~ c ∈ t -> infix t (x ++ c :: y) -> infix t x \/ infix t y.
Proof.
  intros Hc (u & v & E). revert u E; induction x as [|d x IH]; intros u E; cbn in E.
  - destruct u as [|e u].
    + destruct t as [|e t]; [left; by exists [], []|]. injection E as -> _. by destruct Hc; left.
    + injection E as -> E. right. by exists u, v.
  - destruct u as [|e u].
    + destruct t as [|e t]; [left; by exists [], (d :: x)|]. injection E as -> E.
      assert (Ht : exists v', x = t ++ v').
      { clear IH. revert x E Hc. induction t as [|f t IH]; intros x E Hc; [by exists x|].
        destruct x as [|g x]; cbn in E; injection E as -> E; [destruct Hc; by right; left|].
        destruct (IH x E) as [v' ->]; [|by exists v'].
        intros [->|H]%elem_of_cons; apply Hc; [left|by right; right]. }
      destruct Ht as [v' ->]. left. by exists [], v'.
    + injection E as -> E. destruct (IH u E) as [(u' & v' & ->)|H]; [|by right].
      left. by exists (e :: u'), v'.
Qed.

Definition outside (spans : list (nat * nat)) (i j : nat) : Prop := Forall (fun p => j <= p.1 \/ p.2 <= i) spans.

Lemma outside_later spans pos len i j : spans_from pos spans len -> j <= pos -> outside spans i j.
Proof.
  revert pos; induction spans as [|[a b] spans IH]; intros pos; cbn; intros H Hj; [constructor|].
  destruct H as (H1 & H2 & H3). constructor; [left; cbn; lia|]. apply (IH b); [done|lia].
Qed.

(** What the replacement leaves of a text is the replacement itself or a
    piece of the text outside every replaced span. *)
Lemma infix_splice s pos spans t :
  unmarked t -> t <> [] -> spans_from pos spans (length s) -> infix t (splice s pos spans (bytes_of redacted)) ->
  infix t (bytes_of "redacted") \/
  exists i, pos <= i /\ i + length t <= length s /\ t = slice s i (i + length t) /\ outside spans i (i + length t).
Proof.
  intros Hu Hne. assert (Hlt : forall c, angle c -> ~ c ∈ t).
  { intros c Hc Hin. unfold unmarked in Hu. rewrite Forall_forall in Hu. by apply (Hu c). }
  revert pos; induction spans as [|[a b] spans IH]; intros pos Hs Hin; cbn [splice spans_from] in *.
  - right. replace (drop pos s) with (slice s pos (length s)) in Hin by (unfold slice; apply take_ge; rewrite length_drop; lia).
    apply infix_slice in Hin as (i & H1 & H2 & H3 & [->|H4]); [done|]. exists i. split_and!; [done|lia|done|constructor].
  - destruct Hs as (H1 & H2 & Hs).
    change (bytes_of redacted) with ("<"%char :: bytes_of "redacted" ++ [">"%char]) in Hin.
    cbn [app] in Hin. apply infix_around in Hin as [Hin|Hin]; [| |apply Hlt; by left].
    + right. apply infix_slice in Hin as (i & P1 & P2 & P3 & [->|P4]); [done|]. exists i.
      split_and!; [done| |done|].
      * clear - P2 P3 H1 H2 Hs P4 Hne. assert (length t = length (slice s i (i + length t))) as L by congruence.
        unfold slice in L. rewrite length_take, length_drop in L. destruct t; [done|]. cbn in *. lia.
      * constructor; [left; cbn; lia|]. eapply outside_later; [exact Hs|lia].
    + rewrite <-app_assoc in Hin. cbn [app] in Hin. apply infix_around in Hin as [Hin|Hin]; [by left| |apply Hlt; by right].
      destruct (IH b Hs Hin) as [?|(i & P1 & P2 & P3 & P4)]; [by left|]. right. exists i.
      split_and!; [lia|done|done|]. constructor; [right; cbn; lia|done].
Qed.

(** A text that is an email address to [emailPattern], and a text with none
    in it. *)
Definition Email (t : list ascii) : Prop := Matches is_word is_nl emailPattern None t (length t).

Definition no_email (s : list ascii) : Prop := forall t, infix t s -> ~ Email t.

Lemma emailPattern_alphabet : alphabet (fun c => ~ angle c) emailPattern.
Proof.
  cbn [alphabet emailPattern lit bytes_of String.list_ascii_of_string foldr at_least cls].
  split_and!; try done; try (intros c Hc [->| ->]; discriminate Hc); repeat constructor; by intros [|].
Qed.

Lemma email_unmarked t : Email t -> unmarked t.
Proof.
  intros H. apply (alphabet_over _ _ _ _ emailPattern_alphabet) in H. by rewrite firstn_all in H.
Qed.

Lemma email_at prev s n : Matches is_word is_nl emailPattern prev s n -> 0 < n /\ "@"%char ∈ take n s.
Proof.
  cbn [Matches emailPattern lit bytes_of String.list_ascii_of_string foldr].
  intros (a & b & -> & (a1 & a2 & -> & (-> & _) & _) & (c & d & -> & (c1 & c2 & -> & (-> & x & s' & Es & Hx) & ->) & _)).
  split; [lia|]. apply bool_decide_eq_true in Hx as ->.
  assert (Hs : s !! (1 + a2) = Some "@"%char) by (rewrite <-(Nat.add_0_r (1 + a2)), <-lookup_drop, Es; done).
  apply list_elem_of_lookup. exists (1 + a2). by rewrite lookup_take_lt by lia.
Qed.

Lemma email_text t : Email t -> t <> [] /\ "@"%char ∈ t.
Proof. intros H%email_at. rewrite firstn_all in H. destruct H as [H ?]. split; [|done]. intros ->. cbn in H. lia. Qed.

Lemma infix_elem t s c : infix t s -> c ∈ t -> c ∈ s.
Proof. intros (u & v & ->) H. rewrite !elem_of_app. auto. Qed.

Lemma slice_infix s i j : infix (slice s i j) s.
Proof.
  exists (take i s), (drop (j - i) (drop i s)). unfold slice. by rewrite take_drop, take_drop.
Qed.

Lemma email_not_redacted t : Email t -> ~ infix t (bytes_of "redacted").
Proof.
  intros [_ Hat]%email_text Hin. apply (infix_elem _ _ _ Hin) in Hat.
  repeat (apply elem_of_cons in Hat as [E|Hat]; [discriminate E|]). by apply not_elem_of_nil in Hat.
Qed.

(** Replacing the addresses leaves none, and replacing anything else makes
    none. *)
Lemma ReplaceAll_email s : no_email (ReplaceAll emailPattern s (bytes_of redacted)).
Proof.
  intros t Hin HE. destruct (email_text t HE) as [Hne _].
  apply infix_splice in Hin as [Hin|(i & _ & Hl & Ht & Hout)];
    [by apply (email_not_redacted t)| |by apply email_unmarked|done|apply find_all_spans].
  assert (HM : Matches is_word is_nl emailPattern (adv None s i) (drop i s) (length t)).
  { apply (plain_local is_word is_nl emailPattern eq_refl None t); [exact HE| |done|rewrite length_drop; lia].
    rewrite firstn_all. rewrite Ht at 1. unfold slice. by replace (i + length t - i) with (length t) by lia. }
  apply find_all_complete in HM as (a & b & Hab & Ha & Hb); [|lia].
  unfold outside in Hout. rewrite Forall_forall in Hout. pose proof (Hout _ Hab) as Ho. cbn in Ho.
  pose proof (find_all_sound _ _ _ _ _ _ Hab) as (Hle & _ & HM). apply email_at in HM as [Hpos _].
  destruct t; [done|]. cbn [length] in *. lia.
Qed.

Lemma ReplaceAll_keeps_no_email r s : no_email s -> no_email (ReplaceAll r s (bytes_of redacted)).
Proof.
  intros Hs t Hin HE. destruct (email_text t HE) as [Hne _].
  apply infix_splice in Hin as [Hin|(i & _ & Hl & Ht & _)];
    [by apply (email_not_redacted t)| |by apply email_unmarked|done|apply find_all_spans].
  apply (Hs t); [|done]. rewrite Ht. apply slice_infix.
Qed.

Lemma maskString_no_email s : no_email (bytes_of (maskString s)).
Proof.
  unfold maskString, bytes_of, string_of. rewrite String.list_ascii_of_string_of_list_ascii.
  cbn [maskPatterns foldl]. do 3 apply ReplaceAll_keeps_no_email. apply ReplaceAll_email.
Qed.

(** The strings a value holds, outside its keys, in the containers JSON
    decodes to. *)
Fixpoint strings_in (v : value) : list string :=
  match v with
  | VStr s => [s]
  | VList l => flat_map strings_in l
  | VMap m => flat_map (fun e => strings_in e.2) m
  | _ => []
  end.

Lemma mask_no_email map_lower v s : s ∈ strings_in (mask map_lower v) -> no_email (bytes_of s).
Proof.
  induction v as [| | | | |x|l IH|m IH|] using value_ind'; cbn [mask strings_in]; try (by intros ?%not_elem_of_nil).
  - intros ->%list_elem_of_singleton. apply maskString_no_email.
  - intros H. apply list_elem_of_In, in_flat_map in H as (y & (z & <- & Hz)%in_map_iff & Hy).
    rewrite Forall_forall in IH. apply (IH z); by apply list_elem_of_In.
  - intros H. apply list_elem_of_In, in_flat_map in H as (y & (z & <- & Hz)%in_map_iff & Hy). cbn [snd] in Hy.
    destruct (looksSecret map_lower z.1).
    + cbn in Hy. destruct Hy as [<-|[]]. intros t Hin HE.
      destruct (email_text t HE) as [_ Hat]. apply (infix_elem _ _ _ Hin) in Hat.
      repeat (apply elem_of_cons in Hat as [E|Hat]; [discriminate E|]). by apply not_elem_of_nil in Hat.
    + rewrite Forall_forall in IH. apply (IH z); by apply list_elem_of_In.
Qed.

(** ** What a stored payload can tell *)

(** The text around the spans, from [pos] on: one piece more than spans. *)
Fixpoint around (s : list ascii) (pos : nat) (spans : list (nat * nat)) : list (list ascii) :=
  match spans with
  | [] => [drop pos s]
  | (a, b) :: spans => slice s pos a :: around s b spans
  end.

(** The kinds of text the masked policy withholds, in the order they are
    looked for: card numbers, e-mail addresses, account numbers, social
    security numbers, tokens. *)
Definition withheld_kinds : list (re ascii) := [cardPattern; emailPattern; ibanPattern; ssnPattern; tokenPattern].

(** Texts that differ only in what was found of one kind: put anything of
    that kind in the places of what is there, and the text around stays.
    What is of an earlier kind is already a [redacted]. *)
Definition differ_in_found (s t : string) : Prop := exists n r, withheld_kinds !! n = Some r /\
  let earlier u := foldl (fun u r => ReplaceAll r u (bytes_of redacted)) (bytes_of u) (take n withheld_kinds) in
  around (earlier s) 0 (find_bytes r (earlier s)) = around (earlier t) 0 (find_bytes r (earlier t)).

(** Two values alike but for what is under secret names, and for what texts
    have in the places of what is withheld. *)
Fixpoint same_public (map_lower : string -> string) (v w : value) : Prop :=
  match v, w with
  | VStr s, VStr t => rtc differ_in_found s t
  | VList l, VList k =>
      (fix go l k := match l, k with
                     | [], [] => True
                     | x :: l, y :: k => same_public map_lower x y /\ go l k
                     | _, _ => False
                     end) l k
  | VMap m, VMap n =>
      (fix go m n := match m, n with
                     | [], [] => True
                     | (j, x) :: m, (k, y) :: n =>
                         j = k /\ (looksSecret map_lower j = true \/ same_public map_lower x y) /\ go m n
                     | _, _ => False
                     end) m n
  | _, _ => v = w
  end.

(** Two values with the same kinds: the same fields holding the same kinds,
    lists of one length, strings of one length. *)
Definition same_kinds (v w : value) : Prop :=
  match v, w with
  | VMap m, VMap n => Forall2 (fun e f => e.1 = f.1 /\ kindOf e.2 = kindOf f.2) m n
  | VList l, VList k => length l = length k
  | VStr s, VStr t => String.length s = String.length t
  | _, _ => kindOf v = kindOf w
  end.

(** What two values may differ in without the policy telling. *)
Definition alike (map_lower : string -> string) (mode : PayloadMode) (v w : value) : Prop :=
  if String.eqb mode PayloadNone then True
  else if String.eqb mode PayloadFull then v = w
  else if String.eqb mode PayloadMasked then same_public map_lower v w
  else same_kinds v w.

Fixpoint filled (repl : list ascii) (pieces : list (list ascii)) : list ascii :=
  match pieces with
  | [] => []
  | [p] => p
  | p :: pieces => p ++ repl ++ filled repl pieces
  end.

Lemma splice_filled s repl spans : forall pos, splice s pos spans repl = filled repl (around s pos spans).
Proof.
  induction spans as [|[a b] spans IH]; intros pos; [done|]. cbn [splice around]. rewrite IH.
  destruct (around s b spans) eqn:E; [by destruct spans as [|[]]|]. done.
Qed.

Lemma ReplaceAll_filled r s repl : ReplaceAll r s repl = filled repl (around s 0 (find_bytes r s)).
Proof. apply splice_filled. Qed.

Lemma differ_same_mask s t : differ_in_found s t -> maskString s = maskString t.
Proof.
  intros (n & r & R & E). unfold maskString. f_equal. change maskPatterns with withheld_kinds.
  rewrite <- (take_drop_middle _ _ _ R), !foldl_app. cbn [foldl]. f_equal. cbv zeta in E. by rewrite !(ReplaceAll_filled r), E.
Qed.

Lemma mask_same_public map_lower v w : same_public map_lower v w -> mask map_lower v = mask map_lower w.
Proof.
  revert w; induction v as [| | | | |s|l IH|m IH|] using value_ind'; intros w H; try by rewrite <-H.
  - destruct w as [| | | | |t| | |]; try done. cbn [mask same_public] in *. f_equal.
    induction H as [|x y z D _ IH]; [done|]. by rewrite (differ_same_mask _ _ D).
  - destruct w as [| | | | | |k|n|]; try done. cbn [mask]. f_equal. cbn [same_public] in H. revert k H.
    induction IH as [|x l Hx _ IHl]; intros [|y k] H; try done. destruct H as [H1 H2]. cbn. f_equal; auto.
  - destruct w as [| | | | | |k|n|]; try done. cbn [mask]. f_equal. cbn [same_public] in H. revert n H.
    induction IH as [|[j x] m Hx _ IHm]; intros [|[k y] n] H; try done. destruct H as (-> & H1 & H2). cbn [fst snd map] in *.
    f_equal; [|by apply IHm]. f_equal. destruct (looksSecret map_lower k); [done|]. destruct H1 as [?|H1]; [done|]. by apply Hx.
Qed.

Lemma shape_same_kinds v w : same_kinds v w -> shape v = shape w.
Proof.
  destruct v, w; cbn; intros H; try done; try (by rewrite H).
  f_equal. induction H as [|[j x] [k y] m n [H1 H2] _ IH]; [done|]. cbn in *. by rewrite H1, H2, IH.
Qed.

(** C40. What the payload policy stores of a call depends only on what the
    policy allows to be kept: nothing under none; under masked nothing of a
    value under a secret name, and of a text nothing of what is found of the
    withheld kinds, only the text around; under metadata (and any mode the
    code does not know) only the fields' names, the kinds of their values and
    the length of a string or a list.  And no text stored under masked has an
    e-mail address in it, whatever its surroundings. *)
Theorem stored_payload_tells_no_more map_lower mode v w v' w' :
  alike map_lower mode v w -> alike map_lower mode v' w' ->
  Apply_payload map_lower mode v v' = Apply_payload map_lower mode w w' /\
  (mode = PayloadMasked -> forall s t, s ∈ strings_in (Apply_payload map_lower mode v v').1 ++ strings_in (Apply_payload map_lower mode v v').2 ->
     infix t (bytes_of s) -> ~ Email t).
Proof.
  intros H H'. split.
  - revert H H'. unfold alike, Apply_payload. destruct (String.eqb mode PayloadNone); [done|].
    destruct (String.eqb mode PayloadFull); [congruence|].
    destruct (String.eqb mode PayloadMasked); intros H H'.
    + by rewrite (mask_same_public _ _ _ H), (mask_same_public _ _ _ H').
    + by rewrite (shape_same_kinds _ _ H), (shape_same_kinds _ _ H').
  - intros ->. cbn [fst snd Apply_payload]. intros s t Hs Ht HE. apply elem_of_app in Hs as [Hs|Hs];
      exact (mask_no_email map_lower _ s Hs t Ht HE).
Qed.

Definition example_call (pin note : string) : value :=
  VMap [("note", VStr note); ("user_token", VStr pin)].

Lemma stored_payload_tells_no_more_witness :
  Apply_payload id PayloadMasked (example_call "1234" "card 4111 1111 1111 1111 of bob@example.org") VNil =
  Apply_payload id PayloadMasked (example_call "9999999" "card 5500-0000-0000-0004 of eve@elsewhere.net") VNil /\
  Apply_payload id PayloadMetadata (example_call "1234" "hi") VNil =
  Apply_payload id PayloadMetadata (example_call "9999999" "yo") VNil.
Proof.
  split.
  - apply (stored_payload_tells_no_more id PayloadMasked (example_call "1234" "card 4111 1111 1111 1111 of bob@example.org")); [|done].
    cbn -[differ_in_found]. split; [done|]. split; [right|split; [done|]; split; [by left|done]].
    apply (rtc_l _ _ "card 5500-0000-0000-0004 of bob@example.org"); [|apply rtc_once].
    + exists 0, cardPattern. split; [done|]. vm_compute. reflexivity.
    + exists 1, emailPattern. split; [done|]. vm_compute. reflexivity.
  - apply (stored_payload_tells_no_more id PayloadMetadata (example_call "1234" "hi")); [|done].
    cbn. by repeat constructor.
Defined.

(** A payload stored under masked has no email address in any of its
    strings: no run of text in them is one, whatever its surroundings, and
    the later patterns cannot bring one back. *)
Theorem masked_payload_has_no_email map_lower input output s t :
  s ∈ strings_in (Apply_payload map_lower PayloadMasked input output).1 ++
      strings_in (Apply_payload map_lower PayloadMasked input output).2 ->
  infix t (bytes_of s) -> ~ Email t.
Proof.
  cbn [fst snd Apply_payload]. intros Hs Ht HE. apply elem_of_app in Hs as [Hs|Hs];
    exact (mask_no_email map_lower _ s Hs t Ht HE).
Qed.

Definition example_text : string := "ask bob@example.org, card 4111 1111 1111 1111".

Lemma masked_payload_has_no_email_witness :
  maskString example_text = "ask <redacted>, card <redacted>" /\ Email (bytes_of "bob@example.org") /\
  ~ infix (bytes_of "bob@example.org") (bytes_of (maskString example_text)).
Proof.
  assert (HE : Email (bytes_of "bob@example.org")).
  { change 15 with (0 + 15). apply (match_here_sound is_word is_nl). reflexivity. }
  split_and!; [reflexivity|done|].
  intros Hin. apply (masked_payload_has_no_email id (VStr example_text) VNil (maskString example_text) (bytes_of "bob@example.org"));
    [by left|done|done].
Defined.

(** A card number written right after a letter, a digit or an underscore has
    no word boundary before it, and a masked payload keeps it as it is. *)
Theorem card_after_a_letter_is_kept :
  maskString "no4111111111111111" = "no4111111111111111" /\
  maskString "no 4111111111111111" = "no <redacted>".
Proof. split; reflexivity. Qed.

(** ** What a diff tells *)

Lemma obj_get_cons k v m j : obj_get ((k, v) :: m) j = if String.eqb k j then Some v else obj_get m j.
Proof. unfold obj_get. cbn. by destruct (String.eqb k j). Qed.

Lemma obj_get_none m k : ~ k ∈ keys m -> obj_get m k = None.
Proof.
  induction m as [|[i x] m IH]; intros H; [done|]. rewrite obj_get_cons. cbn in H. rewrite not_elem_of_cons in H.
  destruct H as [H1 H2]. rewrite (proj2 (String.eqb_neq i k)) by congruence. by apply IH.
Qed.

(** A field has the same value before and after, or is in neither. *)
Definition unchanged (b a : list (string * value)) (k : string) : bool :=
  match obj_get b k, obj_get a k with
  | Some x, Some y => DeepEqual x y
  | None, None => true
  | _, _ => false
  end.

Section changes.
Context (map_lower : string -> string) (Marshal : value -> result string string) (sha256 : string -> string).
#[local] Abbreviation redactValue := (redactValue map_lower Marshal sha256).
#[local] Abbreviation changed_in := (changed_in map_lower Marshal sha256).
#[local] Abbreviation added_in := (added_in map_lower Marshal sha256).

Lemma changed_in_get a d e k :
  obj_get (Before (changed_in a d e)) k =
    (if String.eqb e.1 k && negb (unchanged [e] a k) then Some (redactValue k e.2) else obj_get (Before d) k) /\
  obj_get (After (changed_in a d e)) k =
    (if String.eqb e.1 k && negb (unchanged [e] a k)
     then match obj_get a k with Some av => Some (redactValue k av) | None => obj_get (After d) k end
     else obj_get (After d) k).
Proof.
  destruct e as [i v]. unfold AuditEvents.changed_in, unchanged. rewrite obj_get_cons. cbn [fst snd].
  destruct (String.eqb i k) eqn:E.
  - apply String.eqb_eq in E as ->. cbn [andb]. destruct (obj_get a k) as [av|]; [destruct (DeepEqual v av)|]; cbn [negb Before After];
      rewrite ?obj_get_set, ?String.eqb_refl; done.
  - cbn [andb]. destruct (obj_get a i) as [av|]; [destruct (DeepEqual v av)|]; cbn [Before After]; rewrite ?obj_get_set, ?E; done.
Qed.

Lemma changed_get a l d k : NoDup (keys l) ->
  obj_get (Before (foldl (changed_in a) d l)) k =
    match obj_get l k with
    | Some v => if unchanged l a k then obj_get (Before d) k else Some (redactValue k v)
    | None => obj_get (Before d) k
    end /\
  obj_get (After (foldl (changed_in a) d l)) k =
    match obj_get l k, obj_get a k with
    | Some v, Some av => if unchanged l a k then obj_get (After d) k else Some (redactValue k av)
    | _, _ => obj_get (After d) k
    end.
Proof.
  revert d; induction l as [|[i v] l IH]; intros d Hnd; [done|]. cbn [foldl].
  inversion Hnd as [|? ? Hi Hnd']; subst. destruct (IH (changed_in a d (i, v)) Hnd') as [-> ->]; clear IH.
  destruct (changed_in_get a d (i, v) k) as [-> ->]. unfold unchanged. rewrite !obj_get_cons. cbn [fst snd].
  destruct (String.eqb i k) eqn:E; cbn [andb].
  - apply String.eqb_eq in E as ->. rewrite (obj_get_none l k Hi).
    destruct (obj_get a k) as [av|]; [destruct (DeepEqual v av)|]; done.
  - done.
Qed.

Lemma added_get b l d k : NoDup (keys l) ->
  Before (foldl (added_in b) d l) = Before d /\
  obj_get (After (foldl (added_in b) d l)) k =
    match obj_get l k, obj_get b k with
    | Some v, None => Some (redactValue k v)
    | _, _ => obj_get (After d) k
    end.
Proof.
  revert d; induction l as [|[i v] l IH]; intros d Hnd; [done|]. cbn [foldl].
  inversion Hnd as [|? ? Hi Hnd']; subst. destruct (IH (added_in b d (i, v)) Hnd') as [-> ->]; clear IH.
  unfold AuditEvents.added_in. rewrite obj_get_cons. cbn [fst snd]. split; [by destruct (obj_get b i)|].
  destruct (String.eqb i k) eqn:E.
  - apply String.eqb_eq in E as ->. rewrite (obj_get_none l k Hi).
    destruct (obj_get b k); cbn [After]; rewrite ?obj_get_set, ?String.eqb_refl; done.
  - destruct (obj_get b i); cbn [After]; rewrite ?obj_get_set, ?E; done.
Qed.

Lemma changes_get b a k : NoDup (keys b) -> NoDup (keys a) ->
  let d := foldl (added_in b) (foldl (changed_in a) (mkDiff [] []) b) a in
  obj_get (Before d) k = (if unchanged b a k then None else redactValue k <$> obj_get b k) /\
  obj_get (After d) k = (if unchanged b a k then None else redactValue k <$> obj_get a k).
Proof.
  intros Hb Ha. cbn zeta. destruct (added_get b a (foldl (changed_in a) (mkDiff [] []) b) k Ha) as [-> ->].
  destruct (changed_get a b (mkDiff [] []) k Hb) as [-> ->]. unfold unchanged.
  destruct (obj_get b k), (obj_get a k); cbn; try done; by destruct (DeepEqual _ _).
Qed.
End changes.

(** The diff of an administrator's change names exactly the fields whose
    value changed, appeared or went, with the old and the new value of each
    (a digest of it when the field names a secret); there is no diff exactly
    when nothing changed. *)
Theorem Changes_tells_what_changed map_lower Marshal sha256 b a :
  NoDup (keys b) -> NoDup (keys a) ->
  match Changes map_lower Marshal sha256 (Some b) (Some a) with
  | None => forall k, unchanged b a k = true
  | Some d =>
      (exists k, unchanged b a k = false) /\
      forall k,
        obj_get (Before d) k =
          (if unchanged b a k then None else redactValue map_lower Marshal sha256 k <$> obj_get b k) /\
        obj_get (After d) k =
          (if unchanged b a k then None else redactValue map_lower Marshal sha256 k <$> obj_get a k)
  end.
Proof.
  intros Hb Ha. unfold Changes. change (default [] (Some b)) with b. change (default [] (Some a)) with a.
  pose proof (fun k => changes_get map_lower Marshal sha256 b a k Hb Ha) as H. cbn zeta in H.
  set (d := foldl _ _ a) in *. clearbody d. destruct d as [[|[k x] B] A]; cbn [Before After] in *.
  - destruct A as [|[k x] A].
    + intros k. destruct (H k) as [H1 H2]. destruct (unchanged b a k) eqn:E; [done|]. exfalso.
      unfold unchanged in E. by destruct (obj_get b k), (obj_get a k).
    + split; [|done]. exists k. destruct (H k) as [_ H2]. rewrite obj_get_cons, String.eqb_refl in H2.
      by destruct (unchanged b a k).
  - split; [|done]. exists k. destruct (H k) as [H1 _]. rewrite obj_get_cons, String.eqb_refl in H1.
    by destruct (unchanged b a k).
Qed.

Definition example_before : list (string * value) := [("api_key", VStr "old"); ("name", VStr "crm"); ("url", VStr "https://a")].
Definition example_after : list (string * value) := [("api_key", VStr "new"); ("name", VStr "crm"); ("owner", VStr "ops")].

Lemma Changes_tells_what_changed_witness :
  Changes id (fun v => match v with VStr s => Ok s | _ => Err "" end) id (Some example_before) (Some example_after) =
    Some (mkDiff [("api_key", VStr "<redacted:6f6c64>"); ("url", VStr "https://a")]
            [("api_key", VStr "<redacted:6e6577>"); ("owner", VStr "ops")]) /\
  exists k, unchanged example_before example_after k = false.
Proof.
  split; [reflexivity|].
  apply (Changes_tells_what_changed id (fun v => match v with VStr s => Ok s | _ => Err "" end) id example_before example_after);
    by apply (bool_decide_unpack _).
Defined.
