(* ===== verification/AuditChain.v ===== *)
(** * AuditChain: the hash-linked stream of audit events

    [append], [ContentHash] and [chainHash] of [internal/audit/audit.go],
    [Verify] and [Anchor] of [read.go], and the edits the chain allows
    (a legal hold, a rewritten display name).  The stream is the table's
    rows in the order of their sequence numbers, the anchors are a map by
    sequence number.  SHA-256, the timestamp format, JSON encoding, address
    parsing and what text Postgres stores are arguments.  What retention
    removes is in [AuditRetention.v], how a writer's queue and spool reach
    [append] in [AuditWriter.v]. *)
From S2P Require Import Prelude GoStrings Float64 Regex Values Sha256 AuditEvents.

Open Scope list_scope.

(** A row as the writer builds it and as [Verify] reads it back: what the
    chain covers.  A nil byte slice is [None]. *)
Record chain_row : Type := mkChainRow {
  r_id : string;
  r_ts : Z;
  r_diff : option string;
  r_payload : option string;
  r_meta : option string;
  r_ip : option string;
  r_contentHash : string;
  r_prevHash : string;
  r_hash : string;
  r_category : string;
  r_action : string;
  r_outcome : string;
  r_actorKind : string;
  r_actorID : string;
  r_targetKind : string;
  r_targetID : string;
  r_orgID : string;
}.

(** A row of [audit_events]: the columns nothing updates, and the rest. *)
Record written : Type := mkWritten {
  c_seq : Z;
  c_id : string;
  c_ts : Z;
  c_organization_id : option string;
  c_category : string;
  c_action : string;
  c_outcome : string;
  c_actor_kind : string;
  c_actor_id : option string;
  c_on_behalf_of : option string;
  c_target_kind : option string;
  c_target_id : option string;
  c_request_id : option string;
  c_session_id : option string;
  c_ip : option string;
  c_user_agent : option string;
  c_meta : option string;
  c_content_hash : string;
  c_prev_hash : string;
  c_hash : string;
}.

Record event_row : Type := mkEventRow {
  er_written : written;
  er_actor_display : string;
  er_target_display : string;
  er_diff : option string;
  er_payload : option string;
  er_scrubbed_at : option Z;
  er_legal_hold : bool;
}.

Definition seq_of (r : event_row) : Z := c_seq (er_written r).
Definition hash_of (r : event_row) : string := c_hash (er_written r).
Definition prev_of (r : event_row) : string := c_prev_hash (er_written r).
Definition ts_of (r : event_row) : Z := c_ts (er_written r).
Definition org_of (r : event_row) : option string := c_organization_id (er_written r).

Inductive anchor_kind : Type := Checkpoint | RetentionCut.

#[export] Instance anchor_kind_eq_dec : EqDecision anchor_kind.
Proof. solve_decision. Defined.

(** A row of [audit_anchors], under its sequence number. *)
Record anchor : Type := mkAnchor { an_hash : string; an_kind : anchor_kind; an_signature : option string }.

(** The two tables; [ad_next] is the next number of the identity sequence,
    which a rolled-back insert does not give back. *)
Record audit_db : Type := mkAuditDb { ad_events : list event_row; ad_next : Z; ad_anchors : gmap Z anchor }.

Definition with_events (db : audit_db) (l : list event_row) : audit_db := mkAuditDb l (ad_next db) (ad_anchors db).

(** ** The hashes *)

Definition NUL : string := String "000" "".

Definition zero_hash : string := string_of (replicate 32 "000"%char).

Definition nullif (s : string) : option string := if String.eqb s "" then None else Some s.

Definition deref (s : option string) : string := default "" s.

Definition truncate_us (t : Z) : Z := t - t mod 1000.

Section hashes.
Context (sha256 : string -> string) (format_time : Z -> string).

(** What [ContentHash] writes to its hash. *)
Definition content_text (diff payload meta : option string) : string :=
  sha256 (deref diff) +:+ sha256 (deref payload) +:+ sha256 (deref meta).

Definition ContentHash (diff payload meta : option string) : string := sha256 (content_text diff payload meta).

(** The ten fields of [chainHash], each followed by a NUL. *)
Definition facts (r : chain_row) : list string :=
  [r_id r; format_time (truncate_us (r_ts r)); r_orgID r; r_category r; r_action r; r_outcome r;
   r_actorKind r; r_actorID r; r_targetKind r; r_targetID r].

Definition terminated (l : list string) : string := foldr (fun f s => f +:+ NUL +:+ s) "" l.

(** What [chainHash] writes to its hash. *)
Definition chain_text (prev : string) (r : chain_row) : string := prev +:+ terminated (facts r) +:+ r_contentHash r.

Definition chainHash (prev : string) (r : chain_row) : string := sha256 (chain_text prev r).
End hashes.

(** ** Appending *)

Inductive audit_error : Type :=
  | ErrUUID (e : string)
  | ErrMarshal (e : string)
  | ErrEncodingRefused
  | ErrOutcomeCheck
  | ErrDatabase (e : string).

Section append.
Context (sha256 : string -> string) (format_time : Z -> string) (Marshal : value -> result string string)
  (ParseAddr : string -> option string) (pg_text : string -> bool).

(** [marshalCapped]. *)
Definition marshalCapped (cap : nat) (v : value) : result string string :=
  match Marshal v with
  | Err e => Err e
  | Ok b => if cap <? String.length b
            then Marshal (VMap [("_bytes", VInt (Z.of_nat (String.length b))); ("_truncated", VBool true)])
            else Ok b
  end.

Definition marshal_opt (f : value -> result string string) (o : option value) : result audit_error (option string) :=
  match o with
  | None => Ok None
  | Some v => match f v with Ok b => Ok (Some b) | Err e => Err (ErrMarshal e) end
  end.

(** [rowFor]; [id] is what [uuid.NewV7] answers and [now] the clock. *)
Definition rowFor (cap : nat) (id : result string string) (now : Z) (e : AuditEvent) : result audit_error chain_row :=
  match id with
  | Err x => Err (ErrUUID x)
  | Ok id =>
      diff ← marshal_opt (marshalCapped cap) (e_Diff e);
      payload ← marshal_opt (marshalCapped cap) (e_Payload e);
      meta ← marshal_opt Marshal (VMap <$> e_Meta e);
      Ok (mkChainRow id (truncate_us now) diff payload meta (ParseAddr (e_IP e)) "" "" "" (e_Category e) (e_Action e)
            (e_Outcome e) (e_ActorKind e) (e_ActorID e) (e_TargetKind e) (e_TargetID e) (e_OrgID e))
  end.

Definition with_hashes (r : chain_row) (content prev hash : string) : chain_row :=
  mkChainRow (r_id r) (r_ts r) (r_diff r) (r_payload r) (r_meta r) (r_ip r) content prev hash (r_category r) (r_action r)
    (r_outcome r) (r_actorKind r) (r_actorID r) (r_targetKind r) (r_targetID r) (r_orgID r).

(** The row with its three hashes, as the loop of [append] fills them in. *)
Definition linked (prev : string) (r : chain_row) : chain_row :=
  let c := ContentHash sha256 (r_diff r) (r_payload r) (r_meta r) in
  let r := with_hashes r c prev "" in
  with_hashes r c prev (chainHash sha256 format_time prev r).

(** The texts the INSERT sends. *)
Definition insert_texts (r : chain_row) (e : AuditEvent) : list string :=
  [e_OrgID e; e_Category e; e_Action e; e_Outcome e; e_ActorKind e; e_ActorID e; e_ActorDisplay e; e_OnBehalfOf e;
   e_TargetKind e; e_TargetID e; e_TargetDisplay e; e_RequestID e; e_SessionID e; e_UserAgent e] ++
  omap id [r_diff r; r_payload r; r_meta r].

(** The outcome check of the table. *)
Definition outcome_stored (o : string) : bool := existsb (String.eqb o) ["success"; "failure"; "denied"; "pending"].

Definition row_values (n : Z) (r : chain_row) (e : AuditEvent) : event_row :=
  mkEventRow
    (mkWritten n (r_id r) (r_ts r) (nullif (e_OrgID e)) (e_Category e) (e_Action e) (e_Outcome e) (e_ActorKind e)
       (nullif (e_ActorID e)) (nullif (e_OnBehalfOf e)) (nullif (e_TargetKind e)) (nullif (e_TargetID e))
       (nullif (e_RequestID e)) (nullif (e_SessionID e)) (r_ip r) (nullif (e_UserAgent e)) (r_meta r)
       (r_contentHash r) (r_prevHash r) (r_hash r))
    (e_ActorDisplay e) (e_TargetDisplay e) (r_diff r) (r_payload r) None false.

(** The INSERT: the row takes the next number of the sequence. *)
Definition insert_event (r : chain_row) (e : AuditEvent) (db : audit_db) : result audit_error unit * audit_db :=
  if negb (forallb pg_text (insert_texts r e)) then (Err ErrEncodingRefused, db)
  else
    let db' := mkAuditDb (ad_events db ++ [row_values (ad_next db) r e]) (ad_next db + 1) (ad_anchors db) in
    if negb (outcome_stored (e_Outcome e)) then (Err ErrOutcomeCheck, db') else (Ok (), db').

(** What an event is stamped with: the answer of the id generator and the
    clock. *)
Definition stamped : Type := AuditEvent * (result string string * Z).

(** The loop of [append]. *)
Fixpoint append_loop (cap : nat) (prev : string) (events : list stamped) (db : audit_db)
  : result audit_error unit * audit_db :=
  match events with
  | [] => (Ok (), db)
  | (e, (id, now)) :: events =>
      match rowFor cap id now e with
      | Err x => (Err x, db)
      | Ok r =>
          let r := linked prev r in
          match insert_event r e db with
          | (Err x, db) => (Err x, db)
          | (Ok _, db) => append_loop cap (r_hash r) events db
          end
      end
  end.

Definition head_hash (db : audit_db) : string :=
  match last (ad_events db) with Some r => hash_of r | None => zero_hash end.

(** What the database does with the transaction: takes it, refuses it (at
    its start, its lock, its read or its commit), or commits it and loses
    the answer. *)
Inductive db_answer : Type := Commits | Refuses (e : string) | CommitsUnheard (e : string).

(** A rolled-back transaction leaves the rows and the anchors as they were;
    the numbers its inserts drew stay used. *)
Definition rolled_back (db db' : audit_db) : audit_db := mkAuditDb (ad_events db) (ad_next db') (ad_anchors db).

(** The transaction of [append]. *)
Definition append_tx (cap : nat) (events : list stamped) (ans : db_answer) (db : audit_db)
  : result audit_error unit * audit_db :=
  match append_loop cap (head_hash db) events db with
  | (Err x, db') => (Err x, rolled_back db db')
  | (Ok _, db') =>
      match ans with
      | Commits => (Ok (), db')
      | Refuses e => (Err (ErrDatabase e), rolled_back db db')
      | CommitsUnheard e => (Err (ErrDatabase e), db')
      end
  end.
End append.

(** ** Verifying *)

(** What [Explained] says, with the numbers it prints. *)
Inductive explanation : Type :=
  | Unexplained
  | DoesNotFollowCut (row : Z)
  | StartsAfterNothing (row : Z)
  | OtherPredecessor (row after : Z)
  | RemovedBetween (row after : Z)
  | ModifiedRow (row : Z)
  | ChangedContent (row : Z)
  | CheckpointMismatch (row : Z)
  | CheckpointUnsigned (row : Z) (e : string)
  | HeadRemoved (checkpoint last : Z).

Record VerifyResult : Type := mkVerifyResult {
  vr_Checked : Z;
  vr_FirstSeq : Z;
  vr_LastSeq : Z;
  vr_Valid : bool;
  vr_BrokenAt : Z;
  vr_Explained : explanation;
  vr_Scrubbed : Z;
  vr_Anchors : Z;
  vr_Unsigned : Z;
  vr_RetentionCut : Z;
}.

Definition broken (res : VerifyResult) (at_ : Z) (why : explanation) : VerifyResult :=
  mkVerifyResult (vr_Checked res) (vr_FirstSeq res) (vr_LastSeq res) false at_ why (vr_Scrubbed res) (vr_Anchors res)
    (vr_Unsigned res) (vr_RetentionCut res).

(** [($1 = 0 OR seq >= $1) AND ($2 = 0 OR seq <= $2)]. *)
Definition in_range (from to_ n : Z) : bool := (((from =? 0) || (from <=? n)) && ((to_ =? 0) || (n <=? to_)))%Z.

Definition rows_in (from to_ : Z) (db : audit_db) : list event_row :=
  List.filter (fun r => in_range from to_ (seq_of r)) (ad_events db).

Definition max_key (p : Z -> anchor -> bool) (m : gmap Z anchor) : option Z :=
  foldr (fun e acc => if p e.1 e.2 then Some (match acc with Some n => Z.max n e.1 | None => e.1 end) else acc)
    None (map_to_list m).

(** The statement that finds what bridges the first row: the newest
    retention cut below it, with no row between the two. *)
Definition bridge (from to_ : Z) (db : audit_db) : option (Z * string) :=
  match rows_in from to_ db with
  | [] => None
  | f :: _ =>
      match max_key (fun n a => bool_decide (an_kind a = RetentionCut) && (n <? seq_of f)%Z) (ad_anchors db) with
      | None => None
      | Some c =>
          if existsb (fun e => (c <? seq_of e) && (seq_of e <? seq_of f))%Z (ad_events db) then None
          else option_map (fun a => (c, an_hash a)) (ad_anchors db !! c)
      end
  end.

Definition is_checkpoint (from to_ n : Z) (a : anchor) : bool :=
  bool_decide (an_kind a = Checkpoint) && in_range from to_ n.

(** [checkpoints[seq]]. *)
Definition checkpoint_at (from to_ : Z) (db : audit_db) (n : Z) : option (string * string) :=
  match ad_anchors db !! n with
  | Some a => if is_checkpoint from to_ n a then Some (an_hash a, deref (an_signature a)) else None
  | None => None
  end.

Definition lastCheckpoint (from to_ : Z) (db : audit_db) : Z :=
  Z.max 0 (default 0%Z (max_key (is_checkpoint from to_) (ad_anchors db))).

(** The row as the scan of [Verify] fills it. *)
Definition scanned (e : event_row) : chain_row :=
  let c := er_written e in
  mkChainRow (c_id c) (c_ts c) (er_diff e) (er_payload e) (c_meta c) None (c_content_hash c) (c_prev_hash c) (c_hash c)
    (c_category c) (c_action c) (c_outcome c) (c_actor_kind c) (deref (c_actor_id c)) (deref (c_target_kind c))
    (deref (c_target_id c)) (deref (c_organization_id c)).

Section verify.
Context (sha256 : string -> string) (format_time : Z -> string).
Context (VerifyAnchor : option (string -> string -> option string)).

(** What accounts for the first row: the retention cut taken, or a break. *)
Definition first_row (from : Z) (bridged : option (Z * string)) (seq : Z) (prevHash : string) : explanation + option Z :=
  let ok := match bridged with
            | Some (n, h) => negb (negb (n =? seq - 1)%Z && negb (String.eqb h prevHash))
            | None => false
            end in
  match bridged with
  | Some (n, h) =>
      if ok && negb (String.eqb h prevHash) then inl (DoesNotFollowCut seq)
      else if negb ok && (from =? 0)%Z && negb (String.eqb prevHash zero_hash) then inl (StartsAfterNothing seq)
      else inr (if ok then Some n else None)
  | None =>
      if (from =? 0)%Z && negb (String.eqb prevHash zero_hash) then inl (StartsAfterNothing seq) else inr None
  end.

(** The checkpoint of a row: what the counters of matched and unsigned
    checkpoints grow by, or a break. *)
Definition check_anchor (cp : option (string * string)) (seq : Z) (hash : string) : explanation + (Z * Z) :=
  match cp with
  | None => inr (0, 0)%Z
  | Some (h, sig) =>
      if negb (String.eqb h hash) then inl (CheckpointMismatch seq)
      else match VerifyAnchor with
           | None => inr (1, 0)%Z
           | Some check =>
               if String.eqb sig "" then inr (1, 1)%Z
               else match check h sig with
                    | Some e => inl (CheckpointUnsigned seq e)
                    | None => inr (1, 0)%Z
                    end
           end
  end.

(** One row of the walk, after the first has been accounted for. *)
Definition verify_row (cp : Z -> option (string * string)) (e : event_row) (prev : string) (res : VerifyResult)
  : VerifyResult + (string * VerifyResult) :=
  let r := scanned e in
  let seq := seq_of e in
  if negb (String.eqb (r_prevHash r) prev)
  then inl (broken res seq (if (vr_LastSeq res <? seq - 1)%Z then RemovedBetween seq (vr_LastSeq res)
                            else OtherPredecessor seq (vr_LastSeq res)))
  else if negb (String.eqb (chainHash sha256 format_time (r_prevHash r) r) (r_hash r)) then inl (broken res seq (ModifiedRow seq))
  else
    let scrubbed := match er_scrubbed_at e with Some _ => true | None => false end in
    if negb scrubbed && negb (String.eqb (ContentHash sha256 (r_diff r) (r_payload r) (r_meta r)) (r_contentHash r))
    then inl (broken res seq (ChangedContent seq))
    else
      let res := mkVerifyResult (vr_Checked res) (vr_FirstSeq res) (vr_LastSeq res) (vr_Valid res) (vr_BrokenAt res)
                   (vr_Explained res) (if scrubbed then vr_Scrubbed res + 1 else vr_Scrubbed res) (vr_Anchors res)
                   (vr_Unsigned res) (vr_RetentionCut res) in
      match check_anchor (cp seq) seq (r_hash r) with
      | inl why => inl (broken res seq why)
      | inr (a, u) =>
          inr (r_hash r,
               mkVerifyResult (vr_Checked res + 1) (vr_FirstSeq res) seq (vr_Valid res) (vr_BrokenAt res)
                 (vr_Explained res) (vr_Scrubbed res) (vr_Anchors res + a) (vr_Unsigned res + u) (vr_RetentionCut res))
      end.

Fixpoint verify_rows (cp : Z -> option (string * string)) (rows : list event_row) (prev : string) (res : VerifyResult)
  : VerifyResult :=
  match rows with
  | [] => res
  | e :: rows =>
      match verify_row cp e prev res with
      | inl res => res
      | inr (prev, res) => verify_rows cp rows prev res
      end
  end.

Definition no_rows : VerifyResult := mkVerifyResult 0 0 0 true 0 Unexplained 0 0 0 0.

(** The walk over the rows, the first one included. *)
Definition verify_walk (from : Z) (bridged : option (Z * string)) (cp : Z -> option (string * string))
  (rows : list event_row) : VerifyResult :=
  match rows with
  | [] => no_rows
  | e :: _ =>
      match first_row from bridged (seq_of e) (prev_of e) with
      | inl why => broken no_rows (seq_of e) why
      | inr cut =>
          verify_rows cp rows (prev_of e)
            (mkVerifyResult 0 (seq_of e) 0 true 0 Unexplained 0 0 0 (default 0%Z cut))
      end
  end.

(** [Verify]. *)
Definition Verify (from to_ : Z) (db : audit_db) : VerifyResult :=
  let res := verify_walk from (bridge from to_ db) (checkpoint_at from to_ db) (rows_in from to_ db) in
  let lastCP := lastCheckpoint from to_ db in
  if vr_Valid res && (vr_LastSeq res <? lastCP)%Z
  then broken res (vr_LastSeq res + 1) (HeadRemoved lastCP (vr_LastSeq res))
  else res.

(** ** What a verified stream is *)

Definition content_matches (e : event_row) : Prop :=
  er_scrubbed_at e <> None \/
  ContentHash sha256 (er_diff e) (er_payload e) (c_meta (er_written e)) = c_content_hash (er_written e).

(** A checkpoint at a row vouches for it: it has the row's hash, and the
    signature it carries, if it carries one, is good. *)
Definition vouched (cp : option (string * string)) (hash : string) : Prop :=
  match cp with
  | None => True
  | Some (h, sig) =>
      h = hash /\ match VerifyAnchor with None => True | Some check => sig = "" \/ check h sig = None end
  end.

(** Every row follows from the one before it, hashes to what it says, has the
    content it was written with unless that was scrubbed, and agrees with its
    checkpoint. *)
Fixpoint follows (cp : Z -> option (string * string)) (prev : string) (rows : list event_row) : Prop :=
  match rows with
  | [] => True
  | e :: rows =>
      prev_of e = prev /\
      chainHash sha256 format_time prev (scanned e) = hash_of e /\
      content_matches e /\
      vouched (cp (seq_of e)) (hash_of e) /\
      follows cp (hash_of e) rows
  end.

(** Where a walk may start. *)
Definition starts (from : Z) (bridged : option (Z * string)) (seq : Z) (prev : string) : Prop :=
  match bridged with
  | Some (n, h) => h = prev \/ (n <> (seq - 1)%Z /\ (from <> 0%Z \/ prev = zero_hash))
  | None => from <> 0%Z \/ prev = zero_hash
  end.

Definition verified (from to_ : Z) (db : audit_db) : Prop :=
  match rows_in from to_ db with
  | [] => lastCheckpoint from to_ db = 0%Z
  | (e :: _) as rows =>
      starts from (bridge from to_ db) (seq_of e) (prev_of e) /\
      follows (checkpoint_at from to_ db) (prev_of e) rows /\
      (lastCheckpoint from to_ db <= default 0 (seq_of <$> last rows))%Z
  end.
End verify.

Section verify_facts.
Context (sha256 : string -> string) (format_time : Z -> string).
Context (VerifyAnchor : option (string -> string -> option string)).
#[local] Abbreviation verify_row := (verify_row sha256 format_time VerifyAnchor).
#[local] Abbreviation verify_rows := (verify_rows sha256 format_time VerifyAnchor).
#[local] Abbreviation follows := (follows sha256 format_time VerifyAnchor).
#[local] Abbreviation check_anchor := (check_anchor VerifyAnchor).
#[local] Abbreviation vouched := (vouched VerifyAnchor).

Lemma check_anchor_spec cp seq hash :
  match check_anchor cp seq hash with inl _ => ~ vouched cp hash | inr _ => vouched cp hash end.
Proof.
  unfold AuditChain.check_anchor, AuditChain.vouched. destruct cp as [[h sig]|]; [|done].
  destruct (String.eqb h hash) eqn:E; cbn; bool_prop; [|tauto].
  destruct VerifyAnchor as [check|]; [|done].
  destruct (String.eqb sig "") eqn:Es; bool_prop; [auto|].
  destruct (check h sig) eqn:Ec; [|auto]. intros [_ [?|?]]; done.
Qed.

Lemma content_check e :
  if negb (match er_scrubbed_at e with Some _ => true | None => false end) &&
     negb (String.eqb (ContentHash sha256 (er_diff e) (er_payload e) (c_meta (er_written e))) (c_content_hash (er_written e)))
  then ~ content_matches sha256 e else content_matches sha256 e.
Proof.
  unfold content_matches. destruct (er_scrubbed_at e); cbn; [by left|].
  destruct (String.eqb _ _) eqn:E; cbn; bool_prop; [by right|]. by intros [|].
Qed.

(** What one row of the walk needs. *)
Definition row_follows (cp : Z -> option (string * string)) (prev : string) (e : event_row) : Prop :=
  prev_of e = prev /\ chainHash sha256 format_time prev (scanned e) = hash_of e /\ content_matches sha256 e /\
  vouched (cp (seq_of e)) (hash_of e).

Lemma verify_row_spec cp e prev res : vr_Valid res = true ->
  match verify_row cp e prev res with
  | inl res' => vr_Valid res' = false /\ ~ row_follows cp prev e
  | inr (h, res') =>
      row_follows cp prev e /\ h = hash_of e /\ vr_Valid res' = true /\ vr_LastSeq res' = seq_of e
  end.
Proof.
  intros Hv. unfold AuditChain.verify_row, row_follows. change (r_prevHash (scanned e)) with (prev_of e).
  change (r_hash (scanned e)) with (hash_of e).
  destruct (String.eqb (prev_of e) prev) eqn:E1; cbn [negb]; bool_prop; [|split; [done|tauto]].
  destruct (String.eqb (chainHash sha256 format_time (prev_of e) (scanned e)) (hash_of e)) eqn:E2; cbn [negb]; bool_prop;
    [|split; [done|rewrite <-E1; tauto]].
  rewrite <-E1. pose proof (content_check e) as Hc.
  change (ContentHash sha256 (r_diff (scanned e)) (r_payload (scanned e)) (r_meta (scanned e)))
    with (ContentHash sha256 (er_diff e) (er_payload e) (c_meta (er_written e))).
  change (r_contentHash (scanned e)) with (c_content_hash (er_written e)).
  destruct (_ && _); [split; [done|tauto]|].
  pose proof (check_anchor_spec (cp (seq_of e)) (seq_of e) (hash_of e)) as Ha.
  destruct (check_anchor _ _ _) as [why|[a u]]; cbn; [split; [done|tauto]|].
  split_and!; try done; tauto.
Qed.

Lemma verify_rows_spec cp rows prev res : vr_Valid res = true ->
  (vr_Valid (verify_rows cp rows prev res) = true <-> follows cp prev rows) /\
  (follows cp prev rows -> vr_LastSeq (verify_rows cp rows prev res) = default (vr_LastSeq res) (seq_of <$> last rows)).
Proof.
  revert prev res; induction rows as [|e rows IH]; intros prev res Hv; [done|].
  cbn [AuditChain.verify_rows AuditChain.follows]. pose proof (verify_row_spec cp e prev res Hv) as Hr.
  unfold row_follows in Hr. destruct (verify_row cp e prev res) as [res'|[h res']].
  - destruct Hr as [-> Hr]. split; [split; [done|]|]; intros H; destruct Hr; tauto.
  - destruct Hr as (Hr & -> & Hv' & Hl). destruct (IH (hash_of e) res' Hv') as [H1 H2]. split; [rewrite H1; tauto|].
    intros (_ & _ & _ & _ & H). rewrite (H2 H), last_cons, Hl. by destruct (last rows).
Qed.

Lemma first_row_spec from b seq prev :
  match first_row from b seq prev with inl _ => ~ starts from b seq prev | inr _ => starts from b seq prev end.
Proof.
  unfold first_row, starts. destruct b as [[n h]|].
  - destruct (String.eqb h prev) eqn:E1, (n =? seq - 1)%Z eqn:E2, (from =? 0)%Z eqn:E3, (String.eqb prev zero_hash) eqn:E4;
      cbn; bool_prop; tauto.
  - destruct (from =? 0)%Z eqn:E3, (String.eqb prev zero_hash) eqn:E4; cbn; bool_prop; tauto.
Qed.

Lemma lastCheckpoint_nonneg from to_ db : (0 <= lastCheckpoint from to_ db)%Z.
Proof. unfold lastCheckpoint. lia. Qed.

(** [Verify] says valid of exactly the verified streams. *)
Lemma Verify_iff from to_ db :
  vr_Valid (Verify sha256 format_time VerifyAnchor from to_ db) = true <->
  verified sha256 format_time VerifyAnchor from to_ db.
Proof.
  unfold Verify, verified, verify_walk. pose proof (lastCheckpoint_nonneg from to_ db) as H0.
  destruct (rows_in from to_ db) as [|e rows] eqn:Er.
  - cbn. destruct (0 <? lastCheckpoint from to_ db)%Z eqn:E; cbn; bool_prop; split; try done; lia.
  - pose proof (first_row_spec from (bridge from to_ db) (seq_of e) (prev_of e)) as Hf.
    destruct (first_row _ _ _ _) as [why|cut]; cbn [broken vr_Valid andb]; [split; [done|tauto]|].
    set (res0 := mkVerifyResult _ _ _ _ _ _ _ _ _ _).
    destruct (verify_rows_spec (checkpoint_at from to_ db) (e :: rows) (prev_of e) res0 eq_refl) as [H1 H2].
    change (vr_LastSeq res0) with 0%Z in H2. set (res := verify_rows _ _ _ _) in *.
    destruct (vr_Valid res) eqn:Ev; cbn [andb].
    + pose proof (proj1 H1 eq_refl) as Hfol. rewrite (H2 Hfol).
      destruct (_ <? _)%Z eqn:E; cbn [broken vr_Valid]; bool_prop.
      * split; [done|]. intros (_ & _ & Hle). lia.
      * rewrite Ev. split; [intros _; done|done].
    + rewrite Ev. split; [done|]. intros (_ & Hfol & _). by apply H1.
Qed.
End verify_facts.

(** ** Checkpoints and lawful edits *)

(** The INSERT of a checkpoint. *)
Definition put_checkpoint (r : event_row) (sig : string) (db : audit_db) : audit_db :=
  mkAuditDb (ad_events db) (ad_next db) (<[seq_of r := mkAnchor (hash_of r) Checkpoint (nullif sig)]> (ad_anchors db)).

(** [Anchor]; [sign] is the signer, when there is one. *)
Definition Anchor_head (sign : option (string -> result string string)) (db : audit_db) : result audit_error audit_db :=
  match last (ad_events db) with
  | None => Ok db
  | Some r =>
      match ad_anchors db !! seq_of r with
      | Some _ => Ok db
      | None =>
          match sign with
          | None => Ok (put_checkpoint r "" db)
          | Some sign => match sign (hash_of r) with Ok sig => Ok (put_checkpoint r sig db) | Err e => Err (ErrDatabase e) end
          end
      end
  end.

(** The columns an edit may touch, set. *)
Definition with_display (e : event_row) (actor target : string) : event_row :=
  mkEventRow (er_written e) actor target (er_diff e) (er_payload e) (er_scrubbed_at e) (er_legal_hold e).

Definition with_hold (e : event_row) (hold : bool) : event_row :=
  mkEventRow (er_written e) (er_actor_display e) (er_target_display e) (er_diff e) (er_payload e) (er_scrubbed_at e) hold.

(** The UPDATE of [legalHold]. *)
Definition hold_row (org : string) (from to_ : Z) (hold : bool) (e : event_row) : event_row :=
  if bool_decide (org_of e = Some org) && (from <=? ts_of e)%Z && (ts_of e <=? to_)%Z && negb (Bool.eqb (er_legal_hold e) hold)
  then with_hold e hold else e.

Definition legal_hold (org : string) (from to_ : Z) (hold : bool) (db : audit_db) : audit_db :=
  with_events db (hold_row org from to_ hold <$> ad_events db).

(** The UPDATE an erasure makes of [audit_events]. *)
Definition pseudonymise_row (user pseudonym : string) (e : event_row) : event_row :=
  let c := er_written e in
  let acted := bool_decide (c_actor_id c = Some user) in
  let target := bool_decide (c_target_id c = Some user) in
  if (acted && negb (String.eqb (er_actor_display e) pseudonym)) || (target && negb (String.eqb (er_target_display e) pseudonym))
  then with_display e (if acted then pseudonym else er_actor_display e) (if target then pseudonym else er_target_display e)
  else e.

Definition pseudonymise (user pseudonym : string) (db : audit_db) : audit_db :=
  with_events db (pseudonymise_row user pseudonym <$> ad_events db).

(** An edit that leaves what the chain covers. *)
Definition lawful (sha256 : string -> string) (f : event_row -> event_row) : Prop :=
  forall e, er_written (f e) = er_written e /\ (content_matches sha256 e -> content_matches sha256 (f e)).

Lemma hold_lawful sha256 org from to_ hold : lawful sha256 (hold_row org from to_ hold).
Proof. intros e. unfold hold_row. by destruct (_ && _). Qed.

Lemma pseudonymise_lawful sha256 user pseudonym : lawful sha256 (pseudonymise_row user pseudonym).
Proof. intros e. unfold pseudonymise_row. by destruct (_ || _). Qed.

(** ** A sound stream *)

Definition cut_anchor (n : Z) (a : anchor) : bool := bool_decide (an_kind a = RetentionCut).

(** What the first row of the stream has to follow: the newest cut, or the
    beginning. *)
Definition base (db : audit_db) : string :=
  match max_key cut_anchor (ad_anchors db) with
  | Some c => match ad_anchors db !! c with Some a => an_hash a | None => zero_hash end
  | None => zero_hash
  end.

Definition seqs (db : audit_db) : list Z := seq_of <$> ad_events db.

Section sound.
Context (sha256 : string -> string) (format_time : Z -> string).
Context (VerifyAnchor : option (string -> string -> option string)).
#[local] Abbreviation follows := (follows sha256 format_time VerifyAnchor).

(** A stream whose rows follow from [p]: what the next event is chained to
    when there is no row. *)
Record sound_from (p : string) (db : audit_db) : Prop := {
  so_sorted : StronglySorted Z.lt (seqs db);
  so_range : Forall (fun n => 0 < n < ad_next db)%Z (seqs db);
  so_next : (0 < ad_next db)%Z;
  so_follows : follows (checkpoint_at 0 0 db) p (ad_events db);
  so_cuts : forall n a, ad_anchors db !! n = Some a -> an_kind a = RetentionCut -> Forall (Z.lt n) (seqs db);
  so_checkpoints : forall n a, ad_anchors db !! n = Some a -> an_kind a = Checkpoint -> n ∈ seqs db \/ Forall (Z.lt n) (seqs db);
  so_anchors : forall n a, ad_anchors db !! n = Some a -> (0 < n < ad_next db)%Z;
  so_empty : ad_events db = [] -> p = zero_hash;
}.

(** And [p] is what the anchors say comes before. *)
Definition sound (db : audit_db) : Prop := sound_from (base db) db.

Lemma in_range_00 n : in_range 0 0 n = true.
Proof. done. Qed.

Lemma follows_ext cp cp' p l : (forall e, e ∈ l -> cp (seq_of e) = cp' (seq_of e)) -> follows cp p l -> follows cp' p l.
Proof.
  revert p; induction l as [|e l IH]; intros p Hcp; [done|]. cbn. intros (H1 & H2 & H3 & H4 & H5).
  rewrite <-Hcp by left. split_and!; try done. apply IH; [|done]. intros x Hx. apply Hcp. by right.
Qed.

Lemma follows_app cp p l k :
  follows cp p (l ++ k) <-> follows cp p l /\ follows cp (default p (hash_of <$> last l)) k.
Proof.
  revert p; induction l as [|e l IH]; intros p; [cbn; tauto|]. cbn [app AuditChain.follows]. rewrite IH, last_cons.
  destruct (last l); cbn; tauto.
Qed.

Lemma deref_nullif s : deref (nullif s) = s.
Proof. unfold nullif, deref. destruct (String.eqb s "") eqn:E; bool_prop; by subst. Qed.

(** An inserted row follows the head. *)
Lemma inserted_follows Marshal ParseAddr cap id now e r n prev cp :
  rowFor Marshal ParseAddr cap id now e = Ok r -> cp n = None ->
  follows cp prev [row_values n (linked sha256 format_time prev r) e].
Proof.
  intros Hr Hcp. cbn. split_and!; try done.
  - unfold chainHash, chain_text. do 3 f_equal. unfold facts. cbn.
    destruct id as [id|]; [|done]. cbn in Hr.
    destruct (marshal_opt _ (e_Diff e)) as [d|]; [|done]. cbn in Hr.
    destruct (marshal_opt _ (e_Payload e)) as [p|]; [|done]. cbn in Hr.
    destruct (marshal_opt _ _) as [m|]; [|done]. cbn in Hr. injection Hr as <-. cbn.
    by rewrite !deref_nullif.
  - by right.
  - unfold seq_of. cbn. by rewrite Hcp.
Qed.

Lemma head_base p db : sound_from p db -> default p (hash_of <$> last (ad_events db)) = head_hash db.
Proof.
  intros S. unfold head_hash. destruct (last (ad_events db)) eqn:E; [done|]. apply last_None in E. exact (so_empty _ _ S E).
Qed.

Lemma sorted_snoc (l : list Z) n : StronglySorted Z.lt l -> Forall (fun m => m < n)%Z l -> StronglySorted Z.lt (l ++ [n]).
Proof.
  induction 1 as [|m l _ IH Hm]; cbn; intros Hl; [repeat constructor|]. inversion Hl; subst.
  constructor; [by apply IH|]. apply Forall_app. split; [done|by constructor].
Qed.

Lemma sound_insert p db e :
  sound_from p db -> seq_of e = ad_next db -> follows (checkpoint_at 0 0 db) (head_hash db) [e] ->
  sound_from p (mkAuditDb (ad_events db ++ [e]) (ad_next db + 1) (ad_anchors db)).
Proof.
  intros S He Hf. pose proof S as [S1 S2 S3 S4 S5 S6 S7 S8].
  set (db' := mkAuditDb _ _ _). assert (Hs : seqs db' = seqs db ++ [ad_next db]) by (unfold seqs; cbn; by rewrite fmap_app, <-He).
  assert (Hb : forall n a, ad_anchors db !! n = Some a -> Forall (Z.lt n) [ad_next db]).
  { intros n a Ha. pose proof (S7 n a Ha). repeat constructor. lia. }
  split; rewrite ?Hs; cbn [ad_next ad_anchors ad_events db'].
  - apply sorted_snoc; [done|]. eapply Forall_impl; [exact S2|]. cbn. lia.
  - apply Forall_app. split; [eapply Forall_impl; [exact S2|]; cbn; lia|]. repeat constructor; lia.
  - lia.
  - change (checkpoint_at 0 0 db') with (checkpoint_at 0 0 db). apply follows_app. split; [done|]. by rewrite head_base.
  - intros n a Ha Hk. apply Forall_app. split; [by eapply S5|by eapply Hb].
  - intros n a Ha Hk. rewrite elem_of_app, Forall_app. destruct (S6 n a Ha Hk) as [Hl|Hl]; [by left; left|]. right. split; [done|by eapply Hb].
  - intros n a Ha. pose proof (S7 n a Ha). lia.
  - intros [_ ?]%app_eq_nil. done.
Qed.

Section appending.
Context (Marshal : value -> result string string) (ParseAddr : string -> option string) (pg_text : string -> bool).
#[local] Abbreviation append_loop := (append_loop sha256 format_time Marshal ParseAddr pg_text).
#[local] Abbreviation append_tx := (append_tx sha256 format_time Marshal ParseAddr pg_text).

Lemma checkpoint_none p db n : sound_from p db -> (ad_next db <= n)%Z -> checkpoint_at 0 0 db n = None.
Proof.
  intros S Hn. unfold checkpoint_at. destruct (ad_anchors db !! n) as [a|] eqn:E; [|done].
  apply (so_anchors _ _ S) in E. lia.
Qed.

Lemma append_loop_sound p cap events db :
  sound_from p db ->
  match append_loop cap (head_hash db) events db with
  | (Ok _, db') => sound_from p db' /\ (ad_next db <= ad_next db')%Z /\ ad_anchors db' = ad_anchors db
  | (Err _, db') => (ad_next db <= ad_next db')%Z
  end.
Proof.
  revert db; induction events as [|[e [id now]] events IH]; intros db S; cbn [AuditChain.append_loop]; [split_and!; [done|lia|done]|].
  destruct (rowFor _ _ _ _ _ _) as [r|x] eqn:Hr; [|lia]. unfold insert_event.
  destruct (forallb pg_text _); cbn [negb]; [|lia]. destruct (outcome_stored _); cbn [negb]; [|cbn; lia].
  set (row := row_values _ _ _).
  assert (S' : sound_from p (mkAuditDb (ad_events db ++ [row]) (ad_next db + 1) (ad_anchors db))).
  { apply sound_insert; [done|done|]. eapply inserted_follows; [exact Hr|]. eapply checkpoint_none; [done|lia]. }
  specialize (IH _ S'). unfold head_hash in IH at 1. cbn [ad_events] in IH. rewrite last_snoc in IH.
  change (hash_of row) with (r_hash (linked sha256 format_time (head_hash db) r)) in IH. cbn [ad_next ad_anchors] in IH.
  destruct (append_loop _ _ events _) as [[u|x] db']; [destruct IH as (? & ? & ?); split_and!; [done|lia|done]|lia].
Qed.

Lemma sound_next p db n : sound_from p db -> (ad_next db <= n)%Z -> sound_from p (mkAuditDb (ad_events db) n (ad_anchors db)).
Proof.
  intros [S1 S2 S3 S4 S5 S6 S7 S8] Hn. split; try done; cbn; [|lia|].
  - eapply Forall_impl; [exact S2|]. cbn. lia.
  - intros k a Ha. pose proof (S7 k a Ha). lia.
Qed.

Lemma append_tx_sound p cap events ans db : sound_from p db ->
  sound_from p (append_tx cap events ans db).2 /\ base (append_tx cap events ans db).2 = base db.
Proof.
  intros S. unfold AuditChain.append_tx. pose proof (append_loop_sound p cap events db S) as H.
  destruct (append_loop _ _ _ _) as [[u|x] db']; cbn; [|by split; [apply sound_next|]].
  destruct H as (H1 & H2 & H3). assert (base db' = base db) as B by (unfold base; by rewrite H3).
  destruct ans; cbn; [by split| |by split]; by split; [apply sound_next|].
Qed.

End appending.

Lemma max_key_some p (m : gmap Z anchor) c :
  max_key p m = Some c ->
  exists a, m !! c = Some a /\ p c a = true /\ forall n b, m !! n = Some b -> p n b = true -> (n <= c)%Z.
Proof.
  unfold max_key. intros H.
  cut (exists a, (c, a) ∈ map_to_list m /\ p c a = true /\
         forall n b, (n, b) ∈ map_to_list m -> p n b = true -> (n <= c)%Z).
  { intros (a & Ha & Hp & Hmax). exists a. rewrite elem_of_map_to_list in Ha. split_and!; try done.
    intros n b Hn. apply Hmax. by apply elem_of_map_to_list. }
  revert c H. induction (map_to_list m) as [|[n a] l IH]; intros c H; [done|]. cbn in H.
  destruct (p n a) eqn:Hp; cbn in H.
  - destruct (foldr _ None l) as [c'|] eqn:E; injection H as <-.
    + destruct (IH c' eq_refl) as (a' & Hin & Hp' & Hmax). destruct (Z.max_spec c' n) as [[Hlt ->]|[Hle ->]].
      * exists a. split_and!; [by left|done|]. intros k b [[= -> ->]|Hk]%elem_of_cons Hb; [lia|]. pose proof (Hmax k b Hk Hb). lia.
      * exists a'. split_and!; [by right|done|]. intros k b [[= -> ->]|Hk]%elem_of_cons Hb; [lia|]. by eapply Hmax.
    + exists a. split_and!; [by left|done|]. intros k b [[= -> ->]|Hk]%elem_of_cons Hb; [lia|]. exfalso.
      clear - E Hk Hb. induction l as [|[i x] l IHl]; [by apply not_elem_of_nil in Hk|]. cbn in E.
      apply elem_of_cons in Hk as [[= <- <-]|Hk]; [by rewrite Hb in E|]. destruct (p i x); [done|auto].
  - destruct (IH c H) as (a' & Hin & Hp' & Hmax). exists a'. split_and!; [by right|done|].
    intros k b [[= -> ->]|Hk]%elem_of_cons Hb; [congruence|by eapply Hmax].
Qed.

Lemma max_key_none p (m : gmap Z anchor) n b : max_key p m = None -> m !! n = Some b -> p n b = false.
Proof.
  unfold max_key. intros H Hn%elem_of_map_to_list. induction (map_to_list m) as [|[k x] l IH]; [by apply not_elem_of_nil in Hn|].
  cbn in H. destruct (p k x) eqn:E; [done|]. apply elem_of_cons in Hn as [[= -> ->]|Hn]; [done|auto].
Qed.

(** [Anchor] keeps a stream sound, as long as what it signs checks. *)
Definition signs_for (sign : option (string -> result string string)) : Prop :=
  forall check sgn h s, VerifyAnchor = Some check -> sign = Some sgn -> sgn h = Ok s -> s = "" \/ check h s = None.

Lemma max_key_insert p n a (m : gmap Z anchor) : m !! n = None -> p n a = false -> max_key p (<[n := a]> m) = max_key p m.
Proof.
  intros Hn Hp. unfold max_key. set (f := fun e acc => _).
  assert (Hperm : forall l k : list (Z * anchor), l ≡ₚ k -> foldr f None l = foldr f None k).
  { intros l k H. induction H as [|x l k _ IH|x y l|l k j _ IH1 _ IH2]; cbn; [done|by rewrite IH| |congruence].
    unfold f. destruct (p x.1 x.2), (p y.1 y.2); try done. destruct (foldr _ _ l); f_equal; lia. }
  rewrite (Hperm _ _ (map_to_list_insert m n a Hn)). cbn. unfold f at 1. cbn. by rewrite Hp.
Qed.

Lemma follows_vouch cp cp' p l :
  follows cp p l -> (forall e, e ∈ l -> vouched VerifyAnchor (cp' (seq_of e)) (hash_of e)) -> follows cp' p l.
Proof.
  revert p; induction l as [|e l IH]; intros p; [done|]. cbn. intros (H1 & H2 & H3 & H4 & H5) Hv.
  split_and!; try done; [apply Hv; by left|]. apply IH; [done|]. intros x Hx. apply Hv. by right.
Qed.

Lemma follows_vouched cp p l e : follows cp p l -> e ∈ l -> vouched VerifyAnchor (cp (seq_of e)) (hash_of e).
Proof.
  revert p; induction l as [|x l IH]; intros p; [by intros _ ?%not_elem_of_nil|].
  cbn. intros (_ & _ & _ & Hv & Hf). rewrite elem_of_cons. intros [->|He]; [done|by eapply IH].
Qed.

Lemma StronglySorted_NoDup (l : list Z) : StronglySorted Z.lt l -> NoDup l.
Proof.
  induction 1 as [|n l _ IH Hn]; constructor; [|done]. rewrite Forall_forall in Hn. intros H%Hn. lia.
Qed.

Lemma sorted_inj (l : list event_row) e f :
  StronglySorted Z.lt (seq_of <$> l) -> e ∈ l -> f ∈ l -> seq_of e = seq_of f -> e = f.
Proof.
  intros Hs%StronglySorted_NoDup. induction l as [|x l IH]; [by intros ?%not_elem_of_nil|].
  cbn in Hs. inversion Hs as [|? ? Hx Hl]; subst. rewrite !elem_of_cons. intros [->|He] [->|Hf] E; try done.
  - destruct Hx. rewrite E. apply list_elem_of_fmap. by exists f.
  - destruct Hx. rewrite <-E. apply list_elem_of_fmap. by exists e.
  - by apply IH.
Qed.

Lemma Anchor_sound p sign db db' : signs_for sign -> sound_from p db -> Anchor_head sign db = Ok db' ->
  sound_from p db' /\ base db' = base db.
Proof.
  intros Hsign S. unfold Anchor_head. destruct (last (ad_events db)) as [r|] eqn:El; [|by intros [= <-]].
  destruct (ad_anchors db !! seq_of r) eqn:Ea; [by intros [= <-]|].
  set (put sig := put_checkpoint r sig db).
  assert (Hbase : forall sig, base (put sig) = base db).
  { intros sig. unfold base. cbn [put put_checkpoint ad_anchors]. rewrite max_key_insert by done.
    destruct (max_key cut_anchor (ad_anchors db)) as [c|] eqn:Ec; [|done].
    destruct (decide (c = seq_of r)) as [->|Hne]; [|by rewrite lookup_insert_ne by done].
    exfalso. apply max_key_some in Ec as (a & Hc & _). by rewrite Ea in Hc. }
  assert (Hput : forall sig, (forall check, VerifyAnchor = Some check -> sig = "" \/ check (hash_of r) sig = None) -> sound_from p (put sig)).
  2: { destruct sign as [sgn|]; [|intros [= <-]; split; [apply Hput; by left|apply Hbase]].
       destruct (sgn (hash_of r)) as [sig|] eqn:Eg; intros [= <-]. split; [|apply Hbase]. apply Hput. intros check Hc. by eapply Hsign. }
  intros sig Hsig. pose proof S as [S1 S2 S3 S4 S5 S6 S7 S8].
  assert (Hr : r ∈ ad_events db) by (by apply last_Some_elem_of).
  assert (Hin : seq_of r ∈ seqs db) by (apply list_elem_of_fmap; by exists r).
  split; try done; cbn [put put_checkpoint ad_anchors ad_events].
  - eapply follows_vouch; [exact S4|]. intros e He.
    pose proof (follows_vouched _ _ _ _ S4 He) as Hv. unfold checkpoint_at in *. cbn [put put_checkpoint ad_anchors].
    destruct (decide (seq_of e = seq_of r)) as [E|E].
    + assert (e = r) as -> by (by eapply sorted_inj). rewrite lookup_insert_eq. unfold is_checkpoint. cbn.
      split; [done|]. destruct VerifyAnchor as [check|]; [|done]. rewrite deref_nullif. by apply Hsig.
    + by rewrite lookup_insert_ne by congruence.
  - intros n a. rewrite lookup_insert_Some. intros [[_ <-]|[_ Ha]] Hk; [done|by eapply S5].
  - intros n a. rewrite lookup_insert_Some. intros [[<- _]|[_ Ha]] Hk; [by left|by eapply S6].
  - intros n a. rewrite lookup_insert_Some. intros [[<- _]|[_ Ha]]; [|by eapply S7].
    rewrite Forall_forall in S2. by apply S2.
Qed.

Lemma follows_fmap cp p l f : lawful sha256 f -> follows cp p l -> follows cp p (f <$> l).
Proof.
  intros Hf. revert p; induction l as [|e l IH]; intros p; [done|]. cbn. destruct (Hf e) as [Hw Hc].
  intros (H1 & H2 & H3 & H4 & H5). unfold prev_of, hash_of, seq_of in *. rewrite Hw. split_and!; try done; [|auto|by apply IH].
  rewrite <-H2. unfold chainHash, facts, scanned. cbn. by rewrite Hw.
Qed.

Lemma edit_sound p f db : lawful sha256 f -> sound_from p db -> sound_from p (with_events db (f <$> ad_events db)).
Proof.
  intros Hf [S1 S2 S3 S4 S5 S6 S7 S8]. set (db' := with_events _ _).
  assert (Hs : seqs db' = seqs db).
  { unfold seqs, db'. cbn. rewrite <-list_fmap_compose. apply list_fmap_ext. intros _ e _. unfold seq_of. cbn.
    by rewrite (proj1 (Hf e)). }
  split; rewrite ?Hs; try done; cbn.
  - by apply follows_fmap.
  - intros E%fmap_nil_inv. by apply S8.
Qed.

Lemma edit_keeps_sound f db : lawful sha256 f -> sound db -> sound (with_events db (f <$> ad_events db)).
Proof. apply edit_sound. Qed.

(** ** A sound stream verifies *)

Lemma max_key_ext p q (m : gmap Z anchor) :
  (forall n a, m !! n = Some a -> p n a = q n a) -> max_key p m = max_key q m.
Proof.
  intros H. unfold max_key.
  assert (Hl : forall n a, (n, a) ∈ map_to_list m -> p n a = q n a) by (intros n a Hn; apply H; by apply elem_of_map_to_list).
  clear H. induction (map_to_list m) as [|[n a] l IH]; [done|]. cbn. rewrite (Hl n a) by left.
  rewrite IH; [done|]. intros k b Hk. apply Hl. by right.
Qed.

(** A filter between two bounds takes a stretch of a sorted list. *)
Lemma filter_stretch (P Q : Z -> bool) (l : list event_row) :
  (forall a b, (a < b)%Z -> P a = true -> P b = true) -> (forall a b, (a < b)%Z -> Q b = true -> Q a = true) ->
  StronglySorted Z.lt (seq_of <$> l) ->
  exists A C : list event_row, l = A ++ List.filter (fun e => P (seq_of e) && Q (seq_of e)) l ++ C /\
              Forall (fun e => P (seq_of e) = false) A.
Proof.
  intros HP HQ. induction l as [|e l IH]; intros Hs; [by exists [], []|]. cbn in Hs. inversion Hs as [|? ? Hs' He]; subst.
  destruct (IH Hs') as (A & C & E & HA); clear IH. rewrite Forall_fmap, Forall_forall in He. cbn [List.filter].
  destruct (P (seq_of e)) eqn:HPe; cbn [andb].
  2: { exists (e :: A), C. split; [by rewrite E at 1|by constructor]. }
  destruct (Q (seq_of e)) eqn:HQe.
  - assert (A = []) as ->.
    { destruct A as [|a A]; [done|]. inversion HA as [|? ? Ha]; subst. exfalso.
      assert (Hin : a ∈ l) by (rewrite E; by left). rewrite (HP (seq_of e) (seq_of a)) in Ha; [done|by apply He|done]. }
    exists [], C. split; [cbn; cbn in E; by rewrite E at 1|constructor].
  - exists [], (e :: l). split; [|constructor]. cbn.
    replace (List.filter _ l) with (@nil event_row); [done|]. symmetry. clear E HA.
    induction l as [|x l IHl]; [done|]. cbn. destruct (Q (seq_of x)) eqn:HQx.
    + rewrite (HQ (seq_of e) (seq_of x)) in HQe; [done|apply He; by left|done].
    + rewrite andb_false_r. inversion Hs'; subst. apply IHl; [by constructor; [|rewrite Forall_fmap, Forall_forall; intros y Hy; apply He; right]|done|].
      intros y Hy. apply He. by right.
Qed.

Lemma sorted_last (l : list event_row) e f :
  StronglySorted Z.lt (seq_of <$> l) -> e ∈ l -> last l = Some f -> (seq_of e <= seq_of f)%Z.
Proof.
  intros Hs He (k & ->)%last_Some. rewrite fmap_app in Hs. apply elem_of_app in He as [He|He].
  - assert (H : (seq_of e < seq_of f)%Z); [|lia].
    eapply (StronglySorted_app_1_elem_of Z.lt (seq_of <$> k) (seq_of <$> [f])); [exact Hs| |by left].
    apply list_elem_of_fmap. by exists e.
  - apply list_elem_of_singleton in He as ->. lia.
Qed.

(** The rows of a range are a stretch of the stream; a walk that does not
    start at the stream's first row was asked to start part-way. *)
Lemma rows_in_stretch p from to_ db : sound_from p db ->
  exists A C : list event_row, ad_events db = A ++ rows_in from to_ db ++ C /\ (A <> [] -> from <> 0%Z).
Proof.
  intros S. destruct (filter_stretch (fun n => (from =? 0) || (from <=? n))%Z (fun n => (to_ =? 0) || (n <=? to_))%Z (ad_events db))
    as (A & C & E & HA); [| |exact (so_sorted _ _ S)|].
  - intros a b Hab [H|H]%orb_prop; bool_prop; [subst; done|]. apply orb_true_iff. right. apply Z.leb_le. lia.
  - intros a b Hab [H|H]%orb_prop; bool_prop; [subst; done|]. apply orb_true_iff. right. apply Z.leb_le. lia.
  - exists A, C. split; [exact E|]. intros Hne ->. destruct A as [|a A]; [done|]. inversion HA; subst. done.
Qed.

Lemma max_key_cuts_below p db n : sound_from p db -> n ∈ seqs db ->
  max_key (fun k a => bool_decide (an_kind a = RetentionCut) && (k <? n)%Z) (ad_anchors db) = max_key cut_anchor (ad_anchors db).
Proof.
  intros S Hn. apply max_key_ext. intros k a Ha. unfold cut_anchor. destruct (decide (an_kind a = RetentionCut)) as [Hk|Hk].
  - rewrite bool_decide_true by done. pose proof (so_cuts _ _ S k a Ha Hk) as Hl. rewrite Forall_forall in Hl.
    cbn. apply Z.ltb_lt. by apply Hl.
  - by rewrite bool_decide_false.
Qed.

Lemma sound_starts p from to_ db e rows A C :
  sound_from p db -> rows_in from to_ db = e :: rows -> ad_events db = A ++ (e :: rows) ++ C -> (A <> [] -> from <> 0%Z) ->
  (A = [] -> prev_of e = base db) -> starts from (bridge from to_ db) (seq_of e) (prev_of e).
Proof.
  intros S Er E HA Hp.
  assert (He : seq_of e ∈ seqs db).
  { unfold seqs. apply list_elem_of_fmap. exists e. split; [done|]. rewrite E, !elem_of_app. right. left. by left. }
  unfold bridge. rewrite Er, (max_key_cuts_below p db (seq_of e) S He). unfold base in Hp.
  destruct (max_key cut_anchor (ad_anchors db)) as [c|] eqn:Ec.
  2: { cbn. destruct A as [|a A]; [right; by apply Hp|left; by apply HA]. }
  apply max_key_some in Ec as (a & Hc & Hk & _). apply bool_decide_eq_true in Hk.
  pose proof (so_cuts _ _ S c a Hc Hk) as Hl. rewrite Forall_forall in Hl.
  destruct (existsb _ _) eqn:Eb.
  - cbn. destruct A as [|x A]; [|left; by apply HA]. exfalso. apply existsb_elem in Eb as (y & Hy & Hlt). bool_prop.
    pose proof (so_sorted _ _ S) as Hs. unfold seqs in Hs. rewrite E in Hs, Hy. cbn in Hs, Hy. inversion Hs as [|? ? _ Hf]; subst.
    rewrite Forall_fmap, Forall_forall in Hf. apply elem_of_cons in Hy as [->|Hy]; [lia|]. apply Hf in Hy. cbn in Hy. lia.
  - rewrite Hc in *. cbn. destruct A as [|x A]; [left; by rewrite Hp by done|]. exfalso.
    assert (Hx : x ∈ ad_events db) by (rewrite E; by left).
    apply existsb_false_elem with (x := x) in Eb; [|done].
    assert (Hcx : (c < seq_of x)%Z) by (apply Hl; unfold seqs; apply list_elem_of_fmap; by exists x).
    pose proof (so_sorted _ _ S) as Hs. unfold seqs in Hs. rewrite E in Hs. cbn in Hs. inversion Hs as [|? ? _ Hf]; subst.
    rewrite Forall_fmap, Forall_forall in Hf. assert (Hxe : (seq_of x < seq_of e)%Z).
    { apply (Hf e). rewrite elem_of_app. right. by left. }
    apply andb_false_iff in Eb. destruct Eb; bool_prop; lia.
Qed.

(** A range whose start is accounted for verifies. *)
Lemma started_verified p from to_ db :
  sound_from p db ->
  match rows_in from to_ db with
  | [] => lastCheckpoint from to_ db = 0%Z
  | e :: _ => starts from (bridge from to_ db) (seq_of e) (prev_of e)
  end -> verified sha256 format_time VerifyAnchor from to_ db.
Proof.
  intros S Hst. unfold verified. destruct (rows_in from to_ db) as [|e rows] eqn:Er; [done|].
  destruct (rows_in_stretch p from to_ db S) as (A & C & E & HA). rewrite Er in E.
  pose proof (so_follows _ _ S) as Hf. rewrite E in Hf. apply follows_app in Hf as [_ Hf]. apply follows_app in Hf as [Hf _].
  assert (Hp : prev_of e = default p (hash_of <$> last A)) by (cbn in Hf; tauto).
  assert (Hrow : forall x, x ∈ e :: rows <-> x ∈ ad_events db /\ in_range from to_ (seq_of x) = true).
  { intros x. rewrite <-Er. unfold rows_in. rewrite !list_elem_of_In, filter_In. done. }
  split_and!; [done| |].
  - rewrite Hp. eapply follows_ext; [|exact Hf]. intros x Hx. apply Hrow in Hx as [_ Hx].
    unfold checkpoint_at, is_checkpoint. by rewrite Hx.
  - unfold lastCheckpoint. destruct (last (e :: rows)) as [l|] eqn:El; [|by apply last_None in El].
    assert (Hl : l ∈ ad_events db) by (apply Hrow; by apply last_Some_elem_of).
    assert (Hpos : (0 < seq_of l)%Z).
    { pose proof (so_range _ _ S) as Hr. rewrite Forall_forall in Hr. apply Hr. apply list_elem_of_fmap. by exists l. }
    cbn [option_map default fmap option_fmap]. destruct (max_key _ _) as [c|] eqn:Ec; cbn; [|lia].
    apply max_key_some in Ec as (a & Hc & Hk & _). unfold is_checkpoint in Hk. bool_prop.
    destruct (so_checkpoints _ _ S c a Hc H) as [Hin|Hlt].
    + apply list_elem_of_fmap in Hin as (x & -> & Hx).
      assert (Hs : StronglySorted Z.lt (seq_of <$> e :: rows)).
      { pose proof (so_sorted _ _ S) as Hs. unfold seqs in Hs. rewrite E, fmap_app in Hs.
        apply StronglySorted_app_1_r in Hs. rewrite fmap_app in Hs. by apply StronglySorted_app_1_l in Hs. }
      pose proof (sorted_last _ x l Hs (proj2 (Hrow x) (conj Hx H0)) El). lia.
    + rewrite Forall_forall in Hlt. specialize (Hlt (seq_of l)). assert (c < seq_of l)%Z; [|lia].
      apply Hlt. apply list_elem_of_fmap. by exists l.
Qed.

(** A range of a sound stream verifies, unless it has no row left in it but
    a checkpoint. *)
Lemma sound_verified from to_ db :
  sound db -> rows_in from to_ db <> [] \/ lastCheckpoint from to_ db = 0%Z ->
  verified sha256 format_time VerifyAnchor from to_ db.
Proof.
  intros S Hne. apply (started_verified (base db)); [done|]. destruct (rows_in from to_ db) as [|e rows] eqn:Er; [by destruct Hne|].
  destruct (rows_in_stretch _ from to_ db S) as (A & C & E & HA). rewrite Er in E.
  eapply (sound_starts (base db)); [done..|]. intros ->. pose proof (so_follows _ _ S) as Hf. rewrite E in Hf. cbn in Hf. tauto.
Qed.

(** Whatever is missing before the first row, a range verifies or what is
    reported is the start of the stream. *)
Lemma from_verified p from to_ db :
  sound_from p db -> rows_in from to_ db <> [] \/ lastCheckpoint from to_ db = 0%Z ->
  vr_Valid (Verify sha256 format_time VerifyAnchor from to_ db) = true \/
  exists f l, ad_events db = f :: l /\ (vr_Explained (Verify sha256 format_time VerifyAnchor from to_ db) = StartsAfterNothing (seq_of f) \/
    vr_Explained (Verify sha256 format_time VerifyAnchor from to_ db) = DoesNotFollowCut (seq_of f)).
Proof.
  intros S Hne. rewrite Verify_iff. destruct (rows_in from to_ db) as [|e rows] eqn:Er.
  { left. apply (started_verified p); [done|]. rewrite Er. by destruct Hne. }
  destruct (rows_in_stretch _ from to_ db S) as (A & C & E & HA). rewrite Er in E.
  pose proof (first_row_spec sha256 format_time from (bridge from to_ db) (seq_of e) (prev_of e)) as F.
  destruct (first_row from (bridge from to_ db) (seq_of e) (prev_of e)) as [why|n] eqn:Ef.
  2: { left. apply (started_verified p); [done|]. by rewrite Er. }
  right. destruct A as [|x A]; [|destruct F; by eapply (sound_starts p)]. exists e, (rows ++ C). split; [exact E|].
  unfold Verify, verify_walk. rewrite Er, Ef. cbn [broken vr_Valid vr_Explained andb].
  unfold first_row in Ef. destruct (bridge from to_ db) as [[n h]|].
  - destruct (negb _ && negb (String.eqb h (prev_of e))); [injection Ef as <-; by right|].
    destruct (negb _ && _ && _); [injection Ef as <-; by left|done].
  - destruct ((from =? 0)%Z && _); [injection Ef as <-; by left|done].
Qed.
End sound.

(** ** What a hash says of the rows before it *)

Definition NUL_free (s : string) : bool := negb (has_byte "000"%char s).

(** What Postgres guarantees of text it stores, and the format of a time. *)
Definition stored_text (format_time : Z -> string) (e : event_row) : bool :=
  forallb NUL_free (facts format_time (scanned e)).

(** What [Verify] hashes of a row: its place in the chain, and its content
    unless that was scrubbed. *)
Definition hashed (sha256 : string -> string) (format_time : Z -> string) (e : event_row) : list string :=
  chain_text format_time (prev_of e) (scanned e) ::
  match er_scrubbed_at e with
  | None => let d := er_diff e in let p := er_payload e in let m := c_meta (er_written e) in
            [content_text sha256 d p m; deref d; deref p; deref m]
  | Some _ => []
  end.

(** Two rows for which [Verify] hashes different texts, at one place, to one
    digest. *)
Definition rows_collide (sha256 : string -> string) (format_time : Z -> string) (e f : event_row) : Prop :=
  exists x y, (x, y) ∈ zip (hashed sha256 format_time e) (hashed sha256 format_time f) /\ collision sha256 x y.

(** What would have to have happened to SHA-256 on the very rows of two
    streams: two rows equally far from their ends collide, or a row hashes
    to the zeros that stand for the beginning of the stream. *)
Definition digest_broken (sha256 : string -> string) (format_time : Z -> string) (l l' : list event_row) : Prop :=
  (exists e f, (e, f) ∈ zip (rev l) (rev l') /\ rows_collide sha256 format_time e f) \/
  (exists e, e ∈ l ++ l' /\ chainHash sha256 format_time (prev_of e) (scanned e) = zero_hash).

(** Two rows that say the same: the same facts and digest of content, and the
    same content where neither was scrubbed. *)
Definition same_row (format_time : Z -> string) (e f : event_row) : Prop :=
  facts format_time (scanned e) = facts format_time (scanned f) /\
  c_content_hash (er_written e) = c_content_hash (er_written f) /\
  (er_scrubbed_at e = None -> er_scrubbed_at f = None ->
   deref (er_diff e) = deref (er_diff f) /\ deref (er_payload e) = deref (er_payload f) /\
   deref (c_meta (er_written e)) = deref (c_meta (er_written f))).

Lemma app_length_inj (a b x y : string) :
  String.length a = String.length b -> a +:+ x = b +:+ y -> a = b /\ x = y.
Proof.
  revert b; induction a as [|c a IH]; intros [|d b] Hl E; try done. rewrite !app_cons_str in E. injection E as -> E.
  cbn in Hl. destruct (IH b) as [-> ->]; auto.
Qed.

Lemma terminated_inj (l k : list string) x y :
  length l = length k -> forallb NUL_free l = true -> forallb NUL_free k = true ->
  terminated l +:+ x = terminated k +:+ y -> l = k /\ x = y.
Proof.
  revert k; induction l as [|f l IH]; intros [|g k] Hl Hf Hg E; try done. cbn in Hl, Hf, Hg. bool_prop.
  change (terminated (f :: l)) with (f +:+ NUL +:+ terminated l) in E.
  change (terminated (g :: k)) with (g +:+ NUL +:+ terminated k) in E.
  rewrite !app_assoc_str in E. unfold NUL_free, NUL in *. bool_prop.
  change (String "000" "" +:+ ?s) with (String "000"%char s) in E.
  apply app_sep_inj in E as [-> E]; [|done|done]. destruct (IH k) as [-> ->]; auto.
Qed.

Section tamper.
Context (sha256 : string -> string) (format_time : Z -> string).
Context (digest_length : forall s, String.length (sha256 s) = 32).
Context (VerifyAnchor : option (string -> string -> option string)).
#[local] Abbreviation follows := (follows sha256 format_time VerifyAnchor).

Lemma chain_text_inj p p' r r' : String.length p = 32 -> String.length p' = 32 ->
  forallb NUL_free (facts format_time r) = true -> forallb NUL_free (facts format_time r') = true ->
  chain_text format_time p r = chain_text format_time p' r' ->
  p = p' /\ facts format_time r = facts format_time r' /\ r_contentHash r = r_contentHash r'.
Proof.
  intros Hp Hp' Hr Hr' E. apply app_length_inj in E as [-> E]; [|congruence].
  apply terminated_inj in E as [-> ->]; done.
Qed.

Lemma content_text_inj d p m d' p' m' : content_text sha256 d p m = content_text sha256 d' p' m' ->
  sha256 (deref d) = sha256 (deref d') /\ sha256 (deref p) = sha256 (deref p') /\ sha256 (deref m) = sha256 (deref m').
Proof.
  intros E. apply app_length_inj in E as [H1 E]; [|by rewrite !digest_length]. by apply app_length_inj in E as [H2 H3]; [|rewrite !digest_length].
Qed.

(** Two rows whose texts have one digest at each place. *)
Lemma rows_same e f : String.length (prev_of e) = 32 -> String.length (prev_of f) = 32 ->
  stored_text format_time e = true -> stored_text format_time f = true ->
  content_matches sha256 e -> content_matches sha256 f ->
  chainHash sha256 format_time (prev_of e) (scanned e) = chainHash sha256 format_time (prev_of f) (scanned f) ->
  rows_collide sha256 format_time e f \/ prev_of e = prev_of f /\ same_row format_time e f.
Proof.
  intros Le Lf Te Tf Ce Cf E. apply digest_eq in E as [E|E]; [|left; exists (chain_text format_time (prev_of e) (scanned e)); eexists; split; [by left|exact E]].
  apply chain_text_inj in E as (Ep & Ef & Ec); [|done..]. change (c_content_hash (er_written e) = c_content_hash (er_written f)) in Ec.
  destruct (er_scrubbed_at e) as [te|] eqn:Se; [right; split; [done|]; split_and!; [done|done|intros; congruence]|].
  destruct (er_scrubbed_at f) as [tf|] eqn:Sf; [right; split; [done|]; split_and!; [done|done|intros; congruence]|].
  destruct Ce as [Ce|Ce]; [done|]. destruct Cf as [Cf|Cf]; [done|]. rewrite <-Ce, <-Cf in Ec.
  assert (forall x y, (x, y) ∈ zip (hashed sha256 format_time e) (hashed sha256 format_time f) -> sha256 x = sha256 y ->
    x = y \/ rows_collide sha256 format_time e f) as Place.
  { intros x y Hin [->|C]%digest_eq; [by left|right]. by exists x, y. }
  unfold hashed in Place. rewrite Se, Sf in Place. cbn [zip zip_with] in Place.
  destruct (Place _ _ ltac:(by do 1 right; left) Ec) as [Et|?]; [|by left]. apply content_text_inj in Et as (H1 & H2 & H3).
  destruct (Place _ _ ltac:(by do 2 right; left) H1) as [D1|?]; [|by left].
  destruct (Place _ _ ltac:(by do 3 right; left) H2) as [D2|?]; [|by left].
  destruct (Place _ _ ltac:(by do 4 right; left) H3) as [D3|?]; [|by left].
  right. split; [done|]. split_and!; [done|by rewrite <-Ce, <-Cf|done].
Qed.

Lemma follows_snoc cp p l e :
  follows cp p (l ++ [e]) ->
  follows cp p l /\ prev_of e = default p (hash_of <$> last l) /\
  chainHash sha256 format_time (prev_of e) (scanned e) = hash_of e /\ content_matches sha256 e.
Proof.
  intros [Hl He]%follows_app. cbn in He. destruct He as (H1 & H2 & H3 & _). split_and!; try done. by rewrite H1.
Qed.

Lemma last_hash_32 cp p l : String.length p = 32 -> follows cp p l -> String.length (default p (hash_of <$> last l)) = 32.
Proof.
  intros Hp. destruct l as [|e l _] using rev_ind; [done|]. intros (_ & _ & H & _)%follows_snoc.
  rewrite last_snoc. cbn. rewrite <-H. apply digest_length.
Qed.

Lemma zero_length : String.length zero_hash = 32.
Proof. done. Qed.

Lemma broken_snoc l l' e f : digest_broken sha256 format_time l l' -> digest_broken sha256 format_time (l ++ [e]) (l' ++ [f]).
Proof.
  intros [(x & y & Hin & C)|(x & Hx & Z)]; [left|right].
  - exists x, y. split; [|done]. rewrite !rev_app_distr. by right.
  - exists x. split; [|done]. rewrite !elem_of_app in *. tauto.
Qed.

Lemma zero_row l l' e : e ∈ l ++ l' -> chainHash sha256 format_time (prev_of e) (scanned e) = zero_hash -> digest_broken sha256 format_time l l'.
Proof. intros. right. by exists e. Qed.

(** Two streams from the beginning whose last rows have one hash say the
    same, row by row. *)
Lemma same_history cp cp' l l' :
  follows cp zero_hash l -> follows cp' zero_hash l' ->
  forallb (stored_text format_time) l = true -> forallb (stored_text format_time) l' = true ->
  default zero_hash (hash_of <$> last l) = default zero_hash (hash_of <$> last l') ->
  digest_broken sha256 format_time l l' \/ Forall2 (same_row format_time) l l'.
Proof.
  revert l'; induction l as [|e l IH] using rev_ind; intros l' Hl Hl' Ht Ht' E.
  - destruct l' as [|f l' _] using rev_ind; [right; constructor|]. left. apply follows_snoc in Hl' as (_ & _ & H & _).
    rewrite last_snoc in E. change (zero_hash = hash_of f) in E. apply (zero_row _ _ f); [apply elem_of_app; right; apply elem_of_app; right; by left|by rewrite H, <-E].
  - destruct l' as [|f l' _] using rev_ind.
    { left. apply follows_snoc in Hl as (_ & _ & H & _). rewrite last_snoc in E.
      apply (zero_row _ _ e); [apply elem_of_app; left; apply elem_of_app; right; by left|by rewrite H; exact E]. }
    apply follows_snoc in Hl as (Hl & Pe & He & Ce), Hl' as (Hl' & Pf & Hf & Cf).
    rewrite !last_snoc in E. change (hash_of e = hash_of f) in E. rewrite forallb_app in Ht, Ht'. cbn [forallb] in Ht, Ht'. bool_prop.
    rewrite <-He, <-Hf in E.
    destruct (rows_same e f) as [C|(Hp & Same)]; [rewrite Pe; by eapply last_hash_32|rewrite Pf; by eapply last_hash_32|done..| |].
    + left; left. exists e, f. split; [|done]. rewrite !rev_app_distr. by left.
    + rewrite Pe, Pf in Hp. destruct (IH l' Hl Hl') as [B|IHl]; [done|done|done|left; by apply broken_snoc|].
      right. apply Forall2_app; [done|]. constructor; [done|constructor].
Qed.

Lemma follows_prefix cp p l e k : follows cp p (l ++ e :: k) -> follows cp p (l ++ [e]).
Proof. change (e :: k) with ([e] ++ k). rewrite app_assoc. by intros [H _]%follows_app. Qed.

Lemma from_the_beginning db e l k :
  verified sha256 format_time VerifyAnchor 0 0 db -> bridge 0 0 db = None -> ad_events db = l ++ e :: k ->
  follows (checkpoint_at 0 0 db) zero_hash (l ++ [e]).
Proof.
  intros V Hb El.
  assert (Hr : rows_in 0 0 db = ad_events db).
  { unfold rows_in. generalize (ad_events db) as es. induction es as [|x es IH]; [done|]. cbn. by f_equal. }
  unfold verified in V. rewrite Hr, Hb, El in V. cbn [starts] in V.
  apply (follows_prefix _ _ _ _ k). destruct l as [|x l]; cbn [app] in *; destruct V as (Hs & Hf & _);
    destruct Hs as [?|Hs]; try done; by rewrite <-Hs.
Qed.
End tamper.


(** A stream of two events, and the same after an erasure. *)
Definition empty_db : audit_db := mkAuditDb [] 1 ∅.

Lemma empty_sound sha256 format_time VerifyAnchor : sound sha256 format_time VerifyAnchor empty_db.
Proof. split; cbn; try done; try lia; constructor. Qed.

Definition example_event (action actor : string) : AuditEvent :=
  mkAuditEvent "o1" CategoryAuth action Success "user" actor "bob@example.org" "" "" "" "" "" "" "" "" None None None.

Definition example_time (_ : Z) : string := "2026-01-02T03:04:05Z".

Definition example_append (events : list stamped) (db : audit_db) : audit_db :=
  (append_tx sha256 example_time (fun _ => Ok "{}") (fun _ => None) NUL_free 1000 events Commits db).2.

Definition example_stream : audit_db :=
  example_append [(example_event "session.create" "u1", (Ok "id1", 1000%Z)); (example_event "tool.call" "u1", (Ok "id2", 2000%Z))]
    empty_db.

Lemma example_stream_sound : sound sha256 example_time None example_stream.
Proof.
  unfold sound. destruct (append_tx_sound sha256 example_time None (fun _ => Ok "{}") (fun _ => None) NUL_free _ 1000
    [(example_event "session.create" "u1", (Ok "id1", 1000%Z)); (example_event "tool.call" "u1", (Ok "id2", 2000%Z))]
    Commits empty_db (empty_sound _ _ _)) as [S B].
  unfold example_stream, example_append. by rewrite B.
Qed.

