(* ===== verification/AuditRetention.v ===== *)
(** * AuditRetention: removing content and rows without breaking the chain

    [Cut] and [Scrub] of [internal/audit/read.go], the database function
    [audit_events_cut] of migration 00033 they run, and the windows and the
    sweep of [retention.go].  A cut runs while other transactions append
    events and place holds: what they commit is an argument ([meanwhile]).
    The steps of a stream's life are at the end, with the invariant that
    makes [Verify] call it valid. *)
From Stdlib Require Import SpecFloat.
From S2P Require Import Prelude GoStrings Float64 Regex Values Sha256 AuditEvents AuditChain.

Open Scope list_scope.

(** ** The cut *)

(** A partition: the bounds of its month, or the default one. *)
Record partition : Type := mkPartition { pt_name : string; pt_bounds : option (Z * Z) }.

Definition covers (p : partition) (ts : Z) : bool :=
  match pt_bounds p with Some (lo, hi) => (lo <=? ts)%Z && (ts <? hi)%Z | None => false end.

(** A row is in the partition that covers its time, or in the default one. *)
Definition lives_in (parts : list partition) (p : partition) (e : event_row) : bool :=
  match pt_bounds p with
  | Some _ => covers p (ts_of e)
  | None => forallb (fun q => negb (covers q (ts_of e))) parts
  end.

(** What other transactions commit while the cut runs: holds on rows, and
    new rows. *)
Record meanwhile : Type := mkMeanwhile { mw_held : list Z; mw_added : list event_row }.

Definition idle : meanwhile := mkMeanwhile [] [].

Definition commit_meanwhile (m : meanwhile) (l : list event_row) : list event_row :=
  ((fun e => if existsb (Z.eqb (seq_of e)) (mw_held m) then with_hold e true else e) <$> l) ++ mw_added m.

Definition above_cut (cut : Z) (e : event_row) : bool := (cut <? seq_of e)%Z.

(** A month that ended before the cutoff and holds nothing above the cut. *)
Definition whole_month (parts : list partition) (cut before : Z) (l : list event_row) (p : partition) : bool :=
  match pt_bounds p with
  | Some (_, hi) => (hi <=? before)%Z && negb (existsb (fun e => lives_in parts p e && above_cut cut e) l)
  | None => false
  end.

Inductive cut_error : Type := WrittenWhileCutting (p : string) | HeldWhileCutting.

Record CutResult : Type := mkCutResult { cr_Seq : Z; cr_Deleted : Z; cr_Partitions : list string }.

(** [audit_events_cut]. *)
Definition audit_events_cut (parts : list partition) (cut before : Z) (m : meanwhile) (l : list event_row)
  : result cut_error (Z * list string * list event_row) :=
  let whole := List.filter (whole_month parts cut before l) parts in
  let rest := List.filter (fun p => negb (whole_month parts cut before l p)) parts in
  let in_any ps e := existsb (fun p => lives_in parts p e) ps in
  let goes e := in_any rest e && negb (above_cut cut e) && negb (er_legal_hold e) in
  let n := length (List.filter (in_any whole) l) + length (List.filter goes l) in
  let l := commit_meanwhile m (List.filter (fun e => negb (goes e)) l) in
  match List.find (fun p => existsb (fun e => lives_in parts p e && above_cut cut e) l) whole with
  | Some p => Err (WrittenWhileCutting (pt_name p))
  | None =>
      if existsb (fun e => er_legal_hold e && negb (above_cut cut e)) l then Err HeldWhileCutting
      else Ok (Z.of_nat n, pt_name <$> whole, List.filter (fun e => negb (in_any whole e)) l)
  end.

(** The lowest number under hold, or above every number. *)
Definition max_seq : Z := 9223372036854775807.

Definition first_held (l : list event_row) : Z :=
  match List.find er_legal_hold l with Some e => seq_of e | None => max_seq end.

(** The newest row old enough to go, below every held one. *)
Definition cut_row (before : Z) (l : list event_row) : option event_row :=
  last (List.filter (fun e => (ts_of e <? before)%Z && (seq_of e <? first_held l)%Z) l).

(** The INSERT of the anchor: over an anchor that is there, only its hash is
    set. *)
Definition put_cut (e : event_row) (anchors : gmap Z anchor) : gmap Z anchor :=
  match anchors !! seq_of e with
  | Some a => <[seq_of e := mkAnchor (hash_of e) (an_kind a) (an_signature a)]> anchors
  | None => <[seq_of e := mkAnchor (hash_of e) RetentionCut None]> anchors
  end.

(** [Cut]: an error rolls back everything but what the others committed. *)
Definition Cut (parts : list partition) (before : Z) (m : meanwhile) (db : audit_db) : result cut_error CutResult * audit_db :=
  let later := mkAuditDb (commit_meanwhile m (ad_events db)) (ad_next db + Z.of_nat (length (mw_added m))) (ad_anchors db) in
  match cut_row before (ad_events db) with
  | None => (Ok (mkCutResult 0 0 []), later)
  | Some e =>
      match audit_events_cut parts (seq_of e) before m (ad_events db) with
      | Err x => (Err x, later)
      | Ok (n, dropped, l) =>
          (Ok (mkCutResult (seq_of e) n dropped), mkAuditDb l (ad_next later) (put_cut e (ad_anchors db)))
      end
  end.

(** ** The scrub *)

Definition scrubs (org : string) (before : Z) (e : event_row) : bool :=
  bool_decide (org_of e = Some org) && (ts_of e <? before)%Z && negb (er_legal_hold e) &&
  match er_scrubbed_at e with None => true | Some _ => false end &&
  match er_diff e, er_payload e with None, None => false | _, _ => true end.

Definition scrub_row (org : string) (before now : Z) (e : event_row) : event_row :=
  if scrubs org before e
  then mkEventRow (er_written e) (er_actor_display e) (er_target_display e) None None (Some now) (er_legal_hold e)
  else e.

(** [Scrub]: the rows it touched, and the stream after it. *)
Definition Scrub (org : string) (before now : Z) (db : audit_db) : Z * audit_db :=
  (Z.of_nat (length (List.filter (scrubs org before) (ad_events db))),
   with_events db (scrub_row org before now <$> ad_events db)).

(** ** The windows *)

Definition retentionSetting : string := "audit.retention_days".
Definition DefaultRetentionDays : Z := 365.
Definition MinRetentionDays : Z := 90.
Definition MaxRetentionDays : Z := 36500.

Definition Day : Z := 24 * Hour.

(** The switch of [retentionWindow]. *)
Definition clamped (days : float64) : float64 :=
  if f_lt days (f_of_Z MinRetentionDays) then f_of_Z MinRetentionDays
  else if f_lt (f_of_Z MaxRetentionDays) days then f_of_Z MaxRetentionDays
  else days.

(** [retentionWindow]: the setting's bytes are absent, are not a JSON number
    ([Some None]), or are one.  JSON's null decodes to zero. *)
Definition retentionWindow (raw : option (option float64)) : Z :=
  let days := match raw with Some (Some n) => n | _ => f_of_Z DefaultRetentionDays end in
  wrap64 (wrap64 (Z_of_f (clamped days) * 24) * Hour).

Definition windowDays (d : Z) : Z := Z.quot d Day.

(** [SetDays]: what is stored, or the refusal. *)
Definition SetDays (days : Z) : result Z Z :=
  if (days <? MinRetentionDays)%Z || (MaxRetentionDays <? days)%Z then Err days else Ok days.

Record orgWindow : Type := mkOrgWindow { ow_orgID : string; ow_window : Z }.

Definition longest (ws : list orgWindow) : Z := foldl (fun acc w => if (acc <? ow_window w)%Z then ow_window w else acc) 0%Z ws.

(** [InstanceCutDays]. *)
Definition InstanceCutDays (ws : list orgWindow) : Z := windowDays (foldl (fun acc w => Z.max acc (ow_window w)) 0%Z ws).

(** The sweep, when every statement is answered. *)
Definition Run (ws : list orgWindow) (parts : list partition) (now : Z) (db : audit_db)
  : result cut_error CutResult * audit_db :=
  let db := foldl (fun db w => (Scrub (ow_orgID w) (now - ow_window w) now db).2) db ws in
  if (0 <? longest ws)%Z then Cut parts (now - longest ws) idle db else (Ok (mkCutResult 0 0 []), db).

(** ** What a cut removes *)

Lemma lives_somewhere parts e :
  (exists p, p ∈ parts /\ pt_bounds p = None) -> exists p, p ∈ parts /\ lives_in parts p e = true.
Proof.
  intros (d & Hd & Hb). destruct (existsb (fun q => covers q (ts_of e)) parts) eqn:E.
  - apply existsb_elem in E as (q & Hq & Hc). exists q. split; [done|]. unfold lives_in.
    unfold covers in *. by destruct (pt_bounds q) as [[lo hi]|].
  - exists d. split; [done|]. unfold lives_in. rewrite Hb. apply forallb_forall. intros q Hq%list_elem_of_In.
    by rewrite (proj1 (existsb_false_elem _ _) E q Hq).
Qed.

Lemma commit_seq m e : seq_of (if existsb (Z.eqb (seq_of e)) (mw_held m) then with_hold e true else e) = seq_of e.
Proof. by destruct (existsb _ _). Qed.

Lemma commit_lives m parts p e :
  lives_in parts p (if existsb (Z.eqb (seq_of e)) (mw_held m) then with_hold e true else e) = lives_in parts p e.
Proof. by destruct (existsb _ _). Qed.

Lemma commit_held m e : er_legal_hold e = true ->
  er_legal_hold (if existsb (Z.eqb (seq_of e)) (mw_held m) then with_hold e true else e) = true.
Proof. by destruct (existsb _ _). Qed.

Lemma filter_find_none {A} (f : A -> bool) l : List.find f l = None <-> forall x, x ∈ l -> f x = false.
Proof.
  split.
  - intros H x Hx. by apply (List.find_none f l H), list_elem_of_In.
  - induction l as [|x l IH]; intros H; [done|]. cbn. rewrite H by left. apply IH. intros y Hy. apply H. by right.
Qed.

(** The rows the database function leaves are those above the cut, and it
    removes none that was under hold. *)
Lemma audit_events_cut_spec parts cut before m l n dropped l' :
  (exists p, p ∈ parts /\ pt_bounds p = None) -> Forall (fun e => above_cut cut e = true) (mw_added m) ->
  audit_events_cut parts cut before m l = Ok (n, dropped, l') ->
  l' = List.filter (above_cut cut) (commit_meanwhile m l) /\
  Forall (fun e => er_legal_hold e = true -> above_cut cut e = true) l.
Proof.
  intros Hd Hadd. unfold audit_events_cut.
  set (wm := whole_month parts cut before l). set (in_any ps e := existsb (fun p => lives_in parts p e) ps).
  set (whole := List.filter wm parts). set (rest := List.filter (fun p => negb (wm p)) parts).
  set (goes e := in_any rest e && negb (above_cut cut e) && negb (er_legal_hold e)).
  destruct (List.find _ whole) eqn:Ew; [done|]. rewrite filter_find_none in Ew.
  destruct (existsb _ _) eqn:Eh; [done|]. rewrite existsb_false_elem in Eh. intros [= <- <- <-].
  set (hold e := if existsb (Z.eqb (seq_of e)) (mw_held m) then with_hold e true else e) in *.
  assert (Habove : forall e, above_cut cut (hold e) = above_cut cut e) by (intros e; unfold above_cut, hold; by rewrite commit_seq).
  assert (Hwhole : forall e, in_any whole (hold e) = in_any whole e).
  { intros e. unfold in_any. assert (Hp : forall p, lives_in parts p (hold e) = lives_in parts p e) by (intros p; apply commit_lives).
    generalize whole as w. induction w as [|p w IH]; [done|]. cbn [existsb]. by rewrite Hp, IH. }
  assert (Hin : forall e, e ∈ l -> goes e = false -> hold e ∈ commit_meanwhile m (List.filter (fun e => negb (goes e)) l)).
  { intros e He Hg. unfold commit_meanwhile. apply elem_of_app. left. apply list_elem_of_fmap. exists e. split; [done|].
    apply list_elem_of_In, filter_In. by rewrite Hg, <-list_elem_of_In. }
  assert (Hrest : forall e, in_any whole e = false -> in_any rest e = true).
  { intros e He. destruct (lives_somewhere parts e Hd) as (p & Hp & Hl). apply existsb_elem. exists p. split; [|done].
    unfold rest. apply list_elem_of_In, filter_In. split; [by apply list_elem_of_In|].
    destruct (wm p) eqn:Hw; [|done]. exfalso. unfold in_any in He. rewrite existsb_false_elem in He.
    assert (Hpw : p ∈ whole) by (apply list_elem_of_In, filter_In; split; [by apply list_elem_of_In|done]).
    pose proof (He p Hpw). congruence. }
  assert (Hkept : forall e, e ∈ commit_meanwhile m (List.filter (fun e => negb (goes e)) l) ->
                            above_cut cut e = true -> in_any whole e = false).
  { intros e He Ha. apply existsb_false_elem. intros p Hp. pose proof (Ew p Hp) as Hn. rewrite existsb_false_elem in Hn.
    specialize (Hn e He). rewrite Ha, andb_true_r in Hn. done. }
  assert (Hgone : forall e, e ∈ l -> goes e = false -> above_cut cut e = false -> in_any whole e = true /\ er_legal_hold e = false).
  { intros e He Hg Ha. pose proof (Eh _ (Hin e He Hg)) as H. rewrite Habove, Ha, andb_true_r in H.
    assert (Hh : er_legal_hold e = false).
    { destruct (er_legal_hold e) eqn:E; [|done]. pose proof (commit_held m e E : er_legal_hold (hold e) = true) as Hc.
      by rewrite Hc in H. }
    split; [|done]. unfold goes in Hg. rewrite Ha, Hh, !andb_true_r in Hg.
    destruct (in_any whole e) eqn:E; [done|]. by rewrite Hrest in Hg. }
  assert (Hga : forall e, above_cut cut e = true -> goes e = false) by (intros e Ha; unfold goes; rewrite Ha; by destruct (in_any rest e)).
  assert (Hgh : forall e, er_legal_hold e = true -> goes e = false) by (intros e Ha; unfold goes; rewrite Ha; by destruct (in_any rest e && negb (above_cut cut e))).
  split.
  - change (List.filter (fun e => negb (in_any whole e)) (commit_meanwhile m (List.filter (fun e => negb (goes e)) l)) =
            List.filter (above_cut cut) (commit_meanwhile m l)).
    clear Eh. clearbody goes. clear Ew Hrest. clearbody in_any.
    unfold commit_meanwhile in *. fold hold. clearbody hold. rewrite !List.filter_app. f_equal.
    + assert (Hl : forall e, e ∈ l -> e ∈ l) by done. revert Hl. generalize l at 1 3 4 as k.
      induction k as [|e k IH]; intros Hk; [done|]. cbn [List.filter].
      assert (He : e ∈ l) by (apply Hk; by left). cbn [fmap list_fmap List.filter]. rewrite Habove.
      rewrite <-IH by (intros x Hx; apply Hk; by right).
      destruct (goes e) eqn:Hg; cbn [negb fmap list_fmap List.filter].
      * destruct (above_cut cut e) eqn:Ha; [by rewrite Hga in Hg|done].
      * rewrite Hwhole. destruct (above_cut cut e) eqn:Ha.
        -- rewrite <-Hwhole, (Hkept (hold e)); [done|by apply Hin|by rewrite Habove].
        -- by rewrite (proj1 (Hgone e He Hg Ha)).
    + rewrite Forall_forall in Hadd.
      assert (Hk : forall e, e ∈ mw_added m -> in_any whole e = false).
      { intros e He. apply Hkept; [|by apply Hadd]. apply elem_of_app. by right. }
      revert Hadd Hk. generalize (mw_added m) as k. induction k as [|e k IH]; intros Ha Hk; [done|]. cbn.
      rewrite (Ha e), (Hk e) by left. cbn. rewrite IH; [done|intros x Hx; apply Ha; by right|intros x Hx; apply Hk; by right].
  - apply Forall_forall. intros e He Hh. destruct (above_cut cut e) eqn:Ha; [done|].
    pose proof (Hgh e Hh) as Hg.
    destruct (Hgone e He Hg Ha). congruence.
Qed.

Lemma commit_idle l : commit_meanwhile idle l = l.
Proof.
  unfold commit_meanwhile. cbn. rewrite app_nil_r. induction l as [|e l IH]; [done|]. cbn. by f_equal.
Qed.

Lemma cut_row_some before l e : cut_row before l = Some e -> e ∈ l /\ (ts_of e < before)%Z /\ (seq_of e < first_held l)%Z.
Proof.
  unfold cut_row. intros H%last_Some_elem_of. apply list_elem_of_In, filter_In in H as [Hin H]. bool_prop.
  by rewrite list_elem_of_In.
Qed.

(** A cut that succeeds removes exactly the rows at or below the newest
    row it found old enough below every held one, from whatever partitions
    they were in, whatever else is committed while it runs; no row it removes
    is under hold, and if it finds nothing it removes nothing. *)
Theorem Cut_removes_a_prefix parts before m db res db' :
  (exists p, p ∈ parts /\ pt_bounds p = None) ->
  Forall (fun e => Forall (fun r => seq_of r < seq_of e)%Z (ad_events db)) (mw_added m) ->
  Cut parts before m db = (Ok res, db') ->
  match cut_row before (ad_events db) with
  | None => ad_events db' = commit_meanwhile m (ad_events db) /\ ad_anchors db' = ad_anchors db
  | Some e =>
      cr_Seq res = seq_of e /\ (ts_of e < before)%Z /\
      ad_events db' = List.filter (above_cut (seq_of e)) (commit_meanwhile m (ad_events db)) /\
      Forall (fun r => er_legal_hold r = true -> (seq_of e < seq_of r)%Z) (ad_events db) /\
      option_map an_hash (ad_anchors db' !! seq_of e) = Some (hash_of e)
  end.
Proof.
  intros Hd Hadd. unfold Cut. destruct (cut_row before (ad_events db)) as [e|] eqn:Ee; [|by intros [= <- <-]].
  apply cut_row_some in Ee as (Hin & Hts & _).
  destruct (audit_events_cut _ _ _ _ _) as [[[n dropped] l]|x] eqn:Ec; intros [= <- <-].
  apply audit_events_cut_spec in Ec as [-> Hheld]; [|done|].
  2: { eapply Forall_impl; [exact Hadd|]. intros a Ha. rewrite Forall_forall in Ha. apply Z.ltb_lt. by apply Ha. }
  split_and!; cbn; try done.
  - eapply Forall_impl; [exact Hheld|]. intros r Hr Hh. by apply Z.ltb_lt, Hr.
  - unfold put_cut. destruct (ad_anchors db !! seq_of e); by rewrite lookup_insert_eq.
Qed.

Section sound_cut.
Context (sha256 : string -> string) (format_time : Z -> string).
Context (VerifyAnchor : option (string -> string -> option string)).
#[local] Abbreviation sound_from := (sound_from sha256 format_time VerifyAnchor).
#[local] Abbreviation sound := (sound sha256 format_time VerifyAnchor).

Lemma anchor_at_row_is_checkpoint p db e a :
  sound_from p db -> e ∈ ad_events db -> ad_anchors db !! seq_of e = Some a -> an_kind a = Checkpoint.
Proof.
  intros S He Ha. destruct (an_kind a) eqn:Hk; [done|]. pose proof (so_cuts _ _ _ _ _ S _ _ Ha Hk) as Hl.
  rewrite Forall_forall in Hl. specialize (Hl (seq_of e)). assert (H : seq_of e ∈ seqs db) by (apply list_elem_of_fmap; by exists e).
  apply Hl in H. lia.
Qed.

Lemma elem_seqs_filter c db n :
  n ∈ seq_of <$> List.filter (above_cut c) (ad_events db) <-> n ∈ seqs db /\ (c < n)%Z.
Proof.
  unfold seqs. rewrite !list_elem_of_fmap. split.
  - intros (e & -> & He). apply list_elem_of_In, filter_In in He as [He Ha]. unfold above_cut in Ha. bool_prop.
    split; [|done]. exists e. by rewrite list_elem_of_In.
  - intros [(e & -> & He) Hc]. exists e. split; [done|]. apply list_elem_of_In, filter_In.
    rewrite <-list_elem_of_In. split; [done|]. by apply Z.ltb_lt.
Qed.

(** Below the cut row there are only rows up to it, and it is the last. *)
Lemma sorted_cut (l : list event_row) e : StronglySorted Z.lt (seq_of <$> l) -> e ∈ l ->
  exists A, l = A ++ List.filter (above_cut (seq_of e)) l /\ last A = Some e.
Proof.
  induction l as [|x l IH]; intros Hs He; [by apply not_elem_of_nil in He|].
  cbn in Hs. inversion Hs as [|? ? Hs' Hx]; subst. rewrite Forall_fmap, Forall_forall in Hx. cbn [List.filter].
  apply elem_of_cons in He as [->|He].
  - exists [x]. split; [|done]. unfold above_cut at 1. rewrite Z.ltb_irrefl, filter_keeps_all; [done|].
    intros y Hy. apply Z.ltb_lt. by apply (Hx y).
  - destruct (IH Hs' He) as (A & E & HA). exists (x :: A). unfold above_cut at 1.
    rewrite (proj2 (Z.ltb_ge _ _)) by (apply Z.lt_le_incl, (Hx e He)). split; [cbn; by f_equal|].
    rewrite last_cons, HA. done.
Qed.

Lemma put_cut_none e (anchors : gmap Z anchor) : anchors !! seq_of e = None ->
  put_cut e anchors = <[seq_of e := mkAnchor (hash_of e) RetentionCut None]> anchors.
Proof. intros H. unfold put_cut. by rewrite H. Qed.

Lemma base_after_cut p db e l n : sound_from p db -> e ∈ ad_events db -> ad_anchors db !! seq_of e = None ->
  base (mkAuditDb l n (put_cut e (ad_anchors db))) = hash_of e.
Proof.
  intros S He Hn. rewrite put_cut_none by done. unfold base. cbn [ad_anchors].
  destruct (max_key cut_anchor _) as [c|] eqn:Ec.
  - apply max_key_some in Ec as (a & Hc & Hk & Hmax). destruct (decide (c = seq_of e)) as [->|Hne]; [by rewrite !lookup_insert_eq|].
    exfalso. pose proof (Hmax (seq_of e) _ (lookup_insert_eq _ _ _) eq_refl) as Hle.
    rewrite lookup_insert_ne in Hc by done. apply bool_decide_eq_true in Hk.
    pose proof (so_cuts _ _ _ _ _ S c a Hc Hk) as Hl. rewrite Forall_forall in Hl.
    specialize (Hl (seq_of e)). assert (c < seq_of e)%Z; [|lia]. apply Hl, list_elem_of_fmap. by exists e.
  - discriminate (max_key_none _ _ _ _ Ec (lookup_insert_eq _ _ _)).
Qed.

(** The anchor a cut writes, over one that is there or not. *)
Lemma put_cut_lookup e (anchors : gmap Z anchor) n a : put_cut e anchors !! n = Some a ->
  n = seq_of e /\ an_kind a = match anchors !! seq_of e with Some b => an_kind b | None => RetentionCut end \/
  n <> seq_of e /\ anchors !! n = Some a.
Proof.
  unfold put_cut. destruct (anchors !! seq_of e) as [b|] eqn:E; rewrite lookup_insert_Some; intros [[<- <-]|[Hn Ha]]; auto.
Qed.

(** What a cut leaves follows from its newest removed row, or, when it
    leaves nothing, from the beginning again. *)
Definition left_from (e : event_row) (l : list event_row) : string := match l with [] => zero_hash | _ => hash_of e end.

Lemma Cut_leaves p parts before res db db' e :
  sound_from p db -> (exists p, p ∈ parts /\ pt_bounds p = None) -> Cut parts before idle db = (Ok res, db') ->
  cut_row before (ad_events db) = Some e -> sound_from (left_from e (ad_events db')) db'.
Proof.
  intros S Hd HC Ee. pose proof S as [S1 S2 S3 S4 S5 S6 S7 S8]. unfold Cut in HC. rewrite commit_idle in HC. cbn [mw_added length] in HC.
  rewrite Z.add_0_r, Ee in HC.
  destruct (audit_events_cut _ _ _ _ _) as [[[k dropped] l]|x] eqn:Ec; [injection HC as <- <-|done].
  cbn [ad_next] in *. apply cut_row_some in Ee as (Hin & _ & _).
  apply audit_events_cut_spec in Ec as [-> _]; [|done|constructor]. rewrite commit_idle in *.
  set (db' := mkAuditDb _ _ _) in *. assert (Hseq : forall n, n ∈ seqs db' <-> n ∈ seqs db /\ (seq_of e < n)%Z) by apply elem_seqs_filter.
  assert (Habove : Forall (Z.lt (seq_of e)) (seqs db')) by (apply Forall_forall; by intros m [_ Hm]%Hseq).
  assert (Hpos : (0 < seq_of e < ad_next db)%Z) by (rewrite Forall_forall in S2; apply S2, list_elem_of_fmap; by exists e).
  destruct (sorted_cut (ad_events db) e S1 Hin) as (A & E & HA).
  assert (Hstill : forall n, Forall (Z.lt n) (seqs db) -> Forall (Z.lt n) (seqs db')).
  { intros n. rewrite !Forall_forall. intros Hb m [Hm _]%Hseq. by apply Hb. }
  split.
  - unfold seqs in S1 |- *. rewrite E, fmap_app in S1. by apply StronglySorted_app_1_r in S1.
  - rewrite Forall_forall in S2. apply Forall_forall. intros n [Hn _]%Hseq. by apply S2.
  - done.
  - rewrite E in S4. apply follows_app in S4 as [_ S4]. rewrite HA in S4. cbn [default fmap option_fmap option_map] in S4.
    assert (follows sha256 format_time VerifyAnchor (checkpoint_at 0 0 db') (hash_of e) (ad_events db')) as F.
    { eapply follows_ext; [|exact S4]. intros r Hr. apply list_elem_of_In, filter_In in Hr as [_ Hr]. unfold above_cut in Hr. bool_prop.
      unfold checkpoint_at, db'. cbn [ad_anchors]. unfold put_cut. by destruct (ad_anchors db !! seq_of e); rewrite lookup_insert_ne by lia. }
    unfold left_from. by destruct (ad_events db').
  - intros n a Ha Hk. destruct (put_cut_lookup _ _ _ _ Ha) as [[-> _]|[_ Ha']]; [done|]. by eapply Hstill, S5.
  - intros n a Ha Hk. destruct (put_cut_lookup _ _ _ _ Ha) as [[-> _]|[_ Ha']]; [by right|]. rewrite Hseq.
    destruct (S6 n a Ha' Hk) as [Hb|Hb]; [|by right; apply Hstill].
    destruct (decide (seq_of e < n)%Z); [by left|]. right. eapply Forall_impl; [exact Habove|]. cbn. lia.
  - intros n a Ha. destruct (put_cut_lookup _ _ _ _ Ha) as [[-> _]|[_ Ha']]; [done|by eapply S7].
  - unfold left_from. by intros ->.
Qed.

Lemma Cut_nothing parts before res db db' : Cut parts before idle db = (res, db') ->
  (exists e res', res = Ok res' /\ cut_row before (ad_events db) = Some e) \/
  (cut_row before (ad_events db) = None \/ exists x, res = Err x) /\ db' = db.
Proof.
  unfold Cut. rewrite commit_idle. cbn [mw_added length]. rewrite Z.add_0_r. destruct (cut_row _ _) as [e|].
  - destruct (audit_events_cut _ _ _ _ _) as [[[k d] l]|x]; intros [= <- <-]; [left; eauto|right; split; [eauto|by destruct db]].
  - intros [= <- <-]. right. split; [by left|by destruct db].
Qed.

Lemma scrub_lawful org before now : lawful sha256 (scrub_row org before now).
Proof. intros e. unfold scrub_row. destruct (scrubs org before e); [|done]. split; [done|]. by left. Qed.

(** ** The life of a stream *)

Context (Marshal : value -> result string string) (ParseAddr : string -> option string) (pg_text : string -> bool).

(** Whether what is missing before the first row is on record after a cut:
    the newest removed row had no checkpoint, whose anchor would have stayed
    one, and a row is left to follow from it.  A cut that fails, or finds
    nothing, leaves it as it was. *)
Definition recorded (before : Z) (db : audit_db) (res : result cut_error CutResult) (db' : audit_db) (was : bool) : bool :=
  match cut_row before (ad_events db), res with
  | Some e, Ok _ => match ad_anchors db !! seq_of e, ad_events db' with None, _ :: _ => true | _, _ => false end
  | _, _ => was
  end.

(** What may happen to the stream, one transaction at a time, and whether
    its start is on record. *)
Inductive audit_step (db : audit_db) (ok : bool) : audit_db * bool -> Prop :=
  | step_append cap events ans :
      audit_step db ok ((append_tx sha256 format_time Marshal ParseAddr pg_text cap events ans db).2, ok)
  | step_anchor sign db' : signs_for VerifyAnchor sign -> Anchor_head sign db = Ok db' -> audit_step db ok (db', ok)
  | step_hold org from to_ hold : audit_step db ok (legal_hold org from to_ hold db, ok)
  | step_erase user pseudonym : audit_step db ok (pseudonymise user pseudonym db, ok)
  | step_scrub org before now : audit_step db ok ((Scrub org before now db).2, ok)
  | step_cut parts before res db' :
      (exists p, p ∈ parts /\ pt_bounds p = None) -> Cut parts before idle db = (res, db') ->
      audit_step db ok (db', recorded before db res db' ok).

Definition life (s s' : audit_db * bool) : Prop := audit_step s.1 s.2 s'.

Definition lawful_state (s : audit_db * bool) : Prop :=
  exists p, sound_from p s.1 /\ (s.2 = true -> p = base s.1).

Lemma life_lawful s s' : lawful_state s -> life s s' -> lawful_state s'.
Proof.
  destruct s as [db ok]. intros (p & S & B) St. cbn [fst snd] in *. change (audit_step db ok s') in St. destruct St; cbn [fst snd].
  - destruct (append_tx_sound sha256 format_time VerifyAnchor Marshal ParseAddr pg_text p cap events ans db S) as [S' E].
    exists p. split; [exact S'|]. cbn. by rewrite E.
  - destruct (Anchor_sound sha256 format_time VerifyAnchor p _ _ _ H S H0) as [S' E]. exists p. split; [exact S'|]. cbn. by rewrite E.
  - exists p. split; [by apply edit_sound; [apply hold_lawful|]|exact B].
  - exists p. split; [by apply edit_sound; [apply pseudonymise_lawful|]|exact B].
  - exists p. split; [by apply edit_sound; [apply scrub_lawful|]|exact B].
  - destruct (Cut_nothing _ _ _ _ _ H0) as [(e & r & -> & Ee)|[Hn ->]].
    + exists (left_from e (ad_events db')). split; [by eapply Cut_leaves|]. cbn [snd fst]. unfold recorded. rewrite Ee.
      destruct (ad_anchors db !! seq_of e) eqn:En; [done|]. destruct (ad_events db') as [|f l] eqn:El; [done|]. intros _. cbn [left_from].
      unfold Cut in H0. rewrite commit_idle, Ee in H0. destruct (audit_events_cut _ _ _ _ _) as [[[k d] l']|x]; [|done].
      injection H0 as <- <-. symmetry. apply cut_row_some in Ee as (Hin & _). by apply (base_after_cut p).
    + exists p. split; [done|]. cbn. unfold recorded. destruct Hn as [->|[x ->]]; [done|]. by destruct (cut_row _ _).
Qed.

Lemma history_lawful s : rtc life (empty_db, true) s -> lawful_state s.
Proof.
  assert (lawful_state (empty_db, true)) as H0 by (eexists; split; [apply (empty_sound sha256 format_time VerifyAnchor)|done]).
  intros H. revert H0. induction H as [|x y z Hxy _ IH]; [done|]. intros Hx. apply IH. by eapply life_lawful.
Qed.
End sound_cut.

(** C7. However events are appended (taken, refused or committed without the
    writer hearing of it), checkpoints signed, holds placed and released,
    people erased, content scrubbed and rows cut, no lawful operation looks
    like tampering: of every range that still has a row in it, [Verify]
    reports no row changed, inserted, removed or contradicted by its
    checkpoint.  It calls the range valid while the last cut that removed
    anything is on record (it did not land on a row with a checkpoint and
    left a row); after a cut that is not, the most it reports is that the
    start of the stream is not accounted for. *)
Theorem lawful_history_verifies sha256 format_time VerifyAnchor Marshal ParseAddr pg_text db ok from to_ :
  rtc (life sha256 format_time VerifyAnchor Marshal ParseAddr pg_text) (empty_db, true) (db, ok) ->
  rows_in from to_ db <> [] \/ lastCheckpoint from to_ db = 0%Z ->
  let res := Verify sha256 format_time VerifyAnchor from to_ db in
  (ok = true -> vr_Valid res = true) /\
  (vr_Valid res = true \/
   exists f l, ad_events db = f :: l /\
     (vr_Explained res = StartsAfterNothing (seq_of f) \/ vr_Explained res = DoesNotFollowCut (seq_of f))).
Proof.
  intros H Hne. destruct (history_lawful _ _ _ _ _ _ _ H) as (p & S & B). cbn [fst snd] in *. split.
  - intros ->. apply Verify_iff, sound_verified; [|done]. unfold sound. by rewrite <- B.
  - by eapply from_verified.
Qed.

Section reported.
Context (sha256 : string -> string) (format_time : Z -> string).
Context (VerifyAnchor : option (string -> string -> option string)).

Lemma after_cut parts before db res db' e :
  sound sha256 format_time VerifyAnchor db -> (exists p, p ∈ parts /\ pt_bounds p = None) ->
  Cut parts before idle db = (Ok res, db') -> cut_row before (ad_events db) = Some e ->
  ad_events db' = List.filter (above_cut (seq_of e)) (ad_events db) /\ ad_anchors db' = put_cut e (ad_anchors db) /\
  ad_next db' = ad_next db /\ follows sha256 format_time VerifyAnchor (checkpoint_at 0 0 db) (hash_of e) (ad_events db').
Proof.
  intros S Hd HC Ee. unfold Cut in HC. rewrite commit_idle, Ee in HC. cbn [mw_added length] in HC. rewrite Z.add_0_r in HC.
  destruct (audit_events_cut _ _ _ _ _) as [[[k dropped] l]|x] eqn:Ec; [injection HC as <- <-|done].
  apply cut_row_some in Ee as (Hin & _ & _).
  apply audit_events_cut_spec in Ec as [-> _]; [|done|constructor]. rewrite commit_idle. cbn. split_and!; try done.
  destruct (sorted_cut (ad_events db) e (so_sorted _ _ _ _ _ S) Hin) as (A & E & HA).
  pose proof (so_follows _ _ _ _ _ S) as Hf. rewrite E in Hf. apply follows_app in Hf as [_ Hf]. by rewrite HA in Hf.
Qed.
End reported.

(** A cut whose newest removed row already had a checkpoint keeps that
    anchor's kind: no retention cut is recorded, and [Verify] reports the
    lawful cut as rows removed without one. *)
Theorem cut_on_a_checkpoint_is_reported sha256 format_time VerifyAnchor parts before db res db' e f l :
  sound sha256 format_time VerifyAnchor db -> (exists p, p ∈ parts /\ pt_bounds p = None) ->
  (forall n a, ad_anchors db !! n = Some a -> an_kind a = Checkpoint) ->
  Cut parts before idle db = (Ok res, db') -> cut_row before (ad_events db) = Some e ->
  ad_anchors db !! seq_of e <> None -> hash_of e <> zero_hash -> ad_events db' = f :: l ->
  vr_Valid (Verify sha256 format_time VerifyAnchor 0 0 db') = false /\
  vr_Explained (Verify sha256 format_time VerifyAnchor 0 0 db') = StartsAfterNothing (seq_of f).
Proof.
  intros S Hd Hcp HC Ee Hat Hz Ef. destruct (after_cut _ _ _ _ _ _ _ _ _ S Hd HC Ee) as (_ & Ha & _ & Hf).
  assert (Hr : rows_in 0 0 db' = f :: l) by (unfold rows_in; by rewrite filter_keeps_all).
  assert (Hb : bridge 0 0 db' = None).
  { unfold bridge. rewrite Hr. destruct (max_key _ _) as [c|] eqn:Ec; [|done]. exfalso.
    apply max_key_some in Ec as (a & Hc & Hk & _). bool_prop.
    rewrite Ha in Hc. unfold put_cut in Hc. destruct (ad_anchors db !! seq_of e) as [b|] eqn:Eb; [|done].
    apply lookup_insert_Some in Hc as [[_ <-]|[_ Hc]]; cbn in *; [pose proof (Hcp _ _ Eb)|pose proof (Hcp _ _ Hc)]; congruence. }
  rewrite Ef in Hf. cbn in Hf. destruct Hf as [Hp _].
  unfold Verify, verify_walk. rewrite Hr, Hb. cbn [first_row]. rewrite Hp.
  rewrite (proj2 (String.eqb_neq _ _) Hz). cbn. done.
Qed.

(** After a cut that removed every row, the next event is chained to the
    beginning again, and [Verify] reports that it does not follow the cut. *)
Theorem cutting_everything_is_reported sha256 format_time VerifyAnchor Marshal ParseAddr pg_text parts before db res db' e cap ev db'' :
  sound sha256 format_time VerifyAnchor db -> (exists p, p ∈ parts /\ pt_bounds p = None) ->
  Cut parts before idle db = (Ok res, db') -> cut_row before (ad_events db) = Some e -> ad_events db' = [] ->
  ad_anchors db !! seq_of e = None -> ad_next db = (seq_of e + 1)%Z -> hash_of e <> zero_hash ->
  append_tx sha256 format_time Marshal ParseAddr pg_text cap [ev] Commits db' = (Ok (), db'') ->
  vr_Valid (Verify sha256 format_time VerifyAnchor 0 0 db'') = false /\
  vr_Explained (Verify sha256 format_time VerifyAnchor 0 0 db'') = DoesNotFollowCut (seq_of e + 1).
Proof.
  intros S Hd HC Ee Hnil Hat Hnext Hz. destruct (after_cut _ _ _ _ _ _ _ _ _ S Hd HC Ee) as (_ & Ha & Hn & _).
  unfold append_tx, head_hash. rewrite Hnil. cbn [last]. destruct ev as [ev [id now]]. cbn [append_loop].
  destruct (rowFor _ _ _ _ _ _) as [r|x]; [|done]. unfold insert_event.
  destruct (forallb pg_text _); cbn [negb]; [|done]. destruct (outcome_stored _); cbn [negb]; [|done]. rewrite Hnil. cbn [app].
  set (row := row_values _ _ _). intros [= <-]. set (db2 := mkAuditDb _ _ _).
  assert (Hseq : seq_of row = (seq_of e + 1)%Z) by (rewrite <- Hnext, <- Hn; reflexivity).
  assert (Hr : rows_in 0 0 db2 = [row]) by done.
  assert (Hin : e ∈ ad_events db) by (by apply cut_row_some in Ee as (? & _)).
  assert (Hb : bridge 0 0 db2 = Some (seq_of e, hash_of e)).
  { unfold bridge. rewrite Hr. change (ad_anchors db2) with (ad_anchors db'). rewrite Ha, put_cut_none by done.
    destruct (max_key _ _) as [c|] eqn:Ec.
    - apply max_key_some in Ec as (a & Hc & Hk & Hmax). bool_prop.
      assert (c = seq_of e) as ->.
      { pose proof (Hmax (seq_of e) _ (lookup_insert_eq _ _ _)) as Hle. cbn in Hle.
        rewrite (proj2 (Z.ltb_lt _ _)) in Hle by lia. specialize (Hle eq_refl). lia. }
      cbn [db2 ad_events existsb]. rewrite Hseq. rewrite lookup_insert_eq in *.
      rewrite (proj2 (Z.ltb_ge (seq_of e + 1) (seq_of e + 1))) by lia. by rewrite andb_false_r.
    - pose proof (max_key_none _ _ _ _ Ec (lookup_insert_eq _ _ _)) as H.
      cbn [an_kind] in H. rewrite Hseq, (proj2 (Z.ltb_lt _ _)) in H by lia. done. }
  unfold Verify, verify_walk. rewrite Hr, Hb. unfold first_row. rewrite Hseq.
  rewrite (proj2 (Z.eqb_eq _ _)) by lia. cbn [negb andb].
  change (prev_of row) with zero_hash. rewrite (proj2 (String.eqb_neq _ _) Hz). done.
Qed.

(** ** The window in force *)

Lemma digits2_pos_bounds (m : positive) :
  (2 ^ (Z.pos (digits2_pos m) - 1) <= Z.pos m < 2 ^ Z.pos (digits2_pos m))%Z.
Proof.
  induction m as [m IH|m IH|]; cbn [digits2_pos]; [| |done];
    rewrite Pos2Z.inj_succ; set (d := Z.pos (digits2_pos m)) in *; assert (0 < d)%Z by (subst d; lia);
    replace (Z.succ d - 1)%Z with (Z.succ (d - 1)) by lia; rewrite !Z.pow_succ_r by lia; lia.
Qed.

(** Between [lo] and [hi], a canonical float of either binade or of the ones
    between has a whole part between theirs. *)
Lemma f_trunc_between m e (el eh ml mh : Z) (vl vh : Z) :
  valid_binary prec emax (S754_finite false m e) = true ->
  (-1074 < el)%Z -> (el < eh <= 0)%Z ->
  ml = (vl * 2 ^ (- el))%Z -> mh = (vh * 2 ^ (- eh))%Z -> (vl * 2 ^ (- el) <= 2 ^ 53)%Z -> (2 ^ 52 <= vh * 2 ^ (- eh))%Z -> (0 <= vl)%Z ->
  (el < e \/ e = el /\ ml <= Z.pos m)%Z -> (e < eh \/ e = eh /\ Z.pos m <= mh)%Z ->
  (vl <= f_trunc (S754_finite false m e) <= vh)%Z.
Proof.
  intros Hv Hemin Hlh -> -> Hvl Hvh H0 Hl Hh. cbn in Hv. unfold bounded, canonical_mantissa in Hv. bool_prop.
  match goal with H : (fexp _ _ _ = e)%Z |- _ => rename H into Hfe end. unfold fexp, SpecFloat.emin, prec, emax in Hfe.
  assert (Hd : Z.pos (digits2_pos m) = 53%Z) by lia.
  pose proof (digits2_pos_bounds m) as Hm. rewrite Hd in Hm. change (53 - 1)%Z with 52%Z in Hm.
  assert (Hshape : f_trunc (S754_finite false m e) = (Z.pos m / 2 ^ (- e))%Z).
  { cbn [f_trunc]. destruct (Z.leb_spec 0 e); [|done]. assert (e = 0)%Z as -> by lia. change (2 ^ 0)%Z with 1%Z. rewrite Z.div_1_r. lia. }
  rewrite Hshape. assert (Hp : (0 < 2 ^ (- e))%Z) by (apply Z.pow_pos_nonneg; lia). split.
  - apply Z.div_le_lower_bound; [done|]. destruct Hl as [Hl|[-> Hl]]; [|lia].
    replace (- el)%Z with (- e + (e - el))%Z in Hvl by lia. rewrite Z.pow_add_r in Hvl by lia.
    assert (2 ^ 1 <= 2 ^ (e - el))%Z by (apply Z.pow_le_mono_r; lia). nia.
  - destruct Hh as [Hh|[-> Hh]].
    + apply Z.lt_le_incl, Z.div_lt_upper_bound; [done|].
      replace (- e)%Z with (- eh + (eh - e))%Z by lia. rewrite Z.pow_add_r by lia.
      assert (2 ^ 1 <= 2 ^ (eh - e))%Z by (apply Z.pow_le_mono_r; lia). nia.
    + apply (Z.le_trans _ ((vh * 2 ^ (- eh)) / 2 ^ (- eh))); [apply Z.div_le_mono; lia|]. rewrite Z.div_mul by lia. lia.
Qed.

Lemma f_lt_finite m e m' e' : f_lt (S754_finite false m e) (S754_finite false m' e') = false ->
  (e' < e \/ e = e' /\ Z.pos m' <= Z.pos m)%Z.
Proof.
  unfold f_lt, SFltb. cbn [SFcompare]. destruct (Z.compare_spec e e'); [|done|by left].
  change (Pos.compare_cont Eq m m') with (m ?= m')%positive.
  destruct (Pos.compare_spec m m') as [->|?|?]; intros H'; [right; by split|discriminate H'|right; split; [done|lia]].
Qed.

Lemma bounds_canonical : f_of_Z MinRetentionDays = S754_finite false (90 * 2 ^ 46) (-46) /\
  f_of_Z MaxRetentionDays = S754_finite false (36500 * 2 ^ 37) (-37).
Proof. by vm_compute. Qed.

Lemma clamped_between days : valid_binary prec emax days = true -> days <> S754_nan ->
  (MinRetentionDays <= Z_of_f (clamped days) <= MaxRetentionDays)%Z.
Proof.
  intros Hv Hn. unfold clamped. destruct (f_lt days _) eqn:El; [by vm_compute|].
  destruct (f_lt _ days) eqn:Eh; [by vm_compute|].
  destruct days as [s|[]| |[] m e]; try done.
  destruct bounds_canonical as [Elow Ehigh]. rewrite Elow in El. rewrite Ehigh in Eh.
  apply f_lt_finite in El. apply f_lt_finite in Eh.
  assert (H : (90 <= f_trunc (S754_finite false m e) <= 36500)%Z).
  { apply (f_trunc_between m e (-46) (-37) (90 * 2 ^ 46) (36500 * 2 ^ 37) 90 36500); try done; lia. }
  unfold Z_of_f, in_int64. rewrite !(proj2 (Z.leb_le _ _)) by (unfold min_int64, max_int64; lia). done.
Qed.

(** Whatever an organisation's setting holds, its window is a whole
    number of days between the least and the most that [SetDays] would have
    stored, and its nanoseconds fit an int64; a setting that is missing, or
    that is not a number, gives the default. *)
Theorem retentionWindow_within_bounds raw :
  (forall f, raw = Some (Some f) -> valid_binary prec emax f = true /\ f <> S754_nan) ->
  exists d, retentionWindow raw = (d * Day)%Z /\ windowDays (retentionWindow raw) = d /\ SetDays d = Ok d /\
    in_int64 (retentionWindow raw) = true /\ (raw = None \/ raw = Some None -> d = DefaultRetentionDays).
Proof.
  intros Hraw. set (days := match raw with Some (Some n) => n | _ => f_of_Z DefaultRetentionDays end).
  assert (Hb : (90 <= Z_of_f (clamped days) <= 36500)%Z).
  { apply clamped_between; subst days; destruct raw as [[f|]|]; try done; by apply Hraw. }
  assert (Hw : retentionWindow raw = (Z_of_f (clamped days) * Day)%Z).
  { change (retentionWindow raw) with (wrap64 (wrap64 (Z_of_f (clamped days) * 24) * Hour)). revert Hb. generalize (Z_of_f (clamped days)). intros z Hz.
    assert (Hs : forall x, (- 2 ^ 63 <= x < 2 ^ 63)%Z -> wrap64 x = x) by (intros x Hx; unfold wrap64; rewrite Z.mod_small; lia).
    change Hour with 3600000000000%Z. change Day with 86400000000000%Z. rewrite (Hs (z * 24)%Z) by lia. rewrite Hs; lia. }
  assert (Hd : raw = None \/ raw = Some None -> Z_of_f (clamped days) = DefaultRetentionDays).
  { by intros [-> | ->]. }
  exists (Z_of_f (clamped days)). rewrite Hw. split_and!; try done.
  - apply Z.quot_mul. done.
  - unfold SetDays, MinRetentionDays, MaxRetentionDays. rewrite !(proj2 (Z.ltb_ge _ _)); [done|lia..].
  - unfold in_int64, min_int64, max_int64. change Day with 86400000000000%Z. rewrite !(proj2 (Z.leb_le _ _)); [done|lia..].
Qed.

Lemma retentionWindow_within_bounds_witness :
  (exists d, retentionWindow (Some (Some (f_of_Z 400))) = (d * Day)%Z /\ windowDays (retentionWindow (Some (Some (f_of_Z 400)))) = d /\
     SetDays d = Ok d /\ in_int64 (retentionWindow (Some (Some (f_of_Z 400)))) = true /\
     (Some (Some (f_of_Z 400)) = None \/ Some (Some (f_of_Z 400)) = Some None -> d = DefaultRetentionDays)) /\
  retentionWindow (Some (Some (f_of_Z 0))) = (90 * Day)%Z /\ retentionWindow (Some (Some (S754_infinity false))) = (36500 * Day)%Z.
Proof.
  split; [|split; reflexivity]. apply retentionWindow_within_bounds. intros f [= <-]. split; [reflexivity|done].
Defined.

(** ** The sweep *)

Definition older (now : Z) (e : event_row) (w : orgWindow) : Prop := (ts_of e < now - ow_window w)%Z.

(** The longest window is what [InstanceCutDays] reports. *)
Lemma longest_max ws : longest ws = foldl (fun acc w => Z.max acc (ow_window w)) 0%Z ws.
Proof.
  unfold longest. generalize 0%Z. induction ws as [|w ws IH]; intros acc; [done|]. cbn [foldl]. rewrite IH. f_equal.
  destruct (Z.ltb_spec acc (ow_window w)); lia.
Qed.

Lemma longest_ge ws w : w ∈ ws -> (ow_window w <= longest ws)%Z.
Proof.
  rewrite longest_max. generalize 0%Z. induction ws as [|v ws IH]; intros acc Hw; [by apply not_elem_of_nil in Hw|].
  apply elem_of_cons in Hw as [->|Hw]; [|by apply IH]. cbn [foldl]. clear IH.
  assert (H : (ow_window v <= Z.max acc (ow_window v))%Z) by lia. revert H. generalize (Z.max acc (ow_window v)).
  induction ws as [|w ws IH]; intros a Ha; [done|]. cbn [foldl]. apply IH. lia.
Qed.

Definition scrub_all (ws : list orgWindow) (now : Z) (db : audit_db) : audit_db :=
  foldl (fun db w => (Scrub (ow_orgID w) (now - ow_window w) now db).2) db ws.

Definition scrubbed_by (ws : list orgWindow) (now : Z) (e : event_row) : event_row :=
  foldl (fun e w => scrub_row (ow_orgID w) (now - ow_window w) now e) e ws.

Lemma scrub_all_rows ws now db : scrub_all ws now db = with_events db (scrubbed_by ws now <$> ad_events db).
Proof.
  revert db. induction ws as [|w ws IH]; intros db.
  - cbn. rewrite list_fmap_id. by destruct db.
  - unfold scrub_all. cbn [foldl]. fold (scrub_all ws now (Scrub (ow_orgID w) (now - ow_window w) now db).2).
    rewrite IH. unfold Scrub, with_events. cbn [snd ad_events]. by rewrite <-list_fmap_compose.
Qed.

Lemma scrubbed_by_cons w ws now e :
  scrubbed_by (w :: ws) now e = scrubbed_by ws now (scrub_row (ow_orgID w) (now - ow_window w) now e).
Proof. done. Qed.

Lemma scrubbed_by_written ws now e : er_written (scrubbed_by ws now e) = er_written e.
Proof.
  revert e. induction ws as [|w ws IH]; intros e; [done|]. rewrite scrubbed_by_cons, IH. unfold scrub_row. by destruct (scrubs _ _ _).
Qed.

(** A row inside its organisation's window is not touched. *)
Lemma scrubbed_by_kept ws now e :
  (forall w, w ∈ ws -> org_of e = Some (ow_orgID w) -> ~ older now e w) -> scrubbed_by ws now e = e.
Proof.
  induction ws as [|w ws IH]; intros H; [done|]. rewrite scrubbed_by_cons.
  assert (Hs : scrub_row (ow_orgID w) (now - ow_window w) now e = e).
  { unfold scrub_row, scrubs. destruct (bool_decide_reflect (org_of e = Some (ow_orgID w))) as [Ho|]; [|done].
    destruct (Z.ltb_spec (ts_of e) (now - ow_window w)) as [Hlt|]; [|done]. destruct (H w); [by left|done|exact Hlt]. }
  rewrite Hs. apply IH. intros v Hv. apply H. by right.
Qed.

Lemma scrubbed_by_held ws now e : er_legal_hold e = true -> scrubbed_by ws now e = e.
Proof.
  intros Hh. induction ws as [|w ws IH]; [done|]. rewrite scrubbed_by_cons. unfold scrub_row, scrubs. by rewrite Hh, !andb_false_r.
Qed.

Lemma Cut_leaves_above parts before db res db' :
  (exists p, p ∈ parts /\ pt_bounds p = None) -> Cut parts before idle db = (Ok res, db') ->
  ad_events db' = match cut_row before (ad_events db) with
                  | None => ad_events db
                  | Some c => List.filter (above_cut (seq_of c)) (ad_events db)
                  end.
Proof.
  intros Hd. unfold Cut. rewrite commit_idle. destruct (cut_row before (ad_events db)) as [e|]; [|by intros [= <- <-]].
  destruct (audit_events_cut _ _ _ _ _) as [[[n dropped] l]|x] eqn:Ec; intros [= <- <-].
  apply audit_events_cut_spec in Ec as [-> _]; [|done|constructor]. by rewrite commit_idle.
Qed.

Definition in_order (e f : event_row) : Prop := (seq_of e < seq_of f /\ ts_of e <= ts_of f)%Z.

Lemma below_in_order l e f : StronglySorted in_order l -> e ∈ l -> f ∈ l -> (seq_of e <= seq_of f)%Z -> (ts_of e <= ts_of f)%Z.
Proof.
  induction l as [|x l IH]; intros Hs He Hf Hle; [by apply not_elem_of_nil in He|].
  inversion Hs as [|? ? Hs' Hx]; subst. rewrite Forall_forall in Hx.
  apply elem_of_cons in He as [->|He]; apply elem_of_cons in Hf as [->|Hf]; [done| | |by apply IH].
  - by apply Hx.
  - destruct (Hx e He). lia.
Qed.

Lemma StronglySorted_fmap_order (g : event_row -> event_row) l :
  (forall e, er_written (g e) = er_written e) -> StronglySorted in_order l -> StronglySorted in_order (g <$> l).
Proof.
  intros Hg. induction 1 as [|x l Hs IH Hx]; cbn; constructor; [done|]. rewrite Forall_fmap.
  eapply Forall_impl; [exact Hx|]. intros y. unfold in_order, seq_of, ts_of. cbn. by rewrite !Hg.
Qed.

(** Where the clock did not run backwards, a sweep keeps whole every event
    that its own organisation's window still covers, and removes no event that
    some organisation's window still covers: nothing is deleted until every
    organisation has given up on it. *)
Theorem sweep_keeps_what_a_window_covers ws parts now db res db' e :
  (exists p, p ∈ parts /\ pt_bounds p = None) -> StronglySorted in_order (ad_events db) ->
  Run ws parts now db = (Ok res, db') -> e ∈ ad_events db ->
  ((forall w, w ∈ ws -> org_of e = Some (ow_orgID w) -> ~ older now e w) ->
   (exists w, w ∈ ws /\ ~ older now e w) -> e ∈ ad_events db') /\
  ((exists w, w ∈ ws /\ ~ older now e w) ->
   exists f, f ∈ ad_events db' /\ er_written f = er_written e /\
     (er_legal_hold e = true -> f = e)).
Proof.
  intros Hd Hs HR He. unfold Run in HR. fold (scrub_all ws now db) in HR. set (g := scrubbed_by ws now).
  assert (Hrows : ad_events (scrub_all ws now db) = g <$> ad_events db) by (by rewrite scrub_all_rows).
  assert (Hge : g e ∈ ad_events (scrub_all ws now db)) by (rewrite Hrows; by apply list_elem_of_fmap_2).
  assert (Hg : (exists w, w ∈ ws /\ ~ older now e w) -> g e ∈ ad_events db').
  { intros (w & Hw & Hold). destruct (0 <? longest ws)%Z; [|by injection HR as <- <-].
    destruct (cut_row (now - longest ws) (ad_events (scrub_all ws now db))) as [c|] eqn:Ec.
    - apply Cut_leaves_above in HR; [|done]. rewrite Ec in HR. rewrite HR. apply list_elem_of_In, filter_In.
      split; [by apply list_elem_of_In|]. apply Z.ltb_lt. destruct (Z.lt_ge_cases (seq_of c) (seq_of (g e))) as [|Hle]; [done|].
      exfalso. apply cut_row_some in Ec as (Hc & Hts & _). apply Hold. unfold older. apply longest_ge in Hw.
      enough (ts_of (g e) <= ts_of c)%Z as Ht; [unfold ts_of, g in *; rewrite scrubbed_by_written in Ht; lia|].
      eapply below_in_order; [|exact Hge|exact Hc|done]. rewrite Hrows. apply StronglySorted_fmap_order; [apply scrubbed_by_written|done].
    - apply Cut_leaves_above in HR; [|done]. rewrite Ec in HR. by rewrite HR. }
  split.
  - intros Hown Hsome. specialize (Hg Hsome). unfold g in Hg. by rewrite scrubbed_by_kept in Hg.
  - intros Hsome. exists (g e). split_and!; [by apply Hg|apply scrubbed_by_written|].
    intros Hh. apply scrubbed_by_held. done.
Qed.

(** ** Streams a sweep runs over *)

Definition short_hash (_ : string) : string := "00000000000000000000000000000001".

Definition append_at (times : list Z) : audit_db :=
  (append_tx short_hash example_time (fun _ => Ok "{}") (fun _ => None) NUL_free 1000
     ((fun t => (example_event "tool.call" "u1", (Ok "id", t))) <$> times) Commits empty_db).2.

Definition january : partition := mkPartition "audit_events_p2026_01" (Some (0, 3000)%Z).
Definition catch_all : partition := mkPartition "audit_events_default" None.

Definition four_events : audit_db := Eval vm_compute in append_at [1000; 2000; 3000; 4000]%Z.
Definition held_meanwhile : meanwhile := mkMeanwhile [4%Z] [].
Definition four_cut : audit_db := Eval vm_compute in (Cut [january; catch_all] 4000 held_meanwhile four_events).2.

Lemma Cut_removes_a_prefix_witness :
  Cut [january; catch_all] 4000 held_meanwhile four_events = (Ok (mkCutResult 3 3 ["audit_events_p2026_01"]), four_cut) /\
  match cut_row 4000 (ad_events four_events) with
  | None => ad_events four_cut = commit_meanwhile held_meanwhile (ad_events four_events) /\ ad_anchors four_cut = ad_anchors four_events
  | Some e =>
      cr_Seq (mkCutResult 3 3 ["audit_events_p2026_01"]) = seq_of e /\ (ts_of e < 4000)%Z /\
      ad_events four_cut = List.filter (above_cut (seq_of e)) (commit_meanwhile held_meanwhile (ad_events four_events)) /\
      Forall (fun r => er_legal_hold r = true -> (seq_of e < seq_of r)%Z) (ad_events four_events) /\
      option_map an_hash (ad_anchors four_cut !! seq_of e) = Some (hash_of e)
  end.
Proof.
  assert (E : Cut [january; catch_all] 4000 held_meanwhile four_events = (Ok (mkCutResult 3 3 ["audit_events_p2026_01"]), four_cut))
    by reflexivity.
  split; [exact E|].
  apply (Cut_removes_a_prefix [january; catch_all] 4000 held_meanwhile four_events (mkCutResult 3 3 ["audit_events_p2026_01"]) four_cut).
  - exists catch_all. split; [right; left|done].
  - constructor.
  - exact E.
Defined.

Definition two_windows : list orgWindow := [mkOrgWindow "o1" 1500; mkOrgWindow "o2" 2500].
Definition four_swept : audit_db := Eval vm_compute in (Run two_windows [catch_all] 5000 four_events).2.

Lemma sweep_keeps_what_a_window_covers_witness :
  seq_of <$> ad_events four_swept = [3; 4]%Z /\
  exists e, ad_events four_events !! 3 = Some e /\ e ∈ ad_events four_swept.
Proof.
  split; [reflexivity|]. eexists. split; [reflexivity|].
  apply (sweep_keeps_what_a_window_covers two_windows [catch_all] 5000 four_events (mkCutResult 2 2 []) four_swept).
  - exists catch_all. split; [left|done].
  - repeat constructor; discriminate.
  - reflexivity.
  - right; right; right; left.
  - intros w Hw _. unfold older. repeat (apply elem_of_cons in Hw as [->|Hw]; [by compute|]). by apply not_elem_of_nil in Hw.
  - exists (mkOrgWindow "o2" 2500). split; [right; left|]. by compute.
Defined.

(** A row stamped by a clock running behind takes the newer rows below it
    along: the window is 1500 long, and the row stamped 9000 goes at 10000. *)
Definition clock_behind : audit_db := Eval vm_compute in append_at [9000; 3000; 9000]%Z.

Example a_clock_behind_cuts_newer_rows :
  ts_of <$> ad_events clock_behind = [9000; 3000; 9000]%Z /\
  seq_of <$> ad_events (Run [mkOrgWindow "o1" 1500] [catch_all] 10000 clock_behind).2 = [3%Z].
Proof. split; reflexivity. Qed.

Definition two_erased : audit_db := Eval vm_compute in pseudonymise "u1" "erased" (append_at [1000; 2000]%Z).
Definition two_cut : audit_db := Eval vm_compute in (Cut [catch_all] 1500 idle two_erased).2.

Lemma lawful_history_verifies_witness :
  seq_of <$> ad_events two_cut = [2%Z] /\ vr_Valid (Verify short_hash example_time None 0 0 two_cut) = true.
Proof.
  split; [reflexivity|].
  refine (proj1 (lawful_history_verifies short_hash example_time None (fun _ => Ok "{}") (fun _ => None) NUL_free two_cut true 0 0 _ _) eq_refl);
    [|left; discriminate].
  eapply rtc_l.
  { exact (step_append short_hash example_time None (fun _ => Ok "{}") (fun _ => None) NUL_free empty_db true 1000
      ((fun t => (example_event "tool.call" "u1", (Ok "id", t))) <$> [1000; 2000]%Z) Commits). }
  eapply rtc_l; [exact (step_erase _ _ _ _ _ _ _ true "u1" "erased")|].
  apply rtc_once. refine (step_cut short_hash example_time None (fun _ => Ok "{}") (fun _ => None) NUL_free two_erased true [catch_all] 1500
    (Ok (mkCutResult 1 1 [])) two_cut _ _).
  - exists catch_all. split; [left|done].
  - reflexivity.
Defined.
