(* ===== verification/AuditSpool.v ===== *)
(** * AuditSpool: events that wait on disk

    [internal/audit/spool.go]: a bounded directory of segments, oldest
    first.  A segment is its path below the replica's own directory and the
    lines of its file, or no file when something removed it underneath.
    Encoding and decoding an entry's line are arguments, as are the clock and
    what the file system answers.  Taking over another replica's directory
    is not modelled: it only ever adds segments, which a scan finds. *)
From S2P Require Import Prelude GoStrings Regex Values CustomDetectors AuditEvents.

Open Scope list_scope.

(** ** Names *)

Definition spoolSuffix : string := ".ndjson".
Definition spoolTempSuffix : string := ".tmp".
Definition spoolAdoptedPrefix : string := "adopted-".
Definition spoolSegmentMax : nat := 200.
Definition spoolLineMax : Z := Z.shiftl 1 20.

(** The decimal digits of a number below 10^w, and [%0wd]. *)
Definition digit (d : Z) : ascii := ascii_of_nat (Z.to_nat (48 + d)).

Fixpoint fixed (w : nat) (n : Z) : string :=
  match w with
  | O => ""
  | S w => fixed w (n / 10) +:+ String (digit (n mod 10)) ""
  end.

Definition zero_padded (w : nat) (n : Z) : string :=
  if (n <? 0)%Z
  then "-" +:+ (if (- n <? 10 ^ Z.of_nat (w - 1))%Z then fixed (w - 1) (- n) else Itoa (- n))
  else if (n <? 10 ^ Z.of_nat w)%Z then fixed w n else Itoa n.

Definition segment_name (order : Z) (count : nat) (instance_ : string) : string :=
  zero_padded 20 order +:+ "-" +:+ zero_padded 6 (Z.of_nat count) +:+ "-" +:+ instance_ +:+ spoolSuffix.

(** [filepath.Base]. *)
Fixpoint trim_slashes (l : list ascii) : list ascii :=
  match l with c :: l => if Ascii.eqb c "/" then trim_slashes l else c :: l | [] => [] end.

Definition Base (s : string) : string :=
  if String.eqb s "" then "."
  else match string_of (rev (trim_slashes (rev (bytes_of s)))) with
       | "" => "/"
       | s => List.last (Split s "/") ""
       end.

(** [filepath.Dir] of a relative path that is clean already. *)
Definition Dir (s : string) : string :=
  match removelast (Split s "/") with [] => "." | l => Join l "/" end.

Definition parseSegmentName (name : string) : Z * Z :=
  let base := TrimSuffix (Base name) spoolSuffix in
  match Cut base "-" with
  | (_, _, false) => (0%Z, 0%Z)
  | (a, b, true) => ((ParseInt a).1, (ParseInt (Cut b "-").1.1).1)
  end.

(** The runes [SanitizeInstance] keeps. *)
Definition name_rune (r : Z) : bool :=
  ((97 <=? r) && (r <=? 122) || (65 <=? r) && (r <=? 90) || (48 <=? r) && (r <=? 57) || (r =? 46) || (r =? 45) || (r =? 95))%Z.

Definition SanitizeInstance (id : string) : string :=
  let id := string_of (map (fun r => if name_rune r.1 then ascii_of_nat (Z.to_nat r.1) else "_"%char) (runes (bytes_of id))) in
  if String.eqb id "." || String.eqb id ".." || HasPrefix id "." || HasPrefix id spoolAdoptedPrefix then "" else id.

(** ** The spool *)

Record spoolEntry : Type := mkSpoolEntry { se_At : Z; se_Event : AuditEvent }.

Record segment : Type := mkSegment { sg_name : string; sg_file : option (list string) }.

Record Spool : Type := mkSpool {
  sp_instance : string;
  sp_maxBytes : Z;
  sp_segments : list segment;
  sp_events : Z;
  sp_bytes : Z;
  sp_order : Z;
}.

Inductive spool_error : Type :=
  | ErrEncode (e : string)
  | ErrSpoolFull (held allowed : Z)
  | ErrIO (e : string)
  | ErrTooLong.

(** The bytes of a file: every line with its newline. *)
Definition body_size (lines : list string) : Z := foldr (fun l n => Z.of_nat (String.length l) + 1 + n)%Z 0%Z lines.

Definition with_segments (s : Spool) (l : list segment) (events bytes : Z) : Spool :=
  mkSpool (sp_instance s) (sp_maxBytes s) l events bytes (sp_order s).

Definition Empty (s : Spool) : bool := match sp_segments s with [] => true | _ => false end.

(** [sortSegments]: this replica's own segments first. *)
Definition segment_less (a b : string) : bool :=
  if negb (String.eqb (Dir a) (Dir b))
  then if String.eqb (Dir a) "." || String.eqb (Dir b) "." then String.eqb (Dir a) "." else String.ltb (Dir a) (Dir b)
  else String.ltb (Base a) (Base b).

Definition segment_le (a b : segment) : Prop := segment_less (sg_name b) (sg_name a) = false.

#[export] Instance segment_le_dec a b : Decision (segment_le a b).
Proof. unfold segment_le. apply _. Defined.

(** [scan]: the directory's files, in whatever order the walk meets them. *)
Definition scan (files : list (string * list string)) (s : Spool) : Spool :=
  let keep := List.filter (fun f => negb (HasSuffix (Base f.1) spoolTempSuffix) && HasSuffix (Base f.1) spoolSuffix) files in
  let next := foldl (fun n f => Z.max n ((parseSegmentName (Base f.1)).1 + 1)) 0%Z keep in
  mkSpool (sp_instance s) (sp_maxBytes s)
    (merge_sort segment_le (map (fun f => mkSegment f.1 (Some f.2)) keep))
    (foldl (fun n f => n + (parseSegmentName (Base f.1)).2)%Z 0%Z keep)
    (foldl (fun n f => n + body_size f.2)%Z 0%Z keep)
    (Z.max (sp_order s) next).

(** The first segment of a name leaves the index. *)
Fixpoint drop_name (name : string) (l : list segment) : list segment :=
  match l with
  | [] => []
  | g :: l => if String.eqb (sg_name g) name then l else g :: drop_name name l
  end.

Definition forget (name : string) (size : Z) (s : Spool) : Spool :=
  with_segments s (drop_name name (sp_segments s)) (Z.max 0 (sp_events s - (parseSegmentName name).2)) (Z.max 0 (sp_bytes s - size)).

(** What opening or removing a file answers. *)
Inductive io_answer : Type := Done | Fails (e : string).

Section spool.
Context (Encode : spoolEntry -> result string string) (Decode : string -> option spoolEntry).

Fixpoint encode_all (es : list spoolEntry) : result spool_error (list string) :=
  match es with
  | [] => Ok []
  | e :: es => match Encode e with
               | Err x => Err (ErrEncode x)
               | Ok l => ls ← encode_all es; Ok (l :: ls)
               end
  end.

(** [writeSegment]; [now] is the clock and [io] how creating, writing,
    syncing and renaming the file went. *)
Definition writeSegment (now : Z) (io : io_answer) (es : list spoolEntry) (s : Spool) : result spool_error unit * Spool :=
  match encode_all es with
  | Err x => (Err x, s)
  | Ok lines =>
      if (sp_maxBytes s <? sp_bytes s + body_size lines)%Z then (Err (ErrSpoolFull (sp_bytes s) (sp_maxBytes s)), s)
      else
        let order := Z.max (sp_order s) now in
        let s := mkSpool (sp_instance s) (sp_maxBytes s) (sp_segments s) (sp_events s) (sp_bytes s) (order + 1) in
        match io with
        | Fails x => (Err (ErrIO x), s)
        | Done =>
            let g := mkSegment (segment_name order (length es) (sp_instance s)) (Some lines) in
            (Ok (), with_segments s (sp_segments s ++ [g]) (sp_events s + Z.of_nat (length es)) (sp_bytes s + body_size lines))
        end
  end.

(** [Write]; [io i] is the clock and the file system at the [i]-th segment. *)
Fixpoint write_loop (fuel : nat) (io : nat -> Z * io_answer) (i : nat) (es : list spoolEntry) (s : Spool)
  : result spool_error unit * Spool :=
  match fuel, es with
  | S fuel, _ :: _ =>
      match writeSegment (io i).1 (io i).2 (take spoolSegmentMax es) s with
      | (Err x, s) => (Err x, s)
      | (Ok _, s) => write_loop fuel io (S i) (drop spoolSegmentMax es) s
      end
  | _, _ => (Ok (), s)
  end.

Definition Write (io : nat -> Z * io_answer) (es : list spoolEntry) (s : Spool) : result spool_error unit * Spool :=
  write_loop (length es) io 0 es s.

(** The lines of a file, one by one: one that is too long fails the file, and
    one that will not decode is skipped. *)
Fixpoint read_lines (lines : list string) : result spool_error (list spoolEntry) :=
  match lines with
  | [] => Ok []
  | l :: lines =>
      if (spoolLineMax <? Z.of_nat (String.length l) + 1)%Z then Err ErrTooLong
      else es ← read_lines lines;
           Ok (if String.eqb l "" then es else match Decode l with Some e => e :: es | None => es end)
  end.

Definition Oldest (open_ : io_answer) (s : Spool) : result spool_error (option (string * list spoolEntry)) * Spool :=
  match sp_segments s with
  | [] => (Ok None, s)
  | g :: _ =>
      match sg_file g, open_ with
      | None, _ => (Ok None, forget (sg_name g) 0 s)
      | Some _, Fails x => (Err (ErrIO x), s)
      | Some lines, Done => match read_lines lines with
                            | Err x => (Err x, s)
                            | Ok es => (Ok (Some (sg_name g, es)), s)
                            end
      end
  end.

Definition file_size (name : string) (s : Spool) : Z :=
  match List.find (fun g => String.eqb (sg_name g) name) (sp_segments s) with
  | Some (mkSegment _ (Some lines)) => body_size lines
  | _ => 0%Z
  end.

Definition Remove (io : io_answer) (name : string) (s : Spool) : result spool_error unit * Spool :=
  match io with
  | Fails x => (Err (ErrIO x), s)
  | Done => (Ok (), forget name (file_size name s) s)
  end.
End spool.

(** ** Names read back *)

Lemma fixed_length w n : String.length (fixed w n) = w.
Proof. revert n; induction w as [|w IH]; intros n; [done|]. cbn [fixed]. rewrite length_app_str, IH. cbn. lia. Qed.

Lemma digit_val d : (0 <= d < 10)%Z -> is_digit (digit d) = true /\ (byte_val (digit d) - 48)%Z = d.
Proof.
  intros H. assert (Hd : d ∈ [0; 1; 2; 3; 4; 5; 6; 7; 8; 9]%Z).
  { rewrite !elem_of_cons. lia. }
  repeat (apply elem_of_cons in Hd as [->|Hd]; [split; reflexivity|]). by apply not_elem_of_nil in Hd.
Qed.

Lemma uint_loop_app a b n : uint_loop (a +:+ b) n =
  match uint_loop a n with (m, None) => uint_loop b m | r => r end.
Proof.
  revert n; induction a as [|c a IH]; intros n; [done|]. rewrite app_cons_str. cbn [uint_loop].
  destruct (negb (is_digit c)); [done|]. destruct (_ <? _)%Z; [apply IH|done].
Qed.

(** The digits of a number are read as the number after the ones before. *)
Lemma uint_loop_fixed w n acc : (0 <= n < 10 ^ Z.of_nat w)%Z -> (0 <= acc)%Z -> (acc * 10 ^ Z.of_nat w + n < 2 ^ 64)%Z ->
  uint_loop (fixed w n) acc = ((acc * 10 ^ Z.of_nat w + n)%Z, None).
Proof.
  revert n; induction w as [|w IH]; intros n Hn Hacc Hb.
  - cbn in *. assert (n = 0)%Z as -> by lia. by rewrite Z.mul_1_r, Z.add_0_r.
  - rewrite Nat2Z.inj_succ, Z.pow_succ_r in * by lia. cbn [fixed]. rewrite uint_loop_app.
    pose proof (Z.div_mod n 10 ltac:(lia)) as Hdm. pose proof (Z.mod_pos_bound n 10 ltac:(lia)) as Hm.
    rewrite IH by lia. cbn [uint_loop]. destruct (digit_val (n mod 10) Hm) as [-> ->]. cbn [negb].
    replace ((acc * 10 ^ Z.of_nat w + n / 10) * 10 + n mod 10)%Z with (acc * (10 * 10 ^ Z.of_nat w) + n)%Z by lia.
    by rewrite (proj2 (Z.ltb_lt _ _)) by lia.
Qed.

Lemma fixed_digits w n : (0 <= n)%Z -> str_forall is_digit (fixed w n) = true.
Proof.
  assert (Happ : forall a b, str_forall is_digit (a +:+ b) = str_forall is_digit a && str_forall is_digit b).
  { induction a as [|c a IH]; intros b; [done|]. rewrite app_cons_str. cbn. by rewrite IH, andb_assoc. }
  revert n; induction w as [|w IH]; intros n Hn; [done|]. cbn [fixed]. rewrite Happ, IH by (apply Z.div_pos; lia). cbn.
  by destruct (digit_val (n mod 10) (Z.mod_pos_bound n 10 ltac:(lia))) as [-> _].
Qed.

Lemma digits_no_byte c s : str_forall is_digit s = true -> is_digit c = false -> has_byte c s = false.
Proof.
  intros Hs Hc. induction s as [|a s IH]; [done|]. cbn in *. bool_prop.
  apply orb_false_iff. split; [apply bool_decide_eq_false_2; congruence|by apply IH].
Qed.

Lemma zero_padded_fixed w n : (0 <= n < 10 ^ Z.of_nat w)%Z -> zero_padded w n = fixed w n.
Proof. intros H. unfold zero_padded. rewrite (proj2 (Z.ltb_ge _ _)), (proj2 (Z.ltb_lt _ _)) by lia. done. Qed.

Lemma ParseInt_digits s n : s <> "" -> str_forall is_digit s = true -> uint_loop s 0 = (n, None) -> (n < 2 ^ 63)%Z ->
  ParseInt s = (n, None).
Proof.
  intros Hne Hd Hu Hn. unfold ParseInt. destruct s as [|c s]; [done|]. cbn in Hd. bool_prop.
  assert (Ascii.eqb c "+" = false /\ Ascii.eqb c "-" = false) as [-> ->].
  { split; apply Ascii.eqb_neq; intros ->; discriminate. }
  change (String.eqb (String c s) "") with false. cbn iota. rewrite Hu. cbn [negb andb].
  by rewrite (proj2 (Z.leb_gt _ _)).
Qed.

Lemma ParseInt_zero_padded w n : 0 < w -> (0 <= n < 10 ^ Z.of_nat w)%Z -> (n < 2 ^ 63)%Z ->
  ParseInt (zero_padded w n) = (n, None) /\ has_byte "-" (zero_padded w n) = false.
Proof.
  intros Hw Hn Hb. rewrite zero_padded_fixed by done. split.
  - apply ParseInt_digits; [|apply fixed_digits; lia| |done].
    + intros E. pose proof (fixed_length w n) as L. rewrite E in L. cbn in L. lia.
    + by rewrite uint_loop_fixed by lia.
  - apply digits_no_byte; [apply fixed_digits; lia|done].
Qed.

Lemma Split_at c d s : exists l, l <> [] /\ Split (d +:+ String c s) c = l ++ Split s c.
Proof.
  induction d as [|a d (l & Hl & IH)].
  - exists [""]. split; [done|]. rewrite app_empty_l. cbn. by destruct (decide (c = c)).
  - rewrite app_cons_str. cbn. rewrite IH. destruct (decide (a = c)).
    + by exists ("" :: l).
    + destruct l as [|h l]; [done|]. by exists (String a h :: l).
Qed.

Lemma Split_last c d s : has_byte c s = false -> List.last (Split (d +:+ String c s) c) "" = s.
Proof.
  intros H. destruct (Split_at c d s) as (l & _ & ->). rewrite Split_no_sep by done. apply List.last_last.
Qed.

Lemma has_byte_app c a b : has_byte c (a +:+ b) = has_byte c a || has_byte c b.
Proof. unfold has_byte. by rewrite list_of_app, existsb_app. Qed.

Lemma has_byte_cons c a s : has_byte c (String a s) = bool_decide (a = c) || has_byte c s.
Proof. done. Qed.

Lemma trim_slashes_done l : head l <> Some "/"%char -> trim_slashes l = l.
Proof. destruct l as [|c l]; intros H; [done|]. cbn. rewrite (proj2 (Ascii.eqb_neq _ _)); [done|]. cbn in H. congruence. Qed.

Lemma head_rev {A} (l : list A) : head (rev l) = last l.
Proof. induction l as [|x l _] using rev_ind; [done|]. by rewrite rev_app_distr, last_snoc. Qed.

(** The last element of a path that does not end in a slash. *)
Lemma Base_plain s : last (bytes_of s) <> Some "/"%char -> s <> "" -> Base s = List.last (Split s "/") "".
Proof.
  intros H Hne. unfold Base. rewrite (proj2 (String.eqb_neq _ _) Hne), trim_slashes_done, rev_involutive.
  - unfold string_of, bytes_of. rewrite String.string_of_list_ascii_of_string. by destruct s.
  - by rewrite head_rev.
Qed.

Definition no_slash (s : string) : bool := negb (has_byte "/" s).

Lemma segment_name_shape order count i : segment_name order count i =
  zero_padded 20 order +:+ String "-" (zero_padded 6 (Z.of_nat count) +:+ String "-" (i +:+ spoolSuffix)).
Proof. done. Qed.

Lemma TrimSuffix_app s suf : TrimSuffix (s +:+ suf) suf = s.
Proof.
  unfold TrimSuffix, HasSuffix. rewrite str_rev_app, prefix_app, length_app_str, Nat.add_sub. apply str_take_app.
Qed.

Lemma padded_no_byte c w n : 0 < w -> (0 <= n < 10 ^ Z.of_nat w)%Z -> is_digit c = false -> has_byte c (zero_padded w n) = false.
Proof. intros Hw Hn Hc. rewrite zero_padded_fixed by done. apply digits_no_byte; [apply fixed_digits; lia|done]. Qed.

Lemma name_no_slash order count i :
  (0 <= order < 2 ^ 63)%Z -> (Z.of_nat count < 10 ^ 6)%Z -> no_slash i = true -> has_byte "/" (segment_name order count i) = false.
Proof.
  intros Ho Hc Hi. unfold no_slash in Hi. bool_prop. rewrite segment_name_shape.
  rewrite has_byte_app, has_byte_cons, has_byte_app, has_byte_cons, has_byte_app, !padded_no_byte, Hi by (try done; cbn; lia). done.
Qed.

Lemma last_bytes_app a c : last (bytes_of (a +:+ String c "")) = Some c.
Proof. unfold bytes_of. rewrite list_of_app. apply last_snoc. Qed.

Lemma last_bytes_name d order count i : last (bytes_of (d +:+ segment_name order count i)) = Some "n"%char.
Proof.
  rewrite segment_name_shape. unfold bytes_of. rewrite !list_of_app. cbn [String.list_ascii_of_string].
  rewrite list_of_app. cbn [String.list_ascii_of_string]. rewrite !list_of_app.
  change (String.list_ascii_of_string spoolSuffix) with (String.list_ascii_of_string ".ndjso" ++ ["n"%char]).
  by rewrite !app_comm_cons, !app_assoc, last_snoc.
Qed.

Lemma segment_name_parse dir order count i :
  (0 <= order < 2 ^ 63)%Z -> (Z.of_nat count < 10 ^ 6)%Z -> no_slash i = true ->
  parseSegmentName (segment_name order count i) = (order, Z.of_nat count) /\
  parseSegmentName (dir +:+ String "/" (segment_name order count i)) = (order, Z.of_nat count).
Proof.
  intros Ho Hc Hi. pose proof (name_no_slash _ _ _ Ho Hc Hi) as Hs.
  assert (Hcut : Cut (TrimSuffix (segment_name order count i) spoolSuffix) "-" =
            (zero_padded 20 order, zero_padded 6 (Z.of_nat count) +:+ String "-" i, true)).
  { replace (segment_name order count i)
      with ((zero_padded 20 order +:+ String "-" (zero_padded 6 (Z.of_nat count) +:+ String "-" i)) +:+ spoolSuffix)
      by (rewrite segment_name_shape; by rewrite !app_assoc_str, !app_cons_str, !app_assoc_str, !app_cons_str).
    rewrite TrimSuffix_app. apply Cut_byte, padded_no_byte; [lia|cbn; lia|done]. }
  assert (Hparse : forall s, Base s = segment_name order count i -> parseSegmentName s = (order, Z.of_nat count)).
  { intros s E. unfold parseSegmentName. rewrite E, Hcut, Cut_byte by (apply padded_no_byte; [lia|cbn; lia|done]). cbn [fst].
    by rewrite !(fun w n a b c => proj1 (ParseInt_zero_padded w n a b c)) by (try done; cbn; lia). }
  split; apply Hparse.
  - rewrite Base_plain; [by rewrite Split_no_sep| |rewrite segment_name_shape; by destruct (zero_padded 20 order)].
    by rewrite <-(app_empty_l (segment_name _ _ _)), last_bytes_name.
  - rewrite Base_plain; [by apply Split_last| |by destruct dir].
    change (String "/" ?s) with ("/" +:+ s). by rewrite <-app_assoc_str, last_bytes_name.
Qed.

(** A segment's name, below any directory, reads back as the order and
    the count it was written with, whatever the replica is called. *)
Theorem segment_name_reads_back dir order count i :
  (0 <= order < 2 ^ 63)%Z -> (Z.of_nat count < 10 ^ 6)%Z -> no_slash i = true ->
  parseSegmentName (segment_name order count i) = (order, Z.of_nat count) /\
  parseSegmentName (dir +:+ String "/" (segment_name order count i)) = (order, Z.of_nat count).
Proof. apply segment_name_parse. Qed.

Lemma segment_name_reads_back_witness :
  parseSegmentName "adopted-a-1/00000000001700000000-000012-web-0.ndjson" = (1700000000, 12)%Z /\
  parseSegmentName (segment_name 1700000000 12 "web-0") = (1700000000, Z.of_nat 12)%Z.
Proof.
  split; [reflexivity|]. apply (segment_name_reads_back "adopted-a-1" 1700000000 12 "web-0"); [lia|cbn; lia|reflexivity].
Defined.

(** ** A replica's name *)

Definition name_byte (c : ascii) : bool := name_rune (byte_val c).

Lemma name_rune_byte r : name_rune r = true -> byte_val (ascii_of_nat (Z.to_nat r)) = r /\ (r < 128)%Z.
Proof.
  intros H. assert (0 <= r < 128)%Z by (unfold name_rune in H; repeat (bool_prop; destruct_or?); bool_prop; lia).
  split; [|lia]. unfold byte_val. rewrite nat_ascii_embedding by lia. lia.
Qed.

Lemma name_byte_kept c : name_byte c = true -> ascii_of_nat (Z.to_nat (byte_val c)) = c /\ (byte_val c < 128)%Z.
Proof.
  intros H. destruct (name_rune_byte _ H) as [_ Hb]. split; [|done]. unfold byte_val. rewrite Nat2Z.id. apply ascii_nat_embedding.
Qed.

Lemma runes_ascii l : Forall (fun c => byte_val c < 128)%Z l -> runes l = map (fun c => (byte_val c, 1)) l.
Proof.
  unfold runes. intros H. induction l as [|c l IH]; [done|]. apply Forall_cons in H as [Hc Hl].
  cbn [length runes_loop]. unfold decode_rune. rewrite (proj2 (Z.ltb_lt _ _) Hc).
  destruct (second_range (byte_val c)). cbn [drop map]. f_equal. by apply IH.
Qed.

Lemma str_forall_of f l : str_forall f (string_of l) = forallb f l.
Proof. induction l as [|c l IH]; [done|]. cbn. by rewrite IH. Qed.

Lemma str_forall_elem f s : str_forall f s = true -> Forall (fun c => f c = true) (bytes_of s).
Proof. unfold bytes_of. induction s as [|c s IH]; cbn; [constructor|]. intros H. bool_prop. constructor; auto. Qed.

(** A replica's name is empty or one plain path element: letters, digits,
    dots, dashes and underscores, not hidden and not the name of a directory
    taken over; and sanitizing it again changes nothing. *)
Theorem SanitizeInstance_safe id :
  let name := SanitizeInstance id in
  str_forall name_byte name = true /\ no_slash name = true /\ HasPrefix name "." = false /\
  HasPrefix name spoolAdoptedPrefix = false /\ SanitizeInstance name = name.
Proof.
  set (clean l := string_of (map (fun r => if name_rune r.1 then ascii_of_nat (Z.to_nat r.1) else "_"%char) (runes l))).
  assert (Hbytes : forall l, str_forall name_byte (clean l) = true).
  { intros l. unfold clean. rewrite str_forall_of. apply forallb_forall. intros x ([r w] & <- & _)%in_map_iff. cbn.
    destruct (name_rune r) eqn:E; [|done]. unfold name_byte. by rewrite (proj1 (name_rune_byte r E)). }
  assert (Hclean : forall s, str_forall name_byte s = true -> clean (bytes_of s) = s).
  { intros s Hs. unfold clean. rewrite runes_ascii.
    - rewrite map_map. cbn [fst]. assert (Hm : map (fun c => if name_rune (byte_val c) then ascii_of_nat (Z.to_nat (byte_val c)) else "_"%char) (bytes_of s) = bytes_of s).
      { apply str_forall_elem in Hs. induction Hs as [|c l Hc Hs IH]; [done|]. cbn. f_equal; [|done].
        change (name_rune (byte_val c)) with (name_byte c). rewrite Hc. by apply name_byte_kept. }
      rewrite Hm. unfold string_of, bytes_of. apply String.string_of_list_ascii_of_string.
    - eapply Forall_impl; [by apply str_forall_elem|]. intros c Hc. by apply name_byte_kept. }
  unfold SanitizeInstance. fold (clean (bytes_of id)). set (c := clean (bytes_of id)).
  assert (Hc : str_forall name_byte c = true) by apply Hbytes. cbv zeta.
  destruct (String.eqb c "." || _ || _ || _) eqn:E; [by split_and!|]. fold (clean (bytes_of c)). rewrite Hclean, E by done.
  bool_prop. split_and!; try done. unfold no_slash. apply negb_true_iff.
  apply str_forall_elem in Hc. unfold has_byte. fold (bytes_of c). apply existsb_false_elem. intros x Hx.
  rewrite Forall_forall in Hc. specialize (Hc x Hx). by apply bool_decide_eq_false_2; intros ->.
Qed.

(** ** The order of segments *)

Lemma ltb_cons c s t : String.ltb (String c s) (String c t) = String.ltb s t.
Proof.
  unfold String.ltb. cbn [String.compare]. unfold Ascii.compare. by rewrite N.compare_refl.
Qed.

Lemma ltb_app p s t : String.ltb (p +:+ s) (p +:+ t) = String.ltb s t.
Proof. induction p as [|c p IH]; [done|]. by rewrite !app_cons_str, ltb_cons. Qed.

Lemma ltb_digit d e s t : (0 <= d < e)%Z -> (e < 10)%Z -> String.ltb (String (digit d) s) (String (digit e) t) = true.
Proof.
  intros Hd He. unfold String.ltb. cbn [String.compare]. unfold Ascii.compare, digit.
  assert ((N_of_ascii (ascii_of_nat (Z.to_nat (48 + d))) ?= N_of_ascii (ascii_of_nat (Z.to_nat (48 + e))))%N = Lt) as ->; [|done].
  rewrite N.compare_lt_iff. unfold ascii_of_nat. rewrite !N_ascii_embedding by lia. lia.
Qed.

(** Numbers of one width are in the order of their digits. *)
Lemma ltb_fixed w n m s t : (0 <= n < m)%Z -> (m < 10 ^ Z.of_nat w)%Z -> String.ltb (fixed w n +:+ s) (fixed w m +:+ t) = true.
Proof.
  revert n m s t; induction w as [|w IH]; intros n m s t Hn Hm; [cbn in Hm; lia|].
  rewrite Nat2Z.inj_succ, Z.pow_succ_r in Hm by lia. cbn [fixed]. rewrite !app_assoc_str, !app_cons_str, !app_empty_l.
  pose proof (Z.div_mod n 10 ltac:(lia)). pose proof (Z.div_mod m 10 ltac:(lia)).
  pose proof (Z.mod_pos_bound n 10 ltac:(lia)). pose proof (Z.mod_pos_bound m 10 ltac:(lia)).
  pose proof (Z.div_le_mono n m 10 ltac:(lia) ltac:(lia)). pose proof (Z.div_pos n 10 ltac:(lia) ltac:(lia)).
  destruct (Z.eq_dec (n / 10) (m / 10)) as [E|E].
  - rewrite E, ltb_app. apply ltb_digit; lia.
  - apply IH; lia.
Qed.

Lemma ltb_segment_name o o' n n' i i' : (0 <= o < o')%Z -> (o' < 2 ^ 63)%Z ->
  String.ltb (segment_name o n i) (segment_name o' n' i') = true.
Proof.
  intros H H'. rewrite !segment_name_shape, (zero_padded_fixed 20 o), (zero_padded_fixed 20 o') by (cbn; lia).
  apply ltb_fixed; [done|cbn; lia].
Qed.

(** [segment_less] is a strict weak order. *)
Lemma ltb_eq_or a b : String.ltb a b = false -> String.ltb b a = true \/ a = b.
Proof. intros H. destruct (String.ltb b a) eqn:E; [by left|right]. by apply ltb_total. Qed.

Lemma ltb_flip a b : String.ltb a b = false -> forall c, String.ltb b c = false -> String.ltb a c = false.
Proof.
  intros H c H'. apply ltb_eq_or in H as [H|H]; [|by subst]. apply ltb_eq_or in H' as [H'|H'].
  - apply ltb_asym. by eapply ltb_trans.
  - subst. by apply ltb_asym.
Qed.

#[export] Instance segment_le_total : Total segment_le.
Proof.
  intros a b. unfold segment_le, segment_less. rewrite (String.eqb_sym (Dir (sg_name b))).
  destruct (String.eqb_spec (Dir (sg_name a)) (Dir (sg_name b))) as [E|E]; cbn [negb].
  - destruct (String.ltb (Base (sg_name b)) (Base (sg_name a))) eqn:H; [|by left]. right. by apply ltb_asym.
  - destruct (String.eqb_spec (Dir (sg_name a)) ".") as [Ea|Ea], (String.eqb_spec (Dir (sg_name b)) ".") as [Eb|Eb];
      cbn [orb]; [congruence|by left|by right|].
    destruct (String.ltb (Dir (sg_name b)) (Dir (sg_name a))) eqn:H; [|by left]. right. by apply ltb_asym.
Qed.

#[export] Instance segment_le_trans : Transitive segment_le.
Proof.
  intros a b c. unfold segment_le, segment_less. set (A := Dir (sg_name a)). set (B := Dir (sg_name b)). set (C := Dir (sg_name c)).
  intros H1 H2. destruct (String.eqb_spec C A) as [<-|Hca]; cbn [negb].
  - destruct (String.eqb_spec B C) as [E|E]; cbn [negb] in H1; destruct (String.eqb_spec C B) as [E'|E']; cbn [negb] in H2; try congruence.
    + eapply ltb_flip; eassumption.
    + exfalso. destruct (String.eqb_spec B "."), (String.eqb_spec C "."); cbn [orb] in *; try congruence.
      apply ltb_eq_or in H1 as [H1|?]; [|congruence]. congruence.
  - destruct (String.eqb_spec B A) as [E|E], (String.eqb_spec C B) as [E'|E']; cbn [negb] in *; try congruence.
    + destruct (String.eqb_spec A "."), (String.eqb_spec B "."), (String.eqb_spec C "."); cbn [orb] in *; congruence.
    + destruct (String.eqb_spec A "."), (String.eqb_spec B "."), (String.eqb_spec C "."); cbn [orb] in *; congruence.
    + destruct (String.eqb_spec A "."), (String.eqb_spec B "."), (String.eqb_spec C "."); cbn [orb] in *; try congruence.
      eapply ltb_flip; eassumption.
Qed.

(** ** A spool that only its replica writes *)

Definition total {A} (f : A -> Z) (l : list A) : Z := foldr (fun x n => f x + n)%Z 0%Z l.

Lemma total_app {A} (f : A -> Z) l k : total f (l ++ k) = (total f l + total f k)%Z.
Proof. induction l as [|x l IH]; [done|]. unfold total in *. cbn. lia. Qed.

Lemma total_cons {A} (f : A -> Z) x l : total f (x :: l) = (f x + total f l)%Z.
Proof. done. Qed.

Lemma total_snoc {A} (f : A -> Z) l x : total f (l ++ [x]) = (total f l + f x)%Z.
Proof. rewrite total_app. unfold total at 2. cbn [foldr]. lia. Qed.

Lemma total_perm {A} (f : A -> Z) l k : l ≡ₚ k -> total f l = total f k.
Proof. unfold total. induction 1; cbn; lia. Qed.

Lemma total_nonneg {A} (f : A -> Z) l : (forall x, 0 <= f x)%Z -> (0 <= total f l)%Z.
Proof. intros H. induction l as [|x l IH]; [done|]. unfold total in *. cbn. pose proof (H x). lia. Qed.

Lemma foldl_total {A} (f : A -> Z) l n : foldl (fun n x => n + f x)%Z n l = (n + total f l)%Z.
Proof. revert n; induction l as [|x l IH]; intros n; unfold total in *; cbn; [lia|]. rewrite IH. lia. Qed.

Lemma body_size_nonneg l : (0 <= body_size l)%Z.
Proof. unfold body_size. induction l as [|x l IH]; [done|]. cbn [foldr]. lia. Qed.

(** Its segments as the order and the lines each was written with. *)
Definition own_segment (i : string) (g : Z * list string) : segment := mkSegment (segment_name g.1 (length g.2) i) (Some g.2).

Record own (s : Spool) (gs : list (Z * list string)) : Prop := {
  own_segments : sp_segments s = map (own_segment (sp_instance s)) gs;
  own_sorted : StronglySorted Z.lt gs.*1;
  own_orders : Forall (fun g => (0 <= g.1 < sp_order s)%Z /\ length g.2 <= spoolSegmentMax) gs;
  own_order : (0 <= sp_order s <= 2 ^ 63)%Z;
  own_instance : no_slash (sp_instance s) = true;
  own_events : sp_events s = total (fun g => Z.of_nat (length g.2)) gs;
  own_bytes : sp_bytes s = total (fun g => body_size g.2) gs;
  own_bounded : (sp_bytes s <= sp_maxBytes s)%Z;
}.

Lemma own_parse s gs g : own s gs -> g ∈ gs ->
  parseSegmentName (segment_name g.1 (length g.2) (sp_instance s)) = (g.1, Z.of_nat (length g.2)).
Proof.
  intros O Hg. pose proof (own_orders _ _ O) as Ho. rewrite Forall_forall in Ho. destruct (Ho g Hg) as [H1 H2].
  pose proof (own_order _ _ O). unfold spoolSegmentMax in H2.
  apply (segment_name_parse "" g.1 (length g.2)); [lia|cbn; lia|apply O].
Qed.

Section waiting.
Context (Encode : spoolEntry -> result string string) (Decode : string -> option spoolEntry).

(** The entries a segment's lines hold. *)
Definition decoded (lines : list string) : list spoolEntry :=
  omap (fun l => if String.eqb l "" then None else Decode l) lines.

Definition waiting (s : Spool) : list spoolEntry :=
  flat_map (fun g => match sg_file g with Some lines => decoded lines | None => [] end) (sp_segments s).

(** An entry as it comes back from the line it was written to. *)
Definition reread (e : spoolEntry) : option spoolEntry :=
  match Encode e with Ok l => if String.eqb l "" then None else Decode l | Err _ => None end.

Definition encodes (e : spoolEntry) : Prop := exists l, Encode e = Ok l.

Lemma decoded_encoded es lines : encode_all Encode es = Ok lines ->
  decoded lines = omap reread es /\ length lines = length es /\ Forall encodes es.
Proof.
  revert lines; induction es as [|e es IH]; intros lines; cbn; [by intros [= <-]|].
  destruct (Encode e) as [l|] eqn:E; [|done]. destruct (encode_all Encode es) as [ls|]; [|done]. cbn. intros [= <-].
  destruct (IH ls eq_refl) as (Hs & Hl & Hf). split_and!; [|cbn; by rewrite Hl|by constructor; [exists l|]].
  change (decoded (l :: ls)) with (match (if String.eqb l "" then None else Decode l) with Some y => y :: decoded ls | None => decoded ls end).
  unfold reread at 1. rewrite E, Hs. done.
Qed.

Lemma writeSegment_own now io es s gs : own s gs -> (now < 2 ^ 63 - 1)%Z -> (sp_order s < 2 ^ 63 - 1)%Z -> length es <= spoolSegmentMax ->
  match writeSegment Encode now io es s with
  | (Ok _, s') => (exists gs', own s' gs') /\ waiting s' = waiting s ++ omap reread es
  | (Err _, s') => (exists gs', own s' gs') /\ waiting s' = waiting s
  end.
Proof.
  intros O Hnow Hord Hlen. unfold writeSegment. destruct (encode_all Encode es) as [lines|x] eqn:E; [|by eauto].
  destruct (Z.ltb_spec (sp_maxBytes s) (sp_bytes s + body_size lines)) as [|Hb]; [by eauto|].
  destruct (decoded_encoded _ _ E) as (Hd & Hl & _). pose proof O as [O1 O2 O3 O4 O5 O6 O7 O8].
  assert (Hup : Forall (fun g => (0 <= g.1 < Z.max (sp_order s) now + 1)%Z /\ length g.2 <= spoolSegmentMax) gs).
  { eapply Forall_impl; [exact O3|]. intros g [? ?]. split; [lia|done]. }
  destruct io as [|x].
  - split.
    + exists (gs ++ [(Z.max (sp_order s) now, lines)]). split; cbn.
      * by rewrite O1, map_app, <-Hl.
      * rewrite fmap_app. apply StronglySorted_app_2; [..|done|repeat constructor]. intros a b Ha Hb'.
        apply list_elem_of_fmap in Ha as (g & -> & Hg). apply list_elem_of_singleton in Hb' as ->.
        rewrite Forall_forall in O3. destruct (O3 g Hg). cbn. lia.
      * apply Forall_app. split; [done|]. constructor; [|constructor]. cbn. split; [lia|]. by rewrite Hl.
      * lia.
      * done.
      * by rewrite total_snoc, O6, <-Hl.
      * by rewrite total_snoc, O7.
      * done.
    + unfold waiting. cbn. rewrite flat_map_app. cbn. by rewrite app_nil_r, Hd.
  - split; [|done]. exists gs. by split; [..|cbn; lia| | | |].
Qed.

Lemma writeSegment_order now io es s : (sp_order (writeSegment Encode now io es s).2 <= Z.max (sp_order s) (Z.max (sp_order s) now + 1))%Z.
Proof.
  unfold writeSegment. destruct (encode_all Encode es); [|cbn; lia]. destruct (_ <? _)%Z; [cbn; lia|].
  destruct io; cbn; lia.
Qed.

Lemma write_loop_max fuel io i es s : sp_maxBytes (write_loop Encode fuel io i es s).2 = sp_maxBytes s.
Proof.
  revert i es s; induction fuel as [|fuel IH]; intros i es s; [done|]. destruct es as [|e es]; [done|]. cbn [write_loop].
  assert (H : sp_maxBytes (writeSegment Encode (io i).1 (io i).2 (take spoolSegmentMax (e :: es)) s).2 = sp_maxBytes s).
  { unfold writeSegment. destruct (encode_all _ _); [|done]. destruct (_ <? _)%Z; [done|]. by destruct (io i).2. }
  destruct (writeSegment _ _ _ _ _) as [[u|x] s1]; cbn [snd] in *; [by rewrite IH|done].
Qed.

Lemma write_loop_own fuel io i es s gs B : own s gs -> length es <= fuel ->
  (forall j, (io j).1 <= B)%Z -> (sp_order s <= B + Z.of_nat i)%Z -> (B + Z.of_nat (i + fuel) < 2 ^ 63 - 1)%Z ->
  match write_loop Encode fuel io i es s with
  | (Ok _, s') => (exists gs', own s' gs') /\ waiting s' = waiting s ++ omap reread es
  | (Err _, s') => (exists gs', own s' gs') /\
      exists k, spoolSegmentMax * k < length es /\ waiting s' = waiting s ++ omap reread (take (spoolSegmentMax * k) es)
  end.
Proof.
  revert i es s gs; induction fuel as [|fuel IH]; intros i es s gs O Hlen Hio Hord HB.
  { destruct es; [|cbn in Hlen; lia]. cbn. rewrite app_nil_r. eauto. }
  destruct es as [|e es]; [cbn; rewrite app_nil_r; eauto|]. cbn [write_loop].
  pose proof (Hio i) as Hi. pose proof (writeSegment_order (io i).1 (io i).2 (take spoolSegmentMax (e :: es)) s) as Ho.
  pose proof (writeSegment_own (io i).1 (io i).2 (take spoolSegmentMax (e :: es)) s gs O ltac:(lia) ltac:(lia)) as Hw.
  rewrite length_take in Hw. specialize (Hw ltac:(lia)).
  destruct (writeSegment _ _ _ _ _) as [[u|x] s1]; cbn [snd] in Ho.
  - destruct Hw as [[gs1 O1] W1]. specialize (IH (S i) (drop spoolSegmentMax (e :: es)) s1 gs1 O1).
    rewrite length_drop in IH. cbn [length] in *. unfold spoolSegmentMax in *.
    specialize (IH ltac:(lia) Hio ltac:(lia) ltac:(lia)).
    destruct (write_loop _ _ _ _ _ _) as [[u'|x] s'].
    + destruct IH as [O' W']. split; [done|]. by rewrite W', W1, <-app_assoc, <-omap_app, take_drop.
    + destruct IH as [O' (k & Hk & W')]. split; [done|]. exists (S k). rewrite Nat.mul_succ_r. split; [lia|].
      rewrite W', W1, <-app_assoc. f_equal. rewrite (Nat.add_comm (200 * k) 200), <-omap_app. f_equal.
      apply take_take_drop.
  - destruct Hw as [O1 W1]. split; [done|]. exists 0. rewrite Nat.mul_0_r. split; [cbn; lia|]. by rewrite W1, app_nil_r.
Qed.
End waiting.

(** What reading a line back keeps of an event: its text fields, as JSON
    writes text ([kept]: bytes that are not UTF-8 are replaced).  The diff,
    the payload and the metadata come back as what JSON makes of them. *)
Definition fields (e : AuditEvent) : list string :=
  [e_OrgID e; e_Category e; e_Action e; e_Outcome e; e_ActorKind e; e_ActorID e; e_ActorDisplay e; e_OnBehalfOf e;
   e_TargetKind e; e_TargetID e; e_TargetDisplay e; e_RequestID e; e_SessionID e; e_IP e; e_UserAgent e].

(** A value that reads back: no number written as text, which may be none
    that a float64 holds, and not too deep. *)
Definition max_depth : nat := 1000.

Fixpoint plain_value (depth : nat) (v : value) : bool :=
  match depth with
  | O => false
  | S depth => match v with
               | VNumber _ => false
               | VList l => forallb (plain_value depth) l
               | VMap m => forallb (fun kv => plain_value depth kv.2) m
               | VTyped v => plain_value depth v
               | _ => true
               end
  end.

Definition plain_option (o : option value) : bool := match o with Some v => plain_value max_depth v | None => true end.

Definition plain (e : AuditEvent) : bool :=
  plain_option (e_Diff e) && plain_option (e_Payload e) && plain_option (option_map VMap (e_Meta e)).

(** What [encoding/json] does with the lines of a segment. *)
Record json_lines (kept : string -> string) (Encode : spoolEntry -> result string string) (Decode : string -> option spoolEntry) : Prop := {
  jl_line e l : Encode e = Ok l -> l <> "";
  jl_back e l : Encode e = Ok l -> plain (se_Event e) = true ->
    exists e', Decode l = Some e' /\ plain (se_Event e') = true /\ fields (se_Event e') = map kept (fields (se_Event e));
  jl_kept s : kept (kept s) = kept s;
}.

(** Writing a batch puts it behind everything that waits already, in
    order and as its lines read back, or a whole number of full segments of it when the disk or the
    bound refuses; what the spool holds stays within the bound either way. *)
Theorem Write_appends Encode Decode io es s gs B :
  own s gs -> (sp_order s <= B)%Z -> (forall j, (io j).1 <= B)%Z -> (B + Z.of_nat (length es) < 2 ^ 63 - 1)%Z ->
  match Write Encode io es s with
  | (Ok _, s') => waiting Decode s' = waiting Decode s ++ omap (reread Encode Decode) es
  | (Err _, s') => exists k, spoolSegmentMax * k < length es /\
                     waiting Decode s' = waiting Decode s ++ omap (reread Encode Decode) (take (spoolSegmentMax * k) es)
  end /\
  (sp_bytes (Write Encode io es s).2 <= sp_maxBytes s)%Z /\ exists gs', own (Write Encode io es s).2 gs'.
Proof.
  intros O Hord Hio HB. unfold Write.
  pose proof (write_loop_own Encode Decode (length es) io 0 es s gs B O) as H.
  specialize (H ltac:(lia) Hio ltac:(lia) ltac:(cbn; lia)).
  pose proof (write_loop_max Encode (length es) io 0 es s) as Hm.
  destruct (write_loop _ _ _ _ _ _) as [[u|x] s']; cbn [snd] in *.
  - destruct H as [[gs' O'] W]. rewrite <-Hm. split_and!; [done|apply O'|eauto].
  - destruct H as [[gs' O'] W]. rewrite <-Hm. split_and!; [done|apply O'|eauto].
Qed.

(** ** After a restart *)

Definition fresh (i : string) (maxBytes : Z) : Spool := mkSpool i maxBytes [] 0 0 0.

Definition segment_file (i : string) (g : Z * list string) : string * list string := (segment_name g.1 (length g.2) i, g.2).

Definition not_a_segment (f : string * list string) : bool :=
  HasSuffix (Base f.1) spoolTempSuffix || negb (HasSuffix (Base f.1) spoolSuffix).

Lemma segment_name_path order count i :
  (0 <= order < 2 ^ 63)%Z -> (Z.of_nat count < 10 ^ 6)%Z -> no_slash i = true ->
  Base (segment_name order count i) = segment_name order count i /\ Dir (segment_name order count i) = ".".
Proof.
  intros Ho Hc Hi. pose proof (name_no_slash _ _ _ Ho Hc Hi) as Hs. split.
  - rewrite Base_plain; [by rewrite Split_no_sep| |rewrite segment_name_shape; by destruct (zero_padded 20 order)].
    rewrite <-(app_empty_l (segment_name _ _ _)), last_bytes_name. done.
  - unfold Dir. by rewrite Split_no_sep.
Qed.

Lemma HasSuffix_app s suf : HasSuffix (s +:+ suf) suf = true.
Proof. unfold HasSuffix. by rewrite str_rev_app, prefix_app. Qed.

Lemma segment_name_suffix order count i :
  HasSuffix (segment_name order count i) spoolSuffix = true /\ HasSuffix (segment_name order count i) spoolTempSuffix = false.
Proof.
  assert (E : exists p, segment_name order count i = p +:+ spoolSuffix).
  { exists (zero_padded 20 order +:+ String "-" (zero_padded 6 (Z.of_nat count) +:+ String "-" i)).
    rewrite segment_name_shape. by rewrite !app_assoc_str, !app_cons_str, !app_assoc_str, !app_cons_str. }
  destruct E as [p ->]. split; [apply HasSuffix_app|]. unfold HasSuffix. by rewrite str_rev_app.
Qed.

Section restart.
Context (s : Spool) (gs : list (Z * list string)) (O : own s gs).

Lemma own_in g : g ∈ gs -> (0 <= g.1 < 2 ^ 63)%Z /\ (Z.of_nat (length g.2) < 10 ^ 6)%Z.
Proof.
  intros Hg. pose proof (own_orders _ _ O) as Ho. rewrite Forall_forall in Ho. destruct (Ho g Hg) as [H1 H2].
  pose proof (own_order _ _ O). unfold spoolSegmentMax in H2. split; [lia|cbn; lia].
Qed.

Lemma own_path g : g ∈ gs ->
  Base (segment_file (sp_instance s) g).1 = (segment_file (sp_instance s) g).1 /\ Dir (segment_file (sp_instance s) g).1 = ".".
Proof. intros Hg. destruct (own_in g Hg). apply segment_name_path; try done; apply O. Qed.

Lemma own_less g h : g ∈ gs -> h ∈ gs -> (g.1 < h.1)%Z ->
  segment_less (segment_file (sp_instance s) g).1 (segment_file (sp_instance s) h).1 = true.
Proof.
  intros Hg Hh Hlt. destruct (own_path g Hg) as [Bg Dg], (own_path h Hh) as [Bh Dh].
  unfold segment_less. rewrite Dg, Dh, Bg, Bh, String.eqb_refl. cbn [negb].
  destruct (own_in g Hg), (own_in h Hh). apply ltb_segment_name; lia.
Qed.

Lemma own_le g h : g ∈ gs -> h ∈ gs -> (g.1 < h.1)%Z ->
  segment_le (own_segment (sp_instance s) g) (own_segment (sp_instance s) h).
Proof.
  intros Hg Hh Hlt. destruct (own_path g Hg) as [Bg Dg], (own_path h Hh) as [Bh Dh].
  unfold segment_le, segment_less. cbn [own_segment sg_name]. change (segment_name g.1 _ _) with (segment_file (sp_instance s) g).1.
  change (segment_name h.1 _ _) with (segment_file (sp_instance s) h).1. rewrite Dg, Dh, Bg, Bh, String.eqb_refl. cbn [negb].
  destruct (own_in g Hg), (own_in h Hh). apply ltb_asym, ltb_segment_name; lia.
Qed.

Lemma own_sorted_segments l : (forall g, g ∈ l -> g ∈ gs) -> StronglySorted Z.lt l.*1 ->
  StronglySorted segment_le (map (own_segment (sp_instance s)) l).
Proof.
  induction l as [|g l IH]; intros Hl Hs; [constructor|]. cbn in *. inversion Hs as [|? ? Hs' Hg]; subst.
  constructor; [apply IH; [|done]; intros h Hh; apply Hl; by right|].
  rewrite Forall_fmap in Hg. change (map ?f l) with (f <$> l). rewrite Forall_fmap. rewrite Forall_forall in *.
  intros h Hh. apply own_le; [apply Hl; left|apply Hl; by right|by apply Hg].
Qed.

Lemma own_inj g h : g ∈ gs -> h ∈ gs -> g.1 = h.1 -> g = h.
Proof.
  pose proof (own_sorted _ _ O) as Hs. revert g h. generalize dependent gs. clear. intros l _ Hs.
  induction l as [|x l IH]; intros g h Hg Hh E; [by apply not_elem_of_nil in Hg|].
  cbn in Hs. inversion Hs as [|? ? Hs' Hx]; subst. rewrite Forall_fmap, Forall_forall in Hx.
  apply elem_of_cons in Hg as [->|Hg]; apply elem_of_cons in Hh as [->|Hh]; [done| | |by apply IH].
  - specialize (Hx h Hh). cbn in Hx. lia.
  - specialize (Hx g Hg). cbn in Hx. lia.
Qed.

Lemma keep_own files junk : files ≡ₚ map (segment_file (sp_instance s)) gs ++ junk -> forallb not_a_segment junk = true ->
  List.filter (fun f => negb (HasSuffix (Base f.1) spoolTempSuffix) && HasSuffix (Base f.1) spoolSuffix) files
    ≡ₚ map (segment_file (sp_instance s)) gs.
Proof.
  intros Hf Hj. set (keep := fun f : string * list string => _).
  rewrite (filter_bool_perm keep _ _ Hf), List.filter_app. rewrite (filter_drops_all keep junk), app_nil_r.
  - rewrite filter_keeps_all; [done|]. intros f Hin. apply list_elem_of_In, in_map_iff in Hin as (g & <- & Hg%list_elem_of_In).
    unfold keep. destruct (own_path g Hg) as [-> _]. cbn [segment_file fst].
    by destruct (segment_name_suffix g.1 (length g.2) (sp_instance s)) as [-> ->].
  - intros f Hin. rewrite forallb_forall in Hj. specialize (Hj f (proj1 (list_elem_of_In _ _) Hin)).
    unfold keep, not_a_segment in *. by destruct (HasSuffix _ spoolTempSuffix), (HasSuffix _ spoolSuffix).
Qed.

Lemma scan_own files junk : files ≡ₚ map (segment_file (sp_instance s)) gs ++ junk -> forallb not_a_segment junk = true ->
  let s' := scan files (fresh (sp_instance s) (sp_maxBytes s)) in
  sp_segments s' = sp_segments s /\ sp_events s' = sp_events s /\ sp_bytes s' = sp_bytes s /\
  Forall (fun g => g.1 < sp_order s')%Z gs /\ (sp_order s' <= sp_order s)%Z.
Proof.
  intros Hf Hj. unfold scan. set (keep := List.filter _ files).
  assert (Hk : keep ≡ₚ map (segment_file (sp_instance s)) gs) by (by eapply keep_own).
  assert (Hparse : forall g, g ∈ gs -> parseSegmentName (Base (segment_file (sp_instance s) g).1) = (g.1, Z.of_nat (length g.2))).
  { intros g Hg. destruct (own_path g Hg) as [-> _]. by apply (own_parse s gs). }
  assert (Hm : map (fun f => mkSegment f.1 (Some f.2)) (map (segment_file (sp_instance s)) gs) = map (own_segment (sp_instance s)) gs)
    by apply map_map.
  assert (Htot : forall f h, (forall g, g ∈ gs -> f (segment_file (sp_instance s) g) = h g) -> total f keep = total h gs).
  { intros f h Hfh. rewrite (total_perm f _ _ Hk). clear -Hfh. induction gs as [|g l IH]; [done|]. unfold total in *. cbn.
    rewrite IH by (intros x Hx; apply Hfh; by right). by rewrite Hfh by left. }
  cbn [sp_segments sp_events sp_bytes sp_order fresh]. split_and!.
  - rewrite (own_segments _ _ O). apply (StronglySorted_unique_strong segment_le).
    + intros a b Ha Hb Hab Hba. rewrite merge_sort_Permutation, Hk, Hm in Ha.
      apply list_elem_of_In, in_map_iff in Ha as (g & <- & Hg%list_elem_of_In).
      apply list_elem_of_In, in_map_iff in Hb as (h & <- & Hh%list_elem_of_In). f_equal.
      apply own_inj; [done|done|]. destruct (Z.lt_trichotomy g.1 h.1) as [Hl|[?|Hl]]; [|done|].
      * pose proof (own_less g h Hg Hh Hl). unfold segment_le in Hba. cbn in *. congruence.
      * pose proof (own_less h g Hh Hg Hl). unfold segment_le in Hab. cbn in *. congruence.
    + apply StronglySorted_merge_sort; apply _.
    + apply own_sorted_segments; [done|apply O].
    + by rewrite merge_sort_Permutation, Hk, Hm.
  - rewrite (foldl_total (fun f => (parseSegmentName (Base f.1)).2)), (own_events _ _ O). cbn. apply Htot.
    intros g Hg. by rewrite Hparse.
  - rewrite (foldl_total (fun f => body_size f.2)), (own_bytes _ _ O). cbn. by apply Htot.
  - assert (Hmax : forall l n, (n <= foldl (fun n (f : string * list string) => Z.max n ((parseSegmentName (Base f.1)).1 + 1)) n l)%Z /\
                Forall (fun f : string * list string => (parseSegmentName (Base f.1)).1 < foldl (fun n (f : string * list string) => Z.max n ((parseSegmentName (Base f.1)).1 + 1)) n l)%Z l).
    { induction l as [|f l IH]; intros n; [split; [done|constructor]|]. cbn [foldl].
      destruct (IH (Z.max n ((parseSegmentName (Base f.1)).1 + 1))) as [H1 H2]. split; [lia|]. constructor; [lia|done]. }
    destruct (Hmax keep 0%Z) as [_ H]. rewrite Forall_forall in H. apply Forall_forall. intros g Hg.
    specialize (H (segment_file (sp_instance s) g)). rewrite Hparse in H by done. cbn [fst] in H.
    enough (segment_file (sp_instance s) g ∈ keep) by (specialize (H ltac:(done)); lia).
    rewrite Hk. by apply list_elem_of_In, in_map, list_elem_of_In.
  - assert (Hmin : forall l n, (forall f : string * list string, f ∈ l -> (parseSegmentName (Base f.1)).1 + 1 <= sp_order s)%Z -> (n <= sp_order s)%Z ->
               (foldl (fun n (f : string * list string) => Z.max n ((parseSegmentName (Base f.1)).1 + 1)) n l <= sp_order s)%Z).
    { induction l as [|f l IH]; intros n Hl Hn; [done|]. cbn [foldl]. apply IH; [intros x Hx; apply Hl; by right|].
      specialize (Hl f ltac:(left)). lia. }
    pose proof (own_order _ _ O). apply Z.max_lub; [lia|]. apply Hmin; [|lia]. intros f Hf'. rewrite Hk in Hf'.
    apply list_elem_of_In, in_map_iff in Hf' as (g & <- & Hg%list_elem_of_In). rewrite Hparse by done. cbn [fst].
    pose proof (own_orders _ _ O) as Ho. rewrite Forall_forall in Ho. destruct (Ho g Hg). lia.
Qed.
End restart.

(** Started again over the directory it left behind, whatever order the
    walk meets the files in and whatever unfinished or foreign files lie
    among them, a replica finds exactly the segments it had, in the order it
    wrote them, with the same depth and size; and its next segment is named
    after all of them. *)
Theorem restart_finds_the_spool s gs files junk :
  own s gs -> files ≡ₚ map (segment_file (sp_instance s)) gs ++ junk -> forallb not_a_segment junk = true ->
  let s' := scan files (fresh (sp_instance s) (sp_maxBytes s)) in
  sp_segments s' = sp_segments s /\ sp_events s' = sp_events s /\ sp_bytes s' = sp_bytes s /\
  Forall (fun g => g.1 < sp_order s')%Z gs /\ (sp_order s' <= sp_order s)%Z.
Proof. intros O Hf Hj. by eapply scan_own. Qed.

(** A line longer than the reader's bound fails the oldest segment whenever
    it is opened, and the spool stays as it is. *)
Lemma Oldest_stuck Decode g l lines s io : sp_segments s = g :: l -> sg_file g = Some lines ->
  existsb (fun l => spoolLineMax <? Z.of_nat (String.length l) + 1)%Z lines = true ->
  exists e, Oldest Decode io s = (Err e, s).
Proof.
  intros Hs Hg Hl. unfold Oldest. rewrite Hs, Hg. destruct io as [|e]; [|by eexists].
  assert (read_lines Decode lines = Err ErrTooLong) as ->; [|by eexists].
  clear -Hl. induction lines as [|x lines IH]; [done|]. cbn [existsb read_lines] in *.
  destruct (spoolLineMax <? _)%Z; [done|]. by rewrite IH.
Qed.

Lemma read_lines_decoded Decode lines :
  existsb (fun l => spoolLineMax <? Z.of_nat (String.length l) + 1)%Z lines = false ->
  read_lines Decode lines = Ok (decoded Decode lines).
Proof.
  induction lines as [|l lines IH]; intros H; [done|]. cbn [existsb] in H. bool_prop. cbn [read_lines].
  rewrite (proj2 (Z.ltb_ge _ _)) by done. rewrite IH by done. cbn. unfold decoded. cbn.
  destruct (String.eqb l ""); [done|]. by destruct (Decode l).
Qed.

(** What waits longest is read first, whole, and removing it leaves the
    rest as it was, with the depth and the size brought down by exactly what
    was removed. *)
Theorem Oldest_comes_first Decode s g gs :
  own s (g :: gs) -> existsb (fun l => spoolLineMax <? Z.of_nat (String.length l) + 1)%Z g.2 = false ->
  exists name es, Oldest Decode Done s = (Ok (Some (name, es)), s) /\
    waiting Decode s = es ++ waiting Decode (Remove Done name s).2 /\ own (Remove Done name s).2 gs.
Proof.
  intros O Hshort. pose proof O as [O1 O2 O3 O4 O5 O6 O7 O8]. cbn [map] in O1. set (n := segment_name g.1 (length g.2) (sp_instance s)).
  exists n, (decoded Decode g.2). unfold Oldest. rewrite O1. cbn [own_segment sg_file sg_name]. rewrite read_lines_decoded by done.
  split; [done|]. unfold Remove, forget, file_size. cbn [snd]. rewrite O1. cbn [own_segment List.find sg_name drop_name].
  fold n. rewrite String.eqb_refl. unfold n. rewrite (own_parse s (g :: gs) g O) by left. cbn [snd].
  assert (Hev : (total (fun g => Z.of_nat (length g.2)) gs = Z.max 0 (sp_events s - Z.of_nat (length g.2)))%Z).
  { rewrite O6. pose proof (total_nonneg (fun g : Z * list string => Z.of_nat (length g.2)) gs ltac:(intros; cbv beta; lia)).
    rewrite total_cons. cbv beta in *. lia. }
  assert (Hby : (total (fun g => body_size g.2) gs = Z.max 0 (sp_bytes s - body_size g.2))%Z).
  { rewrite O7. pose proof (total_nonneg (fun g : Z * list string => body_size g.2) gs ltac:(intros; apply body_size_nonneg)).
    rewrite total_cons. cbv beta in *. lia. }
  split.
  - unfold waiting. rewrite O1. reflexivity.
  - inversion O2; subst. inversion O3; subst. split; [done|assumption|assumption|done|done|symmetry; exact Hev|symmetry; exact Hby|].
    cbn [with_segments sp_bytes sp_maxBytes own_segment]. rewrite <-Hby. rewrite O7, total_cons in O8.
    pose proof (body_size_nonneg g.2). cbv beta in *. lia.
Qed.


(** ** A spool at work *)

Definition blank : AuditEvent := mkAuditEvent "" "" "" "" "" "" "" "" "" "" "" "" "" "" "" None None None.

(** Entries of blank events, encoded as three digits. *)
Definition encode_blank (e : spoolEntry) : result string string :=
  match e with
  | mkSpoolEntry n (mkAuditEvent "" "" "" "" "" "" "" "" "" "" "" "" "" "" "" None None None) =>
      if (0 <=? n)%Z && (n <? 1000)%Z then Ok (zero_padded 3 n) else Err "unsupported"
  | _ => Err "unsupported"
  end.

Definition decode_blank (l : string) : option spoolEntry := Some (mkSpoolEntry (ParseInt l).1 blank).

Definition entries (ns : list Z) : list spoolEntry := map (fun n => mkSpoolEntry n blank) ns.

Definition small : Spool := fresh "web-0" 1000.

Lemma fresh_own i m : no_slash i = true -> (0 <= m)%Z -> own (fresh i m) [].
Proof. intros Hi Hm. split; cbn; try done; constructor. Qed.

Definition two_segments : Spool := (Write encode_blank (fun i => (Z.of_nat i + 5, Done)%Z) (entries [1; 2]%Z) small).2.

Lemma Write_appends_witness :
  (let '(r, s') := Write encode_blank (fun _ => (5, Done)%Z) (entries [1; 2]%Z) small in
   r = Ok () /\ waiting decode_blank s' = entries [1; 2]%Z) /\
  (sp_bytes (Write encode_blank (fun _ => (5, Done)%Z) (entries [1; 2]%Z) small).2 <= 1000)%Z /\
  exists gs', own (Write encode_blank (fun _ => (5, Done)%Z) (entries [1; 2]%Z) small).2 gs'.
Proof.
  destruct (Write_appends encode_blank decode_blank (fun _ => (5, Done)%Z) (entries [1; 2]%Z) small [] 5) as (H & Hb & Ho).
  - by apply fresh_own.
  - by compute.
  - by intros _.
  - by compute.
  - split; [|split; [exact Hb|exact Ho]]. split; [reflexivity|exact H].
Defined.

Definition one_own : list (Z * list string) := [(5%Z, ["001"; "002"])].

Definition one_spool : Spool := mkSpool "web-0" 1000 (map (own_segment "web-0") one_own) 2 8 6.

Lemma one_spool_own : own one_spool one_own.
Proof. split; cbn; try done; repeat constructor; done. Qed.

Lemma restart_finds_the_spool_witness :
  sp_segments (scan [(".heartbeat", []); segment_file "web-0" (5%Z, ["001"; "002"]); ("x.ndjson.tmp", ["003"])] (fresh "web-0" 1000)) =
    sp_segments one_spool.
Proof.
  apply (restart_finds_the_spool one_spool one_own
           [(".heartbeat", []); segment_file "web-0" (5%Z, ["001"; "002"]); ("x.ndjson.tmp", ["003"])]
           [(".heartbeat", []); ("x.ndjson.tmp", ["003"])]).
  - exact one_spool_own.
  - apply perm_swap.
  - reflexivity.
Defined.

Lemma Oldest_comes_first_witness :
  exists name es, Oldest decode_blank Done one_spool = (Ok (Some (name, es)), one_spool) /\
    waiting decode_blank one_spool = es ++ waiting decode_blank (Remove Done name one_spool).2 /\
    own (Remove Done name one_spool).2 [].
Proof. apply (Oldest_comes_first decode_blank one_spool (5%Z, ["001"; "002"]) []); [exact one_spool_own|reflexivity]. Defined.
