(* ===== verification/AuditWriter.v ===== *)
(** * AuditWriter: from an event to the stream, or to a counted loss

    The writer of [internal/audit/audit.go]: [Emit] and the queue, the
    overflow beside it, the goroutine that batches and delivers, its retries,
    the spool of AuditSpool.v behind it, and the gap that records what was
    lost.  The stream is the list of what was appended, in order; what the
    transaction of AuditChain.v answers is an argument.  Emitting, reading,
    ticking and stopping are the steps of a run.

    [w_lost] is kept for the proofs: the program only counts. *)
From S2P Require Import Prelude GoStrings Float64 Regex Values Sha256 AuditEvents AuditChain AuditSpool.

Open Scope list_scope.

Definition UnavailableBlock : string := "block".
Definition UnavailableDegrade : string := "degrade".
Definition UnavailableSpool : string := "spool".

Definition defaultRetryAttempts : nat := 6.
Definition defaultRetryBase : Z := 250 * Millisecond.
Definition retryCap : Z := 5 * Second.
Definition batchMax : nat := 200.

(** ** Gaps *)

(** [None] is the zero time. *)
Record gap : Type := mkGap { g_count : Z; g_first : Z; g_last : Z; g_from : option Z; g_to : option Z }.

Definition no_gap : gap := mkGap 0 0 0 None None.

Definition before (a b : option Z) : bool :=
  match a, b with Some a, Some b => (a <? b)%Z | None, Some _ => true | _, None => false end.

(** [gap.add]. *)
Definition gap_add (g o : gap) : gap :=
  if (g_count o =? 0)%Z then g
  else if (g_count g =? 0)%Z then o
  else mkGap (g_count g + g_count o)
         (if negb (g_first o =? 0)%Z && ((g_first g =? 0)%Z || (g_first o <? g_first g)%Z) then g_first o else g_first g)
         (if (g_last g <? g_last o)%Z then g_last o else g_last g)
         (if negb (bool_decide (g_from o = None)) && (bool_decide (g_from g = None) || before (g_from o) (g_from g))
          then g_from o else g_from g)
         (if before (g_to g) (g_to o) then g_to o else g_to g).

Record pending : Type := mkPending { p_event : AuditEvent; p_seq : Z; p_at : Z }.

Definition gap_of (ps : list pending) : gap :=
  foldl (fun g p => gap_add g (mkGap 1 (p_seq p) (p_seq p) (Some (p_at p)) (Some (p_at p)))) no_gap ps.

(** ** The writer *)

Record Options : Type := mkOptions {
  Buffer : nat;
  OnUnavailable : string;
  retryAttempts : nat;
  retryBase : Z;
  o_Instance : string;
}.

(** What a queue holds: an event, or the barrier of [Flush]. *)
Inductive item : Type := Queued (p : pending) | Barrier.

(** What reaches the stream: an event, with the time it was accepted if it
    waited on disk, or the record of a gap. *)
Inductive sent : Type := Recorded (e : AuditEvent) (spooled : option Z) | GapRecord (g : gap).

Record writer : Type := mkWriter {
  w_opts : Options;
  w_queue : list item;
  w_senders : list pending;
  w_overflow : list pending;
  w_batch : list pending;
  w_accepted : Z;
  w_gap : gap;
  w_droppedTotal : Z;
  w_spool : option Spool;
  w_stream : list sent;
  w_stopping : bool;
  w_running : bool;
  w_lost : list pending;
}.

Definition set_queue (w : writer) (q : list item) (senders : list pending) : writer :=
  mkWriter (w_opts w) q senders (w_overflow w) (w_batch w) (w_accepted w) (w_gap w) (w_droppedTotal w) (w_spool w) (w_stream w)
    (w_stopping w) (w_running w) (w_lost w).
Definition set_overflow (w : writer) (l : list pending) : writer :=
  mkWriter (w_opts w) (w_queue w) (w_senders w) l (w_batch w) (w_accepted w) (w_gap w) (w_droppedTotal w) (w_spool w) (w_stream w)
    (w_stopping w) (w_running w) (w_lost w).
Definition set_batch (w : writer) (l : list pending) : writer :=
  mkWriter (w_opts w) (w_queue w) (w_senders w) (w_overflow w) l (w_accepted w) (w_gap w) (w_droppedTotal w) (w_spool w) (w_stream w)
    (w_stopping w) (w_running w) (w_lost w).
Definition set_gap (w : writer) (g : gap) : writer :=
  mkWriter (w_opts w) (w_queue w) (w_senders w) (w_overflow w) (w_batch w) (w_accepted w) g (w_droppedTotal w) (w_spool w) (w_stream w)
    (w_stopping w) (w_running w) (w_lost w).
Definition set_spool (w : writer) (s : Spool) : writer :=
  mkWriter (w_opts w) (w_queue w) (w_senders w) (w_overflow w) (w_batch w) (w_accepted w) (w_gap w) (w_droppedTotal w) (Some s) (w_stream w)
    (w_stopping w) (w_running w) (w_lost w).
Definition set_stream (w : writer) (l : list sent) : writer :=
  mkWriter (w_opts w) (w_queue w) (w_senders w) (w_overflow w) (w_batch w) (w_accepted w) (w_gap w) (w_droppedTotal w) (w_spool w) l
    (w_stopping w) (w_running w) (w_lost w).
Definition set_accepted (w : writer) (n : Z) : writer :=
  mkWriter (w_opts w) (w_queue w) (w_senders w) (w_overflow w) (w_batch w) n (w_gap w) (w_droppedTotal w) (w_spool w) (w_stream w)
    (w_stopping w) (w_running w) (w_lost w).
Definition set_phase (w : writer) (stopping running : bool) : writer :=
  mkWriter (w_opts w) (w_queue w) (w_senders w) (w_overflow w) (w_batch w) (w_accepted w) (w_gap w) (w_droppedTotal w) (w_spool w) (w_stream w)
    stopping running (w_lost w).

(** [NewWriter]: the options filled in, and the spool if it could be opened. *)
Definition NewWriter (o : Options) (opened : option Spool) : writer :=
  let o := mkOptions (if (Buffer o =? 0)%nat then 256 else Buffer o)
             (if String.eqb (OnUnavailable o) "" then UnavailableDegrade else OnUnavailable o)
             (if (retryAttempts o =? 0)%nat then defaultRetryAttempts else retryAttempts o)
             (if (retryBase o <=? 0)%Z then defaultRetryBase else retryBase o) (o_Instance o) in
  mkWriter o [] [] [] [] 0 no_gap 0 (if String.eqb (OnUnavailable o) UnavailableSpool then opened else None) [] false true [].

(** [lose]. *)
Definition lose (ps : list pending) (w : writer) : writer :=
  let g := gap_of ps in
  if (g_count g =? 0)%Z then w
  else mkWriter (w_opts w) (w_queue w) (w_senders w) (w_overflow w) (w_batch w) (w_accepted w) (gap_add (w_gap w) g)
         (w_droppedTotal w + g_count g) (w_spool w) (w_stream w) (w_stopping w) (w_running w) (w_lost w ++ ps).

Definition takeGap (w : writer) : gap * writer := (w_gap w, set_gap w no_gap).
Definition giveBackGap (g : gap) (w : writer) : writer := set_gap w (gap_add (w_gap w) g).

(** [park]. *)
Definition park (p : pending) (w : writer) : option writer :=
  match w_spool w with
  | None => None
  | Some _ => if Buffer (w_opts w) <=? length (w_overflow w) then None else Some (set_overflow w (w_overflow w ++ [p]))
  end.

Definition takeOverflow (w : writer) : list pending * writer := (w_overflow w, set_overflow w []).

(** [Emit] at the moment it is called: under block with a full queue the
    caller waits, first come first served, until there is room or its context
    ends ([leave_queue]). *)
Definition Emit_event (e : AuditEvent) (now : Z) (w : writer) : writer :=
  let n := ((w_accepted w + 1) mod 2 ^ 64)%Z in
  let w := set_accepted w n in
  let p := mkPending e n now in
  if length (w_queue w) <? Buffer (w_opts w) then set_queue w (w_queue w ++ [Queued p]) (w_senders w)
  else if String.eqb (OnUnavailable (w_opts w)) UnavailableBlock then set_queue w (w_queue w) (w_senders w ++ [p])
  else if String.eqb (OnUnavailable (w_opts w)) UnavailableSpool
  then match park p w with Some w => w | None => lose [p] w end
  else lose [p] w.

Definition leave_queue (i : nat) (w : writer) : option writer :=
  match w_senders w !! i with
  | Some p => Some (lose [p] (set_queue w (w_queue w) (delete i (w_senders w))))
  | None => None
  end.

(** ** Appending *)

(** [append]: the gap goes ahead of the events it came before, and comes
    back if the transaction fails. *)
Definition append (ans : db_answer) (events : list sent) (w : writer) : result string unit * writer :=
  let '(g, w) := takeGap w in
  let events := if (0 <? g_count g)%Z then GapRecord g :: events else events in
  let back w := if (0 <? g_count g)%Z then giveBackGap g w else w in
  match ans with
  | Commits => (Ok (), set_stream w (w_stream w ++ events))
  | Refuses e => (Err e, back w)
  | CommitsUnheard e => (Err e, back (set_stream w (w_stream w ++ events)))
  end.

(** What the world answers during one attempt: each replayed segment's open,
    append and remove, the batch's own append, and each segment written. *)
Record world : Type := mkWorld {
  wd_open : nat -> io_answer;
  wd_replay : nat -> db_answer;
  wd_remove : nat -> io_answer;
  wd_append : db_answer;
  wd_write : nat -> Z * io_answer;
}.

Section delivery.
Context (Encode : spoolEntry -> result string string) (Decode : string -> option spoolEntry).

Definition spool_message (e : spool_error) : string :=
  match e with ErrEncode x | ErrIO x => x | ErrSpoolFull _ _ => "the audit spool is full" | ErrTooLong => "bufio.Scanner: token too long" end.

(** [replay]: a turn for each segment; fuel is their number. *)
Fixpoint replay (fuel : nat) (wd : world) (i : nat) (s : Spool) (w : writer) : result string unit * writer :=
  match fuel with
  | O => (Ok (), w)
  | S fuel =>
      match Oldest Decode (wd_open wd i) s with
      | (Err e, s) => (Err (spool_message e), set_spool w s)
      | (Ok None, s) => (Ok (), set_spool w s)
      | (Ok (Some (name, entries)), s) =>
          let answered :=
            match entries with
            | [] => (Ok (), w)
            | _ => append (wd_replay wd i) (map (fun e => Recorded (se_Event e) (Some (se_At e))) entries) w
            end in
          match answered with
          | (Err e, w) => (Err e, w)
          | (Ok _, w) =>
              match Remove (wd_remove wd i) name s with
              | (Err e, s) => (Err (spool_message e), set_spool w s)
              | (Ok _, s) => replay fuel wd (S i) s (set_spool w s)
              end
          end
      end
  end.

(** [hold]. *)
Definition hold (wd : world) (batch : list pending) (cause : string) (s : Spool) (w : writer) : result string unit * writer :=
  match batch with
  | [] => (Err cause, w)
  | _ =>
      match Write Encode (wd_write wd) (map (fun p => mkSpoolEntry (p_at p) (p_event p)) batch) s with
      | (Err e, s) => (Err (cause +:+ String "010" "" +:+ spool_message e), lose batch (set_spool w s))
      | (Ok _, s) => (Err cause, set_spool w s)
      end
  end.

Definition recorded (batch : list pending) : list sent := map (fun p => Recorded (p_event p) None) batch.

(** [write]. *)
Definition write (wd : world) (batch : list pending) (w : writer) : result string unit * writer :=
  match w_spool w with
  | None => match batch with [] => (Ok (), w) | _ => append (wd_append wd) (recorded batch) w end
  | Some s =>
      let '(replayed, w) := if Empty s then (Ok (), w) else replay (length (sp_segments s)) wd 0 s w in
      let s := default s (w_spool w) in
      match replayed with
      | Err e => hold wd batch e s w
      | Ok _ =>
          match batch with
          | [] => (Ok (), w)
          | _ => match append (wd_append wd) (recorded batch) w with
                 | (Err e, w) => hold wd batch e s w
                 | r => r
                 end
          end
      end
  end.

(** [mayRetry]; [stopping] is what the writer sees when it asks. *)
Definition mayRetry (o : Options) (stopping : bool) (attempt : nat) : bool :=
  if stopping then attempt <? 2
  else if String.eqb (OnUnavailable o) UnavailableBlock then true
  else attempt <? retryAttempts o.

(** [deliver]: the list says what each attempt meets and whether the writer
    is stopping after it; it is [None] when more attempts are needed. *)
Fixpoint deliver (attempts : list (world * bool)) (attempt : nat) (batch : list pending) (w : writer)
  : option (result string unit * writer) :=
  match attempts with
  | [] => None
  | (wd, stopping) :: attempts =>
      match write wd batch w with
      | (Ok _, w) => Some (Ok (), w)
      | (Err e, w) =>
          if negb (bool_decide (w_spool w = None)) || bool_decide (batch = []) then Some (Err e, w)
          else if negb (mayRetry (w_opts w) stopping attempt) then Some (Err e, lose batch w)
          else deliver attempts (S attempt) batch w
      end
  end.

(** [backoff]; [jitter] is the random number below [d/2+1]. *)
Definition backoff_base (base : Z) (attempt : nat) : Z :=
  let d := wrap64 (Z.shiftl base (Z.min (Z.of_nat attempt - 1) 16)) in
  if (d <=? 0)%Z || (retryCap <? d)%Z then retryCap else d.

Definition backoff (base : Z) (attempt : nat) (jitter : Z) : Z :=
  let d := backoff_base base attempt in Z.quot d 2 + jitter.

(** [flush]. *)
Definition flush (attempts : list (world * bool)) (w : writer) : option writer :=
  let '(parked, w) := takeOverflow w in
  let batch := w_batch w ++ parked in
  let w := set_batch w batch in
  if (0 <? length batch) || match w_spool w with Some s => negb (Empty s) | None => false end
  then match deliver attempts 1 batch w with
       | Some (_, w) => Some (set_batch w [])
       | None => None
       end
  else Some (set_batch w []).

(** ** A run *)

Inductive op : Type :=
  | DoEmit (e : AuditEvent) (now : Z)
  | DoGiveUp (i : nat)
  | DoFlush
  | DoRead (attempts : list (world * bool))
  | DoTick (attempts : list (world * bool))
  | DoClose.

(** The goroutine takes the first item; a waiting sender moves up. *)
Definition refill (q : list item) (w : writer) : writer :=
  match w_senders w with
  | [] => set_queue w q []
  | p :: senders => set_queue w (q ++ [Queued p]) senders
  end.

Definition read_step (attempts : list (world * bool)) (w : writer) : option writer :=
  match w_queue w with
  | [] => if w_stopping w then option_map (fun w => set_phase w true false) (flush attempts w) else None
  | Barrier :: q => flush attempts (refill q w)
  | Queued p :: q =>
      let w := refill q w in
      let w := set_batch w (w_batch w ++ [p]) in
      if batchMax <=? length (w_batch w) then flush attempts w else Some w
  end.

(** One step; [None] when it cannot be taken.  [Close] runs once nothing
    emits any more: a sender still waiting would panic. *)
Definition exec (o : op) (w : writer) : option writer :=
  match o with
  | DoEmit e now => if w_stopping w then None else Some (Emit_event e now w)
  | DoGiveUp i => leave_queue i w
  | DoFlush => if w_stopping w || (Buffer (w_opts w) <=? length (w_queue w)) then None
               else Some (set_queue w (w_queue w ++ [Barrier]) (w_senders w))
  | DoRead attempts => if w_running w then read_step attempts w else None
  | DoTick attempts => if w_running w then flush attempts w else None
  | DoClose => if w_stopping w || negb (bool_decide (w_senders w = [])) then None else Some (set_phase w true (w_running w))
  end.

Fixpoint run (ops : list op) (w : writer) : option writer :=
  match ops with
  | [] => Some w
  | o :: ops => match exec o w with Some w => run ops w | None => None end
  end.
End delivery.

(** ** Where an event is *)

(** What an event is known by, on disk and off: its text fields as JSON
    keeps them. *)
Definition known_by (kept : string -> string) (e : AuditEvent) : list string := map kept (fields e).

(** How many events of a list read back from a line and are told so. *)
Definition cnt (kept : string -> string) (f : list string -> bool) (l : list AuditEvent) : nat :=
  length (List.filter (fun e => plain e && f (known_by kept e)) l).

Lemma cnt_app kept f a b : cnt kept f (a ++ b) = cnt kept f a + cnt kept f b.
Proof. unfold cnt. by rewrite List.filter_app, length_app. Qed.

Lemma cnt_cons kept f e l : cnt kept f (e :: l) = cnt kept f [e] + cnt kept f l.
Proof. apply (cnt_app kept f [e] l). Qed.

Definition queued (q : list item) : list AuditEvent := omap (fun i => match i with Queued p => Some (p_event p) | Barrier => None end) q.
Definition in_stream (l : list sent) : list AuditEvent := omap (fun s => match s with Recorded e _ => Some e | GapRecord _ => None end) l.

Lemma queued_app a b : queued (a ++ b) = queued a ++ queued b.
Proof. apply omap_app. Qed.

Lemma in_stream_app a b : in_stream (a ++ b) = in_stream a ++ in_stream b.
Proof. apply omap_app. Qed.

Lemma in_stream_recorded batch : in_stream (recorded batch) = map p_event batch.
Proof. induction batch as [|p batch IH]; [done|]. unfold in_stream in *. cbn. by f_equal. Qed.

Lemma in_stream_spooled es : in_stream (map (fun e => Recorded (se_Event e) (Some (se_At e))) es) = map se_Event es.
Proof. induction es as [|e es IH]; [done|]. unfold in_stream in *. cbn. by f_equal. Qed.

(** ** Gaps cover what they count *)

Definition covered_by (p : pending) (g : gap) : Prop :=
  (0 < g_count g)%Z /\ g_first g <> 0%Z /\ (g_first g <= p_seq p <= g_last g)%Z /\
  (exists a, g_from g = Some a /\ (a <= p_at p)%Z) /\ exists b, g_to g = Some b /\ (p_at p <= b)%Z.

Lemma gap_add_count g o : g_count (gap_add g o) = (g_count g + g_count o)%Z.
Proof.
  unfold gap_add. destruct (Z.eqb_spec (g_count o) 0); [lia|]. destruct (Z.eqb_spec (g_count g) 0); [lia|done].
Qed.

Lemma gap_add_covers p g o : (0 <= g_count g)%Z -> (0 <= g_count o)%Z ->
  covered_by p g \/ covered_by p o -> covered_by p (gap_add g o).
Proof.
  intros Hg Ho H. pose proof (gap_add_count g o) as Hc. unfold covered_by in *. rewrite Hc. unfold gap_add in *.
  destruct (Z.eqb_spec (g_count o) 0) as [Eo|Eo]; [destruct H as [?|(? & _)]; [|lia]; intuition lia|].
  destruct (Z.eqb_spec (g_count g) 0) as [Eg|Eg]; [destruct H as [(? & _)|?]; [lia|]; intuition lia|]. cbn [g_first g_last g_from g_to].
  destruct H as [(H0 & Hf & Hr & (a & Ea & Ha) & b & Eb & Hb)|(H0 & Hf & Hr & (a & Ea & Ha) & b & Eb & Hb)];
    rewrite Ea, Eb; clear Hc; split_and!; try lia.
  - destruct (Z.eqb_spec (g_first o) 0), (Z.eqb_spec (g_first g) 0), (Z.ltb_spec (g_first o) (g_first g)); cbn; lia.
  - destruct (Z.eqb_spec (g_first o) 0), (Z.eqb_spec (g_first g) 0), (Z.ltb_spec (g_first o) (g_first g)); cbn; lia.
  - destruct (Z.ltb_spec (g_last g) (g_last o)); lia.
  - cbn. destruct (g_from o) as [c|]; cbn; [|eauto]. destruct (Z.ltb_spec c a); [exists c; split; [done|lia]|eauto].
  - destruct (g_to o) as [c|]; cbn; [|eauto]. destruct (Z.ltb_spec b c); [exists c; split; [done|lia]|eauto].
  - destruct (Z.eqb_spec (g_first o) 0), (Z.eqb_spec (g_first g) 0), (Z.ltb_spec (g_first o) (g_first g)); cbn; lia.
  - destruct (Z.eqb_spec (g_first o) 0), (Z.eqb_spec (g_first g) 0), (Z.ltb_spec (g_first o) (g_first g)); cbn; lia.
  - destruct (Z.ltb_spec (g_last g) (g_last o)); lia.
  - cbn. destruct (g_from g) as [c|]; cbn; [|eauto]. destruct (Z.ltb_spec a c); [eauto|exists c; split; [done|lia]].
  - destruct (g_to g) as [c|]; cbn; [|eauto]. destruct (Z.ltb_spec c b); [eauto|exists c; split; [done|lia]].
Qed.

Lemma gap_of_snoc ps p : gap_of (ps ++ [p]) = gap_add (gap_of ps) (mkGap 1 (p_seq p) (p_seq p) (Some (p_at p)) (Some (p_at p))).
Proof. unfold gap_of. by rewrite foldl_snoc. Qed.

Lemma gap_of_count ps : g_count (gap_of ps) = Z.of_nat (length ps).
Proof.
  induction ps as [|p ps IH] using rev_ind; [done|]. rewrite gap_of_snoc, gap_add_count, IH, length_app. cbn. lia.
Qed.

Lemma gap_of_covers ps p : p ∈ ps -> p_seq p <> 0%Z -> covered_by p (gap_of ps).
Proof.
  intros Hin Hne. induction ps as [|q ps IH] using rev_ind; [by apply not_elem_of_nil in Hin|].
  rewrite gap_of_snoc. apply gap_add_covers; [rewrite gap_of_count; lia|done|].
  apply elem_of_app in Hin as [Hin|Hin]; [by left; apply IH|]. apply list_elem_of_singleton in Hin as ->. right.
  unfold covered_by. cbn. split_and!; try lia; (eexists; split; [done|lia]).
Qed.

(** ** What delivering does with a batch *)

Definition front (w : writer) := (w_opts w, w_queue w, w_senders w, w_overflow w, w_batch w, w_accepted w, (w_stopping w, w_running w)).

Definition gaps (l : list sent) : list gap := omap (fun s => match s with GapRecord g => Some g | Recorded _ _ => None end) l.

Lemma gaps_app a b : gaps (a ++ b) = gaps a ++ gaps b.
Proof. apply omap_app. Qed.

(** The accounts: the total counts what was lost, and every lost event that
    has a number lies in a gap that was recorded or is about to be. *)
Record accounts (w : writer) : Prop := {
  ac_gap : (0 <= g_count (w_gap w))%Z;
  ac_total : w_droppedTotal w = Z.of_nat (length (w_lost w));
  ac_covered : forall p, p ∈ w_lost w -> p_seq p <> 0%Z -> Exists (covered_by p) (gaps (w_stream w) ++ [w_gap w]);
  ac_reported : (w_droppedTotal w <= foldr (fun g n => g_count g + n) 0 (gaps (w_stream w) ++ [w_gap w]))%Z;
}.

(** From one writer to the next while a batch is being delivered. *)
Section deliver_spec.
Context (kept : string -> string) (Encode : spoolEntry -> result string string) (Decode : string -> option spoolEntry).
Context (json : json_lines kept Encode Decode).
#[local] Abbreviation cnt := (cnt kept).
#[local] Abbreviation cnt_app := (cnt_app kept).

Definition on_disk (w : writer) : list AuditEvent :=
  match w_spool w with Some s => map se_Event (waiting Decode s) | None => [] end.

(** Where an event can come to rest: on disk, in the stream, or lost. *)
Definition landed (w : writer) : list AuditEvent := on_disk w ++ in_stream (w_stream w) ++ map p_event (w_lost w).

Record moves (l : list AuditEvent) (w w' : writer) : Prop := {
  mv_front : front w' = front w;
  mv_spool : w_spool w = None <-> w_spool w' = None;
  mv_landed : forall f, cnt f (landed w) + cnt f l <= cnt f (landed w');
  mv_accounts : accounts w -> accounts w';
}.

Lemma moves_refl w : moves [] w w.
Proof. split; try done. intros f. cbn. lia. Qed.

Lemma moves_trans l k w1 w2 w3 : moves l w1 w2 -> moves k w2 w3 -> moves (l ++ k) w1 w3.
Proof.
  intros [F1 S1 L1 A1] [F2 S2 L2 A2]. split; [congruence|tauto| |auto].
  intros f. rewrite cnt_app. specialize (L1 f). specialize (L2 f). lia.
Qed.

Lemma moves_less l k w w' : moves (l ++ k) w w' -> moves l w w'.
Proof. intros [F S L A]. split; try done. intros f. specialize (L f). rewrite cnt_app in L. lia. Qed.

Lemma cnt_landed f w : cnt f (landed w) = cnt f (on_disk w) + cnt f (in_stream (w_stream w)) + cnt f (map p_event (w_lost w)).
Proof. unfold landed. rewrite !cnt_app. lia. Qed.

Lemma lose_moves ps w : moves (map p_event ps) w (lose ps w).
Proof.
  unfold lose. rewrite gap_of_count. destruct (Z.eqb_spec (Z.of_nat (length ps)) 0) as [E|E].
  { assert (ps = []) as -> by (destruct ps; [done|cbn in E; lia]). apply moves_refl. }
  split; [done|done| |].
  - intros f. rewrite !cnt_landed. unfold on_disk. cbn [w_lost w_stream w_spool]. rewrite map_app, cnt_app. lia.
  - intros [A1 A2 A3 A4]. split; cbn [w_gap w_droppedTotal w_lost w_stream].
    + rewrite gap_add_count, gap_of_count. lia.
    + rewrite length_app, A2. lia.
    + intros p Hp Hne. apply elem_of_app in Hp as [Hp|Hp].
      * specialize (A3 p Hp Hne). apply Exists_app in A3 as [?|H]; apply Exists_app; [by left|right].
        apply Exists_cons in H as [H|H]; [|by apply Exists_nil in H]. constructor. apply gap_add_covers; [done|rewrite gap_of_count; lia|by left].
      * apply Exists_app. right. constructor. apply gap_add_covers; [done|rewrite gap_of_count; lia|right]. by apply gap_of_covers.
    + rewrite foldr_app in *. cbn [foldr] in *. rewrite gap_add_count, gap_of_count.
      revert A4. generalize (gaps (w_stream w)) as l. generalize (g_count (w_gap w)). generalize (w_droppedTotal w). clear.
      intros d g l. assert (H : forall x y, (foldr (fun g n => g_count g + n) (x + y) l = foldr (fun g n => g_count g + n) x l + y)%Z).
      { intros x y. induction l as [|a l IH]; cbn; lia. }
      intros A4. replace (g + Z.of_nat (length ps) + 0)%Z with (g + 0 + Z.of_nat (length ps))%Z by lia. rewrite H. lia.
Qed.

(** The gap that an append takes along, and the records it becomes. *)
Definition gap_record (g : gap) : list sent := if (0 <? g_count g)%Z then [GapRecord g] else [].

Definition counted (l : list gap) : Z := foldr (fun g n => g_count g + n)%Z 0%Z l.

Lemma counted_app l k : counted (l ++ k) = (counted l + counted k)%Z.
Proof. induction l as [|g l IH]; [done|]. cbn. unfold counted in *. lia. Qed.

Lemma append_eq ans events w : (0 <= g_count (w_gap w))%Z ->
  append ans events w =
    let after := w_stream w ++ gap_record (w_gap w) ++ events in
    let kept := if (0 <? g_count (w_gap w))%Z then w_gap w else no_gap in
    match ans with
    | Commits => (Ok (), set_stream (set_gap w no_gap) after)
    | Refuses e => (Err e, set_gap w kept)
    | CommitsUnheard e => (Err e, set_stream (set_gap w kept) after)
    end.
Proof.
  intros Hg. unfold append, takeGap, gap_record, giveBackGap, gap_add. cbn [w_stream set_gap w_gap set_stream].
  destruct (Z.ltb_spec 0 (g_count (w_gap w))); destruct ans; try done;
    by rewrite (proj2 (Z.eqb_neq _ _)) by lia.
Qed.

Lemma append_front ans events w : front (append ans events w).2 = front w /\ w_spool (append ans events w).2 = w_spool w /\
  w_lost (append ans events w).2 = w_lost w /\ w_droppedTotal (append ans events w).2 = w_droppedTotal w.
Proof. unfold append, takeGap, giveBackGap. destruct ans, (0 <? _)%Z; done. Qed.

(** Accounts survive a stream that grows by the gap record, by events, or by
    both with the gap kept or cleared. *)
Lemma accounts_append ans events w : gaps events = [] -> accounts w -> accounts (append ans events w).2.
Proof.
  intros Hev [A1 A2 A3 A4]. rewrite append_eq by done. fold counted in A4.
  assert (Hr : gaps (gap_record (w_gap w)) = if (0 <? g_count (w_gap w))%Z then [w_gap w] else []) by (unfold gap_record; by destruct (0 <? _)%Z).
  rewrite counted_app in A4. cbn [counted foldr] in A4.
  assert (Hc : forall p, covered_by p (w_gap w) -> (0 <? g_count (w_gap w))%Z = true) by (intros p (H & _); by apply Z.ltb_lt).
  assert (Hcov : forall p k, Exists (covered_by p) (gaps (w_stream w) ++ [w_gap w]) ->
            Exists (covered_by p) (gaps (w_stream w) ++ (if (0 <? g_count (w_gap w))%Z then [w_gap w] else []) ++ k)).
  { intros p k H. apply Exists_app in H as [H|H]; apply Exists_app; [by left|right]. apply Exists_cons in H as [H|H]; [|by apply Exists_nil in H].
    rewrite (Hc p H). by left. }
  destruct ans; split; cbn [snd w_gap w_droppedTotal w_lost w_stream set_stream set_gap]; try done;
    rewrite ?gaps_app, ?Hr, ?Hev, ?app_nil_r, <-?app_assoc.
  - intros p Hp Hne. by apply Hcov, A3.
  - fold counted. rewrite !counted_app. cbn. destruct (Z.ltb_spec 0 (g_count (w_gap w))); cbn; lia.
  - by destruct (0 <? _)%Z.
  - intros p Hp Hne. pose proof (A3 p Hp Hne) as H. apply Exists_app in H as [H|H]; apply Exists_app; [by left|right].
    apply Exists_cons in H as [H|H]; [|by apply Exists_nil in H]. rewrite (Hc p H). by left.
  - fold counted. rewrite !counted_app. cbn. destruct (Z.ltb_spec 0 (g_count (w_gap w))); cbn; lia.
  - by destruct (0 <? _)%Z.
  - intros p Hp Hne. by apply Hcov, A3.
  - fold counted. rewrite !counted_app. cbn. destruct (Z.ltb_spec 0 (g_count (w_gap w))); cbn; lia.
Qed.

Lemma append_moves ans events w : accounts w -> gaps events = [] ->
  moves (match append ans events w with (Ok _, _) => in_stream events | (Err _, _) => [] end) w (append ans events w).2.
Proof.
  intros A Hev. destruct (append_front ans events w) as (F & S & L & _). split; [done|by rewrite S| |by intros _; apply accounts_append].
  intros f. rewrite !cnt_landed. unfold on_disk. rewrite S, L. rewrite append_eq by apply A.
  assert (Hg : in_stream (gap_record (w_gap w)) = []) by (unfold gap_record; by destruct (0 <? _)%Z).
  destruct ans; cbn [snd w_stream set_stream set_gap]; rewrite ?in_stream_app, ?Hg, ?cnt_app; cbn [cnt List.filter length app]; try lia.
Qed.

Lemma gaps_recorded batch : gaps (recorded batch) = [].
Proof. induction batch as [|p batch IH]; [done|]. exact IH. Qed.

Lemma gaps_spooled es : gaps (map (fun e => Recorded (se_Event e) (Some (se_At e))) es) = [].
Proof. induction es as [|e es IH]; [done|]. exact IH. Qed.

(** Changing the spool of a writer that has one. *)
Lemma set_spool_moves l s s' w : w_spool w = Some s ->
  (forall f, cnt f (map se_Event (waiting Decode s)) + cnt f l <= cnt f (map se_Event (waiting Decode s'))) -> moves l w (set_spool w s').
Proof.
  intros Hs H. split; [done|by rewrite Hs| |by intros []].
  intros f. rewrite !cnt_landed. unfold on_disk. cbn [set_spool w_spool w_stream w_lost]. rewrite Hs. specialize (H f). lia.
Qed.

(** Writing puts on disk what reads back of what it took, refused or not. *)
Lemma write_loop_waiting fuel io i es s : length es <= fuel ->
  exists n, waiting Decode (write_loop Encode fuel io i es s).2 = waiting Decode s ++ omap (reread Encode Decode) (take n es) /\
    Forall (encodes Encode) (take n es) /\ ((write_loop Encode fuel io i es s).1 = Ok () -> take n es = es).
Proof.
  revert i es s; induction fuel as [|fuel IH]; intros i es s Hlen.
  { destruct es; [|cbn in Hlen; lia]. exists 0. cbn. by rewrite app_nil_r. }
  destruct es as [|e es]; [exists 0; cbn; by rewrite app_nil_r|]. cbn [write_loop].
  assert (Hseg : match writeSegment Encode (io i).1 (io i).2 (take spoolSegmentMax (e :: es)) s with
                 | (Ok _, s') => waiting Decode s' = waiting Decode s ++ omap (reread Encode Decode) (take spoolSegmentMax (e :: es)) /\
                                 Forall (encodes Encode) (take spoolSegmentMax (e :: es))
                 | (Err _, s') => waiting Decode s' = waiting Decode s
                 end).
  { unfold writeSegment. destruct (encode_all Encode _) as [lines|] eqn:E; [|done]. destruct (_ <? _)%Z; [done|].
    destruct (io i).2; [|done]. unfold waiting. cbn [with_segments sp_segments]. rewrite flat_map_app. cbn [flat_map sg_file].
    destruct (decoded_encoded Encode Decode _ _ E) as (-> & _ & Hf). by rewrite app_nil_r. }
  destruct (writeSegment _ _ _ _ _) as [[u|x] s1]; [|exists 0; cbn; by rewrite Hseg, app_nil_r]. destruct Hseg as [Hseg Hf].
  destruct (IH (S i) (drop spoolSegmentMax (e :: es)) s1) as (n & Hn & Hfn & Hok).
  { rewrite length_drop. cbn [length] in *. unfold spoolSegmentMax. lia. }
  exists (spoolSegmentMax + n). rewrite Hn, Hseg, <-app_assoc, <-omap_app, take_take_drop. split; [done|].
  split; [rewrite <-take_take_drop; by apply Forall_app|]. intros Hr. rewrite <-take_take_drop, (Hok Hr). apply take_drop.
Qed.

(** Reading entries back loses no event that is counted. *)
Lemma reread_counts f es : Forall (encodes Encode) es -> cnt f (map se_Event es) <= cnt f (map se_Event (omap (reread Encode Decode) es)).
Proof.
  induction 1 as [|e es [l E] _ IH]; [done|]. change (map se_Event (e :: es)) with ([se_Event e] ++ map se_Event es). rewrite cnt_app.
  change (omap (reread Encode Decode) (e :: es)) with (omap (reread Encode Decode) [e] ++ omap (reread Encode Decode) es) || rewrite (omap_app _ [e] es).
  rewrite map_app, cnt_app. enough (cnt f [se_Event e] <= cnt f (map se_Event (omap (reread Encode Decode) [e]))) by lia.
  unfold AuditWriter.cnt at 1. cbn [List.filter]. destruct (plain (se_Event e)) eqn:P; [|cbn; lia]. cbn [andb].
  destruct (jl_back _ _ _ json e l E P) as (e' & D & P' & K). cbn [omap list_omap]. unfold reread. rewrite E.
  rewrite (proj2 (String.eqb_neq l "")) by by eapply jl_line. rewrite D. cbn [map]. unfold AuditWriter.cnt. cbn [List.filter].
  assert (known_by kept (se_Event e') = known_by kept (se_Event e)) as ->; [|rewrite P'; cbn [andb]; by destruct (f _)].
  unfold known_by. rewrite K, map_map. apply map_ext. apply (jl_kept _ _ _ json).
Qed.

Lemma hold_moves wd batch cause s w : w_spool w = Some s ->
  moves (map p_event batch) w (hold Encode wd batch cause s w).2.
Proof.
  intros Hs. unfold hold. destruct batch as [|p batch]; [apply moves_refl|].
  set (b := p :: batch). set (es := map (fun p => mkSpoolEntry (p_at p) (p_event p)) b).
  destruct (write_loop_waiting (length es) (wd_write wd) 0 es s) as (n & Hn & Hf & Hok); [done|]. fold (Write Encode (wd_write wd) es s) in *.
  assert (Hes : map se_Event es = map p_event b) by (unfold es; by rewrite map_map).
  destruct (Write Encode (wd_write wd) es s) as [[u|x] s1]; cbn [fst snd] in *.
  - rewrite Hok in Hn, Hf by (by destruct u). apply (set_spool_moves _ s); [done|]. intros f. rewrite Hn, map_app, cnt_app, <- Hes.
    pose proof (reread_counts f es Hf). lia.
  - apply (moves_trans [] (map p_event b) w (set_spool w s1)); [|exact (lose_moves b _)]. apply (set_spool_moves _ s); [done|].
    intros f. rewrite Hn, map_app, cnt_app. cbn. lia.
Qed.

Lemma accounts_moves l w w' : accounts w -> moves l w w' -> accounts w'.
Proof. intros A M. by apply M. Qed.

(** Removing the oldest segment takes away only what was read from it. *)
Lemma Oldest_waiting io s r s' : Oldest Decode io s = (r, s') ->
  match r with
  | Ok (Some (name, es)) => s' = s /\ forall io', waiting Decode s = es ++ waiting Decode (Remove io' name s).2 \/ (Remove io' name s).2 = s
  | _ => waiting Decode s' = waiting Decode s
  end.
Proof.
  unfold Oldest. destruct (sp_segments s) as [|g l] eqn:El; [by intros [= <- <-]|].
  destruct (sg_file g) as [lines|] eqn:Eg.
  - destruct io; [|by intros [= <- <-]]. destruct (existsb (fun l => spoolLineMax <? Z.of_nat (String.length l) + 1)%Z lines) eqn:Elong.
    + destruct (read_lines Decode lines) eqn:Er; [|by intros [= <- <-]]. exfalso. revert a Er. clear -Elong.
      induction lines as [|x lines IH]; [done|]. cbn [existsb read_lines] in *. intros a. destruct (spoolLineMax <? _)%Z; [done|].
      cbn in Elong. destruct (read_lines Decode lines); [|done]. intros _. by eapply IH.
    + rewrite read_lines_decoded by done. intros [= <- <-]. split; [done|]. intros [|e]; [left|by right].
      unfold waiting, Remove, forget, file_size. cbn [snd with_segments sp_segments]. rewrite El. cbn [drop_name flat_map].
      by rewrite String.eqb_refl, Eg.
  - intros [= <- <-]. unfold waiting, forget. cbn [with_segments sp_segments]. rewrite El. cbn [drop_name flat_map].
    by rewrite String.eqb_refl, Eg.
Qed.

Lemma replay_moves fuel wd i s w : w_spool w = Some s -> accounts w -> moves [] w (replay Decode fuel wd i s w).2.
Proof.
  revert i s w; induction fuel as [|fuel IH]; intros i s w Hs A; [apply moves_refl|]. cbn [replay].
  destruct (Oldest Decode (wd_open wd i) s) as [[[[name es]|]|e] s1] eqn:Eo; apply Oldest_waiting in Eo.
  2,3: apply (set_spool_moves _ s); [done|]; intros f; by rewrite Eo, Nat.add_0_r.
  destruct Eo as [-> Hrem].
  assert (Hput : match (match es with [] => (Ok (), w)
                         | _ => append (wd_replay wd i) (map (fun e => Recorded (se_Event e) (Some (se_At e))) es) w end) with
                 | (Err _, w') => moves [] w w' | (Ok _, w') => moves (map se_Event es) w w' /\ w_spool w' = Some s end).
  { destruct es as [|e es]; [split; [apply moves_refl|done]|].
    pose proof (append_moves (wd_replay wd i) _ w A (gaps_spooled (e :: es))) as M.
    destruct (append_front (wd_replay wd i) (map (fun e => Recorded (se_Event e) (Some (se_At e))) (e :: es)) w) as (_ & S & _).
    destruct (append _ _ _) as [[u|x] w1]; cbn [snd] in *; [|done]. rewrite in_stream_spooled in M. split; [done|congruence]. }
  destruct (match es with [] => _ | _ => _ end) as [[u|x] w1]; [|done]. destruct Hput as [M1 S1].
  specialize (Hrem (wd_remove wd i)).
  assert (M2 : moves [] w (set_spool w1 (Remove (wd_remove wd i) name s).2)).
  { destruct M1 as [F1 P1 L1 A1]. split; [done|rewrite P1, S1; done| |intros HA; by destruct (A1 HA)].
    intros f. specialize (L1 f). rewrite !cnt_landed in *. unfold on_disk in *. cbn [set_spool w_spool w_stream w_lost]. rewrite Hs, S1 in *.
    destruct Hrem as [Hrem|Hrem]; [rewrite Hrem, map_app, cnt_app in *|rewrite Hrem]; cbn [cnt List.filter length] in *; unfold cnt in *; cbn in *; lia. }
  destruct (Remove _ name s) as [[u2|x] s2]; cbn [snd] in M2; [|done].
  eapply (moves_trans [] []); [exact M2|]. apply IH; [done|]. by eapply accounts_moves.
Qed.

Lemma append_spec ans batch w : accounts w ->
  match append ans (recorded batch) w with
  | (Ok _, w') => moves (map p_event batch) w w' /\ w_spool w' = w_spool w
  | (Err _, w') => moves [] w w' /\ w_spool w' = w_spool w
  end.
Proof.
  intros A. pose proof (append_moves ans (recorded batch) w A (gaps_recorded batch)) as M.
  destruct (append_front ans (recorded batch) w) as (_ & S & _). rewrite in_stream_recorded in M. by destruct (append _ _ _) as [[u|x] w1].
Qed.

Lemma moves_spool l w w' s : moves l w w' -> w_spool w = Some s -> exists s', w_spool w' = Some s'.
Proof. intros M Hs. destruct (w_spool w') as [s'|] eqn:E; [by exists s'|]. apply M in E. congruence. Qed.

Lemma write_spooled wd batch s w : w_spool w = Some s -> accounts w ->
  moves (map p_event batch) w (write Encode Decode wd batch w).2.
Proof.
  intros Hs A. unfold write. rewrite Hs.
  assert (Hr : let '(r, w1) := if Empty s then (Ok (), w) else replay Decode (length (sp_segments s)) wd 0 s w in
               moves [] w w1).
  { destruct (Empty s); [apply moves_refl|]. pose proof (replay_moves (length (sp_segments s)) wd 0 s w Hs A) as M.
    by destruct (replay _ _ _ _ _ _). }
  destruct (if Empty s then _ else _) as [r w1]. pose proof (moves_spool _ _ _ _ Hr Hs) as [s1 Hs1]. rewrite Hs1. cbn [default].
  pose proof (accounts_moves _ _ _ A Hr) as A1. destruct r as [u|e].
  - destruct batch as [|p batch]; [exact Hr|]. pose proof (append_spec (wd_append wd) (p :: batch) w1 A1) as Ha.
    destruct (append _ _ w1) as [[u2|e] w2]; destruct Ha as [Ha Sa].
    + exact (moves_trans [] _ _ _ _ Hr Ha).
    + apply (moves_trans [] (map p_event (p :: batch)) _ w2); [exact (moves_trans [] [] _ _ _ Hr Ha)|].
      apply hold_moves. by rewrite Sa.
  - apply (moves_trans [] (map p_event batch) _ w1); [done|]. by apply hold_moves.
Qed.

Lemma write_direct wd batch w : w_spool w = None -> accounts w ->
  match write Encode Decode wd batch w with
  | (Ok _, w') => moves (map p_event batch) w w'
  | (Err _, w') => moves [] w w' /\ batch <> []
  end.
Proof.
  intros Hs A. unfold write. rewrite Hs. destruct batch as [|p batch]; [apply moves_refl|].
  pose proof (append_spec (wd_append wd) (p :: batch) w A) as Ha. destruct (append _ _ _) as [[u|x] w1]; [by apply Ha|]. by split; [apply Ha|].
Qed.

Lemma deliver_moves attempts k batch w r w' : accounts w -> deliver Encode Decode attempts k batch w = Some (r, w') ->
  moves (map p_event batch) w w'.
Proof.
  revert k w; induction attempts as [|[wd stopping] attempts IH]; intros k w A H; [done|]. cbn [deliver] in H.
  destruct (w_spool w) as [s|] eqn:Hs.
  - pose proof (write_spooled wd batch s w Hs A) as M. destruct (write _ _ _ _ _) as [[u|e] w1]; [by injection H as <- <-|].
    destruct (moves_spool _ _ _ _ M Hs) as [s1 Hs1]. cbn [snd] in *. rewrite Hs1 in H. cbn in H. by injection H as <- <-.
  - pose proof (write_direct wd batch w Hs A) as M. destruct (write _ _ _ _ _) as [[u|e] w1]; [by injection H as <- <-|].
    destruct M as [M Hne]. assert (Hs1 : w_spool w1 = None) by (by apply M).
    rewrite Hs1 in H. rewrite bool_decide_eq_true_2, bool_decide_eq_false_2 in H by done. cbn [negb orb] in H.
    destruct (mayRetry _ _ _); cbn [negb] in H.
    + apply (moves_trans [] (map p_event batch) w w1 w'); [done|]. eapply IH; [|exact H]. by eapply accounts_moves.
    + injection H as <- <-. apply (moves_trans [] (map p_event batch) w w1); [done|apply lose_moves].
Qed.

(** ** The invariant of a run *)

Definition waits (w : writer) : list AuditEvent :=
  queued (w_queue w) ++ map p_event (w_senders w) ++ map p_event (w_overflow w) ++ map p_event (w_batch w).

Definition everywhere (w : writer) : list AuditEvent := waits w ++ landed w.

Definition accounted (given : list AuditEvent) (w : writer) : Prop :=
  (forall f, cnt f given <= cnt f (everywhere w)) /\ accounts w.

Lemma front_eq w w' : front w' = front w ->
  w_queue w' = w_queue w /\ w_senders w' = w_senders w /\ w_overflow w' = w_overflow w /\ w_batch w' = w_batch w.
Proof. unfold front. intros H. by injection H. Qed.

Lemma flush_accounted given attempts w w' : accounted given w -> flush Encode Decode attempts w = Some w' -> accounted given w'.
Proof.
  intros [Hg A] H. unfold flush, takeOverflow in H. cbn [set_overflow set_batch w_batch w_spool] in H.
  set (batch := w_batch w ++ w_overflow w) in *. set (w1 := set_batch (set_overflow w []) batch) in *.
  assert (A1 : accounts w1) by (destruct A; by split).
  assert (Hbatch : forall f, cnt f (map p_event batch) = cnt f (map p_event (w_batch w)) + cnt f (map p_event (w_overflow w)))
    by (intros f; unfold batch; by rewrite map_app, cnt_app).
  destruct ((0 <? length batch) || _) eqn:Ego.
  - destruct (deliver _ _ _ _ _ _) as [[r w2]|] eqn:Ed; [|done]. injection H as <-.
    apply (deliver_moves _ _ _ _ _ _ A1) in Ed. destruct Ed as [F S L A2]. apply front_eq in F as (F1 & F2 & F3 & F4).
    split; [|by destruct (A2 A1)]. intros f. specialize (Hg f). specialize (L f). specialize (Hbatch f).
    unfold everywhere, waits in *. rewrite ?cnt_app in *. cbn [set_batch w_queue w_senders w_overflow w_batch] in *.
    rewrite F1, F2, F3. unfold w1 in *. cbn [set_batch set_overflow w_queue w_senders w_overflow w_batch map] in *.
    rewrite !(cnt_landed f) in *. unfold on_disk in *. cbn [set_batch set_overflow w_spool w_stream w_lost] in *.
    lia.
  - injection H as <-. bool_prop. assert (batch = []) as Hb by (destruct batch; [done|cbn in *; lia]).
    apply app_eq_nil in Hb as [Hb1 Hb2]. split; [|by destruct A]. intros f. specialize (Hg f).
    unfold everywhere, waits in *. rewrite ?cnt_app in *. rewrite !(cnt_landed f) in *. unfold on_disk in *. unfold w1.
    cbn [set_batch set_overflow w_queue w_senders w_overflow w_batch w_spool w_stream w_lost] in *.
    rewrite Hb1, Hb2 in Hg. cbn [map] in *. lia.
Qed.

Lemma lose_accounted given ps w : accounted given w -> accounted (given ++ map p_event ps) (lose ps w).
Proof.
  intros [Hg A]. destruct (lose_moves ps w) as [F S L A']. split; [|by destruct (A' A)]. intros f.
  apply front_eq in F as (F1 & F2 & F3 & F4). specialize (Hg f). specialize (L f).
  unfold everywhere, waits in *. rewrite F1, F2, F3, F4. rewrite ?cnt_app in *. lia.
Qed.

(** Steps that only move what waits. *)
Lemma waits_accounted given l w w' : accounted given w ->
  (w_gap w', w_droppedTotal w', w_spool w', w_stream w', w_lost w') = (w_gap w, w_droppedTotal w, w_spool w, w_stream w, w_lost w) ->
  (forall f, cnt f (waits w) + cnt f l <= cnt f (waits w')) -> accounted (given ++ l) w'.
Proof.
  intros [Hg [A1 A2 A3 A4]] E Hw. injection E as E1 E2 E3 E4 E5. split.
  - intros f. specialize (Hg f). specialize (Hw f). unfold everywhere in *. rewrite !cnt_app in *. rewrite !cnt_landed in *.
    unfold on_disk in *. rewrite E3, E4, E5. lia.
  - split; rewrite ?E1, ?E2, ?E4, ?E5; done.
Qed.

Lemma waits_accounted_same given w w' : accounted given w ->
  (w_gap w', w_droppedTotal w', w_spool w', w_stream w', w_lost w') = (w_gap w, w_droppedTotal w, w_spool w, w_stream w, w_lost w) ->
  (forall f, cnt f (waits w) <= cnt f (waits w')) -> accounted given w'.
Proof.
  intros H E Hw. rewrite <-(app_nil_r given). apply (waits_accounted _ _ w); [done|done|]. intros f. specialize (Hw f).
  change (cnt f []) with 0. lia.
Qed.

Lemma cnt_waits f w : cnt f (waits w) =
  cnt f (queued (w_queue w)) + cnt f (map p_event (w_senders w)) + cnt f (map p_event (w_overflow w)) + cnt f (map p_event (w_batch w)).
Proof. unfold waits. rewrite !cnt_app. lia. Qed.

Ltac recount := intros ?f; rewrite !cnt_waits;
  cbn [set_queue set_batch set_overflow set_accepted set_phase w_queue w_senders w_overflow w_batch];
  rewrite ?queued_app, ?map_app, ?cnt_app; cbn [queued omap list_omap map]; try lia.

Lemma Emit_accounted given e now w : accounted given w -> accounted (given ++ [e]) (Emit_event e now w).
Proof.
  intros H. unfold Emit_event. set (w1 := set_accepted w _). set (p := mkPending e _ now). change [e] with [p_event p].
  assert (H1 : accounted given w1) by (by apply (waits_accounted_same _ w); [done|done|recount]).
  destruct (_ <? _); [by apply (waits_accounted _ _ w1); [done|done|recount]|].
  destruct (String.eqb _ UnavailableBlock); [by apply (waits_accounted _ _ w1); [done|done|recount]|].
  destruct (String.eqb _ UnavailableSpool); [|by apply (lose_accounted given [p])].
  unfold park. destruct (w_spool w1); [|by apply (lose_accounted given [p])].
  destruct (_ <=? _); [by apply (lose_accounted given [p])|]. apply (waits_accounted _ _ w1); [done|done|recount].
Qed.

Lemma leave_accounted given i w w' : accounted given w -> leave_queue i w = Some w' -> accounted given w'.
Proof.
  intros [Hg A] H. unfold leave_queue in H. destruct (w_senders w !! i) as [p|] eqn:Ei; [|done]. injection H as <-.
  set (w1 := set_queue w (w_queue w) (delete i (w_senders w))). destruct (lose_moves [p] w1) as [F S L A'].
  assert (A1 : accounts w1) by (destruct A; by split). split; [|by destruct (A' A1)].
  apply front_eq in F as (F1 & F2 & F3 & F4). intros f. specialize (Hg f). specialize (L f).
  pose proof (delete_Permutation (w_senders w) i p Ei) as Hp.
  assert (Hc : cnt f (map p_event (w_senders w)) = cnt f [p_event p] + cnt f (map p_event (delete i (w_senders w)))).
  { rewrite <-cnt_app. unfold cnt. apply Permutation_length, filter_bool_perm. rewrite Hp at 1. done. }
  assert (Hw : cnt f (waits w) = cnt f [p_event p] + cnt f (waits w1)).
  { rewrite !cnt_waits. cbn [w1 set_queue w_queue w_senders w_overflow w_batch]. lia. }
  assert (Hw' : waits (lose [p] w1) = waits w1) by (unfold waits; by rewrite F1, F2, F3, F4).
  change (landed w1) with (landed w) in L. cbn [map] in L. clearbody w1. unfold everywhere in *. rewrite Hw', !cnt_app in *. lia.
Qed.

Lemma refill_accounted given q i w : accounted given w -> w_queue w = i :: q ->
  accounted given (match i with Queued p => set_batch (refill q w) (w_batch (refill q w) ++ [p]) | Barrier => refill q w end).
Proof.
  intros H Hq. apply (waits_accounted_same _ w); [done|by destruct i; unfold refill; destruct (w_senders w)|].
  intros f. rewrite !cnt_waits, Hq. assert (Hh : cnt f (queued (i :: q)) = cnt f (queued [i]) + cnt f (queued q)).
  { by rewrite <-cnt_app, <-queued_app. }
  rewrite Hh. unfold refill. destruct (w_senders w) as [|s l] eqn:Es; destruct i as [p|];
    cbn [set_queue set_batch w_queue w_senders w_overflow w_batch]; rewrite ?queued_app, ?map_app, ?cnt_app;
    cbn [queued omap list_omap map]; try rewrite (cnt_cons kept f (p_event s) (map p_event l)); change (cnt f []) with 0; lia.
Qed.

Lemma read_accounted given attempts w w' : accounted given w -> read_step Encode Decode attempts w = Some w' -> accounted given w'.
Proof.
  intros H Hr. unfold read_step in Hr. destruct (w_queue w) as [|i q] eqn:Hq.
  - destruct (w_stopping w); [|done]. destruct (flush _ _ _ _) as [w1|] eqn:Ef; [|done]. injection Hr as <-.
    apply (flush_accounted given) in Ef; [|done]. by apply (waits_accounted_same _ w1); [done|done|recount].
  - pose proof (refill_accounted given q i w H Hq) as H1. destruct i as [p|].
    + destruct (_ <=? _); [by eapply flush_accounted|by injection Hr as <-].
    + by eapply flush_accounted.
Qed.

Definition given_by (o : op) : list AuditEvent := match o with DoEmit e _ => [e] | _ => [] end.

Lemma exec_accounted given o w w' : accounted given w -> exec Encode Decode o w = Some w' -> accounted (given ++ given_by o) w'.
Proof.
  intros H He. destruct o; cbn [exec given_by] in *; rewrite ?app_nil_r.
  - destruct (w_stopping w); [done|]. injection He as <-. by apply Emit_accounted.
  - by eapply leave_accounted.
  - destruct (_ || _); [done|]. injection He as <-. by apply (waits_accounted_same _ w); [done|done|recount].
  - destruct (w_running w); [|done]. by eapply read_accounted.
  - destruct (w_running w); [|done]. by eapply flush_accounted.
  - destruct (_ || _); [done|]. injection He as <-. by apply (waits_accounted_same _ w); [done|done|recount].
Qed.

Lemma run_accounted ops given w w' : accounted given w -> run Encode Decode ops w = Some w' ->
  accounted (given ++ flat_map given_by ops) w'.
Proof.
  revert given w; induction ops as [|o ops IH]; intros given w H Hr; cbn in *.
  - injection Hr as <-. by rewrite app_nil_r.
  - destruct (exec _ _ o w) as [w1|] eqn:He; [|done]. rewrite app_assoc. eapply IH; [|exact Hr]. by eapply exec_accounted.
Qed.

Lemma new_accounted o opened : accounted [] (NewWriter o opened).
Proof.
  split; [intros f; cbn; lia|]. split; cbn; try done; try lia. intros p Hp. by apply not_elem_of_nil in Hp.
Qed.
End deliver_spec.

(** C15. Whatever order events, ticks, refusals, disk failures and shutdown
    come in, every event the writer was given is waiting (queued, parked or
    batched), on disk, in the stream, or lost and counted: the total of lost
    events is exact, every lost event lies within a gap that the stream
    records or that the next append will, and those gaps count at least as
    many.  An event is known by its text fields, as JSON keeps text, since
    that is what of it a line on disk reads back; events are counted that
    hold no number JSON might not read back. *)
Theorem every_event_accounted kept Encode Decode o opened ops w :
  json_lines kept Encode Decode ->
  run Encode Decode ops (NewWriter o opened) = Some w ->
  (forall f, cnt kept f (flat_map given_by ops) <= cnt kept f (everywhere Decode w)) /\
  w_droppedTotal w = Z.of_nat (length (w_lost w)) /\
  (w_droppedTotal w <= counted (gaps (w_stream w) ++ [w_gap w]))%Z /\
  forall p, p ∈ w_lost w -> p_seq p <> 0%Z -> Exists (covered_by p) (gaps (w_stream w) ++ [w_gap w]).
Proof.
  intros Hd Hr. apply (run_accounted kept Encode Decode Hd ops [] _ _ (new_accounted kept Decode o opened)) in Hr as [Hg [A1 A2 A3 A4]].
  split_and!; done.
Qed.

(** ** Delivering ends *)

Section termination.
Context (Encode : spoolEntry -> result string string) (Decode : string -> option spoolEntry).

Lemma lose_spool ps w : w_spool (lose ps w) = w_spool w.
Proof. unfold lose. by destruct (_ =? _)%Z. Qed.

Lemma replay_spool fuel wd i s w : w_spool w <> None -> w_spool (replay Decode fuel wd i s w).2 <> None.
Proof.
  revert i s w; induction fuel as [|fuel IH]; intros i s w H; [done|]. cbn [replay].
  destruct (Oldest _ _ _) as [[[[name es]|]|e] s1]; [|done..].
  assert (Ha : w_spool (match es with [] => (Ok (), w) | _ => append (wd_replay wd i) (map (fun e => Recorded (se_Event e) (Some (se_At e))) es) w end : result string unit * writer).2 <> None).
  { destruct es; [done|]. by destruct (append_front (wd_replay wd i) (map (fun e => Recorded (se_Event e) (Some (se_At e))) (s0 :: es)) w) as (_ & -> & _). }
  destruct (match es with [] => _ | _ => _ end) as [[u|e] w1]; [|done].
  destruct (Remove _ _ _) as [[u2|e] s2]; [by apply IH|done].
Qed.

Lemma hold_spool wd batch cause s w : w_spool w <> None -> w_spool (hold Encode wd batch cause s w).2 <> None.
Proof.
  intros H. unfold hold. destruct batch; [done|]. destruct (Write _ _ _ _) as [[u|e] s1]; [done|]. cbn [snd]. by rewrite lose_spool.
Qed.

Lemma write_spool wd batch w : w_spool w <> None -> w_spool (write Encode Decode wd batch w).2 <> None.
Proof.
  intros H. unfold write. destruct (w_spool w) as [s|] eqn:Es; [|done].
  assert (Hr : w_spool (if Empty s then (Ok (), w) else replay Decode (length (sp_segments s)) wd 0 s w).2 <> None)
    by (destruct (Empty s); [cbn; by rewrite Es|apply replay_spool; by rewrite Es]).
  destruct (if Empty s then _ else _) as [[u|e] w1]; cbn [snd] in Hr; [|by apply hold_spool].
  destruct batch as [|p batch]; [done|]. destruct (append_front (wd_append wd) (recorded (p :: batch)) w1) as (_ & S & _).
  destruct (append _ _ w1) as [[u2|e] w2]; cbn [snd] in S; [cbn; by rewrite S|]. apply hold_spool. by rewrite S.
Qed.

(** A batch that a writer without a spool has. *)
Lemma write_append wd batch w : w_spool w = None -> batch <> [] ->
  write Encode Decode wd batch w = append (wd_append wd) (recorded batch) w.
Proof. intros Hs Hb. unfold write. rewrite Hs. by destruct batch. Qed.

Lemma deliver_ends attempts k batch w :
  w_spool w = None -> batch <> [] ->
  (exists i wd stopping, attempts !! i = Some (wd, stopping) /\ (wd_append wd = Commits \/ mayRetry (w_opts w) stopping (k + i) = false)) ->
  deliver Encode Decode attempts k batch w <> None.
Proof.
  revert k w; induction attempts as [|[wd stopping] attempts IH]; intros k w Hs Hb (i & wd' & st & Hi & Hend); [done|].
  cbn [deliver]. rewrite write_append by done.
  destruct (append_front (wd_append wd) (recorded batch) w) as (F & S & _).
  destruct (append _ _ w) as [[u|e] w1] eqn:Ea; cbn [snd] in *; [done|].
  rewrite S, Hs, bool_decide_eq_true_2, bool_decide_eq_false_2 by done. cbn [negb orb].
  assert (Ho : w_opts w1 = w_opts w) by (unfold front in F; by injection F). rewrite Ho.
  destruct (mayRetry (w_opts w) stopping k) eqn:Em; [|done]. cbn [negb]. apply IH; [congruence|done|]. rewrite Ho.
  destruct i as [|i]; cbn in Hi.
  - injection Hi as -> ->. rewrite Nat.add_0_r in Hend. destruct Hend as [Hc|Hc]; [|congruence].
    unfold append, takeGap in Ea. rewrite Hc in Ea. by injection Ea.
  - exists i, wd', st. split; [done|]. by rewrite Nat.add_succ_l, <-Nat.add_succ_r.
Qed.
End termination.

(** Delivering a batch ends: at once with a spool or nothing to write;
    outside block mode after at most [retryAttempts] attempts, or two if that
    is one; and in every
    mode at the first attempt the database takes, or at the second or a later
    one that finds the writer stopping, so a database that has gone does not
    hold up [Close]. *)
Theorem deliver_decides Encode Decode attempts batch w :
  attempts <> [] ->
  (w_spool w <> None \/ batch = [] \/
   (OnUnavailable (w_opts w) <> UnavailableBlock /\ Nat.max 2 (retryAttempts (w_opts w)) <= length attempts) \/
   (exists i wd stopping, attempts !! i = Some (wd, stopping) /\ (wd_append wd = Commits \/ 1 <= i /\ stopping = true))) ->
  exists r w', deliver Encode Decode attempts 1 batch w = Some (r, w').
Proof.
  intros Hne H. enough (deliver Encode Decode attempts 1 batch w <> None) as Hd.
  { destruct (deliver _ _ _ _ _ _) as [[r w']|]; [eauto|done]. }
  destruct (decide (w_spool w = None)) as [Hs|Hs].
  2: { destruct attempts as [|[wd st] attempts]; [done|]. cbn [deliver]. pose proof (write_spool Encode Decode wd batch w Hs) as Hw.
       destruct (write _ _ _ _ _) as [[u|e] w1]; [done|]. cbn [snd] in Hw. by rewrite bool_decide_eq_false_2. }
  destruct (decide (batch = [])) as [->|Hb].
  { destruct attempts as [|[wd st] attempts]; [done|]. cbn [deliver]. unfold write. by rewrite Hs. }
  apply deliver_ends; [done|done|]. destruct H as [?|[?|[[Hm Hl]|(i & wd & st & Hi & He)]]]; [done|done| |].
  - destruct (lookup_lt_is_Some_2 attempts (length attempts - 1)) as [[wd st] Hi].
    { destruct attempts; [done|cbn; lia]. }
    exists (length attempts - 1), wd, st. split; [done|right].
    unfold mayRetry. replace (1 + (length attempts - 1)) with (length attempts) by lia. destruct st; [apply Nat.ltb_ge; lia|].
    rewrite (proj2 (String.eqb_neq _ _) Hm). apply Nat.ltb_ge. lia.
  - exists i, wd, st. split; [done|]. destruct He as [He|[Hi' ->]]; [by left|right]. unfold mayRetry. apply Nat.ltb_ge. lia.
Qed.

(** A back-off is half to all of a base that doubles with each attempt
    and never passes the cap, whatever base is set and even where the shift
    overflows; with the defaults a batch is given up after at most 7.75
    seconds of back-off. *)
Theorem backoff_bounded base attempt jitter :
  (0 < base <= max_int64)%Z -> 1 <= attempt -> (0 <= jitter <= Z.quot (backoff_base base attempt) 2)%Z ->
  (0 <= Z.quot (backoff_base base attempt) 2 <= backoff base attempt jitter)%Z /\
  (backoff base attempt jitter <= backoff_base base attempt <= retryCap)%Z /\
  ((base * 2 ^ (Z.of_nat attempt - 1) <= retryCap)%Z -> attempt <= 17 -> backoff_base base attempt = (base * 2 ^ (Z.of_nat attempt - 1))%Z) /\
  (foldr (fun k n => backoff_base defaultRetryBase k + n) 0 (seq 1 (defaultRetryAttempts - 1)) = 7750 * Millisecond)%Z.
Proof.
  intros Hb Ha Hj. assert (Hd : (0 < backoff_base base attempt <= retryCap)%Z).
  { unfold backoff_base. destruct (Z.leb_spec (wrap64 (Z.shiftl base (Z.min (Z.of_nat attempt - 1) 16))) 0); [by compute|].
    destruct (Z.ltb_spec retryCap (wrap64 (Z.shiftl base (Z.min (Z.of_nat attempt - 1) 16)))); cbn [orb]; [by compute|lia]. }
  split_and!; [apply Z.quot_pos; lia|unfold backoff; lia| |lia| |].
  3: reflexivity.
  - unfold backoff. rewrite (Z.quot_div_nonneg _ 2) in * by lia. pose proof (Z.mul_div_le (backoff_base base attempt) 2 ltac:(lia)). lia.
  - intros Hc Hk. unfold backoff_base. rewrite Z.min_l, Z.shiftl_mul_pow2 by lia.
    assert (0 < base * 2 ^ (Z.of_nat attempt - 1))%Z by (apply Z.mul_pos_pos; [lia|apply Z.pow_pos_nonneg; lia]).
    assert (E : wrap64 (base * 2 ^ (Z.of_nat attempt - 1)) = (base * 2 ^ (Z.of_nat attempt - 1))%Z).
    { unfold wrap64. rewrite Z.mod_small; [lia|]. change retryCap with 5000000000%Z in Hc. lia. }
    rewrite E, (proj2 (Z.leb_gt _ _)), (proj2 (Z.ltb_ge _ _)) by lia. done.
Qed.

(** ** The order of the stream *)

Section order.
Context (Encode : spoolEntry -> result string string) (Decode : string -> option spoolEntry).

Definition told (a : world * bool) : Prop := forall e, wd_append a.1 <> CommitsUnheard e.

Definition heard (o : op) : Prop :=
  match o with DoRead attempts | DoTick attempts => Forall told attempts | _ => True end.

(** What was written and what still waits, in that order. *)
Definition line (w : writer) : list AuditEvent :=
  in_stream (w_stream w) ++ map p_event (w_batch w) ++ queued (w_queue w) ++ map p_event (w_senders w).

Record unspooled (w : writer) : Prop := {
  us_spool : w_spool w = None;
  us_overflow : w_overflow w = [];
  us_gap : (0 <= g_count (w_gap w))%Z;
  us_full : w_senders w = [] \/ Buffer (w_opts w) <= length (w_queue w);
}.

Lemma lose_gap ps w : (0 <= g_count (w_gap w))%Z -> (0 <= g_count (w_gap (lose ps w)))%Z.
Proof. intros H. unfold lose. rewrite gap_of_count. destruct (_ =? _)%Z; [done|]. cbn [w_gap]. rewrite gap_add_count, gap_of_count. lia. Qed.

Lemma lose_rest ps w : front (lose ps w) = front w /\ w_stream (lose ps w) = w_stream w.
Proof. unfold lose. by destruct (_ =? _)%Z. Qed.

Lemma unspooled_lose ps w : unspooled w -> unspooled (lose ps w).
Proof.
  intros [U1 U2 U3 U4]. destruct (lose_rest ps w) as [F _]. unfold front in F. injection F as F1 F2 F3 F4.
  split; [by rewrite lose_spool|congruence|by apply lose_gap|by rewrite F1, F2, F3].
Qed.

Lemma deliver_order attempts k batch w r w' : unspooled w -> Forall told attempts -> batch <> [] ->
  deliver Encode Decode attempts k batch w = Some (r, w') ->
  unspooled w' /\ front w' = front w /\
  (in_stream (w_stream w') = in_stream (w_stream w) \/ in_stream (w_stream w') = in_stream (w_stream w) ++ map p_event batch).
Proof.
  revert k w; induction attempts as [|[wd st] attempts IH]; intros k w U Ht Hb H; [done|]. apply Forall_cons in Ht as [Ht1 Ht].
  cbn [deliver] in H. rewrite write_append in H by (done || apply U). pose proof (us_gap _ U) as Hg.
  destruct (append_front (wd_append wd) (recorded batch) w) as (F & S & _).
  rewrite append_eq in H, F, S by done.
  assert (Hrec : in_stream (gap_record (w_gap w)) = []) by (unfold gap_record; by destruct (0 <? _)%Z).
  destruct (wd_append wd) as [|x|x] eqn:Ew; [| |by destruct (Ht1 x)].
  - injection H as <- <-. split; [destruct U; by split|]. split; [done|]. right. cbn [w_stream set_stream].
    by rewrite !in_stream_app, Hrec, in_stream_recorded.
  - cbv zeta in *. set (w1 := set_gap w _) in *. cbn [snd] in F, S. cbv beta iota in H.
    assert (U1 : unspooled w1) by (destruct U; split; [done|done|cbn; by destruct (0 <? _)%Z|done]).
    rewrite bool_decide_eq_true_2, bool_decide_eq_false_2 in H by (done || apply U1). cbn [negb orb] in H.
    destruct (mayRetry _ _ _); cbn [negb] in H.
    + apply IH in H as (U' & F' & Hs); [|done..]. split; [done|]. split; [congruence|done].
    + injection H as <- <-. destruct (lose_rest batch w1) as [F1 S1]. split; [by apply unspooled_lose|]. split; [congruence|]. left. by rewrite S1.
Qed.

Lemma flush_order given attempts w w' : unspooled w -> Forall told attempts -> line w `sublist_of` given ->
  flush Encode Decode attempts w = Some w' -> unspooled w' /\ line w' `sublist_of` given.
Proof.
  intros U Ht Hl H. unfold flush, takeOverflow in H. rewrite (us_overflow _ U), app_nil_r in H.
  cbn [set_overflow set_batch w_batch w_spool] in H. rewrite (us_spool _ U), orb_false_r in H.
  set (w1 := set_batch _ _) in H. assert (U1 : unspooled w1) by (destruct U; by split).
  destruct (Nat.ltb_spec 0 (length (w_batch w))) as [Hb|Hb].
  - destruct (deliver _ _ _ _ _ _) as [[r w2]|] eqn:Ed; [|done]. injection H as <-.
    apply deliver_order in Ed as (U2 & F & Hs); [|done|done|by destruct (w_batch w); [cbn in Hb; lia|]].
    apply front_eq in F as (F1 & F2 & F3 & F4). split; [destruct U2; by split|].
    etrans; [|exact Hl]. unfold line. cbn [set_batch w_stream w_batch w_queue w_senders map]. rewrite F1, F2. cbn [w1 set_batch set_overflow w_queue w_senders].
    destruct Hs as [->| ->]; cbn [w1 set_batch set_overflow w_stream].
    + apply sublist_app; [done|]. cbn. by apply sublist_inserts_l.
    + by rewrite <-app_assoc.
  - injection H as <-. split; [destruct U1; by split|]. etrans; [|exact Hl]. unfold line. cbn [set_batch w1 set_overflow w_stream w_batch w_queue w_senders map].
    apply sublist_app; [done|]. cbn. by apply sublist_inserts_l.
Qed.

Lemma refill_line q w : line (refill q w) = in_stream (w_stream w) ++ map p_event (w_batch w) ++ queued q ++ map p_event (w_senders w).
Proof.
  unfold refill, line. destruct (w_senders w) as [|p l] eqn:E; [by cbn [set_queue w_stream w_batch w_queue w_senders]|]. cbn [set_queue w_stream w_batch w_queue w_senders].
  rewrite queued_app, <-app_assoc. done.
Qed.

Lemma refill_unspooled i q w : unspooled w -> w_queue w = i :: q -> unspooled (refill q w).
Proof.
  intros [U1 U2 U3 U4] Hq. unfold refill. destruct (w_senders w) as [|p l]; split; try done; [by left|right].
  rewrite Hq in U4. destruct U4 as [?|U4]; [done|]. cbn [set_queue w_queue w_opts]. rewrite length_app. cbn in *. lia.
Qed.

Lemma exec_order given o w w' : unspooled w -> heard o -> line w `sublist_of` given -> exec Encode Decode o w = Some w' ->
  unspooled w' /\ line w' `sublist_of` given ++ given_by o.
Proof.
  intros U Hh Hl He. destruct o as [e now|i| |attempts|attempts|]; cbn [exec given_by heard] in *; rewrite ?app_nil_r.
  - destruct (w_stopping w); [done|]. injection He as <-. unfold Emit_event. set (w1 := set_accepted w _). set (p := mkPending e _ now).
    assert (U1 : unspooled w1) by (destruct U; by split).
    assert (Hend : forall x y z u, x ++ y ++ z ++ u `sublist_of` given -> x ++ y ++ z ++ u ++ [e] `sublist_of` given ++ [e]).
    { intros x y z u H. rewrite !app_assoc in *. by apply sublist_app. }
    assert (Hlost : line (lose [p] w1) `sublist_of` given ++ [e]).
    { destruct (lose_rest [p] w1) as [F S]. apply front_eq in F as (F1 & F2 & F3 & F4). unfold line. rewrite F1, F2, F4, S. by apply sublist_inserts_r. }
    assert (Hlast : w_senders w = [] -> line (set_queue w1 (w_queue w1 ++ [Queued p]) (w_senders w1)) `sublist_of` given ++ [e]).
    { intros Hn. unfold line in Hl |- *. cbn [set_queue w_stream w_batch w_queue w_senders set_accepted w1].
      rewrite Hn in Hl |- *. cbn [map]. rewrite queued_app, app_nil_r. exact (Hend _ _ _ [] Hl). }
    destruct (Nat.ltb_spec (length (w_queue w1)) (Buffer (w_opts w1))) as [Hroom|Hfull].
    + assert (Hn : w_senders w = []) by (destruct (us_full _ U) as [?|Hf]; [done|]; cbn in Hroom; lia).
      split; [|by apply Hlast]. destruct U1; split; try done. by left.
    + destruct (String.eqb _ UnavailableBlock).
      * split; [destruct U1; split; try done; by right|]. unfold line in *.
        cbn [set_queue w_stream w_batch w_queue w_senders set_accepted w1]. rewrite map_app. by apply Hend.
      * destruct (String.eqb _ UnavailableSpool); [|by split; [apply unspooled_lose|]].
        unfold park. rewrite (us_spool _ U1). by split; [apply unspooled_lose|].
  - unfold leave_queue in He. destruct (w_senders w !! i) as [p|] eqn:Ei; [|done]. injection He as <-.
    set (w1 := set_queue w (w_queue w) (delete i (w_senders w))).
    assert (U1 : unspooled w1).
    { destruct U as [U1 U2 U3 U4]. split; try done. destruct U4 as [U4|U4]; [left|by right]. cbn. by rewrite U4. }
    split; [by apply unspooled_lose|]. destruct (lose_rest [p] w1) as [F S]. apply front_eq in F as (F1 & F2 & F3 & F4).
    etrans; [|exact Hl]. unfold line. rewrite F1, F2, F4, S. repeat apply sublist_app; try done.
    cbn [w1 set_queue w_senders]. change (map p_event ?l) with (p_event <$> l). apply fmap_sublist, sublist_delete.
  - destruct (_ || _) eqn:Ef; [done|]. injection He as <-. bool_prop. split.
    + destruct U as [U1 U2 U3 U4]. split; try done. destruct U4 as [U4|U4]; [by left|lia].
    + unfold line in *. cbn [set_queue w_stream w_batch w_queue w_senders]. rewrite queued_app. by rewrite app_nil_r.
  - destruct (w_running w); [|done]. unfold read_step in He. destruct (w_queue w) as [|it q] eqn:Hq.
    + destruct (w_stopping w); [|done]. destruct (flush _ _ _ _) as [w1|] eqn:Ef; [|done]. injection He as <-.
      eapply flush_order in Ef as [U1 L1]; [|done..]. split; [destruct U1; by split|done].
    + pose proof (refill_unspooled it q w U Hq) as U1. pose proof (refill_line q w) as L1.
      unfold line at 1 in Hl. rewrite Hq in Hl. destruct it as [p|].
      * set (w1 := set_batch (refill q w) (w_batch (refill q w) ++ [p])) in He.
        assert (U2 : unspooled w1) by (destruct U1; by split).
        assert (L2 : line w1 `sublist_of` given).
        { etrans; [|exact Hl]. unfold line in L1 |- *. cbn [w1 set_batch w_stream w_batch w_queue w_senders].
          assert (Es : w_stream (refill q w) = w_stream w /\ w_batch (refill q w) = w_batch w) by (unfold refill; by destruct (w_senders w)).
          destruct Es as [E1 E2]. rewrite E1, E2 in L1 |- *. apply app_inv_head, app_inv_head in L1. rewrite L1, map_app, <-app_assoc. done. }
        destruct (_ <=? _); [by eapply flush_order in He|]. injection He as <-. done.
      * eapply flush_order in He; [exact He|done|done|]. by rewrite L1.
  - destruct (w_running w); [|done]. by eapply flush_order in He.
  - destruct (_ || _) eqn:Ef; [done|]. injection He as <-. split; [destruct U; by split|done].
Qed.
End order.

(** A writer without a spool, whose database never commits unheard,
    writes events in the order they were given to it: the stream, then what
    is batched, queued and waiting to be queued, is what was emitted, in
    order, less what was lost. *)
Theorem stream_in_order Encode Decode o ops w :
  Forall heard ops -> run Encode Decode ops (NewWriter o None) = Some w ->
  line w `sublist_of` flat_map given_by ops.
Proof.
  assert (H : forall given w0, unspooled w0 -> Forall heard ops -> line w0 `sublist_of` given ->
                run Encode Decode ops w0 = Some w -> line w `sublist_of` given ++ flat_map given_by ops).
  { induction ops as [|x ops IH]; intros given w0 U Hh Hl Hr; cbn in *.
    - injection Hr as <-. by rewrite app_nil_r.
    - apply Forall_cons in Hh as [Hx Hh]. destruct (exec _ _ x w0) as [w1|] eqn:He; [|done].
      eapply exec_order in He as [U1 L1]; [|done..]. rewrite app_assoc. by eapply IH. }
  intros Hh Hr. apply (H [] (NewWriter o None)); [|done|constructor|done].
  split; cbn; try done; [by destruct (String.eqb _ _)|by left].
Qed.

(** ** Behind the backlog *)

Section backlog.
Context (Encode : spoolEntry -> result string string) (Decode : string -> option spoolEntry).

Lemma append_ok ans events w w' : (0 <= g_count (w_gap w))%Z -> append ans events w = (Ok (), w') ->
  in_stream (w_stream w') = in_stream (w_stream w) ++ in_stream events /\ (0 <= g_count (w_gap w'))%Z /\ w_spool w' = w_spool w.
Proof.
  intros Hg. rewrite append_eq by done. destruct ans; try done. intros [= <-]. cbn [w_stream set_stream set_gap w_gap w_spool].
  rewrite !in_stream_app. unfold gap_record. by destruct (0 <? _)%Z.
Qed.

Lemma Oldest_head io s g l lines : sp_segments s = g :: l -> sg_file g = Some lines ->
  match Oldest Decode io s with
  | (Ok (Some (name, es)), s') => s' = s /\ name = sg_name g /\ waiting Decode s = es ++ flat_map (fun g => match sg_file g with Some lines => decoded Decode lines | None => [] end) l
  | (Ok None, _) => False
  | (Err _, s') => s' = s
  end.
Proof.
  intros Hs Hg. pose proof (Oldest_waiting Decode io s) as H. unfold Oldest in *. rewrite Hs, Hg in *.
  destruct io; [|done]. destruct (read_lines Decode lines) as [es|e] eqn:Er; [|done]. split_and!; [done..|].
  destruct (H _ _ eq_refl) as [_ Hw]. destruct (Hw Done) as [Hw'|Hw'].
  - rewrite Hw' at 1. unfold waiting, Remove, forget. cbn [snd with_segments sp_segments]. rewrite Hs. cbn [drop_name]. by rewrite String.eqb_refl.
  - exfalso. apply (f_equal (fun s => length (sp_segments s))) in Hw'. unfold Remove, forget in Hw'. cbn [snd with_segments sp_segments] in Hw'.
    rewrite Hs in Hw'. cbn [drop_name] in Hw'. rewrite String.eqb_refl in Hw'. cbn in Hw'. lia.
Qed.

Lemma replay_order fuel wd i s w w' : length (sp_segments s) = fuel -> Forall (fun g => sg_file g <> None) (sp_segments s) ->
  w_spool w = Some s -> (0 <= g_count (w_gap w))%Z -> replay Decode fuel wd i s w = (Ok (), w') ->
  in_stream (w_stream w') = in_stream (w_stream w) ++ map se_Event (waiting Decode s) /\ (0 <= g_count (w_gap w'))%Z /\
  exists s', w_spool w' = Some s' /\ sp_segments s' = [].
Proof.
  revert i s w; induction fuel as [|fuel IH]; intros i s w Hf Hfiles Hsp Hg H.
  { apply length_zero_iff_nil in Hf. cbn in H. injection H as <-. unfold waiting. rewrite Hf, app_nil_r. eauto. }
  destruct (sp_segments s) as [|g l] eqn:Hs; [done|]. apply Forall_cons in Hfiles as [Hfile Hfiles].
  destruct (sg_file g) as [lines|] eqn:Eg; [|done]. cbn [replay] in H. pose proof (Oldest_head (wd_open wd i) s g l lines Hs Eg) as Ho.
  destruct (Oldest _ _ _) as [[[[name es]|]|e] s1]; [|done|done]. destruct Ho as (-> & -> & Hw).
  assert (Ha : exists w1, match es with [] => (Ok (), w) | _ => append (wd_replay wd i) (map (fun e => Recorded (se_Event e) (Some (se_At e))) es) w end = (Ok (), w1) /\
            in_stream (w_stream w1) = in_stream (w_stream w) ++ map se_Event es /\ (0 <= g_count (w_gap w1))%Z).
  { destruct es as [|e es]; [exists w; by rewrite app_nil_r|].
    destruct (append _ _ _) as [[[]|x] w1] eqn:Ea; [|done]. apply append_ok in Ea as (E1 & E2 & _); [|done].
    exists w1. by rewrite E1, in_stream_spooled. }
  destruct Ha as (w1 & Ea & Hst & Hg1). rewrite Ea in H.
  unfold Remove in H. destruct (wd_remove wd i); [|done]. set (s2 := forget _ _ _) in H.
  assert (Hs2 : sp_segments s2 = l) by (unfold s2, forget; cbn [with_segments sp_segments]; rewrite Hs; cbn [drop_name]; by rewrite String.eqb_refl).
  apply IH in H as (E & Hg' & s' & Hs'); [|by rewrite Hs2; injection Hf|by rewrite Hs2|done|done].
  split; [|eauto]. rewrite E. cbn [set_spool w_stream]. rewrite Hst, Hw, map_app, <-app_assoc. unfold waiting. by rewrite Hs2.
Qed.
End backlog.

(** With a spool whose files are there, a batch that is appended comes
    behind everything that waited on disk, in the order it waited, and leaves
    the spool empty. *)
Theorem backlog_goes_first Encode Decode wd batch s w w' :
  w_spool w = Some s -> Forall (fun g => sg_file g <> None) (sp_segments s) -> (0 <= g_count (w_gap w))%Z -> batch <> [] ->
  write Encode Decode wd batch w = (Ok (), w') ->
  in_stream (w_stream w') = in_stream (w_stream w) ++ map se_Event (waiting Decode s) ++ map p_event batch /\
  exists s', w_spool w' = Some s' /\ Empty s' = true.
Proof.
  intros Hs Hfiles Hg Hb H. unfold write in H. rewrite Hs in H.
  destruct (if Empty s then (Ok (), w) else replay Decode (length (sp_segments s)) wd 0 s w) as [r w1] eqn:Er.
  assert (Hhold : forall e s0 w0, hold Encode wd batch e s0 w0 <> (Ok (), w')).
  { intros e s0 w0. unfold hold. destruct batch; [done|]. by destruct (Write _ _ _ _) as [[]]. }
  destruct r as [[]|e]; [|by apply Hhold in H].
  assert (Hr : in_stream (w_stream w1) = in_stream (w_stream w) ++ map se_Event (waiting Decode s) /\ (0 <= g_count (w_gap w1))%Z /\
                exists s', w_spool w1 = Some s' /\ sp_segments s' = []).
  { destruct (Empty s) eqn:Ee; [|by eapply replay_order]. injection Er as <-. unfold Empty in Ee. destruct (sp_segments s) eqn:El; [|done].
    unfold waiting. rewrite El, app_nil_r. eauto. }
  destruct Hr as (E1 & Hg1 & s' & Hs' & Hn). destruct batch as [|p batch]; [done|].
  destruct (append (wd_append wd) (recorded (p :: batch)) w1) as [[[]|e] w2] eqn:Ea; [|by apply Hhold in H]. injection H as <-.
  apply append_ok in Ea as (E2 & _ & S2); [|done]. rewrite E2, E1, in_stream_recorded, <-app_assoc. split; [done|].
  exists s'. rewrite S2. split; [done|]. unfold Empty. by rewrite Hn.
Qed.

(** A segment with a line longer than the reader's bound is never replayed:
    whatever the database answers, no attempt writes anything to the stream,
    and the segment stays the oldest. *)
Theorem long_line_blocks_the_spool Encode Decode wd batch s g l lines w :
  w_spool w = Some s -> sp_segments s = g :: l -> sg_file g = Some lines ->
  existsb (fun l => spoolLineMax <? Z.of_nat (String.length l) + 1)%Z lines = true ->
  exists e w' s' l', write Encode Decode wd batch w = (Err e, w') /\ w_stream w' = w_stream w /\
    w_spool w' = Some s' /\ sp_segments s' = g :: l'.
Proof.
  intros Hs Hl Hg Hlong. unfold write. rewrite Hs. unfold Empty. rewrite Hl. cbn [length replay].
  destruct (Oldest_stuck Decode g l lines s (wd_open wd 0) Hl Hg Hlong) as [e ->]. cbn [set_spool w_spool default id].
  unfold hold. destruct batch as [|p batch]; [by eexists _, _, s, l|].
  set (es := map _ (p :: batch)).
  assert (Hw : exists k, sp_segments (Write Encode (wd_write wd) es s).2 = g :: k).
  { assert (Hloop : forall fuel i es s, (exists k, sp_segments s = g :: k) -> exists k, sp_segments (write_loop Encode fuel (wd_write wd) i es s).2 = g :: k).
    { induction fuel as [|fuel IH]; intros i es0 s0 Hk; [done|]. destruct es0 as [|x es0]; [done|]. cbn [write_loop].
      assert (H1 : exists k, sp_segments (writeSegment Encode (wd_write wd i).1 (wd_write wd i).2 (take spoolSegmentMax (x :: es0)) s0).2 = g :: k).
      { unfold writeSegment. destruct Hk as [k Hk]. destruct (encode_all _ _); [|by exists k]. destruct (_ <? _)%Z; [by exists k|].
        destruct (wd_write wd i).2; cbn [snd with_segments sp_segments]; [|by exists k]. rewrite Hk. by eexists (_ ++ _). }
      destruct (writeSegment _ _ _ _ _) as [[u|x'] s1]; [by apply IH|done]. }
    apply Hloop. by exists l. }
  destruct (Write _ _ es s) as [[u|x] s1]; destruct Hw as [k Hk]; cbn [snd] in Hk.
  - by eexists _, _, s1, k.
  - eexists _, _, s1, k. split; [reflexivity|]. destruct (lose_rest (p :: batch) (set_spool (set_spool w s) s1)) as [_ ->].
    rewrite lose_spool. done.
Qed.

(** ** Writers at work *)

Definition answering (a : db_answer) : world :=
  mkWorld (fun _ => Done) (fun _ => a) (fun _ => Done) a (fun i => (Z.of_nat i, Done)).

Definition named (action : string) : AuditEvent := mkAuditEvent "" "" action "" "" "" "" "" "" "" "" "" "" "" "" None None None.

(** Lines that hold the time and the text fields, as bits. *)
Fixpoint bits_of (p : positive) : string :=
  match p with xH => "1" | xO p => String "0" (bits_of p) | xI p => String "1" (bits_of p) end.

Fixpoint of_bits (s : string) : option positive :=
  match s with
  | "1" => Some xH
  | String "0" s => xO <$> of_bits s
  | String "1" s => xI <$> of_bits s
  | _ => None
  end.

Lemma of_bits_of p : of_bits (bits_of p) = Some p.
Proof.
  induction p as [p IH|p IH|]; [| |done]; cbn; [|by rewrite IH]. assert (bits_of p <> "") as N by by destruct p.
  destruct (bits_of p) eqn:E; [done|]. by rewrite IH.
Qed.

Definition event_of (l : list string) : option AuditEvent :=
  match l with
  | [a; b; c; d; e; f; g; h; i; j; k; l; m; n; o] => Some (mkAuditEvent a b c d e f g h i j k l m n o None None None)
  | _ => None
  end.

Definition encode_text (e : spoolEntry) : result string string :=
  if plain (se_Event e) then Ok (bits_of (countable.encode (se_At e, fields (se_Event e)))) else Err "unsupported".

Definition decode_text (l : string) : option spoolEntry :=
  p ← of_bits l; x ← (countable.decode p : option (Z * list string)); e ← event_of x.2; Some (mkSpoolEntry x.1 e).

Lemma text_lines : json_lines id encode_text decode_text.
Proof.
  split; [| |done]; intros e l; unfold encode_text; destruct (plain (se_Event e)) eqn:P; try done; intros [= <-].
  - by destruct (countable.encode _).
  - intros _. unfold decode_text. rewrite of_bits_of. cbn [mbind option_bind]. rewrite countable.decode_encode. cbn [mbind option_bind].
    destruct e as [n []]. eexists. split; [reflexivity|]. by split.
Qed.

(** A writer with a spool and a queue of one.  The second event finds the
    queue full and parks; the database refuses the first two, which go to
    disk; when it is back they are replayed ahead of the third. *)
Definition big : Spool := fresh "web-0" 1000000.

Definition keeping : writer := NewWriter (mkOptions 1 "spool" 2 1000 "web-0") (Some big).

Definition with_payload (e : AuditEvent) : AuditEvent :=
  mkAuditEvent (e_OrgID e) (e_Category e) (e_Action e) (e_Outcome e) (e_ActorKind e) (e_ActorID e) (e_ActorDisplay e) (e_OnBehalfOf e)
    (e_TargetKind e) (e_TargetID e) (e_TargetDisplay e) (e_RequestID e) (e_SessionID e) (e_IP e) (e_UserAgent e)
    None (Some (VMap [("input", VInt 7)])) None.

Definition a_refusal : list op :=
  [DoEmit (with_payload (named "a")) 10; DoEmit (named "b") 11; DoRead []; DoTick [(answering (Refuses "down"), false)];
   DoEmit (named "c") 12; DoRead []; DoTick [(answering Commits, false)]].

Definition after_refusal : writer := Eval vm_compute in default keeping (run encode_text decode_text a_refusal keeping).

Lemma a_refusal_runs : run encode_text decode_text a_refusal keeping = Some after_refusal.
Proof. vm_compute. reflexivity. Qed.

Lemma every_event_accounted_witness :
  in_stream (w_stream after_refusal) = [named "a"; named "b"; named "c"] /\
  (forall f, cnt id f (flat_map given_by a_refusal) <= cnt id f (everywhere decode_text after_refusal)) /\
  w_droppedTotal after_refusal = Z.of_nat (length (w_lost after_refusal)) /\
  (w_droppedTotal after_refusal <= counted (gaps (w_stream after_refusal) ++ [w_gap after_refusal]))%Z /\
  forall p, p ∈ w_lost after_refusal -> p_seq p <> 0%Z -> Exists (covered_by p) (gaps (w_stream after_refusal) ++ [w_gap after_refusal]).
Proof.
  split; [reflexivity|].
  apply (every_event_accounted id encode_text decode_text (mkOptions 1 "spool" 2 1000 "web-0") (Some big) a_refusal after_refusal).
  - exact text_lines.
  - exact a_refusal_runs.
Defined.

(** A degrading writer with a queue of one: the second event finds it full,
    and the third is refused until the retries are spent. *)
Definition degrading : writer := NewWriter (mkOptions 1 "" 2 1000 "web-0") None.

Definition an_outage : list op :=
  [DoEmit (named "a") 10; DoEmit (named "b") 11; DoRead []; DoTick [(answering Commits, false)];
   DoEmit (named "c") 12; DoRead []; DoTick [(answering (Refuses "down"), false); (answering (Refuses "down"), false)];
   DoEmit (named "d") 13; DoRead []; DoTick [(answering Commits, false)]].

Definition after_outage : writer := Eval vm_compute in default degrading (run encode_blank decode_blank an_outage degrading).

Lemma an_outage_runs : run encode_blank decode_blank an_outage degrading = Some after_outage.
Proof. reflexivity. Qed.

Example an_outage_loses_two :
  map p_seq (w_lost after_outage) = [2; 3]%Z /\
  w_stream after_outage =
    [GapRecord (mkGap 1 2 2 (Some 11) (Some 11)); Recorded (named "a") None;
     GapRecord (mkGap 1 3 3 (Some 12) (Some 12)); Recorded (named "d") None]%Z.
Proof. split; reflexivity. Qed.

Lemma stream_in_order_witness : line after_outage = [named "a"; named "d"] /\ line after_outage `sublist_of` flat_map given_by an_outage.
Proof.
  split; [reflexivity|]. apply (stream_in_order encode_blank decode_blank (mkOptions 1 "" 2 1000 "web-0") an_outage after_outage).
  - repeat constructor; by intros e.
  - exact an_outage_runs.
Defined.

Definition a_batch : list pending := [mkPending (named "a") 1 10].

Lemma deliver_decides_witness :
  exists r w', deliver encode_blank decode_blank
    [(answering (Refuses "down"), false); (answering (Refuses "down"), false)] 1 a_batch degrading = Some (r, w').
Proof.
  apply (deliver_decides encode_blank decode_blank
    [(answering (Refuses "down"), false); (answering (Refuses "down"), false)] a_batch degrading); [discriminate|].
  right; right; left. split; [discriminate|]. cbn. lia.
Defined.

Lemma backoff_bounded_witness :
  (0 <= Z.quot (backoff_base (100 * Second) 40) 2 <= backoff (100 * Second) 40 7)%Z /\
  (backoff (100 * Second) 40 7 <= backoff_base (100 * Second) 40 <= retryCap)%Z /\
  ((100 * Second * 2 ^ (Z.of_nat 40 - 1) <= retryCap)%Z -> 40 <= 17 -> backoff_base (100 * Second) 40 = (100 * Second * 2 ^ (Z.of_nat 40 - 1))%Z) /\
  (foldr (fun k n => backoff_base defaultRetryBase k + n) 0 (seq 1 (defaultRetryAttempts - 1)) = 7750 * Millisecond)%Z.
Proof. apply (backoff_bounded (100 * Second) 40 7); [by compute|lia|by compute]. Defined.

(** A spooling writer with a segment on disk. *)
Definition spooling (s : Spool) : writer := NewWriter (mkOptions 256 "spool" 0 0 "web-0") (Some s).

Definition after_backlog : writer :=
  Eval vm_compute in (write encode_blank decode_blank (answering Commits) a_batch (spooling one_spool)).2.

Lemma backlog_goes_first_witness :
  w_stream after_backlog = [Recorded blank (Some 1); Recorded blank (Some 2); Recorded (named "a") None]%Z /\
  in_stream (w_stream after_backlog) = map se_Event (waiting decode_blank one_spool) ++ map p_event a_batch /\
  exists s', w_spool after_backlog = Some s' /\ Empty s' = true.
Proof.
  split; [reflexivity|].
  apply (backlog_goes_first encode_blank decode_blank (answering Commits) a_batch one_spool (spooling one_spool) after_backlog).
  - reflexivity.
  - repeat constructor; discriminate.
  - by compute.
  - discriminate.
  - reflexivity.
Defined.

(** When the oldest segment's file is gone, replaying stops as if nothing
    were left, and the batch goes ahead of the segment behind it. *)
Definition vanished : Spool := mkSpool "web-0" 1000 (mkSegment "0" None :: map (own_segment "web-0") one_own) 2 8 6.

Example a_missing_file_lets_the_batch_overtake :
  w_stream (write encode_blank decode_blank (answering Commits) a_batch (spooling vanished)).2 = [Recorded (named "a") None] /\
  option_map (waiting decode_blank) (w_spool (write encode_blank decode_blank (answering Commits) a_batch (spooling vanished)).2) =
    Some (waiting decode_blank one_spool).
Proof. split; reflexivity. Qed.

(** A batch whose second segment does not reach the disk is counted as lost
    whole, although its first two hundred events are there. *)
Definition big_batch : list pending := map (fun i => mkPending blank (Z.of_nat i) (Z.of_nat i)) (seq 1 201).

Definition disk_fails_after_one : world :=
  mkWorld (fun _ => Done) (fun _ => Commits) (fun _ => Done) (Refuses "down") (fun i => (5, match i with O => Done | _ => Fails "disk" end))%Z.

Example a_partly_spooled_batch_counts_as_lost :
  let w := (write encode_blank decode_blank disk_fails_after_one big_batch (spooling small)).2 in
  w_droppedTotal w = 201%Z /\ option_map (fun s => length (waiting decode_blank s)) (w_spool w) = Some 200.
Proof. vm_compute. split; reflexivity. Qed.

(** With the queue full, one more event is parked; the flush that the
    two-hundredth event read from the queue triggers writes the parked event
    ahead of the fifty-six still queued. *)
Definition overflowing : list op :=
  map (fun i => DoEmit blank (Z.of_nat i)) (seq 1 257) ++ repeat (DoRead [(answering Commits, false)]) 200.

Example a_parked_event_overtakes :
  match run encode_blank decode_blank overflowing (spooling (fresh "web-0" 1000)) with
  | Some w => length (w_stream w) = 201 /\ w_overflow w = [] /\
              option_map (fun i => match i with Queued p => p_seq p | Barrier => 0%Z end) (head (w_queue w)) = Some 201%Z
  | None => False
  end.
Proof. vm_compute. repeat split; reflexivity. Qed.
