(* ===== verification/OAuth.v ===== *)
(** * OAuth: the authorization server for MCP clients

    [internal/mcpauth/oauth.go] and [clients.go]: registration of clients,
    authorization requests and consent, the token endpoint with its three
    grants, revocation, introspection and the check a presented access token
    goes through.

    A [db] is the five tables the server reads; a function of it is the
    transactions of the Go function in their order, each one atomic and
    rolled back when it fails.  Where the Go function runs several
    transactions, other requests may commit between them: [other i] is what
    they did to the tables before transaction [i].  Two clocks are read, the
    process's and, inside a statement, the database's; both are arguments.
    Random strings and new ids are arguments too, so a theorem can say which
    of them must be fresh.  The interleavings themselves, as steps, are in
    OAuthFlow.v, and the keyring that signs is in Keyring.v: here it is the
    interface [Signer]. *)
From S2P Require Import Prelude Tables GoStrings Base64 Float64 Values Authz.

Open Scope list_scope.

Definition AccessTokenTTL : Z := Hour.
Definition RefreshTokenTTL : Z := 30 * 24 * Hour.
Definition CodeTTL : Z := 5 * Minute.
Definition AuthSessionTTL : Z := 15 * Minute.
Definition Day : Z := 24 * Hour.

Definition ScopeOfflineAccess : string := "offline_access".

Record Reuse : Type := mkReuse { ru_OrgID : string; ru_UserID : string; ru_ClientID : string; ru_FamilyID : string }.

Record OAuthError : Type := mkOAuthError {
  e_Code : string;
  e_Description : string;
  e_Status : Z;
  e_Reuse : option Reuse;
}.

Definition oauthErr (code description : string) (status : Z) : OAuthError := mkOAuthError code description status None.

(** What a call returns as its error: one for the client, the retry signal
    [errRotationRaced], a refused statement, or the keyring's. *)
Inductive failure : Type :=
  | OAuthErr (e : OAuthError)
  | RotationRaced
  | ErrPostgres (code : string)
  | ErrKeyring (why : string)
  | ErrAccounts (why : string).

Inductive DCRMode : Type := DCROpen | DCRApproval | DCRClosed.

(** ** The interfaces *)

(** A parsed URL, as far as the server reads it. *)
Record URL : Type := mkURL { u_Scheme : string; u_Hostname : string; u_Path : string; u_Fragment : string }.

(** [net/url], [crypto/sha256], [%q] and Postgres's [inet]. *)
Class Web : Type := {
  ParseURL : string -> option URL;
  (** Parse the URL, set the query parameters, encode it again. *)
  SetQuery : string -> list (string * string) -> string;
  Sum256 : string -> string;
  Quoted : string -> string;
  IsInet : string -> bool;
}.

Definition Claims : Type := list (string * value).

(** The keyring at one moment. *)
Record Signer : Type := mkSigner {
  Sign : Claims -> result string string;
  Verify : string -> result string Claims;
}.

(** The service accounts. *)
Record Accounts : Type := mkAccounts {
  AuthenticateServiceAccount : string -> string -> result string (Principal * list string);
  ServiceAccountTokenEpoch : string -> string -> result string (Z * bool);
}.

(** [OAuth]: [ClientsAllow] is the registration limiter's answer, [true] when
    there is none. *)
Record OAuthServer : Type := mkOAuthServer {
  o_Issuer : string;
  o_Mode : DCRMode;
  o_ClientsAllow : string -> bool;
  o_Accounts : option Accounts;
}.

Fixpoint drop_slashes (s : string) : string :=
  match s with String c r => if Ascii.eqb c "/" then drop_slashes r else s | "" => "" end.

Definition TrimRight_slash (s : string) : string := str_rev (drop_slashes (str_rev s)).

Definition NewOAuth (issuer : string) (mode : option DCRMode) : OAuthServer :=
  mkOAuthServer (TrimRight_slash issuer) (default DCRApproval mode) (fun _ => true) None.

(** ** The tables *)

Definition nullif (s : string) : option string := if String.eqb s "" then None else Some s.
Definition deref (s : option string) : string := default "" s.

Record Client : Type := mkClient {
  c_ClientID : string;
  c_ClientSecret : string;
  c_Name : string;
  c_RedirectURIs : list string;
  c_GrantTypes : list string;
  c_AuthMethod : string;
  c_Scope : string;
  c_Status : string;
}.

Record client_row : Type := mkClientRow {
  cr_ID : string;
  cr_Client : Client;
  cr_SecretHash : option string;
  cr_RegistrationIP : option string;
  cr_Decided : option (option string * Z);
}.

(** [oauth_sessions]: authorization requests awaiting consent. *)
Record request_row : Type := mkRequestRow {
  q_ID : string;
  q_ClientID : string;
  q_RedirectURI : string;
  q_State : option string;
  q_Challenge : string;
  q_Method : string;
  q_Scope : string;
  q_Resource : option string;
  q_Expires : Z;
}.

Record code_row : Type := mkCodeRow {
  k_Code : string;
  k_ClientID : string;
  k_UserID : string;
  k_OrgID : string;
  k_ServerID : option string;
  k_RedirectURI : string;
  k_Challenge : string;
  k_Method : string;
  k_Scope : string;
  k_Resource : option string;
  k_Expires : Z;
  k_Consumed : option Z;
  k_SessionID : option string;
  k_AMR : list string;
}.

Record token_row : Type := mkTokenRow {
  t_ID : string;
  t_Hash : string;
  t_Family : string;
  t_ClientID : string;
  t_UserID : string;
  t_OrgID : string;
  t_ServerID : option string;
  t_Scope : string;
  t_Expires : Z;
  t_Consumed : option Z;
  t_Revoked : option Z;
  t_SessionID : option string;
  t_AMR : list string;
}.

(** The columns of a browser session the tokens depend on. *)
Record session_row : Type := mkSessionRow {
  s_ID : string;
  s_UserID : string;
  s_OrgID : string;
  s_PublicID : string;
  s_Absolute : Z;
  s_Idle : Z;
  s_Revoked : option Z;
}.

Record db : Type := mkDB {
  d_clients : list client_row;
  d_requests : list request_row;
  d_codes : list code_row;
  d_tokens : list token_row;
  d_sessions : list session_row;
}.

Definition with_clients (f : list client_row -> list client_row) (d : db) : db :=
  mkDB (f (d_clients d)) (d_requests d) (d_codes d) (d_tokens d) (d_sessions d).
Definition with_requests (f : list request_row -> list request_row) (d : db) : db :=
  mkDB (d_clients d) (f (d_requests d)) (d_codes d) (d_tokens d) (d_sessions d).
Definition with_codes (f : list code_row -> list code_row) (d : db) : db :=
  mkDB (d_clients d) (d_requests d) (f (d_codes d)) (d_tokens d) (d_sessions d).
Definition with_tokens (f : list token_row -> list token_row) (d : db) : db :=
  mkDB (d_clients d) (d_requests d) (d_codes d) (f (d_tokens d)) (d_sessions d).
Definition with_sessions (f : list session_row -> list session_row) (d : db) : db :=
  mkDB (d_clients d) (d_requests d) (d_codes d) (d_tokens d) (f (d_sessions d)).

Definition consume_code (at_ : Z) (c : code_row) : code_row :=
  mkCodeRow (k_Code c) (k_ClientID c) (k_UserID c) (k_OrgID c) (k_ServerID c) (k_RedirectURI c) (k_Challenge c) (k_Method c)
    (k_Scope c) (k_Resource c) (k_Expires c) (Some at_) (k_SessionID c) (k_AMR c).

Definition moved (consumed revoked : option Z) (session : option string) (t : token_row) : token_row :=
  mkTokenRow (t_ID t) (t_Hash t) (t_Family t) (t_ClientID t) (t_UserID t) (t_OrgID t) (t_ServerID t) (t_Scope t) (t_Expires t)
    consumed revoked session (t_AMR t).

Definition consume_token (at_ : Z) (t : token_row) : token_row := moved (Some at_) (t_Revoked t) (t_SessionID t) t.
Definition revoke_token (at_ : Z) (t : token_row) : token_row := moved (t_Consumed t) (Some at_) (t_SessionID t) t.
Definition move_token (sid : string) (t : token_row) : token_row := moved (t_Consumed t) (t_Revoked t) (Some sid) t.

Definition end_session (at_ : Z) (s : session_row) : session_row :=
  mkSessionRow (s_ID s) (s_UserID s) (s_OrgID s) (s_PublicID s) (s_Absolute s) (s_Idle s) (Some at_).

(** Neither spent nor revoked. *)
Definition live (t : token_row) : bool := is_null (t_Consumed t) && is_null (t_Revoked t).

Definition find_session (d : db) (id : string) : option session_row :=
  List.find (fun s => String.eqb (s_ID s) id) (d_sessions d).

(** LEFT JOIN sessions s ON s.id = session_id, for s.public_id. *)
Definition public_of (d : db) (sid : option string) : option string := s ← sid; s_PublicID <$> find_session d s.

(** ** How the sign-in happened *)

Definition registeredAMR : list string :=
  ["face"; "fpt"; "geo"; "hwk"; "iris"; "kba"; "mca"; "mfa"; "otp"; "pin"; "pop"; "pwd"; "rba"; "retina";
   "sc"; "sms"; "swk"; "tel"; "user"; "vbm"; "wia"].

Definition containsString (l : list string) (s : string) : bool := existsb (fun x => String.eqb x s) l.

Definition add_amr (out : list string) (m : string) : list string :=
  if negb (String.eqb m "mfa") && containsString registeredAMR m && negb (containsString out m) then out ++ [m] else out.

Definition AMR (signIn : SignIn) (mfa : bool) : list string :=
  let out := if String.eqb (si_Method signIn) "password" then ["pwd"] else [] in
  let out := foldl add_amr out (si_Methods signIn) in
  if mfa then out ++ ["mfa"] else out.

(** ** Scopes *)

Definition knownScopes : list string := [ScopeToolsRead; ScopeToolsInvoke; ScopeOfflineAccess].

Definition scopeList (scope : string) : list string :=
  match List.filter (containsString knownScopes) (Fields scope) with
  | [] => [ScopeToolsRead; ScopeToolsInvoke]
  | out => out
  end.

Section server.
Context `{W : Web}.

(** ** Client registration *)

Definition redirect_uri_word (raw rest : string) : string := "redirect_uri " +:+ Quoted raw +:+ rest.

Definition validateRedirectURI (raw : string) : result string unit :=
  match ParseURL raw with
  | None => Err (redirect_uri_word raw " is not a URL")
  | Some u =>
      if negb (String.eqb (u_Fragment u) "") || Contains raw "*"
      then Err (redirect_uri_word raw " must not contain a fragment or wildcard")
      else if String.eqb (u_Scheme u) "https" then Ok tt
      else if String.eqb (u_Scheme u) "http" then
        if String.eqb (u_Hostname u) "127.0.0.1" || String.eqb (u_Hostname u) "::1" then Ok tt
        else Err (redirect_uri_word raw " may use http only on 127.0.0.1 or [::1]")
      else if String.eqb (u_Scheme u) "" then Err (redirect_uri_word raw " needs a scheme")
      else if Contains (u_Scheme u) "." then Ok tt
      else Err ("redirect_uri scheme " +:+ Quoted (u_Scheme u) +:+ " is not allowed")
  end.

Fixpoint validate_redirects (l : list string) : result OAuthError unit :=
  match l with
  | [] => Ok tt
  | u :: l => match validateRedirectURI u with
              | Err why => Err (oauthErr "invalid_redirect_uri" why 400)
              | Ok _ => validate_redirects l
              end
  end.

Fixpoint validate_grants (l : list string) : result OAuthError unit :=
  match l with
  | [] => Ok tt
  | g :: l => if String.eqb g "authorization_code" || String.eqb g "refresh_token" then validate_grants l
              else Err (oauthErr "invalid_client_metadata" ("unsupported grant type " +:+ g) 400)
  end.

Definition secret_digest (secret : string) : string := b64 (Sum256 secret).

Definition nullableIP (ip : string) : option string := nullif ip.

(** INSERT INTO oauth_clients: the two unique columns and the address type. *)
Definition insert_client (r : client_row) (d : db) : db * result failure unit :=
  if match cr_RegistrationIP r with Some ip => negb (IsInet ip) | None => false end then (d, Err (ErrPostgres "22P02"))
  else if existsb (fun c => String.eqb (cr_ID c) (cr_ID r)) (d_clients d)
       || existsb (fun c => String.eqb (c_ClientID (cr_Client c)) (c_ClientID (cr_Client r))) (d_clients d)
  then (d, Err (ErrPostgres "23505"))
  else (with_clients (fun l => l ++ [r]) d, Ok tt).

(** [rndID] and [rndSecret] are what [randomString] drew. *)
Definition Register (o : OAuthServer) (inp : Client) (ip id rndID rndSecret : string) (d : db) : db * result failure Client :=
  match o_Mode o with
  | DCRClosed => (d, Err (OAuthErr (oauthErr "access_denied" "dynamic client registration is disabled on this instance" 403)))
  | _ =>
      if negb (o_ClientsAllow o ip)
      then (d, Err (OAuthErr (oauthErr "temporarily_unavailable" "too many registrations from this address" 429)))
      else match c_RedirectURIs inp with
      | [] => (d, Err (OAuthErr (oauthErr "invalid_redirect_uri" "at least one redirect_uri is required" 400)))
      | uris =>
          match validate_redirects uris with
          | Err e => (d, Err (OAuthErr e))
          | Ok _ =>
              let grants := match c_GrantTypes inp with [] => ["authorization_code"; "refresh_token"] | g => g end in
              match validate_grants grants with
              | Err e => (d, Err (OAuthErr e))
              | Ok _ =>
                  let status := match o_Mode o with DCRApproval => "pending" | _ => "approved" end in
                  let confidential := String.eqb (c_AuthMethod inp) "client_secret_basic"
                                   || String.eqb (c_AuthMethod inp) "client_secret_post" in
                  let out := mkClient ("smc_" +:+ rndID) (if confidential then rndSecret else "") (c_Name inp) uris grants
                    (if confidential then c_AuthMethod inp else "none") (c_Scope inp) status in
                  let hash := if confidential then Some (secret_digest rndSecret) else None in
                  match insert_client (mkClientRow id (mkClient (c_ClientID out) "" (c_Name out) uris grants (c_AuthMethod out)
                                                          (c_Scope out) status) hash (nullableIP ip) None) d with
                  | (d, Ok _) => (d, Ok out)
                  | (d, Err e) => (d, Err e)
                  end
              end
          end
      end
  end.

Definition find_client (d : db) (clientID : string) : option client_row :=
  List.find (fun r => String.eqb (c_ClientID (cr_Client r)) clientID) (d_clients d).

Definition LoadClient (d : db) (clientID : string) : result failure (Client * string) :=
  match find_client d clientID with
  | None => Err (OAuthErr (oauthErr "invalid_client" "unknown client" 401))
  | Some r => Ok (cr_Client r, deref (cr_SecretHash r))
  end.

(** [clients.go].  The rows are listed newest first: the table keeps them in
    the order they were inserted. *)
Definition ListClients (status : string) (d : db) : list client_row :=
  List.filter (fun r => String.eqb status "" || String.eqb (c_Status (cr_Client r)) status) (rev (d_clients d)).

Definition set_status (status : string) (c : Client) : Client :=
  mkClient (c_ClientID c) (c_ClientSecret c) (c_Name c) (c_RedirectURIs c) (c_GrantTypes c) (c_AuthMethod c) (c_Scope c) status.

Definition decide_row (status by_ : string) (dbnow : Z) (r : client_row) : client_row :=
  mkClientRow (cr_ID r) (set_status status (cr_Client r)) (cr_SecretHash r) (cr_RegistrationIP r) (Some (nullif by_, dbnow)).

Definition live_of_client (clientID : string) (t : token_row) : bool :=
  String.eqb (t_ClientID t) clientID && is_null (t_Revoked t).

(** [DecideClient]: the client as it was and how many tokens were revoked;
    [None] is [ErrClientNotFound]. *)
Definition DecideClient (dbnow : Z) (clientID : string) (approve : bool) (by_ : string) (d : db) :
    db * option (Client * nat) :=
  match find_client d clientID with
  | None => (d, None)
  | Some before =>
      let d1 := with_clients (update_where (fun r => String.eqb (c_ClientID (cr_Client r)) clientID)
                  (decide_row (if approve then "approved" else "rejected") by_ dbnow)) d in
      if approve then (d1, Some (cr_Client before, 0))
      else (with_tokens (update_where (live_of_client clientID) (revoke_token dbnow)) d1,
            Some (cr_Client before, length (List.filter (live_of_client clientID) (d_tokens d1))))
  end.

(** ** Authorization requests *)

(** [url.Values] and [Get]. *)
Definition Form : Type := list (string * list string).

Definition form_get (f : Form) (k : string) : string :=
  match List.find (fun e => String.eqb e.1 k) f with Some (_, v :: _) => v | _ => "" end.

Record AuthRequest : Type := mkAuthRequest {
  ar_ID : string;
  ar_Client : Client;
  ar_RedirectURI : string;
  ar_State : string;
  ar_Challenge : string;
  ar_Method : string;
  ar_Scope : string;
  ar_Resource : string;
  ar_ServerID : string;
}.

Definition TrimPrefix (s p : string) : string := if HasPrefix s p then str_drop (String.length p) s else s.

Definition serverFromResource (resource : string) : string :=
  if String.eqb resource "" then ""
  else match ParseURL resource with
       | None => ""
       | Some u => let path := TrimPrefix (u_Path u) "/" in
                   if HasPrefix path "mcp/" then str_drop 4 path else ""
       end.

Definition the_only (l : list string) : option string := match l with [x] => Some x | _ => None end.

(** The redirect the request names, or the client's when it has just one. *)
Definition chosen_redirect (client : Client) (asked : string) : string :=
  if String.eqb asked "" then default "" (the_only (c_RedirectURIs client)) else asked.

Definition BeginAuthorization (now : Z) (q : Form) (rndID : string) (d : db) : db * result failure AuthRequest :=
  let refuse c w (s : Z) := (d, Err (OAuthErr (oauthErr c w s))) in
  let clientID := form_get q "client_id" in
  if String.eqb clientID "" then refuse "invalid_request" "client_id is required" 400%Z
  else match LoadClient d clientID with
  | Err e => (d, Err e)
  | Ok (client, _) =>
      if negb (String.eqb (c_Status client) "approved")
      then refuse "unauthorized_client" "this client is awaiting approval by an administrator" 403%Z
      else
        let redirect := chosen_redirect client (form_get q "redirect_uri") in
        if negb (containsString (c_RedirectURIs client) redirect)
        then refuse "invalid_request" "redirect_uri does not match a registered URI" 400%Z
        else if negb (String.eqb (form_get q "response_type") "code")
        then refuse "unsupported_response_type" "only the authorization code flow is supported" 400%Z
        else if String.eqb (form_get q "code_challenge") ""
        then refuse "invalid_request" "code_challenge is required (PKCE)" 400%Z
        else if negb (String.eqb (form_get q "code_challenge_method") "S256")
        then refuse "invalid_request" "code_challenge_method must be S256" 400%Z
        else
          let req := mkAuthRequest rndID client redirect (form_get q "state") (form_get q "code_challenge")
            (form_get q "code_challenge_method") (form_get q "scope") (form_get q "resource")
            (serverFromResource (form_get q "resource")) in
          if existsb (fun r => String.eqb (q_ID r) rndID) (d_requests d) then (d, Err (ErrPostgres "23505"))
          else (with_requests (fun l => l ++ [mkRequestRow rndID clientID redirect (nullif (ar_State req)) (ar_Challenge req)
                  (ar_Method req) (ar_Scope req) (nullif (ar_Resource req)) (now + AuthSessionTTL)%Z]) d, Ok req)
  end.

Definition LoadAuthRequest (dbnow : Z) (id : string) (d : db) : result failure AuthRequest :=
  match List.find (fun r => String.eqb (q_ID r) id && (dbnow <? q_Expires r)%Z) (d_requests d) with
  | None => Err (OAuthErr (oauthErr "invalid_request" "this authorization request has expired; start again from your client" 400))
  | Some r =>
      match LoadClient d (q_ClientID r) with
      | Err e => Err e
      | Ok (client, _) =>
          Ok (mkAuthRequest (q_ID r) client (q_RedirectURI r) (deref (q_State r)) (q_Challenge r) (q_Method r) (q_Scope r)
                (deref (q_Resource r)) (serverFromResource (deref (q_Resource r))))
      end
  end.

Record Consent : Type := mkConsent {
  cs_UserID : string;
  cs_OrgID : string;
  cs_ServerID : string;
  cs_SessionID : string;
  cs_AMR : list string;
}.

Definition redirectWith (base : string) (params : list (string * string)) : string :=
  match ParseURL base with
  | None => base
  | Some _ => SetQuery base (List.filter (fun e => negb (String.eqb e.2 "")) params)
  end.

Definition delete_request (id : string) (d : db) : db := with_requests (delete_where (fun r => String.eqb (q_ID r) id)) d.

Definition Approve (o : OAuthServer) (now : Z) (req : AuthRequest) (c : Consent) (code : string) (d : db) :
    db * result failure string :=
  if existsb (fun k => String.eqb (k_Code k) code) (d_codes d) then (d, Err (ErrPostgres "23505"))
  else
    let row := mkCodeRow code (c_ClientID (ar_Client req)) (cs_UserID c) (cs_OrgID c) (nullif (cs_ServerID c)) (ar_RedirectURI req)
      (ar_Challenge req) (ar_Method req) (ar_Scope req) (nullif (ar_Resource req)) (now + CodeTTL)%Z None
      (nullif (cs_SessionID c)) (cs_AMR c) in
    (delete_request (ar_ID req) (with_codes (fun l => l ++ [row]) d),
     Ok (redirectWith (ar_RedirectURI req) [("code", code); ("state", ar_State req); ("iss", o_Issuer o)])).

Definition Deny (o : OAuthServer) (req : AuthRequest) (d : db) : db * string :=
  (delete_request (ar_ID req) d,
   redirectWith (ar_RedirectURI req) [("error", "access_denied"); ("error_description", "the user declined the request");
     ("state", ar_State req); ("iss", o_Issuer o)]).

(** ** The token endpoint *)

Record Issued : Type := mkIssued {
  is_Grant : string;
  is_OrgID : string;
  is_UserID : string;
  is_Subject : string;
  is_ClientID : string;
  is_ServerID : string;
}.

Record TokenResponse : Type := mkTokenResponse {
  tr_AccessToken : string;
  tr_TokenType : string;
  tr_ExpiresIn : Z;
  tr_RefreshToken : string;
  tr_Scope : string;
  tr_Issued : Issued;
}.

Definition set_grant (g : string) (r : TokenResponse) : TokenResponse :=
  let i := tr_Issued r in
  mkTokenResponse (tr_AccessToken r) (tr_TokenType r) (tr_ExpiresIn r) (tr_RefreshToken r) (tr_Scope r)
    (mkIssued g (is_OrgID i) (is_UserID i) (is_Subject i) (is_ClientID i) (is_ServerID i)).

Record grant : Type := mkGrant {
  g_subject : string;
  g_clientID : string;
  g_userID : string;
  g_orgID : string;
  g_serverID : string;
  g_scope : string;
  g_familyID : string;
  g_consumeID : string;
  g_sessionID : string;
  g_publicSID : string;
  g_amr : list string;
  g_extra : Claims;
}.

Definition claimEpoch : string := "sa_epoch".
Definition claimSID : string := "sid".
Definition claimAMR : string := "amr".

(** What [NewID] and [randomString] give a call: the token's id, the refresh
    token and its row's id. *)
Record draws : Type := mkDraws { dr_jti : string; dr_refresh : string; dr_id : string }.

Definition unix (t : Z) : Z := (t / Second)%Z.

Definition audience (o : OAuthServer) (serverID : string) : string :=
  o_Issuer o +:+ "/mcp" +:+ (if String.eqb serverID "" then "" else "/" +:+ serverID).

Definition set_when (b : bool) (k : string) (v : value) (m : Claims) : Claims := if b then obj_set m k v else m.

Definition issue_claims (o : OAuthServer) (now : Z) (jti : string) (g : grant) : Claims :=
  let base := foldl (fun m e => obj_set m e.1 e.2) []
    [("iss", VStr (o_Issuer o)); ("sub", VStr (g_subject g)); ("aud", VStr (audience o (g_serverID g)));
     ("org", VStr (g_orgID g)); ("client_id", VStr (g_clientID g)); ("scope", VStr (Join (scopeList (g_scope g)) " "));
     ("jti", VStr jti); ("iat", VInt (unix now)); ("exp", VInt (unix (now + AccessTokenTTL)))] in
  let m := set_when (negb (String.eqb (g_serverID g) "")) "mcp_server" (VStr (g_serverID g)) base in
  let m := set_when (negb (String.eqb (g_publicSID g) "")) claimSID (VStr (g_publicSID g)) m in
  let m := set_when (negb (Nat.eqb (length (g_amr g)) 0)) claimAMR (VList (map VStr (g_amr g))) m in
  foldl (fun m e => obj_set m e.1 e.2) m (g_extra g).

(** A person who was granted offline access. *)
Definition with_refresh (g : grant) : bool :=
  negb (String.eqb (g_userID g) "") && containsString (scopeList (g_scope g)) ScopeOfflineAccess.

(** The transaction of [issueToken]; an error rolls it back. *)
Inductive issue_error : Type := SessionEnded | Raced | Refused (code : string).

Definition session_ended_row (d : db) (id : string) : bool :=
  match find_session d id with None => true | Some s => negb (is_null (s_Revoked s)) end.

(** The row the rotation spends, if it is still there to spend. *)
Definition spendable (g : grant) (t : token_row) : bool :=
  String.eqb (t_ID t) (g_consumeID g) && live t && bool_decide (t_SessionID t = nullif (g_sessionID g)).

Definition family_of (g : grant) (id : string) : string := if String.eqb (g_familyID g) "" then id else g_familyID g.

Definition child_of (now : Z) (g : grant) (r : draws) : token_row :=
  mkTokenRow (dr_id r) (Sum256 (dr_refresh r)) (family_of g (dr_id r)) (g_clientID g) (g_userID g) (g_orgID g)
    (nullif (g_serverID g)) (Join (scopeList (g_scope g)) " ") (now + RefreshTokenTTL)%Z None None
    (nullif (g_sessionID g)) (g_amr g).

Definition insert_token (t : token_row) (d : db) : db + issue_error :=
  if existsb (fun x => String.eqb (t_ID x) (t_ID t) || String.eqb (t_Hash x) (t_Hash t)) (d_tokens d)
  then inr (Refused "23505") else inl (with_tokens (fun l => l ++ [t]) d).

Definition issue_tx (now dbnow : Z) (g : grant) (r : draws) (d : db) : db + issue_error :=
  if negb (String.eqb (g_sessionID g) "") && session_ended_row d (g_sessionID g) then inr SessionEnded
  else if negb (String.eqb (g_consumeID g) "") && negb (Nat.eqb (length (List.filter (spendable g) (d_tokens d))) 1) then inr Raced
  else
    let d := if String.eqb (g_consumeID g) "" then d
             else with_tokens (update_where (spendable g) (consume_token dbnow)) d in
    if with_refresh g then insert_token (child_of now g r) d else inl d.

Definition in_family (family : string) (t : token_row) : bool := String.eqb (t_Family t) family && is_null (t_Revoked t).

Definition revokeFamily (dbnow : Z) (family : string) (d : db) : db :=
  with_tokens (update_where (in_family family) (revoke_token dbnow)) d.

Definition session_ended_error : failure :=
  OAuthErr (oauthErr "invalid_grant" "the session that granted this access has ended" 400).

Definition issued_for (g : grant) : Issued := mkIssued "" (g_orgID g) (g_userID g) (g_subject g) (g_clientID g) (g_serverID g).

(** [other] is what other requests did before the transaction, [other'] what
    they did before the family is revoked. *)
Definition issueToken (o : OAuthServer) (k : Signer) (now dbnow : Z) (g : grant) (r : draws) (other other' : db -> db)
    (d : db) : db * result failure TokenResponse :=
  match Sign k (issue_claims o now (dr_jti r) g) with
  | Err why => (d, Err (ErrKeyring why))
  | Ok access =>
      let out refresh := mkTokenResponse access "Bearer" 3600 refresh (Join (scopeList (g_scope g)) " ") (issued_for g) in
      if String.eqb (g_sessionID g) "" && String.eqb (g_consumeID g) "" && negb (with_refresh g) then (d, Ok (out ""))
      else
        let d := other d in
        match issue_tx now dbnow g r d with
        | inl d => (d, Ok (out (if with_refresh g then dr_refresh r else "")))
        | inr SessionEnded =>
            (if String.eqb (g_familyID g) "" then d else revokeFamily dbnow (g_familyID g) (other' d), Err session_ended_error)
        | inr Raced => (d, Err RotationRaced)
        | inr (Refused code) => (d, Err (ErrPostgres code))
        end
  end.

Definition refused {A} (code why : string) : result failure A := Err (OAuthErr (oauthErr code why 400)).

(** The clocks a token request reads: before its first transaction commits,
    after, and when it issues; and the database's at each. *)
Record clocks : Type := mkClocks { at_read : Z; at_check : Z; at_issue : Z; db_read : Z; db_issue : Z }.

(** *** The authorization code grant *)

(** Read under a row lock, and consume unless spent or expired. *)
Definition code_tx (now dbnow : Z) (code : string) (d : db) : db * option (code_row * option string) :=
  match List.find (fun c => String.eqb (k_Code c) code) (d_codes d) with
  | None => (d, None)
  | Some c =>
      (if negb (is_null (k_Consumed c)) || (k_Expires c <? now)%Z then d
       else with_codes (update_where (fun c => String.eqb (k_Code c) code) (consume_code dbnow)) d,
       Some (c, public_of d (k_SessionID c)))
  end.

Definition code_grant (client : Client) (c : code_row) (public : option string) : grant :=
  mkGrant ("user_" +:+ k_UserID c) (c_ClientID client) (k_UserID c) (k_OrgID c) (deref (k_ServerID c)) (k_Scope c) "" ""
    (deref (k_SessionID c)) (deref public) (k_AMR c) [].

(** The checks on what was read. *)
Definition code_check (now : Z) (client : Client) (form : Form) (read : option (code_row * option string)) :
    result failure grant :=
  match read with
  | None => refused "invalid_grant" "the authorization code is invalid"
  | Some (c, public) =>
      if negb (is_null (k_Consumed c)) then refused "invalid_grant" "this authorization code was already used"
      else if (k_Expires c <? now)%Z then refused "invalid_grant" "the authorization code has expired"
      else if negb (String.eqb (k_ClientID c) (c_ClientID client))
      then refused "invalid_grant" "this code was issued to another client"
      else if negb (String.eqb (form_get form "redirect_uri") "")
           && negb (String.eqb (form_get form "redirect_uri") (k_RedirectURI c))
      then refused "invalid_grant" "redirect_uri does not match the authorization request"
      else if negb (String.eqb (secret_digest (form_get form "code_verifier")) (k_Challenge c))
      then refused "invalid_grant" "PKCE verification failed"
      else Ok (code_grant client c public)
  end.

Definition exchangeCode (o : OAuthServer) (k : Signer) (t : clocks) (client : Client) (form : Form) (r : draws)
    (other : nat -> db -> db) (d : db) : db * result failure TokenResponse :=
  let code := form_get form "code" in
  if String.eqb code "" || String.eqb (form_get form "code_verifier") ""
  then (d, refused "invalid_request" "code and code_verifier are required")
  else
    let '(d, read) := code_tx (at_read t) (db_read t) code (other 0 d) in
    match code_check (at_check t) client form read with
    | Err e => (d, Err e)
    | Ok g => issueToken o k (at_issue t) (db_issue t) g r (other 1) (other 2) d
    end.

(** *** The refresh token grant *)

Definition find_token (d : db) (hash clientID : string) : option token_row :=
  List.find (fun t => String.eqb (t_Hash t) hash && String.eqb (t_ClientID t) clientID) (d_tokens d).

Definition refresh_grant (client : Client) (t : token_row) (public : option string) : grant :=
  mkGrant ("user_" +:+ t_UserID t) (c_ClientID client) (t_UserID t) (t_OrgID t) (deref (t_ServerID t)) (t_Scope t)
    (t_Family t) (t_ID t) (deref (t_SessionID t)) (deref public) (t_AMR t) [].

Definition reused (client : Client) (t : token_row) : OAuthError :=
  mkOAuthError "invalid_grant" "this refresh token was already used; all tokens in the family were revoked" 400
    (Some (mkReuse (t_OrgID t) (t_UserID t) (c_ClientID client) (t_Family t))).

Definition refreshOnce (o : OAuthServer) (k : Signer) (t : clocks) (client : Client) (presented : string) (r : draws)
    (other : nat -> db -> db) (d : db) : db * result failure TokenResponse :=
  let d := other 0 d in
  match find_token d (Sum256 presented) (c_ClientID client) with
  | None => (d, refused "invalid_grant" "unknown refresh token")
  | Some tok =>
      let public := public_of d (t_SessionID tok) in
      if negb (is_null (t_Consumed tok))
      then (revokeFamily (db_issue t) (t_Family tok) (other 1 d), Err (OAuthErr (reused client tok)))
      else if negb (is_null (t_Revoked tok)) || (t_Expires tok <? at_read t)%Z
      then (d, refused "invalid_grant" "the refresh token is expired or revoked")
      else issueToken o k (at_issue t) (db_issue t) (refresh_grant client tok public) r (other 1) (other 2) d
  end.

(** A rotation that lost a race is read again once. *)
Definition refresh (o : OAuthServer) (k : Signer) (t t' : clocks) (client : Client) (form : Form) (r r' : draws)
    (other : nat -> db -> db) (d : db) : db * result failure TokenResponse :=
  let presented := form_get form "refresh_token" in
  if String.eqb presented "" then (d, refused "invalid_request" "refresh_token is required")
  else
    let raced x := match x with
                   | (d, Err RotationRaced) => (d, refused "invalid_grant" "the refresh token is expired or revoked")
                   | _ => x
                   end in
    match refreshOnce o k t client presented r other d with
    | (d, Err RotationRaced) => raced (refreshOnce o k t' client presented r' (fun i => other (3 + i)) d)
    | x => x
    end.

(** *** The client credentials grant *)

Definition sa_grant (clientID : string) (p : Principal) (serverID : string) (granted : list string) (epoch : Z) : grant :=
  mkGrant ("svc_" +:+ p_ID p) clientID "" (p_OrgID p) serverID (Join granted " ") "" "" "" "" [] [(claimEpoch, VInt epoch)].

Definition sa_server (p : Principal) (resource : string) : result failure string :=
  let serverID := serverFromResource resource in
  if negb (String.eqb resource "") && String.eqb serverID ""
  then refused "invalid_target" "the resource indicator does not name an MCP server on this instance"
  else if String.eqb (p_ServerID p) "" then Ok serverID
  else if negb (String.eqb serverID "") && negb (String.eqb serverID (p_ServerID p))
  then refused "invalid_target" "this service account is bound to a different MCP server"
  else Ok (p_ServerID p).

Definition sa_scopes (allowed : list string) (asked : string) : result failure (list string) :=
  match scopeList asked with
  | [] => Ok allowed
  | want => match List.filter (containsString allowed) want with
            | [] => refused "invalid_scope" "none of the requested scopes are granted to this service account"
            | granted => Ok granted
            end
  end.

Definition clientCredentials (o : OAuthServer) (k : Signer) (t : clocks) (form : Form) (clientID clientSecret : string) (r : draws)
    (other : nat -> db -> db) (d : db) : db * result failure TokenResponse :=
  let denied := (d, Err (OAuthErr (oauthErr "invalid_client" "client authentication failed" 401))) in
  match o_Accounts o with
  | None => (d, refused "unsupported_grant_type" "this server does not issue tokens to service accounts")
  | Some acc =>
      if String.eqb clientSecret "" then (d, Err (OAuthErr (oauthErr "invalid_client" "a client secret is required" 401)))
      else match AuthenticateServiceAccount acc clientID clientSecret with
      | Err _ => denied
      | Ok (p, allowed) =>
          match sa_server p (form_get form "resource") with
          | Err e => (d, Err e)
          | Ok serverID =>
              match sa_scopes allowed (form_get form "scope") with
              | Err e => (d, Err e)
              | Ok granted =>
                  match ServiceAccountTokenEpoch acc (p_OrgID p) (p_ID p) with
                  | Err why => (d, Err (ErrAccounts why))
                  | Ok (epoch, active) =>
                      if negb active then denied
                      else issueToken o k (at_issue t) (db_issue t) (sa_grant clientID p serverID granted epoch) r
                             (other 1) (other 2) d
                  end
              end
          end
      end
  end.

(** *** [Token] *)

Definition granted_as (g : string) (x : db * result failure TokenResponse) : db * result failure TokenResponse :=
  (x.1, match x.2 with Ok r => Ok (set_grant g r) | Err e => Err e end).

(** The client's secret, when it has one. *)
Definition authenticates (client : Client) (secretHash clientSecret : string) : bool :=
  String.eqb (c_AuthMethod client) "none"
  || negb (String.eqb secretHash "") && String.eqb (secret_digest clientSecret) secretHash.

Definition Token (o : OAuthServer) (k : Signer) (t t' : clocks) (form : Form) (clientID clientSecret : string) (r r' : draws)
    (other : nat -> db -> db) (d : db) : db * result failure TokenResponse :=
  let clientID := if String.eqb clientID "" then form_get form "client_id" else clientID in
  let type := form_get form "grant_type" in
  if String.eqb clientID "" then (d, Err (OAuthErr (oauthErr "invalid_client" "client_id is required" 401)))
  else if String.eqb type "client_credentials"
  then granted_as "client_credentials" (clientCredentials o k t form clientID clientSecret r other d)
  else match LoadClient d clientID with
  | Err e => (d, Err e)
  | Ok (client, secretHash) =>
      if negb (String.eqb (c_Status client) "approved")
      then (d, refused "unauthorized_client" "this client is not approved on this instance")
      else if negb (authenticates client secretHash clientSecret)
      then (d, Err (OAuthErr (oauthErr "invalid_client" "client authentication failed" 401)))
      else if String.eqb type "authorization_code" then granted_as type (exchangeCode o k t client form r other d)
      else if String.eqb type "refresh_token" then granted_as type (refresh o k t t' client form r r' other d)
      else (d, refused "unsupported_grant_type"
                 "this server supports authorization_code, refresh_token and client_credentials")
  end.

(** ** Revocation *)

Record Revocation : Type := mkRevocation { rv_OrgID : string; rv_UserID : string; rv_ClientID : string; rv_FamilyID : string }.

(** The family of the presented token; what is returned is one of the rows
    the UPDATE touched. *)
Definition Revoke (dbnow : Z) (token : string) (d : db) : db * option Revocation :=
  match List.find (fun t => String.eqb (t_Hash t) (Sum256 token)) (d_tokens d) with
  | None => (d, None)
  | Some tok =>
      (revokeFamily dbnow (t_Family tok) d,
       (fun t => mkRevocation (t_OrgID t) (t_UserID t) (t_ClientID t) (t_Family t)) <$>
         List.find (in_family (t_Family tok)) (d_tokens d))
  end.

(** ** Checking an access token *)

Definition claim_str (c : Claims) (k : string) : string := match obj_get c k with Some (VStr s) => s | _ => "" end.

(** [claims[k].(float64)], 0 when it is not one, as an int. *)
Definition claim_int (c : Claims) (k : string) : Z := match obj_get c k with Some (VFloat f) => Z_of_f f | _ => 0 end.

Inductive key_error : Type := ErrInvalidKey | ErrKeyExpired.

Definition checkServiceAccount (o : OAuthServer) (c : Claims) : result key_error unit :=
  let sub := claim_str c "sub" in
  if negb (HasPrefix sub "svc_") then Ok tt
  else match o_Accounts o with
  | None => Err ErrInvalidKey
  | Some acc =>
      match ServiceAccountTokenEpoch acc (claim_str c "org") (str_drop 4 sub) with
      | Ok (epoch, true) => if Z.eqb (claim_int c claimEpoch) epoch then Ok tt else Err ErrInvalidKey
      | _ => Err ErrInvalidKey
      end
  end.

(** [Sessions]: [None] when the server was given none. *)
Definition checkSession (sessions : option (string -> result string bool)) (c : Claims) : result key_error unit :=
  let sid := claim_str c claimSID in
  if String.eqb sid "" then Ok tt
  else match sessions with
  | None => Err ErrInvalidKey
  | Some ended => match ended sid with Ok false => Ok tt | _ => Err ErrInvalidKey end
  end.

Definition stringList (v : option value) : list string :=
  match v with
  | Some (VList l) => omap (fun x => match x with VStr s => Some s | _ => None end) l
  | _ => []
  end.

Record Introspection : Type := mkIntrospection {
  in_Active : bool;
  in_Scope : string;
  in_ClientID : string;
  in_Sub : string;
  in_Aud : string;
  in_Org : string;
  in_Exp : Z;
  in_TokenTyp : string;
  in_Sid : string;
  in_AMR : list string;
  in_Server : string;
}.

Definition inactive : Introspection := mkIntrospection false "" "" "" "" "" 0 "" "" [] "".

Section checks.
Variables (o : OAuthServer) (k : Signer) (sessions : option (string -> result string bool)).

Definition Introspect (now : Z) (token : string) : Introspection :=
  match Verify k token with
  | Err _ => inactive
  | Ok c =>
      let exp := claim_int c "exp" in
      if (exp <? unix now)%Z then inactive
      else if negb (is_ok (checkServiceAccount o c)) then inactive
      else if negb (is_ok (checkSession sessions c)) then inactive
      else mkIntrospection true (claim_str c "scope") (claim_str c "client_id") (claim_str c "sub") (claim_str c "aud")
             (claim_str c "org") exp "Bearer" (claim_str c claimSID) (stringList (obj_get c claimAMR)) (claim_str c "mcp_server")
  end.

Definition no_sign_in : SignIn := mkSignIn 0 "" "" [].

Definition token_principal (c : Claims) (kind : PrincipalKind) (sub : string) : Principal :=
  mkPrincipal kind sub (claim_str c "org") "" "" (claim_str c "client_id") (claim_str c "mcp_server")
    (scopeList (claim_str c "scope")) false "oauth_at" "" false no_sign_in.

(** Who the subject claim names. *)
Definition subject (raw : string) : PrincipalKind * string :=
  if HasPrefix raw "svc_" then (KindServiceAccount, str_drop 4 raw) else (KindUser, TrimPrefix raw "user_").

Definition PrincipalFromToken (now : Z) (token : string) : result key_error Principal :=
  match Verify k token with
  | Err _ => Err ErrInvalidKey
  | Ok c =>
      if (claim_int c "exp" <? unix now)%Z then Err ErrKeyExpired
      else
        let raw := claim_str c "sub" in
        let '(kind, sub) := subject raw in
        if String.eqb sub "" || String.eqb sub raw || String.eqb (claim_str c "org") "" then Err ErrInvalidKey
        else match checkServiceAccount o c with
        | Err e => Err e
        | Ok _ => match checkSession sessions c with
                  | Err e => Err e
                  | Ok _ => Ok (token_principal c kind sub)
                  end
        end
  end.
End checks.

(** ** Housekeeping *)

Definition PruneExpired (dbnow : Z) (d : db) : db :=
  with_tokens (delete_where (fun t => (t_Expires t <? dbnow - 7 * Day)%Z))
    (with_codes (delete_where (fun c => (k_Expires c <? dbnow - Day)%Z))
      (with_requests (delete_where (fun r => (q_Expires r <? dbnow)%Z)) d)).

End server.

(** ** The browser sessions tokens hang on

    The functions of migration 00029 and [PruneSessions] of
    [internal/identity].  Ending a session is two statements: the session
    first, then its tokens by family. *)

Definition families_of (sids : list string) (d : db) : list string :=
  map t_Family (List.filter (fun t => match t_SessionID t with Some s => containsString sids s | None => false end) (d_tokens d)).

Definition of_families (fs : list string) (t : token_row) : bool := containsString fs (t_Family t) && is_null (t_Revoked t).

Definition revoke_families (dbnow : Z) (fs : list string) (d : db) : db * nat :=
  (with_tokens (update_where (of_families fs) (revoke_token dbnow)) d,
   length (List.filter (fun t => of_families fs t && is_null (t_Consumed t)) (d_tokens d))).

Definition end_where (p : session_row -> bool) (dbnow : Z) (d : db) : db * list string :=
  let open s := p s && is_null (s_Revoked s) in
  (with_sessions (update_where open (end_session dbnow)) d, map s_ID (List.filter open (d_sessions d))).

Definition auth_session_end (dbnow : Z) (id : string) (d : db) : db * nat :=
  let '(d, _) := end_where (fun s => String.eqb (s_ID s) id) dbnow d in
  revoke_families dbnow (families_of [id] d) d.

Definition auth_session_end_others (dbnow : Z) (user keep : string) (d : db) : db * nat :=
  let '(d, ended) := end_where (fun s => String.eqb (s_UserID s) user && negb (String.eqb (s_ID s) keep)) dbnow d in
  revoke_families dbnow (families_of ended d) d.

Definition of_principal (org user : string) (t : token_row) : bool :=
  String.eqb (t_OrgID t) org && String.eqb (t_UserID t) user && is_null (t_Revoked t).

(** The API keys it also revokes are in ApiKeys.v. *)
Definition auth_principal_end (dbnow : Z) (org user : string) (d : db) : db * nat :=
  let '(d, ended) := end_where (fun s => String.eqb (s_UserID s) user) dbnow d in
  let '(d, n) := revoke_families dbnow (families_of ended d) d in
  (with_tokens (update_where (of_principal org user) (revoke_token dbnow)) d,
   n + length (List.filter (fun t => of_principal org user t && is_null (t_Consumed t)) (d_tokens d))).

Definition replaceable (dbnow : Z) (old new : string) (d : db) : bool :=
  existsb (fun s => String.eqb (s_ID s) old && is_null (s_Revoked s) &&
    existsb (fun n => String.eqb (s_UserID n) (s_UserID s) && String.eqb (s_OrgID n) (s_OrgID s) && String.eqb (s_ID n) new
      && is_null (s_Revoked n) && (dbnow <? s_Absolute n)%Z && (dbnow <? s_Idle n)%Z) (d_sessions d)) (d_sessions d).

Definition set_amr (amr : list string) (t : token_row) : token_row :=
  mkTokenRow (t_ID t) (t_Hash t) (t_Family t) (t_ClientID t) (t_UserID t) (t_OrgID t) (t_ServerID t) (t_Scope t) (t_Expires t)
    (t_Consumed t) (t_Revoked t) (t_SessionID t) amr.

Definition auth_session_ended (public : string) (d : db) : bool :=
  match List.find (fun s => String.eqb (s_PublicID s) public) (d_sessions d) with
  | Some s => negb (is_null (s_Revoked s))
  | None => true
  end.

Definition names_session (dbnow : Z) (id : string) (t : token_row) : bool :=
  bool_decide (t_SessionID t = Some id) && live t && (dbnow <? t_Expires t)%Z.

Definition PruneSessions (dbnow : Z) (d : db) : db :=
  let old at_ := (at_ <? dbnow - 7 * Day)%Z in
  with_sessions (delete_where (fun s =>
    (old (s_Absolute s) || old (s_Idle s) || match s_Revoked s with Some at_ => old at_ | None => false end)
    && negb (existsb (names_session dbnow (s_ID s)) (d_tokens d)))) d.

(** ** Tables *)

Lemma nullif_deref s : deref (nullif s) = s.
Proof. unfold nullif. by destruct (String.eqb_spec s "") as [->|]. Qed.

(** ** Scopes *)

Lemma containsString_elem l s : containsString l s = true <-> s ∈ l.
Proof.
  unfold containsString. rewrite existsb_elem. split.
  - intros (x & Hx & E). bool_prop. by subst.
  - intros H. exists s. split; [done|apply String.eqb_refl].
Qed.

Lemma scopeList_known scope s : s ∈ scopeList scope -> s ∈ knownScopes.
Proof.
  unfold scopeList. destruct (List.filter _ _) as [|x l] eqn:E.
  - intros H. apply elem_of_cons in H as [->|H%elem_of_cons]; [left|]. destruct H as [->|H]; [right; left|]. by apply elem_of_nil in H.
  - rewrite <- E, list_elem_of_In, filter_In. intros [_ H]. by apply containsString_elem.
Qed.

Lemma scopeList_nonempty scope : scopeList scope <> [].
Proof. unfold scopeList. by destruct (List.filter _ _). Qed.

Lemma known_scopes_words l : Forall (fun s => s ∈ knownScopes) l -> Forall (fun s => is_word_str s = true) l.
Proof.
  intros F. eapply Forall_impl; [exact F|]. intros s H. cbv beta in H. unfold knownScopes in H.
  repeat (apply elem_of_cons in H as [->|H]; [reflexivity|]). by apply elem_of_nil in H.
Qed.

Lemma scopeList_Join l : l <> [] -> Forall (fun s => s ∈ knownScopes) l -> scopeList (Join l " ") = l.
Proof.
  intros N K. unfold scopeList. rewrite Fields_Join by by apply known_scopes_words.
  rewrite filter_keeps_all; [by destruct l|]. rewrite Forall_forall in K. intros x Hx. by apply containsString_elem, K.
Qed.

(** What a token says its scopes are reads back as the scopes granted. *)
Lemma scopeList_idem scope : scopeList (Join (scopeList scope) " ") = scopeList scope.
Proof.
  apply scopeList_Join; [apply scopeList_nonempty|]. apply Forall_forall. intros s. apply scopeList_known.
Qed.

(** ** Claims *)

Lemma obj_get_set_when b m k k' v : obj_get (set_when b k v m) k' = if b && String.eqb k k' then Some v else obj_get m k'.
Proof. unfold set_when. destruct b; [apply obj_get_set|done]. Qed.

(** The claims a JSON document read back holds: every number is a float64.
    Claims hold nothing but strings, numbers, booleans, lists and maps. *)
Fixpoint json_read (v : value) : value :=
  match v with
  | VInt n => VFloat (f_of_Z n)
  | VList l => VList (map json_read l)
  | VMap m => VMap (map (fun e => (e.1, json_read e.2)) m)
  | v => v
  end.

Definition claims_read (c : Claims) : Claims := map (fun e => (e.1, json_read e.2)) c.

Lemma obj_get_read c k : obj_get (claims_read c) k = json_read <$> obj_get c k.
Proof.
  unfold obj_get, claims_read. induction c as [|[a v] c IH]; [done|]. simpl. destruct (String.eqb a k); [done|exact IH].
Qed.

Lemma claim_str_read c k : claim_str (claims_read c) k = claim_str c k.
Proof. unfold claim_str. rewrite obj_get_read. by destruct (obj_get c k) as [[]|]. Qed.

Lemma stringList_read c k : stringList (obj_get (claims_read c) k) = stringList (obj_get c k).
Proof.
  rewrite obj_get_read. destruct (obj_get c k) as [[]|]; try done. simpl.
  induction l as [|[] l IH]; simpl; try done. by f_equal.
Qed.

Lemma stringList_strings l : stringList (Some (VList (map VStr l))) = l.
Proof. simpl. induction l; simpl; [done|by f_equal]. Qed.

Section claims.
Context `{W : Web}.
Variables (o : OAuthServer) (now : Z) (jti : string) (g : grant).

Let c : Claims := issue_claims o now jti g.

(** A claim the extra ones do not override. *)
Lemma issue_claim k : (forall e, e ∈ g_extra g -> e.1 <> k) ->
  obj_get c k =
    if String.eqb k claimAMR then (if Nat.eqb (length (g_amr g)) 0 then None else Some (VList (map VStr (g_amr g))))
    else if String.eqb k claimSID then (if String.eqb (g_publicSID g) "" then None else Some (VStr (g_publicSID g)))
    else if String.eqb k "mcp_server" then (if String.eqb (g_serverID g) "" then None else Some (VStr (g_serverID g)))
    else if String.eqb k "exp" then Some (VInt (unix (now + AccessTokenTTL)))
    else if String.eqb k "iat" then Some (VInt (unix now))
    else if String.eqb k "jti" then Some (VStr jti)
    else if String.eqb k "scope" then Some (VStr (Join (scopeList (g_scope g)) " "))
    else if String.eqb k "client_id" then Some (VStr (g_clientID g))
    else if String.eqb k "org" then Some (VStr (g_orgID g))
    else if String.eqb k "aud" then Some (VStr (audience o (g_serverID g)))
    else if String.eqb k "sub" then Some (VStr (g_subject g))
    else if String.eqb k "iss" then Some (VStr (o_Issuer o)) else None.
Proof.
  intros Hx. unfold c, issue_claims.
  assert (forall (l : Claims) m, (forall e, e ∈ l -> e.1 <> k) -> obj_get (foldl (fun m e => obj_set m e.1 e.2) m l) k = obj_get m k) as X.
  { induction l as [|[a v] l IH]; intros m H; [done|]. simpl. rewrite IH by (intros e He; apply H; by constructor).
    rewrite obj_get_set. by rewrite (proj2 (String.eqb_neq a k)) by (apply (H (a, v)); constructor). }
  rewrite X by done. rewrite !obj_get_set_when. cbn [foldl]. rewrite !obj_get_set.
  rewrite !(String.eqb_sym _ k). cbn [fst snd].
  destruct (Nat.eqb (length (g_amr g)) 0), (String.eqb (g_publicSID g) ""), (String.eqb (g_serverID g) "");
    destruct (String.eqb_spec k claimAMR) as [->|NA]; try done; rewrite ?andb_false_r;
    destruct (String.eqb_spec k claimSID) as [->|NS]; try done; rewrite ?andb_false_r;
    by destruct (String.eqb_spec k "mcp_server") as [->|NM].
Qed.
End claims.

(** ** What an issued token says back *)

(** How a check of the session a token names comes out. *)
Definition session_verdict (sessions : option (string -> result string bool)) (public : string) : bool :=
  String.eqb public "" ||
  match sessions with Some ended => match ended public with Ok false => true | _ => false end | None => false end.

Lemma checkSession_verdict sessions c :
  checkSession sessions c = if session_verdict sessions (claim_str c claimSID) then Ok tt else Err ErrInvalidKey.
Proof.
  unfold checkSession, session_verdict. destruct (String.eqb (claim_str c claimSID) ""); [done|].
  destruct sessions as [ended|]; [|done]. by destruct (ended _) as [[]|].
Qed.

Section reading_back.
Context `{W : Web}.
Variables (o : OAuthServer) (now : Z) (jti : string) (g : grant).
Hypothesis Hnow : (0 <= now < 2 ^ 63)%Z.
Hypothesis Hextra : forall e, e ∈ g_extra g -> e.1 = claimEpoch.

Let c : Claims := claims_read (issue_claims o now jti g).

Ltac claim := rewrite claim_str_read; unfold claim_str; rewrite issue_claim by (intros e He; rewrite (Hextra _ He); done); cbn.

Lemma read_sub : claim_str c "sub" = g_subject g.
Proof. unfold c. by claim. Qed.
Lemma read_org : claim_str c "org" = g_orgID g.
Proof. unfold c. by claim. Qed.
Lemma read_client : claim_str c "client_id" = g_clientID g.
Proof. unfold c. by claim. Qed.
Lemma read_aud : claim_str c "aud" = audience o (g_serverID g).
Proof. unfold c. by claim. Qed.
Lemma read_scope : scopeList (claim_str c "scope") = scopeList (g_scope g).
Proof. unfold c. claim. apply scopeList_idem. Qed.
Lemma read_server : claim_str c "mcp_server" = g_serverID g.
Proof. unfold c. claim. by destruct (String.eqb_spec (g_serverID g) "") as [->|]. Qed.
Lemma read_sid : claim_str c claimSID = g_publicSID g.
Proof. unfold c. claim. by destruct (String.eqb_spec (g_publicSID g) "") as [->|]. Qed.
Lemma read_amr : stringList (obj_get c claimAMR) = g_amr g.
Proof.
  unfold c. rewrite stringList_read, issue_claim by (intros e He; rewrite (Hextra _ He); done). cbn.
  destruct (g_amr g) as [|a l]; [done|]. apply (stringList_strings (a :: l)).
Qed.

Lemma unix_small t : (0 <= t < 2 ^ 64)%Z -> (Z.abs (unix t) < 2 ^ 53)%Z.
Proof. intros R. unfold unix, Second. rewrite Z.abs_eq by (apply Z.div_pos; lia). apply Z.div_lt_upper_bound; lia. Qed.

Lemma read_exp : claim_int c "exp" = unix (now + AccessTokenTTL).
Proof.
  unfold c, claim_int. rewrite obj_get_read, issue_claim by (intros e He; rewrite (Hextra _ He); done). cbn -[unix f_of_Z Z_of_f].
  apply Z_of_f_of_Z, unix_small. unfold AccessTokenTTL, Hour, Minute, Second. lia.
Qed.

(** Who a token issued for this grant is, when it is accepted. *)
Definition grant_principal (kind : PrincipalKind) (id : string) : Principal :=
  mkPrincipal kind id (g_orgID g) "" "" (g_clientID g) (g_serverID g) (scopeList (g_scope g)) false "oauth_at" "" false no_sign_in.

Lemma token_principal_grant kind id : token_principal c kind id = grant_principal kind id.
Proof. unfold token_principal, grant_principal. by rewrite read_org, read_client, read_server, read_scope. Qed.

(** The endpoint's verdict on the token: the expiry, then the subject, then
    the account, then the session. *)
Lemma PrincipalFromToken_issued k' sessions now' token kind id :
  Verify k' token = Ok c -> subject (g_subject g) = (kind, id) -> id <> "" -> id <> g_subject g -> g_orgID g <> "" ->
  PrincipalFromToken o k' sessions now' token =
    if (unix (now + AccessTokenTTL) <? unix now')%Z then Err ErrKeyExpired
    else match checkServiceAccount o c with
         | Err e => Err e
         | Ok _ => if session_verdict sessions (g_publicSID g) then Ok (grant_principal kind id) else Err ErrInvalidKey
         end.
Proof.
  intros V S I N O. unfold PrincipalFromToken. rewrite V, read_exp. destruct (_ <? _)%Z; [done|].
  rewrite read_sub, S, read_org. rewrite !(proj2 (String.eqb_neq _ _)) by done. simpl.
  destruct (checkServiceAccount o c); [|done].
  rewrite checkSession_verdict, read_sid, token_principal_grant. by destruct (session_verdict _ _).
Qed.
End reading_back.

Lemma subject_user u : u <> "" -> subject ("user_" +:+ u) = (KindUser, u) /\ u <> "user_" +:+ u.
Proof.
  intros N. split.
  - unfold subject. replace (HasPrefix ("user_" +:+ u) "svc_") with false by done.
    unfold TrimPrefix. unfold HasPrefix. rewrite prefix_app. by rewrite (str_drop_app "user_" u).
  - intros E. apply (f_equal String.length) in E. rewrite length_app_str in E. simpl in E. lia.
Qed.

Lemma account_id a : str_drop 4 ("svc_" +:+ a) = a.
Proof. exact (str_drop_app "svc_" a). Qed.

Lemma subject_account a : a <> "" -> subject ("svc_" +:+ a) = (KindServiceAccount, a) /\ a <> "svc_" +:+ a.
Proof.
  intros N. split.
  - unfold subject, HasPrefix. rewrite prefix_app. by rewrite account_id.
  - intros E. apply (f_equal String.length) in E. rewrite length_app_str in E. simpl in E. lia.
Qed.

Section roundtrip.
Context `{W : Web}.

(** A token issued to a person's client authenticates exactly the person,
    organisation, client, server and scopes it was granted for, until the
    hour is over or the session that consented has ended; [k'] is the keyring
    when the token comes back. *)
Theorem person_token_authenticates_its_grant o k k' sessions now now' jti g user token :
  (0 <= now < 2 ^ 63)%Z -> g_subject g = "user_" +:+ user -> g_extra g = [] -> user <> "" -> g_orgID g <> "" ->
  Sign k (issue_claims o now jti g) = Ok token ->
  Verify k' token = Ok (claims_read (issue_claims o now jti g)) ->
  PrincipalFromToken o k' sessions now' token =
    if (unix (now + AccessTokenTTL) <? unix now')%Z then Err ErrKeyExpired
    else if session_verdict sessions (g_publicSID g) then Ok (grant_principal g KindUser user) else Err ErrInvalidKey.
Proof.
  intros R S X U O _ V. assert (forall e, e ∈ g_extra g -> e.1 = claimEpoch) as X'
    by (intros e; rewrite X; intros H; by apply elem_of_nil in H).
  destruct (subject_user user U) as [Sub N].
  rewrite (PrincipalFromToken_issued o now jti g R X' k' sessions now' token KindUser user) by (try rewrite S; done).
  assert (checkServiceAccount o (claims_read (issue_claims o now jti g)) = Ok tt) as ->; [|done].
  unfold checkServiceAccount. by rewrite (read_sub o now jti g X'), S.
Qed.

(** A service account's token authenticates the account until the hour is
    over, it is disabled, or its epoch has moved on. *)
Theorem account_token_authenticates_its_grant o acc k k' sessions now now' jti clientID p serverID granted epoch token :
  (0 <= now < 2 ^ 63)%Z -> (Z.abs epoch < 2 ^ 53)%Z -> p_ID p <> "" -> p_OrgID p <> "" -> o_Accounts o = Some acc ->
  let g := sa_grant clientID p serverID granted epoch in
  Sign k (issue_claims o now jti g) = Ok token ->
  Verify k' token = Ok (claims_read (issue_claims o now jti g)) ->
  PrincipalFromToken o k' sessions now' token =
    if (unix (now + AccessTokenTTL) <? unix now')%Z then Err ErrKeyExpired
    else match ServiceAccountTokenEpoch acc (p_OrgID p) (p_ID p) with
         | Ok (e, true) => if Z.eqb epoch e then Ok (grant_principal g KindServiceAccount (p_ID p)) else Err ErrInvalidKey
         | _ => Err ErrInvalidKey
         end.
Proof.
  intros R E I O A g _ V. assert (forall e, e ∈ g_extra g -> e.1 = claimEpoch) as X
    by (intros e H; apply list_elem_of_singleton in H; by subst e).
  destruct (subject_account (p_ID p) I) as [Sub N].
  rewrite (PrincipalFromToken_issued o now jti g R X k' sessions now' token KindServiceAccount (p_ID p)) by done.
  destruct (_ <? _)%Z; [done|]. unfold checkServiceAccount.
  rewrite (read_sub o now jti g X), (read_org o now jti g X). cbn [g g_subject sa_grant g_orgID].
  unfold HasPrefix. rewrite prefix_app, A, account_id. cbn [negb].
  destruct (ServiceAccountTokenEpoch _ _ _) as [[e []]|]; try done.
  assert (claim_int (claims_read (issue_claims o now jti g)) claimEpoch = epoch) as ->; [|by destruct (Z.eqb epoch e)].
  unfold claim_int. rewrite obj_get_read. unfold issue_claims at 1. cbn [g g_extra sa_grant foldl fst snd].
  rewrite obj_get_set. cbn -[Z_of_f f_of_Z]. by apply Z_of_f_of_Z.
Qed.
End roundtrip.

(** ** The grants, one call at a time *)

Section grants.
Context `{W : Web}.

(** The session the grant names is on record and not ended. *)
Definition session_open (g : grant) (d : db) : bool :=
  String.eqb (g_sessionID g) "" || negb (session_ended_row d (g_sessionID g)).

Definition collides (t : token_row) (d : db) : bool :=
  existsb (fun x => String.eqb (t_ID x) (t_ID t) || String.eqb (t_Hash x) (t_Hash t)) (d_tokens d).

Definition issue_response (g : grant) (access : string) (r : draws) : TokenResponse :=
  mkTokenResponse access "Bearer" 3600 (if with_refresh g then dr_refresh r else "") (Join (scopeList (g_scope g)) " ") (issued_for g).

(** A grant that spends no refresh token: what comes of it. *)
Definition first_issue (now : Z) (g : grant) (r : draws) (d : db) : db :=
  if with_refresh g then with_tokens (fun l => l ++ [child_of now g r]) d else d.

Lemma issue_tx_first now dbnow g r d : g_consumeID g = "" ->
  issue_tx now dbnow g r d =
    if negb (session_open g d) then inr SessionEnded
    else if with_refresh g && collides (child_of now g r) d then inr (Refused "23505")
    else inl (first_issue now g r d).
Proof.
  intros C. unfold issue_tx, session_open, first_issue, insert_token, collides. rewrite C. cbn [String.eqb negb andb].
  destruct (String.eqb (g_sessionID g) ""), (session_ended_row _ _); cbn [negb andb orb]; try done;
    by destruct (with_refresh g), (existsb _ _).
Qed.

Lemma issueToken_first o k now dbnow g r other other' d : g_consumeID g = "" -> g_familyID g = "" ->
  (forall access, Sign k (issue_claims o now (dr_jti r) g) = Ok access ->
     session_open g (other d) = true -> with_refresh g && collides (child_of now g r) (other d) = false ->
     (g_sessionID g <> "" \/ with_refresh g = true) ->
     issueToken o k now dbnow g r other other' d = (first_issue now g r (other d), Ok (issue_response g access r))) /\
  (forall d' x, issueToken o k now dbnow g r other other' d = (d', Ok x) ->
     exists access, Sign k (issue_claims o now (dr_jti r) g) = Ok access /\ x = issue_response g access r /\
       (g_sessionID g = "" /\ with_refresh g = false /\ d' = d \/
        (g_sessionID g <> "" \/ with_refresh g = true) /\ session_open g (other d) = true /\ d' = first_issue now g r (other d))).
Proof.
  intros C F. unfold issueToken. rewrite C, F. cbn [String.eqb]. rewrite !andb_true_r. split.
  - intros access -> S K O. rewrite issue_tx_first, S, K by done. cbn [negb].
    unfold issue_response. destruct (String.eqb_spec (g_sessionID g) "") as [E|E], (with_refresh g); cbn [negb andb]; try done.
    by destruct O.
  - intros d' x. destruct (Sign _ _) as [access|]; [|done].
    destruct (String.eqb_spec (g_sessionID g) "") as [E|E], (with_refresh g) eqn:R; cbn [negb andb];
      rewrite ?issue_tx_first by done; try (destruct (session_open g (other d)); cbn [negb]; [|done]); rewrite ?R; cbn [andb];
      try (destruct (collides _ _); [done|]); intros [= <- <-]; exists access; unfold issue_response; rewrite ?R; naive_solver.
Qed.

(** *** Redeeming a code *)

(** The conditions [exchangeCode] puts on a code. *)
Record redeems (now : Z) (client : Client) (form : Form) (c : code_row) : Prop := {
  rd_unspent : k_Consumed c = None;
  rd_fresh : (now <= k_Expires c)%Z;
  rd_client : k_ClientID c = c_ClientID client;
  rd_redirect : form_get form "redirect_uri" = "" \/ form_get form "redirect_uri" = k_RedirectURI c;
  rd_pkce : secret_digest (form_get form "code_verifier") = k_Challenge c;
}.

Lemma code_check_ok now client form c public g :
  code_check now client form (Some (c, public)) = Ok g <-> redeems now client form c /\ g = code_grant client c public.
Proof.
  unfold code_check, refused. split.
  - destruct (is_null (k_Consumed c)) eqn:U; [|done]. apply is_null_true in U.
    destruct (Z.ltb_spec (k_Expires c) now); [done|].
    destruct (String.eqb_spec (k_ClientID c) (c_ClientID client)); [|done]. cbn [negb].
    destruct (String.eqb_spec (form_get form "redirect_uri") "") as [R|R];
      [|destruct (String.eqb_spec (form_get form "redirect_uri") (k_RedirectURI c)); [|done]]; cbn [negb andb];
      (destruct (String.eqb_spec (secret_digest (form_get form "code_verifier")) (k_Challenge c)); [|done]);
      intros [= <-]; split; try done; constructor; auto; lia.
  - intros [[U F C R P] ->]. rewrite U, C, P, !String.eqb_refl. cbn [is_null negb].
    rewrite (proj2 (Z.ltb_ge _ _)) by done.
    destruct R as [-> | ->]; [done|]. rewrite String.eqb_refl. cbn [negb]. by rewrite andb_false_r.
Qed.

Definition find_code (d : db) (code : string) : option code_row := List.find (fun c => String.eqb (k_Code c) code) (d_codes d).

(** C16. A code is good for a token exactly when it is on record, unspent and in
    its five minutes, was issued to the authenticated client for the redirect
    URI it names, and the verifier digests to the challenge the authorization
    request carried; the session that consented must still be open when the
    token is issued, and the answer is then determined. *)
Theorem code_exchange_exactly o k t client form r other d c public access :
  form_get form "code" <> "" -> form_get form "code_verifier" <> "" ->
  let d0 := other 0 d in
  let d1 := (code_tx (at_read t) (db_read t) (form_get form "code") d0).1 in
  let g := code_grant client c public in
  find_code d0 (form_get form "code") = Some c -> public = public_of d0 (k_SessionID c) ->
  Sign k (issue_claims o (at_issue t) (dr_jti r) g) = Ok access ->
  g_sessionID g <> "" -> with_refresh g && collides (child_of (at_issue t) g r) (other 1 d1) = false ->
  (exists d' x, exchangeCode o k t client form r other d = (d', Ok x)) <->
  redeems (at_check t) client form c /\ session_open g (other 1 d1) = true.
Proof.
  intros Nc Nv d0 d1 g F P S Ns K.
  assert (exchangeCode o k t client form r other d =
          match code_check (at_check t) client form (Some (c, public)) with
          | Err e => (d1, Err e)
          | Ok g => issueToken o k (at_issue t) (db_issue t) g r (other 1) (other 2) d1
          end) as E.
  { assert (code_tx (at_read t) (db_read t) (form_get form "code") d0 = (d1, Some (c, public))) as X
      by (unfold d1; unfold code_tx; unfold find_code in F; by rewrite F, P).
    unfold exchangeCode. rewrite !(proj2 (String.eqb_neq _ _)) by done. cbn [orb]. fold d0. by rewrite X. }
  rewrite E. split.
  - intros (d' & x & H). destruct (code_check _ _ _ _) as [g'|] eqn:Ck; [|done].
    apply code_check_ok in Ck as [R ->]. split; [done|].
    apply (proj2 (issueToken_first o k _ _ g r _ _ d1 eq_refl eq_refl)) in H as (? & _ & _ & [[? _]|(_ & ? & _)]); done.
  - intros [R O]. rewrite (proj2 (code_check_ok _ _ _ _ _ _) (conj R eq_refl)).
    eexists _, _. apply (proj1 (issueToken_first o k _ _ g r _ _ d1 eq_refl eq_refl) access); auto.
Qed.

(** Whatever becomes of the request, a code presented in its time is spent:
    a wrong verifier, another client's name or an ended session burn it. *)
Theorem presented_code_is_spent o k t client form (other : nat -> db -> db) d c :
  form_get form "code" <> "" -> form_get form "code_verifier" <> "" ->
  let d0 := other 0 d in
  find_code d0 (form_get form "code") = Some c -> (at_read t <= k_Expires c)%Z ->
  exists spent, find_code (code_tx (at_read t) (db_read t) (form_get form "code") d0).1 (form_get form "code") = Some spent /\
    is_null (k_Consumed spent) = false /\
    (forall t' form' r' other' d', form_get form' "code" = form_get form "code" -> form_get form' "code_verifier" <> "" ->
       other' 0 d' = (code_tx (at_read t) (db_read t) (form_get form "code") d0).1 ->
       (exchangeCode o k t' client form' r' other' d').2 = refused "invalid_grant" "this authorization code was already used").
Proof.
  intros Nc Nv d0 F Fr.
  assert (exists spent, find_code (code_tx (at_read t) (db_read t) (form_get form "code") d0).1 (form_get form "code") = Some spent /\
            is_null (k_Consumed spent) = false) as (spent & Fs & Sp).
  { unfold code_tx. unfold find_code in F |- *. rewrite F. cbn [fst].
    destruct (is_null (k_Consumed c)) eqn:U; cbn [negb orb]; [|by exists c].
    rewrite (proj2 (Z.ltb_ge _ _)) by done. cbn [d_codes with_codes]. rewrite find_update by done. rewrite F. simpl.
    apply find_elem in F as [_ E]. rewrite E. by eexists. }
  exists spent. split; [done|]. split; [done|]. intros t' form' r' other' d' Ec Nv' Ed.
  unfold exchangeCode. rewrite Ec, !(proj2 (String.eqb_neq _ _)) by done. cbn [orb]. rewrite Ed.
  remember (code_tx (at_read t) (db_read t) (form_get form "code") d0).1 as d1 eqn:E1. clear E1.
  unfold code_tx. unfold find_code in Fs. rewrite Fs. unfold code_check. by rewrite Sp.
Qed.
End grants.

(** ** From the authorization request to the token *)

Section consent.
Context `{W : Web}.

(** What an authorization request must carry. *)
Record authorizable (q : Form) (d : db) (client : Client) (redirect : string) : Prop := {
  az_client : exists r, find_client d (form_get q "client_id") = Some r /\ cr_Client r = client;
  az_named : form_get q "client_id" <> "";
  az_approved : c_Status client = "approved";
  az_redirect : redirect = chosen_redirect client (form_get q "redirect_uri") /\ redirect ∈ c_RedirectURIs client;
  az_code : form_get q "response_type" = "code";
  az_challenge : form_get q "code_challenge" <> "";
  az_S256 : form_get q "code_challenge_method" = "S256";
}.

Definition request_of (now : Z) (q : Form) (id redirect : string) : request_row :=
  mkRequestRow id (form_get q "client_id") redirect (nullif (form_get q "state")) (form_get q "code_challenge")
    (form_get q "code_challenge_method") (form_get q "scope") (nullif (form_get q "resource")) (now + AuthSessionTTL)%Z.

Definition loaded_request (q : Form) (id : string) (client : Client) (redirect : string) : AuthRequest :=
  mkAuthRequest id client redirect (form_get q "state") (form_get q "code_challenge") (form_get q "code_challenge_method")
    (form_get q "scope") (form_get q "resource") (serverFromResource (form_get q "resource")).

Lemma chosen_redirect_only client asked : chosen_redirect client asked ∈ c_RedirectURIs client ->
  asked = "" -> the_only (c_RedirectURIs client) = None -> "" ∈ c_RedirectURIs client.
Proof. unfold chosen_redirect. intros H -> E. by rewrite E in H. Qed.

(** A request is taken up exactly when it names an approved client, a
    redirect URI registered for it, the code flow and an S256 challenge; and
    what is stored is what was asked. *)
Theorem authorization_taken_up_exactly now q id d d' req :
  (forall r, r ∈ d_requests d -> q_ID r <> id) ->
  BeginAuthorization now q id d = (d', Ok req) <->
  exists client redirect, authorizable q d client redirect /\
    d' = with_requests (fun l => l ++ [request_of now q id redirect]) d /\ req = loaded_request q id client redirect.
Proof.
  intros Fr. unfold BeginAuthorization, LoadClient.
  assert (existsb (fun r => String.eqb (q_ID r) id) (d_requests d) = false) as U
    by (apply existsb_false_elem; intros r Hr; by apply String.eqb_neq, Fr).
  split.
  - destruct (String.eqb_spec (form_get q "client_id") ""); [done|].
    destruct (find_client d _) as [row|] eqn:F; [|done].
    destruct (String.eqb_spec (c_Status (cr_Client row)) "approved"); [|done]. cbn [negb].
    destruct (containsString _ _) eqn:C; [|done]. apply containsString_elem in C. cbn [negb].
    destruct (String.eqb_spec (form_get q "response_type") "code"); [|done]. cbn [negb].
    destruct (String.eqb_spec (form_get q "code_challenge") ""); [done|].
    destruct (String.eqb_spec (form_get q "code_challenge_method") "S256"); [|done]. cbn [negb].
    rewrite U. intros [= <- <-]. exists (cr_Client row), (chosen_redirect (cr_Client row) (form_get q "redirect_uri")).
    split; [|done]. constructor; eauto.
  - intros (client & redirect & [(row & F & <-) N A [-> R] Co Ch M] & -> & ->).
    rewrite (proj2 (String.eqb_neq _ _)) by done. rewrite F, A, Co, M, (proj2 (String.eqb_neq (form_get q "code_challenge") "")) by done.
    apply containsString_elem in R. rewrite R, U. cbn [negb String.eqb]. unfold request_of, loaded_request. by rewrite M.
Qed.

(** The stored request is read back whole for fifteen minutes, and then no
    longer. *)
Lemma request_reloads now dbnow q id d client redirect :
  (forall r, r ∈ d_requests d -> q_ID r <> id) -> authorizable q d client redirect ->
  LoadAuthRequest dbnow id (with_requests (fun l => l ++ [request_of now q id redirect]) d) =
    if (dbnow <? now + AuthSessionTTL)%Z then Ok (loaded_request q id client redirect)
    else Err (OAuthErr (oauthErr "invalid_request" "this authorization request has expired; start again from your client" 400)).
Proof.
  intros Fr [(row & F & <-) N A R Co Ch M]. unfold LoadAuthRequest. cbn [d_requests with_requests].
  destruct (Z.ltb_spec dbnow (now + AuthSessionTTL)) as [L|L].
  - rewrite (find_snoc _ _ (request_of now q id redirect)).
    + unfold LoadClient. change (find_client (with_requests _ d) ?c) with (find_client d c). cbn [q_ClientID request_of].
      rewrite F. cbn. unfold loaded_request. by rewrite !nullif_deref.
    + intros y Hy. by rewrite (proj2 (String.eqb_neq _ _) (Fr y Hy)).
    + cbn. rewrite String.eqb_refl. by apply Z.ltb_lt.
  - assert (List.find (fun r => String.eqb (q_ID r) id && (dbnow <? q_Expires r)%Z) (d_requests d ++ [request_of now q id redirect]) = None) as ->; [|done].
    destruct (List.find _ _) as [r|] eqn:E; [|done]. apply find_elem in E as [Hr P]. bool_prop.
    apply elem_of_app in Hr as [Hr| ->%list_elem_of_singleton]; [by destruct (Fr r Hr)|]. cbn in *. lia.
Qed.

(** The code [Approve] writes for a request. *)
Definition consent_code (now : Z) (req : AuthRequest) (c : Consent) (code : string) : code_row :=
  mkCodeRow code (c_ClientID (ar_Client req)) (cs_UserID c) (cs_OrgID c) (nullif (cs_ServerID c)) (ar_RedirectURI req)
    (ar_Challenge req) (ar_Method req) (ar_Scope req) (nullif (ar_Resource req)) (now + CodeTTL)%Z None
    (nullif (cs_SessionID c)) (cs_AMR c).

Lemma approved_code o now req c code d d' uri : Approve o now req c code d = (d', Ok uri) ->
  find_code d' code = Some (consent_code now req c code) /\ d_sessions d' = d_sessions d /\ d_tokens d' = d_tokens d /\
  d_clients d' = d_clients d.
Proof.
  unfold Approve. destruct (existsb _ _) eqn:E; [done|]. intros [= <- _]. split; [|done].
  unfold find_code. cbn [d_codes delete_request with_requests with_codes]. apply find_snoc; [|apply String.eqb_refl].
  intros y Hy. rewrite existsb_false_elem in E. by apply E.
Qed.

(** A redeemed grant, when nothing stands in its way. *)
Lemma exchange_succeeds o k t client form r d c access :
  form_get form "code" <> "" -> form_get form "code_verifier" <> "" -> find_code d (form_get form "code") = Some c ->
  redeems (at_check t) client form c -> (at_read t <= k_Expires c)%Z ->
  let g := code_grant client c (public_of d (k_SessionID c)) in
  Sign k (issue_claims o (at_issue t) (dr_jti r) g) = Ok access ->
  session_open g d = true -> collides (child_of (at_issue t) g r) d = false -> g_sessionID g <> "" ->
  exists d', exchangeCode o k t client form r (fun _ d => d) d = (d', Ok (issue_response g access r)).
Proof.
  intros Nc Nv F R L g S O K Ns. unfold exchangeCode. rewrite !(proj2 (String.eqb_neq _ _)) by done. cbn [orb].
  assert (code_tx (at_read t) (db_read t) (form_get form "code") d =
          (with_codes (update_where (fun c => String.eqb (k_Code c) (form_get form "code")) (consume_code (db_read t))) d,
           Some (c, public_of d (k_SessionID c)))) as ->.
  { unfold code_tx. unfold find_code in F. rewrite F. destruct R as [U _ _ _ _]. rewrite U. cbn [is_null negb orb].
    by rewrite (proj2 (Z.ltb_ge _ _)). }
  rewrite (proj2 (code_check_ok _ _ _ _ _ _) (conj R eq_refl)). eexists.
  apply (proj1 (issueToken_first o k _ _ g r (fun d => d) (fun d => d) _ eq_refl eq_refl) access); auto.
  change (collides _ (with_codes _ d)) with (collides (child_of (at_issue t) g r) d). rewrite K. by rewrite andb_false_r.
Qed.

(** C11. The whole grant.  A person who consents to an approved client's request
    gives that client, and whoever proves with the verifier that they began
    it, a token that authenticates exactly that person in the organisation,
    bound to the server consented to, with the scopes asked for: for an hour,
    and only while the session that consented is open. *)
Theorem consent_leads_to_its_token o k k' sessions q id now dbnow d d1 req now1 consent code d2 uri
    (t t' : clocks) form clientID secret r r' row s access now' :
  (forall x, x ∈ d_requests d -> q_ID x <> id) ->
  BeginAuthorization now q id d = (d1, Ok req) -> (dbnow < now + AuthSessionTTL)%Z ->
  LoadAuthRequest dbnow id d1 = Ok req /\
  (Approve o now1 req consent code d1 = (d2, Ok uri) ->
   (* the token request *)
   find_client d (form_get q "client_id") = Some row -> clientID = form_get q "client_id" -> clientID <> "" ->
   authenticates (cr_Client row) (deref (cr_SecretHash row)) secret = true ->
   form_get form "grant_type" = "authorization_code" -> form_get form "code" = code -> code <> "" ->
   form_get form "redirect_uri" = ar_RedirectURI req ->
   form_get form "code_verifier" <> "" -> secret_digest (form_get form "code_verifier") = form_get q "code_challenge" ->
   (at_read t <= now1 + CodeTTL)%Z -> (at_check t <= now1 + CodeTTL)%Z -> (0 <= at_issue t < 2 ^ 63)%Z ->
   (* the consenting session *)
   cs_SessionID consent <> "" -> find_session d (cs_SessionID consent) = Some s -> s_Revoked s = None ->
   cs_UserID consent <> "" -> cs_OrgID consent <> "" ->
   (forall x, x ∈ d_tokens d -> t_ID x <> dr_id r /\ t_Hash x <> Sum256 (dr_refresh r)) ->
   (* the keyring *)
   let g := code_grant (cr_Client row) (consent_code now1 req consent code) (Some (s_PublicID s)) in
   let claims := issue_claims o (at_issue t) (dr_jti r) g in
   Sign k claims = Ok access -> Verify k' access = Ok (claims_read claims) ->
   exists d3 resp, Token o k t t' form clientID secret r r' (fun _ d => d) d2 = (d3, Ok resp) /\
     PrincipalFromToken o k' sessions now' (tr_AccessToken resp) =
       if (unix (at_issue t + AccessTokenTTL) <? unix now')%Z then Err ErrKeyExpired
       else if session_verdict sessions (s_PublicID s)
       then Ok (mkPrincipal KindUser (cs_UserID consent) (cs_OrgID consent) "" "" clientID (cs_ServerID consent)
                  (scopeList (form_get q "scope")) false "oauth_at" "" false no_sign_in)
       else Err ErrInvalidKey).
Proof.
  intros Fr B L. apply (authorization_taken_up_exactly now q id d d1 req Fr) in B as (client & redirect & Az & -> & ->).
  split; [rewrite (request_reloads now dbnow q id d client redirect Fr Az); by rewrite (proj2 (Z.ltb_lt _ _))|].
  intros Ap Fc -> Nid Au Gt <- Nc Ru Nv Pk T1 T2 R Ns Fs Op Nu No Fresh g claims Sa Vf.
  pose proof Az as [(row' & Fc' & Rc) _ St _ _ _ _]. rewrite Fc in Fc'. injection Fc' as <-.
  apply approved_code in Ap as (Fk & Es & Et & Ec). cbn [d_sessions d_tokens d_clients with_requests] in Es, Et, Ec.
  set (c := consent_code now1 _ consent _) in Fk.
  assert (c_ClientID client = form_get q "client_id") as Eid.
  { rewrite <- Rc. apply find_elem in Fc as [_ E]. by apply String.eqb_eq in E. }
  assert (k_SessionID c = Some (cs_SessionID consent)) as Sc
    by (cbn; unfold nullif; by rewrite (proj2 (String.eqb_neq _ _))).
  assert (find_session d2 (cs_SessionID consent) = Some s) as Fs2 by (unfold find_session in *; by rewrite Es).
  assert (g = code_grant client c (public_of d2 (k_SessionID c))) as Eg by (rewrite Sc; cbn; by rewrite Fs2, <- Rc).
  assert (g_sessionID g = cs_SessionID consent) as Gs by (cbn; apply nullif_deref).
  assert (g_publicSID g = s_PublicID s) as Gp by done.
  destruct (exchange_succeeds o k t client form r d2 c access) as [d3 Ex]; rewrite <- ?Eg; try done.
  - constructor; try done. by right.
  - unfold session_open, session_ended_row. rewrite Gs, Fs2, Op. by rewrite orb_true_r.
  - unfold collides. rewrite Et. apply existsb_false_elem. intros x Hx. destruct (Fresh x Hx) as [? ?].
    cbn. by rewrite !(proj2 (String.eqb_neq _ _)).
  - by rewrite Gs.
  - exists d3, (set_grant "authorization_code" (issue_response g access r)). split.
    + unfold Token. rewrite !(proj2 (String.eqb_neq (form_get q "client_id") "")) by done. rewrite Gt. cbn [String.eqb].
      unfold LoadClient, find_client. rewrite Ec. unfold find_client in Fc. rewrite Fc, Rc, St. cbn [String.eqb negb].
      rewrite Rc in Au. rewrite Au. cbn [negb]. unfold granted_as. by rewrite Ex, <- Eg.
    + cbn [tr_AccessToken set_grant issue_response].
      rewrite (person_token_authenticates_its_grant o k k' sessions (at_issue t) now' (dr_jti r) g (cs_UserID consent)) by auto.
      rewrite Gp. unfold grant_principal. cbn. by rewrite nullif_deref, Rc, Eid.
Qed.
End consent.

(** ** Refusals *)

Section refusals.
Context `{W : Web}.

Lemma elem_of_revoked p dbnow l t : t ∈ update_where p (revoke_token dbnow) l -> is_null (t_Revoked t) = true ->
  t ∈ l /\ p t = false.
Proof.
  intros (x & Hx & ->)%elem_of_update H. destruct (p x) eqn:E; [done|]. by split.
Qed.

(** Rejecting a client ends what it holds and what it could still ask for: no
    token of its is left unrevoked, and none of its requests to the token
    endpoint is granted, whatever it presents and whatever happens in
    between; a service account's secret is not the client's. *)
Theorem rejected_client_is_cut_off dbnow clientID by_ d d' before n :
  DecideClient dbnow clientID false by_ d = (d', Some (before, n)) ->
  (forall t, t ∈ d_tokens d' -> t_ClientID t = clientID -> t_Revoked t <> None) /\
  n = length (List.filter (live_of_client clientID) (d_tokens d)) /\
  forall o k t t' form secret r r' other,
    clientID <> "" -> form_get form "grant_type" <> "client_credentials" ->
    Token o k t t' form clientID secret r r' other d' =
      (d', refused "unauthorized_client" "this client is not approved on this instance").
Proof.
  unfold DecideClient. destruct (find_client d clientID) as [row|] eqn:F; [|done]. intros [= <- <- <-].
  split; [|split; [done|]].
  - intros t Ht Hc Hr. apply elem_of_revoked in Ht as [_ E]; [|by rewrite Hr].
    unfold live_of_client in E. by rewrite Hc, Hr, String.eqb_refl in E.
  - intros o k t t' form secret r r' other N G. unfold Token. rewrite !(proj2 (String.eqb_neq clientID "")) by done.
    rewrite (proj2 (String.eqb_neq (form_get form "grant_type") _)) by done.
    unfold LoadClient, find_client. cbn [d_clients with_tokens with_clients].
    rewrite find_update by done. unfold find_client in F. rewrite F. apply find_elem in F as [_ E]. simpl. rewrite E.
    cbn. unfold set_status. cbn. done.
Qed.

(** A spent refresh token that comes back is told apart from every other
    failure, and every token of its family then stands revoked. *)
Theorem spent_token_burns_its_family o k t client presented r other d tok :
  find_token (other 0 d) (Sum256 presented) (c_ClientID client) = Some tok -> t_Consumed tok <> None ->
  let '(d', x) := refreshOnce o k t client presented r other d in
  x = Err (OAuthErr (reused client tok)) /\
  (forall c, c ∈ d_tokens d' -> t_Family c = t_Family tok -> t_Revoked c <> None) /\
  length (d_tokens d') = length (d_tokens (other 1 (other 0 d))).
Proof.
  intros F N. unfold refreshOnce. rewrite F. destruct (t_Consumed tok) as [at_|] eqn:C; [|done]. cbn [is_null negb].
  split; [done|]. split.
  - intros c Hc Hf Hr. apply elem_of_revoked in Hc as [_ E]; [|by rewrite Hr].
    unfold in_family in E. by rewrite Hf, Hr, String.eqb_refl in E.
  - cbn. unfold update_where. apply length_map.
Qed.

Lemma sa_scopes_granted allowed asked granted : sa_scopes allowed asked = Ok granted ->
  granted = List.filter (containsString allowed) (scopeList asked) /\ granted <> [].
Proof.
  unfold sa_scopes. destruct (scopeList asked) as [|s l] eqn:E; [by destruct (scopeList_nonempty asked)|]. rewrite <- E.
  destruct (List.filter _ _) eqn:F; [done|]. by intros [= <-].
Qed.

(** A service account's token carries only scopes that were both asked for
    and allowed to the account, at least one; it is bound to the server the
    account is bound to; and no refresh token comes with it. *)
Theorem account_token_never_exceeds_the_account o k t form clientID secret r other d d' x :
  clientCredentials o k t form clientID secret r other d = (d', Ok x) ->
  exists acc p allowed granted epoch,
    o_Accounts o = Some acc /\ AuthenticateServiceAccount acc clientID secret = Ok (p, allowed) /\
    ServiceAccountTokenEpoch acc (p_OrgID p) (p_ID p) = Ok (epoch, true) /\
    granted <> [] /\ (forall s, s ∈ granted <-> s ∈ scopeList (form_get form "scope") /\ s ∈ allowed) /\
    scopeList (tr_Scope x) = granted /\ tr_RefreshToken x = "" /\ d' = d /\
    is_Subject (tr_Issued x) = "svc_" +:+ p_ID p /\
    (p_ServerID p <> "" -> is_ServerID (tr_Issued x) = p_ServerID p) /\
    (form_get form "resource" <> "" -> is_ServerID (tr_Issued x) = serverFromResource (form_get form "resource") /\
                                       is_ServerID (tr_Issued x) <> "").
Proof.
  unfold clientCredentials. destruct (o_Accounts o) as [acc|]; [|done].
  destruct (String.eqb secret ""); [done|].
  destruct (AuthenticateServiceAccount acc clientID secret) as [[p allowed]|] eqn:A; [|done].
  destruct (sa_server p _) as [serverID|] eqn:S; [|done].
  destruct (sa_scopes allowed _) as [granted|] eqn:G; [|done]. apply sa_scopes_granted in G as [G N].
  destruct (ServiceAccountTokenEpoch acc _ _) as [[epoch []]|] eqn:E; [|done..]. cbn [negb].
  intros H. apply (proj2 (issueToken_first o k _ _ (sa_grant clientID p serverID granted epoch) r _ _ d eq_refl eq_refl)) in H
    as (access & _ & -> & [(_ & _ & ->)|([?|?] & _)]); [|done..].
  exists acc, p, allowed, granted, epoch. split_and!; try done.
  - intros s. rewrite G, list_elem_of_In, filter_In, <- list_elem_of_In, containsString_elem. done.
  - cbn -[scopeList Join]. rewrite scopeList_idem. apply scopeList_Join; [done|]. apply Forall_forall. intros s Hs.
    rewrite G, list_elem_of_In, filter_In, <- list_elem_of_In in Hs. by eapply scopeList_known, Hs.
  - cbn. intros P. unfold sa_server in S. destruct (_ && _); [done|]. rewrite (proj2 (String.eqb_neq _ _)) in S by done.
    destruct (_ && _); [done|]. by injection S.
  - cbn. intros P. unfold sa_server in S. rewrite (proj2 (String.eqb_neq _ "")) in S by done.
    destruct (String.eqb_spec (serverFromResource (form_get form "resource")) "") as [?|Q]; [done|]. cbn [negb andb] in S.
    destruct (String.eqb (p_ServerID p) ""); [by injection S as <-|].
    destruct (String.eqb_spec (serverFromResource (form_get form "resource")) (p_ServerID p)) as [E'|]; [|done].
    injection S as <-. by rewrite <- E'.
Qed.
End refusals.

(** ** An instance small enough to run *)

#[export] Instance plain_web : Web := {|
  ParseURL s := Some (mkURL "https" "host" "/mcp/srv" "");
  SetQuery base _ := base;
  Sum256 s := s;
  Quoted s := s;
  IsInet _ := true;
|}.

Definition example_client : Client := mkClient "smc_1" "" "editor" ["app:/cb"] ["authorization_code"; "refresh_token"] "none" "" "approved".
Definition example_clients : list client_row := [mkClientRow "c1" example_client None None None].

Definition example_request : AuthRequest :=
  mkAuthRequest "req1" example_client "app:/cb" "" (b64 "verifier") "S256" "mcp:tools:read offline_access" "" "srv".
Definition example_consent : Consent := mkConsent "u1" "o1" "srv" "s1" ["pwd"].
Definition example_session : session_row := mkSessionRow "s1" "u1" "o1" "pub1" 1000000 1000000 None.
Definition example_form : Form :=
  [("grant_type", ["authorization_code"]); ("code", ["code1"]); ("code_verifier", ["verifier"]); ("redirect_uri", ["app:/cb"])].

Definition draw (n : string) : draws := mkDraws ("jti" +:+ n) ("secret" +:+ n) ("tok" +:+ n).

Definition example_query : Form :=
  [("client_id", ["smc_1"]); ("response_type", ["code"]); ("code_challenge", [b64 "verifier"]); ("code_challenge_method", ["S256"]);
   ("scope", ["mcp:tools:read offline_access"]); ("resource", ["https://host/mcp/srv"])].

Definition example_server : OAuthServer := NewOAuth "https://mcp.example/" None.
Definition example_db : db := mkDB example_clients [] [] [] [example_session].

Lemma authorization_taken_up_exactly_witness :
  exists d' req, BeginAuthorization 10 example_query "req1" example_db = (d', Ok req) /\ ar_ServerID req = "srv".
Proof.
  assert (forall r, r ∈ d_requests example_db -> q_ID r <> "req1") as Fr by (by intros r ?%elem_of_nil).
  eexists _, _. split; [|shelve].
  apply (authorization_taken_up_exactly 10 example_query "req1" example_db _ _ Fr). exists example_client, "app:/cb".
  split; [|split; reflexivity]. constructor; try reflexivity; try discriminate.
  - exists (mkClientRow "c1" example_client None None None). split; reflexivity.
  - split; [reflexivity|left].
  Unshelve. reflexivity.
Defined.

Definition example_clocks (t : Z) : clocks := mkClocks t t t t t.

Definition example_row : code_row := consent_code 20 example_request example_consent "code1".
Definition example_code_db : db := with_codes (fun l => l ++ [example_row]) example_db.

Definition plain_signer (c : Claims) : Signer := mkSigner (fun _ => Ok "token") (fun _ => Ok (claims_read c)).

Lemma code_exchange_exactly_witness :
  (exists d' x, exchangeCode example_server (plain_signer []) (example_clocks 30) example_client example_form (draw "A")
     (fun _ d => d) example_code_db = (d', Ok x)) /\
  ~ (exists d' x, exchangeCode example_server (plain_signer []) (example_clocks (21 + CodeTTL)) example_client example_form (draw "A")
     (fun _ d => d) example_code_db = (d', Ok x)).
Proof.
  split.
  - apply (code_exchange_exactly example_server (plain_signer []) (example_clocks 30) example_client example_form (draw "A")
      (fun _ d => d) example_code_db example_row (Some "pub1") "token"); try discriminate; try reflexivity.
    split; [|reflexivity]. constructor; try reflexivity; [discriminate|by right].
  - intros H. apply (code_exchange_exactly example_server (plain_signer []) (example_clocks (21 + CodeTTL)) example_client example_form (draw "A")
      (fun _ d => d) example_code_db example_row (Some "pub1") "token") in H as [[_ F _ _ _] _]; try discriminate; try reflexivity.
    by apply F.
Defined.

Lemma consent_leads_to_its_token_witness :
  let g := code_grant example_client example_row (Some "pub1") in
  let claims := issue_claims example_server 30 "jtiA" g in
  exists d3 resp,
    Token example_server (plain_signer claims) (example_clocks 30) (example_clocks 30) example_form "smc_1" "" (draw "A") (draw "B")
      (fun _ d => d) (Approve example_server 20 (loaded_request example_query "req1" example_client "app:/cb") example_consent "code1"
        (BeginAuthorization 10 example_query "req1" example_db).1).1 = (d3, Ok resp) /\
    PrincipalFromToken example_server (plain_signer claims) (Some (fun _ => Ok false)) 40 (tr_AccessToken resp) =
      Ok (mkPrincipal KindUser "u1" "o1" "" "" "smc_1" "srv" ["mcp:tools:read"; "offline_access"] false "oauth_at" "" false no_sign_in).
Proof.
  intros g claims.
  pose proof (consent_leads_to_its_token example_server (plain_signer claims) (plain_signer claims) (Some (fun _ => Ok false))
    example_query "req1" 10 15 example_db (BeginAuthorization 10 example_query "req1" example_db).1
    (loaded_request example_query "req1" example_client "app:/cb") 20 example_consent "code1"
    (Approve example_server 20 (loaded_request example_query "req1" example_client "app:/cb") example_consent "code1"
        (BeginAuthorization 10 example_query "req1" example_db).1).1 "app:/cb"
    (example_clocks 30) (example_clocks 30) example_form "smc_1" "" (draw "A") (draw "B")
    (mkClientRow "c1" example_client None None None) example_session "token" 40) as H.
  destruct H as [_ H].
  - by intros x ?%elem_of_nil.
  - reflexivity.
  - reflexivity.
  - destruct H as (d3 & resp & E & P); try (lazymatch goal with |- @eq _ _ _ => reflexivity | |- _ <> _ => discriminate | |- (_ <= _)%Z => discriminate end); [split; discriminate || reflexivity|by intros x ?%elem_of_nil|].
    exists d3, resp. split; [exact E|]. rewrite P. reflexivity.
Defined.

(** A service account asks for more than it has. *)
Definition example_accounts : Accounts := mkAccounts
  (fun id secret => if String.eqb secret "s3cret" then Ok (mkPrincipal KindServiceAccount "acc1" "o1" "" "" "" "srv" [] false "" "" false no_sign_in,
                                                           ["mcp:tools:read"; "scim:write"]) else Err "wrong secret")
  (fun org id => Ok (3, true)%Z).

Definition accounts_server : OAuthServer := mkOAuthServer "https://mcp.example" DCRApproval (fun _ => true) (Some example_accounts).

Lemma account_token_never_exceeds_the_account_witness :
  exists x, clientCredentials accounts_server (plain_signer []) (example_clocks 30) [("scope", ["mcp:tools:invoke mcp:tools:read"])] "svc" "s3cret"
      (draw "A") (fun _ d => d) example_db = (example_db, Ok x) /\ scopeList (tr_Scope x) = ["mcp:tools:read"] /\ is_ServerID (tr_Issued x) = "srv".
Proof.
  eexists. split; [reflexivity|].
  destruct (account_token_never_exceeds_the_account accounts_server (plain_signer []) (example_clocks 30)
    [("scope", ["mcp:tools:invoke mcp:tools:read"])] "svc" "s3cret" (draw "A") (fun _ d => d) example_db example_db _ eq_refl)
    as (acc & p & allowed & granted & epoch & A & B & _ & _ & G & S & _ & _ & _ & Sv & _).
  injection A as <-. injection B as <- <-. split; [reflexivity|]. apply Sv. discriminate.
Defined.

(** An account that may do no more than write users is refused the moment it
    names no scope: what it is asked for then is the default, not what it
    has. *)
Example no_scope_is_the_default_scopes :
  sa_scopes ["scim:write"] "" = refused "invalid_scope" "none of the requested scopes are granted to this service account" /\
  sa_scopes ["mcp:tools:invoke"; "offline_access"] "" = Ok ["mcp:tools:invoke"] /\
  scopeList "admin:everything" = ["mcp:tools:read"; "mcp:tools:invoke"].
Proof. repeat split. Qed.

Lemma rejected_client_is_cut_off_witness :
  let d := (DecideClient 50 "smc_1" false "op" example_code_db).1 in
  Token example_server (plain_signer []) (example_clocks 60) (example_clocks 60) example_form "smc_1" "" (draw "A") (draw "B") (fun _ d => d) d =
    (d, refused "unauthorized_client" "this client is not approved on this instance").
Proof.
  intros d. destruct (rejected_client_is_cut_off 50 "smc_1" "op" example_code_db d example_client 0 eq_refl) as (_ & _ & H).
  apply H; discriminate.
Defined.
