(* ===== verification/OAuthFlow.v ===== *)
(** * OAuthFlow: requests to the authorization server, interleaved

    Many requests run against the tables at once.  Here a token request is
    split where others can run: it reads (and a code is consumed as it is
    read), and later it issues, in the one transaction of [issueToken].
    Ending a session, rejecting a client, deactivating a person and burning
    a family are split the same way, down to the single UPDATE: under READ
    COMMITTED a statement works on the rows its snapshot saw when it began,
    re-checks them as it reaches them, and does not see a row another
    transaction committed meanwhile.  [OpSnapshot] takes that snapshot and
    [OpApply] writes.  [auth_session_replace] reads the two sessions in one
    statement ([OpReplace]) and moves the tokens in a later one
    ([OpReplaced]); it locks the old session only.  What that lock keeps
    waiting may run here all the same: the theorems do not need it.

    A [flow] is the tables, what is in flight and what was answered, with
    the names ever used, so that a fresh one can be asked for.  The theorems
    hold in every reachable flow, that is after any interleaving of any
    number of requests. *)
From S2P Require Import Prelude Tables GoStrings Base64 Float64 Values Authz OAuth.

Open Scope list_scope.

Inductive origin : Type := FromCode (code : string) | FromToken (id : string).

#[export] Instance origin_eq_dec : EqDecision origin.
Proof. solve_decision. Defined.

(** A token request that was read and checked, before its transaction. *)
Record pending : Type := mkPending { pe_origin : origin; pe_grant : grant }.

(** What a revoking UPDATE selects. *)
Inductive target : Type :=
  | RFamily (family : string)
  | RSessions (sids : list string)
  | RPrincipal (org user : string)
  | RClient (clientID : string).

(** One in flight: the ids its snapshot selected, once it has one. *)
Record revoking : Type := mkRevoking { rv_target : target; rv_rows : option (list string) }.

(** A token response: [an_child] is the id of its refresh token's row. *)
Record answer : Type := mkAnswer { an_origin : origin; an_grant : grant; an_child : option string }.

(** A replacement of one session by another that found it may go ahead. *)
Record replacing : Type := mkReplacing { rp_old : string; rp_new : string; rp_amr : list string }.

(** [f_overtaken] is kept for the proofs: the sessions that had ended when a
    replacement moved tokens onto them. *)
Record flow : Type := mkFlow {
  f_db : db;
  f_pending : list pending;
  f_revoking : list revoking;
  f_answers : list answer;
  f_consents : list code_row;
  f_ids : list string;
  f_sids : list string;
  f_replacing : list replacing;
  f_overtaken : list string;
}.

Definition with_db (h : db -> db) (f : flow) : flow :=
  mkFlow (h (f_db f)) (f_pending f) (f_revoking f) (f_answers f) (f_consents f) (f_ids f) (f_sids f) (f_replacing f) (f_overtaken f).
Definition with_pending (h : list pending -> list pending) (f : flow) : flow :=
  mkFlow (f_db f) (h (f_pending f)) (f_revoking f) (f_answers f) (f_consents f) (f_ids f) (f_sids f) (f_replacing f) (f_overtaken f).
Definition with_revoking (h : list revoking -> list revoking) (f : flow) : flow :=
  mkFlow (f_db f) (f_pending f) (h (f_revoking f)) (f_answers f) (f_consents f) (f_ids f) (f_sids f) (f_replacing f) (f_overtaken f).
Definition with_sids (h : list string -> list string) (f : flow) : flow :=
  mkFlow (f_db f) (f_pending f) (f_revoking f) (f_answers f) (f_consents f) (f_ids f) (h (f_sids f)) (f_replacing f) (f_overtaken f).
Definition with_replacing (h : list replacing -> list replacing) (f : flow) : flow :=
  mkFlow (f_db f) (f_pending f) (f_revoking f) (f_answers f) (f_consents f) (f_ids f) (f_sids f) (h (f_replacing f)) (f_overtaken f).
Definition overtake (l : list string) (f : flow) : flow :=
  mkFlow (f_db f) (f_pending f) (f_revoking f) (f_answers f) (f_consents f) (f_ids f) (f_sids f) (f_replacing f) (l ++ f_overtaken f).

Definition begin_revoking (t : target) (f : flow) : flow := with_revoking (cons (mkRevoking t None)) f.

Definition targeted (tgt : target) (d : db) (t : token_row) : bool :=
  is_null (t_Revoked t) &&
  match tgt with
  | RFamily family => String.eqb (t_Family t) family
  | RSessions sids => containsString (families_of sids d) (t_Family t)
  | RPrincipal org user => String.eqb (t_OrgID t) org && String.eqb (t_UserID t) user
  | RClient clientID => String.eqb (t_ClientID t) clientID
  end.

(** The rows of the snapshot that are still to revoke. *)
Definition in_snapshot (rows : list string) (t : token_row) : bool := containsString rows (t_ID t) && is_null (t_Revoked t).

Section flow.
Context `{W : Web}.

(** ** Steps *)

Inductive op : Type :=
  (** a browser session opens *)
  | OpSession (s : session_row)
  (** a person consents *)
  | OpApprove (now : Z) (req : AuthRequest) (c : Consent) (code : string)
  (** a token request reads its code, or its refresh token *)
  | OpCode (now now' dbnow : Z) (client : Client) (form : Form)
  | OpPresent (now : Z) (client : Client) (presented : string)
  (** and issues, or is lost *)
  | OpIssue (i : nat) (now dbnow : Z) (r : draws)
  | OpDrop (i : nat)
  (** sessions end *)
  | OpSessionEnd (dbnow : Z) (id : string)
  | OpEndOthers (dbnow : Z) (user keep : string)
  | OpPrincipalEnd (dbnow : Z) (org user : string)
  (** a session is to be replaced: the old one is locked, and both are read *)
  | OpReplace (dbnow : Z) (old new : string) (amr : list string)
  (** and it is: the tokens are moved and the old session ends *)
  | OpReplaced (k : nat) (dbnow : Z)
  (** a client is decided, a token revoked *)
  | OpDecide (dbnow : Z) (clientID : string) (approve : bool) (by_ : string)
  | OpRevoke (token : string)
  (** a revoking UPDATE begins, and writes *)
  | OpSnapshot (j : nat)
  | OpApply (j : nat) (dbnow : Z)
  (** housekeeping *)
  | OpPrune (dbnow : Z)
  | OpPruneSessions (dbnow : Z).

Definition set_revoking (j : nat) (v : revoking) (f : flow) : flow := with_revoking (<[ j := v ]>) f.

(** Mark the sessions ended, and begin revoking what they granted. *)
Definition end_sessions (p : session_row -> bool) (dbnow : Z) (also : list string) (f : flow) : flow :=
  let '(d, ended) := end_where p dbnow (f_db f) in
  begin_revoking (RSessions (also ++ ended)) (with_sids (fun l => also ++ l) (with_db (fun _ => d) f)).

Definition issued (p : pending) (r : draws) (d : db) (i : nat) (f : flow) : flow :=
  mkFlow d (delete i (f_pending f)) (f_revoking f)
    (f_answers f ++ [mkAnswer (pe_origin p) (pe_grant p) (if with_refresh (pe_grant p) then Some (dr_id r) else None)])
    (f_consents f) (dr_id r :: f_ids f) (f_sids f) (f_replacing f) (f_overtaken f).

Definition exec (a : op) (f : flow) : flow :=
  match a with
  | OpSession s => with_sids (cons (s_ID s)) (with_db (with_sessions (fun l => l ++ [s])) f)
  | OpApprove now req c code =>
      let row := consent_code now req c code in
      mkFlow (delete_request (ar_ID req) (with_codes (fun l => l ++ [row]) (f_db f))) (f_pending f) (f_revoking f) (f_answers f)
        (row :: f_consents f) (f_ids f) (f_sids f) (f_replacing f) (f_overtaken f)
  | OpCode now now' dbnow client form =>
      let '(d, read) := code_tx now dbnow (form_get form "code") (f_db f) in
      let f := with_db (fun _ => d) f in
      match code_check now' client form read with
      | Ok g => with_pending (cons (mkPending (FromCode (form_get form "code")) g)) f
      | Err _ => f
      end
  | OpPresent now client presented =>
      match find_token (f_db f) (Sum256 presented) (c_ClientID client) with
      | None => f
      | Some t =>
          if negb (is_null (t_Consumed t)) then begin_revoking (RFamily (t_Family t)) f
          else if negb (is_null (t_Revoked t)) || (t_Expires t <? now)%Z then f
          else with_pending (cons (mkPending (FromToken (t_ID t))
                 (refresh_grant client t (public_of (f_db f) (t_SessionID t))))) f
      end
  | OpIssue i now dbnow r =>
      match f_pending f !! i with
      | None => f
      | Some p =>
          match issue_tx now dbnow (pe_grant p) r (f_db f) with
          | inl d => issued p r d i f
          | inr SessionEnded =>
              let f := with_pending (delete i) f in
              if String.eqb (g_familyID (pe_grant p)) "" then f else begin_revoking (RFamily (g_familyID (pe_grant p))) f
          | inr _ => with_pending (delete i) f
          end
      end
  | OpDrop i => with_pending (delete i) f
  | OpSessionEnd dbnow id => end_sessions (fun s => String.eqb (s_ID s) id) dbnow [id] f
  | OpEndOthers dbnow user keep =>
      end_sessions (fun s => String.eqb (s_UserID s) user && negb (String.eqb (s_ID s) keep)) dbnow [] f
  | OpPrincipalEnd dbnow org user =>
      begin_revoking (RPrincipal org user) (end_sessions (fun s => String.eqb (s_UserID s) user) dbnow [] f)
  | OpReplace dbnow old new amr =>
      if replaceable dbnow old new (f_db f) then with_replacing (cons (mkReplacing old new amr)) f
      else end_sessions (fun s => String.eqb (s_ID s) old) dbnow [old] f
  | OpReplaced k dbnow =>
      match f_replacing f !! k with
      | None => f
      | Some (mkReplacing old new amr) =>
          let families := families_of [old] (f_db f) in
          with_db (fun d => (end_where (fun s => String.eqb (s_ID s) old) dbnow
            (with_tokens (update_where (of_families families) (fun t => set_amr amr (move_token new t))) d)).1)
            (overtake (if session_ended_row (f_db f) new then [new] else []) (with_replacing (delete k) f))
      end
  | OpDecide dbnow clientID approve by_ =>
      match find_client (f_db f) clientID with
      | None => f
      | Some _ =>
          let f := with_db (with_clients (update_where (fun r => String.eqb (c_ClientID (cr_Client r)) clientID)
                     (decide_row (if approve then "approved" else "rejected") by_ dbnow))) f in
          if approve then f else begin_revoking (RClient clientID) f
      end
  | OpRevoke token =>
      match List.find (fun t => String.eqb (t_Hash t) (Sum256 token)) (d_tokens (f_db f)) with
      | None => f
      | Some t => begin_revoking (RFamily (t_Family t)) f
      end
  | OpSnapshot j =>
      match f_revoking f !! j with
      | Some (mkRevoking tgt None) =>
          set_revoking j (mkRevoking tgt (Some (map t_ID (List.filter (targeted tgt (f_db f)) (d_tokens (f_db f)))))) f
      | _ => f
      end
  | OpApply j dbnow =>
      match f_revoking f !! j with
      | Some (mkRevoking _ (Some rows)) =>
          with_revoking (delete j) (with_db (with_tokens (update_where (in_snapshot rows) (revoke_token dbnow))) f)
      | _ => f
      end
  | OpPrune dbnow => with_db (PruneExpired dbnow) f
  | OpPruneSessions dbnow => with_db (PruneSessions dbnow) f
  end.

(** What must be fresh: the random strings and the ids a step draws, and the
    ids of new sessions; the clock does not go back inside one call, and a
    session is replaced by another. *)
Definition enabled (a : op) (f : flow) : Prop :=
  match a with
  | OpSession s => s_ID s <> "" /\ (s_ID s ∉ f_sids f) /\ s_Revoked s = None
  | OpApprove _ _ _ code => code ∉ map k_Code (f_consents f)
  | OpCode now now' _ _ _ => (now <= now')%Z
  | OpReplace _ old new _ => old <> new
  | OpIssue _ _ _ r => dr_id r <> "" /\ (dr_id r ∉ f_ids f)
  | _ => True
  end.

Definition start (clients : list client_row) : flow := mkFlow (mkDB clients [] [] [] []) [] [] [] [] [] [] [] [].

Inductive reach (clients : list client_row) : flow -> Prop :=
  | reach_start : reach clients (start clients)
  | reach_step f a : reach clients f -> enabled a f -> reach clients (exec a f).
End flow.

(** ** What a step does to the tokens

    Only issuing adds a row or spends one.  Every other step leaves the rows
    it keeps as they were, except that it may revoke them, or move them to
    another session. *)

Record older (t' t : token_row) : Prop := {
  ol_id : t_ID t' = t_ID t;
  ol_family : t_Family t' = t_Family t;
  ol_client : t_ClientID t' = t_ClientID t;
  ol_user : t_UserID t' = t_UserID t;
  ol_org : t_OrgID t' = t_OrgID t;
  ol_server : t_ServerID t' = t_ServerID t;
  ol_scope : t_Scope t' = t_Scope t;
  ol_consumed : t_Consumed t' = t_Consumed t;
  ol_revoked : t_Revoked t' = None -> t_Revoked t = None;
}.

Record shrinks (l' l : list token_row) : Prop := {
  sh_ids : sublist (map t_ID l') (map t_ID l);
  sh_rows : forall t', t' ∈ l' -> exists t, t ∈ l /\ older t' t;
}.

Lemma older_refl t : older t t.
Proof. by constructor. Qed.

Lemma shrinks_refl l : shrinks l l.
Proof. constructor; [done|]. intros t Ht. exists t. split; [done|apply older_refl]. Qed.

Lemma shrinks_update p h l : (forall t, older (h t) t) -> shrinks (update_where p h l) l.
Proof.
  intros H. constructor.
  - apply reflexive_eq. unfold update_where. rewrite map_map. apply map_ext. intros t. destruct (p t); [apply H|done].
  - intros t' (t & Ht & ->)%elem_of_update. exists t. split; [done|]. destruct (p t); [apply H|apply older_refl].
Qed.

Lemma shrinks_delete p l : shrinks (delete_where p l) l.
Proof.
  constructor.
  - unfold delete_where. induction l as [|t l IH]; [done|]. simpl. destruct (p t); simpl; by constructor.
  - intros t [Ht _]%elem_of_delete. exists t. split; [done|apply older_refl].
Qed.

Lemma older_revoke at_ t : older (revoke_token at_ t) t.
Proof. by constructor. Qed.

Lemma older_move new amr t : older (set_amr amr (move_token new t)) t.
Proof. by constructor. Qed.

#[export] Hint Resolve shrinks_refl shrinks_update shrinks_delete older_revoke older_move : go.

Section steps.
Context `{W : Web}.

Lemma end_sessions_tokens p dbnow also f : d_tokens (f_db (end_sessions p dbnow also f)) = d_tokens (f_db f).
Proof. done. Qed.

Lemma code_tx_tokens now dbnow code d : d_tokens (code_tx now dbnow code d).1 = d_tokens d.
Proof. unfold code_tx. destruct (List.find _ _); [|done]. simpl. by destruct (_ || _). Qed.

Lemma code_tx_read now dbnow code d :
  (code_tx now dbnow code d).2 = (fun c => (c, public_of d (k_SessionID c))) <$> find_code d code.
Proof. unfold code_tx, find_code. by destruct (List.find _ _). Qed.

(** The tokens after the transaction of [issueToken]. *)
Definition spend (dbnow : Z) (g : grant) (l : list token_row) : list token_row :=
  if String.eqb (g_consumeID g) "" then l else update_where (spendable g) (consume_token dbnow) l.

Definition issue_rows (now dbnow : Z) (g : grant) (r : draws) (l : list token_row) : list token_row :=
  spend dbnow g l ++ (if with_refresh g then [child_of now g r] else []).

Lemma issue_tx_inl now dbnow g r d d' : issue_tx now dbnow g r d = inl d' ->
  session_open g d = true /\
  (g_consumeID g = "" \/ length (List.filter (spendable g) (d_tokens d)) = 1) /\
  d' = with_tokens (issue_rows now dbnow g r) d /\
  (with_refresh g = true -> forall t, t ∈ spend dbnow g (d_tokens d) -> t_ID t <> dr_id r).
Proof.
  unfold issue_tx, session_open, issue_rows, spend.
  destruct (String.eqb (g_sessionID g) ""); cbn [negb andb orb]; [|destruct (session_ended_row _ _); [done|]];
    (destruct (String.eqb_spec (g_consumeID g) "") as [E|E]; cbn [negb andb];
     [|destruct (Nat.eqb_spec (length (List.filter (spendable g) (d_tokens d))) 1); [|done]]; cbn [negb]);
    unfold insert_token; (destruct (with_refresh g); [destruct (existsb _ _) eqn:X; [done|]|]); intros [= <-];
    (split; [done|]); (split; [auto|]); (split; [destruct d; unfold with_tokens; simpl; rewrite ?app_nil_r; done|]);
    intros R t Ht; try done; rewrite existsb_false_elem in X; specialize (X t Ht); by bool_prop.
Qed.

(** Issuing is the one step that is not a [shrinks]. *)
Definition issues (a : op) (f : flow) : option (nat * pending * Z * Z * draws * db) :=
  match a with
  | OpIssue i now dbnow r =>
      match f_pending f !! i with
      | Some p => match issue_tx now dbnow (pe_grant p) r (f_db f) with
                  | inl d => Some (i, p, now, dbnow, r, d)
                  | inr _ => None
                  end
      | None => None
      end
  | _ => None
  end.

Lemma exec_issues a f i p now dbnow r d : issues a f = Some (i, p, now, dbnow, r, d) ->
  exec a f = issued p r d i f /\ a = OpIssue i now dbnow r /\ f_pending f !! i = Some p /\
  issue_tx now dbnow (pe_grant p) r (f_db f) = inl d.
Proof.
  destruct a; try done. simpl. destruct (f_pending f !! i0) as [p'|] eqn:P; [|done].
  destruct (issue_tx _ _ _ _ _) as [d'|] eqn:E; [|done]. intros [= -> -> -> -> -> ->]. by rewrite P, E.
Qed.

Lemma exec_shrinks a f : issues a f = None -> shrinks (d_tokens (f_db (exec a f))) (d_tokens (f_db f)).
Proof.
  destruct a; simpl; intros H; auto with go.
  - pose proof (code_tx_tokens now dbnow (form_get form "code") (f_db f)) as E.
    destruct (code_tx _ _ _ _) as [d read]. simpl in E. destruct (code_check _ _ _ _); simpl; rewrite E; auto with go.
  - destruct (find_token _ _ _) as [t|]; auto with go. destruct (negb _); [simpl; auto with go|].
    destruct (_ || _); simpl; auto with go.
  - destruct (f_pending f !! i) as [p|]; auto with go. destruct (issue_tx _ _ _ _ _) as [|[]]; try done; auto with go.
    simpl. destruct (String.eqb _ _); simpl; auto with go.
  - destruct (replaceable _ _ _ _); simpl; auto with go.
  - destruct (f_replacing f !! k) as [[]|]; simpl; auto with go.
  - destruct (find_client _ _); auto with go. destruct approve; simpl; auto with go.
  - destruct (List.find _ _); auto with go.
  - destruct (f_revoking f !! j) as [[tgt [rows|]]|]; simpl; auto with go.
  - destruct (f_revoking f !! j) as [[tgt [rows|]]|]; simpl; auto with go.
Qed.

(** A request becomes pending by being read: its code was checked, or its
    refresh token found unspent. *)
Inductive read_in (a : op) (f : flow) (p : pending) : Prop :=
  | read_code now now' dbnow client form c : a = OpCode now now' dbnow client form -> find_code (f_db f) (form_get form "code") = Some c -> redeems now' client form c ->
      p = mkPending (FromCode (form_get form "code")) (code_grant client c (public_of (f_db f) (k_SessionID c))) -> read_in a f p
  | read_token now client presented t : a = OpPresent now client presented -> t ∈ d_tokens (f_db f) -> t_ClientID t = c_ClientID client -> t_Consumed t = None -> t_Revoked t = None ->
      p = mkPending (FromToken (t_ID t)) (refresh_grant client t (public_of (f_db f) (t_SessionID t))) -> read_in a f p.

Lemma exec_pending_list a f : sublist (f_pending (exec a f)) (f_pending f) \/
  exists p, f_pending (exec a f) = p :: f_pending f /\ read_in a f p.
Proof.
  destruct a; simpl; auto using sublist_delete.
  - pose proof (code_tx_read now dbnow (form_get form "code") (f_db f)) as E.
    destruct (code_tx _ _ _ _) as [d read]. simpl in E. subst read.
    destruct (code_check _ _ _ _) as [g|] eqn:K; [|auto]. destruct (find_code _ _) as [c|] eqn:F; [|done].
    apply code_check_ok in K as [R ->]. right. eexists. split; [done|]. by eapply (read_code _ _ _ now now' dbnow client form c).
  - destruct (find_token _ _ _) as [t|] eqn:F; auto. apply find_elem in F as [Ht E]. bool_prop.
    destruct (t_Consumed t) eqn:C; [simpl; auto|]. destruct (t_Revoked t) eqn:R; [simpl; auto|]. simpl.
    destruct (_ <? _)%Z; simpl; auto. right. eexists. split; [done|]. by eapply (read_token _ _ _ now client presented t).
  - destruct (f_pending f !! i) as [q|]; auto. destruct (issue_tx _ _ _ _ _) as [|[]]; simpl; auto using sublist_delete.
    destruct (String.eqb _ _); simpl; auto using sublist_delete.
  - destruct (replaceable _ _ _ _); auto.
  - destruct (f_replacing f !! k) as [[]|]; simpl; auto.
  - destruct (find_client _ _); auto. destruct approve; auto.
  - destruct (List.find _ _); auto.
  - destruct (f_revoking f !! j) as [[tgt [rows|]]|]; simpl; auto.
  - destruct (f_revoking f !! j) as [[tgt [rows|]]|]; simpl; auto.
Qed.

Lemma exec_pending a f p : p ∈ f_pending (exec a f) -> p ∈ f_pending f \/ read_in a f p.
Proof.
  destruct (exec_pending_list a f) as [S|(q & -> & R)].
  - intros H. left. by eapply elem_of_subseteq, H; apply sublist_subseteq.
  - intros [->|H]%elem_of_cons; auto.
Qed.

(** Codes are written once, by consent, and then only consumed. *)
Record code_kept (c' c : code_row) : Prop := {
  ck_code : k_Code c' = k_Code c;
  ck_client : k_ClientID c' = k_ClientID c;
  ck_user : k_UserID c' = k_UserID c;
  ck_org : k_OrgID c' = k_OrgID c;
  ck_server : k_ServerID c' = k_ServerID c;
  ck_scope : k_Scope c' = k_Scope c;
  ck_consumed : k_Consumed c' = None -> k_Consumed c = None;
}.

Lemma code_kept_refl c : code_kept c c.
Proof. by constructor. Qed.
#[local] Hint Resolve code_kept_refl : go.

Definition consented (a : op) : option code_row :=
  match a with OpApprove now req c code => Some (consent_code now req c code) | _ => None end.

Lemma code_tx_codes now dbnow code d c' : c' ∈ d_codes (code_tx now dbnow code d).1 -> exists c, c ∈ d_codes d /\ code_kept c' c.
Proof.
  unfold code_tx. destruct (List.find _ _); simpl; [|eauto with go]. destruct (_ || _); simpl; [eauto with go|].
  intros (x & Hx & ->)%elem_of_update. exists x. split; [done|]. destruct (String.eqb _ _); by constructor.
Qed.

Lemma exec_codes a f c' : c' ∈ d_codes (f_db (exec a f)) ->
  (exists c, c ∈ d_codes (f_db f) /\ code_kept c' c) \/ consented a = Some c'.
Proof.
  destruct a; simpl; eauto with go.
  - intros [H|H]%elem_of_app; [eauto with go|]. apply list_elem_of_singleton in H as ->. by right.
  - pose proof (code_tx_codes now dbnow (form_get form "code") (f_db f) c') as X.
    destruct (code_tx _ _ _ _) as [d read]. destruct (code_check _ _ _ _); simpl in *; eauto.
  - destruct (find_token _ _ _) as [t|]; eauto with go. destruct (negb _); [simpl; eauto with go|].
    destruct (_ || _); simpl; eauto with go.
  - destruct (f_pending f !! i) as [p|]; eauto with go.
    destruct (issue_tx _ _ _ _ _) as [d|[]] eqn:E; [apply issue_tx_inl in E as (_ & _ & -> & _)|..]; simpl; eauto with go.
    destruct (String.eqb _ _); simpl; eauto with go.
  - destruct (replaceable _ _ _ _); simpl; eauto with go.
  - destruct (f_replacing f !! k) as [[]|]; simpl; eauto with go.
  - destruct (find_client _ _); eauto with go. destruct approve; simpl; eauto with go.
  - destruct (List.find _ _); simpl; eauto with go.
  - destruct (f_revoking f !! j) as [[tgt [rows|]]|]; simpl; eauto with go.
  - destruct (f_revoking f !! j) as [[tgt [rows|]]|]; simpl; eauto with go.
  - intros [Hc _]%elem_of_delete. eauto with go.
Qed.

Lemma exec_consents a f : f_consents (exec a f) = option_list (consented a) ++ f_consents f.
Proof.
  destruct a; simpl; try done.
  - destruct (code_tx _ _ _ _) as [d read]. by destruct (code_check _ _ _ _).
  - destruct (find_token _ _ _) as [t|]; [|done]. destruct (negb _); [done|]. by destruct (_ || _).
  - destruct (f_pending f !! i) as [p|]; [|done]. destruct (issue_tx _ _ _ _ _) as [|[]]; try done. simpl. by destruct (String.eqb _ _).
  - by destruct (replaceable _ _ _ _).
  - by destruct (f_replacing f !! k) as [[]|].
  - destruct (find_client _ _); [|done]. by destruct approve.
  - by destruct (List.find _ _).
  - by destruct (f_revoking f !! j) as [[tgt [rows|]]|].
  - by destruct (f_revoking f !! j) as [[tgt [rows|]]|].
Qed.

Lemma exec_answers a f : f_answers (exec a f) =
  f_answers f ++ match issues a f with
                 | Some (_, p, _, _, r, _) => [mkAnswer (pe_origin p) (pe_grant p) (if with_refresh (pe_grant p) then Some (dr_id r) else None)]
                 | None => []
                 end.
Proof.
  destruct a; simpl; rewrite ?app_nil_r; try done.
  - destruct (code_tx _ _ _ _) as [d read]. by destruct (code_check _ _ _ _).
  - destruct (find_token _ _ _) as [t|]; [|done]. destruct (negb _); [done|]. by destruct (_ || _).
  - destruct (f_pending f !! i) as [p|]; [|by rewrite app_nil_r].
    destruct (issue_tx _ _ _ _ _) as [|[]]; rewrite ?app_nil_r; try done. simpl. by destruct (String.eqb _ _).
  - by destruct (replaceable _ _ _ _).
  - by destruct (f_replacing f !! k) as [[]|].
  - destruct (find_client _ _); [|done]. by destruct approve.
  - by destruct (List.find _ _).
  - by destruct (f_revoking f !! j) as [[tgt [rows|]]|].
  - by destruct (f_revoking f !! j) as [[tgt [rows|]]|].
Qed.
End steps.

(** ** Nothing is answered that nobody consented to *)

(** The code a consent wrote vouches for another code row, a grant, a token. *)
Record vouches_code (k c : code_row) : Prop := {
  vc_code : k_Code c = k_Code k;
  vc_client : k_ClientID c = k_ClientID k;
  vc_user : k_UserID c = k_UserID k;
  vc_org : k_OrgID c = k_OrgID k;
  vc_server : k_ServerID c = k_ServerID k;
  vc_scope : k_Scope c = k_Scope k;
}.

Record vouches_grant (k : code_row) (g : grant) : Prop := {
  vg_subject : g_subject g = "user_" +:+ k_UserID k;
  vg_client : g_clientID g = k_ClientID k;
  vg_user : g_userID g = k_UserID k;
  vg_org : g_orgID g = k_OrgID k;
  vg_server : g_serverID g = deref (k_ServerID k);
  vg_scope : scopeList (g_scope g) = scopeList (k_Scope k);
  vg_extra : g_extra g = [];
}.

Record vouches_token (k : code_row) (t : token_row) : Prop := {
  vt_client : t_ClientID t = k_ClientID k;
  vt_user : t_UserID t = k_UserID k;
  vt_org : t_OrgID t = k_OrgID k;
  vt_server : deref (t_ServerID t) = deref (k_ServerID k);
  vt_scope : scopeList (t_Scope t) = scopeList (k_Scope k);
}.

Record authority (f : flow) : Prop := {
  au_codes : forall c, c ∈ d_codes (f_db f) -> exists k, k ∈ f_consents f /\ vouches_code k c;
  au_pending : forall p, p ∈ f_pending f -> exists k, k ∈ f_consents f /\ vouches_grant k (pe_grant p);
  au_tokens : forall t, t ∈ d_tokens (f_db f) -> exists k, k ∈ f_consents f /\ vouches_token k t;
  au_answers : forall a, a ∈ f_answers f -> exists k, k ∈ f_consents f /\ vouches_grant k (an_grant a);
}.

Section authority.
Context `{W : Web}.

Lemma find_code_elem d code c : find_code d code = Some c -> c ∈ d_codes d /\ k_Code c = code.
Proof. intros [H E]%find_elem. by apply String.eqb_eq in E. Qed.

Lemma older_vouched k t' t : older t' t -> vouches_token k t -> vouches_token k t'.
Proof. intros [] []. constructor; congruence. Qed.

Lemma child_vouched k now g r : vouches_grant k g -> vouches_token k (child_of now g r).
Proof.
  intros []. constructor; try done; cbn -[scopeList Join]; [by rewrite nullif_deref|]. by rewrite scopeList_idem.
Qed.

Lemma authority_step f a : authority f -> authority (exec a f).
Proof.
  intros [C P T A].
  assert (forall k, k ∈ f_consents f -> k ∈ f_consents (exec a f)) as K
    by (intros k Hk; rewrite exec_consents; apply elem_of_app; by right).
  constructor.
  - intros c [(c0 & Hc & Ck)|Hc]%exec_codes.
    + destruct (C c0 Hc) as (k & Hk & []). exists k. split; [auto|]. destruct Ck. constructor; congruence.
    + exists c. split; [rewrite exec_consents, Hc; by left|by constructor].
  - intros p [Hp|Hp]%exec_pending; [destruct (P p Hp) as (k & ? & ?); eauto|]. destruct Hp as [now now' dbnow client form c _ F R ->|now client presented t _ Ht Ec _ _ ->].
    + apply find_code_elem in F as [Hc _]. destruct (C c Hc) as (k & Hk & []), R. exists k. split; [auto|].
      constructor; cbn; congruence.
    + destruct (T t Ht) as (k & Hk & []). exists k. split; [auto|]. constructor; cbn; congruence.
  - intros t Ht. destruct (issues a f) as [[[[[[i p] now] dbnow] r] d]|] eqn:E.
    + apply exec_issues in E as (E & _ & Hp & (_ & _ & -> & _)%issue_tx_inl). rewrite E in Ht. cbn in Ht.
      apply list_elem_of_lookup_2 in Hp. destruct (P p Hp) as (k & Hk & V).
      unfold issue_rows, spend in Ht. apply elem_of_app in Ht as [Ht|Ht].
      * destruct (String.eqb _ _); [destruct (T t Ht) as (k' & ? & ?); eauto|].
        apply elem_of_update in Ht as (t0 & Ht & ->). destruct (T t0 Ht) as (k' & ? & []). exists k'. split; [auto|].
        destruct (spendable _ _); by constructor.
      * destruct (with_refresh _); [|by apply elem_of_nil in Ht]. apply list_elem_of_singleton in Ht as ->.
        exists k. split; [auto|by apply child_vouched].
    + apply exec_shrinks in E as [_ E]. destruct (E t Ht) as (t0 & H0 & O). destruct (T t0 H0) as (k & ? & ?).
      exists k. split; [auto|by eapply older_vouched].
  - intros x. rewrite exec_answers. intros [Hx|Hx]%elem_of_app; [destruct (A x Hx) as (k & ? & ?); eauto|].
    destruct (issues a f) as [[[[[[i p] now] dbnow] r] d]|] eqn:E; [|by apply elem_of_nil in Hx].
    apply exec_issues in E as (_ & _ & Hp & _). apply list_elem_of_lookup_2 in Hp. destruct (P p Hp) as (k & ? & ?).
    apply list_elem_of_singleton in Hx as ->. eauto.
Qed.

Lemma authority_start clients : authority (start clients).
Proof. by constructor; intros ? ?%elem_of_nil. Qed.

Lemma reach_authority clients f : reach clients f -> authority f.
Proof. induction 1 as [|f a _ IH _]; [apply authority_start|by apply authority_step]. Qed.

(** C12. Every token response, however many rotations after the consent it comes
    and whatever ran in between, is for the person, organisation, client,
    server and scopes of a consent that was given: a refresh never widens. *)
Theorem every_answer_was_consented_to clients f a :
  reach clients f -> a ∈ f_answers f ->
  exists k, k ∈ f_consents f /\ vouches_grant k (an_grant a) /\
    forall o now jti, obj_get (issue_claims o now jti (an_grant a)) "scope" = Some (VStr (Join (scopeList (k_Scope k)) " ")) /\
                      obj_get (issue_claims o now jti (an_grant a)) "org" = Some (VStr (k_OrgID k)) /\
                      obj_get (issue_claims o now jti (an_grant a)) "aud" = Some (VStr (audience o (deref (k_ServerID k)))).
Proof.
  intros R Ha. destruct (au_answers _ (reach_authority _ _ R) a Ha) as (k & Hk & V). exists k. split; [done|]. split; [done|].
  intros o now jti. destruct V as [_ _ _ <- <- <- X].
  assert (forall e, e ∈ g_extra (an_grant a) -> False) as N by (rewrite X; intros e He; by apply elem_of_nil in He).
  rewrite !issue_claim by (intros e He; by destruct (N e He)). done.
Qed.
End authority.

(** ** A code is answered once, a refresh token is spent once, a family has
    one live token *)

Definition from (x : origin) (p : pending) : bool := bool_decide (pe_origin p = x).
Definition answers_to (x : origin) (a : answer) : bool := bool_decide (an_origin a = x).

(** Requests read from [x] that may still issue, and those that did. *)
Definition answered (x : origin) (f : flow) : nat := length (List.filter (answers_to x) (f_answers f)).
Definition waiting (x : origin) (f : flow) : nat := length (List.filter (from x) (f_pending f)).

(** What pending requests remember of the row they read. *)
Definition remembers (f : flow) (p : pending) : Prop :=
  match pe_origin p with
  | FromCode code => g_consumeID (pe_grant p) = "" /\ g_familyID (pe_grant p) = "" /\ code ∈ map k_Code (f_consents f) /\
                     (forall c, c ∈ d_codes (f_db f) -> k_Code c = code -> k_Consumed c <> None)
  | FromToken id => g_consumeID (pe_grant p) = id /\ id <> "" /\ id ∈ f_ids f /\ g_familyID (pe_grant p) <> "" /\
                    g_familyID (pe_grant p) ∈ f_ids f /\
                    (forall t, t ∈ d_tokens (f_db f) -> t_ID t = id -> t_Family t = g_familyID (pe_grant p))
  end.

Record names (f : flow) : Prop := {
  nm_codes : NoDup (map k_Code (d_codes (f_db f)));
  nm_known : forall c, c ∈ d_codes (f_db f) -> k_Code c ∈ map k_Code (f_consents f);
  nm_ids : NoDup (map t_ID (d_tokens (f_db f)));
  nm_tokens : forall t, t ∈ d_tokens (f_db f) -> t_ID t ∈ f_ids f /\ t_ID t <> "" /\ t_Family t ∈ f_ids f /\ t_Family t <> "";
  nm_pending : forall p, p ∈ f_pending f -> remembers f p;
}.

Section names.
Context `{W : Web}.

Lemma exec_ids a f : f_ids (exec a f) = match issues a f with Some (_, _, _, _, r, _) => dr_id r :: f_ids f | None => f_ids f end.
Proof.
  destruct a; simpl; try done.
  - destruct (code_tx _ _ _ _) as [d read]. by destruct (code_check _ _ _ _).
  - destruct (find_token _ _ _) as [t|]; [|done]. destruct (negb _); [done|]. by destruct (_ || _).
  - destruct (f_pending f !! i) as [p|]; [|done]. destruct (issue_tx _ _ _ _ _) as [|[]]; try done. simpl. by destruct (String.eqb _ _).
  - by destruct (replaceable _ _ _ _).
  - by destruct (f_replacing f !! k) as [[]|].
  - destruct (find_client _ _); [|done]. by destruct approve.
  - by destruct (List.find _ _).
  - by destruct (f_revoking f !! j) as [[tgt [rows|]]|].
  - by destruct (f_revoking f !! j) as [[tgt [rows|]]|].
Qed.

Lemma exec_code_names a f : sublist (map k_Code (d_codes (f_db (exec a f)))) (map k_Code (d_codes (f_db f) ++ option_list (consented a))).
Proof.
  destruct a; simpl; rewrite ?app_nil_r; try done.
  - unfold code_tx. destruct (List.find _ _) as [c|]; [|by destruct (code_check _ _ _ _)].
    destruct (code_check _ _ _ _); simpl; (destruct (_ || _); simpl; [done|by rewrite map_update]).
  - destruct (find_token _ _ _) as [t|]; [|done]. destruct (negb _); [done|]. by destruct (_ || _).
  - destruct (f_pending f !! i) as [p|]; [|done].
    destruct (issue_tx _ _ _ _ _) as [|[]] eqn:E; [apply issue_tx_inl in E as (_ & _ & -> & _)|..]; try done.
    simpl. by destruct (String.eqb _ _).
  - by destruct (replaceable _ _ _ _).
  - by destruct (f_replacing f !! k) as [[]|].
  - destruct (find_client _ _); [|done]. by destruct approve.
  - by destruct (List.find _ _).
  - by destruct (f_revoking f !! j) as [[tgt [rows|]]|].
  - by destruct (f_revoking f !! j) as [[tgt [rows|]]|].
  - apply sublist_map_filter.
Qed.

(** The row a rotation spends is the one it read. *)
Lemma spendable_id g t : spendable g t = true -> t_ID t = g_consumeID g /\ t_Consumed t = None /\ t_Revoked t = None /\
  t_SessionID t = nullif (g_sessionID g).
Proof. unfold spendable, live. intros H. bool_prop. by rewrite !is_null_true in *. Qed.

Lemma spend_ids dbnow g l : map t_ID (spend dbnow g l) = map t_ID l.
Proof. unfold spend. destruct (String.eqb _ _); [done|]. by apply map_update. Qed.

Lemma elem_of_spend dbnow g l t : t ∈ spend dbnow g l -> exists t0, t0 ∈ l /\ older (moved (t_Consumed t0) (t_Revoked t) (t_SessionID t) t) t0 /\
  t_ID t = t_ID t0 /\ t_Family t = t_Family t0 /\ t_Revoked t = t_Revoked t0 /\ t_SessionID t = t_SessionID t0 /\
  (t_Consumed t = None -> t_Consumed t0 = None /\ (g_consumeID g <> "" -> spendable g t0 = false)).
Proof.
  unfold spend. destruct (String.eqb_spec (g_consumeID g) "") as [E|E].
  - intros H. exists t. split; [done|]. split; [by constructor|]. naive_solver.
  - intros (t0 & H & ->)%elem_of_update. exists t0. split; [done|]. destruct (spendable g t0) eqn:S; (split; [by constructor|]); naive_solver.
Qed.

Lemma consents_grow a f x : x ∈ map k_Code (f_consents f) -> x ∈ map k_Code (f_consents (exec a f)).
Proof. intros Hx. rewrite exec_consents, map_app. apply elem_of_app. by right. Qed.

Lemma ids_grow a f x : x ∈ f_ids f -> x ∈ f_ids (exec a f).
Proof. intros Hx. rewrite exec_ids. destruct (issues a f) as [[[[[[? ?] ?] ?] ?] ?]|]; [by right|done]. Qed.

(** A token row after a step: one there before, or the child just issued. *)
Lemma token_after a f t : enabled a f -> t ∈ d_tokens (f_db (exec a f)) ->
  (exists t0, t0 ∈ d_tokens (f_db f) /\ t_ID t = t_ID t0 /\ t_Family t = t_Family t0) \/
  (exists i p now dbnow r d, issues a f = Some (i, p, now, dbnow, r, d) /\ p ∈ f_pending f /\ t = child_of now (pe_grant p) r /\
     dr_id r <> "" /\ (dr_id r ∉ f_ids f) /\ dr_id r ∈ f_ids (exec a f)).
Proof.
  intros En Ht. destruct (issues a f) as [[[[[[i p] now] dbnow] r] d]|] eqn:E.
  - pose proof E as E'. apply exec_issues in E as (E & -> & Hp & (_ & _ & -> & _)%issue_tx_inl). rewrite E in Ht. cbn in Ht.
    unfold issue_rows in Ht. apply elem_of_app in Ht as [(t0 & Hin & _ & Ei & Ef & _)%elem_of_spend|Ht]; [left; by exists t0|].
    destruct (with_refresh _); [|by apply elem_of_nil in Ht]. apply list_elem_of_singleton in Ht as ->. right.
    eexists i, p, now, dbnow, r, _. split; [done|]. split; [by eapply list_elem_of_lookup_2|]. split; [done|]. destruct En.
    split_and!; try done. rewrite exec_ids, E'. by left.
  - apply exec_shrinks in E as [_ E]. destruct (E t Ht) as (t0 & Hin & O). left. exists t0.
    by rewrite (ol_id _ _ O), (ol_family _ _ O).
Qed.

Lemma remembers_kept f a p : enabled a f -> remembers f p -> remembers (exec a f) p.
Proof.
  intros En. unfold remembers. destruct (pe_origin p) as [code|id].
  - intros (? & ? & ? & Hc). split_and!; auto using consents_grow. intros c [(c0 & Hin & Ck)|N]%exec_codes E Z.
    + apply (Hc c0 Hin); [by rewrite <- (ck_code _ _ Ck)|by apply (ck_consumed _ _ Ck)].
    + destruct a; try done. injection N as <-. simpl in En, E. by subst.
  - intros (? & ? & ? & ? & ? & Ht). split_and!; auto using ids_grow. intros t Hin E.
    apply token_after in Hin as [(t0 & Hin & Ei & ->)|(i & q & now & dbnow & r & d & _ & _ & -> & _ & Fr & _)]; [|..|done].
    + apply Ht; congruence.
    + destruct Fr. cbn in E. by rewrite E.
Qed.

Lemma remembers_read f a p : enabled a f -> names f -> read_in a f p -> remembers (exec a f) p.
Proof.
  intros En [C K I T P] Hp.
  destruct Hp as [now now' dbnow client form c -> F R ->|now client presented t -> Ht Ec Cs Rv ->]; unfold remembers; cbn [pe_origin pe_grant].
  - split_and!; try done; [apply consents_grow; apply find_code_elem in F as [Hin <-]; by apply K|].
    intros c' Hc' E. cbn [exec] in Hc'. unfold code_tx in Hc'. unfold find_code in F. rewrite F in Hc'.
    destruct R as [U X _ _ _]. rewrite U in Hc'. simpl in En.
    rewrite (proj2 (Z.ltb_ge _ _)) in Hc' by lia. cbn [is_null negb orb] in Hc'.
    assert (c' ∈ update_where (fun c => String.eqb (k_Code c) (form_get form "code")) (consume_code dbnow) (d_codes (f_db f))) as Hu
      by (destruct (code_check _ _ _ _); exact Hc').
    apply elem_of_update in Hu as (c0 & _ & ->). destruct (String.eqb (k_Code c0) _) eqn:Y; [done|]. by rewrite E, String.eqb_refl in Y.
  - destruct (T t Ht) as (? & ? & ? & ?). split_and!; auto using ids_grow. intros t' Ht' Ei.
    assert (d_tokens (f_db (exec (OpPresent now client presented) f)) = d_tokens (f_db f)) as X.
    { simpl. destruct (find_token _ _ _); [|done]. destruct (negb _); [done|]. by destruct (_ || _). }
    rewrite X in Ht'. by rewrite (NoDup_map_inj t_ID _ t' t I Ht' Ht Ei).
Qed.

Lemma names_step f a : enabled a f -> names f -> names (exec a f).
Proof.
  intros En N. pose proof N as [C K I T P]. constructor.
  - eapply sublist_NoDup; [|apply exec_code_names]. rewrite map_app. apply NoDup_app. split; [done|]. split.
    + intros x (c & -> & Hc)%list_elem_of_fmap Hx. destruct a; simpl in Hx; try by apply elem_of_nil in Hx.
      apply list_elem_of_singleton in Hx. simpl in En. apply En. rewrite <- Hx. by apply K.
    + destruct a; simpl; try apply NoDup_nil_2. apply NoDup_singleton.
  - intros c [(c0 & Hc & Ck)|Hc]%exec_codes; [rewrite (ck_code _ _ Ck); auto using consents_grow|].
    rewrite exec_consents, Hc. by left.
  - destruct (issues a f) as [[[[[[i p] now] dbnow] r] d]|] eqn:E.
    + apply exec_issues in E as (-> & -> & _ & (_ & _ & -> & Fr)%issue_tx_inl). cbn.
      unfold issue_rows. rewrite map_app, spend_ids. apply NoDup_app. split; [done|].
      destruct (with_refresh _); [|split; [by intros ? ? ?%elem_of_nil|apply NoDup_nil_2]].
      split; [|apply NoDup_singleton]. intros x (t & -> & Ht)%list_elem_of_fmap Hx%list_elem_of_singleton.
      destruct En as [_ En]. apply En. cbn in Hx. rewrite <- Hx. by apply T.
    + apply exec_shrinks in E as [E _]. by eapply sublist_NoDup.
  - intros t [(t0 & Hin & -> & ->)|(i & p & now & dbnow & r & d & _ & Hp & -> & Ne & _ & Hr)]%token_after; [..|done].
    + destruct (T t0 Hin) as (? & ? & ? & ?). auto using ids_grow.
    + cbn. unfold family_of. destruct (String.eqb_spec (g_familyID (pe_grant p)) ""); [done|].
      apply P in Hp. unfold remembers in Hp. destruct (pe_origin p); [naive_solver|].
      destruct Hp as (_ & _ & _ & _ & ? & _). auto using ids_grow.
  - intros p [Hp|Hp]%exec_pending; [by apply remembers_kept; [|apply P]|by apply remembers_read].
Qed.

Lemma names_start clients : names (start clients).
Proof. constructor; cbn; try apply NoDup_nil_2; by intros ? ?%elem_of_nil. Qed.

Lemma reach_names clients f : reach clients f -> names f.
Proof. induction 1 as [|f a _ IH En]; [apply names_start|by apply names_step]. Qed.

(** *** What was answered is spent *)

Definition spent (f : flow) (x : origin) : Prop :=
  match x with
  | FromCode code => code ∈ map k_Code (f_consents f) /\
                     (forall c, c ∈ d_codes (f_db f) -> k_Code c = code -> k_Consumed c <> None)
  | FromToken id => id ∈ f_ids f /\ (forall t, t ∈ d_tokens (f_db f) -> t_ID t = id -> t_Consumed t <> None)
  end.

Lemma spent_kept f a x : enabled a f -> spent f x -> spent (exec a f) x.
Proof.
  intros En. destruct x as [code|id]; intros [Hx Hs]; (split; [auto using consents_grow, ids_grow|]).
  - intros c [(c0 & Hin & Ck)|N]%exec_codes E Z.
    + apply (Hs c0 Hin); [by rewrite <- (ck_code _ _ Ck)|by apply (ck_consumed _ _ Ck)].
    + destruct a; try done. injection N as <-. simpl in En, E. by subst.
  - intros t Ht E. destruct (issues a f) as [[[[[[i p] now] dbnow] r] d]|] eqn:X.
    + apply exec_issues in X as (X & -> & _ & (_ & _ & -> & _)%issue_tx_inl). rewrite X in Ht. cbn in Ht.
      apply elem_of_app in Ht as [(t0 & Hin & _ & Ei & _ & _ & _ & Hc)%elem_of_spend|Ht].
      * intros [N _]%Hc. apply (Hs t0 Hin); congruence.
      * destruct (with_refresh _); [|by apply elem_of_nil in Ht]. apply list_elem_of_singleton in Ht as ->.
        destruct En as [_ []]. cbn in E. by rewrite E.
    + apply exec_shrinks in X as [_ X]. destruct (X t Ht) as (t0 & Hin & O). rewrite (ol_consumed _ _ O).
      apply Hs; [done|]. by rewrite <- (ol_id _ _ O).
Qed.

Record once (f : flow) : Prop := {
  on_answers : forall a, a ∈ f_answers f -> spent f (an_origin a);
  on_codes : forall code, answered (FromCode code) f + waiting (FromCode code) f <= 1;
  on_tokens : forall id, answered (FromToken id) f <= 1;
}.

(** An unspent code was neither answered nor is it being. *)
Lemma unspent_code f c : names f -> once f -> c ∈ d_codes (f_db f) -> k_Consumed c = None ->
  answered (FromCode (k_Code c)) f + waiting (FromCode (k_Code c)) f = 0.
Proof.
  intros N O Hc U. unfold answered, waiting. rewrite !filter_drops_all; [done|..].
  - intros p Hp. apply bool_decide_eq_false. intros E. pose proof (nm_pending _ N p Hp) as R. unfold remembers in R. rewrite E in R.
    destruct R as (_ & _ & _ & R). by apply (R c).
  - intros a Ha. apply bool_decide_eq_false. intros E. pose proof (on_answers _ O a Ha) as R. rewrite E in R.
    destruct R as [_ R]. by apply (R c).
Qed.

Lemma unspent_token f t : once f -> t ∈ d_tokens (f_db f) -> t_Consumed t = None -> answered (FromToken (t_ID t)) f = 0.
Proof.
  intros O Ht U. unfold answered. rewrite filter_drops_all; [done|]. intros a Ha. apply bool_decide_eq_false. intros E.
  pose proof (on_answers _ O a Ha) as R. rewrite E in R. destruct R as [_ R]. by apply (R t).
Qed.

(** The row a rotation that goes through spends. *)
Lemma rotated_row g l : length (List.filter (spendable g) l) = 1 -> exists t, t ∈ l /\ spendable g t = true.
Proof.
  destruct (List.filter _ l) as [|t k] eqn:E; [done|]. intros _. exists t.
  rewrite list_elem_of_In. apply filter_In. rewrite E. by left.
Qed.

Lemma issued_spent f i p now dbnow r d : names f -> f_pending f !! i = Some p -> issue_tx now dbnow (pe_grant p) r (f_db f) = inl d ->
  (dr_id r ∉ f_ids f) -> spent (issued p r d i f) (pe_origin p).
Proof.
  intros N Hp (_ & L & -> & _)%issue_tx_inl Fr. apply list_elem_of_lookup_2 in Hp. pose proof (nm_pending _ N p Hp) as R.
  unfold remembers in R. destruct (pe_origin p) as [code|id]; [naive_solver|].
  destruct R as (E & Ne & Hid & _). split; [by right|]. intros t Ht Ei Z. cbn in Ht.
  apply elem_of_app in Ht as [(t0 & Hin & _ & Ei' & _ & _ & _ & Hc)%elem_of_spend|Ht].
  - destruct (Hc Z) as [_ Hs]. destruct L as [L|L]; [congruence|]. destruct (rotated_row _ _ L) as (t1 & H1 & S1).
    pose proof (spendable_id _ _ S1) as (I1 & _).
    assert (t0 = t1) as -> by (apply (NoDup_map_inj t_ID (d_tokens (f_db f))); [apply N|done|done|congruence]).
    rewrite Hs in S1; [done|congruence].
  - destruct (with_refresh _); [|by apply elem_of_nil in Ht]. apply list_elem_of_singleton in Ht as ->. destruct Fr. cbn in Ei. by rewrite Ei.
Qed.

Lemma once_step f a : enabled a f -> names f -> once f -> once (exec a f).
Proof.
  intros En N O. pose proof O as [A C T]. destruct (issues a f) as [[[[[[i p] now] dbnow] r] d]|] eqn:E.
  - apply exec_issues in E as (E & -> & Hp & I). pose proof (issued_spent f i p now dbnow r d N Hp I (proj2 En)) as S.
    rewrite E. constructor.
    + intros x [Hx|Hx]%elem_of_app; [|by apply list_elem_of_singleton in Hx as ->].
      rewrite <- E. by apply spent_kept, A.
    + intros code. specialize (C code). unfold answered, waiting in *. cbn. rewrite List.filter_app, length_app. cbn.
      rewrite (length_filter_delete _ i _ p Hp) in C. 
      change (answers_to (FromCode code) (mkAnswer (pe_origin p) _ _)) with (from (FromCode code) p).
      destruct (from (FromCode code) p); simpl in *; lia.
    + intros id. specialize (T id). unfold answered in *. cbn. rewrite List.filter_app, length_app. cbn.
      change (answers_to (FromToken id) (mkAnswer (pe_origin p) _ _)) with (from (FromToken id) p).
      destruct (from (FromToken id) p) eqn:Y; simpl; [|lia]. apply bool_decide_eq_true in Y.
      pose proof Hp as Hq%list_elem_of_lookup_2. pose proof (nm_pending _ N p Hq) as R. unfold remembers in R. rewrite Y in R.
      destruct R as (G & Ne & _). apply issue_tx_inl in I as (_ & [L|L] & _); [congruence|].
      destruct (rotated_row _ _ L) as (t & Ht & St). pose proof (spendable_id _ _ St) as (I1 & U & _).
      pose proof (unspent_token f t O Ht U) as Z. rewrite I1, G in Z. unfold answered in Z. lia.
  - assert (f_answers (exec a f) = f_answers f) as Ea by (by rewrite exec_answers, E, app_nil_r).
    constructor; unfold answered; rewrite Ea.
    + intros x Hx. by apply spent_kept, A.
    + intros code. specialize (C code). unfold answered, waiting in *.
      destruct (exec_pending_list a f) as [S|(q & -> & R)].
      * apply (length_filter_sublist (from (FromCode code))) in S. lia.
      * simpl. destruct (from (FromCode code) q) eqn:Y; [|lia]. apply bool_decide_eq_true in Y.
        destruct R as [now now' dbnow client form c _ [Hc Ec]%find_code_elem Rd ->|]; [|by subst].
        injection Y as <-. pose proof (unspent_code f c N O Hc (rd_unspent _ _ _ _ Rd)) as Z.
        rewrite Ec in Z. unfold answered, waiting in Z. simpl. lia.
    + exact T.
Qed.

Lemma once_start clients : once (start clients).
Proof. constructor; unfold answered, waiting; cbn; intros; [by apply elem_of_nil in H|lia..]. Qed.

Lemma reach_once clients f : reach clients f -> once f.
Proof. induction 1 as [|f a R IH En]; [apply once_start|]. apply once_step; [done|by eapply reach_names|done]. Qed.

(** C10. A consent's code gets at most one token response, and so does each
    refresh token, however many requests present it at once and whatever
    else runs: of two that both read the token unspent, one issues. *)
Theorem a_credential_is_answered_once clients f x :
  reach clients f -> answered x f <= 1.
Proof.
  intros R. pose proof (reach_once _ _ R) as O. destruct x as [code|id]; [|apply O].
  pose proof (on_codes _ O code). lia.
Qed.
End names.

(** ** A family has one live token *)

Definition single_live (f : flow) : Prop :=
  forall t u, t ∈ d_tokens (f_db f) -> u ∈ d_tokens (f_db f) -> t_Family t = t_Family u ->
    live t = true -> live u = true -> t_ID t = t_ID u.

Section families.
Context `{W : Web}.

Lemma live_nulls t : live t = true <-> t_Consumed t = None /\ t_Revoked t = None.
Proof. unfold live. by rewrite andb_true_iff, !is_null_true. Qed.

Lemma live_older t' t : older t' t -> live t' = true -> live t = true.
Proof. intros O. rewrite !live_nulls, (ol_consumed _ _ O). pose proof (ol_revoked _ _ O). naive_solver. Qed.

(** A row left live by a spend was live before, and is not the one spent. *)
Lemma live_spent dbnow g l t : t ∈ spend dbnow g l -> live t = true ->
  exists t0, t0 ∈ l /\ live t0 = true /\ t_ID t = t_ID t0 /\ t_Family t = t_Family t0 /\
    (g_consumeID g <> "" -> spendable g t0 = false).
Proof.
  intros (t0 & Hin & _ & Ei & Ef & Er & _ & Hc)%elem_of_spend [C R]%live_nulls. exists t0. destruct (Hc C) as [? ?].
  split_and!; try done. apply live_nulls. split; congruence.
Qed.

(** No live row but the one spent is in the child's family. *)
Lemma child_family_free f i p now dbnow r d t0 : names f -> single_live f -> f_pending f !! i = Some p ->
  issue_tx now dbnow (pe_grant p) r (f_db f) = inl d -> (dr_id r ∉ f_ids f) ->
  t0 ∈ d_tokens (f_db f) -> live t0 = true -> (g_consumeID (pe_grant p) <> "" -> spendable (pe_grant p) t0 = false) ->
  t_Family t0 <> family_of (pe_grant p) (dr_id r).
Proof.
  intros N L Hp (_ & Sp & _ & _)%issue_tx_inl Fr Ht Lt Ns E. unfold family_of in E.
  apply list_elem_of_lookup_2 in Hp. pose proof (nm_pending _ N p Hp) as R. unfold remembers in R.
  destruct (pe_origin p) as [code|id]; [destruct R as (_ & Z & _); rewrite Z in E|].
  - cbn in E. destruct Fr. rewrite <- E. by apply N.
  - destruct R as (G & Ne & _ & Nf & _ & Rm). rewrite (proj2 (String.eqb_neq _ _)) in E by done.
    destruct Sp as [Sp|Sp]; [congruence|]. destruct (rotated_row _ _ Sp) as (s & Hs & Ss).
    pose proof (spendable_id _ _ Ss) as (I & C & R & _).
    assert (t_ID t0 = t_ID s) as Et by (apply L; [done|done|rewrite E, Rm by congruence; done|done|by apply live_nulls]).
    assert (t0 = s) as -> by (apply (NoDup_map_inj t_ID (d_tokens (f_db f))); [apply N|done..]).
    rewrite Ns in Ss; [done|congruence].
Qed.

Lemma single_live_step f a : enabled a f -> names f -> single_live f -> single_live (exec a f).
Proof.
  intros En N L t u Ht Hu Ef Lt Lu. destruct (issues a f) as [[[[[[i p] now] dbnow] r] d]|] eqn:E.
  - apply exec_issues in E as (E & -> & Hp & I). pose proof I as (_ & _ & D & _)%issue_tx_inl. rewrite E, D in Ht, Hu. cbn in Ht, Hu.
    assert (forall x, x ∈ (if with_refresh (pe_grant p) then [child_of now (pe_grant p) r] else []) -> x = child_of now (pe_grant p) r) as Ch
      by (intros x Hx; destruct (with_refresh _); [by apply list_elem_of_singleton in Hx|by apply elem_of_nil in Hx]).
    unfold issue_rows in Ht, Hu.
    apply elem_of_app in Ht as [Ht|Ht%Ch]; apply elem_of_app in Hu as [Hu|Hu%Ch].
    + apply live_spent in Ht as (t0 & ? & ? & -> & Ft & _); [|done]. apply live_spent in Hu as (u0 & ? & ? & -> & Fu & _); [|done].
      apply L; congruence.
    + subst u. apply live_spent in Ht as (t0 & ? & ? & _ & Ft & Ns); [|done].
      destruct (child_family_free f i p now dbnow r d t0 N L Hp I (proj2 En)); try done. by rewrite <- Ft.
    + subst t. apply live_spent in Hu as (u0 & ? & ? & _ & Fu & Ns); [|done].
      destruct (child_family_free f i p now dbnow r d u0 N L Hp I (proj2 En)); try done. by rewrite <- Fu.
    + by subst.
  - apply exec_shrinks in E as [_ E]. destruct (E t Ht) as (t0 & ? & Ot), (E u Hu) as (u0 & ? & Ou).
    rewrite (ol_id _ _ Ot), (ol_id _ _ Ou). apply L; try done; [|by eapply live_older..].
    by rewrite <- (ol_family _ _ Ot), <- (ol_family _ _ Ou).
Qed.

Lemma reach_single_live clients f : reach clients f -> single_live f.
Proof.
  induction 1 as [|f a R IH En]; [by intros t u ?%elem_of_nil|]. apply single_live_step; [done|by eapply reach_names|done].
Qed.

(** In any interleaving, a token family has at most one refresh token that is
    neither spent nor revoked: rotation hands the family on and never splits
    it, so a copy of an earlier token is always a spent one. *)
Theorem one_live_token_per_family clients f t u :
  reach clients f -> t ∈ d_tokens (f_db f) -> u ∈ d_tokens (f_db f) -> t_Family t = t_Family u ->
  live t = true -> live u = true -> t = u.
Proof.
  intros R Ht Hu E Lt Lu. apply (NoDup_map_inj t_ID (d_tokens (f_db f))); [by apply (reach_names _ _ R)|done|done|].
  by apply (reach_single_live _ _ R).
Qed.
End families.

(** ** An ended session leaves no token behind *)

(** A revoking UPDATE in flight that will reach the token. *)
Definition covers (rv : revoking) (s : string) (t : token_row) : Prop :=
  exists sids, rv_target rv = RSessions sids /\ s ∈ sids /\ forall rows, rv_rows rv = Some rows -> t_ID t ∈ rows.

Definition open_row (d : db) (s : string) : Prop := session_ended_row d s = false.

Record sessions_ok (f : flow) : Prop := {
  so_nodup : NoDup (map s_ID (d_sessions (f_db f)));
  so_known : forall s, s ∈ d_sessions (f_db f) -> s_ID s ∈ f_sids f;
  so_ending : forall rv sids s, rv ∈ f_revoking f -> rv_target rv = RSessions sids -> s ∈ sids ->
    session_ended_row (f_db f) s = true /\ s ∈ f_sids f;
  so_tokens : forall t s, t ∈ d_tokens (f_db f) -> t_Revoked t = None -> t_SessionID t = Some s -> (s ∉ f_overtaken f) ->
    open_row (f_db f) s \/ find_session (f_db f) s = None \/ exists rv, rv ∈ f_revoking f /\ covers rv s t;
  so_distinct : forall r, r ∈ f_replacing f -> rp_old r <> rp_new r;
}.

Section sessions.
Context `{W : Web}.

Lemma find_session_elem d s row : find_session d s = Some row -> row ∈ d_sessions d /\ s_ID row = s.
Proof. intros [H E]%find_elem. by apply String.eqb_eq in E. Qed.

(** Ending sessions: which stay open. *)
Lemma find_ended p dbnow d s : find_session (end_where p dbnow d).1 s =
  (fun x => if p x && is_null (s_Revoked x) then end_session dbnow x else x) <$> find_session d s.
Proof. unfold find_session, end_where. cbn. by rewrite find_update. Qed.

Lemma ended_after p dbnow d s : session_ended_row (end_where p dbnow d).1 s =
  match find_session d s with None => true | Some x => negb (is_null (s_Revoked x)) || p x end.
Proof.
  unfold session_ended_row. rewrite find_ended. destruct (find_session d s) as [x|]; [|done]. simpl.
  destruct (p x), (is_null (s_Revoked x)) eqn:R; simpl; rewrite ?R; done.
Qed.

Lemma ended_stays p dbnow d s : session_ended_row d s = true -> session_ended_row (end_where p dbnow d).1 s = true.
Proof. rewrite ended_after. unfold session_ended_row. destruct (find_session d s); [|done]. by intros ->. Qed.

Lemma newly_ended p dbnow d s : NoDup (map s_ID (d_sessions d)) -> open_row d s -> session_ended_row (end_where p dbnow d).1 s = true ->
  s ∈ (end_where p dbnow d).2.
Proof.
  unfold open_row. rewrite ended_after. unfold session_ended_row. destruct (find_session d s) as [x|] eqn:F; [|done].
  intros N O. rewrite O. simpl. intros Px. apply find_session_elem in F as [Hx <-]. unfold end_where. cbn.
  apply list_elem_of_fmap. exists x. split; [done|]. rewrite list_elem_of_In, filter_In, <- list_elem_of_In. rewrite Px.
  apply negb_false_iff in O. by rewrite O.
Qed.

Lemma in_ended p dbnow d s : NoDup (map s_ID (d_sessions d)) -> s ∈ (end_where p dbnow d).2 ->
  session_ended_row (end_where p dbnow d).1 s = true /\ exists x, x ∈ d_sessions d /\ s_ID x = s.
Proof.
  intros N (x & -> & Hx)%list_elem_of_fmap.
  rewrite list_elem_of_In, filter_In, <- list_elem_of_In in Hx. destruct Hx as [Hx P]. split; [|by exists x].
  rewrite ended_after. unfold find_session. rewrite find_keyed by done. apply andb_true_iff in P as [-> _]. apply orb_true_r.
Qed.

Lemma end_where_sessions p dbnow d : d_sessions (end_where p dbnow d).1 =
  update_where (fun s => p s && is_null (s_Revoked s)) (end_session dbnow) (d_sessions d).
Proof. done. Qed.

Lemma end_where_tokens p dbnow d : d_tokens (end_where p dbnow d).1 = d_tokens d.
Proof. done. Qed.

(** [end_sessions]: every token of a session that ends is covered. *)
Lemma end_sessions_ok p dbnow also f : sessions_ok f ->
  (forall s x, s ∈ also -> find_session (f_db f) s = Some x -> p x = true) -> sessions_ok (end_sessions p dbnow also f).
Proof.
  intros [N K En T Ds] Al. unfold end_sessions. destruct (end_where p dbnow (f_db f)) as [d ended] eqn:E.
  assert (d = (end_where p dbnow (f_db f)).1) as Ed by (by rewrite E).
  assert (ended = (end_where p dbnow (f_db f)).2) as Ee by (by rewrite E).
  assert (d_tokens d = d_tokens (f_db f)) as Et by (by rewrite Ed).
  assert (d_sessions d = update_where (fun s => p s && is_null (s_Revoked s)) (end_session dbnow) (d_sessions (f_db f))) as Es by (by rewrite Ed).
  constructor; cbn; [..|done].
  - rewrite Es, map_update; done.
  - rewrite Es. intros s (s0 & Hs & ->)%elem_of_update. apply elem_of_app. right. destruct (_ && _); exact (K s0 Hs).
  - intros rv sids s [->|Hrv]%elem_of_cons Rt Hs.
    + injection Rt as <-. apply elem_of_app in Hs as [Hs|Hs].
      * split; [|apply elem_of_app; by left]. rewrite Ed, ended_after. destruct (find_session _ s) as [x|] eqn:F; [|done].
        rewrite (Al s x Hs F). apply orb_true_r.
      * rewrite Ee in Hs. destruct (in_ended _ _ _ _ N Hs) as [X (x & Hx & <-)]. rewrite Ed. split; [done|].
        apply elem_of_app. right. by apply K.
    + destruct (En rv sids s Hrv Rt Hs) as [X ?]. rewrite Ed. split; [by apply ended_stays|]. apply elem_of_app. by right.
  - intros t s Ht Rv Sid Ov. rewrite Et in Ht. destruct (session_ended_row d s) eqn:Z; [|by left]. right.
    destruct (T t s Ht Rv Sid Ov) as [O|[F|(rv & Hrv & Cv)]].
    + right. eexists. split; [by left|]. eexists. split; [done|]. split; [|done]. apply elem_of_app. right.
      rewrite Ee. apply newly_ended; [done|done|]. by rewrite <- Ed.
    + left. rewrite Ed, find_ended, F. done.
    + right. exists rv. split; [by right|done].
Qed.

(** A step that leaves the sessions and what is in flight, and only drops
    tokens or revokes them where they are. *)
Record settles (l' l : list token_row) : Prop := {
  st_rows : forall t', t' ∈ l' -> t_Revoked t' = None -> exists t, t ∈ l /\ t_ID t' = t_ID t /\ t_Revoked t = None /\ t_SessionID t' = t_SessionID t;
}.

Lemma settles_refl l : settles l l.
Proof. constructor. eauto. Qed.

Lemma sessions_ok_settles f f' : sessions_ok f -> d_sessions (f_db f') = d_sessions (f_db f) -> f_sids f' = f_sids f ->
  (f_replacing f' = f_replacing f /\ f_overtaken f' = f_overtaken f) ->
  settles (d_tokens (f_db f')) (d_tokens (f_db f)) ->
  (forall rv, rv ∈ f_revoking f -> rv ∈ f_revoking f') ->
  (forall rv sids, rv ∈ f_revoking f' -> rv_target rv = RSessions sids -> rv ∈ f_revoking f) -> sessions_ok f'.
Proof.
  intros [N K En T Ds] Es Ei [Ep Eo] [St] R1 R2.
  assert (forall s, find_session (f_db f') s = find_session (f_db f) s) as Ef by (intros; unfold find_session; by rewrite Es).
  assert (forall s, session_ended_row (f_db f') s = session_ended_row (f_db f) s) as Er by (intros; unfold session_ended_row; by rewrite Ef).
  constructor; [..|by rewrite Ep].
  - by rewrite Es.
  - rewrite Es, Ei. done.
  - intros rv sids s Hrv Rt Hs. rewrite Er, Ei. eauto.
  - intros t' s Ht Rv Sid Ov. rewrite Eo in Ov. destruct (St t' Ht Rv) as (t & Hin & Et & Rv' & Se). unfold open_row. rewrite Er, Ef.
    destruct (T t s Hin Rv' (eq_trans (eq_sym Se) Sid) Ov) as [?|[?|(rv & Hrv & sids & ? & ? & Cv)]]; [auto..|].
    right. right. exists rv. split; [auto|]. exists sids. rewrite Et. auto.
Qed.

Lemma opened_ok s f : enabled (OpSession s) f -> sessions_ok f -> sessions_ok (exec (OpSession s) f).
Proof.
  intros (Ne & Fr & Op) [N K En T Ds].
  assert (forall x, find_session (f_db (exec (OpSession s) f)) x =
            match find_session (f_db f) x with Some y => Some y | None => if String.eqb (s_ID s) x then Some s else None end) as F.
  { intros x. exact (find_then (fun y => String.eqb (s_ID y) x) (d_sessions (f_db f)) s). }
  assert (forall x, find_session (f_db f) x <> None -> session_ended_row (f_db (exec (OpSession s) f)) x = session_ended_row (f_db f) x) as E
    by (intros x Hx; unfold session_ended_row; rewrite F; by destruct (find_session (f_db f) x)).
  constructor; [..|done].
  - cbn. rewrite map_app. apply NoDup_app. split; [done|]. split; [|apply NoDup_singleton].
    intros x (y & -> & Hy)%list_elem_of_fmap Hx%list_elem_of_singleton. apply Fr. cbn in Hx. rewrite <- Hx. by apply K.
  - cbn. intros x [Hx|Hx]%elem_of_app; [right; by apply K|]. apply list_elem_of_singleton in Hx as ->. by left.
  - intros rv sids x Hrv Rt Hx. destruct (En rv sids x Hrv Rt Hx) as [X ?]. split; [|by right].
    unfold session_ended_row in X |- *. rewrite F. destruct (find_session (f_db f) x); [done|].
    by rewrite (proj2 (String.eqb_neq _ _)) by (intros Z; by rewrite Z in Fr).
  - intros t x Ht Rv Sid Ov. destruct (T t x Ht Rv Sid Ov) as [O|[Z|Cv]]; [left|..|by auto].
    + unfold open_row in *. rewrite E; [done|]. unfold session_ended_row in O. by destruct (find_session (f_db f) x).
    + unfold open_row, session_ended_row. rewrite F, Z. destruct (String.eqb (s_ID s) x); [left|by auto]. by rewrite Op.
Qed.

Lemma issued_ok f i p now dbnow r d : issue_tx now dbnow (pe_grant p) r (f_db f) = inl d -> sessions_ok f ->
  sessions_ok (issued p r d i f).
Proof.
  intros (So & _ & -> & _)%issue_tx_inl [N K En T Ds]. constructor; try done.
  intros t s Ht Rv Sid Ov. cbn in Ht. apply elem_of_app in Ht as [(t0 & Hin & _ & Ei & _ & Er & Es & _)%elem_of_spend|Ht].
  - destruct (T t0 s Hin) as [?|[?|(rv & ? & sids & ? & ? & Cv)]]; [congruence..|done|by left|by auto|].
    right. right. exists rv. split; [done|]. exists sids. by rewrite Ei.
  - destruct (with_refresh _); [|by apply elem_of_nil in Ht]. apply list_elem_of_singleton in Ht as ->. cbn in Sid.
    left. unfold session_open in So. unfold nullif in Sid. destruct (String.eqb _ _); [done|]. injection Sid as <-.
    unfold open_row. simpl in So. by apply negb_true_iff in So.
Qed.

(** Tokens are moved onto a session that is open, or the session is noted. *)
Lemma replaced_ok f k dbnow : sessions_ok f -> sessions_ok (exec (OpReplaced k dbnow) f).
Proof.
  intros Ok0. pose proof Ok0 as [N K En T Ds]. cbn [exec]. destruct (f_replacing f !! k) as [[old new amr]|] eqn:J; [|done].
  assert (old <> new) as Ne by exact (Ds _ (list_elem_of_lookup_2 _ _ _ J)).
  set (d1 := with_tokens (update_where (of_families (families_of [old] (f_db f))) (fun t => set_amr amr (move_token new t))) (f_db f)).
  set (d' := (end_where (fun s => String.eqb (s_ID s) old) dbnow d1).1).
  assert (forall s, find_session d1 s = find_session (f_db f) s) as F1 by done.
  constructor; cbn [f_db with_db with_replacing overtake f_revoking f_sids f_replacing f_overtaken]; fold d1; fold d'.
  - unfold d'. by rewrite end_where_sessions, map_update.
  - unfold d'. rewrite end_where_sessions. intros s (s0 & Hs & ->)%elem_of_update. destruct (_ && _); exact (K s0 Hs).
  - intros rv sids s Hrv Rt Hs. destruct (En rv sids s Hrv Rt Hs). split; [by apply ended_stays|done].
  - unfold d' at 1. rewrite end_where_tokens. intros t' s (t & Ht & ->)%elem_of_update Rv Sid [Ov Ov']%not_elem_of_app.
    assert (forall x, x <> old -> open_row (f_db f) x -> open_row d' x) as O.
    { intros x Nx. unfold open_row, d'. rewrite ended_after, F1. unfold session_ended_row.
      destruct (find_session (f_db f) x) as [y|] eqn:Fy; [|done]. apply find_session_elem in Fy as [_ Ey].
      intros ->. by apply String.eqb_neq; rewrite Ey. }
    destruct (of_families _ t) eqn:M.
    + injection Sid as <-. left. apply O; [done|]. unfold open_row. destruct (session_ended_row (f_db f) new); [|done].
      destruct Ov. by left.
    + assert (s <> old) as No.
      { intros ->. unfold of_families in M. rewrite Rv in M. cbn in M. rewrite andb_true_r in M.
        enough (containsString (families_of [old] (f_db f)) (t_Family t) = true) by congruence. apply containsString_elem.
        unfold families_of. apply list_elem_of_fmap. exists t. split; [done|].
        rewrite list_elem_of_In, filter_In, <- list_elem_of_In, Sid. split; [done|]. apply containsString_elem. by left. }
      destruct (T t s Ht Rv Sid Ov') as [?|[Z|?]]; [left; by apply O|right; left|by auto].
      unfold d'. by rewrite find_ended, F1, Z.
  - intros r Hr. apply Ds. eapply elem_of_subseteq; [apply sublist_subseteq, sublist_delete|exact Hr].
Qed.

Lemma snapshot_ok j f : sessions_ok f -> sessions_ok (exec (OpSnapshot j) f).
Proof.
  intros S. pose proof S as [N K En T Ds]. cbn [exec]. destruct (f_revoking f !! j) as [[tgt [rows|]]|] eqn:J; try done.
  assert (forall rv, rv ∈ f_revoking f -> rv = mkRevoking tgt None \/
            rv ∈ <[j := mkRevoking tgt (Some (map t_ID (List.filter (targeted tgt (f_db f)) (d_tokens (f_db f)))))]> (f_revoking f)) as I.
  { intros rv (i & Hi)%list_elem_of_lookup. destruct (decide (i = j)) as [->|Nj]; [left; congruence|right].
    apply list_elem_of_lookup. exists i. by rewrite list_lookup_insert_ne. }
  constructor; try done.
  - cbn. intros rv sids s Hrv Rt Hs. apply list_elem_of_lookup in Hrv as (i & Hi).
    apply list_lookup_insert_Some in Hi as [(<- & <- & _)|(_ & Hi)].
    + cbn in Rt. subst tgt. by apply (En (mkRevoking (RSessions sids) None) sids); [eapply list_elem_of_lookup_2|..].
    + by apply (En rv sids); [eapply list_elem_of_lookup_2|..].
  - cbn. intros t s Ht Rv Sid Ov. destruct (T t s Ht Rv Sid Ov) as [?|[?|(rv & Hrv & sids & Rt & Hs & Cv)]]; [by auto..|].
    right. right. destruct (I rv Hrv) as [->|H]; [|by exists rv; split; [done|exists sids]].
    eexists. split; [apply list_elem_of_lookup; exists j; apply list_lookup_insert_eq; by eapply lookup_lt_Some|].
    exists sids. split; [done|]. split; [done|]. cbn. intros rows [= <-]. apply list_elem_of_fmap. exists t. split; [done|].
    rewrite list_elem_of_In, filter_In, <- list_elem_of_In. split; [done|]. cbn in Rt. subst tgt.
    unfold targeted. rewrite Rv. cbn. apply containsString_elem. unfold families_of. apply list_elem_of_fmap. exists t. split; [done|].
    rewrite list_elem_of_In, filter_In, <- list_elem_of_In, Sid. split; [done|by apply containsString_elem].
Qed.

Lemma applied_ok j dbnow f : sessions_ok f -> sessions_ok (exec (OpApply j dbnow) f).
Proof.
  intros Ok0. pose proof Ok0 as [N K En T Ds]. cbn [exec]. destruct (f_revoking f !! j) as [[tgt [rows|]]|] eqn:J; try done.
  assert (forall rv, rv ∈ delete j (f_revoking f) -> rv ∈ f_revoking f) as D
    by (intros rv; apply elem_of_subseteq, sublist_subseteq, sublist_delete).
  constructor; try done.
  - cbn. intros rv sids s Hrv. apply En. by apply D.
  - cbn. intros t s Ht Rv Sid Ov. apply elem_of_revoked in Ht as [Ht M]; [|by rewrite Rv].
    destruct (T t s Ht Rv Sid Ov) as [?|[?|(rv & Hrv & sids & Rt & Hs & Cv)]]; [by auto..|]. right. right. exists rv.
    split; [|by exists sids]. apply list_elem_of_lookup in Hrv as (i & Hi). destruct (decide (i = j)) as [->|Nj].
    + exfalso. rewrite J in Hi. injection Hi as <-. specialize (Cv rows eq_refl). unfold in_snapshot in M.
      apply containsString_elem in Cv. by rewrite Cv, Rv in M.
    + apply list_elem_of_lookup. destruct (decide (i < j)) as [L|L].
      * exists i. by rewrite list_lookup_delete_lt.
      * exists (i - 1). rewrite list_lookup_delete_ge by lia. by replace (S (i - 1)) with i by lia.
Qed.

Lemma find_deleted p d s : NoDup (map s_ID (d_sessions d)) ->
  find_session (with_sessions (delete_where p) d) s = None \/ find_session (with_sessions (delete_where p) d) s = find_session d s.
Proof.
  intros N. destruct (find_session (with_sessions (delete_where p) d) s) as [x|] eqn:E; [right|by left].
  apply find_session_elem in E as [Hx <-]. apply elem_of_delete in Hx as [Hx _]. unfold find_session. by rewrite find_keyed.
Qed.

Lemma pruned_ok dbnow f : sessions_ok f -> sessions_ok (exec (OpPruneSessions dbnow) f).
Proof.
  intros [N K En T Ds].
  assert (exists p, PruneSessions dbnow (f_db f) = with_sessions (delete_where p) (f_db f)) as [p Ep] by (by eexists).
  constructor; cbn [exec with_db f_db f_revoking f_sids f_replacing f_overtaken]; rewrite ?Ep; [..|done].
  - eapply sublist_NoDup; [exact N|]. apply sublist_map_filter.
  - intros s [Hs _]%elem_of_delete. by apply K.
  - intros rv sids s Hrv Rt Hs. destruct (En rv sids s Hrv Rt Hs) as [X ?]. split; [|done].
    unfold session_ended_row in *. destruct (find_deleted p (f_db f) s N) as [->| ->]; done.
  - intros t s Ht Rv Sid Ov. unfold open_row, session_ended_row.
    destruct (find_deleted p (f_db f) s N) as [E|E]; rewrite E; [by auto|]. by apply T.
Qed.

Lemma sessions_ok_pending h f : sessions_ok f -> sessions_ok (with_pending h f).
Proof. intros []. by constructor. Qed.

Lemma sessions_ok_step f a : enabled a f -> sessions_ok f -> sessions_ok (exec a f).
Proof.
  intros En S.
  assert (forall rv rvs, (forall sids, rv_target rv <> RSessions sids) -> forall x sids, x ∈ rv :: rvs -> rv_target x = RSessions sids -> x ∈ rvs) as Cs
    by (intros rv rvs H x sids [->|Hx]%elem_of_cons Rt; [by destruct (H sids)|done]).
  destruct a; try done; try (apply opened_ok; done); try (apply snapshot_ok; done); try (apply applied_ok; done);
    try (apply pruned_ok; done); try (apply replaced_ok; done).
  - by apply (sessions_ok_settles f); [..|apply settles_refl| |].
  - assert (d_sessions (code_tx now dbnow (form_get form "code") (f_db f)).1 = d_sessions (f_db f)) as Es
      by (unfold code_tx; destruct (List.find _ _); [|done]; by destruct (_ || _)).
    pose proof (code_tx_tokens now dbnow (form_get form "code") (f_db f)) as Et.
    cbn [exec]. destruct (code_tx _ _ _ _) as [d read]. cbn [fst] in Es, Et.
    destruct (code_check _ _ _ _); (apply (sessions_ok_settles f); try done; cbn; rewrite Et; apply settles_refl).
  - cbn [exec]. destruct (find_token _ _ _) as [t|]; [|done]. destruct (negb _); [|destruct (_ || _); auto using sessions_ok_pending].
    apply (sessions_ok_settles f); try done; [apply settles_refl|by right|by apply Cs].
  - cbn [exec]. destruct (f_pending f !! i) as [p|]; [|done]. destruct (issue_tx _ _ _ _ _) as [d|[]] eqn:E; [by eapply issued_ok|..];
      try by apply sessions_ok_pending.
    destruct (String.eqb _ _); [by apply sessions_ok_pending|]. apply (sessions_ok_settles f); try done; [apply settles_refl|by right|by apply Cs].
  - by apply sessions_ok_pending.
  - apply end_sessions_ok; [done|]. intros s x ->%list_elem_of_singleton [_ E]%find_session_elem. by apply String.eqb_eq.
  - apply end_sessions_ok; [done|]. by intros s x ?%elem_of_nil.
  - cbn [exec]. apply (sessions_ok_settles (end_sessions (fun s => String.eqb (s_UserID s) user) dbnow [] f)); try done;
      [|apply settles_refl|by right|by apply Cs]. apply end_sessions_ok; [done|]. by intros s x ?%elem_of_nil.
  - cbn [exec]. destruct (replaceable dbnow old new (f_db f)).
    { destruct S as [N K En' T Ds]. constructor; try done. intros r [->|Hr]%elem_of_cons; [exact En|by apply Ds]. }
    apply end_sessions_ok; [done|]. intros s x ->%list_elem_of_singleton [_ E]%find_session_elem. by apply String.eqb_eq.
  - cbn [exec]. destruct (find_client _ _); [|done].
    destruct approve; apply (sessions_ok_settles f); try done; try apply settles_refl; [by right|by apply Cs].
  - cbn [exec]. destruct (List.find _ _); [|done]. apply (sessions_ok_settles f); try done; [apply settles_refl|by right|by apply Cs].
  - apply (sessions_ok_settles f); try done. constructor. intros t [Ht _]%elem_of_delete Rv. eauto.
Qed.

Lemma reach_sessions_ok clients f : reach clients f -> sessions_ok f.
Proof.
  induction 1 as [|f a _ IH En]; [|by apply sessions_ok_step].
  constructor; cbn; try apply NoDup_nil_2; intros; by match goal with H : _ ∈ [] |- _ => apply elem_of_nil in H end.
Qed.

(** C17. Once a session has ended - signed out, ended by its owner or an
    administrator, replaced, or its person deactivated - and the UPDATE that
    follows has been written, no refresh token that names it is left
    unrevoked, whatever was being rotated meanwhile, unless a replacement
    that had found the session open moved tokens onto it after it ended;
    and from the moment the session is marked ended no request issues for
    it, such tokens included. *)
Theorem ended_session_leaves_no_token clients f s :
  reach clients f -> session_ended_row (f_db f) s = true ->
  (forall a i p now dbnow r d, issues a f = Some (i, p, now, dbnow, r, d) -> s <> "" -> g_sessionID (pe_grant p) <> s) /\
  (find_session (f_db f) s <> None -> (s ∉ f_overtaken f) ->
   (forall rv sids, rv ∈ f_revoking f -> rv_target rv = RSessions sids -> s ∉ sids) ->
   forall t, t ∈ d_tokens (f_db f) -> t_SessionID t = Some s -> t_Revoked t <> None).
Proof.
  intros R E. split.
  - intros a i p now dbnow r d (_ & _ & _ & (So & _)%issue_tx_inl)%exec_issues Ne Eg. unfold session_open in So.
    rewrite Eg, E in So. by rewrite (proj2 (String.eqb_neq _ _)) in So.
  - intros Fs Ov Q t Ht Sid Rv. destruct (so_tokens _ (reach_sessions_ok _ _ R) t s Ht Rv Sid Ov) as [O|[F|(rv & Hrv & sids & Rt & Hs & _)]].
    + unfold open_row in O. congruence.
    + done.
    + by apply (Q rv sids).
Qed.
End sessions.

(** ** Runs *)

Section runs.
Context `{W : Web}.

Definition enabledb (a : op) (f : flow) : bool :=
  match a with
  | OpSession s => negb (String.eqb (s_ID s) "") && negb (containsString (f_sids f) (s_ID s)) && is_null (s_Revoked s)
  | OpApprove _ _ _ code => negb (containsString (map k_Code (f_consents f)) code)
  | OpCode now now' _ _ _ => (now <=? now')%Z
  | OpReplace _ old new _ => negb (String.eqb old new)
  | OpIssue _ _ _ r => negb (String.eqb (dr_id r) "") && negb (containsString (f_ids f) (dr_id r))
  | _ => true
  end.

Lemma not_contains l s : containsString l s = false -> s ∉ l.
Proof. intros H X. apply containsString_elem in X. congruence. Qed.

Lemma enabledb_ok a f : enabledb a f = true -> enabled a f.
Proof.
  destruct a; simpl; intros H; bool_prop; rewrite ?is_null_true in *; auto using not_contains.
Qed.

Fixpoint run (ops : list op) (f : flow) : flow := match ops with [] => f | a :: ops => run ops (exec a f) end.
Fixpoint runs (ops : list op) (f : flow) : bool := match ops with [] => true | a :: ops => enabledb a f && runs ops (exec a f) end.

Lemma reach_run clients ops f : reach clients f -> runs ops f = true -> reach clients (run ops f).
Proof.
  revert f. induction ops as [|a ops IH]; intros f R H; [done|]. simpl in H. bool_prop. apply IH; [|done].
  constructor; [done|by apply enabledb_ok].
Qed.
End runs.

(** *** A run: [plain_web] and the example's client, consent and session are in OAuth.v *)

(** A person signs in, consents, the client redeems the code and refreshes
    once: the family has a spent token and a live one. *)
Definition example_ops : list op :=
  [OpSession example_session; OpApprove 10 example_request example_consent "code1";
   OpCode 20 20 20 example_client example_form; OpIssue 0 21 21 (draw "A");
   OpPresent 30 example_client "secretA"; OpIssue 0 31 31 (draw "B")].

Definition example_flow : flow := Eval vm_compute in run example_ops (start example_clients).

Lemma example_reached : reach example_clients example_flow.
Proof.
  change example_flow with (run example_ops (start example_clients)). apply reach_run; [constructor|]. vm_compute. reflexivity.
Qed.

Lemma a_credential_is_answered_once_witness :
  reach example_clients example_flow /\ answered (FromToken "tokA") example_flow <= 1.
Proof. split; [apply example_reached|apply (a_credential_is_answered_once example_clients), example_reached]. Defined.

Definition token_B : token_row := Eval vm_compute in default (child_of 0 (mkGrant "" "" "" "" "" "" "" "" "" "" [] []) (draw ""))
  (last (d_tokens (f_db example_flow))).

Lemma one_live_token_per_family_witness :
  token_B ∈ d_tokens (f_db example_flow) /\ live token_B = true /\ token_B = token_B.
Proof.
  assert (token_B ∈ d_tokens (f_db example_flow)) as H by (right; left).
  split; [exact H|]. split; [reflexivity|]. apply (one_live_token_per_family example_clients example_flow); try exact H; try reflexivity.
  apply example_reached.
Defined.

Definition example_answer : answer := Eval vm_compute in default (mkAnswer (FromCode "") (mkGrant "" "" "" "" "" "" "" "" "" "" [] []) None)
  (last (f_answers example_flow)).

Lemma every_answer_was_consented_to_witness :
  example_answer ∈ f_answers example_flow /\ exists k, k ∈ f_consents example_flow /\ k_UserID k = g_userID (an_grant example_answer).
Proof.
  assert (example_answer ∈ f_answers example_flow) as H by (right; left). split; [exact H|].
  destruct (every_answer_was_consented_to example_clients example_flow example_answer example_reached H) as (k & Hk & V & _).
  exists k. split; [exact Hk|]. symmetry. apply (vg_user _ _ V).
Defined.

(** The session ends while a refresh is in flight, and then the UPDATE is
    written. *)
Definition signed_out_ops : list op :=
  [OpPresent 40 example_client "secretB"; OpSessionEnd 41 "s1"; OpSnapshot 0; OpIssue 0 42 42 (draw "C"); OpApply 1 43; OpSnapshot 0; OpApply 0 44].

Definition signed_out_flow : flow := Eval vm_compute in run signed_out_ops example_flow.

Lemma signed_out_reached : reach example_clients signed_out_flow.
Proof.
  change signed_out_flow with (run signed_out_ops example_flow). apply reach_run; [apply example_reached|]. vm_compute. reflexivity.
Qed.

Lemma ended_session_leaves_no_token_witness :
  session_ended_row (f_db signed_out_flow) "s1" = true /\ length (d_tokens (f_db signed_out_flow)) = 2 /\
  forall t, t ∈ d_tokens (f_db signed_out_flow) -> t_SessionID t = Some "s1" -> t_Revoked t <> None.
Proof.
  split; [reflexivity|]. split; [reflexivity|].
  apply (ended_session_leaves_no_token example_clients signed_out_flow "s1" signed_out_reached eq_refl).
  - discriminate.
  - intros H. by apply elem_of_nil in H.
  - intros rv sids H. by apply elem_of_nil in H.
Defined.

(** *** A replaced session's tokens on one that has ended

    Re-authentication replaces the first session by a second.  The second is
    signed out, with its UPDATEs, after the replacement read it and before
    it moves the tokens: the first session's token ends up live on a session
    that has ended.  It can still not be refreshed. *)
Definition second_session : session_row :=
  mkSessionRow "s2" (s_UserID example_session) (s_OrgID example_session) "pub2" (s_Absolute example_session) (s_Idle example_session) None.

Definition overtaken_ops : list op :=
  [OpSession second_session; OpReplace 40 "s1" "s2" []; OpSessionEnd 41 "s2"; OpSnapshot 0; OpApply 0 42; OpReplaced 0 43].

Definition overtaken_flow : flow := Eval vm_compute in run overtaken_ops example_flow.

Example a_replacement_can_move_tokens_onto_an_ended_session :
  reach example_clients overtaken_flow /\ f_revoking overtaken_flow = [] /\ f_overtaken overtaken_flow = ["s2"] /\
  session_ended_row (f_db overtaken_flow) "s2" = true /\
  map (fun t => (t_ID t, t_SessionID t, live t)) (d_tokens (f_db overtaken_flow)) = [("tokA", Some "s2", false); ("tokB", Some "s2", true)] /\
  f_answers (run [OpPresent 50 example_client "secretB"; OpIssue 0 51 51 (draw "C")] overtaken_flow) = f_answers overtaken_flow.
Proof.
  split; [|by vm_compute].
  change overtaken_flow with (run overtaken_ops example_flow). apply reach_run; [apply example_reached|]. vm_compute. reflexivity.
Qed.

(** *** A burned family with a live token

    The owner refreshes and a thief presents a spent copy at the same time.
    The thief's UPDATE takes its snapshot before the owner's rotation
    commits, so it does not see the child; the answer to the thief, and the
    audit trail, say all tokens of the family were revoked, and the child
    lives on and rotates. *)
Definition burned_ops : list op :=
  [OpPresent 40 example_client "secretB"; OpPresent 41 example_client "secretA"; OpSnapshot 0; OpIssue 0 42 42 (draw "C"); OpApply 0 43].

Definition burned_flow : flow := Eval vm_compute in run burned_ops example_flow.

Example a_burned_family_can_keep_a_live_token :
  reach example_clients burned_flow /\ f_revoking burned_flow = [] /\
  map (fun t => (t_ID t, t_Family t, live t)) (d_tokens (f_db burned_flow)) =
    [("tokA", "tokA", false); ("tokB", "tokA", false); ("tokC", "tokA", true)] /\
  map (fun t => (t_ID t, live t)) (d_tokens (f_db (run [OpPresent 50 example_client "secretC"; OpIssue 0 51 51 (draw "D")] burned_flow))) =
    [("tokA", false); ("tokB", false); ("tokC", false); ("tokD", true)].
Proof.
  split; [|by vm_compute].
  change burned_flow with (run burned_ops example_flow). apply reach_run; [apply example_reached|]. vm_compute. reflexivity.
Qed.

(** *** A rejected client with a live token

    The client's code is read while it is approved, it is rejected and what
    it holds is revoked, and then the code's token is issued. *)
Definition rejected_ops : list op :=
  [OpSession example_session; OpApprove 10 example_request example_consent "code1"; OpCode 20 20 20 example_client example_form;
   OpDecide 21 "smc_1" false "op"; OpSnapshot 0; OpApply 0 21; OpIssue 0 22 22 (draw "A")].

Example a_rejected_client_can_hold_a_live_token :
  runs rejected_ops (start example_clients) = true /\
  let f := run rejected_ops (start example_clients) in
  f_revoking f = [] /\ map (fun r => c_Status (cr_Client r)) (d_clients (f_db f)) = ["rejected"] /\
  map (fun t => (t_ID t, t_ClientID t, live t)) (d_tokens (f_db f)) = [("tokA", "smc_1", true)].
Proof. by vm_compute. Qed.
