(* ===== verification/Keyring.v ===== *)
(** * Keyring: the keys that sign access tokens (internal/mcpauth/keys.go)

    A table of ES256 keys, each "next", "active", "retiring" or "retired",
    and on every replica a copy of it that is at most a minute old.  The
    operations are the source's: [load], [Ensure], [Rotate], [Replace],
    [Maintain], [Sign], [Verify], [SignDigest], [VerifyDigest].

    The curve, the JSON codec and the seal on private keys are interfaces
    with the laws they document; the seal's is discharged from Secrets.v at
    the end of the file.  Nothing here is one atomic action: a load is a
    query and, later, the copy stored and stamped; [Maintain] is two
    transactions; a call of [Verify] looks, may load, and looks again.  The
    theorems are over runs of such steps on any number of replicas, and over
    calls with any steps in between; [Verify_token] and [Ensure] are the
    calls that nothing interrupts, and are such calls ([Verify_alone]).
    Times are nanoseconds on one clock. *)
From S2P Require Import Prelude Tables GoStrings Base64 Float64 Values Secrets OAuth.

Open Scope list_scope.

Definition keyCacheTTL : Z := Minute.
Definition PrePublish : Z := 24 * Hour.
Definition maxAge : Z := 90 * 24 * Hour.
Definition retireAfter : Z := 30 * 24 * Hour.

Inductive key_status : Type := Next | Active | Retiring | Retired.

#[export] Instance key_status_eq_dec : EqDecision key_status.
Proof. solve_decision. Defined.

(** ** The interfaces *)

(** [crypto/ecdsa] on P-256, [crypto/x509] and [crypto/sha256].  A signature
    is its two 32-byte halves, a point its 65 bytes. *)
Class Curve (Priv : Type) : Type := {
  GenerateKey : string -> Priv;
  MarshalECPrivateKey : Priv -> string;
  ParseECPrivateKey : string -> option Priv;
  Point : Priv -> string;
  OnCurve : string -> bool;
  ec_sign : Priv -> string -> string -> string;
  ec_verify : string -> string -> string -> bool;
  Digest : string -> string;
  Digest_length s : String.length (Digest s) = 32;
  Parse_Marshal k : ParseECPrivateKey (MarshalECPrivateKey k) = Some k;
  Point_bytes k : exists x y, Point k = String (ascii_of_nat 4) (x +:+ y) /\ String.length x = 32 /\ String.length y = 32;
  Point_OnCurve k : OnCurve (Point k) = true;
  ec_sign_length k d n : String.length (ec_sign k d n) = 64;
  ec_verify_sign k d n : ec_verify (Point k) d (ec_sign k d n) = true;
}.

(** [encoding/json] on objects.  [json_plain] are the claims it can carry
    unchanged but for the numbers' type: valid UTF-8, finite numbers. *)
Class JSON : Type := {
  json_plain : Claims -> bool;
  json_marshal : Claims -> option string;
  json_unmarshal : string -> option Claims;
  (** into a struct with the fields [alg] and [kid] *)
  json_header : string -> option (string * string);
  json_read_back c s : json_plain c = true -> json_marshal c = Some s -> json_unmarshal s = Some (claims_read c);
  json_header_back alg kid : exists s,
    json_marshal [("alg", VStr alg); ("kid", VStr kid); ("typ", VStr "at+jwt")] = Some s /\ json_header s = Some (alg, kid);
}.

(** The seal on private keys: under the instance's data key, bound to the
    key's row. *)
Class Vault : Type := {
  vault_seal : string -> string -> AAD -> result string string;
  vault_open : string -> AAD -> result string string;
  vault_open_seal nonce p aad c : vault_seal nonce p aad = Ok c -> vault_open c aad = Ok p;
}.

Section keyring.
Context {Priv : Type} `{C : Curve Priv} `{J : JSON} `{V : Vault}.

(** ** The table *)

Record signing_row : Type := mkSigningRow {
  sk_kid : string;
  sk_jwk : Claims;
  sk_enc : string;
  sk_status : key_status;
  sk_created : Z;
  sk_activated : option Z;
  sk_retire : option Z;
}.

Definition set_row_status (st : key_status) (activated retire : option Z) (r : signing_row) : signing_row :=
  mkSigningRow (sk_kid r) (sk_jwk r) (sk_enc r) st (sk_created r) activated retire.

Definition has_status (st : key_status) (r : signing_row) : bool := bool_decide (sk_status r = st).

Definition retiring_row (now : Z) (r : signing_row) : signing_row :=
  set_row_status Retiring (sk_activated r) (Some (now + retireAfter)%Z) r.
Definition retired_now (now : Z) (r : signing_row) : signing_row := set_row_status Retired (sk_activated r) (Some now) r.
Definition retired_row (r : signing_row) : signing_row := set_row_status Retired (sk_activated r) (sk_retire r) r.
Definition active_row (now : Z) (r : signing_row) : signing_row := set_row_status Active (Some now) (sk_retire r) r.

Definition find_kid (kid : string) (rows : list signing_row) : option signing_row :=
  List.find (fun r => String.eqb (sk_kid r) kid) rows.

(** ** Minting *)

Definition key_aad (kid : string) : AAD := mkAAD "signing_keys" "private_enc" kid "".

Definition quoted (s : string) : string := String (ascii_of_nat 34) (s +:+ String (ascii_of_nat 34) "").

Definition kid_of (x y : string) : string :=
  b64 (str_take 8 (Digest ("{" +:+ quoted "crv" +:+ ":" +:+ quoted "P-256" +:+ "," +:+ quoted "kty" +:+ ":" +:+ quoted "EC" +:+ ","
    +:+ quoted "x" +:+ ":" +:+ quoted (b64 x) +:+ "," +:+ quoted "y" +:+ ":" +:+ quoted (b64 y) +:+ "}"))).

Definition jwk_of (kid x y : string) : Claims :=
  [("alg", VStr "ES256"); ("crv", VStr "P-256"); ("kid", VStr kid); ("kty", VStr "EC"); ("use", VStr "sig");
   ("x", VStr (b64 x)); ("y", VStr (b64 y))].

Inductive key_failure : Type :=
  | KSeal (why : string)
  | KUnseal (kid why : string)
  | KParse
  | KPoint
  | KEncode
  | KNoActive
  | KMalformed
  | KAlgorithm (alg : string)
  | KUnknown
  | KSignature.

Record newKey : Type := mkNewKey { nk_kid : string; nk_jwk : Claims; nk_sealed : string }.

(** What a mint draws: the key's randomness and the seal's nonce. *)
Record mint_draw : Type := mkMintDraw { md_seed : string; md_nonce : string }.

Definition mint (r : mint_draw) : result key_failure newKey :=
  let priv := GenerateKey (md_seed r) in
  let point := Point priv in
  if negb (String.length point =? 65) then Err KPoint
  else
    let x := str_take 32 (str_drop 1 point) in
    let y := str_take 32 (str_drop 33 point) in
    let kid := kid_of x y in
    match vault_seal (md_nonce r) (MarshalECPrivateKey priv) (key_aad kid) with
    | Err why => Err (KSeal why)
    | Ok sealed => Ok (mkNewKey kid (jwk_of kid x y) sealed)
    end.

(** INSERT ... ON CONFLICT (kid) DO NOTHING. *)
Definition insert_key (now : Z) (nk : newKey) (st : key_status) (rows : list signing_row) : list signing_row :=
  match find_kid (nk_kid nk) rows with
  | Some _ => rows
  | None => rows ++ [mkSigningRow (nk_kid nk) (nk_jwk nk) (nk_sealed nk) st now
                       (if bool_decide (st = Active) then Some now else None) None]
  end.

(** ** A replica's copy *)

Record signingKey : Type := mkSigningKey { kg_kid : string; kg_priv : option Priv; kg_jwk : Claims; kg_status : key_status }.

Record Keyring : Type := mkKeyring {
  kr_loaded : option Z;
  kr_active : option signingKey;
  kr_byKID : gmap string signingKey;
  kr_jwks : list Claims;
}.

Definition NewKeyring : Keyring := mkKeyring None None ∅ [].

Definition invalidate (k : Keyring) : Keyring := mkKeyring None (kr_active k) (kr_byKID k) (kr_jwks k).

(** The loop of [load] over the rows that are not retired. *)
Fixpoint load_rows (rows : list signing_row) (k : Keyring) : result key_failure Keyring :=
  match rows with
  | [] => Ok k
  | r :: rows =>
      let plain := mkSigningKey (sk_kid r) None (sk_jwk r) (sk_status r) in
      let add sk active := mkKeyring (kr_loaded k) active (<[ sk_kid r := sk ]> (kr_byKID k)) (kr_jwks k ++ [sk_jwk r]) in
      if has_status Active r then
        match vault_open (sk_enc r) (key_aad (sk_kid r)) with
        | Err why => Err (KUnseal (sk_kid r) why)
        | Ok pt => match ParseECPrivateKey pt with
                   | None => Err KParse
                   | Some priv => let sk := mkSigningKey (sk_kid r) (Some priv) (sk_jwk r) Active in load_rows rows (add sk (Some sk))
                   end
        end
      else load_rows rows (add plain (kr_active k))
  end.

(** The query of [load], its keys unsealed and parsed. *)
Definition fetch_keys (rows : list signing_row) : result key_failure Keyring :=
  load_rows (List.filter (fun r => negb (has_status Retired r)) rows) (mkKeyring None None ∅ []).

(** Its end: the keys in place, stamped with the time that is then. *)
Definition store_copy (now : Z) (k : Keyring) : Keyring := mkKeyring (Some now) (kr_active k) (kr_byKID k) (kr_jwks k).

Definition load (now : Z) (rows : list signing_row) : result key_failure Keyring :=
  match fetch_keys rows with Err e => Err e | Ok k => Ok (store_copy now k) end.

Definition fresh (now : Z) (k : Keyring) : bool :=
  match kr_loaded k, kr_active k with Some at_, Some _ => (now - at_ <? keyCacheTTL)%Z | _, _ => false end.

(** ** Changing keys *)

Definition update_rows (p : signing_row -> bool) (h : signing_row -> signing_row) (rows : list signing_row) : list signing_row :=
  update_where p h rows.

Definition Rotate (now : Z) (activate : bool) (r : mint_draw) (rows : list signing_row) (k : Keyring) :
    list signing_row * Keyring * result key_failure unit :=
  match mint r with
  | Err e => (rows, k, Err e)
  | Ok nk =>
      let rows := if activate then update_rows (has_status Active) (retiring_row now) rows else rows in
      (insert_key now nk (if activate then Active else Next) rows, invalidate k, Ok tt)
  end.

Definition Ensure (now : Z) (r : mint_draw) (rows : list signing_row) (k : Keyring) :
    list signing_row * Keyring * result key_failure unit :=
  if fresh now k then (rows, k, Ok tt)
  else match load now rows with
  | Err e => (rows, k, Err e)
  | Ok k =>
      match kr_active k with
      | Some _ => (rows, k, Ok tt)
      | None =>
          match Rotate now true r rows k with
          | (rows, k, Err e) => (rows, k, Err e)
          | (rows, k, Ok _) => match load now rows with
                               | Err e => (rows, k, Err e)
                               | Ok k => (rows, k, Ok tt)
                               end
          end
      end
  end.

Record Replacement : Type := mkReplacement {
  rp_KID : string;
  rp_Minted : bool;
  rp_Active : bool;
  rp_PublishedAt : Z;
  rp_Replaced : string;
  rp_Retired : list string;
}.

Definition last_with (st : key_status) (rows : list signing_row) : option signing_row := last (List.filter (has_status st) rows).

Definition created_of (kid : string) (rows : list signing_row) : Z :=
  match find_kid kid rows with Some r => sk_created r | None => 0 end.

Definition sort_kids (l : list string) : list string := merge_sort String.le l.

(** The transaction of [Replace]. *)
Definition replace_tx (now : Z) (revoke : bool) (nk : newKey) (rows : list signing_row) : list signing_row * Replacement :=
  let replaced := match last_with Active rows with Some r => sk_kid r | None => "" end in
  if negb revoke then
    match last_with Next rows with
    | Some r => (rows, mkReplacement (sk_kid r) false false (sk_created r) replaced [])
    | None =>
        let st := if String.eqb replaced "" then Active else Next in
        let rows := insert_key now nk st rows in
        (rows, mkReplacement (nk_kid nk) true (bool_decide (st = Active)) (created_of (nk_kid nk) rows) replaced [])
    end
  else
    let open r := negb (has_status Retired r) in
    let retired := map sk_kid (List.filter open rows) in
    let rows := insert_key now nk Active (update_rows open (retired_now now) rows) in
    (rows, mkReplacement (nk_kid nk) true true (created_of (nk_kid nk) rows) replaced (sort_kids retired)).

Definition Replace (now : Z) (revoke : bool) (r : mint_draw) (rows : list signing_row) (k : Keyring) :
    list signing_row * Keyring * result key_failure Replacement :=
  match mint r with
  | Err e => (rows, k, Err e)
  | Ok nk => let '(rows, rep) := replace_tx now revoke nk rows in (rows, invalidate k, Ok rep)
  end.

(** [Maintain]'s first transaction: what it saw, after retiring what is past
    its date. *)
Record plan : Type := mkPlan {
  pl_active : option Z;
  pl_next : option (string * Z);
  pl_retired : bool;
}.

Definition since (r : signing_row) : Z := default (sk_created r) (sk_activated r).

Definition overdue (now : Z) (r : signing_row) : bool :=
  has_status Retiring r && match sk_retire r with Some at_ => (at_ <? now)%Z | None => false end.

Definition maintain_read (now : Z) (rows : list signing_row) : list signing_row * plan :=
  (update_rows (overdue now) retired_row rows,
   mkPlan ((fun r => (now - since r)%Z) <$> last_with Active rows) ((fun r => (sk_kid r, (now - since r)%Z)) <$> last_with Next rows)
     (existsb (overdue now) rows)).

(** The promotion: only a key that is still next. *)
Definition promote (now : Z) (kid : string) (rows : list signing_row) : list signing_row :=
  let this r := String.eqb (sk_kid r) kid in
  if existsb (fun r => this r && has_status Next r) rows then
    update_rows (fun r => has_status Active r && negb (this r)) (retiring_row now)
      (update_rows (fun r => this r && has_status Next r) (active_row now) rows)
  else rows.

Definition maintain_act (now : Z) (p : plan) (r : mint_draw) (rows : list signing_row) (k : Keyring) :
    list signing_row * Keyring * result key_failure unit :=
  match pl_next p with
  | Some (kid, age) =>
      if (PrePublish <=? age)%Z then (promote now kid rows, invalidate k, Ok tt)
      else (rows, if pl_retired p then invalidate k else k, Ok tt)
  | None =>
      match pl_active p with
      | Some age =>
          if (maxAge <=? age)%Z then
            match Rotate now false r rows k with
            | (rows, k, Ok _) => (rows, invalidate k, Ok tt)
            | x => x
            end
          else (rows, if pl_retired p then invalidate k else k, Ok tt)
      | None => (rows, if pl_retired p then invalidate k else k, Ok tt)
      end
  end.

(** ** Signing and verifying *)

Definition sign_input (kid : string) (claims : Claims) : option string :=
  header ← json_marshal [("alg", VStr "ES256"); ("kid", VStr kid); ("typ", VStr "at+jwt")];
  payload ← json_marshal claims;
  Some (b64 header +:+ "." +:+ b64 payload).

Definition active_key (k : Keyring) : result key_failure (string * Priv) :=
  match kr_active k with
  | Some key => match kg_priv key with Some priv => Ok (kg_kid key, priv) | None => Err KNoActive end
  | None => Err KNoActive
  end.

Definition sign_claims (k : Keyring) (claims : Claims) (nonce : string) : result key_failure string :=
  match active_key k with
  | Err e => Err e
  | Ok (kid, priv) =>
      match sign_input kid claims with
      | None => Err KEncode
      | Some inp => Ok (inp +:+ "." +:+ b64 (ec_sign priv (Digest inp) nonce))
      end
  end.

Definition Sign_token (now : Z) (r : mint_draw) (claims : Claims) (nonce : string) (rows : list signing_row) (k : Keyring) :
    list signing_row * Keyring * result key_failure string :=
  match Ensure now r rows k with
  | (rows, k, Err e) => (rows, k, Err e)
  | (rows, k, Ok _) => (rows, k, sign_claims k claims nonce)
  end.

Definition JWKS (now : Z) (r : mint_draw) (rows : list signing_row) (k : Keyring) :
    list signing_row * Keyring * result key_failure (list Claims) :=
  match Ensure now r rows k with
  | (rows, k, Err e) => (rows, k, Err e)
  | (rows, k, Ok _) => (rows, k, Ok (kr_jwks k))
  end.

Definition sign_digest (k : Keyring) (b nonce : string) : result key_failure string :=
  match active_key k with
  | Err e => Err e
  | Ok (kid, priv) => Ok (kid +:+ ":" +:+ b64 (ec_sign priv (Digest b) nonce))
  end.

Definition SignDigest (now : Z) (r : mint_draw) (b nonce : string) (rows : list signing_row) (k : Keyring) :
    list signing_row * Keyring * result key_failure string :=
  match Ensure now r rows k with
  | (rows, k, Err e) => (rows, k, Err e)
  | (rows, k, Ok _) => (rows, k, sign_digest k b nonce)
  end.

Definition publicKeyFromJWK (jwk : Claims) : result key_failure string :=
  match unb64 (claim_str jwk "x"), unb64 (claim_str jwk "y") with
  | Some xb, Some yb =>
      if negb (String.length xb =? 32) || negb (String.length yb =? 32) then Err KPoint
      else let point := String (ascii_of_nat 4) (xb +:+ yb) in if OnCurve point then Ok point else Err KPoint
  | _, _ => Err KPoint
  end.

(** The signature, decoded, of 64 bytes. *)
Definition signature (s : string) : option string :=
  sig ← unb64 s; if String.length sig =? 64 then Some sig else None.

Definition VerifyDigest (rows : list signing_row) (b signed : string) : result key_failure unit :=
  let '(kid, sigB64, ok) := Cut signed ":" in
  if negb ok || String.eqb kid "" then Err KMalformed
  else match signature sigB64 with
  | None => Err KMalformed
  | Some sig =>
      match find_kid kid rows with
      | None => Err KUnknown
      | Some r => match publicKeyFromJWK (sk_jwk r) with
                  | Err e => Err e
                  | Ok pub => if ec_verify pub (Digest b) sig then Ok tt else Err KSignature
                  end
      end
  end.

Fixpoint splitN (s sep : string) (n : nat) : list string :=
  match n with
  | 0 | 1 => [s]
  | S n => match Cut s sep with (a, b, true) => a :: splitN b sep n | _ => [s] end
  end.

Definition key_named (k : Keyring) (kid : string) : option signingKey := kr_byKID k !! kid.

(** The checks of [Verify] once the key is found. *)
Definition verify_with (key : signingKey) (h p s : string) : result key_failure Claims :=
  match publicKeyFromJWK (kg_jwk key) with
  | Err e => Err e
  | Ok pub =>
      match signature s with
      | None => Err KMalformed
      | Some sig =>
          if negb (ec_verify pub (Digest (h +:+ "." +:+ p)) sig) then Err KSignature
          else match payload ← unb64 p; json_unmarshal payload with
               | Some claims => Ok claims
               | None => Err KMalformed
               end
      end
  end.

(** The header's key id, when the header is one this server signs with. *)
Definition header_kid (h : string) : result key_failure string :=
  match headerJSON ← unb64 h; json_header headerJSON with
  | None => Err KMalformed
  | Some (alg, kid) => if String.eqb alg "ES256" then Ok kid else Err (KAlgorithm alg)
  end.

Definition Verify_token (now : Z) (r : mint_draw) (token : string) (rows : list signing_row) (k : Keyring) :
    list signing_row * Keyring * result key_failure Claims :=
  match Ensure now r rows k with
  | (rows, k, Err e) => (rows, k, Err e)
  | (rows, k, Ok _) =>
      match splitN token "." 3 with
      | [h; p; s] =>
          match header_kid h with
          | Err e => (rows, k, Err e)
          | Ok kid =>
              match key_named k kid with
              | Some key => (rows, k, verify_with key h p s)
              | None =>
                  match load now rows with
                  | Err e => (rows, k, Err e)
                  | Ok k => (rows, k, match key_named k kid with Some key => verify_with key h p s | None => Err KUnknown end)
                  end
              end
          end
      | _ => (rows, k, Err KMalformed)
      end
  end.
End keyring.

Arguments Keyring Priv : clear implicits.
Arguments signingKey Priv : clear implicits.

(** ** The fleet: replicas over one table

    The steps are what the code does in one go: a transaction on the table,
    the query of a [load], its keys put in place, a copy marked stale.  A
    load takes its keys from the table at one moment and stamps them with
    the time at another, after unsealing; requests on the same replica load
    at once and whichever stores last wins.  SQL's now() is the beginning of
    its transaction.  [lag] bounds how long a load takes from its query to
    its stamp, and a transaction from its beginning to its commit.
    Transactions that write keys come one after another (see
    [two_first_boots] for two that do not). *)
Section fleet.
Context {Priv : Type} `{C : Curve Priv} `{J : JSON} `{V : Vault} (lag : Z).

(** A load between its query and its end. *)
Record inflight : Type := mkInflight { if_replica : nat; if_read : Z; if_copy : Keyring Priv }.

(** [fl_read] is when the rows of a replica's copy were read. *)
Record fleet : Type := mkFleet {
  fl_rows : list signing_row;
  fl_ring : nat -> Keyring Priv;
  fl_read : nat -> option Z;
  fl_loads : list (option inflight);
  fl_plans : list (Z * plan);
}.

Definition upd {A} (i : nat) (a : A) (rings : nat -> A) : nat -> A := fun j => if Nat.eqb j i then a else rings j.

Definition set_rows (rows : list signing_row) (f : fleet) : fleet := mkFleet rows (fl_ring f) (fl_read f) (fl_loads f) (fl_plans f).

(** The table a call leaves. *)
Definition written {A} (x : list signing_row * Keyring Priv * A) : list signing_row := x.1.1.

(** [at_] is the beginning of the transaction. *)
Inductive kop : Type :=
  | KFetch (i : nat)
  | KStore (n : nat)
  | KStale (i : nat)
  | KRotate (at_ : Z) (activate : bool) (r : mint_draw)
  | KReplace (at_ : Z) (revoke : bool) (r : mint_draw)
  | KRead (at_ : Z)
  | KAct (at_ : Z) (j : nat) (r : mint_draw).

Definition kexec (now : Z) (o : kop) (f : fleet) : fleet :=
  match o with
  | KFetch i =>
      match fetch_keys (fl_rows f) with
      | Ok k => mkFleet (fl_rows f) (fl_ring f) (fl_read f) (fl_loads f ++ [Some (mkInflight i now k)]) (fl_plans f)
      | Err _ => f
      end
  | KStore n =>
      match fl_loads f !! n with
      | Some (Some l) =>
          mkFleet (fl_rows f) (upd (if_replica l) (store_copy now (if_copy l)) (fl_ring f))
            (upd (if_replica l) (Some (if_read l)) (fl_read f)) (<[ n := None ]> (fl_loads f)) (fl_plans f)
      | _ => f
      end
  | KStale i => mkFleet (fl_rows f) (upd i (invalidate (fl_ring f i)) (fl_ring f)) (fl_read f) (fl_loads f) (fl_plans f)
  | KRotate at_ activate r => set_rows (written (Rotate at_ activate r (fl_rows f) NewKeyring)) f
  | KReplace at_ revoke r => set_rows (written (Replace at_ revoke r (fl_rows f) NewKeyring)) f
  | KRead at_ =>
      let '(rows, p) := maintain_read at_ (fl_rows f) in
      mkFleet rows (fl_ring f) (fl_read f) (fl_loads f) (fl_plans f ++ [(at_, p)])
  | KAct at_ j r =>
      match fl_plans f !! j with
      | None => f
      | Some (_, p) =>
          mkFleet (written (maintain_act at_ p r (fl_rows f) NewKeyring)) (fl_ring f) (fl_read f) (fl_loads f) (delete j (fl_plans f))
      end
  end.

Definition stamp (now : Z) (o : kop) : Z :=
  match o with KRotate a _ _ | KReplace a _ _ | KRead a | KAct a _ _ => a | _ => now end.

Definition revokes (o : kop) : bool := match o with KReplace _ true _ => true | _ => false end.

(** Nothing takes longer than [lag], and [Maintain]'s second transaction
    begins after its first. *)
Definition timely (now : Z) (o : kop) (f : fleet) : Prop :=
  (stamp now o <= now <= stamp now o + lag)%Z /\
  match o with
  | KStore n => forall l, fl_loads f !! n = Some (Some l) -> (now <= if_read l + lag)%Z
  | KAct at_ j _ => forall x, fl_plans f !! j = Some x -> (x.1 <= at_)%Z
  | _ => True
  end.

(** Steps of a fleet whose clock does not go back; [calm] ones revoke
    nothing. *)
Inductive later (calm : bool) : Z -> fleet -> Z -> fleet -> Prop :=
  | later_refl t t' f : (t <= t')%Z -> later calm t f t' f
  | later_step t f t1 f1 now o t' : later calm t f t1 f1 -> (t1 <= now <= t')%Z -> timely now o f1 ->
      (calm = true -> revokes o = false) -> later calm t f t' (kexec now o f1).

Definition first_boot : fleet := mkFleet [] (fun _ => NewKeyring) (fun _ => None) [] [].

Definition reached (t : Z) (f : fleet) : Prop := exists t0, later false t0 first_boot t f.

Lemma later_le calm t f t' f' : later calm t f t' f' -> (t <= t')%Z.
Proof. induction 1; lia. Qed.

Lemma later_wait calm t f t1 t2 f' : later calm t f t1 f' -> (t1 <= t2)%Z -> later calm t f t2 f'.
Proof. destruct 1; intros T; [apply later_refl; lia|eapply later_step; eauto; lia]. Qed.

Lemma later_trans calm t f t1 f1 t2 f2 : later calm t f t1 f1 -> later calm t1 f1 t2 f2 -> later calm t f t2 f2.
Proof. intros L1 L2. induction L2; [by eapply later_wait|eapply later_step; eauto]. Qed.

Lemma later_one calm t now o f t' : (t <= now <= t')%Z -> timely now o f -> (calm = true -> revokes o = false) ->
  later calm t f t' (kexec now o f).
Proof. intros T Ti R. by apply (later_step _ t f t); [apply later_refl|..]. Qed.

Lemma later_eventful calm t f t' f' : later calm t f t' f' -> later false t f t' f'.
Proof. induction 1; [by apply later_refl|eapply later_step; eauto; done]. Qed.

(** *** Calls, as the steps they are, with anything in between *)

(** [load]: its query at [r], its keys in place at [s]. *)
Inductive load_call (calm : bool) (i : nat) (t : Z) (f : fleet) (u : Z) (f' : fleet) : Prop :=
  | load_in_two r fr k s fs : later calm t f r fr -> fetch_keys (fl_rows fr) = Ok k ->
      later calm r (kexec r (KFetch i) fr) s fs ->
      fl_loads fs !! length (fl_loads fr) = Some (Some (mkInflight i r k)) -> timely s (KStore (length (fl_loads fr))) fs ->
      later calm s (kexec s (KStore (length (fl_loads fr))) fs) u f' ->
      load_call calm i t f u f'.

(** [Ensure], when it succeeds: between a call's begin and its return. *)
Inductive ensured (calm : bool) (i : nat) (t : Z) (f : fleet) (u : Z) (f' : fleet) : Prop :=
  | en_fresh c fc : later calm t f c fc -> fresh c (fl_ring fc i) = true -> later calm c fc u f' -> ensured calm i t f u f'
  | en_load c fc d fd : later calm t f c fc -> fresh c (fl_ring fc i) = false -> load_call calm i c fc d fd ->
      is_Some (kr_active (fl_ring fd i)) -> later calm d fd u f' -> ensured calm i t f u f'
  | en_first c fc d fd at_ r nk e fe g fg : later calm t f c fc -> fresh c (fl_ring fc i) = false -> load_call calm i c fc d fd ->
      kr_active (fl_ring fd i) = None -> mint r = Ok nk -> timely e (KRotate at_ true r) fe -> later calm d fd e fe ->
      later calm e (kexec e (KRotate at_ true r) fe) g fg -> load_call calm i g (kexec g (KStale i) fg) u f' ->
      ensured calm i t f u f'.

(** [Sign]: the active key is taken at [u]. *)
Definition signs (calm : bool) (i : nat) (t : Z) (f : fleet) (claims : Claims) (nonce : string) (u : Z) (f' : fleet) (token : string) : Prop :=
  ensured calm i t f u f' /\ sign_claims (fl_ring f' i) claims nonce = Ok token.

Definition signs_digest (i : nat) (t : Z) (f : fleet) (b nonce : string) (u : Z) (f' : fleet) (signed : string) : Prop :=
  ensured false i t f u f' /\ sign_digest (fl_ring f' i) b nonce = Ok signed.

(** [Verify], once it has ensured its copy: the key is looked up at [u], or
    loaded for and looked up again. *)
Inductive verifies (calm : bool) (i : nat) (t : Z) (f : fleet) (token : string) (u : Z) (f' : fleet) : result key_failure Claims -> Prop :=
  | vf_parts : ensured calm i t f u f' -> length (splitN token "." 3) <> 3 -> verifies calm i t f token u f' (Err KMalformed)
  | vf_header h p s e : ensured calm i t f u f' -> splitN token "." 3 = [h; p; s] -> header_kid h = Err e ->
      verifies calm i t f token u f' (Err e)
  | vf_known h p s kid key : ensured calm i t f u f' -> splitN token "." 3 = [h; p; s] -> header_kid h = Ok kid ->
      key_named (fl_ring f' i) kid = Some key -> verifies calm i t f token u f' (verify_with key h p s)
  | vf_loaded h p s kid c fc : ensured calm i t f c fc -> splitN token "." 3 = [h; p; s] -> header_kid h = Ok kid ->
      key_named (fl_ring fc i) kid = None -> load_call calm i c fc u f' ->
      verifies calm i t f token u f'
        (match key_named (fl_ring f' i) kid with Some key => verify_with key h p s | None => Err KUnknown end).

(** *** What a step does to the table *)

(** A row's possible change at one step. *)
Inductive evolves (now : Z) (revoked : bool) (r : signing_row) : signing_row -> Prop :=
  | ev_same : evolves now revoked r r
  | ev_retiring : sk_status r = Active -> evolves now revoked r (retiring_row now r)
  | ev_promoted : sk_status r = Next -> evolves now revoked r (active_row now r)
  | ev_overdue : overdue now r = true -> evolves now revoked r (retired_row r)
  | ev_revoked : revoked = true -> evolves now revoked r (retired_now now r).

Definition minted (r : signing_row) : Prop :=
  exists m nk, mint m = Ok nk /\ nk_kid nk = sk_kid r /\ nk_jwk nk = sk_jwk r /\ nk_sealed nk = sk_enc r.

(** A row just inserted. *)
Record newborn (now : Z) (rows : list signing_row) (r : signing_row) : Prop := {
  nb_kid : sk_kid r ∉ map sk_kid rows;
  nb_minted : minted r;
  nb_created : sk_created r = now;
  nb_status : sk_status r = Active \/ sk_status r = Next /\ sk_activated r = None;
}.

Definition grows (now : Z) (revoked : bool) (rows rows' : list signing_row) : Prop :=
  exists g new, rows' = map g rows ++ new /\ (forall r, r ∈ rows -> evolves now revoked r (g r)) /\
    (new = [] \/ exists r, new = [r] /\ newborn now rows r).

Lemma evolves_kid now rv r r' : evolves now rv r r' -> sk_kid r' = sk_kid r /\ sk_jwk r' = sk_jwk r /\ sk_enc r' = sk_enc r /\ sk_created r' = sk_created r.
Proof. by destruct 1. Qed.

Lemma has_status_true st r : has_status st r = true <-> sk_status r = st.
Proof. unfold has_status. by rewrite bool_decide_eq_true. Qed.

Lemma find_kid_elem kid rows r : find_kid kid rows = Some r -> r ∈ rows /\ sk_kid r = kid.
Proof. intros [H E]%find_elem. by apply String.eqb_eq in E. Qed.

Lemma find_kid_none kid rows : find_kid kid rows = None -> kid ∉ map sk_kid rows.
Proof.
  intros F (r & -> & Hr)%list_elem_of_fmap. rewrite list_elem_of_In in Hr.
  pose proof (find_none _ _ F r Hr) as E. cbv beta in E. by rewrite String.eqb_refl in E.
Qed.

Lemma grows_refl now rv rows : grows now rv rows rows.
Proof. exists id, []. split; [by rewrite map_id, app_nil_r|]. split; [constructor|by left]. Qed.

Lemma grows_update now rv p h rows : (forall r, r ∈ rows -> p r = true -> evolves now rv r (h r)) -> grows now rv rows (update_rows p h rows).
Proof.
  intros H. exists (fun r => if p r then h r else r), []. split; [by rewrite app_nil_r|]. split; [|by left].
  intros r Hr. destruct (p r) eqn:E; [by apply H|constructor].
Qed.

Lemma insert_newborn now nk m st rows : mint m = Ok nk -> st = Active \/ st = Next ->
  insert_key now nk st rows = rows \/
  exists r, insert_key now nk st rows = rows ++ [r] /\ newborn now rows r /\ sk_kid r = nk_kid nk /\ sk_status r = st.
Proof.
  intros M S. unfold insert_key. destruct (find_kid _ rows) eqn:F; [by left|right]. eexists. split; [done|]. split; [|done].
  constructor; cbn; [by apply find_kid_none|by exists m, nk|done|]. destruct S as [->| ->]; auto.
Qed.

(** An UPDATE and then an insert. *)
Lemma grows_insert now rv p h nk m st rows : mint m = Ok nk -> st = Active \/ st = Next ->
  (forall r, r ∈ rows -> p r = true -> evolves now rv r (h r)) -> (forall r, sk_kid (h r) = sk_kid r) ->
  grows now rv rows (insert_key now nk st (update_rows p h rows)).
Proof.
  intros M S H K. assert (map sk_kid (update_rows p h rows) = map sk_kid rows) as E.
  { unfold update_rows, update_where. rewrite map_map. apply map_ext. intros r. by destruct (p r). }
  destruct (insert_newborn now nk m st (update_rows p h rows) M S) as [->|(r & -> & [] & _)]; [by apply grows_update|].
  exists (fun r => if p r then h r else r), [r]. split; [done|]. split.
  - intros x Hx. destruct (p x) eqn:Px; [by apply H|constructor].
  - right. exists r. split; [done|]. rewrite E in *. by constructor.
Qed.

Lemma grows_plain_insert now rv nk m st rows : mint m = Ok nk -> st = Active \/ st = Next -> grows now rv rows (insert_key now nk st rows).
Proof.
  intros M S. assert (rows = update_rows (fun _ => false) id rows) as E
    by (unfold update_rows, update_where; by rewrite map_id).
  rewrite E at 2. by apply grows_insert with (m := m).
Qed.

Lemma Rotate_grows now rv activate r rows (k : Keyring Priv) : let '(rows', _, _) := Rotate now activate r rows k in grows now rv rows rows'.
Proof.
  unfold Rotate. destruct (mint r) as [nk|e] eqn:M; [|apply grows_refl]. destruct activate.
  - apply grows_insert with (m := r); auto. intros x _ Px%has_status_true. by constructor.
  - apply grows_plain_insert with (m := r); auto.
Qed.

Lemma promote_grows now rv kid rows : grows now rv rows (promote now kid rows).
Proof.
  unfold promote. destruct (existsb _ rows); [|apply grows_refl].
  exists (fun r => let r := if String.eqb (sk_kid r) kid && has_status Next r then active_row now r else r in
           if has_status Active r && negb (String.eqb (sk_kid r) kid) then retiring_row now r else r), [].
  split; [unfold update_rows, update_where; by rewrite map_map, app_nil_r|]. split; [|by left]. intros r _. cbv zeta.
  destruct (String.eqb (sk_kid r) kid) eqn:E; cbn [andb].
  - destruct (has_status Next r) eqn:N; cbn [sk_kid active_row set_row_status]; rewrite E, andb_false_r; [|constructor].
    apply has_status_true in N. by constructor.
  - rewrite E. cbn [negb]. rewrite andb_true_r. destruct (has_status Active r) eqn:A; [|constructor].
    apply has_status_true in A. by constructor.
Qed.

Lemma replace_grows now revoke nk m rows : mint m = Ok nk -> grows now revoke rows (replace_tx now revoke nk rows).1.
Proof.
  intros M. unfold replace_tx. destruct revoke; cbn [negb].
  - apply grows_insert with (m := m); auto. intros r _ _. by constructor.
  - destruct (last_with Next rows); [apply grows_refl|]. cbn. apply grows_plain_insert with (m := m); [done|].
    destruct (String.eqb _ _); auto.
Qed.

Lemma maintain_grows now rv p r rows k : grows now rv rows (written (maintain_act now p r rows k)).
Proof.
  unfold maintain_act, written. destruct (pl_next p) as [[kid age]|]; [destruct (_ <=? _)%Z; [apply promote_grows|apply grows_refl]|].
  destruct (pl_active p) as [age|]; [|apply grows_refl]. destruct (_ <=? _)%Z; [|apply grows_refl].
  pose proof (Rotate_grows now rv false r rows k) as G. by destruct (Rotate _ _ _ _ _) as [[? ?] [|]].
Qed.

Lemma kexec_grows now o f : grows (stamp now o) (revokes o) (fl_rows f) (fl_rows (kexec now o f)).
Proof.
  destruct o; cbn -[Replace Rotate maintain_act].
  - destruct (fetch_keys _); apply grows_refl.
  - destruct (fl_loads f !! n) as [[l|]|]; apply grows_refl.
  - apply grows_refl.
  - unfold written. pose proof (Rotate_grows at_ false activate r (fl_rows f) NewKeyring) as G. by destruct (Rotate _ _ _ _ _) as [[? ?] ?].
  - unfold Replace, written. destruct (mint r) as [nk|] eqn:M; [|apply grows_refl].
    pose proof (replace_grows at_ revoke nk r (fl_rows f) M) as G. destruct (replace_tx _ _ _ _). by destruct revoke.
  - apply grows_update. intros r _ O. by constructor.
  - destruct (fl_plans f !! j) as [[rt p]|]; [apply maintain_grows|apply grows_refl].
Qed.

(** *** What holds of the table *)

Definition actives (rows : list signing_row) : nat := length (List.filter (has_status Active) rows).

Record table_ok (rows : list signing_row) : Prop := {
  tb_nodup : NoDup (map sk_kid rows);
  tb_minted : forall r, r ∈ rows -> minted r;
  tb_next : forall r, r ∈ rows -> sk_status r = Next -> sk_activated r = None;
  tb_one : actives rows <= 1;
}.

Lemma grows_row now rv rows rows' r' : grows now rv rows rows' -> r' ∈ rows' ->
  (exists r, r ∈ rows /\ evolves now rv r r') \/ newborn now rows r'.
Proof.
  intros (g & new & -> & Ev & Nw) [H|H]%elem_of_app.
  - apply list_elem_of_fmap in H as (r & -> & Hr). left. eauto.
  - destruct Nw as [->|(r & -> & N)]; [by apply elem_of_nil in H|]. apply list_elem_of_singleton in H as ->. by right.
Qed.

Lemma grows_kept now rv rows rows' r : grows now rv rows rows' -> r ∈ rows -> exists r', r' ∈ rows' /\ evolves now rv r r'.
Proof.
  intros (g & new & -> & Ev & _) Hr. exists (g r). split; [|by apply Ev]. apply elem_of_app. left. apply list_elem_of_fmap. eauto.
Qed.

Lemma grows_nodup now rv rows rows' : grows now rv rows rows' -> NoDup (map sk_kid rows) -> NoDup (map sk_kid rows').
Proof.
  intros (g & new & -> & Ev & Nw) N. assert (map sk_kid (map g rows) = map sk_kid rows) as E.
  { rewrite map_map. apply map_ext_in. intros r Hr. apply (evolves_kid now rv), Ev. by apply list_elem_of_In. }
  rewrite map_app, E. destruct Nw as [->|(r & -> & [])]; [by rewrite app_nil_r|].
  apply NoDup_app. split; [done|]. split; [|apply NoDup_singleton]. intros x Hx ->%list_elem_of_singleton. done.
Qed.

Lemma evolves_minted now rv r r' : evolves now rv r r' -> minted r -> minted r'.
Proof. intros (E1 & E2 & E3 & _)%evolves_kid (m & nk & ? & ? & ? & ?). exists m, nk. by rewrite E1, E2, E3. Qed.

Lemma evolves_next now rv r r' : evolves now rv r r' -> sk_status r' = Next -> r' = r.
Proof. by destruct 1. Qed.

Lemma actives_none (p : signing_row -> bool) rows : (forall r, r ∈ rows -> p r = false) -> length (List.filter p rows) = 0.
Proof. intros H. by rewrite filter_drops_all. Qed.

Lemma actives_insert now nk st rows : actives rows + (if bool_decide (st = Active) then 1 else 0) <= 1 -> actives (insert_key now nk st rows) <= 1.
Proof.
  unfold insert_key, actives. destruct (find_kid _ rows); [lia|]. rewrite List.filter_app, length_app. cbn [List.filter].
  change (has_status Active (mkSigningRow _ _ _ st _ _ _)) with (bool_decide (st = Active)).
  destruct (bool_decide (st = Active)); simpl; lia.
Qed.

Lemma updated_none p h rows : (forall r, r ∈ rows -> p r = false -> has_status Active r = false) ->
  (forall r, r ∈ rows -> p r = true -> has_status Active (h r) = false) -> actives (update_rows p h rows) = 0.
Proof.
  intros H K. apply actives_none. intros x (r & Hr & ->)%elem_of_update. destruct (p r) eqn:E; auto.
Qed.

Lemma actives_unchanged p h rows : (forall r, r ∈ rows -> p r = true -> has_status Active r = false /\ has_status Active (h r) = false) ->
  actives (update_rows p h rows) = actives rows.
Proof.
  intros H. unfold actives, update_rows, update_where. induction rows as [|r rows IH]; [done|]. simpl.
  destruct (p r) eqn:E.
  - destruct (H r) as [-> ->]; [by left|done|]. apply IH. intros x Hx. apply H. by right.
  - destruct (has_status Active r); simpl; rewrite IH; auto; intros x Hx; apply H; by right.
Qed.

Lemma Rotate_actives now activate m rows (k : Keyring Priv) : actives rows <= 1 -> actives (Rotate now activate m rows k).1.1 <= 1.
Proof.
  intros O. unfold Rotate. destruct (mint m); [|done]. cbn. destruct activate; apply actives_insert; simpl; [|lia].
  rewrite updated_none; [simpl; lia|auto|]. done.
Qed.

Lemma promote_actives now kid rows : NoDup (map sk_kid rows) -> actives rows <= 1 -> actives (promote now kid rows) <= 1.
Proof.
  intros N O. unfold promote. destruct (existsb _ rows); [|done].
  set (rows1 := update_rows _ (active_row now) rows).
  assert (map sk_kid rows1 = map sk_kid rows) as E by (apply map_update; done).
  rewrite <- E in N. clearbody rows1. clear O E.
  assert (forall r, r ∈ update_rows (fun r => has_status Active r && negb (String.eqb (sk_kid r) kid)) (retiring_row now) rows1 ->
            has_status Active r = true -> String.eqb (sk_kid r) kid = true) as K.
  { intros r (x & Hx & ->)%elem_of_update A. destruct (has_status Active x) eqn:Ax; cbn [andb] in A |- *; [|congruence].
    destruct (String.eqb (sk_kid x) kid) eqn:Ex; [done|]. cbn in A. done. }
  assert (NoDup (map sk_kid (update_rows (fun r => has_status Active r && negb (String.eqb (sk_kid r) kid)) (retiring_row now) rows1))) as N'
    by (unfold update_rows; by rewrite map_update).
  revert K N'. generalize (update_rows (fun r => has_status Active r && negb (String.eqb (sk_kid r) kid)) (retiring_row now) rows1).
  clear rows1 N. intros l K N. induction l as [|r l IH]; [unfold actives; simpl; lia|].
  simpl in N. apply NoDup_cons in N as [Nr N]. unfold actives. simpl. destruct (has_status Active r) eqn:A.
  - simpl. rewrite actives_none; [lia|]. intros x Hx. destruct (has_status Active x) eqn:Ax; [|done]. exfalso. apply Nr.
    apply list_elem_of_fmap. exists x. split; [|done].
    pose proof (K r (list_elem_of_here _ _) A) as E1. pose proof (K x (list_elem_of_further _ _ _ Hx) Ax) as E2. bool_prop. congruence.
  - apply IH; [|done]. intros x Hx. apply K. by right.
Qed.

Lemma kid_nonempty x y : kid_of x y <> "".
Proof.
  unfold kid_of. set (d := Digest _). assert (String.length d = 32) as L by apply Digest_length. clearbody d. intros E.
  apply (f_equal unb64) in E. rewrite unb64_b64 in E. change (unb64 "") with (Some "") in E.
  assert (String.length (str_take 8 d) = 8) as X by (apply length_str_take; lia).
  assert (str_take 8 d = "") as Z by congruence. by rewrite Z in X.
Qed.

Lemma minted_kid r : minted r -> sk_kid r <> "".
Proof.
  intros (m & nk & M & <- & _). unfold mint in M. destruct (negb _); [done|]. destruct (vault_seal _ _ _); [|done].
  injection M as <-. apply kid_nonempty.
Qed.

Lemma last_with_elem st rows r : last_with st rows = Some r -> r ∈ rows /\ sk_status r = st.
Proof.
  unfold last_with. intros H%last_Some_elem_of. rewrite list_elem_of_In, filter_In, <- list_elem_of_In in H.
  by rewrite has_status_true in H.
Qed.

Lemma replace_actives now revoke nk rows : (forall r, r ∈ rows -> minted r) -> actives rows <= 1 ->
  actives (replace_tx now revoke nk rows).1 <= 1.
Proof.
  intros M O. unfold replace_tx. destruct revoke; cbn [negb].
  - cbn. apply actives_insert. rewrite updated_none; [simpl; lia| |done]. intros r _ E.
    unfold has_status in *. bool_prop. rewrite bool_decide_eq_false. bool_prop. congruence.
  - destruct (last_with Next rows); [done|]. cbn. apply actives_insert.
    destruct (last_with Active rows) as [r|] eqn:L.
    + apply last_with_elem in L as [Hr _]. rewrite (proj2 (String.eqb_neq _ _)) by (by apply minted_kid, M). simpl. lia.
    + unfold actives. unfold last_with in L. apply last_None in L. rewrite L. simpl. lia.
Qed.

Lemma kexec_actives now o f : table_ok (fl_rows f) -> actives (fl_rows (kexec now o f)) <= 1.
Proof.
  intros [N M _ O]. destruct o; cbn -[Replace Rotate maintain_act].
  - by destruct (fetch_keys _).
  - by destruct (fl_loads f !! n) as [[l|]|].
  - done.
  - by apply Rotate_actives.
  - unfold Replace, written. destruct (mint r) as [nk|]; [|done]. pose proof (replace_actives at_ revoke nk (fl_rows f) M O).
    by destruct (replace_tx _ _ _ _).
  - fold (actives (update_rows (overdue at_) retired_row (fl_rows f))). rewrite actives_unchanged; [done|]. intros r _ E.
    unfold overdue in E. apply andb_true_iff in E as [E _].
    apply has_status_true in E. unfold has_status. cbn. by rewrite E.
  - destruct (fl_plans f !! j) as [[rt p]|]; [|done]. cbn -[maintain_act]. unfold maintain_act, written.
    destruct (pl_next p) as [[kid age]|]; [destruct (_ <=? _)%Z; [by apply promote_actives|done]|].
    destruct (pl_active p) as [age|]; [|done]. destruct (_ <=? _)%Z; [|done].
    pose proof (Rotate_actives at_ false r (fl_rows f) NewKeyring O). by destruct (Rotate _ _ _ _ _) as [[? ?] [|]].
Qed.

Lemma table_step now o f : table_ok (fl_rows f) -> table_ok (fl_rows (kexec now o f)).
Proof.
  intros T. pose proof T as [N M X _]. pose proof (kexec_grows now o f) as G. constructor.
  - by eapply grows_nodup.
  - intros r [(r0 & Hr & Ev)|[]]%(grows_row _ _ _ _ _ G); [by eapply evolves_minted, M|done].
  - intros r [(r0 & Hr & Ev)|[_ _ _ [?|[? ?]]]]%(grows_row _ _ _ _ _ G) S; [|congruence|done].
    pose proof (evolves_next _ _ _ _ Ev S) as ->. auto.
  - by apply kexec_actives.
Qed.

Lemma later_table calm t f t' f' : later calm t f t' f' -> table_ok (fl_rows f) -> table_ok (fl_rows f').
Proof. induction 1; [done|]. intros T. apply table_step. auto. Qed.

Lemma first_table : table_ok [].
Proof. constructor; [constructor|..]; try (intros r H; by apply elem_of_nil in H). unfold actives. simpl. lia. Qed.

Lemma reached_table t f : reached t f -> table_ok (fl_rows f).
Proof. intros (t0 & L). eapply later_table; [done|apply first_table]. Qed.

(** Whatever the replicas do, and in whatever order their halves of
    [Maintain] fall, at most one key is active, as long as transactions that
    activate a key do not overlap ([two_first_boots] shows what happens when
    they do). *)
Theorem one_active_key t f r r' : reached t f -> r ∈ fl_rows f -> r' ∈ fl_rows f ->
  sk_status r = Active -> sk_status r' = Active -> r = r'.
Proof.
  intros [_ _ _ O]%reached_table Hr Hr' A A'. unfold actives in O.
  assert (forall x, x ∈ fl_rows f -> sk_status x = Active -> x ∈ List.filter (has_status Active) (fl_rows f)) as I
    by (intros x Hx Ax; rewrite list_elem_of_In; apply filter_In; rewrite <- list_elem_of_In; by rewrite has_status_true).
  pose proof (I r Hr A) as I1. pose proof (I r' Hr' A') as I2. destruct (List.filter _ _) as [|x [|y l]]; simpl in O; [|..|lia].
  - by apply elem_of_nil in I1.
  - apply list_elem_of_singleton in I1, I2. congruence.
Qed.

(** *** What holds of the replicas' copies *)

(** [m] made [r]. *)
Definition made (m : mint_draw) (r : signing_row) : Prop :=
  exists nk, mint m = Ok nk /\ nk_kid nk = sk_kid r /\ nk_jwk nk = sk_jwk r /\ nk_sealed nk = sk_enc r.

(** [sk] is [r] with its private half. *)
Definition unsealed (r : signing_row) (sk : signingKey Priv) : Prop :=
  kg_kid sk = sk_kid r /\ exists m, made m r /\ kg_priv sk = Some (GenerateKey (md_seed m)).

Lemma made_opens m r : made m r ->
  vault_open (sk_enc r) (key_aad (sk_kid r)) = Ok (MarshalECPrivateKey (GenerateKey (md_seed m))).
Proof.
  intros (nk & M & <- & _ & <-). unfold mint in M. destruct (negb _); [done|]. destruct (vault_seal _ _ _) eqn:S; [|done].
  injection M as <-. cbn. by eapply vault_open_seal.
Qed.

Lemma take_len n a b : String.length a = n -> str_take n (a +:+ b) = a.
Proof. intros <-. apply str_take_app. Qed.

Lemma drop_len n a b : String.length a = n -> str_drop n (a +:+ b) = b.
Proof. intros <-. apply str_drop_app. Qed.

Lemma take_all n a : String.length a = n -> str_take n a = a.
Proof. intros H. pose proof (take_len n a "" H) as E. by rewrite app_empty_r in E. Qed.

Lemma mint_jwk m nk : mint m = Ok nk -> let point := Point (GenerateKey (md_seed m)) in
  nk_jwk nk = jwk_of (nk_kid nk) (str_take 32 (str_drop 1 point)) (str_take 32 (str_drop 33 point)).
Proof.
  unfold mint. destruct (negb _); [done|]. destruct (vault_seal _ _ _); [|done]. intros E.
  assert (forall a b : newKey, @Ok key_failure _ a = Ok b -> b = a) as I by congruence. by rewrite (I _ _ E).
Qed.

(** The published half is the point of the private one. *)
Lemma made_point m r : made m r -> publicKeyFromJWK (sk_jwk r) = Ok (Point (GenerateKey (md_seed m))).
Proof.
  intros (nk & M%mint_jwk & _ & <- & _). destruct (Point_bytes (GenerateKey (md_seed m))) as (x & y & E & Lx & Ly).
  pose proof (Point_OnCurve (GenerateKey (md_seed m))) as O. cbv zeta in M. rewrite M, E in *.
  change (str_drop 33 (String (ascii_of_nat 4) (x +:+ y))) with (str_drop 32 (x +:+ y)).
  change (str_drop 1 (String (ascii_of_nat 4) (x +:+ y))) with (x +:+ y).
  rewrite (drop_len 32), (take_len 32), (take_all 32 y) by done.
  unfold publicKeyFromJWK, jwk_of, claim_str. simpl. rewrite !unb64_b64, Lx, Ly. simpl. by rewrite O.
Qed.

Lemma minted_made r : minted r <-> exists m, made m r.
Proof. unfold minted, made. naive_solver. Qed.

Record from_rows (rows : list signing_row) (k k' : Keyring Priv) : Prop := {
  fr_known kid sk : kr_byKID k' !! kid = Some sk ->
    kr_byKID k !! kid = Some sk \/ exists r, r ∈ rows /\ sk_kid r = kid /\ sk_jwk r = kg_jwk sk;
  fr_all r : r ∈ rows -> is_Some (kr_byKID k' !! sk_kid r);
  fr_more kid : is_Some (kr_byKID k !! kid) -> is_Some (kr_byKID k' !! kid);
  fr_active : kr_active k' = kr_active k \/
    exists r sk, r ∈ rows /\ sk_status r = Active /\ kr_active k' = Some sk /\ unsealed r sk;
}.

Lemma load_rows_from rows : (forall r, r ∈ rows -> minted r) -> forall k, exists k', load_rows rows k = Ok k' /\ from_rows rows k k'.
Proof.
  induction rows as [|r rows IH]; intros M k; [exists k; split; [done|]; constructor; auto; intros ? H; by apply elem_of_nil in H|].
  destruct (proj1 (minted_made r)) as (m & Mr); [by apply M, list_elem_of_here|].
  assert (forall active sk, kg_jwk sk = sk_jwk r ->
    (active = kr_active k \/ sk_status r = Active /\ active = Some sk /\ unsealed r sk) ->
    exists k', load_rows rows (mkKeyring (kr_loaded k) active (<[ sk_kid r := sk ]> (kr_byKID k)) (kr_jwks k ++ [sk_jwk r])) = Ok k' /\
      from_rows (r :: rows) k k') as H.
  { intros active sk Jw A. destruct (IH ltac:(intros x Hx; by apply M, list_elem_of_further)
      (mkKeyring (kr_loaded k) active (<[ sk_kid r := sk ]> (kr_byKID k)) (kr_jwks k ++ [sk_jwk r]))) as (k' & L & [F2 F3 F4 F5]).
    exists k'. split; [done|]. constructor.
    - intros kid x [E|(y & Hy & ? & ?)]%F2; [|right; exists y; set_solver]. cbn in E.
      apply lookup_insert_Some in E as [[<- <-]|[_ E]]; [|by left]. right. exists r. set_solver.
    - intros x [->|Hx]%elem_of_cons; [|auto]. apply F4. cbn. rewrite lookup_insert_eq. by eexists.
    - intros kid K. apply F4. cbn. destruct (decide (sk_kid r = kid)) as [->|?]; [rewrite lookup_insert_eq; by eexists|].
      by rewrite lookup_insert_ne.
    - destruct F5 as [E|(x & y & ? & ? & ? & ?)]; [|right; exists x, y; set_solver]. cbn in E.
      destruct A as [->|(? & -> & ?)]; [by left|]. right. exists r, sk. set_solver. }
  cbn [load_rows]. destruct (has_status Active r) eqn:A.
  - rewrite (made_opens m) by done. rewrite Parse_Marshal. apply H; [done|]. right. apply has_status_true in A.
    split; [done|]. split; [done|]. split; [done|]. by exists m.
  - apply H; auto.
Qed.

(** A load never fails on a table this code wrote. *)
Lemma fetch_from rows : (forall r, r ∈ rows -> minted r) -> exists k, fetch_keys rows = Ok k /\
  from_rows (List.filter (fun r => negb (has_status Retired r)) rows) (mkKeyring None None ∅ []) k.
Proof.
  intros M. apply load_rows_from. intros r Hr. apply M. rewrite list_elem_of_In, filter_In, <- list_elem_of_In in Hr. apply Hr.
Qed.

Lemma not_retired r rows : r ∈ List.filter (fun r => negb (has_status Retired r)) rows <-> r ∈ rows /\ sk_status r <> Retired.
Proof.
  rewrite list_elem_of_In, filter_In, <- list_elem_of_In, negb_true_iff. unfold has_status. by rewrite bool_decide_eq_false.
Qed.

(** A copy of the table: a replica's, or one a load is about to put there. *)
Inductive copy_in (f : fleet) : Z -> Keyring Priv -> Prop :=
  | ci_ring i rd : fl_read f i = Some rd -> copy_in f rd (fl_ring f i)
  | ci_load n l : fl_loads f !! n = Some (Some l) -> copy_in f (if_read l) (if_copy l).

Definition same_keys (k k' : Keyring Priv) : Prop := kr_active k' = kr_active k /\ kr_byKID k' = kr_byKID k.

Definition blank (k : Keyring Priv) : Prop := kr_loaded k = None /\ kr_active k = None /\ kr_byKID k = ∅.

(** Copies come from copies, or are just read. *)
Lemma copies_step now o f rd k : copy_in (kexec now o f) rd k ->
  (exists k0, copy_in f rd k0 /\ same_keys k0 k) \/ rd = now /\ fetch_keys (fl_rows f) = Ok k /\ fl_rows (kexec now o f) = fl_rows f.
Proof.
  assert (forall f', fl_ring f' = fl_ring f -> fl_read f' = fl_read f -> fl_loads f' = fl_loads f -> copy_in f' rd k ->
    exists k0, copy_in f rd k0 /\ same_keys k0 k) as Same.
  { intros f' E1 E2 E3 [i ? R|n l L]; [exists (fl_ring f i)|exists (if_copy l)].
    - split; [apply ci_ring; congruence|by rewrite E1].
    - split; [eapply ci_load; rewrite <- E3; exact L|done]. }
  destruct o; cbn -[Replace Rotate maintain_act].
  - destruct (fetch_keys (fl_rows f)) as [k0|] eqn:F; [|by left; apply (Same f)]. intros [j ? R|n l L]; cbn in *.
    + left. eexists. split; [by apply ci_ring|done].
    + apply lookup_app_Some in L as [L|[_ L]]; [left; eexists; split; [by eapply ci_load|done]|]. apply list_lookup_singleton_Some in L as [_ [= <-]].
      by right.
  - destruct (fl_loads f !! n) as [[l0|]|] eqn:E; [|by left; apply (Same f)..]. intros [j ? R|n' l L]; cbn in *; left.
    + unfold upd in *. destruct (Nat.eqb j _); [injection R as <-|]; eexists; (split; [by econstructor|done]).
    + apply list_lookup_insert_Some in L as [(_ & ? & _)|[_ L]]; [done|]. eexists. split; [by eapply ci_load|done].
  - intros [j ? R|n l L]; cbn in *; left; [|eexists; split; [by eapply ci_load|done]].
    unfold upd. destruct (Nat.eqb j i) eqn:E; [apply Nat.eqb_eq in E as ->|]; eexists; (split; [by apply ci_ring|done]).
  - left. eapply Same; [..|eassumption]; done.
  - left. eapply Same; [..|eassumption]; done.
  - left. eapply Same; [..|eassumption]; done.
  - left. destruct (fl_plans f !! j) as [[? ?]|]; (eapply Same; [..|eassumption]); done.
Qed.

(** What a copy says of the table. *)
Record ring_ok (rows : list signing_row) (k : Keyring Priv) : Prop := {
  rg_known kid sk : kr_byKID k !! kid = Some sk -> exists r, r ∈ rows /\ sk_kid r = kid /\ sk_jwk r = kg_jwk sk;
  rg_active sk : kr_active k = Some sk -> exists r, r ∈ rows /\ unsealed r sk;
}.

Lemma evolves_unsealed now rv r r' sk : evolves now rv r r' -> unsealed r sk -> unsealed r' sk.
Proof.
  intros (E1 & E2 & E3 & _)%evolves_kid (K & m & (nk & M) & P). split; [congruence|]. exists m. split; [|done]. exists nk. by rewrite E1, E2, E3.
Qed.

Lemma ring_grows now rv rows rows' k : grows now rv rows rows' -> ring_ok rows k -> ring_ok rows' k.
Proof.
  intros G [K A]. constructor.
  - intros kid sk (r & Hr & ? & ?)%K. destruct (grows_kept _ _ _ _ _ G Hr) as (r' & Hr' & Ev).
    destruct (evolves_kid _ _ _ _ Ev) as (? & ? & _). exists r'. split; [done|]. split; congruence.
  - intros sk (r & Hr & U)%A. destruct (grows_kept _ _ _ _ _ G Hr) as (r' & Hr' & Ev). exists r'. split; [done|]. by eapply evolves_unsealed.
Qed.

Lemma fetch_ring rows k : (forall r, r ∈ rows -> minted r) -> fetch_keys rows = Ok k -> ring_ok rows k.
Proof.
  intros M L. destruct (fetch_from rows M) as (k' & L' & [F2 F3 F4 F5]). rewrite L in L'. injection L' as <-. constructor.
  - intros kid sk [E|(r & [Hr _]%not_retired & E)]%F2; [|by exists r]. cbn in E. by rewrite lookup_empty in E.
  - intros sk E. destruct F5 as [F|(r & sk' & [Hr _]%not_retired & _ & E' & U)]; [rewrite F in E; done|]. rewrite E in E'. injection E' as <-. by exists r.
Qed.

Lemma same_ring rows k k' : same_keys k k' -> ring_ok rows k -> ring_ok rows k'.
Proof. intros (E1 & E2) [K A]. constructor; [by rewrite E2|by rewrite E1]. Qed.

Lemma blank_ring rows k : blank k -> ring_ok rows k.
Proof. intros (_ & E1 & E2). constructor; [rewrite E2; intros kid sk H; by rewrite lookup_empty in H|by rewrite E1]. Qed.

Record fleet_ok (t : Z) (f : fleet) : Prop := {
  fo_table : table_ok (fl_rows f);
  fo_copies rd k : copy_in f rd k -> (rd <= t)%Z /\ ring_ok (fl_rows f) k;
  fo_blank i : fl_read f i = None -> blank (fl_ring f i);
  fo_stamp i at_ : kr_loaded (fl_ring f i) = Some at_ -> exists rd, fl_read f i = Some rd /\ (at_ <= rd + lag)%Z;
}.

Lemma fleet_ring t f i : fleet_ok t f -> ring_ok (fl_rows f) (fl_ring f i).
Proof.
  intros [_ Cs B _]. destruct (fl_read f i) as [rd|] eqn:R; [by apply (Cs rd), ci_ring|by apply blank_ring, B].
Qed.

Lemma blank_step now o f i : (forall i, fl_read f i = None -> blank (fl_ring f i)) ->
  fl_read (kexec now o f) i = None -> blank (fl_ring (kexec now o f) i).
Proof.
  intros B. destruct o; cbn -[Replace Rotate maintain_act]; auto.
  - destruct (fetch_keys _); cbn; auto.
  - destruct (fl_loads f !! n) as [[l|]|]; cbn; auto. unfold upd. by destruct (Nat.eqb i _); auto.
  - unfold upd. destruct (Nat.eqb i _) eqn:E; auto. apply Nat.eqb_eq in E as ->. by intros (_ & ? & ?)%B.
  - destruct (fl_plans f !! j) as [[? ?]|]; cbn; auto.
Qed.

Lemma stamp_step now o f i at_ : timely now o f ->
  (forall i at_, kr_loaded (fl_ring f i) = Some at_ -> exists rd, fl_read f i = Some rd /\ (at_ <= rd + lag)%Z) ->
  kr_loaded (fl_ring (kexec now o f) i) = Some at_ -> exists rd, fl_read (kexec now o f) i = Some rd /\ (at_ <= rd + lag)%Z.
Proof.
  intros [_ Ti] B. destruct o; cbn -[Replace Rotate maintain_act]; auto.
  - destruct (fetch_keys _); cbn; auto.
  - destruct (fl_loads f !! n) as [[l|]|] eqn:E; cbn; auto. unfold upd. destruct (Nat.eqb i _); auto. intros [= <-]. eauto.
  - unfold upd. destruct (Nat.eqb i _) eqn:E; auto. done.
  - destruct (fl_plans f !! j) as [[? ?]|]; cbn; auto.
Qed.

Lemma fleet_step t now o f : (t <= now)%Z -> timely now o f -> fleet_ok t f -> fleet_ok now (kexec now o f).
Proof.
  intros T Ti [O Cs B S]. pose proof (table_step now o f O) as O'. constructor; [done| |..].
  - intros rd k [(k0 & [L R]%Cs & E)|(-> & F & Eq)]%copies_step.
    + split; [lia|]. eapply same_ring; [done|]. eapply ring_grows; [apply kexec_grows|done].
    + split; [lia|]. rewrite Eq. apply fetch_ring; [apply O|done].
  - intros i. by apply blank_step.
  - intros i at_. by apply stamp_step.
Qed.

Lemma fleet_wait t t' f : (t <= t')%Z -> fleet_ok t f -> fleet_ok t' f.
Proof. intros T [O Cs B S]. constructor; auto. intros rd k [? ?]%Cs. split; [lia|done]. Qed.

Lemma later_fleet calm t f t' f' : later calm t f t' f' -> fleet_ok t f -> fleet_ok t' f'.
Proof.
  induction 1 as [|t f t1 f1 now o t' L IH [T1 T2] Ti R]; intros O; [by eapply fleet_wait|].
  eapply fleet_wait; [done|]. eapply fleet_step; [done|done|auto].
Qed.

Lemma reached_fleet t f : reached t f -> fleet_ok t f.
Proof.
  intros (t0 & L). eapply later_fleet; [done|]. constructor; [apply first_table| | |]; [|done|done].
  intros rd k [i ? H|n l H]; [done|]. by apply lookup_nil_Some in H || by destruct n.
Qed.

(** *** Calls are steps *)

Lemma fetch_timely now i f : (0 <= lag)%Z -> timely now (KFetch i) f.
Proof. intros P. split; [cbn; lia|done]. Qed.

Lemma stale_timely now i f : (0 <= lag)%Z -> timely now (KStale i) f.
Proof. intros P. split; [cbn; lia|done]. Qed.

Section calls.
Context (lag_pos : (0 <= lag)%Z).
#[local] Hint Resolve fetch_timely stale_timely : core.

Lemma then_one calm t f now o f1 t' f' : later calm t f now f1 -> timely now o f1 -> (calm = true -> revokes o = false) ->
  later calm now (kexec now o f1) t' f' -> later calm t f t' f'.
Proof.
  intros L Ti R L'. eapply later_trans; [exact L|]. eapply later_trans; [|exact L']. apply later_one; [lia|done|done].
Qed.

Lemma load_later calm i t f u f' : load_call calm i t f u f' -> later calm t f u f'.
Proof.
  intros [r fr k s fs L1 F L2 E Ti L3]. eapply then_one; [exact L1|by apply fetch_timely|done|].
  by eapply then_one; [exact L2|..].
Qed.

Lemma ensured_later calm i t f u f' : ensured calm i t f u f' -> later calm t f u f'.
Proof.
  intros [c fc L1 _ L2|c fc d fd L1 _ L2%load_later _ L3|c fc d fd at_ r nk e fe g fg L1 _ L2%load_later _ _ Ti L3 L4 L5%load_later].
  - by eapply later_trans.
  - eapply later_trans; [exact L1|]. by eapply later_trans.
  - eapply later_trans; [exact L1|]. eapply later_trans; [exact L2|]. eapply then_one; [exact L3|done|done|].
    eapply then_one; [exact L4|by apply stale_timely|done|done].
Qed.

Lemma verifies_later calm i t f token u f' res : verifies calm i t f token u f' res -> later calm t f u f'.
Proof.
  intros [L%ensured_later _|? ? ? ? L%ensured_later _ _|? ? ? ? ? L%ensured_later _ _ _|? ? ? ? ? ? L%ensured_later _ _ _ L2%load_later]; [done..|].
  by eapply later_trans.
Qed.

(** *** A call that nothing interrupts *)

Lemma load_alone calm now i f k : load now (fl_rows f) = Ok k ->
  exists f', load_call calm i now f now f' /\ fl_rows f' = fl_rows f /\ fl_ring f' i = k.
Proof.
  unfold load. destruct (fetch_keys (fl_rows f)) as [k0|] eqn:F; [|done]. intros [= <-].
  assert (exists fs, kexec now (KFetch i) f = fs /\ fl_loads fs !! length (fl_loads f) = Some (Some (mkInflight i now k0)) /\
    fl_rows fs = fl_rows f) as (fs & E & Hl & Hr).
  { cbn. rewrite F. eexists. split; [done|]. cbn. by rewrite lookup_app_r, Nat.sub_diag by lia. }
  exists (kexec now (KStore (length (fl_loads f))) fs). split.
  - apply (load_in_two _ _ _ _ _ _ now f k0 now fs); [by apply later_refl|done|rewrite E; by apply later_refl|done| |by apply later_refl].
    split; [cbn; lia|]. intros l. rewrite Hl. intros [= <-]. cbn. lia.
  - cbn [kexec]. rewrite Hl. cbn. rewrite Hr. unfold upd. by rewrite Nat.eqb_refl.
Qed.

Lemma Rotate_written now activate r rows (k k' : Keyring Priv) : written (Rotate now activate r rows k) = written (Rotate now activate r rows k').
Proof. unfold Rotate, written. by destruct (mint r). Qed.

Lemma Ensure_alone calm now r i f rows k : Ensure now r (fl_rows f) (fl_ring f i) = (rows, k, Ok tt) ->
  exists f', ensured calm i now f now f' /\ fl_rows f' = rows /\ fl_ring f' i = k.
Proof.
  unfold Ensure. destruct (fresh now (fl_ring f i)) eqn:Fr.
  - intros [= <- <-]. exists f. split; [|done]. apply (en_fresh _ _ _ _ _ _ now f); [by apply later_refl|done|by apply later_refl].
  - destruct (load now (fl_rows f)) as [k0|] eqn:L0; [|done]. destruct (load_alone calm now i f k0 L0) as (fd & C1 & E1 & E2).
    destruct (kr_active k0) as [sk|] eqn:A.
    + intros [= <- <-]. exists fd. split; [|done].
      apply (en_load _ _ _ _ _ _ now f now fd); [by apply later_refl|done|done|rewrite E2, A; by eexists|by apply later_refl].
    + destruct (Rotate now true r (fl_rows f) k0) as [[rows1 k1] [[]|]] eqn:Ro; [|done].
      destruct (load now rows1) as [k2|] eqn:L2; [|done]. intros [= <- <-].
      set (fg := kexec now (KStale i) (kexec now (KRotate now true r) fd)).
      assert (fl_rows fg = rows1) as Eg.
      { change (fl_rows fg) with (written (Rotate now true r (fl_rows fd) NewKeyring)). rewrite E1, (Rotate_written _ _ _ _ _ k0), Ro. done. }
      rewrite <- Eg in L2. destruct (load_alone calm now i fg k2 L2) as (f' & C2 & E3 & E4). exists f'. split; [|by rewrite E3].
      destruct (mint r) as [nk|] eqn:M; [|unfold Rotate in Ro; by rewrite M in Ro].
      eapply (en_first _ _ _ _ _ _ now f now fd now r nk now fd now (kexec now (KRotate now true r) fd));
        [by apply later_refl|done|done|by rewrite E2|done| |by apply later_refl|by apply later_refl|done].
      split; [cbn; lia|done].
Qed.

(** [Verify] at one moment is such a call, or failed to ensure its copy. *)
Lemma Verify_alone calm now r token i f : table_ok (fl_rows f) ->
  (exists f', verifies calm i now f token now f' (Verify_token now r token (fl_rows f) (fl_ring f i)).2) \/
  exists e, (Ensure now r (fl_rows f) (fl_ring f i)).2 = Err e /\ (Verify_token now r token (fl_rows f) (fl_ring f i)).2 = Err e.
Proof.
  intros O. unfold Verify_token. destruct (Ensure now r (fl_rows f) (fl_ring f i)) as [[rows k] [[]|e]] eqn:E; [left|right; by exists e].
  destruct (Ensure_alone calm now r i f rows k E) as (f1 & En & <- & <-).
  assert (forall l, splitN token "." 3 = l -> length l <> 3 -> exists f', verifies calm i now f token now f' (Err KMalformed)) as Bad
    by (intros l <- Hl; exists f1; by apply vf_parts).
  destruct (splitN token "." 3) as [|h [|p [|s [|? ?]]]] eqn:Sp; try (eapply Bad; [reflexivity|cbn; lia]).
  destruct (header_kid h) as [kid|e] eqn:Hk; [|exists f1; by eapply vf_header].
  destruct (key_named (fl_ring f1 i) kid) as [key|] eqn:Kn; [exists f1; by eapply vf_known|].
  assert (table_ok (fl_rows f1)) as O1 by (eapply later_table; [eapply ensured_later; exact En|done]).
  destruct (load now (fl_rows f1)) as [k2|e] eqn:L.
  - destruct (load_alone calm now i f1 k2 L) as (f2 & C2 & _ & <-). exists f2. by eapply vf_loaded.
  - exfalso. unfold load in L. destruct (fetch_from _ (tb_minted _ O1)) as (k0 & F & _). by rewrite F in L.
Qed.

(** *** How old a copy can be *)

Definition recent (x : Z) (i : nat) (f : fleet) : Prop := exists rd, fl_read f i = Some rd /\ (x < rd)%Z.

Lemma recent_step x now o f i : timely now o f -> (x < now - lag)%Z -> recent x i f -> recent x i (kexec now o f).
Proof.
  intros [_ Ti] T R. destruct o; cbn -[Replace Rotate maintain_act]; auto.
  - by destruct (fetch_keys _).
  - destruct (fl_loads f !! n) as [[l|]|] eqn:E; auto. unfold recent, upd. cbn. destruct (Nat.eqb i _); [|done].
    eexists. split; [done|]. specialize (Ti l eq_refl). lia.
  - by destruct (fl_plans f !! j) as [[? ?]|].
Qed.

Lemma later_recent calm x i t f t' f' : later calm t f t' f' -> (x < t - lag)%Z -> recent x i f -> recent x i f'.
Proof.
  induction 1 as [|t f t1 f1 now o t' L IH [T1 T2] Ti R]; intros T Re; [done|]. pose proof (later_le _ _ _ _ _ L).
  apply recent_step; [done|lia|auto].
Qed.

Lemma load_recent calm x i t f u f' : load_call calm i t f u f' -> (x < t - lag)%Z -> recent x i f'.
Proof.
  intros [r fr k s fs L1 F L2 E Ti L3] T. pose proof (later_le _ _ _ _ _ L1). pose proof (later_le _ _ _ _ _ L2).
  eapply later_recent; [exact L3|lia|]. cbn. rewrite E. exists r. cbn. unfold upd. rewrite Nat.eqb_refl. split; [done|lia].
Qed.

Lemma ensured_recent calm i t f u f' : fleet_ok t f -> ensured calm i t f u f' -> recent (t - keyCacheTTL - lag) i f'.
Proof.
  assert (0 < keyCacheTTL)%Z by (unfold keyCacheTTL, Minute, Second; lia). intros O.
  intros [c fc L1 Fr L2|c fc d fd L1 _ L2 _ L3|c fc d fd at_ r nk e fe g fg L1 _ L2 _ _ Ti L3 L4 L5]; pose proof (later_le _ _ _ _ _ L1).
  - eapply later_recent; [exact L2|lia|]. unfold fresh in Fr. destruct (kr_loaded _) as [st|] eqn:St; [|done].
    destruct (fo_stamp _ _ (later_fleet _ _ _ _ _ L1 O) i st St) as (rd & R & Le). destruct (kr_active _); [|done]. bool_prop. exists rd. split; [done|lia].
  - pose proof (later_le _ _ _ _ _ (load_later _ _ _ _ _ _ L2)). eapply later_recent; [exact L3|lia|]. eapply load_recent; [exact L2|lia].
  - pose proof (later_le _ _ _ _ _ (load_later _ _ _ _ _ _ L2)). pose proof (later_le _ _ _ _ _ L3). pose proof (later_le _ _ _ _ _ L4).
    eapply load_recent; [exact L5|lia].
Qed.

(** A key is found under its id, whatever has happened to it since. *)
Lemma find_row rows r : table_ok rows -> r ∈ rows -> find_kid (sk_kid r) rows = Some r.
Proof.
  intros [N _ _ _] Hr. destruct (find_kid (sk_kid r) rows) as [r'|] eqn:F.
  - apply find_kid_elem in F as [Hr' E]. f_equal. by eapply NoDup_map_inj.
  - apply find_kid_none in F. destruct F. apply list_elem_of_fmap. eauto.
Qed.

Lemma later_row calm t f t' f' r : later calm t f t' f' -> r ∈ fl_rows f ->
  exists r', r' ∈ fl_rows f' /\ sk_kid r' = sk_kid r /\ sk_jwk r' = sk_jwk r /\ sk_enc r' = sk_enc r.
Proof.
  induction 1 as [|t f t1 f1 now o t' L IH T Ti Al]; intros Hr; [eauto|]. destruct (IH Hr) as (r1 & Hr1 & E1 & E2 & E3).
  destruct (grows_kept _ _ _ _ _ (kexec_grows now o f1) Hr1) as (r' & Hr' & (F1 & F2 & F3 & _)%evolves_kid). exists r'. repeat split; congruence.
Qed.

Lemma made_no_colon m r : made m r -> has_byte "." (sk_kid r) = false /\ has_byte ":" (sk_kid r) = false.
Proof.
  intros (nk & M & <- & _). unfold mint in M. destruct (negb _); [done|]. destruct (vault_seal _ _ _); [|done].
  assert (forall a b : newKey, @Ok key_failure _ a = Ok b -> b = a) as I by congruence. rewrite (I _ _ M). apply b64_no_dot.
Qed.

(** A digest signed once verifies for ever: whatever replicas do next, key
    retired or revoked, the table still has its public half. *)
Theorem signed_digest_always_verifies t f i b nonce u fu signed t' f' : reached t f ->
  signs_digest i t f b nonce u fu signed -> later false u fu t' f' ->
  VerifyDigest (fl_rows f') b signed = Ok tt.
Proof.
  intros R [En S] L. apply reached_fleet in R. apply ensured_later in En. pose proof (later_fleet _ _ _ _ _ En R) as O.
  assert (table_ok (fl_rows f')) as O' by (by eapply later_table, O).
  unfold sign_digest, active_key in S. destruct (kr_active (fl_ring fu i)) as [sk|] eqn:A; [|done].
  destruct (rg_active _ _ (fleet_ring _ _ i O) sk A) as (x & Hx & U & m & Mx & P).
  rewrite P in S. injection S as <-. destruct (later_row _ _ _ _ _ _ L Hx) as (x' & Hx' & K1 & K2 & _).
  assert (sk_kid x <> "") as NE by (apply minted_kid, (tb_minted _ (fo_table _ _ O) _ Hx)). destruct (made_no_colon _ _ Mx) as [_ Col].
  unfold VerifyDigest. rewrite app_cons_str, app_empty_l, Cut_byte by by rewrite U. rewrite U. cbn [negb orb].
  rewrite (proj2 (String.eqb_neq _ _) NE). unfold signature. rewrite unb64_b64. cbn [mbind option_bind]. rewrite ec_sign_length. cbn [Nat.eqb].
  rewrite <- K1, (find_row _ _ O' Hx'), K2, (made_point m x Mx), ec_verify_sign. done.
Qed.

(** *** Revoking *)

(** The row is retired, and copies read since do not have it. *)
Record gone (t : Z) (kid : string) (f : fleet) : Prop := {
  gn_row r : r ∈ fl_rows f -> sk_kid r = kid -> sk_status r = Retired;
  gn_known : kid ∈ map sk_kid (fl_rows f);
  gn_copy rd k : copy_in f rd k -> (t < rd)%Z -> kr_byKID k !! kid = None;
}.

Lemma evolves_retired now rv r r' : evolves now rv r r' -> sk_status r = Retired -> sk_status r' = Retired.
Proof. destruct 1; try done; congruence. Qed.

Lemma gone_rows now rv rows rows' kid : grows now rv rows rows' -> kid ∈ map sk_kid rows ->
  (forall r, r ∈ rows -> sk_kid r = kid -> sk_status r = Retired) ->
  kid ∈ map sk_kid rows' /\ forall r, r ∈ rows' -> sk_kid r = kid -> sk_status r = Retired.
Proof.
  intros G In H. split.
  - apply list_elem_of_fmap in In as (r & -> & Hr). destruct (grows_kept _ _ _ _ _ G Hr) as (r' & Hr' & (<- & _)%evolves_kid).
    apply list_elem_of_fmap. eauto.
  - intros r' [(r & Hr & Ev)|[F _ _ _]]%(grows_row _ _ _ _ _ G) <-; [|done]. eapply evolves_retired; [done|]. apply H; [done|].
    symmetry. by apply (evolves_kid _ _ _ _ Ev).
Qed.

Lemma fetch_skips rows k kid : (forall r, r ∈ rows -> minted r) -> (forall r, r ∈ rows -> sk_kid r = kid -> sk_status r = Retired) ->
  fetch_keys rows = Ok k -> kr_byKID k !! kid = None.
Proof.
  intros M H L. destruct (fetch_from rows M) as (k' & L' & [F2 _ _ _]). rewrite L in L'. injection L' as <-.
  destruct (kr_byKID k !! kid) as [sk|] eqn:E; [|done].
  destruct (F2 _ _ E) as [E'|(r & [Hr N]%not_retired & K & _)]; [cbn in E'; by rewrite lookup_empty in E'|]. by destruct N; apply H.
Qed.

Lemma gone_step t kid now o f : table_ok (fl_rows f) -> gone t kid f -> gone t kid (kexec now o f).
Proof.
  intros O [H In R]. destruct (gone_rows _ _ _ _ kid (kexec_grows now o f) In H) as [In' H']. constructor; [done|done|].
  intros rd k [(k0 & Ck & _ & E)|(-> & F & _)]%copies_step T; [rewrite E; eauto|]. eapply fetch_skips; [apply O|exact H|done].
Qed.

Lemma later_gone calm t0 kid t f t' f' : later calm t f t' f' -> table_ok (fl_rows f) -> gone t0 kid f -> gone t0 kid f'.
Proof. induction 1; [done|]. intros O G. apply gone_step; [by eapply later_table|auto]. Qed.

Lemma retired_after now rows r : r ∈ update_rows (fun r => negb (has_status Retired r)) (retired_now now) rows -> sk_status r = Retired.
Proof. intros (x & _ & ->)%elem_of_update. unfold has_status. destruct (negb _) eqn:E; [done|]. by bool_prop. Qed.

Lemma revoked_gone t now at_ r f kid nk : fleet_ok t f -> (t <= now)%Z -> mint r = Ok nk -> kid ∈ map sk_kid (fl_rows f) ->
  gone now kid (kexec now (KReplace at_ true r) f).
Proof.
  intros O T M In.
  destruct (grows_insert at_ true (fun r => negb (has_status Retired r)) (retired_now at_) nk r Active (fl_rows f) M) as (g & new & E & Ev & Nw);
    [by left|by constructor|done|].
  cbn in *. unfold Replace, written in *. rewrite M in *. cbn in *. constructor; cbn; [| |].
  - intros x Hx <-. unfold insert_key in Hx. destruct (find_kid _ _) eqn:F; [by eapply retired_after|].
    apply elem_of_app in Hx as [Hx|Hx]; [by eapply retired_after|]. apply list_elem_of_singleton in Hx as ->.
    apply find_kid_none in F. destruct F. cbn in In. unfold update_rows. by rewrite map_update.
  - rewrite E. rewrite map_app. apply elem_of_app. left. rewrite map_map.
    apply list_elem_of_fmap in In as (x & -> & Hx). apply list_elem_of_fmap. exists x. split; [|done].
    symmetry. apply (evolves_kid _ _ _ _ (Ev _ Hx)).
  - intros rd k Ck Lt. assert (copy_in f rd k) as Cf by (by destruct Ck as [i rd Ri|n l Ln]; [apply (ci_ring f)|apply (ci_load f n)]).
    apply (fo_copies _ _ O) in Cf as [? _]. lia.
Qed.

Lemma gone_ring t kid x i f : gone t kid f -> recent x i f -> (t <= x)%Z -> key_named (fl_ring f i) kid = None.
Proof. intros G (rd & R & Lt) T. apply (gn_copy _ _ _ G rd); [by apply ci_ring|lia]. Qed.

(** C19. A revoke reaches every replica within the cache's life and the time a
    load takes: a call of Verify that begins then, or later, accepts no
    token that names a key of before, whatever happens while it runs. *)
Theorem revoked_keys_verify_nothing t f now at_ r nk t' f' j token h p s kid claims :
  reached t f -> (t <= now)%Z -> timely now (KReplace at_ true r) f -> mint r = Ok nk -> kid ∈ map sk_kid (fl_rows f) ->
  later false now (kexec now (KReplace at_ true r) f) t' f' -> (now + keyCacheTTL + lag <= t')%Z ->
  splitN token "." 3 = [h; p; s] -> header_kid h = Ok kid ->
  (forall v fv, ~ verifies false j t' f' token v fv (Ok claims)) /\
  forall r', (Verify_token t' r' token (fl_rows f') (fl_ring f' j)).2 <> Ok claims.
Proof.
  intros R T Ti M In L Late Sp Hk. apply reached_fleet in R. pose proof (revoked_gone _ now at_ r f kid nk R T M In) as G.
  pose proof (fleet_step _ now _ _ T Ti R) as R1. pose proof (later_fleet _ _ _ _ _ L R1) as R2.
  pose proof (later_gone _ now kid _ _ _ _ L (fo_table _ _ R1) G) as G'.
  assert (forall v fv, ~ verifies false j t' f' token v fv (Ok claims)) as No.
  { assert (forall v fv, ensured false j t' f' v fv -> key_named (fl_ring fv j) kid = None /\ (t' <= v)%Z /\ table_ok (fl_rows fv) /\ gone now kid fv) as N.
    { intros v fv En. pose proof (ensured_later _ _ _ _ _ _ En) as Lv. pose proof (later_gone _ now kid _ _ _ _ Lv (fo_table _ _ R2) G') as Gv.
      split; [eapply gone_ring; [exact Gv|by eapply ensured_recent|lia]|]. split; [by eapply later_le|]. split; [by eapply later_table, R2|done]. }
    assert (0 < keyCacheTTL)%Z by (unfold keyCacheTTL, Minute, Second; lia).
    intros v fv V'. inversion V' as [?|? ? ? ? ? Sp' Hk'|? ? ? ? ? En Sp' Hk' Kn|? ? ? ? c fc En Sp' Hk' Kn Lc]; subst.
    - rewrite Sp in Sp'. injection Sp' as <- <- <-. rewrite Hk in Hk'. injection Hk' as <-. destruct (N _ _ En) as [N' _]. congruence.
    - rewrite Sp in Sp'. injection Sp' as <- <- <-. rewrite Hk in Hk'. injection Hk' as <-. destruct (N _ _ En) as (_ & Tc & Oc & Gc).
      rewrite (gone_ring now kid (c - lag - 1) j fv) in *; [done| |eapply load_recent; [exact Lc|lia]|lia].
      eapply later_gone; [by eapply load_later|done|done]. }
  split; [exact No|]. intros r' E. destruct (Verify_alone false t' r' token j f' (fo_table _ _ R2)) as [(fv & V')|(e & _ & E')].
  - rewrite E in V'. by eapply No.
  - congruence.
Qed.

(** *** Promotion *)

(** A key that signs has done so from the start or waited a day. *)
Definition waited (rows : list signing_row) : Prop :=
  forall r at_, r ∈ rows -> sk_activated r = Some at_ -> at_ = sk_created r \/ (sk_created r + PrePublish <= at_)%Z.

Lemma waited_update p h rows : (forall r, sk_activated (h r) = sk_activated r /\ sk_created (h r) = sk_created r) ->
  waited rows -> waited (update_rows p h rows).
Proof.
  intros H W r at_ (x & Hx & ->)%elem_of_update E. destruct (p x); [|by apply W]. destruct (H x) as [E1 E2]. rewrite E1, E2 in *. by apply W.
Qed.

Lemma waited_insert now nk st rows : waited rows -> waited (insert_key now nk st rows).
Proof.
  intros W. unfold insert_key. destruct (find_kid _ rows); [done|]. intros r at_ [H| ->%list_elem_of_singleton]%elem_of_app E; [by apply W|].
  cbn in E. case_bool_decide; [injection E as <-; by left|done].
Qed.

#[local] Hint Resolve waited_update waited_insert : core.

Lemma Rotate_waited now activate r rows (k : Keyring Priv) : waited rows -> waited (Rotate now activate r rows k).1.1.
Proof. intros W. unfold Rotate. destruct (mint r); [|done]. cbn. destruct activate; auto. Qed.

Lemma promote_waited now kid rows : NoDup (map sk_kid rows) -> waited rows ->
  (exists r, r ∈ rows /\ sk_kid r = kid /\ (PrePublish <= now - sk_created r)%Z) -> waited (promote now kid rows).
Proof.
  intros N W (r & Hr & <- & A). unfold promote. destruct (existsb _ _); [|done]. apply waited_update; [done|].
  intros x at_ (y & Hy & ->)%elem_of_update E. destruct (String.eqb (sk_kid y) (sk_kid r)) eqn:Ek; cbn [andb] in *; [|by apply W].
  destruct (has_status Next y); [|by apply W]. injection E as <-. apply String.eqb_eq in Ek.
  rewrite (NoDup_map_inj sk_kid rows y r) by done. right. cbn. lia.
Qed.

Definition planned (rows : list signing_row) (x : Z * plan) : Prop :=
  forall kid age, pl_next x.2 = Some (kid, age) -> exists r, r ∈ rows /\ sk_kid r = kid /\ (age <= x.1 - sk_created r)%Z.

Lemma planned_grows now rv rows rows' x : grows now rv rows rows' -> planned rows x -> planned rows' x.
Proof.
  intros G P kid age E. destruct (P kid age E) as (r & Hr & <- & A). destruct (grows_kept _ _ _ _ _ G Hr) as (r' & Hr' & Ev).
  destruct (evolves_kid _ _ _ _ Ev) as (E1 & _ & _ & E2). exists r'. by rewrite E1, E2.
Qed.

Lemma read_planned now rows : (forall r, r ∈ rows -> sk_status r = Next -> sk_activated r = None) -> planned rows (now, (maintain_read now rows).2).
Proof.
  intros N kid age E. cbn in E. destruct (last_with Next rows) as [r|] eqn:L; [|done]. injection E as <- <-.
  apply last_with_elem in L as [Hr S]. exists r. split; [done|]. split; [done|]. unfold since. by rewrite (N r Hr S).
Qed.

Record staged (f : fleet) : Prop := {
  sg_table : table_ok (fl_rows f);
  sg_waited : waited (fl_rows f);
  sg_plans x : x ∈ fl_plans f -> planned (fl_rows f) x;
}.

Lemma kexec_plans now o f x : x ∈ fl_plans (kexec now o f) ->
  x ∈ fl_plans f \/ exists at_, o = KRead at_ /\ x = (at_, (maintain_read at_ (fl_rows f)).2).
Proof.
  destruct o; cbn -[Replace Rotate maintain_act]; try by left.
  - destruct (fetch_keys _); by left.
  - destruct (fl_loads f !! n) as [[?|]|]; by left.
  - intros [H|H%list_elem_of_singleton]%elem_of_app; eauto.
  - destruct (fl_plans f !! j) as [[? ?]|]; [|by left]. cbn. intros H. left.
    by eapply elem_of_submseteq, sublist_submseteq, sublist_delete.
Qed.

Lemma kexec_waited now o f : timely now o f -> staged f -> waited (fl_rows (kexec now o f)).
Proof.
  intros [_ T] [O W P]. destruct o; cbn -[Replace Rotate maintain_act].
  - by destruct (fetch_keys _).
  - by destruct (fl_loads f !! n) as [[?|]|].
  - done.
  - by apply Rotate_waited.
  - unfold Replace, written. destruct (mint r) as [nk|]; [|done]. unfold replace_tx. destruct revoke; cbn; [by auto|].
    destruct (last_with Next _); [done|]. cbn. auto.
  - cbn. auto.
  - destruct (fl_plans f !! j) as [[rt p]|] eqn:Pj; [|done]. specialize (T _ eq_refl). apply list_elem_of_lookup_2, P in Pj.
    cbn in T |- *. unfold maintain_act, written. destruct (pl_next p) as [[kid age]|] eqn:Np.
    + destruct (_ <=? _)%Z eqn:A; [|done]. bool_prop. cbn. apply promote_waited; [apply O|done|].
      destruct (Pj kid age Np) as (r1 & ? & ? & ?). exists r1. split; [done|]. split; [done|]. cbn in *. lia.
    + destruct (pl_active p) as [age|]; [|done]. destruct (_ <=? _)%Z; [|done].
      pose proof (Rotate_waited at_ false r (fl_rows f) NewKeyring W). by destruct (Rotate _ _ _ _ _) as [[? ?] [|]].
Qed.

Lemma staged_step now o f : timely now o f -> staged f -> staged (kexec now o f).
Proof.
  intros T S. constructor; [by apply table_step, S|by apply kexec_waited|]. destruct S as [O W P].
  intros x [H|(at_ & -> & ->)]%kexec_plans; (eapply planned_grows; [apply kexec_grows|]); [by apply P|]. apply read_planned, O.
Qed.

Lemma reached_staged t f : reached t f -> staged f.
Proof.
  intros (t0 & L). assert (staged first_boot) as S0.
  { constructor; [apply first_table|intros ? ? H|intros ? H]; by apply elem_of_nil in H. }
  revert S0. remember first_boot as f0 eqn:E. clear E. induction L; intros S0; [done|]. apply staged_step; auto.
Qed.

(** No key signs that was not published a day earlier, unless it signs from
    the moment it is made: whatever a plan was made from, and however late
    it is carried out. *)
Theorem no_key_signs_unpublished t f r at_ : reached t f -> r ∈ fl_rows f -> sk_activated r = Some at_ ->
  at_ = sk_created r \/ (sk_created r + PrePublish <= at_)%Z.
Proof. intros R%reached_staged Hr E. by apply (sg_waited _ R). Qed.

(** *** Verifying *)

(** In the key set until [x] at least, if nothing is revoked. *)
Definition kept (x : Z) (r : signing_row) : Prop :=
  sk_status r = Active \/ sk_status r = Retiring /\ exists at_, sk_retire r = Some at_ /\ (x <= at_)%Z.

Lemma evolves_kept now r r' x : evolves now false r r' -> kept x r -> (now <= x <= now + retireAfter)%Z -> kept x r'.
Proof.
  intros Ev K [T1 T2]. destruct Ev as [|S|S|O|]; [done| | | |done].
  - right. split; [done|]. eexists. split; [done|lia].
  - destruct K as [?|[? _]]; congruence.
  - unfold overdue in O. bool_prop. match goal with H : has_status _ _ = true |- _ => apply has_status_true in H as S end.
    destruct K as [?|(_ & at_ & E & ?)]; [congruence|]. rewrite E in *. bool_prop. lia.
Qed.

(** What copies read since [t0] sign with stays in the key set. *)
Definition signers_kept (t0 t : Z) (f : fleet) : Prop :=
  forall rd k sk, copy_in f rd k -> (t0 < rd)%Z -> (t <= rd - lag + retireAfter)%Z -> kr_active k = Some sk ->
    exists r, r ∈ fl_rows f /\ sk_kid r = kg_kid sk /\ kept (rd - lag + retireAfter) r.

Lemma kept_step now o f r x : timely now o f -> revokes o = false -> r ∈ fl_rows f -> kept x r -> (now <= x <= now - lag + retireAfter)%Z ->
  exists r', r' ∈ fl_rows (kexec now o f) /\ sk_kid r' = sk_kid r /\ kept x r'.
Proof.
  intros [Ti _] Rv Hr K T. pose proof (kexec_grows now o f) as G. rewrite Rv in G. destruct (grows_kept _ _ _ _ _ G Hr) as (r' & Hr' & Ev).
  exists r'. split; [done|]. split; [apply (evolves_kid _ _ _ _ Ev)|]. eapply evolves_kept; [done|done|lia].
Qed.

Lemma fetch_signer rows k sk : (forall r, r ∈ rows -> minted r) -> fetch_keys rows = Ok k -> kr_active k = Some sk ->
  exists r, r ∈ rows /\ sk_kid r = kg_kid sk /\ sk_status r = Active.
Proof.
  intros M L A. destruct (fetch_from rows M) as (k' & L' & [_ _ _ F]). rewrite L in L'. injection L' as <-.
  destruct F as [F|(r & sk' & [Hr _]%not_retired & S & E & [K _])]; [by rewrite F in A|]. rewrite A in E. injection E as <-. by exists r.
Qed.

Lemma signers_step t0 t now o f : fleet_ok t f -> (t0 <= t <= now)%Z -> timely now o f -> revokes o = false ->
  signers_kept t0 t f -> signers_kept t0 now (kexec now o f).
Proof.
  intros O T Ti Rv S rd k sk Ck L0 Lt A. apply copies_step in Ck as [(k0 & Ck & E1 & _)|(-> & F & E)].
  - rewrite E1 in A. destruct (fo_copies _ _ O rd k0 Ck) as [B _].
    destruct (S rd k0 sk Ck L0 ltac:(lia) A) as (r & Hr & <- & K). apply kept_step; [done|done|done|done|lia].
  - rewrite E. destruct (fetch_signer _ _ _ (tb_minted _ (fo_table _ _ O)) F A) as (r & Hr & Ek & St). exists r. split; [done|]. split; [done|by left].
Qed.

Lemma later_signers t0 t f t' f' : later true t f t' f' -> (t0 <= t)%Z -> fleet_ok t f -> signers_kept t0 t f -> signers_kept t0 t' f'.
Proof.
  assert (forall t t' f, (t <= t')%Z -> signers_kept t0 t f -> signers_kept t0 t' f) as Wait.
  { intros a b g T S rd k sk Ck L0 Lt A. eapply S; eauto. lia. }
  induction 1 as [t t' f T|t f t1 f1 now o t' L IH [T1 T2] Ti Al]; intros T0 O S; [by eapply Wait|].
  pose proof (later_le _ _ _ _ _ L). eapply Wait; [exact T2|]. eapply signers_step; [by eapply later_fleet|lia|done|auto|auto].
Qed.

Lemma splitN_token a b c : has_byte "." a = false -> has_byte "." b = false -> splitN (a +:+ "." +:+ b +:+ "." +:+ c) "." 3 = [a; b; c].
Proof.
  intros Ha Hb. change ("." +:+ b +:+ "." +:+ c) with (String "." (b +:+ String "." c)). cbn [splitN].
  rewrite Cut_byte by done. change ("." +:+ c) with (String "." c). by rewrite Cut_byte.
Qed.

Lemma later_kept t f t' f' r x : later true t f t' f' -> r ∈ fl_rows f -> kept x r -> (x + lag - retireAfter <= t)%Z -> (t' <= x)%Z ->
  exists r', r' ∈ fl_rows f' /\ sk_kid r' = sk_kid r /\ kept x r'.
Proof.
  induction 1 as [|t f t1 f1 now o t' L IH [T1 T2] Ti Al]; intros Hr K B1 B2; [eauto|]. pose proof (later_le _ _ _ _ _ L).
  destruct IH as (r1 & Hr1 & <- & K1); [done|done|done|lia|]. apply kept_step; [done|auto|done|done|lia].
Qed.

(** Copies read after [u] know the key. *)
Definition knows (u : Z) (kid : string) (f : fleet) : Prop := forall rd k, copy_in f rd k -> (u < rd)%Z -> is_Some (kr_byKID k !! kid).

Lemma later_knows u fu t' f' r x : later true u fu t' f' -> fleet_ok u fu -> r ∈ fl_rows fu -> kept x r -> (x + lag - retireAfter <= u)%Z -> (t' <= x)%Z ->
  knows u (sk_kid r) f'.
Proof.
  induction 1 as [u t f T|u f t1 f1 now o t' L IH [T1 T2] Ti Al]; intros O Hr K B1 B2.
  - intros rd k Ck Lt. apply (fo_copies _ _ O) in Ck as [? _]. lia.
  - intros rd k [(k0 & Ck & _ & E)|(-> & F & _)]%copies_step Lt; [rewrite E; eapply IH; eauto; lia|].
    destruct (later_kept _ _ _ _ r x L Hr K) as (r1 & Hr1 & <- & K1); [lia|lia|].
    destruct (fetch_from _ (tb_minted _ (fo_table _ _ (later_fleet _ _ _ _ _ L O)))) as (k' & F' & [_ All _ _]).
    rewrite F in F'. injection F' as <-. apply All, not_retired. split; [done|]. destruct K1 as [S|[S _]]; by rewrite S.
Qed.

Lemma Ensure_works now r nk rows k : table_ok rows -> mint r = Ok nk -> (Ensure now r rows k).2 = Ok tt.
Proof.
  intros O M. unfold Ensure. destruct (fresh now k); [done|]. unfold load.
  destruct (fetch_from rows (tb_minted _ O)) as (k0 & -> & _). destruct (kr_active _); [done|].
  pose proof (Rotate_grows now false true r rows (store_copy now k0)) as G.
  destruct (Rotate now true r rows _) as [[rows1 k1] res] eqn:E. assert (res = Ok tt) as -> by (unfold Rotate in E; rewrite M in E; congruence).
  destruct (fetch_from rows1) as (k2 & -> & _); [|done].
  intros x [(y & Hy & Ev)|[]]%(grows_row _ _ _ _ _ G); [|done]. eapply evolves_minted; [done|]. by apply O.
Qed.

(** The parts of a token just signed. *)
Lemma sign_claims_parts k claims nonce token : sign_claims k claims nonce = Ok token ->
  exists sk priv h p, kr_active k = Some sk /\ kg_priv sk = Some priv /\ json_marshal claims = Some p /\
    json_header h = Some ("ES256", kg_kid sk) /\
    token = b64 h +:+ "." +:+ b64 p +:+ "." +:+ b64 (ec_sign priv (Digest (b64 h +:+ "." +:+ b64 p)) nonce).
Proof.
  unfold sign_claims, active_key. destruct (kr_active k) as [sk|]; [|done]. destruct (kg_priv sk) as [priv|] eqn:P; [|done].
  unfold sign_input. destruct (json_header_back "ES256" (kg_kid sk)) as (h & -> & Hh). cbn [mbind option_bind].
  destruct (json_marshal claims) as [p|]; [|done]. cbn [mbind option_bind]. intros [= <-]. exists sk, priv, h, p.
  do 4 (split; [done|]). by rewrite <- !app_assoc_str.
Qed.

(** A copy that knows a key's row, or can look it up, accepts what the key
    signed. *)
Lemma verify_with_row sk r m h p claims nonce : sk_jwk r = kg_jwk sk -> made m r -> json_marshal claims = Some p -> json_plain claims = true ->
  verify_with sk (b64 h) (b64 p) (b64 (ec_sign (GenerateKey (md_seed m)) (Digest (b64 h +:+ "." +:+ b64 p)) nonce)) = Ok (claims_read claims).
Proof.
  intros E Mr Mp Pl. unfold verify_with. rewrite <- E, (made_point m r Mr). unfold signature. rewrite unb64_b64. cbn [mbind option_bind].
  rewrite ec_sign_length. cbn [Nat.eqb]. rewrite ec_verify_sign. cbn [negb]. rewrite unb64_b64. cbn [mbind option_bind].
  by rewrite (json_read_back claims p).
Qed.

(** The key a copy has under a row's id accepts what the row's key signed. *)
Lemma copy_verifies t f k x m kid sk h p claims nonce : fleet_ok t f -> ring_ok (fl_rows f) k -> x ∈ fl_rows f -> sk_kid x = kid -> made m x ->
  kr_byKID k !! kid = Some sk -> json_marshal claims = Some p -> json_plain claims = true ->
  verify_with sk (b64 h) (b64 p) (b64 (ec_sign (GenerateKey (md_seed m)) (Digest (b64 h +:+ "." +:+ b64 p)) nonce)) = Ok (claims_read claims).
Proof.
  intros O R Hx <- Mx B Mp Pl. destruct (rg_known _ _ R _ _ B) as (y & Hy & Ey & Jy).
  assert (y = x) as -> by (apply (NoDup_map_inj sk_kid (fl_rows f)); [apply O|done..]). by apply verify_with_row with (r := x).
Qed.

(** What is left of a signing: the key's row, kept, and the token's parts. *)
Lemma signed_parts t0 f0 t f i claims nonce u fu token : fleet_ok t0 f0 -> later true t0 f0 t f -> (t0 + keyCacheTTL + lag <= t)%Z ->
  signs true i t f claims nonce u fu token -> (u <= t - keyCacheTTL - 2 * lag + retireAfter)%Z ->
  exists x m h p rd, x ∈ fl_rows fu /\ made m x /\ json_marshal claims = Some p /\ json_header h = Some ("ES256", sk_kid x) /\
    token = b64 h +:+ "." +:+ b64 p +:+ "." +:+ b64 (ec_sign (GenerateKey (md_seed m)) (Digest (b64 h +:+ "." +:+ b64 p)) nonce) /\
    kept (rd - lag + retireAfter) x /\ (t - keyCacheTTL - lag < rd <= u)%Z.
Proof.
  intros O0 L T [En Sg] U. pose proof (later_fleet _ _ _ _ _ L O0) as O. pose proof (ensured_later _ _ _ _ _ _ En) as Lu.
  pose proof (later_fleet _ _ _ _ _ Lu O) as Ou. pose proof (later_trans _ _ _ _ _ _ _ L Lu) as Lu0.
  assert (signers_kept t0 u fu) as S.
  { eapply later_signers; [exact Lu0|lia|done|]. intros rd k sk Ck Lt. apply (fo_copies _ _ O0) in Ck as [? _]. lia. }
  destruct (ensured_recent _ _ _ _ _ _ O En) as (rd & Rd & Lt). pose proof (ci_ring _ _ _ Rd) as Ck.
  destruct (sign_claims_parts _ _ _ _ Sg) as (sk & priv & h & p & A & P & Mp & Hh & ->).
  destruct (S rd _ sk Ck) as (x & Hx & Kx & Kp); [lia|lia|done|].
  destruct (rg_active _ _ (fleet_ring _ _ i Ou) sk A) as (x' & Hx' & Kx' & m & Mx & P').
  assert (x' = x) as -> by (apply (NoDup_map_inj sk_kid (fl_rows fu)); [apply Ou|done|done|congruence]).
  rewrite P in P'. injection P' as ->. exists x, m, h, p, rd. rewrite Kx. destruct (fo_copies _ _ Ou rd _ Ck) as [? _].
  repeat split; try done; lia.
Qed.

(** C18. Rotation does not cut a token off.  Where nothing has been revoked for a
    minute and the time a load takes before the call that signed it, and
    nothing is revoked after, a token verifies on every replica, with what
    was signed, for thirty days less that minute and twice that time: every
    Verify that is not over by then answers so, whatever runs beside it,
    once a load begun before the token was signed can no longer be stored. *)
Theorem signed_token_verifies t0 f0 t f i claims nonce u fu token v fv j :
  reached t0 f0 -> later true t0 f0 t f -> (t0 + keyCacheTTL + lag <= t)%Z ->
  signs true i t f claims nonce u fu token -> json_plain claims = true ->
  later true u fu v fv -> (u + lag < v)%Z ->
  (forall w fw res, verifies true j v fv token w fw res -> (w <= t - keyCacheTTL - 2 * lag + retireAfter)%Z -> res = Ok (claims_read claims)) /\
  (forall r nk, mint r = Ok nk -> (v <= t - keyCacheTTL - 2 * lag + retireAfter)%Z ->
    (Verify_token v r token (fl_rows fv) (fl_ring fv j)).2 = Ok (claims_read claims)).
Proof.
  intros R L T Sg Pl Lv V'. apply reached_fleet in R. assert (0 < keyCacheTTL)%Z by (unfold keyCacheTTL, Minute, Second; lia).
  assert (fleet_ok u fu) as Ou by (eapply later_fleet; [apply (ensured_later _ _ _ _ _ _ (proj1 Sg))|by eapply later_fleet]).
  pose proof (later_fleet _ _ _ _ _ Lv Ou) as Ov.
  assert (forall w fw res, verifies true j v fv token w fw res -> (w <= t - keyCacheTTL - 2 * lag + retireAfter)%Z -> res = Ok (claims_read claims)) as All.
  { intros w fw res Vf W. pose proof (verifies_later _ _ _ _ _ _ _ _ Vf) as Lw. pose proof (later_le _ _ _ _ _ Lw) as Le.
    pose proof (later_trans _ _ _ _ _ _ _ Lv Lw) as Luw. pose proof (later_fleet _ _ _ _ _ Lw Ov) as Ow.
    destruct (signed_parts t0 f0 t f i claims nonce u fu token R L T Sg) as (x & m & h & p & rd & Hx & Mx & Mp & Hh & -> & Kp & Rd); [lia|].
    destruct (later_row _ _ _ _ _ x Luw Hx) as (x2 & Hx2 & K2 & J2 & E2).
    assert (made m x2) as M2 by (destruct Mx as (nk' & Mx); exists nk'; by rewrite K2, J2, E2).
    assert (header_kid (b64 h) = Ok (sk_kid x)) as Hk by (unfold header_kid; rewrite unb64_b64; cbn [mbind option_bind]; by rewrite Hh).
    clear Lw. destruct Vf as [En Ln|h' p' s' e En Sp Hk'|h' p' s' kid key En Sp Hk' Kn|h' p' s' kid c fc En Sp Hk' Kn Lc].
    - rewrite splitN_token in Ln by apply b64_no_dot. done.
    - rewrite splitN_token in Sp by apply b64_no_dot. injection Sp as <- <- <-. congruence.
    - rewrite splitN_token in Sp by apply b64_no_dot. injection Sp as <- <- <-. rewrite Hk in Hk'. injection Hk' as <-.
      eapply copy_verifies; [exact Ow|by eapply fleet_ring|exact Hx2|exact K2|exact M2|exact Kn|exact Mp|exact Pl].
    - rewrite splitN_token in Sp by apply b64_no_dot. injection Sp as <- <- <-. rewrite Hk in Hk'. injection Hk' as <-.
      pose proof (later_le _ _ _ _ _ (ensured_later _ _ _ _ _ _ En)).
      destruct (load_recent _ u j c fc w fw Lc) as (rd' & Rd' & Lt'); [lia|].
      destruct (later_knows u fu w fw x (rd - lag + retireAfter) Luw Ou Hx Kp) with (rd := rd') (k := fl_ring fw j) as (key & Kk);
        [lia|lia|by apply ci_ring|done|].
      unfold key_named. rewrite Kk. eapply copy_verifies; [exact Ow|by eapply fleet_ring|exact Hx2|exact K2|exact M2|exact Kk|exact Mp|exact Pl]. }
  split; [exact All|]. intros r nk M W. destruct (Verify_alone true v r token j fv (fo_table _ _ Ov)) as [(fw & Vf)|(e & E & _)].
  - by eapply All.
  - by rewrite (Ensure_works v r nk _ _ (fo_table _ _ Ov) M) in E.
Qed.
End calls.

(** *** Runs, executably *)

Definition on_time (now : Z) (o : kop) (f : fleet) : bool :=
  (stamp now o <=? now)%Z && (now <=? stamp now o + lag)%Z &&
  match o with
  | KStore n => match fl_loads f !! n with Some (Some l) => (now <=? if_read l + lag)%Z | _ => true end
  | KAct at_ j _ => match fl_plans f !! j with Some x => (x.1 <=? at_)%Z | None => true end
  | _ => true
  end.

Lemma on_time_timely now o f : on_time now o f = true -> timely now o f.
Proof.
  unfold on_time, timely. intros [[A%Z.leb_le B%Z.leb_le]%andb_true_iff D]%andb_true_iff. split; [lia|].
  destruct o; try done.
  - intros l E. rewrite E in D. by apply Z.leb_le.
  - intros x E. rewrite E in D. by apply Z.leb_le.
Qed.

Fixpoint kruns (l : list (Z * kop)) (f : fleet) : fleet :=
  match l with [] => f | (now, o) :: l => kruns l (kexec now o f) end.

Fixpoint in_time (calm : bool) (t : Z) (l : list (Z * kop)) (f : fleet) : bool :=
  match l with
  | [] => true
  | (now, o) :: l => (t <=? now)%Z && on_time now o f && negb (calm && revokes o) && in_time calm now l (kexec now o f)
  end.

Definition ends (t : Z) (l : list (Z * kop)) : Z := default t (fst <$> last l).

Lemma kruns_later calm t l f t' : in_time calm t l f = true -> (ends t l <= t')%Z -> later calm t f t' (kruns l f).
Proof.
  revert t f. induction l as [|[now o] l IH]; intros t f; [intros _ T; by apply later_refl|]. cbn [in_time kruns].
  intros [[[A%Z.leb_le B%on_time_timely]%andb_true_iff D%negb_true_iff]%andb_true_iff L]%andb_true_iff T.
  eapply later_trans; [|apply IH; [exact L|]].
  - apply later_one; [lia|done|]. intros ->. by destruct (revokes o).
  - unfold ends in *. rewrite last_cons in T. by destruct (last l).
Qed.
End fleet.

(** ** The seal, from Secrets.v *)

Section vault.
Context {K : Type} `{KEK K} `{GCM} (s : sealer K) (Hc : coherent s).

(** Private halves are sealed under the instance's data key and opened by
    whichever key the value names. *)
#[local] Instance vault_at : Vault := {|
  vault_seal nonce := seal_with s nonce ScopeInstance; vault_open := unseal_with s "";
  vault_open_seal nonce := unseal_seal_with s Hc nonce ScopeInstance "" |}.
End vault.

(** ** On concrete keys *)

Definition rep (n : nat) (c : ascii) : string := String.string_of_list_ascii (repeat c n).

Definition zeros : string := rep 32 "0".

Lemma length_rep n c : String.length (rep n c) = n.
Proof. unfold rep. induction n as [|n IH]; [done|]. cbn. by rewrite IH. Qed.

Definition toy_digest (s : string) : string := str_drop (String.length s) (zeros +:+ s).

Definition padded (d : string) : string := str_take 32 (d +:+ zeros).

Lemma length_padded d : String.length (padded d) = 32.
Proof. apply length_str_take. rewrite length_app_str. unfold zeros. rewrite length_rep. lia. Qed.

(** A key that is one letter. *)
#[export] Instance toy_curve : Curve ascii.
Proof.
  refine {|
    GenerateKey seed := match seed with String c _ => c | "" => "a"%char end;
    MarshalECPrivateKey c := String c "";
    ParseECPrivateKey s := match s with String c "" => Some c | _ => None end;
    Point c := String (ascii_of_nat 4) (rep 32 c +:+ rep 32 c);
    OnCurve p := String.length p =? 65;
    ec_sign c d n := padded d +:+ rep 32 c;
    ec_verify p d s := String.eqb s (padded d +:+ str_drop 33 p);
    Digest := toy_digest;
  |}.
  - intros s. unfold toy_digest. rewrite length_str_drop, length_app_str. unfold zeros. rewrite length_rep. lia.
  - done.
  - intros c. exists (rep 32 c), (rep 32 c). by rewrite length_rep.
  - intros c. cbn [String.length]. by rewrite length_app_str, !length_rep.
  - intros c d n. by rewrite length_app_str, length_padded, length_rep.
  - intros c d n. apply String.eqb_refl.
Defined.

(** Objects of one string, and the header. *)
#[export] Instance toy_json : JSON.
Proof.
  refine {|
    json_plain c := match c with [("sub", VStr _)] => true | _ => false end;
    json_marshal c := match c with
                      | [("alg", VStr alg); ("kid", VStr kid); ("typ", _)] => Some (b64 alg +:+ "." +:+ b64 kid)
                      | [("sub", VStr s)] => Some s
                      | _ => None
                      end;
    json_unmarshal s := Some [("sub", VStr s)];
    json_header s := let '(a, k, ok) := Cut s "." in
                     if ok then alg ← unb64 a; kid ← unb64 k; Some (alg, kid) else None;
  |}.
  - intros c s P M. repeat match goal with H : context [match ?x with _ => _ end] |- _ => destruct x; try discriminate end.
    by injection M as <-.
  - intros alg kid. eexists. split; [done|]. rewrite app_cons_str, app_empty_l, Cut_byte by apply b64_no_dot. by rewrite !unb64_b64.
Defined.

#[local] Existing Instance Secrets.plain_gcm.

Definition keyed := Seal_value empty_sealer ScopeInstance "first" (key_aad "none") Secrets.draw.

Lemma keyed_coherent : coherent keyed.2.
Proof.
  assert (Hs : exists c, keyed = (Ok c, keyed.2)) by (eexists; vm_compute; reflexivity).
  destruct Hs as [c Hs]. by apply (Seal_sealed _ _ _ _ _ _ _ empty_coherent draw_ok) in Hs as (dk & dek & kek & _ & Hc & _).
Qed.

#[export] Instance toy_vault : Vault := vault_at keyed.2 keyed_coherent.

Definition mint_a : mint_draw := mkMintDraw "a" "nonce-seal-a".
Definition mint_b : mint_draw := mkMintDraw "b" "nonce-seal-b".
Definition key_b : newKey := Eval vm_compute in match mint mint_b with Ok nk => nk | Err _ => mkNewKey "" [] "" end.

Lemma mint_b_ok : mint mint_b = Ok key_b.
Proof. vm_compute. reflexivity. Qed.

Definition claims_ann : Claims := [("sub", VStr "ann")].

(** The first boot: replica 0 finds no key, makes one and signs with it.  A
    load takes a second, and five at most. *)
Definition boot_time : Z := 1000 * Hour.
Definition a_while : Z := 5 * Second.

Definition looked : list (Z * kop) := [(boot_time, KFetch 0); (boot_time + Second, KStore 0)]%Z.
Definition made_first : list (Z * kop) := [(boot_time + 2 * Second, KRotate (boot_time + Second) true mint_a)]%Z.
Definition reloaded : list (Z * kop) := [(boot_time + 2 * Second, KFetch 0); (boot_time + 3 * Second, KStore 1)]%Z.

Definition looking : fleet (Priv := ascii) := kruns looked first_boot.
Definition keyed_fleet : fleet := kruns made_first looking.
Definition stale_fleet : fleet := kexec (boot_time + 2 * Second) (KStale 0) keyed_fleet.
Definition after_boot : fleet := kruns reloaded stale_fleet.
Definition boot_end : Z := boot_time + 3 * Second.

Definition booted_token : string := match sign_claims (fl_ring after_boot 0) claims_ann "" with Ok t => t | Err _ => "" end.

Lemma reached_first t : reached a_while t (first_boot (Priv := ascii)).
Proof. exists t. by apply later_refl. Qed.

(** A load in two steps on the concrete fleet. *)
Lemma load_run calm i r s f k u : (r <= s <= u)%Z -> fetch_keys (fl_rows f) = Ok k ->
  on_time a_while s (KStore (length (fl_loads f))) (kexec r (KFetch i) f) = true ->
  fl_loads (kexec r (KFetch i) f) !! length (fl_loads f) = Some (Some (mkInflight i r k)) ->
  load_call a_while calm i r f u (kruns [(r, KFetch i); (s, KStore (length (fl_loads f)))] f).
Proof.
  intros T F On L. apply (load_in_two _ _ _ _ _ _ _ r f k s (kexec r (KFetch i) f)); [by apply later_refl|done|apply later_refl; lia|done|by apply on_time_timely|].
  apply later_refl. lia.
Qed.

Definition first_copy : Keyring ascii := match fetch_keys (Priv := ascii) [] with Ok k => k | Err _ => NewKeyring end.
Definition second_copy : Keyring ascii := match fetch_keys (fl_rows stale_fleet) with Ok k => k | Err _ => NewKeyring end.

Lemma boot_ensures calm : ensured a_while calm 0 boot_time first_boot boot_end after_boot.
Proof.
  apply (en_first _ _ _ _ _ _ _ boot_time first_boot (boot_time + Second) looking (boot_time + Second) mint_a
    (match mint (Priv := ascii) mint_a with Ok nk => nk | Err _ => mkNewKey "" [] "" end) (boot_time + 2 * Second) looking
    (boot_time + 2 * Second) keyed_fleet).
  - by apply later_refl.
  - reflexivity.
  - apply (load_run calm 0 boot_time (boot_time + Second) first_boot first_copy); [done|reflexivity|vm_compute; reflexivity..].
  - vm_compute. reflexivity.
  - vm_compute. reflexivity.
  - apply on_time_timely. vm_compute. reflexivity.
  - by apply later_refl.
  - by apply later_refl.
  - apply (load_run calm 0 (boot_time + 2 * Second) boot_end stale_fleet second_copy); [done|vm_compute; reflexivity..].
Qed.

Lemma boot_reached : reached a_while boot_end after_boot.
Proof. exists boot_time. apply (ensured_later a_while ltac:(done) false 0), boot_ensures. Qed.

Lemma boot_signs : signs a_while true 0 boot_time first_boot claims_ann "" boot_end after_boot booted_token.
Proof. split; [apply boot_ensures|]. vm_compute. reflexivity. Qed.

(** The token of the first boot, after another replica has made a new key. *)
Definition rotation : list (Z * kop) := [(boot_time + Hour, KRotate (boot_time + Hour) true mint_b); (boot_time + Hour, KStale 1)]%Z.
Definition rotated : fleet := kruns rotation after_boot.

Lemma signed_token_verifies_witness :
  (Verify_token (boot_time + Hour) mint_b booted_token (fl_rows rotated) (fl_ring rotated 2)).2 = Ok claims_ann.
Proof.
  refine (proj2 (signed_token_verifies a_while _ 0 first_boot boot_time first_boot 0 claims_ann "" boot_end after_boot booted_token
    (boot_time + Hour) rotated 2 _ _ _ _ _ _ _) mint_b key_b _ _).
  - done.
  - apply reached_first.
  - by apply later_refl.
  - vm_compute. discriminate.
  - exact boot_signs.
  - reflexivity.
  - apply kruns_later; [vm_compute; reflexivity|vm_compute; discriminate].
  - vm_compute. reflexivity.
  - exact mint_b_ok.
  - vm_compute. discriminate.
Defined.

(** The same, with everything revoked an hour after the boot. *)
Definition revoked : fleet := kexec (boot_time + Hour) (KReplace (boot_time + Hour) true mint_b) after_boot.

Definition token_parts : list string := Eval vm_compute in splitN booted_token "." 3.

Lemma revoked_keys_verify_nothing_witness :
  (Verify_token (boot_time + 2 * Hour) mint_b booted_token (fl_rows revoked) (fl_ring revoked 0)).2 <> Ok claims_ann.
Proof.
  refine (proj2 (revoked_keys_verify_nothing a_while _ boot_end after_boot (boot_time + Hour) (boot_time + Hour) mint_b key_b (boot_time + 2 * Hour) revoked 0
    booted_token (nth 0 token_parts "") (nth 1 token_parts "") (nth 2 token_parts "") (kid_of (rep 32 "a") (rep 32 "a")) claims_ann _ _ _ _ _ _ _ _ _) mint_b).
  - done.
  - exact boot_reached.
  - vm_compute. discriminate.
  - apply on_time_timely. vm_compute. reflexivity.
  - exact mint_b_ok.
  - vm_compute. by left.
  - by apply later_refl.
  - vm_compute. discriminate.
  - vm_compute. reflexivity.
  - vm_compute. reflexivity.
Defined.

(** Why a load's length counts: replica 1 queries the keys, all are revoked a
    second later, and the copy is stored and stamped four seconds after
    that.  More than a minute after the revoke the replica still counts the
    copy as fresh and accepts a revoked key's token. *)
Definition slow_load : list (Z * kop) :=
  [(boot_time + Hour, KFetch 1);
   (boot_time + Hour + Second, KReplace (boot_time + Hour + Second) true mint_b);
   (boot_time + Hour + 5 * Second, KStore 2)]%Z.

Example a_slow_load_outlives_the_minute :
  let f := kruns slow_load after_boot in
  let after := (boot_time + Hour + Second + keyCacheTTL + 3 * Second)%Z in
  in_time a_while false boot_end slow_load after_boot = true /\
  map sk_status (fl_rows f) = [Retired; Active] /\
  (Verify_token after mint_b booted_token (fl_rows f) (fl_ring f 1)).2 = Ok claims_ann.
Proof. vm_compute. repeat split. Qed.

(** An anchor signed at the first boot, checked after its key is revoked. *)
Definition boot_anchor : string := match sign_digest (fl_ring after_boot 0) "head" "" with Ok s => s | Err _ => "" end.

Lemma signed_digest_always_verifies_witness : VerifyDigest (fl_rows revoked) "head" boot_anchor = Ok tt.
Proof.
  apply (signed_digest_always_verifies a_while ltac:(done) boot_time first_boot 0 "head" "" boot_end after_boot boot_anchor (boot_time + Hour)).
  - apply reached_first.
  - split; [apply boot_ensures|]. vm_compute. reflexivity.
  - apply (kruns_later a_while false boot_end [((boot_time + Hour)%Z, KReplace (boot_time + Hour) true mint_b)]);
      [vm_compute; reflexivity|vm_compute; discriminate].
Defined.

Definition boot_row : signing_row :=
  match fl_rows after_boot with r :: _ => r | [] => mkSigningRow "" [] "" Retired 0 None None end.

Lemma one_active_key_witness : boot_row = boot_row /\ sk_status boot_row = Active.
Proof.
  split; [|vm_compute; reflexivity]. apply (one_active_key a_while boot_end after_boot boot_row boot_row boot_reached); vm_compute; by left || reflexivity.
Defined.

(** Two replicas that boot at once on an empty table: neither UPDATE sees the
    other's uncommitted row, no index forbids a second active key, and both
    inserts commit. *)
Example two_first_boots :
  match mint mint_a, mint mint_b with
  | Ok a, Ok b =>
      let retire := update_rows (has_status Active) (retiring_row boot_time) in
      retire [] = [] /\ actives (insert_key boot_time b Active (insert_key boot_time a Active (retire []))) = 2
  | _, _ => False
  end.
Proof. vm_compute. by split. Qed.

(** A key published at the first boot and promoted a day later. *)
Definition later_on : Z := boot_time + Minute + PrePublish.
Definition promotion : list (Z * kop) :=
  [(boot_time + Minute, KRotate (boot_time + Minute) false mint_b); (later_on, KRead later_on); (later_on, KAct later_on 0 mint_a)]%Z.
Definition promoted : fleet := kruns promotion after_boot.

Definition promoted_row : signing_row :=
  match fl_rows promoted with _ :: r :: _ => r | _ => boot_row end.

Lemma no_key_signs_unpublished_witness :
  sk_activated promoted_row = Some later_on /\ (later_on = sk_created promoted_row \/ (sk_created promoted_row + PrePublish <= later_on)%Z).
Proof.
  split; [vm_compute; reflexivity|]. apply (no_key_signs_unpublished a_while later_on promoted promoted_row).
  - destruct boot_reached as [t L]. exists t. eapply later_trans; [exact L|].
    apply kruns_later; [vm_compute; reflexivity|vm_compute; discriminate].
  - vm_compute. right. by left.
  - vm_compute. reflexivity.
Defined.
