(* ===== verification/Ssrf.v ===== *)
(** * Ssrf: keeping outbound connections away from private networks
    (internal/ssrf/ssrf.go, internal/safeurl/safeurl.go)

    Addresses are [netip.Addr]: 32-bit integers, or 128-bit integers with a
    zone.  What [net] and [net/netip] do with text (splitting a host from a
    port, parsing and printing an address) is an interface; what they do with
    an address is written out.  A dial is the sequence of destinations tried,
    against a network that answers each.

    The classes are compared with a table of ranges; the dialer's theorem is
    that behind the guard nothing is tried but addresses that passed. *)
From S2P Require Import Prelude GoStrings.

Open Scope list_scope.

(** ** Addresses *)

Inductive Addr : Type := V4 (n : Z) | V6 (n : Z) (zone : string).

#[export] Instance Addr_eq_dec : EqDecision Addr.
Proof. solve_decision. Defined.

Definition valid_addr (a : Addr) : bool :=
  match a with V4 n => (0 <=? n)%Z && (n <? 2 ^ 32)%Z | V6 n _ => (0 <=? n)%Z && (n <? 2 ^ 128)%Z end.

Definition Is4 (a : Addr) : bool := match a with V4 _ => true | V6 _ _ => false end.

Definition Is4In6 (a : Addr) : bool := match a with V4 _ => false | V6 n _ => (Z.shiftr n 32 =? 65535)%Z end.

Definition Unmap (a : Addr) : Addr := match a with V6 n _ => if Is4In6 a then V4 (Z.land n (Z.ones 32)) else a | _ => a end.

(** The last four of the sixteen bytes. *)
Definition embedded_v4 (a : Addr) : Addr := match a with V4 n => V4 n | V6 n _ => V4 (Z.land n (Z.ones 32)) end.

Definition IsLoopback (a : Addr) : bool := match a with V4 n => (Z.shiftr n 24 =? 127)%Z | V6 n _ => (n =? 1)%Z end.

(** A comparison of whole addresses: one with a zone is not [::]. *)
Definition IsUnspecified (a : Addr) : bool := bool_decide (a = V4 0) || bool_decide (a = V6 0 "").

Definition IsMulticast (a : Addr) : bool :=
  match a with V4 n => (Z.land (Z.shiftr n 24) 240 =? 224)%Z | V6 n _ => (Z.shiftr n 120 =? 255)%Z end.

Definition IsInterfaceLocalMulticast (a : Addr) : bool :=
  match a with V4 _ => false | V6 n _ => (Z.land (Z.shiftr n 112) 65295 =? 65281)%Z end.

Definition IsLinkLocalUnicast (a : Addr) : bool :=
  match a with V4 n => (Z.shiftr n 16 =? 43518)%Z | V6 n _ => (Z.land (Z.shiftr n 112) 65472 =? 65152)%Z end.

Definition IsLinkLocalMulticast (a : Addr) : bool :=
  match a with V4 n => (Z.shiftr n 8 =? 14680064)%Z | V6 n _ => (Z.land (Z.shiftr n 112) 65295 =? 65282)%Z end.

(** [netip.Prefix.Contains]: prefixes have no zones, and contain no address
    that has one. *)
Definition Contains_addr (p : Addr * Z) (a : Addr) : bool :=
  match p.1, a with
  | V4 q, V4 n => (Z.shiftr (Z.lxor n q) (32 - p.2) =? 0)%Z
  | V6 q _, V6 n zone => String.eqb zone "" && (Z.shiftr (Z.lxor n q) (128 - p.2) =? 0)%Z
  | _, _ => false
  end.

(** ** Classification *)

Inductive Class : Type := Public | Loopback | Private | LinkLocal | Special.

#[export] Instance Class_eq_dec : EqDecision Class.
Proof. solve_decision. Defined.

Definition dotted (a b c d : Z) : Z := (((a * 256 + b) * 256 + c) * 256 + d)%Z.
Definition prefix4 (a b c d bits : Z) : Addr * Z := (V4 (dotted a b c d), bits).
Definition prefix6 (hextets : list Z) (bits : Z) : Addr * Z :=
  (V6 (foldl (fun acc h => acc * 65536 + h)%Z 0%Z (take 8 (hextets ++ repeat 0%Z 8))) "", bits).

Definition v4Private : list (Addr * Z) := [prefix4 10 0 0 0 8; prefix4 172 16 0 0 12; prefix4 192 168 0 0 16; prefix4 100 64 0 0 10].
Definition v4Special : list (Addr * Z) :=
  [prefix4 0 0 0 0 8; prefix4 224 0 0 0 4; prefix4 240 0 0 0 4; prefix4 192 0 0 0 24; prefix4 192 0 2 0 24; prefix4 198 18 0 0 15;
   prefix4 198 51 100 0 24; prefix4 203 0 113 0 24].
Definition v6ULA : Addr * Z := prefix6 [64512]%Z 7.
Definition v6LL : Addr * Z := prefix6 [65152]%Z 10.
Definition v6Doc : Addr * Z := prefix6 [8193; 3512]%Z 32.
Definition v6NAT : Addr * Z := prefix6 [100; 65435]%Z 96.
Definition v6Mcast : Addr * Z := prefix6 [65280]%Z 8.

Definition unwrap_v4 (a : Addr) : Addr :=
  let a := if Is4In6 a then Unmap a else a in
  if negb (Is4 a) && Contains_addr v6NAT a then embedded_v4 a else a.

(** The class of an address that embeds no other. *)
Definition class_of (a : Addr) : Class :=
  if IsLoopback a then Loopback
  else if IsUnspecified a || IsMulticast a || IsInterfaceLocalMulticast a then Special
  else if IsLinkLocalUnicast a || IsLinkLocalMulticast a then LinkLocal
  else if Is4 a then
    if existsb (fun p => Contains_addr p a) v4Private then Private
    else if existsb (fun p => Contains_addr p a) v4Special then Special
    else if bool_decide (a = V4 (dotted 255 255 255 255)) then Special
    else Public
  else if Contains_addr v6ULA a then Private
  else if Contains_addr v6LL a then LinkLocal
  else if Contains_addr v6Doc a || Contains_addr v6Mcast a then Special
  else Public.

Definition Classify (a : Addr) : Class := class_of (unwrap_v4 a).

(** ** The policy *)

Record Policy : Type := mkPolicy {
  Disabled : bool;
  AllowLoopback : bool;
  AllowPrivate : bool;
  AllowedHosts : list string;
  (** what the dynamic allowlist answers, when there is one *)
  extra : option (list string);
}.

Definition SetDynamicAllowlist (p : Policy) (hosts : list string) : Policy :=
  mkPolicy (Disabled p) (AllowLoopback p) (AllowPrivate p) (AllowedHosts p) (Some hosts).

Definition className (c : Class) : string :=
  match c with Loopback => "loopback" | Private => "private network" | LinkLocal => "link-local" | Special => "reserved" | Public => "public" end.

Definition AddrAllowed (p : Policy) (a : Addr) : bool :=
  if Disabled p then true
  else match Classify a with
  | Public => true
  | Loopback => AllowLoopback p
  | Private => AllowPrivate p
  | _ => false
  end.

Section guard.
(** The case mapping of non-ASCII text. *)
Context (lower_wide : string -> string).

Definition pattern (pat : string) : string := ToLower lower_wide (TrimSpace pat).

Definition matches (host pat : string) : bool :=
  let pat := pattern pat in
  if String.eqb pat "" then false
  else if HasPrefix pat "*." then String.eqb host (str_drop 2 pat) || HasSuffix host (str_drop 1 pat)
  else String.eqb pat host.

Fixpoint matchAny (host : string) (patterns : list string) : bool :=
  match patterns with
  | [] => false
  | pat :: patterns => if matches host pat then true else matchAny host patterns
  end.

Definition host_name (host : string) : string := ToLower lower_wide (TrimSuffix host ".").

Definition HostAllowed (p : Policy) (host : string) : bool :=
  let host := host_name host in
  if matchAny host (AllowedHosts p) then true
  else match extra p with Some hosts => matchAny host hosts | None => false end.

(** ** Dialling *)

(** [net] and [net/netip] on text. *)
Class Net : Type := {
  ParseAddr : string -> option Addr;
  SplitHostPort : string -> option (string * string);
  Trim_brackets : string -> string;
}.

(** Where a connection is tried: the address as it was given, or one of the
    resolver's. *)
Inductive destination : Type := ByText (addr : string) | ByIP (ip : Addr) (port : string).

Inductive dial_error : Type :=
  | DBadAddress
  | DBlocked (host : string) (ip : Addr) (class : string)
  | DNoAddresses (host : string)
  | DLookup (why : string)
  | DConnect (why : string).

Context `{Net}.

(** [base] is the network's answer to one attempt, [done n] whether the
    context has ended after the [n]th. *)
Variable (base : destination -> result string unit) (done : nat -> bool).

Fixpoint dial_each (n : nat) (ips : list Addr) (port : string) (last : string) : list destination * result dial_error destination :=
  match ips with
  | [] => ([], Err (DConnect last))
  | ip :: ips =>
      match base (ByIP ip port) with
      | Ok _ => ([ByIP ip port], Ok (ByIP ip port))
      | Err why =>
          if done n then ([ByIP ip port], Err (DConnect why))
          else let '(tried, res) := dial_each (S n) ips port why in (ByIP ip port :: tried, res)
      end
  end.

Definition dial_text (addr : string) : list destination * result dial_error destination :=
  ([ByText addr], match base (ByText addr) with Ok _ => Ok (ByText addr) | Err why => Err (DConnect why) end).

Definition blocked_of (p : Policy) (ips : list Addr) : option Addr := List.find (fun ip => negb (AddrAllowed p ip)) ips.

Definition DialContext (p : Policy) (lookup : string -> result string (list Addr)) (addr : string) :
    list destination * result dial_error destination :=
  match SplitHostPort addr with
  | None => ([], Err DBadAddress)
  | Some (host, port) =>
      if Disabled p || HostAllowed p host then dial_text addr
      else match ParseAddr (Trim_brackets host) with
      | Some ip => if negb (AddrAllowed p ip) then ([], Err (DBlocked host ip (className (Classify ip)))) else dial_text addr
      | None =>
          match lookup host with
          | Err why => ([], Err (DLookup why))
          | Ok [] => ([], Err (DNoAddresses host))
          | Ok ips => match blocked_of p ips with
                      | Some ip => ([], Err (DBlocked host ip (className (Classify ip))))
                      | None => dial_each 0 ips port ""
                      end
          end
      end
  end.

Definition CheckHost (p : Policy) (lookup : string -> result string (list Addr)) (host : string) : result dial_error (list Addr) :=
  if Disabled p || HostAllowed p host then Ok []
  else match ParseAddr (Trim_brackets host) with
  | Some ip => if negb (AddrAllowed p ip) then Err (DBlocked host ip (className (Classify ip))) else Ok [ip]
  | None =>
      match lookup host with
      | Err why => Err (DLookup why)
      | Ok ips => match blocked_of p ips with
                  | Some ip => Err (DBlocked host ip (className (Classify ip)))
                  | None => Ok ips
                  end
      end
  end.
End guard.

(** [FromEnv]. *)
Definition FromEnv (get : string -> string) : Policy :=
  mkPolicy (String.eqb (get "SUPERMCP_SSRF_GUARD") "disabled") (String.eqb (get "SUPERMCP_SSRF_ALLOW_LOOPBACK") "true")
    (String.eqb (get "SUPERMCP_SSRF_ALLOW_PRIVATE") "true")
    (List.filter (fun h => negb (String.eqb h "")) (map TrimSpace (Split (get "SUPERMCP_SSRF_ALLOWED_HOSTS") ","))) None.

(** ** Showing a URL *)

Definition Masked : string := "***".
Definition tokenLen : nat := 20.

Definition in_range (lo hi : Z) (c : ascii) : bool := (lo <=? byte_val c)%Z && (byte_val c <=? hi)%Z.
Definition has_in (lo hi : Z) (s : string) : bool := existsb (in_range lo hi) (String.list_ascii_of_string s).

Definition looksLikeToken (seg : string) : bool :=
  if String.length seg <=? tokenLen then false
  else has_in 48 57 seg || (has_in 65 90 seg && has_in 97 122 seg).

(** What [url.Parse] gives of a URL. *)
Record ParsedURL : Type := mkParsedURL { pu_Scheme : string; pu_Host : string; pu_EscapedPath : string; pu_RawQuery : string; pu_ForceQuery : bool }.

Definition mask_segment (s : string) : string := if looksLikeToken s then Masked else s.

Definition Display (parse : string -> option ParsedURL) (raw : string) : string :=
  match parse raw with
  | None => ""
  | Some u =>
      if String.eqb (pu_Host u) "" then ""
      else
        let out := pu_Scheme u +:+ "://" +:+ pu_Host u +:+ Join (map mask_segment (Split (pu_EscapedPath u) "/")) "/" in
        if negb (String.eqb (pu_RawQuery u) "") || pu_ForceQuery u then out +:+ "?" +:+ Masked else out
  end.

(** ** The ranges *)

Lemma shiftr_eq n q k : (0 <= k)%Z -> (Z.shiftr n k =? q)%Z = (q * 2 ^ k <=? n)%Z && (n <? (q + 1) * 2 ^ k)%Z.
Proof.
  intros K. assert (0 < 2 ^ k)%Z by (by apply Z.pow_pos_nonneg). rewrite Z.shiftr_div_pow2 by done. apply eq_bool_prop_intro.
  rewrite !Is_true_true, andb_true_iff, Z.eqb_eq, Z.leb_le, Z.ltb_lt. split.
  - intros <-. pose proof (Z.div_mod n (2 ^ k)). pose proof (Z.mod_pos_bound n (2 ^ k)). nia.
  - intros [A B]. symmetry. apply Z.div_unique with (r := (n - q * 2 ^ k)%Z); lia.
Qed.

Lemma shiftr_lxor_eq n q k : (Z.shiftr (Z.lxor n q) k =? 0)%Z = (Z.shiftr n k =? Z.shiftr q k)%Z.
Proof.
  rewrite Z.shiftr_lxor. apply eq_bool_prop_intro. rewrite !Is_true_true, !Z.eqb_eq. split; [apply Z.lxor_eq|intros ->; apply Z.lxor_nilpotent].
Qed.

(** The documented ranges, in order: what each address is, by where it lies. *)
Definition v4_ranges : list (Z * Z * Class) :=
  [(dotted 0 0 0 0, dotted 0 255 255 255, Special); (dotted 10 0 0 0, dotted 10 255 255 255, Private);
   (dotted 100 64 0 0, dotted 100 127 255 255, Private); (dotted 127 0 0 0, dotted 127 255 255 255, Loopback);
   (dotted 169 254 0 0, dotted 169 254 255 255, LinkLocal); (dotted 172 16 0 0, dotted 172 31 255 255, Private);
   (dotted 192 0 0 0, dotted 192 0 0 255, Special); (dotted 192 0 2 0, dotted 192 0 2 255, Special);
   (dotted 192 168 0 0, dotted 192 168 255 255, Private); (dotted 198 18 0 0, dotted 198 19 255 255, Special);
   (dotted 198 51 100 0, dotted 198 51 100 255, Special); (dotted 203 0 113 0, dotted 203 0 113 255, Special);
   (dotted 224 0 0 0, dotted 255 255 255 255, Special)].

Definition first6 (hextets : list Z) : Z := match (prefix6 hextets 0).1 with V6 n _ => n | V4 n => n end.
Definition last6 (hextets : list Z) (bits : Z) : Z := (first6 hextets + 2 ^ (128 - bits) - 1)%Z.

Definition v6_ranges : list (Z * Z * Class) :=
  [(0, 0, Special); (1, 1, Loopback); (first6 [8193; 3512], last6 [8193; 3512] 32, Special);
   (first6 [64512], last6 [64512] 7, Private); (first6 [65152], last6 [65152] 10, LinkLocal);
   (first6 [65280], last6 [65280] 8, Special)]%Z.

Fixpoint class_in (ranges : list (Z * Z * Class)) (n : Z) : Class :=
  match ranges with
  | [] => Public
  | (lo, hi, c) :: ranges => if (lo <=? n)%Z && (n <=? hi)%Z then c else class_in ranges n
  end.

Definition within (hextets : list Z) (bits n : Z) : bool := (first6 hextets <=? n)%Z && (n <=? last6 hextets bits)%Z.

Definition range_class (a : Addr) : Class :=
  match a with
  | V4 n => class_in v4_ranges n
  | V6 n _ =>
      if within [0; 0; 0; 0; 0; 65535]%Z 96 n then class_in v4_ranges (n - first6 [0; 0; 0; 0; 0; 65535]%Z)
      else if within [100; 65435]%Z 96 n then class_in v4_ranges (n - first6 [100; 65435]%Z)
      else class_in v6_ranges n
  end.

Lemma land_high m k j q : (0 <= m < 2 ^ (j + k))%Z -> (0 <= j)%Z -> (0 <= k)%Z ->
  (Z.land m (Z.shiftl (Z.ones j) k) =? Z.shiftl q k)%Z = (Z.shiftr m k =? q)%Z.
Proof.
  intros M J K. assert (Z.land m (Z.shiftl (Z.ones j) k) = Z.shiftl (Z.shiftr m k) k) as ->.
  { apply Z.bits_inj'. intros i Hi. rewrite Z.land_spec, !Z.shiftl_spec by done.
    destruct (Z.ltb_spec i k) as [L|L]; [rewrite !(Z.testbit_neg_r _ (i - k)) by lia; apply andb_false_r|].
    rewrite Z.shiftr_spec by lia. replace (i - k + k)%Z with i by lia.
    destruct (Z.ltb_spec (i - k) j) as [L2|L2]; [rewrite Z.ones_spec_low by lia; apply andb_true_r|].
    rewrite Z.ones_spec_high by lia. rewrite andb_false_r. symmetry.
    destruct (Z.eq_dec m 0) as [->|]; [apply Z.bits_0|]. apply Z.bits_above_log2; [lia|]. apply Z.log2_lt_pow2; [lia|]. eapply Z.lt_le_trans; [apply M|]. apply Z.pow_le_mono_r; lia. }
  apply eq_bool_prop_intro. rewrite !Is_true_true, !Z.eqb_eq. split; [|by intros ->]. intros E.
  apply (f_equal (fun x => Z.shiftr x k)) in E. rewrite !Z.shiftr_shiftl_l in E by lia. by rewrite Z.sub_diag, !Z.shiftl_0_r in E.
Qed.

(** Evaluate the constants [n] is compared with. *)
Ltac norm_bounds n :=
  repeat match goal with
  | |- context [(?c <=? n)%Z] => lazymatch c with Z0 => fail | Zpos _ => fail | _ => let d := eval vm_compute in c in change (c <=? n)%Z with (d <=? n)%Z end
  | |- context [(n <=? ?c)%Z] => lazymatch c with Z0 => fail | Zpos _ => fail | _ => let d := eval vm_compute in c in change (n <=? c)%Z with (n <=? d)%Z end
  | |- context [(n <? ?c)%Z] => lazymatch c with Z0 => fail | Zpos _ => fail | _ => let d := eval vm_compute in c in change (n <? c)%Z with (n <? d)%Z end
  | |- context [(n =? ?c)%Z] => lazymatch c with Z0 => fail | Zpos _ => fail | _ => let d := eval vm_compute in c in change (n =? c)%Z with (n =? d)%Z end
  end.

(** Settle every comparison of the goal from bounds on [n], or split it. *)
Ltac settle :=
  repeat (match goal with
    | |- context [(?a <=? ?b)%Z] => first [rewrite (proj2 (Z.leb_le a b)) by lia | rewrite (proj2 (Z.leb_gt a b)) by lia | destruct (Z.leb_spec a b)]
    | |- context [(?a <? ?b)%Z] => first [rewrite (proj2 (Z.ltb_lt a b)) by lia | rewrite (proj2 (Z.ltb_ge a b)) by lia | destruct (Z.ltb_spec a b)]
    | |- context [(?a =? ?b)%Z] => first [rewrite (proj2 (Z.eqb_eq a b)) by lia | rewrite (proj2 (Z.eqb_neq a b)) by lia | destruct (Z.eqb_spec a b)]
    end; cbn [andb orb negb]); first [reflexivity | exfalso; lia].

(** Cell by cell, between the bounds of [bs] in increasing order. *)
Ltac cells n bs :=
  lazymatch bs with
  | nil => settle
  | ?b :: ?bs =>
      let L := fresh "L" in let G := fresh "G" in
      destruct (Z.lt_ge_cases n b) as [L|G]; [settle|];
      match goal with H : (_ <= n)%Z |- _ => lazymatch H with G => fail | _ => clear H end | _ => idtac end; cells n bs
  end.

Definition v4_bounds : list Z :=
  Eval vm_compute in concat (map (fun r => [r.1.1; (r.1.2 + 1)%Z]) v4_ranges).

Lemma shiftr_bounds n k w : (0 <= n < 2 ^ w)%Z -> (0 <= k <= w)%Z -> (0 <= Z.shiftr n k < 2 ^ (w - k))%Z.
Proof.
  intros N K. rewrite Z.shiftr_div_pow2 by lia. assert (0 < 2 ^ k)%Z by (apply Z.pow_pos_nonneg; lia). split; [apply Z.div_pos; lia|].
  apply Z.div_lt_upper_bound; [done|]. rewrite <- Z.pow_add_r by lia. replace (k + (w - k))%Z with w by lia. apply N.
Qed.

Lemma v4_classes n : (0 <= n < 2 ^ 32)%Z -> class_of (V4 n) = class_in v4_ranges n.
Proof.
  intros N. unfold class_of. cbn [Is4In6 Is4 negb andb IsLoopback IsMulticast IsInterfaceLocalMulticast IsLinkLocalUnicast IsLinkLocalMulticast].
  assert ((Z.land (Z.shiftr n 24) 240 =? 224)%Z = (Z.shiftr n 28 =? 14)%Z) as ->.
  { change 240%Z with (Z.shiftl (Z.ones 4) 4). change 224%Z with (Z.shiftl 14 4). rewrite land_high; [|apply (shiftr_bounds n 24 32); lia|lia|lia].
    by rewrite Z.shiftr_shiftr by lia. }
  unfold IsUnspecified. assert (bool_decide (V4 n = V4 0) = (n =? 0)%Z) as ->.
  { apply eq_bool_prop_intro. rewrite bool_decide_spec, Is_true_true, Z.eqb_eq. split; congruence. }
  assert (bool_decide (V4 n = V4 (dotted 255 255 255 255)) = (n =? dotted 255 255 255 255)%Z) as ->.
  { apply eq_bool_prop_intro. rewrite bool_decide_spec, Is_true_true, Z.eqb_eq. split; congruence. }
  rewrite bool_decide_eq_false_2 by done. unfold v4Private, v4Special, prefix4. cbn [existsb Contains_addr fst snd].
  rewrite !shiftr_lxor_eq, !shiftr_eq by lia.
  unfold v4_ranges. cbn [class_in]. norm_bounds n. change (2 ^ 32)%Z with 4294967296%Z in N. destruct N as [N0 N].
  let bs := eval unfold v4_bounds in v4_bounds in cells n bs.
Qed.

Lemma multicast_first n q : (0 <= n < 2 ^ 128)%Z -> (Z.shiftr q 8 = 255)%Z ->
  (Z.land (Z.shiftr n 112) 65295 =? q)%Z = true -> (Z.shiftr n 120 =? 255)%Z = true.
Proof.
  intros N Q E. apply Z.eqb_eq in E. apply Z.eqb_eq. pose proof (shiftr_bounds n 120 128 N ltac:(lia)) as B.
  apply (f_equal (fun x => Z.shiftr x 8)) in E. rewrite Z.shiftr_land, Z.shiftr_shiftr in E by lia.
  change (112 + 8)%Z with 120%Z in E. change (Z.shiftr 65295 8) with (Z.ones 8) in E. rewrite Z.land_ones in E by lia.
  rewrite Z.mod_small in E by exact B. congruence.
Qed.

Definition v6_bounds : list Z := Eval vm_compute in concat (map (fun r => [r.1.1; (r.1.2 + 1)%Z]) v6_ranges).

Lemma v6_classes n : (0 <= n < 2 ^ 128)%Z -> class_of (V6 n "") = class_in v6_ranges n.
Proof.
  intros N. unfold class_of. cbn [Is4 IsLoopback IsMulticast IsInterfaceLocalMulticast IsLinkLocalUnicast IsLinkLocalMulticast].
  assert (bool_decide (V6 n "" = V6 0 "") = (n =? 0)%Z) as E.
  { apply eq_bool_prop_intro. rewrite bool_decide_spec, Is_true_true, Z.eqb_eq. split; congruence. }
  unfold IsUnspecified. rewrite E, bool_decide_eq_false_2 by done.
  assert ((Z.land (Z.shiftr n 112) 65472 =? 65152)%Z = (Z.shiftr n 118 =? 1018)%Z) as ->.
  { change 65472%Z with (Z.shiftl (Z.ones 10) 6). change 65152%Z with (Z.shiftl 1018 6). rewrite land_high; [|apply (shiftr_bounds n 112 128); lia|lia|lia].
    by rewrite Z.shiftr_shiftr by lia. }
  pose proof (multicast_first n 65281 N eq_refl) as M1. pose proof (multicast_first n 65282 N eq_refl) as M2.
  unfold v6ULA, v6LL, v6Doc, v6Mcast. cbn [prefix6 Contains_addr fst snd String.eqb andb]. rewrite !shiftr_lxor_eq.
  set (b1 := (Z.land _ _ =? 65281)%Z) in *. set (b2 := (Z.land _ _ =? 65282)%Z) in *. clearbody b1 b2.
  rewrite !shiftr_eq in * by lia. unfold v6_ranges. cbn [class_in].
  norm_bounds n. change (2 ^ 128)%Z with 340282366920938463463374607431768211456%Z in N. destruct N as [N0 N].
  destruct (Z.lt_ge_cases n (255 * 2 ^ 120)) as [L|G].
  - assert (b1 = false /\ b2 = false) as [-> ->].
    { rewrite (proj2 (Z.leb_gt _ _) L) in M1, M2. destruct b1, b2; naive_solver. }
    clear M1 M2. let bs := eval unfold v6_bounds in v6_bounds in cells n bs.
  - clear M1 M2. change (255 * 2 ^ 120)%Z with 338953138925153547590470800371487866880%Z in G. settle.
Qed.

Definition zone_free (a : Addr) : bool := match a with V6 n zone => Is4In6 a || String.eqb zone "" | V4 _ => true end.

Lemma within_shiftr hextets n : (Z.shiftr (first6 hextets) 32 * 2 ^ 32 = first6 hextets)%Z ->
  within hextets 96 n = (Z.shiftr n 32 =? Z.shiftr (first6 hextets) 32)%Z.
Proof.
  intros E. unfold within, last6. change (128 - 96)%Z with 32%Z. rewrite shiftr_eq, Z.mul_add_distr_r, E, Z.mul_1_l by lia. f_equal.
  change (2 ^ 32)%Z with 4294967296%Z. apply eq_bool_prop_intro. rewrite !Is_true_true, Z.leb_le, Z.ltb_lt. lia.
Qed.

Lemma low_bits n q : (Z.shiftr n 32 = Z.shiftr q 32)%Z -> (Z.shiftr q 32 * 2 ^ 32 = q)%Z ->
  (Z.land n (Z.ones 32) = n - q /\ 0 <= n - q < 2 ^ 32)%Z.
Proof.
  intros E Q. rewrite Z.land_ones by lia. rewrite !Z.shiftr_div_pow2 in * by lia.
  pose proof (Z.div_mod n (2 ^ 32) ltac:(lia)). pose proof (Z.mod_pos_bound n (2 ^ 32) ltac:(lia)). nia.
Qed.

(** Every address without a zone has the class of its range, an IPv4 address
    written inside an IPv6 one that of the IPv4 address. *)
Theorem Classify_ranges a : valid_addr a = true -> zone_free a = true -> Classify a = range_class a.
Proof.
  unfold Classify, unwrap_v4. destruct a as [n|n zone]; cbn [valid_addr zone_free Is4In6 Is4 negb andb range_class]; intros V Z; bool_prop.
  - by apply v4_classes.
  - rewrite !within_shiftr by reflexivity. change (Z.shiftr (first6 [0; 0; 0; 0; 0; 65535]%Z) 32) with 65535%Z.
    destruct (Z.eqb_spec (Z.shiftr n 32) 65535) as [E|NE].
    + destruct (low_bits n (first6 [0; 0; 0; 0; 0; 65535]%Z) E eq_refl) as [L B]. cbn [Unmap Is4In6]. rewrite E, Z.eqb_refl. cbn [Is4 negb andb].
      rewrite L. by apply v4_classes.
    + destruct Z as [Z|Z]; [done|]. apply String.eqb_eq in Z as ->. cbn [Is4 negb andb].
      change (Contains_addr v6NAT (V6 n "")) with (Z.shiftr (Z.lxor n (first6 [100; 65435]%Z)) 32 =? 0)%Z. rewrite shiftr_lxor_eq.
      destruct (Z.eqb_spec (Z.shiftr n 32) (Z.shiftr (first6 [100; 65435]%Z) 32)) as [E|NE2].
      * destruct (low_bits n (first6 [100; 65435]%Z) E eq_refl) as [L B]. cbn [embedded_v4]. rewrite L. by apply v4_classes.
      * by apply v6_classes.
Qed.

(** Addresses that carry a zone are compared with no prefix: a private one,
    or one that embeds a private one, counts as public, and so does the
    unspecified address. *)
Example a_zone_makes_a_private_address_public :
  let zoned h := V6 (first6 h) "1" in
  map Classify [zoned [64768; 0; 0; 0; 0; 0; 0; 1]%Z; zoned [100; 65435; 0; 0; 0; 0; 2560; 1]%Z; zoned []] = [Public; Public; Public] /\
  map (fun h => Classify (V6 (first6 h) "")) [[64768; 0; 0; 0; 0; 0; 0; 1]; [100; 65435; 0; 0; 0; 0; 2560; 1]; []]%Z = [Private; Private; Special].
Proof. vm_compute. by split. Qed.

(** ** The allowlist *)

Section guarded.
Context (lower_wide : string -> string) `{Net}.

(** A pattern names a host, or with [*.] a domain and what is below it. *)
Definition names_host (host pat : string) : Prop :=
  (pat <> "" /\ HasPrefix pat "*." = false /\ host = pat) \/
  exists domain, pat = "*." +:+ domain /\ (host = domain \/ exists sub, host = sub +:+ "." +:+ domain).

Lemma matches_spec host pat : matches lower_wide host pat = true <-> names_host host (pattern lower_wide pat).
Proof.
  unfold matches, names_host. set (q := pattern lower_wide pat). clearbody q. destruct (String.eqb q "") eqn:E.
  - apply String.eqb_eq in E as ->. split; [done|]. intros [[? _]|(d & E' & _)]; [done|discriminate E'].
  - apply String.eqb_neq in E. destruct (HasPrefix q "*.") eqn:P.
    + pose proof (prefix_true _ _ P) as [d ->]. change (str_drop 2 ("*." +:+ d)) with d. change (str_drop 1 ("*." +:+ d)) with ("." +:+ d).
      rewrite orb_true_iff, String.eqb_eq, HasSuffix_true. split.
      * intros [->|[u ->]]; right; exists d; split; eauto.
      * intros [(_ & ? & _)|(d' & E' & D)]; [done|].
        change (String "*" (String "." d) = String "*" (String "." d')) in E'. injection E' as ->. destruct D as [->|[u ->]]; eauto.
    + rewrite String.eqb_eq. split; [intros <-; by left|]. intros [(_ & _ & ->)|(d & -> & _)]; [done|]. unfold HasPrefix in P. by rewrite prefix_app in P.
Qed.

Lemma matchAny_spec host pats : matchAny lower_wide host pats = true <-> exists pat, pat ∈ pats /\ names_host host (pattern lower_wide pat).
Proof.
  induction pats as [|q pats IH]; cbn [matchAny]; [split; [done|intros (? & X & _); by apply elem_of_nil in X]|].
  destruct (matches lower_wide host q) eqn:M.
  - split; [|done]. intros _. exists q. split; [apply list_elem_of_here|]. by apply matches_spec.
  - rewrite IH. split; intros (pat & Hp & N); exists pat; split; try done; [by right|].
    apply elem_of_cons in Hp as [->|Hp]; [|done]. apply matches_spec in N. congruence.
Qed.

(** A host bypasses the guard exactly when a pattern of the operator's,
    fixed or dynamic, names it. *)
Theorem HostAllowed_exactly p host : HostAllowed lower_wide p host = true <->
  exists pat, pat ∈ AllowedHosts p ++ default [] (extra p) /\ names_host (host_name lower_wide host) (pattern lower_wide pat).
Proof.
  unfold HostAllowed. destruct (matchAny lower_wide (host_name lower_wide host) (AllowedHosts p)) eqn:M.
  - split; [|done]. intros _. apply matchAny_spec in M as (pat & Hp & N). exists pat. split; [|done]. apply elem_of_app. by left.
  - assert (forall q, q ∈ AllowedHosts p -> ~ names_host (host_name lower_wide host) (pattern lower_wide q)) as No.
    { intros q Hq N. assert (matchAny lower_wide (host_name lower_wide host) (AllowedHosts p) = true) by (apply matchAny_spec; eauto). congruence. }
    destruct (extra p) as [hosts|]; cbn [default]; [rewrite matchAny_spec|rewrite app_nil_r]; split.
    + intros (q & Hq & N). exists q. split; [|done]. apply elem_of_app. by right.
    + intros (q & [Hq|Hq]%elem_of_app & N); [by destruct (No q)|eauto].
    + done.
    + intros (q & Hq & N). by destruct (No q).
Qed.

(** ** The dialer *)

Variable (base : destination -> result string unit) (done_after : nat -> bool).

Lemma dial_each_spec n ips port last : let '(tried, res) := dial_each base done_after n ips port last in
  exists k, tried = map (fun ip => ByIP ip port) (take k ips) /\ forall d, res = Ok d -> d ∈ tried /\ base d = Ok tt.
Proof.
  revert n last. induction ips as [|ip ips IH]; intros n last; cbn [dial_each]; [by exists 0|].
  destruct (base (ByIP ip port)) as [[]|why] eqn:B.
  - exists 1. cbn [take map]. rewrite take_0. split; [done|]. intros d [= <-]. split; [apply list_elem_of_here|done].
  - destruct (done_after n); [exists 1; cbn [take map]; by rewrite take_0|]. specialize (IH (S n) why).
    destruct (dial_each base done_after (S n) ips port why) as [tried res]. destruct IH as (k & -> & R). exists (S k). split; [done|].
    intros d [Hd Bd]%R. split; [by right|done].
Qed.

Lemma blocked_of_none p ips : blocked_of p ips = None -> Forall (fun ip => AddrAllowed p ip = true) ips.
Proof.
  intros F. apply Forall_forall. intros x Hx. rewrite list_elem_of_In in Hx. pose proof (find_none _ _ F x Hx) as E. by apply negb_false_iff in E.
Qed.

(** What a guarded dial may try: the address given, when it is the text of an
    address that passes; or the resolver's one answer, when all of it passes. *)
Inductive may_try (p : Policy) (lookup : string -> result string (list Addr)) (addr host port : string) : destination -> Prop :=
  | try_literal ip : ParseAddr (Trim_brackets host) = Some ip -> AddrAllowed p ip = true -> may_try p lookup addr host port (ByText addr)
  | try_resolved ip ips : ParseAddr (Trim_brackets host) = None -> lookup host = Ok ips -> ip ∈ ips ->
      Forall (fun ip => AddrAllowed p ip = true) ips -> may_try p lookup addr host port (ByIP ip port).

(** C24. Behind the guard a host that is not allowlisted is only ever tried at
    addresses that passed, in the order the resolver gave them, and the
    connection returned is to one of them. *)
Theorem guarded_dial p lookup addr host port : Disabled p = false -> SplitHostPort addr = Some (host, port) ->
  HostAllowed lower_wide p host = false ->
  let '(tried, res) := DialContext lower_wide base done_after p lookup addr in
  (forall d, d ∈ tried -> may_try p lookup addr host port d) /\
  (forall ips, lookup host = Ok ips -> ParseAddr (Trim_brackets host) = None -> exists k, tried = map (fun ip => ByIP ip port) (take k ips)) /\
  (forall d, res = Ok d -> d ∈ tried /\ base d = Ok tt).
Proof.
  intros D Sp HA. unfold DialContext. rewrite Sp, D, HA. cbn [orb].
  destruct (ParseAddr (Trim_brackets host)) as [ip|] eqn:P.
  - destruct (AddrAllowed p ip) eqn:A; cbn [negb]; [|by repeat split; try (intros ? X; by apply elem_of_nil in X)].
    unfold dial_text. split; [intros d ->%list_elem_of_singleton; by econstructor|]. split; [done|].
    intros d E. destruct (base (ByText addr)) as [[]|] eqn:B; [|done]. injection E as <-. split; [apply list_elem_of_here|done].
  - destruct (lookup host) as [ips|why] eqn:L; [|by repeat split; try (intros ? X; by apply elem_of_nil in X)].
    destruct ips as [|i0 ips0] eqn:Ei; [split; [intros ? X; by apply elem_of_nil in X|split; [intros ? _ _; by exists 0|done]]|].
    rewrite <- Ei in *. destruct (blocked_of p ips) as [bad|] eqn:Bl.
    + split; [intros ? X; by apply elem_of_nil in X|]. split; [|done]. intros ? _ _. by exists 0.
    + pose proof (dial_each_spec 0 ips port "") as Sd. destruct (dial_each base done_after 0 ips port "") as [tried res].
      destruct Sd as (k & -> & R). split; [|split; [|done]].
      * intros d (ip & -> & Hip)%list_elem_of_fmap. eapply try_resolved; [done|done| |by apply blocked_of_none].
        by eapply elem_of_submseteq, submseteq_take.
      * intros ips' [= <-] _. by exists k.
Qed.
End guarded.

(** *** A network to run it on *)

#[export] Instance toy_net : Net := {|
  ParseAddr s := if String.eqb s "10.0.0.7" then Some (V4 (dotted 10 0 0 7)) else None;
  SplitHostPort s := let '(h, p, ok) := Cut s ":" in if ok then Some (h, p) else None;
  Trim_brackets s := s |}.

Definition strict : Policy := mkPolicy false false false ["*.corp.example"] None.
Definition example_lookup (host : string) : result string (list Addr) :=
  if String.eqb host "api.example" then Ok [V4 (dotted 93 184 216 34); V4 (dotted 93 184 216 35)]
  else if String.eqb host "rebind.example" then Ok [V4 (dotted 93 184 216 34); V4 (dotted 169 254 169 254)] else Err "no such host".
Definition flaky (d : destination) : result string unit :=
  match d with ByIP ip _ => if decide (ip = V4 (dotted 93 184 216 34)) then Err "refused" else Ok tt | _ => Ok tt end.
Definition dial (addr : string) := DialContext (fun s => s) flaky (fun _ => false) strict example_lookup addr.

Lemma guarded_dial_witness :
  (dial "api.example:443").2 = Ok (ByIP (V4 (dotted 93 184 216 35)) "443") /\ (dial "rebind.example:443").1 = [] /\
  forall d, d ∈ (dial "api.example:443").1 -> may_try strict example_lookup "api.example:443" "api.example" "443" d.
Proof.
  split; [vm_compute; reflexivity|]. split; [vm_compute; reflexivity|].
  pose proof (guarded_dial (fun s => s) flaky (fun _ => false) strict example_lookup "api.example:443" "api.example" "443"
    eq_refl eq_refl ltac:(vm_compute; reflexivity)) as G.
  unfold dial. destruct (DialContext _ _ _ _ _ _) as [tried res]. exact (proj1 G).
Defined.

Lemma Classify_ranges_witness :
  valid_addr (V6 (first6 [0; 0; 0; 0; 0; 65535; 43518; 43518]%Z) "") = true /\
  Classify (V6 (first6 [0; 0; 0; 0; 0; 65535; 43518; 43518]%Z) "") = LinkLocal.
Proof. split; [vm_compute; reflexivity|]. apply (Classify_ranges (V6 (first6 [0; 0; 0; 0; 0; 65535; 43518; 43518]%Z) "")); vm_compute; reflexivity. Defined.

(** ** What [Display] shows *)

Lemma mask_segment_ok s : looksLikeToken (mask_segment s) = false /\ (has_byte "/" s = false -> has_byte "/" (mask_segment s) = false).
Proof. unfold mask_segment. destruct (looksLikeToken s) eqn:L; by split. Qed.

(** What is shown of a URL is its scheme, its host and a path in which no
    segment looks like a credential; of its query only that there is one. *)
Theorem Display_shows_no_token parse raw u : parse raw = Some u -> pu_Host u <> "" ->
  exists path, Display parse raw = pu_Scheme u +:+ "://" +:+ pu_Host u +:+ path +:+
      (if negb (String.eqb (pu_RawQuery u) "") || pu_ForceQuery u then "?***" else "") /\
    Forall (fun seg => looksLikeToken seg = false) (Split path "/").
Proof.
  intros P N. unfold Display. rewrite P, (proj2 (String.eqb_neq _ _) N). exists (Join (map mask_segment (Split (pu_EscapedPath u) "/")) "/"). split.
  - destruct (_ || _); [|by rewrite app_empty_r]. by rewrite !app_assoc_str.
  - rewrite Split_Join.
    + apply Forall_forall. intros x (s & -> & _)%list_elem_of_fmap. apply mask_segment_ok.
    + pose proof (Split_nonempty "/" (pu_EscapedPath u)). by destruct (Split (pu_EscapedPath u) "/").
    + apply Forall_forall. intros x (s & -> & Hs)%list_elem_of_fmap. apply mask_segment_ok.
      pose proof (Split_parts "/" (pu_EscapedPath u)) as F. rewrite Forall_forall in F. by apply F.
Qed.

Definition hook_url : ParsedURL := mkParsedURL "https" "hooks.example" "/services/T0/abcdefghijklmnopqrstu1" "k=v" false.

Lemma Display_shows_no_token_witness : Display (fun _ => Some hook_url) "" = "https://hooks.example/services/T0/***?***" /\
  exists path, Display (fun _ => Some hook_url) "" = "https" +:+ "://" +:+ "hooks.example" +:+ path +:+ "?***" /\
    Forall (fun seg => looksLikeToken seg = false) (Split path "/").
Proof. split; [reflexivity|]. apply (Display_shows_no_token (fun _ => Some hook_url) "" hook_url); [reflexivity|discriminate]. Defined.
