(* ===== verification/McpSessions.v ===== *)
(** * McpSessions: the sessions a replica holds (internal/mcp/sessions.go,
    and serveStateful of internal/mcp/endpoint.go)

    The table bounds how many sessions one caller, one workspace and the
    replica hold, closes what is idle or old, and makes room by closing a
    session.  Every operation runs under the table's lock, so a run is a
    sequence of operations; the requests between their operations are kept
    beside the table: initialisations that hold a reservation, and requests
    running on a session.

    What a map range picks among equally old sessions is an argument, as is
    what the SDK says it still holds.  Times are nanoseconds. *)
From S2P Require Import Prelude GoStrings Float64 Authz.

Open Scope list_scope.

(** ** The table *)

Record SessionOptions : Type := mkSessionOptions { so_Max : Z; so_PerCaller : Z; so_PerOrg : Z; so_Idle : Z; so_MaxAge : Z }.

Record sessionEntry : Type := mkEntry {
  se_id : string;
  se_serverID : string;
  se_owner : string;
  se_org : string;
  se_created : Z;
  se_lastSeen : Z;
  se_inflight : Z;
}.

Record sessionTable : Type := mkTable {
  st_max : Z;
  st_perCaller : Z;
  st_perOrg : Z;
  st_idle : Z;
  st_maxAge : Z;
  st_byID : gmap string sessionEntry;
  st_byOwner : gmap string Z;
  st_byOrg : gmap string Z;
  st_reserved : Z;
  st_closed : bool;
  (** whether a sweep is armed *)
  st_timer : bool;
}.

Definition second : Z := 1000000000.

Definition newSessionTable (o : SessionOptions) : sessionTable :=
  let max := if (so_Max o <=? 0)%Z then 5000%Z else so_Max o in
  mkTable max (if (so_PerCaller o <=? 0)%Z then 16%Z else so_PerCaller o)
    (if (so_PerOrg o <=? 0)%Z then Z.max (Z.quot max 10) 1 else so_PerOrg o)
    (if (so_Idle o <=? 0)%Z then (15 * 60 * second)%Z else so_Idle o)
    (if (so_MaxAge o <=? 0)%Z then (12 * 3600 * second)%Z else so_MaxAge o)
    ∅ ∅ ∅ 0 false false.

Definition with_table (byID : gmap string sessionEntry) (byOwner byOrg : gmap string Z) (reserved : Z) (t : sessionTable) : sessionTable :=
  mkTable (st_max t) (st_perCaller t) (st_perOrg t) (st_idle t) (st_maxAge t) byID byOwner byOrg reserved (st_closed t) (st_timer t).

Definition with_byID (byID : gmap string sessionEntry) (t : sessionTable) : sessionTable :=
  with_table byID (st_byOwner t) (st_byOrg t) (st_reserved t) t.

Definition set_timer (armed : bool) (t : sessionTable) : sessionTable :=
  mkTable (st_max t) (st_perCaller t) (st_perOrg t) (st_idle t) (st_maxAge t) (st_byID t) (st_byOwner t) (st_byOrg t) (st_reserved t)
    (st_closed t) armed.

Definition touch (now : Z) (inflight : Z) (e : sessionEntry) : sessionEntry :=
  mkEntry (se_id e) (se_serverID e) (se_owner e) (se_org e) (se_created e) now inflight.

Definition NUL : ascii := ascii_of_nat 0.

(** Who a session belongs to: the person or account, and the credential. *)
Definition ownerOf (p : Principal) : string :=
  let cred := if negb (String.eqb (p_APIKeyID p) "") then "key:" +:+ p_APIKeyID p
              else if negb (String.eqb (p_ClientID p) "") then "client:" +:+ p_ClientID p
              else "method:" +:+ p_AuthMethod p in
  kind_string (p_Kind p) +:+ String NUL (p_ID p +:+ String NUL (p_OrgID p +:+ String NUL cred)).

Definition count (m : gmap string Z) (k : string) : Z := default 0%Z (m !! k).

Definition decr (m : gmap string Z) (k : string) : gmap string Z :=
  if (count m k - 1 <=? 0)%Z then delete k m else <[ k := (count m k - 1)%Z ]> m.

Definition incr (m : gmap string Z) (k : string) : gmap string Z := <[ k := (count m k + 1)%Z ]> m.

Definition release (owner org : string) (t : sessionTable) : sessionTable :=
  with_table (st_byID t) (decr (st_byOwner t) owner) (decr (st_byOrg t) org) (st_reserved t) t.

Definition remove (e : sessionEntry) (t : sessionTable) : sessionTable :=
  release (se_owner e) (se_org e) (with_byID (delete (se_id e) (st_byID t)) t).

(** ** Making room *)

Inductive refusal : Type := ErrCallerFull | ErrOrgFull | ErrSessionsFull | ErrSessionsDraining.

(** The idle session that [ok] allows and was seen longest ago, ranging over
    the table in some order. *)
Fixpoint oldest (ok : sessionEntry -> bool) (order : list sessionEntry) (v : option sessionEntry) : option sessionEntry :=
  match order with
  | [] => v
  | e :: order =>
      let better := match v with None => true | Some v => (se_lastSeen e <? se_lastSeen v)%Z end in
      oldest ok order (if (se_inflight e =? 0)%Z && ok e && better then Some e else v)
  end.

Definition places (t : sessionTable) : Z := (Z.of_nat (size (st_byID t)) + st_reserved t)%Z.

(** A share of the table, of [held] that hold a place, the newcomer
    included. *)
Definition share (t : sessionTable) (held : gmap string Z) (who : string) : Z :=
  Z.quot (st_max t) (Z.of_nat (size held) + (if (count held who =? 0)%Z then 1 else 0)).

Definition over_share (t : sessionTable) (owner org : string) (e : sessionEntry) : bool :=
  String.eqb (se_owner e) owner
  || (share t (st_byOwner t) owner <? count (st_byOwner t) (se_owner e))%Z
  || (share t (st_byOrg t) org <? count (st_byOrg t) (se_org e))%Z.

Definition room (owner org : string) (order : list sessionEntry) (t : sessionTable) : result refusal (option sessionEntry) :=
  if (st_perCaller t <=? count (st_byOwner t) owner)%Z then
    match oldest (fun e => String.eqb (se_owner e) owner) order None with Some v => Ok (Some v) | None => Err ErrCallerFull end
  else if (st_perOrg t <=? count (st_byOrg t) org)%Z then
    match oldest (fun e => String.eqb (se_org e) org) order None with Some v => Ok (Some v) | None => Err ErrOrgFull end
  else if (st_max t <=? places t)%Z then
    match oldest (over_share t owner org) order None with Some v => Ok (Some v) | None => Err ErrSessionsFull end
  else Ok None.

(** ** The operations: the table after, and the sessions closed *)

Definition reserve (owner org : string) (order : list sessionEntry) (t : sessionTable) :
    sessionTable * result refusal (option sessionEntry) :=
  if st_closed t then (t, Err ErrSessionsDraining)
  else match room owner org order t with
  | Err e => (t, Err e)
  | Ok victim =>
      let t := match victim with Some v => remove v t | None => t end in
      (with_table (st_byID t) (incr (st_byOwner t) owner) (incr (st_byOrg t) org) (st_reserved t + 1) t, Ok victim)
  end.

Definition add (now : Z) (id serverID owner org : string) (t : sessionTable) : sessionTable * bool :=
  if st_closed t then (t, false)
  else
    let e := mkEntry id serverID owner org now now 1 in
    (set_timer true (with_table (<[ id := e ]> (st_byID t)) (st_byOwner t) (st_byOrg t)
       (if (0 <? st_reserved t)%Z then st_reserved t - 1 else st_reserved t) t), true).

Definition end_ (now : Z) (id : string) (t : sessionTable) : sessionTable :=
  match st_byID t !! id with
  | Some e => with_byID (<[ id := touch now (se_inflight e - 1) e ]> (st_byID t)) t
  | None => t
  end.

Definition settle (now : Z) (owner org : string) (kept : option string) (t : sessionTable) : sessionTable :=
  match kept with
  | Some id => end_ now id t
  | None => release owner org (with_table (st_byID t) (st_byOwner t) (st_byOrg t) (st_reserved t - 1) t)
  end.

Definition begin (now : Z) (id serverID owner : string) (t : sessionTable) : sessionTable * bool :=
  match st_byID t !! id with
  | None => (t, false)
  | Some e =>
      if negb (String.eqb (se_serverID e) serverID) || negb (String.eqb (se_owner e) owner) then (t, false)
      else if (st_maxAge t <=? now - se_created e)%Z then
        (if (se_inflight e =? 0)%Z then remove e t else t, false)
      else (with_byID (<[ id := touch now (se_inflight e + 1) e ]> (st_byID t)) t, true)
  end.

Definition forget (id : string) (t : sessionTable) : sessionTable :=
  match st_byID t !! id with Some e => remove e t | None => t end.

Definition sweepEvery (t : sessionTable) : Z := Z.min (Z.quot (st_idle t) 4) (60 * second).

Inductive verdict : Type := Keep | Gone | Expired | Idle.

Definition judge (now : Z) (live : string -> bool) (t : sessionTable) (e : sessionEntry) : verdict :=
  if negb (live (se_id e)) then Gone
  else if (se_inflight e =? 0)%Z && (st_maxAge t <=? now - se_created e)%Z then Expired
  else if (se_inflight e =? 0)%Z && (st_idle t <=? now - se_lastSeen e)%Z then Idle
  else Keep.

Definition sweep_one (now : Z) (live : string -> bool) (t : sessionTable) (e : sessionEntry) : sessionTable :=
  match judge now live t e with Keep => t | _ => remove e t end.

Definition sweep (now : Z) (live : string -> bool) (order : list sessionEntry) (t : sessionTable) : sessionTable :=
  if st_closed t then t
  else
    let t := foldl (sweep_one now live) t order in
    set_timer (negb (size (st_byID t) =? 0)) t.

(** Closes everything; how many. *)
Definition close (t : sessionTable) : sessionTable * nat :=
  (mkTable (st_max t) (st_perCaller t) (st_perOrg t) (st_idle t) (st_maxAge t) ∅ ∅ ∅ (st_reserved t) true false, size (st_byID t)).

(** ** Requests and the table

    [serveStateful]: an initialisation reserves, may add, and settles; any
    other request begins and ends. *)

Record initialising : Type := mkInit { in_principal : Principal; in_kept : option string }.

Record replica : Type := mkReplica {
  r_table : sessionTable;
  r_inits : list initialising;
  r_running : list string;
  (** every session id the SDK has made *)
  r_ids : list string;
}.

Inductive request : Type :=
  | RReserve (p : Principal) (order : list sessionEntry)
  | RAdd (i : nat) (now : Z) (id serverID : string)
  | RSettle (i : nat) (now : Z)
  | RBegin (now : Z) (id serverID : string) (p : Principal)
  | REnd (j : nat) (now : Z)
  | RForget (id : string)
  | RSweep (now : Z) (live : string -> bool) (order : list sessionEntry)
  | RClose.

Definition in_owner (x : initialising) : string := ownerOf (in_principal x).
Definition in_org (x : initialising) : string := p_OrgID (in_principal x).

Definition serve (q : request) (r : replica) : replica :=
  match q with
  | RReserve p order =>
      match reserve (ownerOf p) (p_OrgID p) order (r_table r) with
      | (t, Ok _) => mkReplica t (mkInit p None :: r_inits r) (r_running r) (r_ids r)
      | (t, Err _) => mkReplica t (r_inits r) (r_running r) (r_ids r)
      end
  | RAdd i now id serverID =>
      match r_inits r !! i with
      | Some (mkInit p None as x) =>
          let '(t, kept) := add now id serverID (in_owner x) (in_org x) (r_table r) in
          mkReplica t (<[ i := mkInit p (if kept then Some id else None) ]> (r_inits r)) (r_running r) (id :: r_ids r)
      | _ => r
      end
  | RSettle i now =>
      match r_inits r !! i with
      | Some x => mkReplica (settle now (in_owner x) (in_org x) (in_kept x) (r_table r)) (delete i (r_inits r)) (r_running r) (r_ids r)
      | None => r
      end
  | RBegin now id serverID p =>
      let '(t, ok) := begin now id serverID (ownerOf p) (r_table r) in
      mkReplica t (r_inits r) (if ok then id :: r_running r else r_running r) (r_ids r)
  | REnd j now =>
      match r_running r !! j with
      | Some id => mkReplica (end_ now id (r_table r)) (r_inits r) (delete j (r_running r)) (r_ids r)
      | None => r
      end
  | RForget id => mkReplica (forget id (r_table r)) (r_inits r) (r_running r) (r_ids r)
  | RSweep now live order => mkReplica (sweep now live order (r_table r)) (r_inits r) (r_running r) (r_ids r)
  | RClose => mkReplica (close (r_table r)).1 (r_inits r) (r_running r) (r_ids r)
  end.

Definition entries (t : sessionTable) : list sessionEntry := (map_to_list (st_byID t)).*2.

(** Ids of principals hold no NUL; the SDK makes every session id once; a
    range visits the table's entries, in some order. *)
Definition plain_principal (p : Principal) : Prop :=
  has_byte NUL (kind_string (p_Kind p)) = false /\ has_byte NUL (p_ID p) = false /\ has_byte NUL (p_OrgID p) = false.

Definition possible (q : request) (r : replica) : Prop :=
  match q with
  | RReserve p order => plain_principal p /\ order ≡ₚ entries (r_table r)
  | RAdd _ _ id _ => id ∉ r_ids r
  | RSweep _ _ order => order ≡ₚ entries (r_table r)
  | _ => True
  end.

Inductive reach (o : SessionOptions) : replica -> Prop :=
  | reach_start : reach o (mkReplica (newSessionTable o) [] [] [])
  | reach_serve r q : reach o r -> possible q r -> reach o (serve q r).

(** ** Counting holders *)

Definition occ (k : string) (l : list string) : nat := length (List.filter (String.eqb k) l).

(** [m] counts the members of [l]. *)
Definition counts (l : list string) (m : gmap string Z) : Prop :=
  forall k, m !! k = if occ k l =? 0 then None else Some (Z.of_nat (occ k l)).

Lemma occ_cons k j l : occ k (j :: l) = (if String.eqb k j then 1 else 0) + occ k l.
Proof. unfold occ. simpl. by destruct (String.eqb k j). Qed.

Lemma occ_perm k l l' : l ≡ₚ l' -> occ k l = occ k l'.
Proof. intros P. unfold occ. by rewrite (filter_bool_perm (String.eqb k) l l' P). Qed.

Lemma occ_elem k l : occ k l <> 0 <-> k ∈ l.
Proof.
  induction l as [|j l IH]; [split; [done|intros H; by apply elem_of_nil in H]|]. rewrite occ_cons, elem_of_cons, <- IH.
  destruct (String.eqb k j) eqn:E; [apply String.eqb_eq in E; split; [by left|lia]|]. apply String.eqb_neq in E. split; [by right|by intros [?|?]].
Qed.

Lemma counts_perm l l' m : l ≡ₚ l' -> counts l m -> counts l' m.
Proof. intros P C k. by rewrite (C k), (occ_perm k l l' P). Qed.

Lemma counts_count l m k : counts l m -> count m k = Z.of_nat (occ k l).
Proof. intros C. unfold count. rewrite (C k). destruct (Nat.eqb_spec (occ k l) 0) as [->|]; done. Qed.

Lemma counts_nil : counts [] ∅.
Proof. intros k. by rewrite lookup_empty. Qed.

Lemma counts_incr l m k : counts l m -> counts (k :: l) (incr m k).
Proof.
  intros C j. unfold incr. rewrite (counts_count l m k C), occ_cons. destruct (String.eqb j k) eqn:E.
  - apply String.eqb_eq in E as ->. rewrite lookup_insert_eq. simpl. f_equal. lia.
  - apply String.eqb_neq in E. by rewrite lookup_insert_ne, (C j) by done.
Qed.

Lemma counts_decr l m k : counts (k :: l) m -> counts l (decr m k).
Proof.
  intros C j. unfold decr. rewrite (counts_count _ m k C), occ_cons, String.eqb_refl.
  assert (j = k \/ j <> k) as [->|N] by (destruct (decide (j = k)); auto).
  - destruct (Z.leb_spec (Z.of_nat (1 + occ k l) - 1) 0).
    + rewrite lookup_delete_eq. by assert (occ k l = 0) as -> by lia.
    + rewrite lookup_insert_eq. destruct (Nat.eqb_spec (occ k l) 0); [lia|]. f_equal. lia.
  - specialize (C j). rewrite occ_cons, (proj2 (String.eqb_neq j k) N) in C. simpl in C.
    destruct (_ <=? _)%Z; [by rewrite lookup_delete_ne|by rewrite lookup_insert_ne].
Qed.

(** Members of few kinds, few of each: few members. *)
Lemma counts_pigeon l m s : counts l m -> (forall k, (count m k <= s)%Z) -> (Z.of_nat (length l) <= Z.of_nat (size m) * s)%Z.
Proof.
  revert l. induction m as [|k x m F IH] using map_ind; intros l C S.
  - destruct l as [|k l]; [rewrite map_size_empty; simpl; lia|]. specialize (C k). rewrite lookup_empty, occ_cons, String.eqb_refl in C. done.
  - set (l' := List.filter (fun j => negb (String.eqb k j)) l).
    assert (forall j, occ j l' = if String.eqb j k then 0 else occ j l) as O.
    { intros j. unfold l', occ. clear. destruct (String.eqb_spec j k) as [->|N].
      - rewrite filter_drops_all; [done|]. intros x Hx. rewrite list_elem_of_In, filter_In in Hx. destruct Hx as [_ Hx]. by apply negb_true_iff in Hx.
      - f_equal. induction l as [|i l IH]; [done|]. simpl. destruct (String.eqb_spec k i) as [<-|]; simpl.
        + rewrite IH. by rewrite (proj2 (String.eqb_neq j k) N).
        + rewrite IH. done. }
    assert (length l = occ k l + length l') as L.
    { unfold l', occ. clear. induction l as [|i l IH]; simpl; [done|]. destruct (String.eqb k i); simpl; lia. }
    pose proof (C k) as Ck. rewrite lookup_insert_eq in Ck. destruct (Nat.eqb_spec (occ k l) 0) as [|N]; [done|]. injection Ck as ->.
    assert (count m k = 0%Z) as Z0 by (unfold count; by rewrite F).
    rewrite map_size_insert_None by done. rewrite L.
    assert (Z.of_nat (length l') <= Z.of_nat (size m) * s)%Z.
    { apply IH.
      - intros j. rewrite O. destruct (String.eqb j k) eqn:E; [apply String.eqb_eq in E as ->; exact F|].
        apply String.eqb_neq in E. rewrite <- (C j). by rewrite lookup_insert_ne by done.
      - intros j. destruct (decide (j = k)) as [->|Nj]; [|specialize (S j); unfold count in *; by rewrite lookup_insert_ne in S by done].
        rewrite Z0. specialize (S k). unfold count in S. rewrite lookup_insert_eq in S. cbn [from_option id] in S. lia. }
    specialize (S k). unfold count in S. rewrite lookup_insert_eq in S. cbn [from_option id] in S. lia.
Qed.

(** ** What the table keeps *)

Definition who (e : sessionEntry) : string * string := (se_owner e, se_org e).
Definition asks (x : initialising) : string * string := (in_owner x, in_org x).
Definition unsettled (x : initialising) : bool := match in_kept x with None => true | Some _ => false end.
Definition waiting (l : list initialising) : list (string * string) := map asks (List.filter unsettled l).

(** Everybody holding a place: sessions, and the reservations [W]. *)
Definition holders (t : sessionTable) (W : list (string * string)) : list (string * string) := map who (entries t) ++ W.

Record tallied (t : sessionTable) (W : list (string * string)) : Prop := {
  ta_open : st_closed t = false;
  ta_ids id e : st_byID t !! id = Some e -> se_id e = id;
  ta_owner : counts (map fst (holders t W)) (st_byOwner t);
  ta_org : counts (map snd (holders t W)) (st_byOrg t);
  ta_reserved : st_reserved t = Z.of_nat (length W);
}.

Lemma entries_delete (m : gmap string sessionEntry) id e : m !! id = Some e -> (map_to_list m).*2 ≡ₚ e :: (map_to_list (delete id m)).*2.
Proof. intros H. rewrite <- (map_to_list_delete m id e H). done. Qed.

Lemma entries_insert (m : gmap string sessionEntry) id e : m !! id = None -> (map_to_list (<[ id := e ]> m)).*2 ≡ₚ e :: (map_to_list m).*2.
Proof. intros H. by rewrite (map_to_list_insert m id e H). Qed.

Lemma entries_update (m : gmap string sessionEntry) id e e' : m !! id = Some e ->
  (map_to_list (<[ id := e' ]> m)).*2 ≡ₚ e' :: (map_to_list (delete id m)).*2.
Proof. intros H. rewrite <- insert_delete_eq. apply entries_insert, lookup_delete_eq. Qed.

Lemma tallied_perm t W W' : W ≡ₚ W' -> tallied t W -> tallied t W'.
Proof.
  intros P [O I C1 C2 R]. assert (holders t W ≡ₚ holders t W') as H by (unfold holders; by rewrite P).
  constructor; [done|done|..|by rewrite <- (Permutation_length P)]; (eapply counts_perm; [|done]); by rewrite H.
Qed.

Lemma tallied_remove t W e : tallied t W -> st_byID t !! se_id e = Some e -> tallied (remove e t) W.
Proof.
  intros [O I C1 C2 R] H. assert (holders t W ≡ₚ who e :: holders (remove e t) W) as P.
  { unfold holders, entries. cbn. by rewrite (entries_delete _ _ _ H). }
  constructor; cbn; [done| | | |done].
  - intros id x [_ Hx]%lookup_delete_Some. by apply I.
  - apply counts_decr. eapply counts_perm; [|exact C1]. by rewrite P.
  - apply counts_decr. eapply counts_perm; [|exact C2]. by rewrite P.
Qed.

Lemma tallied_reserve t W owner org : tallied t W ->
  tallied (with_table (st_byID t) (incr (st_byOwner t) owner) (incr (st_byOrg t) org) (st_reserved t + 1) t) ((owner, org) :: W).
Proof.
  intros [O I C1 C2 R]. constructor; cbn; [done|done| | |rewrite R; lia].
  - eapply counts_perm; [|apply counts_incr, C1]. unfold holders. cbn. rewrite !map_app. cbn [map fst snd]. by rewrite <- Permutation_middle.
  - eapply counts_perm; [|apply counts_incr, C2]. unfold holders. cbn. rewrite !map_app. cbn [map fst snd]. by rewrite <- Permutation_middle.
Qed.

Lemma tallied_settle t W owner org now : tallied t ((owner, org) :: W) -> tallied (settle now owner org None t) W.
Proof.
  intros [O I C1 C2 R]. constructor; cbn; [done|done| | |rewrite R; cbn; lia].
  - apply counts_decr. eapply counts_perm; [|exact C1]. unfold holders. cbn. rewrite !map_app. cbn [map fst snd]. by rewrite <- Permutation_middle.
  - apply counts_decr. eapply counts_perm; [|exact C2]. unfold holders. cbn. rewrite !map_app. cbn [map fst snd]. by rewrite <- Permutation_middle.
Qed.

Lemma tallied_add t W now id serverID owner org : tallied t ((owner, org) :: W) -> st_byID t !! id = None ->
  tallied (add now id serverID owner org t).1 W.
Proof.
  intros [O I C1 C2 R] H. unfold add. rewrite O. cbn.
  assert ((0 <? st_reserved t)%Z = true) as -> by (rewrite R; apply Z.ltb_lt; cbn; lia).
  assert (holders t ((owner, org) :: W) ≡ₚ map who (map_to_list (<[ id := mkEntry id serverID owner org now now 1 ]> (st_byID t))).*2 ++ W) as P.
  { unfold holders, entries. rewrite (entries_insert _ _ _ H). cbn. by rewrite <- Permutation_middle. }
  constructor; cbn; [done| | | |rewrite R; cbn; lia].
  - intros i e [[<- <-]|[_ Hi]]%lookup_insert_Some; [done|by apply I].
  - eapply counts_perm; [|exact C1]. unfold holders, entries. cbn. by rewrite <- P.
  - eapply counts_perm; [|exact C2]. unfold holders, entries. cbn. by rewrite <- P.
Qed.

Lemma tallied_touch t W now n id e : tallied t W -> st_byID t !! id = Some e ->
  tallied (with_byID (<[ id := touch now n e ]> (st_byID t)) t) W.
Proof.
  intros [O I C1 C2 R] H.
  assert (holders t W ≡ₚ map who (map_to_list (<[ id := touch now n e ]> (st_byID t))).*2 ++ W) as P.
  { unfold holders, entries. rewrite (entries_update _ _ _ _ H), (entries_delete _ _ _ H). done. }
  constructor; cbn; [done| | | |done].
  - intros i x [[<- <-]|[_ Hi]]%lookup_insert_Some; [cbn|]; by apply I.
  - eapply counts_perm; [|exact C1]. unfold holders, entries. cbn. by rewrite <- P.
  - eapply counts_perm; [|exact C2]. unfold holders, entries. cbn. by rewrite <- P.
Qed.

Lemma tallied_timer t W b : tallied t W -> tallied (set_timer b t) W.
Proof. intros [O I C1 C2 R]. by constructor. Qed.

Lemma entries_elem t W e : tallied t W -> e ∈ entries t <-> st_byID t !! se_id e = Some e.
Proof.
  intros T. unfold entries. rewrite list_elem_of_fmap. split.
  - intros ([id x] & -> & H%elem_of_map_to_list). cbn. by rewrite (ta_ids _ _ T _ _ H).
  - intros H. exists (se_id e, e). split; [done|]. by apply elem_of_map_to_list.
Qed.

(** A sweep is a sequence of removals of sessions that are there. *)
Lemma sweep_fold (Q : sessionTable -> Prop) now live order : NoDup (map se_id order) ->
  (forall t e, Q t -> st_byID t !! se_id e = Some e -> judge now live t e <> Keep -> Q (remove e t)) ->
  forall t, Q t -> (forall e, e ∈ order -> st_byID t !! se_id e = Some e) -> Q (foldl (sweep_one now live) t order).
Proof.
  intros N K. induction order as [|e order IH]; intros t HQ H; [done|]. cbn. inversion N as [|? ? Ni N']; subst.
  assert (st_byID t !! se_id e = Some e) as He by (apply H, list_elem_of_here).
  assert (forall x, x ∈ order -> st_byID t !! se_id x = Some x) as Hr by (intros x Hx; apply H; by right).
  unfold sweep_one at 2. destruct (judge now live t e) eqn:J; [by apply IH|..]; (apply IH; [done|apply K; congruence|]);
    intros x Hx; cbn; (rewrite lookup_delete_ne; [by apply Hr|]); intros Ex; apply Ni; rewrite Ex; apply list_elem_of_fmap; eauto.
Qed.

Lemma entries_nodup t W : tallied t W -> NoDup (map se_id (entries t)).
Proof.
  intros T. unfold entries. assert (map se_id (map_to_list (st_byID t)).*2 = (map_to_list (st_byID t)).*1) as ->.
  { rewrite map_map. apply map_ext_in. intros [id e] H. rewrite <- list_elem_of_In in H. apply elem_of_map_to_list in H. cbn. by apply (ta_ids _ _ T). }
  apply NoDup_fst_map_to_list.
Qed.

(** ** Limits *)

Record limited (o : SessionOptions) (t : sessionTable) : Prop := {
  lm_same : st_max t = st_max (newSessionTable o) /\ st_perCaller t = st_perCaller (newSessionTable o) /\
            st_perOrg t = st_perOrg (newSessionTable o) /\ st_idle t = st_idle (newSessionTable o) /\ st_maxAge t = st_maxAge (newSessionTable o);
  lm_places : (places t <= st_max t)%Z;
  lm_owner k : (count (st_byOwner t) k <= st_perCaller t)%Z;
  lm_org k : (count (st_byOrg t) k <= st_perOrg t)%Z;
}.

Lemma options_positive o : let t := newSessionTable o in
  (0 < st_max t /\ 0 < st_perCaller t /\ 0 < st_perOrg t /\ 0 < st_idle t /\ 0 < st_maxAge t)%Z.
Proof.
  cbn. unfold second. repeat split; repeat match goal with |- context [(?a <=? 0)%Z] => destruct (Z.leb_spec a 0) end; lia.
Qed.

Lemma size_entries t : size (st_byID t) = length (entries t).
Proof. unfold entries. by rewrite length_fmap, length_map_to_list. Qed.

Lemma places_holders t W : tallied t W -> places t = Z.of_nat (length (holders t W)).
Proof. intros [_ _ _ _ R]. unfold places, holders. rewrite length_app, length_map, size_entries, R. lia. Qed.

Lemma count_decr l m k j : counts (k :: l) m -> count (decr m k) j = (count m j - (if String.eqb j k then 1 else 0))%Z.
Proof.
  intros C. rewrite (counts_count _ _ j (counts_decr _ _ _ C)), (counts_count _ _ j C), occ_cons. destruct (String.eqb j k); lia.
Qed.

Lemma count_incr l m k j : counts l m -> count (incr m k) j = (count m j + (if String.eqb j k then 1 else 0))%Z.
Proof.
  intros C. rewrite (counts_count _ _ j (counts_incr _ _ k C)), (counts_count _ _ j C), occ_cons. destruct (String.eqb j k); lia.
Qed.

Lemma held_by_entry t W e : tallied t W -> st_byID t !! se_id e = Some e ->
  counts (se_owner e :: map fst (holders (remove e t) W)) (st_byOwner t) /\ counts (se_org e :: map snd (holders (remove e t) W)) (st_byOrg t).
Proof.
  intros [O I C1 C2 R] H. assert (holders t W ≡ₚ who e :: holders (remove e t) W) as P.
  { unfold holders, entries. cbn. by rewrite (entries_delete _ _ _ H). }
  split; (eapply counts_perm; [|done]); by rewrite P.
Qed.

(** What the counts are once [e] is gone. *)
Lemma count_remove t W e j : tallied t W -> st_byID t !! se_id e = Some e ->
  count (st_byOwner (remove e t)) j = (count (st_byOwner t) j - (if String.eqb j (se_owner e) then 1 else 0))%Z /\
  count (st_byOrg (remove e t)) j = (count (st_byOrg t) j - (if String.eqb j (se_org e) then 1 else 0))%Z /\
  places (remove e t) = (places t - 1)%Z.
Proof.
  intros T H. destruct (held_by_entry t W e T H) as [C1 C2]. cbn. rewrite (count_decr _ _ _ j C1), (count_decr _ _ _ j C2).
  split; [done|]. split; [done|]. unfold places. cbn. rewrite map_size_delete_Some by (by rewrite H).
  assert (size (st_byID t) <> 0) by (intros E; apply map_size_empty_inv in E; by rewrite E, lookup_empty in H). lia.
Qed.

Lemma limited_remove o t W e : tallied t W -> st_byID t !! se_id e = Some e -> limited o t -> limited o (remove e t).
Proof.
  intros T H [S P L1 L2]. constructor; [exact S|..]; cbn [st_max st_perCaller st_perOrg remove release with_table with_byID].
  - rewrite (proj2 (proj2 (count_remove t W e "" T H))). lia.
  - intros k. rewrite (proj1 (count_remove t W e k T H)). specialize (L1 k). destruct (String.eqb _ _); lia.
  - intros k. rewrite (proj1 (proj2 (count_remove t W e k T H))). specialize (L2 k). destruct (String.eqb _ _); lia.
Qed.

(** *** Making room *)

Lemma oldest_some ok order : forall v r, oldest ok order v = Some r ->
  v = Some r \/ (r ∈ order /\ se_inflight r = 0%Z /\ ok r = true).
Proof.
  induction order as [|e order IH]; intros v r; cbn [oldest]; [by left|]. intros H. apply IH in H as [H|(H & ? & ?)].
  - destruct ((se_inflight e =? 0)%Z && ok e && _) eqn:E; [|by left]. injection H as <-. bool_prop. right.
    split; [apply list_elem_of_here|]. split; [first [done|by apply Z.eqb_eq]|done].
  - right. split; [by right|done].
Qed.

Lemma oldest_keeps ok order : forall v, is_Some v -> is_Some (oldest ok order v).
Proof. induction order as [|e order IH]; intros v S; cbn [oldest]; [done|]. apply IH. by destruct (_ && _). Qed.

Lemma oldest_finds ok order e : forall v, e ∈ order -> se_inflight e = 0%Z -> ok e = true -> is_Some (oldest ok order v).
Proof.
  induction order as [|x order IH]; intros v H I K; [by apply elem_of_nil in H|]. cbn [oldest].
  apply elem_of_cons in H as [<-|H]; [|by apply IH]. apply oldest_keeps. rewrite I, K. cbn [Z.eqb andb].
  destruct v as [v|]; [|by eexists]. destruct (_ <? _)%Z; by eexists.
Qed.

(** What [room] may pick. *)
Lemma room_victim owner org order t v : room owner org order t = Ok (Some v) ->
  v ∈ order /\ se_inflight v = 0%Z /\
  ((se_owner v = owner /\ (st_perCaller t <= count (st_byOwner t) owner)%Z) \/
   (se_org v = org /\ (count (st_byOwner t) owner < st_perCaller t /\ st_perOrg t <= count (st_byOrg t) org)%Z) \/
   (over_share t owner org v = true /\ (count (st_byOwner t) owner < st_perCaller t /\ count (st_byOrg t) org < st_perOrg t /\ st_max t <= places t)%Z)).
Proof.
  unfold room. destruct (Z.leb_spec (st_perCaller t) (count (st_byOwner t) owner)).
  - destruct (oldest _ _ _) as [r|] eqn:E; [|done]. intros [= <-]. apply oldest_some in E as [?|(? & ? & K)]; [done|].
    apply String.eqb_eq in K. auto.
  - destruct (Z.leb_spec (st_perOrg t) (count (st_byOrg t) org)).
    + destruct (oldest _ _ _) as [r|] eqn:E; [|done]. intros [= <-]. apply oldest_some in E as [?|(? & ? & K)]; [done|].
      apply String.eqb_eq in K. auto 8.
    + destruct (Z.leb_spec (st_max t) (places t)); [|done].
      destruct (oldest _ _ _) as [r|] eqn:E; [|done]. intros [= <-]. apply oldest_some in E as [?|(? & ? & K)]; [done|]. auto 10.
Qed.

Lemma room_none owner org order t : room owner org order t = Ok None ->
  (count (st_byOwner t) owner < st_perCaller t /\ count (st_byOrg t) org < st_perOrg t /\ places t < st_max t)%Z.
Proof.
  unfold room. destruct (Z.leb_spec (st_perCaller t) (count (st_byOwner t) owner)); [by destruct (oldest _ _ _)|].
  destruct (Z.leb_spec (st_perOrg t) (count (st_byOrg t) org)); [by destruct (oldest _ _ _)|].
  destruct (Z.leb_spec (st_max t) (places t)); [by destruct (oldest _ _ _)|done].
Qed.

(** A reservation keeps within the limits, the credential of a session
    deciding its workspace. *)
Lemma limited_reserve o t W owner org order t' victim : tallied t W -> limited o t -> order ≡ₚ entries t ->
  (forall e, e ∈ entries t -> se_owner e = owner -> se_org e = org) ->
  reserve owner org order t = (t', Ok victim) -> limited o t'.
Proof.
  intros T L Ord Det. unfold reserve. rewrite (ta_open _ _ T). destruct (room owner org order t) as [v|] eqn:Rm; [|done]. intros [= <- <-].
  destruct v as [v|].
  - apply room_victim in Rm as (Hv & _ & D). rewrite Ord in Hv. pose proof (Det v Hv) as Dv. apply (entries_elem t W) in Hv; [|done].
    pose proof (tallied_remove t W v T Hv) as T'. pose proof (count_remove t W v) as CR. specialize (CR).
    destruct L as [S P L1 L2]. constructor; [exact S|..]; cbn [st_max st_perCaller st_perOrg st_byOwner st_byOrg with_table].
    + unfold places in *. cbn. pose proof (proj2 (proj2 (CR "" T Hv))) as X. unfold places in X. cbn in X. lia.
    + intros k. rewrite (count_incr _ _ _ k (ta_owner _ _ T')), (proj1 (CR k T Hv)). specialize (L1 k).
      destruct (String.eqb_spec k owner) as [->|]; [|destruct (String.eqb _ _); cbn; lia].
      destruct (String.eqb_spec owner (se_owner v)) as [|N]; [cbn; lia|]. cbn. destruct D as [[? _]|[(? & ? & ?)|(? & ? & ? & ?)]]; [congruence|lia|lia].
    + intros k. rewrite (count_incr _ _ _ k (ta_org _ _ T')), (proj1 (proj2 (CR k T Hv))). specialize (L2 k).
      destruct (String.eqb_spec k org) as [->|]; [|destruct (String.eqb _ _); cbn; lia].
      destruct (String.eqb_spec org (se_org v)) as [|N]; [cbn; lia|]. cbn.
      destruct D as [[? _]|[(? & ? & ?)|(? & ? & ? & ?)]]; [by destruct N; symmetry; apply Dv|congruence|lia].
  - apply room_none in Rm as (R1 & R2 & R3). destruct L as [S P L1 L2].
    constructor; [exact S|..]; cbn [st_max st_perCaller st_perOrg st_byOwner st_byOrg with_table].
    + unfold places in *. cbn. lia.
    + intros k. rewrite (count_incr _ _ _ k (ta_owner _ _ T)). specialize (L1 k). destruct (String.eqb_spec k owner) as [->|]; lia.
    + intros k. rewrite (count_incr _ _ _ k (ta_org _ _ T)). specialize (L2 k). destruct (String.eqb_spec k org) as [->|]; lia.
Qed.

Lemma limited_decr o t W owner org now : tallied t ((owner, org) :: W) -> limited o t -> limited o (settle now owner org None t).
Proof.
  intros [O I C1 C2 R] [S P L1 L2]. constructor; [exact S|..]; cbn [st_max st_perCaller st_perOrg settle release with_table].
  - unfold places in *. cbn. lia.
  - intros k. cbn. rewrite (count_decr (map fst (holders t W)) _ owner k).
    + specialize (L1 k). destruct (String.eqb _ _); lia.
    + eapply counts_perm; [|exact C1]. unfold holders. rewrite !map_app. cbn [map fst]. by rewrite <- Permutation_middle.
  - intros k. cbn. rewrite (count_decr (map snd (holders t W)) _ org k).
    + specialize (L2 k). destruct (String.eqb _ _); lia.
    + eapply counts_perm; [|exact C2]. unfold holders. rewrite !map_app. cbn [map snd]. by rewrite <- Permutation_middle.
Qed.

(** ** The replica *)

Lemma owner_org p q : plain_principal p -> plain_principal q -> ownerOf p = ownerOf q -> p_OrgID p = p_OrgID q.
Proof.
  intros (Kp & Ip & Op) (Kq & Iq & Oq) E. unfold ownerOf in E.
  apply app_sep_inj in E as [_ E]; [|done|done]. apply app_sep_inj in E as [_ E]; [|done|done]. by apply app_sep_inj in E as [E _].
Qed.

Definition kept_ids (l : list initialising) : list string := omap in_kept l.

(** Requests on a session: those running, and its own initialisation. *)
Definition uses (r : replica) (id : string) : nat := occ id (r_running r ++ kept_ids (r_inits r)).

Record entry_ok (ids : list string) (use : string -> nat) (id : string) (e : sessionEntry) : Prop := {
  en_id : se_id e = id;
  en_made : id ∈ ids;
  en_uses : se_inflight e = Z.of_nat (use id);
  en_who : exists p, plain_principal p /\ who e = (ownerOf p, p_OrgID p);
}.

Record table_sound (o : SessionOptions) (ids : list string) (use : string -> nat) (W : list (string * string)) (t : sessionTable) : Prop := {
  ts_table : if st_closed t then st_byID t = ∅ else tallied t W /\ limited o t;
  ts_entry id e : st_byID t !! id = Some e -> entry_ok ids use id e;
  ts_timer : st_byID t <> ∅ -> st_timer t = true;
}.

Record sound (o : SessionOptions) (r : replica) : Prop := {
  so_table : table_sound o (r_ids r) (uses r) (waiting (r_inits r)) (r_table r);
  so_inits x : x ∈ r_inits r -> plain_principal (in_principal x);
  so_used id : uses r id <> 0 -> id ∈ r_ids r;
}.

Lemma sound_remove o ids use W t e : table_sound o ids use W t -> st_byID t !! se_id e = Some e -> table_sound o ids use W (remove e t).
Proof.
  intros [T E M] H. constructor; cbn.
  - destruct (st_closed t); [by rewrite T, lookup_empty in H|]. destruct T as [T L]. split; [by apply tallied_remove|by eapply limited_remove].
  - intros id x [_ Hx]%lookup_delete_Some. by apply E.
  - intros N. apply M. intros Z. apply N. by rewrite Z, delete_empty.
Qed.

(** A change of who uses what, where no session is affected. *)
Lemma sound_uses o ids ids' use use' W W' t : table_sound o ids use W t -> W ≡ₚ W' -> (forall id, id ∈ ids -> id ∈ ids') ->
  (forall id, is_Some (st_byID t !! id) -> use' id = use id) -> table_sound o ids' use' W' t.
Proof.
  intros [T E M] P I U. constructor; [|intros id e H|done].
  - destruct (st_closed t); [done|]. destruct T as [T L]. split; [by eapply tallied_perm|done].
  - destruct (E id e H) as [E1 E2 E3 E4]. constructor; [done|by apply I|rewrite U by eauto; done|done].
Qed.

Lemma sound_touch o ids use use' W t now n id e : table_sound o ids use W t -> st_byID t !! id = Some e ->
  n = Z.of_nat (use' id) -> (forall j, j <> id -> use' j = use j) ->
  table_sound o ids use' W (with_byID (<[ id := touch now n e ]> (st_byID t)) t).
Proof.
  intros [T E M] H Hn Ho. constructor; cbn.
  - destruct (st_closed t); [by rewrite T, lookup_empty in H|]. destruct T as [T [S P L1 L2]]. split; [by apply tallied_touch|].
    constructor; [exact S| |exact L1|exact L2]. unfold places in *. cbn. by rewrite map_size_insert_Some by eauto.
  - intros j x [[<- <-]|[N Hj]]%lookup_insert_Some.
    + destruct (E id e H) as [E1 E2 E3 E4]. by constructor.
    + destruct (E j x Hj) as [E1 E2 E3 E4]. constructor; [done|done|by rewrite Ho|done].
  - intros _. apply M. intros Z. by rewrite Z, lookup_empty in H.
Qed.

Lemma sound_end o ids use use' W t now id : table_sound o ids use W t -> use id = S (use' id) -> (forall j, j <> id -> use' j = use j) ->
  table_sound o ids use' W (end_ now id t).
Proof.
  intros T Hu Ho. unfold end_. destruct (st_byID t !! id) as [e|] eqn:H.
  - eapply sound_touch; [done|done| |done]. rewrite (en_uses _ _ _ _ (ts_entry _ _ _ _ _ T _ _ H)), Hu. lia.
  - eapply sound_uses; [done|done|done|]. intros j [x Hj]. apply Ho. intros ->. congruence.
Qed.

Lemma split_at {A} (l : list A) i x : l !! i = Some x -> exists l1 l2, l = l1 ++ x :: l2 /\ i = length l1.
Proof. intros H. exists (take i l), (drop (S i) l). split; [by rewrite take_drop_middle|]. apply lookup_lt_Some in H. rewrite length_take. lia. Qed.

Lemma list_insert_middle {A} (l1 l2 : list A) x y : <[ length l1 := y ]> (l1 ++ x :: l2) = l1 ++ y :: l2.
Proof. by rewrite <- (Nat.add_0_r (length l1)), insert_app_r. Qed.

Lemma occ_app k l l' : occ k (l ++ l') = occ k l + occ k l'.
Proof. unfold occ. by rewrite List.filter_app, length_app. Qed.

Lemma waiting_app l l' : waiting (l ++ l') = waiting l ++ waiting l'.
Proof. unfold waiting. by rewrite List.filter_app, map_app. Qed.

Lemma waiting_middle l1 x l2 : waiting (l1 ++ x :: l2) ≡ₚ (if unsettled x then [asks x] else []) ++ waiting (l1 ++ l2).
Proof.
  rewrite !waiting_app. assert (waiting (x :: l2) = (if unsettled x then [asks x] else []) ++ waiting l2) as ->.
  { unfold waiting. simpl. by destruct (unsettled x). }
  rewrite app_assoc, (Permutation_app_comm (waiting l1)). by rewrite <- app_assoc.
Qed.

Lemma occ_kept_middle id l1 x l2 : occ id (kept_ids (l1 ++ x :: l2)) = occ id (kept_ids (l1 ++ l2)) + (if decide (in_kept x = Some id) then 1 else 0).
Proof.
  unfold kept_ids. rewrite !omap_app, !occ_app. cbn [omap list_omap]. destruct (in_kept x) as [j|]; [|rewrite decide_False by done; lia].
  rewrite occ_cons. destruct (String.eqb_spec id j) as [->|N]; [rewrite decide_True by done; lia|rewrite decide_False by congruence; lia].
Qed.

(** *** One request at a time *)

Lemma determined o ids use W t p e : table_sound o ids use W t -> st_closed t = false -> plain_principal p -> e ∈ entries t ->
  se_owner e = ownerOf p -> se_org e = p_OrgID p.
Proof.
  intros [T E M] C Pp He Eo. rewrite C in T. destruct T as [T _]. apply (entries_elem t W e T) in He.
  destruct (en_who _ _ _ _ (E _ _ He)) as (q & Pq & Wq). unfold who in Wq. injection Wq as Wo ->. by apply owner_org; [..|congruence].
Qed.

Lemma reserve_sound o r p order : sound o r -> possible (RReserve p order) r -> sound o (serve (RReserve p order) r).
Proof.
  intros [T I U] [Pp Ord]. cbn [serve]. destruct (reserve _ _ _ _) as [t res] eqn:R.
  assert (forall x, x ∈ mkInit p None :: r_inits r -> plain_principal (in_principal x)) as I' by (intros x [->|Hx]%elem_of_cons; auto).
  pose proof R as R0. unfold reserve in R. destruct (st_closed (r_table r)) eqn:C.
  { injection R as <- <-. by constructor. }
  destruct (room _ _ _ _) as [victim|] eqn:Rm; [|injection R as <- <-; by constructor]. injection R as Ht Er. subst res.
  constructor; cbn [r_inits r_ids r_table r_running]; [|exact I'|exact U].
  pose proof (ts_table _ _ _ _ _ T) as TT. rewrite C in TT. destruct TT as [Ta L].
  assert (limited o t) as L' by (eapply limited_reserve; [exact Ta|exact L|exact Ord|intros e He Eo; by eapply determined|exact R0]).
  set (t1 := match victim with Some v => remove v (r_table r) | None => r_table r end) in *.
  assert (table_sound o (r_ids r) (uses r) (waiting (r_inits r)) t1) as T1.
  { unfold t1. destruct victim as [v|]; [|done]. apply sound_remove; [done|]. apply room_victim in Rm as (Hv & _). rewrite Ord in Hv.
    by apply (entries_elem _ _ _ Ta). }
  pose proof T1 as [TT1 E1 M1]. assert (st_closed t1 = false) as C1 by (unfold t1; by destruct victim). rewrite C1 in TT1. destruct TT1 as [Ta1 _].
  subst t. constructor; cbn.
  - rewrite C1. split; [|exact L']. change (waiting _) with (asks (mkInit p None) :: waiting (r_inits r)). by apply tallied_reserve.
  - exact E1.
  - exact M1.
Qed.

Lemma add_sound o r i now id serverID : sound o r -> possible (RAdd i now id serverID) r -> sound o (serve (RAdd i now id serverID) r).
Proof.
  intros [T I U] F. cbn in F. cbn [serve]. destruct (r_inits r !! i) as [[p [k|]]|] eqn:Hi; [by constructor| |by constructor].
  apply split_at in Hi as (l1 & l2 & El & ->). pose proof (waiting_middle l1 (mkInit p None) l2) as Wm. rewrite <- El in Wm. cbn in Wm.
  assert (plain_principal p) as Pp by (apply (I (mkInit p None)); rewrite El; apply elem_of_app; right; apply list_elem_of_here).
  assert (forall kept x, x ∈ <[ length l1 := mkInit p kept ]> (r_inits r) -> plain_principal (in_principal x)) as I'.
  { intros kept x Hx. rewrite El, list_insert_middle in Hx. apply elem_of_app in Hx as [Hx|[->|Hx]%elem_of_cons]; [| exact Pp |];
      apply I; rewrite El; apply elem_of_app; [by left|right; by right]. }
  assert (forall j, uses r j <> 0 -> j ∈ id :: r_ids r) as U' by (intros j Hj; right; by apply U).
  assert (uses r id = 0) as Z0 by (destruct (Nat.eq_dec (uses r id) 0) as [|N]; [done|by apply U in N]).
  destruct (add now id serverID (in_owner (mkInit p None)) (in_org (mkInit p None)) (r_table r)) as [t kept] eqn:A. unfold add in A.
  pose proof T as [TT E M]. destruct (st_closed (r_table r)) eqn:C.
  - injection A as <- <-. rewrite El, list_insert_middle, <- El. constructor; cbn; [|exact I|exact U'].
    eapply sound_uses; [exact T|done|by right|done].
  - injection A as Ht Hk. subst kept. set (x' := mkInit p (Some id)). rewrite El, list_insert_middle.
    assert (forall j, uses (mkReplica t (l1 ++ x' :: l2) (r_running r) (id :: r_ids r)) j = uses r j + (if decide (j = id) then 1 else 0)) as Us.
    { intros j. unfold uses. cbn [r_running r_inits]. rewrite El, !occ_app, !occ_kept_middle. cbn [in_kept x'].
      rewrite (decide_False (P := None = Some j)) by done. destruct (decide (j = id)) as [->|N];
        [rewrite (decide_True (P := Some id = Some id)) by done|rewrite (decide_False (P := Some id = Some j)) by congruence]; lia. }
    destruct TT as [Ta L]. assert (st_byID (r_table r) !! id = None) as Fr.
    { destruct (st_byID (r_table r) !! id) as [e|] eqn:X; [|done]. destruct F. apply (en_made _ _ _ _ (E _ _ X)). }
    pose proof (tallied_perm _ _ _ Wm Ta) as Ta'. pose proof (tallied_add _ _ now id serverID _ _ Ta' Fr) as Ta2.
    unfold add in Ta2. rewrite C in Ta2. cbn [fst] in Ta2. rewrite Ht in Ta2.
    constructor; cbn [r_inits r_ids r_table r_running].
    + constructor.
      * rewrite (ta_open _ _ Ta2). split.
        { eapply tallied_perm; [|exact Ta2]. rewrite waiting_middle. cbn. done. }
        subst t. destruct L as [S P L1 L2]. constructor; [exact S| |exact L1|exact L2]. unfold places in *. cbn.
        rewrite map_size_insert_None by done. pose proof (ta_reserved _ _ Ta') as R. cbn in R.
        assert ((0 <? st_reserved (r_table r))%Z = true) as -> by (rewrite R; apply Z.ltb_lt; lia). lia.
      * intros j e. subst t. cbn. intros [[<- <-]|[N Hj]]%lookup_insert_Some.
        { constructor; [done|apply list_elem_of_here|cbn [se_inflight]; rewrite Us, Z0, decide_True by done; done|]. exists p. by split. }
        destruct (E j e Hj) as [E1 E2 E3 E4]. constructor; [done|by right| |done]. rewrite Us, decide_False by done. by rewrite Nat.add_0_r.
      * intros _. subst t. done.
    + intros x Hx. apply (I' (Some id)). by rewrite El, list_insert_middle.
    + intros j Hj. rewrite Us in Hj. destruct (decide (j = id)) as [->|]; [apply list_elem_of_here|]. right. apply U. lia.
Qed.

Lemma settle_sound o r i now : sound o r -> sound o (serve (RSettle i now) r).
Proof.
  intros [T I U]. cbn [serve]. destruct (r_inits r !! i) as [x|] eqn:Hi; [|by constructor].
  apply split_at in Hi as (l1 & l2 & El & ->). rewrite El, delete_middle.
  assert (forall y, y ∈ l1 ++ l2 -> plain_principal (in_principal y)) as I'.
  { intros y Hy. apply I. rewrite El. apply elem_of_app. apply elem_of_app in Hy as [Hy|Hy]; [by left|right; by right]. }
  set (use' := fun j => occ j (r_running r ++ kept_ids (l1 ++ l2))).
  assert (forall j, uses r j = use' j + (if decide (in_kept x = Some j) then 1 else 0)) as Us.
  { intros j. unfold uses, use'. rewrite El, !occ_app, occ_kept_middle. lia. }
  constructor; cbn [r_inits r_ids r_table r_running]; [|exact I'|intros j Hj; apply U; rewrite Us; change (use' j <> 0) in Hj; lia].
  pose proof (waiting_middle l1 x l2) as Wm. rewrite <- El in Wm. unfold unsettled in Wm. change (uses _) with use'. destruct (in_kept x) as [id|] eqn:K; cbn in Wm.
  - unfold settle. apply (sound_end _ _ (uses r)); [by apply (sound_uses _ (r_ids r) _ (uses r) _ (waiting (r_inits r))); [exact T|exact Wm|done|done]| |].
    + rewrite Us, decide_True by done. lia.
    + intros j N. rewrite Us, decide_False by congruence. lia.
  - assert (table_sound o (r_ids r) use' (asks x :: waiting (l1 ++ l2)) (r_table r)) as [TT E M].
    { apply (sound_uses _ (r_ids r) _ (uses r) _ (waiting (r_inits r))); [exact T|exact Wm|done|]. intros j _. rewrite Us, decide_False by done. lia. }
    constructor; [|exact E|exact M].
    cbn [settle release with_table st_closed st_byID]. destruct (st_closed (r_table r)); [done|]. destruct TT as [Ta L].
    split; [by apply (tallied_settle _ _ _ _ now)|by apply (limited_decr _ _ (waiting (l1 ++ l2)) _ _ now)].
Qed.

Lemma begin_sound o r now id serverID p : sound o r -> sound o (serve (RBegin now id serverID p) r).
Proof.
  intros [T I U]. cbn [serve]. destruct (begin _ _ _ _ _) as [t ok] eqn:B. unfold begin in B.
  destruct (st_byID (r_table r) !! id) as [e|] eqn:H; [|injection B as <- <-; by constructor].
  destruct (negb _ || negb _); [injection B as <- <-; by constructor|].
  pose proof (ts_entry _ _ _ _ _ T _ _ H) as [E1 E2 E3 E4].
  destruct (_ <=? _)%Z; injection B as <- <-.
  - constructor; cbn [r_inits r_ids r_table r_running]; [|exact I|exact U]. change (uses _) with (uses r).
    destruct (_ =? _)%Z; [|exact T]. apply sound_remove; [exact T|by rewrite E1].
  - set (use' := fun j => occ j ((id :: r_running r) ++ kept_ids (r_inits r))).
    assert (forall j, use' j = (if String.eqb j id then 1 else 0) + uses r j) as Us by (intros j; unfold use', uses; by rewrite <- occ_cons).
    constructor; cbn [r_inits r_ids r_table r_running]; [|exact I|].
    + change (uses _) with use'. apply (sound_touch _ _ (uses r)); [exact T|done| |].
      * rewrite Us, String.eqb_refl, E3. lia.
      * intros j N. by rewrite Us, (proj2 (String.eqb_neq j id) N).
    + intros j Hj. change (use' j <> 0) in Hj. destruct (decide (j = id)) as [->|N]; [done|].
      rewrite Us, (proj2 (String.eqb_neq j id) N) in Hj. by apply U.
Qed.

Lemma finish_sound o r j now : sound o r -> sound o (serve (REnd j now) r).
Proof.
  intros [T I U]. cbn [serve]. destruct (r_running r !! j) as [id|] eqn:Hj; [|by constructor].
  apply split_at in Hj as (l1 & l2 & El & ->). rewrite El, delete_middle.
  set (use' := fun j => occ j ((l1 ++ l2) ++ kept_ids (r_inits r))).
  assert (forall j, uses r j = (if String.eqb j id then 1 else 0) + use' j) as Us.
  { intros j. unfold use', uses. rewrite El, !occ_app, occ_cons. lia. }
  constructor; cbn [r_inits r_ids r_table r_running]; [|exact I|].
  - change (uses _) with use'. apply (sound_end _ _ (uses r)); [exact T|by rewrite Us, String.eqb_refl|].
    intros i N. by rewrite Us, (proj2 (String.eqb_neq i id) N).
  - intros i Hi. change (use' i <> 0) in Hi. apply U. rewrite Us. lia.
Qed.

Lemma sweep_sound o ids use W now live order t : table_sound o ids use W t -> order ≡ₚ entries t -> table_sound o ids use W (sweep now live order t).
Proof.
  intros T P. unfold sweep. destruct (st_closed t) eqn:C; [done|]. pose proof (ts_table _ _ _ _ _ T) as TT. rewrite C in TT. destruct TT as [Ta L].
  assert (table_sound o ids use W (foldl (sweep_one now live) t order)) as T'.
  { apply sweep_fold; [|intros; by apply sound_remove|done|].
    - rewrite P. by eapply entries_nodup.
    - intros e He. rewrite P in He. by apply (entries_elem t W). }
  set (t' := foldl _ _ _) in *. clearbody t'. destruct T' as [TT' E M]. constructor; cbn; [|exact E|].
  - destruct (st_closed t'); [done|]. destruct TT' as [Ta' [S P' L1 L2]]. split; [by apply tallied_timer|by constructor].
  - intros N. apply negb_true_iff, Nat.eqb_neq. intros Z. by apply map_size_empty_inv in Z.
Qed.

Lemma serve_sound o r q : sound o r -> possible q r -> sound o (serve q r).
Proof.
  intros S P. destruct q.
  - by apply reserve_sound.
  - by apply add_sound.
  - by apply settle_sound.
  - by apply begin_sound.
  - by apply finish_sound.
  - destruct S as [T I U]. constructor; cbn; [|exact I|exact U]. change (uses _) with (uses r). unfold forget.
    destruct (st_byID (r_table r) !! id) as [e|] eqn:H; [|done]. apply sound_remove; [done|].
    by rewrite (en_id _ _ _ _ (ts_entry _ _ _ _ _ T _ _ H)).
  - destruct S as [T I U]. constructor; cbn; [|exact I|exact U]. by apply sweep_sound.
  - destruct S as [T I U]. constructor; cbn; [|exact I|exact U]. constructor; cbn; [done|intros id e H; by rewrite lookup_empty in H|done].
Qed.

Lemma reach_sound o r : reach o r -> sound o r.
Proof.
  induction 1; [|by apply serve_sound]. pose proof (options_positive o) as P. cbv zeta in P. constructor; cbn [r_inits r_ids r_table r_running].
  - constructor; [|intros id e H; change ((∅ : gmap string sessionEntry) !! id = Some e) in H; by rewrite lookup_empty in H|done]. cbn [st_closed newSessionTable]. split.
    + constructor; [done|intros id e H; change ((∅ : gmap string sessionEntry) !! id = Some e) in H; by rewrite lookup_empty in H| | |done]; unfold holders, entries; cbn [st_byID newSessionTable];
        rewrite map_to_list_empty; exact counts_nil.
    + constructor; [done| | |]; intros; unfold places, count; cbn [st_byID st_byOwner st_byOrg st_reserved newSessionTable];
        rewrite ?map_size_empty, ?lookup_empty; cbn [from_option id]; lia.
  - intros x H. by apply elem_of_nil in H.
  - intros id H. done.
Qed.

(** ** What holds of every replica *)

Lemma reach_open o r : reach o r -> st_closed (r_table r) = false -> tallied (r_table r) (waiting (r_inits r)) /\ limited o (r_table r).
Proof. intros [T _ _]%reach_sound C. pose proof (ts_table _ _ _ _ _ T) as TT. by rewrite C in TT. Qed.

Definition held (r : replica) : list (string * string) := holders (r_table r) (waiting (r_inits r)).

(** C25. The sessions and the reservations a replica holds never pass its limits:
    in all, of one caller, of one workspace. *)
Theorem held_within_limits o r : reach o r -> st_closed (r_table r) = false ->
  (Z.of_nat (length (held r)) <= st_max (newSessionTable o))%Z /\
  (forall k, Z.of_nat (occ k (map fst (held r))) <= st_perCaller (newSessionTable o))%Z /\
  (forall k, Z.of_nat (occ k (map snd (held r))) <= st_perOrg (newSessionTable o))%Z.
Proof.
  intros R C. destruct (reach_open o r R C) as [T [(S1 & S2 & S3 & _) P L1 L2]]. unfold held.
  rewrite <- (places_holders _ _ T), <- S1, <- S2, <- S3. split; [done|].
  split; intros k; [rewrite <- (counts_count _ _ k (ta_owner _ _ T))|rewrite <- (counts_count _ _ k (ta_org _ _ T))]; auto.
Qed.

Lemma reserve_ok owner org order t t' victim : reserve owner org order t = (t', Ok victim) ->
  st_closed t = false /\ room owner org order t = Ok victim.
Proof. unfold reserve. destruct (st_closed t); [done|]. destruct (room _ _ _ _); [|done]. by intros [= _ <-]. Qed.

(** How many hold a place, [who] included. *)
Definition parties (who : string) (l : list string) : nat := length (remove_dups (who :: l)).

Lemma size_counts l m : counts l m -> size m = length (remove_dups l).
Proof.
  intros C. rewrite <- size_dom. assert (dom m = list_to_set (C := gset string) (remove_dups l)) as ->.
  { apply set_eq. intros k. rewrite elem_of_dom, elem_of_list_to_set, elem_of_remove_dups, <- occ_elem, (C k).
    destruct (Nat.eqb_spec (occ k l) 0) as [->|]; [split; [by intros []|done]|]. split; [done|by eexists]. }
  apply size_list_to_set, NoDup_remove_dups.
Qed.

Lemma share_parties t l m k : counts l m -> share t m k = Z.quot (st_max t) (Z.of_nat (parties k l)).
Proof.
  intros C. unfold share, parties. rewrite (size_counts l m C), (counts_count l m k C). cbn [remove_dups].
  destruct (decide_rel elem_of k l) as [Hk|Hk].
  - apply occ_elem in Hk. destruct (Z.eqb_spec (Z.of_nat (occ k l)) 0); [lia|]. by rewrite Z.add_0_r.
  - assert (occ k l = 0) as -> by (destruct (Nat.eq_dec (occ k l) 0) as [|N]; [done|by apply occ_elem in N]).
    change (Z.of_nat 0 =? 0)%Z with true. cbn [length]. f_equal. lia.
Qed.

(** Room is made fairly.  The session closed for a new one has no request on
    it, and is the caller's own, or its workspace's when that is at its
    limit, or belongs to a caller or a workspace holding more than its share
    of a full table. *)
Theorem room_is_made_fairly o r p order t' v : reach o r -> order ≡ₚ entries (r_table r) ->
  reserve (ownerOf p) (p_OrgID p) order (r_table r) = (t', Ok (Some v)) ->
  let owners := map fst (held r) in let orgs := map snd (held r) in
  st_byID (r_table r) !! se_id v = Some v /\ uses r (se_id v) = 0 /\
  (se_owner v = ownerOf p \/
   (se_org v = p_OrgID p /\ (st_perOrg (r_table r) <= Z.of_nat (occ (p_OrgID p) orgs))%Z) \/
   (st_max (r_table r) = Z.of_nat (length (held r)) /\
    (Z.quot (st_max (r_table r)) (Z.of_nat (parties (ownerOf p) owners)) < Z.of_nat (occ (se_owner v) owners) \/
     Z.quot (st_max (r_table r)) (Z.of_nat (parties (p_OrgID p) orgs)) < Z.of_nat (occ (se_org v) orgs))%Z)).
Proof.
  intros R Ord [C Rm]%reserve_ok. pose proof (reach_sound o r R) as [T _ _]. destruct (reach_open o r R C) as [Ta L]. cbv zeta. unfold held.
  apply room_victim in Rm as (Hv & Iv & D). rewrite Ord in Hv. apply (entries_elem _ _ _ Ta) in Hv. split; [done|].
  split; [pose proof (en_uses _ _ _ _ (ts_entry _ _ _ _ _ T _ _ Hv)); lia|].
  pose proof (ta_owner _ _ Ta) as C1. pose proof (ta_org _ _ Ta) as C2.
  destruct D as [[? _]|[(? & _ & ?)|(Ov & _ & _ & Full)]]; [by left|right; left|].
  - split; [done|]. by rewrite <- (counts_count _ _ _ C2).
  - rewrite <- (places_holders _ _ Ta). pose proof (lm_places _ _ L). unfold over_share in Ov.
    rewrite (share_parties _ _ _ _ C1), (share_parties _ _ _ _ C2), (counts_count _ _ (se_owner v) C1), (counts_count _ _ (se_org v) C2) in Ov.
    apply orb_true_iff in Ov as [Ov|Ov]; [apply orb_true_iff in Ov as [Ov|Ov]|].
    + left. by apply String.eqb_eq.
    + right. right. split; [lia|]. left. by apply Z.ltb_lt.
    + right. right. split; [lia|]. right. by apply Z.ltb_lt.
Qed.

(** Somebody in a full table holds more than a share. *)
Lemma over_share_exists t owner org order : counts (map se_owner (entries t)) (st_byOwner t) -> order ≡ₚ entries t -> (0 < st_max t)%Z ->
  (st_max t <= Z.of_nat (length (entries t)))%Z -> exists e, e ∈ order /\ over_share t owner org e = true.
Proof.
  intros C Ord Pm F. destruct (existsb (over_share t owner org) order) eqn:X.
  - apply existsb_exists in X as (e & He & Oe). exists e. by rewrite list_elem_of_In.
  - exfalso. assert (forall e, e ∈ entries t -> over_share t owner org e = false) as No.
    { intros e He. rewrite <- Ord, list_elem_of_In in He. destruct (over_share t owner org e) eqn:E; [|done].
      assert (existsb (over_share t owner org) order = true) by (apply existsb_exists; eauto). congruence. }
    set (s := share t (st_byOwner t) owner) in *.
    assert (count (st_byOwner t) owner = 0)%Z as Z0.
    { rewrite (counts_count _ _ owner C). destruct (Nat.eq_dec (occ owner (map se_owner (entries t))) 0) as [->|N]; [done|].
      apply occ_elem, list_elem_of_fmap in N as (e & -> & He). apply No in He. unfold over_share in He. by rewrite String.eqb_refl in He. }
    assert (0 <= s)%Z as S0 by (unfold s, share; rewrite Z0; apply Z.quot_pos; [lia|]; change (0 =? 0)%Z with true; cbv iota; lia).
    assert (forall k, (count (st_byOwner t) k <= s)%Z) as B.
    { intros k. rewrite (counts_count _ _ k C). destruct (Nat.eq_dec (occ k (map se_owner (entries t))) 0) as [->|N]; [lia|].
      apply occ_elem, list_elem_of_fmap in N as (e & -> & He). apply No in He. unfold over_share in He.
      apply orb_false_iff in He as [He _]. apply orb_false_iff in He as [_ He]. apply Z.ltb_ge in He.
      by rewrite <- (counts_count _ _ (se_owner e) C). }
    pose proof (counts_pigeon _ _ s C B) as L. rewrite length_map in L. unfold s, share in L, S0. rewrite Z0 in L, S0. change (0 =? 0)%Z with true in L, S0. cbv iota in L, S0.
    rewrite Z.quot_div_nonneg in L, S0 by lia. pose proof (Z.mul_div_le (st_max t) (Z.of_nat (size (st_byOwner t)) + 1) ltac:(lia)). nia.
Qed.

(** A table whose sessions are all idle never turns a caller away: it finds
    a session to close, or has a place left. *)
Theorem idle_table_makes_room o r p order : reach o r -> st_closed (r_table r) = false -> order ≡ₚ entries (r_table r) ->
  waiting (r_inits r) = [] -> (forall id, uses r id = 0) ->
  exists t' victim, reserve (ownerOf p) (p_OrgID p) order (r_table r) = (t', Ok victim).
Proof.
  intros R C Ord W0 U0. pose proof (reach_sound o r R) as [T _ _]. destruct (reach_open o r R C) as [Ta [(S1 & S2 & S3 & _) P L1 L2]].
  rewrite W0 in Ta. pose proof (options_positive o) as (Pm & Pc & Pg & _). rewrite <- S1 in Pm. rewrite <- S2 in Pc. rewrite <- S3 in Pg.
  assert (forall e, e ∈ order -> se_inflight e = 0%Z) as Idle.
  { intros e He. rewrite Ord in He. apply (entries_elem _ _ _ Ta) in He.
    rewrite (en_uses _ _ _ _ (ts_entry _ _ _ _ _ T _ _ He)), U0. done. }
  assert (map fst (holders (r_table r) []) = map se_owner (entries (r_table r)) /\ map snd (holders (r_table r) []) = map se_org (entries (r_table r))) as [Ho Hg].
  { unfold holders. by rewrite app_nil_r, !map_map. }
  pose proof (ta_owner _ _ Ta) as C1. pose proof (ta_org _ _ Ta) as C2. rewrite Ho in C1. rewrite Hg in C2.
  assert (forall k, (0 < count (st_byOwner (r_table r)) k)%Z -> exists e, e ∈ order /\ se_owner e = k) as FindO.
  { intros k. rewrite (counts_count _ _ k C1). intros K. assert (k ∈ map se_owner (entries (r_table r))) as Hk by (apply occ_elem; lia).
    apply list_elem_of_fmap in Hk as (e & -> & He). exists e. by rewrite Ord. }
  assert (forall k, (0 < count (st_byOrg (r_table r)) k)%Z -> exists e, e ∈ order /\ se_org e = k) as FindG.
  { intros k. rewrite (counts_count _ _ k C2). intros K. assert (k ∈ map se_org (entries (r_table r))) as Hk by (apply occ_elem; lia).
    apply list_elem_of_fmap in Hk as (e & -> & He). exists e. by rewrite Ord. }
  assert (is_Some (match room (ownerOf p) (p_OrgID p) order (r_table r) with Ok v => Some v | Err _ => None end)) as [v Hv].
  { unfold room. destruct (Z.leb_spec (st_perCaller (r_table r)) (count (st_byOwner (r_table r)) (ownerOf p))).
    - destruct (FindO (ownerOf p) ltac:(lia)) as (e & He & Eo).
      destruct (oldest_finds (fun e => String.eqb (se_owner e) (ownerOf p)) order e None He (Idle e He)) as [x ->]; [by apply String.eqb_eq|by eexists].
    - destruct (Z.leb_spec (st_perOrg (r_table r)) (count (st_byOrg (r_table r)) (p_OrgID p))).
      + destruct (FindG (p_OrgID p) ltac:(lia)) as (e & He & Eo).
        destruct (oldest_finds (fun e => String.eqb (se_org e) (p_OrgID p)) order e None He (Idle e He)) as [x ->]; [by apply String.eqb_eq|by eexists].
      + destruct (Z.leb_spec (st_max (r_table r)) (places (r_table r))) as [F|]; [|by eexists].
        destruct (over_share_exists (r_table r) (ownerOf p) (p_OrgID p) order C1 Ord Pm) as (e & He & Oe).
        { rewrite (places_holders _ _ Ta) in F. unfold holders in F. by rewrite app_nil_r, length_map in F. }
        destruct (oldest_finds (over_share (r_table r) (ownerOf p) (p_OrgID p)) order e None He (Idle e He) Oe) as [x ->]. by eexists. }
  unfold reserve. rewrite C. destruct (room _ _ _ _) as [v'|]; [|done]. eauto.
Qed.

Definition drops (id : string) (q : request) : bool :=
  match q with
  | RForget i => String.eqb i id
  | RSweep _ live _ => negb (live id)
  | RClose => true
  | _ => false
  end.

(** A session with a request on it is closed by nothing but its client's own
    DELETE, the SDK having closed it, or the replica going away: not to make
    room, not for being idle, not for its age. *)
Theorem busy_session_survives o r q id e : reach o r -> possible q r -> st_byID (r_table r) !! id = Some e -> uses r id <> 0 ->
  drops id q = false -> is_Some (st_byID (r_table (serve q r)) !! id).
Proof.
  intros R P H U D. pose proof (reach_sound o r R) as [T _ _]. pose proof (ts_entry _ _ _ _ _ T _ _ H) as [Ei _ Eu _].
  assert (st_closed (r_table r) = false) as C.
  { destruct (st_closed (r_table r)) eqn:C; [|done]. pose proof (ts_table _ _ _ _ _ T) as TT. rewrite C in TT. by rewrite TT, lookup_empty in H. }
  destruct (reach_open o r R C) as [Ta _].
  assert (forall v, st_byID (r_table r) !! se_id v = Some v -> se_inflight v = 0%Z -> is_Some (st_byID (remove v (r_table r)) !! id)) as Rem.
  { intros v Hv Iv. cbn. rewrite lookup_delete_ne; [by eexists|]. intros <-. rewrite H in Hv. injection Hv as ->. lia. }
  destruct q; cbn [serve drops] in *.
  - destruct P as [_ Ord]. unfold reserve. rewrite C. destruct (room _ _ _ _) as [[v|]|] eqn:Rm; cbn; [|by eexists|by eexists].
    apply room_victim in Rm as (Hv & Iv & _). rewrite Ord in Hv. apply (entries_elem _ _ _ Ta) in Hv. by apply Rem.
  - destruct (r_inits r !! i) as [[p [k|]]|]; [by eexists| |by eexists]. unfold add. rewrite C. cbn.
    destruct (decide (id0 = id)) as [->|N]; [rewrite lookup_insert_eq; by eexists|rewrite lookup_insert_ne by done; by eexists].
  - destruct (r_inits r !! i) as [x|]; [|by eexists]. cbn [r_table settle]. destruct (in_kept x) as [k|]; [|by eexists]. cbn [settle]. unfold end_.
    destruct (st_byID (r_table r) !! k) as [y|] eqn:Hk; [|by eexists]. cbn.
    destruct (decide (k = id)) as [->|N]; [rewrite lookup_insert_eq; by eexists|rewrite lookup_insert_ne by done; by eexists].
  - unfold begin. destruct (st_byID (r_table r) !! id0) as [y|] eqn:Hk; [|by eexists]. destruct (negb _ || negb _); [by eexists|].
    destruct (_ <=? _)%Z; cbn [r_table].
    + destruct (Z.eqb_spec (se_inflight y) 0); [|by eexists]. apply Rem; [|done]. by rewrite (ta_ids _ _ Ta _ _ Hk).
    + cbn. destruct (decide (id0 = id)) as [->|N]; [rewrite lookup_insert_eq; by eexists|rewrite lookup_insert_ne by done; by eexists].
  - destruct (r_running r !! j) as [k|]; [|by eexists]. cbn. unfold end_. destruct (st_byID (r_table r) !! k) as [y|] eqn:Hk; [|by eexists]. cbn.
    destruct (decide (k = id)) as [->|N]; [rewrite lookup_insert_eq; by eexists|rewrite lookup_insert_ne by done; by eexists].
  - cbn. unfold forget. destruct (st_byID (r_table r) !! id0) as [y|] eqn:Hk; [|by eexists]. cbn. apply String.eqb_neq in D.
    rewrite (ta_ids _ _ Ta _ _ Hk), lookup_delete_ne by done. by eexists.
  - cbn. unfold sweep. rewrite C. cbn. exists e. apply negb_false_iff in D.
    apply (sweep_fold (fun t => st_byID t !! id = Some e)); [|intros t x Ht Hx J| done|intros x Hx; rewrite P in Hx; by apply (entries_elem _ _ _ Ta)].
    + rewrite P. by eapply entries_nodup.
    + cbn. rewrite lookup_delete_ne; [done|]. intros Ex. rewrite Ex, Ht in Hx. injection Hx as <-. destruct J. unfold judge. rewrite Ex, D.
      assert ((se_inflight e =? 0)%Z = false) as -> by (apply Z.eqb_neq; lia). done.
  - done.
Qed.

(** What a sweep leaves. *)
Lemma sweep_left now live order : NoDup (map se_id order) -> forall t, (forall e, e ∈ order -> st_byID t !! se_id e = Some e) ->
  forall id e, st_byID (foldl (sweep_one now live) t order) !! id = Some e ->
    st_byID t !! id = Some e /\ (e ∈ order -> se_id e = id -> judge now live t e = Keep).
Proof.
  induction order as [|x order IH]; intros N t H id e He; [split; [done|intros X; by apply elem_of_nil in X]|].
  inversion N as [|? ? Ni N']; subst. cbn in He.
  assert (forall y, y ∈ order -> st_byID t !! se_id y = Some y) as Hr by (intros y Hy; apply H; by right).
  assert (forall y, y ∈ order -> st_byID (remove x t) !! se_id y = Some y) as Hd.
  { intros y Hy. cbn. rewrite lookup_delete_ne; [by apply Hr|]. intros Ex. apply Ni. rewrite Ex. apply list_elem_of_fmap. eauto. }
  unfold sweep_one at 2 in He. destruct (judge now live t x) eqn:J.
  1: destruct (IH N' t Hr id e He) as [K1 K2]; split; [done|intros [->|Hx]%elem_of_cons Ei; [done|by apply K2]].
  all: destruct (IH N' _ Hd id e He) as [K1 K2]; cbn in K1; apply lookup_delete_Some in K1 as [Nx K1]; split; [done|];
    intros [->|Hx]%elem_of_cons Ei; [done|by apply K2].
Qed.

(** After a sweep every session is one the SDK holds, and has a request on it
    or is neither idle nor old; and while any is left a sweep is armed. *)
Theorem sweep_leaves_the_living o r now live order : reach o r -> possible (RSweep now live order) r -> st_closed (r_table r) = false ->
  let t' := r_table (serve (RSweep now live order) r) in
  (forall id e, st_byID t' !! id = Some e -> st_byID (r_table r) !! id = Some e /\ live id = true /\
     (uses r id <> 0 \/ (now - se_created e < st_maxAge (r_table r) /\ now - se_lastSeen e < st_idle (r_table r))%Z)) /\
  (st_timer t' = true <-> st_byID t' <> ∅).
Proof.
  intros R P C. pose proof (reach_sound o r R) as [T _ _]. destruct (reach_open o r R C) as [Ta _]. cbn [serve r_table]. unfold sweep. rewrite C. cbn in P.
  assert (forall e, e ∈ order -> st_byID (r_table r) !! se_id e = Some e) as H by (intros e He; rewrite P in He; by apply (entries_elem _ _ _ Ta)).
  split.
  - intros id e He. cbn in He. apply sweep_left in He as [He K]; [|rewrite P; by eapply entries_nodup|done]. split; [done|].
    pose proof (ts_entry _ _ _ _ _ T _ _ He) as [Ei _ Eu _]. specialize (K ltac:(rewrite P; apply (entries_elem _ _ _ Ta); by rewrite Ei) Ei).
    unfold judge in K. rewrite Ei in K. destruct (live id); [|done]. cbn [negb] in K. split; [done|].
    destruct (Z.eqb_spec (se_inflight e) 0) as [Z|NZ]; [|left; lia]. cbn [andb] in K.
    destruct (Z.leb_spec (st_maxAge (r_table r)) (now - se_created e)); [done|]. destruct (Z.leb_spec (st_idle (r_table r)) (now - se_lastSeen e)); [done|]. by right.
  - cbn. rewrite negb_true_iff, Nat.eqb_neq. split; intros N Z; apply N; [by rewrite Z, map_size_empty|by apply map_size_empty_inv].
Qed.

(** The credential of a call, as a session remembers it. *)
Inductive credential : Type := ByKey (id : string) | ByClient (id : string) | ByMethod (m : string).

Definition credential_of (p : Principal) : credential :=
  if negb (String.eqb (p_APIKeyID p) "") then ByKey (p_APIKeyID p)
  else if negb (String.eqb (p_ClientID p) "") then ByClient (p_ClientID p)
  else ByMethod (p_AuthMethod p).

Definition same_caller (p q : Principal) : Prop :=
  kind_string (p_Kind p) = kind_string (p_Kind q) /\ p_ID p = p_ID q /\ p_OrgID p = p_OrgID q /\ credential_of p = credential_of q.

Lemma ownerOf_same p q : plain_principal p -> plain_principal q -> ownerOf p = ownerOf q -> same_caller p q.
Proof.
  intros (Kp & Ip & Op) (Kq & Iq & Oq) E. unfold ownerOf in E.
  apply app_sep_inj in E as [E1 E]; [|done|done]. apply app_sep_inj in E as [E2 E]; [|done|done]. apply app_sep_inj in E as [E3 E]; [|done|done].
  repeat split; try done. unfold credential_of.
  destruct (negb (String.eqb (p_APIKeyID p) "")), (negb (String.eqb (p_APIKeyID q) ""));
    [|destruct (negb (String.eqb (p_ClientID q) ""))|destruct (negb (String.eqb (p_ClientID p) ""))|
      destruct (negb (String.eqb (p_ClientID p) "")), (negb (String.eqb (p_ClientID q) ""))]; try discriminate E;
    rewrite !app_cons_str, !app_empty_l in E; injection E as E; congruence.
Qed.

(** A session is continued only by the caller that opened it, with the same
    credential, on the server it was opened on, and not past its age. *)
Theorem only_its_caller_continues o r now id serverID p : reach o r -> plain_principal p ->
  (begin now id serverID (ownerOf p) (r_table r)).2 = true ->
  exists e q, st_byID (r_table r) !! id = Some e /\ se_serverID e = serverID /\ who e = (ownerOf q, p_OrgID q) /\ same_caller p q /\
    (now - se_created e < st_maxAge (r_table r))%Z.
Proof.
  intros R Pp B. pose proof (reach_sound o r R) as [T _ _]. unfold begin in B. destruct (st_byID (r_table r) !! id) as [e|] eqn:H; [|done].
  pose proof (ts_entry _ _ _ _ _ T _ _ H) as [_ _ _ (q & Pq & Wq)].
  destruct (String.eqb_spec (se_serverID e) serverID) as [Es|]; [|done]. destruct (String.eqb_spec (se_owner e) (ownerOf p)) as [Eo|]; [|done].
  cbn [negb orb] in B. destruct (Z.leb_spec (st_maxAge (r_table r)) (now - se_created e)); [done|]. exists e, q.
  split; [done|]. split; [done|]. split; [done|]. split; [|done]. apply ownerOf_same; [done|done|]. unfold who in Wq. injection Wq as Wo _. congruence.
Qed.

(** ** On a small table *)

Definition small : SessionOptions := mkSessionOptions 2 1 2 60 600.
Definition caller (id org : string) : Principal := mkPrincipal KindUser id org "" ("key-" +:+ id) "" "" [] false "api_key" "" false (mkSignIn 0 "" "" []).

Definition ann : Principal := caller "ann" "o1".
Definition bob : Principal := caller "bob" "o1".
Definition eve : Principal := caller "eve" "o2".

Definition opened (p : Principal) (id : string) (now : Z) (r : replica) : replica :=
  serve (RSettle 0 (now + 1)) (serve (RAdd 0 now id "srv") (serve (RReserve p (entries (r_table r))) r)).

Definition fresh : replica := mkReplica (newSessionTable small) [] [] [].
Definition full : replica := opened bob "s2" 20 (opened ann "s1" 10 fresh).

Lemma opened_reach p id now r : reach small r -> plain_principal p -> id ∉ r_ids (serve (RReserve p (entries (r_table r))) r) ->
  reach small (opened p id now r).
Proof. intros R P N. unfold opened. repeat apply reach_serve; [done|by split|done|done]. Qed.

Lemma full_reach : reach small full.
Proof.
  unfold full. apply opened_reach; [apply opened_reach; [apply reach_start|by split|by apply not_elem_of_nil]|by split|].
  rewrite list_elem_of_In. vm_compute. intros [E|[]]. discriminate E.
Qed.

Lemma held_within_limits_witness : st_closed (r_table full) = false /\ length (held full) = 2 /\ (Z.of_nat (length (held full)) <= 2)%Z.
Proof. split; [reflexivity|]. split; [vm_compute; reflexivity|]. exact (proj1 (held_within_limits small full full_reach eq_refl)). Defined.

(** A newcomer to the full table displaces the session seen longest ago. *)
Definition after_eve := reserve (ownerOf eve) (p_OrgID eve) (entries (r_table full)) (r_table full).
Definition first_entry : sessionEntry := mkEntry "s1" "srv" (ownerOf ann) "o1" 10 11 0.

Lemma room_is_made_fairly_witness : after_eve.2 = Ok (Some first_entry) /\ uses full "s1" = 0.
Proof.
  split; [vm_compute; reflexivity|].
  apply (room_is_made_fairly small full eve (entries (r_table full)) after_eve.1 first_entry full_reach); [reflexivity|vm_compute; reflexivity].
Defined.

Lemma idle_table_makes_room_witness :
  (forall id, uses full id = 0) /\ exists t' victim, reserve (ownerOf eve) (p_OrgID eve) (entries (r_table full)) (r_table full) = (t', Ok victim).
Proof.
  assert (forall id, uses full id = 0) as U by (intros id; vm_compute; reflexivity).
  split; [exact U|]. apply (idle_table_makes_room small full eve); [exact full_reach|reflexivity|reflexivity|vm_compute; reflexivity|exact U].
Defined.

(** Ann sends a request, and the table is swept an hour later. *)
Definition running : replica := serve (RBegin 30 "s1" "srv" ann) full.
Definition running_entry : sessionEntry := mkEntry "s1" "srv" (ownerOf ann) "o1" 10 30 1.
Definition hour_later : request := RSweep 3600 (fun _ => true) (entries (r_table running)).

Lemma running_reach : reach small running.
Proof. apply reach_serve; [exact full_reach|done]. Qed.

Lemma busy_session_survives_witness : st_byID (r_table running) !! "s1" = Some running_entry /\ is_Some (st_byID (r_table (serve hour_later running)) !! "s1").
Proof.
  split; [vm_compute; reflexivity|]. apply (busy_session_survives small running hour_later "s1" running_entry running_reach);
    [exact (Permutation_refl _)|vm_compute; reflexivity|vm_compute; discriminate|reflexivity].
Defined.

Lemma sweep_leaves_the_living_witness : st_byID (r_table (serve hour_later running)) !! "s2" = None /\
  (st_timer (r_table (serve hour_later running)) = true <-> st_byID (r_table (serve hour_later running)) <> ∅).
Proof.
  split; [vm_compute; reflexivity|].
  exact (proj2 (sweep_leaves_the_living small running 3600 (fun _ => true) (entries (r_table running)) running_reach (Permutation_refl _) eq_refl)).
Defined.

Lemma only_its_caller_continues_witness : (begin 30 "s1" "srv" (ownerOf ann) (r_table full)).2 = true /\
  exists e q, st_byID (r_table full) !! "s1" = Some e /\ se_serverID e = "srv" /\ who e = (ownerOf q, p_OrgID q) /\ same_caller ann q /\
    (30 - se_created e < st_maxAge (r_table full))%Z.
Proof.
  split; [vm_compute; reflexivity|].
  apply (only_its_caller_continues small full 30 "s1" "srv" ann full_reach); [by split|vm_compute; reflexivity].
Defined.
