(* ===== verification/ApiKeys.v ===== *)
(** * ApiKeys: API keys of MCP clients (internal/mcpauth/apikeys.go, and the
    key routes of internal/httpapi/admin.go)

    The rows of [api_keys], each with the digest of its key; minting,
    presenting, revoking and rotating keys; the ending of a principal, which
    revokes its keys.  A transaction that fails leaves the rows as they were.

    A query inside a workspace sees that workspace's rows only, as the
    table's row level policy has it; [auth_api_key] sees every row.  Times
    are nanoseconds; the service's clock and the database's are separate
    arguments, and so are the bytes [rand.Read] fills in and new identifiers. *)
From S2P Require Import Prelude Tables GoStrings Base64 Float64 Sha256 Authz OAuth.

Open Scope list_scope.

Definition keyPrefix : string := "smk_".
Definition prefixLen : nat := 12.
Definition DefaultRotationGrace : Z := 24 * Hour.
Definition MaxRotationGrace : Z := 7 * 24 * Hour.
(** the service's [DefaultTTL], as [New] sets it *)
Definition DefaultTTL : Z := 90 * 24 * Hour.

Inductive key_error : Type :=
| ErrInvalidKey | ErrKeyExpired | ErrKeyNotFound | ErrRotateRevoked | ErrRotateExpired | ErrRotateTwice | ErrGraceRange
| ENameRequired | EUnknownScope (s : string) | ERand | EInsert (constraint : string).

Record APIKey : Type := mkAPIKey {
  ak_ID : string;
  ak_OrgID : string;
  ak_PrincipalKind : string;
  ak_PrincipalID : string;
  ak_Name : string;
  ak_Prefix : string;
  ak_Scopes : list string;
  (** "" for a null *)
  ak_ServerID : string;
  ak_ExpiresAt : option Z;
  ak_LastUsedAt : option Z;
  ak_RevokedAt : option Z;
  (** "" for a null *)
  ak_RotatedFrom : string;
  ak_CreatedAt : Z;
}.

(** A row of [api_keys]. *)
Record key_row : Type := mkKeyRow {
  kr_key : APIKey;
  kr_hash : string;
  kr_used_ip : option string;
  kr_revoked_reason : string;
  kr_created_by : string;
}.

Definition set_expiry (e : option Z) (r : key_row) : key_row :=
  let k := kr_key r in
  mkKeyRow (mkAPIKey (ak_ID k) (ak_OrgID k) (ak_PrincipalKind k) (ak_PrincipalID k) (ak_Name k) (ak_Prefix k) (ak_Scopes k)
    (ak_ServerID k) e (ak_LastUsedAt k) (ak_RevokedAt k) (ak_RotatedFrom k) (ak_CreatedAt k))
    (kr_hash r) (kr_used_ip r) (kr_revoked_reason r) (kr_created_by r).

Definition set_revoked (at_ : Z) (reason : string) (r : key_row) : key_row :=
  let k := kr_key r in
  mkKeyRow (mkAPIKey (ak_ID k) (ak_OrgID k) (ak_PrincipalKind k) (ak_PrincipalID k) (ak_Name k) (ak_Prefix k) (ak_Scopes k)
    (ak_ServerID k) (ak_ExpiresAt k) (ak_LastUsedAt k) (Some at_) (ak_RotatedFrom k) (ak_CreatedAt k))
    (kr_hash r) (kr_used_ip r) reason (kr_created_by r).

Definition set_used (at_ : Z) (ip : option string) (r : key_row) : key_row :=
  let k := kr_key r in
  mkKeyRow (mkAPIKey (ak_ID k) (ak_OrgID k) (ak_PrincipalKind k) (ak_PrincipalID k) (ak_Name k) (ak_Prefix k) (ak_Scopes k)
    (ak_ServerID k) (ak_ExpiresAt k) (Some at_) (ak_RevokedAt k) (ak_RotatedFrom k) (ak_CreatedAt k))
    (kr_hash r) ip (kr_revoked_reason r) (kr_created_by r).

Definition unrevoked (r : key_row) : bool := is_null (ak_RevokedAt (kr_key r)).
Definition row_id (r : key_row) : string := ak_ID (kr_key r).
Definition row_prefix (r : key_row) : string := ak_Prefix (kr_key r).

(** ** Minting *)

(** [raw] is what [rand.Read] puts into 41 bytes.  The key, its prefix, its
    digest. *)
Definition Generate (raw : option string) : result key_error (string * string * string) :=
  match raw with
  | None => Err ERand
  | Some raw =>
      let prefix := str_take prefixLen (b64 (str_take 9 raw)) in
      let secret := b64 (str_drop 9 raw) in
      let full := keyPrefix +:+ prefix +:+ secret in
      Ok (full, prefix, sha256 full)
  end.

Record CreateInput : Type := mkCreate {
  ci_OrgID : string;
  ci_PrincipalKind : string;
  ci_PrincipalID : string;
  ci_Name : string;
  ci_Scopes : list string;
  ci_ServerID : string;
  (** 0 for the default, negative for no expiry *)
  ci_TTL : Z;
  ci_CreatedBy : string;
  ci_RotatedFrom : string;
}.

(** What the table's constraints hold against a new row. *)
Definition refused_insert (orgs : list string) (r : key_row) (rows : list key_row) : option string :=
  let k := kr_key r in
  if existsb (fun x => String.eqb (row_id x) (row_id r)) rows then Some "api_keys_pkey"
  else if existsb (fun x => unrevoked x && String.eqb (row_prefix x) (row_prefix r)) rows then Some "api_keys_prefix_idx"
  else if negb (String.eqb (ak_PrincipalKind k) "user" || String.eqb (ak_PrincipalKind k) "service_account") then Some "api_keys_principal_kind_check"
  else if negb (existsb (String.eqb (ak_OrgID k)) orgs) then Some "api_keys_organization_id_fkey"
  else if negb (String.eqb (ak_RotatedFrom k) "") && negb (existsb (fun x => String.eqb (row_id x) (ak_RotatedFrom k)) rows)
  then Some "api_keys_rotated_from_fkey"
  else None.

(** The time a call has: the service's clock and the database's. *)
Record clock : Type := mkClock { c_now : Z; c_db : Z }.

(** What a new key draws: random bytes and an identifier. *)
Record key_draw : Type := mkDraw { d_raw : option string; d_id : string }.

Definition insert (orgs : list string) (c : clock) (d : key_draw) (inp : CreateInput) (rows : list key_row) :
    result key_error (list key_row * (APIKey * string)) :=
  match Generate (d_raw d) with
  | Err e => Err e
  | Ok (full, prefix, hash) =>
      let ttl := if (ci_TTL inp =? 0)%Z then DefaultTTL else ci_TTL inp in
      let expires := if (0 <? ttl)%Z then Some (c_now c + ttl)%Z else None in
      let key created := mkAPIKey (d_id d) (ci_OrgID inp) (ci_PrincipalKind inp) (ci_PrincipalID inp) (ci_Name inp) prefix
        (ci_Scopes inp) (ci_ServerID inp) expires None None (ci_RotatedFrom inp) created in
      let row := mkKeyRow (key (c_db c)) hash None "" (ci_CreatedBy inp) in
      match refused_insert orgs row rows with
      | Some why => Err (EInsert why)
      | None => Ok (rows ++ [row], (key (c_now c), full))
      end
  end.

Definition known_scope (s : string) : bool := existsb (String.eqb s) [ScopeToolsRead; ScopeToolsInvoke; ScopeOrg; ScopeSCIM].

(** A transaction: its rows when it succeeds, the old ones when it does not. *)
Definition tx_rows {A} (rows : list key_row) (r : result key_error (list key_row * A)) : list key_row * result key_error A :=
  match r with Ok (rows', a) => (rows', Ok a) | Err e => (rows, Err e) end.

Definition with_scopes (scopes : list string) (inp : CreateInput) : CreateInput :=
  mkCreate (ci_OrgID inp) (ci_PrincipalKind inp) (ci_PrincipalID inp) (ci_Name inp) scopes (ci_ServerID inp) (ci_TTL inp)
    (ci_CreatedBy inp) (ci_RotatedFrom inp).

Definition Create (orgs : list string) (c : clock) (d : key_draw) (inp : CreateInput) (rows : list key_row) :
    list key_row * result key_error (APIKey * string) :=
  if String.eqb (ci_Name inp) "" then (rows, Err ENameRequired)
  else
    let scopes := match ci_Scopes inp with [] => [ScopeToolsRead; ScopeToolsInvoke] | l => l end in
    match List.find (fun s => negb (known_scope s)) scopes with
    | Some s => (rows, Err (EUnknownScope s))
    | None => tx_rows rows (insert orgs c d (with_scopes scopes inp) rows)
    end.

(** ** Presenting a key *)

(** [auth_api_key]: of every workspace, the rows with the prefix that are not
    revoked. *)
Definition auth_api_key (prefix : string) (rows : list key_row) : option key_row :=
  List.find (fun r => String.eqb (row_prefix r) prefix && unrevoked r) rows.

Definition before (t : option Z) (now : Z) : bool := match t with Some t => (t <? now)%Z | None => false end.

Definition key_principal (k : APIKey) : Principal :=
  mkPrincipal (if String.eqb (ak_PrincipalKind k) "service_account" then KindServiceAccount else KindAPIKey)
    (ak_PrincipalID k) (ak_OrgID k) "" (ak_ID k) "" (ak_ServerID k) (ak_Scopes k) false "api_key" "" false (mkSignIn 0 "" "" []).

(** [touch] is how the service remembers when it last noted a key's use: at
    most once in five minutes. *)
Definition touch (c : clock) (ip : option string) (k : APIKey) (last : gmap string Z) (rows : list key_row) :
    gmap string Z * list key_row :=
  if match last !! ak_ID k with Some t => (time_sub (c_now c) t <? 5 * Minute)%Z | None => false end then (last, rows)
  else (<[ ak_ID k := c_now c ]> last,
        update_where (fun r => String.eqb (ak_OrgID (kr_key r)) (ak_OrgID k) && String.eqb (row_id r) (ak_ID k)) (set_used (c_db c) ip) rows).

(** The row a presented key belongs to, or the refusal. *)
Definition resolve (now : Z) (presented : string) (rows : list key_row) : result key_error APIKey :=
  if negb (HasPrefix presented keyPrefix) || (String.length presented <? String.length keyPrefix + prefixLen + 20) then Err ErrInvalidKey
  else
    let prefix := str_take prefixLen (str_drop (String.length keyPrefix) presented) in
    match auth_api_key prefix rows with
    | None => Err ErrInvalidKey
    | Some r =>
        if negb (String.eqb (sha256 presented) (kr_hash r)) then Err ErrInvalidKey
        else if negb (is_null (ak_RevokedAt (kr_key r))) then Err ErrInvalidKey
        else if before (ak_ExpiresAt (kr_key r)) now then Err ErrKeyExpired
        else Ok (kr_key r)
    end.

Definition Authenticate (c : clock) (ip : option string) (presented : string) (last : gmap string Z) (rows : list key_row) :
    (gmap string Z * list key_row) * result key_error Principal :=
  match resolve (c_now c) presented rows with
  | Err e => ((last, rows), Err e)
  | Ok k => (touch c ip k last rows, Ok (key_principal k))
  end.

(** ** Listing, revoking, rotating *)

Definition of_org (org : string) (r : key_row) : bool := String.eqb (ak_OrgID (kr_key r)) org.

(** [ORDER BY created_at DESC]; the rows' order settles ties. *)
Definition newer (a b : key_row) : Prop := (ak_CreatedAt (kr_key b) <= ak_CreatedAt (kr_key a))%Z.

#[export] Instance newer_dec : RelDecision newer := fun a b => Z_le_dec _ _.

Definition List_keys (orgID principalID : string) (all : bool) (rows : list key_row) : list APIKey :=
  map kr_key (merge_sort newer (List.filter (fun r => of_org orgID r && (all || String.eqb (ak_PrincipalID (kr_key r)) principalID)) rows)).

(** The principal a query is restricted to; "" for none. *)
Definition selfFilter (self : bool) (actorID : string) : string := if self then actorID else "".

(** What the restricted statements may reach. *)
Definition reachable_key (orgID id filter : string) (r : key_row) : bool :=
  String.eqb (row_id r) id && of_org orgID r && (String.eqb filter "" || String.eqb (ak_PrincipalID (kr_key r)) filter).

Definition Revoke (c : clock) (orgID id principalID : string) (self : bool) (reason : string) (rows : list key_row) :
    list key_row * result key_error unit :=
  let hit r := reachable_key orgID id (selfFilter self principalID) r && unrevoked r in
  if existsb hit rows then (update_where hit (set_revoked (c_db c) reason) rows, Ok tt) else (rows, Err ErrKeyNotFound).

Record RotateInput : Type := mkRotate { ro_OrgID : string; ro_ID : string; ro_ActorID : string; ro_Self : bool; ro_Grace : Z }.

Record Rotation : Type := mkRotation { rt_Key : APIKey; rt_Secret : string; rt_PreviousExpiresAt : Z }.

(** [LEAST(COALESCE(expires_at, 'infinity'), t)]. *)
Definition shortened (e : option Z) (t : Z) : Z := match e with Some e => Z.min e t | None => t end.

Definition Rotate (orgs : list string) (c : clock) (d : key_draw) (inp : RotateInput) (rows : list key_row) :
    list key_row * result key_error Rotation :=
  if (ro_Grace inp <? 0)%Z || (MaxRotationGrace <? ro_Grace inp)%Z then (rows, Err ErrGraceRange)
  else tx_rows rows
    match List.find (reachable_key (ro_OrgID inp) (ro_ID inp) (selfFilter (ro_Self inp) (ro_ActorID inp))) rows with
    | None => Err ErrKeyNotFound
    | Some r =>
        let old := kr_key r in
        if negb (is_null (ak_RevokedAt old)) then Err ErrRotateRevoked
        else if match ak_ExpiresAt old with Some e => (e <=? c_now c)%Z | None => false end then Err ErrRotateExpired
        else if existsb (fun x => of_org (ro_OrgID inp) x && String.eqb (ak_RotatedFrom (kr_key x)) (ak_ID old)) rows then Err ErrRotateTwice
        else
          let until := shortened (ak_ExpiresAt old) (c_now c + ro_Grace inp) in
          let rows := update_where (fun x => of_org (ro_OrgID inp) x && String.eqb (row_id x) (ak_ID old)) (set_expiry (Some until)) rows in
          match insert orgs c d (mkCreate (ro_OrgID inp) (ak_PrincipalKind old) (ak_PrincipalID old) (ak_Name old) (ak_Scopes old)
                                  (ak_ServerID old) 0 (ro_ActorID inp) (ak_ID old)) rows with
          | Err e => Err e
          | Ok (rows, (key, full)) => Ok (rows, mkRotation key full until)
          end
    end.

(** ** The routes, and the rest that writes the rows

    [wide] is whether the caller may manage every key of the workspace, the
    answer to a permission check; a caller without it reaches its own keys. *)

Definition keys_create (orgs : list string) (c : clock) (d : key_draw) (p : Principal) (name : string) (scopes : list string)
    (serverID : string) (ttlDays : Z) : list key_row -> list key_row * result key_error (APIKey * string) :=
  Create orgs c d (mkCreate (p_OrgID p) "user" (p_ID p) name scopes serverID (wrap64 (wrap64 (wrap64 ttlDays * 24) * Hour)) (p_ID p) "").

Definition keys_revoke (c : clock) (p : Principal) (wide : bool) (id : string) : list key_row -> list key_row * result key_error unit :=
  Revoke c (p_OrgID p) id (p_ID p) (negb wide) "revoked by user".

Definition keys_rotate (orgs : list string) (c : clock) (d : key_draw) (p : Principal) (wide : bool) (id : string) (graceSeconds : option Z) :
    list key_row -> list key_row * result key_error Rotation :=
  Rotate orgs c d (mkRotate (p_OrgID p) id (p_ID p) (negb wide)
    (match graceSeconds with Some s => wrap64 (wrap64 s * Second) | None => DefaultRotationGrace end)).

Definition keys_list (p : Principal) (wide : bool) : list key_row -> list APIKey := List_keys (p_OrgID p) (p_ID p) wide.

(** [auth_principal_end]: what it does to a person's keys. *)
Definition end_principal (c : clock) (org user reason : string) : list key_row -> list key_row :=
  update_where (fun r => of_org org r && String.eqb (ak_PrincipalKind (kr_key r)) "user" && String.eqb (ak_PrincipalID (kr_key r)) user && unrevoked r)
    (set_revoked (c_db c) reason).

(** The rows, and what each replica's service remembers. *)
Record keys_db : Type := mkKeysDb { w_rows : list key_row; w_last : gmap string (gmap string Z) }.

Inductive key_op : Type :=
| KCreate (d : key_draw) (p : Principal) (name : string) (scopes : list string) (serverID : string) (ttlDays : Z)
| KPresent (replica : string) (ip : option string) (presented : string)
| KRevoke (p : Principal) (wide : bool) (id : string)
| KRotate (d : key_draw) (p : Principal) (wide : bool) (id : string) (graceSeconds : option Z)
| KEnd (org user reason : string).

Definition memory (replica : string) (w : keys_db) : gmap string Z := default ∅ (w_last w !! replica).

Definition kstep (orgs : list string) (c : clock) (o : key_op) (w : keys_db) : keys_db :=
  match o with
  | KCreate d p name scopes serverID days => mkKeysDb (keys_create orgs c d p name scopes serverID days (w_rows w)).1 (w_last w)
  | KPresent replica ip presented =>
      let '((last, rows), _) := Authenticate c ip presented (memory replica w) (w_rows w) in
      mkKeysDb rows (<[ replica := last ]> (w_last w))
  | KRevoke p wide id => mkKeysDb (keys_revoke c p wide id (w_rows w)).1 (w_last w)
  | KRotate d p wide id grace => mkKeysDb (keys_rotate orgs c d p wide id grace (w_rows w)).1 (w_last w)
  | KEnd org user reason => mkKeysDb (end_principal c org user reason (w_rows w)) (w_last w)
  end.

Inductive kruns (orgs : list string) : keys_db -> keys_db -> Prop :=
| kruns_here w : kruns orgs w w
| kruns_step w c o w' : kruns orgs (kstep orgs c o w) w' -> kruns orgs w w'.

Definition no_keys : keys_db := mkKeysDb [] ∅.

(** ** What becomes of a row *)

(** [later e e']: an expiry that is no later than it was. *)
Definition no_later (e e' : option Z) : Prop :=
  match e, e' with None, _ => True | Some a, Some b => (b <= a)%Z | Some _, None => False end.

(** [r'] is [r] some operations later: whose key it is, what it opens and
    what it hashes to are fixed, and what it lost stays lost. *)
Record aged (r r' : key_row) : Prop := mkAged {
  aged_id : row_id r' = row_id r;
  aged_prefix : row_prefix r' = row_prefix r;
  aged_hash : kr_hash r' = kr_hash r;
  aged_org : ak_OrgID (kr_key r') = ak_OrgID (kr_key r);
  aged_kind : ak_PrincipalKind (kr_key r') = ak_PrincipalKind (kr_key r);
  aged_principal : ak_PrincipalID (kr_key r') = ak_PrincipalID (kr_key r);
  aged_scopes : ak_Scopes (kr_key r') = ak_Scopes (kr_key r);
  aged_server : ak_ServerID (kr_key r') = ak_ServerID (kr_key r);
  aged_from : ak_RotatedFrom (kr_key r') = ak_RotatedFrom (kr_key r);
  aged_expiry : no_later (ak_ExpiresAt (kr_key r)) (ak_ExpiresAt (kr_key r'));
  aged_revoked : unrevoked r' = true -> unrevoked r = true;
}.

Lemma no_later_refl e : no_later e e.
Proof. destruct e; cbn; [lia|done]. Qed.

Lemma key_aged_refl r : aged r r.
Proof. split; try done. apply no_later_refl. Qed.

Lemma aged_trans a b c : aged a b -> aged b c -> aged a c.
Proof.
  intros [? ? ? ? ? ? ? ? ? E R] [? ? ? ? ? ? ? ? ? E' R']. split; try congruence; [|auto].
  destruct (ak_ExpiresAt (kr_key a)), (ak_ExpiresAt (kr_key b)), (ak_ExpiresAt (kr_key c)); cbn in *; try done. lia.
Qed.

#[export] Instance aged_preorder : PreOrder aged := Build_PreOrder _ key_aged_refl aged_trans.

Lemma aged_revoke t why r : aged r (set_revoked t why r).
Proof. split; try done. apply no_later_refl. Qed.

Lemma aged_use t ip r : aged r (set_used t ip r).
Proof. split; try done. apply no_later_refl. Qed.

Lemma aged_shorten t r : aged r (set_expiry (Some (shortened (ak_ExpiresAt (kr_key r)) t)) r).
Proof. split; try done. cbn. unfold no_later, shortened. destruct (ak_ExpiresAt (kr_key r)); [apply Z.le_min_l|done]. Qed.

Create HintDb keys.
#[export] Hint Resolve key_aged_refl aged_revoke aged_use aged_shorten : keys.

(** The rows of [rows], aged, and rows that are new. *)
Definition ages (rows rows' : list key_row) : Prop := exists kept new, rows' = kept ++ new /\ Forall2 aged rows kept.

Lemma ages_refl rows : ages rows rows.
Proof. exists rows, []. by rewrite app_nil_r. Qed.

Lemma ages_trans a b c : ages a b -> ages b c -> ages a c.
Proof.
  intros (k & n & -> & F) (k' & n' & -> & F'). apply Forall2_app_inv_l in F' as (k1 & k2 & F1 & F2 & ->).
  exists k1, (k2 ++ n'). split; [by rewrite app_assoc|]. by transitivity k.
Qed.

Lemma update_aged (p : key_row -> bool) f rows : (forall r, r ∈ rows -> p r = true -> aged r (f r)) -> Forall2 aged rows (update_where p f rows).
Proof.
  induction rows as [|r rows IH]; intros H; cbn; constructor; [|apply IH; intros; apply H; [by right|done]].
  destruct (p r) eqn:E; [apply H; [left|done]|apply key_aged_refl].
Qed.

Lemma aged_source rows kept r' : Forall2 aged rows kept -> r' ∈ kept -> exists r, r ∈ rows /\ aged r r'.
Proof. intros F H. apply list_elem_of_lookup in H as (i & H). destruct (Forall2_lookup_r _ _ _ _ _ F H) as (r & Hr & A). eauto using list_elem_of_lookup_2. Qed.

Lemma aged_image rows kept r : Forall2 aged rows kept -> r ∈ rows -> exists r', r' ∈ kept /\ aged r r'.
Proof. intros F H. apply list_elem_of_lookup in H as (i & H). destruct (Forall2_lookup_l _ _ _ _ _ F H) as (r' & Hr & A). eauto using list_elem_of_lookup_2. Qed.

Lemma aged_ids rows kept : Forall2 aged rows kept -> map row_id kept = map row_id rows.
Proof. induction 1 as [|r r' l l' A F IH]; [done|]. cbn. by rewrite IH, (aged_id _ _ A). Qed.

(** ** What the rows satisfy *)

Definition live_prefixes (rows : list key_row) : list string := map row_prefix (List.filter unrevoked rows).

Record lawful (rows : list key_row) : Prop := mkLawful {
  (** the primary key, and the index on prefixes of unrevoked keys *)
  lw_ids : NoDup (map row_id rows);
  lw_prefixes : NoDup (live_prefixes rows);
  (** what a replacement replaces is a key of the same workspace ... *)
  lw_parent x : x ∈ rows -> ak_RotatedFrom (kr_key x) <> "" ->
    exists y, y ∈ rows /\ row_id y = ak_RotatedFrom (kr_key x) /\ ak_OrgID (kr_key y) = ak_OrgID (kr_key x);
  (** ... that has one replacement *)
  lw_once x y : x ∈ rows -> y ∈ rows -> ak_RotatedFrom (kr_key x) <> "" -> ak_RotatedFrom (kr_key x) = ak_RotatedFrom (kr_key y) ->
    row_id x = row_id y;
}.

Lemma live_prefixes_aged rows kept : Forall2 aged rows kept -> sublist (live_prefixes kept) (live_prefixes rows).
Proof.
  unfold live_prefixes. induction 1 as [|r r' l l' A F IH]; [done|]. cbn.
  destruct (unrevoked r') eqn:E.
  - rewrite (aged_revoked _ _ A E). cbn. rewrite (aged_prefix _ _ A). by constructor.
  - destruct (unrevoked r); cbn; [by constructor|done].
Qed.

Lemma lawful_aged rows kept : Forall2 aged rows kept -> lawful rows -> lawful kept.
Proof.
  intros F [I P Pa O]. split.
  - by rewrite (aged_ids _ _ F).
  - eapply sublist_NoDup; [done|by apply live_prefixes_aged].
  - intros x Hx N. destruct (aged_source _ _ _ F Hx) as (x0 & Hx0 & A). rewrite (aged_from _ _ A) in *.
    destruct (Pa x0 Hx0 N) as (y0 & Hy0 & E & Or). destruct (aged_image _ _ _ F Hy0) as (y & Hy & Ay).
    exists y. by rewrite (aged_id _ _ Ay), (aged_org _ _ Ay), (aged_org _ _ A).
  - intros x y Hx Hy. destruct (aged_source _ _ _ F Hx) as (x0 & Hx0 & A), (aged_source _ _ _ F Hy) as (y0 & Hy0 & B).
    rewrite (aged_from _ _ A), (aged_from _ _ B), (aged_id _ _ A), (aged_id _ _ B). auto.
Qed.

(** What an insert adds. *)
Record minted (c : clock) (d : key_draw) (inp : CreateInput) (row : key_row) (key : APIKey) (full : string) : Prop := mkMinted {
  mt_draw : exists raw, d_raw d = Some raw /\ row_prefix row = str_take prefixLen (b64 (str_take 9 raw)) /\
    full = keyPrefix +:+ row_prefix row +:+ b64 (str_drop 9 raw);
  mt_hash : kr_hash row = sha256 full;
  mt_id : row_id row = d_id d;
  mt_principal : key_principal (kr_key row) =
    mkPrincipal (if String.eqb (ci_PrincipalKind inp) "service_account" then KindServiceAccount else KindAPIKey) (ci_PrincipalID inp)
      (ci_OrgID inp) "" (d_id d) "" (ci_ServerID inp) (ci_Scopes inp) false "api_key" "" false (mkSignIn 0 "" "" []);
  mt_expiry : ak_ExpiresAt (kr_key row) =
    let ttl := if (ci_TTL inp =? 0)%Z then DefaultTTL else ci_TTL inp in if (0 <? ttl)%Z then Some (c_now c + ttl)%Z else None;
  mt_revoked : unrevoked row = true;
  mt_from : ak_RotatedFrom (kr_key row) = ci_RotatedFrom inp;
  mt_org : ak_OrgID (kr_key row) = ci_OrgID inp;
  mt_shown : key_principal key = key_principal (kr_key row) /\ ak_ExpiresAt key = ak_ExpiresAt (kr_key row) /\
    ak_RotatedFrom key = ci_RotatedFrom inp /\ ak_Name key = ci_Name inp /\ ak_PrincipalKind key = ci_PrincipalKind inp;
}.

Lemma insert_ok orgs c d inp rows rows' key full : insert orgs c d inp rows = Ok (rows', (key, full)) ->
  exists row, rows' = rows ++ [row] /\ refused_insert orgs row rows = None /\ minted c d inp row key full.
Proof.
  unfold insert, Generate. destruct (d_raw d) as [raw|] eqn:Er; [|done]. cbn beta iota zeta.
  match goal with |- match refused_insert _ ?x _ with _ => _ end = _ -> _ => set (row := x) end.
  destruct (refused_insert orgs row rows) eqn:R; [done|]. intros E. injection E as <- <- <-. exists row. split; [done|]. split; [done|].
  split; try done. exists raw. auto.
Qed.

Lemma lawful_snoc orgs row rows : lawful rows -> refused_insert orgs row rows = None -> unrevoked row = true ->
  (ak_RotatedFrom (kr_key row) <> "" -> exists y, y ∈ rows /\ row_id y = ak_RotatedFrom (kr_key row) /\ ak_OrgID (kr_key y) = ak_OrgID (kr_key row)) ->
  (forall x, x ∈ rows -> ak_RotatedFrom (kr_key row) <> "" -> ak_RotatedFrom (kr_key x) <> ak_RotatedFrom (kr_key row)) ->
  lawful (rows ++ [row]).
Proof.
  intros [I P Pa O] R U Par On. unfold refused_insert in R.
  destruct (existsb _ rows) eqn:R1 in R; [done|]. destruct (existsb _ rows) eqn:R2 in R; [done|].
  rewrite existsb_false_elem in R1. rewrite existsb_false_elem in R2.
  split.
  - rewrite map_app. apply NoDup_app. split; [done|]. split; [|apply NoDup_singleton].
    intros id Hid Hin. apply list_elem_of_singleton in Hin as ->. apply list_elem_of_fmap in Hid as (x & E & Hx).
    specialize (R1 x Hx). cbn in E. by rewrite E, String.eqb_refl in R1.
  - unfold live_prefixes. rewrite List.filter_app, map_app. cbn. rewrite U. apply NoDup_app. split; [done|]. split; [|apply NoDup_singleton].
    intros q Hq Hin. apply list_elem_of_singleton in Hin as ->. apply list_elem_of_fmap in Hq as (x & E & Hx).
    apply list_elem_of_In, filter_In in Hx as [Hx Ux]. rewrite <- list_elem_of_In in Hx. specialize (R2 x Hx).
    by rewrite Ux, <- E, String.eqb_refl in R2.
  - intros x Hx N. apply elem_of_app in Hx as [Hx|Hx%list_elem_of_singleton].
    + destruct (Pa x Hx N) as (y & Hy & E). exists y. split; [apply elem_of_app; by left|done].
    + subst x. destruct (Par N) as (y & Hy & E). exists y. split; [apply elem_of_app; by left|done].
  - intros x y Hx Hy N E. apply elem_of_app in Hx as [Hx|Hx%list_elem_of_singleton], Hy as [Hy|Hy%list_elem_of_singleton]; subst; auto.
    + exfalso. apply (On x Hx); congruence.
    + exfalso. apply (On y Hy); congruence.
Qed.

Lemma Create_rows orgs c d inp rows : ci_RotatedFrom inp = "" -> lawful rows ->
  ages rows (Create orgs c d inp rows).1 /\ lawful (Create orgs c d inp rows).1.
Proof.
  intros N L. unfold Create. destruct (String.eqb (ci_Name inp) ""); [by split; [apply ages_refl|]|].
  destruct (List.find _ _); [by split; [apply ages_refl|]|]. unfold tx_rows.
  destruct (insert _ _ _ _ _) as [[rows' [key full]]|] eqn:E; [|by split; [apply ages_refl|]].
  apply insert_ok in E as (row & -> & R & M). cbn [fst]. split; [by exists rows, [row]|].
  pose proof (mt_from _ _ _ _ _ _ M) as F. cbn [with_scopes ci_RotatedFrom] in F. rewrite N in F.
  eapply lawful_snoc; eauto using mt_revoked; rewrite F; done.
Qed.

Lemma Revoke_rows c org id who self why rows : Forall2 aged rows (Revoke c org id who self why rows).1.
Proof. unfold Revoke. destruct (existsb _ _); cbn; [|done]. apply update_aged. auto with keys. Qed.

Lemma end_rows c org user why rows : Forall2 aged rows (end_principal c org user why rows).
Proof. apply update_aged. auto with keys. Qed.

Lemma touch_rows c ip k last rows : Forall2 aged rows (touch c ip k last rows).2.
Proof. unfold touch. destruct (match _ with Some _ => _ | None => _ end); cbn; [done|]. apply update_aged. auto with keys. Qed.

(** A rotation that succeeded. *)
Record rotated (orgs : list string) (c : clock) (d : key_draw) (inp : RotateInput) (rows rows' : list key_row) (rot : Rotation)
    (old row : key_row) : Prop := mkRotated {
  ra_grace : (0 <= ro_Grace inp <= MaxRotationGrace)%Z;
  ra_in : old ∈ rows;
  ra_id : row_id old = ro_ID inp;
  ra_org : ak_OrgID (kr_key old) = ro_OrgID inp;
  ra_self : selfFilter (ro_Self inp) (ro_ActorID inp) = "" \/ ak_PrincipalID (kr_key old) = selfFilter (ro_Self inp) (ro_ActorID inp);
  ra_live : unrevoked old = true;
  ra_unexpired : match ak_ExpiresAt (kr_key old) with Some e => (c_now c < e)%Z | None => True end;
  ra_first x : x ∈ rows -> ak_OrgID (kr_key x) = ro_OrgID inp -> ak_RotatedFrom (kr_key x) <> row_id old;
  ra_until : rt_PreviousExpiresAt rot = shortened (ak_ExpiresAt (kr_key old)) (c_now c + ro_Grace inp);
  ra_rows : rows' = update_where (fun x => of_org (ro_OrgID inp) x && String.eqb (row_id x) (row_id old))
                      (set_expiry (Some (rt_PreviousExpiresAt rot))) rows ++ [row];
  ra_insert : refused_insert orgs row (update_where (fun x => of_org (ro_OrgID inp) x && String.eqb (row_id x) (row_id old))
                      (set_expiry (Some (rt_PreviousExpiresAt rot))) rows) = None;
  ra_minted : minted c d (mkCreate (ro_OrgID inp) (ak_PrincipalKind (kr_key old)) (ak_PrincipalID (kr_key old)) (ak_Name (kr_key old))
                (ak_Scopes (kr_key old)) (ak_ServerID (kr_key old)) 0 (ro_ActorID inp) (row_id old)) row (rt_Key rot) (rt_Secret rot);
}.

Lemma reachable_key_true org id filter r : reachable_key org id filter r = true ->
  row_id r = id /\ ak_OrgID (kr_key r) = org /\ (filter = "" \/ ak_PrincipalID (kr_key r) = filter).
Proof.
  unfold reachable_key, of_org. intros H. apply andb_true_iff in H as [H F]. apply andb_true_iff in H as [H O].
  apply String.eqb_eq in H, O. split; [done|]. split; [done|].
  apply orb_true_iff in F as [F|F]; apply String.eqb_eq in F; auto.
Qed.

Lemma Rotate_cases orgs c d inp rows : match Rotate orgs c d inp rows with
  | (rows', Ok rot) => exists old row, rotated orgs c d inp rows rows' rot old row
  | (rows', Err _) => rows' = rows
  end.
Proof.
  unfold Rotate. destruct (Z.ltb_spec (ro_Grace inp) 0); [done|]. destruct (Z.ltb_spec MaxRotationGrace (ro_Grace inp)); [done|]. cbn [orb].
  unfold tx_rows. destruct (List.find _ rows) as [old|] eqn:F; [|done].
  apply find_elem in F as [Hin F]. apply reachable_key_true in F as (Hid & Ho & Hs).
  destruct (is_null _) eqn:U; [|done]. cbn [negb].
  destruct (match ak_ExpiresAt (kr_key old) with Some e => (e <=? c_now c)%Z | None => false end) eqn:Ex; [done|].
  destruct (existsb _ rows) eqn:On; [done|]. rewrite existsb_false_elem in On. cbv zeta.
  destruct (insert _ _ _ _ _) as [[rows' [key full]]|] eqn:Ins; [|done]. apply insert_ok in Ins as (row & -> & R & M).
  exists old, row. split; cbn [rt_Key rt_Secret rt_PreviousExpiresAt]; try done.
  - destruct (ak_ExpiresAt (kr_key old)); [|done]. by apply Z.leb_gt.
  - intros x Hx Ox E. specialize (On x Hx). cbn beta in On. unfold of_org in On. rewrite Ox, E, !String.eqb_refl in On. done.
Qed.

Lemma same_id rows x y : lawful rows -> x ∈ rows -> y ∈ rows -> row_id x = row_id y -> x = y.
Proof. intros L. apply NoDup_map_inj, (lw_ids _ L). Qed.

Lemma rotated_aged orgs c d inp rows rows' rot old row : lawful rows -> rotated orgs c d inp rows rows' rot old row ->
  Forall2 aged rows (update_where (fun x => of_org (ro_OrgID inp) x && String.eqb (row_id x) (row_id old))
                      (set_expiry (Some (rt_PreviousExpiresAt rot))) rows).
Proof.
  intros L H. apply update_aged. intros r Hr E. apply andb_true_iff in E as [_ E]. apply String.eqb_eq in E.
  rewrite (same_id _ _ _ L Hr (ra_in _ _ _ _ _ _ _ _ _ H) E), (ra_until _ _ _ _ _ _ _ _ _ H). auto with keys.
Qed.

Lemma Rotate_rows orgs c d inp rows : lawful rows ->
  ages rows (Rotate orgs c d inp rows).1 /\ lawful (Rotate orgs c d inp rows).1.
Proof.
  intros L. pose proof (Rotate_cases orgs c d inp rows) as H. destruct (Rotate orgs c d inp rows) as [rows' [rot|e]]; cbn [fst];
    [|subst; by split; [apply ages_refl|]].
  destruct H as (old & row & H). pose proof (rotated_aged _ _ _ _ _ _ _ _ _ L H) as F. rewrite (ra_rows _ _ _ _ _ _ _ _ _ H).
  split; [by eexists _, [row]|]. pose proof (ra_minted _ _ _ _ _ _ _ _ _ H) as M.
  eapply lawful_snoc; [by eapply lawful_aged|apply H|apply M| |]; rewrite (mt_from _ _ _ _ _ _ M), ?(mt_org _ _ _ _ _ _ M); cbn.
  - intros _. destruct (aged_image _ _ _ F (ra_in _ _ _ _ _ _ _ _ _ H)) as (y & Hy & A).
    exists y. by rewrite (aged_id _ _ A), (aged_org _ _ A), (ra_org _ _ _ _ _ _ _ _ _ H).
  - intros x Hx N E. destruct (aged_source _ _ _ F Hx) as (x0 & Hx0 & A). rewrite (aged_from _ _ A) in E.
    assert (ak_RotatedFrom (kr_key x0) <> "") as N0 by congruence. destruct (lw_parent _ L _ Hx0 N0) as (y & Hy & Ey & Oy).
    apply (ra_first _ _ _ _ _ _ _ _ _ H x0 Hx0); [|done].
    rewrite <- Oy, (same_id _ _ _ L Hy (ra_in _ _ _ _ _ _ _ _ _ H)) by congruence. apply H.
Qed.

Lemma kstep_rows orgs c o w : lawful (w_rows w) -> ages (w_rows w) (w_rows (kstep orgs c o w)) /\ lawful (w_rows (kstep orgs c o w)).
Proof.
  intros L. destruct o as [d p name scopes srv days|rep ip presented|p wide id|d p wide id grace|org user why]; cbn [kstep w_rows].
  - by apply Create_rows.
  - unfold Authenticate. destruct (resolve _ _ _) as [k|]; [|split; [apply ages_refl|done]].
    pose proof (touch_rows c ip k (memory rep w) (w_rows w)) as F. destruct (touch _ _ _ _ _) as [last rows]. cbn in *.
    split; [exists rows, []; by rewrite app_nil_r|by eapply lawful_aged].
  - pose proof (Revoke_rows c (p_OrgID p) id (p_ID p) (negb wide) "revoked by user" (w_rows w)) as F.
    split; [eexists _, []; split; [by rewrite app_nil_r|exact F]|by eapply lawful_aged].
  - by apply Rotate_rows.
  - pose proof (end_rows c org user why (w_rows w)) as F.
    split; [eexists _, []; split; [by rewrite app_nil_r|exact F]|by eapply lawful_aged].
Qed.

Lemma kruns_rows orgs w w' : kruns orgs w w' -> lawful (w_rows w) -> ages (w_rows w) (w_rows w') /\ lawful (w_rows w').
Proof.
  induction 1 as [w|w c o w' R IH]; intros L; [by split; [apply ages_refl|]|].
  destruct (kstep_rows orgs c o w L) as [A L1]. destruct (IH L1) as [A2 L2]. split; [by eapply ages_trans|done].
Qed.

Definition reached (orgs : list string) : keys_db -> Prop := kruns orgs no_keys.

Lemma reached_lawful orgs w : reached orgs w -> lawful (w_rows w).
Proof. intros R. apply (kruns_rows _ _ _ R). split; cbn; try apply NoDup_nil_2; intros *; intros H; by apply elem_of_nil in H. Qed.

(** ** Which keys open *)

(** [presented] opens the row [r] at [now]. *)
Record opens (now : Z) (presented : string) (r : key_row) : Prop := mkOpens {
  op_form : HasPrefix presented keyPrefix = true /\ String.length keyPrefix + prefixLen + 20 <= String.length presented;
  op_prefix : row_prefix r = str_take prefixLen (str_drop (String.length keyPrefix) presented);
  op_hash : kr_hash r = sha256 presented;
  op_live : unrevoked r = true;
  op_time : match ak_ExpiresAt (kr_key r) with Some e => (now <= e)%Z | None => True end;
}.

Lemma before_false e now : before e now = false <-> match e with Some e => (now <= e)%Z | None => True end.
Proof. destruct e; cbn; [apply Z.ltb_ge|done]. Qed.

Lemma auth_api_key_finds rows r : lawful rows -> r ∈ rows -> unrevoked r = true -> auth_api_key (row_prefix r) rows = Some r.
Proof.
  intros L Hr U. unfold auth_api_key. destruct (List.find _ rows) as [x|] eqn:F.
  - apply find_elem in F as [Hx E]. apply andb_true_iff in E as [E Ux]. apply String.eqb_eq in E. f_equal.
    apply (NoDup_map_inj row_prefix (List.filter unrevoked rows)); [apply L|..|done]; rewrite list_elem_of_In, filter_In, <- list_elem_of_In; done.
  - exfalso. pose proof (find_none _ _ F r) as N. rewrite <- list_elem_of_In in N. specialize (N Hr). cbn beta in N.
    by rewrite String.eqb_refl, U in N.
Qed.

Lemma resolve_iff rows now presented k : lawful rows ->
  resolve now presented rows = Ok k <-> exists r, r ∈ rows /\ kr_key r = k /\ opens now presented r.
Proof.
  intros L. unfold resolve. split.
  - destruct (HasPrefix presented keyPrefix) eqn:P; [|done]. destruct (Nat.ltb_spec (String.length presented) (String.length keyPrefix + prefixLen + 20)); [done|].
    cbn [negb orb]. destruct (auth_api_key _ rows) as [r|] eqn:F; [|done]. apply find_elem in F as [Hr F]. apply andb_true_iff in F as [F U].
    apply String.eqb_eq in F. destruct (String.eqb_spec (sha256 presented) (kr_hash r)) as [E|]; [|done]. cbn [negb].
    unfold unrevoked in U. rewrite U. cbn [negb]. destruct (before _ now) eqn:B; [done|]. intros [= <-]. apply before_false in B.
    by exists r.
  - intros (r & Hr & <- & [[P Le] Pr H U T]). rewrite P. apply Nat.ltb_ge in Le. rewrite Le. cbn [negb orb].
    rewrite <- Pr, (auth_api_key_finds _ _ L Hr U), H, String.eqb_refl. cbn [negb]. unfold unrevoked in U. rewrite U. cbn [negb].
    apply before_false in T. by rewrite T.
Qed.

Lemma aged_opens r r' now presented : aged r r' -> opens now presented r' -> opens now presented r.
Proof.
  intros A [F P H U T]. split; [done|by rewrite <- (aged_prefix _ _ A)|by rewrite <- (aged_hash _ _ A)|by apply (aged_revoked _ _ A)|].
  pose proof (aged_expiry _ _ A) as E. destruct (ak_ExpiresAt (kr_key r)), (ak_ExpiresAt (kr_key r')); cbn in E; try done. lia.
Qed.

Lemma aged_principal_same r r' : aged r r' -> key_principal (kr_key r') = key_principal (kr_key r).
Proof.
  intros A. pose proof (aged_id _ _ A) as I. unfold row_id in I. unfold key_principal.
  by rewrite (aged_kind _ _ A), (aged_principal _ _ A), (aged_org _ _ A), I, (aged_server _ _ A), (aged_scopes _ _ A).
Qed.

(** Where a row of a later table that has an old identifier comes from. *)
Lemma aged_from_id rows rows' r' : ages rows rows' -> lawful rows' -> r' ∈ rows' -> row_id r' ∈ map row_id rows ->
  exists r, r ∈ rows /\ aged r r'.
Proof.
  intros (kept & new & -> & F) L Hr Hid. rewrite <- (aged_ids _ _ F) in Hid. apply list_elem_of_fmap in Hid as (x & E & Hx).
  assert (r' = x) as -> by (apply (same_id _ _ _ L); [done|apply elem_of_app; by left|done]). by apply (aged_source _ _ _ F).
Qed.

Lemma same_key_later rows rows' r r' : ages rows rows' -> lawful rows -> lawful rows' -> r ∈ rows -> r' ∈ rows' -> row_id r' = row_id r -> aged r r'.
Proof.
  intros A L L' Hr Hr' E. destruct (aged_from_id _ _ _ A L' Hr') as (x & Hx & G); [rewrite E; by apply list_elem_of_fmap_2|].
  by rewrite <- (same_id _ _ _ L Hx Hr) by (rewrite <- (aged_id _ _ G); done).
Qed.

Lemma rotation_row orgs c d inp rows rows' rot old row : rotated orgs c d inp rows rows' rot old row ->
  set_expiry (Some (rt_PreviousExpiresAt rot)) old ∈ rows'.
Proof.
  intros H. rewrite (ra_rows _ _ _ _ _ _ _ _ _ H). apply elem_of_app. left. apply elem_of_update. exists old. split; [apply H|].
  unfold of_org. by rewrite (ra_org _ _ _ _ _ _ _ _ _ H), !String.eqb_refl.
Qed.

(** A key that has been presented is let in exactly when the table has a
    row for its prefix that is not revoked and not expired and holds its
    digest, and then as the principal of that row, with its scopes. *)
Theorem key_opens_exactly orgs w c ip presented last p : reached orgs w ->
  (Authenticate c ip presented last (w_rows w)).2 = Ok p <->
  exists r, r ∈ w_rows w /\ p = key_principal (kr_key r) /\ opens (c_now c) presented r.
Proof.
  intros R. pose proof (reached_lawful _ _ R) as L. unfold Authenticate. split.
  - destruct (resolve _ _ _) as [k|] eqn:E; [|done]. intros [= <-]. apply (resolve_iff _ _ _ _ L) in E as (r & Hr & <- & O). eauto.
  - intros (r & Hr & -> & O). assert (resolve (c_now c) presented (w_rows w) = Ok (kr_key r)) as ->; [|done].
    apply resolve_iff; eauto.
Qed.

(** C26. Nothing that happens to a key gives it back what it lost or lets it open
    more: a key that opens at some later time for the row it was issued
    with would have opened then before, as the same principal with the same
    scopes. *)
Theorem keys_never_gain orgs w w' now presented k' : reached orgs w -> kruns orgs w w' ->
  resolve now presented (w_rows w') = Ok k' -> ak_ID k' ∈ map row_id (w_rows w) ->
  exists k, resolve now presented (w_rows w) = Ok k /\ key_principal k = key_principal k'.
Proof.
  intros R R' E Hid. pose proof (reached_lawful _ _ R) as L. destruct (kruns_rows _ _ _ R' L) as [A L'].
  apply (resolve_iff _ _ _ _ L') in E as (r' & Hr' & <- & O). destruct (aged_from_id _ _ _ A L' Hr' Hid) as (r & Hr & G).
  exists (kr_key r). split; [|by rewrite (aged_principal_same _ _ G)]. apply (resolve_iff _ _ _ _ L). exists r. eauto using aged_opens.
Qed.

Lemma minted_opens c d inp row key full r now : minted c d inp row key full -> (forall raw, d_raw d = Some raw -> String.length raw = 41) ->
  aged row r -> unrevoked r = true -> before (ak_ExpiresAt (kr_key r)) now = false -> opens now full r.
Proof.
  intros M Len G U T. destruct (mt_draw _ _ _ _ _ _ M) as (raw & D & P & F). specialize (Len raw D).
  assert (String.length (row_prefix row) = prefixLen) as Lp.
  { rewrite P. apply length_str_take. rewrite b64_length, length_str_take by lia. unfold prefixLen. cbn; lia. }
  split; [| |by rewrite (aged_hash _ _ G), (mt_hash _ _ _ _ _ _ M)|done|by apply before_false]; rewrite ?(aged_prefix _ _ G), F.
  - split; [apply prefix_app|]. rewrite !length_app_str, Lp, b64_length, length_str_drop, Len. cbn. lia.
  - by rewrite str_drop_app, <- Lp, str_take_app.
Qed.

(** A key works from the moment it is made: whatever happens to other keys,
    while its own row is not revoked and not expired its secret opens it, as
    the principal who made it and with the scopes asked for. *)
Theorem created_key_opens orgs c d p name scopes srv days w rows' key full w' r' now :
  reached orgs w -> (forall raw, d_raw d = Some raw -> String.length raw = 41) ->
  keys_create orgs c d p name scopes srv days (w_rows w) = (rows', Ok (key, full)) ->
  kruns orgs (mkKeysDb rows' (w_last w)) w' -> r' ∈ w_rows w' -> row_id r' = ak_ID key ->
  unrevoked r' = true -> before (ak_ExpiresAt (kr_key r')) now = false ->
  resolve now full (w_rows w') = Ok (kr_key r') /\ key_principal (kr_key r') = key_principal key /\
  ak_PrincipalID key = p_ID p /\ ak_OrgID key = p_OrgID p /\
  ak_Scopes key = match scopes with [] => [ScopeToolsRead; ScopeToolsInvoke] | _ => scopes end.
Proof.
  intros R Len K R' Hr' Id U B. pose proof (reached_lawful _ _ R) as L.
  assert (lawful rows') as L1 by (pose proof (kstep_rows orgs c (KCreate d p name scopes srv days) w L) as [_ L1]; cbn in L1; by rewrite K in L1).
  destruct (kruns_rows _ _ _ R' L1) as [A L2]. cbn [w_rows] in A.
  unfold keys_create, Create in K. cbn [ci_Name ci_Scopes] in K. destruct (String.eqb name ""); [done|].
  set (sc := match scopes with [] => [ScopeToolsRead; ScopeToolsInvoke] | _ => scopes end) in *.
  destruct (List.find _ _); [done|]. unfold tx_rows in K. destruct (insert _ _ _ _ _) as [[rows1 [key1 full1]]|] eqn:Ins; [|done].
  injection K as -> -> ->. apply insert_ok in Ins as (row & -> & _ & M).
  destruct (mt_shown _ _ _ _ _ _ M) as (Sh & _). pose proof (mt_principal _ _ _ _ _ _ M) as Pr. rewrite <- Sh in Pr.
  assert (row_id row = ak_ID key) as Ik by (injection Sh; intros; unfold row_id; congruence).
  assert (aged row r') as G by (apply (same_key_later _ _ _ _ A L1 L2); [apply elem_of_app; right; by apply list_elem_of_singleton|done|congruence]).
  split; [|split; [by rewrite (aged_principal_same _ _ G), Sh|]].
  - apply (resolve_iff _ _ _ _ L2). exists r'. eauto using minted_opens.
  - clear - Pr. apply (f_equal (fun q => (p_ID q, p_OrgID q, p_Scopes q))) in Pr. cbn in Pr. injection Pr as -> -> ->. by destruct scopes.
Qed.

(** A rotation hands a key over.  The replacement belongs to the same
    principal, with the same name, scopes and server.  The old key stops no
    later than the grace asked for, which is at most seven days, and no later
    than it would have; until then it opens what it opened.  No later
    operation moves that moment back. *)
Theorem rotation_hands_over orgs c d p wide id grace w rows' rot : reached orgs w ->
  keys_rotate orgs c d p wide id grace (w_rows w) = (rows', Ok rot) ->
  exists old, old ∈ w_rows w /\ row_id old = id /\ unrevoked old = true /\
    key_principal (rt_Key rot) =
      mkPrincipal (p_Kind (key_principal (kr_key old))) (ak_PrincipalID (kr_key old)) (p_OrgID p) "" (d_id d) "" (ak_ServerID (kr_key old))
        (ak_Scopes (kr_key old)) false "api_key" "" false (mkSignIn 0 "" "" []) /\
    ak_Name (rt_Key rot) = ak_Name (kr_key old) /\
    (c_now c <= rt_PreviousExpiresAt rot <= c_now c + MaxRotationGrace)%Z /\
    no_later (ak_ExpiresAt (kr_key old)) (Some (rt_PreviousExpiresAt rot)) /\
    (forall now presented, (now <= rt_PreviousExpiresAt rot)%Z -> opens now presented old ->
       exists k, resolve now presented rows' = Ok k /\ key_principal k = key_principal (kr_key old)) /\
    (forall w' now presented k, kruns orgs (mkKeysDb rows' (w_last w)) w' -> resolve now presented (w_rows w') = Ok k -> ak_ID k = id ->
       (now <= rt_PreviousExpiresAt rot)%Z).
Proof.
  intros R K. pose proof (reached_lawful _ _ R) as L.
  pose proof (kstep_rows orgs c (KRotate d p wide id grace) w L) as [_ L1]. cbn in L1. rewrite K in L1. cbn [fst] in L1.
  unfold keys_rotate in K. match type of K with Rotate _ _ _ ?inp _ = _ => pose proof (Rotate_cases orgs c d inp (w_rows w)) as H end.
  rewrite K in H. destruct H as (old & row & H).
  pose proof (rotated_aged _ _ _ _ _ _ _ _ _ L H) as F. pose proof (ra_minted _ _ _ _ _ _ _ _ _ H) as M.
  destruct (mt_shown _ _ _ _ _ _ M) as (Sh & _ & _ & Nm & _). pose proof (ra_until _ _ _ _ _ _ _ _ _ H) as Un.
  pose proof (ra_grace _ _ _ _ _ _ _ _ _ H) as G. pose proof (ra_unexpired _ _ _ _ _ _ _ _ _ H) as Ux.
  set (old' := set_expiry (Some (rt_PreviousExpiresAt rot)) old).
  pose proof (rotation_row _ _ _ _ _ _ _ _ _ H) as Hold.
  exists old. split; [apply H|]. split; [apply H|]. split; [apply H|]. split; [by rewrite Sh, (mt_principal _ _ _ _ _ _ M)|].
  split; [by rewrite Nm|]. cbn [ro_Grace] in *. split; [rewrite Un; destruct (ak_ExpiresAt (kr_key old)); cbn [shortened]; lia|].
  split; [rewrite Un; destruct (ak_ExpiresAt (kr_key old)); cbn; [lia|done]|]. split.
  - intros now presented Le [Fo P Ha U T]. exists (kr_key old'). split; [|done]. apply (resolve_iff _ _ _ _ L1). exists old'.
    split; [done|]. split; [done|]. by split.
  - intros w' now presented k R' E Id. destruct (kruns_rows _ _ _ R' L1) as [A L2].
    apply (resolve_iff _ _ _ _ L2) in E as (r' & Hr' & <- & O).
    assert (aged old' r') as Ag.
    { apply (same_key_later _ _ _ _ A L1 L2 Hold Hr'). change (row_id r' = row_id old). by rewrite (ra_id _ _ _ _ _ _ _ _ _ H). }
    apply (aged_opens _ _ _ _ Ag) in O. exact (op_time _ _ _ O).
Qed.

Lemma revoked_never_opens orgs w w' r : reached orgs w -> kruns orgs w w' -> r ∈ w_rows w -> unrevoked r = false ->
  forall now presented k, resolve now presented (w_rows w') = Ok k -> ak_ID k <> row_id r.
Proof.
  intros R R' Hr U now presented k E Id. pose proof (reached_lawful _ _ R) as L. destruct (kruns_rows _ _ _ R' L) as [A L2].
  apply (resolve_iff _ _ _ _ L2) in E as (r' & Hr' & <- & O). pose proof (same_key_later _ _ _ _ A L L2 Hr Hr' Id) as G.
  rewrite (aged_revoked _ _ G (op_live _ _ _ O)) in U. done.
Qed.

Lemma kruns_snoc orgs w w' c o : kruns orgs w w' -> kruns orgs w (kstep orgs c o w').
Proof. induction 1; [by eapply kruns_step, kruns_here|by eapply kruns_step]. Qed.

(** Revoking is final, for a key that is revoked by itself and for the keys
    of a person who is removed: whatever follows, no presented text is let in
    as one of them. *)
Theorem revocation_is_final orgs w c w' now presented k : reached orgs w ->
  (forall p wide id, (keys_revoke c p wide id (w_rows w)).2 = Ok tt -> kruns orgs (kstep orgs c (KRevoke p wide id) w) w' ->
     resolve now presented (w_rows w') = Ok k -> ak_ID k <> id) /\
  (forall org user why r, kruns orgs (kstep orgs c (KEnd org user why) w) w' ->
     r ∈ w_rows w -> ak_OrgID (kr_key r) = org -> ak_PrincipalKind (kr_key r) = "user" -> ak_PrincipalID (kr_key r) = user ->
     resolve now presented (w_rows w') = Ok k -> ak_ID k <> row_id r).
Proof.
  intros R. split.
  - intros p wide id K R' E Id. unfold keys_revoke, Revoke in K. destruct (existsb _ _) eqn:X in K; [|done].
    apply existsb_elem in X as (r & Hr & X). apply andb_true_iff in X as [X U]. apply reachable_key_true in X as X'.
    refine (revoked_never_opens orgs _ _ (set_revoked (c_db c) "revoked by user" r) (kruns_snoc _ _ _ c _ R) R' _ eq_refl _ _ _ E _);
      [|rewrite Id; symmetry; apply X'].
    cbn [kstep w_rows]. unfold keys_revoke, Revoke. rewrite (proj2 (existsb_elem _ _)); [|exists r; split; [done|by rewrite X, U]].
    apply elem_of_update. exists r. split; [done|]. by rewrite X, U.
  - intros org user why r R' Hr Ho Hk Hu E Id.
    destruct (unrevoked r) eqn:U.
    + refine (revoked_never_opens orgs _ _ (set_revoked (c_db c) why r) (kruns_snoc _ _ _ c _ R) R' _ eq_refl _ _ _ E Id).
      apply elem_of_update. exists r. split; [done|]. unfold of_org. by rewrite Ho, Hk, Hu, !String.eqb_refl, U.
    + refine (revoked_never_opens orgs _ _ r (kruns_snoc _ _ _ c _ R) R' _ U _ _ _ E Id).
      apply elem_of_update. exists r. split; [done|]. by rewrite U, andb_false_r.
Qed.

(** On whose behalf an operation runs, and whether over the whole workspace. *)
Definition acts (o : key_op) : option (Principal * bool) :=
  match o with
  | KCreate _ p _ _ _ _ => Some (p, false)
  | KRevoke p wide _ => Some (p, wide)
  | KRotate _ p wide _ _ => Some (p, wide)
  | KPresent _ _ _ | KEnd _ _ _ => None
  end.

Lemma reach_limited p wide id r : p_ID p <> "" -> reachable_key (p_OrgID p) id (selfFilter (negb wide) (p_ID p)) r = true ->
  ak_OrgID (kr_key r) = p_OrgID p /\ (wide = false -> ak_PrincipalID (kr_key r) = p_ID p).
Proof. intros N H. apply reachable_key_true in H as (_ & O & S). split; [done|]. intros ->. cbn in S. tauto. Qed.

(** A caller who may manage only its own keys leaves every other key as it
    was, and no caller touches a key of another workspace. *)
Theorem callers_reach_their_own orgs w c o p wide r : reached orgs w -> acts o = Some (p, wide) -> p_ID p <> "" -> r ∈ w_rows w ->
  ak_OrgID (kr_key r) <> p_OrgID p \/ (wide = false /\ ak_PrincipalID (kr_key r) <> p_ID p) ->
  r ∈ w_rows (kstep orgs c o w).
Proof.
  intros R A N Hr Out. pose proof (reached_lawful _ _ R) as L.
  assert (forall id, reachable_key (p_OrgID p) id (selfFilter (negb wide) (p_ID p)) r = false) as No.
  { intros id. destruct (reachable_key _ _ _ _) eqn:E; [|done]. apply reach_limited in E as [E1 E2]; [|done].
    destruct Out as [O|[W O]]; [by destruct O|by destruct O; apply E2]. }
  destruct o as [d q name scopes srv days| |q wd id|d q wd id grace|]; cbn in A; try done; injection A as <- <-; cbn [kstep w_rows].
  - unfold keys_create, Create. destruct (String.eqb _ _); [done|]. destruct (List.find _ _); [done|]. unfold tx_rows.
    destruct (insert _ _ _ _ _) as [[rows' [key full]]|] eqn:E; [|done]. apply insert_ok in E as (row & -> & _). apply elem_of_app. by left.
  - unfold keys_revoke, Revoke. destruct (existsb _ _); [|done]. apply elem_of_update. exists r. split; [done|]. by rewrite No.
  - unfold keys_rotate. match goal with |- context [Rotate _ _ _ ?inp _] => pose proof (Rotate_cases orgs c d inp (w_rows w)) as H end.
    destruct (Rotate _ _ _ _ _) as [rows' [rot|]]; cbn [fst]; [|by subst]. destruct H as (old & row & H).
    rewrite (ra_rows _ _ _ _ _ _ _ _ _ H). apply elem_of_app. left. apply elem_of_update. exists r. split; [done|].
    destruct (of_org _ r && String.eqb (row_id r) (row_id old)) eqn:E; [|done]. exfalso. apply andb_true_iff in E as [_ E]. apply String.eqb_eq in E.
    rewrite (same_id _ _ _ L Hr (ra_in _ _ _ _ _ _ _ _ _ H) E) in *. pose proof (ra_org _ _ _ _ _ _ _ _ _ H) as Oo.
    pose proof (ra_self _ _ _ _ _ _ _ _ _ H) as Se. cbn in Oo, Se. destruct Out as [O|[W O]]; [done|]. rewrite W in Se. cbn in Se. tauto.
Qed.

(** A key has at most one replacement, so keys and their replacements form
    chains. *)
Theorem one_replacement orgs w x y : reached orgs w -> x ∈ w_rows w -> y ∈ w_rows w ->
  ak_RotatedFrom (kr_key x) <> "" -> ak_RotatedFrom (kr_key x) = ak_RotatedFrom (kr_key y) -> x = y.
Proof.
  intros R Hx Hy N E. pose proof (reached_lawful _ _ R) as L. apply (same_id _ _ _ L Hx Hy). by apply (lw_once _ L).
Qed.

(** ** A workspace with two keys *)

Definition key_day : Z := 24 * Hour.
Definition maker : Principal := mkPrincipal KindUser "u1" "acme" "s" "" "" "" [] true "session" "" false (mkSignIn 0 "" "" []).
Definition draw_a : key_draw := mkDraw (Some "prefix-AAsecret-secret-secret-secret-sec1") "key-a".
Definition draw_b : key_draw := mkDraw (Some "prefix-BBsecret-secret-secret-secret-sec2") "key-b".
Definition noon : clock := mkClock 0 0.
Definition with_key : keys_db := kstep ["acme"] noon (KCreate draw_a maker "ci" [] "" 30) no_keys.
Definition made_key : option (APIKey * string) :=
  match (keys_create ["acme"] noon draw_a maker "ci" [] "" 30 []).2 with Ok x => Some x | Err _ => None end.
Definition the_key : APIKey := match made_key with Some (k, _) => k | None => mkAPIKey "" "" "" "" "" "" [] "" None None None "" 0 end.
Definition the_secret : string := match made_key with Some (_, s) => s | None => "" end.
Definition next_day : clock := mkClock key_day key_day.
Definition rotation : option Rotation :=
  match (keys_rotate ["acme"] next_day draw_b maker false "key-a" (Some 3600%Z) (w_rows with_key)).2 with Ok x => Some x | Err _ => None end.
Definition the_rotation : Rotation := match rotation with Some r => r | None => mkRotation the_key "" 0 end.
Definition with_two : keys_db := kstep ["acme"] next_day (KRotate draw_b maker false "key-a" (Some 3600%Z)) with_key.

Lemma with_key_reached : reached ["acme"] with_key.
Proof. apply kruns_snoc, kruns_here. Qed.

Lemma with_two_reached : reached ["acme"] with_two.
Proof. apply kruns_snoc, with_key_reached. Qed.

Definition the_row : key_row := default (mkKeyRow the_key "" None "" "") (head (w_rows with_key)).

Lemma the_row_in : the_row ∈ w_rows with_key.
Proof. left. Qed.

Lemma the_row_opens : opens key_day the_secret the_row.
Proof. split; try reflexivity; vm_compute; [split; [done|lia]|discriminate]. Qed.

Lemma key_opens_exactly_witness :
  (Authenticate next_day None the_secret ∅ (w_rows with_key)).2 = Ok (key_principal (kr_key the_row)).
Proof.
  apply (key_opens_exactly ["acme"] with_key next_day None the_secret ∅ _ with_key_reached).
  exists the_row. split; [apply the_row_in|]. split; [reflexivity|apply the_row_opens].
Defined.

Lemma keys_never_gain_witness : exists k, resolve key_day the_secret (w_rows with_key) = Ok k /\
  key_principal k = key_principal (set_expiry (Some (key_day + Hour)%Z) the_row).(kr_key).
Proof.
  apply (keys_never_gain ["acme"] with_key with_two key_day the_secret); [apply with_key_reached|apply kruns_snoc, kruns_here| |left].
  apply resolve_iff; [exact (reached_lawful _ _ with_two_reached)|]. eexists. split; [left|]. split; [reflexivity|].
  destruct the_row_opens as [F P H U _]. split; [exact F|exact P|exact H|reflexivity|]. vm_compute. discriminate.
Defined.

Lemma created_key_opens_witness : resolve key_day the_secret (w_rows with_key) = Ok (kr_key the_row) /\
  key_principal (kr_key the_row) = key_principal the_key /\ ak_PrincipalID the_key = "u1" /\ ak_OrgID the_key = "acme" /\
  ak_Scopes the_key = [ScopeToolsRead; ScopeToolsInvoke].
Proof.
  apply (created_key_opens ["acme"] noon draw_a maker "ci" [] "" 30 no_keys (w_rows with_key) the_key the_secret with_key the_row key_day);
    [apply kruns_here|by intros raw [= <-]|reflexivity|apply kruns_here|apply the_row_in|reflexivity|reflexivity|reflexivity].
Defined.

Lemma rotation_hands_over_witness : exists old, old ∈ w_rows with_key /\ row_id old = "key-a" /\
  (key_day <= rt_PreviousExpiresAt the_rotation <= key_day + MaxRotationGrace)%Z.
Proof.
  destruct (rotation_hands_over ["acme"] next_day draw_b maker false "key-a" (Some 3600%Z) with_key (w_rows with_two) the_rotation with_key_reached eq_refl)
    as (old & H1 & H2 & _ & _ & _ & H3 & _). eauto.
Defined.

Lemma revocation_is_final_witness presented now k :
  resolve now presented (w_rows (kstep ["acme"] next_day (KRevoke maker false "key-a") with_key)) = Ok k -> ak_ID k <> "key-a".
Proof.
  destruct (revocation_is_final ["acme"] with_key next_day (kstep ["acme"] next_day (KRevoke maker false "key-a") with_key) now presented k with_key_reached)
    as [H _]. apply (H maker false "key-a"); [reflexivity|apply kruns_here].
Defined.

Definition colleague : Principal := mkPrincipal KindUser "u2" "acme" "s2" "" "" "" [] true "session" "" false (mkSignIn 0 "" "" []).

Lemma callers_reach_their_own_witness : the_row ∈ w_rows (kstep ["acme"] next_day (KRevoke colleague false "key-a") with_key).
Proof.
  apply (callers_reach_their_own ["acme"] with_key next_day (KRevoke colleague false "key-a") colleague false the_row with_key_reached);
    [reflexivity|discriminate|apply the_row_in|right; split; [reflexivity|discriminate]].
Defined.

Definition second_row : key_row := default the_row (w_rows with_two !! 1).

Lemma second_in : second_row ∈ w_rows with_two.
Proof. apply (list_elem_of_lookup_2 _ 1). reflexivity. Qed.

Lemma second_from : ak_RotatedFrom (kr_key second_row) = "key-a".
Proof. reflexivity. Qed.

Lemma one_replacement_witness : forall y, y ∈ w_rows with_two -> ak_RotatedFrom (kr_key y) = "key-a" -> second_row = y.
Proof.
  intros y Hy E. apply (one_replacement ["acme"] with_two second_row y with_two_reached second_in Hy); rewrite second_from; [by intros [=]|done].
Defined.

(** The days asked for are counted in nanoseconds on sixty-four bits: a key
    for 106752 days wraps to a negative duration, which means no expiry. *)
Example too_many_days_never_expire :
  match (keys_create ["acme"] noon draw_a maker "ci" [] "" 106752 []).2 with Ok (k, _) => ak_ExpiresAt k = None | Err _ => False end /\
  match (keys_create ["acme"] noon draw_a maker "ci" [] "" 106751 []).2 with Ok (k, _) => ak_ExpiresAt k = Some (106751 * key_day)%Z | Err _ => False end.
Proof. split; reflexivity. Qed.
