(* ===== verification/Directory.v ===== *)
(** * Directory: organisations, their members, roles and role bindings
    (the tables of migrations 00002 and 00005)

    The rows that Members.v and Roles.v write and the evaluator of Authz.v
    reads: [authz_view] is what its two queries see; and, since removing
    somebody ends what they sign in with, the rows of OAuth.v and ApiKeys.v.
    Inside a workspace's
    transaction row level security shows that workspace's rows, and of the
    roles also the built-in ones. *)
From S2P Require Import Prelude Tables GoStrings OAuth ApiKeys Authz.

Open Scope list_scope.

Record role : Type := mkRole {
  ro_id : string;
  (** null for a built-in role *)
  ro_org : option string;
  ro_name : string;
  ro_description : string;
  ro_system : bool;
  ro_permissions : list string;
  ro_revision : Z;
}.

Record membership : Type := mkMembership { me_org : string; me_user : string; me_deactivated : option Z; me_joined : Z }.

(** A row of [role_bindings]. *)
Record grant : Type := mkGrant {
  g_id : string;
  g_org : string;
  g_kind : string;
  g_principal : string;
  g_role : string;
  g_scope_kind : string;
  g_scope_id : option string;
  g_source : string;
  g_external_ref : option string;
  g_expires : option Z;
  g_created_by : string;
  g_created : Z;
}.

(** A person as the organisation at hand sees them: whether they have a
    password, whether an identity provider knows them, and when they last
    signed in. *)
Record account : Type := mkAccount {
  ac_id : string;
  ac_email : string;
  ac_name : string;
  ac_password : bool;
  ac_linked : bool;
  ac_last_sign_in : option Z;
}.

(** What a binding can name besides a person: a service account, a
    provisioned group, a server, a connector, a tool. *)
Record named : Type := mkNamed { nm_kind : string; nm_org : string; nm_id : string; nm_name : string }.

Record history_row : Type := mkHistory { hi_org : string; hi_id : string; hi_action : string; hi_role : role }.

(** What people present: the sessions and tokens of OAuth.v, the keys of
    ApiKeys.v. *)
Record credentials : Type := mkCredentials { cd_oauth : db; cd_keys : list key_row }.

Definition no_credentials : credentials := mkCredentials (OAuth.mkDB [] [] [] [] []) [].

(** The whole of the SQL function [auth_principal_end], keys included, and
    the refresh tokens it counts. *)
Definition end_credentials (now : Z) (org user reason : string) (c : credentials) : credentials * nat :=
  let '(o, n) := auth_principal_end now org user (cd_oauth c) in
  (mkCredentials o (end_principal (mkClock now now) org user reason (cd_keys c)), n).

Record directory : Type := mkDirectory {
  d_orgs : list string;
  d_roles : list role;
  d_members : list membership;
  d_grants : list grant;
  d_accounts : list account;
  (** organisation and user of the rows of [scim_users] that are there *)
  d_scim : list (string * string);
  d_named : list named;
  d_rules : list rule_row;
  d_credentials : credentials;
  d_history : list history_row;
}.

Definition set_roles (l : list role) (d : directory) : directory :=
  mkDirectory (d_orgs d) l (d_members d) (d_grants d) (d_accounts d) (d_scim d) (d_named d) (d_rules d) (d_credentials d) (d_history d).
Definition set_members (l : list membership) (d : directory) : directory :=
  mkDirectory (d_orgs d) (d_roles d) l (d_grants d) (d_accounts d) (d_scim d) (d_named d) (d_rules d) (d_credentials d) (d_history d).
Definition set_grants (l : list grant) (d : directory) : directory :=
  mkDirectory (d_orgs d) (d_roles d) (d_members d) l (d_accounts d) (d_scim d) (d_named d) (d_rules d) (d_credentials d) (d_history d).
Definition set_rules (l : list rule_row) (d : directory) : directory :=
  mkDirectory (d_orgs d) (d_roles d) (d_members d) (d_grants d) (d_accounts d) (d_scim d) (d_named d) l (d_credentials d) (d_history d).
Definition set_credentials (c : credentials) (d : directory) : directory :=
  mkDirectory (d_orgs d) (d_roles d) (d_members d) (d_grants d) (d_accounts d) (d_scim d) (d_named d) (d_rules d) c (d_history d).
Definition set_history (l : list history_row) (d : directory) : directory :=
  mkDirectory (d_orgs d) (d_roles d) (d_members d) (d_grants d) (d_accounts d) (d_scim d) (d_named d) (d_rules d) (d_credentials d) l.

(** ** What the evaluator reads *)

Definition binding_of (g : grant) : binding_row :=
  mkBindingRow (g_org g) (g_role g) (g_kind g) (g_principal g) (g_scope_kind g) (g_scope_id g) (g_expires g).
Definition role_of (r : role) : role_row := mkRoleRow (ro_id r) (ro_permissions r).
Definition member_of (m : membership) : member_row := mkMemberRow (me_org m) (me_user m) (me_deactivated m).

Definition authz_view (d : directory) : authz_db :=
  mkDB (map binding_of (d_grants d)) (map role_of (d_roles d)) (map member_of (d_members d)) (d_rules d).

(** ** Owners *)

Definition ownerRole : string := "role_owner".

Definition is_active (org user : string) (m : membership) : bool :=
  String.eqb (me_org m) org && String.eqb (me_user m) user && is_null (me_deactivated m).

Definition unexpired (now : Z) (g : grant) : bool := match g_expires g with Some e => (now <? e)%Z | None => true end.

Definition owner_grant (now : Z) (org : string) (g : grant) : bool :=
  String.eqb (g_org g) org && String.eqb (g_role g) ownerRole && String.eqb (g_kind g) "user" && String.eqb (g_scope_kind g) "org" && unexpired now g.

(** [activeOwnersSelect]. *)
Definition active_owners (now : Z) (org : string) (d : directory) : list string :=
  map g_principal (List.filter (fun g => owner_grant now org g && existsb (is_active org (g_principal g)) (d_members d)) (d_grants d)).

Definition has_owner (now : Z) (org : string) (d : directory) : Prop := exists u, u ∈ active_owners now org d.

Lemma active_owners_elem now org d u : u ∈ active_owners now org d <->
  exists g, g ∈ d_grants d /\ g_principal g = u /\ owner_grant now org g = true /\ existsb (is_active org u) (d_members d) = true.
Proof.
  unfold active_owners. rewrite list_elem_of_fmap. split.
  - intros (g & -> & Hg). apply list_elem_of_In, filter_In in Hg as [Hg E]. apply andb_true_iff in E as [E1 E2].
    exists g. by rewrite list_elem_of_In.
  - intros (g & Hg & <- & E1 & E2). exists g. split; [done|]. apply list_elem_of_In, filter_In. by rewrite <- list_elem_of_In, E1, E2.
Qed.

(** An owner stays one while a grant and the membership that make it stay. *)
Lemma active_owners_keep now org d d' u : u ∈ active_owners now org d ->
  (forall g, g ∈ d_grants d -> g_principal g = u -> owner_grant now org g = true -> g ∈ d_grants d') ->
  (existsb (is_active org u) (d_members d) = true -> existsb (is_active org u) (d_members d') = true) ->
  u ∈ active_owners now org d'.
Proof.
  rewrite !active_owners_elem. intros (g & Hg & E & O & M) K1 K2. exists g. auto 10.
Qed.

(** ** Decisions over a directory

    What the evaluator answers when nothing is cached: Invalidation.v and
    AuthzCache.v say how long a cached answer may differ. *)

Definition decides (now : Z) (d : directory) (p : Principal) (perm : Permission) (r : Resource) : bool :=
  match (Evaluate (New false) (Some (authz_view d)) (Some p) perm r now now now).1 with
  | Ok dec => d_Allow dec
  | Err _ => false
  end.

Definition entry_of (now : Z) (d : directory) (p : Principal) : cacheEntry :=
  read_entry (authz_view d) (p_OrgID p) (BindingPrincipal p).1 (BindingPrincipal p).2 now.

Lemma load_fresh d p t : load (New false) (Some (authz_view d)) p t t = (Ok (entry_of t d p), (load (New false) (Some (authz_view d)) p t t).2).
Proof.
  unfold load, load_hit, entry_of. cbn [New e_cache]. rewrite lookup_empty. cbn [mbind option_bind]. unfold load_read.
  by destruct (BindingPrincipal p).
Qed.

Lemma Evaluate_allows_may e db p perm r t dec e' : Evaluate e db (Some p) perm r t t t = (Ok dec, e') -> d_Allow dec = true ->
  exists c e1, load e db p t t = (Ok c, e1) /\ may c t p perm r.
Proof.
  intros E A. assert (dec = mkDecision true "") as ->.
  { revert E A. unfold Evaluate. pose proof (evaluate_guards_spec p perm r) as G.
    destruct (evaluate_guards p perm r); [intros [= -> _]; destruct G; congruence|].
    destruct (load _ _ _ _ _) as [[c|] ?]; intros [= <- _]. apply evaluate_entry_allow. }
  destruct (proj1 (Evaluate_allow_char _ _ _ _ _ _ _ _) (ex_intro _ e' E)) as (pr & c & e1 & [= <-] & L & M). eauto.
Qed.

Lemma decides_may now d p perm r : decides now d p perm r = true <-> may (entry_of now d p) now p perm r.
Proof.
  unfold decides. split.
  - destruct (Evaluate _ _ _ _ _ _ _ _) as [[dec|] e'] eqn:E; [|done]. cbn [fst]. intros A.
    destruct (Evaluate_allows_may _ _ _ _ _ _ _ _ E A) as (c & e1 & L & M). rewrite load_fresh in L. by injection L as <- _.
  - intros M. destruct (proj2 (Evaluate_allow_char (New false) (Some (authz_view d)) (Some p) perm r now now now)) as [e' ->]; [|done].
    eexists p, _, _. split; [done|]. split; [apply load_fresh|done].
Qed.

Lemma eqb_decide (a b : string) : String.eqb a b = bool_decide (a = b).
Proof. destruct (String.eqb_spec a b); symmetry; [by apply bool_decide_eq_true|by apply bool_decide_eq_false]. Qed.

(** The bindings read: the grants of the principal, with their roles. *)
Definition binding_from (g : grant) (r : role) : binding := scan_binding (binding_of g) (role_of r).

Lemma entry_bindings now d p b : b ∈ ce_bindings (entry_of now d p) <->
  exists g r, g ∈ d_grants d /\ r ∈ d_roles d /\ ro_id r = g_role g /\ b = binding_from g r /\ g_org g = p_OrgID p /\
    g_kind g = (BindingPrincipal p).1 /\ g_principal g = (BindingPrincipal p).2 /\
    ((BindingPrincipal p).1 <> "user" \/ existsb (is_active (p_OrgID p) (BindingPrincipal p).2) (d_members d) = true).
Proof.
  unfold entry_of. rewrite read_entry_bindings, query_bindings_elem.
  assert (active_member (authz_view d) (p_OrgID p) (BindingPrincipal p).2 = existsb (is_active (p_OrgID p) (BindingPrincipal p).2) (d_members d)) as ->.
  { unfold active_member, authz_view. cbn. induction (d_members d) as [|m l IH]; [done|]. cbn. rewrite IH. f_equal. unfold is_active.
    rewrite !eqb_decide. f_equal. by destruct (me_deactivated m). }
  cbn [authz_view db_role_bindings db_roles]. split.
  - intros (br & rr & Hb & Hr & -> & E1 & E2 & E3 & E4 & E5). apply list_elem_of_fmap in Hb as (g & -> & Hg), Hr as (r & -> & Hr).
    exists g, r. auto 10.
  - intros (g & r & Hg & Hr & E1 & -> & E2 & E3 & E4 & E5). exists (binding_of g), (role_of r).
    split; [by apply list_elem_of_fmap_2|]. split; [by apply list_elem_of_fmap_2|]. auto 10.
Qed.

(** The rules read: by tool, the roles a rule denies and the roles it lists. *)
Lemma add_rule_elem tool role m t x : x ∈ default ∅ (add_rule tool role m !! t) <-> (t = tool /\ x = role) \/ x ∈ (default ∅ (m !! t) : gset string).
Proof.
  unfold add_rule. destruct (decide (tool = t)) as [->|N].
  - rewrite lookup_insert_eq. cbn. set_solver.
  - rewrite lookup_insert_ne by done. split; [by right|]. intros [[-> _]|H]; [done|done].
Qed.

Lemma foldl_rules_elem rows c tool role :
  (role ∈ (default ∅ (ce_deny (foldl add_rule_row c rows) !! tool) : gset string) <->
     (exists r, r ∈ rows /\ tr_tool_id r = tool /\ tr_role_id r = role /\ tr_effect r = "deny") \/ role ∈ (default ∅ (ce_deny c !! tool) : gset string)) /\
  (role ∈ (default ∅ (ce_allow (foldl add_rule_row c rows) !! tool) : gset string) <->
     (exists r, r ∈ rows /\ tr_tool_id r = tool /\ tr_role_id r = role /\ tr_effect r <> "deny") \/ role ∈ (default ∅ (ce_allow c !! tool) : gset string)).
Proof.
  revert c. induction rows as [|r rows IH]; intros c; cbn [foldl].
  - split; (split; [by right|intros [(r & H & _)|H]; [by apply elem_of_nil in H|done]]).
  - destruct (IH (add_rule_row c r)) as [D A]. rewrite D, A. clear IH D A. unfold add_rule_row. destruct (decide (tr_effect r = "deny")); cbn.
    + split; [rewrite add_rule_elem|]; split.
      * intros [(x & Hx & E)|[[-> ->]|H]]; [left; exists x; split; [by right|done]|left; exists r; split; [left|done]|by right].
      * intros [(x & Hx & E1 & E2 & E3)|H]; [|by right; right]. apply elem_of_cons in Hx as [->|Hx]; [right; left; done|left; eauto].
      * intros [(x & Hx & E)|H]; [left; exists x; split; [by right|done]|by right].
      * intros [(x & Hx & E1 & E2 & E3)|H]; [|by right]. apply elem_of_cons in Hx as [->|Hx]; [done|left; eauto].
    + split; [|rewrite add_rule_elem]; split.
      * intros [(x & Hx & E)|H]; [left; exists x; split; [by right|done]|by right].
      * intros [(x & Hx & E1 & E2 & E3)|H]; [|by right]. apply elem_of_cons in Hx as [->|Hx]; [done|left; eauto].
      * intros [(x & Hx & E)|[[-> ->]|H]]; [left; exists x; split; [by right|done]|left; exists r; split; [left|done]|by right].
      * intros [(x & Hx & E1 & E2 & E3)|H]; [|by right; right]. apply elem_of_cons in Hx as [->|Hx]; [right; left; done|left; eauto].
Qed.

Lemma entry_rules now d p tool role :
  (role ∈ (default ∅ (ce_deny (entry_of now d p) !! tool) : gset string) <->
     exists r, r ∈ d_rules d /\ tr_organization_id r = p_OrgID p /\ tr_tool_id r = tool /\ tr_role_id r = role /\ tr_effect r = "deny") /\
  (role ∈ (default ∅ (ce_allow (entry_of now d p) !! tool) : gset string) <->
     exists r, r ∈ d_rules d /\ tr_organization_id r = p_OrgID p /\ tr_tool_id r = tool /\ tr_role_id r = role /\ tr_effect r <> "deny").
Proof.
  unfold entry_of, read_entry, read_statements, org_rules. cbn [authz_view db_rules].
  destruct (foldl_rules_elem (filter (fun r => tr_organization_id r = p_OrgID p) (d_rules d))
              (mkEntry (query_bindings (authz_view d) (p_OrgID p) (BindingPrincipal p).1 (BindingPrincipal p).2) ∅ ∅ now) tool role) as [D A].
  rewrite D, A. cbn [ce_deny ce_allow]. rewrite !lookup_empty. cbn [default]. split; split.
  - intros [(r & Hr & E)|H]; [|set_solver]. apply list_elem_of_filter in Hr as [O Hr]. eauto 10.
  - intros (r & Hr & O & E). left. exists r. split; [by apply list_elem_of_filter|done].
  - intros [(r & Hr & E)|H]; [|set_solver]. apply list_elem_of_filter in Hr as [O Hr]. eauto 10.
  - intros (r & Hr & O & E). left. exists r. split; [by apply list_elem_of_filter|done].
Qed.

(** A person without an active membership is refused everything. *)
Lemma inactive_refused now d p perm r : (BindingPrincipal p).1 = "user" ->
  existsb (is_active (p_OrgID p) (BindingPrincipal p).2) (d_members d) = false -> decides now d p perm r = false.
Proof.
  intros K M. apply not_true_iff_false. intros D. apply decides_may in D. destruct (may_granted _ _ _ _ _ D) as (b & [Hb _ _] & _).
  apply entry_bindings in Hb as (g & rl & _ & _ & _ & _ & _ & _ & _ & [N|A]); [done|congruence].
Qed.
