(* ===== verification/Members.v ===== *)
(** * Members: the people of an organisation (internal/identity/members.go,
    the role synchronisation of internal/identity/sso/sso.go and saml/signin.go,
    setActive of internal/scim/scim.go, and the function that accepts an invite)

    Listing, activating, removing members and changing their role, under the
    organisation's row lock, so each is one step; and the writers of the same
    rows that take no lock: a sign-in through an identity provider, its
    provisioning, an accepted invite.  Ending a membership ends the person's
    sessions, tokens and keys in the same transaction: what that does to the
    rows of OAuth.v and ApiKeys.v, and to whoever presents them, is here. *)
From S2P Require Import Prelude Tables GoStrings OAuth ApiKeys Authz Directory.

Open Scope list_scope.

Inductive member_error : Type :=
| ErrSelf | ErrLastOwner | ErrScimManaged | ErrNotMember | ErrNoSuchRole | EConstraint (name : string).

Definition MemberActive : string := "active".
Definition MemberDeactivated : string := "deactivated".
Definition SourcePassword : string := "password".
Definition SourceSSO : string := "sso".
Definition SourceSCIM : string := "scim".

Record MemberRole : Type := mkMemberRole {
  rl_RoleID : string;
  rl_RoleName : string;
  rl_BindingID : string;
  rl_Source : string;
  rl_ScopeKind : string;
}.

Record Member : Type := mkMember {
  m_UserID : string;
  m_Email : string;
  m_Name : string;
  m_Status : string;
  m_Source : string;
  m_Roles : list MemberRole;
  m_LastSignInAt : option Z;
  m_JoinedAt : Z;
  m_ScimManaged : bool;
}.

(** ** Reading members *)

(** [ORDER BY b.created_at, b.id]. *)
Definition granted_before (a b : grant) : Prop := (g_created a < g_created b)%Z \/ g_created a = g_created b /\ String.leb (g_id a) (g_id b) = true.

#[export] Instance granted_before_dec : RelDecision granted_before.
Proof. intros a b. unfold granted_before. apply or_dec; [apply Z_lt_dec|apply and_dec; [apply Z.eq_dec|apply bool_eq_dec]]. Defined.

Definition of_user (org user : string) (g : grant) : bool :=
  String.eqb (g_org g) org && String.eqb (g_kind g) "user" && String.eqb (g_principal g) user.

Definition find_role (id : string) (d : directory) : option role := List.find (fun r => String.eqb (ro_id r) id) (d_roles d).

Definition member_roles (now : Z) (org user : string) (d : directory) : list MemberRole :=
  flat_map (fun g => match find_role (g_role g) d with
                     | Some r => [mkMemberRole (g_role g) (ro_name r) (g_id g) (g_source g) (g_scope_kind g)]
                     | None => []
                     end)
    (merge_sort granted_before (List.filter (fun g => of_user org user g && unexpired now g) (d_grants d))).

Definition scim_managed (org user : string) (d : directory) : bool :=
  existsb (fun s => String.eqb s.1 org && String.eqb s.2 user) (d_scim d).

(** [scanMember]: the row, with its status and source worked out. *)
Definition scanMember (now : Z) (org : string) (m : membership) (a : account) (d : directory) : Member :=
  let scim := scim_managed org (me_user m) d in
  mkMember (me_user m) (ac_email a) (ac_name a)
    (if is_null (me_deactivated m) then MemberActive else MemberDeactivated)
    (if scim then SourceSCIM else if ac_linked a || negb (ac_password a) then SourceSSO else SourcePassword)
    (member_roles now org (me_user m) d) (ac_last_sign_in a) (me_joined m) scim.

Definition find_account (id : string) (d : directory) : option account := List.find (fun a => String.eqb (ac_id a) id) (d_accounts d).

(** [ORDER BY m.created_at, u.id]. *)
Definition joined_before (a b : membership) : Prop := (me_joined a < me_joined b)%Z \/ me_joined a = me_joined b /\ String.leb (me_user a) (me_user b) = true.

#[export] Instance joined_before_dec : RelDecision joined_before.
Proof. intros a b. unfold joined_before. apply or_dec; [apply Z_lt_dec|apply and_dec; [apply Z.eq_dec|apply bool_eq_dec]]. Defined.

Definition ListMembers (now : Z) (org : string) (d : directory) : list Member :=
  flat_map (fun m => match find_account (me_user m) d with Some a => [scanMember now org m a d] | None => [] end)
    (merge_sort joined_before (List.filter (fun m => String.eqb (me_org m) org) (d_members d))).

Definition is_member (org user : string) (m : membership) : bool := String.eqb (me_org m) org && String.eqb (me_user m) user.

Definition readMember (now : Z) (org user : string) (d : directory) : result member_error Member :=
  match List.find (is_member org user) (d_members d), find_account user d with
  | Some m, Some a => Ok (scanMember now org m a d)
  | _, _ => Err ErrNotMember
  end.

Definition lockMember (now : Z) (org user : string) (d : directory) : result member_error Member :=
  if existsb (String.eqb org) (d_orgs d) then readMember now org user d else Err ErrNotMember.

(** ** Changing them *)

(** [KeepOwner]: the change, refused when it took the last owner away. *)
Definition KeepOwner (now : Z) (org user : string) (change : directory -> result member_error directory) (d : directory) :
    result member_error directory :=
  let wasOwner := existsb (String.eqb user) (active_owners now org d) in
  match change d with
  | Err e => Err e
  | Ok d' =>
      if negb wasOwner then Ok d'
      else if length (remove_dups (active_owners now org d')) =? 0 then Err ErrLastOwner
      else Ok d'
  end.

Definition set_deactivated (at_ : option Z) (m : membership) : membership := mkMembership (me_org m) (me_user m) at_ (me_joined m).

Definition reasonDeactivated : string := "deactivated by administrator".
Definition reasonRemoved : string := "removed by administrator".

(** With how many live refresh tokens it revoked. *)
Definition revokeEverything (now : Z) (org user reason : string) (d : directory) : directory * nat :=
  let '(c, n) := end_credentials now org user reason (d_credentials d) in (set_credentials c d, n).

(** A transaction: the rows after it, and what it answers. *)
Definition tx_dir {A} (d : directory) (r : result member_error (directory * A)) : directory * result member_error A :=
  match r with Ok (d', a) => (d', Ok a) | Err e => (d, Err e) end.

Definition with_member {A} (now : Z) (org actor user : string) (scim_refused : bool) (d : directory)
    (k : Member -> result member_error (directory * A)) : directory * result member_error A :=
  tx_dir d
    match lockMember now org user d with
    | Err e => Err e
    | Ok m =>
        if String.eqb user actor then Err ErrSelf
        else if scim_refused && m_ScimManaged m then Err ErrScimManaged
        else k m
    end.

Definition SetMemberStatus (now : Z) (org actor user : string) (active : bool) (d : directory) :
    directory * result member_error (Member * Member * nat) :=
  with_member now org actor user true d (fun before =>
    if Bool.eqb (String.eqb (m_Status before) MemberActive) active then Ok (d, (before, before, 0))
    else
      let changed :=
        if active then Ok (set_members (update_where (is_member org user) (set_deactivated None) (d_members d)) d, 0)
        else
          d' ← KeepOwner now org user (fun d => Ok (set_members (update_where (is_member org user) (set_deactivated (Some now)) (d_members d)) d)) d;
          Ok (revokeEverything now org user reasonDeactivated d') in
      '(d', revoked) ← changed;
      after ← readMember now org user d';
      Ok (d', (before, after, revoked))).

(** [grantedSource], [grantedOrgRole]. *)
Definition grantedSource (source : string) : bool := String.eqb source "manual" || String.eqb source "invite".

Definition grantedOrgRole (m : Member) : string :=
  match foldl (fun ids r => if grantedSource (rl_Source r) && String.eqb (rl_ScopeKind r) "org" && negb (existsb (String.eqb (rl_RoleID r)) ids)
                            then ids ++ [rl_RoleID r] else ids) [] (m_Roles m) with
  | [id] => id
  | _ => ""
  end.

(** The roles a workspace's transaction sees. *)
Definition visible_role (org : string) (r : role) : bool := ro_system r || bool_decide (ro_org r = Some org).

Definition see_role (org id : string) (d : directory) : option role :=
  List.find (fun r => String.eqb (ro_id r) id && visible_role org r) (d_roles d).

(** The unique constraint: a null scope is distinct from every other. *)
Definition same_grant (g x : grant) : bool :=
  String.eqb (g_org x) (g_org g) && String.eqb (g_kind x) (g_kind g) && String.eqb (g_principal x) (g_principal g)
  && String.eqb (g_role x) (g_role g) && String.eqb (g_scope_kind x) (g_scope_kind g)
  && match g_scope_id x, g_scope_id g with Some a, Some b => String.eqb a b | _, _ => false end
  && String.eqb (g_source x) (g_source g).

Definition insert_grant (g : grant) (d : directory) : result member_error directory :=
  if existsb (fun x => String.eqb (g_id x) (g_id g)) (d_grants d) then Err (EConstraint "role_bindings_pkey")
  else if existsb (same_grant g) (d_grants d) then Err (EConstraint "role_bindings_organization_id_principal_kind_principal_id_role_id_key")
  else Ok (set_grants (d_grants d ++ [g]) d).

(** What the replacement of a member's role deletes. *)
Definition replaced_grant (org user : string) (g : grant) : bool :=
  of_user org user g && String.eqb (g_scope_kind g) "org" && grantedSource (g_source g).

Definition replace_role (now : Z) (org actor user roleID newID : string) (d : directory) : result member_error directory :=
  insert_grant (mkGrant newID org "user" user roleID "org" None "manual" None None actor now)
    (set_grants (delete_where (replaced_grant org user) (d_grants d)) d).

Definition SetMemberRole (now : Z) (org actor user roleID newID : string) (d : directory) :
    directory * result member_error (Member * Member) :=
  with_member now org actor user false d (fun before =>
    match see_role org roleID d with
    | None => Err ErrNoSuchRole
    | Some _ =>
        if String.eqb (grantedOrgRole before) roleID then Ok (d, (before, before))
        else
          d' ← KeepOwner now org user (replace_role now org actor user roleID newID) d;
          after ← readMember now org user d';
          Ok (d', (before, after))
    end).

Definition RemoveMember (now : Z) (org actor user : string) (d : directory) : directory * result member_error Member :=
  with_member now org actor user true d (fun before =>
    d' ← KeepOwner now org user (fun d =>
      Ok (set_members (delete_where (is_member org user) (d_members d)) (set_grants (delete_where (of_user org user) (d_grants d)) d))) d;
    Ok ((revokeEverything now org user reasonRemoved d').1, before)).

(** ** The writers that take no lock *)

(** [syncRoles] of both providers; [source] is "sso" or "saml", [ids] the
    identifier drawn for each role. *)
Definition group_roles (org : string) (groups : list string) (d : directory) : list string :=
  remove_dups (map g_role (List.filter (fun g => String.eqb (g_org g) org && String.eqb (g_kind g) "idp_group"
                                                 && existsb (String.eqb (g_principal g)) groups) (d_grants d))).

Definition wanted_roles (org : string) (groups : list string) (defaultRole : string) (d : directory) : list string :=
  match group_roles org groups d with
  | [] => if String.eqb defaultRole "" then [] else [defaultRole]
  | want => want
  end.

Definition stale_grant (org user source : string) (want : list string) (g : grant) : bool :=
  of_user org user g && String.eqb (g_source g) source && negb (existsb (String.eqb (g_role g)) want).

(** One [INSERT ... ON CONFLICT DO NOTHING]. *)
Definition sync_insert (now : Z) (org user source provider : string) (ids : string -> string) (d : directory) (roleID : string) :
    result member_error directory :=
  let g := mkGrant (ids roleID) org "user" user roleID "org" None source (Some provider) None "" now in
  if existsb (same_grant g) (d_grants d) then Ok d
  else if negb (existsb (fun r => String.eqb (ro_id r) roleID) (d_roles d)) then Err (EConstraint "role_bindings_role_id_fkey")
  else insert_grant g d.

Fixpoint sync_inserts (now : Z) (org user source provider : string) (ids : string -> string) (want : list string) (d : directory) :
    result member_error directory :=
  match want with
  | [] => Ok d
  | r :: want => d' ← sync_insert now org user source provider ids d r; sync_inserts now org user source provider ids want d'
  end.

Definition syncRoles (now : Z) (org user source provider defaultRole : string) (groups : list string) (ids : string -> string)
    (d : directory) : directory * result member_error unit :=
  let want := wanted_roles org groups defaultRole d in
  tx_dir d
    (d' ← sync_inserts now org user source provider ids want (set_grants (delete_where (stale_grant org user source want) (d_grants d)) d);
     Ok (d', tt)).

(** The first of the two transactions of [setActive]; the second is
    [revokeEverything]. *)
Definition setActive (now : Z) (org user : string) (active : bool) (d : directory) : directory :=
  set_members (update_where (is_member org user) (set_deactivated (if active then None else Some now)) (d_members d)) d.

(** [auth_invite_accept], once the invite is found: the membership, made or
    made active again, and the role the invite carries. *)
Definition accept_invite (now : Z) (org user roleID by_ bindingID : string) (d : directory) : directory :=
  let members := if existsb (is_member org user) (d_members d)
                 then update_where (is_member org user) (set_deactivated None) (d_members d)
                 else d_members d ++ [mkMembership org user None now] in
  match insert_grant (mkGrant bindingID org "user" user roleID "org" None "invite" None None by_ now) (set_members members d) with
  | Ok d' => d'
  | Err _ => set_members members d
  end.

(** ** Owners under these operations *)

(** Nobody but [user] of [org] stops being an owner. *)
Definition owners_spared (now : Z) (org user : string) (d d' : directory) : Prop :=
  forall o u, (o <> org \/ u <> user) -> u ∈ active_owners now o d -> u ∈ active_owners now o d'.

(** Nobody stops being an owner. *)
Definition owners_kept (now : Z) (d d' : directory) : Prop := forall o u, u ∈ active_owners now o d -> u ∈ active_owners now o d'.

Lemma owners_kept_refl now d : owners_kept now d d.
Proof. by intros o u. Qed.

Lemma is_member_false org user o u m : (o <> org \/ u <> user) -> is_active o u m = true -> is_member org user m = false.
Proof.
  unfold is_active, is_member. intros N A. destruct (String.eqb_spec (me_org m) org) as [E1|], (String.eqb_spec (me_user m) user) as [E2|]; try done.
  rewrite E1, E2 in A. apply andb_true_iff in A as [A _]. apply andb_true_iff in A as [A1 A2]. apply String.eqb_eq in A1, A2.
  destruct N as [N|N]; by destruct N.
Qed.

Lemma active_elsewhere org user o u f l : (o <> org \/ u <> user) -> existsb (is_active o u) l = true ->
  existsb (is_active o u) (update_where (is_member org user) f l) = true.
Proof.
  rewrite !existsb_elem. intros N (m & Hm & A). exists m. split; [|done]. apply elem_of_update. exists m. split; [done|].
  by rewrite (is_member_false _ _ _ _ _ N A).
Qed.

Lemma spared_members now org user f d : owners_spared now org user d (set_members (update_where (is_member org user) f (d_members d)) d).
Proof. intros o u N H. eapply active_owners_keep; [done|done|]. by apply active_elsewhere. Qed.

Lemma of_user_owner now org user o u g : (o <> org \/ u <> user) -> g_principal g = u -> owner_grant now o g = true -> of_user org user g = false.
Proof.
  unfold owner_grant, of_user. intros N E O. repeat (apply andb_true_iff in O as [O _]). apply String.eqb_eq in O. rewrite E, O.
  destruct (String.eqb_spec o org) as [->|]; [|done]. destruct (String.eqb_spec u user) as [->|]; [|by rewrite andb_false_r]. by destruct N.
Qed.

(** Deleting only grants of [user] spares the others. *)
Lemma spared_grants now org user p d : (forall g, g ∈ d_grants d -> p g = true -> of_user org user g = true) ->
  owners_spared now org user d (set_grants (delete_where p (d_grants d)) d).
Proof.
  intros P o u N H. eapply active_owners_keep; [done| |done]. intros g Hg E O. apply elem_of_delete. split; [done|].
  destruct (p g) eqn:X; [|done]. apply P in X; [|done]. by rewrite (of_user_owner _ _ _ _ _ _ N E O) in X.
Qed.

Lemma kept_more now l d : owners_kept now d (set_grants (d_grants d ++ l) d).
Proof. intros o u H. eapply active_owners_keep; [done| |done]. intros g Hg _ _. apply elem_of_app. by left. Qed.

Lemma insert_grant_ok g d d' : insert_grant g d = Ok d' -> d' = set_grants (d_grants d ++ [g]) d.
Proof. unfold insert_grant. destruct (existsb _ _); [done|]. destruct (existsb _ _); [done|]. by intros [= <-]. Qed.

Lemma KeepOwner_ok now org user change d d' : KeepOwner now org user change d = Ok d' ->
  change d = Ok d' /\ (user ∈ active_owners now org d -> has_owner now org d').
Proof.
  unfold KeepOwner. destruct (change d) as [x|]; [|done]. destruct (existsb _ _) eqn:W; cbn [negb].
  - destruct (_ =? 0) eqn:Z0; [done|]. intros [= <-]. split; [done|]. intros _. apply Nat.eqb_neq in Z0.
    destruct (remove_dups (active_owners now org x)) as [|u l] eqn:R; [done|]. exists u. apply elem_of_remove_dups. rewrite R. left.
  - intros [= <-]. split; [done|]. intros H. exfalso. rewrite existsb_false_elem in W. specialize (W _ H). by rewrite String.eqb_refl in W.
Qed.

Lemma KeepOwner_keeps now org user change d d' o : KeepOwner now org user change d = Ok d' -> owners_spared now org user d d' ->
  has_owner now o d -> has_owner now o d'.
Proof.
  intros K S [u Hu]. apply KeepOwner_ok in K as [_ K]. destruct (String.eqb_spec o org) as [->|N]; [|exists u; by apply S; [left|]].
  destruct (String.eqb_spec u user) as [->|N]; [by apply K|]. exists u. by apply S; [right|].
Qed.

(** What a change of one member under the lock comes to. *)
Lemma with_member_cases {A} now org actor user scim d (k : Member -> result member_error (directory * A)) d' a :
  with_member now org actor user scim d k = (d', Ok a) ->
  exists m, readMember now org user d = Ok m /\ user <> actor /\ (scim = true -> m_ScimManaged m = false) /\ k m = Ok (d', a).
Proof.
  unfold with_member, tx_dir, lockMember. destruct (existsb _ (d_orgs d)); [|done].
  destruct (readMember now org user d) as [m|]; [|done]. destruct (String.eqb_spec user actor); [done|].
  destruct (scim && m_ScimManaged m) eqn:S; [done|]. destruct (k m) as [[d1 a1]|] eqn:K; [|done]. intros [= -> ->].
  exists m. split; [done|]. split; [done|]. split; [|done]. intros ->. exact S.
Qed.

Lemma with_member_err {A} now org actor user scim d (k : Member -> result member_error (directory * A)) d' e :
  with_member now org actor user scim d k = (d', Err e) -> d' = d.
Proof. unfold with_member, tx_dir. intros E. destruct (match lockMember _ _ _ _ with Ok _ => _ | Err _ => _ end) as [[? ?]|]; congruence. Qed.

(** The three changes, as what they do to the rows when they succeed. *)
Lemma SetMemberStatus_ok now org actor user active d d' x : SetMemberStatus now org actor user active d = (d', Ok x) ->
  d' = d \/
  (active = true /\ d' = set_members (update_where (is_member org user) (set_deactivated None) (d_members d)) d) \/
  (active = false /\ exists d1, KeepOwner now org user (fun d => Ok (set_members (update_where (is_member org user) (set_deactivated (Some now)) (d_members d)) d)) d = Ok d1 /\
     d' = (revokeEverything now org user reasonDeactivated d1).1).
Proof.
  intros E. apply with_member_cases in E as (m & _ & _ & _ & E).
  destruct (Bool.eqb _ active); [left; congruence|]. destruct active; cbn [mbind result_bind] in E.
  - destruct (readMember _ _ _ _); [|done]. injection E as <- _. auto.
  - destruct (KeepOwner _ _ _ _ _) as [d1|] eqn:K; [|done]. cbn [mbind result_bind] in E.
    destruct (revokeEverything now org user reasonDeactivated d1) as [d2 n] eqn:R. cbn [mbind result_bind] in E.
    destruct (readMember now org user d2); [|done]. injection E as <- _. right. right. split; [done|]. exists d1. by rewrite R.
Qed.

Lemma SetMemberRole_ok now org actor user roleID newID d d' x : SetMemberRole now org actor user roleID newID d = (d', Ok x) ->
  (exists m, readMember now org user d = Ok m /\ grantedOrgRole m = roleID /\ d' = d) \/
  (is_Some (see_role org roleID d) /\ KeepOwner now org user (replace_role now org actor user roleID newID) d = Ok d').
Proof.
  intros E. apply with_member_cases in E as (m & R & _ & _ & E). destruct (see_role org roleID d) as [rl|]; [|done].
  destruct (String.eqb_spec (grantedOrgRole m) roleID); [left; exists m; split; [done|]; split; [done|congruence]|].
  destruct (KeepOwner _ _ _ _ _) as [d1|]; [|done]. cbn [mbind result_bind] in E. destruct (readMember now org user d1); [|done]. 
  injection E as <- _. eauto.
Qed.

Lemma RemoveMember_ok now org actor user d d' x : RemoveMember now org actor user d = (d', Ok x) ->
  exists d1, KeepOwner now org user (fun d => Ok (set_members (delete_where (is_member org user) (d_members d))
      (set_grants (delete_where (of_user org user) (d_grants d)) d))) d = Ok d1 /\ d' = (revokeEverything now org user reasonRemoved d1).1.
Proof.
  intros E. apply with_member_cases in E as (m & _ & _ & _ & E). destruct (KeepOwner _ _ _ _ _) as [d1|]; [|done].
  cbn [mbind result_bind] in E. injection E as <- _. eauto.
Qed.

Lemma spared_both now org user p f d : (forall g, g ∈ d_grants d -> p g = true -> of_user org user g = true) ->
  owners_spared now org user d (set_members (delete_where (is_member org user) (d_members d)) (set_grants (delete_where p (d_grants d)) d)) /\
  owners_spared now org user d (set_members (update_where (is_member org user) f (d_members d)) d).
Proof.
  intros P. split; [|apply spared_members]. intros o u N H. apply (spared_grants now org user p d P o u N) in H.
  eapply active_owners_keep; [exact H|done|]. cbn [d_members set_grants set_members]. rewrite !existsb_elem. intros (m & Hm & A).
  exists m. split; [|done]. apply elem_of_delete. split; [done|]. by eapply is_member_false.
Qed.

Lemma replace_role_spared now org actor user roleID newID d d' : replace_role now org actor user roleID newID d = Ok d' -> owners_spared now org user d d'.
Proof.
  unfold replace_role. intros E. apply insert_grant_ok in E as ->. intros o u N H.
  apply (spared_grants now org user (replaced_grant org user) d) in H; [|unfold replaced_grant; intros g _ X; apply andb_true_iff in X as [X _]; by apply andb_true_iff in X as [X _]|done].
  eapply active_owners_keep; [exact H| |done]. intros g Hg _ _. apply elem_of_app. by left.
Qed.

(** The administrators' changes never take the last owner of an organisation. *)
Lemma member_changes_keep_owner now org actor user d o : has_owner now o d ->
  (forall active, has_owner now o (SetMemberStatus now org actor user active d).1) /\
  (forall roleID newID, has_owner now o (SetMemberRole now org actor user roleID newID d).1) /\
  has_owner now o (RemoveMember now org actor user d).1.
Proof.
  intros H. split; [|split].
  - intros active. destruct (SetMemberStatus _ _ _ _ _ _) as [d' [x|e]] eqn:E; cbn [fst]; [|by apply with_member_err in E as ->].
    apply SetMemberStatus_ok in E as [->|[[-> ->]|[-> (d1 & K & ->)]]]; [done| |].
    + destruct H as [u Hu]. exists u. eapply active_owners_keep; [done|done|]. cbn. rewrite !existsb_elem. intros (m & Hm & A).
      destruct (is_member org user m) eqn:I; [|exists m; split; [|done]; apply elem_of_update; exists m; by rewrite I].
      exists (set_deactivated None m). split; [apply elem_of_update; exists m; by rewrite I|]. unfold is_active in *. cbn.
      by apply andb_true_iff in A as [-> _].
    + change (has_owner now o d1). eapply KeepOwner_keeps; [exact K| |done]. apply KeepOwner_ok in K as [K _]. injection K as <-. apply spared_members.
  - intros roleID newID. destruct (SetMemberRole _ _ _ _ _ _ _) as [d' [x|e]] eqn:E; cbn [fst]; [|by apply with_member_err in E as ->].
    apply SetMemberRole_ok in E as [(m & _ & _ & ->)|[_ K]]; [done|]. eapply KeepOwner_keeps; [exact K| |done].
    apply KeepOwner_ok in K as [K _]. by eapply replace_role_spared.
  - destruct (RemoveMember _ _ _ _ _) as [d' [x|e]] eqn:E; cbn [fst]; [|by apply with_member_err in E as ->].
    apply RemoveMember_ok in E as (d1 & K & ->). change (has_owner now o d1). eapply KeepOwner_keeps; [exact K| |done].
    apply KeepOwner_ok in K as [K _]. injection K as <-. by apply (spared_both now org user _ (set_deactivated None)).
Qed.

(** ** Properties *)

(** *** A membership that ends *)

(** A token of a family that one of the person's open sessions granted. *)
Definition granted_here (user : string) (o : db) (t : token_row) : bool :=
  containsString (families_of (map s_ID (List.filter (fun s => String.eqb (s_UserID s) user && is_null (s_Revoked s)) (d_sessions o))) o) (t_Family t).

Definition persons_token (org user : string) (o : db) (t : token_row) : bool :=
  String.eqb (t_OrgID t) org && String.eqb (t_UserID t) user || granted_here user o t.

Definition persons_key (org user : string) (r : key_row) : bool :=
  of_org org r && String.eqb (ak_PrincipalKind (kr_key r)) "user" && String.eqb (ak_PrincipalID (kr_key r)) user.

Lemma revoked_rows now org user reason d :
  (revokeEverything now org user reason d).1 = set_credentials (end_credentials now org user reason (d_credentials d)).1 d.
Proof. unfold revokeEverything. by destruct (end_credentials now org user reason (d_credentials d)). Qed.

(** Nothing the person presents is good any more: no key of theirs in the
    organisation, no refresh token, and no access token of one of their
    sessions, wherever it was issued. *)
Record nothing_presented (org user : string) (before after : credentials) : Prop := mkNothingPresented {
  no_key now presented k : resolve now presented (cd_keys after) = Ok k ->
    ~ (ak_OrgID k = org /\ ak_PrincipalKind k = "user" /\ ak_PrincipalID k = user);
  no_refresh o k t client presented r x : find_token (cd_oauth after) (Sum256 presented) (c_ClientID client) = Some x ->
    persons_token org user (cd_oauth before) x = true ->
    is_ok (refreshOnce o k t client presented r (fun _ d => d) (cd_oauth after)).2 = false;
  no_session public : (forall s, s ∈ d_sessions (cd_oauth after) -> s_PublicID s = public -> s_UserID s = user) ->
    auth_session_ended public (cd_oauth after) = true;
}.

(** Nobody else's row is another, and no table the change is not about. *)
Record others_untouched (org user : string) (d d' : directory) : Prop := mkOthersUntouched {
  same_people : List.filter (fun m => negb (is_member org user m)) (d_members d') = List.filter (fun m => negb (is_member org user m)) (d_members d);
  same_grants : List.filter (fun g => negb (of_user org user g)) (d_grants d') = List.filter (fun g => negb (of_user org user g)) (d_grants d);
  same_keys : List.filter (fun r => negb (persons_key org user r)) (cd_keys (d_credentials d')) =
    List.filter (fun r => negb (persons_key org user r)) (cd_keys (d_credentials d));
  same_sessions : let others := List.filter (fun s => negb (String.eqb (s_UserID s) user)) in
    others (d_sessions (cd_oauth (d_credentials d'))) = others (d_sessions (cd_oauth (d_credentials d)));
  same_tokens : let others := List.filter (fun t => negb (persons_token org user (cd_oauth (d_credentials d)) t)) in
    others (d_tokens (cd_oauth (d_credentials d'))) = others (d_tokens (cd_oauth (d_credentials d)));
  same_rest : d_orgs d' = d_orgs d /\ d_roles d' = d_roles d /\ d_accounts d' = d_accounts d /\ d_scim d' = d_scim d /\
    d_named d' = d_named d /\ d_rules d' = d_rules d /\ d_history d' = d_history d /\
    d_clients (cd_oauth (d_credentials d')) = d_clients (cd_oauth (d_credentials d)) /\
    d_requests (cd_oauth (d_credentials d')) = d_requests (cd_oauth (d_credentials d)) /\
    d_codes (cd_oauth (d_credentials d')) = d_codes (cd_oauth (d_credentials d));
}.

(** The tokens after the end, as one update of those before. *)
Lemma ended_oauth now org user d : let d' := (auth_principal_end now org user d).1 in
  d_sessions d' = update_where (fun s => String.eqb (s_UserID s) user && is_null (s_Revoked s)) (end_session now) (d_sessions d) /\
  d_tokens d' = update_where (of_principal org user) (revoke_token now)
    (update_where (fun t => granted_here user d t && is_null (t_Revoked t)) (revoke_token now) (d_tokens d)) /\
  d_clients d' = d_clients d /\ d_requests d' = d_requests d /\ d_codes d' = d_codes d.
Proof. repeat split. Qed.

Lemma persons_token_revoke org user o now t : persons_token org user o (revoke_token now t) = persons_token org user o t.
Proof. done. Qed.

Lemma ended_tokens now org user d t : t ∈ d_tokens (auth_principal_end now org user d).1 -> persons_token org user d t = true ->
  is_null (t_Revoked t) = false.
Proof.
  destruct (ended_oauth now org user d) as (_ & -> & _). rewrite elem_of_update. intros (x & Hx & ->).
  apply elem_of_update in Hx as (y & _ & ->). unfold of_principal.
  destruct (is_null (t_Revoked y)) eqn:N; [|by rewrite !andb_false_r, N, andb_false_r, N].
  rewrite !andb_true_r. destruct (granted_here user d y) eqn:G; [by rewrite andb_false_r|].
  rewrite N, andb_true_r. destruct (String.eqb (t_OrgID y) org && String.eqb (t_UserID y) user) eqn:P; [done|].
  unfold persons_token. by rewrite P, G.
Qed.

Lemma credentials_end now org user reason c : nothing_presented org user c (end_credentials now org user reason c).1.
Proof.
  unfold end_credentials. destruct (auth_principal_end now org user (cd_oauth c)) as [o n] eqn:E. apply (f_equal fst) in E. cbn [fst] in *. subst o.
  split; cbn [cd_oauth cd_keys].
  - intros t presented k. unfold resolve. destruct (_ || _); [done|]. destruct (auth_api_key _ _) as [r|] eqn:F; [|done].
    destruct (negb _); [done|]. destruct (is_null (ak_RevokedAt (kr_key r))) eqn:N; [|done]. cbn [negb]. destruct (before _ _); [done|].
    intros [= <-] (Eo & Ek & Ep). apply find_elem in F as [F _]. apply elem_of_update in F as (x & _ & ->). revert N Eo Ek Ep.
    destruct (_ && unrevoked x) eqn:M; [done|]. intros N Eo Ek Ep. unfold of_org, unrevoked in M. by rewrite Eo, Ek, Ep, N, !String.eqb_refl in M.
  - intros o k t client presented r x F P. unfold refreshOnce. rewrite F.
    apply find_elem in F as [Hx _]. apply ended_tokens in Hx; [|done]. destruct (negb (is_null (t_Consumed x))); [done|].
    by rewrite Hx.
  - intros public H. unfold auth_session_ended. destruct (List.find _ _) as [s|] eqn:F; [|done]. apply find_elem in F as [Hs E].
    apply String.eqb_eq in E. specialize (H s Hs E). revert H. destruct (ended_oauth now org user (cd_oauth c)) as (Es & _).
    rewrite Es in Hs. apply elem_of_update in Hs as (y & _ & ->).
    destruct (String.eqb_spec (s_UserID y) user); cbn [andb]; [|done]. by destruct (is_null (s_Revoked y)) eqn:N; [|rewrite N].
Qed.

Lemma credentials_of_others now org user reason d0 d : let d' := (revokeEverything now org user reason d).1 in
  d_credentials d = d_credentials d0 ->
  (let others := List.filter (fun r => negb (persons_key org user r)) in others (cd_keys (d_credentials d')) = others (cd_keys (d_credentials d0))) /\
  (let others := List.filter (fun s => negb (String.eqb (s_UserID s) user)) in
    others (d_sessions (cd_oauth (d_credentials d'))) = others (d_sessions (cd_oauth (d_credentials d0)))) /\
  (let others := List.filter (fun t => negb (persons_token org user (cd_oauth (d_credentials d0)) t)) in
    others (d_tokens (cd_oauth (d_credentials d'))) = others (d_tokens (cd_oauth (d_credentials d0)))).
Proof.
  intros d' E. unfold d', revokeEverything, end_credentials. rewrite E. set (o := cd_oauth (d_credentials d0)).
  destruct (ended_oauth now org user o) as (Es & Et & _). destruct (auth_principal_end now org user o) as [o' n]. cbn [fst d_credentials set_credentials cd_oauth cd_keys] in *.
  rewrite Es, Et. split; [|split]; cbn zeta.
  - apply filter_update. intros r M. apply andb_true_iff in M as [M _]. split; unfold persons_key, of_org in *; cbn; by rewrite M.
  - apply filter_update. intros s M. apply andb_true_iff in M as [M _]. cbn. by rewrite M.
  - rewrite !filter_update; [done|..]; intros t M; apply andb_true_iff in M as [M _]; cbn [negb]; rewrite persons_token_revoke; unfold persons_token; rewrite M.
    + by rewrite orb_true_r.
    + done.
Qed.

(** The two changes that end a membership, as the rows before the
    credentials go. *)
Lemma membership_ended now org actor user d d' : (exists x, SetMemberStatus now org actor user false d = (d', Ok x) /\ m_Status x.1.1 = MemberActive) \/
  (exists x, RemoveMember now org actor user d = (d', Ok x)) ->
  exists d1 reason, d' = (revokeEverything now org user reason d1).1 /\
    (d1 = set_members (update_where (is_member org user) (set_deactivated (Some now)) (d_members d)) d \/
     d1 = set_members (delete_where (is_member org user) (d_members d)) (set_grants (delete_where (of_user org user) (d_grants d)) d)).
Proof.
  intros [(x & E & A)|(x & E)].
  - apply with_member_cases in E as (m & _ & _ & _ & E). destruct (String.eqb (m_Status m) MemberActive) eqn:St; cbn [Bool.eqb] in E.
    + destruct (KeepOwner _ _ _ _ _) as [d1|] eqn:K; [|done]. cbn [mbind result_bind] in E. apply KeepOwner_ok in K as [[= <-] _].
      destruct (revokeEverything _ _ _ _ _) as [d2 n] eqn:R. cbn [mbind result_bind] in E. destruct (readMember now org user d2); [|done].
      injection E as <- _. eexists _, _. split; [exact (eq_sym (f_equal fst R))|by left].
    + injection E as _ <-. cbn in A. by rewrite A in St.
  - apply RemoveMember_ok in E as (d1 & K & ->). apply KeepOwner_ok in K as [[= <-] _]. eexists _, _. split; [done|by right].
Qed.

(** C34. Someone who is deactivated or removed is refused everything from
    then on, in whatever way they are signed in, and in the same transaction
    nothing they present is good any more: no API key of theirs, no refresh
    token, no token of one of their sessions.  No other person's membership,
    role binding, session, token or key is touched, and no other table. *)
Theorem ended_member_is_refused now later org actor user d d' : (exists x, SetMemberStatus now org actor user false d = (d', Ok x) /\ m_Status x.1.1 = MemberActive) \/
  (exists x, RemoveMember now org actor user d = (d', Ok x)) ->
  (forall p perm r, p_OrgID p = org -> BindingPrincipal p = ("user", user) -> decides later d' p perm r = false) /\
  nothing_presented org user (d_credentials d) (d_credentials d') /\
  others_untouched org user d d' /\
  user <> actor.
Proof.
  intros H. assert (user <> actor) as N by (destruct H as [(x & E & _)|(x & E)]; by apply with_member_cases in E as (_ & _ & N & _)).
  apply membership_ended in H as (d1 & reason & -> & H). rewrite revoked_rows.
  assert (d_credentials d1 = d_credentials d) as Ec by by destruct H as [->| ->].
  split; [|split; [|split; [|done]]].
  - intros p perm r Ho Hb. apply inactive_refused; rewrite Hb; [done|]. cbn. rewrite Ho. apply existsb_false_elem. intros m Hm. revert Hm.
    unfold is_active. destruct H as [->| ->]; cbn [d_members set_members set_grants set_credentials].
    + intros (m1 & _ & ->)%elem_of_update. destruct (is_member org user m1) eqn:M; [by rewrite !andb_false_r|]. unfold is_member in M. by rewrite M.
    + intros [_ M]%elem_of_delete. unfold is_member in M. by rewrite M.
  - rewrite Ec. exact (credentials_end now org user reason (d_credentials d)).
  - pose proof (credentials_of_others now org user reason d d1 Ec) as (K & S & T). rewrite revoked_rows in K, S, T. split; [..|exact K|exact S|exact T|].
    + destruct H as [->| ->]; cbn [d_members set_members set_grants set_credentials].
      * apply filter_update. intros m M. rewrite M. split; [done|]. unfold is_member in *. cbn. by rewrite M.
      * apply filter_delete. intros m M. by rewrite M.
    + destruct H as [->| ->]; [done|]. cbn [d_grants set_members set_grants set_credentials]. apply filter_delete. intros g M. by rewrite M.
    + destruct (ended_oauth now org user (cd_oauth (d_credentials d))) as (_ & _ & Hc & Hr & Hk). rewrite Ec. unfold end_credentials.
      destruct (auth_principal_end _ _ _ _). cbn in *. destruct H as [->| ->]; auto 20.
Qed.

(** *** The role of a member *)

(** Every grant's role exists: the foreign key. *)
Definition refs_ok (d : directory) : Prop := forall g, g ∈ d_grants d -> is_Some (find_role (g_role g) d).

Lemma org_roles_fold (l : list MemberRole) acc : let out := foldl (fun ids r =>
    if grantedSource (rl_Source r) && String.eqb (rl_ScopeKind r) "org" && negb (existsb (String.eqb (rl_RoleID r)) ids) then ids ++ [rl_RoleID r] else ids) acc l in
  forall id, id ∈ out <-> id ∈ acc \/ exists r, r ∈ l /\ grantedSource (rl_Source r) = true /\ rl_ScopeKind r = "org" /\ rl_RoleID r = id.
Proof.
  revert acc. induction l as [|r l IH]; intros acc out id; unfold out; cbn [foldl].
  - split; [by left|intros [H|(r & H & _)]; [done|by apply elem_of_nil in H]].
  - rewrite IH. clear IH out. split.
    + intros [H|(x & Hx & E)]; [|right; exists x; split; [by right|done]].
      destruct (grantedSource (rl_Source r)) eqn:G; cbn [andb] in H; [|by left]. destruct (String.eqb_spec (rl_ScopeKind r) "org"); cbn [andb] in H; [|by left].
      destruct (existsb _ acc); cbn [negb] in H; [by left|]. apply elem_of_app in H as [H|H%list_elem_of_singleton]; [by left|].
      right. exists r. split; [left|done].
    + intros [H|(x & Hx & G & S & E)]; [left; destruct (_ && _); [apply elem_of_app; by left|done]|].
      apply elem_of_cons in Hx as [->|Hx]; [|right; eauto 10]. left. rewrite G, S. cbn [andb]. rewrite String.eqb_refl. cbn [andb].
      destruct (existsb (String.eqb (rl_RoleID r)) acc) eqn:X; cbn [negb].
      * apply existsb_elem in X as (y & Hy & Ey). apply String.eqb_eq in Ey. congruence.
      * apply elem_of_app. right. apply list_elem_of_singleton. congruence.
Qed.

Lemma granted_org_role_one m id : grantedOrgRole m = id -> id <> "" ->
  (exists r, r ∈ m_Roles m /\ grantedSource (rl_Source r) = true /\ rl_ScopeKind r = "org" /\ rl_RoleID r = id) /\
  (forall r, r ∈ m_Roles m -> grantedSource (rl_Source r) = true -> rl_ScopeKind r = "org" -> rl_RoleID r = id).
Proof.
  unfold grantedOrgRole. pose proof (org_roles_fold (m_Roles m) []) as F. cbv zeta in F. destruct (foldl _ [] (m_Roles m)) as [|x [|y l]]; [congruence| |congruence].
  intros -> N. split.
  - destruct (proj1 (F id) (list_elem_of_here _ _)) as [H|H]; [by apply elem_of_nil in H|done].
  - intros r Hr G S. specialize (F (rl_RoleID r)). destruct F as [_ F]. assert (rl_RoleID r ∈ [id]) as X by (apply F; right; eauto 10).
    by apply list_elem_of_singleton in X.
Qed.

Lemma member_roles_elem now org user d rl : rl ∈ member_roles now org user d <->
  exists g r, g ∈ d_grants d /\ of_user org user g = true /\ unexpired now g = true /\ find_role (g_role g) d = Some r /\
    rl = mkMemberRole (g_role g) (ro_name r) (g_id g) (g_source g) (g_scope_kind g).
Proof.
  unfold member_roles. rewrite list_elem_of_In, in_flat_map. split.
  - intros (g & Hg & H). rewrite <- list_elem_of_In, merge_sort_Permutation, list_elem_of_In, filter_In in Hg. destruct Hg as [Hg E].
    apply andb_true_iff in E as [E1 E2]. destruct (find_role (g_role g) d) as [r|] eqn:F; [|done]. destruct H as [<-|[]].
    exists g, r. by rewrite list_elem_of_In.
  - intros (g & r & Hg & E1 & E2 & F & ->). exists g. rewrite F. split; [|by left].
    rewrite <- list_elem_of_In, merge_sort_Permutation, list_elem_of_In, filter_In, <- list_elem_of_In. by rewrite E1, E2.
Qed.

Lemma readMember_roles now org user d m : readMember now org user d = Ok m -> m_Roles m = member_roles now org user d.
Proof.
  unfold readMember. destruct (List.find _ _) as [me|] eqn:F; [|done]. destruct (find_account _ _); [|done]. intros [= <-].
  apply find_elem in F as [_ F]. apply andb_true_iff in F as [_ F]. apply String.eqb_eq in F. cbn. by rewrite F.
Qed.

(** After a member's role is changed, the one role administrators have given
    them organisation-wide is the new one, a role this workspace may use;
    what identity providers granted, what is limited to a server, connector
    or tool, and everything of anybody else is untouched. *)
Theorem role_change_replaces now org actor user roleID newID d d' x : refs_ok d -> roleID <> "" ->
  SetMemberRole now org actor user roleID newID d = (d', Ok x) ->
  (exists g, g ∈ d_grants d' /\ replaced_grant org user g = true /\ g_role g = roleID) /\
  (forall g, g ∈ d_grants d' -> replaced_grant org user g = true -> unexpired now g = true -> g_role g = roleID) /\
  (forall g, replaced_grant org user g = false -> g ∈ d_grants d' <-> g ∈ d_grants d) /\
  is_Some (see_role org roleID d) /\ user <> actor.
Proof.
  intros Refs N E. pose proof E as E0. apply with_member_cases in E0 as (m0 & _ & Ns & _ & E0).
  assert (is_Some (see_role org roleID d)) as Vis by (destruct (see_role org roleID d); [done|done]).
  apply SetMemberRole_ok in E as [(m & R & G & ->)|[_ K]].
  - apply granted_org_role_one in G as [(r & Hr & Sr & Kr & Ir) All]; [|done]. rewrite (readMember_roles _ _ _ _ _ R) in *.
    split; [|split; [|split; [done|split; done]]].
    + apply member_roles_elem in Hr as (g & rl & Hg & U & _ & _ & ->). cbn in *. exists g. split; [done|]. split; [|done].
      unfold replaced_grant. by rewrite U, Kr, Sr.
    + intros g Hg P U. unfold replaced_grant in P. apply andb_true_iff in P as [P S]. apply andb_true_iff in P as [P Sk]. apply String.eqb_eq in Sk.
      destruct (Refs g Hg) as [rl F]. apply (All (mkMemberRole (g_role g) (ro_name rl) (g_id g) (g_source g) (g_scope_kind g))); [|done|done].
      apply member_roles_elem. exists g, rl. auto.
  - apply KeepOwner_ok in K as [K _]. unfold replace_role in K. apply insert_grant_ok in K as ->. cbn [d_grants set_grants].
    set (g0 := mkGrant _ _ _ _ _ _ _ _ _ _ _ _).
    assert (replaced_grant org user g0 = true) as P0 by (unfold replaced_grant, of_user; cbn; by rewrite !String.eqb_refl).
    split; [|split; [|split; [|split; done]]].
    + exists g0. split; [apply elem_of_app; right; by apply list_elem_of_singleton|done].
    + intros g Hg P _. apply elem_of_app in Hg as [Hg|Hg%list_elem_of_singleton]; [apply elem_of_delete in Hg as [_ Q]; congruence|by subst].
    + intros g P. rewrite elem_of_app, list_elem_of_singleton, elem_of_delete. split; [intros [[H _]| ->]; [done|congruence]|auto].
Qed.

(** *** Signing in through a provider *)

(** Whether a role comes to [user] from a provider: the rows [syncRoles]
    keeps. *)
Definition from_provider (org user source : string) (g : grant) : bool := of_user org user g && String.eqb (g_source g) source.

Lemma sync_insert_ok now org user source provider ids d r d' : sync_insert now org user source provider ids d r = Ok d' ->
  d' = set_grants (d_grants d ++ [mkGrant (ids r) org "user" user r "org" None source (Some provider) None "" now]) d.
Proof.
  unfold sync_insert. destruct (existsb (same_grant _) _) eqn:X.
  - apply existsb_elem in X as (g & _ & X). exfalso. unfold same_grant in X. cbn [g_scope_id] in X. by destruct (g_scope_id g); rewrite !andb_false_r in X.
  - destruct (negb _); [done|]. apply insert_grant_ok.
Qed.

Lemma sync_inserts_ok now org user source provider ids want : forall d d', sync_inserts now org user source provider ids want d = Ok d' ->
  d_grants d' = d_grants d ++ map (fun r => mkGrant (ids r) org "user" user r "org" None source (Some provider) None "" now) want /\
  d_members d' = d_members d.
Proof.
  induction want as [|r want IH]; intros d d'; cbn [sync_inserts]; [intros [= <-]; by rewrite app_nil_r|].
  destruct (sync_insert _ _ _ _ _ _ _ _) as [d1|] eqn:E; [|done]. cbn [mbind result_bind]. intros H. apply sync_insert_ok in E as ->.
  apply IH in H as [H M]. cbn in H. split; [by rewrite H, <- app_assoc|done].
Qed.

(** After a sign-in the roles a person holds from that kind of provider are
    exactly those bound to one of the groups they came with, or the
    provider's default role when there is none; no other binding changes. *)
Theorem sign_in_matches_groups now org user source provider defaultRole groups ids d d' :
  syncRoles now org user source provider defaultRole groups ids d = (d', Ok tt) ->
  (forall r, (exists g, g ∈ d_grants d' /\ from_provider org user source g = true /\ g_role g = r) <-> r ∈ wanted_roles org groups defaultRole d) /\
  (forall g, from_provider org user source g = false -> g ∈ d_grants d' <-> g ∈ d_grants d) /\
  (forall r, r ∈ wanted_roles org groups defaultRole d <->
     (exists g, g ∈ d_grants d /\ g_org g = org /\ g_kind g = "idp_group" /\ g_principal g ∈ groups /\ g_role g = r) \/
     (r = defaultRole /\ r <> "" /\ group_roles org groups d = [])).
Proof.
  unfold syncRoles, tx_dir. set (want := wanted_roles org groups defaultRole d). destruct (sync_inserts _ _ _ _ _ _ _ _) as [d1|] eqn:E; [|done].
  cbn [mbind result_bind]. intros [= <-]. apply sync_inserts_ok in E as [G _]. cbn in G. split; [|split].
  - intros r. rewrite G. split.
    + intros (g & Hg & P & <-). apply elem_of_app in Hg as [Hg|Hg].
      * apply elem_of_delete in Hg as [_ S]. unfold stale_grant in S. unfold from_provider in P. rewrite P in S. cbn in S.
        apply negb_false_iff, existsb_elem in S as (y & Hy & S). apply String.eqb_eq in S. by rewrite S.
      * by apply list_elem_of_fmap in Hg as (r & -> & Hr).
    + intros Hr. eexists. split; [apply elem_of_app; right; apply list_elem_of_fmap; exists r; split; [reflexivity|done]|].
      unfold from_provider, of_user. cbn. by rewrite !String.eqb_refl.
  - intros g P. rewrite G, elem_of_app, elem_of_delete. unfold from_provider in P. split.
    + intros [[H _]|H]; [done|]. apply list_elem_of_fmap in H as (r & -> & _). unfold of_user in P. cbn in P. by rewrite !String.eqb_refl in P.
    + intros H. left. split; [done|]. unfold stale_grant. by rewrite P.
  - intros r. assert (forall r, r ∈ group_roles org groups d <-> exists g, g ∈ d_grants d /\ g_org g = org /\ g_kind g = "idp_group" /\ g_principal g ∈ groups /\ g_role g = r) as Gr.
    { intros r'. unfold group_roles. rewrite elem_of_remove_dups, list_elem_of_fmap. split.
      - intros (g & -> & Hg). apply list_elem_of_In, filter_In in Hg as [Hg F]. apply andb_true_iff in F as [F F3]. apply andb_true_iff in F as [F1 F2].
        apply String.eqb_eq in F1, F2. apply existsb_elem in F3 as (y & Hy & F3). apply String.eqb_eq in F3. exists g. rewrite list_elem_of_In, F3. auto.
      - intros (g & Hg & E1 & E2 & E3 & <-). exists g. split; [done|]. apply list_elem_of_In, filter_In. rewrite <- list_elem_of_In, E1, E2, !String.eqb_refl.
        split; [done|]. apply existsb_elem. exists (g_principal g). by rewrite String.eqb_refl. }
    unfold want, wanted_roles. rewrite <- Gr. destruct (group_roles org groups d) as [|x l] eqn:X.
    + destruct (String.eqb_spec defaultRole ""); rewrite ?list_elem_of_singleton, !elem_of_nil; [split; [done|intros [|(-> & ? & _)]; done]|].
      split; [intros ->; by right|intros [|(? & _)]; done].
    + split; [by left|intros [|(_ & _ & ?)]; done].
Qed.

(** ** An organisation *)

Definition first_owner : grant := mkGrant "b1" "acme" "user" "ann" ownerRole "org" None "manual" None None "ann" 0.
Definition provided_owner : grant := mkGrant "b1" "acme" "user" "ann" ownerRole "org" None "sso" (Some "idp") None "" 0.
Definition team_server : grant := mkGrant "b2" "acme" "idp_group" "team" "role_ops" "server" (Some "s1") "manual" None None "ann" 0.

Definition acme (grants : list grant) : directory :=
  mkDirectory ["acme"] [mkRole ownerRole None "Owner" "" true ["*"] 1; mkRole "role_ops" (Some "acme") "Ops" "" false ["tools:invoke"] 1]
    [mkMembership "acme" "ann" None 0; mkMembership "acme" "bob" None 1] grants
    [mkAccount "ann" "ann@acme" "Ann" true false None; mkAccount "bob" "bob@acme" "Bob" false true None] [] [] [] no_credentials [].

Definition person (user : string) : Principal := mkPrincipal KindUser user "acme" "s" "" "" "" [] true "sso" "" false (mkSignIn 0 "" "" []).

(** [u1], whose key ApiKeys.v makes, with a session and the refresh token it
    granted, and a session and a token of [ann]. *)
Definition staff_token (id user sid : string) : token_row :=
  mkTokenRow id (Sum256 id) ("family of " +:+ id) "client" user "acme" None "" 1000 None None (Some sid) [].

Definition staffed : directory :=
  set_credentials
    (mkCredentials (OAuth.mkDB [] [] [] [staff_token "t1" "u1" "s1"; staff_token "t2" "ann" "s2"]
                      [mkSessionRow "s1" "u1" "acme" "public1" 1000 1000 None; mkSessionRow "s2" "ann" "acme" "public2" 1000 1000 None])
       (w_rows with_key))
    (mkDirectory ["acme"] (d_roles (acme [])) [mkMembership "acme" "ann" None 0; mkMembership "acme" "u1" None 1] [first_owner]
       [mkAccount "ann" "ann@acme" "Ann" true false None; mkAccount "u1" "u1@acme" "U" true false None] [] [] [] no_credentials []).

Lemma ended_member_is_refused_witness : let c := d_credentials staffed in let d' := (RemoveMember 5 "acme" "ann" "u1" staffed).1 in let c' := d_credentials d' in
  decides 9 d' (person "u1") ToolsRead (mkResource "" "" "" "" false) = false /\
  resolve key_day the_secret (cd_keys c) = Ok (kr_key the_row) /\
  (forall k, resolve key_day the_secret (cd_keys c') = Ok k -> ~ (ak_OrgID k = "acme" /\ ak_PrincipalKind k = "user" /\ ak_PrincipalID k = "u1")) /\
  auth_session_ended "public1" (cd_oauth c) = false /\ auth_session_ended "public1" (cd_oauth c') = true /\
  auth_session_ended "public2" (cd_oauth c') = false.
Proof.
  destruct (ended_member_is_refused 5 9 "acme" "ann" "u1" staffed (RemoveMember 5 "acme" "ann" "u1" staffed).1) as (R & N & O & _);
    [right; eexists; reflexivity|]. cbn zeta. split; [by apply R|]. split; [vm_compute; reflexivity|]. split; [exact (no_key _ _ _ _ N key_day the_secret)|].
  split; [reflexivity|]. split; [|reflexivity]. apply (no_session _ _ _ _ N). intros s Hs. vm_compute in Hs.
  apply elem_of_cons in Hs as [->|Hs%list_elem_of_singleton]; [done|subst; discriminate].
Defined.

Lemma role_change_replaces_witness : let d' := (SetMemberRole 5 "acme" "ann" "bob" "role_ops" "b9" (acme [first_owner])).1 in
  exists g, g ∈ d_grants d' /\ replaced_grant "acme" "bob" g = true /\ g_role g = "role_ops".
Proof.
  eapply (role_change_replaces 5 "acme" "ann" "bob" "role_ops" "b9" (acme [first_owner])); [|discriminate|reflexivity].
  intros g Hg. apply list_elem_of_singleton in Hg as ->. by eexists.
Defined.

Lemma sign_in_matches_groups_witness : let d' := (syncRoles 5 "acme" "bob" "sso" "idp" "" ["team"] (fun r => "n-" +:+ r) (acme [first_owner; team_server])).1 in
  exists g, g ∈ d_grants d' /\ from_provider "acme" "bob" "sso" g = true /\ g_role g = "role_ops".
Proof.
  destruct (sign_in_matches_groups 5 "acme" "bob" "sso" "idp" "" ["team"] (fun r => "n-" +:+ r) (acme [first_owner; team_server])
    (syncRoles 5 "acme" "bob" "sso" "idp" "" ["team"] (fun r => "n-" +:+ r) (acme [first_owner; team_server])).1 eq_refl) as (H & _ & _).
  apply H. vm_compute. left.
Defined.

(** A group's role that is limited to one server is the person's everywhere
    once they have signed in: the scope of the group's binding is not read. *)
Example a_groups_scope_is_lost :
  let d := acme [first_owner; team_server] in let d' := (syncRoles 5 "acme" "bob" "sso" "idp" "" ["team"] (fun r => "n-" +:+ r) d).1 in
  let call server := mkResource "" server "" "t1" false in
  decides 9 d (person "bob") ToolsInvoke (call "s2") = false /\ decides 9 d' (person "bob") ToolsInvoke (call "s2") = true.
Proof. split; reflexivity. Qed.

(** A provider's sign-in takes the last owner away: it neither takes the
    organisation's lock nor asks whether an owner is left. *)
Example a_sign_in_takes_the_last_owner :
  let d := acme [provided_owner] in let d' := (syncRoles 5 "acme" "ann" "sso" "idp" "" [] (fun r => "n-" +:+ r) d).1 in
  active_owners 9 "acme" d = ["ann"] /\ active_owners 9 "acme" d' = [] /\
  active_owners 9 "acme" (setActive 5 "acme" "ann" false (acme [first_owner])) = [].
Proof. repeat split. Qed.

(** Every sign-in adds a row for a role the person already holds from the
    provider: the unique constraint tells null scopes apart. *)
Example a_sign_in_repeats_its_rows :
  let d := acme [first_owner; team_server] in
  let once := (syncRoles 5 "acme" "bob" "sso" "idp" "" ["team"] (fun r => "n1-" +:+ r) d).1 in
  let twice := (syncRoles 6 "acme" "bob" "sso" "idp" "" ["team"] (fun r => "n2-" +:+ r) once).1 in
  length (List.filter (from_provider "acme" "bob" "sso") (d_grants once)) = 1 /\
  length (List.filter (from_provider "acme" "bob" "sso") (d_grants twice)) = 2.
Proof. split; reflexivity. Qed.
