(* ===== verification/Roles.v ===== *)
(** * Roles: custom roles and who holds what (internal/httpapi/roles.go)

    Creating, changing and deleting a role, granting and taking away one,
    and the preview of what a set of permissions would allow, as functions
    of the directory; the preview asks the evaluator of Authz.v.  A role's
    history is written in the same transaction: [record] is what the
    history's service answers.  The audit events and the mapping of errors
    to HTTP are not modelled. *)
From S2P Require Import Prelude Tables GoStrings Authz Directory Members.

Open Scope list_scope.

Inductive role_error : Type :=
| errNoSuchRole | errNoSuchBinding | errNoSuchPrincipal | errNoSuchScope | errScopeNeeded | errAlreadyHeld
| errBuiltInRole | errRoleNameNeeded | errRoleAllowsNothing | errRoleHeld | errRoleNameTaken | errNoSuchPermission (l : list string)
| errHistory | errNoOrganization | errMember (e : member_error).

Definition tx_role {A} (d : directory) (r : result role_error (directory * A)) : directory * result role_error A :=
  match r with Ok (d', a) => (d', Ok a) | Err e => (d, Err e) end.

Lemma tx_role_err {A} d (r : result role_error (directory * A)) d' e : tx_role d r = (d', Err e) -> d' = d.
Proof. destruct r as [[? ?]|]; cbn; congruence. Qed.

(** ** The permission set *)

(** The loop of [splitPermissions]; [seen] is what it has met. *)
Fixpoint split_go (l seen known unknown : list string) : list string * list string :=
  match l with
  | [] => (known, unknown)
  | raw :: l =>
      let p := TrimSpace raw in
      if String.eqb p "" || existsb (String.eqb p) seen then split_go l seen known unknown
      else if Valid p then split_go l (seen ++ [p]) (known ++ [p]) unknown
      else split_go l (seen ++ [p]) known (unknown ++ [p])
  end.

Definition splitPermissions (l : list string) : list string * list string :=
  let '(known, unknown) := split_go l [] [] [] in (merge_sort String.le known, unknown).

Record roleWriteBody : Type := mkBody { bo_Name : string; bo_Description : string; bo_Permissions : list string }.

(** Name, description and permissions of a role about to be stored. *)
Record draft : Type := mkDraft { dr_Name : string; dr_Description : string; dr_Permissions : list string }.

Definition cleanRole (b : roleWriteBody) : result role_error draft :=
  let name := TrimSpace (bo_Name b) in
  if String.eqb name "" then Err errRoleNameNeeded
  else
    let '(permissions, unknown) := splitPermissions (bo_Permissions b) in
    match unknown, permissions with
    | _ :: _, _ => Err (errNoSuchPermission unknown)
    | [], [] => Err errRoleAllowsNothing
    | [], _ => Ok (mkDraft name (TrimSpace (bo_Description b)) permissions)
    end.

(** ** Reading *)

(** [count(DISTINCT (b.principal_kind, b.principal_id))], over the
    workspace's bindings. *)
Definition holders (org id : string) (d : directory) : nat :=
  length (remove_dups (map (fun g => (g_kind g, g_principal g)) (List.filter (fun g => String.eqb (g_org g) org && String.eqb (g_role g) id) (d_grants d)))).

Record roleDTO : Type := mkRoleDTO { dt_role : role; dt_Holders : nat }.

Definition readRole (org id : string) (d : directory) : result role_error roleDTO :=
  match see_role org id d with Some r => Ok (mkRoleDTO r (holders org id d)) | None => Err errNoSuchRole end.

(** [ORDER BY r.is_system DESC, r.name]. *)
Definition listed_before (a b : role) : Prop :=
  ro_system a = true /\ ro_system b = false \/ ro_system a = ro_system b /\ String.leb (ro_name a) (ro_name b) = true.

#[export] Instance listed_before_dec : RelDecision listed_before.
Proof. intros a b. unfold listed_before. apply or_dec; apply and_dec; apply bool_eq_dec. Defined.

Definition listRoles (org : string) (d : directory) : list roleDTO :=
  map (fun r => mkRoleDTO r (holders org (ro_id r) d)) (merge_sort listed_before (List.filter (visible_role org) (d_roles d))).

(** ** Writing *)

(** What the history answers: kept, refused because it keeps no roles, or
    failed; [None] when there is no history. *)
Inductive recording : Type := Recorded | KeepsNoRoles | RecordFailed.

Definition recordRole (record : option recording) (org : string) (action : string) (r : role) (d : directory) : result role_error directory :=
  match record with
  | None | Some KeepsNoRoles => Ok d
  | Some Recorded => Ok (set_history (d_history d ++ [mkHistory org (ro_id r) action r]) d)
  | Some RecordFailed => Err errHistory
  end.

(** The unique index on [(COALESCE(organization_id, ''), name)]. *)
Definition name_key (r : role) : string * string := (default "" (ro_org r), ro_name r).

Definition name_taken (r : role) (d : directory) : bool :=
  existsb (fun x => negb (String.eqb (ro_id x) (ro_id r)) && bool_decide (name_key x = name_key r)) (d_roles d).

Definition createRole (record : option recording) (org newID : string) (b : roleWriteBody) (d : directory) : directory * result role_error roleDTO :=
  match cleanRole b with
  | Err e => (d, Err e)
  | Ok f =>
      let r := mkRole newID (Some org) (dr_Name f) (dr_Description f) false (dr_Permissions f) 1 in
      tx_role d
        (if existsb (fun x => String.eqb (ro_id x) newID) (d_roles d) || name_taken r d then Err errRoleNameTaken
         else
           let d1 := set_roles (d_roles d ++ [r]) d in
           out ← readRole org newID d1;
           d2 ← recordRole record org "create" (dt_role out) d1;
           Ok (d2, out))
  end.

Definition rewrite_role (f : draft) (r : role) : role :=
  mkRole (ro_id r) (ro_org r) (dr_Name f) (dr_Description f) (ro_system r) (dr_Permissions f) (ro_revision r + 1).

Definition updateRole (record : option recording) (org id : string) (b : roleWriteBody) (d : directory) : directory * result role_error (roleDTO * roleDTO) :=
  match cleanRole b with
  | Err e => (d, Err e)
  | Ok f =>
      tx_role d
        (before ← readRole org id d;
         if ro_system (dt_role before) then Err errBuiltInRole
         else if name_taken (rewrite_role f (dt_role before)) d then Err errRoleNameTaken
         else
           let d1 := set_roles (update_where (fun r => String.eqb (ro_id r) id && visible_role org r) (rewrite_role f) (d_roles d)) d in
           after ← readRole org id d1;
           d2 ← recordRole record org "update" (dt_role after) d1;
           Ok (d2, (after, before)))
  end.

(** [DELETE FROM roles], with the rows that go with it. *)
Definition drop_role (org id : string) (d : directory) : directory :=
  set_roles (delete_where (fun r => String.eqb (ro_id r) id && visible_role org r) (d_roles d))
    (set_grants (delete_where (fun g => String.eqb (g_role g) id) (d_grants d))
      (set_rules (delete_where (fun r => String.eqb (tr_role_id r) id) (d_rules d)) d)).

Definition deleteRole (record : option recording) (org id : string) (d : directory) : directory * result role_error roleDTO :=
  tx_role d
    (out ← readRole org id d;
     if ro_system (dt_role out) then Err errBuiltInRole
     else if 0 <? dt_Holders out then Err errRoleHeld
     else
       let d1 := drop_role org id d in
       d2 ← recordRole record org "delete" (dt_role out) d1;
       Ok (d2, out)).

(** ** Granting *)

Definition in_named (kind org id : string) (d : directory) : bool :=
  existsb (fun n => String.eqb (nm_kind n) kind && String.eqb (nm_org n) org && String.eqb (nm_id n) id) (d_named d).

Definition principalExists (org kind id : string) (d : directory) : result role_error unit :=
  if (if String.eqb kind "user" then existsb (is_active org id) (d_members d)
      else (String.eqb kind "service_account" || String.eqb kind "idp_group") && in_named kind org id d)
  then Ok tt else Err errNoSuchPrincipal.

Definition checkScope (org kind id : string) (d : directory) : result role_error (option string) :=
  if String.eqb kind "org" then Ok None
  else if String.eqb kind "server" || String.eqb kind "connector" || String.eqb kind "tool" then
    if String.eqb id "" then Err errScopeNeeded
    else if in_named kind org id d then Ok (Some id) else Err errNoSuchScope
  else Err errNoSuchScope.

Definition already_held (org kind principal role scopeKind : string) (scopeID : option string) (g : grant) : bool :=
  String.eqb (g_org g) org && String.eqb (g_kind g) kind && String.eqb (g_principal g) principal && String.eqb (g_role g) role
  && String.eqb (g_scope_kind g) scopeKind && bool_decide (g_scope_id g = scopeID).

Definition createBinding (now : Z) (org actor newID roleID kind principal scopeKind scopeID : string) (d : directory) :
    directory * result role_error grant :=
  let scopeKind := if String.eqb scopeKind "" then "org" else scopeKind in
  tx_role d
    match see_role org roleID d with
    | None => Err errNoSuchRole
    | Some _ =>
        _ ← principalExists org kind principal d;
        scope ← checkScope org scopeKind scopeID d;
        if existsb (already_held org kind principal roleID scopeKind scope) (d_grants d) then Err errAlreadyHeld
        else
          let g := mkGrant newID org kind principal roleID scopeKind scope "manual" None None actor now in
          match insert_grant g d with Ok d' => Ok (d', g) | Err e => Err (errMember e) end
    end.

Definition deleteBinding (now : Z) (org roleID bindingID : string) (d : directory) : directory * result role_error grant :=
  tx_role d
    (if negb (existsb (String.eqb org) (d_orgs d)) then Err errNoOrganization
     else match see_role org roleID d with
     | None => Err errNoSuchRole
     | Some _ =>
         match List.find (fun g => String.eqb (g_org g) org && String.eqb (g_id g) bindingID && String.eqb (g_role g) roleID) (d_grants d) with
         | None => Err errNoSuchBinding
         | Some g =>
             let remove d := Ok (set_grants (delete_where (fun x => String.eqb (g_org x) org && String.eqb (g_id x) bindingID) (d_grants d)) d) in
             match (if negb (String.eqb roleID ownerRole) || negb (String.eqb (g_kind g) "user") then remove d
                    else KeepOwner now org (g_principal g) remove d) with
             | Ok d' => Ok (d', g)
             | Err e => Err (errMember e)
             end
         end
     end).

(** ** The preview *)

(** [permissionCatalogue], its ids in the order of the screen. *)
Definition described_groups : list (string * list Permission) :=
  [("organisation", [OrgRead; OrgUpdate; OrgDelete; OrgMembersManage; OrgSettingsManage; OrgBillingManage]);
   ("connectors", [ConnectorsRead; ConnectorsCreate; ConnectorsUpdate; ConnectorsDelete; ConnectorsAuth; ConnectorsTest]);
   ("tools", [ToolsRead; ToolsUpdate; ToolsInvoke; ToolsInvokeDestr]);
   ("servers", [ServersRead; ServersCreate; ServersUpdate; ServersDelete]);
   ("access", [RolesRead; RolesManage; APIKeysSelf; APIKeysOrg; ServiceAccounts]);
   ("identity", [IdpManage; ScimManage]);
   ("audit", [AuditRead; AuditExport; AuditPolicy]);
   ("governance", [ApprovalsRequest; ApprovalsDecide; DLPManage]);
   ("operations", [RevisionsRollback; SecretsRotate]);
   ("all", [Wildcard])].

Definition permissionCatalogue : list (string * list Permission) :=
  let described := concat (map snd described_groups) in
  let missing := List.filter (fun p => negb (existsb (String.eqb p) described)) All in
  match missing with [] => described_groups | _ => described_groups ++ [("other", missing)] end.

(** [expandPermissions]. *)
Definition expandPermissions (perms : list string) : gset string :=
  foldl (fun s p => {[ p ]} ∪ (if String.eqb p Wildcard then list_to_set All ∪ s else s)) ∅ perms.

Record heldRole : Type := mkHeld { hr_id : string; hr_name : string; hr_perms : gset string }.

Definition named_before (a b : role) : Prop := String.leb (ro_name a) (ro_name b) = true.

#[export] Instance named_before_dec : RelDecision named_before.
Proof. intros a b. apply bool_eq_dec. Defined.

Definition org_wide (now : Z) (org kind id : string) (g : grant) : bool :=
  String.eqb (g_org g) org && String.eqb (g_kind g) kind && String.eqb (g_principal g) id && String.eqb (g_scope_kind g) "org" && unexpired now g.

(** [heldRoles]: one entry for each binding, by the role's name. *)
Definition heldRoles (now : Z) (org kind id except : string) (d : directory) : list heldRole :=
  map (fun r => mkHeld (ro_id r) (ro_name r) (list_to_set (ro_permissions r)))
    (merge_sort named_before
       (flat_map (fun g => if org_wide now org kind id g
                           then List.filter (fun r => String.eqb (ro_id r) (g_role g) && visible_role org r && negb (String.eqb (ro_id r) except)) (d_roles d)
                           else []) (d_grants d))).

Definition holderPrincipal (org kind id : string) : Principal :=
  mkPrincipal (if String.eqb kind "service_account" then KindServiceAccount else KindUser) id org "" "" "" "" [] false "" "" false (mkSignIn 0 "" "" []).

(** What the evaluator says the holder already has when it has nothing of
    theirs cached.  The code asks the evaluator it serves with, whose answer
    may be as old as its cache: how old that is, is AuthzCache.v's. *)
Definition already_has (now : Z) (d : directory) (p : Principal) : gset string :=
  match (EffectivePermissions (New false) (Some (authz_view d)) p now now).1 with
  | Ok l => list_to_set l
  | Err _ => ∅
  end.

Record allowDTO : Type := mkAllow { al_ID : string; al_FromThis : bool; al_FromOther : list string }.

Definition allow_entry (direct already : gset string) (others : list heldRole) (perm : string) : allowDTO :=
  mkAllow perm (bool_decide (perm ∈ direct))
    (map hr_name (List.filter (fun r => (bool_decide (perm ∈ hr_perms r) || bool_decide (Wildcard ∈ hr_perms r)) && bool_decide (perm ∈ already)) others)).

Definition shown (e : allowDTO) : bool := al_FromThis e || negb (bool_decide (al_FromOther e = [])).

Definition preview_allows (direct already : gset string) (others : list heldRole) : list allowDTO :=
  List.filter shown (map (allow_entry direct already others) (concat (map snd permissionCatalogue))).

Record preview : Type := mkPreview { pv_Allows : list allowDTO; pv_OtherRoles : list string; pv_Unknown : list string }.

(** [previewRole], but for what it says of single tools. *)
Definition previewRole (now : Z) (org roleID kind id : string) (perms : list string) (d : directory) : result role_error preview :=
  let '(known, unknown) := splitPermissions perms in
  let direct := expandPermissions known in
  if String.eqb id "" then Ok (mkPreview (preview_allows direct ∅ []) [] unknown)
  else
    _ ← principalExists org kind id d;
    let others := heldRoles now org kind id roleID d in
    Ok (mkPreview (preview_allows direct (already_has now d (holderPrincipal org kind id)) others) (map hr_name others) unknown).

(** *** Single tools *)

Record toolRules : Type := mkToolRules { tl_id : string; tl_name : string; tl_deny : gset string; tl_allow : gset string }.

(** [readToolRules]: the tools the workspace's rules name. *)
Definition tool_rules (org : string) (d : directory) : list toolRules :=
  let mine := List.filter (fun r => String.eqb (tr_organization_id r) org) (d_rules d) in
  flat_map (fun tool => match List.find (fun n => String.eqb (nm_kind n) "tool" && String.eqb (nm_org n) org && String.eqb (nm_id n) tool) (d_named d) with
                        | None => []
                        | Some n =>
                            let here deny := list_to_set (map tr_role_id (List.filter (fun r => String.eqb (tr_tool_id r) tool && Bool.eqb (String.eqb (tr_effect r) "deny") deny) mine)) in
                            [mkToolRules tool (nm_name n) (here true) (here false)]
                        end)
    (remove_dups (map tr_tool_id mine)).

Inductive tool_verdict : Type := Kept | Limited | Listed.

(** What the rules say of the roles at hand; [None] when they do not touch
    them. *)
Definition verdict_of (roles : gset string) (t : toolRules) : option tool_verdict :=
  if bool_decide (roles ∩ tl_deny t = ∅) then
    if bool_decide (roles ∩ tl_allow t = ∅) then if bool_decide (tl_allow t = ∅) then None else Some Limited
    else Some Listed
  else Some Kept.

Record restrictionDTO : Type := mkRestriction { rs_ToolID : string; rs_ToolName : string; rs_Allowed : bool; rs_Detail : tool_verdict }.

Definition by_tool_name (a b : toolRules) : Prop := String.leb (tl_name a) (tl_name b) = true.

#[export] Instance by_tool_name_dec : RelDecision by_tool_name.
Proof. intros a b. apply bool_eq_dec. Defined.

Definition restrictions (now : Z) (org roleID kind id : string) (others : list heldRole) (d : directory) : list restrictionDTO :=
  let roles : gset string := (if String.eqb roleID "" then ∅ else {[ roleID ]}) ∪ list_to_set (map hr_id others) in
  flat_map (fun t => match verdict_of roles t with
                     | None => []
                     | Some v =>
                         [mkRestriction (tl_id t) (tl_name t)
                            (if String.eqb id "" then match v with Listed => true | _ => false end
                             else decides now d (holderPrincipal org kind id) ToolsInvoke (mkResource "" "" "" (tl_id t) false)) v]
                     end)
    (merge_sort by_tool_name (tool_rules org d)).

(** ** The permission set, checked *)

Lemma Valid_elem p : Valid p = true <-> p = Wildcard \/ p ∈ All.
Proof. unfold Valid. rewrite bool_decide_eq_true. unfold known. by rewrite elem_of_union, elem_of_singleton, elem_of_list_to_set. Qed.

(** The catalogue describes every permission once. *)
Lemma catalogue_complete : NoDup (concat (map snd permissionCatalogue)) /\ forall p, p ∈ concat (map snd permissionCatalogue) <-> Valid p = true.
Proof.
  split.
  - apply (bool_decide_unpack _). by vm_compute.
  - intros p. rewrite Valid_elem.
    assert (concat (map snd permissionCatalogue) ≡ₚ Wildcard :: All) as E by (apply (bool_decide_unpack _); by vm_compute).
    rewrite E, elem_of_cons. done.
Qed.

Lemma skip_elem {A} (x p : A) l (K Q : Prop) : (p = x -> ~ Q) -> (K \/ (p ∈ l /\ Q)) <-> (K \/ (p ∈ x :: l /\ Q)).
Proof. rewrite elem_of_cons. intros N. split; [intros [?|[? ?]]; auto|]. intros [?|[[->|?] ?]]; [by left|by destruct N|auto]. Qed.

Lemma take_elem (x p : string) l seen (K : list string) (Q : string -> Prop) : x <> "" -> x ∉ seen -> Q x ->
  (p ∈ K ++ [x] \/ (p ∈ l /\ p <> "" /\ (p ∉ seen ++ [x]) /\ Q p)) <-> (p ∈ K \/ (p ∈ x :: l /\ p <> "" /\ (p ∉ seen) /\ Q p)).
Proof.
  intros N S V. rewrite !elem_of_app, list_elem_of_singleton, elem_of_cons. destruct (decide (p = x)) as [->|Np]; [|tauto].
  split; [intros _; right; auto|intros _; left; auto].
Qed.

Lemma pass_elem (x p : string) l seen (K : list string) (Q : string -> Prop) : ~ Q x ->
  (p ∈ K \/ (p ∈ l /\ p <> "" /\ (p ∉ seen ++ [x]) /\ Q p)) <-> (p ∈ K \/ (p ∈ x :: l /\ p <> "" /\ (p ∉ seen) /\ Q p)).
Proof.
  intros V. rewrite elem_of_app, list_elem_of_singleton, elem_of_cons. destruct (decide (p = x)) as [->|Np]; [|tauto].
  split; intros [?|(_ & _ & _ & ?)]; auto; done.
Qed.

Lemma unseen_elem (p : string) (l : list string) (Q : Prop) : (p ∈ ([] : list string) \/ (p ∈ l /\ p <> "" /\ (p ∉ ([] : list string)) /\ Q)) <-> (p ∈ l /\ p <> "" /\ Q).
Proof. rewrite elem_of_nil. tauto. Qed.

(** Deciding it on an open term is not what the proofs below want. *)
#[local] Opaque Valid.

Lemma split_go_spec l seen known unknown : forall k u, split_go l seen known unknown = (k, u) ->
  (forall p, p ∈ k <-> p ∈ known \/ (p ∈ map TrimSpace l /\ p <> "" /\ (p ∉ seen) /\ Valid p = true)) /\
  (forall p, p ∈ u <-> p ∈ unknown \/ (p ∈ map TrimSpace l /\ p <> "" /\ (p ∉ seen) /\ Valid p = false)).
Proof.
  revert seen known unknown. induction l as [|raw l IH]; intros seen known unknown k u; cbn [split_go map].
  - intros [= -> ->]. split; intros p; (split; [by left|intros [H|(H & _)]; [done|by apply elem_of_nil in H]]).
  - generalize (TrimSpace raw) as x. intros x. destruct (String.eqb_spec x "") as [E|N]; cbn [orb].
    { intros H. apply IH in H as [H1 H2]. rewrite E. split; intros p; [rewrite H1|rewrite H2]; apply skip_elem; tauto. }
    destruct (existsb (String.eqb x) seen) eqn:S.
    { apply existsb_elem in S as (y & Hy & S). apply String.eqb_eq in S. subst y.
      intros H. apply IH in H as [H1 H2]. split; intros p; [rewrite H1|rewrite H2]; apply skip_elem; intros ->; tauto. }
    assert (x ∉ seen) as S'.
    { intros H. rewrite existsb_false_elem in S. specialize (S _ H). by rewrite String.eqb_refl in S. }
    destruct (Valid x) eqn:V; intros H; apply IH in H as [H1 H2]; clear IH; split; intros p; [rewrite H1|rewrite H2|rewrite H1|rewrite H2].
    + exact (take_elem x p _ seen known (fun p => Valid p = true) N S' V).
    + exact (pass_elem x p _ seen unknown (fun p => Valid p = false) (eq_true_false_abs _ V)).
    + exact (pass_elem x p _ seen known (fun p => Valid p = true) (fun T => eq_true_false_abs _ T V)).
    + exact (take_elem x p _ seen unknown (fun p => Valid p = false) N S' V).
Qed.

Lemma splitPermissions_known l known unknown : splitPermissions l = (known, unknown) ->
  (forall p, p ∈ known <-> p ∈ map TrimSpace l /\ p <> "" /\ Valid p = true) /\
  (forall p, p ∈ unknown <-> p ∈ map TrimSpace l /\ p <> "" /\ Valid p = false).
Proof.
  unfold splitPermissions. destruct (split_go l [] [] []) as [k u] eqn:E. intros [= <- <-]. apply split_go_spec in E as [K U]. split; intros p.
  - rewrite merge_sort_Permutation, K. apply unseen_elem.
  - rewrite U. apply unseen_elem.
Qed.

(** ** Deleting a role *)

Definition only_for (org tool id : string) (d : directory) : Prop :=
  (exists r, r ∈ d_rules d /\ tr_organization_id r = org /\ tr_tool_id r = tool /\ tr_effect r <> "deny") /\
  (forall r, r ∈ d_rules d -> tr_organization_id r = org -> tr_tool_id r = tool -> tr_effect r <> "deny" -> tr_role_id r = id).

Lemma holders_none org id d : holders org id d = 0 -> forall g, g ∈ d_grants d -> g_org g = org -> g_role g <> id.
Proof.
  unfold holders. intros H g Hg O R. apply length_zero_iff_nil in H.
  assert ((g_kind g, g_principal g) ∈ remove_dups (map (fun g => (g_kind g, g_principal g)) (List.filter (fun g => String.eqb (g_org g) org && String.eqb (g_role g) id) (d_grants d)))) as X.
  { apply elem_of_remove_dups, list_elem_of_fmap. exists g. split; [done|]. apply list_elem_of_In, filter_In. by rewrite <- list_elem_of_In, O, R, !String.eqb_refl. }
  rewrite H in X. by apply elem_of_nil in X.
Qed.

Lemma deleteRole_ok record org id d d' out : deleteRole record org id d = (d', Ok out) ->
  exists r, see_role org id d = Some r /\ ro_system r = false /\ holders org id d = 0 /\
    d_grants d' = d_grants (drop_role org id d) /\ d_roles d' = d_roles (drop_role org id d) /\ d_members d' = d_members d /\
    d_rules d' = d_rules (drop_role org id d).
Proof.
  unfold deleteRole, tx_role, readRole. destruct (see_role org id d) as [r|] eqn:S; [|done]. cbn [mbind result_bind dt_role dt_Holders].
  destruct (ro_system r) eqn:Sy; [done|]. destruct (Nat.ltb_spec 0 (holders org id d)); [done|].
  unfold recordRole. destruct record as [[| |]|]; cbn [mbind result_bind]; try done; intros [= <- _]; exists r; (split; [done|]); (split; [done|]);
    (split; [lia|]); auto.
Qed.

Lemma dropped_bindings now org id d d' p b : (forall g, g ∈ d_grants d -> g_org g = org -> g_role g <> id) ->
  d_grants d' = d_grants (drop_role org id d) -> d_roles d' = d_roles (drop_role org id d) -> d_members d' = d_members d -> p_OrgID p = org ->
  b ∈ ce_bindings (entry_of now d' p) <-> b ∈ ce_bindings (entry_of now d p).
Proof.
  intros N G R M O. rewrite !entry_bindings. split; intros (g & r & Hg & Hr & E1 & E2 & E3 & E4 & E5 & E6); exists g, r.
  - rewrite G in Hg. rewrite R in Hr. cbn in Hg, Hr. apply elem_of_delete in Hg as [Hg _], Hr as [Hr _]. rewrite M in E6. auto 10.
  - assert (g_role g <> id) as Ng by (apply (N g Hg); congruence). rewrite G, R, M. cbn. rewrite !elem_of_delete.
    assert (String.eqb (g_role g) id = false) as -> by by apply String.eqb_neq.
    assert (String.eqb (ro_id r) id = false) as -> by (rewrite E1; by apply String.eqb_neq). auto 10.
Qed.

Lemma in_force_binding now d p r b : in_force (entry_of now d p) now r b -> b ∈ ce_bindings (entry_of now d p).
Proof. by intros [H _ _]. Qed.

Lemma in_force_ext c c' now r b : (b ∈ ce_bindings c <-> b ∈ ce_bindings c') -> in_force c now r b -> in_force c' now r b.
Proof. intros E [H L R]. split; [by apply E|done|done]. Qed.

Lemma binding_role_kept now org id d p b : (forall g, g ∈ d_grants d -> g_org g = org -> g_role g <> id) -> p_OrgID p = org ->
  b ∈ ce_bindings (entry_of now d p) -> b_roleID b <> id.
Proof.
  intros N O Hb. apply entry_bindings in Hb as (g & r & Hg & _ & _ & -> & Og & _). cbn. apply N; [done|congruence].
Qed.

Section Deleted.
Context (now : Z) (org id : string) (d d' : directory) (p : Principal).
Hypothesis Own : p_OrgID p = org.
Hypothesis Unheld : forall g, g ∈ d_grants d -> g_org g = org -> g_role g <> id.
Hypothesis Same : forall b, b ∈ ce_bindings (entry_of now d' p) <-> b ∈ ce_bindings (entry_of now d p).
Hypothesis Rules : forall x, x ∈ d_rules d' <-> x ∈ d_rules d /\ tr_role_id x <> id.

Lemma same_force r b : in_force (entry_of now d' p) now r b <-> in_force (entry_of now d p) now r b.
Proof using All. split; apply in_force_ext; [apply Same|symmetry; apply Same]. Qed.

Lemma force_role r b : in_force (entry_of now d p) now r b -> b_roleID b <> id.
Proof using All. intros H. by eapply binding_role_kept, in_force_binding. Qed.

Lemma denied_kept tool y : y <> id -> y ∈ (default ∅ (ce_deny (entry_of now d p) !! tool) : gset string) <-> y ∈ (default ∅ (ce_deny (entry_of now d' p) !! tool) : gset string).
Proof using All.
  intros N. rewrite (proj1 (entry_rules now d p tool y)), (proj1 (entry_rules now d' p tool y)).
  split; intros (x & Hx & E); exists x; [rewrite Rules|rewrite Rules in Hx]; naive_solver.
Qed.

Lemma listed_less tool y : y ∈ (default ∅ (ce_allow (entry_of now d' p) !! tool) : gset string) <-> y <> id /\ y ∈ (default ∅ (ce_allow (entry_of now d p) !! tool) : gset string).
Proof using All.
  rewrite (proj2 (entry_rules now d p tool y)), (proj2 (entry_rules now d' p tool y)).
  split; [intros (x & Hx & E); rewrite Rules in Hx|intros [N (x & Hx & E)]; exists x; rewrite Rules]; naive_solver.
Qed.

Lemma nothing_taken perm r : decides now d p perm r = true -> decides now d' p perm r = true.
Proof using All.
  intros H. apply decides_may in H as [H1 H2 H3 H4 (b & Hb & H5) H6 H7 H8]. apply decides_may. split; try done.
  - exists b. by rewrite same_force.
  - intros T b' Hb' X. apply same_force in Hb'. apply (H6 T b' Hb'). apply denied_kept; [by eapply force_role|done].
  - intros I T. destruct (H7 I T) as [E|(b' & Hb' & L)].
    + left. apply leibniz_equiv, elem_of_equiv_empty. intros y Y. apply listed_less in Y as [_ Y]. rewrite E in Y. set_solver.
    + right. exists b'. rewrite same_force. split; [done|]. apply listed_less. split; [by eapply force_role|done].
  - intros X Y. destruct (H8 X Y) as (b' & Hb' & L). exists b'. by rewrite same_force.
Qed.

Lemma listed_only tool : ~ (default ∅ (ce_allow (entry_of now d p) !! tool) : gset string) = ∅ ->
  (default ∅ (ce_allow (entry_of now d' p) !! tool) : gset string) = ∅ -> only_for org tool id d.
Proof using All.
  intros Ne E. apply set_choose_L in Ne as [y Y]. apply entry_rules in Y as (x & Hx & Ox & Tx & _ & Ex). split; [exists x; rewrite <- Own; auto|].
  intros z Hz Oz Tz Ez. destruct (decide (tr_role_id z = id)) as [|Nz]; [done|exfalso].
  assert (tr_role_id z ∈ (default ∅ (ce_allow (entry_of now d' p) !! tool) : gset string)) as Z by (apply entry_rules; exists z; rewrite Rules, Own; auto).
  rewrite E in Z. set_solver.
Qed.

Lemma only_given perm r : decides now d' p perm r = true -> decides now d p perm r = true \/
  ((perm = ToolsInvoke \/ perm = ToolsInvokeDestr) /\ only_for org (r_ToolID r) id d).
Proof using All.
  intros H. apply decides_may in H as [H1 H2 H3 H4 (b & Hb & H5) H6 H7 H8].
  destruct (decide ((perm = ToolsInvoke \/ perm = ToolsInvokeDestr) /\ r_ToolID r <> "" /\ ~ (default ∅ (ce_allow (entry_of now d p) !! r_ToolID r) : gset string) = ∅
                    /\ (default ∅ (ce_allow (entry_of now d' p) !! r_ToolID r) : gset string) = ∅)) as [(I & T & Ne & E)|No].
  { right. split; [done|]. by apply listed_only. }
  left. apply decides_may. split; try done.
  - exists b. by rewrite <- same_force.
  - intros T b' Hb' X. apply denied_kept in X; [|by eapply force_role]. apply same_force in Hb'. by apply (H6 T b' Hb').
  - intros I T. destruct (decide ((default ∅ (ce_allow (entry_of now d p) !! r_ToolID r) : gset string) = ∅)) as [|Ne]; [by left|right].
    destruct (H7 I T) as [E|(b' & Hb' & L)]; [destruct No; auto|]. exists b'. rewrite <- same_force. split; [done|]. apply listed_less in L as [_ L]. exact L.
  - intros X Y. destruct (H8 X Y) as (b' & Hb' & L). exists b'. by rewrite <- same_force.
Qed.
End Deleted.

(** Deleting a role takes nothing from anyone: what the workspace's people and
    accounts may do before, they may do after.  What it gives is access to the
    tools whose rules listed that role and no other: without it no rule limits
    them any more. *)
Theorem deleted_role_takes_nothing record org id d d' out p now perm r : deleteRole record org id d = (d', Ok out) -> p_OrgID p = org ->
  (decides now d p perm r = true -> decides now d' p perm r = true) /\
  (decides now d' p perm r = true -> decides now d p perm r = true \/
     ((perm = ToolsInvoke \/ perm = ToolsInvokeDestr) /\ only_for org (r_ToolID r) id d)).
Proof.
  intros D O. apply deleteRole_ok in D as (rl & _ & _ & Hn & G & R & M & Ru). pose proof (holders_none _ _ _ Hn) as N.
  pose proof (fun b => dropped_bindings now org id d d' p b N G R M O) as B.
  assert (forall x, x ∈ d_rules d' <-> x ∈ d_rules d /\ tr_role_id x <> id) as Rules.
  { intros x. rewrite Ru. cbn. rewrite elem_of_delete. by rewrite String.eqb_neq. }
  split; [by apply (nothing_taken now org id)|by apply only_given].
Qed.

Definition two_roles : directory :=
  mkDirectory ["acme"] [mkRole ownerRole None "Owner" "" true ["*"] 1; mkRole "role_ops" (Some "acme") "Ops" "" false ["tools:invoke"] 1;
      mkRole "role_fin" (Some "acme") "Finance" "" false ["tools:invoke"] 1]
    [mkMembership "acme" "ann" None 0; mkMembership "acme" "bob" None 1]
    [first_owner; mkGrant "b3" "acme" "user" "bob" "role_ops" "org" None "manual" None None "ann" 0] [] [] []
    [mkRuleRow "acme" "payroll" "role_fin" "allow"] no_credentials [].

Definition after_delete : directory := (deleteRole (Some Recorded) "acme" "role_fin" two_roles).1.

Lemma deleted_role_takes_nothing_witness : decides 9 after_delete (person "bob") ToolsInvoke (mkResource "" "" "" "report" false) = true.
Proof.
  destruct (deleted_role_takes_nothing (Some Recorded) "acme" "role_fin" two_roles after_delete
    (mkRoleDTO (mkRole "role_fin" (Some "acme") "Finance" "" false ["tools:invoke"] 1) 0) (person "bob") 9 ToolsInvoke (mkResource "" "" "" "report" false)) as [H _];
    [reflexivity..|]. apply H. reflexivity.
Defined.

(** A tool that rules limit to one role is open to everybody who may run
    tools once that role, held by nobody, is deleted: its rules go with it. *)
Example deleting_a_role_opens_its_tools :
  let payroll := mkResource "" "" "" "payroll" false in
  decides 9 two_roles (person "bob") ToolsInvoke payroll = false /\ decides 9 after_delete (person "bob") ToolsInvoke payroll = true.
Proof. split; reflexivity. Qed.

(** ** Runs of administration

    Every change under the organisation's or the role's row lock, and those
    that only add. *)

Inductive dir_op : Type :=
| DStatus (actor user : string) (active : bool)
| DRole (actor user roleID newID : string)
| DRemove (actor user : string)
| DCreateRole (record : option recording) (newID : string) (b : roleWriteBody)
| DUpdateRole (record : option recording) (id : string) (b : roleWriteBody)
| DDeleteRole (record : option recording) (id : string)
| DGrant (actor newID roleID kind principal scopeKind scopeID : string)
| DUngrant (roleID bindingID : string)
| DJoin (user roleID by_ bindingID : string).

Definition dstep (now : Z) (org : string) (o : dir_op) (d : directory) : directory :=
  match o with
  | DStatus actor user active => (SetMemberStatus now org actor user active d).1
  | DRole actor user roleID newID => (SetMemberRole now org actor user roleID newID d).1
  | DRemove actor user => (RemoveMember now org actor user d).1
  | DCreateRole record newID b => (createRole record org newID b d).1
  | DUpdateRole record id b => (updateRole record org id b d).1
  | DDeleteRole record id => (deleteRole record org id d).1
  | DGrant actor newID roleID kind principal scopeKind scopeID => (createBinding now org actor newID roleID kind principal scopeKind scopeID d).1
  | DUngrant roleID bindingID => (deleteBinding now org roleID bindingID d).1
  | DJoin user roleID by_ bindingID => accept_invite now org user roleID by_ bindingID d
  end.

Definition drun (steps : list (Z * string * dir_op)) (d : directory) : directory := foldl (fun d s => dstep s.1.1 s.1.2 s.2 d) d steps.

(** *** Each operation on a role, as what it does to the rows *)

Lemma recordRole_same record org action r d d' : recordRole record org action r d = Ok d' ->
  d_roles d' = d_roles d /\ d_grants d' = d_grants d /\ d_members d' = d_members d /\ d_rules d' = d_rules d.
Proof. unfold recordRole. destruct record as [[| |]|]; intros [= <-]; done. Qed.

Definition drafted (org newID : string) (f : draft) : role := mkRole newID (Some org) (dr_Name f) (dr_Description f) false (dr_Permissions f) 1.

Lemma createRole_cases record org newID b d : let d' := (createRole record org newID b d).1 in
  d' = d \/ exists f, cleanRole b = Ok f /\ existsb (fun x => String.eqb (ro_id x) newID) (d_roles d) = false /\ name_taken (drafted org newID f) d = false /\
    d_roles d' = d_roles d ++ [drafted org newID f] /\ d_grants d' = d_grants d /\ d_members d' = d_members d.
Proof.
  cbv zeta. unfold createRole. destruct (cleanRole b) as [f|]; [|by left]. fold (drafted org newID f).
  destruct (existsb _ (d_roles d)) eqn:X; [by left|]. destruct (name_taken (drafted org newID f) d) eqn:Nm; [by left|]. cbn [orb].
  destruct (readRole _ _ _) as [out|]; [|by left]. cbn [mbind result_bind]. destruct (recordRole _ _ _ _ _) as [d2|] eqn:R; [|by left].
  right. exists f. apply recordRole_same in R as (R & G & M & _). cbn [mbind result_bind tx_role fst]. by rewrite R, G, M.
Qed.

Lemma updateRole_cases record org id b d : let d' := (updateRole record org id b d).1 in
  d' = d \/ exists f r, cleanRole b = Ok f /\ see_role org id d = Some r /\ ro_system r = false /\ name_taken (rewrite_role f r) d = false /\
    d_roles d' = update_where (fun x => String.eqb (ro_id x) id && visible_role org x) (rewrite_role f) (d_roles d) /\ d_grants d' = d_grants d /\ d_members d' = d_members d.
Proof.
  cbv zeta. unfold updateRole. destruct (cleanRole b) as [f|]; [|by left]. destruct (readRole org id d) as [before|] eqn:B; [|by left].
  cbn [mbind result_bind]. destruct (ro_system (dt_role before)) eqn:Sy; [by left|]. destruct (name_taken _ d) eqn:Nm; [by left|].
  destruct (readRole org id (set_roles _ d)) as [after|]; [|by left]. cbn [mbind result_bind]. destruct (recordRole _ _ _ _ _) as [d2|] eqn:R; [|by left].
  right. unfold readRole in B. destruct (see_role org id d) as [r|]; [|done]. injection B as <-.
  exists f, r. apply recordRole_same in R as (R & G & M & _). cbn [mbind result_bind tx_role fst]. by rewrite R, G, M.
Qed.

Lemma deleteRole_cases record org id d : let d' := (deleteRole record org id d).1 in
  d' = d \/ exists r, see_role org id d = Some r /\ ro_system r = false /\ holders org id d = 0 /\
    d_grants d' = d_grants (drop_role org id d) /\ d_roles d' = d_roles (drop_role org id d) /\ d_members d' = d_members d.
Proof.
  destruct (deleteRole record org id d) as [d' [out|e]] eqn:E.
  - right. apply deleteRole_ok in E as (r & ? & ? & ? & ? & ? & ? & _). eauto 10.
  - left. by apply tx_role_err in E.
Qed.

Lemma createBinding_cases now org actor newID roleID kind principal scopeKind scopeID d :
  match createBinding now org actor newID roleID kind principal scopeKind scopeID d with
  | (d', Ok g) => exists sk scope, g = mkGrant newID org kind principal roleID sk scope "manual" None None actor now /\ sk = (if String.eqb scopeKind "" then "org" else scopeKind) /\
      d' = set_grants (d_grants d ++ [g]) d /\ principalExists org kind principal d = Ok tt /\ checkScope org sk scopeID d = Ok scope /\ is_Some (see_role org roleID d)
  | (d', Err _) => d' = d
  end.
Proof.
  unfold createBinding. set (sk := if String.eqb scopeKind "" then "org" else scopeKind). destruct (see_role org roleID d) as [r|] eqn:S; [|done].
  destruct (principalExists _ _ _ _) as [[]|]; [|done]. cbn [mbind result_bind]. destruct (checkScope _ _ _ _) as [scope|] eqn:C; [|done]. cbn [mbind result_bind].
  destruct (existsb _ _); [done|]. cbn [tx_role]. destruct (insert_grant _ _) as [d'|] eqn:I; [|done]. apply insert_grant_ok in I as ->. cbn [tx_role].
  exists sk, scope. auto 10.
Qed.

Lemma deleteBinding_cases now org roleID bindingID d : let d' := (deleteBinding now org roleID bindingID d).1 in
  let remove d := set_grants (delete_where (fun x => String.eqb (g_org x) org && String.eqb (g_id x) bindingID) (d_grants d)) d in
  d' = d \/ exists g, g ∈ d_grants d /\ g_org g = org /\ g_id g = bindingID /\ g_role g = roleID /\
    (((roleID <> ownerRole \/ g_kind g <> "user") /\ d' = remove d) \/ KeepOwner now org (g_principal g) (fun d => Ok (remove d)) d = Ok d').
Proof.
  cbv zeta. unfold deleteBinding. destruct (negb _); [by left|]. destruct (see_role _ _ _); [|by left]. destruct (List.find _ _) as [g|] eqn:F; [|by left].
  apply find_elem in F as [Hg F]. apply andb_true_iff in F as [F F3]. apply andb_true_iff in F as [F1 F2]. apply String.eqb_eq in F1, F2, F3.
  destruct (negb (String.eqb roleID ownerRole) || negb (String.eqb (g_kind g) "user")) eqn:W.
  - right. exists g. split; [done|]. split; [done|]. split; [done|]. split; [done|]. left. split; [|done].
    apply orb_true_iff in W as [W|W]; apply negb_true_iff, String.eqb_neq in W; auto.
  - destruct (KeepOwner _ _ _ _ _) as [d1|] eqn:K; [|by left]. right. exists g. auto 10.
Qed.

(** *** An owner remains *)

Definition lasting (d : directory) : Prop := forall g, g ∈ d_grants d -> g_expires g = None.

Definition owner_built_in (d : directory) : Prop :=
  (exists r, r ∈ d_roles d /\ ro_id r = ownerRole) /\ (forall r, r ∈ d_roles d -> ro_id r = ownerRole -> ro_system r = true).

Lemma see_role_some org id d r : see_role org id d = Some r -> r ∈ d_roles d /\ ro_id r = id /\ visible_role org r = true.
Proof. intros F. apply find_elem in F as [Hr F]. apply andb_true_iff in F as [F V]. apply String.eqb_eq in F. auto. Qed.

Lemma same_rows_owner now o d d' : d_grants d' = d_grants d -> d_members d' = d_members d -> has_owner now o d -> has_owner now o d'.
Proof. intros G M [u H]. exists u. unfold active_owners in *. by rewrite G, M. Qed.

Record sound (d : directory) : Prop := mkSound {
  so_ids : NoDup (map g_id (d_grants d));
  so_lasting : lasting d;
  so_owner : owner_built_in d;
}.

Lemma has_owner_lasting now now' o d : lasting d -> has_owner now o d -> has_owner now' o d.
Proof.
  intros L [u H]. exists u. apply active_owners_elem in H as (g & Hg & E & O & M). apply active_owners_elem. exists g. split; [done|]. split; [done|]. split; [|done].
  unfold owner_grant, unexpired in *. by rewrite (L g Hg) in *.
Qed.

Lemma map_sublist {A B} (f : A -> B) l k : sublist l k -> sublist (map f l) (map f k).
Proof. induction 1; cbn; by constructor. Qed.

Lemma sublist_deleted {A} (p : A -> bool) l : sublist (delete_where p l) l.
Proof. unfold delete_where. induction l as [|x l IH]; cbn; [constructor|]. destruct (negb (p x)); by constructor. Qed.

Lemma sound_grants l d : sound d -> sublist l (d_grants d) -> sound (set_grants l d).
Proof.
  intros [I L O] S. split; [|intros g Hg; apply L; by eapply elem_of_sublist|done]. eapply sublist_NoDup; [exact I|]. by apply map_sublist.
Qed.

Lemma sound_added g d d' : sound d -> g_expires g = None -> insert_grant g d = Ok d' -> sound d'.
Proof.
  intros [I L O] N E. pose proof E as E'. apply insert_grant_ok in E as ->. unfold insert_grant in E'. destruct (existsb _ _) eqn:X in E'; [done|].
  rewrite existsb_false_elem in X. split; [| |done].
  - cbn. rewrite map_app. apply NoDup_app. split; [done|]. split; [|apply NoDup_singleton]. intros i Hi H. apply list_elem_of_singleton in H as ->.
    apply list_elem_of_fmap in Hi as (x & Ex & Hx). specialize (X x Hx). cbn in Ex. by rewrite Ex, String.eqb_refl in X.
  - intros x Hx. apply elem_of_app in Hx as [Hx|Hx%list_elem_of_singleton]; [by apply L|by subst].
Qed.

Lemma sound_ext d d' : d_grants d' = d_grants d -> d_roles d' = d_roles d -> sound d -> sound d'.
Proof. intros G R [I L O]. split; [by rewrite G|intros g; rewrite G; apply L|]. unfold owner_built_in in *. by rewrite R. Qed.

Lemma owner_built_in_update p f d : (forall r, ro_id (f r) = ro_id r /\ ro_system (f r) = ro_system r) -> owner_built_in d ->
  owner_built_in (set_roles (update_where p f (d_roles d)) d).
Proof.
  intros F [(r & Hr & E) S]. split; cbn.
  - exists (if p r then f r else r). split; [apply elem_of_update; by exists r|]. destruct (p r); [by rewrite (proj1 (F r))|done].
  - intros x Hx Ex. apply elem_of_update in Hx as (y & Hy & ->). destruct (p y); [rewrite (proj2 (F y)); apply S; [done|by rewrite <- (proj1 (F y))]|by apply S].
Qed.

(** *** Each operation keeps what is sound, and an owner *)

Lemma sound_members now org o d : sound d -> match o with
  | DStatus _ _ _ | DRole _ _ _ _ | DRemove _ _ | DJoin _ _ _ _ => sound (dstep now org o d)
  | _ => True
  end.
Proof.
  intros Sd. destruct o as [actor user active|actor user roleID newID|actor user| | | | | |user roleID by_ bid]; try done; cbn [dstep].
  - destruct (SetMemberStatus _ _ _ _ _ _) as [d' [x|e]] eqn:E; cbn [fst]; [|by apply with_member_err in E as ->].
    apply SetMemberStatus_ok in E as [->|[[_ ->]|[_ (d1 & K & ->)]]]; [done|by eapply sound_ext; [..|exact Sd]|].
    apply KeepOwner_ok in K as [[= <-] _]. by eapply sound_ext; [..|exact Sd].
  - destruct (SetMemberRole _ _ _ _ _ _ _) as [d' [x|e]] eqn:E; cbn [fst]; [|by apply with_member_err in E as ->].
    apply SetMemberRole_ok in E as [(m & _ & _ & ->)|[_ K]]; [done|]. apply KeepOwner_ok in K as [K _]. unfold replace_role in K.
    refine (sound_added _ _ _ _ _ K); [|done]. apply sound_grants; [done|]. apply sublist_deleted.
  - destruct (RemoveMember _ _ _ _ _) as [d' [x|e]] eqn:E; cbn [fst]; [|by apply with_member_err in E as ->].
    apply RemoveMember_ok in E as (d1 & K & ->). apply KeepOwner_ok in K as [[= <-] _].
    eapply sound_ext; [..|apply (sound_grants (delete_where (of_user org user) (d_grants d)) d Sd), sublist_deleted]; done.
  - unfold accept_invite. destruct (insert_grant _ _) as [d'|] eqn:E; [|by eapply sound_ext; [..|exact Sd]].
    refine (sound_added _ _ _ _ _ E); [|done]. by eapply sound_ext; [..|exact Sd].
Qed.

Lemma sound_bindings now org o d : sound d -> match o with
  | DGrant _ _ _ _ _ _ _ | DUngrant _ _ => sound (dstep now org o d)
  | _ => True
  end.
Proof.
  intros Sd. destruct o as [| | | | | |actor newID roleID kind principal sk si|roleID bid|]; try done; cbn [dstep].
  - unfold createBinding. set (sk' := if String.eqb sk "" then "org" else sk). destruct (see_role _ _ _); [|done]. destruct (principalExists _ _ _ _); [|done].
    cbn [mbind result_bind]. destruct (checkScope _ _ _ _); [|done]. cbn [mbind result_bind]. destruct (existsb _ _); [done|].
    destruct (insert_grant _ _) as [d'|] eqn:E; [|done]. cbn. refine (sound_added _ _ _ Sd _ E). done.
  - destruct (deleteBinding_cases now org roleID bid d) as [->|(g & _ & _ & _ & _ & [[_ ->]|K])]; [done|apply sound_grants; [done|apply sublist_deleted]|].
    apply KeepOwner_ok in K as [K _]. injection K as <-. apply sound_grants; [done|apply sublist_deleted].
Qed.

Lemma sound_roles now org o d : sound d -> match o with
  | DCreateRole _ _ _ | DUpdateRole _ _ _ | DDeleteRole _ _ => sound (dstep now org o d)
  | _ => True
  end.
Proof.
  intros Sd. destruct o as [| | |record newID b|record id b|record id| | |]; try done; cbn [dstep].
  - destruct (createRole_cases record org newID b d) as [->|(f & _ & X & _ & R & G & _)]; [done|]. destruct Sd as [I L [(r & Hr & E) S]].
    split; [by rewrite G|intros g; rewrite G; apply L|]. unfold owner_built_in. rewrite R. split; [exists r; split; [apply elem_of_app; by left|done]|].
    intros x Hx Ex. apply elem_of_app in Hx as [Hx|Hx%list_elem_of_singleton]; [by apply S|]. subst x. cbn in Ex. exfalso.
    rewrite existsb_false_elem in X. specialize (X r Hr). by rewrite E, Ex, String.eqb_refl in X.
  - destruct (updateRole_cases record org id b d) as [->|(f & r & _ & _ & _ & _ & R & G & _)]; [done|]. destruct Sd as [I L O].
    split; [by rewrite G|intros g; rewrite G; apply L|].
    pose proof (owner_built_in_update (fun x => String.eqb (ro_id x) id && visible_role org x) (rewrite_role f) d (fun r => conj eq_refl eq_refl) O) as O'.
    unfold owner_built_in in *. by rewrite R.
  - destruct (deleteRole_cases record org id d) as [->|(r & S & Sy & _ & G & R & _)]; [done|].
    assert (sound (set_grants (delete_where (fun g => String.eqb (g_role g) id) (d_grants d)) d)) as [I L _] by (apply sound_grants; [done|apply sublist_deleted]).
    destruct Sd as [_ _ [(x & Hx & Ex) Sys]]. split; [by rewrite G|intros g; rewrite G; apply L|]. apply see_role_some in S as (Hr & Ir & _).
    unfold owner_built_in. rewrite R. cbn. split.
    + exists x. split; [|done]. apply elem_of_delete. split; [done|]. destruct (String.eqb_spec (ro_id x) id) as [E|]; [|done]. exfalso.
      rewrite (Sys r Hr) in Sy; [done|congruence].
    + intros y Hy. apply elem_of_delete in Hy as [Hy _]. by apply Sys.
Qed.

Lemma dstep_sound now org o d : sound d -> sound (dstep now org o d).
Proof.
  intros Sd. destruct o; [apply (sound_members now org (DStatus _ _ _) d Sd)|apply (sound_members now org (DRole _ _ _ _) d Sd)|apply (sound_members now org (DRemove _ _) d Sd)
    |apply (sound_roles now org (DCreateRole _ _ _) d Sd)|apply (sound_roles now org (DUpdateRole _ _ _) d Sd)|apply (sound_roles now org (DDeleteRole _ _) d Sd)
    |apply (sound_bindings now org (DGrant _ _ _ _ _ _ _) d Sd)|apply (sound_bindings now org (DUngrant _ _) d Sd)|apply (sound_members now org (DJoin _ _ _ _) d Sd)].
Qed.

Lemma dropped_owner now o org id d r : owner_built_in d -> see_role org id d = Some r -> ro_system r = false -> has_owner now o d -> has_owner now o (drop_role org id d).
Proof.
  intros [_ Sys] S Sy [u H]. exists u. apply active_owners_elem in H as (g & Hg & E & O & M). apply active_owners_elem. exists g.
  split; [|done]. cbn. apply elem_of_delete. split; [done|]. apply String.eqb_neq. intros Eq.
  apply see_role_some in S as (Hr & Ir & _). unfold owner_grant in O. do 3 (apply andb_true_iff in O as [O _]). apply andb_true_iff in O as [_ O]. apply String.eqb_eq in O.
  rewrite (Sys r Hr) in Sy; [done|congruence].
Qed.

Lemma joined_owner now o org user roleID by_ bid d : has_owner now o d -> has_owner now o (accept_invite now org user roleID by_ bid d).
Proof.
  intros H. assert (has_owner now o (set_members (if existsb (is_member org user) (d_members d) then update_where (is_member org user) (set_deactivated None) (d_members d)
    else d_members d ++ [mkMembership org user None now]) d)) as H1.
  { destruct H as [u Hu]. exists u. eapply active_owners_keep; [done|done|]. cbn. rewrite !existsb_elem. intros (m & Hm & A). destruct (existsb _ (d_members d)).
    - destruct (is_member org user m) eqn:I; [|exists m; split; [|done]; apply elem_of_update; exists m; by rewrite I].
      exists (set_deactivated None m). split; [apply elem_of_update; exists m; by rewrite I|]. unfold is_active in *. cbn. by apply andb_true_iff in A as [-> _].
    - exists m. split; [apply elem_of_app; by left|done]. }
  unfold accept_invite. destruct (insert_grant _ _) as [d'|] eqn:E; [|done]. apply insert_grant_ok in E as ->. destruct H1 as [u Hu]. exists u. by apply kept_more.
Qed.

Lemma ungranted_owner now o org roleID bid d : sound d -> has_owner now o d -> has_owner now o (deleteBinding now org roleID bid d).1.
Proof.
  intros Sd H. destruct (deleteBinding_cases now org roleID bid d) as [->|(g & Hg & Og & Ig & Rg & [[W ->]|K])]; [done| |].
  - destruct H as [u Hu]. exists u. eapply active_owners_keep; [exact Hu| |done]. intros x Hx E O. apply elem_of_delete. split; [done|].
    destruct (String.eqb_spec (g_id x) bid) as [Ix|]; [|by rewrite andb_false_r]. exfalso.
    assert (x = g) as -> by (apply (NoDup_map_inj g_id (d_grants d)); [apply Sd|done|done|congruence]).
    unfold owner_grant in O. do 2 (apply andb_true_iff in O as [O _]). apply andb_true_iff in O as [O O3]. apply andb_true_iff in O as [_ O2].
    apply String.eqb_eq in O2, O3. destruct W as [W|W]; apply W; congruence.
  - eapply KeepOwner_keeps; [exact K| |done]. apply KeepOwner_ok in K as [K _]. injection K as <-.
    destruct (String.eqb_spec (g_kind g) "user") as [Ku|Nu].
    + apply spared_grants. intros x Hx E. apply andb_true_iff in E as [_ E]. apply String.eqb_eq in E.
      assert (x = g) as -> by (apply (NoDup_map_inj g_id (d_grants d)); [apply Sd|done|done|congruence]). unfold of_user. by rewrite Og, Ku, !String.eqb_refl.
    + intros o' u N Hu. eapply active_owners_keep; [exact Hu| |done]. intros x Hx E O. apply elem_of_delete. split; [done|].
      destruct (String.eqb_spec (g_id x) bid) as [Ix|]; [|by rewrite andb_false_r]. exfalso.
      assert (x = g) as -> by (apply (NoDup_map_inj g_id (d_grants d)); [apply Sd|done|done|congruence]).
      unfold owner_grant in O. do 2 (apply andb_true_iff in O as [O _]). apply andb_true_iff in O as [_ O]. by apply String.eqb_eq in O.
Qed.

Lemma dstep_owner now org op d o : sound d -> has_owner now o d -> has_owner now o (dstep now org op d).
Proof.
  intros Sd H. destruct op as [actor user active|actor user roleID newID|actor user|record newID b|record id b|record id|actor newID roleID kind principal sk si|roleID bid|user roleID by_ bid]; cbn [dstep].
  - by apply member_changes_keep_owner.
  - by apply member_changes_keep_owner.
  - by apply member_changes_keep_owner.
  - destruct (createRole_cases record org newID b d) as [->|(f & _ & _ & _ & _ & G & M)]; [done|by eapply same_rows_owner].
  - destruct (updateRole_cases record org id b d) as [->|(f & r & _ & _ & _ & _ & _ & G & M)]; [done|by eapply same_rows_owner].
  - destruct (deleteRole_cases record org id d) as [->|(r & S & Sy & _ & G & _ & M)]; [done|].
    apply (same_rows_owner now o (drop_role org id d)); [done|by rewrite M|]. by eapply dropped_owner; [apply Sd|..].
  - pose proof (createBinding_cases now org actor newID roleID kind principal sk si d) as C. destruct (createBinding _ _ _ _ _ _ _ _ _ _) as [d' [g|e]]; [|by subst].
    destruct C as (? & ? & _ & _ & -> & _). destruct H as [u Hu]. exists u. by apply kept_more.
  - by apply ungranted_owner.
  - by apply joined_owner.
Qed.

(** C28. An organisation that has an active owner has one after whatever its
    administrators do: change roles and memberships, delete roles, take
    bindings away, in any order, whoever does it.  (Every binding the code
    writes lasts; the built-in owner role is where the migrations put it.) *)
Theorem an_owner_remains steps now now' org d : sound d -> has_owner now org d -> has_owner now' org (drun steps d).
Proof.
  revert d. induction steps as [|[[t o] op] steps IH]; intros d Sd H; cbn.
  - eapply has_owner_lasting; [apply Sd|done].
  - apply IH; [by apply dstep_sound|]. eapply (has_owner_lasting t); [by apply dstep_sound|]. apply dstep_owner; [done|].
    eapply has_owner_lasting; [apply Sd|done].
Qed.

(** *** What roles look like *)

(** A role a workspace has made: named, of that workspace, allowing
    something, and only what exists. *)
Record custom_ok (r : role) : Prop := mkCustomOk {
  cu_name : ro_name r <> "" /\ TrimSpace (ro_name r) = ro_name r;
  cu_org : is_Some (ro_org r);
  cu_some : ro_permissions r <> [];
  cu_valid : forall p, p ∈ ro_permissions r -> Valid p = true;
}.

Record roles_ok (d : directory) : Prop := mkRolesOk {
  rk_custom r : r ∈ d_roles d -> ro_system r = false -> custom_ok r;
  rk_ids : NoDup (map ro_id (d_roles d));
  rk_names : NoDup (map name_key (d_roles d));
}.

Lemma cleanRole_ok b f : cleanRole b = Ok f -> dr_Name f <> "" /\ TrimSpace (dr_Name f) = dr_Name f /\ dr_Permissions f <> [] /\
  forall p, p ∈ dr_Permissions f -> Valid p = true.
Proof.
  unfold cleanRole. destruct (String.eqb_spec (TrimSpace (bo_Name b)) "") as [|N]; [done|].
  destruct (splitPermissions (bo_Permissions b)) as [known unknown] eqn:S. destruct (splitPermissions_known _ _ _ S) as [K _].
  destruct unknown; [|done]. destruct known as [|p l] eqn:E; [done|]. intros [= <-]. cbn [dr_Name dr_Permissions].
  split; [exact N|]. split; [apply TrimSpace_idem|]. split; [discriminate|]. intros q Hq. apply K in Hq as (_ & _ & V). exact V.
Qed.

Lemma name_taken_false r d : name_taken r d = false -> forall x, x ∈ d_roles d -> ro_id x <> ro_id r -> name_key x <> name_key r.
Proof.
  unfold name_taken. rewrite existsb_false_elem. intros H x Hx N E. specialize (H x Hx). apply andb_false_iff in H as [H|H].
  - apply negb_false_iff, String.eqb_eq in H. by destruct N.
  - apply bool_decide_eq_false in H. by destruct H.
Qed.

Lemma NoDup_update_key {B} (g : role -> B) p f l : NoDup (map ro_id l) -> NoDup (map g l) -> (forall r, ro_id (f r) = ro_id r) ->
  (forall x y, x ∈ l -> y ∈ l -> p x = true -> ro_id x <> ro_id y -> g y <> g (f x)) -> (forall x y, x ∈ l -> y ∈ l -> p x = true -> p y = true -> x = y) ->
  NoDup (map g (update_where p f l)).
Proof.
  induction l as [|a l IH]; cbn; intros I G F Sep One; [constructor|]. apply NoDup_cons in I as [Ia I], G as [Ga G].
  assert (forall x, x ∈ l -> ro_id a <> ro_id x) as Na by (intros x Hx E; apply Ia; rewrite E; by apply list_elem_of_fmap_2).
  apply NoDup_cons. split.
  - intros H. apply list_elem_of_fmap in H as (y & E & Hy). apply elem_of_update in Hy as (x & Hx & ->). specialize (Na x Hx).
    destruct (p a) eqn:Pa, (p x) eqn:Px.
    + by destruct Na; rewrite (One a x); [|left|right| |].
    + by eapply (Sep a x); [left|right|done|done|].
    + eapply (Sep x a); [right; done|left|done|by intros Eq; apply Na|done].
    + apply Ga. rewrite E. by apply list_elem_of_fmap_2.
  - apply IH; try done; intros x y Hx Hy; [apply Sep|apply One]; by right.
Qed.

Lemma dstep_roles_other now org o d : match o with
  | DCreateRole _ _ _ | DUpdateRole _ _ _ | DDeleteRole _ _ => True
  | _ => d_roles (dstep now org o d) = d_roles d
  end.
Proof.
  destruct o as [actor user active|actor user roleID newID|actor user|record newID b|record id b|record id|actor newID roleID kind principal sk si|roleID bid|user roleID by_ bid]; cbn [dstep]; try done.
  - destruct (SetMemberStatus _ _ _ _ _ _) as [d' [x|e]] eqn:E; cbn [fst]; [|by apply with_member_err in E as ->].
    apply SetMemberStatus_ok in E as [->|[[_ ->]|[_ (d1 & K & ->)]]]; [done..|]. apply KeepOwner_ok in K as [K _]. by injection K as <-.
  - destruct (SetMemberRole _ _ _ _ _ _ _) as [d' [x|e]] eqn:E; cbn [fst]; [|by apply with_member_err in E as ->].
    apply SetMemberRole_ok in E as [(m & _ & _ & ->)|[_ K]]; [done|]. apply KeepOwner_ok in K as [K _]. by apply insert_grant_ok in K as ->.
  - destruct (RemoveMember _ _ _ _ _) as [d' [x|e]] eqn:E; cbn [fst]; [|by apply with_member_err in E as ->].
    apply RemoveMember_ok in E as (d1 & K & ->). apply KeepOwner_ok in K as [K _]. by injection K as <-.
  - pose proof (createBinding_cases now org actor newID roleID kind principal sk si d) as C. destruct (createBinding _ _ _ _ _ _ _ _ _ _) as [d' [g|e]]; [|by subst].
    by destruct C as (? & ? & _ & _ & -> & _).
  - destruct (deleteBinding_cases now org roleID bid d) as [->|(g & _ & _ & _ & _ & [[_ ->]|K])]; [done..|]. apply KeepOwner_ok in K as [K _]. by injection K as <-.
  - unfold accept_invite. destruct (insert_grant _ _) as [d'|] eqn:E; [|done]. by apply insert_grant_ok in E as ->.
Qed.

Lemma roles_ok_ext d d' : d_roles d' = d_roles d -> roles_ok d -> roles_ok d'.
Proof. intros E [C I N]. split; by rewrite ?E. Qed.

Lemma created_ok record org newID b d : roles_ok d -> roles_ok (createRole record org newID b d).1.
Proof.
  intros Rk. destruct (createRole_cases record org newID b d) as [->|(f & Cl & X & Nm & R & _)]; [done|]. destruct Rk as [C I N].
  rewrite existsb_false_elem in X. destruct (cleanRole_ok _ _ Cl) as (C1 & C2 & C3 & C4).
  assert (forall x, x ∈ d_roles d -> ro_id x <> newID) as Fresh by (intros x Hx; apply String.eqb_neq, (X x Hx)).
  split; rewrite ?R, ?map_app.
  - intros r. rewrite elem_of_app. intros [Hr|Hr%list_elem_of_singleton] Sy; [by apply C|]. rewrite Hr. split; [done|by eexists|done|exact C4].
  - apply NoDup_app. split; [done|]. split; [|apply NoDup_singleton]. intros i Hi H. apply list_elem_of_singleton in H as ->.
    apply list_elem_of_fmap in Hi as (x & E & Hx). by apply (Fresh x Hx).
  - apply NoDup_app. split; [done|]. split; [|apply NoDup_singleton]. intros i Hi H. apply list_elem_of_singleton in H as ->.
    apply list_elem_of_fmap in Hi as (x & E & Hx). by apply (name_taken_false _ _ Nm x Hx); [apply Fresh|].
Qed.

Lemma updated_ok record org id b d : roles_ok d -> roles_ok (updateRole record org id b d).1.
Proof.
  intros Rk. destruct (updateRole_cases record org id b d) as [->|(f & r & Cl & S & Sy & Nm & R & _)]; [done|]. destruct Rk as [C I N].
  apply see_role_some in S as (Hr & Ir & Vr). destruct (cleanRole_ok _ _ Cl) as (C1 & C2 & C3 & C4).
  assert (forall x, x ∈ d_roles d -> String.eqb (ro_id x) id && visible_role org x = true -> x = r) as One.
  { intros x Hx E. apply andb_true_iff in E as [E _]. apply String.eqb_eq in E. apply (NoDup_map_inj ro_id (d_roles d)); [done..|congruence]. }
  split; rewrite ?R.
  - intros x Hx. apply elem_of_update in Hx as (y & Hy & ->). destruct (_ && _) eqn:P; [|by apply C]. intros _.
    rewrite (One y Hy P). split; [done|apply (cu_org _ (C r Hr Sy))|done|exact C4].
  - by rewrite map_update.
  - apply NoDup_update_key; try done.
    + intros x y Hx Hy P Ne. rewrite (One x Hx P) in *. by apply (name_taken_false _ _ Nm y Hy); cbn; congruence.
    + intros x y Hx Hy P Q. by rewrite (One x Hx P), (One y Hy Q).
Qed.

Lemma deleted_ok record org id d : roles_ok d -> roles_ok (deleteRole record org id d).1.
Proof.
  intros Rk. destruct (deleteRole_cases record org id d) as [->|(r & _ & _ & _ & _ & R & _)]; [done|]. destruct Rk as [C I N]. cbn in R.
  split; rewrite ?R.
  - intros x. rewrite elem_of_delete. intros [Hx _]. by apply C.
  - eapply sublist_NoDup; [exact I|]. apply map_sublist, sublist_deleted.
  - eapply sublist_NoDup; [exact N|]. apply map_sublist, sublist_deleted.
Qed.

(** A built-in role is where it was, as it was. *)
Lemma built_in_kept now org o d r : roles_ok d -> ro_system r = true -> r ∈ d_roles (dstep now org o d) <-> r ∈ d_roles d.
Proof.
  intros Rk Sy. pose proof (dstep_roles_other now org o d) as Other. destruct o as [| | |record newID b|record id b|record id| | |]; try (by rewrite Other); cbn [dstep].
  - destruct (createRole_cases record org newID b d) as [->|(f & _ & _ & _ & R & _)]; [done|]. rewrite R, elem_of_app, list_elem_of_singleton.
    split; [intros [H| ->]; [done|discriminate]|by left].
  - destruct (updateRole_cases record org id b d) as [->|(f & x & _ & S & Sx & _ & R & _)]; [done|]. rewrite R, elem_of_update. apply see_role_some in S as (Hx & Ix & _). split.
    + intros (y & Hy & ->). destruct (_ && _) eqn:P; [|done]. exfalso. apply andb_true_iff in P as [P _]. apply String.eqb_eq in P.
      assert (y = x) as -> by (apply (NoDup_map_inj ro_id (d_roles d)); [apply Rk|done|done|congruence]). cbn in Sy. congruence.
    + intros Hr. exists r. split; [done|]. destruct (_ && _) eqn:P; [|done]. exfalso. apply andb_true_iff in P as [P _]. apply String.eqb_eq in P.
      assert (r = x) as -> by (apply (NoDup_map_inj ro_id (d_roles d)); [apply Rk|done|done|congruence]). congruence.
  - destruct (deleteRole_cases record org id d) as [->|(x & S & Sx & _ & _ & R & _)]; [done|]. rewrite R. cbn. rewrite elem_of_delete. apply see_role_some in S as (Hx & Ix & _).
    split; [by intros [? _]|]. intros Hr. split; [done|]. destruct (String.eqb_spec (ro_id r) id) as [E|]; [|done]. exfalso.
    assert (r = x) as -> by (apply (NoDup_map_inj ro_id (d_roles d)); [apply Rk|done|done|congruence]). congruence.
Qed.

Lemma dstep_roles_ok now org o d : roles_ok d -> roles_ok (dstep now org o d).
Proof.
  intros Rk. pose proof (dstep_roles_other now org o d) as Other. destruct o; try (by apply (roles_ok_ext d)); cbn [dstep];
    [by apply created_ok|by apply updated_ok|by apply deleted_ok].
Qed.

(** Whatever administrators do, every role a workspace has made keeps a name
    that is its own in the workspace, allows something, and only permissions
    that exist; the built-in roles are what they were. *)
Theorem roles_stay_well_formed steps d : roles_ok d ->
  roles_ok (drun steps d) /\ forall r, ro_system r = true -> r ∈ d_roles (drun steps d) <-> r ∈ d_roles d.
Proof.
  revert d. induction steps as [|[[t o] op] steps IH]; intros d Rk; cbn; [done|].
  destruct (IH (dstep t o op d)) as [A B]; [by apply dstep_roles_ok|]. split; [exact A|]. intros r Sy. rewrite B by done. by apply built_in_kept.
Qed.

(** ** The preview foretells the evaluator *)

Lemma expandPermissions_elem l p : p ∈ expandPermissions l <-> p ∈ l \/ (Wildcard ∈ l /\ p ∈ All).
Proof.
  unfold expandPermissions. assert (forall acc : gset string, p ∈ foldl (fun s q => {[ q ]} ∪ (if String.eqb q Wildcard then list_to_set All ∪ s else s)) acc l <->
    p ∈ acc \/ p ∈ l \/ (Wildcard ∈ l /\ p ∈ All)) as H.
  { induction l as [|q l IH]; intros acc; cbn [foldl]; [pose proof (not_elem_of_nil p); pose proof (not_elem_of_nil Wildcard); tauto|]. rewrite IH, !elem_of_cons, elem_of_union, elem_of_singleton.
    destruct (String.eqb_spec q Wildcard) as [->|N].
    - rewrite elem_of_union, elem_of_list_to_set. tauto.
    - assert (Wildcard = q -> False) by congruence. tauto. }
  rewrite H, elem_of_empty. tauto.
Qed.

(** What is read of the holder: the roles their bindings over the whole
    organisation carry. *)
Definition carried (now : Z) (d : directory) (p : Principal) (except perm : string) : Prop :=
  exists g r, g ∈ d_grants d /\ org_wide now (p_OrgID p) (BindingPrincipal p).1 (BindingPrincipal p).2 g = true /\ r ∈ d_roles d /\ ro_id r = g_role g /\
    visible_role (p_OrgID p) r = true /\ ro_id r <> except /\ (perm ∈ ro_permissions r \/ Wildcard ∈ ro_permissions r).

Lemma org_wide_true now org kind id g : org_wide now org kind id g = true <->
  g_org g = org /\ g_kind g = kind /\ g_principal g = id /\ g_scope_kind g = "org" /\ unexpired now g = true.
Proof. unfold org_wide. rewrite !andb_true_iff, !String.eqb_eq. tauto. Qed.

Lemma heldRoles_elem now org kind id except d h : h ∈ heldRoles now org kind id except d <->
  exists g r, g ∈ d_grants d /\ org_wide now org kind id g = true /\ r ∈ d_roles d /\ ro_id r = g_role g /\ visible_role org r = true /\ ro_id r <> except /\
    h = mkHeld (ro_id r) (ro_name r) (list_to_set (ro_permissions r)).
Proof.
  unfold heldRoles. rewrite list_elem_of_fmap. split.
  - intros (r & -> & Hr). rewrite merge_sort_Permutation, list_elem_of_In, in_flat_map in Hr. destruct Hr as (g & Hg & Hr).
    destruct (org_wide now org kind id g) eqn:O; [|done]. apply filter_In in Hr as [Hr E]. apply andb_true_iff in E as [E E3]. apply andb_true_iff in E as [E1 E2].
    apply String.eqb_eq in E1. apply negb_true_iff, String.eqb_neq in E3. exists g, r. rewrite !list_elem_of_In. auto 10.
  - intros (g & r & Hg & O & Hr & E1 & E2 & E3 & ->). exists r. split; [done|]. rewrite merge_sort_Permutation, list_elem_of_In, in_flat_map. exists g. rewrite <- list_elem_of_In.
    split; [done|]. rewrite O. apply filter_In. rewrite <- list_elem_of_In, E1, String.eqb_refl, E2. split; [done|]. cbn. rewrite <- E1. by apply negb_true_iff, String.eqb_neq.
Qed.

(** A permission of the screen. *)
Definition catalogued (perm : string) : Prop := perm ∈ concat (map snd permissionCatalogue).

(** What another role carries, the holder already has. *)
Lemma carried_already now d p except perm : (BindingPrincipal p).1 <> "user" \/ existsb (is_active (p_OrgID p) (BindingPrincipal p).2) (d_members d) = true ->
  catalogued perm -> carried now d p except perm -> perm ∈ already_has now d p.
Proof.
  intros Act V (g & r & Hg & O & Hr & E & _ & _ & P). unfold already_has, EffectivePermissions. rewrite load_fresh. cbn [fst].
  apply org_wide_true in O as (O1 & O2 & O3 & O4 & _).
  assert (binding_from g r ∈ ce_bindings (entry_of now d p)) as Hb by (apply entry_bindings; exists g, r; auto 10).
  pose proof (collect_perms_spec (ce_bindings (entry_of now d p)) ∅) as C. destruct (collect_perms _ _) as [out|]; apply elem_of_list_to_set.
  - destruct C as [C1 C2]. apply sorted_perms_elem, C2. right. exists (binding_from g r). split; [done|]. split; [done|].
    apply elem_of_list_to_set. destruct P as [P|P]; [done|]. destruct (C1 _ Hb O4). by apply elem_of_list_to_set.
  - by apply elem_of_cons, Valid_elem, catalogue_complete.
Qed.

Lemma holder_binding org kind id : kind = "user" \/ kind = "service_account" ->
  BindingPrincipal (holderPrincipal org kind id) = (kind, id) /\ p_OrgID (holderPrincipal org kind id) = org.
Proof. by intros [->| ->]. Qed.

Lemma carried_held now org kind id except perm d : kind = "user" \/ kind = "service_account" ->
  carried now d (holderPrincipal org kind id) except perm <->
  exists h, h ∈ heldRoles now org kind id except d /\ (perm ∈ hr_perms h \/ Wildcard ∈ hr_perms h).
Proof.
  intros K. unfold carried. destruct (holder_binding org kind id K) as [-> ->]. cbn [fst snd]. split.
  - intros (g & r & Hg & O & Hr & E & V & X & P). exists (mkHeld (ro_id r) (ro_name r) (list_to_set (ro_permissions r))). split; [apply heldRoles_elem; eauto 10|].
    cbn. by rewrite !elem_of_list_to_set.
  - intros (h & Hh & P). apply heldRoles_elem in Hh as (g & r & Hg & O & Hr & E & V & X & ->). cbn in P. rewrite !elem_of_list_to_set in P. eauto 10.
Qed.

(** What the preview shows of one permission. *)
Lemma preview_shows now org roleID kind id perms d pv perm : kind = "user" \/ kind = "service_account" -> id <> "" ->
  previewRole now org roleID kind id perms d = Ok pv -> catalogued perm ->
  (exists e, e ∈ pv_Allows pv /\ al_ID e = perm) <->
  perm ∈ expandPermissions (splitPermissions perms).1 \/ carried now d (holderPrincipal org kind id) roleID perm.
Proof.
  intros K N P V. unfold previewRole in P. destruct (splitPermissions perms) as [known unknown]. cbn [fst].
  apply String.eqb_neq in N. rewrite N in P. destruct (principalExists org kind id d) as [[]|] eqn:Ex; [|done]. injection P as <-. cbn [pv_Allows].
  assert ((BindingPrincipal (holderPrincipal org kind id)).1 <> "user" \/
    existsb (is_active (p_OrgID (holderPrincipal org kind id)) (BindingPrincipal (holderPrincipal org kind id)).2) (d_members d) = true) as Act.
  { destruct (holder_binding org kind id K) as [-> ->]. cbn [fst snd]. unfold principalExists in Ex. destruct (String.eqb_spec kind "user"); [right|by left].
    by destruct (existsb _ (d_members d)). }
  set (already := already_has now d (holderPrincipal org kind id)). set (others := heldRoles now org kind id roleID d). set (direct := expandPermissions known).
  assert ((exists e, e ∈ preview_allows direct already others /\ al_ID e = perm) <-> shown (allow_entry direct already others perm) = true) as ->.
  { unfold preview_allows. split.
    - intros (e & He & E). apply list_elem_of_In, filter_In in He as [He S]. apply in_map_iff in He as (q & <- & _). cbn in E. by subst q.
    - intros S. exists (allow_entry direct already others perm). split; [|done]. apply list_elem_of_In, filter_In. split; [|done]. by apply in_map, list_elem_of_In. }
  unfold shown, allow_entry. cbn [al_FromThis al_FromOther]. rewrite orb_true_iff, bool_decide_eq_true, negb_true_iff, bool_decide_eq_false.
  rewrite (carried_held now org kind id roleID perm d K). fold others. split; (intros [H|H]; [by left|right]).
  - destruct (List.filter _ others) as [|h l] eqn:F; [done|]. assert (h ∈ h :: l) as Hh by left. rewrite <- F in Hh.
    apply list_elem_of_In, filter_In in Hh as [Hh E]. apply andb_true_iff in E as [E _]. exists h. rewrite list_elem_of_In. split; [done|].
    apply orb_true_iff in E as [E|E]; apply bool_decide_eq_true in E; auto.
  - destruct H as (h & Hh & Q). intros Nil. apply map_eq_nil in Nil. assert (h ∈ ([] : list heldRole)) as X; [|by apply elem_of_nil in X].
    rewrite <- Nil. apply list_elem_of_In, filter_In. rewrite <- list_elem_of_In. split; [done|]. apply andb_true_iff. split.
    + apply orb_true_iff. destruct Q as [Q|Q]; [left|right]; by apply bool_decide_eq_true.
    + apply bool_decide_eq_true. apply (carried_already now d _ roleID perm Act V). apply (carried_held now org kind id roleID perm d K). eauto.
Qed.

(** Every binding's role exists and is one its workspace may use. *)
Record refs_lawful (d : directory) : Prop := mkRefs {
  rf_exists g : g ∈ d_grants d -> exists r, r ∈ d_roles d /\ ro_id r = g_role g;
  rf_visible g r : g ∈ d_grants d -> r ∈ d_roles d -> ro_id r = g_role g -> visible_role (g_org g) r = true;
  rf_named r : r ∈ d_roles d -> ro_id r <> "";
}.

Definition anything : Resource := mkResource "" "" "" "" false.

(** Of the organisation as a whole, the evaluator asks only whether some
    binding over the whole organisation carries the permission. *)
Lemma decides_anything now d org kind id perm : kind = "user" \/ kind = "service_account" -> org <> "" ->
  decides now d (holderPrincipal org kind id) perm anything = true <->
  exists g r, g ∈ d_grants d /\ g_org g = org /\ g_kind g = kind /\ g_principal g = id /\ g_scope_kind g = "org" /\
    (forall t, g_expires g = Some t -> (now <= t)%Z) /\ r ∈ d_roles d /\ ro_id r = g_role g /\
    (kind <> "user" \/ existsb (is_active org id) (d_members d) = true) /\ (perm ∈ ro_permissions r \/ Wildcard ∈ ro_permissions r).
Proof.
  intros K N. rewrite decides_may. pose proof (holder_binding org kind id K) as [B O]. split.
  - intros [_ _ _ _ (b & [Hb L R] & P) _ _ _]. apply entry_bindings in Hb as (g & r & Hg & Hr & E & -> & E1 & E2 & E3 & A).
    rewrite B, O in *. cbn [fst snd] in *. exists g, r. unfold holds, binding_from, scan_binding in P. cbn in P, L, R. rewrite !elem_of_list_to_set in P.
    split; [done|]. split; [done|]. split; [done|]. split; [done|]. split; [|split; [done|]]; [|split; [done|]; split; [done|]; split; [done|tauto]].
    unfold reaches in R. cbn in R. destruct R as [R|[(_ & R & _)|[(_ & R & _)|(_ & R & _)]]]; [exact R|by destruct R..].
  - intros (g & r & Hg & E1 & E2 & E3 & Sk & L & Hr & E & A & P).
    assert (in_force (entry_of now d (holderPrincipal org kind id)) now anything (binding_from g r)) as F.
    { split; [|exact L|left; exact Sk]. apply entry_bindings. exists g, r. rewrite B, O. cbn [fst snd]. auto 10. }
    split.
    + by destruct K as [->| ->].
    + rewrite O. split; [done|by left].
    + by left.
    + by left.
    + exists (binding_from g r). split; [exact F|]. unfold holds, binding_from, scan_binding. cbn. rewrite !elem_of_list_to_set. tauto.
    + intros X. by destruct X.
    + intros _ X. by destruct X.
    + done.
Qed.

(** C27. The preview tells the truth: a permission it shows for a set and a holder
    is exactly one the evaluator grants them, over the organisation as a
    whole, once a role with that set has been made and given to them. *)
Theorem preview_foretells now t later org kind id body actor newRole newID record d pv d1 out d2 g perm :
  kind = "user" \/ kind = "service_account" -> id <> "" -> org <> "" -> refs_lawful d -> lasting d ->
  previewRole now org "" kind id (bo_Permissions body) d = Ok pv ->
  createRole record org newRole body d = (d1, Ok out) ->
  createBinding t org actor newID newRole kind id "org" "" d1 = (d2, Ok g) -> catalogued perm ->
  (exists e, e ∈ pv_Allows pv /\ al_ID e = perm) <-> decides later d2 (holderPrincipal org kind id) perm anything = true.
Proof.
  intros K N No [Re Rv Rn] La P C B V. rewrite (preview_shows _ _ _ _ _ _ _ _ _ K N P V), (decides_anything _ _ _ _ _ _ K No).
  pose proof (createRole_cases record org newRole body d) as Cr. rewrite C in Cr. cbn [fst] in Cr.
  pose proof (createBinding_cases t org actor newID newRole kind id "org" "" d1) as Cb. rewrite B in Cb. destruct Cb as (sk & scope & -> & -> & -> & Ex & Sc & Vis).
  destruct Cr as [->|(f & Cl & Fresh & _ & R & G & M)].
  { exfalso. revert C. unfold createRole, tx_role. destruct (cleanRole body); [|done]. destruct (_ || _) eqn:X; [done|]. apply orb_false_iff in X as [X _].
    destruct Vis as [r Hr]. apply see_role_some in Hr as (Hr & Ir & _). rewrite existsb_false_elem in X. specialize (X r Hr). by rewrite Ir, String.eqb_refl in X. }
  assert (forall r, r ∈ d_roles d -> ro_id r <> newRole) as Fr by (intros r Hr; rewrite existsb_false_elem in Fresh; by apply String.eqb_neq, Fresh).
  assert (dr_Permissions f = (splitPermissions (bo_Permissions body)).1) as Perms.
  { revert Cl. unfold cleanRole. destruct (String.eqb (TrimSpace (bo_Name body)) ""); [intros [=]|]. destruct (splitPermissions _) as [k u]. destruct u; [|done]. destruct k; [done|]. by intros [= <-]. }
  assert (kind <> "user" \/ existsb (is_active org id) (d_members d1) = true) as Act.
  { unfold principalExists in Ex. destruct (String.eqb_spec kind "user"); [right|by left]. by destruct (existsb _ (d_members d1)). }
  pose proof (holder_binding org kind id K) as [Bp O]. cbn [d_grants d_roles d_members set_grants]. rewrite G, R.
  split.
  - intros [H|(x & r & Hx & W & Hr & E & _ & _ & Q)].
    + exists (mkGrant newID org kind id newRole "org" scope "manual" None None actor t), (drafted org newRole f).
      rewrite !elem_of_app, !list_elem_of_singleton. split_and!; try done; [by right|by right|].
      cbn. rewrite Perms. apply expandPermissions_elem in H as [H|[H _]]; auto.
    + rewrite Bp, O in W. cbn [fst snd] in W. apply org_wide_true in W as (W1 & W2 & W3 & W4 & _). exists x, r. rewrite !elem_of_app.
      split_and!; try done; [by left| |by left]. intros e He. by rewrite (La x Hx) in He.
  - intros (x & r & Hx & E1 & E2 & E3 & E4 & L & Hr & E & _ & Q). apply elem_of_app in Hx as [Hx|Hx%list_elem_of_singleton], Hr as [Hr|Hr%list_elem_of_singleton].
    + right. exists x, r. rewrite Bp, O. cbn [fst snd]. split; [done|]. split; [apply org_wide_true; split_and!; try done; unfold unexpired; by rewrite (La x Hx)|].
      split; [done|]. split; [done|]. split; [rewrite <- E1; by apply Rv|]. split; [by apply Rn|done].
    + exfalso. destruct (Re x Hx) as (y & Hy & Ey). subst r. cbn in E. apply (Fr y Hy). congruence.
    + exfalso. subst x. cbn in E. by apply (Fr r Hr).
    + left. subst r. cbn in Q. rewrite Perms in Q. apply expandPermissions_elem. destruct Q as [Q|Q]; [by left|].
      apply catalogue_complete, Valid_elem in V as [->|V]; [by left|by right].
Qed.

(** ** In a workspace *)

Definition admin_steps : list (Z * string * dir_op) :=
  [(1%Z, "acme", DCreateRole (Some Recorded) "role_new" (mkBody " Support " "" ["tools:read"; "tools:invoke"; "tools:read"]));
   (2%Z, "acme", DGrant "ann" "b7" "role_new" "user" "bob" "" ""); (3%Z, "acme", DUngrant ownerRole "b1"); (4%Z, "acme", DRemove "bob" "ann");
   (5%Z, "acme", DDeleteRole None "role_fin")].

Ltac for_each H tac := repeat (apply elem_of_cons in H as [->|H]; [tac|]); by apply elem_of_nil in H.

Lemma two_roles_sound : sound two_roles.
Proof.
  split; [apply (bool_decide_unpack _); by vm_compute|intros g Hg; for_each Hg ltac:(done)|].
  split; [eexists; split; [left|done]|]. intros r Hr E. for_each Hr ltac:(done).
Qed.

Lemma two_roles_ok : roles_ok two_roles.
Proof.
  split; [|apply (bool_decide_unpack _); by vm_compute..]. intros r Hr Sy.
  for_each Hr ltac:(first [discriminate Sy|split; [split; [discriminate|vm_compute; reflexivity]|by eexists|discriminate|intros q Hq; apply list_elem_of_singleton in Hq as ->; vm_compute; reflexivity]]).
Qed.

Lemma an_owner_remains_witness : has_owner 9 "acme" (drun admin_steps two_roles).
Proof. apply (an_owner_remains admin_steps 0 9 "acme" two_roles two_roles_sound). exists "ann". apply (bool_decide_unpack _). by vm_compute. Defined.

Lemma roles_stay_well_formed_witness : roles_ok (drun admin_steps two_roles).
Proof. apply (roles_stay_well_formed admin_steps two_roles two_roles_ok). Defined.

Lemma two_roles_refs : refs_lawful two_roles.
Proof.
  split.
  - intros g Hg. assert (existsb (fun r => String.eqb (ro_id r) (g_role g)) (d_roles two_roles) = true) as X by for_each Hg ltac:(done).
    apply existsb_elem in X as (r & Hr & E). apply String.eqb_eq in E. eauto.
  - intros g r Hg Hr _. for_each Hg ltac:(for_each Hr ltac:(done)).
  - intros r Hr. for_each Hr ltac:(done).
Qed.

Definition support : roleWriteBody := mkBody "Support" "" ["tools:read"; "audit:read"].
Definition supported : directory := (createRole None "acme" "role_new" support two_roles).1.
Definition given : directory := (createBinding 5 "acme" "ann" "b7" "role_new" "user" "bob" "org" "" supported).1.
Definition shown_to_bob : preview := match previewRole 3 "acme" "" "user" "bob" (bo_Permissions support) two_roles with Ok pv => pv | Err _ => mkPreview [] [] [] end.

Lemma preview_foretells_witness : decides 9 given (person "bob") AuditRead anything = true /\ decides 9 two_roles (person "bob") AuditRead anything = false.
Proof.
  split; [|reflexivity].
  refine (proj1 (preview_foretells 3 5 9 "acme" "user" "bob" support "ann" "role_new" "b7" None two_roles shown_to_bob supported
    (mkRoleDTO (mkRole "role_new" (Some "acme") "Support" "" false ["audit:read"; "tools:read"] 1) 0) given
    (mkGrant "b7" "acme" "user" "bob" "role_new" "org" None "manual" None None "ann" 5) AuditRead _ _ _ two_roles_refs (so_lasting _ two_roles_sound) _ _ _ _) _).
  - by left.
  - discriminate.
  - discriminate.
  - reflexivity.
  - reflexivity.
  - reflexivity.
  - apply (bool_decide_unpack _). by vm_compute.
  - exists (mkAllow AuditRead true []). split; [apply list_elem_of_In; vm_compute; auto|done].
Defined.

(** A group is bound by the identifier provisioning gave it; a sign-in looks
    for bindings by the names the provider sends.  A binding by name, as the
    documentation describes it, is refused. *)
Example a_group_is_not_bound_by_name :
  let d := mkDirectory (d_orgs two_roles) (d_roles two_roles) (d_members two_roles) (d_grants two_roles) [] [] [mkNamed "idp_group" "acme" "g-1" "team"] [] no_credentials [] in
  let bound := (createBinding 5 "acme" "ann" "b7" "role_ops" "idp_group" "g-1" "org" "" d).1 in
  (createBinding 5 "acme" "ann" "b7" "role_ops" "idp_group" "team" "org" "" d).2 = Err errNoSuchPrincipal /\
  wanted_roles "acme" ["team"] "" bound = [].
Proof. split; reflexivity. Qed.
