(* ===== verification/Adapter.v ===== *)
(** * Adapter: tool definitions (pkg/adapter)

    The records of [pkg/adapter/adapter.go] that a tool call reads, and the
    YAML nodes their free-form parts are kept in ([node.go]).  A field of
    type [*Node] is an option; a [Duration] is its nanoseconds.  What
    [strconv] parses (integers with a base prefix, floats) is an argument. *)
From S2P Require Import Prelude GoStrings Float64 Regex Values.

Open Scope list_scope.

(** ** YAML nodes *)

(** [yaml.Kind], and the fields of [yaml.Node] the program reads. *)
Inductive NodeKind : Type := DocumentNode | SequenceNode | MappingNode | ScalarNode | AliasNode.

Inductive node : Type := mkNode (n_Kind : NodeKind) (n_Tag : string) (n_Value : string) (n_Content : list node).

Definition n_Kind (n : node) : NodeKind := let 'mkNode k _ _ _ := n in k.
Definition n_Tag (n : node) : string := let 'mkNode _ t _ _ := n in t.
Definition n_Value (n : node) : string := let 'mkNode _ _ v _ := n in v.
Definition n_Content (n : node) : list node := let 'mkNode _ _ _ c := n in c.

Inductive node_error : Type := BadScalar (value : string) | NoAliases.

(** [strconv.ParseBool]. *)
Definition ParseBool (s : string) : option bool :=
  if existsb (String.eqb s) ["1"; "t"; "T"; "TRUE"; "true"; "True"] then Some true
  else if existsb (String.eqb s) ["0"; "f"; "F"; "FALSE"; "false"; "False"] then Some false
  else None.

Section values.
Context (ParseInt0 : string -> option Z) (ParseFloat : string -> option float64).

Definition scalar_value (tag value : string) : result node_error Values.value :=
  if String.eqb tag "!!str" then Ok (VStr value)
  else if String.eqb tag "!!int" then match ParseInt0 value with Some i => Ok (VInt i) | None => Err (BadScalar value) end
  else if String.eqb tag "!!float" then match ParseFloat value with Some f => Ok (VFloat f) | None => Err (BadScalar value) end
  else if String.eqb tag "!!bool" then match ParseBool value with Some b => Ok (VBool b) | None => Err (BadScalar value) end
  else if String.eqb tag "!!null" then Ok VNil
  else Ok (VStr value).

(** [NodeValue].  A mapping's entries are pairs in its content; a key that
    is repeated keeps the last value. *)
Fixpoint NodeValue (n : node) : result node_error value :=
  let 'mkNode kind tag val content := n in
  match kind with
  | DocumentNode => match content with [] => Ok VNil | c :: _ => NodeValue c end
  | MappingNode =>
      (fix go l m := match l with
                     | k :: x :: l => v ← NodeValue x; go l (obj_set m (n_Value k) v)
                     | _ => Ok (VMap m)
                     end) content []
  | SequenceNode =>
      vs ← (fix go l := match l with
                        | [] => Ok []
                        | c :: l => v ← NodeValue c; vs ← go l; Ok (v :: vs)
                        end) content;
      Ok (VList vs)
  | ScalarNode => scalar_value tag val
  | AliasNode => Err NoAliases
  end.
End values.

(** What [WalkStrings] visits, in its order. *)
Fixpoint node_strings (n : node) : list string :=
  let 'mkNode kind tag val content := n in
  match kind with
  | ScalarNode => if String.eqb tag "!!str" then [val] else []
  | MappingNode => (fix go l := match l with _ :: x :: l => node_strings x ++ go l | _ => [] end) content
  | _ => (fix go l := match l with [] => [] | c :: l => node_strings c ++ go l end) content
  end.

Fixpoint pair_get (l : list node) (key : string) : option node :=
  match l with
  | k :: v :: l => if String.eqb (n_Value k) key then Some v else pair_get l key
  | _ => None
  end.

Definition MapGet (n : option node) (key : string) : option node :=
  match n with
  | Some n => match n_Kind n with MappingNode => pair_get (n_Content n) key | _ => None end
  | None => None
  end.

Fixpoint pair_keys (l : list node) : list string :=
  match l with k :: _ :: l => n_Value k :: pair_keys l | _ => [] end.

Definition MapKeys (n : option node) : list string :=
  match n with
  | Some n => match n_Kind n with MappingNode => pair_keys (n_Content n) | _ => [] end
  | None => []
  end.

(** ** The records *)

Definition TransportHTTP : string := "http".
Definition TransportGraphQL : string := "graphql".
Definition TransportDatabase : string := "database".
Definition TransportSOAP : string := "soap".
Definition TransportMCP : string := "mcp".

(** An [OrderedMap[string]]: its entries in the order they were set. *)
Definition ordered : Type := list (string * string).

Record RateLimit : Type := mkRateLimit { rl_RPS : float64; rl_Burst : Z }.

Record Transport : Type := mkTransport {
  tr_Type : string;
  tr_BaseURL : string;
  tr_DSN : string;
  tr_Driver : string;
  tr_Headers : ordered;
  tr_Timeout : Z;
  tr_RateLimit : option RateLimit;
  tr_Proxy : bool;
}.

(** What says how an upstream is signed in to; which fields count depends on
    the type. *)
Record Inject : Type := mkInject { in_Header : string; in_Prefix : string; in_Template : string; in_Cookie : string }.

Record LoginRequest : Type := mkLoginRequest {
  lr_Method : string;
  lr_URL : string;
  lr_Headers : ordered;
  lr_Query : option node;
  lr_Body : option node;
}.

Record SaltSource : Type := mkSaltSource { sl_Value : string; sl_Request : option LoginRequest; sl_JSONPath : string }.

Record Preprocess : Type := mkPreprocess { pp_Kind : string; pp_Input : string; pp_Output : string; pp_Salt : option SaltSource }.

Record TokenSource : Type := mkTokenSource { ts_From : string; ts_JSONPath : string; ts_CookieName : string }.

Record Expiry : Type := mkExpiry {
  ex_JSONPath : string;
  ex_Format : string;
  ex_TTL : Z;
  ex_RefreshBefore : Z;
  ex_RefreshOn401 : option bool;
}.

Record Auth : Type := mkAuth {
  au_Type : string;
  au_Optional : bool;
  au_In : string;
  au_Name : string;
  au_Value : string;
  au_Token : string;
  au_Prefix : string;
  au_Header : string;
  au_Username : string;
  au_Password : string;
  au_Domain : string;
  au_Params : ordered;
  au_Grant : string;
  au_ClientID : string;
  au_ClientSecret : string;
  au_TokenURL : string;
  au_AuthorizationURL : string;
  au_Scopes : list string;
  au_ClientAuth : string;
  au_RefreshToken : string;
  au_ExtraTokenParams : ordered;
  au_ConsumerKey : string;
  au_ConsumerSecret : string;
  au_TokenSecret : string;
  au_Signature : string;
  au_Request : option LoginRequest;
  au_Credentials : ordered;
  au_Preprocess : list Preprocess;
  au_TokenSource : option TokenSource;
  au_Expiry : option Expiry;
  au_Algorithm : string;
  au_Encoding : string;
  au_Secret : string;
  au_StringToSign : string;
  au_SignatureHeader : string;
  au_TimestampHeader : string;
  au_TimestampFormat : string;
  au_Cert : string;
  au_Key : string;
  au_CA : string;
  au_Inject : option Inject;
  au_ExtraHeaders : ordered;
}.

(** The explicit hints of a definition; an unset one is [None]. *)
Record ToolHints : Type := mkHints {
  h_Title : string;
  h_ReadOnlyHint : option bool;
  h_DestructiveHint : option bool;
  h_IdempotentHint : option bool;
  h_OpenWorldHint : option bool;
}.

Record Body : Type := mkBody { bo_Encoding : string; bo_Value : option node }.

Record Operation : Type := mkOperation {
  op_Method : string;
  op_Path : string;
  op_Query : option node;
  op_Headers : ordered;
  op_Body : option Body;
  op_Kind : string;
  op_Document : string;
  op_Variables : option node;
  op_Statement : string;
  op_MaxRows : Z;
  op_Value : option node;
  op_Action : string;
  op_Envelope : string;
  op_Tool : string;
  op_ArgsMap : option node;
}.

Record Response : Type := mkResponse {
  rs_Transform : option string;
  rs_Cache : Z;
  rs_ExposeHeaders : list string;
  rs_MaxBytes : Z;
  rs_FallbackToRaw : option bool;
}.

Record Tool : Type := mkTool {
  to_Name : string;
  to_Description : string;
  to_Input : option node;
  to_Output : option node;
  to_Annotations : option ToolHints;
  to_Timeout : Z;
  to_RateLimit : option RateLimit;
  to_Proxy : option bool;
  to_Operation : Operation;
  to_Response : option Response;
}.

Definition opt_strings (n : option node) : list string := match n with Some n => node_strings n | None => [] end.

(** [operationStrings] of [validate.go]: every string of an operation that
    may hold placeholders, without the field each is in. *)
Definition operationStrings (op : Operation) : list string :=
  [op_Path op; op_Document op; op_Statement op; op_Envelope op; op_Action op; op_Tool op] ++ map snd (op_Headers op) ++
  opt_strings (op_Query op) ++ opt_strings (op_Variables op) ++ opt_strings (op_ArgsMap op) ++
  match op_Body op with Some b => opt_strings (bo_Value b) | None => [] end.

(** [authStrings] of [validate.go]. *)
Definition authStrings (a : Auth) : list string :=
  [au_Value a; au_Token a; au_Username a; au_Password a; au_Domain a; au_ClientID a; au_ClientSecret a; au_TokenURL a;
   au_AuthorizationURL a; au_RefreshToken a; au_ConsumerKey a; au_ConsumerSecret a; au_TokenSecret a; au_Secret a;
   au_StringToSign a; au_Cert a; au_Key a; au_CA a] ++
  map snd (au_Params a ++ au_ExtraTokenParams a ++ au_Credentials a ++ au_ExtraHeaders a) ++
  match au_Request a with
  | Some r => lr_URL r :: map snd (lr_Headers r) ++ opt_strings (lr_Query r) ++ opt_strings (lr_Body r)
  | None => []
  end ++
  flat_map (fun p => match pp_Salt p with
                     | Some sl => match sl_Request sl with Some r => [lr_URL r] | None => [] end
                     | None => []
                     end) (au_Preprocess a).
