(* ===== verification/ToolAnnotations.v ===== *)
(** * ToolAnnotations: what clients are told a tool does (internal/tool/annotations.go)

    The hints derived from a definition's operation, the explicit ones put
    over them, and the test for an edit that takes the destructive hint off
    an operation that implies it.  The Unicode case mapping and the JSON
    encoding of an operation are arguments. *)
From S2P Require Import Prelude GoStrings Regex Adapter.

Open Scope list_scope.

Record Annotations : Type := mkAnnotations {
  an_Title : string;
  an_ReadOnlyHint : bool;
  an_DestructiveHint : bool;
  an_IdempotentHint : bool;
  an_OpenWorldHint : bool;
}.

Definition additiveVerbs : list string :=
  ["create"; "add"; "insert"; "post"; "send"; "register"; "submit"; "upload"; "start"; "new"].

Definition hasAdditiveVerb (name : string) : bool :=
  existsb (fun part => existsb (String.eqb part) additiveVerbs) (Split name "_").

Definition normalise (a : Annotations) : Annotations :=
  if an_ReadOnlyHint a then mkAnnotations (an_Title a) true false true (an_OpenWorldHint a) else a.

Section derive.
Context (upper : string -> string) (MarshalOperation : Operation -> result string string).

Definition looksSelect (stmt : string) : bool :=
  let s := ToUpper upper (TrimSpace stmt) in
  HasPrefix s "SELECT" || HasPrefix s "WITH" || HasPrefix s "{" || HasPrefix s "{{".

(** What the operation of a transport implies: read-only, destructive,
    idempotent. *)
Definition http_hints (t : Tool) : bool * bool * bool :=
  let m := ToUpper upper (op_Method (to_Operation t)) in
  if existsb (String.eqb m) ["GET"; "HEAD"; "OPTIONS"; ""] then (true, false, true)
  else if String.eqb m "PUT" then (false, true, true)
  else if String.eqb m "DELETE" then (false, true, true)
  else if String.eqb m "PATCH" then (false, true, false)
  else if String.eqb m "POST" then (false, negb (hasAdditiveVerb (to_Name t)), false)
  else (false, false, false).

Definition deriveOperation (t : Tool) (transport : string) (connectorReadOnly : bool) : Annotations :=
  let op := to_Operation t in
  if String.eqb (op_Kind op) "static" then mkAnnotations "" true false true false
  else
    let '(r, d, i) :=
      if String.eqb transport TransportGraphQL then
        if String.eqb (op_Kind op) "mutation" then (false, negb (hasAdditiveVerb (to_Name t)), false) else (true, false, true)
      else if String.eqb transport TransportDatabase then
        if String.eqb (op_Kind op) "schema" || connectorReadOnly || looksSelect (op_Statement op)
        then (true, false, true) else (false, true, false)
      else http_hints t in
    mkAnnotations "" r d i true.

Definition overridden (a : Annotations) (o : ToolHints) : Annotations :=
  mkAnnotations (h_Title o) (default (an_ReadOnlyHint a) (h_ReadOnlyHint o)) (default (an_DestructiveHint a) (h_DestructiveHint o))
    (default (an_IdempotentHint a) (h_IdempotentHint o)) (default (an_OpenWorldHint a) (h_OpenWorldHint o)).

Definition Derive (t : Tool) (transport : string) (connectorReadOnly : bool) : Annotations :=
  let a := deriveOperation t transport connectorReadOnly in
  normalise (match to_Annotations t with Some o => overridden a o | None => a end).

Definition DeriveOperation (t : Tool) (transport : string) (connectorReadOnly : bool) : Annotations :=
  normalise (deriveOperation t transport connectorReadOnly).

Definition declassified (t : Tool) (transport : string) (connectorReadOnly : bool) : bool :=
  an_DestructiveHint (DeriveOperation t transport connectorReadOnly) &&
  negb (an_DestructiveHint (Derive t transport connectorReadOnly)).

Definition sameOperation (a b : Tool) : bool :=
  if negb (String.eqb (to_Name a) (to_Name b)) then false
  else match MarshalOperation (to_Operation a), MarshalOperation (to_Operation b) with
       | Ok ja, Ok jb => String.eqb ja jb
       | _, _ => false
       end.

Definition Declassifies (before after : option Tool) (transport : string) (connectorReadOnly : bool) : bool :=
  match after with
  | None => false
  | Some after =>
      if negb (declassified after transport connectorReadOnly) then false
      else match before with
           | None => true
           | Some before =>
               if negb (declassified before transport connectorReadOnly) then true
               else negb (sameOperation before after)
           end
  end.

(** ** A tool's life

    A save is one handler's: [create] of [internal/httpapi/tools.go], whose
    [before] is nil, [updateTool] and a revision restored through it, or a
    re-sync applied ([resync.go]); each asks for the right to invoke
    destructive tools exactly when the save declassifies.  The stored
    definition it is judged against is the one it replaces (the version is
    checked when it is written); whether the connector is read-only it has
    read before, and that may have changed since.  An administrator may also
    delete the tool, and change whether the connector is read-only
    ([admin.go]), which asks for the right to change the connector and no
    more. *)
Inductive edit : Type :=
  | Save (def : Tool) (may_invoke_destructive seen_read_only : bool)
  | Delete
  | SetReadOnly (b : bool).

(** The stored definition and the connector's flag; [None] when refused. *)
Definition apply_edit (transport : string) (st : option Tool * bool) (e : edit) : option (option Tool * bool) :=
  let '(before, ro) := st in
  match e with
  | Save def may seen => if Declassifies before (Some def) transport seen && negb may then None else Some (Some def, ro)
  | Delete => Some (None, ro)
  | SetReadOnly b => Some (before, b)
  end.

(** A refused edit changes nothing. *)
Definition run_edits (transport : string) : option Tool * bool -> list edit -> option Tool * bool :=
  foldl (fun st e => default st (apply_edit transport st e)).

(** The operation stored is destructive and served as not destructive. *)
Definition served_below (transport : string) (st : option Tool * bool) : bool :=
  match st.1 with Some t => declassified t transport st.2 | None => false end.

(** An edit that has [x] served as not destructive, and why it could: the
    one who saved it has the right to run destructive tools; or the connector
    runs a database and was read-only, where nothing is destructive, and
    stops being that, now or while the save was on its way. *)
Inductive lets_through (transport : string) (x : Tool) (st : option Tool * bool) : edit -> Prop :=
  | by_right seen : lets_through transport x st (Save x true seen)
  | by_writing : transport = TransportDatabase -> st.1 = Some x -> st.2 = true -> lets_through transport x st (SetReadOnly false)
  | in_flight may : transport = TransportDatabase -> st.2 = false -> lets_through transport x st (Save x may true).

Lemma normalise_read_only a : an_ReadOnlyHint (normalise a) = true ->
  an_DestructiveHint (normalise a) = false /\ an_IdempotentHint (normalise a) = true.
Proof. unfold normalise. destruct (an_ReadOnlyHint a) eqn:E; [done|by rewrite E]. Qed.

Lemma Derive_read_only t tr ro : an_ReadOnlyHint (Derive t tr ro) = true ->
  an_DestructiveHint (Derive t tr ro) = false /\ an_IdempotentHint (Derive t tr ro) = true.
Proof. apply normalise_read_only. Qed.

Lemma Declassifies_new before after tr ro : Declassifies before (Some after) tr ro = false -> declassified after tr ro = true ->
  exists b, before = Some b /\ declassified b tr ro = true /\ sameOperation b after = true.
Proof.
  unfold Declassifies. intros H E. rewrite E in H. cbn in H. destruct before as [b|]; [|done]. exists b. split; [done|].
  destruct (declassified b tr ro); [|done]. split; [done|]. by apply negb_false_iff.
Qed.

Lemma sameOperation_trans a b c : sameOperation a b = true -> sameOperation b c = true -> sameOperation a c = true.
Proof.
  unfold sameOperation. destruct (String.eqb_spec (to_Name a) (to_Name b)) as [->|]; [|done]. cbn [negb]. destruct (negb (String.eqb (to_Name b) (to_Name c))); [done|].
  destruct (MarshalOperation (to_Operation a)) as [ja|]; [|done]. destruct (MarshalOperation (to_Operation b)) as [jb|]; [|done].
  intros ->%String.eqb_eq. by destruct (MarshalOperation (to_Operation c)).
Qed.

Lemma read_only_database t : declassified t TransportDatabase true = false.
Proof.
  unfold declassified, DeriveOperation, deriveOperation. destruct (String.eqb (op_Kind (to_Operation t)) "static"); [done|].
  change (String.eqb TransportDatabase TransportGraphQL) with false. rewrite String.eqb_refl, orb_true_r. done.
Qed.

(** Only in a database connector that may write does the flag matter. *)
Lemma declassified_mode t tr ro ro' : declassified t tr ro = true -> declassified t tr ro' = false -> tr = TransportDatabase /\ ro = false /\ ro' = true.
Proof.
  destruct (String.eqb_spec tr TransportDatabase) as [->|N].
  - destruct ro; [by rewrite read_only_database|]. by destruct ro'; [|congruence].
  - assert (forall r, deriveOperation t tr r = deriveOperation t tr ro) as X.
    { intros r. unfold deriveOperation. destruct (String.eqb_spec tr TransportDatabase); [done|]. done. }
    unfold declassified, DeriveOperation, Derive. rewrite !(X ro'). congruence.
Qed.

(** C38. However a tool has been edited, by whomever, if its operation is
    destructive and it is served as not destructive (and was not from the
    start), then one edit of the history had that very operation served so
    and could: it was saved by somebody with the right to run destructive
    tools, or the connector runs a database, was read-only when the
    definition was judged, and then was made to write.  Renaming a hint,
    saving again, deleting and creating, another operation that was let
    through once: none of these does it. *)
Theorem saves_do_not_declassify tr st0 es t : served_below tr st0 = false ->
  (run_edits tr st0 es).1 = Some t -> declassified t tr (run_edits tr st0 es).2 = true ->
  exists es1 e es2 x, es = es1 ++ e :: es2 /\ lets_through tr x (run_edits tr st0 es1) e /\
    (run_edits tr st0 (es1 ++ [e])).1 = Some x /\ (x = t \/ sameOperation x t = true).
Proof.
  intros B0. revert t. induction es as [|e es IH] using rev_ind; intros t T D.
  { exfalso. unfold served_below in B0. cbn in T, D. rewrite T in B0. congruence. }
  assert (forall b, (run_edits tr st0 es).1 = Some b -> declassified b tr (run_edits tr st0 es).2 = true -> b = t \/ sameOperation b t = true ->
    exists es1 e' es2 x, es ++ [e] = es1 ++ e' :: es2 /\ lets_through tr x (run_edits tr st0 es1) e' /\
      (run_edits tr st0 (es1 ++ [e'])).1 = Some x /\ (x = t \/ sameOperation x t = true)) as Earlier.
  { intros b Tb Db S. destruct (IH b Tb Db) as (es1 & e' & es2 & x & -> & L & X & Sx). exists es1, e', (es2 ++ [e]), x.
    split; [by rewrite <- app_assoc|]. split; [done|]. split; [done|].
    destruct Sx as [->|Sx], S as [<-|S]; eauto using sameOperation_trans. }
  assert (lets_through tr t (run_edits tr st0 es) e -> exists es1 e' es2 x, es ++ [e] = es1 ++ e' :: es2 /\ lets_through tr x (run_edits tr st0 es1) e' /\
      (run_edits tr st0 (es1 ++ [e'])).1 = Some x /\ (x = t \/ sameOperation x t = true)) as Now.
  { intros L. exists es, e, [], t. auto. }
  revert T D Earlier Now. unfold run_edits. rewrite foldl_app. fold (run_edits tr st0 es). cbn [foldl].
  destruct (run_edits tr st0 es) as [before ro] eqn:R. unfold apply_edit. destruct e as [def may seen| |b].
  - destruct (Declassifies before (Some def) tr seen) eqn:C; cbn [andb].
    + destruct may; cbn [negb default from_option id fst snd]; [|eauto]. intros [= ->] D _ Now. apply Now. constructor.
    + cbn [default from_option id fst snd]. intros [= ->] D Earlier Now. destruct (declassified t tr seen) eqn:Ds.
      * destruct (Declassifies_new _ _ _ _ C Ds) as (b & -> & Db & S). destruct (declassified b tr ro) eqn:Dr; [by eapply Earlier; eauto|].
        destruct (declassified_mode b tr seen ro Db Dr) as (-> & -> & ->). by rewrite read_only_database in D.
      * destruct (declassified_mode t tr ro seen D Ds) as (-> & -> & ->). apply Now. by constructor.
  - done.
  - cbn [default from_option id fst snd]. intros -> D Earlier Now. destruct (declassified t tr ro) eqn:Dr; [by eapply Earlier; eauto|].
    destruct (declassified_mode t tr b ro D Dr) as (-> & -> & ->). apply Now. by constructor.
Qed.
End derive.

(** ** Witness *)

Definition op_with (method kind stmt : string) : Operation :=
  mkOperation method "/x" None [] None kind "" None stmt 0 None "" "" "" None.

Definition tool_with (name : string) (op : Operation) (hints : option ToolHints) : Tool :=
  mkTool name "" None None hints 0 None None op None.

Definition not_destructive : ToolHints := mkHints "" None (Some false) None None.

Definition marshal_op (op : Operation) : result string string := Ok (op_Method op +:+ op_Kind op +:+ op_Statement op).

Definition removal (title : string) (method : string) : Tool := tool_with "remove_x" (op_with method "" "") (Some (mkHints title None (Some false) None None)).

(** Saved with the right, relabelled without it; then another operation
    under the same name, refused. *)
Definition some_edits : list edit :=
  [Save (removal "" "DELETE") false false; Save (removal "" "DELETE") true false; Save (removal "Remove" "DELETE") false false;
   Save (removal "Remove" "PUT") false false].

Lemma saves_do_not_declassify_witness : (run_edits id marshal_op TransportHTTP (None, false) some_edits).1 = Some (removal "Remove" "DELETE") /\
  exists es1 e es2 x, some_edits = es1 ++ e :: es2 /\ lets_through TransportHTTP x (run_edits id marshal_op TransportHTTP (None, false) es1) e /\
    (run_edits id marshal_op TransportHTTP (None, false) (es1 ++ [e])).1 = Some x /\ (x = removal "Remove" "DELETE" \/ sameOperation marshal_op x (removal "Remove" "DELETE") = true).
Proof. split; [reflexivity|]. apply (saves_do_not_declassify id marshal_op TransportHTTP (None, false) some_edits); reflexivity. Defined.

(** A write stored while the connector is read-only is not destructive then,
    so its hint declassifies nothing; once the connector may write, the same
    definition is served as not destructive, and nobody was asked. *)
Example read_only_connector_hides_a_write :
  let write := tool_with "w" (op_with "" "sql" "DELETE FROM t") (Some not_destructive) in
  served_below id TransportDatabase
    (run_edits id marshal_op TransportDatabase (None, true) [Save write false true; SetReadOnly false]) = true.
Proof. vm_compute. reflexivity. Qed.

(** A statement that deletes behind a WITH is derived read-only. *)
Example a_with_that_deletes_is_read_only :
  let t := tool_with "purge" (op_with "" "sql" "WITH d AS (DELETE FROM t RETURNING id) SELECT * FROM d") None in
  an_ReadOnlyHint (Derive id t TransportDatabase false) = true /\ an_DestructiveHint (Derive id t TransportDatabase false) = false.
Proof. vm_compute. split; reflexivity. Qed.
