(* ===== verification/BoundedStore.v ===== *)
(** * BoundedStore: a store bounded by entries and by bytes

    The answer cache and the blob store of [internal/invoke] keep the same
    thing: entries oldest first, indexed by key, with the bytes they hold
    counted beside them, and room made by dropping the oldest.  The list and
    the map that indexes it are one list here; a lookup finds the entry of a
    key, and no key is held twice ([ok]).

    The counters are int64 in the source; a bound below 2^62 keeps their sums
    in range, and the configured ones are far below that. *)
From S2P Require Import Prelude Tables.

Open Scope list_scope.

Section store.
Context {P : Type}.

Record entry : Type := mkEntry { e_key : string; e_payload : P; e_expires : Z; e_size : Z }.

Record store : Type := mkStore { st_order : list entry; st_bytes : Z; st_maxEntries : Z; st_maxBytes : Z }.

Definition set_order (s : store) (l : list entry) (bytes : Z) : store := mkStore l bytes (st_maxEntries s) (st_maxBytes s).

Definition entry_at (s : store) (key : string) : option entry := List.find (fun e => String.eqb (e_key e) key) (st_order s).

(** [removeLocked] of the element that holds a key. *)
Definition removeLocked (s : store) (e : entry) : store :=
  set_order s (List.filter (fun x => negb (String.eqb (e_key x) (e_key e))) (st_order s)) (st_bytes s - e_size e).

(** The loop that makes room: what is left and whether the entry fits. *)
Fixpoint evict (maxEntries maxBytes size : Z) (l : list entry) (bytes : Z) : list entry * Z * bool :=
  if (maxEntries <=? Z.of_nat (length l))%Z || (maxBytes <? bytes + size)%Z then
    match l with
    | [] => ([], bytes, false)
    | e :: l => evict maxEntries maxBytes size l (bytes - e_size e)
    end
  else (l, bytes, true).

Definition push (s : store) (e : entry) : store := set_order s (st_order s ++ [e]) (st_bytes s + e_size e).

(** ** What a store keeps *)

Definition held (l : list entry) : Z := foldr (fun e n => e_size e + n)%Z 0%Z l.

Record ok (s : store) : Prop := {
  ok_keys : NoDup (map e_key (st_order s));
  ok_sizes : Forall (fun e => 0 <= e_size e)%Z (st_order s);
  ok_bytes : st_bytes s = held (st_order s);
  ok_count : (Z.of_nat (length (st_order s)) <= st_maxEntries s)%Z;
  ok_held : (st_bytes s <= st_maxBytes s)%Z;
}.

Lemma held_app l k : held (l ++ k) = (held l + held k)%Z.
Proof. induction l as [|e l IH]; [done|]. cbn [app held foldr]. fold (held (l ++ k)) (held l). rewrite IH. lia. Qed.

Lemma held_nonneg l : Forall (fun e => 0 <= e_size e)%Z l -> (0 <= held l)%Z.
Proof. induction 1 as [|e l H _ IH]; [done|]. cbn [held foldr]. fold (held l). lia. Qed.

Lemma empty_ok maxEntries maxBytes : (0 <= maxEntries)%Z -> (0 <= maxBytes)%Z -> ok (mkStore [] 0 maxEntries maxBytes).
Proof. intros. split; cbn; [constructor|constructor|done|done|done]. Qed.

Lemma entry_spec s key e : entry_at s key = Some e -> e ∈ st_order s /\ e_key e = key.
Proof.
  intros H. apply List.find_some in H as [H1 H2]. apply String.eqb_eq in H2. split; [by apply list_elem_of_In|done].
Qed.

Lemma entry_none s key : entry_at s key = None -> forall e, e ∈ st_order s -> e_key e <> key.
Proof. intros H e He. apply String.eqb_neq. by apply (List.find_none _ _ H), list_elem_of_In. Qed.

Lemma entry_held s e : ok s -> e ∈ st_order s -> entry_at s (e_key e) = Some e.
Proof. intros O He. apply (find_keyed e_key); [apply O|done]. Qed.

(** ** Removing one, making room, adding one *)

Lemma filter_other_keys e l : ~ e_key e ∈ map e_key l -> List.filter (fun x => negb (String.eqb (e_key x) (e_key e))) l = l.
Proof.
  intros N. apply filter_keeps_all. intros x Hx. apply negb_true_iff, String.eqb_neq. intros E. apply N. rewrite <- E.
  by apply list_elem_of_fmap_2.
Qed.

Lemma removed_split s e : ok s -> e ∈ st_order s ->
  exists l k, st_order s = l ++ e :: k /\ st_order (removeLocked s e) = l ++ k.
Proof.
  intros O He. apply list_elem_of_split in He as (l & k & E). exists l, k. split; [done|]. pose proof (ok_keys s O) as K.
  unfold removeLocked. cbn. rewrite E in *. rewrite map_app in K. cbn in K. apply NoDup_app in K as (_ & K1 & K2).
  apply NoDup_cons in K2 as [K2 _]. rewrite List.filter_app. cbn. rewrite String.eqb_refl. cbn. f_equal; apply filter_other_keys; [|done].
  intros H. apply (K1 _ H). by left.
Qed.

Lemma removeLocked_ok s e : ok s -> e ∈ st_order s -> ok (removeLocked s e).
Proof.
  intros O He. destruct (removed_split s e O He) as (l & k & E & E'). destruct O as [K Z B C H]. rewrite E in *.
  assert (held (l ++ e :: k) = e_size e + held (l ++ k))%Z as Hd by (rewrite !held_app; cbn [held foldr]; fold (held k); lia).
  apply Forall_app in Z as [Z1 Z2]. apply Forall_cons in Z2 as [Z2 Z3]. split; rewrite ?E'; cbn.
  - rewrite map_app in *. cbn in K. apply NoDup_app in K as (K1 & K2 & K3). apply NoDup_cons in K3 as [K3 K4].
    apply NoDup_app. split_and!; [done| |done]. intros x Hx Hk. apply (K2 x Hx). by right.
  - by apply Forall_app.
  - lia.
  - rewrite length_app in *. cbn in C. lia.
  - lia.
Qed.

(** What is evicted is the oldest entries, and only while the new one does
    not fit. *)
Lemma evict_spec maxE maxB size l bytes l' bytes' fits : evict maxE maxB size l bytes = (l', bytes', fits) -> bytes = held l ->
  exists d, l = d ++ l' /\ bytes' = held l' /\
    (fits = true -> Z.of_nat (length l') < maxE /\ held l' + size <= maxB)%Z /\ (fits = false -> l' = []) /\
    (forall d1 x d2, d = d1 ++ x :: d2 -> maxE <= Z.of_nat (length (x :: d2 ++ l')) \/ maxB < held (x :: d2 ++ l') + size)%Z.
Proof.
  revert bytes; induction l as [|e l IH]; intros bytes; cbn [evict]; destruct (_ || _) eqn:T; intros E Hb.
  - injection E as <- <- <-. exists []. split_and!; [done|done|done|done|]. by intros [] ? ?.
  - injection E as <- <- <-. exists []. bool_prop. split_and!; [done|done|intros _; rewrite <- Hb; cbn in *; lia|done|]. by intros [] ? ?.
  - destruct (IH (bytes - e_size e)%Z E) as (d & -> & H1 & H2 & H3 & H4); [rewrite Hb; cbn [held foldr]; fold (held l); lia|].
    exists (e :: d). split_and!; [done|done|done|done|]. intros [|e1 d1] x d2 Ed; [|injection Ed as <- Ed; by apply (H4 d1)].
    injection Ed as <- <-. subst bytes. bool_prop. destruct T as [T|T]; bool_prop; [left|right]; done.
  - injection E as <- <- <-. exists []. bool_prop. split_and!; [done|done|intros _; rewrite <- Hb; lia|done|]. by intros [] ? ?.
Qed.

Lemma push_ok s e l bytes : ok s -> evict (st_maxEntries s) (st_maxBytes s) (e_size e) (st_order s) (st_bytes s) = (l, bytes, true) ->
  (0 <= e_size e)%Z -> entry_at s (e_key e) = None -> ok (push (set_order s l bytes) e).
Proof.
  intros O E Z0 F. destruct (evict_spec _ _ _ _ _ _ _ _ E (ok_bytes s O)) as (d & Ed & Hb & Hf & _ & _). destruct (Hf eq_refl) as [Hc Hh].
  pose proof (entry_none _ _ F) as N. destruct O as [K Z B C H]. rewrite Ed in *. rewrite map_app in K. apply NoDup_app in K as (_ & _ & K).
  apply Forall_app in Z as [_ Z]. split; cbn.
  - rewrite map_app. apply NoDup_app. split_and!; [done| |apply NoDup_singleton]. intros x Hx Hk. apply list_elem_of_singleton in Hk as ->.
    apply list_elem_of_fmap in Hx as (y & Ey & Hy). apply (N y); [apply elem_of_app; by right|done].
  - apply Forall_app. split; [done|]. by constructor.
  - rewrite held_app. cbn. lia.
  - rewrite length_app. cbn. lia.
  - lia.
Qed.

Lemma evicted_ok s l bytes size b : ok s -> evict (st_maxEntries s) (st_maxBytes s) size (st_order s) (st_bytes s) = (l, bytes, b) ->
  ok (set_order s l bytes).
Proof.
  intros O E. destruct (evict_spec _ _ _ _ _ _ _ _ E (ok_bytes s O)) as (d & Ed & Hb & _). destruct O as [K Z B C H]. rewrite Ed in *.
  rewrite map_app in K. apply NoDup_app in K as (_ & _ & K). apply Forall_app in Z as [Zd Z]. pose proof (held_nonneg _ Zd) as Hd.
  rewrite held_app in B. rewrite length_app in C. split; cbn; [done|done|done|lia|lia].
Qed.

(** An entry within the budget always finds room. *)
Lemma evict_fits maxE maxB size l bytes : bytes = held l -> (0 < maxE)%Z -> (size <= maxB)%Z ->
  (evict maxE maxB size l bytes).2 = true.
Proof.
  intros Hb H1 H2. destruct (evict maxE maxB size l bytes) as [[l' b'] fits] eqn:E. cbn. destruct fits; [done|exfalso].
  revert bytes Hb E. induction l as [|e l IH]; intros bytes Hb; cbn [evict]; destruct (_ || _) eqn:T; [|done| |done].
  - bool_prop. cbn in Hb. subst. destruct T as [T|T]; bool_prop; cbn in *; lia.
  - apply IH. rewrite Hb. cbn [held foldr]. fold (held l). lia.
Qed.
End store.
Arguments entry : clear implicits.
Arguments store : clear implicits.
