(* ===== verification/Calls.v ===== *)
(** * Calls: one tool call (internal/invoke/invoke.go, internal/connector)

    The records a call is made of: the stored connector and tool, who calls
    and with what, and the result in the shape of the protocol.  The
    components of [internal/invoke] share them. *)
From S2P Require Import Prelude GoStrings Float64 Regex Values Authz Adapter.

Open Scope list_scope.

Record CredentialInfo : Type := mkCredentialInfo { ci_Name : string; ci_Set : bool; ci_Secret : bool; ci_Required : bool }.

(** [connector.Connector]. *)
Record Connector : Type := mkConnector {
  cn_ID : string;
  cn_OrgID : string;
  cn_Name : string;
  cn_Transport : Transport;
  cn_Auth : Auth;
  cn_Instructions : string;
  cn_CatalogSlug : string;
  cn_CatalogHash : string;
  cn_ReadOnly : bool;
  cn_Enabled : bool;
  cn_Version : Z;
  cn_ToolCount : Z;
  cn_Credentials : list CredentialInfo;
  cn_CreatedAt : Z;
  cn_UpdatedAt : Z;
  cn_TokenStored : bool;
}.

(** [connector.Tool]. *)
Record StoredTool : Type := mkStoredTool {
  st_ID : string;
  st_ConnectorID : string;
  st_Name : string;
  st_Definition : option Tool;
  st_OperationID : string;
  st_Enabled : bool;
  st_DeprecatedAt : option Z;
  st_Version : Z;
  st_Source : string;
  st_EditedAt : option Z;
  st_EditedBy : string;
  st_CreatedAt : Z;
  st_UpdatedAt : Z;
}.

(** [Call].  Its connector and tool are never nil: [Execute] reads them
    before anything else does. *)
Record Call : Type := mkToolCall {
  c_Principal : option Principal;
  c_ServerID : string;
  c_Tool : StoredTool;
  c_Connector : Connector;
  c_Args : list (string * value);
  c_Draft : bool;
}.

(** The kinds of content the program makes. *)
Inductive content : Type :=
  | TextContent (text : string)
  | ImageContent (data mimeType : string)
  | AudioContent (data mimeType : string)
  | EmbeddedResource (uri mimeType blob : string)
  | ResourceLink (uri name mimeType : string) (size : Z) (description : string).

(** [engine.Meta]. *)
Record Meta : Type := mkMeta {
  mt_UpstreamDurationMS : Z;
  mt_Retries : Z;
  mt_RowCount : Z;
  mt_Truncated : bool;
  mt_AuthRefreshed : bool;
}.

Definition no_meta : Meta := mkMeta 0 0 0 false false.

(** [Result]; a nil [Structured] is [VNil]. *)
Record Result : Type := mkResult {
  re_Content : list content;
  re_Structured : value;
  re_IsError : bool;
  re_Meta : Meta;
  re_UpstreamStatus : Z;
  re_Refusal : string;
}.

(** [callerVars]. *)
Definition callerVars (c : Call) : gmap string string :=
  let m := {["server" := c_ServerID c]} in
  match c_Principal c with
  | None => m
  | Some p => <["authMethod" := p_AuthMethod p]> (<["org" := p_OrgID p]> (<["email" := p_Email p]> (<["sub" := p_ID p]> m)))
  end.

Definition def_of (c : Call) : option Tool := st_Definition (c_Tool c).
Definition transport_of (c : Call) : string := tr_Type (cn_Transport (c_Connector c)).
