(* ===== verification/ResponseCache.v ===== *)
(** * ResponseCache: remembered answers (internal/invoke/cache.go)

    A successful answer of a read-only tool is kept for as long as its
    definition declares, in Redis when there is one and in this process
    otherwise, under a key that is a digest of everything that can change it.

    Redis and the JSON codecs are interfaces with the laws they document; the
    in-process map is [BoundedStore].  What Redis answers to one operation is
    part of [io], with the clocks: the process's when the operation begins
    and when a failure is noted, and Redis's own.  Several replicas, each
    with its own map, share one Redis. *)
From stdpp Require Import pretty.
From S2P Require Import Prelude GoStrings Float64 Regex Values Sha256 AuditEvents Authz Tables Tmpl Adapter ToolAnnotations BoundedStore Calls.

Open Scope list_scope.

Definition cacheKeyVersion : string := "supermcp/response-cache/v1".

Inductive CacheMode : Type := CacheModeRedis | CacheModeMemory | CacheModeFallback.

#[export] Instance CacheMode_eq_dec : EqDecision CacheMode.
Proof. solve_decision. Defined.

(** ** Keys *)

(** Eight bytes, most significant first. *)
Definition be64 (n : Z) : string := string_of (map (fun b => ascii_of_nat (Z.to_nat b)) (big_endian 8 n)).

(** [writeField], as what it adds to the hash's input. *)
Definition writeField (b : string) : string := be64 (Z.of_nat (String.length b)) +:+ b.

Definition fields (parts : list string) : string := foldr (fun p s => writeField p +:+ s) "" parts.

Record cacheKey : Type := mkCacheKey { ck_hash : string; ck_orgID : string; ck_ttl : Z }.

(** [cacheEntry]; an absent [Structured] is [None]. *)
Record cacheEntry : Type := mkCacheEntry {
  ce_Fingerprint : string;
  ce_OrgID : string;
  ce_Text : string;
  ce_Structured : option string;
  ce_RowCount : Z;
  ce_Truncated : bool;
}.

(** What [encoding/json] does for the program: values, documents, entries.
    [j_kept] is what encoding and decoding leave of a string: bytes that are
    not UTF-8 are replaced. *)
Class Json : Type := {
  j_value : value -> result string string;
  j_unvalue : string -> option value;
  j_tool : Tool -> result string string;
  j_transport : Transport -> result string string;
  j_auth : Auth -> result string string;
  j_entry : cacheEntry -> result string string;
  j_unentry : string -> option cacheEntry;
  j_kept : string -> string;
}.

Class JsonLaws (J : Json) : Prop := {
  j_ascii : forall s, str_forall is_ascii_byte s = true -> j_kept s = s;
  j_entry_back : forall e raw, j_entry e = Ok raw ->
    j_unentry raw = Some (mkCacheEntry (j_kept (ce_Fingerprint e)) (j_kept (ce_OrgID e)) (j_kept (ce_Text e)) (ce_Structured e)
                            (ce_RowCount e) (ce_Truncated e));
}.

(** Redis's strings with an expiry, the time being Redis's own.  A read
    answers what some SET wrote and has not expired; entries may go early. *)
Class Redis (R : Type) : Type := {
  rd_empty : R;
  rd_get : Z -> string -> R -> option string;
  rd_set : Z -> string -> string -> Z -> R -> R;
}.

Class RedisLaws (R : Type) `{Redis R} : Prop := {
  rd_get_empty : forall t k, rd_get t k rd_empty = None;
  rd_get_set : forall t t0 k k0 v v0 ttl r, rd_get t k (rd_set t0 k0 v0 ttl r) = Some v ->
    (v = v0 /\ t < t0 + ttl)%Z \/ rd_get t k r = Some v;
}.

(** SHA-256 and the Unicode case mapping are arguments. *)
Section cache.
Context {J : Json} (sha256 upper : string -> string).

(** [cacheable]: how long a call's answer stays true. *)
Definition cacheable (call : Call) : option Z :=
  match def_of call with
  | None => None
  | Some def =>
      match to_Response def with
      | None => None
      | Some rs =>
          if (rs_Cache rs <=? 0)%Z then None
          else
            let ann := Derive upper def (transport_of call) (cn_ReadOnly (c_Connector call)) in
            if negb (an_ReadOnlyHint ann) || an_DestructiveHint ann then None else Some (rs_Cache rs)
      end
  end.

(** [callerDependent]: the three documents, as JSON; a nil definition is the
    document null. *)
Definition documents (call : Call) : list (result string string) :=
  [match def_of call with Some def => j_tool def | None => Ok "null" end;
   j_transport (cn_Transport (c_Connector call)); j_auth (cn_Auth (c_Connector call))].

Definition names_caller (doc : result string string) : bool :=
  match doc with
  | Err _ => true
  | Ok b => Contains b "caller." || Contains b "req."
  end.

Definition callerDependent (call : Call) : bool := existsb names_caller (documents call).

(** The names in order, each followed by its value. *)
Definition caller_fields (vars : gmap string string) : list string :=
  flat_map (fun k => [k; default "" (vars !! k)]) (merge_sort String.le (map fst (map_to_list vars))).

Definition callerFingerprint (call : Call) : string := sha256 (fields (caller_fields (callerVars call))).

Definition key_parts (call : Call) (args : string) : list string :=
  let cn := c_Connector call in
  let tl := c_Tool call in
  let '(scope, caller) := if callerDependent call then ("principal", callerFingerprint call) else ("org", "") in
  [cacheKeyVersion; cn_OrgID cn; cn_ID cn; Itoa (cn_Version cn); st_ID tl; Itoa (st_Version tl); st_Name tl; scope; caller; args].

Definition cacheKeyFor (call : Call) : option cacheKey :=
  match cacheable call with
  | None => None
  | Some ttl =>
      match j_value (VMap (c_Args call)) with
      | Err _ => None
      | Ok args => Some (mkCacheKey (hex (sha256 (fields (key_parts call args)))) (cn_OrgID (c_Connector call)) ttl)
      end
  end.

(** ** The in-process map *)

Definition memory : Type := store string.

Definition memory_get (m : memory) (key : string) (now : Z) : option string * memory :=
  match entry_at m key with
  | None => (None, m)
  | Some e => if (now <? e_expires e)%Z then (Some (e_payload e), m) else (None, removeLocked m e)
  end.

Definition memory_put (m : memory) (key raw : string) (expires : Z) : memory :=
  let size := Z.of_nat (String.length key + String.length raw) in
  let m := match entry_at m key with Some old => removeLocked m old | None => m end in
  if (st_maxBytes m <? size)%Z then m
  else
    let '(order, bytes, fits) := evict (st_maxEntries m) (st_maxBytes m) size (st_order m) (st_bytes m) in
    let m := set_order m order bytes in
    if fits then push m (mkEntry key raw expires size) else m.

(** ** The two backings *)

(** [Cache].  [ca_told] is what [onDegraded] was called with, newest first. *)
Record Cache : Type := mkCache {
  ca_redis : option string;
  ca_memory : memory;
  ca_maxTTL : Z;
  ca_maxEntryBytes : Z;
  ca_mode : CacheMode;
  ca_recoverAfter : Z;
  ca_retryRedisAt : Z;
  ca_told : list CacheMode;
}.

Record CacheOptions : Type := mkCacheOptions {
  o_RedisURL : string;
  o_KeyPrefix : string;
  o_MaxEntries : Z;
  o_MaxBytes : Z;
  o_MaxEntryBytes : Z;
  o_MaxTTL : Z;
  o_RecoverAfter : Z;
}.

(** The environment of one operation.  [io_fails]: Redis did not answer, or
    answered with an error; a SET that failed may have been applied. *)
Record cache_io : Type := mkCacheIO {
  io_cancelled : bool;
  io_now : Z;
  io_later : Z;
  io_redis_now : Z;
  io_fails : bool;
  io_applied : bool;
}.

Definition with_memory (c : Cache) (m : memory) : Cache :=
  mkCache (ca_redis c) m (ca_maxTTL c) (ca_maxEntryBytes c) (ca_mode c) (ca_recoverAfter c) (ca_retryRedisAt c) (ca_told c).

(** [mode.Swap] and the call of [onDegraded] when it changed. *)
Definition swap_mode (c : Cache) (mode : CacheMode) (retry : Z) : Cache :=
  mkCache (ca_redis c) (ca_memory c) (ca_maxTTL c) (ca_maxEntryBytes c) mode (ca_recoverAfter c) retry
    (if bool_decide (ca_mode c = mode) then ca_told c else mode :: ca_told c).

Definition degrade (c : Cache) (now : Z) : Cache := swap_mode c CacheModeFallback (now + ca_recoverAfter c).
Definition recover (c : Cache) : Cache := swap_mode c CacheModeRedis (ca_retryRedisAt c).

Definition useRedis (c : Cache) (now : Z) : bool :=
  match ca_redis c with
  | None => false
  | Some _ => if bool_decide (ca_mode c = CacheModeRedis) then true else (ca_retryRedisAt c <=? now)%Z
  end.

Definition or_default (n d : Z) : Z := if (n <=? 0)%Z then d else n.

(** [NewCache]: [ParseURL] is the client library's; [ping] is whether Redis
    answered, [now] the clock when it did not. *)
Definition NewCache (ParseURL : string -> bool) (o : CacheOptions) (ping : bool) (now : Z) : result string Cache :=
  let prefix := if String.eqb (o_KeyPrefix o) "" then "supermcp:rc" else o_KeyPrefix o in
  let mem := mkStore [] 0 (or_default (o_MaxEntries o) 4096) (or_default (o_MaxBytes o) (64 * 2 ^ 20)) in
  let c redis mode := mkCache redis mem (or_default (o_MaxTTL o) (24 * 3600 * 1000000000)) (or_default (o_MaxEntryBytes o) (2 ^ 20))
                        mode (or_default (o_RecoverAfter o) (5 * 1000000000)) 0 [] in
  if String.eqb (o_RedisURL o) "" then Ok (c None CacheModeMemory)
  else if negb (ParseURL (o_RedisURL o)) then Err "parse redis url"
  else let c := c (Some prefix) CacheModeRedis in Ok (if ping then c else degrade c now).

(** [Mode] and [Degraded]; a nil cache is [None]. *)
Definition Mode (c : option Cache) : CacheMode := match c with Some c => ca_mode c | None => CacheModeMemory end.
Definition Degraded (c : option Cache) : bool :=
  match c with Some c => negb (bool_decide (ca_mode c = CacheModeRedis)) | None => false end.

Section backings.
Context {R : Type} {HR : Redis R}.

Definition redis_key (c : Cache) (key : cacheKey) : string := default "" (ca_redis c) +:+ ":" +:+ ck_hash key.

Definition get (c : Cache) (r : R) (io : cache_io) (key : cacheKey) : option string * Cache :=
  if io_cancelled io then (None, c)
  else
    let from_memory c := let '(raw, m) := memory_get (ca_memory c) (ck_hash key) (io_now io) in (raw, with_memory c m) in
    if useRedis c (io_now io) then
      if io_fails io then from_memory (degrade c (io_later io))
      else (rd_get (io_redis_now io) (redis_key c key) r, recover c)
    else from_memory c.

Definition put (c : Cache) (r : R) (io : cache_io) (key : cacheKey) (raw : string) (ttl : Z) : Cache * R :=
  if io_cancelled io then (c, r)
  else
    let to_memory c := with_memory c (memory_put (ca_memory c) (ck_hash key) raw (io_now io + ttl)) in
    if useRedis c (io_now io) then
      let written := rd_set (io_redis_now io) (redis_key c key) raw ttl r in
      if io_fails io then (to_memory (degrade c (io_later io)), if io_applied io then written else r)
      else (recover c, written)
    else (to_memory c, r).

(** ** Looking up and storing *)

(** The result an entry stands for, when it is the one asked for. *)
Definition entry_result (key : cacheKey) (raw : string) : option Result :=
  match j_unentry raw with
  | None => None
  | Some e =>
      if negb (String.eqb (ce_Fingerprint e) (ck_hash key)) || negb (String.eqb (ce_OrgID e) (ck_orgID key)) then None
      else
        let res s := mkResult [TextContent (ce_Text e)] s false (mkMeta 0 0 (ce_RowCount e) (ce_Truncated e) false) 0 "" in
        match ce_Structured e with
        | None => Some (res VNil)
        | Some b => if String.eqb b "" then Some (res VNil) else match j_unvalue b with Some s => Some (res s) | None => None end
        end
  end.

Definition Lookup (c : Cache) (r : R) (io : cache_io) (call : Call) : option Result * Cache :=
  match cacheKeyFor call with
  | None => (None, c)
  | Some key =>
      match get c r io key with
      | (None, c) => (None, c)
      | (Some raw, c) => (entry_result key raw, c)
      end
  end.

(** What is written for a result, when it may be remembered. *)
Definition to_store (c : Cache) (key : cacheKey) (res : Result) : option string :=
  match re_Content res with
  | [TextContent text] =>
      let entry s := j_entry (mkCacheEntry (ck_hash key) (ck_orgID key) text s (mt_RowCount (re_Meta res)) (mt_Truncated (re_Meta res))) in
      let sized raw := match raw with
                       | Err _ => None
                       | Ok raw => if (ca_maxEntryBytes c <? Z.of_nat (String.length raw))%Z then None else Some raw
                       end in
      match re_Structured res with
      | VNil => sized (entry None)
      | v => match j_value v with Ok b => sized (entry (Some b)) | Err _ => None end
      end
  | _ => None
  end.

Definition Store (c : Cache) (r : R) (io : cache_io) (call : Call) (res : Result) : Cache * R :=
  if re_IsError res || negb (re_UpstreamStatus res =? 0)%Z then (c, r)
  else match cacheKeyFor call with
       | None => (c, r)
       | Some key =>
           match to_store c key res with
           | None => (c, r)
           | Some raw => put c r io key raw (ck_ttl key `min` ca_maxTTL c)%Z
           end
       end.
End backings.
End cache.

(** ** The in-process map keeps its bounds *)

Lemma memory_get_ok (m : memory) key now : ok m -> ok (memory_get m key now).2.
Proof.
  intros O. unfold memory_get. destruct (entry_at m key) as [e|] eqn:F; [|done]. case_match; [done|].
  apply removeLocked_ok; [done|by apply entry_spec in F as [F _]].
Qed.

Lemma removed_key (m : memory) e : ok m -> e ∈ st_order m -> entry_at (removeLocked m e) (e_key e) = None.
Proof.
  intros O He. destruct (entry_at _ _) as [x|] eqn:F; [|done]. apply entry_spec in F as [F E]. cbn in F.
  apply list_elem_of_In, filter_In in F as [_ F]. by rewrite E, String.eqb_refl in F.
Qed.

(** Replacing what a key held: the store without it, and the key free. *)
Lemma replaced_fits (m : memory) key : ok m ->
  let m' := match entry_at m key with Some old => removeLocked m old | None => m end in ok m' /\ entry_at m' key = None.
Proof.
  intros O. destruct (entry_at m key) as [e|] eqn:F; [|done]. apply entry_spec in F as [F <-].
  split; [by apply removeLocked_ok|by apply removed_key].
Qed.

Lemma memory_put_ok (m : memory) key raw expires : ok m -> ok (memory_put m key raw expires).
Proof.
  intros O. unfold memory_put. destruct (replaced_fits m key O) as [O' F]. revert O' F. generalize (match entry_at m key with Some old => removeLocked m old | None => m end).
  intros m' O' F. case_match; [done|]. destruct (evict _ _ _ _ _) as [[l b] fits] eqn:E. destruct fits.
  - apply push_ok; [done|done|cbn; lia|done].
  - by eapply evicted_ok.
Qed.

(** What a map holds after a put was there before or is the new entry. *)
Lemma memory_put_elem (m : memory) key raw expires e : ok m -> e ∈ st_order (memory_put m key raw expires) ->
  e ∈ st_order m \/ e = mkEntry key raw expires (Z.of_nat (String.length key + String.length raw)).
Proof.
  intros O. unfold memory_put. destruct (replaced_fits m key O) as [O' F].
  assert (forall x, x ∈ st_order (match entry_at m key with Some old => removeLocked m old | None => m end) -> x ∈ st_order m) as Sub.
  { intros x. destruct (entry_at m key); [|done]. cbn. rewrite list_elem_of_In, filter_In, <- list_elem_of_In. by intros [? _]. }
  revert O' F Sub. generalize (match entry_at m key with Some old => removeLocked m old | None => m end). intros m' O' F Sub.
  case_match; [intros He; left; by apply Sub|]. destruct (evict _ _ _ _ _) as [[l b] fits] eqn:E.
  destruct (evict_spec _ _ _ _ _ _ _ _ E (ok_bytes m' O')) as (d & Ed & _).
  assert (forall x, x ∈ l -> x ∈ st_order m) as Sub' by (intros x Hx; apply Sub; rewrite Ed; apply elem_of_app; by right).
  destruct fits; cbn; [|by left; apply Sub']. intros [He|He]%elem_of_app; [left; by apply Sub'|right; by apply list_elem_of_singleton in He].
Qed.

Lemma memory_get_elem (m : memory) key now e : e ∈ st_order (memory_get m key now).2 -> e ∈ st_order m.
Proof.
  unfold memory_get. destruct (entry_at m key); [|done]. case_match; [done|]. cbn.
  rewrite list_elem_of_In, filter_In, <- list_elem_of_In. by intros [? _].
Qed.

Lemma memory_get_hit (m : memory) key now raw : (memory_get m key now).1 = Some raw ->
  exists e, e ∈ st_order m /\ e_key e = key /\ e_payload e = raw /\ (now < e_expires e)%Z.
Proof.
  unfold memory_get. destruct (entry_at m key) as [e|] eqn:F; [|done]. case_match eqn:T; [|done]. intros [= <-].
  apply entry_spec in F as [F1 F2]. bool_prop. by exists e.
Qed.

(** What was put and not evicted is found until it expires. *)
Lemma memory_get_put (m : memory) key raw expires now : ok m -> (0 < st_maxEntries m)%Z ->
  (Z.of_nat (String.length key + String.length raw) <= st_maxBytes m)%Z -> (now < expires)%Z ->
  (memory_get (memory_put m key raw expires) key now).1 = Some raw.
Proof.
  intros O H1 H2 H3. pose proof (memory_put_ok m key raw expires O) as O2. set (e := mkEntry key raw expires (Z.of_nat (String.length key + String.length raw))).
  assert (e ∈ st_order (memory_put m key raw expires)) as He.
  { unfold memory_put. destruct (replaced_fits m key O) as [O' _].
    assert (st_maxBytes (match entry_at m key with Some old => removeLocked m old | None => m end) = st_maxBytes m /\
            st_maxEntries (match entry_at m key with Some old => removeLocked m old | None => m end) = st_maxEntries m) as [B1 B2]
      by (by destruct (entry_at m key)).
    revert O' B1 B2. generalize (match entry_at m key with Some old => removeLocked m old | None => m end). intros m' O' B1 B2.
    rewrite (proj2 (Z.ltb_ge _ _)) by lia.
    pose proof (evict_fits (st_maxEntries m') (st_maxBytes m') (e_size e) (st_order m') (st_bytes m') (ok_bytes m' O')) as Fit.
    fold (e_size e). destruct (evict _ _ _ _ _) as [[l b] fits]. cbn in Fit. cbn [e_size e] in *. rewrite Fit by lia. apply elem_of_app. right. by left. }
  unfold memory_get. change key with (e_key e) at 2. rewrite (entry_held _ _ O2 He). cbn. by rewrite (proj2 (Z.ltb_lt _ _)).
Qed.

(** ** Equal keys are keys of equal questions *)

Lemma app_inj_len (a b c d : string) : String.length a = String.length b -> a +:+ c = b +:+ d -> a = b /\ c = d.
Proof.
  revert b; induction a as [|x a IH]; intros [|y b] L E; try done. rewrite !app_cons_str in E. injection L as L. injection E as -> E.
  destruct (IH b L E) as [-> ->]. done.
Qed.

Lemma map_inj_in {A B} (f : A -> B) (l k : list A) : (forall x y, x ∈ l -> y ∈ k -> f x = f y -> x = y) -> map f l = map f k -> l = k.
Proof.
  revert k; induction l as [|x l IH]; intros [|y k] I E; try done. injection E as E1 E2. f_equal.
  - apply I; [by left|by left|done].
  - apply IH; [|done]. intros u v Hu Hv. apply I; by right.
Qed.

Lemma byte_bit a q i : (0 <= i - 8 * q < 8)%Z -> (0 <= q)%Z ->
  Z.testbit (Z.land (Z.shiftr a (8 * q)) 255) (i - 8 * q) = Z.testbit a i.
Proof.
  intros H Hq. rewrite Z.land_spec, Z.shiftr_spec by lia. change 255%Z with (Z.ones 8). rewrite Z.ones_spec_low by lia.
  rewrite andb_true_r. f_equal. lia.
Qed.

Lemma bit_above a n i : (0 <= a < 2 ^ n)%Z -> (0 <= n <= i)%Z -> Z.testbit a i = false.
Proof. intros H Hi. rewrite <- (Z.mod_small a (2 ^ n)) by done. by apply Z.mod_pow2_bits_high. Qed.

(** Two numbers of [n] bytes with the same bytes are equal. *)
Lemma big_endian_inj n a b : (0 <= a < 2 ^ (8 * Z.of_nat n))%Z -> (0 <= b < 2 ^ (8 * Z.of_nat n))%Z -> big_endian n a = big_endian n b -> a = b.
Proof.
  intros Ha Hb E. unfold big_endian in E. apply (f_equal (@rev Z)) in E. rewrite !rev_involutive in E.
  pose proof (ext_in_map E) as Eq. apply Z.bits_inj'. intros i Hi.
  destruct (Z.lt_ge_cases i (8 * Z.of_nat n)) as [L|L]; [|by rewrite !(bit_above _ (8 * Z.of_nat n) i) by (done || lia)].
  pose proof (Z.div_mod i 8) as D. pose proof (Z.mod_pos_bound i 8) as M. set (q := (i / 8)%Z) in *.
  rewrite <- (byte_bit a q i), <- (byte_bit b q i) by lia. f_equal.
  specialize (Eq (Z.to_nat q)). cbv beta in Eq. rewrite Z2Nat.id in Eq by lia. apply Eq, in_seq. lia.
Qed.

Lemma shifted_byte_range x i : (0 <= Z.land (Z.shiftr x i) 255 < 256)%Z.
Proof. change 255%Z with (Z.ones 8). rewrite Z.land_ones by lia. apply Z.mod_pos_bound. lia. Qed.

Lemma be64_inj a b : (0 <= a < 2 ^ 64)%Z -> (0 <= b < 2 ^ 64)%Z -> be64 a = be64 b -> a = b.
Proof.
  intros Ha Hb E. apply (big_endian_inj 8); [done|done|]. unfold be64 in E. apply (f_equal bytes_of) in E. unfold bytes_of, string_of in E.
  rewrite !String.list_ascii_of_string_of_list_ascii in E. revert E. apply map_inj_in. intros x y Hx Hy E.
  assert (forall n z, z ∈ big_endian 8 n -> (0 <= z < 256)%Z) as Rg.
  { intros n z. unfold big_endian. rewrite list_elem_of_In, <- in_rev, in_map_iff. intros (i & <- & _). apply shifted_byte_range. }
  apply Rg in Hx. apply Rg in Hy. apply (f_equal nat_of_ascii) in E. rewrite !nat_ascii_embedding in E by lia. lia.
Qed.

Lemma be64_length n : String.length (be64 n) = 8.
Proof. unfold be64, string_of. by rewrite string_length_of, length_map, length_big_endian. Qed.

(** A string a Go program can hold: its length is an int. *)
Definition go_string (s : string) : Prop := (Z.of_nat (String.length s) < 2 ^ 63)%Z.

Lemma writeField_inj a b s t : go_string a -> go_string b -> writeField a +:+ s = writeField b +:+ t -> a = b /\ s = t.
Proof.
  unfold writeField, go_string. rewrite !app_assoc_str. intros Ha Hb E. apply app_inj_len in E as [E1 E2]; [|by rewrite !be64_length].
  apply be64_inj in E1; [|lia|lia]. apply app_inj_len in E2; [done|lia].
Qed.

Lemma writeField_nonempty a s : writeField a +:+ s <> "".
Proof. intros E. apply (f_equal String.length) in E. unfold writeField in E. rewrite !length_app_str, be64_length in E. done. Qed.

Lemma fields_inj l k : Forall go_string l -> Forall go_string k -> fields l = fields k -> l = k.
Proof.
  intros Hl. revert k. induction Hl as [|a l Ha _ IH]; intros [|b k] Hk E; [done| | |].
  - by apply symmetry, writeField_nonempty in E.
  - by apply writeField_nonempty in E.
  - inversion Hk; subst. cbn in E. apply writeField_inj in E as [-> E]; [|done|done]. f_equal. by apply IH.
Qed.

Lemma hex_digit_nibble n : n < 16 -> nibble (AuditEvents.hex_digit n) = Z.of_nat n.
Proof. intros H. do 16 (destruct n as [|n]; [reflexivity|]). lia. Qed.

Lemma hex_digit_inj n m : n < 16 -> m < 16 -> AuditEvents.hex_digit n = AuditEvents.hex_digit m -> n = m.
Proof. intros Hn Hm E. apply (f_equal nibble) in E. rewrite !hex_digit_nibble in E by done. lia. Qed.

Lemma hex_inj a b : hex a = hex b -> a = b.
Proof.
  unfold hex, string_of. intros E. apply (f_equal bytes_of) in E. unfold bytes_of in E. rewrite !String.list_ascii_of_string_of_list_ascii in E.
  revert b E. induction a as [|x a IH]; intros [|y b] E; cbn [flat_map String.list_ascii_of_string app] in E; [done|done|done|].
  assert (forall (u v : ascii) l k, u :: l = v :: k -> u = v /\ l = k) as C by (intros u v l k Q; by injection Q).
  apply C in E as [E1 E]. apply C in E as [E2 E3].
  f_equal; [|by apply IH].
  pose proof (nat_ascii_bounded x) as Bx. pose proof (nat_ascii_bounded y) as By.
  apply hex_digit_inj in E1; [|apply Nat.Div0.div_lt_upper_bound; lia|apply Nat.Div0.div_lt_upper_bound; lia].
  apply hex_digit_inj in E2; [|apply Nat.mod_upper_bound; lia|apply Nat.mod_upper_bound; lia].
  rewrite <- (ascii_nat_embedding x), <- (ascii_nat_embedding y). f_equal.
  rewrite (Nat.div_mod_eq (nat_of_ascii x) 16), (Nat.div_mod_eq (nat_of_ascii y) 16). lia.
Qed.

(** ** A string that names no caller renders alike for every caller *)

Lemma Contains_true s p : Contains s p = true <-> exists a b, s = a +:+ p +:+ b.
Proof.
  unfold Contains. split.
  - destruct (Index s p) as [n|] eqn:E; [|done]. intros _. apply Index_spec in E as (_ & E & _). apply prefix_true in E as [u E].
    exists (str_take n s), u. by rewrite <- E, str_take_drop.
  - intros (a & b & ->). induction a as [|c a IH]; [rewrite app_empty_l|rewrite app_cons_str].
    + pose proof (prefix_app p b) as E. destruct (p +:+ b); cbn [Index]; by rewrite E.
    + cbn [Index]. destruct (String.prefix p _); [done|]. by destruct (Index _ p).
Qed.

Lemma Contains_app a s b p : Contains s p = true -> Contains (a +:+ s +:+ b) p = true.
Proof.
  rewrite !Contains_true. intros (u & v & ->). exists (a +:+ u), (v +:+ b). by rewrite !app_assoc_str.
Qed.

Lemma Contains_suffix u s p : (exists q, u = q +:+ s) -> Contains s p = true -> Contains u p = true.
Proof. intros [q ->] H. rewrite <- (app_empty_r s). by apply Contains_app. Qed.

Lemma Contains_prefix u s p : (exists q, u = s +:+ q) -> Contains s p = true -> Contains u p = true.
Proof. intros [q ->] H. rewrite <- (app_empty_l (s +:+ q)). by apply Contains_app. Qed.

Lemma TrimRight_prefix s : exists q, s = TrimRightSpace s +:+ q.
Proof.
  unfold TrimRightSpace. destruct (trim_go_suffix (map str_rev space_encodings) (String.length s) (str_rev s)) as [q E].
  exists (str_rev q). apply (f_equal str_rev) in E. rewrite str_rev_involutive, str_rev_app in E. by rewrite E at 1.
Qed.

Lemma Contains_TrimSpace s p : Contains (TrimSpace s) p = true -> Contains s p = true.
Proof.
  intros H. eapply Contains_suffix; [apply (trim_go_suffix space_encodings (String.length s) s)|].
  eapply Contains_prefix; [apply TrimRight_prefix|]. exact H.
Qed.

Lemma Split_head_prefix s c : exists q, s = hd "" (Split s c) +:+ q.
Proof.
  induction s as [|a s [q IH]]; [by exists ""|]. cbn [Split]. destruct (decide (a = c)); [by exists (String a s)|].
  destruct (Split s c) as [|x l] eqn:E; [by apply Split_nonempty in E|]. cbn in *. exists q. by rewrite IH at 1.
Qed.

Lemma slice_sub s i j t : slice_str s i j = Ok t -> exists a b, s = a +:+ t +:+ b.
Proof.
  unfold slice_str. case_match; [|done]. intros [= <-]. exists (str_take (Z.to_nat i) s), (str_drop (Z.to_nat (j - i)) (str_drop (Z.to_nat i) s)).
  by rewrite str_take_drop, str_take_drop.
Qed.

(** A placeholder holds the name of its namespace and a dot. *)
Lemma parseRef_namespace raw r : parseRef raw = Ok r -> r_NS r <> "literal" -> Contains raw (r_NS r +:+ ".") = true.
Proof.
  unfold parseRef. destruct (slice_str raw 2 _) as [inner|] eqn:S1; [|done]. cbn. destruct (slice_sub _ _ _ _ S1) as (a & b & ->).
  destruct (HasPrefix _ _ && _); [destruct (slice_str (TrimSpace inner) 1 _); [|done]; cbn; intros [= <-] N; by destruct N|].
  destruct (Cut _ ".") as [[ns path] ok] eqn:C. destruct ok; cbn; [|done]. destruct (_ || _); [done|]. destruct (negb _); [done|].
  destruct (parse_filters _ _); [|done]. cbn. intros [= <-] _. cbn. apply Contains_app, Contains_TrimSpace.
  eapply Contains_prefix; [apply (Split_head_prefix _ "|")|]. apply Contains_TrimSpace. apply Cut_found in C. rewrite C.
  apply Contains_true. exists "", path. by rewrite app_empty_l, app_assoc_str.
Qed.

Lemma segments_sub s segs rest r : segments s segs rest -> r ∈ map snd segs -> exists a b, s = a +:+ r_raw r +:+ b.
Proof.
  induction 1 as [|lit r0 tail segs rest Ho Hi Hs IH]; [by intros ?%elem_of_nil|]. cbn. intros [->|H]%elem_of_cons; [by eexists _, _|].
  destruct (IH H) as (a & b & ->). exists (lit +:+ r_raw r0 +:+ a), b. by rewrite !app_assoc_str.
Qed.

Lemma refs_from_parsed fuel s i refs r : refs_from fuel s i = Ok refs -> r ∈ refs -> parseRef (r_raw r) = Ok r.
Proof.
  revert i refs; induction fuel as [|fuel IH]; intros i refs; cbn [refs_from]; [intros [= <-]; by intros ?%elem_of_nil|].
  destruct (Index _ opening); [|intros [= <-]; by intros ?%elem_of_nil]. destruct (Index _ closing); [|done].
  destruct (parseRef (str_take _ _)) as [r0|] eqn:P; [|done]. cbn. destruct (refs_from fuel _ _) as [rest|] eqn:E; [|done]. cbn. intros [= <-].
  intros [->|H]%elem_of_cons; [|by eapply IH]. by rewrite (parseRef_raw _ _ P).
Qed.

(** A reference to a namespace only occurs in a string that holds its name
    and a dot. *)
Lemma ref_names_namespace s refs r : Refs s = Ok refs -> r ∈ refs -> r_NS r <> "literal" -> Contains s (r_NS r +:+ ".") = true.
Proof.
  intros E Hr N. pose proof (refs_from_parsed _ _ _ _ _ E Hr) as P. apply Refs_segments in E as (segs & rest & Hs & ->).
  destruct (segments_sub _ _ _ _ Hs Hr) as (a & b & ->). apply Contains_app. by apply parseRef_namespace.
Qed.

(** Values that differ only in who calls and in the request being signed. *)
Record same_but_caller (v w : Vars) : Prop := {
  sb_params : v_Params v = v_Params w;
  sb_env : v_Env v = v_Env w;
  sb_auth : v_Auth v = v_Auth w;
}.

Lemma lookup_ref_same v w r : same_but_caller v w -> r_NS r <> "caller" -> r_NS r <> "req" -> lookup_ref v r = lookup_ref w r.
Proof.
  intros [E1 E2 E3] N1 N2. unfold lookup_ref. rewrite E1, E2, E3.
  rewrite (proj2 (String.eqb_neq (r_NS r) "caller") N1), (proj2 (String.eqb_neq (r_NS r) "req") N2). done.
Qed.

Section renders_alike.
Context (marshal : value -> result string string) (unmarshal : string -> option value)
  (format_float : float64 -> string) (lower upper' : string -> string).

Lemma interpolate_same v w mode refs tail sb missing :
  (forall r, r ∈ refs -> lookup_ref v r = lookup_ref w r) ->
  interpolate marshal unmarshal format_float lower upper' v mode refs tail sb missing =
  interpolate marshal unmarshal format_float lower upper' w mode refs tail sb missing.
Proof.
  revert tail sb missing; induction refs as [|r refs IH]; intros tail sb missing H; [done|]. cbn [interpolate].
  unfold resolve. rewrite (H r) by left. destruct (cut_at tail (r_raw r)) as [[lit t]|]; [|done]. cbn.
  destruct (applyFilters _ _ _ _ _ _ _) as [[[x p] raw]|]; [|done]. cbn.
  repeat case_match; apply IH; intros r' Hr'; apply H; by right.
Qed.

Lemma sql_loop_same_refs v w d refs tail sb args :
  (forall r, r ∈ refs -> lookup_ref v r = lookup_ref w r) ->
  sql_loop marshal unmarshal format_float lower upper' v d refs tail sb args =
  sql_loop marshal unmarshal format_float lower upper' w d refs tail sb args.
Proof.
  revert tail sb args; induction refs as [|r refs IH]; intros tail sb args H; [done|]. cbn [sql_loop].
  unfold resolve. rewrite (H r) by left. destruct (cut_at tail (r_raw r)) as [[lit t]|]; [|done]. cbn.
  destruct (applyFilters _ _ _ _ _ _ _) as [[[x p] raw]|]; [|done]. cbn.
  repeat case_match; try done; apply IH; intros r' Hr'; apply H; by right.
Qed.

Lemma refs_same v w s refs : same_but_caller v w -> Contains s "caller." = false -> Contains s "req." = false ->
  Refs s = Ok refs -> forall r, r ∈ refs -> lookup_ref v r = lookup_ref w r.
Proof.
  intros S C1 C2 E r Hr. destruct (decide (r_NS r = "literal")) as [L|L].
  { unfold lookup_ref. by rewrite L. }
  pose proof (ref_names_namespace _ _ _ E Hr L) as N. apply lookup_ref_same; [done| |]; intros Q; rewrite Q in N;
    [change ("caller" +:+ ".") with "caller." in N|change ("req" +:+ ".") with "req." in N]; congruence.
Qed.

Lemma Render_same v w s mode : same_but_caller v w -> Contains s "caller." = false -> Contains s "req." = false ->
  Render marshal unmarshal format_float lower upper' s v mode = Render marshal unmarshal format_float lower upper' s w mode.
Proof.
  intros S C1 C2. unfold Render. destruct (Refs s) as [refs|] eqn:E; [|done]. cbn. pose proof (refs_same _ _ _ _ S C1 C2 E) as H.
  destruct refs as [|r [|r2 rest]]; [done| |].
  - destruct (String.eqb (r_raw r) s).
    + unfold resolve. by rewrite (H r) by left.
    + by rewrite (interpolate_same v w).
  - by rewrite (interpolate_same v w).
Qed.

Lemma SQL_same v w s d : same_but_caller v w -> Contains s "caller." = false -> Contains s "req." = false ->
  SQL marshal unmarshal format_float lower upper' s v d = SQL marshal unmarshal format_float lower upper' s w d.
Proof.
  intros S C1 C2. unfold SQL. destruct (Refs s) as [refs|] eqn:E; [|done]. cbn. apply sql_loop_same_refs. by apply (refs_same _ _ s).
Qed.
End renders_alike.

(** ** Keys of one hash are keys of one question *)

(** Two strings with one digest: SHA-256 is broken at them. *)
Lemma caller_fields_inj v w : caller_fields v = caller_fields w -> v = w.
Proof.
  unfold caller_fields. set (ks m := merge_sort String.le (map fst (map_to_list (m : gmap string string)))).
  assert (forall m : gmap string string, forall k, k ∈ ks m <-> is_Some (m !! k)) as Dom.
  { intros m k. unfold ks. rewrite merge_sort_Permutation. change (map fst) with (fmap (M := list) (@fst string string)). rewrite list_elem_of_fmap. split.
    - intros ([k' x] & -> & H). apply elem_of_map_to_list in H. by exists x.
    - intros [x H]. exists (k, x). split; [done|]. by apply elem_of_map_to_list. }
  assert (forall l k, flat_map (fun k => [k; default "" (v !! k)]) l = flat_map (fun k => [k; default "" (w !! k)]) k ->
            l = k /\ forall x, x ∈ l -> default "" (v !! x) = default "" (w !! x)) as Inj.
  { induction l as [|a l IH]; intros [|b k] E; try done; [split; [done|by intros ? ?%elem_of_nil]|]. cbn in E. injection E as -> E1 E2.
    destruct (IH k E2) as [-> H]. split; [done|]. intros x [->|Hx]%elem_of_cons; [done|by apply H]. }
  intros E. destruct (Inj (ks v) (ks w) E) as [Ek Ev]. apply map_eq. intros k.
  pose proof (Dom v k) as Dv. pose proof (Dom w k) as Dw. rewrite <- Ek in Dw.
  destruct (v !! k) as [x|] eqn:Ex; destruct (w !! k) as [y|] eqn:Ey; [|exfalso..|done].
  - assert (k ∈ ks v) as H by (apply Dv; by eexists). specialize (Ev k H). rewrite Ex, Ey in Ev. cbn in Ev. by subst.
  - assert (k ∈ ks v) as H by (apply Dv; by eexists). by apply Dw in H as [? [=]].
  - assert (k ∈ ks v) as H by (apply Dw; by eexists). by apply Dv in H as [? [=]].
Qed.

Section questions.
Context {J : Json} (sha256 upper : string -> string).

Definition args_json (call : Call) : string := match j_value (VMap (c_Args call)) with Ok b => b | Err _ => "" end.

(** What is hashed for a key, and for the caller within it. *)
Definition key_material (call : Call) : string := fields (key_parts sha256 call (args_json call)).
Definition caller_material (call : Call) : string := fields (caller_fields (callerVars call)).

(** What two calls share when the answer to one may answer the other. *)
Record same_question (a b : Call) : Prop := {
  sq_org : cn_OrgID (c_Connector a) = cn_OrgID (c_Connector b);
  sq_connector : cn_ID (c_Connector a) = cn_ID (c_Connector b) /\ cn_Version (c_Connector a) = cn_Version (c_Connector b);
  sq_tool : st_ID (c_Tool a) = st_ID (c_Tool b) /\ st_Version (c_Tool a) = st_Version (c_Tool b) /\ st_Name (c_Tool a) = st_Name (c_Tool b);
  sq_args : args_json a = args_json b;
  sq_scope : callerDependent a = callerDependent b;
  sq_caller : callerDependent a = true -> callerVars a = callerVars b;
}.

(** The strings of a call are strings a Go program can hold. *)
Definition go_call (call : Call) : Prop :=
  Forall go_string (key_parts sha256 call (args_json call)) /\ Forall go_string (caller_fields (callerVars call)).

Lemma key_of_hash call key : cacheKeyFor sha256 upper call = Some key ->
  ck_hash key = hex (sha256 (key_material call)) /\ ck_orgID key = cn_OrgID (c_Connector call) /\ cacheable upper call = Some (ck_ttl key).
Proof.
  unfold cacheKeyFor, key_material, args_json. destruct (cacheable upper call); [|done]. destruct (j_value _); [|done]. by intros [= <-].
Qed.

(** [a] and [b] ask one question, or SHA-256 is broken at what was hashed. *)
Definition one_question (a b : Call) : Prop :=
  same_question a b \/ collision sha256 (key_material a) (key_material b) \/ collision sha256 (caller_material a) (caller_material b).

Definition scope_of (call : Call) : string := if callerDependent call then "principal" else "org".
Definition caller_of (call : Call) : string := if callerDependent call then callerFingerprint sha256 call else "".

Lemma key_parts_eq call args : key_parts sha256 call args =
  let cn := c_Connector call in let tl := c_Tool call in
  [cacheKeyVersion; cn_OrgID cn; cn_ID cn; Itoa (cn_Version cn); st_ID tl; Itoa (st_Version tl); st_Name tl; scope_of call; caller_of call; args].
Proof. unfold key_parts, scope_of, caller_of. by destruct (callerDependent call). Qed.

Lemma parts_inj a b x y : key_parts sha256 a x = key_parts sha256 b y ->
  cn_OrgID (c_Connector a) = cn_OrgID (c_Connector b) /\ cn_ID (c_Connector a) = cn_ID (c_Connector b) /\
  Itoa (cn_Version (c_Connector a)) = Itoa (cn_Version (c_Connector b)) /\ st_ID (c_Tool a) = st_ID (c_Tool b) /\
  Itoa (st_Version (c_Tool a)) = Itoa (st_Version (c_Tool b)) /\ st_Name (c_Tool a) = st_Name (c_Tool b) /\
  scope_of a = scope_of b /\ caller_of a = caller_of b /\ x = y.
Proof.
  rewrite !key_parts_eq. cbv zeta. generalize (scope_of a), (scope_of b), (caller_of a), (caller_of b). intros ? ? ? ? E.
  injection E. tauto.
Qed.

Lemma equal_hashes a b ka kb : go_call a -> go_call b -> cacheKeyFor sha256 upper a = Some ka -> cacheKeyFor sha256 upper b = Some kb ->
  ck_hash ka = ck_hash kb -> one_question a b.
Proof.
  intros [Ga1 Ga2] [Gb1 Gb2] Ka Kb E. destruct (key_of_hash _ _ Ka) as [Ha _]. destruct (key_of_hash _ _ Kb) as [Hb _].
  rewrite Ha, Hb in E. clear Ha Hb Ka Kb. apply hex_inj, digest_eq in E as [E|C]; [|by right; left].
  apply fields_inj, parts_inj in E; [|done|done]. destruct E as (E1 & E2 & E3 & E4 & E5 & E6 & E7 & E8 & E9).
  apply (inj pretty) in E3. apply (inj pretty) in E5. unfold scope_of, caller_of in *.
  destruct (callerDependent a) eqn:Da, (callerDependent b) eqn:Db; [|discriminate E7|discriminate E7|].
  - unfold callerFingerprint in E8. apply digest_eq in E8 as [E8|C]; [|by right; right]. apply fields_inj, caller_fields_inj in E8; [|done|done].
    left. refine (Build_same_question _ _ E1 (conj E2 E3) (conj E4 (conj E5 E6)) E9 _ (fun _ => E8)). by rewrite Da, Db.
  - left. refine (Build_same_question _ _ E1 (conj E2 E3) (conj E4 (conj E5 E6)) E9 _ _); [by rewrite Da, Db|by rewrite Da].
Qed.

Lemma hex_ascii s : str_forall is_ascii_byte (hex s) = true.
Proof.
  unfold hex, string_of. induction s as [|c s IH]; [done|]. unfold bytes_of in *. cbn [String.list_ascii_of_string flat_map app String.string_of_list_ascii str_forall].
  rewrite IH, andb_true_r. assert (forall n, n < 16 -> is_ascii_byte (AuditEvents.hex_digit n) = true) as A
    by (intros n Hn; do 16 (destruct n as [|n]; [reflexivity|]); lia).
  pose proof (nat_ascii_bounded c). rewrite !A; [done|apply Nat.mod_upper_bound; lia|apply Nat.Div0.div_lt_upper_bound; lia].
Qed.
End questions.

(** ** Replicas at work

    Any number of replicas, each with its own cache, over one Redis.  A step
    is one lookup or one store by one of them, in whatever environment;
    [w_stores] is every store that was asked for, newest first. *)
Section runs.
Context {J : Json} {JL : JsonLaws J} {R : Type} {HR : Redis R} {RL : RedisLaws R} (sha256 upper : string -> string).

Record stored : Type := mkStored { sd_cache : Cache; sd_call : Call; sd_res : Result; sd_io : cache_io }.

Record world : Type := mkWorld { w_caches : list Cache; w_redis : R; w_stores : list stored }.

Inductive step (w : world) : world -> Prop :=
  | step_lookup i c io call : w_caches w !! i = Some c ->
      step w (mkWorld (<[i := (Lookup sha256 upper c (w_redis w) io call).2]> (w_caches w)) (w_redis w) (w_stores w))
  | step_store i c io call res : w_caches w !! i = Some c ->
      step w (mkWorld (<[i := (Store sha256 upper c (w_redis w) io call res).1]> (w_caches w)) (Store sha256 upper c (w_redis w) io call res).2
                (mkStored c call res io :: w_stores w)).

(** Caches as [NewCache] makes them, and an empty Redis. *)
Definition started (w : world) : Prop :=
  w_redis w = rd_empty /\ w_stores w = [] /\
  forall c, c ∈ w_caches w -> exists ParseURL o ping now, NewCache ParseURL o ping now = Ok c.

Definition reachable (w : world) : Prop := exists w0, started w0 /\ rtc step w0 w.

(** How long what a store wrote may be answered. *)
Definition lifetime (s : stored) : Z :=
  match cacheable upper (sd_call s) with Some ttl => (ttl `min` ca_maxTTL (sd_cache s))%Z | None => 0%Z end.

(** A store wrote these bytes. *)
Definition wrote (s : stored) (raw : string) : Prop :=
  re_IsError (sd_res s) = false /\ re_UpstreamStatus (sd_res s) = 0%Z /\
  exists key, cacheKeyFor sha256 upper (sd_call s) = Some key /\ to_store (sd_cache s) key (sd_res s) = Some raw.

Record mem_logged (m : memory) (log : list stored) : Prop := {
  ml_ok : ok m;
  ml_room : (0 < st_maxEntries m)%Z;
  ml_logged : forall e, e ∈ st_order m ->
    exists s, s ∈ log /\ wrote s (e_payload e) /\ (e_expires e = io_now (sd_io s) + lifetime s)%Z;
}.

Definition redis_logged (r : R) (log : list stored) : Prop :=
  forall t k raw, rd_get t k r = Some raw -> exists s, s ∈ log /\ wrote s raw /\ (t < io_redis_now (sd_io s) + lifetime s)%Z.

Record invariant (w : world) : Prop := {
  iv_mem : forall c, c ∈ w_caches w -> mem_logged (ca_memory c) (w_stores w);
  iv_redis : redis_logged (w_redis w) (w_stores w);
}.

Lemma mem_logged_more m log s : mem_logged m log -> mem_logged m (s :: log).
Proof.
  intros [O Rm L]. split; [done|done|]. intros e He. destruct (L e He) as (x & Hx & H). exists x. split; [by right|done].
Qed.

Lemma redis_logged_more r log s : redis_logged r log -> redis_logged r (s :: log).
Proof. intros L t k raw H. destruct (L t k raw H) as (x & Hx & Q). exists x. split; [by right|done]. Qed.

Lemma or_default_pos n d : (0 < d)%Z -> (0 < or_default n d)%Z.
Proof. unfold or_default. case_match; bool_prop; lia. Qed.

Lemma NewCache_memory P o ping now c : NewCache P o ping now = Ok c ->
  ok (ca_memory c) /\ (0 < st_maxEntries (ca_memory c))%Z /\ st_order (ca_memory c) = [].
Proof.
  intros H. assert (ca_memory c = mkStore [] 0 (or_default (o_MaxEntries o) 4096) (or_default (o_MaxBytes o) (64 * 2 ^ 20))) as ->.
  { revert H. unfold NewCache. case_match; [by intros [= <-]|]. case_match; [done|]. intros [= <-]. by destruct ping. }
  pose proof (or_default_pos (o_MaxEntries o) 4096 ltac:(lia)). pose proof (or_default_pos (o_MaxBytes o) (64 * 2 ^ 20) ltac:(lia)).
  split_and!; [apply empty_ok; lia|done|done].
Qed.

Lemma started_invariant w : started w -> invariant w.
Proof.
  intros (Er & Es & Hc). split.
  - intros c Hin. destruct (Hc c Hin) as (P & o & ping & now & N). apply NewCache_memory in N as (O & Rm & E).
    split; [done|done|]. rewrite E. by intros e ?%elem_of_nil.
  - rewrite Er. intros t k raw H. by rewrite rd_get_empty in H.
Qed.

(** Only the map's own operations change it. *)
Lemma memory_get_logged m key now log : mem_logged m log -> mem_logged (memory_get m key now).2 log.
Proof.
  intros [O Rm L]. split; [by apply memory_get_ok| |].
  - unfold memory_get. repeat case_match; done.
  - intros e He. apply L. by eapply memory_get_elem.
Qed.

Lemma evict_room (m : memory) key raw expires : st_maxEntries (memory_put m key raw expires) = st_maxEntries m.
Proof. unfold memory_put. repeat case_match; done. Qed.

Lemma memory_put_logged m key raw s log : mem_logged m log -> wrote s raw -> s ∈ log ->
  mem_logged (memory_put m key raw (io_now (sd_io s) + lifetime s)) log.
Proof.
  intros [O Rm L] W Hs. split; [by apply memory_put_ok|by rewrite evict_room|].
  intros e He. destruct (memory_put_elem _ _ _ _ _ O He) as [He'| ->]; [by apply L|by exists s].
Qed.

Lemma get_logged c r io key log : mem_logged (ca_memory c) log -> mem_logged (ca_memory (get c r io key).2) log.
Proof.
  intros L. unfold get. destruct (io_cancelled io); [done|].
  assert (forall c', ca_memory c' = ca_memory c -> mem_logged (ca_memory (let '(raw, m) := memory_get (ca_memory c') (ck_hash key) (io_now io) in (raw, with_memory c' m)).2) log) as G.
  { intros c' E. pose proof (memory_get_logged _ (ck_hash key) (io_now io) _ L) as Q. rewrite E. by destruct (memory_get _ _ _). }
  destruct (useRedis c (io_now io)); [|by apply G]. destruct (io_fails io); [by apply G|done].
Qed.

Lemma Lookup_logged c r io call log : mem_logged (ca_memory c) log -> mem_logged (ca_memory (Lookup sha256 upper c r io call).2) log.
Proof.
  intros L. unfold Lookup. destruct (cacheKeyFor sha256 upper call) as [key|]; [|done]. pose proof (get_logged c r io key log L) as Q.
  destruct (get c r io key) as [[raw|] c']; exact Q.
Qed.

Lemma redis_set_logged r t k raw ttl s log : redis_logged r log -> wrote s raw -> s ∈ log -> t = io_redis_now (sd_io s) -> ttl = lifetime s ->
  redis_logged (rd_set t k raw ttl r) log.
Proof.
  intros L W Hs -> -> t' k' raw' H. apply rd_get_set in H as [[-> H]|H]; [by exists s|by eapply L].
Qed.

(** A store leaves every entry accounted for. *)
Lemma Store_logged c r io call res log : let s := mkStored c call res io in
  mem_logged (ca_memory c) log -> redis_logged r log -> mem_logged (ca_memory (Store sha256 upper c r io call res).1) (s :: log) /\ redis_logged (Store sha256 upper c r io call res).2 (s :: log).
Proof.
  intros s L%(mem_logged_more _ _ s) Lr%(redis_logged_more _ _ s). unfold Store. destruct (_ || _) eqn:E; [done|]. bool_prop.
  destruct (cacheKeyFor sha256 upper call) as [key|] eqn:K; [|done]. destruct (to_store c key res) as [raw|] eqn:T; [|done].
  assert (s ∈ s :: log) as Hs by left. assert (wrote s raw) as W by (split_and!; [done|done|by exists key]).
  assert ((ck_ttl key `min` ca_maxTTL c)%Z = lifetime s) as -> by (unfold lifetime; cbn; destruct (key_of_hash _ _ _ _ K) as (_ & _ & ->); done).
  unfold put. destruct (io_cancelled io); [done|]. pose proof (memory_put_logged _ (ck_hash key) raw s _ L W Hs) as Lm.
  pose proof (redis_set_logged r (io_redis_now io) (redis_key c key) raw (lifetime s) s _ Lr W Hs eq_refl eq_refl) as Lw.
  destruct (useRedis c (io_now io)); [|done]. destruct (io_fails io); cbn; [|done]. split; [done|by destruct (io_applied io)].
Qed.

Lemma elem_of_list_insert {A} (l : list A) i x y : y ∈ <[i:=x]> l -> y = x \/ y ∈ l.
Proof.
  intros H. apply list_elem_of_lookup in H as [j H]. apply list_lookup_insert_Some in H as [(_ & E & _)|[_ H]]; [by left|right].
  by eapply list_elem_of_lookup_2.
Qed.

Lemma step_invariant w w' : invariant w -> step w w' -> invariant w'.
Proof.
  intros [M Rd] St. destruct St as [i c io call Hi|i c io call res Hi].
  - pose proof (M c (list_elem_of_lookup_2 _ _ _ Hi)) as L. split; [|done]. intros c' H. cbn in H.
    apply elem_of_list_insert in H as [->|H]; [by apply Lookup_logged|by apply M].
  - pose proof (M c (list_elem_of_lookup_2 _ _ _ Hi)) as L. destruct (Store_logged c (w_redis w) io call res _ L Rd) as [Lm Lr].
    split; [|exact Lr]. intros c' H. cbn in H. apply elem_of_list_insert in H as [->|H]; [exact Lm|]. by apply mem_logged_more, M.
Qed.

Lemma reachable_invariant w : reachable w -> invariant w.
Proof.
  intros (w0 & S & H). apply started_invariant in S. induction H as [w|w w1 w2 St _ IH]; [done|]. apply IH. by eapply step_invariant.
Qed.

(** ** What a hit is *)

(** A result made from what a store kept: its text, its structured content
    as JSON gives it back, its row count, and nothing about an upstream call. *)
Record made_from (s : stored) (res : Result) : Prop := {
  mf_text : exists text, re_Content (sd_res s) = [TextContent text] /\ re_Content res = [TextContent (j_kept text)];
  mf_structured : (re_Structured (sd_res s) = VNil /\ re_Structured res = VNil) \/
    exists b, j_value (re_Structured (sd_res s)) = Ok b /\ (b = "" \/ j_unvalue b = Some (re_Structured res));
  mf_meta : re_Meta res = mkMeta 0 0 (mt_RowCount (re_Meta (sd_res s))) (mt_Truncated (re_Meta (sd_res s))) false;
  mf_ok : re_IsError res = false /\ re_IsError (sd_res s) = false /\ re_UpstreamStatus (sd_res s) = 0%Z;
}.

(** Within the time it may be answered, on the clock of whoever kept it. *)
Definition within_lifetime (s : stored) (io : cache_io) : Prop :=
  (io_now io < io_now (sd_io s) + lifetime s)%Z \/ (io_redis_now io < io_redis_now (sd_io s) + lifetime s)%Z.

Lemma get_wrote c r io key raw log : mem_logged (ca_memory c) log -> redis_logged r log -> (get c r io key).1 = Some raw ->
  exists s, s ∈ log /\ wrote s raw /\ within_lifetime s io.
Proof.
  intros [_ _ L] Lr. unfold get. destruct (io_cancelled io); [done|].
  assert (forall c', ca_memory c' = ca_memory c -> (let '(raw, m) := memory_get (ca_memory c') (ck_hash key) (io_now io) in (raw, with_memory c' m)).1 = Some raw ->
            exists s, s ∈ log /\ wrote s raw /\ within_lifetime s io) as G.
  { intros c' E H. rewrite E in H. destruct (memory_get (ca_memory c) (ck_hash key) (io_now io)) as [o m] eqn:Q. cbn in H. subst o.
    destruct (memory_get_hit _ _ _ _ (f_equal fst Q)) as (e & He & _ & <- & T). destruct (L e He) as (s & Hs & W & Ex).
    exists s. split_and!; [done|done|left; lia]. }
  destruct (useRedis c (io_now io)); [|by apply G]. destruct (io_fails io); [by apply G|]. cbn. intros H.
  destruct (Lr _ _ _ H) as (s & Hs & W & T). exists s. split_and!; [done|done|by right].
Qed.

Lemma to_store_entry c key res raw : to_store c key res = Some raw ->
  exists text st, re_Content res = [TextContent text] /\
    j_entry (mkCacheEntry (ck_hash key) (ck_orgID key) text st (mt_RowCount (re_Meta res)) (mt_Truncated (re_Meta res))) = Ok raw /\
    ((re_Structured res = VNil /\ st = None) \/ exists b, j_value (re_Structured res) = Ok b /\ st = Some b).
Proof.
  unfold to_store. destruct (re_Content res) as [|[text| | | |] [|? ?]]; try done.
  assert (forall e, match j_entry e with Ok raw => if (ca_maxEntryBytes c <? Z.of_nat (String.length raw))%Z then None else Some raw | Err _ => None end = Some raw ->
            j_entry e = Ok raw) as Sz by (intros e; destruct (j_entry e); [case_match; [done|by intros [= ->]]|done]).
  destruct (re_Structured res) eqn:E; [intros Q%Sz; exists text, None; auto|..];
    (destruct (j_value _) as [js|] eqn:V; [|done]); intros Q%Sz; exists text, (Some js); split_and!; try done; right; by exists js.
Qed.

Lemma entry_made_from s key' raw res : wrote s raw -> entry_result key' raw = Some res ->
  exists key, cacheKeyFor sha256 upper (sd_call s) = Some key /\ ck_hash key = ck_hash key' /\ made_from s res.
Proof.
  intros (Er & Us & key & K & T). destruct (to_store_entry _ _ _ _ T) as (text & st & C & E & S). unfold entry_result.
  rewrite (j_entry_back _ _ E). cbn [ce_Fingerprint ce_OrgID ce_Text ce_Structured ce_RowCount ce_Truncated].
  rewrite (j_ascii (ck_hash key)) by (destruct (key_of_hash _ _ _ _ K) as [-> _]; apply hex_ascii).
  destruct (_ || _) eqn:N; [done|]. bool_prop. intros Q. exists key. split_and!; [done|done|].
  destruct S as [[S ->]|(b & V & ->)].
  - injection Q as <-. split; [by exists text|by left|done|done].
  - destruct (String.eqb_spec b "") as [Eb|Nb]; [injection Q as <-; split; [by exists text|right; exists b; auto|done|done]|].
    destruct (j_unvalue b) as [v|] eqn:U; [|done]. injection Q as <-. split; [by exists text|right; exists b; auto|done|done].
Qed.

(** C9. A remembered answer is the answer to the question asked: however
    many replicas look up and store, over a Redis that fails and recovers, a
    hit is made from a result that was stored, not an error, for a call of
    the same organisation, connector, tool, versions and arguments, and of
    the same caller when the upstream request can depend on who calls; and
    it is within the time the definition and the operator allow.  Unless
    SHA-256 has a collision at the very strings that were hashed. *)
Theorem hit_answers_the_question w i c io call res :
  reachable w -> w_caches w !! i = Some c -> go_call sha256 call -> (forall s, s ∈ w_stores w -> go_call sha256 (sd_call s)) ->
  (Lookup sha256 upper c (w_redis w) io call).1 = Some res ->
  exists s, s ∈ w_stores w /\ one_question sha256 (sd_call s) call /\ made_from s res /\ within_lifetime s io.
Proof.
  intros [M Rd]%reachable_invariant Hi G Gs. pose proof (M c (list_elem_of_lookup_2 _ _ _ Hi)) as L. unfold Lookup.
  destruct (cacheKeyFor sha256 upper call) as [key'|] eqn:K'; [|done]. destruct (get c (w_redis w) io key') as [[raw|] c'] eqn:E; [|done]. cbn. intros H.
  destruct (get_wrote _ _ _ _ _ _ L Rd (f_equal fst E)) as (s & Hs & W & F).
  destruct (entry_made_from _ _ _ _ W H) as (key & K & Eh & Md). exists s. split_and!; [done| |done|done].
  by apply (equal_hashes sha256 upper _ _ key key'); [apply Gs|..].
Qed.

(** The map of a replica never holds more entries, or more bytes, than
    it may, and the bytes it counts are the bytes it holds. *)
Theorem map_stays_bounded w c : reachable w -> c ∈ w_caches w ->
  let m := ca_memory c in
  (Z.of_nat (length (st_order m)) <= st_maxEntries m)%Z /\ (st_bytes m <= st_maxBytes m)%Z /\ st_bytes m = held (st_order m) /\
  NoDup (map e_key (st_order m)).
Proof.
  intros [M _]%reachable_invariant Hc. destruct (M c Hc) as [[K Z B C Hd] _ _]. done.
Qed.

(** What was stored is found again: in a process without Redis, after a
    plain text answer of a cacheable call was stored and while it may be
    answered, a lookup of the call answers it. *)
Theorem stored_answer_is_found c r r' io io' call res key raw text :
  ok (ca_memory c) -> (0 < st_maxEntries (ca_memory c))%Z -> ca_redis c = None ->
  cacheKeyFor sha256 upper call = Some key -> j_kept (ck_orgID key) = ck_orgID key ->
  re_IsError res = false -> re_UpstreamStatus res = 0%Z -> re_Structured res = VNil -> re_Content res = [TextContent text] ->
  to_store c key res = Some raw -> (Z.of_nat (String.length (ck_hash key) + String.length raw) <= st_maxBytes (ca_memory c))%Z ->
  io_cancelled io = false -> io_cancelled io' = false -> (io_now io' < io_now io + ck_ttl key `min` ca_maxTTL c)%Z ->
  (Lookup sha256 upper (Store sha256 upper c r io call res).1 r' io' call).1 =
    Some (mkResult [TextContent (j_kept text)] VNil false (mkMeta 0 0 (mt_RowCount (re_Meta res)) (mt_Truncated (re_Meta res)) false) 0 "").
Proof.
  intros O Rm NoR K Ko Er Us St Ct T Sz C1 C2 Tm. destruct (to_store_entry _ _ _ _ T) as (text' & st & Ct' & E & S).
  rewrite Ct in Ct'. injection Ct' as <-. destruct S as [[_ ->]|(b & V & ->)].
  2: { exfalso. unfold to_store in T. rewrite Ct, St in T. destruct (j_entry (mkCacheEntry _ _ _ None _ _)) as [x|] eqn:X; [|done].
       case_match; [done|]. injection T as ->. apply j_entry_back in E. apply j_entry_back in X. rewrite E in X. discriminate X. }
  unfold Store, Lookup. rewrite Er, Us. cbn [orb negb Z.eqb]. rewrite K, T. unfold put, get, useRedis. rewrite C1, NoR. cbn [fst ca_redis with_memory].
  rewrite C2. pose proof (memory_get_put (ca_memory c) (ck_hash key) raw _ (io_now io') O Rm Sz Tm) as G. rewrite NoR. cbn [ca_memory with_memory].
  destruct (memory_get _ _ _) as [o m]. cbn in G. subst o. cbn [fst]. unfold entry_result. rewrite (j_entry_back _ _ E).
  cbn [ce_Fingerprint ce_OrgID ce_Text ce_Structured ce_RowCount ce_Truncated].
  rewrite (j_ascii (ck_hash key)) by (destruct (key_of_hash _ _ _ _ K) as [-> _]; apply hex_ascii).
  by rewrite Ko, !String.eqb_refl.
Qed.
End runs.

(** ** Who calls does not matter when the key leaves it out *)

(** The strings of a transport that are templates. *)
Definition transport_strings (t : Transport) : list string := tr_BaseURL t :: tr_DSN t :: map snd (tr_Headers t).

(** The encoding of a document holds what its strings hold, for text of
    letters and dots, which JSON never escapes. *)
Class JsonNames (J : Json) : Prop := {
  jn_tool : forall t b s p, j_tool t = Ok b -> s ∈ operationStrings (to_Operation t) -> p ∈ ["caller."; "req."] -> Contains s p = true -> Contains b p = true;
  jn_transport : forall t b s p, j_transport t = Ok b -> s ∈ transport_strings t -> p ∈ ["caller."; "req."] -> Contains s p = true -> Contains b p = true;
  jn_auth : forall a b s p, j_auth a = Ok b -> s ∈ authStrings a -> p ∈ ["caller."; "req."] -> Contains s p = true -> Contains b p = true;
}.

(** The templates a call renders. *)
Definition templates (call : Call) : list string :=
  match def_of call with Some def => operationStrings (to_Operation def) | None => [] end ++
  transport_strings (cn_Transport (c_Connector call)) ++ authStrings (cn_Auth (c_Connector call)).

Lemma clear_document doc : names_caller doc = false -> exists b, doc = Ok b /\ forall p, p ∈ ["caller."; "req."] -> Contains b p = false.
Proof.
  unfold names_caller. destruct doc as [b|]; [|done]. intros H. apply orb_false_iff in H as [H1 H2]. exists b. split; [done|].
  intros p. rewrite !elem_of_cons, elem_of_nil. by intros [->|[->|[]]].
Qed.

Lemma templates_clear {J : Json} {JN : JsonNames J} call s p : callerDependent call = false -> s ∈ templates call -> p ∈ ["caller."; "req."] ->
  Contains s p = false.
Proof.
  intros D Hs Hp. unfold callerDependent, documents in D. cbn [existsb] in D. apply orb_false_iff in D as [D1 D2].
  apply orb_false_iff in D2 as [D2 D3]. apply orb_false_iff in D3 as [D3 _]. unfold templates in Hs.
  apply clear_document in D2 as (b2 & E2 & N2). apply clear_document in D3 as (b3 & E3 & N3).
  apply not_true_iff_false. intros C. apply elem_of_app in Hs as [Hs|[Hs|Hs]%elem_of_app].
  - destruct (def_of call) as [def|]; [|by apply elem_of_nil in Hs]. apply clear_document in D1 as (b1 & E1 & N1).
    pose proof (jn_tool _ _ _ _ E1 Hs Hp C) as Q. by rewrite (N1 p Hp) in Q.
  - pose proof (jn_transport _ _ _ _ E2 Hs Hp C) as Q. by rewrite (N2 p Hp) in Q.
  - pose proof (jn_auth _ _ _ _ E3 Hs Hp C) as Q. by rewrite (N3 p Hp) in Q.
Qed.

(** C33. When a key leaves the caller out, the caller cannot reach the
    upstream: every template of the operation, the transport and the
    credentials renders to the same value, and every statement to the same
    text and arguments, whoever calls. *)
Theorem shared_answers_do_not_depend_on_the_caller {J : Json} {JN : JsonNames J} marshal unmarshal format_float lower upper call s v w :
  callerDependent call = false -> s ∈ templates call -> same_but_caller v w ->
  (forall mode, Render marshal unmarshal format_float lower upper s v mode = Render marshal unmarshal format_float lower upper s w mode) /\
  (forall d, SQL marshal unmarshal format_float lower upper s v d = SQL marshal unmarshal format_float lower upper s w d).
Proof.
  intros D Hs Sm. pose proof (templates_clear call s "caller." D Hs ltac:(by left)) as C1.
  pose proof (templates_clear call s "req." D Hs ltac:(right; by left)) as C2.
  split; intros x; [by apply Render_same|by apply SQL_same].
Qed.

(** ** Witnesses *)

Lemma Contains_Join l sep s p : s ∈ l -> Contains s p = true -> Contains (Join l sep) p = true.
Proof.
  intros Hs C. induction l as [|x l IH]; [by apply elem_of_nil in Hs|]. destruct l as [|y l].
  - apply list_elem_of_singleton in Hs as ->. exact C.
  - cbn [Join]. apply elem_of_cons in Hs as [->|Hs]; [by eapply Contains_prefix; [eexists|]|].
    eapply Contains_suffix; [exists (x +:+ sep); by rewrite app_assoc_str|]. by apply IH.
Qed.

(** A codec of plain entries without structured content. *)
Definition plain_entry (e : cacheEntry) : result string string :=
  match ce_Structured e with
  | Some _ => Err "structured"
  | None =>
      if has_byte "," (ce_Fingerprint e) || has_byte "," (ce_OrgID e) || negb (ce_RowCount e =? 0)%Z || ce_Truncated e then Err "plain only"
      else Ok (ce_Fingerprint e +:+ "," +:+ ce_OrgID e +:+ "," +:+ ce_Text e)
  end.

Definition plain_unentry (raw : string) : option cacheEntry :=
  let '(f, rest, ok1) := Cut raw "," in
  let '(o, t, ok2) := Cut rest "," in
  if ok1 && ok2 then Some (mkCacheEntry f o t None 0 false) else None.

Definition plain_value (v : value) : result string string :=
  match v with VMap [] => Ok "{}" | VMap [(k, VStr s)] => Ok (k +:+ ":" +:+ s) | _ => Err "unsupported" end.

Definition plain_json : Json :=
  Build_Json plain_value (fun _ => None) (fun t => Ok (Join (operationStrings (to_Operation t)) ","))
    (fun t => Ok (Join (transport_strings t) ",")) (fun a => Ok (Join (authStrings a) ",")) plain_entry plain_unentry id.

Lemma plain_json_laws : JsonLaws plain_json.
Proof.
  split; [done|]. intros [f o t [b|] n x] raw; cbn; [done|]. unfold plain_entry. cbn. destruct (_ || _) eqn:E; [done|]. bool_prop.
  intros [= <-]. unfold plain_unentry. change (f +:+ "," +:+ o +:+ "," +:+ t) with (f +:+ String "," (o +:+ String "," t)).
  rewrite (Cut_byte "," f (o +:+ String "," t)), (Cut_byte "," o t) by done. cbn. by subst.
Qed.

Lemma Ok_inj {E A} (a b : A) : @Ok E A a = Ok b -> a = b.
Proof. by intros [=]. Qed.

Lemma plain_json_names : JsonNames plain_json.
Proof. split; intros t b s p E%Ok_inj Hs _ C; rewrite <- E; by apply (Contains_Join _ _ s). Qed.

Definition map_redis : Redis (gmap string (string * Z)) :=
  Build_Redis _ ∅ (fun t k m => match m !! k with Some (v, exp) => if (t <? exp)%Z then Some v else None | None => None end)
    (fun t k v ttl m => <[k := (v, t + ttl)%Z]> m).

Lemma map_redis_laws : @RedisLaws _ map_redis.
Proof.
  split; [done|]. cbn. intros t t0 k k0 v v0 ttl r. destruct (decide (k = k0)) as [->|N].
  - rewrite lookup_insert_eq. case_match; [|done]. intros [= <-]. bool_prop. left. split; [done|lia].
  - rewrite lookup_insert_ne by done. by right.
Qed.

Definition no_auth : Auth :=
  mkAuth "none" false "" "" "" "" "" "" "" "" "" [] "" "" "" "" "" [] "" "" [] "" "" "" "" None [] [] None None "" "" "" "" "" "" "" "" "" ""
    None [].

Definition http_to (url : string) : Transport := mkTransport "http" url "" "" [] 0 None false.

Definition cached_get (path : string) : Tool :=
  mkTool "crm_get_user" "" None None None 0 None None (mkOperation "GET" path None [] None "" "" None "" 0 None "" "" "" None)
    (Some (mkResponse None 60000000000 [] 0 None)).

Definition connector_of (org : string) : Connector :=
  mkConnector "c1" org "crm" (http_to "https://crm.example") no_auth "" "" "" false true 3 1 [] 0 0 false.

Definition stored_tool (def : Tool) : StoredTool := mkStoredTool "t1" "c1" (to_Name def) (Some def) "" true None 7 "custom" None "" 0 0.

Definition person (id : string) : Principal :=
  mkPrincipal KindUser id "acme" "s1" "" "" "" [] false "session" (id +:+ "@acme.example") false (mkSignIn 0 "" "" []).

Definition get_user (path who : string) : Call :=
  mkToolCall (Some (person who)) "srv" (stored_tool (cached_get path)) (connector_of "acme") [("id", VStr "42")] false.

Definition an_answer : Result := mkResult [TextContent "Ada"] VNil false no_meta 0 "".

(** A hash for the witnesses: the text itself. *)
Definition same_text (s : string) : string := s.

Definition memory_options : CacheOptions := mkCacheOptions "" "" 8 10000 5000 0 0.

Definition a_cache : Cache := mkCache None (mkStore [] 0 8 10000) 86400000000000 5000 CacheModeMemory 5000000000 0 [].

Definition at_time (t : Z) : cache_io := mkCacheIO false t t t false false.

Definition asked_once : world (R := gmap string (string * Z)) := mkWorld [a_cache] ∅ [].

Definition shared_path : string := "/users/{{params.id}}".

Definition answered_once : world (R := gmap string (string * Z)) :=
  mkWorld [(Store (J := plain_json) (HR := map_redis) same_text id a_cache ∅ (at_time 1000) (get_user shared_path "ann") an_answer).1] ∅
    [mkStored a_cache (get_user shared_path "ann") an_answer (at_time 1000)].

Lemma answered_once_reachable : reachable (J := plain_json) (HR := map_redis) same_text id answered_once.
Proof.
  exists asked_once. split.
  - split_and!; [done|done|]. intros c Hc. apply list_elem_of_singleton in Hc as ->. by exists (fun _ => true), memory_options, true, 0%Z.
  - apply rtc_once. pose proof (step_store (J := plain_json) (HR := map_redis) same_text id asked_once 0 a_cache (at_time 1000) (get_user shared_path "ann") an_answer eq_refl) as S.
    exact S.
Qed.

Lemma small_strings l : forallb (fun s => (Z.of_nat (String.length s) <? 1000)%Z) l = true -> Forall go_string l.
Proof.
  intros H. rewrite forallb_forall in H. apply Forall_forall. intros s Hs. apply list_elem_of_In, H in Hs. bool_prop. unfold go_string. lia.
Qed.

Lemma get_user_go path who : forallb (fun s => (Z.of_nat (String.length s) <? 1000)%Z)
    (key_parts (J := plain_json) same_text (get_user path who) (args_json (J := plain_json) (get_user path who)) ++
     caller_fields (callerVars (get_user path who))) = true ->
  go_call (J := plain_json) same_text (get_user path who).
Proof. intros H%small_strings. by apply Forall_app in H. Qed.

Lemma hit_answers_the_question_witness :
  exists s, s ∈ w_stores answered_once /\
    one_question (J := plain_json) same_text (sd_call s) (get_user shared_path "bob") /\
    made_from (J := plain_json) s (mkResult [TextContent "Ada"] VNil false no_meta 0 "") /\
    within_lifetime id s (at_time 2000).
Proof.
  apply (hit_answers_the_question (J := plain_json) (JL := plain_json_laws) (RL := map_redis_laws) same_text id answered_once 0
           (default a_cache (w_caches answered_once !! 0)) (at_time 2000) (get_user shared_path "bob")).
  - exact answered_once_reachable.
  - reflexivity.
  - apply get_user_go. vm_compute. reflexivity.
  - intros s Hs. apply list_elem_of_singleton in Hs as ->. apply get_user_go. vm_compute. reflexivity.
  - vm_compute. reflexivity.
Defined.

Lemma map_stays_bounded_witness :
  let m := ca_memory (default a_cache (w_caches answered_once !! 0)) in
  (Z.of_nat (length (st_order m)) <= st_maxEntries m)%Z /\ (st_bytes m <= st_maxBytes m)%Z /\ st_bytes m = held (st_order m) /\
  NoDup (map e_key (st_order m)).
Proof.
  apply (map_stays_bounded (J := plain_json) (RL := map_redis_laws) same_text id answered_once); [exact answered_once_reachable|].
  by left.
Defined.

Lemma stored_answer_is_found_witness :
  let call := get_user shared_path "ann" in
  (Lookup (J := plain_json) (HR := map_redis) same_text id
     (Store (J := plain_json) (HR := map_redis) same_text id a_cache ∅ (at_time 1000) call an_answer).1 ∅ (at_time 2000) call).1 =
    Some (mkResult [TextContent "Ada"] VNil false no_meta 0 "").
Proof.
  refine (stored_answer_is_found (J := plain_json) (JL := plain_json_laws) (HR := map_redis) same_text id a_cache ∅ ∅ (at_time 1000) (at_time 2000)
    (get_user shared_path "ann") an_answer
    (default (mkCacheKey "" "" 0) (cacheKeyFor (J := plain_json) same_text id (get_user shared_path "ann")))
    (default "" (to_store (J := plain_json) a_cache (default (mkCacheKey "" "" 0) (cacheKeyFor (J := plain_json) same_text id (get_user shared_path "ann"))) an_answer))
    "Ada" _ _ _ _ _ _ _ _ _ _ _ _ _ _).
  - apply empty_ok; done.
  - reflexivity.
  - reflexivity.
  - vm_compute. reflexivity.
  - reflexivity.
  - reflexivity.
  - reflexivity.
  - reflexivity.
  - reflexivity.
  - vm_compute. reflexivity.
  - vm_compute. discriminate.
  - reflexivity.
  - reflexivity.
  - vm_compute. reflexivity.
Defined.

Definition vars_of (who : string) : Vars := mkVars [("id", VStr "42")] ∅ {["sub" := who]} ∅ ∅.

Lemma shared_answers_do_not_depend_on_the_caller_witness :
  (forall mode, Render (fun _ => Err "") (fun _ => None) (fun _ => "") id id shared_path (vars_of "ann") mode =
                Render (fun _ => Err "") (fun _ => None) (fun _ => "") id id shared_path (vars_of "bob") mode) /\
  (forall d, SQL (fun _ => Err "") (fun _ => None) (fun _ => "") id id shared_path (vars_of "ann") d =
             SQL (fun _ => Err "") (fun _ => None) (fun _ => "") id id shared_path (vars_of "bob") d).
Proof.
  apply (shared_answers_do_not_depend_on_the_caller (J := plain_json) (JN := plain_json_names) _ _ _ _ _ (get_user shared_path "ann")).
  - vm_compute. reflexivity.
  - by left.
  - by split.
Defined.

(** A path that names the caller makes a key of its own for each. *)
Example a_callers_answer_is_the_callers :
  let path := "/users/{{caller.sub}}" in
  callerDependent (J := plain_json) (get_user path "ann") = true /\
  cacheKeyFor (J := plain_json) same_text id (get_user path "ann") <> cacheKeyFor (J := plain_json) same_text id (get_user path "bob").
Proof. split; [vm_compute; reflexivity|]. vm_compute. discriminate. Qed.
