(* ===== verification/Blobs.v ===== *)
(** * Blobs: results too large for a transcript (internal/invoke/content.go,
    blobstore.go, blobseal.go)

    A binary result is embedded, or held and answered with a link that only
    the principal it was made for can follow.  The stores are the interface
    [BlobStore]: one in memory, one in the table [tool_blobs], one in Redis,
    one that falls back from the first of two stores to the second, and one
    that seals what another keeps.  Their common promise is
    [BlobStoreLaws], proved of each; the theorem is about the stores the
    server composes of them.

    The random bytes, clocks and failures of an operation are arguments.  An
    identifier is sixteen random bytes; the map and the table are used with
    identifiers not held yet, which is what the bytes are random for. *)
From S2P Require Import Prelude GoStrings Base64 Float64 Regex Values Authz Tables Secrets Adapter BoundedStore Calls.

Open Scope list_scope.

Definition defaultBlobTTL : Z := (15 * 60 * 1000000000)%Z.
Definition defaultMaxHeldBytes : Z := (64 * 2 ^ 20)%Z.

Record BlobOwner : Type := mkOwner { ow_OrgID : string; ow_PrincipalID : string }.

Definition Zero (o : BlobOwner) : bool := String.eqb (ow_OrgID o) "" || String.eqb (ow_PrincipalID o) "".

Definition Equal (a b : BlobOwner) : bool := String.eqb (ow_OrgID a) (ow_OrgID b) && String.eqb (ow_PrincipalID a) (ow_PrincipalID b).

Definition BlobOwnerFor (p : option Principal) : BlobOwner :=
  match p with
  | None => mkOwner "" ""
  | Some p => mkOwner (p_OrgID p) (if String.eqb (p_APIKeyID p) "" then p_ID p else "key:" +:+ p_APIKeyID p)
  end.

Record Blob : Type := mkBlob {
  bl_Owner : BlobOwner;
  bl_MediaType : string;
  bl_Name : string;
  bl_Data : string;
  bl_ExpiresAt : Z;
}.

Definition expiring (b : Blob) (t : Z) : Blob := mkBlob (bl_Owner b) (bl_MediaType b) (bl_Name b) (bl_Data b) t.
Definition with_data (b : Blob) (data : string) : Blob := mkBlob (bl_Owner b) (bl_MediaType b) (bl_Name b) data (bl_ExpiresAt b).

Record BlobRef : Type := mkBlobRef { br_ID : string; br_URL : string; br_ExpiresAt : Z }.

(** [blobID]: what [rand.Read] fills in, or its error. *)
Definition blobID (rand : result string string) : result string string :=
  match rand with Ok bytes => Ok (b64 bytes) | Err e => Err "generate blob id" end.

Definition blobURL (base id : string) : string := TrimSuffix base "/" +:+ "/api/v1/blobs/" +:+ id.

(** ** The interface

    [Put] is asked with its environment [E], [Get] with its environment [G];
    not found is [Ok None]. *)
Class BlobStore (S E G : Type) : Type := {
  bs_Put : S -> E -> Blob -> result string BlobRef * S;
  bs_Get : S -> G -> string -> BlobOwner -> result string (option Blob) * S;
}.

(** What was put, whatever became of it: its identifier and the blob. *)
Definition putlog : Type := list (string * Blob).

(** Two blobs that differ at most in when they expire. *)
Definition same_blob (a b : Blob) : Prop :=
  bl_Owner a = bl_Owner b /\ bl_MediaType a = bl_MediaType b /\ bl_Name a = bl_Name b /\ bl_Data a = bl_Data b.

(** The promise: a store holds only what was put into it, under an identifier
    drawn for it, and hands it only to the owner it was put for, before it
    expires on the store's clock. *)
Class BlobStoreLaws (S E G : Type) `{BlobStore S E G} : Type := {
  bs_keeps : S -> putlog -> Prop;
  bs_before : G -> Z -> Prop;
  bs_ids : E -> list string;
  bs_put_kept s e b log r s' : bs_keeps s log -> bs_Put s e b = (r, s') ->
    (exists new, bs_keeps s' (new ++ log) /\ (forall x, x ∈ new -> x.1 ∈ bs_ids e /\ same_blob x.2 b)) /\
    (forall ref, r = Ok ref -> Zero (bl_Owner b) = false /\ br_ID ref ∈ bs_ids e);
  bs_get_kept s g id o log r s' : bs_keeps s log -> bs_Get s g id o = (r, s') -> bs_keeps s' log;
  bs_get_owner s g id o log b s' : bs_keeps s log -> bs_Get s g id o = (Ok (Some b), s') ->
    Zero o = false /\ exists b', (id, b') ∈ log /\ same_blob b b' /\ bl_Owner b' = o /\ bs_before g (bl_ExpiresAt b');
}.

(** ** In this process ([MemoryBlobStore]) *)

Record memory_store : Type := mkMemoryStore { ms_baseURL : string; ms_ttl : Z; ms_store : store Blob }.

Definition NewMemoryBlobStore (baseURL : string) (ttl maxEntries maxBytes : Z) : memory_store :=
  mkMemoryStore (TrimSuffix baseURL "/") (if (ttl <=? 0)%Z then defaultBlobTTL else ttl)
    (mkStore [] 0 (if (maxEntries <=? 0)%Z then 256 else maxEntries) (if (maxBytes <=? 0)%Z then 256 * 2 ^ 20 else maxBytes))%Z.

(** [expireLocked]: the oldest that have expired, up to the first that has
    not. *)
Fixpoint expire (now : Z) (l : list (entry Blob)) (bytes : Z) : list (entry Blob) * Z :=
  match l with
  | [] => ([], bytes)
  | e :: k => if (now <? e_expires e)%Z then (l, bytes) else expire now k (bytes - e_size e)
  end.

(** The random bytes, and the clock as it is read outside and under the lock. *)
Record memory_env : Type := mkMemoryEnv { me_rand : result string string; me_now : Z; me_locked : Z }.

Definition memory_Put (s : memory_store) (e : memory_env) (b : Blob) : result string BlobRef * memory_store :=
  if Zero (bl_Owner b) then (Err "blob needs an owner", s)
  else match blobID (me_rand e) with
  | Err why => (Err why, s)
  | Ok id =>
      let b := expiring b (me_now e + ms_ttl s) in
      let size := Z.of_nat (String.length (bl_Data b)) in
      let st := ms_store s in
      if (st_maxBytes st <? size)%Z then (Err "blob exceeds the store", s)
      else
        let '(l, bytes) := expire (me_locked e) (st_order st) (st_bytes st) in
        let '(l, bytes, _) := evict (st_maxEntries st) (st_maxBytes st) size l bytes in
        (Ok (mkBlobRef id (ms_baseURL s +:+ "/api/v1/blobs/" +:+ id) (bl_ExpiresAt b)),
         mkMemoryStore (ms_baseURL s) (ms_ttl s) (push (set_order st l bytes) (mkEntry id b (bl_ExpiresAt b) size)))
  end.

Definition memory_Get (s : memory_store) (now : Z) (id : string) (o : BlobOwner) : result string (option Blob) * memory_store :=
  if Zero o then (Ok None, s)
  else match entry_at (ms_store s) id with
  | None => (Ok None, s)
  | Some e =>
      if negb (now <? bl_ExpiresAt (e_payload e))%Z then (Ok None, mkMemoryStore (ms_baseURL s) (ms_ttl s) (removeLocked (ms_store s) e))
      else if negb (Equal (bl_Owner (e_payload e)) o) then (Ok None, s)
      else (Ok (Some (e_payload e)), s)
  end.

#[export] Instance memory_blobs : BlobStore memory_store memory_env Z := { bs_Put := memory_Put; bs_Get := memory_Get }.

(** ** In the table tool_blobs ([PostgresBlobStore]) *)

Record blob_row : Type := mkBlobRow {
  tb_id : string;
  tb_org : string;
  tb_principal : string;
  tb_media_type : string;
  tb_name : string;
  tb_data : string;
  tb_expires : Z;
}.

Record pg_store : Type := mkPgStore { pg_BaseURL : string; pg_TTL : Z; pg_rows : list blob_row }.

Definition pg_ttl (s : pg_store) : Z := if (pg_TTL s <=? 0)%Z then defaultBlobTTL else pg_TTL s.

(** [pv_fails]: the transaction failed; a failed commit is not applied. *)
Record pg_env : Type := mkPgEnv { pv_rand : result string string; pv_now : Z; pv_fails : bool }.

(** A time as a column keeps it, and as a parameter is sent: whole
    microseconds. *)
Definition micros (t : Z) : Z := (t / 1000 * 1000)%Z.

Definition row_of (id : string) (b : Blob) (expires : Z) : blob_row :=
  mkBlobRow id (ow_OrgID (bl_Owner b)) (ow_PrincipalID (bl_Owner b)) (bl_MediaType b) (bl_Name b) (bl_Data b) (micros expires).

Definition pg_Put (s : pg_store) (e : pg_env) (b : Blob) : result string BlobRef * pg_store :=
  if Zero (bl_Owner b) then (Err "blob needs an owner", s)
  else match blobID (pv_rand e) with
  | Err why => (Err why, s)
  | Ok id =>
      let expires := (pv_now e + pg_ttl s)%Z in
      if pv_fails e || existsb (fun r => String.eqb (tb_id r) id) (pg_rows s) then (Err "store blob", s)
      else (Ok (mkBlobRef id (blobURL (pg_BaseURL s) id) expires), mkPgStore (pg_BaseURL s) (pg_TTL s) (pg_rows s ++ [row_of id b expires]))
  end.

(** The WHERE of [Get]; row level security asks for the organisation too. *)
Definition is_blob (now : Z) (id : string) (o : BlobOwner) (r : blob_row) : bool :=
  String.eqb (tb_id r) id && String.eqb (tb_org r) (ow_OrgID o) && String.eqb (tb_principal r) (ow_PrincipalID o) && (micros now <? tb_expires r)%Z.

Definition pg_Get (s : pg_store) (g : Z * bool) (id : string) (o : BlobOwner) : result string (option Blob) * pg_store :=
  if Zero o then (Ok None, s)
  else if snd g then (Err "database", s)
  else (Ok (match List.find (is_blob (fst g) id o) (pg_rows s) with
            | Some r => Some (mkBlob o (tb_media_type r) (tb_name r) (tb_data r) (tb_expires r))
            | None => None
            end), s).

(** [Sweep]. *)
Definition expired (now : Z) (r : blob_row) : bool := (tb_expires r <=? micros now)%Z.
Definition pg_Sweep (s : pg_store) (now : Z) : Z * pg_store :=
  (Z.of_nat (length (List.filter (expired now) (pg_rows s))), mkPgStore (pg_BaseURL s) (pg_TTL s) (delete_where (expired now) (pg_rows s))).

#[export] Instance pg_blobs : BlobStore pg_store pg_env (Z * bool) := { bs_Put := pg_Put; bs_Get := pg_Get }.

(** ** In Redis ([RedisBlobStore]) *)

(** The fields of the hash. *)
Record blob_hash : Type := mkBlobHash {
  bh_org : string;
  bh_principal : string;
  bh_type : string;
  bh_name : string;
  bh_data : string;
  bh_expires : Z;
}.

(** A hash written and given an expiry in one transaction; the time is
    Redis's.  A read answers what was last written under the key and has not
    expired, or nothing. *)
Class RedisHashes (R : Type) : Type := {
  rh_get : Z -> string -> R -> option blob_hash;
  rh_put : string -> blob_hash -> Z -> R -> R;
  rh_get_put t k k0 f f0 exp r : rh_get t k (rh_put k0 f0 exp r) = Some f ->
    (k = k0 /\ f = f0 /\ (t < exp)%Z) \/ rh_get t k r = Some f;
}.

Record redis_store (R : Type) : Type := mkRedisStore { rs_prefix : string; rs_baseURL : string; rs_ttl : Z; rs_redis : R }.
Arguments mkRedisStore {R}.
Arguments rs_prefix {R}.
Arguments rs_baseURL {R}.
Arguments rs_ttl {R}.
Arguments rs_redis {R}.

(** A pipeline that failed may have been applied. *)
Record redis_env : Type := mkRedisEnv { re_rand : result string string; re_now : Z; re_fails : bool; re_applied : bool }.

(** [Time.UnixMilli]. *)
Definition UnixMilli (t : Z) : Z := (t / 1000000)%Z.

Section redis.
Context {R : Type} {RH : RedisHashes R}.

Definition redis_Put (s : redis_store R) (e : redis_env) (b : Blob) : result string BlobRef * redis_store R :=
  if Zero (bl_Owner b) then (Err "blob needs an owner", s)
  else match blobID (re_rand e) with
  | Err why => (Err why, s)
  | Ok id =>
      let expires := (re_now e + rs_ttl s)%Z in
      let f := mkBlobHash (ow_OrgID (bl_Owner b)) (ow_PrincipalID (bl_Owner b)) (bl_MediaType b) (bl_Name b) (bl_Data b) (UnixMilli expires) in
      let written := mkRedisStore (rs_prefix s) (rs_baseURL s) (rs_ttl s) (rh_put (rs_prefix s +:+ id) f (UnixMilli expires * 1000000) (rs_redis s)) in
      if re_fails e then (Err "store blob", if re_applied e then written else s)
      else (Ok (mkBlobRef id (blobURL (rs_baseURL s) id) expires), written)
  end.

Definition redis_Get (s : redis_store R) (g : Z * bool) (id : string) (o : BlobOwner) : result string (option Blob) * redis_store R :=
  if Zero o then (Ok None, s)
  else if snd g then (Err "redis", s)
  else (Ok (match rh_get (fst g) (rs_prefix s +:+ id) (rs_redis s) with
            | None => None
            | Some f =>
                let stored := mkOwner (bh_org f) (bh_principal f) in
                if negb (Equal stored o) then None
                else Some (mkBlob stored (bh_type f) (bh_name f) (bh_data f) (bh_expires f * 1000000))
            end), s).
End redis.

#[export] Instance redis_blobs {R} `{RedisHashes R} : BlobStore (redis_store R) redis_env (Z * bool) :=
  { bs_Put := redis_Put; bs_Get := redis_Get }.

(** ** One behind the other ([FallbackBlobStore]) *)

Section fallback.
Context {P EP GP S ES GS : Type} `{BlobStore P EP GP} `{BlobStore S ES GS}.

Definition fallback_Put (s : P * S) (e : EP * ES) (b : Blob) : result string BlobRef * (P * S) :=
  match bs_Put s.1 e.1 b with
  | (Ok ref, p) => (Ok ref, (p, s.2))
  | (Err _, p) => let '(r, q) := bs_Put s.2 e.2 b in (r, (p, q))
  end.

Definition fallback_Get (s : P * S) (g : GP * GS) (id : string) (o : BlobOwner) : result string (option Blob) * (P * S) :=
  match bs_Get s.1 g.1 id o with
  | (Ok (Some b), p) => (Ok (Some b), (p, s.2))
  | (_, p) =>
      match bs_Get s.2 g.2 id o with
      | (Ok (Some b), q) => (Ok (Some b), (p, q))
      | (Err e, q) => (Err e, (p, q))
      | (Ok None, q) => (Ok None, (p, q))
      end
  end.
End fallback.

#[export] Instance fallback_blobs {P EP GP S ES GS} `{BlobStore P EP GP} `{BlobStore S ES GS} : BlobStore (P * S) (EP * ES) (GP * GS) :=
  { bs_Put := fallback_Put; bs_Get := fallback_Get }.

(** ** Sealed ([SealedBlobStore]) *)

Definition blobAAD (o : BlobOwner) : AAD := mkAAD "tool_blobs" "data" (ow_PrincipalID o) (ow_OrgID o).

Record sealed_store (S : Type) : Type := mkSealedStore { ss_Inner : S }.
Arguments mkSealedStore {S}.
Arguments ss_Inner {S}.

Section sealed.
Context {S E G : Type} `{BlobStore S E G} `{Sealer}.

(** The environment is the sealer's randomness and the inner store's. *)
Definition sealed_Put (s : sealed_store S) (e : string * E) (b : Blob) : result string BlobRef * sealed_store S :=
  if Zero (bl_Owner b) then (Err "blob needs an owner", s)
  else match Seal e.1 (ow_OrgID (bl_Owner b)) (bl_Data b) (blobAAD (bl_Owner b)) with
  | Err _ => (Err "seal blob", s)
  | Ok ct => let '(r, i) := bs_Put (ss_Inner s) e.2 (with_data b ct) in (r, mkSealedStore i)
  end.

Definition sealed_Get (s : sealed_store S) (g : G) (id : string) (o : BlobOwner) : result string (option Blob) * sealed_store S :=
  match bs_Get (ss_Inner s) g id o with
  | (Ok (Some b), i) =>
      (match Unseal (ow_OrgID o) (bl_Data b) (blobAAD o) with
       | Ok pt => Ok (Some (with_data b pt))
       | Err _ => Err "open blob"
       end, mkSealedStore i)
  | (r, i) => (r, mkSealedStore i)
  end.
End sealed.

#[export] Instance sealed_blobs {S E G} `{BlobStore S E G} `{Sealer} : BlobStore (sealed_store S) (string * E) G :=
  { bs_Put := sealed_Put; bs_Get := sealed_Get }.

(** ** Binary results ([Content.Binary]) *)

(** [Content]: whether it has a store, and its ceiling. *)
Record Content : Type := mkContent { co_Blobs : bool; co_MaxHeldBytes : Z }.

(** A body as it can be read: its bytes, and how it ends. *)
Record stream : Type := mkStream { sm_bytes : string; sm_err : option string }.

(** [io.ReadAll] of [io.LimitReader(r, n)]. *)
Definition ReadAll (s : stream) (n : Z) : result string string :=
  if (n <=? Z.of_nat (String.length (sm_bytes s)))%Z then Ok (str_take (Z.to_nat n) (sm_bytes s))
  else match sm_err s with Some e => Err e | None => Ok (sm_bytes s) end.

Section content.
(** [mime.ParseMediaType], [mime.ExtensionsByType], SHA-256 in hexadecimal
    of eight bytes, and the date format of a link's description. *)
Context (ParseMediaType : string -> option string) (ExtensionsByType : string -> list string) (hex8 : string -> string)
  (FormatTime : Z -> string).
Context {S E G : Type} `{BlobStore S E G}.

Definition normaliseMediaType (s : string) : string :=
  match ParseMediaType s with
  | Some p => if String.eqb p "" then "application/octet-stream" else p
  | None => "application/octet-stream"
  end.

Definition safe_name_byte (c : ascii) : bool := is_alnum c || one_of (bytes_of "_-") c.

(** [strings.Map] keeps ASCII letters, digits, underscores and dashes; no
    byte of a longer rune is one. *)
Fixpoint keep_safe (s : string) : string :=
  match s with
  | "" => ""
  | String c s => if safe_name_byte c then String c (keep_safe s) else keep_safe s
  end.

Definition blobName (toolName mediaType : string) : string :=
  let name := if String.eqb (keep_safe toolName) "" then "result" else keep_safe toolName in
  match ExtensionsByType mediaType with ext :: _ => name +:+ ext | [] => name end.

Definition inlineContent (mediaType data : string) : content :=
  if HasPrefix mediaType "image/" then ImageContent data mediaType
  else if HasPrefix mediaType "audio/" then AudioContent data mediaType
  else EmbeddedResource ("supermcp://blob/" +:+ hex8 data) mediaType data.

(** [store]: whether an oversized result has somewhere to go; a nil content
    is [None]. *)
Definition can_store (c : option Content) (call : Call) : bool :=
  match c with Some c => co_Blobs c && negb (Zero (BlobOwnerFor (c_Principal call))) | None => false end.

Definition heldBytes (c : option Content) : Z :=
  match c with
  | Some c => if (co_MaxHeldBytes c <=? 0)%Z then defaultMaxHeldBytes else co_MaxHeldBytes c
  | None => defaultMaxHeldBytes
  end.

Definition link_description (mediaType toolName : string) (size expires : Z) : string :=
  mediaType +:+ " result of " +:+ toolName +:+ ", " +:+ Itoa size +:+ " bytes, available until " +:+ FormatTime expires.

Definition the_blob (call : Call) (mediaType data : string) : Blob :=
  mkBlob (BlobOwnerFor (c_Principal call)) mediaType (blobName (st_Name (c_Tool call)) mediaType) data 0.

(** The ceiling of what is read. *)
Definition ceiling_of (c : option Content) (call : Call) (maxInline : Z) : Z :=
  Z.max (if can_store c call then heldBytes c else maxInline) maxInline.

(** [Binary], for a response that has a body to stream. *)
Definition Binary (c : option Content) (s : S) (e : E) (call : Call) (body : stream) (media : string) (maxInline : Z) :
    result string (list content) * S :=
  let mediaType := normaliseMediaType media in
  let ceiling := ceiling_of c call maxInline in
  match ReadAll body (ceiling + 1) with
  | Err why => (Err why, s)
  | Ok data =>
      let size := Z.of_nat (String.length data) in
      if (ceiling <? size)%Z then (Err "upstream returned a body larger than the ceiling", s)
      else if (size <=? maxInline)%Z then (Ok [inlineContent mediaType data], s)
      else match bs_Put s e (the_blob call mediaType data) with
           | (Err _, s) => (Err "hold result", s)
           | (Ok ref, s) =>
               (Ok [ResourceLink (br_URL ref) (blobName (st_Name (c_Tool call)) mediaType) mediaType size
                      (link_description mediaType (st_Name (c_Tool call)) size (br_ExpiresAt ref))], s)
           end
  end.
End content.

(** ** The promise kept *)

Lemma Equal_true a b : Equal a b = true -> a = b.
Proof. destruct a, b. unfold Equal. cbn. intros H. by bool_prop; subst. Qed.

Lemma same_blob_refl b : same_blob b b.
Proof. done. Qed.

Lemma same_blob_expiring b t : same_blob (expiring b t) b.
Proof. done. Qed.

Definition drawn (rand : result string string) : list string := match blobID rand with Ok id => [id] | Err _ => [] end.

(** *** Memory *)

Definition memory_keeps (s : memory_store) (log : putlog) : Prop :=
  forall e, e ∈ st_order (ms_store s) -> (e_key e, e_payload e) ∈ log.

Lemma expire_suffix now l bytes : exists d, l = d ++ (expire now l bytes).1.
Proof.
  revert bytes; induction l as [|e l IH]; intros bytes; cbn [expire]; [by exists []|]. case_match; [by exists []|].
  destruct (IH (bytes - e_size e)%Z) as [d E]. exists (e :: d). by rewrite E at 1.
Qed.

Lemma evict_elem {Q} maxE maxB size (l : list (entry Q)) bytes e : e ∈ (evict maxE maxB size l bytes).1.1 -> e ∈ l.
Proof.
  revert bytes; induction l as [|x l IH]; intros bytes; cbn [evict]; case_match; cbn; try done. intros Hy. right. by eapply IH.
Qed.

Lemma memory_put_elem_of s e b r s' x : memory_Put s e b = (r, s') -> x ∈ st_order (ms_store s') ->
  x ∈ st_order (ms_store s) \/ exists id, blobID (me_rand e) = Ok id /\ (e_key x, e_payload x) = (id, expiring b (me_now e + ms_ttl s)).
Proof.
  unfold memory_Put. destruct (Zero _); [intros [= <- <-]; by left|]. destruct (blobID _) as [id|]; [|intros [= <- <-]; by left].
  cbv zeta. case_match; [intros [= <- <-]; by left|].
  destruct (expire_suffix (me_locked e) (st_order (ms_store s)) (st_bytes (ms_store s))) as [d Ed].
  destruct (expire _ _ _) as [l bytes]. cbn in Ed.
  destruct (evict (st_maxEntries (ms_store s)) (st_maxBytes (ms_store s)) _ l bytes) as [[l' bytes'] fits] eqn:Ev.
  intros [= <- <-]. cbn. intros [Hx|Hx]%elem_of_app; [left|right].
  - rewrite Ed. apply elem_of_app. right. eapply evict_elem. rewrite Ev. exact Hx.
  - apply list_elem_of_singleton in Hx as ->. by exists id.
Qed.

Lemma memory_Put_ok s e b ref s' : memory_Put s e b = (Ok ref, s') -> Zero (bl_Owner b) = false /\ blobID (me_rand e) = Ok (br_ID ref).
Proof.
  unfold memory_Put. destruct (Zero _); [done|]. destruct (blobID _) as [id|]; [|done]. cbv zeta. case_match; [done|].
  destruct (expire _ _ _). destruct (evict _ _ _ _ _) as [[? ?] ?]. by intros [= <- _].
Qed.

#[export] Instance memory_laws : BlobStoreLaws memory_store memory_env Z.
Proof.
  refine {| bs_keeps := memory_keeps; bs_before := Z.lt; bs_ids e := drawn (me_rand e) |}.
  - intros s e b log r s' K P. split.
    + exists (match blobID (me_rand e) with Ok id => [(id, expiring b (me_now e + ms_ttl s))] | Err _ => [] end). split.
      * intros x Hx. destruct (memory_put_elem_of _ _ _ _ _ _ P Hx) as [Hx'|(id & -> & ->)]; [|by left].
        apply elem_of_app. right. by apply K.
      * unfold drawn. destruct (blobID _); [|by intros x ?%elem_of_nil]. intros x ->%list_elem_of_singleton. split; [by left|done].
    + intros ref ->. destruct (memory_Put_ok _ _ _ _ _ P) as [Z E]. split; [done|]. unfold drawn. rewrite E. by left.
  - cbn. unfold memory_Get. intros s g id o log r s' K. destruct (Zero o); [by intros [= _ <-]|]. destruct (entry_at _ _) as [e|]; [|by intros [= _ <-]].
    case_match; [|case_match; by intros [= _ <-]]. intros [= _ <-] x Hx. apply K. cbn in Hx.
    by apply list_elem_of_In, filter_In in Hx as [Hx%list_elem_of_In _].
  - cbn. unfold memory_Get. intros s g id o log b s' K. destruct (Zero o); [done|]. destruct (entry_at _ _) as [e|] eqn:F; [|done].
    apply entry_spec in F as [F <-]. case_match eqn:T; [done|]. case_match eqn:Q; [done|]. intros [= <- _]. bool_prop.
    split; [done|]. exists (e_payload e). split_and!; [by apply K|done|by apply Equal_true|done].
Defined.

(** *** The table *)

Lemma micros_le t : (micros t <= t)%Z.
Proof. unfold micros. pose proof (Z.mul_div_le t 1000 ltac:(lia)). lia. Qed.

Lemma micros_lt a b : (micros a < micros b)%Z -> (a < b)%Z.
Proof. unfold micros. intros L. destruct (Z.le_gt_cases b a) as [Le|?]; [|done]. pose proof (Z.div_le_mono b a 1000 ltac:(lia) Le). lia. Qed.

Lemma micros_mono a b : (a <= b)%Z -> (micros a <= micros b)%Z.
Proof. unfold micros. intros L. pose proof (Z.div_le_mono a b 1000 ltac:(lia) L). lia. Qed.

Definition pg_keeps (s : pg_store) (log : putlog) : Prop :=
  forall r, r ∈ pg_rows s -> exists b, (tb_id r, b) ∈ log /\ r = row_of (tb_id r) b (bl_ExpiresAt b).

#[export] Instance pg_laws : BlobStoreLaws pg_store pg_env (Z * bool).
Proof.
  refine {| bs_keeps := pg_keeps; bs_before g t := (fst g < t)%Z; bs_ids e := drawn (pv_rand e) |}.
  - cbn. unfold pg_Put, drawn. intros s e b log r s' K. destruct (Zero _) eqn:Zo; [intros [= <- <-]; split; [exists []; split; [done|by intros x ?%elem_of_nil]|done]|].
    destruct (blobID _) as [id|]; [|intros [= <- <-]; split; [exists []; split; [done|by intros x ?%elem_of_nil]|done]].
    destruct (_ || _); intros [= <- <-]; (split; [|try done]).
    + exists []. split; [done|by intros x ?%elem_of_nil].
    + exists [(id, expiring b (pv_now e + pg_ttl s))]. split; [|intros x ->%list_elem_of_singleton; split; [by left|done]].
      intros r [Hr|Hr]%elem_of_app; [destruct (K r Hr) as (b' & Hb & E); exists b'; split; [by right|done]|].
      apply list_elem_of_singleton in Hr as ->. eexists. split; [by left|done].
    + intros ref [= <-]. split; [done|by left].
  - cbn. unfold pg_Get. intros s g id o log r s' K. destruct (Zero o); [by intros [= _ <-]|]. destruct (snd g); by intros [= _ <-].
  - cbn. unfold pg_Get. intros s g id o log b s' K. destruct (Zero o); [done|]. destruct (snd g); [done|].
    destruct (List.find _ _) as [r|] eqn:F; [|done]. apply find_elem in F as [Hr W]. unfold is_blob in W. bool_prop. intros [= <- _].
    split; [done|]. destruct (K r Hr) as (b' & Hb & E). subst id. exists b'. rewrite E in *. cbn in *.
    destruct b' as [[o1 o2] m n dt t], o as [u1 u2]. cbn in *. subst. split_and!; try done. by apply micros_lt.
Defined.

(** *** Redis *)

Definition redis_keeps {R} `{RedisHashes R} (s : redis_store R) (log : putlog) : Prop :=
  forall t k f, rh_get t k (rs_redis s) = Some f -> exists id b, k = rs_prefix s +:+ id /\ (id, b) ∈ log /\
    f = mkBlobHash (ow_OrgID (bl_Owner b)) (ow_PrincipalID (bl_Owner b)) (bl_MediaType b) (bl_Name b) (bl_Data b) (UnixMilli (bl_ExpiresAt b)) /\
    (t < UnixMilli (bl_ExpiresAt b) * 1000000)%Z.

Lemma redis_keeps_put {R} `{RedisHashes R} s log id b : redis_keeps s log ->
  redis_keeps (mkRedisStore (rs_prefix s) (rs_baseURL s) (rs_ttl s)
    (rh_put (rs_prefix s +:+ id) (mkBlobHash (ow_OrgID (bl_Owner b)) (ow_PrincipalID (bl_Owner b)) (bl_MediaType b) (bl_Name b) (bl_Data b) (UnixMilli (bl_ExpiresAt b)))
       (UnixMilli (bl_ExpiresAt b) * 1000000) (rs_redis s))) ([(id, b)] ++ log).
Proof.
  intros K t k f Hf. cbn in Hf. apply rh_get_put in Hf as [(-> & -> & L)|Hf].
  - exists id, b. split_and!; [done|by left|done|done].
  - destruct (K t k f Hf) as (id' & b' & E & Hb & Q). exists id', b'. split_and!; [done|by right|apply Q|apply Q].
Qed.

Lemma UnixMilli_le t : (UnixMilli t * 1000000 <= t)%Z.
Proof. unfold UnixMilli. pose proof (Z.mul_div_le t 1000000 ltac:(lia)). lia. Qed.

#[export] Instance redis_laws {R} `{RedisHashes R} : BlobStoreLaws (redis_store R) redis_env (Z * bool).
Proof.
  refine {| bs_keeps := redis_keeps; bs_before g t := (fst g < t)%Z; bs_ids e := drawn (re_rand e) |}.
  - cbn. unfold redis_Put, drawn. intros s e b log r s' K. destruct (Zero _) eqn:Zo; [intros [= <- <-]; split; [exists []; split; [done|by intros x ?%elem_of_nil]|done]|].
    destruct (blobID _) as [id|]; [|intros [= <- <-]; split; [exists []; split; [done|by intros x ?%elem_of_nil]|done]].
    pose proof (redis_keeps_put s log id (expiring b (re_now e + rs_ttl s)) K) as Kp. cbn in Kp.
    destruct (re_fails e); [destruct (re_applied e)|]; intros [= <- <-]; (split; [|try done]).
    2: { exists []. split; [done|by intros x ?%elem_of_nil]. }
    3: { intros ref [= <-]. split; [done|by left]. }
    all: exists [(id, expiring b (re_now e + rs_ttl s))]; split; [exact Kp|intros x ->%list_elem_of_singleton; split; [by left|done]].
  - cbn. unfold redis_Get. intros s g id o log r s' K. destruct (Zero o); [by intros [= _ <-]|]. destruct (snd g); by intros [= _ <-].
  - cbn. unfold redis_Get. intros s g id o log b s' K. destruct (Zero o); [done|]. destruct (snd g); [done|].
    destruct (rh_get _ _ _) as [f|] eqn:F; [|done]. destruct (negb _) eqn:Q; [done|]. intros [= <- _]. bool_prop. apply Equal_true in Q.
    split; [done|]. destruct (K _ _ _ F) as (id' & b' & Ek & Hb & -> & T). apply app_inj_str in Ek as <-. exists b'.
    pose proof (UnixMilli_le (bl_ExpiresAt b')). destruct b' as [[o1 o2] m n dt t]. cbn in *. subst o. split_and!; [done|done|done|lia].
Defined.

(** *** Fallback *)

Section fallback_laws.
Context {P EP GP S ES GS : Type} `{LP : BlobStoreLaws P EP GP} `{LS : BlobStoreLaws S ES GS}.

Definition fallback_keeps (s : P * S) (log : putlog) : Prop :=
  exists l1 l2, bs_keeps (BlobStoreLaws := LP) s.1 l1 /\ bs_keeps (BlobStoreLaws := LS) s.2 l2 /\ l1 ⊆ log /\ l2 ⊆ log.

Lemma fallback_put_kept s e b log r s' : fallback_keeps s log -> fallback_Put s e b = (r, s') ->
  (exists new, fallback_keeps s' (new ++ log) /\ (forall x, x ∈ new -> x.1 ∈ bs_ids (BlobStoreLaws := LP) e.1 ++ bs_ids (BlobStoreLaws := LS) e.2 /\ same_blob x.2 b)) /\
  (forall ref, r = Ok ref -> Zero (bl_Owner b) = false /\ br_ID ref ∈ bs_ids (BlobStoreLaws := LP) e.1 ++ bs_ids (BlobStoreLaws := LS) e.2).
Proof.
  intros (l1 & l2 & K1 & K2 & I1 & I2). unfold fallback_Put. destruct (bs_Put s.1 e.1 b) as [r1 p] eqn:P1.
  destruct (bs_put_kept _ _ _ _ _ _ K1 P1) as [(n1 & Kn1 & N1) R1]. destruct r1 as [ref|why].
  - intros [= <- <-]. split.
    + exists n1. split; [exists (n1 ++ l1), l2; split_and!; [done|done|set_solver|set_solver]|].
      intros x Hx. destruct (N1 x Hx). split; [apply elem_of_app; by left|done].
    + intros ref' [= <-]. destruct (R1 ref eq_refl). split; [done|apply elem_of_app; by left].
  - destruct (bs_Put s.2 e.2 b) as [r2 q] eqn:P2. destruct (bs_put_kept _ _ _ _ _ _ K2 P2) as [(n2 & Kn2 & N2) R2]. intros [= <- <-]. split.
    + exists (n1 ++ n2). split; [exists (n1 ++ l1), (n2 ++ l2); split_and!; [done|done|set_solver|set_solver]|].
      intros x [Hx|Hx]%elem_of_app; [destruct (N1 x Hx)|destruct (N2 x Hx)]; (split; [apply elem_of_app; auto|done]).
    + intros ref' E. destruct (R2 ref' E). split; [done|apply elem_of_app; by right].
Qed.

Lemma fallback_get_kept s g id o log r s' : fallback_keeps s log -> fallback_Get s g id o = (r, s') -> fallback_keeps s' log.
Proof.
  intros (l1 & l2 & K1 & K2 & I1 & I2). unfold fallback_Get. destruct (bs_Get s.1 g.1 id o) as [r1 p] eqn:G1.
  pose proof (bs_get_kept _ _ _ _ _ _ _ K1 G1) as K1'. destruct (bs_Get s.2 g.2 id o) as [r2 q] eqn:G2.
  pose proof (bs_get_kept _ _ _ _ _ _ _ K2 G2) as K2'. intros Q.
  assert (s' = (p, s.2) \/ s' = (p, q)) as [->| ->] by (destruct r1 as [[?|]|]; destruct r2 as [[?|]|]; injection Q; auto); by exists l1, l2.
Qed.

Lemma fallback_get_owner s g id o log b s' : fallback_keeps s log -> fallback_Get s g id o = (Ok (Some b), s') ->
  Zero o = false /\ exists b', (id, b') ∈ log /\ same_blob b b' /\ bl_Owner b' = o /\
    (bs_before (BlobStoreLaws := LP) g.1 (bl_ExpiresAt b') \/ bs_before (BlobStoreLaws := LS) g.2 (bl_ExpiresAt b')).
Proof.
  intros (l1 & l2 & K1 & K2 & I1 & I2). unfold fallback_Get. destruct (bs_Get s.1 g.1 id o) as [r1 p] eqn:G1. destruct (bs_Get s.2 g.2 id o) as [r2 q] eqn:G2.
  intros Q.
  assert (r1 = Ok (Some b) \/ r2 = Ok (Some b)) as [->| ->] by (destruct r1 as [[?|]|]; destruct r2 as [[?|]|]; simplify_eq; auto).
  - destruct (bs_get_owner _ _ _ _ _ _ _ K1 G1) as [Zo (b' & Hb & Sm & Ow & T)]. split; [done|]. exists b'. split_and!; [by apply I1|done|done|by left].
  - destruct (bs_get_owner _ _ _ _ _ _ _ K2 G2) as [Zo (b' & Hb & Sm & Ow & T)]. split; [done|]. exists b'. split_and!; [by apply I2|done|done|by right].
Qed.

#[export] Instance fallback_laws : BlobStoreLaws (P * S) (EP * ES) (GP * GS) := {|
  bs_keeps := fallback_keeps; bs_before g t := bs_before (BlobStoreLaws := LP) g.1 t \/ bs_before (BlobStoreLaws := LS) g.2 t;
  bs_ids e := bs_ids (BlobStoreLaws := LP) e.1 ++ bs_ids (BlobStoreLaws := LS) e.2;
  bs_put_kept := fallback_put_kept; bs_get_kept := fallback_get_kept; bs_get_owner := fallback_get_owner |}.
End fallback_laws.

(** *** Sealed *)

Section sealed_laws.
Context {S E G : Type} `{L : BlobStoreLaws S E G} `{Sealer}.

(** A ciphertext of [y]'s data is held for it. *)
Definition sealed_for (x y : string * Blob) : Prop :=
  x.1 = y.1 /\ bl_Owner x.2 = bl_Owner y.2 /\ bl_MediaType x.2 = bl_MediaType y.2 /\ bl_Name x.2 = bl_Name y.2 /\ bl_ExpiresAt x.2 = bl_ExpiresAt y.2 /\
  exists nonce, Seal nonce (ow_OrgID (bl_Owner y.2)) (bl_Data y.2) (blobAAD (bl_Owner y.2)) = Ok (bl_Data x.2).

Definition sealed_keeps (s : sealed_store S) (log : putlog) : Prop :=
  exists il, bs_keeps (BlobStoreLaws := L) (ss_Inner s) il /\ forall x, x ∈ il -> exists y, y ∈ log /\ sealed_for x y.

Lemma sealed_put_kept s e b log r s' : sealed_keeps s log -> sealed_Put s e b = (r, s') ->
  (exists new, sealed_keeps s' (new ++ log) /\ (forall x, x ∈ new -> x.1 ∈ bs_ids (BlobStoreLaws := L) e.2 /\ same_blob x.2 b)) /\
  (forall ref, r = Ok ref -> Zero (bl_Owner b) = false /\ br_ID ref ∈ bs_ids (BlobStoreLaws := L) e.2).
Proof.
  intros (il & K & Im). unfold sealed_Put. destruct (Zero (bl_Owner b)) eqn:Zo.
  { intros [= <- <-]. split; [exists []; split; [by exists il|by intros x ?%elem_of_nil]|done]. }
  destruct (Seal e.1 _ _ _) as [ct|] eqn:Sl; [|intros [= <- <-]; split; [exists []; split; [by exists il|by intros x ?%elem_of_nil]|done]].
  destruct (bs_Put (ss_Inner s) e.2 (with_data b ct)) as [r1 i] eqn:P1. destruct (bs_put_kept _ _ _ _ _ _ K P1) as [(n1 & Kn & N1) R1].
  intros [= <- <-]. split; [|intros ref Er; split; [done|by apply R1]]. exists (map (fun x => (x.1, with_data x.2 (bl_Data b))) n1). split.
  - exists (n1 ++ il). split; [exact Kn|]. intros x [Hx|Hx]%elem_of_app.
    + destruct (N1 x Hx) as [_ (E1 & E2 & E3 & E4)]. exists (x.1, with_data x.2 (bl_Data b)).
      split; [apply elem_of_app; left; by apply (list_elem_of_fmap_2 (fun x => (x.1, with_data x.2 (bl_Data b))))|].
      split_and!; try done. exists e.1. cbn in *. by rewrite E1, E4.
    + destruct (Im x Hx) as (y & Hy & Q). exists y. split; [apply elem_of_app; by right|done].
  - intros x Hx. apply list_elem_of_fmap in Hx as (y & -> & Hy). by destruct (N1 y Hy) as [I (E1 & E2 & E3 & _)].
Qed.

Lemma sealed_get_kept s g id o log r s' : sealed_keeps s log -> sealed_Get s g id o = (r, s') -> sealed_keeps s' log.
Proof.
  intros (il & K & Im). unfold sealed_Get. destruct (bs_Get (ss_Inner s) g id o) as [r1 i] eqn:G1. pose proof (bs_get_kept _ _ _ _ _ _ _ K G1) as K'.
  intros Q. assert (s' = mkSealedStore i) as -> by (destruct r1 as [[?|]|]; by injection Q). by exists il.
Qed.

Lemma sealed_get_owner s g id o log b s' : sealed_keeps s log -> sealed_Get s g id o = (Ok (Some b), s') ->
  Zero o = false /\ exists b', (id, b') ∈ log /\ same_blob b b' /\ bl_Owner b' = o /\ bs_before (BlobStoreLaws := L) g (bl_ExpiresAt b').
Proof.
  intros (il & K & Im). unfold sealed_Get. destruct (bs_Get (ss_Inner s) g id o) as [[[b1|]|] i] eqn:G1; try done.
  destruct (Unseal _ _ _) as [pt|] eqn:U; [|done]. intros [= <- _]. destruct (bs_get_owner _ _ _ _ _ _ _ K G1) as [Zo (b2 & Hb & (E1 & E2 & E3 & E4) & Ow & T)].
  destruct (Im _ Hb) as ([id' y] & Hy & Ei & F1 & F2 & F3 & F4 & nonce & Sl). cbn in *. subst id'. split; [done|]. exists y.
  rewrite F1 in Ow. rewrite E4, <- Ow in U. rewrite (Unseal_Seal _ _ _ _ _ Sl) in U. injection U as <-.
  split_and!; [done| |done|by rewrite <- F4]. split_and!; cbn; congruence.
Qed.

#[export] Instance sealed_laws : BlobStoreLaws (sealed_store S) (string * E) G := {|
  bs_keeps := sealed_keeps; bs_before := bs_before (BlobStoreLaws := L); bs_ids e := bs_ids (BlobStoreLaws := L) e.2;
  bs_put_kept := sealed_put_kept; bs_get_kept := sealed_get_kept; bs_get_owner := sealed_get_owner |}.
End sealed_laws.

(** ** Stores at work *)

(** A store, and every put that was asked of it; [upkeep] is what is done to
    it besides. *)
Record blob_world (S E : Type) : Type := mkBlobWorld { bw_store : S; bw_puts : list (E * Blob) }.
Arguments mkBlobWorld {S E}.
Arguments bw_store {S E}.
Arguments bw_puts {S E}.

Inductive blob_step {S E G : Type} `{BlobStore S E G} (upkeep : S -> S -> Prop) (w : blob_world S E) : blob_world S E -> Prop :=
  | step_put e b : blob_step upkeep w (mkBlobWorld (bs_Put (bw_store w) e b).2 ((e, b) :: bw_puts w))
  | step_get g id o : blob_step upkeep w (mkBlobWorld (bs_Get (bw_store w) g id o).2 (bw_puts w))
  | step_upkeep s : upkeep (bw_store w) s -> blob_step upkeep w (mkBlobWorld s (bw_puts w)).

(** After any puts, reads and upkeep of a store that starts as [s0], what a
    read answers was put for that very owner, with the same type, name and
    bytes, under the identifier asked for; nobody is answered nothing. *)
Definition answers_its_owner {S E G : Type} `{BlobStore S E G} (upkeep : S -> S -> Prop) (ids : E -> list string) (s0 : S) : Prop :=
  forall w g id o b s', rtc (blob_step upkeep) (mkBlobWorld s0 []) w -> bs_Get (bw_store w) g id o = (Ok (Some b), s') ->
  Zero o = false /\ exists e b', (e, b') ∈ bw_puts w /\ id ∈ ids e /\ bl_Owner b' = o /\ same_blob b b'.

Section runs.
Context {S E G : Type} `{L : BlobStoreLaws S E G} (upkeep : S -> S -> Prop)
  (upkeep_kept : forall s s' log, bs_keeps (BlobStoreLaws := L) s log -> upkeep s s' -> bs_keeps (BlobStoreLaws := L) s' log).

Definition accounted (w : blob_world S E) : Prop :=
  exists log, bs_keeps (BlobStoreLaws := L) (bw_store w) log /\
    forall x, x ∈ log -> exists e b, (e, b) ∈ bw_puts w /\ x.1 ∈ bs_ids (BlobStoreLaws := L) e /\ same_blob x.2 b.

Lemma blob_step_accounted w w' : accounted w -> blob_step upkeep w w' -> accounted w'.
Proof.
  intros (log & K & A) St. destruct St as [e b|g id o|s U].
  - destruct (bs_Put (bw_store w) e b) as [r s'] eqn:P. destruct (bs_put_kept _ _ _ _ _ _ K P) as [(new & Kn & N) _]. exists (new ++ log).
    split; [exact Kn|]. intros x [Hx|Hx]%elem_of_app.
    + destruct (N x Hx). exists e, b. split; [by left|done].
    + destruct (A x Hx) as (e' & b' & Hp & Q). exists e', b'. split; [by right|done].
  - destruct (bs_Get (bw_store w) g id o) as [r s'] eqn:P. exists log. split; [by eapply bs_get_kept|done].
  - exists log. split; [by eapply upkeep_kept|done].
Qed.

Lemma blob_run_accounted s0 w : bs_keeps (BlobStoreLaws := L) s0 [] -> rtc (blob_step upkeep) (mkBlobWorld s0 []) w -> accounted w.
Proof.
  intros K0 H'. assert (accounted (mkBlobWorld s0 [])) as A by (exists []; split; [done|by intros x ?%elem_of_nil]).
  induction H' as [w|w w1 w2 St _ IH]; [done|]. apply IH. by eapply blob_step_accounted. 
Qed.

Lemma promise_kept s0 : bs_keeps (BlobStoreLaws := L) s0 [] -> answers_its_owner upkeep (bs_ids (BlobStoreLaws := L)) s0.
Proof.
  intros K0 w g id o b s' R Q. destruct (blob_run_accounted _ _ K0 R) as (log & K & A). destruct (bs_get_owner _ _ _ _ _ _ _ K Q) as [Zo (x & Hx & Sm & Ow & _)].
  split; [done|]. destruct (A _ Hx) as (e & b' & Hp & I & (E1 & E2 & E3 & E4)). exists e, b'. cbn in *. destruct Sm as (F1 & F2 & F3 & F4).
  split_and!; [done|done|congruence|]. split_and!; congruence.
Qed.
End runs.

(** The store the server runs ([build.go]): sealed, Redis first and the
    table behind it; and it starts empty. *)
Definition deployed (R : Type) : Type := sealed_store (redis_store R * pg_store).

Definition sweeps (s s' : pg_store) : Prop := exists now, s' = (pg_Sweep s now).2.

Lemma sweeps_kept s s' log : pg_keeps s log -> sweeps s s' -> pg_keeps s' log.
Proof. intros K (now & ->) r Hr. apply K. apply elem_of_delete in Hr. apply Hr. Qed.

(** C20. A link answers only the principal it was made for, in each store the
    server runs: the one in this process; the table, sealed, while it is
    swept; and Redis with the table behind it, sealed, where a put goes to
    either and either may fail. *)
Theorem blob_reaches_its_owner (R : Type) `{RH : RedisHashes R} `{Sealer} :
  (forall base ttl maxEntries maxBytes,
     answers_its_owner (fun _ _ => False) (fun e => drawn (me_rand e)) (NewMemoryBlobStore base ttl maxEntries maxBytes)) /\
  (forall base ttl, answers_its_owner (fun s s' => sweeps (ss_Inner s) (ss_Inner s')) (fun e : string * pg_env => drawn (pv_rand e.2))
     (mkSealedStore (mkPgStore base ttl []))) /\
  (forall prefix base ttl r base' ttl', (forall t k, rh_get t k r = None) ->
     answers_its_owner (fun s s' => (ss_Inner s').1 = (ss_Inner s).1 /\ sweeps (ss_Inner s).2 (ss_Inner s').2)
       (fun e : string * (redis_env * pg_env) => drawn (re_rand e.2.1) ++ drawn (pv_rand e.2.2))
       (mkSealedStore (mkRedisStore prefix base ttl r, mkPgStore base' ttl' []) : deployed R)).
Proof.
  split_and!.
  - intros base ttl n m. apply (promise_kept (L := memory_laws)); [done|]. by intros e He%elem_of_nil.
  - intros base ttl. apply (promise_kept (L := sealed_laws (L := pg_laws))).
    + intros [s] [s'] log (il & K & Im) Sw. exists il. split; [by eapply sweeps_kept|done].
    + exists []. split; [by intros r Hr%elem_of_nil|by intros x Hx%elem_of_nil].
  - intros prefix base ttl r base' ttl' Em. apply (promise_kept (L := sealed_laws (L := fallback_laws (LP := redis_laws) (LS := pg_laws)))).
    + intros [[s q]] [[s' q']] log (il & (l1 & l2 & K1 & K2 & I1 & I2) & Im) [E Sw]. cbn in *. subst s'. exists il. split; [|done].
      exists l1, l2. split_and!; [done|by eapply sweeps_kept|done|done].
    + exists []. split; [|by intros x Hx%elem_of_nil]. exists [], []. split_and!; [|by intros x Hx%elem_of_nil|done|done].
      intros t k f Hf. cbn in Hf. by rewrite Em in Hf.
Qed.

(** What was sealed and put into the table is collected by its owner with
    the link that was handed out, whatever else is swept, until it expires. *)
Section collected.
Context `{Sealer}.

(** C39. A link can be followed: when the put into the sealed table answered
    a link, its owner gets the bytes back from it until the time the link
    names, to the microsecond the table keeps of it, through any sweep that
    runs meanwhile. *)
Theorem link_can_be_followed rows base ttl nonce e b ref s' swept now :
  (forall id, id ∈ drawn (pv_rand e) -> forall r, r ∈ rows -> tb_id r <> id) ->
  sealed_Put (mkSealedStore (mkPgStore base ttl rows)) (nonce, e) b = (Ok ref, s') ->
  (swept <= now)%Z -> (micros now < micros (br_ExpiresAt ref))%Z ->
  (sealed_Get (mkSealedStore (pg_Sweep (ss_Inner s') swept).2) (now, false) (br_ID ref) (bl_Owner b)).1 = Ok (Some (expiring b (micros (br_ExpiresAt ref)))).
Proof.
  intros Fresh. unfold sealed_Put. cbn [fst snd]. destruct (Zero (bl_Owner b)) eqn:Zo; [done|]. destruct (Seal nonce _ _ _) as [ct|] eqn:Sl; [|done].
  change (bs_Put (ss_Inner (mkSealedStore (mkPgStore base ttl rows))) e (with_data b ct)) with (pg_Put (mkPgStore base ttl rows) e (with_data b ct)).
  destruct (pg_Put _ e (with_data b ct)) as [r i] eqn:P. intros [= -> <-] Sw T. unfold pg_Put in P. cbn [bl_Owner with_data] in P. rewrite Zo in P.
  unfold drawn in Fresh. destruct (blobID (pv_rand e)) as [id|]; [|done]. destruct (_ || _); [done|]. injection P as <- <-. cbn [br_ExpiresAt br_ID ss_Inner] in *.
  set (t := (pv_now e + pg_ttl (mkPgStore base ttl rows))%Z) in *. unfold pg_Sweep, sealed_Get. cbn [snd ss_Inner pg_rows].
  change (bs_Get ?s ?g ?i ?o) with (pg_Get s g i o). unfold pg_Get. rewrite Zo. cbn [snd fst pg_rows].
  assert (List.find (is_blob now id (bl_Owner b)) (delete_where (expired swept) (rows ++ [row_of id (with_data b ct) t])) = Some (row_of id (with_data b ct) t)) as ->.
  { unfold delete_where. rewrite List.filter_app. cbn [List.filter]. unfold expired at 2. cbn [tb_expires row_of]. rewrite (proj2 (Z.leb_gt (micros t) (micros swept))) by (pose proof (micros_mono _ _ Sw); lia). cbn [negb].
    apply find_snoc.
    - intros r Hr. apply list_elem_of_In, filter_In in Hr as [Hr _]. unfold is_blob.
      rewrite (proj2 (String.eqb_neq (tb_id r) id)); [done|]. apply (Fresh id); [by left|by apply list_elem_of_In].
    - unfold is_blob. cbn. rewrite !String.eqb_refl, (proj2 (Z.ltb_lt (micros now) (micros t))) by lia. done. }
  cbn [bl_Data tb_data row_of with_data]. by rewrite (Unseal_Seal _ _ _ _ _ Sl).
Qed.
End collected.

(** ** Binary results *)

Section binary.
Context (ParseMediaType : string -> option string) (ExtensionsByType : string -> list string) (hex8 : string -> string)
  (FormatTime : Z -> string).
Context {S E G : Type} `{BlobStore S E G}.

Lemma ReadAll_within s n data : (0 <= n)%Z -> ReadAll s (n + 1) = Ok data -> (Z.of_nat (String.length data) <= n)%Z ->
  data = sm_bytes s /\ sm_err s = None.
Proof.
  intros Hn. unfold ReadAll. destruct (n + 1 <=? _)%Z eqn:L; bool_prop.
  - intros [= <-]. rewrite length_str_take by lia. lia.
  - destruct (sm_err s); [done|]. by intros [= <-].
Qed.

(** A binary result is answered whole or not at all: what fits the
    inline limit is embedded, byte for byte, and nothing is stored; what does
    not is stored whole for the caller's own identity, within the ceiling,
    and answered with the link to it; and without a store, or a caller to
    bind the link to, anything above the inline limit is refused. *)
Theorem binary_whole_or_refused c s e call body media maxInline out s' :
  (0 <= maxInline)%Z ->
  Binary ParseMediaType ExtensionsByType hex8 FormatTime c s e call body media maxInline = (Ok out, s') ->
  let size := Z.of_nat (String.length (sm_bytes body)) in
  let mediaType := normaliseMediaType ParseMediaType media in
  sm_err body = None /\
  ((size <= maxInline)%Z /\ s' = s /\ out = [inlineContent hex8 mediaType (sm_bytes body)] \/
   (maxInline < size <= heldBytes c)%Z /\ can_store c call = true /\ Zero (BlobOwnerFor (c_Principal call)) = false /\
   exists ref, bs_Put s e (the_blob ExtensionsByType call mediaType (sm_bytes body)) = (Ok ref, s') /\
     out = [ResourceLink (br_URL ref) (blobName ExtensionsByType (st_Name (c_Tool call)) mediaType) mediaType size
              (link_description FormatTime mediaType (st_Name (c_Tool call)) size (br_ExpiresAt ref))]).
Proof.
  intros Hm. unfold Binary. set (ceil := ceiling_of c call maxInline). assert (maxInline <= ceil)%Z as Hc by (unfold ceil, ceiling_of; lia).
  destruct (ReadAll body (ceil + 1)) as [data|] eqn:Rd; [|done]. cbv zeta. destruct (ceil <? _)%Z eqn:L1; [done|]. bool_prop.
  destruct (ReadAll_within body ceil data ltac:(lia) Rd L1) as [-> Er]. destruct (_ <=? maxInline)%Z eqn:L2; bool_prop.
  - intros [= <- <-]. split; [done|]. by left.
  - destruct (bs_Put s e _) as [[ref|] s1] eqn:P; [|done]. intros [= <- <-]. split; [done|]. right.
    unfold ceil, ceiling_of in L1. destruct (can_store c call) eqn:Cs; [|lia]. split_and!; [done|lia|done| |by exists ref].
    unfold can_store in Cs. destruct c as [c|]; [|done]. by bool_prop.
Qed.
End binary.

(** ** The map keeps its bounds *)

Lemma expired_ok s now l bytes : ok s -> expire now (st_order s) (st_bytes s) = (l, bytes) -> ok (set_order s l bytes).
Proof.
  assert (forall now l bytes l' bytes', expire now l bytes = (l', bytes') -> bytes = held l -> exists d, l = d ++ l' /\ bytes' = held l') as Sf.
  { clear. intros now. induction l as [|e l IH]; intros bytes l' bytes'; cbn [expire]; [intros [= <- <-] E; by exists []|].
    case_match; [intros [= <- <-] E; by exists []|]. intros E Hb. destruct (IH _ _ _ E) as (d & -> & E'); [rewrite Hb; cbn [held foldr]; fold (held l); lia|].
    by exists (e :: d). }
  intros O E. destruct (Sf _ _ _ _ _ E (ok_bytes s O)) as (d & Ed & Hb). destruct O as [K Z B C Hd]. rewrite Ed in *.
  rewrite map_app in K. apply NoDup_app in K as (_ & _ & K). apply Forall_app in Z as [Zd Z]. pose proof (held_nonneg _ Zd).
  rewrite held_app in B. rewrite length_app in C. split; cbn; [done|done|done|lia|lia].
Qed.

(** The in-process store never holds more blobs or bytes than it may:
    putting, with an identifier it does not hold, and reading keep its
    counters true and within the limits, and a blob that fits is held after
    its put. *)
Theorem memory_store_stays_bounded s e b r s' now id o :
  ok (ms_store s) -> (0 < st_maxEntries (ms_store s))%Z -> (forall id, id ∈ drawn (me_rand e) -> entry_at (ms_store s) id = None) ->
  memory_Put s e b = (r, s') ->
  ok (ms_store s') /\ ok (ms_store (memory_Get s' now id o).2) /\
  (forall ref, r = Ok ref -> exists x, x ∈ st_order (ms_store s') /\ e_key x = br_ID ref /\ same_blob (e_payload x) b).
Proof.
  intros O Rm Fresh P. assert (ok (ms_store s') /\ (forall ref, r = Ok ref -> exists x, x ∈ st_order (ms_store s') /\ e_key x = br_ID ref /\ same_blob (e_payload x) b)) as [O' Hd].
  { unfold memory_Put in P. unfold drawn in Fresh. destruct (Zero _); [by injection P as <- <-|]. destruct (blobID _) as [i|]; [|by injection P as <- <-].
    cbv zeta in P. case_match eqn:Sz; [by injection P as <- <-|]. bool_prop. destruct (expire _ _ _) as [l bytes] eqn:Ex. pose proof (expired_ok _ _ _ _ O Ex) as O1.
    pose proof (expire_suffix (me_locked e) (st_order (ms_store s)) (st_bytes (ms_store s))) as [d Ed]. rewrite Ex in Ed. cbn in Ed.
    pose proof (evict_fits (st_maxEntries (ms_store s)) (st_maxBytes (ms_store s)) (Z.of_nat (String.length (bl_Data (expiring b (me_now e + ms_ttl s))))) l bytes (ok_bytes _ O1) Rm Sz) as Fit.
    destruct (evict _ _ _ l bytes) as [[l' bytes'] fits] eqn:Ev. cbn in Fit. subst fits. injection P as <- <-. cbn [ms_store]. split.
    - change (set_order (ms_store s) l' bytes') with (set_order (set_order (ms_store s) l bytes) l' bytes'). apply push_ok; [done|exact Ev|cbn; lia|].
      unfold entry_at. cbn. destruct (List.find _ l) as [y|] eqn:F; [|done]. apply find_elem in F as [Hy E]. apply String.eqb_eq in E.
      specialize (Fresh i ltac:(by left)). exfalso. apply (entry_none _ _ Fresh y); [rewrite Ed; apply elem_of_app; by right|done].
    - intros ref [= <-]. eexists. split; [apply elem_of_app; right; by left|]. by split. }
  split_and!; [done| |done]. unfold memory_Get. destruct (Zero o); [done|]. destruct (entry_at _ id) as [x|] eqn:F; [|done].
  case_match; [|case_match; done]. apply removeLocked_ok; [done|]. by apply entry_spec in F as [F _].
Qed.

(** ** Witnesses *)

Definition mark : string := "x".

Definition plain_sealer : Sealer.
Proof.
  refine {| Seal _ _ p _ := Ok (mark +:+ p); Unseal _ c _ := if HasPrefix c mark then Ok (str_drop 1 c) else Err "not sealed" |}.
  - by intros nonce org p aad c [= <-].
  - intros nonce org p aad c [= <-]. unfold HasPrefix. by rewrite prefix_app.
Defined.

Definition map_hashes : RedisHashes (gmap string (blob_hash * Z)).
Proof.
  refine {| rh_get t k m := match m !! k with Some (f, exp) => if (t <? exp)%Z then Some f else None | None => None end;
            rh_put k f exp m := <[k := (f, exp)]> m |}.
  intros t k k0 f f0 exp r. destruct (decide (k = k0)) as [->|N].
  - rewrite lookup_insert_eq. case_match; [|done]. intros [= <-]. bool_prop. by left.
  - rewrite lookup_insert_ne by done. by right.
Defined.

Definition ann : BlobOwner := mkOwner "acme" "u-ann".

Definition a_scan : Blob := mkBlob ann "image/png" "scan.png" "PNG..." 0.

Definition first_env : string * (redis_env * pg_env) := ("n1", (mkRedisEnv (Ok "0123456789abcdef") 1000 false true, mkPgEnv (Ok "fedcba9876543210") 1000 false)).

Definition empty_deployed : deployed (gmap string (blob_hash * Z)) :=
  mkSealedStore (mkRedisStore "supermcp:blob:" "https://mcp.example" defaultBlobTTL ∅, mkPgStore "https://mcp.example" 0 []).

Definition deployed_blobs : BlobStore (deployed (gmap string (blob_hash * Z))) (string * (redis_env * pg_env)) ((Z * bool) * (Z * bool)) :=
  sealed_blobs (H := fallback_blobs (H := redis_blobs (H := map_hashes)) (H0 := pg_blobs)) (H0 := plain_sealer).

Definition after_put : deployed (gmap string (blob_hash * Z)) := (bs_Put (BlobStore := deployed_blobs) empty_deployed first_env a_scan).2.

Lemma blob_reaches_its_owner_witness :
  Zero ann = false /\ exists e b', (e, b') ∈ [(first_env, a_scan)] /\ b64 "0123456789abcdef" ∈ drawn (re_rand e.2.1) ++ drawn (pv_rand e.2.2) /\
    bl_Owner b' = ann /\ same_blob (mkBlob ann "image/png" "scan.png" "PNG..." 900000000000) b'.
Proof.
  destruct (blob_reaches_its_owner _ (RH := map_hashes) (H := plain_sealer)) as (_ & _ & Deployed).
  apply (Deployed "supermcp:blob:" "https://mcp.example" defaultBlobTTL ∅ "https://mcp.example" 0%Z ltac:(intros t k; cbn; by rewrite lookup_empty)
           (mkBlobWorld after_put [(first_env, a_scan)]) ((2000%Z, false), (2000%Z, false)) (b64 "0123456789abcdef") ann
           (mkBlob ann "image/png" "scan.png" "PNG..." 900000000000) after_put).
  - apply rtc_once. exact (step_put (H := deployed_blobs) _ (mkBlobWorld empty_deployed []) first_env a_scan).
  - vm_compute. reflexivity.
Defined.

Lemma link_can_be_followed_witness :
  (sealed_Get (H := pg_blobs) (H0 := plain_sealer)
     (mkSealedStore (pg_Sweep (ss_Inner (sealed_Put (H := pg_blobs) (H0 := plain_sealer) (mkSealedStore (mkPgStore "" 0 [])) ("n", mkPgEnv (Ok "0123456789abcdef") 1000 false) a_scan).2) 5000).2)
     (6000%Z, false) (b64 "0123456789abcdef") ann).1 = Ok (Some (expiring a_scan (micros (1000 + defaultBlobTTL)))).
Proof.
  apply (link_can_be_followed (H := plain_sealer) [] "" 0 "n" (mkPgEnv (Ok "0123456789abcdef") 1000 false) a_scan
           (mkBlobRef (b64 "0123456789abcdef") ("/api/v1/blobs/" +:+ b64 "0123456789abcdef") (1000 + defaultBlobTTL)) _ 5000 6000).
  - intros id _ r Hr. by apply elem_of_nil in Hr.
  - vm_compute. reflexivity.
  - lia.
  - vm_compute. reflexivity.
Defined.

Definition person_of (org id : string) : Principal := mkPrincipal KindUser id org "s1" "" "" "" [] false "session" "" false (mkSignIn 0 "" "" []).

Definition a_tool : Tool :=
  mkTool "scan_page" "" None None None 0 None None (mkOperation "GET" "/x" None [] None "" "" None "" 0 None "" "" "" None) None.

Definition a_connector : Connector :=
  mkConnector "c1" "acme" "scanner" (mkTransport "http" "https://scan.example" "" "" [] 0 None false)
    (mkAuth "none" false "" "" "" "" "" "" "" "" "" [] "" "" "" "" "" [] "" "" [] "" "" "" "" None [] [] None None "" "" "" "" "" "" "" "" "" "" None [])
    "" "" "" false true 1 1 [] 0 0 false.

Definition scan_call : Call :=
  mkToolCall (Some (person_of "acme" "u-ann")) "srv" (mkStoredTool "t1" "c1" "scan_page" (Some a_tool) "" true None 1 "custom" None "" 0 0) a_connector [] false.

Definition one_type (s : string) : option string := Some s.

Definition no_time (t : Z) : string := "".

Definition scan_env : pg_env := mkPgEnv (Ok "0123456789abcdef") 1000 false.

Lemma binary_whole_or_refused_witness :
  let '(r, s) := Binary one_type (fun _ => []) (fun _ => "") no_time (Some (mkContent true 0)) (mkPgStore "" 0 []) scan_env scan_call
                   (mkStream "PNG..." None) "image/png" 4 in
  exists ref, pg_Put (mkPgStore "" 0 []) scan_env (the_blob (fun _ => []) scan_call "image/png" "PNG...") = (Ok ref, s) /\ exists out, r = Ok out.
Proof.
  destruct (Binary _ _ _ _ _ _ _ _ _ _ _) as [r s] eqn:B. assert (exists out, r = Ok out) as [out ->].
  { vm_compute in B. injection B as <- _. by eexists. }
  destruct (binary_whole_or_refused one_type (fun _ => []) (fun _ => "") no_time (Some (mkContent true 0)) (mkPgStore "" 0 []) scan_env scan_call
              (mkStream "PNG..." None) "image/png" 4 out s ltac:(lia) B) as [_ [(Sz & _)|(_ & _ & _ & ref & P & _)]].
  - vm_compute in Sz. by destruct Sz.
  - exists ref. split; [exact P|by exists out].
Defined.

Lemma memory_store_stays_bounded_witness :
  let s := mkMemoryStore "" 0 (mkStore [] 0 2 100) in
  let e := mkMemoryEnv (Ok "0123456789abcdef") 1000 1000 in
  ok (ms_store (memory_Put s e a_scan).2).
Proof.
  cbv zeta. destruct (memory_Put _ _ _) as [r s'] eqn:P.
  refine (proj1 (memory_store_stays_bounded _ _ _ r s' 0 "" ann _ _ _ P)).
  - split; cbn; try done; try lia. constructor.
  - done.
  - done.
Defined.
