(* ===== verification/Engine.v ===== *)
(** * Engine: what a call asks an upstream and what comes back (internal/engine/engine.go, internal/transform)

    The records the executor and the engines exchange, the errors they
    return, and the transform that reshapes a response.  An error is what the
    program asks of one: its text, the sentinels [errors.Is] finds in its
    chain, and the [UpstreamError] that [errors.As] finds.  JMESPath, the
    JSON encoding and the names of HTTP statuses are arguments. *)
From S2P Require Import Prelude GoStrings Float64 Regex Values Tmpl Adapter Blobs Calls.

Open Scope list_scope.

(** ** Errors *)

Inductive sentinel : Type :=
  | DeadlineExceeded
  | Canceled
  | BreakerOpen
  | PolicyRefused
  | ScanDeadlinePassed
  | DetectorBroken
  | TransformFatal
  | Unsupported
  | Unset
  | AddressBlocked
  | MissingCredential
  | ConnectorNotFound
  | NoNetworkInDryRun.

#[export] Instance sentinel_eq_dec : EqDecision sentinel.
Proof. solve_decision. Defined.

Record UpstreamError : Type := mkUpstreamError { ue_Status : Z; ue_Body : string; ue_Hint : string }.

Record error : Type := mkError { er_Text : string; er_chain : list sentinel; er_upstream : option UpstreamError }.

(** [errors.Is]. *)
Definition Is (e : error) (s : sentinel) : bool := bool_decide (s ∈ er_chain e).

Definition plain_error (text : string) : error := mkError text [] None.

(** [fmt.Errorf] with [%w]: the sentinels of what is wrapped, and text
    around it. *)
Definition wrap (before : string) (e : error) : error := mkError (before +:+ er_Text e) (er_chain e) (er_upstream e).

Definition ErrUnsupportedText : string := "operation not supported by this engine".

Definition ErrUnsupported (before after : string) : error := mkError (before +:+ ErrUnsupportedText +:+ after) [Unsupported] None.

Section upstream_error.
Context (StatusText : Z -> string).

(** [UpstreamError.Error]. *)
Definition upstream_text (e : UpstreamError) : string :=
  if String.eqb (ue_Hint e) "" then "upstream returned " +:+ StatusText (ue_Status e)
  else "upstream returned " +:+ StatusText (ue_Status e) +:+ ": " +:+ ue_Hint e.

Definition upstream_error (e : UpstreamError) : error := mkError (upstream_text e) [] (Some e).
End upstream_error.

(** ** What engines are given and answer *)

(** [engine.Connector]. *)
Record EngineConnector : Type := mkEngineConnector {
  ec_ID : string;
  ec_Version : Z;
  ec_Type : string;
  ec_BaseURL : string;
  ec_DSN : string;
  ec_Driver : string;
  ec_Headers : ordered;
  ec_Auth : Auth;
  ec_Config : list (string * value);
  ec_ReadOnly : bool;
}.

Record Limits : Type := mkLimits { lm_MaxRows : Z; lm_MaxInlineBytes : Z }.

(** [engine.Response]; a nil [Body] is [VNil]. *)
Record EngineResponse : Type := mkEngineResponse {
  er_Body : value;
  er_Stream : option stream;
  er_MediaType : string;
  er_Status : Z;
  er_Headers : list (string * string);
  er_Meta : Meta;
}.

Record Preview : Type := mkPreview {
  pv_Method : string;
  pv_URL : string;
  pv_Headers : list (string * string);
  pv_Body : string;
  pv_SQL : string;
  pv_Args : list value;
  pv_Note : string;
}.

Definition no_preview : Preview := mkPreview "" "" [] "" "" [] "".

(** ** The transform *)

Definition MaxExpressionLength : nat := 4000.

Record Spec : Type := mkSpec { sp_JMESPath : string; sp_MaxBytes : Z; sp_FallbackToRaw : option bool }.

(** [transform.Outcome]. *)
Record Transformed : Type := mkTransformed {
  tf_Value : value;
  tf_Applied : bool;
  tf_Truncated : bool;
  tf_Err : option string;
  tf_Fatal : bool;
}.

Section transform.
Context {J : Type} (jmes_compile : string -> result string J) (jmes_search : J -> value -> result string value)
  (marshal : value -> result string string).

Definition Compile_expr (expr : string) : result string J :=
  if MaxExpressionLength <? String.length expr then Err "expression exceeds 4000 characters" else jmes_compile expr.

Definition failed (v : value) (err : string) (fallback : bool) : Transformed :=
  if fallback then mkTransformed v false false (Some err) false else mkTransformed VNil false false (Some err) true.

Definition marker (bytes limit : Z) : value :=
  VMap [("_bytes", VInt bytes); ("_limit", VInt limit); ("_truncated", VBool true)].

Definition cap (spec : option Spec) (o : Transformed) : Transformed :=
  match spec with
  | None => o
  | Some spec =>
      if (sp_MaxBytes spec <=? 0)%Z || tf_Fatal o then o
      else match marshal (tf_Value o) with
           | Err _ => o
           | Ok b =>
               let n := Z.of_nat (String.length b) in
               if (sp_MaxBytes spec <? n)%Z then mkTransformed (marker n (sp_MaxBytes spec)) (tf_Applied o) true (tf_Err o) (tf_Fatal o) else o
           end
  end.

Definition untouched (v : value) : Transformed := mkTransformed v false false None false.

Definition Apply_transform (spec : option Spec) (v : value) : Transformed :=
  match spec with
  | None => cap spec (untouched v)
  | Some sp =>
      if String.eqb (sp_JMESPath sp) "" then cap spec (untouched v)
      else
        let fallback := default true (sp_FallbackToRaw sp) in
        match Compile_expr (sp_JMESPath sp) with
        | Err e => failed v e fallback
        | Ok compiled =>
            match jmes_search compiled v with
            | Err e => failed v e fallback
            | Ok out => cap spec (mkTransformed out true false None false)
            end
        end
  end.

(** ** What the transform promises *)

(** The value is within the limit, or the marker stands in its place. *)
Definition within (spec : Spec) (v : value) : Prop :=
  (sp_MaxBytes spec <= 0)%Z \/ (exists e, marshal v = Err e) \/
  (exists b, marshal v = Ok b /\ (Z.of_nat (String.length b) <= sp_MaxBytes spec)%Z) \/
  exists n, (sp_MaxBytes spec < n)%Z /\ v = marker n (sp_MaxBytes spec).

Lemma cap_within spec o : tf_Fatal o = false -> within spec (tf_Value (cap (Some spec) o)).
Proof.
  intros F. unfold cap, within. rewrite F, orb_false_r. destruct (_ <=? 0)%Z eqn:L; bool_prop; [by left|right].
  destruct (marshal (tf_Value o)) as [b|e] eqn:M; [|left; by exists e]. right.
  destruct (_ <? _)%Z eqn:L2; bool_prop; [right|left; exists b; split; [done|lia]].
  exists (Z.of_nat (String.length b)). split; [lia|done].
Qed.

(** The size cap has a way round it: what a transform answers is within
    the cap, or the marker that says it was not, or the call fails, except
    when the expression failed and the raw response is passed on, which is
    not measured. *)
Theorem transform_is_capped spec v :
  let o := Apply_transform (Some spec) v in
  (tf_Err o = None /\ tf_Fatal o = false /\ within spec (tf_Value o)) \/
  (exists e, tf_Err o = Some e /\ tf_Fatal o = false /\ tf_Value o = v /\ default true (sp_FallbackToRaw spec) = true) \/
  (exists e, tf_Err o = Some e /\ tf_Fatal o = true /\ sp_FallbackToRaw spec = Some false).
Proof.
  cbv zeta. unfold Apply_transform.
  assert (forall x y, tf_Fatal x = false -> tf_Err x = None -> y = cap (Some spec) x -> tf_Err y = None /\ tf_Fatal y = false /\ within spec (tf_Value y)) as Hc.
  { intros x y F E ->. split_and!; [| |by apply cap_within]; unfold cap; rewrite F, orb_false_r; repeat (case_match; try done). }
  destruct (String.eqb _ ""); [left; by apply (Hc (untouched v))|].
  assert (forall e, let o := failed v e (default true (sp_FallbackToRaw spec)) in
            (exists e, tf_Err o = Some e /\ tf_Fatal o = false /\ tf_Value o = v /\ default true (sp_FallbackToRaw spec) = true) \/
            (exists e, tf_Err o = Some e /\ tf_Fatal o = true /\ sp_FallbackToRaw spec = Some false)) as Hf.
  { intros e. destruct (sp_FallbackToRaw spec) as [[|]|]; cbn; [left|right|left]; by exists e. }
  destruct (Compile_expr _) as [c|e]; [|right; apply Hf]. destruct (jmes_search c v) as [out|e]; [|right; apply Hf]. left. by apply (Hc (mkTransformed out true false None false)).
Qed.
End transform.

(** A response whose expression fails is passed on at any size. *)
Example raw_response_is_not_measured :
  let o := Apply_transform (J := unit) (fun _ => Err "syntax") (fun _ _ => Err "") (fun _ => Ok "0123456789")
             (Some (mkSpec "a b" 5 None)) (VStr "01234567") in
  tf_Value o = VStr "01234567" /\ tf_Truncated o = false.
Proof. done. Qed.
