(* ===== verification/Invoke.v ===== *)
(** * Invoke: carrying a tool call to its engine (internal/invoke/invoke.go)

    [Execute] from the approval check to the record: the arguments are
    screened and the engine asked, the answer is transformed, screened,
    remembered and shown, and the call is written down.  What a call does is
    a computation of its own small monad, over the approvals, the cache and
    the blobs it may change and a log of what it did: what the engine was
    asked, what findings, row and event were recorded.  The engines, the
    connector service and the preparation of a credential are arguments, as
    are JSON, JMESPath, SHA-256 and the Unicode case mappings. *)
From stdpp Require Import base list gmap strings.
From S2P Require Import Prelude GoStrings Float64 Regex Detectors CustomDetectors Dlp Tmpl DlpPolicy ApprovalRules Approvals.
From S2P Require Import Values Authz AuditEvents Adapter ToolAnnotations BoundedStore ResponseCache Blobs Redact Calls Engine.

Open Scope list_scope.

(** What the engine is asked: [engine.Request], with the time its client is
    given. *)
Record Request (U : Type) : Type := mkEngineRequest {
  rq_Connector : EngineConnector;
  rq_Tool : Tool;
  rq_Vars : Vars;
  rq_Auth : U;
  rq_HTTP : option Z;
  rq_Limits : Limits;
}.

Arguments mkEngineRequest {_}.
Arguments rq_Connector {_}.
Arguments rq_Tool {_}.
Arguments rq_Vars {_}.
Arguments rq_Auth {_}.
Arguments rq_HTTP {_}.
Arguments rq_Limits {_}.

(** A row of [tool_invocations]; a NULL is [None]. *)
Record invocation : Type := mkInvocation {
  iv_id : string;
  iv_organization_id : string;
  iv_server_id : string;
  iv_connector_id : string;
  iv_tool_id : string;
  iv_tool_name : string;
  iv_principal_kind : string;
  iv_principal_id : string;
  iv_auth_method : string;
  iv_status : string;
  iv_duration_ms : Z;
  iv_upstream_ms : option Z;
  iv_input : option string;
  iv_output : option string;
  iv_error : option string;
}.

(** [dlp.Recording]. *)
Record Recording : Type := mkRecording {
  rc_InvocationID : string;
  rc_PolicyID : string;
  rc_ConnectorID : string;
  rc_ToolID : string;
  rc_ToolName : string;
  rc_Stage : Stage;
  rc_Action : Action;
  rc_Result : Dlp.Result;
}.

Definition error_class : Type := string.
Definition ClassNone : error_class := "none".
Definition ClassUpstream4xx : error_class := "upstream_4xx".
Definition ClassUpstream5xx : error_class := "upstream_5xx".
Definition ClassTimeout : error_class := "timeout".
Definition ClassAuth : error_class := "auth".
Definition ClassTransform : error_class := "transform".
Definition ClassUnsupported : error_class := "unsupported".
Definition ClassConfig : error_class := "config".
Definition ClassPolicy : error_class := "policy".
Definition ClassInternal : error_class := "internal".
Definition ClassOther : error_class := "other".

(** What a call leaves behind. *)
Inductive effect (U : Type) : Type :=
  | Asked_engine (transport : string) (rq : Request U)
  | Found (org : string) (rc : Recording)
  | Invoked (row : invocation)
  | Emitted (e : AuditEvent)
  | Observed (transport tool status : string) (class : error_class) (upstream : Z).

Arguments Asked_engine {_}.
Arguments Found {_}.
Arguments Invoked {_}.
Arguments Emitted {_}.
Arguments Observed {_}.

(** ** Small functions *)

(** The ellipsis, in UTF-8. *)
Definition ellipsis : string := string_of (map ascii_of_nat [226; 128; 166]).

Definition truncate (s : string) (n : nat) : string := if String.length s <=? n then s else str_take n s +:+ ellipsis.

(** [m[k] = v] over the keys a definition gives defaults for. *)
Definition fill_default (NodeVal : node -> result node_error value) (props : option node) (out : list (string * value)) (name : string) :
    list (string * value) :=
  match obj_get out name with
  | Some _ => out
  | None =>
      match MapGet (MapGet props name) "default" with
      | Some d => match NodeVal d with Ok v => obj_set out name v | Err _ => out end
      | None => out
      end
  end.

Definition applyDefaults (NodeVal : node -> result node_error value) (def : Tool) (args : list (string * value)) : list (string * value) :=
  match to_Input def with
  | None => args
  | Some input => let props := MapGet (Some input) "properties" in foldl (fill_default NodeVal props) args (MapKeys props)
  end.

Definition classOfStatus (status : Z) : error_class :=
  if (status =? 401)%Z || (status =? 403)%Z then ClassAuth
  else if (500 <=? status)%Z then ClassUpstream5xx
  else if (400 <=? status)%Z then ClassUpstream4xx
  else ClassOther.

Definition errorClass (err : option error) (res : option Result) : error_class :=
  match err with
  | None =>
      match res with
      | Some r => if re_IsError r then classOfStatus (re_UpstreamStatus r) else ClassNone
      | None => ClassNone
      end
  | Some e =>
      if Is e DeadlineExceeded || Is e Canceled then ClassTimeout
      else match er_upstream e with
      | Some ue => classOfStatus (ue_Status ue)
      | None =>
          if Is e BreakerOpen then ClassUpstream5xx
          else if Is e PolicyRefused then ClassPolicy
          else if Is e TransformFatal then ClassTransform
          else if Is e Unsupported then ClassUnsupported
          else if Is e Unset || Is e AddressBlocked || Is e MissingCredential || Is e ConnectorNotFound then ClassConfig
          else ClassInternal
      end
  end.

(** The JSON of a [Notice], a pointer of its own type. *)
Definition notice_value (FormatTime : Z -> string) (n : option Notice) : value :=
  VTyped (match n with
          | None => VNil
          | Some n =>
              let opt k s rest := if String.eqb s "" then rest else (k, VStr s) :: rest in
              VMap ((if nt_Acknowledged n then [("acknowledged", VBool true)] else []) ++
                    ("approvalRequestId", VStr (nt_RequestID n)) :: ("expiresAt", VStr (FormatTime (nt_ExpiresAt n))) ::
                    opt "policy" (nt_ApprovalPolicy n) (opt "reason" (nt_Reason n) (opt "retryWith" (nt_RetryWith n)
                      [("state", VStr (state_string (nt_State n))); ("status", VStr (nt_Status n)); ("tool", VStr (nt_Tool n))])))
          end).

(** The error a refusal of the policy is. *)
Definition refusal (e : screen_error) : error :=
  let refused := "blocked by a data-loss prevention policy: " in
  match e with
  | ErrUnreadable why => plain_error why
  | ErrRefusedBroken name reason =>
      mkError (refused +:+ "a detector this policy names cannot run: " +:+ name +:+ " (" +:+ de_Field reason +:+ ": " +:+ CustomDetectors.de_Reason reason +:+ ")")
        [PolicyRefused; DetectorBroken] None
  | ErrRefusedScan ErrRefusedDeadline => mkError (refused +:+ "the data-loss scan did not finish in time") [PolicyRefused; ScanDeadlinePassed] None
  | ErrRefusedScan (ErrRefusedKinds kinds) => mkError (refused +:+ kinds) [PolicyRefused] None
  end.

(** ** The monad of a call *)

(** What a call may change; the log is in the order things happened. *)
Record machine (A R B U : Type) : Type := mkMachine {
  mc_approvals : A;
  mc_cache : option Cache;
  mc_redis : R;
  mc_blobs : B;
  mc_log : list (effect U);
}.

Arguments mkMachine {_ _ _ _}.
Arguments mc_approvals {_ _ _ _}.
Arguments mc_cache {_ _ _ _}.
Arguments mc_redis {_ _ _ _}.
Arguments mc_blobs {_ _ _ _}.
Arguments mc_log {_ _ _ _}.

(** A Go function that returns an error, or panics. *)
Inductive answer (X : Type) : Type := Done (x : X) | Failed (e : error) | Panicked.

Arguments Done {_}.
Arguments Failed {_}.
Arguments Panicked {_}.

Definition M (S X : Type) : Type := S -> S * answer X.

#[export] Instance M_ret S : MRet (M S) := fun _ x s => (s, Done x).

#[export] Instance M_bind S : MBind (M S) := fun _ _ k m s =>
  match m s with
  | (s, Done x) => k x s
  | (s, Failed e) => (s, Failed e)
  | (s, Panicked) => (s, Panicked)
  end.

Definition fail {S X} (e : error) : M S X := fun s => (s, Failed e).
Definition panic {S X} : M S X := fun s => (s, Panicked).

Definition of_result {S X} (r : result error X) : M S X := match r with Ok x => mret x | Err e => fail e end.

(** The error as a value, for a caller that looks at it. *)
Definition attempt {S X} (m : M S X) : M S (result error X) := fun s =>
  match m s with
  | (s, Done x) => (s, Done (Ok x))
  | (s, Failed e) => (s, Done (Err e))
  | (s, Panicked) => (s, Panicked)
  end.

(** What the policies answer and the clock reads while one half of a call is
    screened (the arguments of [DlpPolicy.Screen]). *)
Record screening : Type := mkScreening {
  sg_configured : bool;
  sg_first : result string DlpPolicy.cacheEntry;
  sg_second : result string DlpPolicy.cacheEntry;
  sg_deadline : option Z;
  sg_now : Z;
  sg_reads : nat -> Z;
}.

(** The executor's collaborators and what they answer during one call. *)
Record environment (A E U : Type) : Type := mkEnvironment {
  en_id : string;
  en_Approvals : option (A -> CallRef -> A * result error Outcome);
  en_lookup : cache_io;
  en_store : cache_io;
  en_screen : Stage -> screening;
  en_blob : E;
  en_Content : option Content;
  en_MaxBlobBytes : Z;
  en_stream_chain : list sentinel;
  en_engines : string -> option (Request U -> option EngineResponse * option error);
  en_Resolve : result error (EngineConnector * gmap string string);
  en_Prepare : EngineConnector -> Vars -> result error (U * Vars);
  en_mode : PayloadMode;
  en_audit_mode : PayloadMode;
  en_audited : bool;
  en_row_written : bool;
  en_duration_ms : Z;
  en_request_id : string;
}.

Arguments mkEnvironment {_ _ _}.
Arguments en_id {_ _ _}.
Arguments en_Approvals {_ _ _}.
Arguments en_lookup {_ _ _}.
Arguments en_store {_ _ _}.
Arguments en_screen {_ _ _}.
Arguments en_blob {_ _ _}.
Arguments en_Content {_ _ _}.
Arguments en_MaxBlobBytes {_ _ _}.
Arguments en_stream_chain {_ _ _}.
Arguments en_engines {_ _ _}.
Arguments en_Resolve {_ _ _}.
Arguments en_Prepare {_ _ _}.
Arguments en_mode {_ _ _}.
Arguments en_audit_mode {_ _ _}.
Arguments en_audited {_ _ _}.
Arguments en_row_written {_ _ _}.
Arguments en_duration_ms {_ _ _}.
Arguments en_request_id {_ _ _}.

(** [New]'s threshold. *)
Definition New_MaxBlobBytes (n : Z) : Z := (if n <=? 0 then 8 * 2 ^ 20 else n)%Z.

(** JSON, JMESPath, media types, time formats and the Unicode mappings. *)
Class Library : Type := {
  lb_sha256 : string -> string;
  lb_upper : string -> string;
  lb_lower : string -> string;
  lb_NodeValue : node -> result node_error value;
  lb_jmes : Type;
  lb_jmes_compile : string -> result string lb_jmes;
  lb_jmes_search : lb_jmes -> value -> result string value;
  lb_marshal : value -> result string string;
  lb_indent : value -> option string;
  lb_Sprint : value -> string;
  lb_ParseMediaType : string -> option string;
  lb_ExtensionsByType : string -> list string;
  lb_hex8 : string -> string;
  lb_FormatTime : Z -> string;
}.

Section execute.
Context {A R B E G U : Type} {HB : BlobStore B E G} {HR : Redis R} {J : Json} {L : Library} (env : environment A E U).

Notation state := (machine A R B U).
Notation M := (M state).

Definition log (e : effect U) : M unit := fun s =>
  (mkMachine (mc_approvals s) (mc_cache s) (mc_redis s) (mc_blobs s) (mc_log s ++ [e]), Done tt).

(** ** Screening *)

Definition recordFindings (c : Call) (stage : Stage) (scr : Screened) : M unit :=
  match rs_Findings (sd_Result scr), sd_ScanPolicy scr with
  | _ :: _, Some p =>
      log (Found (cn_OrgID (c_Connector c))
             (mkRecording (en_id env) (pl_ID p) (cn_ID (c_Connector c)) (st_ID (c_Tool c)) (st_Name (c_Tool c)) stage (pl_Action p) (sd_Result scr)))
  | _, _ => mret tt
  end.

(** What the policy answers for one half of the call. *)
Definition screened (c : Call) (stage : Stage) (v : value) : Screened * option screen_error :=
  let sg := en_screen env stage in
  Screen lb_lower (sg_reads sg) (sg_configured sg) (sg_first sg) (sg_second sg) (sg_deadline sg) (sg_now sg)
    (cn_OrgID (c_Connector c)) (cn_ID (c_Connector c)) (st_ID (c_Tool c)) stage v.

Definition screen (c : Call) (stage : Stage) (v : value) : M value :=
  match screened c stage v with
  | (_, Some (ErrUnreadable _)) => mret v
  | (scr, Some e) => recordFindings c stage scr ≫= fun _ => fail (refusal e)
  | (scr, None) => if sd_Applied scr then recordFindings c stage scr ≫= fun _ => mret (sd_Value scr) else mret v
  end.

(** ** Asking the upstream *)

Definition withDefaults (def : Tool) (c : Call) : value := VMap (applyDefaults lb_NodeValue def (c_Args c)).

Definition defaultTotalTimeout : Z := 30 * 10 ^ 9.

Definition client_timeout (def : Tool) (c : Call) : option Z :=
  if String.eqb (transport_of c) TransportDatabase then None
  else
    let t := tr_Timeout (cn_Transport (c_Connector c)) in
    let total := if (t =? 0)%Z then defaultTotalTimeout else t in
    Some (if negb (to_Timeout def =? 0)%Z && (to_Timeout def <? total)%Z then to_Timeout def else total).

Definition request (def : Tool) (c : Call) (conn : EngineConnector) (vars : Vars) (auth : U) : Request U :=
  mkEngineRequest conn def vars auth (client_timeout def c) (mkLimits (op_MaxRows (to_Operation def)) (16 * 2 ^ 20)).

Definition upstream (def : Tool) (c : Call) : M (option EngineResponse * option error) :=
  match en_engines env (transport_of c) with
  | None => fail (ErrUnsupported ("transport " +:+ transport_of c +:+ ": ") "")
  | Some eng =>
      '(conn, vals) ← of_result (en_Resolve env);
      let args := applyDefaults lb_NodeValue def (c_Args c) in
      v ← screen c StageArguments (VMap args);
      let args := match v with VMap m => m | _ => args end in
      '(auth, vars) ← of_result (en_Prepare env conn (mkVars args vals (callerVars c) ∅ ∅));
      let rq := request def c conn vars auth in
      _ ← log (Asked_engine (transport_of c) rq);
      mret (eng rq)
  end.

(** A static value that cannot be decoded is nil. *)
Definition staticResponse (def : Tool) : EngineResponse :=
  mkEngineResponse
    (match op_Value (to_Operation def) with Some n => match lb_NodeValue n with Ok v => v | Err _ => VNil end | None => VNil end)
    None "text/plain" 0 [] no_meta.

(** ** The result *)

Definition renderText (v : value) : string :=
  match v with
  | VNil => ""
  | VStr s => s
  | v => match lb_indent v with Some b => b | None => lb_Sprint v end
  end.

Definition userFacing (e : error) : string :=
  let msg := RedactText lb_lower (er_Text e) in
  if Is e Unsupported then "This tool's transport or auth type is not supported yet: " +:+ msg
  else if Is e Unset then "A required value is missing: " +:+ msg
  else if Is e PolicyRefused then "This workspace's data-loss policy refused the call: " +:+ msg
  else "Tool call failed: " +:+ truncate msg 2000.

(** The body a definition's transform makes, when it has one; an upstream's
    refusal is not transformed. *)
Definition transformed (def : Tool) (body : value) (ue : option UpstreamError) : result error value :=
  match to_Response def, ue with
  | Some r, None =>
      match rs_Transform r with
      | Some expr =>
          let o := Apply_transform lb_jmes_compile lb_jmes_search lb_marshal (Some (mkSpec expr (rs_MaxBytes r) (rs_FallbackToRaw r))) body in
          if tf_Fatal o
          then Err (mkError ("response transform failed and fallbackToRaw is false: " +:+ default "" (tf_Err o)) [TransformFatal] None)
          else Ok (tf_Value o)
      | None => Ok body
      end
  | _, _ => Ok body
  end.

(** The exposed headers are put into a map as the [map[string]string] they
    are. *)
Definition headers_value (h : list (string * string)) : value := VTyped (VMap (map (fun e => (e.1, VStr e.2)) h)).

Definition with_headers (body : value) (h : list (string * string)) : value :=
  match h, body with
  | _ :: _, VMap m => VMap (obj_set m "_headers" (headers_value h))
  | _, _ => body
  end.

Definition error_result (text : string) (meta : Meta) (status : Z) (why : string) : Result :=
  mkResult [TextContent text] VNil true meta status why.

(** What the caller reads of an upstream's refusal. *)
Definition refusal_text (ue : UpstreamError) (body : value) : string :=
  let hint := if String.eqb (ue_Hint ue) "" then renderText body else ue_Hint ue in
  "Upstream returned HTTP " +:+ Itoa (ue_Status ue) +:+ "." +:+ string_of [newline] +:+ truncate hint 4000.

Definition cache_lookup (c : Call) : M (option Result) := fun s =>
  match mc_cache s with
  | None => (s, Done None)
  | Some ca =>
      let '(hit, ca) := Lookup lb_sha256 lb_upper ca (mc_redis s) (en_lookup env) c in
      (mkMachine (mc_approvals s) (Some ca) (mc_redis s) (mc_blobs s) (mc_log s), Done hit)
  end.

Definition cache_store (c : Call) (out : Result) : M unit := fun s =>
  match mc_cache s with
  | None => (s, Done tt)
  | Some ca =>
      let '(ca, r) := Store lb_sha256 lb_upper ca (mc_redis s) (en_store env) c out in
      (mkMachine (mc_approvals s) (Some ca) r (mc_blobs s) (mc_log s), Done tt)
  end.

Definition binary (c : Call) (body : stream) (media : string) : M (list content) := fun s =>
  let '(r, b) := Binary lb_ParseMediaType lb_ExtensionsByType lb_hex8 lb_FormatTime (en_Content env) (mc_blobs s) (en_blob env) c body media
                   (en_MaxBlobBytes env) in
  (mkMachine (mc_approvals s) (mc_cache s) (mc_redis s) b (mc_log s),
   match r with Ok l => Done l | Err why => Failed (mkError why (en_stream_chain env) None) end).

Definition is_static (def : Tool) : bool := String.eqb (op_Kind (to_Operation def)) "static".

(** [finish]; a response that is nil is dereferenced. *)
Definition finish (def : Tool) (c : Call) (resp : option EngineResponse) (ue : option UpstreamError) : M Result :=
  match resp with
  | None => panic
  | Some resp =>
      match er_Stream resp with
      | Some st => content ← binary c st (er_MediaType resp); mret (mkResult content VNil false (er_Meta resp) 0 "")
      | None =>
          body ← of_result (transformed def (er_Body resp) ue);
          let body := with_headers body (er_Headers resp) in
          verdict ← attempt (screen c StageResult body);
          match verdict with
          | Err e =>
              if Is e PolicyRefused then mret (error_result (userFacing e) (er_Meta resp) 0 (er_Text e)) else fail e
          | Ok v =>
              let body := match v with VNil => body | v => v end in
              match ue with
              | Some ue => mret (error_result (refusal_text ue body) (er_Meta resp) (ue_Status ue) "")
              | None =>
                  let out := mkResult [TextContent (renderText body)] (match to_Output def with Some _ => body | None => VNil end) false (er_Meta resp) 0 "" in
                  _ ← (if is_static def then mret tt else cache_store c out);
                  mret out
              end
          end
      end
  end.

Definition run (def : Tool) (c : Call) : M Result :=
  if is_static def then
    _ ← screen c StageArguments (withDefaults def c);
    finish def c (Some (staticResponse def)) None
  else
    hit ← cache_lookup c;
    match hit with
    | Some res => mret res
    | None =>
        '(resp, err) ← upstream def c;
        match err with
        | None => finish def c resp None
        | Some e => match er_upstream e with None => fail e | Some ue => finish def c resp (Some ue) end
        end
    end.

(** ** Waiting for a person *)

Definition call_ref (def : Tool) (c : Call) : CallRef :=
  let ann := Derive lb_upper def (transport_of c) (cn_ReadOnly (c_Connector c)) in
  let '(kind, id, display) := match c_Principal c with
                              | None => ("anonymous", "", "")
                              | Some p => (kind_string (p_Kind p), p_ID p, p_Email p)
                              end in
  mkCall (cn_OrgID (c_Connector c)) (c_ServerID c) (cn_ID (c_Connector c)) (st_ID (c_Tool c)) (st_Name (c_Tool c))
    (an_DestructiveHint ann) kind id display (c_Args c).

Definition with_args (c : Call) (args : list (string * value)) : Call :=
  mkToolCall (c_Principal c) (c_ServerID c) (c_Tool c) (c_Connector c) args (c_Draft c).

(** The call with the arguments it goes on with, and what ends it here. *)
Definition awaitApproval (def : Tool) (c : Call) : M (Call * result error (option Result)) := fun s =>
  match en_Approvals env with
  | None => (s, Done (c, Ok None))
  | Some check =>
      let '(a, r) := check (mc_approvals s) (call_ref def c) in
      (mkMachine a (mc_cache s) (mc_redis s) (mc_blobs s) (mc_log s),
       Done (match r with
             | Err e => (c, Err e)
             | Ok out =>
                 (with_args c (oc_Args out),
                  Ok (if oc_Required out
                      then Some (mkResult [TextContent (oc_Message out)] (notice_value lb_FormatTime (notice out)) true no_meta 0 "")
                      else None))
             end))
  end.

(** ** The record *)

Definition errorText (e : error) : string := truncate (MaskText (RedactText lb_lower (er_Text e))) 4000.

(** The first text of a result. *)
Definition shown_text (res : option Result) : value :=
  match res with
  | Some r => match re_Content r with TextContent t :: _ => VStr (truncate t (Z.to_nat 65536)) | _ => VNil end
  | None => VNil
  end.

Definition call_status (err : option error) (res : option Result) : string :=
  match err with
  | Some e => if Is e DeadlineExceeded then "timeout" else "error"
  | None => match res with Some r => if re_IsError r then "error" else "success" | None => "success" end
  end.

Definition who (c : Call) : string * string * string :=
  match c_Principal c with
  | None => ("anonymous", "", "none")
  | Some p => (kind_string (p_Kind p), p_ID p, p_AuthMethod p)
  end.

(** The encoding of a value that is not nil; a failed one is not kept. *)
Definition encoded (v : value) : option string :=
  match v with VNil => None | v => match lb_marshal v with Ok b => Some b | Err _ => None end end.

Definition invocation_of (c : Call) (err : option error) (res : option Result) : invocation :=
  let '(kind, id, method) := who c in
  let '(input, output) := Apply_payload lb_lower (en_mode env) (VMap (c_Args c)) (shown_text res) in
  mkInvocation (en_id env) (cn_OrgID (c_Connector c)) (c_ServerID c) (cn_ID (c_Connector c)) (st_ID (c_Tool c)) (st_Name (c_Tool c))
    kind id method (call_status err res) (en_duration_ms env)
    (match res with Some r => if (0 <? mt_UpstreamDurationMS (re_Meta r))%Z then Some (mt_UpstreamDurationMS (re_Meta r)) else None | None => None end)
    (encoded input) (encoded output) (errorText <$> err).

Definition call_meta (c : Call) (err : option error) (res : option Result) : list (string * value) :=
  let when b k v := if (b : bool) then [(k, v)] else [] in
  let refusal := match res with Some r => re_Refusal r | None => "" end in
  [("authMethod", VStr (who c).2); ("connector", VStr (cn_ID (c_Connector c)))] ++
  when (negb (String.eqb refusal "")) "dlpRefusal" (VStr refusal) ++
  [("durationMs", VInt (en_duration_ms env))] ++
  match err with Some e => [("error", VStr (errorText e))] | None => [] end ++
  when (negb (String.eqb (en_request_id env) "")) "requestId" (VStr (en_request_id env)) ++
  when (negb (String.eqb (c_ServerID c) "")) "server" (VStr (c_ServerID c)).

(** [auditCall]. *)
Definition call_event (c : Call) (err : option error) (res : option Result) : AuditEvent :=
  let '(input, output) := Apply_payload lb_lower (en_audit_mode env) (VMap (c_Args c)) (shown_text res) in
  let payload := match input, output with
                 | VNil, VNil => None
                 | _, _ => Some (VMap [("input", input); ("output", output)])
                 end in
  mkAuditEvent (cn_OrgID (c_Connector c)) CategoryTool "tool.invoke" (if String.eqb (call_status err res) "success" then Success else Failure)
    (who c).1.1 (who c).1.2 "" "" "tool" (st_ID (c_Tool c)) (st_Name (c_Tool c)) (en_request_id env) "" "" "" None payload
    (Some (call_meta c err res)).

Definition record_call (c : Call) (err : option error) (res : option Result) : M unit :=
  _ ← (if en_row_written env then log (Invoked (invocation_of c err res)) else mret tt);
  _ ← (if en_audited env then log (Emitted (call_event c err res)) else mret tt);
  log (Observed (transport_of c) (st_Name (c_Tool c)) (call_status err res) (errorClass err res)
         (match res with Some r => mt_UpstreamDurationMS (re_Meta r) | None => 0 end)).

(** The end of [Execute]: the record, and the error as a result. *)
Definition settle (c : Call) (out : result error Result) : M Result :=
  match out with
  | Ok res => _ ← record_call c None (Some res); mret res
  | Err e => _ ← record_call c (Some e) None; mret (error_result (userFacing e) no_meta 0 "")
  end.

(** [Execute]. *)
Definition Execute (c : Call) : M Result :=
  match def_of c with
  | None => panic
  | Some def =>
      '(c, waiting) ← awaitApproval def c;
      out ← match waiting with
            | Err e => mret (Err e)
            | Ok (Some res) => mret (Ok res)
            | Ok None => attempt (run def c)
            end;
      settle c out
  end.

(** ** What each part of a call does *)

Definition is_found (e : effect U) : Prop := match e with Found _ _ => True | _ => False end.

Definition logged (s : state) (l : list (effect U)) : state :=
  mkMachine (mc_approvals s) (mc_cache s) (mc_redis s) (mc_blobs s) (mc_log s ++ l).

(** The policy lets a value through as another: what it made of it, or the
    value itself when the policies could not be read. *)
Definition passes (c : Call) (stage : Stage) (v v' : value) : Prop :=
  (exists scr why, screened c stage v = (scr, Some (ErrUnreadable why)) /\ v' = v) \/
  (exists scr, screened c stage v = (scr, None) /\ v' = if sd_Applied scr then sd_Value scr else v).

Definition refuses (c : Call) (stage : Stage) (v : value) (e : error) : Prop :=
  exists scr why, screened c stage v = (scr, Some why) /\ e = refusal why /\ Is e PolicyRefused = true.

(** A computation that appends findings and nothing else to the log. *)
Definition finds {X} (m : M X) (post : answer X -> Prop) : Prop :=
  forall s s' r, m s = (s', r) -> (exists fs, mc_log s' = mc_log s ++ fs /\ Forall is_found fs) /\ post r.

Lemma bind_eq {X Y} (m : M X) (k : X -> M Y) s :
  (m ≫= k) s = match m s with (s, Done x) => k x s | (s, Failed e) => (s, Failed e) | (s, Panicked) => (s, Panicked) end.
Proof. reflexivity. Qed.

Lemma recordFindings_spec c stage scr s : exists fs, recordFindings c stage scr s = (logged s fs, Done tt) /\ Forall is_found fs.
Proof.
  unfold recordFindings. assert ((s, Done tt) = (logged s [], Done tt)) as E0 by (unfold logged; rewrite app_nil_r; by destruct s).
  destruct (rs_Findings _), (sd_ScanPolicy scr); try (exists []; by split). eexists. split; [reflexivity|]. by constructor.
Qed.

Lemma refusal_refused e : (forall why, e <> ErrUnreadable why) -> Is (refusal e) PolicyRefused = true.
Proof. intros N. unfold Is. apply bool_decide_eq_true. destruct e as [why|n r|[|k]]; [by destruct (N why)|..]; by left. Qed.

Lemma screen_spec c stage v s : exists fs r, screen c stage v s = (logged s fs, r) /\ Forall is_found fs /\
  ((exists v', r = Done v' /\ passes c stage v v') \/ exists e, r = Failed e /\ refuses c stage v e).
Proof.
  unfold screen. assert (forall x : value, (s, Done x) = (logged s [], Done x)) as E0 by (intros; unfold logged; rewrite app_nil_r; by destruct s).
  destruct (screened c stage v) as [scr [e|]] eqn:Q.
  - assert ((exists why, e = ErrUnreadable why) \/ forall why, e <> ErrUnreadable why) as [[why ->]|N] by (destruct e; [left; by eexists|by right..]).
    { exists [], (Done v). split_and!; [apply E0|done|]. left. exists v. split; [done|]. left. by exists scr, why. }
    destruct (recordFindings_spec c stage scr s) as (fs & F & Ff). exists fs, (Failed (refusal e)).
    split_and!; [|done|right; exists (refusal e); split; [done|]; exists scr, e; split_and!; try done; by apply refusal_refused].
    destruct e as [why|n r|r]; [by destruct (N why)|..]; by rewrite bind_eq, F.
  - destruct (sd_Applied scr) eqn:Ap.
    + destruct (recordFindings_spec c stage scr s) as (fs & F & Ff). exists fs, (Done (sd_Value scr)).
      split_and!; [by rewrite bind_eq, F|done|]. left. eexists. split; [done|]. right. exists scr. by rewrite Ap.
    + exists [], (Done v). split_and!; [apply E0|done|]. left. eexists. split; [done|]. right. exists scr. by rewrite Ap.
Qed.

Lemma cache_lookup_spec c s s' r : cache_lookup c s = (s', r) -> mc_log s' = mc_log s /\ exists hit, r = Done hit.
Proof.
  unfold cache_lookup. destruct (mc_cache s); [|intros [= <- <-]; split; [done|by eexists]].
  destruct (Lookup _ _ _ _ _ _). intros [= <- <-]. split; [done|by eexists].
Qed.

Lemma cache_store_spec c out s s' r : cache_store c out s = (s', r) -> mc_log s' = mc_log s /\ r = Done tt.
Proof. unfold cache_store. destruct (mc_cache s); [|by intros [= <- <-]]. destruct (Store _ _ _ _ _ _ _). by intros [= <- <-]. Qed.

Lemma binary_spec c st media s s' r : binary c st media s = (s', r) -> mc_log s' = mc_log s /\ r <> Panicked.
Proof. unfold binary. destruct (Binary _ _ _ _ _ _ _ _ _ _ _) as [[l|e] b]; intros [= <- <-]; by split. Qed.

Lemma finds_nothing (s : state) (l : list (effect U)) : l = mc_log s -> exists fs, l = mc_log s ++ fs /\ Forall is_found fs.
Proof. intros ->. exists []. by rewrite app_nil_r. Qed.

Lemma finish_spec def c resp ue s s' r : finish def c resp ue s = (s', r) ->
  (exists fs, mc_log s' = mc_log s ++ fs /\ Forall is_found fs) /\ (r = Panicked -> resp = None).
Proof.
  destruct resp as [resp|]; [|intros [= <- <-]; split; [by apply finds_nothing|done]]. unfold finish.
  destruct (er_Stream resp) as [st|].
  - rewrite bind_eq. destruct (binary _ _ _ _) as [s1 a] eqn:Bn. apply binary_spec in Bn as [Bn N]. rewrite <-Bn.
    destruct a; intros [= <- <-]; (split; [by apply finds_nothing|done]).
  - rewrite bind_eq. unfold of_result. destruct (transformed _ _ _) as [body|e]; [|intros [= <- <-]; split; [by apply finds_nothing|done]].
    cbn [mret M_ret]. cbv zeta. rewrite bind_eq. unfold attempt at 1.
    destruct (screen_spec c StageResult (with_headers body (er_Headers resp)) s) as (fs & a & -> & Ff & [(v & -> & _)|(e & -> & (scr & why & _ & _ & Rf))]).
    + destruct ue; [intros [= <- <-]; split; [by exists fs|done]|]. rewrite bind_eq.
      destruct (is_static def); [intros [= <- <-]; split; [by exists fs|done]|]. destruct (cache_store _ _ _) as [s1 a] eqn:St.
      apply cache_store_spec in St as [St ->]. intros [= <- <-]. rewrite St. split; [by exists fs|done].
    + rewrite Rf. intros [= <- <-]. split; [by exists fs|done].
Qed.

(** The request is the one the definition, the arguments the policy let
    through and the prepared credential make. *)
Definition asked_properly (def : Tool) (c : Call) (rq : Request U) : Prop :=
  exists conn vals v auth vars, en_Resolve env = Ok (conn, vals) /\ passes c StageArguments (withDefaults def c) v /\
    en_Prepare env conn (mkVars (match v with VMap m => m | _ => applyDefaults lb_NodeValue def (c_Args c) end) vals (callerVars c) ∅ ∅) = Ok (auth, vars) /\
    rq = request def c conn vars auth.

Lemma upstream_spec def c s s' r : upstream def c s = (s', r) ->
  (exists fs e, mc_log s' = mc_log s ++ fs /\ Forall is_found fs /\ r = Failed e) \/
  exists fs rq eng, mc_log s' = mc_log s ++ fs ++ [Asked_engine (transport_of c) rq] /\ Forall is_found fs /\ asked_properly def c rq /\
    en_engines env (transport_of c) = Some eng /\ r = Done (eng rq).
Proof.
  unfold upstream. destruct (en_engines env _) as [eng|]; [|intros [= <- <-]; left; eexists [], _; by rewrite app_nil_r].
  unfold of_result. destruct (en_Resolve env) as [[conn vals]|e] eqn:Rs; [|intros [= <- <-]; left; eexists [], _; by rewrite app_nil_r].
  rewrite bind_eq. cbn [mret M_ret]. cbv beta iota zeta. rewrite bind_eq. unfold withDefaults in *.
  destruct (screen_spec c StageArguments (VMap (applyDefaults lb_NodeValue def (c_Args c))) s) as (fs & a & -> & Ff & [(v & -> & P)|(e & -> & _)]);
    [|intros [= <- <-]; left; by exists fs, e]. cbv beta iota zeta. rewrite bind_eq.
  destruct (en_Prepare env _ _) as [[auth vars]|e] eqn:Pr; [|intros [= <- <-]; left; by exists fs, e].
  intros [= <- <-]. right. exists fs, (request def c conn vars auth), eng. cbn. rewrite <-app_assoc. split_and!; try done.
  by exists conn, vals, v, auth, vars.
Qed.

(** The engine answered neither a response nor an error that is not its own:
    [finish] reads a nil response. *)
Definition nil_response (c : Call) : Prop :=
  exists eng rq, en_engines env (transport_of c) = Some eng /\ (eng rq).1 = None /\
    match (eng rq).2 with None => True | Some e => exists ue, er_upstream e = Some ue end.

(** Everything but asking an engine, and but the record. *)
Definition quiet (e : effect U) : Prop := match e with Asked_engine _ _ => False | _ => True end.
Definition unrecorded (e : effect U) : Prop := match e with Asked_engine _ _ | Found _ _ => True | _ => False end.

Lemma found_quiet l : Forall is_found l -> Forall quiet l.
Proof. intros Hl. apply (Forall_impl _ _ _ Hl). by intros []. Qed.

Lemma found_unrecorded l : Forall is_found l -> Forall unrecorded l.
Proof. intros Hl. apply (Forall_impl _ _ _ Hl). by intros []. Qed.

Record ran (def : Tool) (c : Call) (s s' : state) (r : answer Result) (body : list (effect U)) : Prop := {
  ran_log : mc_log s' = mc_log s ++ body;
  ran_body : Forall is_found body \/
    exists f1 rq f2, body = f1 ++ Asked_engine (transport_of c) rq :: f2 /\ Forall is_found f1 /\ Forall is_found f2 /\ asked_properly def c rq;
  ran_panic : r = Panicked -> nil_response c;
}.

Lemma run_spec def c s : exists body, ran def c s (run def c s).1 (run def c s).2 body.
Proof.
  unfold run. destruct (is_static def).
  - rewrite bind_eq. destruct (screen_spec c StageArguments (withDefaults def c) s) as (fs & a & -> & Ff & [(v & -> & _)|(e & -> & _)]);
      [|exists fs; split; [done|by left|done]].
    destruct (finish _ _ _ _ _) as [s' r] eqn:F. apply finish_spec in F as [(gs & Q & Fg) P]. exists (fs ++ gs). split; cbn.
    + by rewrite Q, app_assoc.
    + left. by apply Forall_app.
    + intros Pk. discriminate (P Pk).
  - rewrite bind_eq. destruct (cache_lookup c s) as [s1 a] eqn:Ck. apply cache_lookup_spec in Ck as [Q [hit ->]].
    destruct hit as [res|]; [exists []; split; [by rewrite app_nil_r|by left|done]|]. rewrite bind_eq.
    destruct (upstream def c s1) as [s2 a] eqn:Up. apply upstream_spec in Up as [(fs & e & Q2 & Ff & ->)|(fs & rq & eng & Q2 & Ff & Ap & En & ->)].
    { exists fs. split; [by rewrite <-Q|by left|done]. }
    destruct (eng rq) as [resp err] eqn:Er.
    assert (forall ue, (match err with None => True | Some e => exists ue, er_upstream e = Some ue end) ->
      exists body, ran def c s (finish def c resp ue s2).1 (finish def c resp ue s2).2 body) as Hf.
    { intros ue Hue. destruct (finish def c resp ue s2) as [s' r] eqn:F. apply finish_spec in F as [(gs & Q3 & Fg) P].
      exists (fs ++ Asked_engine (transport_of c) rq :: gs). split; cbn.
      - rewrite Q3, Q2, Q, <-!app_assoc. done.
      - right. by exists fs, rq, gs.
      - intros Pk. apply P in Pk as ->. exists eng, rq. by rewrite Er. }
    destruct err as [e|]; [|by apply Hf]. destruct (er_upstream e) as [ue|] eqn:Ue; [apply Hf; by exists ue|].
    exists (fs ++ [Asked_engine (transport_of c) rq]). split; cbn; [by rewrite Q2, Q|right; by exists fs, rq, []|done].
Qed.

(** What is written down of a call. *)
Definition records (c : Call) (err : option error) (res : option Result) : list (effect U) :=
  (if en_row_written env then [Invoked (invocation_of c err res)] else []) ++
  (if en_audited env then [Emitted (call_event c err res)] else []) ++
  [Observed (transport_of c) (st_Name (c_Tool c)) (call_status err res) (errorClass err res)
     (match res with Some r => mt_UpstreamDurationMS (re_Meta r) | None => 0 end)].

Lemma record_call_spec c err res s : record_call c err res s = (logged s (records c err res), Done tt).
Proof.
  unfold record_call, records. destruct (en_row_written env), (en_audited env); rewrite !bind_eq; unfold log, logged, mret, M_ret; cbn; rewrite ?bind_eq; cbn;
    rewrite <-?app_assoc; reflexivity.
Qed.

(** The call that runs: the one that came, with the arguments the approval
    check answered, when it answered that nobody has to agree. *)
Definition agreed (s : state) (def : Tool) (c c' : Call) : Prop :=
  match en_Approvals env with
  | None => c' = c
  | Some check => exists out, (check (mc_approvals s) (call_ref def c)).2 = Ok out /\ oc_Required out = false /\ c' = with_args c (oc_Args out)
  end.

(** One call, taken apart: it stops at the approval check or runs, and is
    written down, unless the engine's nil response ends it. *)
Definition executed (s s' : state) (c : Call) (r : answer Result) : Prop :=
  exists def c' body err res, def_of c = Some def /\ mc_log s' = mc_log s ++ body ++ records c' err res /\
    (body = [] /\ ~ agreed s def c c' \/ agreed s def c c' /\ exists s1 s2 a, ran def c' s1 s2 a body) /\
    (err = None /\ (exists shown, res = Some shown /\ r = Done shown) \/
     exists e, err = Some e /\ res = None /\ r = Done (error_result (userFacing e) no_meta 0 "")).

Lemma awaitApproval_spec def c s : exists a c' w, awaitApproval def c s = (mkMachine a (mc_cache s) (mc_redis s) (mc_blobs s) (mc_log s), Done (c', w)) /\
  transport_of c' = transport_of c /\ (w = Ok None /\ agreed s def c c' \/ w <> Ok None /\ ~ agreed s def c c').
Proof.
  unfold awaitApproval, agreed. destruct (en_Approvals env) as [check|].
  - destruct (check (mc_approvals s) (call_ref def c)) as [a [out|e]]; cbn [snd].
    + exists a. eexists _, _. split; [reflexivity|]. split; [done|]. destruct (oc_Required out) eqn:Rq; [right|left; split; [done|by exists out]].
      split; [done|]. intros (o & [= <-] & N & _). congruence.
    + exists a. eexists _, _. split; [reflexivity|]. split; [done|]. right. split; [done|]. by intros (o & [=] & _).
  - exists (mc_approvals s), c, (Ok None). split; [by destruct s|]. split; [done|]. by left.
Qed.

Lemma Execute_spec c s : let '(s', r) := Execute c s in
  executed s s' c r \/
  r = Panicked /\ (s' = s /\ def_of c = None \/ exists def c' body s1 s2 a, def_of c = Some def /\ agreed s def c c' /\ nil_response c' /\
                     ran def c' s1 s2 a body /\ mc_log s' = mc_log s ++ body).
Proof.
  unfold Execute. destruct (def_of c) as [def|] eqn:D; [|right; split; [done|by left]]. rewrite bind_eq.
  destruct (awaitApproval_spec def c s) as (a & c' & w & -> & Tr & W). set (s1 := mkMachine _ _ _ _ _).
  assert (forall s2 body out, mc_log s2 = mc_log s1 ++ body ->
            (body = [] /\ ~ agreed s def c c' \/ agreed s def c c' /\ exists s1 s2 a, ran def c' s1 s2 a body) ->
            let '(s', r) := settle c' out s2 in executed s s' c r) as Fin.
  { intros s2 body out Q Hb. unfold settle. destruct out as [res|e]; rewrite bind_eq, record_call_spec; cbn; unfold executed; rewrite ?Q.
    - exists def, c', body, None, (Some res). split_and!; [done|cbn; by rewrite Q, <-app_assoc|done|left; split; [done|by exists res]].
    - exists def, c', body, (Some e), None. split_and!; [done|cbn; by rewrite Q, <-app_assoc|done|right; by exists e]. }
  cbv beta iota zeta. rewrite bind_eq. destruct W as [[-> Ag]|[N Ag]].
  - unfold attempt at 1. destruct (run_spec def c' s1) as [body Rn]. destruct (run def c' s1) as [s2 [res|e|]] eqn:Ru; cbn [fst snd] in Rn.
    + specialize (Fin s2 body (Ok res) (ran_log _ _ _ _ _ _ Rn) (or_intror (conj Ag (ex_intro _ s1 (ex_intro _ s2 (ex_intro _ _ Rn)))))).
      destruct (settle _ _ _) as [s' r]. by left.
    + specialize (Fin s2 body (Err e) (ran_log _ _ _ _ _ _ Rn) (or_intror (conj Ag (ex_intro _ s1 (ex_intro _ s2 (ex_intro _ _ Rn)))))).
      destruct (settle _ _ _) as [s' r]. by left.
    + right. split; [done|]. right. exists def, c', body, s1, s2, Panicked. split_and!; try done; [by apply (ran_panic _ _ _ _ _ _ Rn)|apply (ran_log _ _ _ _ _ _ Rn)].
  - destruct w as [[res|]|e]; [|done|].
    + specialize (Fin s1 [] (Ok res) (eq_sym (app_nil_r _)) (or_introl (conj eq_refl Ag))). cbn [mret M_ret]. destruct (settle _ _ _) as [s' r]. by left.
    + specialize (Fin s1 [] (Err e) (eq_sym (app_nil_r _)) (or_introl (conj eq_refl Ag))). cbn [mret M_ret]. destruct (settle _ _ _) as [s' r]. by left.
Qed.

(** ** What the executor promises *)

Lemma agreed_transport s def c c' : agreed s def c c' -> transport_of c' = transport_of c.
Proof. unfold agreed. destruct (en_Approvals env); [|by intros ->]. by intros (out & _ & _ & ->). Qed.

Lemma nil_response_same c c' : transport_of c' = transport_of c -> nil_response c' -> nil_response c.
Proof. unfold nil_response. by intros ->. Qed.

Lemma records_quiet c err res : Forall quiet (records c err res).
Proof. unfold records. destruct (en_row_written env), (en_audited env); by repeat constructor. Qed.

Lemma ran_quiet def c s1 s2 r body : ran def c s1 s2 r body -> Forall quiet body \/
  exists f1 rq f2, body = f1 ++ Asked_engine (transport_of c) rq :: f2 /\ Forall quiet f1 /\ Forall quiet f2 /\ asked_properly def c rq.
Proof.
  intros [_ [Hb|(f1 & rq & f2 & -> & F1 & F2 & Ap)] _]; [left; by apply found_quiet|right]. exists f1, rq, f2. split_and!; by try apply found_quiet.
Qed.

Lemma ran_unrecorded def c s1 s2 r body : ran def c s1 s2 r body -> Forall unrecorded body.
Proof.
  intros [_ [Hb|(f1 & rq & f2 & -> & F1 & F2 & Ap)] _]; [by apply found_unrecorded|]. apply Forall_app.
  split; [by apply found_unrecorded|constructor; [done|by apply found_unrecorded]].
Qed.

(** C2. Nothing leaves that was not agreed to and screened: in any one call
    an engine is asked at most once, for the transport of the connector;
    and what it is asked carries the arguments the approval check answered,
    when it answered that nobody has to agree, with the definition's
    defaults, as the data-loss policy let them through, and the credential
    that was prepared for them. *)
Theorem what_leaves_was_agreed_and_screened c s : let '(s', r) := Execute c s in
  exists new, mc_log s' = mc_log s ++ new /\
    (Forall quiet new \/
     exists f1 rq f2 def c', new = f1 ++ Asked_engine (transport_of c) rq :: f2 /\ Forall quiet f1 /\ Forall quiet f2 /\
       def_of c = Some def /\ agreed s def c c' /\ asked_properly def c' rq).
Proof.
  pose proof (Execute_spec c s) as H. destruct (Execute c s) as [s' r].
  assert (forall def c' body s1 s2 a, def_of c = Some def -> agreed s def c c' -> ran def c' s1 s2 a body -> forall post, Forall quiet post ->
    Forall quiet (body ++ post) \/ exists f1 rq f2 def c', body ++ post = f1 ++ Asked_engine (transport_of c) rq :: f2 /\ Forall quiet f1 /\ Forall quiet f2 /\
       def_of c = Some def /\ agreed s def c c' /\ asked_properly def c' rq) as Hran.
  { intros def c' body s1 s2 a D Ag Rn post Hp. rewrite <-(agreed_transport _ _ _ _ Ag).
    destruct (ran_quiet _ _ _ _ _ _ Rn) as [Hb|(f1 & rq & f2 & -> & F1 & F2 & Ap)]; [left; by apply Forall_app|right].
    exists f1, rq, (f2 ++ post), def, c'. split_and!; try done; [by rewrite <-app_assoc|by apply Forall_app]. }
  destruct H as [(def & c' & body & err & res & D & Q & Hb & _)|[-> [[-> _]|(def & c' & body & s1 & s2 & a & D & Ag & _ & Rn & Q)]]].
  - exists (body ++ records c' err res). split; [done|]. destruct Hb as [[-> _]|[Ag (s1 & s2 & a & Rn)]]; [left; apply records_quiet|].
    by eapply Hran; [..|apply records_quiet].
  - exists []. split; [by rewrite app_nil_r|by left].
  - exists body. split; [done|]. rewrite <-(app_nil_r body). by eapply Hran.
Qed.

(** C14. Every call is written down, and answered: [Execute] never returns an
    error; it answers the result it recorded, or the error it recorded as a
    result; the record comes last, once, with the arguments the call ran
    with; and it fails to answer only for a tool without a definition, and
    where an engine answers no response. *)
Theorem every_call_is_recorded c s : let '(s', r) := Execute c s in
  match r with
  | Done shown =>
      exists def c' body err res, def_of c = Some def /\ mc_log s' = mc_log s ++ body ++ records c' err res /\ Forall unrecorded body /\
        (agreed s def c c' \/ body = [] /\ ~ agreed s def c c') /\
        (err = None /\ res = Some shown \/ exists e, err = Some e /\ res = None /\ shown = error_result (userFacing e) no_meta 0 "")
  | Failed _ => False
  | Panicked => (def_of c = None \/ nil_response c) /\ exists body, mc_log s' = mc_log s ++ body /\ Forall unrecorded body
  end.
Proof.
  pose proof (Execute_spec c s) as H. destruct (Execute c s) as [s' r].
  destruct H as [(def & c' & body & err & res & D & Q & Hb & Out)|[-> [[-> D]|(def & c' & body & s1 & s2 & a & D & Ag & Nr & Rn & Q)]]].
  - assert (Forall unrecorded body /\ (agreed s def c c' \/ body = [] /\ ~ agreed s def c c')) as [Hu Ha].
    { destruct Hb as [[-> N]|[Ag (s1 & s2 & a & Rn)]]; [split; [done|by right]|split; [by apply (ran_unrecorded _ _ _ _ _ _ Rn)|by left]]. }
    destruct Out as [(-> & shown & -> & ->)|(e & -> & -> & ->)]; exists def, c', body.
    + exists None, (Some shown). split_and!; try done. by left.
    + exists (Some e), None. split_and!; try done. right. by exists e.
  - split; [by left|]. exists []. split; [by rewrite app_nil_r|done].
  - split; [right; by apply (nil_response_same c c'); [apply (agreed_transport _ _ _ _ Ag)|]|].
    exists body. split; [done|by apply (ran_unrecorded _ _ _ _ _ _ Rn)].
Qed.

(** ** What escapes the screen *)

(** A body of a type the walk has no case for is never changed, and refused
    only for a detector that cannot run: nothing is read of it. *)
Lemma typed_body_is_not_screened c stage v :
  (forall v', passes c stage (VTyped v) v' -> v' = VTyped v) /\
  (forall e, refuses c stage (VTyped v) e -> Is e DetectorBroken = true).
Proof.
  assert (forall sc st path, walk lb_lower (sg_reads (en_screen env stage)) sc (VTyped v) path st = (VTyped v, false, st)) as Wk by done.
  unfold passes, refuses, screened, Screen.
  set (Sc := if _ || _ then _ else _). assert (match Sc with
    | (scr, None) => sd_Value scr = VTyped v
    | (_, Some (ErrUnreadable _)) => True
    | (_, Some (ErrRefusedBroken _ _)) => True
    | (_, Some (ErrRefusedScan _)) => False end) as Hs.
  { unfold Sc. destruct (_ || _); [done|]. destruct (Resolve _ _ _ _) as [[rule|]|why]; [|done..].
    destruct (negb (Covers rule stage)); [done|]. destruct (sg_second _) as [e|why]; [|done]. cbv zeta.
    destruct (list_find _ _) as [[i name]|]; [done|]. destruct (OptionsWith _ _ _) as [opt rn]. destruct (negb rn); [done|].
    unfold Apply. destruct (newScanner _ _) as [sc st] eqn:Ns. rewrite Wk. unfold newScanner in Ns. cbv zeta in Ns. injection Ns as <- <-.
    cbn. rewrite andb_false_r. done. }
  destruct Sc as [scr [[why|n d|e0]|]]; [split|split|done|split].
  - intros v' [(? & ? & _ & ->)|(? & [=] & _)]. done.
  - intros e (? & ? & [= <- <-] & -> & F). by vm_compute in F.
  - intros v' [(? & ? & [=] & _)|(? & [=] & _)].
  - intros e (? & ? & [= <- <-] & -> & _). apply bool_decide_eq_true. right. by left.
  - intros v' [(? & ? & [=] & _)|(? & [= <-] & ->)]. by destruct (sd_Applied scr).
  - by intros e (? & ? & [=] & _).
Qed.

(** What an engine's refusal says in its hint reaches the caller whatever
    the policy made of the body. *)
Lemma upstream_hint_is_not_screened def c resp ue s v :
  er_Stream resp = None -> ue_Hint ue <> "" -> passes c StageResult (with_headers (er_Body resp) (er_Headers resp)) v ->
  exists s', finish def c (Some resp) (Some ue) s = (s', Done (error_result (refusal_text ue VNil) (er_Meta resp) (ue_Status ue) "")).
Proof.
  intros St Hn P. unfold finish. rewrite St, bind_eq.
  assert (transformed def (er_Body resp) (Some ue) = Ok (er_Body resp)) as -> by (unfold transformed; by destruct (to_Response def)).
  cbn [of_result mret M_ret]. cbv zeta. rewrite bind_eq. unfold attempt at 1.
  destruct (screen_spec c StageResult (with_headers (er_Body resp) (er_Headers resp)) s) as (fs & a & -> & _ & [(w & -> & _)|(e & -> & scr & why & Q & -> & F)]).
  - eexists. unfold refusal_text. rewrite (proj2 (String.eqb_neq _ _) Hn). reflexivity.
  - destruct P as [(scr' & w & Q' & _)|(scr' & Q' & _)]; rewrite Q' in Q; [|done]. injection Q as <- <-.
    by vm_compute in F.
Qed.

(** A remembered answer is given without reading the policies. *)
Lemma remembered_answer_is_not_screened def c s s1 res : is_static def = false -> cache_lookup c s = (s1, Done (Some res)) ->
  run def c s = (s1, Done res).
Proof. intros St H. unfold run. by rewrite St, bind_eq, H. Qed.

(** Without a transform a definition's [maxBytes] is not looked at. *)
Lemma size_cap_needs_a_transform def r body : to_Response def = Some r -> rs_Transform r = None -> transformed def body None = Ok body.
Proof. unfold transformed. by intros -> ->. Qed.
End execute.
