(* ===== verification/DatabasePool.v ===== *)
(** * DatabasePool: the pools of database connections (internal/dbpool/dbpool.go)

    One pool per connector, dialect, DSN and mode, opened on first use,
    evicted when there are too many and swept when idle; what host or file a
    DSN may name; and what each driver is given to open.  Acquiring a pool
    looks it up under the lock, opens it outside, and takes the lock again
    to keep it, so two callers may open the same one: the registry is a step
    relation whose steps are those critical sections.  [net/url], the host
    check, SHA-256 and the drivers are arguments. *)
From stdpp Require Import base list gmap fin_maps strings sorting.
From S2P Require Import Prelude GoStrings Regex Float64 Values AuditEvents ResponseCache.

Open Scope list_scope.

Definition Dialect : Type := string.
Definition Postgres : Dialect := "postgres".
Definition MySQL : Dialect := "mysql".
Definition MSSQL : Dialect := "mssql".
Definition Oracle : Dialect := "oracle".
Definition SQLite : Dialect := "sqlite".
Definition MongoDB : Dialect := "mongodb".

Record Spec : Type := mkPoolSpec {
  ps_ConnectorID : string;
  ps_Dialect : Dialect;
  ps_DSN : string;
  ps_ReadOnly : bool;
  ps_MaxConns : Z;
  ps_SQLiteRoot : string;
}.

Definition TrimPrefix (s p : string) : string := if HasPrefix s p then str_drop (String.length p) s else s.

(** [strings.LastIndex], of one byte. *)
Definition after_last (s : string) (c : ascii) : option string := if Contains s (String c "") then List.last (map Some (Split s c)) None else None.

(** The parts of a URL the package reads: the host with its port, the host
    name, the port, the user's encoding, the path and the query. *)
Record dsn_url : Type := mkDsnURL {
  du_Host : string;
  du_Hostname : string;
  du_Port : string;
  du_User : option string;
  du_Path : string;
  du_RawQuery : string;
}.

Section specs.
Context (sha256 : string -> string) (Parse : string -> option dsn_url) (SplitHostPort : string -> option string)
  (CheckHost : string -> result string unit).

Definition bool_text (b : bool) : string := if b then "true" else "false".

(** What the key is the digest of. *)
Definition key_text (s : Spec) : string :=
  ps_ConnectorID s +:+ "|" +:+ ps_Dialect s +:+ "|" +:+ ps_DSN s +:+ "|" +:+ bool_text (ps_ReadOnly s).

Definition key (s : Spec) : string := hex (str_take 16 (sha256 (key_text s))).

Definition hostOf (s : Spec) : result string string :=
  let dsn := if String.eqb (ps_Dialect s) Oracle && negb (Contains (ps_DSN s) "://")
             then match after_last (ps_DSN s) "@" with Some rest => "oracle://" +:+ rest | None => ps_DSN s end
             else ps_DSN s in
  let parsed := match Parse dsn with Some u => Ok (du_Hostname u) | None => Err "parse DSN" end in
  if String.eqb (ps_Dialect s) MySQL && negb (Contains dsn "://") then
    let '(_, rest, found) := Cut dsn "@tcp(" in
    if negb found then parsed
    else let '(address, _, closed) := Cut rest ")" in
         if negb closed then parsed else Ok (default address (SplitHostPort address))
  else parsed.

(** The path of a SQLite DSN, before any query. *)
Definition sqlite_file (dsn : string) : string := TrimPrefix (TrimPrefix dsn "sqlite://") "file:".
Definition sqlite_path (dsn : string) : string := (Cut (sqlite_file dsn) "?").1.1.

Definition confineSQLite (s : Spec) : result string unit :=
  if String.eqb (ps_SQLiteRoot s) "" then Err "sqlite is disabled: no SUPERMCP_SQLITE_ROOT configured"
  else
    let p := sqlite_path (ps_DSN s) in
    if Contains p ".." || negb (HasPrefix p (TrimSuffix (ps_SQLiteRoot s) "/" +:+ "/"))
    then Err ("sqlite path is outside " +:+ ps_SQLiteRoot s) else Ok tt.

(** [guarded] says whether there is a dialer to ask. *)
Definition checkHost (guarded : bool) (s : Spec) : result string unit :=
  if String.eqb (ps_Dialect s) SQLite then confineSQLite s
  else match hostOf s with
  | Err e => Err e
  | Ok "" => Err "database DSN has no host"
  | Ok host => if guarded then CheckHost host else Ok tt
  end.

Definition appendQuery (dsn kv : string) : string := dsn +:+ (if Contains dsn "?" then "&" else "?") +:+ kv.

Definition mysqlDSN (u : string) : result string string :=
  match Parse u with
  | None => Err "parse"
  | Some p =>
      Ok (match du_User p with Some user => user +:+ "@" | None => "" end +:+ "tcp(" +:+ du_Host p +:+
          (if String.eqb (du_Port p) "" then ":3306" else "") +:+ ")" +:+ du_Path p +:+
          (if String.eqb (du_RawQuery p) "" then "" else "?" +:+ du_RawQuery p))
  end.

(** [strings.Replace(s, "mssql://", "sqlserver://", 1)]. *)
Definition sqlserver_scheme (s : string) : string :=
  let '(a, b, found) := Cut s "mssql://" in if found then a +:+ "sqlserver://" +:+ b else s.

(** The driver and the DSN it is opened with; MongoDB's client is given its
    DSN as it is. *)
Definition open_dsn (s : Spec) : result string (string * string) :=
  let d := ps_Dialect s in
  if String.eqb d Postgres then
    Ok ("pgx", if ps_ReadOnly s then appendQuery (ps_DSN s) "default_transaction_read_only=on" else ps_DSN s)
  else if String.eqb d MySQL then
    if Contains (ps_DSN s) "://" then match mysqlDSN (ps_DSN s) with Ok dsn => Ok ("mysql", dsn) | Err e => Err e end
    else Ok ("mysql", TrimPrefix (ps_DSN s) "mysql://")
  else if String.eqb d MSSQL then Ok ("sqlserver", sqlserver_scheme (ps_DSN s))
  else if String.eqb d Oracle then Ok ("oracle", ps_DSN s)
  else if String.eqb d SQLite then
    let dsn := sqlite_file (ps_DSN s) in
    Ok ("sqlite", if ps_ReadOnly s then appendQuery ("file:" +:+ dsn) "mode=ro" else dsn)
  else if String.eqb d MongoDB then Ok ("mongo", ps_DSN s)
  else Err "unsupported database dialect".

Definition max_conns (s : Spec) : Z := if (ps_MaxConns s <=? 0)%Z then 4 else ps_MaxConns s.

(** ** The registry *)

(** A pool, by the number it was opened under. *)
Record Handle : Type := mkHandle { hd_id : nat; hd_spec : Spec; hd_last : Z }.

Record Registry : Type := mkRegistry { rg_pools : gmap string Handle; rg_max : Z }.

Definition New_registry (max : Z) : Registry := mkRegistry ∅ (if (max <=? 0)%Z then 200 else max).

Definition with_pools (r : Registry) (m : gmap string Handle) : Registry := mkRegistry m (rg_max r).

(** The pool least recently acquired; among pools acquired at one instant
    Go's order of the map decides. *)
Definition older (best : option (string * Handle)) (e : string * Handle) : option (string * Handle) :=
  match best with
  | None => Some e
  | Some b => if (hd_last e.2 <? hd_last b.2)%Z then Some e else best
  end.

Definition oldest (m : gmap string Handle) : option (string * Handle) := foldl older None (map_to_list m).

(** [evictOldestLocked]: what is left and what was closed. *)
Definition evictOldest (m : gmap string Handle) : gmap string Handle * list Handle :=
  match oldest m with None => (m, []) | Some (k, h) => (delete k m, [h]) end.

(** The first critical section of [Acquire]. *)
Definition look (r : Registry) (s : Spec) (now : Z) : option Handle * Registry :=
  match rg_pools r !! key s with
  | Some h => let h := mkHandle (hd_id h) (hd_spec h) now in (Some h, with_pools r (<[key s := h]> (rg_pools r)))
  | None => (None, r)
  end.

(** The second, for a pool just opened: the handle answered, and the pools
    closed. *)
Definition keep (r : Registry) (h : Handle) : Handle * Registry * list Handle :=
  let k := key (hd_spec h) in
  match rg_pools r !! k with
  | Some existing => (existing, r, [h])
  | None =>
      let '(m, closed) := if (rg_max r <=? Z.of_nat (size (rg_pools r)))%Z then evictOldest (rg_pools r) else (rg_pools r, []) in
      (h, with_pools r (<[k := h]> m), closed)
  end.

Definition idle (now maxIdle : Z) (h : Handle) : bool := (maxIdle <? now - hd_last h)%Z.

Definition values_of (m : gmap string Handle) : list Handle := (map_to_list m).*2.

Definition Sweep (r : Registry) (now maxIdle : Z) : Registry * list Handle :=
  (with_pools r (filter (fun e => ~ idle now maxIdle e.2) (rg_pools r)), values_of (filter (fun e => idle now maxIdle e.2) (rg_pools r))).

Definition Close_registry (r : Registry) : Registry * list Handle := (with_pools r ∅, values_of (rg_pools r)).

(** The registry, the pools opened and not yet kept, the pools closed, in
    order, and how many were opened. *)
Record pools : Type := mkPools { pw_registry : Registry; pw_opening : list Handle; pw_closed : list Handle; pw_opened : nat }.

Inductive pool_step (w : pools) : pools -> Prop :=
  | step_hit s now h r : look (pw_registry w) s now = (Some h, r) -> pool_step w (mkPools r (pw_opening w) (pw_closed w) (pw_opened w))
  | step_open s now guarded dsn : checkHost guarded s = Ok tt -> open_dsn s = Ok dsn ->
      pool_step w (mkPools (pw_registry w) (pw_opening w ++ [mkHandle (pw_opened w) s now]) (pw_closed w) (S (pw_opened w)))
  | step_keep l1 h l2 x r c : pw_opening w = l1 ++ h :: l2 -> keep (pw_registry w) h = (x, r, c) ->
      pool_step w (mkPools r (l1 ++ l2) (pw_closed w ++ c) (pw_opened w))
  | step_sweep now maxIdle r c : Sweep (pw_registry w) now maxIdle = (r, c) ->
      pool_step w (mkPools r (pw_opening w) (pw_closed w ++ c) (pw_opened w))
  | step_close r c : Close_registry (pw_registry w) = (r, c) -> pool_step w (mkPools r (pw_opening w) (pw_closed w ++ c) (pw_opened w)).

Definition start_pools (max : Z) : pools := mkPools (New_registry max) [] [] 0.

(** ** What the registry keeps *)

(** Where a pool is: being opened, kept, or closed. *)
Definition everywhere (w : pools) : list nat :=
  map hd_id (pw_opening w) ++ map hd_id (values_of (rg_pools (pw_registry w))) ++ map hd_id (pw_closed w).

Record pools_ok (w : pools) : Prop := {
  po_max : (0 < rg_max (pw_registry w))%Z;
  po_size : (Z.of_nat (size (rg_pools (pw_registry w))) <= rg_max (pw_registry w))%Z;
  po_keys : map_Forall (fun k (h : Handle) => key (hd_spec h) = k) (rg_pools (pw_registry w));
  po_places : everywhere w ≡ₚ seq 0 (pw_opened w);
}.

Lemma values_insert (m : gmap string Handle) k h : m !! k = None -> values_of (<[k := h]> m) ≡ₚ h :: values_of m.
Proof. intros N. unfold values_of. by rewrite map_to_list_insert. Qed.

Lemma values_delete (m : gmap string Handle) k h : m !! k = Some h -> values_of m ≡ₚ h :: values_of (delete k m).
Proof. intros N. unfold values_of. by rewrite <-(map_to_list_delete m k h N). Qed.

Lemma filtered_list (P : string * Handle -> Prop) `{forall e, Decision (P e)} (m : gmap string Handle) :
  map_to_list (filter P m) ≡ₚ filter P (map_to_list m).
Proof.
  rewrite map_filter_alt. apply map_to_list_to_map. pose proof (NoDup_fst_map_to_list m) as N.
  induction (map_to_list m) as [|e l IH]; [done|]. rewrite fmap_cons in N. apply NoDup_cons in N as [N1 N2]. rewrite filter_cons.
  destruct (decide (P e)); [|by apply IH]. rewrite fmap_cons. apply NoDup_cons. split; [|by apply IH].
  intros (x & E & Hx)%list_elem_of_fmap. apply N1, list_elem_of_fmap. exists x. split; [done|]. by apply list_elem_of_filter in Hx as [_ Hx].
Qed.

Lemma values_split (P : string * Handle -> Prop) `{forall e, Decision (P e)} (m : gmap string Handle) :
  values_of m ≡ₚ values_of (filter P m) ++ values_of (filter (fun e => ~ P e) m).
Proof. unfold values_of. by rewrite !filtered_list, <-fmap_app, filter_app_complement. Qed.

Lemma oldest_in (m : gmap string Handle) k h : oldest m = Some (k, h) -> m !! k = Some h.
Proof.
  unfold oldest. assert (forall l best, foldl older best l = Some (k, h) -> best = Some (k, h) \/ (k, h) ∈ l) as Hf.
  { induction l as [|e l IH]; intros best; cbn; [by left|]. intros [E|E]%IH; [|by right; right].
    destruct best as [b|]; cbn in E; [case_match|]; try (by left); injection E as <-; right; left. }
  intros [[=]|E]%Hf. by apply elem_of_map_to_list.
Qed.

Lemma oldest_none (m : gmap string Handle) : oldest m = None -> m = ∅.
Proof.
  unfold oldest. assert (forall l b, foldl older (Some b) l <> None) as Hf.
  { induction l as [|e l IH]; intros b; cbn; [done|]. case_match; apply IH. }
  destruct (map_to_list m) as [|e l] eqn:E; [intros _; by apply map_to_list_empty_iff|]. cbn. intros F. by destruct (Hf l e).
Qed.

Lemma values_replace (m : gmap string Handle) k h h' : m !! k = Some h -> hd_id h' = hd_id h ->
  map hd_id (values_of (<[k := h']> m)) ≡ₚ map hd_id (values_of m).
Proof.
  intros E I. rewrite <-insert_delete_eq. rewrite values_insert by apply lookup_delete_eq. rewrite (values_delete m k h E). cbn. by rewrite I.
Qed.

Lemma evictOldest_spec m m' c : evictOldest m = (m', c) -> (m' = ∅ /\ m = ∅ /\ c = []) \/
  exists k h, m !! k = Some h /\ m' = delete k m /\ c = [h].
Proof.
  unfold evictOldest. destruct (oldest m) as [[k h]|] eqn:O; intros [= <- <-].
  - right. exists k, h. split_and!; [by apply oldest_in|done|done].
  - left. apply oldest_none in O. by subst.
Qed.

Lemma keep_ok (r : Registry) (h x : Handle) (r' : Registry) c : (0 < rg_max r)%Z -> (Z.of_nat (size (rg_pools r)) <= rg_max r)%Z -> map_Forall (fun k (h : Handle) => key (hd_spec h) = k) (rg_pools r) ->
  keep r h = (x, r', c) ->
  rg_max r' = rg_max r /\ (Z.of_nat (size (rg_pools r')) <= rg_max r)%Z /\ map_Forall (fun k (h : Handle) => key (hd_spec h) = k) (rg_pools r') /\
  values_of (rg_pools r') ++ c ≡ₚ h :: values_of (rg_pools r) /\ rg_pools r' !! key (hd_spec h) = Some x.
Proof.
  intros Pm Sz Ks. unfold keep. destruct (rg_pools r !! key (hd_spec h)) as [e|] eqn:Lk.
  { intros [= <- <- <-]. split_and!; try done. symmetry. apply Permutation_cons_append. }
  destruct (if (rg_max r <=? Z.of_nat (size (rg_pools r)))%Z then evictOldest (rg_pools r) else (rg_pools r, [])) as [m c0] eqn:Ev. intros [= <- <- <-]. cbn [rg_pools with_pools rg_max].
  assert (m !! key (hd_spec h) = None /\ map_Forall (fun k (h : Handle) => key (hd_spec h) = k) m /\ (Z.of_nat (size m) < rg_max r)%Z /\
          values_of m ++ c0 ≡ₚ values_of (rg_pools r)) as (N & Km & Sm & V).
  { destruct (_ <=? _)%Z eqn:Full; bool_prop.
    - apply evictOldest_spec in Ev as [(-> & E & ->)|(k & h0 & E & -> & ->)].
      + rewrite E in *. split_and!; try done.
      + split_and!; [by rewrite lookup_delete_None; right|by apply map_Forall_delete| |].
        * rewrite map_size_delete_Some by (by exists h0). assert (0 < size (rg_pools r)) by (apply Nat.neq_0_lt_0; intros Z0%map_size_empty_inv; by rewrite Z0 in E). lia.
        * rewrite (values_delete _ _ _ E). symmetry. apply Permutation_cons_append.
    - injection Ev as <- <-. split_and!; [done|done|lia|by rewrite app_nil_r]. }
  split_and!; [done| |by apply map_Forall_insert_2| |by rewrite lookup_insert_eq].
  - rewrite map_size_insert_None by done. lia.
  - rewrite (values_insert m _ h N). cbn. by rewrite V.
Qed.

Lemma pool_step_ok w w' : pools_ok w -> pool_step w w' -> pools_ok w'.
Proof.
  intros [Pm Sz Ks Pl] []; unfold everywhere in Pl.
  - unfold look in H. destruct (_ !! _) as [h0|] eqn:Lk; [|done]. injection H as <- <-. split; cbn; [done| |by apply map_Forall_insert_2; [apply (Ks _ _ Lk)|]|].
    + rewrite map_size_insert_Some by (by exists h0). done.
    + rewrite <-Pl. unfold everywhere. cbn. by rewrite (values_replace _ _ h0).
  - split; [exact Pm|exact Sz|exact Ks|]. unfold everywhere. cbn [pw_opening pw_registry pw_closed pw_opened]. rewrite seq_S, <-Pl, map_app, <-!app_assoc. cbn. f_equiv.
    rewrite (app_assoc (map hd_id (values_of _))). apply Permutation_cons_append.
  - destruct (keep_ok _ _ _ _ _ Pm Sz Ks H0) as (Mx & Sz' & Ks' & V & _). split; cbn; [by rewrite Mx|by rewrite Mx|done|].
    rewrite <-Pl, H. unfold everywhere. cbn. rewrite !map_app. cbn. apply (fmap_Permutation hd_id) in V. rewrite fmap_app in V. cbn in V.
    change (fmap hd_id) with (map hd_id) in V. rewrite (Permutation_app_comm (map hd_id (pw_closed w))), (app_assoc (map hd_id (values_of _))), V.
    rewrite <-!app_assoc. f_equiv. cbn. symmetry. by rewrite <-Permutation_middle.
  - unfold Sweep in H. injection H as <- <-. split; cbn; [done| |intros k h [E0 _]%map_lookup_filter_Some; by apply Ks|].
    + etransitivity; [apply inj_le, map_size_filter|done].
    + rewrite <-Pl. unfold everywhere. cbn. f_equiv. rewrite (values_split (fun e => idle now maxIdle e.2) (rg_pools (pw_registry w))), !map_app.
      rewrite (Permutation_app_comm (map hd_id (pw_closed w))), app_assoc. f_equiv. apply Permutation_app_comm.
  - unfold Close_registry in H. injection H as <- <-. split; cbn; [done|rewrite map_size_empty; lia|done|].
    rewrite <-Pl. unfold everywhere. cbn [pw_opening pw_registry pw_closed rg_pools with_pools]. apply Permutation_app_head.
    replace (values_of ∅) with (@nil Handle) by (unfold values_of; by rewrite map_to_list_empty). cbn. rewrite map_app. apply Permutation_app_comm.
Qed.

Lemma reachable_pools_ok max w : rtc pool_step (start_pools max) w -> pools_ok w.
Proof.
  intros R. assert (pools_ok (start_pools max)) as O.
  { split; cbn; try done; [case_match; bool_prop; lia|rewrite map_size_empty; case_match; bool_prop; lia]. }
  induction R as [w|w w1 w2 St _ IH]; [done|]. apply IH. by eapply pool_step_ok.
Qed.

(** C22. No pool is lost and there are never too many: however the callers,
    the sweep and the shutdown interleave, the registry holds at most as
    many pools as it may, each under the key of what it was opened for; and
    every pool that was ever opened is in one place and in one only: on its
    way to the registry, in it, or closed, once. *)
Theorem no_pool_is_lost max w : rtc pool_step (start_pools max) w ->
  let m := rg_pools (pw_registry w) in
  (Z.of_nat (size m) <= if max <=? 0 then 200 else max)%Z /\
  (forall k h, m !! k = Some h -> key (hd_spec h) = k) /\
  (forall i, i < pw_opened w <-> i ∈ everywhere w) /\ NoDup (everywhere w).
Proof.
  intros R. pose proof (reachable_pools_ok _ _ R) as [Pm Sz Ks Pl]. cbv zeta. split_and!; [|done| |].
  - assert (rg_max (pw_registry w) = rg_max (New_registry max)) as E; [|by rewrite E in Sz].
    clear -R. enough (forall u, rtc pool_step u w -> rg_max (pw_registry w) = rg_max (pw_registry u)) as G by apply (G _ R). clear R. intros u R.
    induction R as [u|u u1 u2 St _ IH]; [done|]. rewrite IH. destruct St; cbn; try done.
    + unfold look in H. destruct (_ !! _); [|done]. by injection H as _ <-.
    + unfold keep in H0. destruct (_ !! _); [by injection H0 as <- <- <-|]. destruct (if _ : bool then _ else _). by injection H0 as <- <- <-.
    + by injection H as <- <-.
    + by injection H as <- <-.
  - intros i. rewrite Pl, elem_of_seq. lia.
  - rewrite Pl. apply NoDup_seq.
Qed.

(** ** Whose pool it is *)

Definition no_bar (s : string) : Prop := str_forall (fun c => negb (Ascii.eqb c "|")) s = true.

Lemma bar_split a b x y : no_bar a -> no_bar b -> a +:+ "|" +:+ x = b +:+ "|" +:+ y -> a = b /\ x = y.
Proof.
  unfold no_bar. revert b. induction a as [|c a IH]; intros [|d b] Na Nb; cbn in *.
  - intros [= E]. by split.
  - intros [= <- _]. by bool_prop.
  - intros [= -> _]. by bool_prop.
  - intros [= -> E]. bool_prop. by destruct (IH b ltac:(done) ltac:(done) E) as [-> ->].
Qed.

Lemma app_inj_right (a b c : string) : a +:+ c = b +:+ c -> a = b.
Proof.
  intros E. apply app_inj_len in E as [E _]; [done|]. apply (f_equal String.length) in E. rewrite !length_app_str in E. lia.
Qed.

Lemma mode_split a b x y : a +:+ "|" +:+ bool_text x = b +:+ "|" +:+ bool_text y -> a = b /\ x = y.
Proof.
  destruct x, y; cbn [bool_text]; intros E; try (split; [by apply app_inj_right in E|done]);
    apply (f_equal str_rev) in E; rewrite !str_rev_app in E; discriminate E.
Qed.

(** The same connector, dialect, DSN and mode. *)
Definition same_pool (s t : Spec) : Prop :=
  ps_ConnectorID s = ps_ConnectorID t /\ ps_Dialect s = ps_Dialect t /\ ps_DSN s = ps_DSN t /\ ps_ReadOnly s = ps_ReadOnly t.

Definition bar_free (s : Spec) : Prop := no_bar (ps_ConnectorID s) /\ no_bar (ps_Dialect s).

Lemma key_text_inj s t : bar_free s -> bar_free t -> key_text s = key_text t -> same_pool s t.
Proof.
  intros [S1 S2] [T1 T2] E. unfold key_text in E. apply bar_split in E as [E1 E]; [|done..]. apply bar_split in E as [E2 E]; [|done..].
  apply mode_split in E as [E3 E4]. by split_and!.
Qed.

(** A caller is given a pool opened for it: in any state of the
    registry, the pool found for a connector was opened for that connector,
    dialect, DSN (with its credentials) and mode, unless the digest collided
    on its first sixteen bytes. *)
Theorem pool_is_the_callers max w s now h r :
  rtc pool_step (start_pools max) w -> look (pw_registry w) s now = (Some h, r) -> bar_free s -> bar_free (hd_spec h) ->
  same_pool s (hd_spec h) \/ exists x y, x <> y /\ str_take 16 (sha256 x) = str_take 16 (sha256 y).
Proof.
  intros R Lk Bs Bh. pose proof (po_keys _ (reachable_pools_ok _ _ R)) as Ks. unfold look in Lk.
  destruct (_ !! _) as [h0|] eqn:E; [|done]. apply (f_equal fst) in Lk. cbn in Lk. assert (hd_spec h = hd_spec h0) as Eh by (by injection Lk as <-).
  apply Ks in E. rewrite <-Eh in E. unfold key in E. apply hex_inj in E.
  destruct (decide (key_text s = key_text (hd_spec h))) as [K|K]; [left; by apply key_text_inj|right]. exists (key_text s), (key_text (hd_spec h)). split; [done|by symmetry].
Qed.

(** ** Files under the root *)

Lemma Cut_query (s : string) : exists q, s = (Cut s "?").1.1 +:+ q /\ (q = "" \/ exists q', q = "?" +:+ q').
Proof.
  destruct (Cut s "?") as [[a b] [|]] eqn:E; cbn.
  - apply Cut_found in E. exists ("?" +:+ b). split; [done|right; by exists b].
  - apply Cut_not_found in E as [-> ->]. exists "". split; [by rewrite app_empty_r|by left].
Qed.

(** A SQLite file that may be written lies under the root: a DSN the
    guard accepts opens, in a mode that writes, a path that begins with the
    configured directory and has no step up in it. *)
Theorem sqlite_file_is_under_its_root guarded s driver dsn :
  ps_Dialect s = SQLite -> checkHost guarded s = Ok tt -> ps_ReadOnly s = false -> open_dsn s = Ok (driver, dsn) ->
  exists path query, dsn = path +:+ query /\ (query = "" \/ exists q, query = "?" +:+ q) /\
    HasPrefix path (TrimSuffix (ps_SQLiteRoot s) "/" +:+ "/") = true /\ Contains path ".." = false.
Proof.
  intros D Ck Ro. unfold checkHost in Ck. rewrite D in Ck. cbn [String.eqb] in Ck. unfold open_dsn. rewrite D, Ro. cbn. intros [= _ <-].
  change (confineSQLite s = Ok tt) in Ck. unfold confineSQLite in Ck. destruct (String.eqb _ ""); [done|]. cbv zeta in Ck. destruct (_ || _) eqn:C; [done|]. bool_prop.
  unfold sqlite_path in *. destruct (Cut_query (sqlite_file (ps_DSN s))) as (q & E & Hq). eexists _, q. split_and!; [exact E|done|done|done].
Qed.
End specs.

(** A path that climbs out of the root in percent-encoded steps: the guard
    reads it as it is written, and what a read-only connector opens is a
    [file:] URI, whose path SQLite decodes. *)
Example encoded_steps_leave_the_root :
  let s := mkPoolSpec "c1" SQLite "sqlite:///data/tenants/%2e%2e/%2e%2e/secret.db" true 0 "/data/tenants" in
  checkHost (fun _ => None) (fun _ => None) (fun _ => Ok tt) true s = Ok tt /\
  open_dsn (fun _ => None) s = Ok ("sqlite", "file:/data/tenants/%2e%2e/%2e%2e/secret.db?mode=ro").
Proof. vm_compute. by split. Qed.

(** ** A run *)

Definition plain_digest (s : string) : string := s.
Definition any_url (s : string) : option dsn_url := Some (mkDsnURL "db:5432" "db" "5432" None "/app" "").
Definition any_host (s : string) : result string unit := Ok tt.

Definition spec_of (connector : string) : Spec := mkPoolSpec connector Postgres "postgres://db/app" false 0 "".

Definition one_opened : pools := mkPools (New_registry 1) [mkHandle 0 (spec_of "a") 10] [] 1.
Definition one_kept : pools := mkPools (keep plain_digest (New_registry 1) (mkHandle 0 (spec_of "a") 10)).1.2 [] [] 1.
Definition two_opened : pools := mkPools (pw_registry one_kept) [mkHandle 1 (spec_of "b") 20] [] 2.
Definition two_kept : pools := mkPools (keep plain_digest (pw_registry one_kept) (mkHandle 1 (spec_of "b") 20)).1.2 [] [mkHandle 0 (spec_of "a") 10] 2.

Lemma one_kept_reached : rtc (pool_step plain_digest any_url (fun _ => None) any_host) (start_pools 1) one_kept.
Proof.
  eapply rtc_l; [exact (step_open plain_digest any_url (fun _ => None) any_host (start_pools 1) (spec_of "a") 10 true ("pgx", "postgres://db/app") eq_refl eq_refl)|].
  eapply rtc_once. exact (step_keep plain_digest any_url (fun _ => None) any_host one_opened [] (mkHandle 0 (spec_of "a") 10) [] _ _ _ eq_refl eq_refl).
Qed.

Lemma two_kept_reached : rtc (pool_step plain_digest any_url (fun _ => None) any_host) one_kept two_kept.
Proof.
  eapply rtc_l; [exact (step_open plain_digest any_url (fun _ => None) any_host one_kept (spec_of "b") 20 true ("pgx", "postgres://db/app") eq_refl eq_refl)|].
  eapply rtc_once. refine (step_keep plain_digest any_url (fun _ => None) any_host two_opened [] (mkHandle 1 (spec_of "b") 20) [] _ _ [mkHandle 0 (spec_of "a") 10] eq_refl _).
  vm_compute. reflexivity.
Qed.

(** With room for one pool, the second connector's caller closes the pool
    the first was just answered and has not used yet. *)
Example a_pool_is_closed_under_its_caller :
  (exists r, look plain_digest (pw_registry one_kept) (spec_of "a") 15 = (Some (mkHandle 0 (spec_of "a") 15), r)) /\
  rtc (pool_step plain_digest any_url (fun _ => None) any_host) (start_pools 1) two_kept /\ 0 ∈ map hd_id (pw_closed two_kept).
Proof.
  split; [by eexists|]. split; [etransitivity; [apply one_kept_reached|apply two_kept_reached]|by left].
Qed.

Lemma no_pool_is_lost_witness : (Z.of_nat (size (rg_pools (pw_registry two_kept))) <= 1)%Z.
Proof.
  exact (proj1 (no_pool_is_lost plain_digest any_url (fun _ => None) any_host 1 two_kept (transitivity one_kept_reached two_kept_reached))).
Defined.

Lemma pool_is_the_callers_witness :
  same_pool (spec_of "a") (spec_of "a") \/ exists x y, x <> y /\ str_take 16 (plain_digest x) = str_take 16 (plain_digest y).
Proof.
  apply (pool_is_the_callers plain_digest any_url (fun _ => None) any_host 1 one_kept (spec_of "a") 15 (mkHandle 0 (spec_of "a") 15)
           (look plain_digest (pw_registry one_kept) (spec_of "a") 15).2).
  - exact one_kept_reached.
  - reflexivity.
  - by split.
  - by split.
Defined.

Definition a_file : Spec := mkPoolSpec "c1" SQLite "file:/data/tenants/a.db?cache=shared" false 0 "/data/tenants/".

Lemma sqlite_file_is_under_its_root_witness : exists path query, "/data/tenants/a.db?cache=shared" = path +:+ query /\
  (query = "" \/ exists q, query = "?" +:+ q) /\ HasPrefix path "/data/tenants/" = true /\ Contains path ".." = false.
Proof.
  exact (sqlite_file_is_under_its_root any_url (fun _ => None) any_host true a_file "sqlite" _ eq_refl eq_refl eq_refl eq_refl).
Defined.
