(* ===== verification/DatabaseEngine.v ===== *)
(** * DatabaseEngine: tools that run on a database (internal/engine/database/database.go)

    What a read-only connector accepts, the statement and its bound
    arguments, the rows that come back, the schema listing, and MongoDB's
    find documents.  The connection, the decoding of a find document, time
    formats and Go's Unicode mappings are arguments; a computation says what
    it asked of the connection beside what it answers. *)
From stdpp Require Import base list gmap strings.
From S2P Require Import Prelude GoStrings Regex Float64 Detectors Values Tmpl Authz AuditEvents ResponseCache BoundedStore Blobs Adapter Calls Engine Invoke.
From S2P Require Import DatabasePool.

Open Scope list_scope.

Definition MaxQueryLength : Z := 100000.
Definition DefaultMaxRows : Z := 1000.

Definition ErrNotReadOnly : string :=
  "only SELECT queries are allowed (a leading WITH … SELECT CTE is also accepted); INSERT, UPDATE, DELETE, DROP and other write operations are blocked".

(** ** What counts as a read *)

Definition squote : ascii := "'".
Definition dquote : ascii := "034".

(** A quoted text, in which the quote is doubled. *)
Definition quoted (q : ascii) : re ascii :=
  Concat [Literal [q]; Star true (Alternate [cls (fun c => negb (Ascii.eqb c q)); Literal [q; q]]); Literal [q]].

Definition reStringLit : re ascii := Alternate [quoted squote; quoted dquote].
Definition reLineCmt : re ascii := Concat [lit "--"; Star true (cls (fun c => negb (is_nl c)))].
Definition reBlockCmt : re ascii := Concat [lit "/*"; Star false AnyChar; lit "*/"].

Definition is_white (c : ascii) : bool := existsb (Ascii.eqb c) (map ascii_of_nat [9; 10; 12; 13; 32]).

Definition write_keywords : list string :=
  ["INSERT"; "UPDATE"; "DELETE"; "MERGE"; "DROP"; "TRUNCATE"; "ALTER"; "CREATE"; "GRANT"; "REVOKE"].

Definition reWriteCTE : re ascii := Concat [lit "("; Star true (cls is_white); Alternate (map lit write_keywords); WordBoundary].

Definition ReplaceAllString (r : re ascii) (s repl : string) : string := string_of (ReplaceAll r (bytes_of s) (bytes_of repl)).

(** [strings.TrimRight] with the cutset ["; \t\r\n"]. *)
Definition in_cutset (c : ascii) : bool := existsb (Ascii.eqb c) (map ascii_of_nat [59; 32; 9; 13; 10]).

Fixpoint drop_cutset (l : list ascii) : list ascii :=
  match l with c :: l' => if in_cutset c then drop_cutset l' else l | [] => [] end.

Definition TrimRight_statement (s : string) : string := string_of (rev (drop_cutset (rev (bytes_of s)))).

Section engine.
Context (upper : string -> string).

(** The statement without comments and string literals, in upper case. *)
Definition normalised (stmt : string) : string :=
  ToUpper upper (TrimSpace (ReplaceAllString reStringLit (ReplaceAllString reLineCmt (ReplaceAllString reBlockCmt stmt " ") " ") "''")).

(** The keyword a match of [reWriteCTE] names. *)
Definition keyword_of (m : string) : string := TrimSpace (str_drop 1 m).

Definition reads_only (n : string) : result string unit :=
  if negb (HasPrefix n "SELECT") && negb (HasPrefix n "WITH") then Err ErrNotReadOnly
  else if Contains (TrimRight_statement n) ";" then Err "only a single SQL statement is allowed; stacked statements are blocked"
  else match find_bytes reWriteCTE (bytes_of n) with
       | (a, b) :: _ => Err ("blocked SQL keyword in CTE: " +:+ keyword_of (string_of (slice (bytes_of n) a b)) +:+ "; only read-only queries are allowed")
       | [] => Ok tt
       end.

Definition ValidateReadOnly (stmt : string) : result string unit :=
  if (MaxQueryLength <? Z.of_nat (String.length stmt))%Z then Err "statement exceeds 100000 characters" else reads_only (normalised stmt).

Definition looksLikeQuery (stmt : string) : bool :=
  let s := ToUpper upper (TrimSpace stmt) in
  existsb (HasPrefix s) ["SELECT"; "WITH"; "SHOW"; "EXPLAIN"; "DESCRIBE"; "PRAGMA"].

(** ** Running a statement *)

(** What a driver scans a column into. *)
Inductive cell : Type := CellBytes (b : string) | CellTime (t : Z) | CellValue (v : value).

(** The rows of a query: the columns, each row as it is scanned, and the
    error that ended them. *)
Record sql_rows : Type := mkRows {
  sr_Columns : result string (list string);
  sr_Rows : list (result string (list cell));
  sr_Err : option string;
}.

(** A find document, once decoded. *)
Record mongoSpec : Type := mkMongoSpec {
  mo_Collection : string;
  mo_Filter : option (list (string * value));
  mo_Projection : option (list (string * value));
  mo_Sort : option (list (string * value));
  mo_Limit : Z;
}.

(** What a connection is asked. *)
Inductive db_op : Type :=
  | ExecContext (stmt : string) (args : list value)
  | QueryContext (stmt : string) (args : list value)
  | FindDocuments (database : string) (spec : mongoSpec) (limit : Z)
  | ListCollections (database : string)
  | FindSample (database collection : string).

Record connection : Type := mkConnection {
  cx_Exec : string -> list value -> result string Z;
  cx_Query : string -> list value -> result string sql_rows;
  cx_Find : string -> mongoSpec -> Z -> result string (list (result string (list (string * value))));
  cx_Collections : string -> result string (list string);
  cx_Sample : string -> string -> option (list string);
}.

Context (StatusText : Z -> string) (FormatNano : Z -> string) (tmpl_text : tmpl_error -> string)
  (marshal : value -> result string string) (unmarshal : string -> option value) (format_float : float64 -> string) (lower : string -> string)
  (NodeVal : node -> result node_error value) (decode_spec : string -> option mongoSpec)
  (ParsePath : string -> result string string) (with_user : string -> string -> string -> option string).

Definition normalise_cell (c : cell) : value :=
  match c with CellBytes b => VStr b | CellTime t => VStr (FormatNano t) | CellValue v => v end.

Definition upstreamSQLError (why : string) : error := upstream_error StatusText (mkUpstreamError 400 why why).

(** What a computation asked and answers; [None] is a panic. *)
Definition answered (X : Type) : Type := list db_op * option (result error X).

(** An error of a template; a panic of its parser is one of the caller's. *)
Definition of_tmpl {A X} (before : string) (r : result tmpl_error A) (k : A -> answered X) : answered X :=
  match r with
  | Ok a => k a
  | Err Panic => ([], None)
  | Err e => ([], Some (Err (mkError (before +:+ tmpl_text e) (match e with ErrUnset _ => [Unset] | _ => [] end) None)))
  end.

Definition sqlDialect (d : DatabasePool.Dialect) : Tmpl.Dialect :=
  if String.eqb d DatabasePool.MySQL then Tmpl.MySQL
  else if String.eqb d DatabasePool.MSSQL then Tmpl.MSSQL
  else if String.eqb d DatabasePool.Oracle then Tmpl.Oracle
  else if String.eqb d DatabasePool.SQLite then Tmpl.SQLite
  else Tmpl.Postgres.

(** [row[c] = ...] over the columns; a name that comes twice keeps the last. *)
Definition row_of (cols : list string) (vals : list cell) : list (string * value) :=
  foldl (fun row e => obj_set row e.1 (normalise_cell e.2)) [] (zip cols vals).

(** The loop over the rows: those read, whether there were more, and the
    error that stopped it. *)
Fixpoint read_rows (cols : list string) (maxRows : Z) (rows : list (result string (list cell))) (out : list (list (string * value))) :
    list (list (string * value)) * bool * option string :=
  match rows with
  | [] => (out, false, None)
  | r :: rows =>
      if (maxRows <=? Z.of_nat (length out))%Z then (out, true, None)
      else match r with
           | Err why => (out, false, Some why)
           | Ok vals => read_rows cols maxRows rows (out ++ [row_of cols vals])
           end
  end.

(** A [[]map[string]any]. *)
Definition rows_value (out : list (list (string * value))) : value := VTyped (VList (map VMap out)).

Definition sql_body (out : list (list (string * value))) (truncated : bool) (maxRows : Z) : value :=
  if truncated then VMap [("_limit", VInt maxRows); ("_truncated", VBool true); ("rows", rows_value out)] else rows_value out.

Definition json_response (body : value) (meta : Meta) : EngineResponse := mkEngineResponse body None "application/json" 0 [] meta.

Definition rows_meta (n : Z) (truncated : bool) : Meta := mkMeta 0 0 n truncated false.

Definition query_rows (cx : connection) (stmt : string) (args : list value) (maxRows : Z) : result error EngineResponse :=
  match cx_Query cx stmt args with
  | Err why => Err (upstreamSQLError why)
  | Ok rows =>
      match sr_Columns rows with
      | Err why => Err (plain_error why)
      | Ok cols =>
          let '(out, truncated, stopped) := read_rows cols maxRows (sr_Rows rows) [] in
          match stopped, truncated, sr_Err rows with
          | Some why, _, _ => Err (plain_error why)
          | None, false, Some why => Err (upstreamSQLError why)
          | None, _, _ => Ok (json_response (sql_body out truncated maxRows) (rows_meta (Z.of_nat (length out)) truncated))
          end
      end
  end.

Definition runSQL (cx : connection) (dialect : DatabasePool.Dialect) (tpl : string) (vars : Vars) (readOnly : bool) (maxRows : Z) : answered EngineResponse :=
  of_tmpl "" (SQL marshal unmarshal format_float lower upper tpl vars (sqlDialect dialect)) (fun '(stmt, args) =>
    match (if readOnly then ValidateReadOnly stmt else Ok tt) with
    | Err why => ([], Some (Err (plain_error why)))
    | Ok _ =>
        if negb readOnly && negb (looksLikeQuery stmt) then
          ([ExecContext stmt args],
           Some (match cx_Exec cx stmt args with
                 | Err why => Err (upstreamSQLError why)
                 | Ok n => Ok (json_response (VMap [("rowCount", VInt n)]) (rows_meta n false))
                 end))
        else ([QueryContext stmt args], Some (query_rows cx stmt args maxRows))
    end).

Definition no_vars : Vars := mkVars [] ∅ ∅ ∅ ∅.

Definition schema_statement (d : DatabasePool.Dialect) : string :=
  if String.eqb d DatabasePool.SQLite then "SELECT name AS table_name, type AS table_type FROM sqlite_master WHERE type IN ('table','view') ORDER BY name"
  else if String.eqb d DatabasePool.Oracle
  then "SELECT owner AS table_schema, table_name FROM all_tables WHERE owner NOT IN ('SYS','SYSTEM') ORDER BY owner, table_name"
  else "SELECT table_schema, table_name, table_type FROM information_schema.tables WHERE table_schema NOT IN ('pg_catalog','information_schema','mysql','performance_schema','sys') ORDER BY table_schema, table_name".

Definition sqlSchema (cx : connection) (d : DatabasePool.Dialect) : answered EngineResponse :=
  runSQL cx d (schema_statement d) no_vars false DefaultMaxRows.

(** ** MongoDB *)

(** The loop of [renderMongo]: what follows in the template, and the text so
    far. *)
Fixpoint mongo_loop (vars : Vars) (refs : list Ref) (tail sb : string) : result tmpl_error string :=
  match refs with
  | [] => Ok (sb +:+ tail)
  | r :: refs =>
      cut ← cut_at tail (r_raw r);
      let '(lit, tail) := (cut : string * string) in
      v ← Render marshal unmarshal format_float lower upper (r_raw r) vars Value;
      mongo_loop vars refs tail
        (sb +:+ lit +:+ match v with
                        | None => "null"
                        | Some (VStr s) => if Contains (r_raw r) "| raw" then s else match marshal (VStr s) with Ok b => b | Err _ => "" end
                        | Some v => match marshal v with Ok b => b | Err _ => "" end
                        end)
  end.

Definition renderMongo (tpl : string) (vars : Vars) : result tmpl_error string :=
  refs ← Refs tpl; mongo_loop vars refs tpl "".

(** [strings.Trim(path, "/")]. *)
Fixpoint drop_slashes (l : list ascii) : list ascii :=
  match l with c :: l' => if Ascii.eqb c "/" then drop_slashes l' else l | [] => [] end.
Definition Trim_slashes (s : string) : string := string_of (rev (drop_slashes (rev (drop_slashes (bytes_of s))))).

Definition mongoDatabase (dsn : string) : result string string :=
  match ParsePath dsn with
  | Err why => Err why
  | Ok path => let name := Trim_slashes path in if String.eqb name "" then Err "MongoDB DSN must name a database (mongodb://host/<database>)" else Ok name
  end.

Fixpoint decoded_docs (l : list (result string (list (string * value)))) : result string (list (list (string * value))) :=
  match l with
  | [] => Ok []
  | Err why :: _ => Err why
  | Ok d :: l => match decoded_docs l with Ok ds => Ok (d :: ds) | Err why => Err why end
  end.

Definition find_limit (spec : mongoSpec) (maxRows : Z) : Z :=
  if (mo_Limit spec <=? 0)%Z || (maxRows <? mo_Limit spec)%Z then maxRows else mo_Limit spec.

Definition mongoFind (cx : connection) (dsn tpl : string) (vars : Vars) (maxRows : Z) : answered EngineResponse :=
  of_tmpl "" (renderMongo tpl vars) (fun doc =>
    let refuse why := ([], Some (Err (plain_error why))) in
    match decode_spec doc with
    | None => refuse "MongoDB query must be a valid JSON object"
    | Some spec =>
        if String.eqb (mo_Collection spec) "" then refuse "MongoDB query must specify a collection field"
        else match mongoDatabase dsn with
        | Err why => refuse why
        | Ok db =>
            let limit := find_limit spec maxRows in
            ([FindDocuments db spec limit],
             Some (match cx_Find cx db spec limit with
                   | Err why => Err (upstreamSQLError why)
                   | Ok found => match decoded_docs found with
                                 | Err why => Err (plain_error why)
                                 | Ok docs => Ok (json_response (rows_value docs) (rows_meta (Z.of_nat (length docs)) false))
                                 end
                   end))
        end
    end).

(** One collection of the listing; a sample that cannot be read has no
    fields. *)
Definition listed (cx : connection) (db name : string) : list (string * value) :=
  [("collection", VStr name); ("sampleFields", VTyped (VList (map VStr (default [] (cx_Sample cx db name)))))].

Definition mongoSchema (cx : connection) (dsn : string) : answered EngineResponse :=
  match mongoDatabase dsn with
  | Err why => ([], Some (Err (plain_error why)))
  | Ok db =>
      match cx_Collections cx db with
      | Err why => ([ListCollections db], Some (Err (upstreamSQLError why)))
      | Ok names =>
          (ListCollections db :: map (FindSample db) names,
           Some (Ok (json_response (rows_value (map (listed cx db) names)) no_meta)))
      end
  end.

(** ** [Execute] *)

(** [withCredentials]: [with_user] parses the DSN, sets the user and the
    password, and writes it again. *)
Definition withCredentials (dsn : string) (dialect : DatabasePool.Dialect) (auth : gmap string string) : string :=
  let get k := default "" (auth !! k) in
  if (String.eqb (get "username") "" && String.eqb (get "password") "") || negb (Contains dsn "://") then dsn
  else
    let user := if negb (String.eqb (get "domain") "") && String.eqb dialect DatabasePool.MSSQL
                then get "domain" +:+ string_of [ascii_of_nat 92] +:+ get "username" else get "username" in
    default dsn (with_user dsn user (get "password")).

Definition row_limit (limit asked : Z) : Z :=
  let n := if (0 <? asked)%Z then asked else limit in if (n <=? 0)%Z then DefaultMaxRows else n.

Definition with_duration (ms : Z) (r : EngineResponse) : EngineResponse :=
  mkEngineResponse (er_Body r) (er_Stream r) (er_MediaType r) (er_Status r) (er_Headers r)
    (mkMeta ms (mt_Retries (er_Meta r)) (mt_RowCount (er_Meta r)) (mt_Truncated (er_Meta r)) (mt_AuthRefreshed (er_Meta r))).

Definition pool_spec (root : string) (c : EngineConnector) (dsn : string) : Spec :=
  mkPoolSpec (ec_ID c) (ec_Driver c) dsn (ec_ReadOnly c) 0 root.

Definition Execute_database {U} (root : string) (Acquire : Spec -> result error connection) (ms : Z) (req : Request U) : answered EngineResponse :=
  let op := to_Operation (rq_Tool req) in
  let c := rq_Connector req in
  let dialect := ec_Driver c in
  if String.eqb (op_Kind op) "static" then
    ([], Some (Ok (mkEngineResponse (match op_Value op with Some n => match NodeVal n with Ok v => v | Err _ => VNil end | None => VNil end)
                     None "text/plain" 0 [] no_meta)))
  else if negb (String.eqb (op_Kind op) "sql") && negb (String.eqb (op_Kind op) "schema")
  then ([], Some (Err (ErrUnsupported "database: " (": kind " +:+ op_Kind op))))
  else of_tmpl "dsn: " (RenderString marshal unmarshal format_float lower upper (ec_DSN c) (rq_Vars req) Strict) (fun dsn =>
    let dsn := withCredentials dsn dialect (v_Auth (rq_Vars req)) in
    match Acquire (pool_spec root c dsn) with
    | Err e => ([], Some (Err e))
    | Ok cx =>
        let maxRows := row_limit (lm_MaxRows (rq_Limits req)) (op_MaxRows op) in
        let schema := String.eqb (op_Kind op) "schema" in
        let mongo := String.eqb dialect MongoDB in
        let '(ops, r) := if mongo && schema then mongoSchema cx dsn
                         else if mongo then mongoFind cx dsn (op_Statement op) (rq_Vars req) maxRows
                         else if schema then sqlSchema cx dialect
                         else runSQL cx dialect (op_Statement op) (rq_Vars req) (ec_ReadOnly c) maxRows in
        (ops, match r with Some (Ok out) => Some (Ok (with_duration ms out)) | r => r end)
    end).

(** The engine as the executor calls it: Go's pair of a response and an
    error.  A panic is the pair of none, on which the executor panics too. *)
Definition as_engine (r : answered EngineResponse) : option EngineResponse * option error :=
  match r.2 with
  | Some (Ok resp) => (Some resp, None)
  | Some (Err e) => (None, Some e)
  | None => (None, None)
  end.

Definition DryRun_database {U} (req : Request U) : option (result error Preview) :=
  let op := to_Operation (rq_Tool req) in
  if negb (String.eqb (op_Kind op) "sql") then Some (Ok (mkPreview "" "" [] "" (op_Kind op) [] ""))
  else if String.eqb (ec_Driver (rq_Connector req)) MongoDB
  then (of_tmpl "" (renderMongo (op_Statement op) (rq_Vars req)) (fun doc => ([], Some (Ok (mkPreview "" "" [] "" doc [] ""))))).2
  else (of_tmpl "" (SQL marshal unmarshal format_float lower upper (op_Statement op) (rq_Vars req) (sqlDialect (ec_Driver (rq_Connector req))))
          (fun '(stmt, args) => ([], Some (Ok (mkPreview "" "" [] "" stmt args ""))))).2.

(** ** What a read-only connector runs *)

(** What a computation asks of a connection, when it only reads. *)
Definition reading (o : db_op) : Prop :=
  match o with ExecContext _ _ => False | QueryContext stmt _ => ValidateReadOnly stmt = Ok tt | _ => True end.

Lemma of_tmpl_ops {A X} before (r : result tmpl_error A) (k : A -> answered X) (P : db_op -> Prop) :
  (forall a, r = Ok a -> Forall P (k a).1) -> Forall P (of_tmpl before r k).1.
Proof. intros H. unfold of_tmpl. destruct r as [a|[]]; try done. by apply H. Qed.

Lemma runSQL_reads cx d tpl vars maxRows : Forall reading (runSQL cx d tpl vars true maxRows).1.
Proof.
  unfold runSQL. apply of_tmpl_ops. intros [stmt args] _. destruct (ValidateReadOnly stmt) as [[]|why] eqn:V; [|done]. by constructor.
Qed.

Lemma schema_sql d vars dl : SQL marshal unmarshal format_float lower upper (schema_statement d) vars dl = Ok (schema_statement d, []).
Proof.
  unfold SQL. assert (Refs (schema_statement d) = Ok []) as -> by (unfold schema_statement; repeat case_match; vm_compute; reflexivity). reflexivity.
Qed.

Lemma schema_reads d : ValidateReadOnly (schema_statement d) = Ok tt.
Proof. unfold schema_statement. repeat case_match; vm_compute; reflexivity. Qed.

Lemma sqlSchema_reads cx d : Forall reading (sqlSchema cx d).1.
Proof.
  unfold sqlSchema, runSQL. rewrite schema_sql. cbn [of_tmpl]. assert (looksLikeQuery (schema_statement d) = true) as ->.
  { unfold schema_statement. repeat case_match; vm_compute; reflexivity. }
  constructor; [apply schema_reads|done].
Qed.

Lemma mongo_reads cx dsn tpl vars maxRows : Forall reading (mongoFind cx dsn tpl vars maxRows).1 /\ Forall reading (mongoSchema cx dsn).1.
Proof.
  split.
  - unfold mongoFind. apply of_tmpl_ops. intros doc _. cbv zeta. destruct (decode_spec doc) as [spec|]; [|done].
    destruct (String.eqb _ ""); [done|]. destruct (mongoDatabase dsn); [|done]. by constructor.
  - unfold mongoSchema. destruct (mongoDatabase dsn); [|done]. destruct (cx_Collections cx _); [|by constructor].
    constructor; [done|]. apply Forall_forall. intros o Ho. by apply list_elem_of_In, in_map_iff in Ho as (n & <- & _).
Qed.

(** C21. A read-only connector runs nothing but queries it has validated:
    whatever the tool, its arguments and the database, no statement is
    executed for its effect, and every query passed [ValidateReadOnly] as it
    is sent; on MongoDB only documents and collections are read. *)
Theorem read_only_connector_only_queries {U} root Acquire ms (req : Request U) :
  ec_ReadOnly (rq_Connector req) = true -> Forall reading (Execute_database root Acquire ms req).1.
Proof.
  intros Ro. unfold Execute_database. cbv zeta. destruct (String.eqb _ "static"); [done|]. destruct (_ && _); [done|].
  apply of_tmpl_ops. intros dsn _. destruct (Acquire _) as [cx|e]; [|done].
  destruct (if _ && _ : bool then _ else _) as [ops r] eqn:Q. cbn [fst].
  assert (ops = (ops, r).1) as -> by done. rewrite <-Q. clear Q.
  destruct (_ && _); [apply (mongo_reads cx _ "" no_vars 0)|]. destruct (String.eqb _ MongoDB); [apply mongo_reads|].
  destruct (String.eqb _ "schema"); [apply sqlSchema_reads|]. rewrite Ro. apply runSQL_reads.
Qed.

(** ** The rows *)

Lemma read_rows_spec cols maxRows rows : forall out out' truncated, (Z.of_nat (length out) <= maxRows)%Z ->
  read_rows cols maxRows rows out = (out', truncated, None) ->
  exists vals, map Ok vals = take (Z.to_nat maxRows - length out) rows /\ out' = out ++ map (row_of cols) vals /\
    truncated = bool_decide (Z.to_nat maxRows - length out < length rows).
Proof.
  induction rows as [|r rows IH]; intros out out' t Len; cbn [read_rows].
  - intros [= <- <-]. exists []. rewrite take_nil, app_nil_r. split_and!; [done|done|]. symmetry. apply bool_decide_eq_false. cbn. lia.
  - destruct (_ <=? _)%Z eqn:L; bool_prop.
    + intros [= <- <-]. exists []. replace (Z.to_nat maxRows - length out) with 0 by lia. rewrite app_nil_r. split_and!; [done|done|].
      symmetry. apply bool_decide_eq_true. cbn. lia.
    + destruct r as [vals|]; [|done]. intros E. assert (Z.of_nat (length (out ++ [row_of cols vals])) <= maxRows)%Z as Len' by (rewrite length_app; cbn [length]; lia).
      destruct (IH _ _ _ Len' E) as (vs & T & -> & ->).
      rewrite length_app in *. cbn [length] in *. exists (vals :: vs). replace (Z.to_nat maxRows - length out) with (S (Z.to_nat maxRows - (length out + 1))) by lia.
      cbn [map take]. split_and!; [by rewrite T|by rewrite <-app_assoc|]. apply bool_decide_ext. cbn. lia.
Qed.

(** C35. A result set is cut at the limit and says so: a query answers the
    first rows of what the database returns, in order and at most as many as
    the limit, with the mark that there were more exactly when there were. *)
Theorem rows_are_bounded cx stmt args maxRows resp : (0 <= maxRows)%Z -> query_rows cx stmt args maxRows = Ok resp ->
  exists rows cols vals, cx_Query cx stmt args = Ok rows /\ sr_Columns rows = Ok cols /\
    map Ok vals = take (Z.to_nat maxRows) (sr_Rows rows) /\
    er_Body resp = sql_body (map (row_of cols) vals) (bool_decide (Z.to_nat maxRows < length (sr_Rows rows))) maxRows /\
    mt_RowCount (er_Meta resp) = Z.of_nat (length vals) /\ length vals <= Z.to_nat maxRows /\
    mt_Truncated (er_Meta resp) = bool_decide (Z.to_nat maxRows < length (sr_Rows rows)).
Proof.
  intros Pm. unfold query_rows. destruct (cx_Query cx stmt args) as [rows|]; [|done]. destruct (sr_Columns rows) as [cols|] eqn:C; [|done].
  destruct (read_rows _ _ _ _) as [[out t] [why|]] eqn:Q; [done|]. apply read_rows_spec in Q as (vals & T & -> & ->); [|done].
  rewrite Nat.sub_0_r in *. cbn [app]. intros E. exists rows, cols, vals. split_and!; try done.
  1-2,4: destruct (bool_decide _); [|destruct (sr_Err rows); [done|]]; injection E as <-; cbn; by rewrite ?length_map.
  apply (f_equal length) in T. rewrite length_map, length_take in T. lia.
Qed.

(** ** A statement without quotes and comments *)

Definition plain_statement (s : string) : Prop :=
  Contains s "'" = false /\ Contains s (String dquote "") = false /\ Contains s "--" = false /\ Contains s "/*" = false.

(** Whether an expression matches anywhere in a text. *)
Definition occurs (r : re ascii) (s : string) : Prop :=
  exists i m, i <= String.length s /\ Matches is_word is_nl r (adv None (bytes_of s) i) (drop i (bytes_of s)) m.

Lemma length_bytes_of s : length (bytes_of s) = String.length s.
Proof. unfold bytes_of. induction s; cbn; congruence. Qed.

Lemma find_bytes_nil r s : find_bytes r (bytes_of s) = [] <-> ~ occurs r s.
Proof.
  unfold find_bytes, occurs. split.
  - intros E (i & m & Hi & Hm). rewrite <-length_bytes_of in Hi. destruct (find_all_complete is_word is_nl r (bytes_of s) i m Hi Hm) as (a & b & Hab & _).
    rewrite E in Hab. by apply not_elem_of_nil in Hab.
  - intros N. destruct (find_all _ _ _ _) as [|[a b] l] eqn:E; [done|]. destruct N.
    destruct (find_all_sound is_word is_nl r (bytes_of s) a b) as (H1 & H2 & H3); [rewrite E; by left|].
    rewrite length_bytes_of in H2. exists a, (b - a). split; [lia|done].
Qed.

Lemma ReplaceAllString_none r s repl : ~ occurs r s -> ReplaceAllString r s repl = s.
Proof.
  intros N. unfold ReplaceAllString, ReplaceAll. apply find_bytes_nil in N. rewrite N. cbn. rewrite drop_0.
  apply String.string_of_list_ascii_of_string.
Qed.

Lemma literal_prefix (l : list ascii) : forall T prev s n, r_cat (Matches is_word is_nl (Literal l)) T prev s n -> exists t, s = l ++ t.
Proof.
  induction l as [|c l IH]; intros T prev s n (a & b & _ & Hl & _); [by exists s|]. cbn in Hl.
  destruct Hl as (a1 & b1 & _ & (-> & c' & s' & -> & E%bool_decide_eq_true) & Hl). subst c'. cbn in Hl. rewrite ?drop_0 in Hl.
  destruct (IH r_eps (Some c) s' b1) as [t ->]; [|by exists t]. exists b1, 0. split_and!; [lia|exact Hl|done].
Qed.

Lemma occurs_literal (l : list ascii) rest s : occurs (Concat (Literal l :: rest)) s -> Contains s (string_of l) = true.
Proof.
  intros (i & m & Hi & Hm). cbn [Matches foldr] in Hm. apply literal_prefix in Hm as [t E]. apply Contains_true.
  exists (string_of (take i (bytes_of s))), (string_of t). unfold string_of. rewrite <-!string_of_app, <-E, take_drop.
  symmetry. apply String.string_of_list_ascii_of_string.
Qed.

Lemma occurs_alternate a b s : occurs (Alternate [a; b]) s -> occurs a s \/ occurs b s.
Proof. intros (i & m & Hi & [Hm|[Hm|[_ Hm]]]); [left|right|done]; by exists i, m. Qed.

Lemma plain_normalised s : plain_statement s -> normalised s = ToUpper upper (TrimSpace s).
Proof.
  intros (Q & D & C & B). unfold normalised.
  rewrite (ReplaceAllString_none reBlockCmt) by (intros O%(occurs_literal (bytes_of "/*")); cbn in O; congruence).
  rewrite (ReplaceAllString_none reLineCmt) by (intros O%(occurs_literal (bytes_of "--")); cbn in O; congruence).
  rewrite ReplaceAllString_none; [done|]. intros [O|O]%occurs_alternate; apply occurs_literal in O; cbn in O; unfold squote in O; congruence.
Qed.

(** A statement without quotes and comments is judged as it is written:
    it is accepted exactly when it is not too long, begins, in any case and
    after white space, with SELECT or WITH, has no semicolon but those at
    its end, and has no writing keyword right after an opening parenthesis. *)
Theorem plain_statement_is_judged_as_written s : plain_statement s ->
  let n := ToUpper upper (TrimSpace s) in
  ValidateReadOnly s = Ok tt <->
  (Z.of_nat (String.length s) <= MaxQueryLength)%Z /\ (HasPrefix n "SELECT" = true \/ HasPrefix n "WITH" = true) /\
  Contains (TrimRight_statement n) ";" = false /\ ~ occurs reWriteCTE n.
Proof.
  intros P n. unfold ValidateReadOnly. rewrite (plain_normalised s P). fold n. unfold reads_only. split.
  - destruct (_ <? _)%Z eqn:L; [done|]. bool_prop. destruct (negb (HasPrefix n "SELECT") && _) eqn:Pf; [done|].
    destruct (Contains _ ";"); [done|]. destruct (find_bytes _ _) as [|[a b] l] eqn:F; [|done]. intros _.
    split_and!; [done| |done|by apply find_bytes_nil]. apply andb_false_iff in Pf as [Pf|Pf]; apply negb_false_iff in Pf; [by left|by right].
  - intros (L & Pf & Sc & O). rewrite (proj2 (Z.ltb_ge _ _)) by lia. rewrite (proj2 (andb_false_iff _ _)) by (destruct Pf as [->| ->]; [by left|by right]).
    rewrite Sc. apply find_bytes_nil in O. by rewrite O.
Qed.
End engine.

(** ** What passes for a single read *)

(** A comment mark inside a string hides the rest of the line, and what
    stands between two of them; the comments go before the strings do. *)
Example statements_hidden_by_a_string :
  map (ValidateReadOnly id) ["SELECT '--'; DELETE FROM accounts"; "SELECT '/*', 1; DROP TABLE accounts; SELECT '*/'"] = [Ok tt; Ok tt].
Proof. vm_compute. reflexivity. Qed.

(** The statement after a WITH may write: only a keyword right after a
    parenthesis is looked for. *)
Example a_with_may_write :
  map (ValidateReadOnly id) ["WITH old AS (SELECT id FROM accounts) DELETE FROM accounts"; "SELECT * INTO stolen FROM accounts"] = [Ok tt; Ok tt].
Proof. vm_compute. reflexivity. Qed.

Example what_is_refused :
  map (ValidateReadOnly id) ["DELETE FROM accounts"; "SELECT 1; SELECT 2"; "WITH d AS (DELETE FROM accounts RETURNING *) SELECT * FROM d"] =
  [Err ErrNotReadOnly; Err "only a single SQL statement is allowed; stacked statements are blocked";
   Err "blocked SQL keyword in CTE: DELETE; only read-only queries are allowed"].
Proof. vm_compute. reflexivity. Qed.

(** ** A tool on a database *)

Definition no_json (v : value) : result string string := Ok "".
Definition a_node (n : node) : result node_error value := Ok VNil.

Definition sql_tool (stmt : string) (maxRows : Z) : Tool :=
  mkTool "run_sql" "" None None None 0 None None (mkOperation "" "" None [] None "sql" "" None stmt maxRows None "" "" "" None) None.

Definition db_connector (readOnly : bool) : EngineConnector :=
  mkEngineConnector "c1" 1 TransportDatabase "" "postgres://db/app" DatabasePool.Postgres []
    (mkAuth "none" false "" "" "" "" "" "" "" "" "" [] "" "" "" "" "" [] "" "" [] "" "" "" "" None [] [] None None "" "" "" "" "" "" "" "" "" "" None [])
    [] readOnly.

Definition sql_request (stmt : string) (readOnly : bool) : Request unit :=
  mkEngineRequest (db_connector readOnly) (sql_tool stmt 2) no_vars tt None (mkLimits 2 0).

(** A table of three people, and a database that refuses everything else. *)
Definition people : connection :=
  mkConnection (fun _ _ => Err "permission denied")
    (fun stmt _ => if String.eqb stmt "SELECT email FROM people"
                   then Ok (mkRows (Ok ["email"]) (map (fun s => Ok [CellBytes s]) ["ann@example.com"; "bob@example.com"; "cat@example.com"]) None)
                   else Err "relation does not exist")
    (fun _ _ _ => Err "") (fun _ => Err "") (fun _ _ => None).

Definition run_people (stmt : string) (readOnly : bool) : answered EngineResponse :=
  Execute_database id (fun _ => "Bad Request") (fun _ => "") (fun _ => "") no_json (fun _ => None) (fun _ => "") id a_node (fun _ => None) (fun _ => Ok "")
    (fun _ _ _ => None) "" (fun _ => Ok people) 5 (sql_request stmt readOnly).

Example three_people_two_rows :
  run_people "SELECT email FROM people" true =
  ([QueryContext "SELECT email FROM people" []],
   Some (Ok (mkEngineResponse
     (VMap [("_limit", VInt 2); ("_truncated", VBool true);
            ("rows", VTyped (VList [VMap [("email", VStr "ann@example.com")]; VMap [("email", VStr "bob@example.com")]]))])
     None "application/json" 0 [] (mkMeta 5 0 2 true false)))).
Proof. vm_compute. reflexivity. Qed.

Lemma read_only_connector_only_queries_witness : Forall (reading id) (run_people "SELECT email FROM people" true).1.
Proof. apply read_only_connector_only_queries. reflexivity. Defined.

Lemma rows_are_bounded_witness : exists resp,
  query_rows (fun _ => "Bad Request") (fun _ => "") people "SELECT email FROM people" [] 2 = Ok resp /\ mt_RowCount (er_Meta resp) = 2%Z.
Proof.
  eexists. split; [reflexivity|].
  destruct (rows_are_bounded (fun _ => "Bad Request") (fun _ => "") people "SELECT email FROM people" [] 2 _ ltac:(lia) eq_refl) as (rows & cols & vals & Q & _ & T & _ & N & _).
  rewrite N. injection Q as <-. apply (f_equal length) in T. rewrite length_map in T. by rewrite T.
Defined.

Lemma plain_statement_is_judged_as_written_witness : ValidateReadOnly id "select 1 ;" = Ok tt.
Proof.
  apply (plain_statement_is_judged_as_written id "select 1 ;"); [repeat split|].
  split_and!; [vm_compute; done|left; reflexivity|reflexivity|]. by apply find_bytes_nil.
Defined.

(** ** A refused statement, through the executor *)

#[local] Instance small_library : Library := {|
  lb_sha256 := id; lb_upper := id; lb_lower := id; lb_NodeValue := a_node; lb_jmes := unit; lb_jmes_compile := fun _ => Err "";
  lb_jmes_search := fun _ v => Ok v; lb_marshal := no_json; lb_indent := fun _ => Some "[...]"; lb_Sprint := fun _ => "";
  lb_ParseMediaType := fun _ => None; lb_ExtensionsByType := fun _ => []; lb_hex8 := id; lb_FormatTime := fun _ => "" |}.

#[local] Instance small_json : Json := {|
  j_value := no_json; j_unvalue := fun _ => None; j_tool := fun _ => Ok ""; j_transport := fun _ => Ok ""; j_auth := fun _ => Ok "";
  j_entry := fun _ => Ok ""; j_unentry := fun _ => None; j_kept := id |}.

#[local] Instance no_redis : Redis unit := {| rd_empty := tt; rd_get := fun _ _ _ => None; rd_set := fun _ _ _ _ r => r |}.

Definition no_io : cache_io := mkCacheIO false 0 0 0 false false.
Definition no_policy (s : DlpPolicy.Stage) : screening := mkScreening false (Err "") (Err "") None 0 (fun _ => 0%Z).

(** An executor with one engine: the database with the people in it. *)
Definition db_environment : environment unit memory_env unit :=
  mkEnvironment "inv1" None no_io no_io no_policy (mkMemoryEnv (Err "") 0 0) None 8 []
    (fun t => if String.eqb t TransportDatabase
              then Some (fun rq => as_engine (Execute_database id (fun _ => "Bad Request") (fun _ => "") (fun _ => "") no_json (fun _ => None)
                                                (fun _ => "") id a_node (fun _ => None) (fun _ => Ok "") (fun _ _ _ => None) "" (fun _ => Ok people) 5 rq))
              else None)
    (Ok (db_connector true, ∅)) (fun _ vars => Ok (tt, vars)) PayloadMetadata PayloadMetadata true true 7 "".

Definition db_call (stmt : string) : Call :=
  mkToolCall (Some (person_of "acme" "u-ann")) "srv" (mkStoredTool "t1" "c1" "run_sql" (Some (sql_tool stmt 2)) "" true None 1 "custom" None "" 0 0)
    (mkConnector "c1" "acme" "people" (mkTransport TransportDatabase "" "postgres://db/app" DatabasePool.Postgres [] 0 None false) (ec_Auth (db_connector true))
       "" "" "" true true 1 1 [] 0 0 false) [] false.

Definition db_machine : machine unit unit memory_store unit := mkMachine tt None tt (NewMemoryBlobStore "" 0 0 0) [].

Definition is_record {U} (e : effect U) : bool := match e with Invoked _ | Emitted _ => true | _ => false end.

(** A query that works is answered and written down, twice. *)
Example a_query_is_recorded :
  let '(s, r) := Execute db_environment (db_call "SELECT email FROM people") db_machine in
  (exists res, r = Done res /\ re_IsError res = false) /\ length (List.filter is_record (mc_log s)) = 2.
Proof. vm_compute. split; [by eexists|done]. Qed.

(** One that the database refuses was sent to it, and neither answered nor
    written down: the engine returns its error with no response, and the
    executor reads the response. *)
Example a_refused_statement_panics :
  let '(s, r) := Execute db_environment (db_call "SELECT email FROM persons") db_machine in
  r = Panicked /\ List.filter is_record (mc_log s) = [] /\ length (mc_log s) = 1.
Proof. vm_compute. done. Qed.
