(* ===== verification/Revisions.v ===== *)
(** * Revisions: the history of a configuration (internal/governance/revisions.go)

    One row per change of a connector, tool, server, role or policy, written
    in the transaction that makes the change.  A function of the table is
    the statements of the source; the organisation is the transaction's, and
    row level security shows its rows only.  The advisory lock that
    serialises writers of one entity makes each write one step.  The diff
    column keeps the diff that [encoding/json] writes and reads back; the
    snapshot column keeps the text.  JSON, SHA-256 and the Unicode case
    mapping are an interface; times are microseconds. *)
From stdpp Require Import sorting.
From S2P Require Import Prelude Tables GoStrings Values AuditEvents.

Open Scope list_scope.

Definition KindConnector : string := "connector".
Definition KindTool : string := "tool".
Definition KindServer : string := "server".

Definition validKind (k : string) : bool :=
  existsb (String.eqb k) [KindConnector; KindTool; KindServer; "role"; "dlp_policy"; "approval_policy";
                          "identity_provider"; "saml_provider"; "dlp_detector"].

Definition ActionCreate : string := "create".
Definition ActionUpdate : string := "update".
Definition ActionDelete : string := "delete".

Definition validAction (a : string) : bool :=
  String.eqb a ActionCreate || String.eqb a ActionUpdate || String.eqb a ActionDelete.

Inductive revision_error : Type :=
| ErrNeedsEntityID | ErrUnknownKind (k : string) | ErrUnknownAction (a : string) | ErrNeedsEntity | ErrNotAnObject
| ErrEncodeSnapshot (e : string) | ErrEncodeDiff (e : string) | ErrRecord | ErrRevisionNotFound | ErrDecodeSnapshot.

(** An entity as it is handed over: nil, or the JSON it encodes to. *)
Definition entity : Type := option value.

(** [toMap] of [internal/audit/diff.go]. *)
Definition toMap (e : entity) : option (list (string * value)) :=
  match e with Some (VMap m) => Some m | _ => None end.

(** A row of [revisions]. *)
Record revision_row : Type := mkRevision {
  rv_ID : string;
  rv_Org : string;
  rv_Kind : string;
  rv_Entity : string;
  rv_Number : Z;
  rv_Snapshot : string;
  rv_Diff : option Diff;
  rv_Action : string;
  rv_Actor : option string;
  rv_ActorDisplay : string;
  rv_CreatedAt : Z;
}.

(** A row of [users] that the organisation sees. *)
Record person : Type := mkPerson { pe_ID : string; pe_Name : string; pe_Email : string }.

Definition NULLIF (s : string) : option string := if String.eqb s "" then None else Some s.

Definition actorDisplayOf (people : list person) (id : option string) : option string :=
  match id with
  | None => None
  | Some i =>
      match List.find (fun u => String.eqb (pe_ID u) i) people with
      | Some u => Some (default (pe_Email u) (NULLIF (pe_Name u)))
      | None => None
      end
  end.

(** A revision to write. *)
Record Revision : Type := mkWrite {
  re_Kind : string;
  re_EntityID : string;
  re_Action : string;
  re_Entity : entity;
  re_Diff : option Diff;
  re_ActorID : string;
  re_ActorDisplay : string;
}.

(** A revision as it is served. *)
Record Served : Type := mkServed {
  sv_ID : string;
  sv_Kind : string;
  sv_EntityID : string;
  sv_Number : Z;
  sv_Action : string;
  sv_Snapshot : string;
  sv_Diff : option Diff;
  sv_ActorID : string;
  sv_ActorDisplay : string;
  sv_CreatedAt : Z;
}.

(** The rows of one entity, among those the organisation sees. *)
Definition about (org kind id : string) (r : revision_row) : bool :=
  String.eqb (rv_Org r) org && String.eqb (rv_Kind r) kind && String.eqb (rv_Entity r) id.

Definition history (org kind id : string) (t : list revision_row) : list revision_row := List.filter (about org kind id) t.

(** [COALESCE(MAX(revision), 0)]. *)
Definition last_number (rs : list revision_row) : Z := foldr (fun r m => Z.max (rv_Number r) m) 0%Z rs.

(** The range of the column's type. *)
Definition max_int4 : Z := 2147483647.

(** What the Go library encodes, and [crypto/sha256]. *)
Class Encoding : Type := {
  en_lower : string -> string;
  en_Marshal : value -> result string string;
  en_Unmarshal : string -> result string value;
  en_sha256 : string -> string;
}.

Section revisions.
Context `{Encoding}.

Definition created (e : entity) : option Diff := Created en_lower en_Marshal en_sha256 (toMap e).
Definition deleted (e : entity) : option Diff := Deleted en_lower en_Marshal en_sha256 (toMap e).
Definition changes (before after : entity) : option Diff := Changes en_lower en_Marshal en_sha256 (toMap before) (toMap after).

Definition snapshotOf (e : entity) : result revision_error string :=
  match e with
  | None => Err ErrNeedsEntity
  | Some _ =>
      match created e with
      | None => Err ErrNotAnObject
      | Some d => match en_Marshal (VMap (After d)) with Ok b => Ok b | Err x => Err (ErrEncodeSnapshot x) end
      end
  end.

(** [json.Marshal] of a diff: it fails when a half does. *)
Definition encode_diff (d : option Diff) : result revision_error unit :=
  match d with
  | None => Ok tt
  | Some d =>
      match en_Marshal (VMap (Before d)), en_Marshal (VMap (After d)) with
      | Ok _, Ok _ => Ok tt
      | Err x, _ | _, Err x => Err (ErrEncodeDiff x)
      end
  end.

(** The INSERT: the row's number, id and unique columns as the table's
    constraints have them. *)
Definition insert_revision (now : Z) (newID org : string) (people : list person) (snapshot : string) (r : Revision)
    (t : list revision_row) : result revision_error (list revision_row) :=
  let n := (last_number (history org (re_Kind r) (re_EntityID r) t) + 1)%Z in
  let row := mkRevision newID org (re_Kind r) (re_EntityID r) n snapshot (re_Diff r) (re_Action r) (NULLIF (re_ActorID r))
               (default (default "" (actorDisplayOf people (NULLIF (re_ActorID r)))) (NULLIF (re_ActorDisplay r))) now in
  if (max_int4 <? n)%Z || existsb (fun x => String.eqb (rv_ID x) newID) t
     || existsb (fun x => about org (re_Kind r) (re_EntityID r) x && (rv_Number x =? n)%Z) t
  then Err ErrRecord
  else Ok (t ++ [row]).

Definition RecordRevision (now : Z) (newID org : string) (people : list person) (r : Revision) (t : list revision_row) :
    result revision_error (list revision_row) :=
  if String.eqb (re_EntityID r) "" then Err ErrNeedsEntityID
  else if negb (validKind (re_Kind r)) then Err (ErrUnknownKind (re_Kind r))
  else if negb (validAction (re_Action r)) then Err (ErrUnknownAction (re_Action r))
  else
    snapshot ← snapshotOf (re_Entity r);
    _ ← encode_diff (re_Diff r);
    insert_revision now newID org people snapshot r t.

(** [Record]. *)
Definition Record_ (now : Z) (newID org : string) (people : list person) (kind id action : string) (e : entity) (d : option Diff)
    (actorID : string) (t : list revision_row) : result revision_error (list revision_row) :=
  RecordRevision now newID org people (mkWrite kind id action e d actorID "") t.

Definition RecordBaseline (now : Z) (newID org : string) (people : list person) (kind id : string) (e : entity)
    (t : list revision_row) : result revision_error (list revision_row) :=
  if String.eqb id "" then Err ErrNeedsEntityID
  else if negb (validKind kind) then Err (ErrUnknownKind kind)
  else if existsb (about org kind id) t then Ok t
  else RecordRevision now newID org people (mkWrite kind id ActionCreate e (created e) "" "") t.
End revisions.

(** ** Reading *)

(** [storedActorDisplay]. *)
Definition storedActorDisplay (people : list person) (r : revision_row) : string :=
  default (default "" (actorDisplayOf people (rv_Actor r))) (NULLIF (rv_ActorDisplay r)).

(** [scan]; the snapshot is read where it is asked for. *)
Definition scan_revision (people : list person) (snapshot : bool) (r : revision_row) : Served :=
  mkServed (rv_ID r) (rv_Kind r) (rv_Entity r) (rv_Number r) (rv_Action r) (if snapshot then rv_Snapshot r else "")
    (rv_Diff r) (default "" (rv_Actor r)) (storedActorDisplay people r) (rv_CreatedAt r).

Definition newest (a b : revision_row) : Prop := (rv_Number b <= rv_Number a)%Z.

#[export] Instance newest_dec : RelDecision newest := fun a b => Z_le_dec _ _.

(** [List]. *)
Definition List_ (org : string) (people : list person) (kind id : string) (before limit : Z) (t : list revision_row) : list Served :=
  let limit := if (limit <=? 0)%Z || (200 <? limit)%Z then 50%Z else limit in
  map (scan_revision people false)
    (take (Z.to_nat limit)
       (merge_sort newest (List.filter (fun r => (before =? 0)%Z || (rv_Number r <? before)%Z) (history org kind id t)))).

(** [Get]. *)
Definition Get_ (org : string) (people : list person) (kind id : string) (number : Z) (t : list revision_row) : result revision_error Served :=
  match List.find (fun r => (rv_Number r =? number)%Z) (history org kind id t) with
  | None => Err ErrRevisionNotFound
  | Some r => Ok (scan_revision people true r)
  end.

(** [Fields]: the snapshot's fields; null reads as none. *)
Definition Fields `{Encoding} (r : Served) : result revision_error (list (string * value)) :=
  if String.eqb (sv_Snapshot r) "" then Ok []
  else match en_Unmarshal (sv_Snapshot r) with
       | Ok (VMap m) => Ok m
       | Ok VNil => Ok []
       | _ => Err ErrDecodeSnapshot
       end.

(** [Snapshot]. *)
Definition Snapshot_ `{Encoding} (org : string) (people : list person) (kind id : string) (number : Z) (t : list revision_row) :
    result revision_error (list (string * value)) :=
  r ← Get_ org people kind id number t; Fields r.

(** ** Numbers *)

(** The numbers of [n] rows, oldest first. *)
Definition counted (n : nat) : list Z := map Z.of_nat (seq 1 n).

Definition numbered (t : list revision_row) : Prop :=
  forall org kind id, map rv_Number (history org kind id t) = counted (length (history org kind id t)).

Lemma counted_S n : counted (S n) = counted n ++ [Z.of_nat (S n)].
Proof. unfold counted. by rewrite seq_S, map_app. Qed.

Lemma last_counted rs : map rv_Number rs = counted (length rs) -> last_number rs = Z.of_nat (length rs).
Proof.
  intros E. assert (forall a l, l = map Z.of_nat (seq a (length l)) -> l <> [] -> foldr Z.max 0%Z l = Z.of_nat (a + length l - 1)) as K.
  { intros a l. revert a. induction l as [|x l IH]; [done|]. intros a Hl _. injection Hl as -> Hl. cbn [foldr length].
    destruct l as [|y l]; [cbn; lia|]. rewrite (IH _ Hl) by done. cbn. lia. }
  unfold last_number. assert (foldr (fun r m => Z.max (rv_Number r) m) 0%Z rs = foldr Z.max 0%Z (map rv_Number rs)) as ->.
  { clear. induction rs as [|r rs IH]; [done|]. cbn. by rewrite IH. }
  destruct rs as [|r rs]; [done|]. rewrite (K 1); [|by rewrite E at 1; unfold counted; rewrite length_map|done]. rewrite length_map. lia.
Qed.

Lemma entity_history_app org kind id t row :
  history org kind id (t ++ [row]) = history org kind id t ++ (if about org kind id row then [row] else []).
Proof. unfold history. rewrite List.filter_app. cbn. by destruct (about org kind id row). Qed.

Lemma about_same org kind id row : about org kind id row = true -> rv_Org row = org /\ rv_Kind row = kind /\ rv_Entity row = id.
Proof. unfold about. intros E. bool_prop. by repeat match goal with E : String.eqb _ _ = true |- _ => apply String.eqb_eq in E end. Qed.

Section writes.
Context `{Encoding}.

(** What a write adds. *)
Lemma RecordRevision_ok now newID org people r t t' : RecordRevision now newID org people r t = Ok t' ->
  exists row, t' = t ++ [row] /\ rv_ID row = newID /\ about org (re_Kind r) (re_EntityID r) row = true /\
    rv_Number row = (last_number (history org (re_Kind r) (re_EntityID r) t) + 1)%Z /\
    snapshotOf (re_Entity r) = Ok (rv_Snapshot row) /\ rv_Action row = re_Action r /\ rv_Diff row = re_Diff r /\
    rv_Actor row = NULLIF (re_ActorID r) /\ existsb (fun x => String.eqb (rv_ID x) newID) t = false.
Proof.
  unfold RecordRevision. destruct (String.eqb _ _); [done|]. destruct (negb (validKind _)); [done|]. destruct (negb (validAction _)); [done|].
  destruct (snapshotOf _) as [s|] eqn:Es; [|done]. cbn. destruct (encode_diff _) as [u|]; [|done]. cbn. unfold insert_revision.
  destruct (_ || _) eqn:E; [done|]. intros [= <-]. eexists. split; [done|]. cbn. unfold about. cbn. rewrite !String.eqb_refl.
  bool_prop. by split_and!.
Qed.

Lemma RecordBaseline_cases now newID org people kind id e t t' : RecordBaseline now newID org people kind id e t = Ok t' ->
  (history org kind id t <> [] /\ t' = t) \/
  (history org kind id t = [] /\ RecordRevision now newID org people (mkWrite kind id ActionCreate e (created e) "" "") t = Ok t').
Proof.
  unfold RecordBaseline. destruct (String.eqb _ _); [done|]. destruct (negb _); [done|]. destruct (existsb _ t) eqn:E.
  - intros [= <-]. left. split; [|done]. apply existsb_elem in E as (x & Hx & Ex). intros N.
    assert (x ∈ history org kind id t) as Hh by (unfold history; rewrite list_elem_of_In, filter_In, <- list_elem_of_In; done).
    rewrite N in Hh. by apply elem_of_nil in Hh.
  - intros R. right. split; [|done]. unfold history. apply filter_drops_all. by apply existsb_false_elem.
Qed.

Lemma numbered_snoc t row : numbered t ->
  rv_Number row = (last_number (history (rv_Org row) (rv_Kind row) (rv_Entity row) t) + 1)%Z -> numbered (t ++ [row]).
Proof.
  intros N E org kind id. rewrite entity_history_app. destruct (about org kind id row) eqn:A; [|by rewrite app_nil_r].
  apply about_same in A as (? & ? & ?); subst. rewrite map_app, N, length_app. cbn. rewrite E, last_counted by apply N.
  rewrite Nat.add_1_r, counted_S. f_equal. f_equal. lia.
Qed.

Lemma numbered_write now newID org people r t t' : numbered t -> RecordRevision now newID org people r t = Ok t' -> numbered t'.
Proof.
  intros N R. apply RecordRevision_ok in R as (row & -> & _ & A & E & _). apply about_same in A as (E1 & E2 & E3).
  apply numbered_snoc; [done|]. by rewrite E1, E2, E3.
Qed.

Lemma numbered_baseline now newID org people kind id e t t' : numbered t -> RecordBaseline now newID org people kind id e t = Ok t' -> numbered t'.
Proof. intros N R. apply RecordBaseline_cases in R as [[_ ->]|[_ R]]; [done|]. by eapply numbered_write. Qed.
End writes.

(** ** Reading a page after another *)

(** A client that continues below the last number it got. *)
Fixpoint read_pages (fuel : nat) (org : string) (people : list person) (kind id : string) (before limit : Z) (t : list revision_row) :
    list Served :=
  match fuel with
  | O => []
  | S fuel =>
      let page := List_ org people kind id before limit t in
      match last page with
      | None => []
      | Some r => page ++ read_pages fuel org people kind id (sv_Number r) limit t
      end
  end.

Lemma sorted_rev_counted rs a : map rv_Number rs = map Z.of_nat (seq a (length rs)) -> StronglySorted newest (rev rs).
Proof.
  revert a. induction rs as [|r rs IH]; intros a E; [constructor|]. injection E as E1 E2. cbn [rev].
  assert (forall l x, StronglySorted newest l -> (forall y, y ∈ l -> newest y x) -> StronglySorted newest (l ++ [x])) as K.
  { clear. intros l x Hl Hx. induction Hl as [|y l Hl IH Hy]; cbn; [repeat constructor|]. constructor.
    - apply IH. intros z Hz. apply Hx. by constructor.
    - apply Forall_app. split; [done|]. repeat constructor. apply Hx. constructor. }
  apply K; [by eapply IH|]. intros y Hy. apply list_elem_of_In, in_rev, list_elem_of_In in Hy.
  assert (rv_Number y ∈ map rv_Number rs) as Hm by (apply list_elem_of_In, in_map, list_elem_of_In; done).
  rewrite E2 in Hm. apply list_elem_of_In, in_map_iff in Hm as (k & Ek & Hk%in_seq). unfold newest. lia.
Qed.

Lemma NoDup_counted rs : map rv_Number rs = counted (length rs) -> NoDup (map rv_Number rs).
Proof. intros ->. unfold counted. apply NoDup_fmap_2; [intros ? ?; lia|]. apply NoDup_seq. Qed.

(** The rows below a number are the first ones, and sorting reverses them. *)
Lemma below_counted rs b : map rv_Number rs = counted (length rs) ->
  List.filter (fun r => (rv_Number r <? Z.of_nat (S b))%Z) rs = take b rs.
Proof.
  unfold counted. intros E. assert (forall a, map rv_Number rs = map Z.of_nat (seq a (length rs)) ->
    List.filter (fun r => (rv_Number r <? Z.of_nat (a + b))%Z) rs = take b rs) as K; [|by apply (K 1)].
  clear E. revert b. induction rs as [|r rs IH]; intros b a E; [by destruct b|]. injection E as E1 E2. cbn [List.filter].
  destruct b as [|b].
  - destruct (Z.ltb_spec (rv_Number r) (Z.of_nat (a + 0))); [lia|]. rewrite (filter_ext _ (fun r => (rv_Number r <? Z.of_nat (S a + 0 - 1))%Z)).
    2: { intros x. f_equal. lia. }
    apply filter_drops_all. intros x Hx.
    assert (rv_Number x ∈ map rv_Number rs) as Hm by (apply list_elem_of_In, in_map, list_elem_of_In; done).
    rewrite E2 in Hm. apply list_elem_of_In, in_map_iff in Hm as (k & Ek & Hk%in_seq). apply Z.ltb_ge. lia.
  - destruct (Z.ltb_spec (rv_Number r) (Z.of_nat (a + S b))); [|lia]. cbn [take]. f_equal. rewrite <- (IH b (S a) E2).
    apply filter_ext. intros x. f_equal. lia.
Qed.

Lemma merge_counted rs : map rv_Number rs = counted (length rs) -> merge_sort newest rs = rev rs.
Proof.
  intros E. apply (StronglySorted_unique_strong newest).
  - intros x y Hx Hy H1 H2. apply (NoDup_map_inj rv_Number rs); [by apply NoDup_counted|..].
    + by rewrite <- (merge_sort_Permutation newest rs).
    + by apply list_elem_of_In, in_rev, list_elem_of_In.
    + unfold newest in *. lia.
  - apply Sorted_StronglySorted; [intros x y z; unfold newest; lia|]. apply Sorted_merge_sort. intros x y. unfold newest. lia.
  - by eapply sorted_rev_counted.
  - rewrite merge_sort_Permutation. apply Permutation_rev.
Qed.

Lemma counted_take rs b : map rv_Number rs = counted (length rs) -> map rv_Number (take b rs) = counted (length (take b rs)).
Proof. intros E. rewrite <- firstn_map, E. unfold counted. by rewrite firstn_map, take_seq, length_take. Qed.

Definition page (people : list person) (rs : list revision_row) (limit : Z) : list Served :=
  map (scan_revision people false) (take (Z.to_nat limit) (rev rs)).

Lemma List_page org people kind id t b limit :
  map rv_Number (history org kind id t) = counted (length (history org kind id t)) -> (0 < limit <= 200)%Z ->
  List_ org people kind id (Z.of_nat (S b)) limit t = page people (take b (history org kind id t)) limit /\
  List_ org people kind id 0 limit t = page people (history org kind id t) limit.
Proof.
  intros E L. unfold List_, page. destruct (Z.leb_spec limit 0); [lia|]. destruct (Z.ltb_spec 200 limit); [lia|]. cbn [orb].
  split.
  - rewrite (filter_ext _ (fun r => (rv_Number r <? Z.of_nat (S b))%Z)) by (intros r; by destruct (Z.eqb_spec (Z.of_nat (S b)) 0); [lia|]).
    rewrite below_counted by done. by rewrite merge_counted by by apply counted_take.
  - rewrite filter_keeps_all by done. by rewrite merge_counted.
Qed.

(** The last number of a page of the first [b] rows: where the rest begins. *)
Lemma page_last people rs limit r : map rv_Number rs = counted (length rs) -> (0 < limit)%Z ->
  last (page people rs limit) = Some r -> sv_Number r = Z.of_nat (S (length rs - Z.to_nat limit)).
Proof.
  intros E L. unfold page. rewrite <- rev_involutive with (l := take _ _), map_rev, firstn_rev, rev_involutive.
  set (k := length rs - Z.to_nat limit). intros Hr.
  assert (head (map (scan_revision people false) (drop k rs)) = Some r) as Hh.
  { revert Hr. destruct (map _ (drop k rs)) as [|x l]; [done|]. cbn [rev]. rewrite last_snoc. done. }
  destruct (drop k rs) as [|x l] eqn:D; [done|]. injection Hh as <-. cbn.
  assert (rs !! k = Some x) as Hx by (rewrite <- (Nat.add_0_r k), <- lookup_drop, D; done).
  assert (map rv_Number rs !! k = Some (rv_Number x)) as Hn by (rewrite list_lookup_fmap, Hx; done).
  rewrite E in Hn. unfold counted in Hn. rewrite list_lookup_fmap in Hn.
  assert (k < length rs) by (by apply lookup_lt_Some in Hx). rewrite lookup_seq_lt in Hn by done. injection Hn as <-. lia.
Qed.

Lemma read_pages_below org people kind id t limit fuel b :
  map rv_Number (history org kind id t) = counted (length (history org kind id t)) -> (0 < limit <= 200)%Z ->
  b <= length (history org kind id t) -> b < fuel ->
  read_pages fuel org people kind id (Z.of_nat (S b)) limit t = map (scan_revision people false) (rev (take b (history org kind id t))).
Proof.
  intros E L. revert b. induction fuel as [|fuel IH]; intros b Hb Hf; [lia|]. cbn [read_pages].
  rewrite (proj1 (List_page _ _ _ _ _ _ _ E L)). set (h := history org kind id t) in *.
  destruct (last _) as [r|] eqn:Hr.
  - destruct b as [|b]; [unfold page in Hr; cbn in Hr; by rewrite firstn_nil in Hr|].
    apply page_last in Hr; [|by apply counted_take|lia]. rewrite length_take, (Nat.min_l (S b)) in Hr by lia. rewrite Hr.
    rewrite IH by lia. unfold page. rewrite <- map_app. f_equal.
    rewrite <- (firstn_skipn (Z.to_nat limit) (rev (take (S b) h))) at 2. f_equal. rewrite skipn_rev. f_equal.
    rewrite length_take, Nat.min_l by lia. rewrite take_take. f_equal. lia.
  - apply last_None in Hr. unfold page in Hr. apply map_eq_nil in Hr. destruct b as [|b]; [done|].
    exfalso. assert (length (take (Z.to_nat limit) (rev (take (S b) h))) = 0) as K by by rewrite Hr.
    rewrite length_take, length_rev, length_take in K. lia.
Qed.

(** C37. A client that pages through a history with any page size the service
    accepts, each time below the last number it got, reads every revision
    once, newest first. *)
Theorem pages_cover_the_history org people kind id t limit :
  numbered t -> (0 < limit <= 200)%Z ->
  read_pages (S (S (length (history org kind id t)))) org people kind id 0 limit t
    = map (scan_revision people false) (rev (history org kind id t)).
Proof.
  intros N L. set (h := history org kind id t). assert (E := N org kind id). fold h in E.
  rewrite <- (firstn_all h) at 2. rewrite <- (read_pages_below org people kind id t limit (S (S (length h)))) by (try done; lia).
  cbn [read_pages]. rewrite (proj2 (List_page org people kind id t 0 limit E L)).
  rewrite (proj1 (List_page org people kind id t (length h) limit E L)). fold h. by rewrite firstn_all.
Qed.

(** Three revisions of a tool and one of a server, read a page of two at a
    time. *)
Definition demo_revision (id kind entity : string) (n : Z) : revision_row :=
  mkRevision id "o" kind entity n "{}" None ActionUpdate (Some "u1") "Ann" (1000 * n).

Definition demo_history : list revision_row :=
  [demo_revision "r1" KindTool "t1" 1; demo_revision "r2" KindServer "s1" 1; demo_revision "r3" KindTool "t1" 2; demo_revision "r4" KindTool "t1" 3].

Lemma demo_numbered : numbered demo_history.
Proof.
  assert (numbered []) as N0 by done.
  pose proof (numbered_snoc [] (demo_revision "r1" KindTool "t1" 1) N0 eq_refl) as N1.
  pose proof (numbered_snoc _ (demo_revision "r2" KindServer "s1" 1) N1 eq_refl) as N2.
  pose proof (numbered_snoc _ (demo_revision "r3" KindTool "t1" 2) N2 eq_refl) as N3.
  exact (numbered_snoc _ (demo_revision "r4" KindTool "t1" 3) N3 eq_refl).
Qed.

Lemma pages_cover_the_history_witness :
  numbered demo_history /\
  map sv_ID (read_pages 5 "o" [] KindTool "t1" 0 2 demo_history) = ["r4"; "r3"; "r1"].
Proof.
  split; [exact demo_numbered|].
  assert (read_pages (S (S (length (history "o" KindTool "t1" demo_history)))) "o" [] KindTool "t1" 0 2 demo_history
    = map (scan_revision [] false) (rev (history "o" KindTool "t1" demo_history))) as E.
  { apply (pages_cover_the_history "o" [] KindTool "t1" demo_history 2); [exact demo_numbered|lia]. }
  change 5 with (S (S (length (history "o" KindTool "t1" demo_history)))). rewrite E. vm_compute. reflexivity.
Defined.
