(* ===== verification/ConnectorStore.v ===== *)
(** * ConnectorStore: connectors and their tools as rows (internal/connector/connector.go, tools.go)

    The tables the connector service writes, and its operations as functions
    of them.  An operation is one transaction: it leaves the store as it was
    when it returns an error.  Row level security shows a transaction its
    organisation's rows.  Every write of a connector or its tools locks the
    connector's row before it reads, so the writes of one connector are
    ordered and each is one step.  The transport and auth columns hold the
    records that [encoding/json] writes and reads back; a definition column
    holds the text.  The JSON of definitions, the validator of
    [pkg/adapter/validate.go] and the placeholders it finds are an
    interface.  Times are microseconds. *)
From S2P Require Import Prelude Tables GoStrings Float64 Regex Values AuditEvents Secrets Authz Adapter Engine Calls ApprovalRules Approvals Revisions.

Open Scope list_scope.

(** ** The interface of [pkg/adapter] *)

Inductive Severity : Type := SeverityError | SeverityWarning.

Definition is_error (s : Severity) : bool := match s with SeverityError => true | SeverityWarning => false end.

Record Issue : Type := mkIssue { is_Rule : string; is_Severity : Severity; is_Message : string; is_Field : string }.

(** The anonymous struct of [behaviourJSON]: what decides what a call does. *)
Record behaviour : Type := mkBehaviour {
  bh_Operation : Operation;
  bh_Response : option Response;
  bh_Output : option node;
  bh_Timeout : Z;
  bh_RateLimit : option RateLimit;
  bh_Proxy : option bool;
  bh_ReadOnly : option bool;
  bh_Destructive : option bool;
  bh_Idempotent : option bool;
  bh_OpenWorld : option bool;
}.

(** The encoding of a definition and its reading; the operation's path as
    SQL extracts it from the stored text; the sorted JSON of a behaviour;
    the validator and the [{{env.X}}] names of a definition; the JSON of a
    transport and an auth, together and as values. *)
Class Definitions : Type := {
  df_JSON : Tool -> result string string;
  df_Parse : string -> result string Tool;
  df_path : string -> string;
  df_behaviour : behaviour -> result string string;
  df_Validate : Tool -> string -> list Issue;
  df_Placeholders : Tool -> list string;
  df_config : Transport -> Auth -> string;
  df_Transport : Transport -> value;
  df_Auth : Auth -> value;
  df_time : Z -> string;
}.

(** ** The tables *)

Record connector_row : Type := mkConnectorRow {
  cr_ID : string;
  cr_OrgID : string;
  cr_Name : string;
  cr_Transport : Transport;
  cr_Auth : Auth;
  cr_Instructions : string;
  cr_CatalogSlug : option string;
  cr_CatalogHash : option string;
  cr_ReadOnly : bool;
  cr_Enabled : bool;
  cr_Version : Z;
  cr_CreatedBy : option string;
  cr_CreatedAt : Z;
  cr_UpdatedAt : Z;
}.

Record tool_row : Type := mkToolRow {
  tl_ID : string;
  tl_ConnectorID : string;
  tl_OrgID : string;
  tl_Name : string;
  tl_Definition : string;
  tl_OperationID : option string;
  tl_Enabled : bool;
  tl_DeprecatedAt : option Z;
  tl_Version : Z;
  tl_Source : string;
  tl_EditedAt : option Z;
  tl_EditedBy : option string;
  tl_CreatedAt : Z;
  tl_UpdatedAt : Z;
}.

Record credential_row : Type := mkCredentialRow {
  cd_ConnectorID : string; cd_OrgID : string; cd_Name : string; cd_Value : string; cd_Secret : bool }.

Record token_row : Type := mkTokenRow { tk_ConnectorID : string; tk_OrgID : string; tk_Token : string; tk_ExpiresAt : Z }.

Record server_row : Type := mkServerRow {
  se_ID : string;
  se_OrgID : string;
  se_Slug : string;
  se_Name : string;
  se_Instructions : string;
  se_Enabled : bool;
  se_Sessions : string;
  se_Version : Z;
  se_CreatedAt : Z;
  se_UpdatedAt : Z;
}.

Record link_row : Type := mkLinkRow { ln_ServerID : string; ln_ConnectorID : string; ln_OrgID : string }.

(** A rule of [tool_access_rules], and the scope of a data-loss policy. *)
Record access_row : Type := mkAccessRow { ac_OrgID : string; ac_ToolID : string; ac_RoleID : string; ac_Effect : string }.
Record dlp_row : Type := mkDlpRow { dp_OrgID : string; dp_ConnectorID : option string; dp_ToolID : option string }.

Record store : Type := mkStore {
  s_connectors : list connector_row;
  s_tools : list tool_row;
  s_credentials : list credential_row;
  s_tokens : list token_row;
  s_servers : list server_row;
  s_links : list link_row;
  s_access : list access_row;
  s_dlp : list dlp_row;
  s_approvals : world;
  s_revisions : list revision_row;
}.

Definition set_connectors (x : list connector_row) (s : store) : store :=
  mkStore x (s_tools s) (s_credentials s) (s_tokens s) (s_servers s) (s_links s) (s_access s) (s_dlp s) (s_approvals s) (s_revisions s).
Definition set_tools (x : list tool_row) (s : store) : store :=
  mkStore (s_connectors s) x (s_credentials s) (s_tokens s) (s_servers s) (s_links s) (s_access s) (s_dlp s) (s_approvals s) (s_revisions s).
Definition set_credentials (x : list credential_row) (s : store) : store :=
  mkStore (s_connectors s) (s_tools s) x (s_tokens s) (s_servers s) (s_links s) (s_access s) (s_dlp s) (s_approvals s) (s_revisions s).
Definition set_tokens (x : list token_row) (s : store) : store :=
  mkStore (s_connectors s) (s_tools s) (s_credentials s) x (s_servers s) (s_links s) (s_access s) (s_dlp s) (s_approvals s) (s_revisions s).
Definition set_servers (x : list server_row) (s : store) : store :=
  mkStore (s_connectors s) (s_tools s) (s_credentials s) (s_tokens s) x (s_links s) (s_access s) (s_dlp s) (s_approvals s) (s_revisions s).
Definition set_links (x : list link_row) (s : store) : store :=
  mkStore (s_connectors s) (s_tools s) (s_credentials s) (s_tokens s) (s_servers s) x (s_access s) (s_dlp s) (s_approvals s) (s_revisions s).
Definition set_access (x : list access_row) (s : store) : store :=
  mkStore (s_connectors s) (s_tools s) (s_credentials s) (s_tokens s) (s_servers s) (s_links s) x (s_dlp s) (s_approvals s) (s_revisions s).
Definition set_dlp (x : list dlp_row) (s : store) : store :=
  mkStore (s_connectors s) (s_tools s) (s_credentials s) (s_tokens s) (s_servers s) (s_links s) (s_access s) x (s_approvals s) (s_revisions s).
Definition set_approvals (x : world) (s : store) : store :=
  mkStore (s_connectors s) (s_tools s) (s_credentials s) (s_tokens s) (s_servers s) (s_links s) (s_access s) (s_dlp s) x (s_revisions s).
Definition set_revisions (x : list revision_row) (s : store) : store :=
  mkStore (s_connectors s) (s_tools s) (s_credentials s) (s_tokens s) (s_servers s) (s_links s) (s_access s) (s_dlp s) (s_approvals s) x.

Inductive store_error : Type :=
| ErrNoOrganization | ErrNotFound | ErrMissingCredential (name : string) | ErrNameRequired
| ErrToolNotFound | ErrToolNameTaken | ErrVersionConflict (kind : string) (current : Z) | ErrToolNotDeletable
| ErrReferencesNotAcknowledged | ErrInvalidTool (issues : list Issue)
| ErrEncodeTool (e : string) | ErrParseTool (e : string) | ErrHistory (e : revision_error) | ErrSeal (e : string)
| ErrDecryptCredential (name e : string) | ErrDecryptToken (e : string) | ErrDisabled | ErrConstraint (what : string) | ErrToken (e : string).

(** [tenant.DB.Tx]. *)
Definition tx {A} (org : string) (s : store) (body : store -> result store_error (store * A)) : store * result store_error A :=
  if String.eqb org "" then (s, Err ErrNoOrganization)
  else match body s with Ok (s', a) => (s', Ok a) | Err e => (s, Err e) end.

Lemma tx_err {A} org s (body : store -> result store_error (store * A)) s' e : tx org s body = (s', Err e) -> s' = s.
Proof. unfold tx. destruct (String.eqb org ""); [congruence|]. destruct (body s) as [[? ?]|]; congruence. Qed.

Lemma tx_ok {A} org s (body : store -> result store_error (store * A)) s' a : tx org s body = (s', Ok a) ->
  org <> "" /\ body s = Ok (s', a).
Proof. unfold tx. destruct (String.eqb_spec org ""); [congruence|]. destruct (body s) as [[? ?]|] eqn:E; [|congruence]. by intros [= -> ->]. Qed.

(** ** Versions *)

Definition CheckVersion (kind : string) (expected current : Z) : result store_error unit :=
  if (expected =? 0)%Z || (expected =? current)%Z then Ok tt else Err (ErrVersionConflict kind current).

(** ** Reading *)

Definition sees_connector (org id : string) (c : connector_row) : bool := String.eqb (cr_OrgID c) org && String.eqb (cr_ID c) id.
Definition sees_tool (org id : string) (t : tool_row) : bool := String.eqb (tl_OrgID t) org && String.eqb (tl_ID t) id.
Definition tool_on (org cid : string) (t : tool_row) : bool := String.eqb (tl_OrgID t) org && String.eqb (tl_ConnectorID t) cid.

(** [scanConnector], with the two subqueries of [selectConnector]. *)
Definition scanConnector (s : store) (c : connector_row) : Connector :=
  mkConnector (cr_ID c) (cr_OrgID c) (cr_Name c) (cr_Transport c) (cr_Auth c) (cr_Instructions c)
    (default "" (cr_CatalogSlug c)) (default "" (cr_CatalogHash c)) (cr_ReadOnly c) (cr_Enabled c) (cr_Version c)
    (Z.of_nat (length (List.filter (fun t => tool_on (cr_OrgID c) (cr_ID c) t && tl_Enabled t) (s_tools s)))) []
    (cr_CreatedAt c) (cr_UpdatedAt c)
    (existsb (fun k => String.eqb (tk_OrgID k) (cr_OrgID c) && String.eqb (tk_ConnectorID k) (cr_ID c)) (s_tokens s)).

Definition find_connector (org id : string) (s : store) : option connector_row := List.find (sees_connector org id) (s_connectors s).
Definition find_tool (org id : string) (s : store) : option tool_row := List.find (sees_tool org id) (s_tools s).

Definition lockConnector (org id : string) (s : store) : result store_error Connector :=
  match find_connector org id s with Some c => Ok (scanConnector s c) | None => Err ErrNotFound end.

Definition lockConnectorAt (org id : string) (expected : Z) (s : store) : result store_error Connector :=
  c ← lockConnector org id s;
  _ ← CheckVersion "connector" expected (cn_Version c);
  Ok c.

Section reading.
Context `{Definitions}.

Definition scanTool (t : tool_row) : result store_error StoredTool :=
  match df_Parse (tl_Definition t) with
  | Err e => Err (ErrParseTool e)
  | Ok td =>
      Ok (mkStoredTool (tl_ID t) (tl_ConnectorID t) (tl_Name t) (Some td) (default "" (tl_OperationID t)) (tl_Enabled t) (tl_DeprecatedAt t)
            (tl_Version t) (tl_Source t) (tl_EditedAt t) (default "" (tl_EditedBy t)) (tl_CreatedAt t) (tl_UpdatedAt t))
  end.

Definition getToolTx (org id : string) (s : store) : result store_error StoredTool :=
  match find_tool org id s with Some t => scanTool t | None => Err ErrToolNotFound end.

(** [lockTool]: the connector's lock is taken before the tool is read; a
    connector that went took the tool with it. *)
Definition lockTool (org id : string) (s : store) : result store_error (Connector * StoredTool) :=
  match find_tool org id s with
  | None => Err ErrToolNotFound
  | Some t =>
      match lockConnector org (tl_ConnectorID t) s with
      | Err ErrNotFound => Err ErrToolNotFound
      | Err e => Err e
      | Ok c => t ← getToolTx org id s; Ok (c, t)
      end
  end.

(** The rows of a query that scans each: the first that does not parse is
    the error. *)
Fixpoint scan_all (ts : list tool_row) : result store_error (list StoredTool) :=
  match ts with
  | [] => Ok []
  | t :: ts => t ← scanTool t; l ← scan_all ts; Ok (t :: l)
  end.

Definition by_name (a b : tool_row) : Prop := String.leb (tl_Name a) (tl_Name b) = true.

#[export] Instance by_name_dec : RelDecision by_name.
Proof. intros a b. unfold by_name. apply bool_eq_dec. Defined.

Definition tools_of (org cid : string) (s : store) : list tool_row := merge_sort by_name (List.filter (tool_on org cid) (s_tools s)).

(** [Tools]. *)
Definition Tools (org cid : string) (s : store) : result store_error (list StoredTool) :=
  if String.eqb org "" then Err ErrNoOrganization else scan_all (tools_of org cid s).

Definition GetTool (org id : string) (s : store) : result store_error StoredTool :=
  if String.eqb org "" then Err ErrNoOrganization else getToolTx org id s.
End reading.

(** ** Writing rows *)

Definition insertToolRow (now : Z) (id : string) (c : Connector) (name def source : string) (enabled : bool) (s : store) : result store_error store :=
  if existsb (fun t => String.eqb (tl_ID t) id || (String.eqb (tl_ConnectorID t) (cn_ID c) && String.eqb (tl_Name t) name)) (s_tools s)
  then Err ErrToolNameTaken
  else Ok (set_tools (s_tools s ++ [mkToolRow id (cn_ID c) (cn_OrgID c) name def None enabled None 1 source None None now now]) s).

Definition bumped_connector (now : Z) (c : connector_row) : connector_row :=
  mkConnectorRow (cr_ID c) (cr_OrgID c) (cr_Name c) (cr_Transport c) (cr_Auth c) (cr_Instructions c) (cr_CatalogSlug c) (cr_CatalogHash c)
    (cr_ReadOnly c) (cr_Enabled c) (cr_Version c + 1) (cr_CreatedBy c) (cr_CreatedAt c) now.

Definition bumpConnectorTx (now : Z) (org cid : string) (s : store) : store :=
  set_connectors (update_where (sees_connector org cid) (bumped_connector now) (s_connectors s)) s.

Definition bumped_server (now : Z) (v : server_row) : server_row :=
  mkServerRow (se_ID v) (se_OrgID v) (se_Slug v) (se_Name v) (se_Instructions v) (se_Enabled v) (se_Sessions v) (se_Version v + 1) (se_CreatedAt v) now.

(** [mcp_server_connectors] as the organisation sees it. *)
Definition linked (org sid cid : string) (s : store) : bool :=
  existsb (fun l => String.eqb (ln_OrgID l) org && String.eqb (ln_ServerID l) sid && String.eqb (ln_ConnectorID l) cid) (s_links s).

Definition serves (org cid : string) (s : store) (v : server_row) : bool := String.eqb (se_OrgID v) org && linked org (se_ID v) cid s.

Definition bumpServersTx (now : Z) (org cid : string) (s : store) : store :=
  set_servers (update_where (serves org cid s) (bumped_server now) (s_servers s)) s.

(** [cancelApprovalsTx], on the requests of Approvals.v. *)
Definition cancelApprovals (now : Z) (org tid reason : string) (s : store) : store :=
  set_approvals (cancelApprovalsTx now org tid reason (s_approvals s)) s.

(** ** The history beside a write *)

(** [toolRevision]. *)
Record toolRevision : Type := mkToolRevision {
  tv_ID : string;
  tv_ConnectorID : string;
  tv_Name : string;
  tv_Source : string;
  tv_Enabled : bool;
  tv_Version : Z;
  tv_Definition : string;
}.

(** Its JSON, read back into a map. *)
Definition tool_json (t : toolRevision) : entity :=
  Some (VMap [("connectorId", VStr (tv_ConnectorID t)); ("definition", VStr (tv_Definition t)); ("enabled", VBool (tv_Enabled t));
              ("id", VStr (tv_ID t)); ("name", VStr (tv_Name t)); ("source", VStr (tv_Source t)); ("version", VFloat (f_of_Z (tv_Version t)))]).

(** [omitempty]. *)
Definition unless_empty (k s : string) : list (string * value) := if String.eqb s "" then [] else [(k, VStr s)].

Section history.
Context `{Definitions} `{Encoding}.

Definition connector_json (c : Connector) : entity :=
  Some (VMap ([("auth", df_Auth (cn_Auth c))] ++ unless_empty "catalogHash" (cn_CatalogHash c) ++ unless_empty "catalogSlug" (cn_CatalogSlug c)
    ++ [("createdAt", VStr (df_time (cn_CreatedAt c)));
        ("credentials", match cn_Credentials c with
                        | [] => VNil
                        | l => VList (map (fun i => VMap [("name", VStr (ci_Name i)); ("required", VBool (ci_Required i));
                                                          ("secret", VBool (ci_Secret i)); ("set", VBool (ci_Set i))]) l)
                        end);
        ("enabled", VBool (cn_Enabled c)); ("id", VStr (cn_ID c))]
    ++ unless_empty "instructions" (cn_Instructions c)
    ++ [("name", VStr (cn_Name c)); ("organizationId", VStr (cn_OrgID c)); ("readOnly", VBool (cn_ReadOnly c));
        ("toolCount", VFloat (f_of_Z (cn_ToolCount c))); ("transport", df_Transport (cn_Transport c));
        ("updatedAt", VStr (df_time (cn_UpdatedAt c))); ("version", VFloat (f_of_Z (cn_Version c)))])).

(** The service's recorder: none, or the history, which knows the people of
    the organisation. *)
Record recorder : Type := mkRecorder { rc_on : bool; rc_people : list person }.

Definition record (rc : recorder) (now : Z) (newID org kind id action : string) (e : entity) (d : option Diff) (actor : string)
    (s : store) : result store_error store :=
  if negb (rc_on rc) then Ok s
  else match Record_ now newID org (rc_people rc) kind id action e d actor (s_revisions s) with
       | Ok t => Ok (set_revisions t s)
       | Err x => Err (ErrHistory x)
       end.

Definition recordBaseline (rc : recorder) (now : Z) (newID org kind id : string) (e : entity) (s : store) : result store_error store :=
  if negb (rc_on rc) then Ok s
  else match RecordBaseline now newID org (rc_people rc) kind id e (s_revisions s) with
       | Ok t => Ok (set_revisions t s)
       | Err x => Err (ErrHistory x)
       end.

Definition snapshotTool (t : StoredTool) : result store_error toolRevision :=
  match st_Definition t with
  | None => Err (ErrEncodeTool "")
  | Some def =>
      match df_JSON def with
      | Err e => Err (ErrEncodeTool e)
      | Ok text => Ok (mkToolRevision (st_ID t) (st_ConnectorID t) (st_Name t) (st_Source t) (st_Enabled t) (st_Version t) text)
      end
  end.

(** The two revisions of a change of a tool. *)
Definition record_change (rc : recorder) (now : Z) (ids : nat -> string) (org action actor : string) (before after : toolRevision) (d : option Diff)
    (s : store) : result store_error store :=
  s ← recordBaseline rc now (ids 0) org KindTool (tv_ID before) (tool_json before) s;
  record rc now (ids 1) org KindTool (tv_ID before) action (tool_json after) d actor s.
End history.

(** ** What a call does *)

Section behaviours.
Context `{Definitions}.

Definition behaviourJSON (t : Tool) : result string string :=
  let h := default (mkHints "" None None None None) (to_Annotations t) in
  df_behaviour (mkBehaviour (to_Operation t) (to_Response t) (to_Output t) (to_Timeout t) (to_RateLimit t) (to_Proxy t)
    (h_ReadOnlyHint h) (h_DestructiveHint h) (h_IdempotentHint h) (h_OpenWorldHint h)).

(** [BehaviourChanged]; a nil definition equals only a nil one. *)
Definition BehaviourChanged (before after : option Tool) : bool :=
  match before, after with
  | Some b, Some a => match behaviourJSON b, behaviourJSON a with Ok x, Ok y => negb (String.eqb y x) | _, _ => true end
  | None, None => false
  | _, _ => true
  end.
End behaviours.

(** ** Where an operation may go *)

(** [strings.IndexAny] for ASCII bytes. *)
Fixpoint IndexAny (s chars : string) : option nat :=
  match s with
  | "" => None
  | String c s => if existsb (Ascii.eqb c) (bytes_of chars) then Some 0 else S <$> IndexAny s chars
  end.

(** [strings.LastIndex] of one byte. *)
Fixpoint LastIndexByte (s : string) (c : ascii) : option nat :=
  match s with
  | "" => None
  | String x s => match LastIndexByte s c with Some i => Some (S i) | None => if Ascii.eqb x c then Some 0 else None end
  end.

Section hosts.
Context (map_lower : string -> string).

(** The host of an absolute URL whose scheme has been taken off. *)
Definition host_of (rest : string) : string :=
  let host := match IndexAny rest "/?#" with Some i => str_take i rest | None => rest end in
  let host := match LastIndexByte host "@"%char with
              | Some i => if Contains (str_drop i host) "}}" then host else str_drop (S i) host
              | None => host
              end in
  if Contains host "{{" then host else ToLower map_lower host.

Definition pathHost (p : string) : option string :=
  let p := TrimSpace p in
  let low := ToLower map_lower p in
  if HasPrefix low "http://" then Some (host_of (str_drop 7 p))
  else if HasPrefix low "https://" then Some (host_of (str_drop 8 p))
  else if HasPrefix p "{{" then
    match Index p "}}" with
    | None => None
    | Some e => let ph := str_take (e + 2) p in if Contains ph "raw" then Some ph else None
    end
  else None.
End hosts.

(** ** References *)

Inductive policy_match : Type := MatchName | MatchScope.

Record PolicyRef : Type := mkPolicyRef { pr_ID : string; pr_Name : string; pr_Enabled : bool; pr_Match : policy_match }.

Record ToolReferences : Type := mkToolReferences { tr_ApprovalPolicies : list PolicyRef; tr_AccessRules : nat; tr_DLPPolicies : nat }.

Definition names_tool (t : StoredTool) (p : ApprovalPolicy) : bool := String.eqb (ap_Trigger p) "tool" && String.eqb (ap_ToolName p) (st_Name t).

(** The WHERE of [toolReferencesTx]. *)
Definition refers (org : string) (t : StoredTool) (s : store) (p : ApprovalPolicy) : bool :=
  String.eqb (ap_OrgID p) org &&
  (names_tool t p &&
     (String.eqb (ap_Scope p) "organization"
      || String.eqb (ap_Scope p) "connector" && String.eqb (ap_ScopeID p) (st_ConnectorID t)
      || String.eqb (ap_Scope p) "tool" && String.eqb (ap_ScopeID p) (st_ID t)
      || String.eqb (ap_Scope p) "server" && linked org (ap_ScopeID p) (st_ConnectorID t) s)
   || String.eqb (ap_Scope p) "tool" && String.eqb (ap_ScopeID p) (st_ID t)).

Definition ref_order (a b : PolicyRef) : Prop :=
  String.compare (pr_Name a) (pr_Name b) = Lt \/ pr_Name a = pr_Name b /\ String.leb (pr_ID a) (pr_ID b) = true.

#[export] Instance ref_order_dec : RelDecision ref_order.
Proof.
  intros a b. unfold ref_order. apply or_dec; [|apply and_dec; [apply String.string_dec|apply bool_eq_dec]].
  destruct (String.compare (pr_Name a) (pr_Name b)); [by right|by left|by right].
Defined.

Definition toolReferencesTx (org : string) (t : StoredTool) (s : store) : ToolReferences :=
  mkToolReferences
    (merge_sort ref_order (map (fun p => mkPolicyRef (ap_ID p) (ap_Name p) (ap_Enabled p) (if names_tool t p then MatchName else MatchScope))
       (List.filter (refers org t s) (w_rules (s_approvals s)))))
    (length (List.filter (fun r => String.eqb (ac_OrgID r) org && String.eqb (ac_ToolID r) (st_ID t)) (s_access s)))
    (length (List.filter (fun d => String.eqb (dp_OrgID d) org && bool_decide (dp_ToolID d = Some (st_ID t))) (s_dlp s))).

(** [byName]. *)
Definition refs_byName (r : ToolReferences) : bool :=
  existsb (fun p => match pr_Match p with MatchName => true | MatchScope => false end) (tr_ApprovalPolicies r).

(** ** The check of a definition *)

Definition MaxTransform : nat := MaxExpressionLength.

Definition definitionRequired : Issue := mkIssue "definition-required" SeverityError "a tool definition is required" "".

Definition hasErrors (l : list Issue) : bool := existsb (fun i => is_error (is_Severity i)) l.
Definition warningsOf (l : list Issue) : list Issue := List.filter (fun i => negb (is_error (is_Severity i))) l.

Definition issue_error (field rule msg : string) : Issue := mkIssue rule SeverityError msg field.
Definition issue_warning (field rule msg : string) : Issue := mkIssue rule SeverityWarning msg field.

(** The [{{env.X}}] names in a text, each once, in order ([seen]): the scan
    of [referencedCredentials], which needs a byte after the dot. *)
Fixpoint env_name (s : string) : string :=
  match s with
  | "" => ""
  | String c s => if existsb (Ascii.eqb c) (bytes_of "} |") then "" else String c (env_name s)
  end.

Fixpoint env_names (s : string) (seen : list string) : list string :=
  match s with
  | "" => []
  | String _ rest =>
      if (6 <? String.length s) && HasPrefix s "{{env." then
        let name := env_name (str_drop 6 s) in
        if String.eqb name "" || existsb (String.eqb name) seen then env_names rest seen
        else name :: env_names rest (name :: seen)
      else env_names rest seen
  end.

Section check.
Context `{Definitions} `{Encoding}.

Definition referencedCredentials (c : Connector) : list string := env_names (df_config (cn_Transport c) (cn_Auth c)) [].

Definition credential_names (org cid : string) (s : store) : list string :=
  map cd_Name (List.filter (fun d => String.eqb (cd_OrgID d) org && String.eqb (cd_ConnectorID d) cid) (s_credentials s)).

(** [knownEnvTx]. *)
Definition knownEnv (org : string) (c : Connector) (s : store) : list string := referencedCredentials c ++ credential_names org (cn_ID c) s.

(** The paths of the connector's stored tools, without the empty ones. *)
Definition stored_paths (org cid : string) (s : store) : list string :=
  List.filter (fun p => negb (String.eqb p "")) (map (fun t => df_path (tl_Definition t)) (List.filter (tool_on org cid) (s_tools s))).

Definition some_host (p : string) : list string := match pathHost en_lower p with Some h => [h] | None => [] end.

(** [knownHostsTx]. *)
Definition knownHosts (org : string) (c : Connector) (before : option Tool) (s : store) : list string :=
  some_host (tr_BaseURL (cn_Transport c))
    ++ match before with Some b => some_host (op_Path (to_Operation b)) | None => [] end
    ++ flat_map some_host (stored_paths org (cn_ID c) s).

(** [sharedNameConnectorsTx]: [SELECT DISTINCT c.name ... ORDER BY]. *)
Definition shares_server (org a b : string) (s : store) : bool :=
  existsb (fun l => String.eqb (ln_OrgID l) org && String.eqb (ln_ConnectorID l) a && linked org (ln_ServerID l) b s) (s_links s).

Definition sharedNameConnectors (org cid name : string) (s : store) : list string :=
  merge_sort (fun a b => Is_true (String.leb a b)) (remove_dups
    (omap (fun t => if String.eqb (tl_OrgID t) org && String.eqb (tl_Name t) name && negb (String.eqb (tl_ConnectorID t) cid)
                         && shares_server org cid (tl_ConnectorID t) s
                    then cr_Name <$> find_connector org (tl_ConnectorID t) s else None) (s_tools s))).

(** The issue of an operation that leaves for a host the connector does not
    have. *)
Definition host_issues (org : string) (c : Connector) (before : option Tool) (def : Tool) (s : store) : list Issue :=
  let tt := tr_Type (cn_Transport c) in
  if String.eqb tt TransportHTTP || String.eqb tt TransportSOAP then
    match pathHost en_lower (op_Path (to_Operation def)) with
    | None => []
    | Some host =>
        if existsb (String.eqb host) (knownHosts org c before s) then []
        else [issue_error "operation.path" "operation-host"
                ("operation.path sends the connector's credentials to " +:+ host
                   +:+ ", which is not the connector's host or one its tools already use")]
    end
  else [].

Definition transform_issues (def : Tool) : list Issue :=
  match to_Response def with
  | Some r =>
      match rs_Transform r with
      | Some e =>
          if MaxTransform <? String.length e
          then [issue_error "response.transform.jmespath" "transform-length"
                  ("the transform is " +:+ Itoa (Z.of_nat (String.length e)) +:+ " characters; the limit is " +:+ Itoa (Z.of_nat MaxTransform))]
          else []
      | None => []
      end
  | None => []
  end.

Definition name_issues (org : string) (c : Connector) (toolID : string) (def : Tool) (s : store) : list Issue :=
  if existsb (fun t => tool_on org (cn_ID c) t && String.eqb (tl_Name t) (to_Name def) && negb (String.eqb (tl_ID t) toolID)) (s_tools s)
  then [issue_error "name" "tool-name-unique" ("the connector already has a tool called " +:+ to_Name def)]
  else [].

Definition env_issues (org : string) (c : Connector) (def : Tool) (s : store) : list Issue :=
  map (fun name => issue_warning "operation" "env-unknown"
                     ("{{env." +:+ name +:+ "}} is not a credential of this connector; it renders empty until one is set"))
    (List.filter (fun name => negb (existsb (String.eqb name) (knownEnv org c s))) (df_Placeholders def)).

Definition shared_issues (org : string) (c : Connector) (def : Tool) (s : store) : list Issue :=
  map (fun name => issue_warning "name" "tool-name-shared-server"
                     ("connector " +:+ name +:+ " on the same MCP server also has a tool called " +:+ to_Name def))
    (sharedNameConnectors org (cn_ID c) (to_Name def) s).

Definition preview_issues (c : Connector) : list Issue :=
  let tt := tr_Type (cn_Transport c) in
  if String.eqb tt TransportSOAP || String.eqb tt TransportMCP
  then [issue_warning "" "preview-unsupported" ("a dry-run preview is not available for " +:+ tt +:+ " connectors")] else [].

(** [checkToolTx]. *)
Definition checkToolTx (org : string) (c : Connector) (toolID : string) (before : option Tool) (def : Tool) (s : store) : list Issue :=
  df_Validate def (tr_Type (cn_Transport c)) ++ transform_issues def ++ host_issues org c before def s ++ name_issues org c toolID def s
    ++ env_issues org c def s ++ shared_issues org c def s ++ preview_issues c.

(** [CheckTool]. *)
Definition CheckTool (org cid toolID : string) (def : option Tool) (s : store) : result store_error (list Issue) :=
  match def with
  | None => Ok [definitionRequired]
  | Some def =>
      if String.eqb org "" then Err ErrNoOrganization
      else
        c ← lockConnector org cid s;
        before ← (if String.eqb toolID "" then Ok None
                  else t ← getToolTx org toolID s; if String.eqb (st_ConnectorID t) cid then Ok (st_Definition t) else Err ErrToolNotFound);
        Ok (checkToolTx org c toolID before def s)
  end.
End check.

(** ** Operations on tools *)

Record ToolInput : Type := mkToolInput {
  ti_Definition : option Tool;
  ti_Enabled : option bool;
  ti_ExpectedVersion : Z;
  ti_AcknowledgeReferences : bool;
  ti_ActorID : string;
}.

(** The row an edit writes. *)
Definition edited (now : Z) (name def actor : string) (enabled : bool) (t : tool_row) : tool_row :=
  mkToolRow (tl_ID t) (tl_ConnectorID t) (tl_OrgID t) name def (tl_OperationID t) enabled (tl_DeprecatedAt t) (tl_Version t + 1)
    (tl_Source t) (Some now) (NULLIF actor) (tl_CreatedAt t) now.

Definition switched (now : Z) (enabled : bool) (t : tool_row) : tool_row :=
  mkToolRow (tl_ID t) (tl_ConnectorID t) (tl_OrgID t) (tl_Name t) (tl_Definition t) (tl_OperationID t) enabled (tl_DeprecatedAt t)
    (tl_Version t + 1) (tl_Source t) (tl_EditedAt t) (tl_EditedBy t) (tl_CreatedAt t) now.

(** [UPDATE tools ... WHERE id = $1], refused when another tool of the
    connector has the name. *)
Definition updateToolRow (now : Z) (org id name def actor : string) (enabled : bool) (s : store) : result store_error store :=
  match find_tool org id s with
  | Some t =>
      if existsb (fun x => String.eqb (tl_ConnectorID x) (tl_ConnectorID t) && String.eqb (tl_Name x) name && negb (String.eqb (tl_ID x) id)) (s_tools s)
      then Err ErrToolNameTaken
      else Ok (set_tools (update_where (sees_tool org id) (edited now name def actor enabled) (s_tools s)) s)
  | None => Ok s
  end.

(** [DELETE FROM tools], with the data-loss policies the foreign key takes
    along. *)
Definition deleteToolRow (org id : string) (s : store) : store :=
  set_tools (delete_where (sees_tool org id) (s_tools s))
    (set_dlp (delete_where (fun d => bool_decide (dp_ToolID d = Some id)) (s_dlp s)) s).

Definition deleteAccessRows (org id : string) (s : store) : store :=
  set_access (delete_where (fun r => String.eqb (ac_OrgID r) org && String.eqb (ac_ToolID r) id) (s_access s)) s.

Section tools.
Context `{Definitions} `{Encoding} (rc : recorder).

Definition encode_tool (def : Tool) : result store_error string :=
  match df_JSON def with Ok text => Ok text | Err e => Err (ErrEncodeTool e) end.

Definition CreateTool_tx (now : Z) (ids : nat -> string) (id org cid : string) (def : Tool) (in_ : ToolInput) (s : store) :
    result store_error (store * list Issue) :=
  c ← lockConnector org cid s;
  let issues := checkToolTx org c "" None def s in
  if hasErrors issues then Err (ErrInvalidTool issues)
  else
    text ← encode_tool def;
    s ← insertToolRow now id c (to_Name def) text "custom" (match ti_Enabled in_ with None => true | Some b => b end) s;
    let s := bumpServersTx now org cid (bumpConnectorTx now org cid s) in
    after ← getToolTx org id s;
    snap ← snapshotTool after;
    s ← record rc now (ids 0) org KindTool id "create" (tool_json snap) (created (tool_json snap)) (ti_ActorID in_) s;
    Ok (s, issues).

Definition UpdateTool_tx (now : Z) (ids : nat -> string) (org id : string) (def : Tool) (in_ : ToolInput) (s : store) :
    result store_error (store * list Issue) :=
  locked ← lockTool org id s;
  let '(c, before) := locked in
  _ ← CheckVersion "tool" (ti_ExpectedVersion in_) (st_Version before);
  let issues := checkToolTx org c id (st_Definition before) def s in
  if hasErrors issues then Err (ErrInvalidTool issues)
  else if negb (String.eqb (to_Name def) (st_Name before)) && refs_byName (toolReferencesTx org before s) && negb (ti_AcknowledgeReferences in_)
  then Err ErrReferencesNotAcknowledged
  else
    text ← encode_tool def;
    s ← updateToolRow now org id (to_Name def) text (ti_ActorID in_) (default (st_Enabled before) (ti_Enabled in_)) s;
    let s := if BehaviourChanged (st_Definition before) (Some def) then cancelApprovals now org id "the tool's definition changed" s else s in
    let s := bumpServersTx now org (cn_ID c) (bumpConnectorTx now org (cn_ID c) s) in
    after ← getToolTx org id s;
    beforeSnap ← snapshotTool before;
    afterSnap ← snapshotTool after;
    s ← record_change rc now ids org "update" (ti_ActorID in_) beforeSnap afterSnap (changes (tool_json beforeSnap) (tool_json afterSnap)) s;
    Ok (s, issues).

(** [CreateTool] and [UpdateTool]: the transaction, then the tool read back
    in another; [others] is what ran between. *)
Definition CreateTool (now : Z) (ids : nat -> string) (id org cid : string) (in_ : ToolInput) (others : store -> store) (s : store) :
    store * result store_error (StoredTool * list Issue) :=
  match ti_Definition in_ with
  | None => (s, Err (ErrInvalidTool [definitionRequired]))
  | Some def =>
      let '(s, r) := tx org s (CreateTool_tx now ids id org cid def in_) in
      (s, issues ← r; t ← GetTool org id (others s); Ok (t, warningsOf issues))
  end.

Definition UpdateTool (now : Z) (ids : nat -> string) (org id : string) (in_ : ToolInput) (others : store -> store) (s : store) :
    store * result store_error (StoredTool * list Issue) :=
  match ti_Definition in_ with
  | None => (s, Err (ErrInvalidTool [definitionRequired]))
  | Some def =>
      let '(s, r) := tx org s (UpdateTool_tx now ids org id def in_) in
      (s, issues ← r; t ← GetTool org id (others s); Ok (t, warningsOf issues))
  end.

Definition DeleteTool_tx (now : Z) (ids : nat -> string) (org id : string) (acknowledged : bool) (actor : string) (s : store) :
    result store_error (store * unit) :=
  locked ← lockTool org id s;
  let '(c, before) := locked in
  if negb (String.eqb (st_Source before) "custom") then Err ErrToolNotDeletable
  else if (match tr_ApprovalPolicies (toolReferencesTx org before s) with [] => false | _ => true end) && negb acknowledged
  then Err ErrReferencesNotAcknowledged
  else
    let s := cancelApprovals now org id "the tool was deleted" (deleteToolRow org id s) in
    let s := bumpServersTx now org (cn_ID c) (bumpConnectorTx now org (cn_ID c) s) in
    let s := deleteAccessRows org id s in
    snap ← snapshotTool before;
    s ← record_change rc now ids org "delete" actor snap snap (deleted (tool_json snap)) s;
    Ok (s, tt).

Definition DeleteTool (now : Z) (ids : nat -> string) (org id : string) (acknowledged : bool) (actor : string) (s : store) :
    store * result store_error unit := tx org s (DeleteTool_tx now ids org id acknowledged actor).

Definition SetToolEnabled_tx (now : Z) (ids : nat -> string) (org id : string) (enabled : bool) (actor : string) (s : store) :
    result store_error (store * unit) :=
  locked ← lockTool org id s;
  let '(c, before) := locked in
  if Bool.eqb (st_Enabled before) enabled then Ok (s, tt)
  else
    let s := set_tools (update_where (sees_tool org id) (switched now enabled) (s_tools s)) s in
    let s := bumpServersTx now org (cn_ID c) (bumpConnectorTx now org (cn_ID c) s) in
    b ← snapshotTool before;
    let a := mkToolRevision (tv_ID b) (tv_ConnectorID b) (tv_Name b) (tv_Source b) enabled (tv_Version b + 1) (tv_Definition b) in
    s ← record_change rc now ids org "update" actor b a (changes (tool_json b) (tool_json a)) s;
    Ok (s, tt).

Definition SetToolEnabled (now : Z) (ids : nat -> string) (org id : string) (enabled : bool) (actor : string) (s : store) :
    store * result store_error unit := tx org s (SetToolEnabled_tx now ids org id enabled actor).

(** [ToolReferences]. *)
Definition ToolReferencesOf (org id : string) (s : store) : result store_error ToolReferences :=
  if String.eqb org "" then Err ErrNoOrganization else t ← getToolTx org id s; Ok (toolReferencesTx org t s).
End tools.

(** ** Operations on connectors *)

Record CredentialSpec : Type := mkCredentialSpec { cs_Required : bool; cs_Secret : bool }.

(** What an install reads of an adapter; the credentials in their order. *)
Record AdapterDoc : Type := mkAdapter {
  ad_Name : string;
  ad_Slug : string;
  ad_Transport : Transport;
  ad_Auth : Auth;
  ad_Instructions : string;
  ad_Credentials : list (string * CredentialSpec);
  ad_Tools : list Tool;
}.

Record CreateInput : Type := mkCreateInput {
  ci2_Name : string;
  ci2_Transport : Transport;
  ci2_Auth : Auth;
  ci2_Instructions : string;
  ci2_ReadOnly : option bool;
  ci2_Tools : list Tool;
  ci2_Credentials : list (string * string);
  ci2_CreatedBy : string;
}.

Record UpdateInput : Type := mkUpdateInput {
  ui_Name : option string;
  ui_Instructions : option string;
  ui_ReadOnly : option bool;
  ui_Enabled : option bool;
  ui_Transport : option Transport;
  ui_Auth : option Auth;
  ui_ExpectedVersion : Z;
  ui_ActorID : string;
}.

Definition credential_aad (org cid name : string) : AAD := mkAAD "connector_credentials" "value_enc" (cid +:+ "/" +:+ name) org.
Definition token_aad (org cid : string) : AAD := mkAAD "connector_tokens" "token_enc" cid org.

(** A map given as its entries: the value of a name. *)
Definition entry (creds : list (string * string)) (name : string) : option string := snd <$> List.find (fun e => String.eqb e.1 name) creds.

(** [INSERT ... ON CONFLICT (connector_id, name) DO UPDATE]. *)
Definition writeCredential (org cid name sealed : string) (secret : bool) (s : store) : store :=
  let mine d := String.eqb (cd_ConnectorID d) cid && String.eqb (cd_Name d) name in
  set_credentials
    (if existsb mine (s_credentials s)
     then update_where mine (fun d => mkCredentialRow (cd_ConnectorID d) (cd_OrgID d) (cd_Name d) sealed secret) (s_credentials s)
     else s_credentials s ++ [mkCredentialRow cid org name sealed secret]) s.

Definition deleteCredential (org cid name : string) (s : store) : store :=
  set_credentials (delete_where (fun d => String.eqb (cd_OrgID d) org && String.eqb (cd_ConnectorID d) cid && String.eqb (cd_Name d) name) (s_credentials s)) s.

(** [insert]. *)
Definition insertConnector (now : Z) (c : Connector) (createdBy : string) (s : store) : result store_error store :=
  if existsb (fun x => String.eqb (cr_ID x) (cn_ID c)) (s_connectors s) then Err (ErrConstraint "connectors_pkey")
  else Ok (set_connectors (s_connectors s ++ [mkConnectorRow (cn_ID c) (cn_OrgID c) (cn_Name c) (cn_Transport c) (cn_Auth c) (cn_Instructions c)
             (NULLIF (cn_CatalogSlug c)) (NULLIF (cn_CatalogHash c)) (cn_ReadOnly c) (cn_Enabled c) (cn_Version c) (NULLIF createdBy) now now]) s).

(** The rows of an UPDATE of a connector, and those a re-sync writes. *)
Definition rewritten (now : Z) (c : Connector) (x : connector_row) : connector_row :=
  mkConnectorRow (cr_ID x) (cr_OrgID x) (cn_Name c) (cn_Transport c) (cn_Auth c) (cn_Instructions c) (cr_CatalogSlug x) (cr_CatalogHash x)
    (cn_ReadOnly c) (cn_Enabled c) (cr_Version x + 1) (cr_CreatedBy x) (cr_CreatedAt x) now.

Definition applied (in_ : UpdateInput) (c : Connector) : Connector :=
  mkConnector (cn_ID c) (cn_OrgID c) (default (cn_Name c) (ui_Name in_)) (default (cn_Transport c) (ui_Transport in_))
    (default (cn_Auth c) (ui_Auth in_)) (default (cn_Instructions c) (ui_Instructions in_)) (cn_CatalogSlug c) (cn_CatalogHash c)
    (default (cn_ReadOnly c) (ui_ReadOnly in_)) (default (cn_Enabled c) (ui_Enabled in_)) (cn_Version c) (cn_ToolCount c) (cn_Credentials c)
    (cn_CreatedAt c) (cn_UpdatedAt c) (cn_TokenStored c).

Definition with_version (v : Z) (c : Connector) : Connector :=
  mkConnector (cn_ID c) (cn_OrgID c) (cn_Name c) (cn_Transport c) (cn_Auth c) (cn_Instructions c) (cn_CatalogSlug c) (cn_CatalogHash c)
    (cn_ReadOnly c) (cn_Enabled c) v (cn_ToolCount c) (cn_Credentials c) (cn_CreatedAt c) (cn_UpdatedAt c) (cn_TokenStored c).

(** [DELETE FROM connectors], with what the foreign keys take along. *)
Definition deleteConnectorRow (org id : string) (s : store) : store :=
  let gone := map tl_ID (List.filter (fun t => String.eqb (tl_ConnectorID t) id) (s_tools s)) in
  mkStore (delete_where (sees_connector org id) (s_connectors s))
    (delete_where (fun t => String.eqb (tl_ConnectorID t) id) (s_tools s))
    (delete_where (fun d => String.eqb (cd_ConnectorID d) id) (s_credentials s))
    (delete_where (fun k => String.eqb (tk_ConnectorID k) id) (s_tokens s))
    (s_servers s)
    (delete_where (fun l => String.eqb (ln_ConnectorID l) id) (s_links s))
    (s_access s)
    (delete_where (fun d => bool_decide (dp_ConnectorID d = Some id)
                            || match dp_ToolID d with Some t => existsb (String.eqb t) gone | None => false end) (s_dlp s))
    (s_approvals s) (s_revisions s).

(** [fillCredentials] for one connector. *)
Definition filled `{Definitions} (org : string) (s : store) (c : Connector) : Connector :=
  let stored name := List.find (fun d => String.eqb (cd_OrgID d) org && String.eqb (cd_ConnectorID d) (cn_ID c) && String.eqb (cd_Name d) name) (s_credentials s) in
  mkConnector (cn_ID c) (cn_OrgID c) (cn_Name c) (cn_Transport c) (cn_Auth c) (cn_Instructions c) (cn_CatalogSlug c) (cn_CatalogHash c)
    (cn_ReadOnly c) (cn_Enabled c) (cn_Version c) (cn_ToolCount c)
    (cn_Credentials c ++ map (fun name => match stored name with
                                          | Some d => mkCredentialInfo name true (cd_Secret d) true
                                          | None => mkCredentialInfo name false true true
                                          end) (referencedCredentials c))
    (cn_CreatedAt c) (cn_UpdatedAt c) (cn_TokenStored c).

Section connectors.
Context `{Definitions} `{Encoding} `{Sealer} (rc : recorder).

(** [seal]; [nonce] is the randomness. *)
Definition seal (nonce org cid name value : string) : result store_error string :=
  match Seal nonce org value (credential_aad org cid name) with Ok ct => Ok ct | Err e => Err (ErrSeal e) end.

Definition sealCredential (nonce : string) (c : Connector) (name value : string) (secret : bool) (s : store) : result store_error store :=
  ct ← seal nonce (cn_OrgID c) (cn_ID c) name value;
  Ok (writeCredential (cn_OrgID c) (cn_ID c) name ct secret s).

(** [setCredentialsTx]. *)
Fixpoint setCredentialsTx (nonces : nat -> string) (c : Connector) (specs : list (string * CredentialSpec)) (creds : list (string * string)) (s : store) :
    result store_error store :=
  match specs with
  | [] => Ok s
  | (name, spec) :: specs =>
      match entry creds name with
      | None => setCredentialsTx nonces c specs creds s
      | Some v =>
          if String.eqb v "" then setCredentialsTx nonces c specs creds s
          else s ← sealCredential (nonces 0) c name v (cs_Secret spec) s; setCredentialsTx (fun i => nonces (S i)) c specs creds s
      end
  end.

Fixpoint insertTools (now : Z) (ids : nat -> string) (c : Connector) (source : string) (ts : list Tool) (s : store) : result store_error store :=
  match ts with
  | [] => Ok s
  | t :: ts =>
      text ← encode_tool t;
      s ← insertToolRow now (ids 0) c (to_Name t) text source true s;
      insertTools now (fun i => ids (S i)) c source ts s
  end.

Fixpoint sealAll (nonces : nat -> string) (c : Connector) (creds : list (string * string)) (s : store) : result store_error store :=
  match creds with
  | [] => Ok s
  | (name, v) :: creds => s ← sealCredential (nonces 0) c name v true s; sealAll (fun i => nonces (S i)) c creds s
  end.

(** [Get]. *)
Definition Get_connector (org id : string) (s : store) : result store_error Connector :=
  if String.eqb org "" then Err ErrNoOrganization
  else match find_connector org id s with Some c => Ok (filled org s (scanConnector s c)) | None => Err ErrNotFound end.

(** [List], the newest first. *)
Definition made_after (a b : connector_row) : Prop := (cr_CreatedAt b <= cr_CreatedAt a)%Z.

#[export] Instance made_after_dec : RelDecision made_after := fun a b => Z_le_dec _ _.

Definition List_connectors (org : string) (s : store) : result store_error (list Connector) :=
  if String.eqb org "" then Err ErrNoOrganization
  else Ok (map (fun c => filled org s (scanConnector s c)) (merge_sort made_after (List.filter (fun c => String.eqb (cr_OrgID c) org) (s_connectors s)))).

Definition new_connector (id org name : string) (t : Transport) (a : Auth) (instructions slug hash : string) (readOnly : bool) : Connector :=
  mkConnector id org name t a instructions slug hash readOnly true 1 0 [] 0 0 false.

(** The first required credential that is missing. *)
Definition missing_credential (a : AdapterDoc) (creds : list (string * string)) : option string :=
  fst <$> List.find (fun e => cs_Required e.2 && String.eqb (TrimSpace (default "" (entry creds e.1))) "") (ad_Credentials a).

(** [Install].  [ids 0] names the revision and the others the tools. *)
Definition Install (now : Z) (ids nonces : nat -> string) (id org : string) (a : AdapterDoc) (hash : string) (creds : list (string * string))
    (createdBy : string) (others : store -> store) (s : store) : store * result store_error Connector :=
  let c := new_connector id org (ad_Name a) (ad_Transport a) (ad_Auth a) (ad_Instructions a) (ad_Slug a) hash true in
  match missing_credential a creds with
  | Some name => (s, Err (ErrMissingCredential name))
  | None =>
      let '(s, r) := tx org s (fun s =>
        s ← insertConnector now c createdBy s;
        s ← insertTools now (fun i => ids (S i)) c "catalog" (ad_Tools a) s;
        s ← setCredentialsTx nonces c (ad_Credentials a) creds s;
        s ← record rc now (ids 0) org KindConnector id "create" (connector_json c) (created (connector_json c)) createdBy s;
        Ok (s, tt)) in
      (s, _ ← r; Get_connector org id (others s))
  end.

(** [Create]; the credentials in the order the map's range gives them. *)
Definition Create_connector (now : Z) (ids nonces : nat -> string) (id org : string) (in_ : CreateInput) (others : store -> store) (s : store) :
    store * result store_error Connector :=
  if String.eqb (TrimSpace (ci2_Name in_)) "" then (s, Err ErrNameRequired)
  else
    let c := new_connector id org (ci2_Name in_) (ci2_Transport in_) (ci2_Auth in_) (ci2_Instructions in_) "" "" (default true (ci2_ReadOnly in_)) in
    let '(s, r) := tx org s (fun s =>
      s ← insertConnector now c (ci2_CreatedBy in_) s;
      s ← insertTools now (fun i => ids (S i)) c "import" (ci2_Tools in_) s;
      s ← sealAll nonces c (ci2_Credentials in_) s;
      s ← record rc now (ids 0) org KindConnector id "create" (connector_json c) (created (connector_json c)) (ci2_CreatedBy in_) s;
      Ok (s, tt)) in
    (s, _ ← r; Get_connector org id (others s)).

(** The sealed values of [SetCredentials], before its transaction. *)
Fixpoint sealValues (nonces : nat -> string) (org cid : string) (creds : list (string * string)) : result store_error (list (string * string)) :=
  match creds with
  | [] => Ok []
  | (name, v) :: creds =>
      if String.eqb v "" then sealValues nonces org cid creds
      else ct ← seal (nonces 0) org cid name v; l ← sealValues (fun i => nonces (S i)) org cid creds; Ok ((name, ct) :: l)
  end.

Definition write_or_drop (org cid : string) (sealed : list (string * string)) (s : store) (e : string * string) : store :=
  match entry sealed e.1 with
  | Some ct => writeCredential org cid e.1 ct true s
  | None => deleteCredential org cid e.1 s
  end.

Definition SetCredentials (now : Z) (nonces : nat -> string) (org id : string) (creds : list (string * string)) (expected : Z) (s : store) :
    store * result store_error unit :=
  match sealValues nonces org id creds with
  | Err e => (s, Err e)
  | Ok sealed =>
      tx org s (fun s =>
        _ ← lockConnectorAt org id expected s;
        let s := foldl (write_or_drop org id sealed) s creds in
        Ok (bumpServersTx now org id (bumpConnectorTx now org id s), tt))
  end.

Definition Update_tx (now : Z) (newID org id : string) (in_ : UpdateInput) (s : store) : result store_error (store * unit) :=
  before ← lockConnectorAt org id (ui_ExpectedVersion in_) s;
  let c := applied in_ before in
  let s := set_connectors (update_where (sees_connector org id) (rewritten now c) (s_connectors s)) s in
  let s := bumpServersTx now org id s in
  let after := with_version (cn_Version c + 1) c in
  s ← record rc now newID org KindConnector id "update" (connector_json after) (changes (connector_json before) (connector_json after)) (ui_ActorID in_) s;
  Ok (s, tt).

(** [Update]. *)
Definition Update_connector (now : Z) (newID org id : string) (in_ : UpdateInput) (others : store -> store) (s : store) : store * result store_error Connector :=
  let '(s, r) := tx org s (Update_tx now newID org id in_) in
  (s, _ ← r; Get_connector org id (others s)).

(** [Delete]. *)
Definition Delete_connector (now : Z) (newID org id actor : string) (s : store) : store * result store_error unit :=
  tx org s (fun s =>
    c ← lockConnector org id s;
    s ← record rc now newID org KindConnector id "delete" (connector_json c) (deleted (connector_json c)) actor (deleteConnectorRow org id s);
    Ok (s, tt)).
End connectors.

(** ** What a call and a sign-in upstream take *)

(** [upstreamauth.Token]. *)
Record Token : Type := mkToken { to_Access : string; to_Refresh : string; to_ExpiresAt : Z; to_Extra : list (string * string) }.

Record Resolved : Type := mkResolved { rd_Connector : EngineConnector; rd_Env : gmap string string }.

(** [strings.TrimPrefix]. *)
Definition TrimPrefix (s p : string) : string := if HasPrefix s p then str_drop (String.length p) s else s.

Definition envName (s : string) : string :=
  let s := TrimSpace s in
  if HasPrefix s "{{env." && HasSuffix s "}}" then TrimSpace (TrimSuffix (TrimPrefix s "{{env.") "}}") else "".

Section use.
Context `{Definitions} `{Encoding} `{Sealer}.
(** The JSON of a token without its expiry, which is a column. *)
Context (MarshalToken : Token -> result string string) (UnmarshalToken : string -> result string Token).

Fixpoint open_all (org cid : string) (rows : list credential_row) (env : gmap string string) : result store_error (gmap string string) :=
  match rows with
  | [] => Ok env
  | d :: rows =>
      match Unseal org (cd_Value d) (credential_aad org cid (cd_Name d)) with
      | Err e => Err (ErrDecryptCredential (cd_Name d) e)
      | Ok pt => open_all org cid rows (<[cd_Name d := pt]> env)
      end
  end.

Definition credential_rows (org cid : string) (s : store) : list credential_row :=
  List.filter (fun d => String.eqb (cd_OrgID d) org && String.eqb (cd_ConnectorID d) cid) (s_credentials s).

Definition engine_connector (c : Connector) : EngineConnector :=
  mkEngineConnector (cn_ID c) (cn_Version c) (tr_Type (cn_Transport c)) (tr_BaseURL (cn_Transport c)) (tr_DSN (cn_Transport c))
    (tr_Driver (cn_Transport c)) (tr_Headers (cn_Transport c)) (cn_Auth c) [] (cn_ReadOnly c).

Definition Resolve (org id : string) (s : store) : result store_error Resolved :=
  if String.eqb org "" then Err ErrNoOrganization
  else
    c ← lockConnector org id s;
    env ← open_all org id (credential_rows org id s) ∅;
    if negb (cn_Enabled c) then Err ErrDisabled
    else Ok (mkResolved (engine_connector c) env).

Definition find_token (org id : string) (s : store) : option token_row :=
  List.find (fun k => String.eqb (tk_OrgID k) org && String.eqb (tk_ConnectorID k) id) (s_tokens s).

(** [TokenStore.Get]; no row is [None]. *)
Definition Get_token (org id : string) (s : store) : result store_error (option Token) :=
  if String.eqb org "" then Err ErrNoOrganization
  else match find_token org id s with
       | None => Ok None
       | Some k =>
           match Unseal org (tk_Token k) (token_aad org id) with
           | Err e => Err (ErrDecryptToken e)
           | Ok pt =>
               match UnmarshalToken pt with
               | Err e => Err (ErrToken e)
               | Ok t => Ok (Some (mkToken (to_Access t) (to_Refresh t) (tk_ExpiresAt k) (to_Extra t)))
               end
           end
       end.

Definition Put_token (nonce org id : string) (t : Token) (s : store) : store * result store_error unit :=
  match MarshalToken t with
  | Err e => (s, Err (ErrToken e))
  | Ok pt =>
      match Seal nonce org pt (token_aad org id) with
      | Err e => (s, Err (ErrSeal e))
      | Ok ct =>
          tx org s (fun s =>
            if negb (existsb (fun c => String.eqb (cr_ID c) id) (s_connectors s)) then Err (ErrConstraint "connector_tokens_connector_id_fkey")
            else
              let mine k := String.eqb (tk_ConnectorID k) id in
              Ok (set_tokens (if existsb mine (s_tokens s)
                              then update_where mine (fun k => mkTokenRow (tk_ConnectorID k) (tk_OrgID k) ct (to_ExpiresAt t)) (s_tokens s)
                              else s_tokens s ++ [mkTokenRow id org ct (to_ExpiresAt t)]) s, tt))
      end
  end.

Definition Delete_token (org id : string) (s : store) : store * result store_error unit :=
  tx org s (fun s => Ok (set_tokens (delete_where (fun k => String.eqb (tk_OrgID k) org && String.eqb (tk_ConnectorID k) id) (s_tokens s)) s, tt)).

(** [RotateRefreshToken]: [Get], then [SetCredentials]; [others] ran
    between. *)
Definition RotateRefreshToken (now : Z) (nonces : nat -> string) (org id refreshToken : string) (others : store -> store) (s : store) :
    store * result store_error unit :=
  match Get_connector org id s with
  | Err e => (s, Err e)
  | Ok c =>
      let name := envName (au_RefreshToken (cn_Auth c)) in
      if String.eqb name "" then (s, Ok tt)
      else SetCredentials now nonces org id [(name, refreshToken)] 0 (others s)
  end.
End use.
