(* ===== verification/Resync.v ===== *)
(** * Resync: bringing a catalogue connector up to date (internal/connector/resync.go)

    The comparison of a connector with the adapter bundled in the running
    binary, and the transaction that applies it: tools added, rewritten and
    removed, the instructions and the catalogue hash replaced.  The bundled
    catalogue is an argument, as is what JSON with numbers kept as written
    decodes to and how it is indented. *)
From S2P Require Import Prelude Tables GoStrings Sha256 Float64 Regex Values AuditEvents Secrets Authz Adapter Engine Calls Redact ApprovalRules Approvals Revisions ConnectorStore.

Open Scope list_scope.

Inductive resync_error : Type :=
| ErrNotFromCatalog | ErrNotInCatalog | ErrCatalogNotBehind | ErrResyncStale | ErrCatalog (e : string)
| ErrCompare (what : string) | ErrRefused (e : string) | ErrStore (e : store_error).

(** [adapter.IndexEntry], the part a re-sync reads. *)
Record IndexEntry : Type := mkIndexEntry { ie_ContentHash : string; ie_PreviousHashes : list string }.

Definition Precedes (e : IndexEntry) (hash : string) : bool :=
  negb (String.eqb hash "") && negb (String.eqb hash (ie_ContentHash e)) && existsb (String.eqb hash) (ie_PreviousHashes e).

(** What the bundled catalogue answers for a slug. *)
Inductive bundle : Type := Bundled (a : AdapterDoc) (e : IndexEntry) | NoSuchAdapter | BundleFailed (e : string).

(** The document [ContentHash] of pkg/adapter encodes: of the transport and
    the auth not everything, of the credentials nothing; the tools in the
    order of their names. *)
Record hashed_doc : Type := mkHashed {
  hd_Instructions : string;
  hd_Transport : string * string * string;
  hd_Auth : string;
  hd_Tools : list Tool;
}.

Definition tool_before (a b : Tool) : Prop := String.leb (to_Name a) (to_Name b) = true.

#[export] Instance tool_before_dec : RelDecision tool_before.
Proof. intros a b. unfold tool_before. apply bool_eq_dec. Defined.

Definition hashed (a : AdapterDoc) : hashed_doc :=
  mkHashed (ad_Instructions a) (tr_Type (ad_Transport a), tr_BaseURL (ad_Transport a), tr_DSN (ad_Transport a)) (au_Type (ad_Auth a))
    (merge_sort tool_before (ad_Tools a)).

(** The first twelve hexadecimal digits of the digest of the canonical JSON:
    48 bits. *)
Definition adapter_ContentHash (canonical : hashed_doc -> result string string) (a : AdapterDoc) : result string string :=
  text ← canonical (hashed a); Ok (str_take 12 (hex (sha256 text))).

(** The index names each adapter by its hash ([BuildIndex]). *)
Definition indexed (canonical : hashed_doc -> result string string) (b : string -> bundle) : Prop :=
  forall slug a e, b slug = Bundled a e -> adapter_ContentHash canonical a = Ok (ie_ContentHash e).

Inductive skip_reason : Type := SkipEdited | SkipCustom.
Inductive change_kind : Type := ChangeAdd | ChangeUpdate | ChangeRemove.

(** A tool a re-sync adds, rewrites or removes; the id is empty for one not
    yet added. *)
Record ResyncTool : Type := mkResyncTool {
  rt_Name : string;
  rt_ToolID : string;
  rt_Changed : list string;
  rt_Before : option StoredTool;
  rt_After : option Tool;
}.

Record SkippedTool : Type := mkSkipped { sk_Name : string; sk_ToolID : string; sk_Reason : skip_reason; sk_Change : change_kind }.

Record FieldChange : Type := mkFieldChange { fc_Field : string; fc_Before : string; fc_After : string }.

Record ResyncPlan : Type := mkPlan {
  pn_Connector : Connector;
  pn_BundledHash : string;
  pn_Add : list ResyncTool;
  pn_Update : list ResyncTool;
  pn_Remove : list ResyncTool;
  pn_Skipped : list SkippedTool;
  pn_Relabel : list ResyncTool;
  pn_Fields : list FieldChange;
  pn_NotApplied : list FieldChange;
  pn_MissingCredentials : list string;
  pn_Instructions : string;
  pn_entry : IndexEntry;
}.

Definition Outdated (p : ResyncPlan) : bool := Precedes (pn_entry p) (cn_CatalogHash (pn_Connector p)).

Definition Empty (p : ResyncPlan) : bool :=
  match pn_Add p, pn_Update p, pn_Remove p, pn_Relabel p, pn_Fields p with [], [], [], [], [] => true | _, _, _, _, _ => false end.

(** [skipReason]. *)
Definition skipReason (t : StoredTool) : option skip_reason :=
  if String.eqb (st_Source t) "custom" then Some SkipCustom
  else match st_EditedAt t with Some _ => Some SkipEdited | None => None end.

(** The JSON the comparison needs: a decoder that keeps numbers as written,
    the indented encoding, and the text of a transport and an auth. *)
Class Comparison : Type := {
  cp_decode : string -> result string (list (string * value));
  cp_indent : value -> result string string;
  cp_transport : Transport -> result string string;
  cp_auth : Auth -> result string string;
}.

Section compare.
Context `{Definitions} `{Encoding} `{Comparison}.

(** [definitionFields]. *)
Definition definitionFields (t : option Tool) : result string (list (string * value)) :=
  match t with
  | None => Err "nil"
  | Some t => match df_JSON t with Ok raw => cp_decode raw | Err e => Err e end
  end.

(** The keys of [b] that [a] lacks or has with another value, and those of
    [a] that [b] lacks. *)
Definition differing (b a : list (string * value)) : list string :=
  omap (fun e => match obj_get a e.1 with Some v => if DeepEqual e.2 v then None else Some e.1 | None => Some e.1 end) b
    ++ omap (fun e => match obj_get b e.1 with Some _ => None | None => Some e.1 end) a.

Definition str_le (a b : string) : Prop := String.leb a b = true.

#[export] Instance str_le_dec : RelDecision str_le.
Proof. intros a b. unfold str_le. apply bool_eq_dec. Defined.

Definition definitionChanges (before after : option Tool) : result string (list string) :=
  b ← definitionFields before;
  a ← definitionFields after;
  Ok (merge_sort str_le (differing b a)).

Definition canonicalText (raw : result string string) : result string string :=
  r ← raw; m ← cp_decode r; cp_indent (VMap m).

Definition redactedText (raw : result string string) : result string string :=
  r ← raw; m ← cp_decode r; cp_indent (RedactConfig en_lower (VMap m)).

(** ** The plan *)

(** The plan being made, with its lists in the order they are filled. *)
Record lists : Type := mkLists {
  l_Add : list ResyncTool; l_Update : list ResyncTool; l_Remove : list ResyncTool; l_Skipped : list SkippedTool; l_Relabel : list ResyncTool }.

(** The stored tool of a name: the last one read with it. *)
Definition stored_as (stored : list StoredTool) (name : string) : option StoredTool :=
  List.find (fun t => String.eqb (st_Name t) name) (rev stored).

(** One turn of the loop over the bundled tools. *)
Definition plan_bundled (stored : list StoredTool) (l : lists) (b : Tool) : result resync_error lists :=
  match stored_as stored (to_Name b) with
  | None => Ok (mkLists (l_Add l ++ [mkResyncTool (to_Name b) "" [] None (Some b)]) (l_Update l) (l_Remove l) (l_Skipped l) (l_Relabel l))
  | Some st =>
      match definitionChanges (st_Definition st) (Some b) with
      | Err e => Err (ErrCompare ("tool " +:+ to_Name b +:+ ": " +:+ e))
      | Ok changed =>
          let relabel := if String.eqb (st_Source st) "import" && is_null (st_EditedAt st)
                         then l_Relabel l ++ [mkResyncTool (st_Name st) (st_ID st) [] (Some st) None] else l_Relabel l in
          match changed, skipReason st with
          | [], _ => Ok (mkLists (l_Add l) (l_Update l) (l_Remove l) (l_Skipped l) relabel)
          | _, Some SkipCustom =>
              Ok (mkLists (l_Add l) (l_Update l) (l_Remove l) (l_Skipped l ++ [mkSkipped (st_Name st) (st_ID st) SkipCustom ChangeAdd]) relabel)
          | _, Some SkipEdited =>
              Ok (mkLists (l_Add l) (l_Update l) (l_Remove l) (l_Skipped l ++ [mkSkipped (st_Name st) (st_ID st) SkipEdited ChangeUpdate]) relabel)
          | _, None =>
              Ok (mkLists (l_Add l) (l_Update l ++ [mkResyncTool (st_Name st) (st_ID st) changed (Some st) (Some b)]) (l_Remove l) (l_Skipped l) relabel)
          end
      end
  end.

Fixpoint plan_all (stored : list StoredTool) (l : lists) (bs : list Tool) : result resync_error lists :=
  match bs with [] => Ok l | b :: bs => l ← plan_bundled stored l b; plan_all stored l bs end.

(** One turn of the loop over the stored tools. *)
Definition plan_stored (bundled : list Tool) (l : lists) (st : StoredTool) : lists :=
  if existsb (fun b => String.eqb (to_Name b) (st_Name st)) bundled then l
  else match skipReason st with
       | Some SkipCustom => l
       | Some SkipEdited =>
           mkLists (l_Add l) (l_Update l) (l_Remove l) (l_Skipped l ++ [mkSkipped (st_Name st) (st_ID st) SkipEdited ChangeRemove]) (l_Relabel l)
       | None => mkLists (l_Add l) (l_Update l) (l_Remove l ++ [mkResyncTool (st_Name st) (st_ID st) [] (Some st) None]) (l_Skipped l) (l_Relabel l)
       end.

(** One setting that is shown and not applied. *)
Definition not_applied (name : string) (before after : result string string) : result resync_error (list FieldChange) :=
  match canonicalText before, canonicalText after with
  | Ok b, Ok a =>
      if String.eqb b a then Ok []
      else match redactedText before, redactedText after with
           | Ok b, Ok a => Ok [mkFieldChange name b a]
           | _, _ => Err (ErrCompare name)
           end
  | _, _ => Err (ErrCompare name)
  end.

Definition tool_name_le (a b : ResyncTool) : Prop := str_le (rt_Name a) (rt_Name b).
Definition skipped_name_le (a b : SkippedTool) : Prop := str_le (sk_Name a) (sk_Name b).

#[export] Instance tool_name_le_dec : RelDecision tool_name_le := fun a b => str_le_dec _ _.
#[export] Instance skipped_name_le_dec : RelDecision skipped_name_le := fun a b => str_le_dec _ _.

(** [planResync]; [creds] are the names of the stored credentials. *)
Definition planResync (c : Connector) (stored : list StoredTool) (creds : list string) (a : AdapterDoc) (e : IndexEntry) : result resync_error ResyncPlan :=
  l ← plan_all stored (mkLists [] [] [] [] []) (ad_Tools a);
  let l := foldl (plan_stored (ad_Tools a)) l stored in
  let fields := if String.eqb (cn_Instructions c) (ad_Instructions a) then []
                else [mkFieldChange "instructions" (cn_Instructions c) (ad_Instructions a)] in
  t ← not_applied "transport" (cp_transport (cn_Transport c)) (cp_transport (ad_Transport a));
  u ← not_applied "auth" (cp_auth (cn_Auth c)) (cp_auth (ad_Auth a));
  Ok (mkPlan c (ie_ContentHash e) (merge_sort tool_name_le (l_Add l)) (merge_sort tool_name_le (l_Update l)) (l_Remove l)
        (merge_sort skipped_name_le (l_Skipped l)) (l_Relabel l) fields (t ++ u)
        (map fst (List.filter (fun k => cs_Required k.2 && negb (existsb (String.eqb k.1) creds)) (ad_Credentials a)))
        (ad_Instructions a) e).

Definition of_store {A} (r : result store_error A) : result resync_error A := match r with Ok a => Ok a | Err e => Err (ErrStore e) end.

(** [planResyncTx]; the tools and the credentials are read in two
    statements. *)
Definition planResyncTx (bundled : string -> bundle) (org : string) (c : Connector) (s creds : store) : result resync_error ResyncPlan :=
  if String.eqb (cn_CatalogSlug c) "" then Err ErrNotFromCatalog
  else match bundled (cn_CatalogSlug c) with
       | NoSuchAdapter => Err ErrNotInCatalog
       | BundleFailed e => Err (ErrCatalog e)
       | Bundled a e =>
           if negb (String.eqb (cn_CatalogHash c) (ie_ContentHash e)) && negb (Precedes e (cn_CatalogHash c)) then Err ErrCatalogNotBehind
           else
             stored ← of_store (scan_all (tools_of org (cn_ID c) s));
             planResync c stored (credential_names org (cn_ID c) creds) a e
       end.

(** [PlanResync]: the connector, the tools and the credentials are read one
    after the other without a lock, from the store as it is at each. *)
Definition PlanResync (bundled : string -> bundle) (org id : string) (s s1 s2 : store) : result resync_error ResyncPlan :=
  if String.eqb org "" then Err (ErrStore ErrNoOrganization)
  else c ← of_store (lockConnector org id s); planResyncTx bundled org c s1 s2.
End compare.

(** ** Applying it *)

Definition resync_row (now : Z) (text : string) (t : tool_row) : tool_row :=
  mkToolRow (tl_ID t) (tl_ConnectorID t) (tl_OrgID t) (tl_Name t) text (tl_OperationID t) (tl_Enabled t) (tl_DeprecatedAt t)
    (tl_Version t + 1) "catalog" (tl_EditedAt t) (tl_EditedBy t) (tl_CreatedAt t) now.

Definition relabelled (t : tool_row) : tool_row :=
  mkToolRow (tl_ID t) (tl_ConnectorID t) (tl_OrgID t) (tl_Name t) (tl_Definition t) (tl_OperationID t) (tl_Enabled t) (tl_DeprecatedAt t)
    (tl_Version t) "catalog" (tl_EditedAt t) (tl_EditedBy t) (tl_CreatedAt t) (tl_UpdatedAt t).

Definition resynced (now : Z) (instructions hash : string) (x : connector_row) : connector_row :=
  mkConnectorRow (cr_ID x) (cr_OrgID x) (cr_Name x) (cr_Transport x) (cr_Auth x) instructions (cr_CatalogSlug x) (Some hash)
    (cr_ReadOnly x) (cr_Enabled x) (cr_Version x + 1) (cr_CreatedBy x) (cr_CreatedAt x) now.

Definition any_of (org : string) (ids : list string) (t : tool_row) : bool := String.eqb (tl_OrgID t) org && existsb (String.eqb (tl_ID t)) ids.

Section apply.
Context `{Definitions} `{Encoding} `{Comparison} (rc : recorder).

(** The inserts, with the ids the service draws. *)
Fixpoint add_tools (now : Z) (ids : nat -> string) (c : Connector) (ts : list ResyncTool) (s : store) : result store_error (store * list ResyncTool) :=
  match ts with
  | [] => Ok (s, [])
  | t :: ts =>
      match rt_After t with
      | None => Err (ErrEncodeTool (rt_Name t))
      | Some def =>
          text ← encode_tool def;
          s ← insertToolRow now (ids 0) c (rt_Name t) text "catalog" true s;
          rest ← add_tools now (fun i => ids (S i)) c ts s;
          Ok (rest.1, mkResyncTool (rt_Name t) (ids 0) (rt_Changed t) (rt_Before t) (rt_After t) :: rest.2)
      end
  end.

Fixpoint rewrite_tools (now : Z) (org : string) (ts : list ResyncTool) (s : store) : result store_error store :=
  match ts with
  | [] => Ok s
  | t :: ts =>
      match rt_After t with
      | None => Err (ErrEncodeTool (rt_Name t))
      | Some def =>
          text ← encode_tool def;
          rewrite_tools now org ts (set_tools (update_where (sees_tool org (rt_ToolID t)) (resync_row now text) (s_tools s)) s)
      end
  end.

Definition definition_of (t : ResyncTool) : option Tool := match rt_Before t with Some b => st_Definition b | None => None end.

(** The tools whose calls would do something else. *)
Definition changed_behaviour (ts : list ResyncTool) : list string :=
  map rt_ToolID (List.filter (fun t => BehaviourChanged (definition_of t) (rt_After t)) ts).

Definition cancel_all (now : Z) (org reason : string) (ids : list string) (s : store) : store :=
  foldl (fun s id => cancelApprovals now org id reason s) s ids.

(** The deletes of tools and of their access rules. *)
Definition remove_tools (org : string) (ids : list string) (s : store) : store :=
  let s := foldl (fun s id => deleteToolRow org id s) s ids in
  set_access (delete_where (fun r => String.eqb (ac_OrgID r) org && existsb (String.eqb (ac_ToolID r)) ids) (s_access s)) s.

Definition before_revision (t : ResyncTool) : result store_error toolRevision :=
  match rt_Before t with Some b => snapshotTool b | None => Err (ErrEncodeTool (rt_Name t)) end.

Fixpoint record_added (now : Z) (ids : nat -> string) (org cid actor : string) (ts : list ResyncTool) (s : store) : result store_error store :=
  match ts with
  | [] => Ok s
  | t :: ts =>
      snap ← snapshotTool (mkStoredTool (rt_ToolID t) cid (rt_Name t) (rt_After t) "" true None 1 "catalog" None "" 0 0);
      s ← record rc now (ids 0) org KindTool (rt_ToolID t) "create" (tool_json snap) (created (tool_json snap)) actor s;
      record_added now (fun i => ids (S i)) org cid actor ts s
  end.

Definition after_revision (b : toolRevision) (text : string) : toolRevision :=
  mkToolRevision (tv_ID b) (tv_ConnectorID b) (tv_Name b) "catalog" (tv_Enabled b) (tv_Version b + 1) text.

Fixpoint record_updated (now : Z) (ids : nat -> string) (org actor : string) (ts : list ResyncTool) (s : store) : result store_error store :=
  match ts with
  | [] => Ok s
  | t :: ts =>
      b ← before_revision t;
      text ← match rt_After t with Some def => encode_tool def | None => Err (ErrEncodeTool (rt_Name t)) end;
      let a := after_revision b text in
      s ← record_change rc now ids org "update" actor b a (changes (tool_json b) (tool_json a)) s;
      record_updated now (fun i => ids (2 + i)) org actor ts s
  end.

Fixpoint record_removed (now : Z) (ids : nat -> string) (org actor : string) (ts : list ResyncTool) (s : store) : result store_error store :=
  match ts with
  | [] => Ok s
  | t :: ts =>
      b ← before_revision t;
      s ← record_change rc now ids org "delete" actor b b (deleted (tool_json b)) s;
      record_removed now (fun i => ids (2 + i)) org actor ts s
  end.

Definition removed_enabled (ts : list ResyncTool) : nat :=
  length (List.filter (fun t => match rt_Before t with Some b => st_Enabled b | None => false end) ts).

(** The connector after a re-sync, as its revision shows it. *)
Definition resynced_connector (p : ResyncPlan) : Connector :=
  let c := pn_Connector p in
  mkConnector (cn_ID c) (cn_OrgID c) (cn_Name c) (cn_Transport c) (cn_Auth c) (pn_Instructions p) (cn_CatalogSlug c) (pn_BundledHash p)
    (cn_ReadOnly c) (cn_Enabled c) (cn_Version c + 1) (cn_ToolCount c + Z.of_nat (length (pn_Add p)) - Z.of_nat (removed_enabled (pn_Remove p)))
    (cn_Credentials c) (cn_CreatedAt c) (cn_UpdatedAt c) (cn_TokenStored c).

(** [recordResync]; four streams of ids name the revisions. *)
Definition recordResync (now : Z) (ids : nat -> nat -> string) (org actor : string) (p : ResyncPlan) (s : store) : result store_error store :=
  let after := resynced_connector p in
  let id := cn_ID (pn_Connector p) in
  s ← record rc now (ids 0 0) org KindConnector id "update" (connector_json after) (changes (connector_json (pn_Connector p)) (connector_json after)) actor s;
  s ← record_added now (ids 1) org id actor (pn_Add p) s;
  s ← record_updated now (ids 2) org actor (pn_Update p) s;
  record_removed now (ids 3) org actor (pn_Remove p) s.

Definition with_added (l : list ResyncTool) (p : ResyncPlan) : ResyncPlan :=
  mkPlan (pn_Connector p) (pn_BundledHash p) l (pn_Update p) (pn_Remove p) (pn_Skipped p) (pn_Relabel p) (pn_Fields p) (pn_NotApplied p)
    (pn_MissingCredentials p) (pn_Instructions p) (pn_entry p).

(** The statements of the batch, in their order. *)
Definition write_plan (now : Z) (ids : nat -> string) (org : string) (p : ResyncPlan) (s : store) : result store_error (store * ResyncPlan) :=
  let c := pn_Connector p in
  added ← add_tools now ids c (pn_Add p) s;
  s ← rewrite_tools now org (pn_Update p) added.1;
  let s := cancel_all now org "the tool's definition changed" (changed_behaviour (pn_Update p)) s in
  let removed := map rt_ToolID (pn_Remove p) in
  let s := cancel_all now org "the tool was removed from the catalog adapter" removed (remove_tools org removed s) in
  let s := set_tools (update_where (any_of org (map rt_ToolID (pn_Relabel p))) relabelled (s_tools s)) s in
  let s := set_connectors (update_where (sees_connector org (cn_ID c)) (resynced now (pn_Instructions p) (pn_BundledHash p)) (s_connectors s)) s in
  Ok (bumpServersTx now org (cn_ID c) s, with_added added.2 p).

(** [applyResyncTx]. *)
Definition applyResyncTx (now : Z) (ids : nat -> nat -> string) (org actor : string) (p : ResyncPlan) (s : store) : result store_error (store * ResyncPlan) :=
  w ← write_plan now (ids 4) org p s;
  s ← recordResync now ids org actor w.2 w.1;
  Ok (s, w.2).

Record ResyncInput : Type := mkResyncInput {
  ri_CatalogHash : string;
  ri_ExpectedVersion : Z;
  ri_ActorID : string;
  ri_Authorize : option (ResyncPlan -> option string);
}.

(** What the transaction's function answers. *)
Definition ApplyResync_tx (now : Z) (ids : nat -> nat -> string) (bundled : string -> bundle) (org id : string) (in_ : ResyncInput) (s : store) :
    result resync_error (store * ResyncPlan) :=
  if (ri_ExpectedVersion in_ =? 0)%Z then Err ErrResyncStale
  else match lockConnectorAt org id (ri_ExpectedVersion in_) s with
       | Err (ErrVersionConflict _ _) => Err ErrResyncStale
       | Err e => Err (ErrStore e)
       | Ok c =>
           p ← planResyncTx bundled org c s s;
           if negb (String.eqb (pn_BundledHash p) (ri_CatalogHash in_)) then Err ErrResyncStale
           else if Empty p && negb (Outdated p) then Ok (s, p)
           else match match ri_Authorize in_ with Some f => f p | None => None end with
                | Some e => Err (ErrRefused e)
                | None => of_store (applyResyncTx now ids org (ri_ActorID in_) p s)
                end
       end.

(** [ApplyResync]. *)
Definition ApplyResync (now : Z) (ids : nat -> nat -> string) (bundled : string -> bundle) (org id : string) (in_ : ResyncInput) (s : store) :
    store * result resync_error ResyncPlan :=
  if String.eqb org "" then (s, Err (ErrStore ErrNoOrganization))
  else match ApplyResync_tx now ids bundled org id in_ s with
       | Ok (s', p) => (s', Ok p)
       | Err e => (s, Err e)
       end.
End apply.

(** ** What a plan lists *)

Section plans.
Context `{Definitions} `{Encoding} `{Comparison}.

Definition added_of (bs : list Tool) (stored : list StoredTool) (t : ResyncTool) : Prop :=
  exists b, b ∈ bs /\ t = mkResyncTool (to_Name b) "" [] None (Some b) /\ stored_as stored (to_Name b) = None.

Definition updated_of (bs : list Tool) (stored : list StoredTool) (t : ResyncTool) : Prop :=
  exists b st changed, b ∈ bs /\ stored_as stored (to_Name b) = Some st /\ definitionChanges (st_Definition st) (Some b) = Ok changed /\
    changed <> [] /\ skipReason st = None /\ t = mkResyncTool (st_Name st) (st_ID st) changed (Some st) (Some b).

Definition relabelled_of (bs : list Tool) (stored : list StoredTool) (t : ResyncTool) : Prop :=
  exists b st, b ∈ bs /\ stored_as stored (to_Name b) = Some st /\ st_Source st = "import" /\ st_EditedAt st = None /\
    t = mkResyncTool (st_Name st) (st_ID st) [] (Some st) None.

Definition removed_of (bs : list Tool) (stored : list StoredTool) (t : ResyncTool) : Prop :=
  exists st, st ∈ stored /\ existsb (fun b => String.eqb (to_Name b) (st_Name st)) bs = false /\ skipReason st = None /\
    t = mkResyncTool (st_Name st) (st_ID st) [] (Some st) None.

(** The lists hold exactly what the bundled tools [bs] and the stored tools
    [sts] seen so far put there. *)
Record listed (stored : list StoredTool) (all bs : list Tool) (sts : list StoredTool) (l : lists) : Prop := {
  li_add t : t ∈ l_Add l <-> added_of bs stored t;
  li_update t : t ∈ l_Update l <-> updated_of bs stored t;
  li_relabel t : t ∈ l_Relabel l <-> relabelled_of bs stored t;
  li_remove t : t ∈ l_Remove l <-> removed_of all sts t;
}.

Lemma is_null_None {A} (x : option A) : is_null x = true <-> x = None.
Proof. by destruct x. Qed.

(** One bundled tool more. *)
Lemma one_more {X} (P : list Tool -> X -> Prop) (Q : Tool -> X -> Prop) bs b t :
  (forall bs t, P bs t <-> exists b, b ∈ bs /\ Q b t) -> P (bs ++ [b]) t <-> P bs t \/ Q b t.
Proof.
  intros HP. rewrite !HP. split.
  - intros (x & Hx & q). apply elem_of_app in Hx as [Hx|Hx]; [left; eauto|]. apply list_elem_of_singleton in Hx as ->. by right.
  - intros [(x & Hx & q)|q]; [exists x|exists b]; (split; [|done]); apply elem_of_app; [by left|right; by apply list_elem_of_singleton].
Qed.

Definition add_one stored b t : Prop := t = mkResyncTool (to_Name b) "" [] None (Some b) /\ stored_as stored (to_Name b) = None.
Definition update_one stored b t : Prop :=
  exists st changed, stored_as stored (to_Name b) = Some st /\ definitionChanges (st_Definition st) (Some b) = Ok changed /\
    changed <> [] /\ skipReason st = None /\ t = mkResyncTool (st_Name st) (st_ID st) changed (Some st) (Some b).
Definition relabel_one stored b t : Prop :=
  exists st, stored_as stored (to_Name b) = Some st /\ st_Source st = "import" /\ st_EditedAt st = None /\
    t = mkResyncTool (st_Name st) (st_ID st) [] (Some st) None.

Lemma added_split stored bs b t : added_of (bs ++ [b]) stored t <-> added_of bs stored t \/ add_one stored b t.
Proof. apply (one_more (fun bs t => added_of bs stored t) (add_one stored)). done. Qed.

Lemma updated_split stored bs b t : updated_of (bs ++ [b]) stored t <-> updated_of bs stored t \/ update_one stored b t.
Proof. apply (one_more (fun bs t => updated_of bs stored t) (update_one stored)). unfold updated_of, update_one. naive_solver. Qed.

Lemma relabelled_split stored bs b t : relabelled_of (bs ++ [b]) stored t <-> relabelled_of bs stored t \/ relabel_one stored b t.
Proof. apply (one_more (fun bs t => relabelled_of bs stored t) (relabel_one stored)). unfold relabelled_of, relabel_one. naive_solver. Qed.

Lemma elem_snoc {X} (x y : X) l : x ∈ l ++ [y] <-> x ∈ l \/ x = y.
Proof. rewrite elem_of_app, list_elem_of_singleton. done. Qed.

Lemma plan_bundled_listed stored all bs sts l b l' : plan_bundled stored l b = Ok l' -> listed stored all bs sts l -> listed stored all (bs ++ [b]) sts l'.
Proof.
  unfold plan_bundled. intros E [A U L M]. destruct (stored_as stored (to_Name b)) as [st|] eqn:S.
  2: { injection E as <-. split; intros t; cbn; rewrite ?elem_snoc, ?added_split, ?updated_split, ?relabelled_split, ?A, ?U, ?L, ?M;
       unfold add_one, update_one, relabel_one; rewrite ?S; naive_solver. }
  destruct (definitionChanges _ _) as [changed|e] eqn:Ch; [|done].
  set (rl := if _ && _ then _ else _) in E.
  assert (forall t, t ∈ rl <-> relabelled_of (bs ++ [b]) stored t) as Hrl.
  { intros t. subst rl. rewrite relabelled_split, <- L. unfold relabel_one. rewrite S. destruct (_ && _) eqn:C.
    - bool_prop. rewrite is_null_None in *. rewrite elem_snoc. naive_solver.
    - split; [by left|]. intros [?|(st' & [= <-] & Hs & He & _)]; [done|]. exfalso.
      rewrite Hs, He in C. done. }
  assert (forall t, t ∈ l_Add l <-> added_of (bs ++ [b]) stored t) as Ha.
  { intros t. rewrite added_split, <- A. unfold add_one. rewrite S. naive_solver. }
  assert (forall t, update_one stored b t <-> changed <> [] /\ skipReason st = None /\ t = mkResyncTool (st_Name st) (st_ID st) changed (Some st) (Some b)) as Hu.
  { intros t. unfold update_one. rewrite S. split; [intros (st' & ch & [= <-] & Ech & ? & ? & ->)|].
    - rewrite Ch in Ech. by injection Ech as <-.
    - intros (? & ? & ->). by exists st, changed. }
  destruct changed as [|ch chs] eqn:Ec; [|destruct (skipReason st) as [[]|] eqn:Sk]; injection E as <-; split; intros t; cbn; try done;
    rewrite ?elem_snoc, updated_split, U, Hu; naive_solver.
Qed.

Lemma plan_stored_listed stored all bs sts l st : listed stored all bs sts l -> listed stored all bs (sts ++ [st]) (plan_stored all l st).
Proof.
  intros [A U L M]. assert (forall t, removed_of all (sts ++ [st]) t <-> removed_of all sts t \/
    (existsb (fun b => String.eqb (to_Name b) (st_Name st)) all = false /\ skipReason st = None /\
     t = mkResyncTool (st_Name st) (st_ID st) [] (Some st) None)) as Hm.
  { intros t. unfold removed_of. split.
    - intros (x & Hx & R). apply elem_snoc in Hx as [Hx| ->]; [left; eauto|by right].
    - intros [(x & Hx & R)|R]; [exists x|exists st]; (split; [|done]); apply elem_snoc; [by left|by right]. }
  unfold plan_stored. destruct (existsb _ all) eqn:E; [|destruct (skipReason st) as [[]|] eqn:Sk]; split; intros t; cbn; try done;
    rewrite ?elem_snoc, Hm, <- M; naive_solver.
Qed.

Lemma plan_all_listed stored all : forall rest bs l l', plan_all stored l rest = Ok l' -> listed stored all bs [] l -> listed stored all (bs ++ rest) [] l'.
Proof.
  induction rest as [|b rest IH]; intros bs l l' E L; cbn in E; [injection E as <-; by rewrite app_nil_r|].
  apply bind_ok in E as (l1 & E1 & E2). rewrite cons_middle, app_assoc. apply (IH _ _ _ E2). by eapply plan_bundled_listed.
Qed.

Lemma plan_stored_all stored all bs : forall rest sts l, listed stored all bs sts l -> listed stored all bs (sts ++ rest) (foldl (plan_stored all) l rest).
Proof.
  induction rest as [|st rest IH]; intros sts l L; cbn; [by rewrite app_nil_r|]. rewrite cons_middle, app_assoc. apply IH. by apply plan_stored_listed.
Qed.

(** What a plan does, tool by tool. *)
Lemma planResync_ok c stored creds a e p : planResync c stored creds a e = Ok p ->
  pn_Connector p = c /\ pn_BundledHash p = ie_ContentHash e /\ pn_Instructions p = ad_Instructions a /\ pn_entry p = e /\
  (forall t, t ∈ pn_Add p <-> added_of (ad_Tools a) stored t) /\ (forall t, t ∈ pn_Update p <-> updated_of (ad_Tools a) stored t) /\
  (forall t, t ∈ pn_Relabel p <-> relabelled_of (ad_Tools a) stored t) /\ (forall t, t ∈ pn_Remove p <-> removed_of (ad_Tools a) stored t) /\
  (pn_Fields p = [] <-> cn_Instructions c = ad_Instructions a).
Proof.
  unfold planResync. intros E. apply bind_ok in E as (l & El & E). apply bind_ok in E as (t & _ & E). apply bind_ok in E as (u & _ & E).
  injection E as <-. cbn.
  assert (listed stored (ad_Tools a) [] [] (mkLists [] [] [] [] [])) as L0.
  { split; intros t'; cbn; rewrite elem_of_nil; (split; [done|]); [intros (? & ?%elem_of_nil & _)|intros (? & ? & ? & ?%elem_of_nil & _)|
      intros (? & ? & ?%elem_of_nil & _)|intros (? & ?%elem_of_nil & _)]; done. }
  destruct (plan_stored_all _ _ _ stored [] _ (plan_all_listed _ _ _ _ _ _ El L0)) as [A U L M]. cbn in *.
  split_and!; try done.
  - intros t'. by rewrite merge_sort_Permutation.
  - intros t'. by rewrite merge_sort_Permutation.
  - destruct (String.eqb_spec (cn_Instructions c) (ad_Instructions a)); [done|]. by split.
Qed.
End plans.
