(* ===== verification/McpServers.v ===== *)
(** * McpServers: the servers clients connect to (internal/mcpserver/mcpserver.go)

    An MCP server is a name, a slug and the connectors attached to it; what
    it serves is the enabled tools of its enabled connectors.  The rows are
    those of ConnectorStore.v; an operation is one transaction.  Row level
    security shows a transaction its organisation's rows; the route lookups
    read every organisation's. *)
From S2P Require Import Prelude Tables GoStrings Float64 Regex Values Detectors Dlp AuditEvents Authz Adapter Calls Redact Approvals Revisions ConnectorStore.

Open Scope list_scope.

Definition SessionsStateless : string := "stateless".
Definition SessionsStateful : string := "stateful".

Inductive server_error : Type :=
| ErrServerNotFound | ErrInvalidSessions | ErrServerName | ErrBadSlug | ErrSlugTaken | ErrServerStore (e : store_error).

Definition of_store {A} (r : result store_error A) : result server_error A := match r with Ok a => Ok a | Err e => Err (ErrServerStore e) end.

(** [Server]. *)
Record Server : Type := mkServer {
  sv2_ID : string;
  sv2_OrgID : string;
  sv2_Slug : string;
  sv2_Name : string;
  sv2_Instructions : string;
  sv2_Enabled : bool;
  sv2_Sessions : string;
  sv2_Version : Z;
  sv2_ConnectorIDs : list string;
  sv2_CreatedAt : Z;
  sv2_UpdatedAt : Z;
}.

(** ** Slugs *)

Definition slug_char (c : ascii) : bool := is_lower c || is_digit c.

(** [^[a-z0-9]+(-[a-z0-9]+)*$] *)
Definition reSlug : re ascii :=
  Concat [BeginText; Plus true (cls slug_char); Star true (Concat [lit "-"; Plus true (cls slug_char)]); EndText].

Definition slug_ok (s : string) : bool := match_string is_word is_nl reSlug (bytes_of s).

(** [[^a-z0-9]+]; a rune that is not ASCII is outside, byte by byte. *)
Definition reNotSlug : re ascii := Plus true (cls (fun c => negb (slug_char c))).

Fixpoint trim_left (c : ascii) (s : list ascii) : list ascii :=
  match s with x :: r => if Ascii.eqb x c then trim_left c r else s | [] => [] end.

Definition trim_right (c : ascii) (s : list ascii) : list ascii := rev (trim_left c (rev s)).

Definition slugify (map_lower : string -> string) (s : string) : string :=
  let s := bytes_of (ReplaceAllFunc reNotSlug (fun _ => "-") (ToLower map_lower (TrimSpace s))) in
  let s := trim_right "-" (trim_left "-" s) in
  let s := match s with [] => bytes_of "server" | _ => s end in
  string_of (if 48 <? length s then trim_right "-" (take 48 s) else s).

(** ** Reading *)

Definition str_le (a b : string) : Prop := String.leb a b = true.

#[export] Instance str_le_dec : RelDecision str_le.
Proof. intros a b. unfold str_le. apply bool_eq_dec. Defined.

(** [scan], with the subquery of [selectServer]: the links the transaction
    sees ([mine] says which rows it sees). *)
Definition scanServer (mine : string -> bool) (s : store) (v : server_row) : Server :=
  mkServer (se_ID v) (se_OrgID v) (se_Slug v) (se_Name v) (se_Instructions v) (se_Enabled v) (se_Sessions v) (se_Version v)
    (merge_sort str_le (map ln_ConnectorID (List.filter (fun l => mine (ln_OrgID l) && String.eqb (ln_ServerID l) (se_ID v)) (s_links s))))
    (se_CreatedAt v) (se_UpdatedAt v).

Definition sees_server (org id : string) (v : server_row) : bool := String.eqb (se_OrgID v) org && String.eqb (se_ID v) id.

Definition find_server (org id : string) (s : store) : option server_row := List.find (sees_server org id) (s_servers s).

Definition read_server (org id : string) (s : store) : result server_error Server :=
  match find_server org id s with Some v => Ok (scanServer (String.eqb org) s v) | None => Err ErrServerNotFound end.

Definition Get_server (org id : string) (s : store) : result server_error Server :=
  if String.eqb org "" then Err (ErrServerStore ErrNoOrganization) else read_server org id s.

Definition made_before (a b : server_row) : Prop := (se_CreatedAt a <= se_CreatedAt b)%Z.

#[export] Instance made_before_dec : RelDecision made_before := fun a b => Z_le_dec _ _.

(** [GetBySlugAnyOrg]: the oldest server of any organisation with the slug. *)
Definition GetBySlugAnyOrg (slug : string) (s : store) : result server_error Server :=
  match merge_sort made_before (List.filter (fun v => String.eqb (se_Slug v) slug) (s_servers s)) with
  | v :: _ => Ok (scanServer (fun _ => true) s v)
  | [] => Err ErrServerNotFound
  end.

Definition GetByIDAnyOrg (id : string) (s : store) : result server_error Server :=
  match List.find (fun v => String.eqb (se_ID v) id) (s_servers s) with
  | Some v => Ok (scanServer (fun _ => true) s v)
  | None => Err ErrServerNotFound
  end.

Definition List_servers (org : string) (s : store) : result server_error (list Server) :=
  if String.eqb org "" then Err (ErrServerStore ErrNoOrganization)
  else Ok (map (scanServer (String.eqb org) s) (rev (merge_sort made_before (List.filter (fun v => String.eqb (se_OrgID v) org) (s_servers s))))).

(** ** Writing *)

Record ServerUpdate : Type := mkServerUpdate {
  su_Name : option string;
  su_Instructions : option string;
  su_Enabled : option bool;
  su_Sessions : option string;
  su_ConnectorIDs : option (list string);
  su_ExpectedVersion : Z;
  su_ActorID : string;
}.

(** The inserts of [setConnectorsTx]: a connector the organisation does not
    have, or one named twice, is refused by the table. *)
Fixpoint attach (org sid : string) (ids : list string) (s : store) : result store_error store :=
  match ids with
  | [] => Ok s
  | cid :: ids =>
      if negb (existsb (fun c => String.eqb (cr_ID c) cid) (s_connectors s)) then Err (ErrConstraint "mcp_server_connectors_connector_id_fkey")
      else if existsb (fun l => String.eqb (ln_ServerID l) sid && String.eqb (ln_ConnectorID l) cid) (s_links s)
      then Err (ErrConstraint "mcp_server_connectors_pkey")
      else attach org sid ids (set_links (s_links s ++ [mkLinkRow sid cid org]) s)
  end.

Definition setConnectorsTx (org sid : string) (ids : list string) (s : store) : result store_error store :=
  attach org sid ids (set_links (delete_where (fun l => String.eqb (ln_OrgID l) org && String.eqb (ln_ServerID l) sid) (s_links s)) s).

Definition updated (now : Z) (v : Server) (x : server_row) : server_row :=
  mkServerRow (se_ID x) (se_OrgID x) (se_Slug x) (sv2_Name v) (sv2_Instructions v) (sv2_Enabled v) (sv2_Sessions v) (se_Version x + 1)
    (se_CreatedAt x) now.

Definition with_settings (in_ : ServerUpdate) (v : Server) : Server :=
  mkServer (sv2_ID v) (sv2_OrgID v) (sv2_Slug v) (default (sv2_Name v) (su_Name in_)) (default (sv2_Instructions v) (su_Instructions in_))
    (default (sv2_Enabled v) (su_Enabled in_)) (default (sv2_Sessions v) (su_Sessions in_)) (sv2_Version v)
    (sv2_ConnectorIDs v) (sv2_CreatedAt v) (sv2_UpdatedAt v).

Definition with_connectors (ids : list string) (version : Z) (v : Server) : Server :=
  mkServer (sv2_ID v) (sv2_OrgID v) (sv2_Slug v) (sv2_Name v) (sv2_Instructions v) (sv2_Enabled v) (sv2_Sessions v) version ids
    (sv2_CreatedAt v) (sv2_UpdatedAt v).

Section servers.
Context `{Definitions} `{Encoding} (rc : recorder).

Definition server_json (v : Server) : entity :=
  Some (VMap ([("connectorIds", VList (map VStr (sv2_ConnectorIDs v))); ("createdAt", VStr (df_time (sv2_CreatedAt v)));
               ("enabled", VBool (sv2_Enabled v)); ("id", VStr (sv2_ID v))]
    ++ unless_empty "instructions" (sv2_Instructions v)
    ++ [("name", VStr (sv2_Name v)); ("organizationId", VStr (sv2_OrgID v)); ("sessions", VStr (sv2_Sessions v)); ("slug", VStr (sv2_Slug v));
        ("updatedAt", VStr (df_time (sv2_UpdatedAt v))); ("version", VFloat (f_of_Z (sv2_Version v)))])).

(** [INSERT INTO mcp_servers], whose version and session mode are the
    columns' defaults. *)
Definition insertServer (now : Z) (v : Server) (s : store) : result server_error store :=
  if existsb (fun x => String.eqb (se_OrgID x) (sv2_OrgID v) && String.eqb (se_Slug x) (sv2_Slug v)) (s_servers s) then Err ErrSlugTaken
  else if existsb (fun x => String.eqb (se_ID x) (sv2_ID v)) (s_servers s) then Err (ErrServerStore (ErrConstraint "mcp_servers_pkey"))
  else Ok (set_servers (s_servers s ++ [mkServerRow (sv2_ID v) (sv2_OrgID v) (sv2_Slug v) (sv2_Name v) (sv2_Instructions v) true SessionsStateless 1 now now]) s).

Definition Create_tx (now : Z) (newID : string) (v : Server) (connectorIDs : list string) (createdBy : string) (s : store) : result server_error store :=
  s ← insertServer now v s;
  s ← of_store (setConnectorsTx (sv2_OrgID v) (sv2_ID v) connectorIDs s);
  let e := server_json (with_connectors connectorIDs 1 v) in
  of_store (record rc now newID (sv2_OrgID v) KindServer (sv2_ID v) "create" e (created e) createdBy s).

(** [Create]; what is read back is read from the store [others] left. *)
Definition Create_server (now : Z) (newID id org name slug instructions : string) (connectorIDs : list string) (createdBy : string)
    (others : store -> store) (s : store) : store * result server_error Server :=
  if String.eqb (TrimSpace name) "" then (s, Err ErrServerName)
  else
    let slug := if String.eqb slug "" then slugify en_lower name else slug in
    if negb (slug_ok slug) then (s, Err ErrBadSlug)
    else if String.eqb org "" then (s, Err (ErrServerStore ErrNoOrganization))
    else
      let v := mkServer id org slug name instructions true SessionsStateless 1 [] 0 0 in
      match Create_tx now newID v connectorIDs createdBy s with
      | Err e => (s, Err e)
      | Ok s' => (s', Get_server org id (others s'))
      end.

Definition Update_server_tx (now : Z) (newID org id : string) (in_ : ServerUpdate) (s : store) : result server_error store :=
  before ← read_server org id s;
  _ ← of_store (CheckVersion "server" (su_ExpectedVersion in_) (sv2_Version before));
  let v := with_settings in_ before in
  let s := set_servers (update_where (sees_server org id) (updated now v) (s_servers s)) s in
  s ← match su_ConnectorIDs in_ with None => Ok s | Some ids => of_store (setConnectorsTx org id ids s) end;
  let after := with_connectors (default (sv2_ConnectorIDs v) (su_ConnectorIDs in_)) (sv2_Version v + 1) v in
  of_store (record rc now newID org KindServer id "update" (server_json after) (changes (server_json before) (server_json after)) (su_ActorID in_) s).

Definition session_mode (m : string) : bool := String.eqb m SessionsStateless || String.eqb m SessionsStateful.

Definition Update_server (now : Z) (newID org id : string) (in_ : ServerUpdate) (others : store -> store) (s : store) : store * result server_error Server :=
  if match su_Sessions in_ with Some m => negb (session_mode m) | None => false end then (s, Err ErrInvalidSessions)
  else if String.eqb org "" then (s, Err (ErrServerStore ErrNoOrganization))
  else match Update_server_tx now newID org id in_ s with
       | Err e => (s, Err e)
       | Ok s' => (s', Get_server org id (others s'))
       end.

(** [DELETE FROM mcp_servers], with its links. *)
Definition deleteServerRow (org id : string) (s : store) : store :=
  set_servers (delete_where (sees_server org id) (s_servers s))
    (set_links (delete_where (fun l => String.eqb (ln_ServerID l) id) (s_links s)) s).

Definition Delete_server_tx (now : Z) (newID org id actor : string) (s : store) : result server_error store :=
  v ← read_server org id s;
  of_store (record rc now newID org KindServer id "delete" (server_json v) (deleted (server_json v)) actor (deleteServerRow org id s)).

Definition Delete_server (now : Z) (newID org id actor : string) (s : store) : store * result server_error unit :=
  if String.eqb org "" then (s, Err (ErrServerStore ErrNoOrganization))
  else match Delete_server_tx now newID org id actor s with Err e => (s, Err e) | Ok s' => (s', Ok tt) end.
End servers.

(** ** What a server serves *)

Record Surface : Type := mkSurface { sf_Instructions : string; sf_Tools : list (StoredTool * Connector) }.

Definition blank_line : string := String "010" (String "010" "").

(** One turn of the loop of [Surface]: the parts of the instructions and the
    tools so far. *)
Definition surface_step `{Definitions} (org cid : string) (s : store) (acc : list string * list (StoredTool * Connector)) :
    result store_error (list string * list (StoredTool * Connector)) :=
  match Get_connector org cid s with
  | Err ErrNotFound => Ok acc
  | Err e => Err e
  | Ok c =>
      if negb (cn_Enabled c) then Ok acc
      else
        let parts := if String.eqb (TrimSpace (cn_Instructions c)) "" then acc.1
                     else acc.1 ++ ["## " +:+ cn_Name c +:+ blank_line +:+ TrimSpace (cn_Instructions c)] in
        tools ← Tools org cid s;
        Ok (parts, acc.2 ++ map (fun t => (t, c)) (List.filter (fun t => st_Enabled t && is_null (st_DeprecatedAt t)) tools))
  end.

Fixpoint surface_loop `{Definitions} (org : string) (cids : list string) (s : store) (acc : list string * list (StoredTool * Connector)) :
    result store_error (list string * list (StoredTool * Connector)) :=
  match cids with [] => Ok acc | cid :: cids => acc ← surface_step org cid s acc; surface_loop org cids s acc end.

(** [Surface]. *)
Definition Surface_of `{Definitions} (v : Server) (s : store) : result store_error Surface :=
  let parts := if String.eqb (TrimSpace (sv2_Instructions v)) "" then [] else [TrimSpace (sv2_Instructions v)] in
  acc ← surface_loop (sv2_OrgID v) (sv2_ConnectorIDs v) s (parts, []);
  Ok (mkSurface (Join acc.1 blank_line) acc.2).
