(* ===== verification/ConnectorHistory.v ===== *)
(** * ConnectorHistory: what no sequence of writes can break

    The operations of ConnectorStore.v, Resync.v and McpServers.v as the
    steps of a history, with the operations of Approvals.v on the requests,
    and what holds of every history: versions that guard every write and say
    when something was served anew, the revisions of a tool, the requests
    that wait for a person, the hosts a connector's tools may send to.  New
    identifiers are fresh: [used] are the ones drawn so far. *)
From S2P Require Import Prelude Tables GoStrings Float64 Regex Values AuditEvents Secrets Authz Adapter Engine Calls ApprovalRules Approvals Revisions ConnectorStore Resync McpServers.

Open Scope list_scope.

(** ** Operations *)

Inductive op : Type :=
| OpInstall (now : Z) (ids nonces : nat -> string) (id org : string) (a : AdapterDoc) (hash : string) (creds : list (string * string)) (by_ : string)
| OpCreate (now : Z) (ids nonces : nat -> string) (id org : string) (in_ : CreateInput)
| OpUpdate (now : Z) (newID org id : string) (in_ : UpdateInput)
| OpDelete (now : Z) (newID org id actor : string)
| OpSetCredentials (now : Z) (nonces : nat -> string) (org id : string) (creds : list (string * string)) (expected : Z)
| OpCreateTool (now : Z) (ids : nat -> string) (id org cid : string) (in_ : ToolInput)
| OpUpdateTool (now : Z) (ids : nat -> string) (org id : string) (in_ : ToolInput)
| OpDeleteTool (now : Z) (ids : nat -> string) (org id : string) (acknowledged : bool) (actor : string)
| OpSetToolEnabled (now : Z) (ids : nat -> string) (org id : string) (enabled : bool) (actor : string)
| OpResync (now : Z) (ids : nat -> nat -> string) (bundled : string -> bundle) (org id : string) (in_ : ResyncInput)
| OpServerCreate (now : Z) (newID id org name slug instructions : string) (cids : list string) (by_ : string)
| OpServerUpdate (now : Z) (newID org id : string) (in_ : ServerUpdate)
| OpServerDelete (now : Z) (newID org id actor : string)
| OpApprovals (o : Approvals.op)
| OpRules (access : list access_row) (dlp : list dlp_row).

Inductive op_error : Type := StoreError (e : store_error) | ResyncError (e : resync_error) | ServerError (e : server_error).

Definition outcome {A E} (f : E -> op_error) (r : store * result E A) : store * result op_error unit :=
  (r.1, match r.2 with Ok _ => Ok tt | Err e => Err (f e) end).

Section history.
Context `{D : Definitions} `{N : Encoding} `{C : Comparison} `{Z0 : Sealer} `{R0 : Runtime} (rc : recorder).

(** One request: its transaction, and whether it answered. *)
Definition run_op (o : op) (s : store) : store * result op_error unit :=
  match o with
  | OpInstall now ids nonces id org a hash creds by_ => outcome StoreError (Install rc now ids nonces id org a hash creds by_ (fun s => s) s)
  | OpCreate now ids nonces id org in_ => outcome StoreError (Create_connector rc now ids nonces id org in_ (fun s => s) s)
  | OpUpdate now newID org id in_ => outcome StoreError (Update_connector rc now newID org id in_ (fun s => s) s)
  | OpDelete now newID org id actor => outcome StoreError (Delete_connector rc now newID org id actor s)
  | OpSetCredentials now nonces org id creds expected => outcome StoreError (SetCredentials now nonces org id creds expected s)
  | OpCreateTool now ids id org cid in_ => outcome StoreError (CreateTool rc now ids id org cid in_ (fun s => s) s)
  | OpUpdateTool now ids org id in_ => outcome StoreError (UpdateTool rc now ids org id in_ (fun s => s) s)
  | OpDeleteTool now ids org id acknowledged actor => outcome StoreError (DeleteTool rc now ids org id acknowledged actor s)
  | OpSetToolEnabled now ids org id enabled actor => outcome StoreError (SetToolEnabled rc now ids org id enabled actor s)
  | OpResync now ids bundled org id in_ => outcome ResyncError (ApplyResync rc now ids bundled org id in_ s)
  | OpServerCreate now newID id org name slug instructions cids by_ =>
      outcome ServerError (Create_server rc now newID id org name slug instructions cids by_ (fun s => s) s)
  | OpServerUpdate now newID org id in_ => outcome ServerError (Update_server rc now newID org id in_ (fun s => s) s)
  | OpServerDelete now newID org id actor => outcome ServerError (Delete_server rc now newID org id actor s)
  | OpApprovals o => (set_approvals (Approvals.exec (s_approvals s) o).1 s, Ok tt)
  | OpRules access dlp => (set_dlp dlp (set_access access s), Ok tt)
  end.

(** ** What an operation writes *)

(** A write of one connector: the row's version and those of the servers it
    is on move by one, and nothing of another connector changes. *)
Record wrote (org cid : string) (s s' : store) : Prop := {
  wr_connectors : exists f, (forall c, cr_ID (f c) = cr_ID c /\ cr_OrgID (f c) = cr_OrgID c /\ cr_Version (f c) = (cr_Version c + 1)%Z) /\
    s_connectors s' = update_where (sees_connector org cid) f (s_connectors s);
  wr_servers : exists now, s_servers s' = update_where (serves org cid s) (bumped_server now) (s_servers s);
  wr_links : s_links s' = s_links s;
  wr_tools other : other <> cid -> List.filter (fun t => String.eqb (tl_ConnectorID t) other) (s_tools s')
                                 = List.filter (fun t => String.eqb (tl_ConnectorID t) other) (s_tools s);
  wr_credentials other : other <> cid -> List.filter (fun d => String.eqb (cd_ConnectorID d) other) (s_credentials s')
                                       = List.filter (fun d => String.eqb (cd_ConnectorID d) other) (s_credentials s);
}.

Lemma record_same now newID org kind id action e d actor s s' : record rc now newID org kind id action e d actor s = Ok s' ->
  exists t, s' = set_revisions t s.
Proof.
  unfold record. destruct (negb _); [intros [= <-]; exists (s_revisions s); by destruct s|].
  destruct (Record_ _ _ _ _ _ _ _ _ _ _ _) as [t|]; [|done]. intros [= <-]. eauto.
Qed.

Lemma baseline_same now newID org kind id e s s' : recordBaseline rc now newID org kind id e s = Ok s' -> exists t, s' = set_revisions t s.
Proof.
  unfold recordBaseline. destruct (negb _); [intros [= <-]; exists (s_revisions s); by destruct s|].
  destruct (RecordBaseline _ _ _ _ _ _ _ _) as [t|]; [|done]. intros [= <-]. eauto.
Qed.

Lemma change_same now ids org action actor b a d s s' : record_change rc now ids org action actor b a d s = Ok s' -> exists t, s' = set_revisions t s.
Proof.
  unfold record_change. destruct (recordBaseline _ _ _ _ _ _ _ _) as [s1|] eqn:E1; [|done]. cbn. intros E2.
  apply baseline_same in E1 as [t1 ->]. apply record_same in E2 as [t2 ->]. exists t2. by destruct s.
Qed.

(** *** Each transaction's store *)

Lemma lockConnector_ok org id s c : lockConnector org id s = Ok c -> exists x, find_connector org id s = Some x /\ c = scanConnector s x.
Proof. unfold lockConnector. destruct (find_connector org id s) as [x|]; [|done]. intros [= <-]. eauto. Qed.

Lemma find_connector_keys org id s x : find_connector org id s = Some x -> x ∈ s_connectors s /\ cr_OrgID x = org /\ cr_ID x = id.
Proof. intros F. apply find_elem in F as [Hx F]. unfold sees_connector in F. by bool_prop. Qed.

Lemma find_tool_keys org id s t : find_tool org id s = Some t -> t ∈ s_tools s /\ tl_OrgID t = org /\ tl_ID t = id.
Proof. intros F. apply find_elem in F as [Hx F]. unfold sees_tool in F. by bool_prop. Qed.

Lemma lockTool_ok org id s c b : lockTool org id s = Ok (c, b) ->
  exists t x, find_tool org id s = Some t /\ find_connector org (tl_ConnectorID t) s = Some x /\ c = scanConnector s x /\ scanTool t = Ok b.
Proof.
  unfold lockTool, getToolTx. destruct (find_tool org id s) as [t|] eqn:F; [|done].
  destruct (lockConnector _ _ _) as [c'|[]] eqn:L; try done. intros E. apply bind_ok in E as (b' & E1 & [= <- <-]).
  apply lockConnector_ok in L as (x & Fx & ->). eauto 10.
Qed.

Lemma scanTool_ok t b : scanTool t = Ok b ->
  exists td, df_Parse (tl_Definition t) = Ok td /\ st_Definition b = Some td /\ st_ID b = tl_ID t /\ st_ConnectorID b = tl_ConnectorID t /\
    st_Name b = tl_Name t /\ st_Enabled b = tl_Enabled t /\ st_Version b = tl_Version t /\ st_Source b = tl_Source t /\
    st_EditedAt b = tl_EditedAt t /\ st_DeprecatedAt b = tl_DeprecatedAt t.
Proof. unfold scanTool. destruct (df_Parse _) as [td|]; [|done]. intros [= <-]. exists td. by cbn. Qed.

Definition bumped (now : Z) (org cid : string) (s : store) : store := bumpServersTx now org cid (bumpConnectorTx now org cid s).

Lemma create_tool_store now ids id org cid def in_ s s' issues : CreateTool_tx rc now ids id org cid def in_ s = Ok (s', issues) ->
  exists c text s1 t, find_connector org cid s = Some c /\ hasErrors (checkToolTx org (scanConnector s c) "" None def s) = false /\
    df_JSON def = Ok text /\
    insertToolRow now id (scanConnector s c) (to_Name def) text "custom" (match ti_Enabled in_ with None => true | Some b => b end) s = Ok s1 /\
    s' = set_revisions t (bumped now org cid s1).
Proof.
  unfold CreateTool_tx. intros E. apply bind_ok in E as (c & L & E). apply lockConnector_ok in L as (x & Fx & ->).
  destruct (hasErrors _) eqn:He; [done|]. apply bind_ok in E as (text & T & E). unfold encode_tool in T.
  destruct (df_JSON def) as [text'|] eqn:J; [|done]. injection T as ->. apply bind_ok in E as (s1 & I & E).
  apply bind_ok in E as (after & _ & E). apply bind_ok in E as (snap & _ & E). apply bind_ok in E as (s2 & R & [= <- <-]).
  apply record_same in R as [t ->]. exists x, text, s1, t. done.
Qed.

Lemma update_tool_store now ids org id def in_ s s' issues : UpdateTool_tx rc now ids org id def in_ s = Ok (s', issues) ->
  exists row c before text s1 t, find_tool org id s = Some row /\ find_connector org (tl_ConnectorID row) s = Some c /\ scanTool row = Ok before /\
    CheckVersion "tool" (ti_ExpectedVersion in_) (tl_Version row) = Ok tt /\
    hasErrors (checkToolTx org (scanConnector s c) id (st_Definition before) def s) = false /\ df_JSON def = Ok text /\
    updateToolRow now org id (to_Name def) text (ti_ActorID in_) (default (tl_Enabled row) (ti_Enabled in_)) s = Ok s1 /\
    s' = set_revisions t (bumped now org (tl_ConnectorID row)
           (if BehaviourChanged (st_Definition before) (Some def) then cancelApprovals now org id "the tool's definition changed" s1 else s1)).
Proof.
  unfold UpdateTool_tx. intros E. apply bind_ok in E as ([c before] & L & E). apply lockTool_ok in L as (row & x & F & Fx & -> & Sc).
  pose proof (scanTool_ok _ _ Sc) as (td & _ & _ & _ & _ & _ & En & Ev & _).
  apply bind_ok in E as ([] & V & E). destruct (hasErrors _) eqn:He; [done|]. destruct (_ && _ && _); [done|].
  apply bind_ok in E as (text & T & E). unfold encode_tool in T. destruct (df_JSON def) as [text'|] eqn:J; [|done]. injection T as ->.
  apply bind_ok in E as (s1 & I & E). apply bind_ok in E as (after & _ & E). apply bind_ok in E as (bs & _ & E). apply bind_ok in E as (as_ & _ & E).
  apply bind_ok in E as (s2 & R & [= <- <-]). apply change_same in R as [t ->].
  exists row, x, before, text, s1, t. rewrite En in I. rewrite Ev in V.
  assert (cn_ID (scanConnector s x) = tl_ConnectorID row) as -> by by apply find_connector_keys in Fx as (_ & _ & ?).
  done.
Qed.

Lemma delete_tool_store now ids org id ack actor s s' u : DeleteTool_tx rc now ids org id ack actor s = Ok (s', u) ->
  exists row c t, find_tool org id s = Some row /\ find_connector org (tl_ConnectorID row) s = Some c /\ tl_Source row = "custom" /\
    s' = set_revisions t (deleteAccessRows org id (bumped now org (tl_ConnectorID row)
           (cancelApprovals now org id "the tool was deleted" (deleteToolRow org id s)))).
Proof.
  unfold DeleteTool_tx. intros E. apply bind_ok in E as ([c before] & L & E). apply lockTool_ok in L as (row & x & F & Fx & -> & Sc).
  pose proof (scanTool_ok _ _ Sc) as (td & _ & _ & _ & _ & _ & _ & _ & Es & _).
  destruct (negb (String.eqb _ _)) eqn:Hs; [done|]. bool_prop. destruct (_ && _); [done|].
  apply bind_ok in E as (snap & _ & E). apply bind_ok in E as (s2 & R & [= <- <-]). apply change_same in R as [t ->].
  exists row, x, t. assert (cn_ID (scanConnector s x) = tl_ConnectorID row) as -> by by apply find_connector_keys in Fx as (_ & _ & ?).
  split_and!; [done..|congruence|done].
Qed.

Lemma switch_tool_store now ids org id enabled actor s s' u : SetToolEnabled_tx rc now ids org id enabled actor s = Ok (s', u) ->
  s' = s \/ exists row c t, find_tool org id s = Some row /\ find_connector org (tl_ConnectorID row) s = Some c /\ tl_Enabled row <> enabled /\
    s' = set_revisions t (bumped now org (tl_ConnectorID row)
           (set_tools (update_where (sees_tool org id) (switched now enabled) (s_tools s)) s)).
Proof.
  unfold SetToolEnabled_tx. intros E. apply bind_ok in E as ([c before] & L & E). apply lockTool_ok in L as (row & x & F & Fx & -> & Sc).
  pose proof (scanTool_ok _ _ Sc) as (td & _ & _ & _ & _ & _ & En & _).
  destruct (Bool.eqb _ _) eqn:Hs; [injection E as <- _; by left|]. right.
  apply bind_ok in E as (snap & _ & E). apply bind_ok in E as (s2 & R & [= <- <-]). apply change_same in R as [t ->].
  exists row, x, t. assert (cn_ID (scanConnector s x) = tl_ConnectorID row) as -> by by apply find_connector_keys in Fx as (_ & _ & ?).
  split_and!; [done..| |done]. intros H. rewrite En, H in Hs. by destruct enabled.
Qed.

Lemma update_connector_store now newID org id in_ s s' u : Update_tx rc now newID org id in_ s = Ok (s', u) ->
  exists c t, find_connector org id s = Some c /\ CheckVersion "connector" (ui_ExpectedVersion in_) (cr_Version c) = Ok tt /\
    s' = set_revisions t (bumpServersTx now org id
           (set_connectors (update_where (sees_connector org id) (rewritten now (applied in_ (scanConnector s c))) (s_connectors s)) s)).
Proof.
  unfold Update_tx, lockConnectorAt. intros E. apply bind_ok in E as (c & L & E). apply bind_ok in L as (c' & L & V).
  apply bind_ok in V as ([] & V & [= ->]). apply lockConnector_ok in L as (x & Fx & ->).
  apply bind_ok in E as (s2 & R & [= <- _]). apply record_same in R as [t ->]. by exists x, t.
Qed.

(** *** Writes of one connector *)

Lemma other_update {A} (key : A -> string) (p : A -> bool) f l cid other : other <> cid ->
  (forall x, x ∈ l -> p x = true -> key x = cid /\ key (f x) = cid) ->
  List.filter (fun x => String.eqb (key x) other) (update_where p f l) = List.filter (fun x => String.eqb (key x) other) l.
Proof.
  intros Ho Hp. induction l as [|x l IH]; [done|]. cbn. fold (update_where p f l). rewrite IH by (intros y Hy; apply Hp; by constructor).
  destruct (p x) eqn:P; [|done]. destruct (Hp x) as [-> ->]; [by constructor|done|]. by destruct (String.eqb_spec cid other).
Qed.

Lemma other_delete {A} (key : A -> string) (p : A -> bool) l cid other : other <> cid -> (forall x, x ∈ l -> p x = true -> key x = cid) ->
  List.filter (fun x => String.eqb (key x) other) (delete_where p l) = List.filter (fun x => String.eqb (key x) other) l.
Proof.
  intros Ho Hp. induction l as [|x l IH]; [done|]. specialize (IH (fun y Hy => Hp y (list_elem_of_further _ _ _ Hy))).
  unfold delete_where in *. cbn.
  destruct (p x) eqn:P; cbn; rewrite IH; [|done]. rewrite (Hp x) by (by constructor || done). by destruct (String.eqb_spec cid other).
Qed.

Lemma other_snoc {A} (key : A -> string) l x cid other : other <> cid -> key x = cid ->
  List.filter (fun x => String.eqb (key x) other) (l ++ [x]) = List.filter (fun x => String.eqb (key x) other) l.
Proof. intros Ho <-. rewrite List.filter_app. cbn. destruct (String.eqb_spec (key x) other); [congruence|]. by rewrite app_nil_r. Qed.

(** What the statements between the reads and the bumps may have changed. *)
Record meanwhile (cid : string) (s s1 : store) : Prop := {
  mw_connectors : s_connectors s1 = s_connectors s;
  mw_servers : s_servers s1 = s_servers s;
  mw_links : s_links s1 = s_links s;
  mw_tools other : other <> cid -> List.filter (fun t => String.eqb (tl_ConnectorID t) other) (s_tools s1)
                                 = List.filter (fun t => String.eqb (tl_ConnectorID t) other) (s_tools s);
  mw_credentials other : other <> cid -> List.filter (fun d => String.eqb (cd_ConnectorID d) other) (s_credentials s1)
                                       = List.filter (fun d => String.eqb (cd_ConnectorID d) other) (s_credentials s);
}.

Lemma meanwhile_refl cid s : meanwhile cid s s.
Proof. by split. Qed.

Lemma meanwhile_trans cid s1 s2 s3 : meanwhile cid s1 s2 -> meanwhile cid s2 s3 -> meanwhile cid s1 s3.
Proof. intros [A1 A2 A3 A4 A5] [B1 B2 B3 B4 B5]. split; [by rewrite B1|by rewrite B2|by rewrite B3|intros; by rewrite B4, A4|intros; by rewrite B5, A5]. Qed.

Lemma serves_links org cid s s1 : s_links s1 = s_links s -> forall v, serves org cid s1 v = serves org cid s v.
Proof. intros E v. unfold serves, linked. by rewrite E. Qed.

Lemma update_where_ext {A} (p q : A -> bool) f l : (forall x, p x = q x) -> update_where p f l = update_where q f l.
Proof. intros E. unfold update_where. apply map_ext. intros x. by rewrite E. Qed.

(** A transaction that ends with the bumps wrote its connector. *)
Lemma bumped_wrote now org cid s s1 t : meanwhile cid s s1 -> wrote org cid s (set_revisions t (bumped now org cid s1)).
Proof.
  intros [C1 C2 C3 C4 C5]. split; cbn.
  - exists (bumped_connector now). split; [done|]. by rewrite C1.
  - exists now. rewrite C2. by apply update_where_ext, serves_links.
  - done.
  - done.
  - done.
Qed.

Lemma insert_meanwhile now id c name def source enabled s s1 : insertToolRow now id c name def source enabled s = Ok s1 -> meanwhile (cn_ID c) s s1.
Proof.
  unfold insertToolRow. destruct (existsb _ _); [done|]. intros [= <-]. split; try done. intros other Ho. cbn.
  by apply (other_snoc tl_ConnectorID _ _ (cn_ID c)).
Qed.

Lemma find_unique_id org id s t t' : NoDup (map tl_ID (s_tools s)) -> find_tool org id s = Some t -> t' ∈ s_tools s -> sees_tool org id t' = true -> t' = t.
Proof.
  intros Nd F Ht P. apply find_tool_keys in F as (Hin & _ & Eid). unfold sees_tool in P. bool_prop.
  apply (NoDup_map_inj tl_ID (s_tools s)); try done. congruence.
Qed.

(** A change of one tool's row, which stays on its connector. *)
Lemma rows_meanwhile org id s t f : NoDup (map tl_ID (s_tools s)) -> find_tool org id s = Some t ->
  (forall x, tl_ConnectorID (f x) = tl_ConnectorID x) ->
  meanwhile (tl_ConnectorID t) s (set_tools (update_where (sees_tool org id) f (s_tools s)) s).
Proof.
  intros Nd F Hf. split; try done. intros other Ho. cbn. apply (other_update tl_ConnectorID _ _ _ (tl_ConnectorID t)); [done|].
  intros x Hx P. rewrite Hf. by rewrite (find_unique_id org id s t x).
Qed.

Lemma cancel_meanwhile now org id reason cid s : meanwhile cid s (cancelApprovals now org id reason s).
Proof. by split. Qed.

Lemma delete_meanwhile org id s t : NoDup (map tl_ID (s_tools s)) -> find_tool org id s = Some t -> meanwhile (tl_ConnectorID t) s (deleteToolRow org id s).
Proof.
  intros Nd F. split; try done. intros other Ho. cbn. apply (other_delete tl_ConnectorID _ _ (tl_ConnectorID t)); [done|].
  intros x Hx P. by rewrite (find_unique_id org id s t x).
Qed.

Lemma write_credential_meanwhile org cid name sealed secret s : meanwhile cid s (writeCredential org cid name sealed secret s).
Proof.
  split; try done. intros other Ho. cbn. destruct (existsb _ _).
  - apply (other_update cd_ConnectorID _ _ _ cid); [done|]. intros x Hx P. by bool_prop.
  - by apply (other_snoc cd_ConnectorID _ _ cid).
Qed.

Lemma write_or_drop_meanwhile org cid sealed creds s : meanwhile cid s (foldl (write_or_drop org cid sealed) s creds).
Proof.
  revert s. induction creds as [|e creds IH]; intros s; [apply meanwhile_refl|]. cbn. eapply meanwhile_trans; [|apply IH].
  unfold write_or_drop. destruct (entry sealed e.1); [apply write_credential_meanwhile|]. split; try done. intros other Ho. cbn.
  apply (other_delete cd_ConnectorID _ _ cid); [done|]. intros x Hx P. by bool_prop.
Qed.

(** *** A re-sync *)

(** Every row with this id is the connector's. *)
Definition belongs (cid id : string) (s : store) : Prop := forall t, t ∈ s_tools s -> tl_ID t = id -> tl_ConnectorID t = cid.

(** What becomes of a tool's row: itself, the same with the catalogue's
    label, or a later version. *)
Definition moved (t t' : tool_row) : Prop :=
  tl_ID t' = tl_ID t /\ tl_OrgID t' = tl_OrgID t /\ tl_ConnectorID t' = tl_ConnectorID t /\
  (t' = t \/ t' = relabelled t \/ (tl_Version t < tl_Version t')%Z).

Lemma moved_refl t : moved t t.
Proof. split_and!; try done. by left. Qed.

Lemma moved_trans t1 t2 t3 : moved t1 t2 -> moved t2 t3 -> moved t1 t3.
Proof.
  intros (A1 & A2 & A3 & A4) (B1 & B2 & B3 & B4). split_and!; [congruence..|].
  destruct A4 as [->|[->|A4]]; [done|destruct B4 as [->|[->|B4]]; [by right; left|right; left; by destruct t1|right; right; by cbn in B4]|].
  right. right. destruct B4 as [->|[->|B4]]; [done|by cbn|lia].
Qed.

(** The rows of [s1] come from rows of [s], or are new on the connector. *)
Definition tools_from (new : string -> Prop) (cid : string) (s s1 : store) : Prop :=
  forall t, t ∈ s_tools s1 -> (new (tl_ID t) /\ tl_ConnectorID t = cid) \/ exists t0, t0 ∈ s_tools s /\ moved t0 t.

Lemma belongs_from new cid id s s1 : tools_from new cid s s1 -> belongs cid id s -> belongs cid id s1.
Proof. intros F B t Ht E. destruct (F t Ht) as [[_ ?]|(t0 & H0 & E0 & _ & -> & _)]; [done|]. apply B; congruence. Qed.

Lemma tools_from_same new cid s s1 : s_tools s1 = s_tools s -> tools_from new cid s s1.
Proof. intros E t Ht. right. exists t. split; [by rewrite <- E|apply moved_refl]. Qed.

Lemma tools_from_trans new cid s1 s2 s3 : tools_from new cid s1 s2 -> tools_from new cid s2 s3 -> tools_from new cid s1 s3.
Proof.
  intros F1 F2 t Ht. destruct (F2 t Ht) as [?|(t0 & H0 & M0)]; [by left|].
  destruct (F1 t0 H0) as [[N1 C1]|(t1 & H1 & M1)].
  - left. destruct M0 as (-> & _ & -> & _). done.
  - right. exists t1. split; [done|by eapply moved_trans].
Qed.

Definition tool_ids (s : store) : list string := map tl_ID (s_tools s).

Definition kept (new : string -> Prop) (cid : string) (s s1 : store) : Prop :=
  meanwhile cid s s1 /\ tools_from new cid s s1 /\ (NoDup (tool_ids s) -> NoDup (tool_ids s1)).

Lemma kept_refl new cid s : kept new cid s s.
Proof. split_and!; [apply meanwhile_refl|by apply tools_from_same|done]. Qed.

Lemma kept_trans new cid s1 s2 s3 : kept new cid s1 s2 -> kept new cid s2 s3 -> kept new cid s1 s3.
Proof. intros (? & ? & ?) (? & ? & ?). split_and!; [by eapply meanwhile_trans|by eapply tools_from_trans|auto]. Qed.

Lemma update_kept new cid (p : tool_row -> bool) f s : (forall x, x ∈ s_tools s -> p x = true -> tl_ConnectorID x = cid) ->
  (forall x, moved x (f x)) -> kept new cid s (set_tools (update_where p f (s_tools s)) s).
Proof.
  intros Hp Hf. split_and!.
  - split; try done. intros other Ho. cbn. apply (other_update tl_ConnectorID _ _ _ cid); [done|].
    intros x Hx P. split; [by apply Hp|]. destruct (Hf x) as (_ & _ & -> & _). by apply Hp.
  - intros t Ht. cbn in Ht. apply elem_of_update in Ht as (x & Hx & ->). right. exists x. split; [done|]. destruct (p x); [done|apply moved_refl].
  - unfold tool_ids. cbn. rewrite map_update; [done|]. intros x. by destruct (Hf x).
Qed.

Lemma insert_kept (new : string -> Prop) now id c name def source enabled s s1 : new id -> insertToolRow now id c name def source enabled s = Ok s1 ->
  kept new (cn_ID c) s s1.
Proof.
  intros Hn I. split_and!; [by eapply insert_meanwhile|..]; unfold insertToolRow in I; destruct (existsb _ _) eqn:X; try done; injection I as <-.
  - intros x Hx. cbn in Hx. apply elem_snoc in Hx as [Hx| ->]; [right; eauto using moved_refl|by left].
  - intros Nd. unfold tool_ids. cbn. rewrite map_app. apply NoDup_app. split_and!; [done| |apply NoDup_singleton].
    intros y Hy Hs. apply list_elem_of_singleton in Hs as ->. apply list_elem_of_In, in_map_iff in Hy as (t & Et & Ht%list_elem_of_In).
    apply (proj1 (existsb_false_elem _ _)) with (x := t) in X; [|done]. bool_prop. done.
Qed.

Lemma add_tools_kept (new : string -> Prop) now ids c ts s r : (forall i, new (ids i)) -> add_tools now ids c ts s = Ok r -> kept new (cn_ID c) s r.1.
Proof.
  revert ids s r. induction ts as [|t ts IH]; intros ids s r Hn E; cbn in E; [injection E as <-; apply kept_refl|].
  destruct (rt_After t) as [def|]; [|done]. apply bind_ok in E as (text & _ & E). apply bind_ok in E as (s1 & I & E).
  apply bind_ok in E as (r1 & E1 & [= <-]). eapply kept_trans; [eapply insert_kept; [apply Hn|done]|apply (IH _ _ _ (fun i => Hn (S i)) E1)].
Qed.

Lemma rewrite_tools_kept new now org cid ts s s1 : rewrite_tools now org ts s = Ok s1 -> (forall t, t ∈ ts -> belongs cid (rt_ToolID t) s) -> kept new cid s s1.
Proof.
  revert s. induction ts as [|t ts IH]; intros s E B; cbn in E; [injection E as <-; apply kept_refl|].
  destruct (rt_After t) as [def|]; [|done]. apply bind_ok in E as (text & _ & E).
  assert (kept new cid s (set_tools (update_where (sees_tool org (rt_ToolID t)) (resync_row now text) (s_tools s)) s)) as K.
  { apply update_kept; [|intros x; split_and!; try done; right; right; cbn; lia]. intros x Hx P. unfold sees_tool in P. bool_prop. apply (B t); [by constructor|done|done]. }
  eapply kept_trans; [exact K|]. apply (IH _ E). intros x Hx. apply (belongs_from new _ _ s); [apply K|]. apply B. by constructor.
Qed.

Lemma delete_nodup org id s : NoDup (tool_ids s) -> NoDup (tool_ids (deleteToolRow org id s)).
Proof. unfold tool_ids. cbn. intros Nd. eapply sublist_NoDup; [exact Nd|apply sublist_map_filter]. Qed.

Lemma cancel_all_kept new now org reason cid ids s : kept new cid s (cancel_all now org reason ids s).
Proof.
  unfold cancel_all. revert s. induction ids as [|id ids IH]; intros s; [apply kept_refl|]. cbn. eapply kept_trans; [|apply IH].
  split_and!; [apply cancel_meanwhile|by apply tools_from_same|done].
Qed.

Lemma remove_tools_kept new org cid ids s : (forall id, id ∈ ids -> belongs cid id s) -> kept new cid s (remove_tools org ids s).
Proof.
  intros B. unfold remove_tools. assert (forall k s, (forall id, id ∈ k -> belongs cid id s) -> kept new cid s (foldl (fun s id => deleteToolRow org id s) s k)) as K.
  { clear. induction k as [|id k IH]; intros s B; [apply kept_refl|]. cbn.
    assert (kept new cid s (deleteToolRow org id s)) as K1.
    { split_and!.
      - split; try done. intros other Ho. cbn. apply (other_delete tl_ConnectorID _ _ cid); [done|]. intros x Hx P.
        unfold sees_tool in P. bool_prop. apply (B id); [by constructor|done|done].
      - intros t Ht. cbn in Ht. apply elem_of_delete in Ht as [Ht _]. right. eauto using moved_refl.
      - apply delete_nodup. }
    eapply kept_trans; [exact K1|]. apply IH. intros x Hx. apply (belongs_from new _ _ s); [apply K1|]. apply B. by constructor. }
  specialize (K ids s B). destruct K as ([K1 K2 K3 K4 K5] & K6 & K7). split_and!; [by split|done|done].
Qed.

(** The resynced row and the bumped servers are on top of what was kept. *)
Lemma write_plan_store (new : string -> Prop) now ids org p s r : (forall i, new (ids i)) -> write_plan now ids org p s = Ok r ->
  (forall t, t ∈ pn_Update p \/ t ∈ pn_Remove p \/ t ∈ pn_Relabel p -> belongs (cn_ID (pn_Connector p)) (rt_ToolID t) s) ->
  exists s3, kept new (cn_ID (pn_Connector p)) s s3 /\
    r.1 = bumpServersTx now org (cn_ID (pn_Connector p))
            (set_connectors (update_where (sees_connector org (cn_ID (pn_Connector p))) (resynced now (pn_Instructions p) (pn_BundledHash p)) (s_connectors s3)) s3).
Proof.
  set (cid := cn_ID (pn_Connector p)). unfold write_plan. intros Hn E B. apply bind_ok in E as (a & Ea & E). apply bind_ok in E as (s1 & E1 & [= <-]).
  cbn [fst]. apply (add_tools_kept new) in Ea; [|done]. fold cid in Ea.
  assert (kept new cid s s1) as K1.
  { eapply kept_trans; [exact Ea|]. apply (rewrite_tools_kept _ _ _ _ _ _ _ E1). intros t Ht. eapply belongs_from; [apply Ea|]. apply B. by left. }
  lazymatch goal with |- exists s3, _ /\ bumpServersTx _ _ _ (set_connectors _ ?x) = _ => exists x end. split; [|reflexivity].
  set (s2 := cancel_all now org _ (changed_behaviour _) s1). assert (kept new cid s s2) as K2 by (eapply kept_trans; [exact K1|apply cancel_all_kept]).
  set (s4 := cancel_all now org _ _ (remove_tools _ _ s2)).
  assert (kept new cid s s4) as K4.
  { eapply kept_trans; [exact K2|]. eapply kept_trans; [apply remove_tools_kept|apply cancel_all_kept].
    intros id Hid. apply list_elem_of_In, in_map_iff in Hid as (t & <- & Ht%list_elem_of_In). eapply belongs_from; [apply K2|]. apply B. by right; left. }
  eapply kept_trans; [exact K4|]. apply update_kept; [|intros x; split_and!; try done; by right; left]. intros x Hx P. unfold any_of in P. bool_prop.
  match goal with H : existsb _ _ = true |- _ => apply existsb_elem in H as (id & Hid & Eq) end. bool_prop.
  apply list_elem_of_In, in_map_iff in Hid as (t & <- & Ht%list_elem_of_In).
  eapply belongs_from; [apply K4|apply B; by right; right|done|done].
Qed.

Lemma record_added_same now ids org cid actor ts s s' : record_added rc now ids org cid actor ts s = Ok s' -> exists t, s' = set_revisions t s.
Proof.
  revert ids s. induction ts as [|t ts IH]; intros ids s E; cbn in E; [injection E as <-; exists (s_revisions s); by destruct s|].
  apply bind_ok in E as (snap & _ & E). apply bind_ok in E as (s1 & R & E). apply record_same in R as [t1 ->]. apply IH in E as [t2 ->].
  exists t2. by destruct s.
Qed.

Lemma record_updated_same now ids org actor ts s s' : record_updated rc now ids org actor ts s = Ok s' -> exists t, s' = set_revisions t s.
Proof.
  revert ids s. induction ts as [|t ts IH]; intros ids s E; cbn in E; [injection E as <-; exists (s_revisions s); by destruct s|].
  apply bind_ok in E as (b & _ & E). apply bind_ok in E as (text & _ & E). apply bind_ok in E as (s1 & R & E).
  apply change_same in R as [t1 ->]. apply IH in E as [t2 ->]. exists t2. by destruct s.
Qed.

Lemma record_removed_same now ids org actor ts s s' : record_removed rc now ids org actor ts s = Ok s' -> exists t, s' = set_revisions t s.
Proof.
  revert ids s. induction ts as [|t ts IH]; intros ids s E; cbn in E; [injection E as <-; exists (s_revisions s); by destruct s|].
  apply bind_ok in E as (b & _ & E). apply bind_ok in E as (s1 & R & E).
  apply change_same in R as [t1 ->]. apply IH in E as [t2 ->]. exists t2. by destruct s.
Qed.

Lemma recordResync_same now ids org actor p s s' : recordResync rc now ids org actor p s = Ok s' -> exists t, s' = set_revisions t s.
Proof.
  unfold recordResync. intros E. apply bind_ok in E as (s1 & R1 & E). apply bind_ok in E as (s2 & R2 & E). apply bind_ok in E as (s3 & R3 & R4).
  apply record_same in R1 as [t1 ->]. apply record_added_same in R2 as [t2 ->]. apply record_updated_same in R3 as [t3 ->].
  apply record_removed_same in R4 as [t4 ->]. exists t4. by destruct s.
Qed.

Lemma of_store_ok {A} (r : result store_error A) a : Resync.of_store r = Ok a -> r = Ok a.
Proof. destruct r; cbn; [by intros [= ->]|done]. Qed.

Lemma scan_all_elem ts l st : scan_all ts = Ok l -> st ∈ l -> exists t, t ∈ ts /\ scanTool t = Ok st.
Proof.
  revert l. induction ts as [|t ts IH]; intros l E Hst; cbn in E; [injection E as <-; by apply elem_of_nil in Hst|].
  apply bind_ok in E as (x & Ex & E). apply bind_ok in E as (l1 & El & [= <-]).
  apply elem_of_cons in Hst as [->|Hst]; [exists t; split; [by constructor|done]|]. destruct (IH _ El Hst) as (t' & ? & ?).
  exists t'. split; [by constructor|done].
Qed.

Lemma tools_of_elem org cid s t : t ∈ tools_of org cid s <-> t ∈ s_tools s /\ tl_OrgID t = org /\ tl_ConnectorID t = cid.
Proof.
  unfold tools_of. rewrite merge_sort_Permutation, list_elem_of_In, filter_In, <- list_elem_of_In. unfold tool_on.
  rewrite andb_true_iff, !String.eqb_eq. done.
Qed.

Lemma planResyncTx_ok bundled org c s s2 p : planResyncTx bundled org c s s2 = Ok p ->
  exists a e stored, bundled (cn_CatalogSlug c) = Bundled a e /\ (cn_CatalogHash c = ie_ContentHash e \/ Precedes e (cn_CatalogHash c) = true) /\
    scan_all (tools_of org (cn_ID c) s) = Ok stored /\ planResync c stored (credential_names org (cn_ID c) s2) a e = Ok p.
Proof.
  unfold planResyncTx. destruct (String.eqb _ ""); [done|]. destruct (bundled _) as [a e| |]; [|done..].
  destruct (_ && _) eqn:Hb; [done|]. intros E. apply bind_ok in E as (stored & Es & E). apply of_store_ok in Es. exists a, e, stored.
  split_and!; try done. destruct (String.eqb_spec (cn_CatalogHash c) (ie_ContentHash e)); [by left|right]. by destruct (Precedes _ _).
Qed.

(** The tools a plan names are the connector's. *)
Lemma plan_belongs bundled org c s s2 p : NoDup (tool_ids s) -> planResyncTx bundled org c s s2 = Ok p ->
  forall t, t ∈ pn_Update p \/ t ∈ pn_Remove p \/ t ∈ pn_Relabel p -> belongs (cn_ID c) (rt_ToolID t) s.
Proof.
  intros Nd E t Ht. apply planResyncTx_ok in E as (a & e & stored & _ & _ & Sc & E).
  apply planResync_ok in E as (_ & _ & _ & _ & _ & HU & HL & HR & _). rewrite HU, HL, HR in Ht.
  assert (exists st, st ∈ stored /\ rt_ToolID t = st_ID st) as (st & Hst & ->).
  { unfold updated_of, removed_of, relabelled_of, stored_as in Ht.
    destruct Ht as [(b & st & ch & _ & F & _ & _ & _ & ->)|[(st & Hst & _ & _ & ->)|(b & st & _ & F & _ & _ & ->)]]; exists st; (split; [|done]); [|done|];
      apply find_elem in F as [F _]; by apply list_elem_of_In, in_rev, list_elem_of_In in F. }
  destruct (scan_all_elem _ _ _ Sc Hst) as (row & Hrow & Erow). apply tools_of_elem in Hrow as (Hin & _ & Hc).
  apply scanTool_ok in Erow as (_ & _ & _ & Eid & _). intros x Hx Ex.
  rewrite (NoDup_map_inj tl_ID (s_tools s) x row); [done|done|done|done|congruence].
Qed.

Lemma planResyncTx_connector bundled org c s s2 p : planResyncTx bundled org c s s2 = Ok p -> pn_Connector p = c.
Proof. intros E. apply planResyncTx_ok in E as (? & ? & ? & _ & _ & _ & E). by apply planResync_ok in E as (? & _). Qed.


Definition authorized (in_ : ResyncInput) (q : ResyncPlan) : Prop := match ri_Authorize in_ with Some f => f q | None => None end = None.

(** What an applied re-sync leaves. *)
Lemma resync_store now ids bundled org id in_ s s' p : ApplyResync rc now ids bundled org id in_ s = (s', Ok p) ->
  org <> "" /\ exists c q, find_connector org id s = Some c /\ cr_Version c = ri_ExpectedVersion in_ /\ ri_ExpectedVersion in_ <> 0%Z /\
    planResyncTx bundled org (scanConnector s c) s s = Ok q /\ pn_BundledHash q = ri_CatalogHash in_ /\
    ((Empty q = true /\ Outdated q = false /\ s' = s /\ p = q) \/
     (authorized in_ q /\ exists r, write_plan now (ids 4) org q s = Ok r /\ recordResync rc now ids org (ri_ActorID in_) r.2 r.1 = Ok s' /\ p = r.2)).
Proof.
  unfold ApplyResync. destruct (String.eqb_spec org ""); [done|]. destruct (ApplyResync_tx _ _ _ _ _ _ _ _) as [[s1 p1]|] eqn:E; [|done].
  intros [= -> ->]. split; [done|]. unfold ApplyResync_tx in E. destruct (Z.eqb_spec (ri_ExpectedVersion in_) 0); [done|].
  destruct (lockConnectorAt _ _ _ _) as [c|e] eqn:L; [|by destruct e].
  unfold lockConnectorAt in L. apply bind_ok in L as (c' & L & V). apply lockConnector_ok in L as (x & Fx & ->).
  apply bind_ok in V as ([] & V & [= <-]). unfold CheckVersion in V. cbn [cn_Version scanConnector] in V.
  destruct (_ || _) eqn:Hv; [|done]. assert (cr_Version x = ri_ExpectedVersion in_) as Ev by (bool_prop; lia).
  apply bind_ok in E as (q & Eq & E). destruct (negb _) eqn:Hh; [done|]. bool_prop. exists x, q. split_and!; try done.
  destruct (Empty q && negb (Outdated q)) eqn:He.
  - injection E as <- <-. left. by bool_prop.
  - right. unfold authorized. destruct (match ri_Authorize in_ with Some f => f q | None => None end); [done|]. split; [done|].
    apply of_store_ok in E. apply bind_ok in E as (r & W & E). apply bind_ok in E as (s2 & R & [= <- <-]). by exists r.
Qed.

Lemma write_plan_rest now ids org p s r : write_plan now ids org p s = Ok r -> pn_Connector r.2 = pn_Connector p /\ pn_Update r.2 = pn_Update p /\ pn_Remove r.2 = pn_Remove p.
Proof. unfold write_plan. intros E. apply bind_ok in E as (a & _ & E). apply bind_ok in E as (s1 & _ & [= <-]). done. Qed.

Lemma resync_wrote (new : string -> Prop) now ids bundled org id in_ s s' p : (forall i, new (ids 4 i)) -> NoDup (tool_ids s) ->
  ApplyResync rc now ids bundled org id in_ s = (s', Ok p) ->
  s' = s \/ (NoDup (tool_ids s') /\ tools_from new id s s' /\ exists c, find_connector org id s = Some c /\ wrote org id s s').
Proof.
  intros Hn Nd E. apply resync_store in E as (_ & c & q & F & _ & _ & Pq & _ & [(_ & _ & -> & _)|(_ & r & W & R & _)]); [by left|]. right.
  pose proof (planResyncTx_connector _ _ _ _ _ _ Pq) as Ec. pose proof (plan_belongs _ _ _ _ _ _ Nd Pq) as B. rewrite <- Ec in B.
  destruct (write_plan_store new _ _ _ _ _ _ Hn W B) as (s3 & ([C1 C2 C3 C4 C5] & K2 & K3) & Es). apply recordResync_same in R as [t ->].
  assert (cn_ID (pn_Connector q) = id) as Eid by (rewrite Ec; cbn; by apply find_connector_keys in F as (_ & _ & ?)).
  rewrite Eid in *. rewrite Es. split; [by apply K3|]. split; [exact K2|]. exists c. split; [done|]. split; cbn.
  - eexists. split; [|by rewrite C1]. done.
  - exists now. rewrite C2. apply update_where_ext. by apply serves_links.
  - done.
  - done.
  - done.
Qed.

(** *** What any operation does to the tables *)

Definition links_of (sid : string) (s : store) : list link_row := List.filter (fun l => String.eqb (ln_ServerID l) sid) (s_links s).

Inductive effect (new : string -> Prop) (s s' : store) : Prop :=
| ef_none : s_connectors s' = s_connectors s -> s_servers s' = s_servers s -> s_links s' = s_links s -> s_tools s' = s_tools s ->
    s_credentials s' = s_credentials s -> effect new s s'
| ef_wrote org cid c : find_connector org cid s = Some c -> wrote org cid s s' -> effect new s s'
| ef_made c s1 : new (cr_ID c) -> (forall x, x ∈ s_connectors s -> cr_ID x <> cr_ID c) -> s1 = set_connectors (s_connectors s ++ [c]) s ->
    meanwhile (cr_ID c) s1 s' -> effect new s s'
| ef_gone org cid c : find_connector org cid s = Some c -> s_connectors s' = s_connectors (deleteConnectorRow org cid s) -> s_servers s' = s_servers s ->
    s_links s' = s_links (deleteConnectorRow org cid s) -> s_tools s' = s_tools (deleteConnectorRow org cid s) ->
    s_credentials s' = s_credentials (deleteConnectorRow org cid s) -> effect new s s'
| ef_server sid : s_connectors s' = s_connectors s -> s_tools s' = s_tools s -> s_credentials s' = s_credentials s ->
    (forall other, other <> sid -> links_of other s' = links_of other s) ->
    (forall org other, other <> sid -> find_server org other s' = find_server org other s) ->
    (forall org v v', find_server org sid s = Some v -> find_server org sid s' = Some v' -> se_Version v' = (se_Version v + 1)%Z) ->
    (forall v, v ∈ s_servers s' -> new (se_ID v) \/ exists v0, v0 ∈ s_servers s /\ se_ID v0 = se_ID v /\ se_OrgID v0 = se_OrgID v) ->
    NoDup (map se_ID (s_servers s)) -> NoDup (map se_ID (s_servers s')) -> effect new s s'.

Definition ids_ok (s : store) : Prop := NoDup (map cr_ID (s_connectors s)) /\ NoDup (tool_ids s) /\ NoDup (map se_ID (s_servers s)).

Lemma insertTools_kept (new : string -> Prop) now ids c source ts s s1 : (forall i, new (ids i)) -> insertTools now ids c source ts s = Ok s1 ->
  kept new (cn_ID c) s s1.
Proof.
  revert ids s. induction ts as [|t ts IH]; intros ids s Hn E; cbn in E; [injection E as <-; apply kept_refl|].
  apply bind_ok in E as (text & _ & E). apply bind_ok in E as (s2 & I & E). eapply kept_trans; [eapply insert_kept; [apply Hn|done]|apply (IH _ _ (fun i => Hn (S i)) E)].
Qed.

Lemma seal_kept new nonce c name v secret s s1 : sealCredential nonce c name v secret s = Ok s1 -> kept new (cn_ID c) s s1.
Proof.
  unfold sealCredential. intros E. apply bind_ok in E as (ct & _ & [= <-]).
  split_and!; [apply write_credential_meanwhile|by apply tools_from_same|done].
Qed.

Lemma setCredentials_kept new nonces c specs creds s s1 : setCredentialsTx nonces c specs creds s = Ok s1 -> kept new (cn_ID c) s s1.
Proof.
  revert nonces s. induction specs as [|[name spec] specs IH]; intros nonces s E; cbn in E; [injection E as <-; apply kept_refl|].
  destruct (entry creds name) as [v|]; [|by eapply IH]. destruct (String.eqb v ""); [by eapply IH|].
  apply bind_ok in E as (s2 & I & E). eapply kept_trans; [by eapply seal_kept|by eapply IH].
Qed.

Lemma sealAll_kept new nonces c creds s s1 : sealAll nonces c creds s = Ok s1 -> kept new (cn_ID c) s s1.
Proof.
  revert nonces s. induction creds as [|[name v] creds IH]; intros nonces s E; cbn in E; [injection E as <-; apply kept_refl|].
  apply bind_ok in E as (s2 & I & E). eapply kept_trans; [by eapply seal_kept|by eapply IH].
Qed.

(** The row a creation inserts. *)
Definition new_row (now : Z) (c : Connector) (by_ : string) : connector_row :=
  mkConnectorRow (cn_ID c) (cn_OrgID c) (cn_Name c) (cn_Transport c) (cn_Auth c) (cn_Instructions c)
    (NULLIF (cn_CatalogSlug c)) (NULLIF (cn_CatalogHash c)) (cn_ReadOnly c) (cn_Enabled c) (cn_Version c) (NULLIF by_) now now.

(** The tools an operation leaves. *)
Definition tools_moved (new : string -> Prop) (s s' : store) : Prop :=
  forall t, t ∈ s_tools s' -> new (tl_ID t) \/ exists t0, t0 ∈ s_tools s /\ moved t0 t.

Lemma tools_from_moved new cid s s' : tools_from new cid s s' -> tools_moved new s s'.
Proof. intros F t Ht. destruct (F t Ht) as [[? _]|?]; auto. Qed.

Lemma tools_same_moved new s s' : s_tools s' = s_tools s -> tools_moved new s s'.
Proof. intros E. by apply (tools_from_moved _ ""), tools_from_same. Qed.

Definition lawful (new : string -> Prop) (s s' : store) : Prop := effect new s s' /\ NoDup (tool_ids s') /\ tools_moved new s s'.

Lemma made_lawful (new : string -> Prop) now c by_ s s1 s2 t : new (cn_ID c) -> insertConnector now c by_ s = Ok s1 -> kept new (cn_ID c) s1 s2 ->
  NoDup (tool_ids s) -> lawful new s (set_revisions t s2).
Proof.
  unfold insertConnector. intros Hn. destruct (existsb _ _) eqn:X; [done|]. intros [= <-] ([C1 C2 C3 C4 C5] & F & K) Nd.
  assert (forall x, x ∈ s_connectors s -> cr_ID x <> cn_ID c) as Hf.
  { intros x Hx E. apply (proj1 (existsb_false_elem _ _)) with (x := x) in X; [|done]. by bool_prop. }
  split_and!; [|by apply K|by apply (tools_from_moved _ (cn_ID c))].
  apply (ef_made _ _ _ (new_row now c by_) _ Hn Hf eq_refl). by split.
Qed.

Lemma attach_links org sid ids s s1 : attach org sid ids s = Ok s1 ->
  exists ls, s1 = set_links ls s /\ forall other, other <> sid -> links_of other s1 = links_of other s.
Proof.
  revert s. induction ids as [|cid ids IH]; intros s E; cbn in E; [injection E as <-; exists (s_links s); split; [by destruct s|done]|].
  destruct (negb _); [done|]. destruct (existsb _ _); [done|]. apply IH in E as (ls & -> & Ho). exists ls. split; [by destruct s|].
  intros other Hn. rewrite (Ho other Hn). unfold links_of. cbn. by apply (other_snoc ln_ServerID _ _ sid).
Qed.

Lemma setConnectors_links org sid ids s s1 : setConnectorsTx org sid ids s = Ok s1 ->
  exists ls, s1 = set_links ls s /\ forall other, other <> sid -> links_of other s1 = links_of other s.
Proof.
  unfold setConnectorsTx. intros E. apply attach_links in E as (ls & -> & Ho). exists ls. split; [by destruct s|]. intros other Hn.
  rewrite (Ho other Hn). unfold links_of. cbn. apply (other_delete ln_ServerID _ _ sid); [done|]. intros x Hx P. by bool_prop.
Qed.

Lemma server_of_store_ok {A} (r : result store_error A) a : McpServers.of_store r = Ok a -> r = Ok a.
Proof. destruct r; cbn; [by intros [= ->]|done]. Qed.

Lemma read_server_ok org id s v : read_server org id s = Ok v -> exists x, find_server org id s = Some x /\ v = scanServer (String.eqb org) s x.
Proof. unfold read_server. destruct (find_server org id s) as [x|]; [|done]. intros [= <-]. eauto. Qed.

Lemma find_server_keys org id s v : find_server org id s = Some v -> v ∈ s_servers s /\ se_OrgID v = org /\ se_ID v = id.
Proof. intros F. apply find_elem in F as [Hx F]. unfold sees_server in F. by bool_prop. Qed.

Lemma find_other_snoc org other x l : se_ID x <> other -> List.find (sees_server org other) (l ++ [x]) = List.find (sees_server org other) l.
Proof.
  intros H. rewrite find_then. destruct (List.find _ l); [done|]. unfold sees_server. destruct (String.eqb_spec (se_ID x) other); [done|].
  by rewrite andb_false_r.
Qed.

Lemma find_other_delete o org other sid l : other <> sid ->
  List.find (sees_server o other) (delete_where (sees_server org sid) l) = List.find (sees_server o other) l.
Proof.
  intros H. unfold delete_where. induction l as [|x l IH]; [done|]. cbn. destruct (sees_server org sid x) eqn:P; cbn; rewrite IH; [|done].
  unfold sees_server in *. bool_prop. subst. by destruct (String.eqb_spec (se_ID x) other); [congruence|rewrite andb_false_r].
Qed.

Lemma server_create_effect now newID v cids by_ s s1 : NoDup (map se_ID (s_servers s)) -> Create_tx rc now newID v cids by_ s = Ok s1 ->
  effect (eq (sv2_ID v)) s s1 /\ s_tools s1 = s_tools s.
Proof.
  unfold Create_tx. intros Nd E. apply bind_ok in E as (s2 & I & E). unfold insertServer in I.
  destruct (existsb _ _); [done|]. destruct (existsb (fun x => String.eqb (se_ID x) _) _) eqn:X; [done|]. injection I as <-.
  apply bind_ok in E as (s3 & L & E). apply server_of_store_ok, setConnectors_links in L as (ls & -> & Ho).
  apply server_of_store_ok, record_same in E as [t ->]. split; [|done].
  assert (forall x, x ∈ s_servers s -> se_ID x <> sv2_ID v) as Hf.
  { intros x Hx Ex. apply (proj1 (existsb_false_elem _ _)) with (x := x) in X; [|done]. by bool_prop. }
  apply (ef_server _ _ _ (sv2_ID v)); cbn; try done.
  - intros org other Hn. unfold find_server. cbn. apply find_other_snoc. cbn. congruence.
  - intros org x x' F. apply find_server_keys in F as (Hin & _ & E2). by destruct (Hf _ Hin).
  - intros x Hx. apply elem_snoc in Hx as [Hx| ->]; [right; eauto|by left].
  - rewrite map_app. apply NoDup_app. split_and!; [done| |apply NoDup_singleton]. intros y Hy Hn.
    apply list_elem_of_singleton in Hn as ->. apply list_elem_of_In, in_map_iff in Hy as (x & Ex & Hx%list_elem_of_In). by destruct (Hf x Hx).
Qed.

Lemma server_update_effect now newID org id in_ s s1 : NoDup (map se_ID (s_servers s)) -> Update_server_tx rc now newID org id in_ s = Ok s1 ->
  (forall new, effect new s s1) /\ s_tools s1 = s_tools s /\ exists v, find_server org id s = Some v /\ CheckVersion "server" (su_ExpectedVersion in_) (se_Version v) = Ok tt /\
    exists f, (forall x, se_ID (f x) = se_ID x /\ se_OrgID (f x) = se_OrgID x /\ se_Version (f x) = (se_Version x + 1)%Z) /\
      s_servers s1 = update_where (sees_server org id) f (s_servers s).
Proof.
  unfold Update_server_tx. intros Nd E. apply bind_ok in E as (v & R & E). apply read_server_ok in R as (x & F & ->).
  apply bind_ok in E as ([] & V & E). apply server_of_store_ok in V. cbn in V.
  apply bind_ok in E as (s2 & L & E). apply server_of_store_ok, record_same in E as [t ->].
  set (w := with_settings in_ _) in *. set (s3 := set_servers _ s) in *.
  assert (exists ls, s2 = set_links ls s3 /\ forall other, other <> id -> links_of other s2 = links_of other s3) as (ls & -> & Ho).
  { destruct (su_ConnectorIDs in_) as [ids|]; [by apply server_of_store_ok, setConnectors_links in L|].
    injection L as <-. exists (s_links s3). split; [by destruct s3|done]. }
  split; [|split; [done|exists x; split_and!; [done|done|exists (updated now w); done]]].
  intros new. apply (ef_server _ _ _ id); cbn; try done.
  - intros o other Hn. unfold find_server. cbn. rewrite (find_update (sees_server org id) (sees_server o other)) by done.
    destruct (List.find (sees_server o other) (s_servers s)) as [y|] eqn:Fy; [|done]. cbn. apply find_elem in Fy as [_ Py].
    unfold sees_server in *. bool_prop. subst. by destruct (String.eqb_spec (se_ID y) id); [|rewrite andb_false_r].
  - intros o y y' Fy Fy'. unfold find_server in Fy'. cbn in Fy'. rewrite (find_update (sees_server org id) (sees_server o id)) in Fy' by done.
    pose proof (find_server_keys _ _ _ _ Fy) as (Hy & Ey & Iy). pose proof (find_server_keys _ _ _ _ F) as (Hx & Ex & Ix).
    unfold find_server in Fy. rewrite Fy in Fy'. cbn in Fy'. injection Fy' as <-.
    assert (y = x) as -> by (apply (NoDup_map_inj se_ID (s_servers s)); congruence). unfold sees_server. by rewrite Ex, Ix, !String.eqb_refl.
  - intros y Hy. right. apply elem_of_update in Hy as (y0 & Hy0 & ->). exists y0. by destruct (sees_server org id y0).
  - by rewrite map_update.
Qed.

Lemma server_delete_effect now newID org id actor s s1 : NoDup (map se_ID (s_servers s)) -> Delete_server_tx rc now newID org id actor s = Ok s1 ->
  (forall new, effect new s s1) /\ s_tools s1 = s_tools s.
Proof.
  unfold Delete_server_tx. intros Nd E. apply bind_ok in E as (v & R & E). apply read_server_ok in R as (x & F & ->).
  apply server_of_store_ok, record_same in E as [t ->]. split; [|done]. intros new. apply (ef_server _ _ _ id); cbn; try done.
  - intros other Hn. unfold links_of. cbn. apply (other_delete ln_ServerID _ _ id); [done|]. intros y Hy P. by bool_prop.
  - intros o other Hn. by apply find_other_delete.
  - intros o y y' Fy Fy'. exfalso. apply find_elem in Fy' as [Hin Q]. apply elem_of_delete in Hin as [Hin P].
    pose proof (find_server_keys _ _ _ _ F) as (Hx & Ex & Ix).
    unfold sees_server in P, Q. bool_prop.
    assert (y' = x) as -> by (apply (NoDup_map_inj se_ID (s_servers s)); congruence). destruct P as [P|P]; bool_prop; congruence.
  - intros y Hy. right. apply elem_of_delete in Hy as [Hy _]. eauto.
  - eapply sublist_NoDup; [exact Nd|]. apply sublist_map_filter.
Qed.


Lemma kept_bumped new now org cid c s s1 t : find_connector org cid s = Some c -> kept new cid s s1 -> NoDup (tool_ids s) ->
  lawful new s (set_revisions t (bumped now org cid s1)).
Proof. intros F (M & T & K) Nd. split_and!; [eapply ef_wrote; [exact F|by apply bumped_wrote]|by apply K|by apply (tools_from_moved _ cid)]. Qed.

Lemma tool_row_kept new org id s t f : NoDup (tool_ids s) -> find_tool org id s = Some t -> (forall x, moved x (f x)) ->
  kept new (tl_ConnectorID t) s (set_tools (update_where (sees_tool org id) f (s_tools s)) s).
Proof. intros Nd F Hf. apply update_kept; [|done]. intros x Hx P. by rewrite (find_unique_id org id s t x). Qed.

Lemma later_moved (t t' : tool_row) : tl_ID t' = tl_ID t -> tl_OrgID t' = tl_OrgID t -> tl_ConnectorID t' = tl_ConnectorID t ->
  tl_Version t' = (tl_Version t + 1)%Z -> moved t t'.
Proof. intros. split_and!; try done. right. right. lia. Qed.

Lemma deleted_kept new org id s t : NoDup (tool_ids s) -> find_tool org id s = Some t -> kept new (tl_ConnectorID t) s (deleteToolRow org id s).
Proof.
  intros Nd F. split_and!; [by apply delete_meanwhile| |apply delete_nodup].
  intros x Hx. cbn in Hx. apply elem_of_delete in Hx as [Hx _]. right. eauto using moved_refl.
Qed.

Lemma cancel_kept new now org id reason cid s : kept new cid s (cancelApprovals now org id reason s).
Proof. split_and!; [apply cancel_meanwhile|by apply tools_from_same|done]. Qed.

Lemma updateToolRow_kept new now org id name def actor enabled s s1 t : NoDup (tool_ids s) -> find_tool org id s = Some t ->
  updateToolRow now org id name def actor enabled s = Ok s1 -> kept new (tl_ConnectorID t) s s1.
Proof.
  unfold updateToolRow. intros Nd F. rewrite F. destruct (existsb _ _); [done|]. intros [= <-]. apply tool_row_kept; [done|done|].
  intros x. by apply later_moved.
Qed.

Definition nothing (s s' : store) : Prop := s_connectors s' = s_connectors s /\ s_servers s' = s_servers s /\ s_links s' = s_links s /\
  s_tools s' = s_tools s /\ s_credentials s' = s_credentials s.

Lemma nothing_lawful new s s' : NoDup (tool_ids s) -> nothing s s' -> lawful new s s'.
Proof. intros Nd (A & B & E & F & G). split_and!; [by apply ef_none|by unfold tool_ids; rewrite F|by apply tools_same_moved]. Qed.

(** A transaction that fails does nothing. *)
Lemma tx_lawful {A} new org s (body : store -> result store_error (store * A)) s1 r : NoDup (tool_ids s) -> tx org s body = (s1, r) ->
  (forall a, body s = Ok (s1, a) -> lawful new s s1) -> lawful new s s1.
Proof.
  intros Nd T Hb. destruct r as [a|e]; [|apply tx_err in T as ->; by apply nothing_lawful]. apply tx_ok in T as [_ T]. by eapply Hb.
Qed.

(** The identifiers an operation draws. *)
Definition drawn (o : op) (x : string) : Prop :=
  match o with
  | OpInstall _ ids _ id _ _ _ _ _ | OpCreate _ ids _ id _ _ => x = id \/ exists i, x = ids (S i)
  | OpCreateTool _ _ id _ _ _ | OpServerCreate _ _ id _ _ _ _ _ _ => x = id
  | OpResync _ ids _ _ _ _ => exists i, x = ids 4 i
  | _ => False
  end.

Lemma install_lawful now ids nonces id org a hash creds by_ s : NoDup (tool_ids s) ->
  lawful (drawn (OpInstall now ids nonces id org a hash creds by_)) s (Install rc now ids nonces id org a hash creds by_ (fun s => s) s).1.
Proof.
  intros Nt. unfold Install. destruct (missing_credential a creds); [by apply nothing_lawful|].
  destruct (tx _ _ _) as [s1 r] eqn:T. apply (tx_lawful _ _ _ _ _ _ Nt T). clear T. intros u T.
  apply bind_ok in T as (s2 & I & T). apply bind_ok in T as (s3 & K1 & T). apply bind_ok in T as (s4 & K2 & T).
  apply bind_ok in T as (s5 & R & [= <- _]). apply record_same in R as [t ->].
  eapply made_lawful; [|exact I| |done]; [by left|]. eapply kept_trans; [eapply insertTools_kept; [|exact K1]; right; eauto|by eapply setCredentials_kept].
Qed.

Lemma create_lawful now ids nonces id org in_ s : NoDup (tool_ids s) ->
  lawful (drawn (OpCreate now ids nonces id org in_)) s (Create_connector rc now ids nonces id org in_ (fun s => s) s).1.
Proof.
  intros Nt. unfold Create_connector. destruct (String.eqb _ ""); [by apply nothing_lawful|].
  destruct (tx _ _ _) as [s1 r] eqn:T. apply (tx_lawful _ _ _ _ _ _ Nt T). clear T. intros u T.
  apply bind_ok in T as (s2 & I & T). apply bind_ok in T as (s3 & K1 & T). apply bind_ok in T as (s4 & K2 & T).
  apply bind_ok in T as (s5 & R & [= <- _]). apply record_same in R as [t ->].
  eapply made_lawful; [|exact I| |done]; [by left|]. eapply kept_trans; [eapply insertTools_kept; [|exact K1]; right; eauto|by eapply sealAll_kept].
Qed.

Lemma update_lawful new now newID org id in_ others s : NoDup (tool_ids s) -> lawful new s (Update_connector rc now newID org id in_ others s).1.
Proof.
  intros Nt. unfold Update_connector. destruct (tx _ _ _) as [s1 r] eqn:T. apply (tx_lawful _ _ _ _ _ _ Nt T). clear T. intros u T.
  apply update_connector_store in T as (c & t & F & _ & ->). split_and!; [|done|by apply tools_same_moved].
  eapply ef_wrote; [exact F|]. split; try done; cbn; eexists; [split; [|reflexivity]; done|reflexivity].
Qed.

Lemma delete_lawful new now newID org id actor s : NoDup (tool_ids s) -> lawful new s (Delete_connector rc now newID org id actor s).1.
Proof.
  intros Nt. unfold Delete_connector. destruct (tx _ _ _) as [s1 r] eqn:T. apply (tx_lawful _ _ _ _ _ _ Nt T). clear T. intros u T.
  apply bind_ok in T as (c & L & T). apply lockConnector_ok in L as (x & F & ->).
  apply bind_ok in T as (s5 & R & [= <- _]). apply record_same in R as [t ->]. split_and!; [by apply (ef_gone _ _ _ org id x)| |].
  - eapply sublist_NoDup; [exact Nt|]. apply sublist_map_filter.
  - intros y Hy. cbn in Hy. apply elem_of_delete in Hy as [Hy _]. right. eauto using moved_refl.
Qed.

Lemma write_or_drop_tools org id sealed creds s : s_tools (foldl (write_or_drop org id sealed) s creds) = s_tools s.
Proof.
  revert s. induction creds as [|e creds IH]; intros s; [done|]. cbn. rewrite IH. unfold write_or_drop. by destruct (entry _ _).
Qed.

Lemma credentials_lawful new now nonces org id creds expected s : NoDup (tool_ids s) -> lawful new s (SetCredentials now nonces org id creds expected s).1.
Proof.
  intros Nt. unfold SetCredentials. destruct (sealValues _ _ _ _) as [sealed|e]; [|by apply nothing_lawful].
  destruct (tx _ _ _) as [s1 r] eqn:T. apply (tx_lawful _ _ _ _ _ _ Nt T). clear T. intros u T.
  apply bind_ok in T as (c & L & [= <- _]). unfold lockConnectorAt in L.
  apply bind_ok in L as (c' & L & _). apply lockConnector_ok in L as (x & F & ->).
  assert (kept new id s (foldl (write_or_drop org id sealed) s creds)) as K.
  { split_and!; [apply write_or_drop_meanwhile|by apply tools_from_same, write_or_drop_tools|]. unfold tool_ids. by rewrite write_or_drop_tools. }
  exact (kept_bumped new now org id x s _ (s_revisions (foldl (write_or_drop org id sealed) s creds)) F K Nt).
Qed.

Lemma create_tool_lawful now ids id org cid in_ s : NoDup (tool_ids s) ->
  lawful (drawn (OpCreateTool now ids id org cid in_)) s (CreateTool rc now ids id org cid in_ (fun s => s) s).1.
Proof.
  intros Nt. unfold CreateTool. destruct (ti_Definition in_) as [def|]; [|by apply nothing_lawful].
  destruct (tx _ _ _) as [s1 r] eqn:T. apply (tx_lawful _ _ _ _ _ _ Nt T). clear T. intros u T.
  apply create_tool_store in T as (c & text & s2 & t & F & _ & _ & I & ->).
  eapply kept_bumped; [exact F| |done]. apply (insert_kept (eq id)) in I; [|done]. cbn [cn_ID scanConnector] in I.
  rewrite (proj2 (proj2 (find_connector_keys _ _ _ _ F))) in I. destruct I as (I1 & I2 & I3). split_and!; [done| |done].
  intros x Hx. destruct (I2 x Hx) as [[<- ?]|?]; [by left|by right].
Qed.

Lemma update_tool_lawful new now ids org id in_ others s : NoDup (tool_ids s) -> lawful new s (UpdateTool rc now ids org id in_ others s).1.
Proof.
  intros Nt. unfold UpdateTool. destruct (ti_Definition in_) as [def|]; [|by apply nothing_lawful].
  destruct (tx _ _ _) as [s1 r] eqn:T. apply (tx_lawful _ _ _ _ _ _ Nt T). clear T. intros u T.
  apply update_tool_store in T as (row & c & b & text & s2 & t & F & Fc & _ & _ & _ & _ & U & ->).
  eapply kept_bumped; [exact Fc| |done]. eapply kept_trans; [by eapply updateToolRow_kept|]. destruct (BehaviourChanged _ _); [apply cancel_kept|apply kept_refl].
Qed.

(** What an effect says is about these tables only. *)
Lemma lawful_ext new s s1 s2 : nothing s1 s2 -> lawful new s s1 -> lawful new s s2.
Proof.
  intros (E1 & E2 & E3 & E4 & E5) (E & Nd & M). split_and!; [|by unfold tool_ids; rewrite E4|by intros t; rewrite E4; apply M].
  destruct E as [a b c d e|org cid c F [A1 A2 A3 A4 A5]|c s3 Hn Hc -> [A1 A2 A3 A4 A5]|org cid c F A1 A2 A3 A4 A5|sid A1 A2 A3 A4 A5 A6 A7 A8 A9].
  - apply ef_none; congruence.
  - eapply ef_wrote; [exact F|]. split; rewrite ?E1, ?E2, ?E3, ?E4, ?E5; done.
  - eapply ef_made; [exact Hn|exact Hc|reflexivity|]. split; rewrite ?E1, ?E2, ?E3, ?E4, ?E5; done.
  - eapply ef_gone; [exact F|congruence..].
  - apply (ef_server _ _ _ sid); unfold links_of, find_server in *; rewrite ?E1, ?E2, ?E3, ?E4, ?E5; done.
Qed.

Lemma delete_tool_lawful new now ids org id ack actor s : NoDup (tool_ids s) -> lawful new s (DeleteTool rc now ids org id ack actor s).1.
Proof.
  intros Nt. unfold DeleteTool. destruct (tx _ _ _) as [s1 r] eqn:T. apply (tx_lawful _ _ _ _ _ _ Nt T). clear T. intros u T.
  apply delete_tool_store in T as (row & c & t & F & Fc & _ & ->).
  eapply lawful_ext; [|apply (kept_bumped new now org (tl_ConnectorID row) c s (cancelApprovals now org id "the tool was deleted" (deleteToolRow org id s)) t Fc)]; [done| |done].
  eapply kept_trans; [by apply deleted_kept|apply cancel_kept].
Qed.

Lemma switch_tool_lawful new now ids org id enabled actor s : NoDup (tool_ids s) -> lawful new s (SetToolEnabled rc now ids org id enabled actor s).1.
Proof.
  intros Nt. unfold SetToolEnabled. destruct (tx _ _ _) as [s1 r] eqn:T. apply (tx_lawful _ _ _ _ _ _ Nt T). clear T. intros u T.
  apply switch_tool_store in T as [->|(row & c & t & F & Fc & _ & ->)]; [by apply nothing_lawful|].
  eapply kept_bumped; [exact Fc| |done]. apply tool_row_kept; [done|done|]. intros x. by apply later_moved.
Qed.

Lemma resync_lawful now ids bundled org id in_ s : NoDup (tool_ids s) ->
  lawful (drawn (OpResync now ids bundled org id in_)) s (ApplyResync rc now ids bundled org id in_ s).1.
Proof.
  intros Nt. destruct (ApplyResync _ _ _ _ _ _ _ _) as [s1 [p|e]] eqn:A.
  - apply (resync_wrote (drawn (OpResync now ids bundled org id in_))) in A as [->|(Nt' & M & c & F & W)]; [by apply nothing_lawful| |intros i; cbn; eauto|done].
    split_and!; [by eapply ef_wrote|done|by apply (tools_from_moved _ id)].
  - unfold ApplyResync in A. destruct (String.eqb _ ""); [injection A as <- _; by apply nothing_lawful|].
    destruct (ApplyResync_tx _ _ _ _ _ _ _ _) as [[? ?]|]; [done|]. injection A as <- _. by apply nothing_lawful.
Qed.

Lemma effect_new (new new' : string -> Prop) s s' : (forall x, new x -> new' x) -> effect new s s' -> effect new' s s'.
Proof.
  intros H [a b c d e|org cid c F W|c s3 Hn Hc E M|org cid c F A1 A2 A3 A4 A5|sid A1 A2 A3 A4 A5 A6 A7 A8 A9].
  - by apply ef_none.
  - by eapply ef_wrote.
  - eapply ef_made; eauto.
  - by eapply ef_gone.
  - apply (ef_server _ _ _ sid); try done. intros v Hv. destruct (A7 v Hv); auto.
Qed.

Lemma servers_lawful o s : ids_ok s -> match o with OpServerCreate _ _ _ _ _ _ _ _ _ | OpServerUpdate _ _ _ _ _ | OpServerDelete _ _ _ _ _ => True | _ => False end ->
  lawful (drawn o) s (run_op o s).1.
Proof.
  intros (_ & Nt & Ns) Ho. destruct o; try done; cbn [run_op outcome fst].
  - unfold Create_server. destruct (String.eqb (TrimSpace name) ""); [by apply nothing_lawful|].
    destruct (negb _); [by apply nothing_lawful|]. destruct (String.eqb org ""); [by apply nothing_lawful|].
    destruct (Create_tx _ _ _ _ _ _ _) as [s1|] eqn:T; [|by apply nothing_lawful].
    apply server_create_effect in T as [E Et]; [|done]. cbn in *.
    split_and!; [eapply effect_new; [|exact E]; by intros ? <-|by unfold tool_ids; rewrite Et|by apply tools_same_moved].
  - unfold Update_server. destruct (match su_Sessions in_ with Some m => _ | None => _ end); [by apply nothing_lawful|].
    destruct (String.eqb org ""); [by apply nothing_lawful|].
    destruct (Update_server_tx _ _ _ _ _ _ _) as [s1|] eqn:T; [|by apply nothing_lawful].
    apply server_update_effect in T as (E & Et & _); [|done]. cbn. split_and!; [done|by unfold tool_ids; rewrite Et|by apply tools_same_moved].
  - unfold Delete_server. destruct (String.eqb org ""); [by apply nothing_lawful|].
    destruct (Delete_server_tx _ _ _ _ _ _ _) as [s1|] eqn:T; [|by apply nothing_lawful].
    apply server_delete_effect in T as [E Et]; [|done]. cbn. split_and!; [done|by unfold tool_ids; rewrite Et|by apply tools_same_moved].
Qed.

(** Every operation has one of the effects. *)
Lemma run_op_lawful o s : ids_ok s -> lawful (drawn o) s (run_op o s).1.
Proof.
  intros I. pose proof I as (_ & Nt & _). destruct o; cbn [run_op outcome fst].
  - by apply install_lawful.
  - by apply create_lawful.
  - by apply update_lawful.
  - by apply delete_lawful.
  - by apply credentials_lawful.
  - by apply create_tool_lawful.
  - by apply update_tool_lawful.
  - by apply delete_tool_lawful.
  - by apply switch_tool_lawful.
  - by apply resync_lawful.
  - by apply (servers_lawful (OpServerCreate now newID id org name slug instructions cids by_)).
  - by apply (servers_lawful (OpServerUpdate now newID org id in_)).
  - by apply (servers_lawful (OpServerDelete now newID org id actor)).
  - by apply nothing_lawful.
  - by apply nothing_lawful.
Qed.

(** ** Versions *)

Lemma lawful_ids_ok new s s' : ids_ok s -> lawful new s s' -> ids_ok s'.
Proof.
  intros (Nc & Nt & Ns) (E & Nt' & _). split_and!; [|done|].
  - destruct E as [Ec _ _ _ _|org cid c F [(f & Hf & Ec) _ _ _ _]|c s1 _ Hc -> [Ec _ _ _ _]|org cid c F Ec _ _ _ _|sid Ec _ _ _ _ _ _ _ _]; rewrite Ec.
    + done.
    + rewrite map_update; [done|]. intros x. apply Hf.
    + cbn. rewrite map_app. apply NoDup_app. split_and!; [done| |apply NoDup_singleton]. intros y Hy Hn. apply list_elem_of_singleton in Hn as ->.
      apply list_elem_of_In, in_map_iff in Hy as (x & Ex & Hx%list_elem_of_In). by destruct (Hc x).
    + eapply sublist_NoDup; [exact Nc|apply sublist_map_filter].
    + done.
  - destruct E as [_ Es _ _ _|org cid c F [_ (now & Es) _ _ _]|c s1 _ Hc -> [_ Es _ _ _]|org cid c F _ Es _ _ _|sid _ _ _ _ _ _ _ _ Es]; [by rewrite Es|by rewrite Es, map_update|by rewrite Es|by rewrite Es|done].
Qed.

Definition connector_ids (s : store) : list string := map cr_ID (s_connectors s).

Lemma find_connector_in org id s c : NoDup (connector_ids s) -> c ∈ s_connectors s -> cr_OrgID c = org -> cr_ID c = id -> find_connector org id s = Some c.
Proof.
  intros Nd Hc Eo Ei. unfold find_connector. destruct (List.find _ _) as [x|] eqn:F.
  - apply find_elem in F as [Hx P]. unfold sees_connector in P. bool_prop. f_equal. apply (NoDup_map_inj cr_ID (s_connectors s)); [done..|congruence].
  - exfalso. rewrite list_elem_of_In in Hc. apply find_none with (x := c) in F; [|done]. unfold sees_connector in F. by rewrite Eo, Ei, !String.eqb_refl in F.
Qed.

Definition tools_on (cid : string) (s : store) : list tool_row := List.filter (fun t => String.eqb (tl_ConnectorID t) cid) (s_tools s).
Definition credentials_on (cid : string) (s : store) : list credential_row := List.filter (fun d => String.eqb (cd_ConnectorID d) cid) (s_credentials s).

(** A connector's row, its tools and its credentials, as they were. *)
Definition same_connector (cid : string) (c c' : connector_row) (s s' : store) : Prop :=
  c' = c /\ tools_on cid s' = tools_on cid s /\ credentials_on cid s' = credentials_on cid s.

Lemma filter_twice {A} (p q : A -> bool) l : List.filter p (List.filter q l) = List.filter (fun x => q x && p x) l.
Proof. induction l as [|x l IH]; [done|]. cbn. destruct (q x); cbn; rewrite IH; [done|done]. Qed.

Lemma gone_others {A} (key : A -> string) cid id l : id <> cid ->
  List.filter (fun x => String.eqb (key x) id) (delete_where (fun x => String.eqb (key x) cid) l) = List.filter (fun x => String.eqb (key x) id) l.
Proof. intros Hn. apply (other_delete key _ _ cid); [done|]. intros x _ P. by bool_prop. Qed.

(** One operation moves a connector's version by one, or changes nothing of
    it. *)
Lemma connector_step new org id s s' c c' : ids_ok s -> lawful new s s' -> find_connector org id s = Some c -> find_connector org id s' = Some c' ->
  same_connector id c c' s s' \/ cr_Version c' = (cr_Version c + 1)%Z.
Proof.
  intros (Nc & Nt & Ns) (E & _) F F'. pose proof (find_connector_keys _ _ _ _ F) as (Hc & Eo & Ei).
  destruct E as [Ec Es El Et Ed|o cid x Fx [(f & Hf & Ec) _ _ Ht Hd]|x s1 _ Hx -> [Ec _ _ Ht Hd]|o cid x Fx Ec _ _ Et Ed|sid Ec Et Ed _ _ _ _ _ _].
  - left. unfold find_connector in F'. rewrite Ec in F'. unfold same_connector, tools_on, credentials_on. rewrite Et, Ed. split; [|done].
    unfold find_connector in F. congruence.
  - unfold find_connector in F'. rewrite Ec in F'. rewrite find_update in F'.
    2: { intros y. unfold sees_connector. by destruct (Hf y) as (-> & -> & _). }
    unfold find_connector in F. rewrite F in F'. cbn in F'. injection F' as <-. destruct (sees_connector o cid c) eqn:P.
    + right. by destruct (Hf c) as (_ & _ & ->).
    + left. destruct (decide (id = cid)) as [->|Hn].
      * exfalso. apply find_connector_keys in Fx as (Hx & Eox & Eix).
        assert (x = c) as -> by (apply (NoDup_map_inj cr_ID (s_connectors s)); [done..|congruence]).
        unfold sees_connector in P. by rewrite Eox, Eix, !String.eqb_refl in P.
      * split_and!; [done|by apply Ht|by apply Hd].
  - left. unfold find_connector in F'. rewrite Ec in F'. cbn in F'. rewrite find_then in F'. unfold find_connector in F. rewrite F in F'. injection F' as <-.
    assert (id <> cr_ID x) as Hn by (intros E; apply (Hx c Hc); congruence).
    split_and!; [done|by apply Ht|by apply Hd].
  - left. assert (id <> cid) as Hn.
    { intros ->. apply find_connector_keys in F' as (Hc' & Eo' & Ei'). rewrite Ec in Hc'. cbn in Hc'. apply elem_of_delete in Hc' as [Hc' P].
      apply find_connector_keys in Fx as (Hx & Eox & Eix).
      assert (c' = x) as -> by (apply (NoDup_map_inj cr_ID (s_connectors s)); [done..|congruence]). unfold sees_connector in P. by rewrite Eox, Eix, !String.eqb_refl in P. }
    unfold same_connector, tools_on, credentials_on. rewrite Et, Ed. cbn. split_and!; [|by apply gone_others|by apply gone_others].
    apply find_connector_keys in F' as (Hc' & Eo' & Ei'). rewrite Ec in Hc'. cbn in Hc'. apply elem_of_delete in Hc' as [Hc' _].
    apply (NoDup_map_inj cr_ID (s_connectors s)); [done..|congruence].
  - left. unfold find_connector in F'. rewrite Ec in F'. unfold same_connector, tools_on, credentials_on. rewrite Et, Ed. split; [|done].
    unfold find_connector in F. congruence.
Qed.

(** A server moves its version by one, or nothing of it changes: its row,
    its links, and the connectors of its organisation on it that are still
    there. *)
Definition same_server (org sid : string) (v v' : server_row) (s s' : store) : Prop :=
  v' = v /\ links_of sid s' = links_of sid s /\
  forall cid c c', linked org sid cid s = true -> find_connector org cid s = Some c -> find_connector org cid s' = Some c' ->
    same_connector cid c c' s s'.

Definition links_kept (sid : string) (s s' : store) : Prop :=
  forall l, l ∈ links_of sid s -> exists c, c ∈ s_connectors s' /\ cr_ID c = ln_ConnectorID l.

Lemma same_connector_tables cid c c' s s' : c' = c -> s_tools s' = s_tools s -> s_credentials s' = s_credentials s -> same_connector cid c c' s s'.
Proof. intros -> Et Ed. unfold same_connector, tools_on, credentials_on. by rewrite Et, Ed. Qed.

Lemma linked_of org sid cid s : linked org sid cid s = existsb (fun l => String.eqb (ln_OrgID l) org && String.eqb (ln_ConnectorID l) cid) (links_of sid s).
Proof.
  unfold linked, links_of. induction (s_links s) as [|l ls IH]; [done|]. cbn. rewrite IH. destruct (String.eqb (ln_ServerID l) sid); cbn;
    destruct (String.eqb (ln_OrgID l) org); done.
Qed.

Lemma filter_deleted {A} (key1 key2 : A -> string) sid cid l :
  (forall x, x ∈ List.filter (fun x => String.eqb (key1 x) sid) l -> key2 x <> cid) ->
  List.filter (fun x => String.eqb (key1 x) sid) (delete_where (fun x => String.eqb (key2 x) cid) l) = List.filter (fun x => String.eqb (key1 x) sid) l.
Proof.
  intros Hk. unfold delete_where. rewrite filter_twice. apply List.filter_ext_in. intros x Hx. destruct (String.eqb (key1 x) sid) eqn:E; [|by rewrite andb_false_r].
  destruct (String.eqb_spec (key2 x) cid) as [E2|]; [|done]. exfalso. apply (Hk x); [|done]. rewrite list_elem_of_In, filter_In. done.
Qed.

Lemma server_step new org sid s s' v v' : ids_ok s -> lawful new s s' -> links_kept sid s s' ->
  find_server org sid s = Some v -> find_server org sid s' = Some v' ->
  same_server org sid v v' s s' \/ se_Version v' = (se_Version v + 1)%Z.
Proof.
  intros I L K F F'. pose proof I as (Nc & Nt & Ns). pose proof L as (E & _). pose proof (find_server_keys _ _ _ _ F) as (Hv & Eo & Ei).
  destruct E as [Ec Es El Et Ed|o cid x Fx [(f & Hf & Ec) (now & Es) El Ht Hd]|x s1 _ Hx -> [Ec Es El Ht Hd]|o cid x Fx Ec Es El Et Ed|i Ec Et Ed Hl Hs Hv1 _ _ _].
  - left. split_and!; [unfold find_server in *; congruence|unfold links_of; by rewrite El|]. intros cid c c' _ Fc Fc'. unfold find_connector in *.
    apply same_connector_tables; congruence.
  - unfold find_server in F'. rewrite Es in F'. rewrite find_update in F' by done. unfold find_server in F. rewrite F in F'. cbn in F'. injection F' as <-.
    destruct (serves o cid s v) eqn:S; [by right|]. left. split_and!; [done|unfold links_of; by rewrite El|]. intros k c c' Lk Fc Fc'.
    destruct (connector_step _ _ _ _ _ _ _ I L Fc Fc') as [?|V]; [done|]. exfalso.
    assert (k = cid) as ->.
    { destruct (decide (k = cid)) as [|Hn]; [done|]. exfalso. unfold find_connector in Fc'. rewrite Ec, find_update in Fc'.
      2: { intros y. unfold sees_connector. by destruct (Hf y) as (-> & -> & _). }
      unfold find_connector in Fc. rewrite Fc in Fc'. cbn in Fc'. injection Fc' as <-. apply find_elem in Fc as [_ P]. unfold sees_connector in *. bool_prop.
      destruct (String.eqb_spec (cr_ID c) cid); [congruence|]. rewrite andb_false_r in V. lia. }
    assert (o = org) as ->.
    { apply find_connector_keys in Fx as (Hx & Eox & Eix). apply find_connector_keys in Fc as (Hc & Eoc & Eic).
      assert (x = c) as -> by (apply (NoDup_map_inj cr_ID (s_connectors s)); [done..|congruence]). congruence. }
    unfold serves in S. by rewrite Eo, Ei, String.eqb_refl, Lk in S.
  - left. split_and!; [unfold find_server in *; rewrite Es in F'; cbn in F'; congruence|unfold links_of; by rewrite El|]. intros cid c c' _ Fc Fc'.
    destruct (connector_step _ _ _ _ _ _ _ I L Fc Fc') as [?|V]; [done|]. exfalso. unfold find_connector in *. rewrite Ec in Fc'. cbn in Fc'.
    rewrite find_then, Fc in Fc'. injection Fc' as <-. lia.
  - left. assert (forall l, l ∈ links_of sid s -> ln_ConnectorID l <> cid) as Hg.
    { intros l Hin Hl. destruct (K l Hin) as (c & Hc & Ecl). rewrite Ec in Hc. cbn in Hc. apply elem_of_delete in Hc as [Hc P].
      apply find_connector_keys in Fx as (Hx & Eox & Eix).
      assert (c = x) as -> by (apply (NoDup_map_inj cr_ID (s_connectors s)); [done..|congruence]). unfold sees_connector in P.
      by rewrite Eox, Eix, !String.eqb_refl in P. }
    split_and!; [unfold find_server in *; congruence|unfold links_of; rewrite El; by apply filter_deleted|]. intros k c c' Lk Fc Fc'.
    destruct (connector_step _ _ _ _ _ _ _ I L Fc Fc') as [?|V]; [done|]. exfalso.
    apply find_connector_keys in Fc as (Hc & _ & Eic). apply find_connector_keys in Fc' as (Hc' & _ & Eic'). rewrite Ec in Hc'. cbn in Hc'.
    apply elem_of_delete in Hc' as [Hc' _]. assert (c' = c) as -> by (apply (NoDup_map_inj cr_ID (s_connectors s)); [done..|congruence]). lia.
  - destruct (decide (sid = i)) as [->|Hn]; [right; by apply (Hv1 org)|]. left. rewrite Hs in F' by done.
    split_and!; [congruence|by apply Hl|]. intros cid c c' _ Fc Fc'. unfold find_connector in *. apply same_connector_tables; congruence.
Qed.

(** ** Histories *)

Inductive history : (string -> Prop) -> store -> list (op * result op_error unit) -> store -> Prop :=
| hist_nil used s : history used s [] s
| hist_cons used s o h s' : (forall x, drawn o x -> ~ used x) -> history (fun x => used x \/ drawn o x) (run_op o s).1 h s' ->
    history used s ((o, (run_op o s).2) :: h) s'.

(** The identifiers in the tables have been drawn. *)
Definition known (used : string -> Prop) (s : store) : Prop :=
  (forall c, c ∈ s_connectors s -> used (cr_ID c)) /\ (forall t, t ∈ s_tools s -> used (tl_ID t)) /\ (forall v, v ∈ s_servers s -> used (se_ID v)).

Lemma effect_connectors new s s' c' : effect new s s' -> c' ∈ s_connectors s' ->
  new (cr_ID c') \/ exists c, c ∈ s_connectors s /\ cr_ID c = cr_ID c' /\ cr_OrgID c = cr_OrgID c'.
Proof.
  intros [Ec _ _ _ _|o cid x Fx [(f & Hf & Ec) _ _ _ _]|x s1 Hn Hx -> [Ec _ _ _ _]|o cid x Fx Ec _ _ _ _|i Ec _ _ _ _ _ _ _ _] Hc; rewrite Ec in Hc.
  - right; eauto.
  - right. apply elem_of_update in Hc as (y & Hy & ->). exists y. destruct (sees_connector o cid y); [|done]. by destruct (Hf y) as (-> & -> & _).
  - cbn in Hc. apply elem_snoc in Hc as [Hc| ->]; [right; eauto|by left].
  - cbn in Hc. apply elem_of_delete in Hc as [Hc _]. right; eauto.
  - right; eauto.
Qed.

Lemma effect_servers new s s' v' : effect new s s' -> v' ∈ s_servers s' ->
  new (se_ID v') \/ exists v, v ∈ s_servers s /\ se_ID v = se_ID v' /\ se_OrgID v = se_OrgID v'.
Proof.
  intros [_ Es _ _ _|o cid x Fx [_ (now & Es) _ _ _]|x s1 Hn Hx -> [_ Es _ _ _]|o cid x Fx _ Es _ _ _|i _ _ _ _ _ _ Hv _ _] Hin; [| | | |by apply Hv];
    rewrite Es in Hin; right; [by eauto| |by eauto..].
  apply elem_of_update in Hin as (y & Hy & ->). exists y. by destruct (serves _ _ _ y).
Qed.

Lemma known_step used o s : ids_ok s -> known used s -> known (fun x => used x \/ drawn o x) (run_op o s).1.
Proof.
  intros I (Kc & Kt & Ks). pose proof (run_op_lawful o s I) as (E & _ & M). split_and!.
  - intros c Hc. destruct (effect_connectors _ _ _ _ E Hc) as [?|(x & Hx & <- & _)]; [by right|left; by apply Kc].
  - intros t Ht. destruct (M t Ht) as [?|(x & Hx & -> & _)]; [by right|left; by apply Kt].
  - intros v Hv. destruct (effect_servers _ _ _ _ E Hv) as [?|(x & Hx & <- & _)]; [by right|left; by apply Ks].
Qed.

Lemma history_app used s h1 h2 s' : history used s (h1 ++ h2) s' -> exists used1 s1, history used s h1 s1 /\ history used1 s1 h2 s' /\
  (ids_ok s -> known used s -> ids_ok s1 /\ known used1 s1) /\ (forall x, used x -> used1 x).
Proof.
  revert used s. induction h1 as [|[o r] h1 IH]; intros used s Hh.
  - exists used, s. split_and!; [constructor|done|done|done].
  - cbn in Hh. inversion Hh as [|u s0 o' h' s1 Hd Hr E1 E2 E3]; subst. destruct (IH _ _ Hr) as (used1 & s1 & H1 & H2 & K & U).
    exists used1, s1. split_and!; [by constructor|done| |auto]. intros I Kn. apply K; [by eapply lawful_ids_ok, run_op_lawful|by apply known_step].
Qed.

Lemma history_ok used s h s' : history used s h s' -> ids_ok s -> known used s -> ids_ok s'.
Proof.
  intros Hh. induction Hh as [used s|used s o h s' Hd Hh IH]; intros I K; [done|]. apply IH; [by eapply lawful_ids_ok, run_op_lawful|by apply known_step].
Qed.

(** Rows of identifiers drawn before come from rows of before. *)
Lemma connector_before used s h s' : history used s h s' -> ids_ok s -> known used s ->
  forall c', c' ∈ s_connectors s' -> used (cr_ID c') -> exists c, c ∈ s_connectors s /\ cr_ID c = cr_ID c' /\ cr_OrgID c = cr_OrgID c'.
Proof.
  intros Hh. induction Hh as [used s|used s o h s' Hd Hh IH]; intros I K c' Hc Hu; [eauto|].
  pose proof (run_op_lawful o s I) as L.
  destruct (IH (lawful_ids_ok _ _ _ I L) (known_step used o s I K) c' Hc (or_introl Hu)) as (c1 & H1 & E1 & O1).
  destruct (effect_connectors _ _ _ _ (proj1 L) H1) as [Hn|(c & Hc0 & E0 & O0)]; [by destruct (Hd (cr_ID c1)); [|rewrite E1]|].
  exists c. split_and!; congruence.
Qed.

Lemma tool_before used s h s' : history used s h s' -> ids_ok s -> known used s ->
  forall t', t' ∈ s_tools s' -> used (tl_ID t') -> exists t, t ∈ s_tools s /\ moved t t'.
Proof.
  intros Hh. induction Hh as [used s|used s o h s' Hd Hh IH]; intros I K t' Ht Hu; [eauto using moved_refl|].
  pose proof (run_op_lawful o s I) as L.
  destruct (IH (lawful_ids_ok _ _ _ I L) (known_step used o s I K) t' Ht (or_introl Hu)) as (t1 & H1 & M1).
  destruct (proj2 (proj2 L) t1 H1) as [Hn|(t & Ht0 & M0)]; [destruct M1 as (E1 & _); by destruct (Hd (tl_ID t1)); [|rewrite <- E1]|].
  exists t. split; [done|by eapply moved_trans].
Qed.

Lemma find_connector_later used s h s' org id c' : history used s h s' -> ids_ok s -> known used s -> find_connector org id s' = Some c' -> used id ->
  exists c, find_connector org id s = Some c.
Proof.
  intros Hh I K F Hu. apply find_connector_keys in F as (Hc' & Eo & Ei).
  destruct (connector_before _ _ _ _ Hh I K c' Hc') as (c & Hc & E1 & E2); [by rewrite Ei|]. exists c.
  apply find_connector_in; [apply I|done|congruence|congruence].
Qed.

(** Through a history a connector is as it was, or at a later version. *)
Lemma connector_versions used s h s' org id c c' : history used s h s' -> ids_ok s -> known used s ->
  find_connector org id s = Some c -> find_connector org id s' = Some c' -> same_connector id c c' s s' \/ (cr_Version c < cr_Version c')%Z.
Proof.
  intros Hh. revert c. induction Hh as [used s|used s o h s' Hd Hh IH]; intros c I K F F'.
  - left. rewrite F in F'. injection F' as <-. done.
  - pose proof (run_op_lawful o s I) as L. pose proof (lawful_ids_ok _ _ _ I L) as I1. pose proof (known_step used o s I K) as K1.
    assert (used id) as Hu by (apply find_connector_keys in F as (Hc & _ & <-); by apply K).
    destruct (find_connector_later _ _ _ _ _ _ _ Hh I1 K1 F' (or_introl Hu)) as [c1 F1].
    destruct (IH _ I1 K1 F1 F') as [(E1 & T1 & D1)|V1]; destruct (connector_step _ _ _ _ _ _ _ I L F F1) as [(E2 & T2 & D2)|V2].
    + left. split_and!; congruence.
    + right. subst. lia.
    + right. subst. lia.
    + right. lia.
Qed.

Lemma find_server_in org id s v : NoDup (map se_ID (s_servers s)) -> v ∈ s_servers s -> se_OrgID v = org -> se_ID v = id -> find_server org id s = Some v.
Proof.
  intros Nd Hv Eo Ei. unfold find_server. destruct (List.find _ _) as [x|] eqn:F.
  - apply find_elem in F as [Hx P]. unfold sees_server in P. bool_prop. f_equal. apply (NoDup_map_inj se_ID (s_servers s)); [done..|congruence].
  - exfalso. rewrite list_elem_of_In in Hv. apply find_none with (x := v) in F; [|done]. unfold sees_server in F. by rewrite Eo, Ei, !String.eqb_refl in F.
Qed.

Lemma server_before used s h s' : history used s h s' -> ids_ok s -> known used s ->
  forall v', v' ∈ s_servers s' -> used (se_ID v') -> exists v, v ∈ s_servers s /\ se_ID v = se_ID v' /\ se_OrgID v = se_OrgID v'.
Proof.
  intros Hh. induction Hh as [used s|used s o h s' Hd Hh IH]; intros I K c' Hc Hu; [eauto|].
  pose proof (run_op_lawful o s I) as L.
  destruct (IH (lawful_ids_ok _ _ _ I L) (known_step used o s I K) c' Hc (or_introl Hu)) as (c1 & H1 & E1 & O1).
  destruct (effect_servers _ _ _ _ (proj1 L) H1) as [Hn|(c & Hc0 & E0 & O0)]; [by destruct (Hd (se_ID c1)); [|rewrite E1]|].
  exists c. split_and!; congruence.
Qed.

Lemma find_server_later used s h s' org id v' : history used s h s' -> ids_ok s -> known used s -> find_server org id s' = Some v' -> used id ->
  exists v, find_server org id s = Some v.
Proof.
  intros Hh I K F Hu. apply find_server_keys in F as (Hv' & Eo & Ei).
  destruct (server_before _ _ _ _ Hh I K v' Hv') as (v & Hv & E1 & E2); [by rewrite Ei|]. exists v.
  apply find_server_in; [apply I|done|congruence|congruence].
Qed.

(** A step never lowers a server's version, deletions or not. *)
Lemma server_monotone new org sid s s' v v' : ids_ok s -> effect new s s' -> find_server org sid s = Some v -> find_server org sid s' = Some v' ->
  (se_Version v <= se_Version v')%Z.
Proof.
  intros (_ & _ & Ns) E F F'. unfold find_server in *.
  destruct E as [_ Es _ _ _|o cid x Fx [_ (now & Es) _ _ _]|x s1 _ _ -> [_ Es _ _ _]|o cid x Fx _ Es _ _ _|i _ _ _ _ Hs Hv1 _ _ _];
    try (rewrite Es in F'; cbn in F'; rewrite F in F'; by injection F' as <-).
  - rewrite Es, find_update, F in F' by done. cbn in F'. injection F' as <-. destruct (serves _ _ _ v); cbn; lia.
  - destruct (decide (sid = i)) as [->|Hn]; [rewrite (Hv1 org v v' F F'); lia|]. unfold find_server in Hs. rewrite (Hs org sid Hn), F in F'. by injection F' as <-.
Qed.

Lemma server_versions used s h s' org id v v' : history used s h s' -> ids_ok s -> known used s ->
  find_server org id s = Some v -> find_server org id s' = Some v' -> (se_Version v <= se_Version v')%Z.
Proof.
  intros Hh. revert v. induction Hh as [used s|used s o h s' Hd Hh IH]; intros v I K F F'.
  - rewrite F in F'. by injection F' as <-.
  - pose proof (run_op_lawful o s I) as L. pose proof (lawful_ids_ok _ _ _ I L) as I1. pose proof (known_step used o s I K) as K1.
    assert (used id) as Hu by (apply find_server_keys in F as (Hv & _ & <-); by apply K).
    destruct (find_server_later _ _ _ _ _ _ _ Hh I1 K1 F' (or_introl Hu)) as [v1 F1].
    pose proof (IH _ I1 K1 F1 F'). pose proof (server_monotone _ _ _ _ _ _ _ I (proj1 L) F F1). lia.
Qed.

(** The connectors a server had are still there, at the end and so all
    along. *)
Lemma links_kept_mid used s h s' sid s0 : history used s h s' -> ids_ok s -> known used s ->
  (forall l, l ∈ links_of sid s0 -> used (ln_ConnectorID l)) -> links_kept sid s0 s' -> links_kept sid s0 s.
Proof.
  intros Hh I K U Lk l Hl. destruct (Lk l Hl) as (c' & Hc' & E).
  destruct (connector_before _ _ _ _ Hh I K c' Hc') as (c & Hc & E1 & _); [rewrite E; by apply U|]. exists c. by rewrite E1.
Qed.

Lemma same_surface used s h s' org sid v v' : history used s h s' -> ids_ok s -> known used s ->
  (forall l, l ∈ links_of sid s -> used (ln_ConnectorID l)) -> links_kept sid s s' ->
  find_server org sid s = Some v -> find_server org sid s' = Some v' -> se_Version v' = se_Version v -> same_server org sid v v' s s'.
Proof.
  intros Hh. revert v. induction Hh as [used s|used s o h s' Hd Hh IH]; intros v I K U Lk F F' V.
  - rewrite F in F'. injection F' as <-. split_and!; [done|done|]. intros cid c c' _ Fc Fc'. rewrite Fc in Fc'. injection Fc' as <-. done.
  - pose proof (run_op_lawful o s I) as L. pose proof (lawful_ids_ok _ _ _ I L) as I1. pose proof (known_step used o s I K) as K1.
    assert (used sid) as Hu by (apply find_server_keys in F as (Hv & _ & <-); by apply K).
    destruct (find_server_later _ _ _ _ _ _ _ Hh I1 K1 F' (or_introl Hu)) as [v1 F1].
    pose proof (server_versions _ _ _ _ _ _ _ _ Hh I1 K1 F1 F') as V1. pose proof (server_monotone _ _ _ _ _ _ _ I (proj1 L) F F1) as V0.
    assert (links_kept sid s (run_op o s).1) as Lk1 by (eapply links_kept_mid; [exact Hh|done|done|intros l Hl; left; by apply U|done]).
    destruct (server_step _ _ _ _ _ _ _ I L Lk1 F F1) as [(E1 & El & Hc1)|V2]; [|lia]. subst v1.
    destruct (IH v I1 K1) as (E2 & El2 & Hc2); [intros l; rewrite El; intros Hl; left; by apply U|by intros l; rewrite El; apply Lk|done|done|done|].
    split_and!; [done|congruence|]. intros cid c c' Hlk Fc Fc'.
    assert (used cid) as Huc by (apply find_connector_keys in Fc as (Hin & _ & <-); by apply K).
    destruct (find_connector_later _ _ _ _ _ _ _ Hh I1 K1 Fc' (or_introl Huc)) as [c1 Fc1].
    destruct (Hc1 cid c c1 Hlk Fc Fc1) as (A1 & A2 & A3).
    destruct (Hc2 cid c1 c') as (B1 & B2 & B3); [by rewrite linked_of, El, <- linked_of|done|done|]. split_and!; congruence.
Qed.

(** *** What a client is shown *)

(** A connector without the mark that an upstream token is stored, which
    comes and goes with the tokens. *)
Definition blind (c : Connector) : Connector :=
  mkConnector (cn_ID c) (cn_OrgID c) (cn_Name c) (cn_Transport c) (cn_Auth c) (cn_Instructions c) (cn_CatalogSlug c) (cn_CatalogHash c)
    (cn_ReadOnly c) (cn_Enabled c) (cn_Version c) (cn_ToolCount c) (cn_Credentials c) (cn_CreatedAt c) (cn_UpdatedAt c) false.

Definition shown_tools (l : list (StoredTool * Connector)) : list (StoredTool * Connector) := map (fun p => (p.1, blind p.2)) l.

Lemma tool_on_split org cid s : List.filter (tool_on org cid) (s_tools s) = List.filter (fun t => String.eqb (tl_OrgID t) org) (tools_on cid s).
Proof. unfold tools_on. rewrite filter_twice. apply filter_ext. intros t. unfold tool_on. apply andb_comm. Qed.

Lemma same_tools org cid c c' s s' : same_connector cid c c' s s' -> tools_of org cid s' = tools_of org cid s.
Proof. intros (_ & T & _). unfold tools_of. by rewrite !tool_on_split, T. Qed.

Lemma credentials_split org cid name s :
  List.find (fun d => String.eqb (cd_OrgID d) org && String.eqb (cd_ConnectorID d) cid && String.eqb (cd_Name d) name) (s_credentials s)
    = List.find (fun d => String.eqb (cd_OrgID d) org && String.eqb (cd_Name d) name) (credentials_on cid s).
Proof.
  unfold credentials_on. induction (s_credentials s) as [|d l IH]; [done|]. cbn. rewrite IH.
  destruct (String.eqb (cd_ConnectorID d) cid) eqn:E; cbn; rewrite ?E, ?andb_true_r, ?andb_false_r; [|done].
  by destruct (String.eqb (cd_OrgID d) org && String.eqb (cd_Name d) name).
Qed.

Lemma same_blind org cid c c' s s' : find_connector org cid s = Some c -> same_connector cid c c' s s' ->
  blind (filled org s' (scanConnector s' c')) = blind (filled org s (scanConnector s c)).
Proof.
  intros F (-> & T & Dd). apply find_connector_keys in F as (_ & _ & Ei). unfold blind, filled, scanConnector. cbn. f_equal.
  - do 2 f_equal.
    assert (forall s0, List.filter (fun t => tool_on (cr_OrgID c) (cr_ID c) t && tl_Enabled t) (s_tools s0)
      = List.filter tl_Enabled (List.filter (fun t => String.eqb (tl_OrgID t) (cr_OrgID c)) (tools_on cid s0))) as H.
    { intros s0. rewrite <- tool_on_split, filter_twice. by rewrite Ei. }
    by rewrite !H, T.
  - apply map_ext. intros name. rewrite !credentials_split, Ei, Dd. done.
Qed.

(** One connector of the surface is the same. *)
Definition alike_on (org cid : string) (s s' : store) : Prop :=
  match find_connector org cid s, find_connector org cid s' with
  | Some c, Some c' => same_connector cid c c' s s'
  | None, None => True
  | _, _ => False
  end.

Lemma Get_connector_alike org cid s s' : org <> "" -> alike_on org cid s s' ->
  match Get_connector org cid s with
  | Ok c => exists c', Get_connector org cid s' = Ok c' /\ blind c' = blind c
  | Err e => Get_connector org cid s' = Err e
  end.
Proof.
  intros Ho A. unfold Get_connector, alike_on in *. destruct (String.eqb_spec org ""); [done|].
  destruct (find_connector org cid s) as [c|] eqn:F, (find_connector org cid s') as [c'|] eqn:F'; try done.
  eexists. split; [done|]. by apply same_blind with (cid := cid).
Qed.

Definition shown_acc (a : list string * list (StoredTool * Connector)) : list string * list (StoredTool * Connector) := (a.1, shown_tools a.2).

Lemma blind_fields c c' : blind c' = blind c -> cn_Enabled c' = cn_Enabled c /\ cn_Instructions c' = cn_Instructions c /\ cn_Name c' = cn_Name c.
Proof.
  intros E. split_and!; [apply (f_equal cn_Enabled) in E|apply (f_equal cn_Instructions) in E|apply (f_equal cn_Name) in E]; exact E.
Qed.

Lemma shown_with c c' l : blind c' = blind c -> shown_tools (map (fun t => (t, c')) l) = shown_tools (map (fun t => (t, c)) l).
Proof. intros E. unfold shown_tools. rewrite !map_map. cbn. by rewrite E. Qed.

Lemma surface_step_alike org cid s s' a a' b : org <> "" -> alike_on org cid s s' -> shown_acc a' = shown_acc a -> surface_step org cid s a = Ok b ->
  exists b', surface_step org cid s' a' = Ok b' /\ shown_acc b' = shown_acc b.
Proof.
  intros Ho A Ea E. unfold surface_step in *. pose proof (Get_connector_alike _ _ _ _ Ho A) as G.
  destruct (Get_connector org cid s) as [c|e] eqn:Gc; [|rewrite G; destruct e; try done; injection E as <-; eauto].
  destruct G as (c' & -> & Eb). destruct (blind_fields _ _ Eb) as (E1 & E2 & E3). rewrite E1, E2, E3.
  destruct (negb (cn_Enabled c)); [injection E as <-; eauto|].
  assert (Tools org cid s' = Tools org cid s) as ->.
  { unfold Tools. destruct (String.eqb org ""); [done|]. f_equal. unfold alike_on in A. unfold Get_connector in Gc.
    destruct (String.eqb org ""); [done|]. destruct (find_connector org cid s) as [x|], (find_connector org cid s') as [x'|]; try done.
    by eapply same_tools. }
  apply bind_ok in E as (tools & -> & [= <-]). eexists. split; [done|]. unfold shown_acc in *. injection Ea as Ea1 Ea2. cbn. rewrite Ea1.
  f_equal. unfold shown_tools in *. rewrite !map_app, Ea2. f_equal. by apply shown_with.
Qed.

Lemma surface_loop_alike org cids s s' : org <> "" -> (forall cid, cid ∈ cids -> alike_on org cid s s') -> forall a a' b,
  shown_acc a' = shown_acc a -> surface_loop org cids s a = Ok b -> exists b', surface_loop org cids s' a' = Ok b' /\ shown_acc b' = shown_acc b.
Proof.
  intros Ho. induction cids as [|cid cids IH]; intros A a a' b Ea E; cbn in *; [injection E as <-; eauto|].
  apply bind_ok in E as (a1 & E1 & E). destruct (surface_step_alike _ _ _ _ _ _ _ Ho (A cid ltac:(by constructor)) Ea E1) as (a1' & -> & Ea1). cbn.
  apply (IH (fun k Hk => A k (list_elem_of_further _ _ _ Hk)) _ _ _ Ea1 E).
Qed.
End history.
