(* ===== verification/ConnectorDemo.v ===== *)
(** * ConnectorDemo: a small workspace to evaluate the connector service on

    The interfaces of ConnectorStore.v, Revisions.v and Resync.v with
    concrete functions - a definition is its name and its path with a bar
    between them - and a store with one catalogue connector, one tool and
    one server.  The guarantees are applied to it, and the examples compute
    on it. *)
From S2P Require Import Prelude Tables GoStrings Float64 Regex Values AuditEvents Secrets Authz Adapter Engine Calls Redact ApprovalRules Approvals Revisions ConnectorStore Resync McpServers ConnectorHistory.

Open Scope list_scope.

(** A definition as text. *)
Definition bar : ascii := "|"%char.

Fixpoint has_bar (s : string) : bool := match s with "" => false | String c s => Ascii.eqb c bar || has_bar s end.

Fixpoint split_bar (s : string) : option (string * string) :=
  match s with
  | "" => None
  | String c s => if Ascii.eqb c bar then Some ("", s) else (fun p => (String c p.1, p.2)) <$> split_bar s
  end.

Lemma split_bar_app n p : has_bar n = false -> split_bar (n +:+ String bar p) = Some (n, p).
Proof.
  induction n as [|c n IH]; [done|]. cbn [has_bar]. intros E. apply orb_false_iff in E as [E1 E2].
  change (String c n +:+ String bar p) with (String c (n +:+ String bar p)). cbn [split_bar]. by rewrite E1, (IH E2).
Qed.

Definition demo_operation (path : string) : Operation := mkOperation "GET" path None [] None "" "" None "" 0 None "" "" "" None.

Definition demo_tool (name path : string) : Tool := mkTool name "" None None None 0 None None (demo_operation path) None.

Definition demo_JSON (t : Tool) : result string string :=
  if has_bar (to_Name t) then Err "a bar in the name" else Ok (to_Name t +:+ String bar (op_Path (to_Operation t))).

Definition demo_Parse (s : string) : result string Tool :=
  match split_bar s with Some (n, p) => Ok (demo_tool n p) | None => Err "no bar" end.

Definition demo_definitions : Definitions := {|
  df_JSON := demo_JSON; df_Parse := demo_Parse; df_path := fun s => match split_bar s with Some (_, p) => p | None => "" end;
  df_behaviour := fun b => Ok (op_Path (bh_Operation b)); df_Validate := fun _ _ => []; df_Placeholders := fun _ => [];
  df_config := fun _ _ => ""; df_Transport := fun t => VStr (tr_BaseURL t); df_Auth := fun a => VStr (au_Type a); df_time := fun _ => "then" |}.

Definition demo_encoding : Encoding := {|
  en_lower := id; en_Marshal := fun _ => Ok "{}"; en_Unmarshal := fun _ => Ok (VMap []); en_sha256 := id |}.

Definition demo_comparison : Comparison := {|
  cp_decode := fun s => Ok [("definition", VStr s)]; cp_indent := fun v => match v with VMap [(_, VStr s)] => Ok s | _ => Ok "" end;
  cp_transport := fun t => Ok (tr_BaseURL t); cp_auth := fun a => Ok (au_Type a) |}.

#[local] Existing Instance demo_definitions.
#[local] Existing Instance demo_encoding.
#[local] Existing Instance demo_comparison.
#[local] Existing Instance Approvals.demo_sealer.
#[local] Existing Instance Approvals.demo_runtime.

Definition demo_auth : Auth :=
  mkAuth "none" false "" "" "" "" "" "" "" "" "" [] "" "" "" "" "" [] "" "" [] "" "" "" "" None [] [] None None "" "" "" "" "" "" "" "" "" "" None [].

Definition demo_transport : Transport := mkTransport TransportHTTP "https://shop.example" "" "" [] 0 None false.

(** The organisation's connector, its tool and the server that serves it.
    The tool is the one the requests of Approvals.v wait for. *)
Definition demo_connector : connector_row :=
  mkConnectorRow "con" "o" "shop" demo_transport demo_auth "Ask first." (Some "shop") (Some "h1") false true 1 None 0 0.

Definition demo_row : tool_row := mkToolRow "delete_draft" "con" "o" "delete_draft" "delete_draft|/drafts" None true None 1 "catalog" None None 0 0.

Definition demo_server : server_row := mkServerRow "srv" "o" "desk" "Desk" "" true SessionsStateless 1 0 0.

Definition demo_store (w : world) : store :=
  mkStore [demo_connector] [demo_row] [] [] [demo_server] [mkLinkRow "srv" "con" "o"] [] [] w [].

Definition demo_used (x : string) : Prop := x ∈ ["con"; "delete_draft"; "srv"].

Definition off : recorder := mkRecorder false [].

Lemma demo_store_ids w : ids_ok (demo_store w).
Proof. split_and!; apply NoDup_singleton. Qed.

Lemma demo_known w : known demo_used (demo_store w).
Proof.
  split_and!; intros x Hx; apply list_elem_of_singleton in Hx as ->; unfold demo_used; cbn; rewrite !elem_of_cons; auto.
Qed.

(** The catalogue of the next release: the tool's path moved and another
    tool joined. *)
Definition demo_adapter (hash : string) : AdapterDoc :=
  mkAdapter "Shop" "shop" demo_transport demo_auth "Ask first." []
    (if String.eqb hash "h1" then [demo_tool "delete_draft" "/drafts"] else [demo_tool "delete_draft" "/v2/drafts"; demo_tool "list_drafts" "/v2/drafts"]).

Definition demo_bundle (slug : string) : bundle :=
  if String.eqb slug "shop" then Bundled (demo_adapter "h2") (mkIndexEntry "h2" ["h1"]) else NoSuchAdapter.

Definition edit_to (path : string) (expected : Z) : ToolInput := mkToolInput (Some (demo_tool "delete_draft" path)) None expected false "ann".

Definition run1 (o : op) (s : store) : store := (run_op off o s).1.

Lemma demo_step o r s : (run_op off o s).2 = r -> (forall x, drawn o x -> ~ demo_used x) -> history off demo_used s [(o, r)] (run1 o s).
Proof. intros <- Hd. by apply (hist_cons off demo_used s o []); [|apply hist_nil]. Qed.
