(* ===== verification/ConnectorGuarantees.v ===== *)
(** * ConnectorGuarantees: what the histories of ConnectorHistory.v show

    The properties of the connector service over any sequence of requests:
    an edit that names a version it read never overwrites another's, a
    server that serves something else has another version, and a re-sync
    applies the plan that was reviewed, as far as the content hash it is
    named by tells one bundled adapter from another, and the next one has
    nothing to do. *)
From S2P Require Import Prelude Tables GoStrings Sha256 Float64 Regex Values AuditEvents Secrets Authz Adapter Engine Calls Redact ApprovalRules Approvals Revisions ConnectorStore Resync McpServers ConnectorHistory ConnectorDemo.

Open Scope list_scope.

Section guarantees.
Context `{D : Definitions} `{N : Encoding} `{C : Comparison} `{Z0 : Sealer} `{R0 : Runtime} (rc : recorder).

(** The tables at the start of a history: keys are unique, their identifiers
    have been drawn, and a link's connector exists. *)
Definition sound (used : string -> Prop) (s : store) : Prop :=
  ids_ok s /\ known used s /\ forall l, l ∈ s_links s -> exists c, c ∈ s_connectors s /\ cr_ID c = ln_ConnectorID l.

Lemma sound_links used s sid : sound used s -> forall l, l ∈ links_of sid s -> used (ln_ConnectorID l).
Proof.
  intros (_ & (Kc & _ & _) & Lk) l Hl. unfold links_of in Hl. rewrite list_elem_of_In, filter_In, <- list_elem_of_In in Hl.
  destruct (Lk l (proj1 Hl)) as (c & Hc & <-). by apply Kc.
Qed.

(** ** The version of a server *)

Lemma scanServer_ids org s v cid : cid ∈ sv2_ConnectorIDs (scanServer (String.eqb org) s v) -> linked org (se_ID v) cid s = true.
Proof.
  cbn. rewrite merge_sort_Permutation. intros H. apply list_elem_of_In, in_map_iff in H as (l & <- & H).
  apply filter_In in H as [H P]. unfold linked. apply existsb_exists. exists l. split; [done|].
  apply andb_true_iff in P as [->%String.eqb_eq ->%String.eqb_eq]. by rewrite !String.eqb_refl.
Qed.

Lemma scanServer_links org s s' v : links_of (se_ID v) s' = links_of (se_ID v) s ->
  scanServer (String.eqb org) s' v = scanServer (String.eqb org) s v.
Proof.
  intros E. unfold scanServer. f_equal. f_equal. f_equal. unfold links_of in E.
  assert (forall s0, List.filter (fun l => String.eqb org (ln_OrgID l) && String.eqb (ln_ServerID l) (se_ID v)) (s_links s0)
    = List.filter (fun l => String.eqb org (ln_OrgID l)) (List.filter (fun l => String.eqb (ln_ServerID l) (se_ID v)) (s_links s0))) as H.
  { intros s0. rewrite filter_twice. apply List.filter_ext. intros l. apply andb_comm. }
  by rewrite !H, E.
Qed.

Lemma Get_server_ok org id s v : Get_server org id s = Ok v -> org <> "" /\ exists x, find_server org id s = Some x /\ v = scanServer (String.eqb org) s x.
Proof. unfold Get_server. destruct (String.eqb_spec org ""); [done|]. intros E. split; [done|by apply read_server_ok]. Qed.

Lemma linked_alike used s h s' org sid v v' : history rc used s h s' -> sound used s -> same_server org sid v v' s s' -> links_kept sid s s' ->
  forall cid, linked org sid cid s = true -> alike_on org cid s s'.
Proof.
  intros Hh S (_ & _ & Hc) Lk cid Hl. pose proof S as (I & K & _). unfold alike_on.
  destruct (find_connector org cid s) as [c|] eqn:F.
  - pose proof (find_connector_keys _ _ _ _ F) as (Hin & Eo & Ei). rewrite linked_of in Hl. apply existsb_elem in Hl as (l & Hlk & P). bool_prop.
    destruct (Lk l Hlk) as (c' & Hc' & E').
    destruct (connector_before rc _ _ _ _ Hh I K c' Hc') as (c0 & Hc0 & E0 & O0); [rewrite E'; by apply (sound_links used s sid S)|].
    assert (c0 = c) as -> by (apply (NoDup_map_inj cr_ID (s_connectors s)); [apply I|done..|congruence]).
    assert (find_connector org cid s' = Some c') as F' by (apply find_connector_in; [apply (history_ok rc _ _ _ _ Hh I K)|done|congruence..]).
    rewrite F'. apply (Hc cid); [|done|done]. rewrite linked_of. apply existsb_exists. exists l. split; [by apply list_elem_of_In|].
    by rewrite andb_true_iff, !String.eqb_eq.
  - destruct (find_connector org cid s') as [c'|] eqn:F'; [|done].
    assert (used cid) as Hu.
    { rewrite linked_of in Hl. apply existsb_elem in Hl as (l & Hlk & P). bool_prop. subst. by apply (sound_links used s sid S). }
    destruct (find_connector_later rc _ _ _ _ _ _ _ Hh I K F' Hu) as [c Fc]. congruence.
Qed.

(** C23. As long as a server's version is the one a client has seen, the server
    is the same row with the same connectors, and what it serves is what the
    client was shown: the same instructions and the same tools on the same
    connectors, whatever requests of any organisation came in between,
    unless one of its connectors was deleted. *)
Theorem a_new_surface_has_a_new_version used s h s' org sid v v' f : sound used s -> history rc used s h s' -> links_kept sid s s' ->
  Get_server org sid s = Ok v -> Get_server org sid s' = Ok v' -> sv2_Version v' = sv2_Version v -> Surface_of v s = Ok f ->
  v' = v /\ exists f', Surface_of v' s' = Ok f' /\ sf_Instructions f' = sf_Instructions f /\ shown_tools (sf_Tools f') = shown_tools (sf_Tools f).
Proof.
  intros S Hh Lk G G' V Sf. apply Get_server_ok in G as (Ho & x & F & ->). apply Get_server_ok in G' as (_ & x' & F' & ->).
  pose proof S as (I & K & _). pose proof (same_surface rc _ _ _ _ _ _ _ _ Hh I K (sound_links used s sid S) Lk F F' V) as Ss.
  pose proof (linked_alike _ _ _ _ _ _ _ _ Hh S Ss Lk) as A. destruct Ss as (-> & El & _). apply find_server_keys in F as (_ & Eo & Ei).
  rewrite (scanServer_links org s s') by (by rewrite Ei). split; [done|]. unfold Surface_of in *. apply bind_ok in Sf as (acc & L & [= <-]).
  cbn [scanServer sv2_OrgID] in *. rewrite Eo in *.
  destruct (surface_loop_alike org _ s s' Ho (fun cid Hcid => A cid ltac:(rewrite <- Ei; by eapply scanServer_ids)) _ _ _ eq_refl L) as (acc' & -> & E).
  eexists. split; [done|]. cbn. unfold shown_acc in E. injection E as E1 E2. by rewrite E1.
Qed.

(** ** Edits that name the version they read *)

Inductive guard_kind : Type := GuardConnector | GuardTool | GuardServer.

(** The row an edit names, and the version its caller read; zero names
    none. *)
Definition guard_of (o : op) : option (guard_kind * string * string * Z) :=
  let at_version k org id v := if (v =? 0)%Z then None else Some (k, org, id, v) in
  match o with
  | OpUpdate _ _ org id in_ => at_version GuardConnector org id (ui_ExpectedVersion in_)
  | OpSetCredentials _ _ org id _ v => at_version GuardConnector org id v
  | OpResync _ _ _ org id in_ => at_version GuardConnector org id (ri_ExpectedVersion in_)
  | OpUpdateTool _ _ org id in_ => at_version GuardTool org id (ti_ExpectedVersion in_)
  | OpServerUpdate _ _ org id in_ => at_version GuardServer org id (su_ExpectedVersion in_)
  | _ => None
  end.

Definition version_at (k : guard_kind) (org id : string) (s : store) : option Z :=
  match k with
  | GuardConnector => cr_Version <$> find_connector org id s
  | GuardTool => tl_Version <$> find_tool org id s
  | GuardServer => se_Version <$> find_server org id s
  end.

Lemma CheckVersion_ok kind v w : CheckVersion kind v w = Ok tt -> v = 0%Z \/ v = w.
Proof. unfold CheckVersion. destruct (_ || _) eqn:E; [|done]. intros _. bool_prop. destruct E as [E|E]; bool_prop; auto. Qed.

(** A version of the row after an update of exactly that row. *)
Lemma updated_version {A} (p : A -> bool) f (ver : A -> Z) (l : list A) x : (forall y, p (f y) = p y) -> (forall y, ver (f y) = (ver y + 1)%Z) ->
  List.find p l = Some x -> ver <$> List.find p (update_where p f l) = Some (ver x + 1)%Z.
Proof.
  intros Hp Hv F. rewrite (find_update p p) by done. rewrite F. cbn. apply find_elem in F as [_ ->]. by rewrite Hv.
Qed.

(** What a guarded edit did: nothing, or a step of the version it names. *)
Definition one_step (g : guard_kind * string * string * Z) (s : store) (r : store * result op_error unit) : Prop :=
  let '(k, org, id, v) := g in
  (r.1 = s /\ ((exists e, r.2 = Err e) \/ version_at k org id s = Some v)) \/ (version_at k org id s = Some v /\ version_at k org id r.1 = Some (v + 1)%Z).

Lemma guarded_update now newID org id in_ s v : ui_ExpectedVersion in_ = v -> v <> 0%Z ->
  one_step (GuardConnector, org, id, v) s (run_op rc (OpUpdate now newID org id in_) s).
Proof.
  intros <- Hv. cbn. unfold Update_connector. destruct (tx _ _ _) as [s1 [u|e]] eqn:T.
  - right. apply tx_ok in T as [_ T]. apply update_connector_store in T as (c & t & F & V & ->). cbn [fst].
    apply CheckVersion_ok in V as [V|V]; [done|]. rewrite F, V. split; [done|]. cbn. rewrite <- V. unfold find_connector in *.
    rewrite (updated_version _ _ cr_Version _ c); [by rewrite V|done|done|done].
  - left. apply tx_err in T as ->. split; [done|left; eexists; reflexivity].
Qed.

Lemma guarded_credentials now nonces org id creds s v : v <> 0%Z ->
  one_step (GuardConnector, org, id, v) s (run_op rc (OpSetCredentials now nonces org id creds v) s).
Proof.
  intros Hv. cbn. unfold SetCredentials. destruct (sealValues _ _ _ _) as [sealed|e]; [|left; cbn; eauto].
  destruct (tx _ _ _) as [s1 [u|e]] eqn:T; [|left; apply tx_err in T as ->; cbn; eauto]. right.
  apply tx_ok in T as [_ T]. apply bind_ok in T as (c & L & [= <- _]). unfold lockConnectorAt in L.
  apply bind_ok in L as (c' & L & V). apply lockConnector_ok in L as (x & F & ->). apply bind_ok in V as ([] & V & _).
  apply CheckVersion_ok in V as [V|V]; [done|]. cbn in V. rewrite F. split; [by rewrite V|]. cbn [fst].
  pose proof (write_or_drop_meanwhile org id sealed creds s) as [Ec _ _ _ _]. unfold find_connector in *. cbn. rewrite Ec.
  rewrite (updated_version _ _ cr_Version _ x); [by rewrite V|done|done|done].
Qed.

Lemma guarded_resync now ids bundled org id in_ s v : ri_ExpectedVersion in_ = v -> v <> 0%Z -> NoDup (tool_ids s) ->
  one_step (GuardConnector, org, id, v) s (run_op rc (OpResync now ids bundled org id in_) s).
Proof.
  intros <- Hv Nd. cbn. destruct (ApplyResync _ _ _ _ _ _ _ _) as [s1 [p|e]] eqn:A; cbn.
  - pose proof A as A'. apply resync_store in A as (_ & c & q & F & V & _ & _ & _ & [(_ & _ & -> & _)|_]).
    + left. rewrite F. split; [done|right]. by rewrite <- V.
    + apply (resync_wrote rc (fun _ => True)) in A' as [->|(_ & _ & c' & F' & [(f & Hf & Ec) _ _ _ _])]; [..|done|done].
      * left. rewrite F. split; [done|right]. by rewrite <- V.
      * right. rewrite F, <- V. split; [done|]. unfold find_connector in *. rewrite Ec.
        apply (updated_version _ _ cr_Version); [|intros y; apply Hf|done]. intros y. unfold sees_connector. by destruct (Hf y) as (-> & -> & _).
  - left. unfold ApplyResync in A. destruct (String.eqb org ""); [injection A as <- _; eauto|].
    destruct (ApplyResync_tx _ _ _ _ _ _ _ _) as [[? ?]|]; [done|]. injection A as <- _. eauto.
Qed.

Lemma guarded_tool now ids org id in_ s v : ti_ExpectedVersion in_ = v -> v <> 0%Z ->
  one_step (GuardTool, org, id, v) s (run_op rc (OpUpdateTool now ids org id in_) s).
Proof.
  intros <- Hv. cbn. unfold UpdateTool. destruct (ti_Definition in_) as [def|]; [|left; cbn; eauto].
  destruct (tx _ _ _) as [s1 [u|e]] eqn:T; [|left; apply tx_err in T as ->; cbn; eauto]. right.
  apply tx_ok in T as [_ T]. apply update_tool_store in T as (row & c & b & text & s2 & t & F & Fc & _ & V & _ & _ & U & ->).
  apply CheckVersion_ok in V as [V|V]; [done|]. rewrite F. split; [by rewrite V|]. cbn [fst].
  unfold updateToolRow in U. rewrite F in U. destruct (existsb _ _); [done|]. injection U as <-. unfold find_tool in *.
  assert (forall s0, s_tools (if BehaviourChanged (st_Definition b) (Some def)
    then cancelApprovals now org id "the tool's definition changed" s0 else s0) = s_tools s0) as E by by intros; destruct (BehaviourChanged _ _).
  cbn. rewrite E. cbn. rewrite (updated_version _ _ tl_Version _ row); [by rewrite V|done|done|done].
Qed.

Lemma guarded_server now newID org id in_ s v : su_ExpectedVersion in_ = v -> v <> 0%Z -> NoDup (map se_ID (s_servers s)) ->
  one_step (GuardServer, org, id, v) s (run_op rc (OpServerUpdate now newID org id in_) s).
Proof.
  intros <- Hv Nd. cbn. unfold Update_server. destruct (match su_Sessions in_ with Some m => _ | None => _ end); [left; cbn; eauto|].
  destruct (String.eqb org ""); [left; cbn; eauto|]. destruct (Update_server_tx _ _ _ _ _ _ _) as [s1|] eqn:T; [|left; cbn; eauto]. right.
  apply server_update_effect in T as (_ & _ & x & F & V & f & Hf & Es); [|done]. apply CheckVersion_ok in V as [V|V]; [done|].
  rewrite F. split; [by rewrite V|]. cbn. unfold find_server in *. rewrite Es, V.
  apply (updated_version _ _ se_Version); [|intros y; apply Hf|done]. intros y. unfold sees_server. by destruct (Hf y) as (-> & -> & _).
Qed.

Lemma guarded_step o s g : ids_ok s -> guard_of o = Some g -> one_step g s (run_op rc o s).
Proof.
  intros (_ & Nt & Ns). destruct o; cbn [guard_of]; try done;
    lazymatch goal with |- context [Z.eqb ?v 0] => destruct (Z.eqb_spec v 0) as [|Hv] end; try done; intros [= <-].
  - by apply guarded_update.
  - by apply guarded_credentials.
  - by apply guarded_tool.
  - by apply guarded_resync.
  - by apply guarded_server.
Qed.

Lemma find_tool_later used s h s' org id t' : history rc used s h s' -> ids_ok s -> known used s -> find_tool org id s' = Some t' -> used id ->
  exists t, find_tool org id s = Some t /\ (tl_Version t <= tl_Version t')%Z.
Proof.
  intros Hh I K F Hu. apply find_tool_keys in F as (Hin & Eo & Ei).
  destruct (tool_before rc _ _ _ _ Hh I K t' Hin) as (t & Ht & E1 & E2 & _ & M); [by rewrite Ei|]. exists t. split.
  - unfold find_tool. destruct (List.find _ _) as [x|] eqn:F.
    + apply find_elem in F as [Hx P]. unfold sees_tool in P. bool_prop. f_equal. apply (NoDup_map_inj tl_ID (s_tools s)); [apply I|done..|congruence].
    + exfalso. rewrite list_elem_of_In in Ht. apply find_none with (x := t) in F; [|done]. unfold sees_tool in F.
      by rewrite <- E2, <- E1, Eo, Ei, !String.eqb_refl in F.
  - destruct M as [->|[->|M]]; [done|done|lia].
Qed.

(** A version never goes down, and a row that is there was there. *)
Lemma version_monotone used s h s' k org id v w : history rc used s h s' -> ids_ok s -> known used s -> used id ->
  version_at k org id s = Some v -> version_at k org id s' = Some w -> (v <= w)%Z.
Proof.
  intros Hh I K Hu. destruct k; cbn.
  - destruct (find_connector org id s) as [c|] eqn:F; [|done]. destruct (find_connector org id s') as [c'|] eqn:F'; [|done]. intros [= <-] [= <-].
    destruct (connector_versions rc _ _ _ _ _ _ _ _ Hh I K F F') as [(-> & _)|?]; [done|lia].
  - destruct (find_tool org id s') as [t'|] eqn:F'; [|by intros; destruct (find_tool _ _ _)].
    destruct (find_tool_later _ _ _ _ _ _ _ Hh I K F' Hu) as (t & -> & V). by intros [= <-] [= <-].
  - destruct (find_server org id s) as [c|] eqn:F; [|done]. destruct (find_server org id s') as [c'|] eqn:F'; [|done]. intros [= <-] [= <-].
    by eapply server_versions.
Qed.

Lemma version_known used s k org id v : known used s -> version_at k org id s = Some v -> used id.
Proof.
  intros (Kc & Kt & Ks). destruct k; cbn.
  - destruct (find_connector org id s) as [c|] eqn:F; [|done]. intros _. apply find_connector_keys in F as (? & _ & <-). by apply Kc.
  - destruct (find_tool org id s) as [c|] eqn:F; [|done]. intros _. apply find_tool_keys in F as (? & _ & <-). by apply Kt.
  - destruct (find_server org id s) as [c|] eqn:F; [|done]. intros _. apply find_server_keys in F as (? & _ & <-). by apply Ks.
Qed.

(** C5. Two edits that read the same version of a connector, a tool or a server
    do not both happen: once one has changed anything, the other is refused
    and changes nothing, however many other requests come in between. *)
Theorem no_lost_update used s o1 r h s2 o2 g : sound used s -> guard_of o1 = Some g -> guard_of o2 = Some g ->
  history rc used s ((o1, r) :: h) s2 -> (run_op rc o1 s).1 <> s -> (run_op rc o2 s2).1 = s2 /\ exists e, (run_op rc o2 s2).2 = Err e.
Proof.
  intros (I & K & _) G1 G2 Hh Ch. inversion Hh as [|u s0 o' h' s1 Hd Hr E1 E2 E3]; subst.
  pose proof (known_step rc used o1 s I K) as K1. pose proof (lawful_ids_ok _ _ _ I (run_op_lawful rc o1 s I)) as I1.
  pose proof (guarded_step o1 s g I G1) as S1. pose proof (guarded_step o2 s2 g (history_ok rc _ _ _ _ Hr I1 K1) G2) as S2.
  destruct g as [[[k org] id] v]. destruct S1 as [[? _]|[V0 V1]]; [done|].
  assert (version_at k org id s2 <> Some v) as Hn.
  { intros V2. pose proof (version_monotone _ _ _ _ _ _ _ _ _ Hr I1 K1 (or_introl (version_known _ _ _ _ _ _ K V0)) V1 V2). lia. }
  destruct S2 as [[? [?|?]]|[? _]]; done.
Qed.

(** ** The plan that was reviewed *)

Definition run_all (h : list (op * result op_error unit)) (s : store) : store := foldl (fun s o => (run_op rc o.1 s).1) s h.

Lemma history_run used s h s' : history rc used s h s' -> s' = run_all h s.
Proof. intros Hh. induction Hh as [|? ? ? ? ? _ _ IH]; [done|exact IH]. Qed.

(** A plan as a person sees it: without the identifiers of the tools that
    are not there yet, and the parts of the catalogue's index it does not
    show. *)
Definition unnamed (t : ResyncTool) : ResyncTool := mkResyncTool (rt_Name t) "" (rt_Changed t) (rt_Before t) (rt_After t).

Definition shown_plan (p : ResyncPlan) : ResyncPlan :=
  mkPlan (blind (pn_Connector p)) (pn_BundledHash p) (map unnamed (pn_Add p)) (pn_Update p) (pn_Remove p) (pn_Skipped p) (pn_Relabel p)
    (pn_Fields p) (pn_NotApplied p) (pn_MissingCredentials p) (pn_Instructions p) (mkIndexEntry "" []).

(** A tool of an adapter as it is stored: its name and its JSON. *)
Definition tool_text (t : Tool) : string * result string string := (to_Name t, df_JSON t).

(** A change a plan makes, with what it would store. *)
Definition shown_tool (t : ResyncTool) : string * string * list string * option StoredTool * option (string * result string string) :=
  (rt_Name t, rt_ToolID t, rt_Changed t, rt_Before t, tool_text <$> rt_After t).

(** Two plans do the same: they change the same tools to the same stored
    definitions, skip and relabel the same ones, and set the instructions
    and the hash alike. *)
Record same_effect (q p : ResyncPlan) : Prop := {
  se_Connector : blind (pn_Connector q) = blind (pn_Connector p);
  se_Hash : pn_BundledHash q = pn_BundledHash p;
  se_Add : map (fun t => shown_tool (unnamed t)) (pn_Add q) ≡ₚ map (fun t => shown_tool (unnamed t)) (pn_Add p);
  se_Update : map shown_tool (pn_Update q) ≡ₚ map shown_tool (pn_Update p);
  se_Remove : map shown_tool (pn_Remove q) ≡ₚ map shown_tool (pn_Remove p);
  se_Skipped : pn_Skipped q ≡ₚ pn_Skipped p;
  se_Relabel : map shown_tool (pn_Relabel q) ≡ₚ map shown_tool (pn_Relabel p);
  se_Fields : pn_Fields q = pn_Fields p;
  se_Instructions : pn_Instructions q = pn_Instructions p;
}.

(** Two adapters would store the same tools and instructions. *)
Definition same_content (a a' : AdapterDoc) : Prop :=
  ad_Instructions a' = ad_Instructions a /\ map tool_text (ad_Tools a') ≡ₚ map tool_text (ad_Tools a).

#[local] Instance same_content_dec a a' : base.Decision (same_content a a').
Proof.
  assert (EqDecision (result string string)) by (intros x y; unfold base.Decision; repeat decide equality).
  apply and_dec; [apply String.eq_dec|apply Permutation_dec].
Defined.

(** *** Adapters of the same content make the same plan *)

Record same_lists (l l' : lists) : Prop := {
  sl_Add : map shown_tool (l_Add l') ≡ₚ map shown_tool (l_Add l);
  sl_Update : map shown_tool (l_Update l') ≡ₚ map shown_tool (l_Update l);
  sl_Remove : map shown_tool (l_Remove l') ≡ₚ map shown_tool (l_Remove l);
  sl_Skipped : l_Skipped l' ≡ₚ l_Skipped l;
  sl_Relabel : map shown_tool (l_Relabel l') ≡ₚ map shown_tool (l_Relabel l);
}.

#[local] Instance same_lists_equiv : Equivalence same_lists.
Proof.
  split; [intros l; by split|intros l l' [? ? ? ? ?]; by split|].
  intros l1 l2 l3 [? ? ? ? ?] [? ? ? ? ?]. split; by etrans.
Qed.

Definition join (l c : lists) : lists :=
  mkLists (l_Add l ++ l_Add c) (l_Update l ++ l_Update c) (l_Remove l ++ l_Remove c) (l_Skipped l ++ l_Skipped c) (l_Relabel l ++ l_Relabel c).

#[local] Instance join_proper : Proper (same_lists ==> same_lists ==> same_lists) join.
Proof. intros l l' [? ? ? ? ?] c c' [? ? ? ? ?]. split; cbn; rewrite ?map_app; by apply Permutation_app. Qed.

Lemma join_swap l c d : same_lists (join (join l c) d) (join (join l d) c).
Proof. split; cbn; rewrite ?map_app; solve_Permutation. Qed.

(** What a bundled tool puts on the lists depends on its text alone. *)
Definition turn (stored : list StoredTool) (b : Tool) : result resync_error lists := plan_bundled stored (mkLists [] [] [] [] []) b.

Lemma plan_bundled_turn stored l b : plan_bundled stored l b = c ← turn stored b; Ok (join l c).
Proof.
  destruct l as [la lu lr ls ll]. unfold turn, plan_bundled. destruct (stored_as _ _) as [st|]; [|unfold join; cbn; by rewrite !app_nil_r].
  destruct (definitionChanges _ _) as [ch|]; [|done]. destruct ch as [|x ch]; [|destruct (skipReason st) as [[]|]]; unfold join; cbn;
    rewrite ?app_nil_r; by destruct (_ && _); rewrite ?app_nil_r.
Qed.

Lemma turn_text stored b b' c : tool_text b = tool_text b' -> turn stored b = Ok c -> exists c', turn stored b' = Ok c' /\ same_lists c c'.
Proof.
  intros [= En Ej]. unfold turn, plan_bundled. rewrite <- En. destruct (stored_as _ _) as [st|].
  - replace (definitionChanges (st_Definition st) (Some b')) with (definitionChanges (st_Definition st) (Some b))
      by (unfold definitionChanges, definitionFields; by rewrite Ej).
    destruct (definitionChanges _ _) as [ch|]; [|done].
    destruct ch as [|x ch]; [|destruct (skipReason st) as [[]|]]; intros [= <-]; eexists; (split; [done|]); split; cbn; try done;
      unfold shown_tool, tool_text; cbn; by rewrite ?En, ?Ej.
  - intros [= <-]. eexists. split; [done|]. split; try done. unfold shown_tool, tool_text. cbn. by rewrite En, Ej.
Qed.

Lemma plan_all_texts stored bs bs' l l' r : map tool_text bs = map tool_text bs' -> same_lists l l' -> plan_all stored l bs = Ok r ->
  exists r', plan_all stored l' bs' = Ok r' /\ same_lists r r'.
Proof.
  revert bs' l l'. induction bs as [|b bs IH]; intros [|b' bs'] l l'; cbn [map plan_all]; try done; [intros _ S [= <-]; eauto|].
  intros [= E1 E2 Es] S P. apply bind_ok in P as (l1 & P1 & P). rewrite plan_bundled_turn in P1. apply bind_ok in P1 as (c & T & [= <-]).
  destruct (turn_text stored b b' c) as (c' & T' & Sc); [unfold tool_text; congruence|done|].
  rewrite plan_bundled_turn, T'. cbn. eapply IH; [done| |done]. by rewrite S, Sc.
Qed.

Lemma plan_all_order stored bs bs' l r : bs ≡ₚ bs' -> plan_all stored l bs = Ok r -> exists r', plan_all stored l bs' = Ok r' /\ same_lists r r'.
Proof.
  intros Hp. revert l r. induction Hp as [|b bs bs' _ IH|b d bs|bs1 bs2 bs3 _ IH1 _ IH2]; intros l r; cbn [plan_all].
  - intros [= <-]. by exists l.
  - intros P. apply bind_ok in P as (l1 & P1 & P). rewrite P1. by apply IH.
  - intros P. apply bind_ok in P as (l1 & P1 & P). apply bind_ok in P as (l2 & P2 & P).
    rewrite plan_bundled_turn in P1, P2. apply bind_ok in P1 as (c1 & T1 & [= <-]). apply bind_ok in P2 as (c2 & T2 & [= <-]).
    rewrite plan_bundled_turn, T2. cbn. rewrite plan_bundled_turn, T1. cbn. eapply plan_all_texts; [done| |done]. apply join_swap.
  - intros P. destruct (IH1 _ _ P) as (r1 & P1 & S1). destruct (IH2 _ _ P1) as (r2 & P2 & S2). exists r2. split; [done|by etrans].
Qed.

Lemma plan_all_content stored bs bs' l r : map tool_text bs' ≡ₚ map tool_text bs -> plan_all stored l bs = Ok r ->
  exists r', plan_all stored l bs' = Ok r' /\ same_lists r r'.
Proof.
  intros Hp P. destruct (Permutation_map_inv _ _ Hp) as (bs1 & E & Hp1).
  destruct (plan_all_order stored bs bs1 l r) as (r1 & P1 & S1); [by symmetry|done|].
  destruct (plan_all_texts stored bs1 bs' l l r1) as (r2 & P2 & S2); [done|done|done|]. exists r2. split; [done|by etrans].
Qed.

Lemma bundled_name bs bs' n : map tool_text bs' ≡ₚ map tool_text bs ->
  existsb (fun b => String.eqb (to_Name b) n) bs' = existsb (fun b => String.eqb (to_Name b) n) bs.
Proof.
  assert (forall l, existsb (fun b => String.eqb (to_Name b) n) l = existsb (fun x => String.eqb x.1 n) (map tool_text l)) as E
    by (intros l; induction l as [|b l IH]; [done|cbn; by rewrite IH]).
  intros Hp. rewrite !E. apply eq_true_iff_eq. rewrite !existsb_exists. setoid_rewrite <- list_elem_of_In. by setoid_rewrite Hp.
Qed.

Lemma plan_stored_content bs bs' stored l l' : map tool_text bs' ≡ₚ map tool_text bs -> same_lists l l' ->
  same_lists (foldl (plan_stored bs) l stored) (foldl (plan_stored bs') l' stored).
Proof.
  intros Hp. revert l l'. induction stored as [|st stored IH]; intros l l' S; cbn [foldl]; [done|]. apply IH.
  unfold plan_stored. rewrite (bundled_name _ _ _ Hp). destruct (existsb _ _); [done|].
  destruct (skipReason st) as [[]|]; [|done|]; destruct S; split; cbn; rewrite ?map_app; try done; by apply Permutation_app_tail.
Qed.

Lemma planResync_content c c' stored creds creds' a a' e e' p p' : blind c' = blind c -> ie_ContentHash e' = ie_ContentHash e -> same_content a a' ->
  planResync c stored creds a e = Ok p -> planResync c' stored creds' a' e' = Ok p' -> same_effect p' p.
Proof.
  intros Eb Eh [Ei Et] P P'. unfold planResync in *. pose proof (f_equal cn_Instructions Eb) as E1. cbn in E1. rewrite E1, Ei in P'.
  apply bind_ok in P as (l & L & P). destruct (plan_all_content _ _ _ _ _ Et L) as (l' & L' & S). rewrite L' in P'. cbn [mbind result_bind] in P'.
  apply bind_ok in P as (t & _ & P). apply bind_ok in P' as (t' & _ & P').
  apply bind_ok in P as (u & _ & [= <-]). apply bind_ok in P' as (u' & _ & [= <-]).
  destruct (plan_stored_content _ _ stored _ _ Et S) as [A U R K B]. split; cbn; try done.
  - rewrite !merge_sort_Permutation. apply (Permutation_map (fun x => (x.1.1.1.1, "", x.1.1.2, x.1.2, x.2))) in A. by rewrite !map_map in A.
  - by rewrite !merge_sort_Permutation.
  - by rewrite !merge_sort_Permutation.
Qed.

Lemma planResync_shown c c' stored creds a e e' p p' : blind c' = blind c -> ie_ContentHash e' = ie_ContentHash e ->
  planResync c stored creds a e = Ok p -> planResync c' stored creds a e' = Ok p' -> shown_plan p' = shown_plan p.
Proof.
  intros Eb Eh P P'. unfold planResync in *. pose proof (f_equal cn_Instructions Eb) as E1. pose proof (f_equal cn_Transport Eb) as E2.
  pose proof (f_equal cn_Auth Eb) as E3. cbn in E1, E2, E3. rewrite E1, E2, E3 in P'.
  apply bind_ok in P as (l & L & P). rewrite L in P'. cbn [mbind result_bind] in P'.
  apply bind_ok in P as (t & T & P). apply bind_ok in P' as (t' & T' & P'). rewrite T in T'. injection T' as <-.
  apply bind_ok in P as (u & U & [= <-]). apply bind_ok in P' as (u' & U' & [= <-]). rewrite U in U'. injection U' as <-.
  unfold shown_plan. cbn [pn_Connector pn_BundledHash pn_Add pn_Update pn_Remove pn_Skipped pn_Relabel pn_Fields pn_NotApplied pn_MissingCredentials pn_Instructions].
  by rewrite Eb, Eh.
Qed.

Lemma same_scan org cid c c' s s' : find_connector org cid s = Some c -> same_connector cid c c' s s' ->
  blind (scanConnector s' c') = blind (scanConnector s c).
Proof.
  intros F Sc. pose proof (same_tools org cid _ _ _ _ Sc) as T. destruct Sc as (-> & Et & _). apply find_connector_keys in F as (_ & Eo & Ei).
  unfold blind, scanConnector. cbn. rewrite Eo, Ei. do 2 f_equal.
  assert (forall s0, List.filter (fun t => tool_on org cid t && tl_Enabled t) (s_tools s0)
    = List.filter (fun t => String.eqb (tl_OrgID t) org && tl_Enabled t) (tools_on cid s0)) as H.
  { intros s0. unfold tools_on. rewrite filter_twice. apply List.filter_ext. intros t. unfold tool_on.
    destruct (String.eqb (tl_OrgID t) org), (String.eqb (tl_ConnectorID t) cid); done. }
  by rewrite !H, Et.
Qed.

Lemma same_credential_names org cid c c' s s' : same_connector cid c c' s s' -> credential_names org cid s' = credential_names org cid s.
Proof.
  intros (_ & _ & E). unfold credential_names. f_equal.
  assert (forall s0, List.filter (fun d => String.eqb (cd_OrgID d) org && String.eqb (cd_ConnectorID d) cid) (s_credentials s0)
    = List.filter (fun d => String.eqb (cd_OrgID d) org) (credentials_on cid s0)) as H.
  { intros s0. unfold credentials_on. rewrite filter_twice. apply List.filter_ext. intros t. apply andb_comm. }
  by rewrite !H, E.
Qed.

Lemma planResyncTx_shown canonical bundled bundled' org cid c c' s s2 s' p p' : cn_ID c = cid -> blind c' = blind c ->
  tools_of org cid s' = tools_of org cid s -> credential_names org cid s' = credential_names org cid s2 ->
  indexed canonical bundled -> indexed canonical bundled' ->
  planResyncTx bundled org c s s2 = Ok p -> planResyncTx bundled' org c' s' s' = Ok p' -> pn_BundledHash p' = pn_BundledHash p ->
  exists a a', adapter_ContentHash canonical a = Ok (pn_BundledHash p) /\ adapter_ContentHash canonical a' = Ok (pn_BundledHash p) /\
    (exists e, bundled (cn_CatalogSlug c) = Bundled a e) /\ (exists e, bundled' (cn_CatalogSlug c) = Bundled a' e) /\
    (a' = a -> shown_plan p' = shown_plan p) /\ (same_content a a' -> same_effect p' p).
Proof.
  intros Ei Eb Et Ec X X' P P' Eh. apply planResyncTx_ok in P as (a & e & stored & B & _ & S & P).
  apply planResyncTx_ok in P' as (a' & e' & stored' & B' & _ & S' & P').
  assert (cn_ID c' = cid) as Ei' by (pose proof (f_equal cn_ID Eb) as E; cbn in E; congruence).
  assert (cn_CatalogSlug c' = cn_CatalogSlug c) as Es by exact (f_equal cn_CatalogSlug Eb). rewrite Es in B'.
  pose proof (planResync_ok _ _ _ _ _ _ P) as (_ & H1 & _). pose proof (planResync_ok _ _ _ _ _ _ P') as (_ & H2 & _).
  rewrite Ei in *. rewrite Ei', Et, S in *. injection S' as <-. rewrite Ec in P'. exists a, a'.
  split; [rewrite H1; by eapply X|]. split; [rewrite <- Eh, H2; by eapply X'|]. split; [eauto|]. split; [eauto|]. split.
  - intros ->. by eapply planResync_shown; [| |exact P|exact P']; congruence.
  - intros Sc. eapply planResync_content; [exact Eb| |exact Sc|exact P|exact P']. congruence.
Qed.

Lemma with_added_shown now ids c ts s r : add_tools now ids c ts s = Ok r -> map unnamed r.2 = map unnamed ts.
Proof.
  revert ids s r. induction ts as [|t ts IH]; intros ids s r E; cbn in E; [by injection E as <-|].
  destruct (rt_After t) as [def|] eqn:Ea; [|done]. apply bind_ok in E as (text & _ & E). apply bind_ok in E as (s1 & _ & E).
  apply bind_ok in E as (r1 & E1 & [= <-]). cbn. rewrite (IH _ _ _ E1). unfold unnamed at 1. cbn. by rewrite <- Ea.
Qed.

(** The plan an apply answers is the plan its transaction made. *)
Lemma applied_shown now ids org q s r : write_plan now ids org q s = Ok r -> shown_plan r.2 = shown_plan q.
Proof.
  unfold write_plan. intros E. apply bind_ok in E as (a & Ea & E). apply bind_ok in E as (s1 & _ & [= <-]). cbn [snd].
  apply with_added_shown in Ea. unfold shown_plan. cbn. by rewrite Ea.
Qed.

Lemma same_effect_shown q q0 p : shown_plan q = shown_plan q0 -> same_effect q0 p -> same_effect q p.
Proof.
  intros Sh [H1 H2 H3 H4 H5 H6 H7 H8 H9].
  pose proof (f_equal pn_Connector Sh) as E1. pose proof (f_equal pn_BundledHash Sh) as E2. pose proof (f_equal pn_Add Sh) as E3.
  pose proof (f_equal pn_Update Sh) as E4. pose proof (f_equal pn_Remove Sh) as E5. pose proof (f_equal pn_Skipped Sh) as E6.
  pose proof (f_equal pn_Relabel Sh) as E7. pose proof (f_equal pn_Fields Sh) as E8. pose proof (f_equal pn_Instructions Sh) as E9.
  unfold shown_plan in *. cbn [pn_Connector pn_BundledHash pn_Add pn_Update pn_Remove pn_Skipped pn_Relabel pn_Fields pn_Instructions] in *. clear Sh.
  assert (forall q, map (fun t => shown_tool (unnamed t)) (pn_Add q) = map shown_tool (map unnamed (pn_Add q))) as Un by (intros; by rewrite map_map).
  split; [congruence|congruence|by rewrite !Un, E3, <- !Un|by rewrite ?E4, ?E5, ?E6, ?E7, ?E8, ?E9..].
Qed.

(** A connector at the same version at both ends of a history was the same
    in between. *)
Lemma same_between used s h1 h2 s' org id c c' : sound used s -> history rc used s (h1 ++ h2) s' ->
  find_connector org id s = Some c -> find_connector org id s' = Some c' -> cr_Version c' = cr_Version c ->
  same_connector id c c (s) (run_all h1 s) /\ c' = c /\ find_connector org id (run_all h1 s) = Some c /\ same_connector id c c s s'.
Proof.
  intros (I & K & _) Hh F F' V. apply history_app in Hh as (u1 & s1 & H1 & H2 & P & U). destruct (P I K) as [I1 K1].
  rewrite <- (history_run _ _ _ _ H1).
  assert (u1 id) as Hu by (apply U; apply find_connector_keys in F as (Hc & _ & <-); by apply K).
  destruct (find_connector_later rc _ _ _ _ _ _ _ H2 I1 K1 F' Hu) as [c1 F1].
  destruct (connector_versions rc _ _ _ _ _ _ _ _ H1 I K F F1) as [S1|V1]; destruct (connector_versions rc _ _ _ _ _ _ _ _ H2 I1 K1 F1 F') as [S2|V2].
  - destruct S1 as (-> & T1 & D1). destruct S2 as (-> & T2 & D2). split; [done|]. split; [done|]. split; [done|].
    split_and!; [done|by rewrite T2|by rewrite D2].
  - destruct S1 as (-> & _). lia.
  - destruct S2 as (-> & _). lia.
  - lia.
Qed.

(** C6. A re-sync does what was reviewed: when it is applied at the version and
    the catalogue hash of a plan, although the plan read the connector, its
    tools and its credentials one after the other with other requests in
    between, and another binary may run by then.  Where the adapter is the
    one that was reviewed the two plans are the same as they are shown.
    Another binary's adapter of the same hash adds, rewrites, removes, skips
    and relabels the same tools with the same stored definitions and sets
    the same instructions, unless the two adapters' tools or instructions
    differ although their hash is the same: it is 48 bits of a digest.  What
    a plan lists without applying it (the rest of the transport and the
    auth, missing credentials) the hash does not cover. *)
Theorem the_reviewed_plan_is_applied canonical used s h1 h2 h3 s3 org id now ids in_ bundled bundled' p q s4 : sound used s ->
  history rc used s (h1 ++ h2 ++ h3) s3 -> indexed canonical bundled -> indexed canonical bundled' ->
  PlanResync bundled org id s (run_all h1 s) (run_all (h1 ++ h2) s) = Ok p -> ApplyResync rc now ids bundled' org id in_ s3 = (s4, Ok q) ->
  ri_ExpectedVersion in_ = cn_Version (pn_Connector p) -> ri_CatalogHash in_ = pn_BundledHash p ->
  exists slug a a', (exists e, bundled slug = Bundled a e) /\ (exists e, bundled' slug = Bundled a' e) /\
    (a' = a -> shown_plan q = shown_plan p) /\
    (same_effect q p \/
     ~ same_content a a' /\ exists text text', canonical (hashed a) = Ok text /\ canonical (hashed a') = Ok text' /\
       str_take 12 (hex (sha256 text)) = str_take 12 (hex (sha256 text'))).
Proof.
  intros S Hh X X' P A V Eh. unfold PlanResync in P. destruct (String.eqb org ""); [done|]. apply bind_ok in P as (c0 & L & P).
  apply of_store_ok, lockConnector_ok in L as (c & F & ->). pose proof (planResyncTx_connector _ _ _ _ _ _ P) as Ec. rewrite Ec in V. cbn in V.
  apply resync_store in A as (_ & c' & q0 & F' & V' & _ & Q & Eq & A).
  assert (cr_Version c' = cr_Version c) as Vc by congruence.
  destruct (same_between _ _ h1 (h2 ++ h3) _ _ _ _ _ S Hh F F' Vc) as (Sa & -> & _ & Sc).
  assert (history rc used s ((h1 ++ h2) ++ h3) s3) as Hh' by by rewrite <- app_assoc.
  destruct (same_between _ _ (h1 ++ h2) h3 _ _ _ _ _ S Hh' F F' eq_refl) as (Sb & _ & _ & _).
  destruct (planResyncTx_shown canonical bundled bundled' org id (scanConnector s c) (scanConnector s3 c) (run_all h1 s) (run_all (h1 ++ h2) s) s3 p q0)
    as (a & a' & Ha & Ha' & B & B' & Same & Content); [by apply find_connector_keys in F as (_ & _ & ?)|by apply (same_scan org id)| | |done|done|exact P|exact Q|congruence|].
  { rewrite (same_tools _ _ _ _ _ _ Sc). symmetry. by eapply same_tools. }
  { rewrite (same_credential_names org _ _ _ _ _ Sc). symmetry. by eapply same_credential_names. }
  assert (shown_plan q = shown_plan q0) as Eq0 by (destruct A as [(_ & _ & _ & ->)|(_ & r & W & _ & ->)]; [done|by eapply applied_shown]).
  exists (cn_CatalogSlug (scanConnector s c)), a, a'. split; [done|]. split; [done|]. split; [intros E; rewrite Eq0; auto|].
  destruct (decide (same_content a a')) as [Sm|Df]; [left; by eapply same_effect_shown; [|apply Content]|right]. split; [done|].
  unfold adapter_ContentHash in Ha, Ha'. apply bind_ok in Ha as (x & Hx & Ex). apply bind_ok in Ha' as (y & Hy & Ey).
  exists x, y. split; [done|]. split; [done|]. congruence.
Qed.
End guarantees.

(** ** On a workspace *)

#[local] Existing Instance demo_definitions.
#[local] Existing Instance demo_encoding.
#[local] Existing Instance demo_comparison.
#[local] Existing Instance Approvals.demo_sealer.
#[local] Existing Instance Approvals.demo_runtime.

Lemma demo_sound w : sound demo_used (demo_store w).
Proof.
  split_and!; [apply demo_store_ids|apply demo_known|].
  intros l Hl. apply list_elem_of_singleton in Hl as ->. exists demo_connector. split; [apply list_elem_of_singleton|]; done.
Qed.

Definition open_desk : op := OpServerCreate 5 "r1" "srv2" "o" "Second desk" "" "" ["con"] "ann".

Lemma a_new_surface_has_a_new_version_witness :
  exists v f s', history off demo_used (demo_store Approvals.start) [(open_desk, Ok tt)] s' /\
    Get_server "o" "srv" (demo_store Approvals.start) = Ok v /\ Surface_of v (demo_store Approvals.start) = Ok f /\
    exists f', Surface_of v s' = Ok f' /\ sf_Instructions f' = sf_Instructions f /\ shown_tools (sf_Tools f') = shown_tools (sf_Tools f).
Proof.
  set (s := demo_store Approvals.start). set (s' := run1 open_desk s).
  assert (history off demo_used s [(open_desk, Ok tt)] s') as Hh
    by (apply demo_step; [vm_compute; reflexivity|unfold drawn, demo_used; cbn; intros x ->; set_solver]).
  destruct (Get_server "o" "srv" s) as [v|] eqn:G; [|vm_compute in G; discriminate].
  destruct (Surface_of v s) as [f|] eqn:F; [|vm_compute in G; injection G as <-; vm_compute in F; discriminate].
  exists v, f, s'. split_and!; [exact Hh|done|exact F|].
  apply (a_new_surface_has_a_new_version off demo_used s [(open_desk, Ok tt)] s' "o" "srv" v v f (demo_sound _) Hh).
  - intros l Hl. exists demo_connector. vm_compute in Hl. apply list_elem_of_singleton in Hl as ->. split; [vm_compute; apply list_elem_of_singleton|]; done.
  - exact G.
  - rewrite <- G. vm_compute. reflexivity.
  - done.
  - exact F.
Defined.

(** Deleting a connector takes its tools off the server and leaves the
    server at its version, under which what was served is remembered. *)
Example a_deleted_connector_is_not_announced :
  let s := demo_store Approvals.start in let s' := run1 (OpDelete 5 "r1" "o" "con" "ann") s in
  let served s := (v ← Get_server "o" "srv" s; Ok (sv2_Version v, match Surface_of v s with Ok f => length (sf_Tools f) | Err _ => 0 end)) in
  served s = Ok (1%Z, 1) /\ served s' = Ok (1%Z, 0).
Proof. vm_compute. split; reflexivity. Qed.

Definition ann_edits : op := OpUpdateTool 5 (fun _ => "r1") "o" "delete_draft" (edit_to "/drafts/ann" 1).
Definition bob_edits : op := OpUpdateTool 6 (fun _ => "r2") "o" "delete_draft" (edit_to "/drafts/bob" 1).

Lemma no_lost_update_witness :
  (run_op off ann_edits (demo_store Approvals.start)).2 = Ok tt /\
  (run_op off bob_edits (run1 ann_edits (demo_store Approvals.start))).1 = run1 ann_edits (demo_store Approvals.start) /\
  exists e, (run_op off bob_edits (run1 ann_edits (demo_store Approvals.start))).2 = Err e.
Proof.
  split; [vm_compute; reflexivity|].
  apply (no_lost_update off demo_used (demo_store Approvals.start) ann_edits (Ok tt) [] _ bob_edits (GuardTool, "o", "delete_draft", 1%Z)).
  - apply demo_sound.
  - reflexivity.
  - reflexivity.
  - apply demo_step; [vm_compute; reflexivity|done].
  - intros E. apply (f_equal (fun s => map tl_Version (s_tools s))) in E. vm_compute in E. discriminate.
Defined.

(** Without the version each read, the second edit replaces the first. *)
Example unguarded_edit_overwrites :
  let s := run1 (OpUpdateTool 6 (fun _ => "r2") "o" "delete_draft" (edit_to "/drafts/bob" 0)) (run1 ann_edits (demo_store Approvals.start)) in
  map tl_Definition (s_tools s) = ["delete_draft|/drafts/bob"].
Proof. vm_compute. reflexivity. Qed.

(** A canonical text for the demonstration: the instructions, the address
    and the tools. *)
Definition demo_canonical (d : hashed_doc) : result string string :=
  Ok (foldl (fun t b => t +:+ String bar (to_Name b +:+ String bar (op_Path (to_Operation b)))) (hd_Instructions d +:+ (hd_Transport d).1.2) (hd_Tools d)).

(** The next release's adapter, and the one of the release after, which
    lists its tools in another order and sends another header. *)
Definition next_adapter : AdapterDoc := demo_adapter "h2".
Definition later_adapter : AdapterDoc :=
  mkAdapter "Shop" "shop" (mkTransport TransportHTTP "https://shop.example" "" "" [("X-Release", "2")] 0 None false) demo_auth "Ask first." []
    (rev (ad_Tools next_adapter)).

Definition next_hash : string := match adapter_ContentHash demo_canonical next_adapter with Ok h => h | Err _ => "" end.

Definition bundle_of (a : AdapterDoc) (slug : string) : bundle :=
  if String.eqb slug "shop" then Bundled a (mkIndexEntry next_hash ["h1"]) else NoSuchAdapter.

Definition reviewed_input : ResyncInput := mkResyncInput next_hash 1 "ann" None.

Lemma bundles_indexed : indexed demo_canonical (bundle_of next_adapter) /\ indexed demo_canonical (bundle_of later_adapter).
Proof. split; intros slug a e; unfold bundle_of; destruct (String.eqb slug "shop"); intros [= <- <-]; vm_compute; reflexivity. Qed.

Lemma the_reviewed_plan_is_applied_witness :
  let s := demo_store Approvals.start in
  exists p q s4, PlanResync (bundle_of next_adapter) "o" "con" s s (run1 open_desk s) = Ok p /\
    ApplyResync off 9 (fun i j => if Nat.eqb i 4 then "new" else "r") (bundle_of later_adapter) "o" "con" reviewed_input (run1 open_desk s) = (s4, Ok q) /\
    map rt_Name (pn_Add p) = ["list_drafts"] /\ map rt_Name (pn_Update p) = ["delete_draft"] /\
    exists slug a a', (exists e, bundle_of next_adapter slug = Bundled a e) /\ (exists e, bundle_of later_adapter slug = Bundled a' e) /\
      (a' = a -> shown_plan q = shown_plan p) /\
      (same_effect q p \/
       ~ same_content a a' /\ exists text text', demo_canonical (hashed a) = Ok text /\ demo_canonical (hashed a') = Ok text' /\
         str_take 12 (hex (sha256 text)) = str_take 12 (hex (sha256 text'))).
Proof.
  set (s := demo_store Approvals.start). cbv zeta.
  assert (history off demo_used s [(open_desk, Ok tt)] (run1 open_desk s)) as Hh
    by (apply demo_step; [vm_compute; reflexivity|unfold drawn, demo_used; cbn; intros x ->; set_solver]).
  destruct (PlanResync (bundle_of next_adapter) "o" "con" s s (run1 open_desk s)) as [p|] eqn:P; [|vm_compute in P; discriminate].
  destruct (ApplyResync off 9 (fun i j => if Nat.eqb i 4 then "new" else "r") (bundle_of later_adapter) "o" "con" reviewed_input (run1 open_desk s))
    as [s4 [q|]] eqn:A; [|vm_compute in A; discriminate].
  exists p, q, s4. do 2 (split; [reflexivity|]). do 2 (split; [vm_compute in P; injection P as <-; reflexivity|]).
  apply (the_reviewed_plan_is_applied off demo_canonical demo_used s [] [(open_desk, Ok tt)] [] (run1 open_desk s) "o" "con" 9
           (fun i j => if Nat.eqb i 4 then "new" else "r") reviewed_input (bundle_of next_adapter) (bundle_of later_adapter) p q s4).
  - apply demo_sound.
  - exact Hh.
  - apply bundles_indexed.
  - apply bundles_indexed.
  - exact P.
  - exact A.
  - vm_compute in P. injection P as <-. reflexivity.
  - vm_compute in P. injection P as <-. reflexivity.
Defined.
