(* ===== verification/ConnectorApprovals.v ===== *)
(** * ConnectorApprovals: an agreement does not outlive what it was for

    A person agrees to a call of a tool.  The transactions of
    internal/connector that change what the tool does, or take it away,
    cancel the requests that are open on it in the same commit.  Through any
    history of ConnectorHistory.v a request that is still open is for a tool
    whose stored definitions have all had the behaviour of the one before,
    by the program's own reading and comparison, unless its connector is
    gone: deleting a connector cancels nothing, and neither does sending its
    calls to another address. *)
From S2P Require Import Prelude Tables GoStrings Float64 Regex Values AuditEvents Secrets Authz Adapter Engine Calls Redact ApprovalRules Approvals Revisions ConnectorStore Resync McpServers ConnectorHistory ConnectorDemo.

Open Scope list_scope.

(** ** Requests *)

Definition open_row (r : row) : bool := is_state StatePending r || is_state StateApproved r.

Definition requests (s : store) : list row := w_requests (s_approvals s).

(** The requests of [s1] are those of [s], none of them opened again, and
    new ones with names of their own. *)
Definition carried (s s1 : store) : Prop :=
  (forall r, r ∈ requests s -> exists r1, r1 ∈ requests s1 /\ row_id r1 = row_id r) /\
  (forall r1, r1 ∈ requests s1 ->
     (exists r, r ∈ requests s /\ rw_Asked r = rw_Asked r1 /\ (open_row r1 = true -> open_row r = true)) \/
     (forall r, r ∈ requests s -> row_id r <> row_id r1)).

(** No request on the tool is open. *)
Definition closed (org tid : string) (s : store) : Prop :=
  forall r, r ∈ requests s -> q_OrgID (rw_Asked r) = org -> q_ToolID (rw_Asked r) = tid -> open_row r = false.

Lemma carried_same s s1 : s_approvals s1 = s_approvals s -> carried s s1.
Proof. unfold carried, requests. intros ->. split; [eauto|]. intros r Hr. left. eauto. Qed.

Lemma carried_trans s1 s2 s3 : carried s1 s2 -> carried s2 s3 -> carried s1 s3.
Proof.
  intros [A1 A2] [B1 B2]. split.
  - intros r Hr. destruct (A1 r Hr) as (r1 & H1 & E1). destruct (B1 r1 H1) as (r2 & H2 & E2). exists r2. split; [done|congruence].
  - intros r3 H3. destruct (B2 r3 H3) as [(r2 & H2 & E2 & O2)|F].
    + destruct (A2 r2 H2) as [(r1 & H1 & E1 & O1)|F]; [left; exists r1; split_and!; [done|congruence|auto]|].
      right. intros r Hr E. apply (F r Hr). unfold row_id in *. congruence.
    + right. intros r Hr E. destruct (A1 r Hr) as (r1 & H1 & E1). apply (F r1 H1). congruence.
Qed.

Lemma closed_carried org tid s s1 : carried s s1 -> (forall r1, r1 ∈ requests s1 -> exists r, r ∈ requests s /\ row_id r = row_id r1) ->
  closed org tid s -> closed org tid s1.
Proof.
  intros [_ B] Old Cl r1 H1 Eo Et. destruct (B r1 H1) as [(r & Hr & E & O)|F].
  - destruct (open_row r1) eqn:Op; [|done]. rewrite <- E in Eo, Et. rewrite <- (Cl r Hr Eo Et). symmetry. by apply O.
  - destruct (Old r1 H1) as (r & Hr & E). by destruct (F r Hr).
Qed.

Section cancelling.

(** A cancellation of a tool's requests. *)
Lemma cancel_rows now org tid reason s r1 : r1 ∈ requests (cancelApprovals now org tid reason s) ->
  exists r, r ∈ requests s /\ rw_Asked r1 = rw_Asked r /\ (r1 = r \/ open_row r1 = false) /\
    (q_OrgID (rw_Asked r1) = org -> q_ToolID (rw_Asked r1) = tid -> open_row r1 = false).
Proof.
  unfold requests, cancelApprovals, cancelApprovalsTx, with_requests, update_rows. cbn. intros H.
  apply list_elem_of_In, in_map_iff in H as (r & <- & Hr%list_elem_of_In). exists r. split; [done|].
  destruct (visible org r && _ && _) eqn:P; [by split_and!; try done; right|]. split_and!; [done|by left|].
  intros Eo Et. unfold visible in P. rewrite Eo, Et, !String.eqb_refl in P. exact P.
Qed.

Lemma cancel_carried now org tid reason s : carried s (cancelApprovals now org tid reason s).
Proof.
  split.
  - intros r Hr. unfold requests, cancelApprovals, cancelApprovalsTx, with_requests, update_rows. cbn.
    exists (if visible org r && String.eqb (q_ToolID (rw_Asked r)) tid && (is_state StatePending r || is_state StateApproved r)
            then Approvals.moved (cancelled now reason) r else r). split; [|by destruct (visible org r && _ && _)].
    apply list_elem_of_In, in_map_iff. exists r. split; [done|by apply list_elem_of_In].
  - intros r1 H1. destruct (cancel_rows _ _ _ _ _ _ H1) as (r & Hr & E & [->|O] & _); left; exists r; split_and!; try done. intros. congruence.
Qed.

Lemma cancel_closes now org tid reason s : closed org tid (cancelApprovals now org tid reason s).
Proof. intros r1 H1 Eo Et. destruct (cancel_rows _ _ _ _ _ _ H1) as (r & _ & _ & _ & Cl). by apply Cl. Qed.

Lemma cancel_keeps_closed now org tid o t reason s : closed o t s -> closed o t (cancelApprovals now org tid reason s).
Proof.
  apply closed_carried; [apply cancel_carried|]. intros r1 H1. destruct (cancel_rows _ _ _ _ _ _ H1) as (r & Hr & E & _).
  exists r. split; [done|]. unfold row_id. congruence.
Qed.

Lemma cancel_all_carried now org reason ids s : carried s (cancel_all now org reason ids s).
Proof.
  unfold cancel_all. revert s. induction ids as [|id ids IH]; intros s; [by apply carried_same|]. cbn. eapply carried_trans; [apply cancel_carried|apply IH].
Qed.

Lemma cancel_all_keeps_closed now org reason ids o t s : closed o t s -> closed o t (cancel_all now org reason ids s).
Proof. unfold cancel_all. revert s. induction ids as [|id ids IH]; intros s Cl; [done|]. apply IH. by apply cancel_keeps_closed. Qed.

Lemma cancel_all_closes now org reason ids t s : t ∈ ids -> closed org t (cancel_all now org reason ids s).
Proof.
  unfold cancel_all. revert s. induction ids as [|id ids IH]; intros s Ht; [by apply elem_of_nil in Ht|]. cbn.
  apply elem_of_cons in Ht as [->|Ht]; [|by apply IH]. apply (cancel_all_keeps_closed now org reason ids). apply cancel_closes.
Qed.
End cancelling.

Lemma approvals_carried `{Sealer} `{Runtime} o s : carried s (set_approvals (Approvals.exec (s_approvals s) o).1 s).
Proof.
  unfold carried, requests. cbn. destruct (exec_table_step (s_approvals s) o) as [Ht|(r & -> & _ & Hf)].
  - split.
    + intros r Hr. apply list_elem_of_lookup in Hr as [i Hi]. destruct (Forall2_lookup_l _ _ _ _ _ Ht Hi) as (r1 & H1 & T).
      exists r1. split; [by apply list_elem_of_lookup; exists i|]. unfold row_id. by rewrite (proj1 (transition_keeps _ _ _ T)).
    + intros r1 H1. left. apply list_elem_of_lookup in H1 as [i Hi]. destruct (Forall2_lookup_r _ _ _ _ _ Ht Hi) as (r & Hr & T).
      exists r. split_and!; [by apply list_elem_of_lookup; exists i|by rewrite (proj1 (transition_keeps _ _ _ T))|].
      intros Op. apply transition_next in T. unfold open_row in *. rewrite orb_true_iff, !is_state_true in *.
      destruct T as [E|T]; [by rewrite <- E|]. destruct (g_State (rw_Progress r)); try done; [by left|by right].
  - split; [intros r0 Hr; exists r0; split; [apply elem_of_app; by left|done]|]. intros r1 H1. apply elem_of_app in H1 as [H1|H1]; [left; eauto|].
    apply list_elem_of_singleton in H1 as ->. right. intros r0 Hr E. apply (proj1 (existsb_false_elem _ _)) with (x := r0) in Hf; [|done]. by bool_prop.
Qed.

(** ** Tools *)

Section tools.
Context `{D : Definitions} `{N : Encoding} `{C : Comparison} `{Z0 : Sealer} `{R0 : Runtime} (rc : recorder).

(** A stored text was replaced by another: what the first reads as and what
    was written as the second have the same behaviour. *)
Definition same_call (d d' : string) : Prop :=
  exists td def b, df_Parse d = Ok td /\ behaviourJSON td = Ok b /\ behaviourJSON def = Ok b /\ df_JSON def = Ok d'.

(** The tool is there, on [t]'s connector, and every definition stored for it
    since [t] has the behaviour of the one it replaced. *)
Definition does_as (org tid : string) (t : tool_row) (s : store) : Prop :=
  exists t1, find_tool org tid s = Some t1 /\ rtc same_call (tl_Definition t) (tl_Definition t1) /\ tl_ConnectorID t1 = tl_ConnectorID t.

(** What a call of the stored tool does.  Where a definition, written and
    read back, does what it did, the chain is an equality. *)
Definition stored_behaviour (t : tool_row) : result string string :=
  match df_Parse (tl_Definition t) with Ok td => behaviourJSON td | Err e => Err e end.

Lemma same_calls_do_the_same t t1 : (forall def text, df_JSON def = Ok text -> exists td, df_Parse text = Ok td /\ behaviourJSON td = behaviourJSON def) ->
  rtc same_call (tl_Definition t) (tl_Definition t1) -> stored_behaviour t1 = stored_behaviour t.
Proof.
  intros Hf. unfold stored_behaviour. generalize (tl_Definition t) (tl_Definition t1). intros d d1 R.
  induction R as [d|d d2 d3 (td & def & b & P & B1 & B2 & J) _ IH]; [done|].
  destruct (Hf _ _ J) as (td2 & P2 & E). rewrite IH, P2, P. congruence.
Qed.

Definition gone (cid : string) (s : store) : Prop := forall c, c ∈ s_connectors s -> cr_ID c <> cid.

(** Requests are carried over, and the tool does what it did, or none of its
    requests is open, or its connector is gone. *)
Definition settles (org tid : string) (s s1 : store) : Prop :=
  carried s s1 /\ forall t, find_tool org tid s = Some t -> does_as org tid t s1 \/ closed org tid s1 \/ gone (tl_ConnectorID t) s1.

Lemma does_refl org tid t s : find_tool org tid s = Some t -> does_as org tid t s.
Proof. intros F. by exists t. Qed.

Lemma does_same org tid t s s1 : s_tools s1 = s_tools s -> does_as org tid t s -> does_as org tid t s1.
Proof. unfold does_as, find_tool. by intros ->. Qed.

(** Statements that add tools and touch no request. *)
Definition adds (s s1 : store) : Prop := s_approvals s1 = s_approvals s /\ exists l, s_tools s1 = s_tools s ++ l.

Lemma adds_same s s1 : s_approvals s1 = s_approvals s -> s_tools s1 = s_tools s -> adds s s1.
Proof. intros E1 E2. split; [done|]. exists []. by rewrite app_nil_r. Qed.

Lemma adds_refl s : adds s s.
Proof. by apply adds_same. Qed.

Lemma adds_trans s1 s2 s3 : adds s1 s2 -> adds s2 s3 -> adds s1 s3.
Proof. intros [A1 (l1 & L1)] [A2 (l2 & L2)]. split; [congruence|]. exists (l1 ++ l2). by rewrite L2, L1, <- app_assoc. Qed.

Lemma find_app_some {A} (p : A -> bool) l l2 x : List.find p l = Some x -> List.find p (l ++ l2) = Some x.
Proof. induction l as [|y l IH]; [done|]. cbn. by destruct (p y). Qed.

Lemma adds_find org tid s s1 t : adds s s1 -> find_tool org tid s = Some t -> find_tool org tid s1 = Some t.
Proof. intros [_ (l & E)] F. unfold find_tool in *. rewrite E. by apply find_app_some. Qed.

Lemma insert_adds now id c name def source enabled s s1 : insertToolRow now id c name def source enabled s = Ok s1 -> adds s s1.
Proof. unfold insertToolRow. destruct (existsb _ _); [done|]. intros [= <-]. split; [done|]. eexists. reflexivity. Qed.

Lemma insertTools_adds now ids c source ts s s1 : insertTools now ids c source ts s = Ok s1 -> adds s s1.
Proof.
  revert ids s. induction ts as [|t ts IH]; intros ids s E; cbn in E; [injection E as <-; apply adds_refl|].
  apply bind_ok in E as (text & _ & E). apply bind_ok in E as (s2 & I & E). eapply adds_trans; [by eapply insert_adds|by eapply IH].
Qed.

Lemma add_tools_adds now ids c ts s r : add_tools now ids c ts s = Ok r -> adds s r.1.
Proof.
  revert ids s r. induction ts as [|t ts IH]; intros ids s r E; cbn in E; [injection E as <-; apply adds_refl|].
  destruct (rt_After t) as [def|]; [|done]. apply bind_ok in E as (text & _ & E). apply bind_ok in E as (s1 & I & E).
  apply bind_ok in E as (r1 & E1 & [= <-]). eapply adds_trans; [by eapply insert_adds|apply (IH _ _ _ E1)].
Qed.

Lemma seal_adds nonce c name v secret s s1 : sealCredential nonce c name v secret s = Ok s1 -> adds s s1.
Proof. unfold sealCredential. intros E. apply bind_ok in E as (ct & _ & [= <-]). by apply adds_same. Qed.

Lemma setCredentials_adds nonces c specs creds s s1 : setCredentialsTx nonces c specs creds s = Ok s1 -> adds s s1.
Proof.
  revert nonces s. induction specs as [|[name spec] specs IH]; intros nonces s E; cbn in E; [injection E as <-; apply adds_refl|].
  destruct (entry creds name) as [v|]; [|by eapply IH]. destruct (String.eqb v ""); [by eapply IH|].
  apply bind_ok in E as (s2 & S & E). eapply adds_trans; [by eapply seal_adds|by eapply IH].
Qed.

Lemma sealAll_adds nonces c creds s s1 : sealAll nonces c creds s = Ok s1 -> adds s s1.
Proof.
  revert nonces s. induction creds as [|[name v] creds IH]; intros nonces s E; cbn in E; [injection E as <-; apply adds_refl|].
  apply bind_ok in E as (s2 & S & E). eapply adds_trans; [by eapply seal_adds|by eapply IH].
Qed.

Lemma revisions_adds t s : adds s (set_revisions t s).
Proof. by apply adds_same. Qed.

Lemma install_adds now ids nonces id org a hash creds by_ s :
  adds s (Install rc now ids nonces id org a hash creds by_ (fun s => s) s).1.
Proof.
  unfold Install. destruct (missing_credential a creds); [apply adds_refl|].
  destruct (tx _ _ _) as [s1 [u|e]] eqn:T; [|apply tx_err in T as ->; apply adds_refl]. apply tx_ok in T as [_ T]. cbn.
  apply bind_ok in T as (s2 & I & T). apply bind_ok in T as (s3 & I3 & T). apply bind_ok in T as (s4 & I4 & T).
  apply bind_ok in T as (s5 & R & [= <- _]). apply record_same in R as [t ->].
  unfold insertConnector in I. destruct (existsb _ _); [done|]. injection I as <-.
  eapply adds_trans; [|apply revisions_adds]. eapply adds_trans; [|by eapply setCredentials_adds]. exact (insertTools_adds _ _ _ _ _ _ _ I3).
Qed.

Lemma create_adds now ids nonces id org in_ s : adds s (Create_connector rc now ids nonces id org in_ (fun s => s) s).1.
Proof.
  unfold Create_connector. destruct (String.eqb (TrimSpace _) ""); [apply adds_refl|].
  destruct (tx _ _ _) as [s1 [u|e]] eqn:T; [|apply tx_err in T as ->; apply adds_refl]. apply tx_ok in T as [_ T]. cbn.
  apply bind_ok in T as (s2 & I & T). apply bind_ok in T as (s3 & I3 & T). apply bind_ok in T as (s4 & I4 & T).
  apply bind_ok in T as (s5 & R & [= <- _]). apply record_same in R as [t ->].
  unfold insertConnector in I. destruct (existsb _ _); [done|]. injection I as <-.
  eapply adds_trans; [|apply revisions_adds]. eapply adds_trans; [|by eapply sealAll_adds]. exact (insertTools_adds _ _ _ _ _ _ _ I3).
Qed.

(** *** Each operation *)

Lemma adds_settles org tid s s1 : adds s s1 -> settles org tid s s1.
Proof. intros A. split; [apply carried_same, A|]. intros t F. left. exists t. by split; [eapply adds_find|]. Qed.

Lemma kept_settles org tid s s1 : s_approvals s1 = s_approvals s -> s_tools s1 = s_tools s -> settles org tid s s1.
Proof. intros E1 E2. by apply adds_settles, adds_same. Qed.

(** An update of the tools that keeps what each does. *)
Lemma find_tool_update org tid p f s s1 t : s_tools s1 = update_where p f (s_tools s) ->
  (forall x, tl_ID (f x) = tl_ID x /\ tl_OrgID (f x) = tl_OrgID x) -> find_tool org tid s = Some t ->
  find_tool org tid s1 = Some (if p t then f t else t).
Proof.
  intros E Hf F. unfold find_tool in *. rewrite E, (find_update p (sees_tool org tid)).
  - by rewrite F.
  - intros x. unfold sees_tool. by destruct (Hf x) as [-> ->].
Qed.

Lemma find_tool_delete org tid o id s s1 t : s_tools s1 = delete_where (sees_tool o id) (s_tools s) -> find_tool org tid s = Some t ->
  o = org /\ id = tid \/ find_tool org tid s1 = Some t.
Proof.
  intros E F. destruct (decide (o = org)) as [->|Ho]; [destruct (decide (id = tid)) as [->|Hi]; [by left|]|]; right; unfold find_tool in *; rewrite E;
    clear E; induction (s_tools s) as [|x l IH]; try done; cbn in *; unfold delete_where in *; cbn.
  - destruct (sees_tool org tid x) eqn:P.
    + injection F as ->. assert (sees_tool org id t = false) as ->; [|cbn; by rewrite P].
      unfold sees_tool in *. bool_prop. subst. by destruct (String.eqb_spec (tl_ID t) id); [|rewrite andb_false_r].
    + destruct (sees_tool org id x); cbn; rewrite ?P; by apply IH.
  - destruct (sees_tool org tid x) eqn:P.
    + injection F as ->. assert (sees_tool o id t = false) as ->; [|cbn; by rewrite P].
      unfold sees_tool in *. bool_prop. subst. by destruct (String.eqb_spec (tl_OrgID t) o).
    + destruct (sees_tool o id x); cbn; rewrite ?P; by apply IH.
Qed.

Lemma tx_settles {A} org tid o s (body : store -> result store_error (store * A)) s1 r : tx o s body = (s1, r) ->
  (forall a, body s = Ok (s1, a) -> settles org tid s s1) -> settles org tid s s1.
Proof.
  intros T H. destruct r as [a|e]; [|apply tx_err in T as ->; by apply kept_settles]. apply tx_ok in T as [_ T]. by eapply H.
Qed.

Lemma update_connector_settles now newID o id in_ others s org tid : settles org tid s (Update_connector rc now newID o id in_ others s).1.
Proof.
  unfold Update_connector. destruct (tx _ _ _) as [s1 r] eqn:T. apply (tx_settles _ _ _ _ _ _ _ T). clear T. intros u T.
  apply update_connector_store in T as (c & t & F & _ & ->). by apply kept_settles.
Qed.

Lemma write_or_drop_approvals o id sealed creds s : s_approvals (foldl (write_or_drop o id sealed) s creds) = s_approvals s.
Proof. revert s. induction creds as [|e creds IH]; intros s; [done|]. cbn. rewrite IH. unfold write_or_drop. by destruct (entry _ _). Qed.

Lemma credentials_settles now nonces o id creds expected s org tid : settles org tid s (SetCredentials now nonces o id creds expected s).1.
Proof.
  unfold SetCredentials. destruct (sealValues _ _ _ _) as [sealed|e]; [|by apply kept_settles].
  destruct (tx _ _ _) as [s1 r] eqn:T. apply (tx_settles _ _ _ _ _ _ _ T). clear T. intros u T.
  apply bind_ok in T as (c & _ & [= <- _]). apply kept_settles; cbn; [apply write_or_drop_approvals|apply write_or_drop_tools].
Qed.

Lemma delete_connector_settles now newID o id actor s org tid : NoDup (map cr_ID (s_connectors s)) ->
  settles org tid s (Delete_connector rc now newID o id actor s).1.
Proof.
  intros Nd. unfold Delete_connector. destruct (tx _ _ _) as [s1 r] eqn:T. apply (tx_settles _ _ _ _ _ _ _ T). clear T. intros u T.
  apply bind_ok in T as (c & L & T). apply lockConnector_ok in L as (x & F & ->).
  apply bind_ok in T as (s5 & R & [= <- _]). apply record_same in R as [t ->]. split; [by apply carried_same|].
  intros t0 F0. destruct (decide (tl_ConnectorID t0 = id)) as [->|Hn].
  - right. right. intros y Hy. cbn in Hy. apply elem_of_delete in Hy as [Hy P]. intros E.
    apply find_connector_keys in F as (Hx & Ex & Ix). assert (y = x) as -> by (apply (NoDup_map_inj cr_ID (s_connectors s)); congruence).
    unfold sees_connector in P. by rewrite Ex, Ix, !String.eqb_refl in P.
  - left. exists t0. split; [|done]. unfold find_tool in *. cbn. clear -F0 Hn. induction (s_tools s) as [|y l IH]; [done|].
    unfold delete_where in *. cbn in *. destruct (sees_tool org tid y) eqn:P.
    + injection F0 as ->. destruct (String.eqb_spec (tl_ConnectorID t0) id); [done|]. cbn. by rewrite P.
    + destruct (String.eqb (tl_ConnectorID y) id); cbn; rewrite ?P; by apply IH.
Qed.

(** A text written for a definition that does what the stored one does. *)
Lemma written_behaviour t td def t1 : df_Parse (tl_Definition t) = Ok td -> BehaviourChanged (Some td) (Some def) = false ->
  df_JSON def = Ok (tl_Definition t1) -> rtc same_call (tl_Definition t) (tl_Definition t1).
Proof.
  intros P B J. apply rtc_once. unfold BehaviourChanged in B. destruct (behaviourJSON td) as [x|] eqn:X, (behaviourJSON def) as [y|] eqn:Y; try done.
  apply negb_false_iff, String.eqb_eq in B as ->. exists td, def, x. done.
Qed.

Lemma sees_found o id org tid s t : find_tool org tid s = Some t -> sees_tool o id t = true -> o = org /\ id = tid.
Proof. intros F P. apply find_tool_keys in F as (_ & Eo & Ei). unfold sees_tool in P. bool_prop. split; congruence. Qed.

Lemma update_tool_settles now ids o id in_ others s org tid : settles org tid s (UpdateTool rc now ids o id in_ others s).1.
Proof.
  unfold UpdateTool. destruct (ti_Definition in_) as [def|]; [|by apply kept_settles].
  destruct (tx _ _ _) as [s1 r] eqn:T. apply (tx_settles _ _ _ _ _ _ _ T). clear T. intros u T.
  apply update_tool_store in T as (row & c & b & text & s2 & rv & F & Fc & Sc & _ & _ & J & U & ->).
  apply scanTool_ok in Sc as (td & P & Ed & _). rewrite Ed.
  unfold updateToolRow in U. rewrite F in U. destruct (existsb _ _); [done|]. injection U as <-.
  set (s2 := set_tools _ s). set (b0 := BehaviourChanged (Some td) (Some def)).
  set (s3 := if b0 then cancelApprovals now o id "the tool's definition changed" s2 else s2).
  assert (carried s s3) as Cs by (subst s3; destruct b0; [exact (cancel_carried now o id _ s2)|by apply carried_same]).
  split; [exact Cs|]. intros t Ft.
  assert (s_tools s3 = s_tools s2) as Et by (subst s3; by destruct b0).
  destruct (sees_tool o id t) eqn:Pt.
  - destruct (sees_found _ _ _ _ _ _ Ft Pt) as [-> ->]. assert (t = row) as -> by congruence.
    destruct b0 eqn:B; [right; left; apply cancel_closes|left]. exists (edited now (to_Name def) text (ti_ActorID in_) (default (tl_Enabled row) (ti_Enabled in_)) row).
    split_and!; [|by eapply written_behaviour|done]. unfold bumped.
    pose proof (find_tool_update org tid (sees_tool org tid) (edited now (to_Name def) text (ti_ActorID in_) (default (tl_Enabled row) (ti_Enabled in_))) s s3 row Et ltac:(done) F) as G.
    rewrite Pt in G. exact G.
  - left. exists t. split; [|done].
    pose proof (find_tool_update org tid (sees_tool o id) (edited now (to_Name def) text (ti_ActorID in_) (default (tl_Enabled row) (ti_Enabled in_))) s s3 t Et ltac:(done) Ft) as G.
    rewrite Pt in G. exact G.
Qed.

Lemma delete_tool_settles now ids o id ack actor s org tid : settles org tid s (DeleteTool rc now ids o id ack actor s).1.
Proof.
  unfold DeleteTool. destruct (tx _ _ _) as [s1 r] eqn:T. apply (tx_settles _ _ _ _ _ _ _ T). clear T. intros u T.
  apply delete_tool_store in T as (row & c & rv & F & _ & _ & ->).
  split; [exact (cancel_carried now o id "the tool was deleted" (deleteToolRow o id s))|]. intros t Ft.
  destruct (find_tool_delete org tid o id s (deleteToolRow o id s) t eq_refl Ft) as [[-> ->]|G].
  - right. left. exact (cancel_closes now org tid "the tool was deleted" (deleteToolRow org tid s)).
  - left. exists t. split; [exact G|done].
Qed.

Lemma switch_tool_settles now ids o id enabled actor s org tid : settles org tid s (SetToolEnabled rc now ids o id enabled actor s).1.
Proof.
  unfold SetToolEnabled. destruct (tx _ _ _) as [s1 r] eqn:T. apply (tx_settles _ _ _ _ _ _ _ T). clear T. intros u T.
  apply switch_tool_store in T as [->|(row & c & rv & F & _ & _ & ->)]; [by apply kept_settles|].
  split; [by apply carried_same|]. intros t Ft. left. exists (if sees_tool o id t then switched now enabled t else t).
  split; [|by destruct (sees_tool o id t)]. by apply (find_tool_update org tid (sees_tool o id) (switched now enabled) s).
Qed.

(** *** A re-sync *)

Lemma rewrite_tools_rows now o ts s s1 org tid t : rewrite_tools now o ts s = Ok s1 -> find_tool org tid s = Some t ->
  exists t1, find_tool org tid s1 = Some t1 /\ tl_ConnectorID t1 = tl_ConnectorID t /\
    (tl_Definition t1 = tl_Definition t \/ o = org /\ exists u def, u ∈ ts /\ rt_ToolID u = tid /\ rt_After u = Some def /\ df_JSON def = Ok (tl_Definition t1)).
Proof.
  revert s t. induction ts as [|u ts IH]; intros s t E F; cbn in E; [injection E as <-; eauto|].
  destruct (rt_After u) as [def|] eqn:Ea; [|done]. apply bind_ok in E as (text & J & E). unfold encode_tool in J.
  destruct (df_JSON def) as [text'|] eqn:Ej; [|done]. injection J as ->.
  pose proof (find_tool_update org tid (sees_tool o (rt_ToolID u)) (resync_row now text) s
    (set_tools (update_where (sees_tool o (rt_ToolID u)) (resync_row now text) (s_tools s)) s) t eq_refl ltac:(done) F) as G.
  destruct (IH _ _ E G) as (t1 & F1 & Ec & Ed). exists t1. split; [done|]. destruct (sees_tool o (rt_ToolID u) t) eqn:P.
  - destruct (sees_found _ _ _ _ _ _ F P) as [-> <-]. split; [done|]. right. split; [done|].
    destruct Ed as [Ed|(_ & u' & def' & Hu' & ?)]; [exists u, def; split_and!; [by constructor|done|done|by rewrite Ed, Ej]|].
    exists u', def'. split; [by constructor|done].
  - split; [done|]. destruct Ed as [?|(-> & u' & def' & Hu' & ?)]; [by left|right]. split; [done|]. exists u', def'. split; [by constructor|done].
Qed.

Lemma rewrite_tools_approvals now o ts s s1 : rewrite_tools now o ts s = Ok s1 -> s_approvals s1 = s_approvals s.
Proof.
  revert s. induction ts as [|u ts IH]; intros s E; cbn in E; [by injection E as <-|].
  destruct (rt_After u) as [def|]; [|done]. apply bind_ok in E as (text & _ & E). by apply IH in E.
Qed.

Lemma remove_tools_rows o ids s org tid t : find_tool org tid s = Some t ->
  (o = org /\ tid ∈ ids) \/ find_tool org tid (remove_tools o ids s) = Some t.
Proof.
  unfold remove_tools. change (find_tool org tid (set_access _ ?x)) with (find_tool org tid x). cbv zeta.
  revert s. induction ids as [|id ids IH]; intros s F; [by right|]. cbn.
  destruct (find_tool_delete org tid o id s (deleteToolRow o id s) t eq_refl F) as [[-> ->]|G]; [left; split; [done|by constructor]|].
  destruct (IH _ G) as [[-> Hi]|G']; [left; split; [done|by constructor]|by right].
Qed.

Lemma remove_tools_approvals o ids s : s_approvals (remove_tools o ids s) = s_approvals s.
Proof.
  unfold remove_tools. cbn. revert s. induction ids as [|id ids IH]; intros s; [done|]. cbn. by rewrite IH.
Qed.

Lemma cancel_all_tools now o reason ids s : s_tools (cancel_all now o reason ids s) = s_tools s.
Proof. unfold cancel_all. revert s. induction ids as [|id ids IH]; intros s; [done|]. cbn. by rewrite IH. Qed.

(** The definition an update was compared with is the stored one. *)
Definition compared_with_stored (o : string) (p : ResyncPlan) (s : store) : Prop :=
  forall u t, u ∈ pn_Update p -> find_tool o (rt_ToolID u) s = Some t -> exists td, df_Parse (tl_Definition t) = Ok td /\ definition_of u = Some td.

Lemma plan_compared bundled o c s s2 p : NoDup (tool_ids s) -> planResyncTx bundled o c s s2 = Ok p -> compared_with_stored o p s.
Proof.
  intros Nd E u t Hu F. apply planResyncTx_ok in E as (a & e & stored & _ & _ & Sc & E). apply planResync_ok in E as (_ & _ & _ & _ & _ & HU & _).
  apply HU in Hu as (b & st & ch & _ & Fs & _ & _ & _ & ->). cbn in *. unfold stored_as in Fs. apply find_elem in Fs as [Hst _].
  apply list_elem_of_In, in_rev, list_elem_of_In in Hst. destruct (scan_all_elem _ _ _ Sc Hst) as (row & Hrow & Er).
  apply tools_of_elem in Hrow as (Hin & _ & _). apply scanTool_ok in Er as (td & P & Ed & Ei & _).
  apply find_tool_keys in F as (Ht & _ & Et). assert (row = t) as -> by (apply (NoDup_map_inj tl_ID (s_tools s)); [done..|congruence]).
  exists td. done.
Qed.

(** The rewritten tools, once the requests of those that changed are
    cancelled. *)
Lemma rewritten_settles now o p s s1 org tid t : compared_with_stored o p s -> rewrite_tools now o (pn_Update p) s = Ok s1 ->
  find_tool org tid s = Some t ->
  let s2 := cancel_all now o "the tool's definition changed" (changed_behaviour (pn_Update p)) s1 in does_as org tid t s2 \/ closed org tid s2.
Proof.
  intros Cw E F. cbv zeta. destruct (rewrite_tools_rows _ _ _ _ _ _ _ _ E F) as (t1 & F1 & Ec & Ed).
  assert (rtc same_call (tl_Definition t) (tl_Definition t1) ->
    does_as org tid t (cancel_all now o "the tool's definition changed" (changed_behaviour (pn_Update p)) s1)) as K.
  { intros B. apply (does_same _ _ _ s1); [apply cancel_all_tools|by exists t1]. }
  destruct Ed as [Ed|(-> & u & def & Hu & Eu & Ea & J)]; [left; apply K; by rewrite Ed|].
  destruct (Cw u t Hu ltac:(by rewrite Eu)) as (td & P & Eb).
  destruct (BehaviourChanged (definition_of u) (rt_After u)) eqn:B.
  - right. apply cancel_all_closes. unfold changed_behaviour. apply list_elem_of_In, in_map_iff. exists u. split; [done|].
    apply filter_In. split; [by apply list_elem_of_In|done].
  - left. apply K. rewrite Eb, Ea in B. by eapply written_behaviour.
Qed.

Lemma write_plan_settles now ids o p s r org tid : NoDup (tool_ids s) ->
  (forall u, u ∈ pn_Update p -> exists t, find_tool o (rt_ToolID u) s = Some t) ->
  compared_with_stored o p s -> write_plan now ids o p s = Ok r -> settles org tid s r.1.
Proof.
  intros Nd Hu Cw E. unfold write_plan in E. apply bind_ok in E as (a & Ea & E). apply bind_ok in E as (s1 & E1 & [= <-]). cbn [fst].
  apply add_tools_adds in Ea. pose proof (rewrite_tools_approvals _ _ _ _ _ E1) as A1.
  assert (compared_with_stored o p a.1) as Cw1.
  { intros u t Hin F. destruct (Hu u Hin) as [t0 F0]. pose proof (adds_find _ _ _ _ _ Ea F0). apply (Cw u t Hin). congruence. }
  set (s2 := cancel_all now o "the tool's definition changed" (changed_behaviour (pn_Update p)) s1).
  set (removed := map rt_ToolID (pn_Remove p)).
  set (s3 := cancel_all now o "the tool was removed from the catalog adapter" removed (remove_tools o removed s2)).
  assert (carried s s3) as Cs.
  { eapply carried_trans; [apply carried_same, (proj1 Ea)|]. eapply carried_trans; [apply carried_same, A1|].
    eapply carried_trans; [apply (cancel_all_carried now o "the tool's definition changed")|].
    eapply carried_trans; [apply carried_same, (remove_tools_approvals o removed)|apply cancel_all_carried]. }
  split; [exact Cs|]. intros t F. apply (adds_find _ _ _ _ _ Ea) in F.
  assert (does_as org tid t s3 \/ closed org tid s3) as D3.
  { destruct (rewritten_settles _ _ _ _ _ _ _ _ Cw1 E1 F) as [(t2 & F2 & B2 & C2)|Cl].
    - destruct (remove_tools_rows o removed s2 org tid t2 F2) as [[-> Hr]|F3]; [right; by apply cancel_all_closes|left].
      apply (does_same _ _ _ (remove_tools o removed s2)); [apply cancel_all_tools|by exists t2].
    - right. apply cancel_all_keeps_closed. unfold closed, requests. rewrite remove_tools_approvals. exact Cl. }
  destruct D3 as [(t3 & F3 & B3 & C3)|Cl]; [left|right; left; exact Cl].
  exists (if any_of o (map rt_ToolID (pn_Relabel p)) t3 then relabelled t3 else t3). split_and!.
  - by apply (find_tool_update org tid (any_of o (map rt_ToolID (pn_Relabel p))) relabelled s3).
  - etrans; [exact B3|]. by destruct (any_of _ _ t3).
  - rewrite <- C3. by destruct (any_of _ _ t3).
Qed.

Lemma plan_finds bundled o c s s2 p : NoDup (tool_ids s) -> planResyncTx bundled o c s s2 = Ok p ->
  forall u, u ∈ pn_Update p -> exists t, find_tool o (rt_ToolID u) s = Some t.
Proof.
  intros Nd E u Hu. apply planResyncTx_ok in E as (a & e & stored & _ & _ & Sc & E). apply planResync_ok in E as (_ & _ & _ & _ & _ & HU & _).
  apply HU in Hu as (b & st & ch & _ & Fs & _ & _ & _ & ->). cbn. unfold stored_as in Fs. apply find_elem in Fs as [Hst _].
  apply list_elem_of_In, in_rev, list_elem_of_In in Hst. destruct (scan_all_elem _ _ _ Sc Hst) as (row & Hrow & Er).
  apply tools_of_elem in Hrow as (Hin & Eo & _). apply scanTool_ok in Er as (td & _ & _ & -> & _).
  destruct (find_tool o (tl_ID row) s) as [t|] eqn:F; [eauto|]. exfalso. unfold find_tool in F. rewrite list_elem_of_In in Hin.
  apply find_none with (x := row) in F; [|done]. unfold sees_tool in F. by rewrite Eo, !String.eqb_refl in F.
Qed.

Lemma resync_settles now ids bundled o id in_ s org tid : NoDup (tool_ids s) ->
  settles org tid s (ApplyResync rc now ids bundled o id in_ s).1.
Proof.
  intros Nd. destruct (ApplyResync _ _ _ _ _ _ _ _) as [s1 [p|e]] eqn:A.
  - apply resync_store in A as (_ & c & q & _ & _ & _ & P & _ & [(_ & _ & -> & _)|(_ & r & W & R & _)]); [by apply kept_settles|].
    apply recordResync_same in R as [t ->]. exact (write_plan_settles _ _ _ _ _ _ _ _ Nd (plan_finds _ _ _ _ _ _ Nd P) (plan_compared _ _ _ _ _ _ Nd P) W).
  - unfold ApplyResync in A. destruct (String.eqb _ ""); [injection A as <- _; by apply kept_settles|].
    destruct (ApplyResync_tx _ _ _ _ _ _ _ _) as [[? ?]|]; [done|]. injection A as <- _. by apply kept_settles.
Qed.

(** *** Servers *)

Lemma create_server_settles now newID id o name slug instructions cids by_ s org tid :
  settles org tid s (Create_server rc now newID id o name slug instructions cids by_ (fun s => s) s).1.
Proof.
  unfold Create_server. destruct (String.eqb (TrimSpace name) ""); [by apply kept_settles|].
  destruct (negb _); [by apply kept_settles|]. destruct (String.eqb o ""); [by apply kept_settles|].
  destruct (Create_tx _ _ _ _ _ _ _) as [s1|] eqn:T; [|by apply kept_settles]. cbn [fst]. unfold Create_tx in T.
  apply bind_ok in T as (s2 & I & T). unfold insertServer in I. destruct (existsb _ _); [done|]. destruct (existsb _ _); [done|]. injection I as <-.
  apply bind_ok in T as (s3 & L & T). apply server_of_store_ok, setConnectors_links in L as (ls & -> & _).
  apply server_of_store_ok, record_same in T as [t ->]. by apply kept_settles.
Qed.

Lemma update_server_settles now newID o id in_ s org tid : settles org tid s (Update_server rc now newID o id in_ (fun s => s) s).1.
Proof.
  unfold Update_server. destruct (match su_Sessions in_ with Some m => _ | None => _ end); [by apply kept_settles|].
  destruct (String.eqb o ""); [by apply kept_settles|]. destruct (Update_server_tx _ _ _ _ _ _ _) as [s1|] eqn:T; [|by apply kept_settles]. cbn [fst].
  unfold Update_server_tx in T. apply bind_ok in T as (v & _ & T). apply bind_ok in T as ([] & _ & T). apply bind_ok in T as (s3 & L & T).
  apply server_of_store_ok, record_same in T as [t ->].
  destruct (su_ConnectorIDs in_) as [ids|]; [apply server_of_store_ok, setConnectors_links in L as (ls & -> & _)|injection L as <-]; by apply kept_settles.
Qed.

Lemma delete_server_settles now newID o id actor s org tid : settles org tid s (Delete_server rc now newID o id actor s).1.
Proof.
  unfold Delete_server. destruct (String.eqb o ""); [by apply kept_settles|]. destruct (Delete_server_tx _ _ _ _ _ _ _) as [s1|] eqn:T; [|by apply kept_settles].
  cbn [fst]. unfold Delete_server_tx in T. apply bind_ok in T as (v & _ & T). apply server_of_store_ok, record_same in T as [t ->]. by apply kept_settles.
Qed.

Lemma create_tool_settles now ids id o cid in_ s org tid : settles org tid s (CreateTool rc now ids id o cid in_ (fun s => s) s).1.
Proof.
  unfold CreateTool. destruct (ti_Definition in_) as [def|]; [|by apply kept_settles].
  destruct (tx _ _ _) as [s1 r] eqn:T. apply (tx_settles _ _ _ _ _ _ _ T). clear T. intros u T.
  apply create_tool_store in T as (c & text & s2 & t & _ & _ & _ & I & ->).
  apply adds_settles. eapply adds_trans; [by eapply insert_adds|]. by apply adds_same.
Qed.

Lemma run_op_settles o s org tid : ids_ok s -> settles org tid s (run_op rc o s).1.
Proof.
  intros (Nc & Nt & _). destruct o; cbn [run_op outcome fst].
  - apply adds_settles, install_adds.
  - apply adds_settles, create_adds.
  - apply update_connector_settles.
  - by apply delete_connector_settles.
  - apply credentials_settles.
  - apply create_tool_settles.
  - by apply update_tool_settles.
  - apply delete_tool_settles.
  - apply switch_tool_settles.
  - by apply resync_settles.
  - apply create_server_settles.
  - apply update_server_settles.
  - apply delete_server_settles.
  - split; [apply approvals_carried|]. intros t F. left. by exists t.
  - by apply kept_settles.
Qed.

(** ** Through a history *)

(** What holds of the requests with one name while one of them is open. *)
Definition stands (org tid id : string) (t : tool_row) (s : store) : Prop :=
  (exists r, r ∈ requests s /\ row_id r = id) /\
  forall r, r ∈ requests s -> row_id r = id -> q_OrgID (rw_Asked r) = org /\ q_ToolID (rw_Asked r) = tid /\
    (open_row r = true -> does_as org tid t s \/ gone (tl_ConnectorID t) s).

Lemma connector_gone_step used s o cid : ids_ok s -> used cid -> (forall x, drawn o x -> ~ used x) -> gone cid s -> gone cid (run_op rc o s).1.
Proof.
  intros I Hu Hd G c Hc E. destruct (effect_connectors _ _ _ _ (proj1 (run_op_lawful rc o s I)) Hc) as [Hn|(c0 & H0 & E0 & _)].
  - by apply (Hd (cr_ID c)); [|rewrite E].
  - apply (G c0 H0). congruence.
Qed.

Lemma stands_step used s o org tid id t : ids_ok s -> (forall x, drawn o x -> ~ used x) -> used (tl_ConnectorID t) ->
  stands org tid id t s -> stands org tid id t (run_op rc o s).1.
Proof.
  intros I Hd Hu [(r0 & Hr0 & E0) St]. destruct (run_op_settles o s org tid I) as [[Fw Bw] Se]. split.
  - destruct (Fw r0 Hr0) as (r1 & H1 & E1). exists r1. split; [done|congruence].
  - intros r1 H1 E1. destruct (Bw r1 H1) as [(r & Hr & Ea & Op)|Fr]; [|by destruct (Fr r0 Hr0); congruence].
    destruct (St r Hr) as (Eo & Et & K); [unfold row_id in *; congruence|]. rewrite <- Ea. split_and!; [done|done|]. intros O1.
    destruct (K (Op O1)) as [(t1 & F1 & B1 & C1)|G]; [|right; by apply (connector_gone_step used)].
    destruct (Se t1 F1) as [(t2 & F2 & B2 & C2)|[Cl|G]]; [left; exists t2; split_and!; [done|by etrans|congruence]| |right; by rewrite <- C1].
    rewrite (Cl r1 H1) in O1; [done|congruence|congruence].
Qed.

Lemma stands_history used s h s' org tid id t : history rc used s h s' -> ids_ok s -> known used s -> used (tl_ConnectorID t) ->
  stands org tid id t s -> stands org tid id t s'.
Proof.
  intros Hh. induction Hh as [used s|used s o h s' Hd Hh IH]; intros I K Hu St; [done|].
  apply IH; [by eapply lawful_ids_ok, run_op_lawful|by apply known_step|by left|by apply (stands_step used)].
Qed.

(** C4. A person's agreement does not outlive the call it was for: when a
    request on a tool is still open after any sequence of operations, the
    tool is on the same connector, and each definition stored for it since
    has the operation, response, output, limits and hints of the one it
    replaced, as the program reads and compares them - or the tool's whole
    connector was deleted.  An edit that changes what a call does, a re-sync
    that rewrites or removes the tool and its deletion each cancel the
    request in the same transaction.  Where the connector sends the call is
    no part of this: see [a_moved_connector_keeps_its_requests]. *)
Theorem an_open_request_is_for_what_was_asked used s h s' org tid t r r' : ids_ok s -> known used s -> used (tl_ConnectorID t) ->
  history rc used s h s' -> NoDup (map row_id (requests s)) -> find_tool org tid s = Some t ->
  r ∈ requests s -> q_OrgID (rw_Asked r) = org -> q_ToolID (rw_Asked r) = tid ->
  r' ∈ requests s' -> row_id r' = row_id r -> open_row r' = true ->
  (exists t', find_tool org tid s' = Some t' /\ rtc same_call (tl_Definition t) (tl_Definition t') /\ tl_ConnectorID t' = tl_ConnectorID t) \/
  gone (tl_ConnectorID t) s'.
Proof.
  intros I K Hu Hh Nd F Hr Eo Et Hr' Ei Op.
  assert (stands org tid (row_id r) t s) as St.
  { split; [eauto|]. intros x Hx E. assert (x = r) as -> by by apply (same_row (requests s)).
    split_and!; [done|done|]. intros _. left. by exists t. }
  destruct (proj2 (stands_history _ _ _ _ _ _ _ _ Hh I K Hu St) r' Hr' Ei) as (_ & _ & St').
  by destruct (St' Op) as [D'|G]; [left|right].
Qed.
End tools.

(** ** On a workspace *)

#[local] Existing Instance demo_definitions.
#[local] Existing Instance demo_encoding.
#[local] Existing Instance demo_comparison.
#[local] Existing Instance Approvals.demo_sealer.
#[local] Existing Instance Approvals.demo_runtime.

(** A workspace where deleting a draft waits for a person. *)
Definition held_store : store := demo_store (after raised_only).

Definition switch_off : ConnectorHistory.op := OpSetToolEnabled 1500 (fun _ => "r") "o" "delete_draft" false "ann".

Lemma an_open_request_is_for_what_was_asked_witness :
  exists t' s', history off demo_used held_store [(switch_off, Ok tt)] s' /\ requests s' = [held] /\ open_row held = true /\
    ((find_tool "o" "delete_draft" s' = Some t' /\ rtc same_call (tl_Definition demo_row) (tl_Definition t') /\ tl_ConnectorID t' = "con") \/ gone "con" s').
Proof.
  set (s' := run1 switch_off held_store).
  assert (history off demo_used held_store [(switch_off, Ok tt)] s') as Hh by (apply demo_step; [vm_compute; reflexivity|done]).
  assert (requests s' = [held]) as Hr by (vm_compute; reflexivity).
  destruct (an_open_request_is_for_what_was_asked off demo_used held_store [(switch_off, Ok tt)] s' "o" "delete_draft" demo_row held held) as [(t' & F & B)|G].
  - apply demo_store_ids.
  - apply demo_known.
  - by apply (proj1 (demo_known (after raised_only))) with (c := demo_connector), list_elem_of_singleton.
  - exact Hh.
  - assert (requests held_store = [held]) as -> by (vm_compute; reflexivity). apply NoDup_singleton.
  - vm_compute. reflexivity.
  - assert (requests held_store = [held]) as -> by (vm_compute; reflexivity). by apply list_elem_of_singleton.
  - vm_compute. reflexivity.
  - vm_compute. reflexivity.
  - rewrite Hr. by apply list_elem_of_singleton.
  - reflexivity.
  - vm_compute. reflexivity.
  - exists t', s'. repeat (split; [first [exact Hh|exact Hr|vm_compute; reflexivity]|]). left. exact (conj F B).
  - exists demo_row, s'. repeat (split; [first [exact Hh|exact Hr|vm_compute; reflexivity]|]). right. exact G.
Defined.

Definition states_in (s : store) : list State := map (fun r => g_State (rw_Progress r)) (requests s).

(** An edit of where the tool's call goes cancels the request. *)
Example an_edit_cancels :
  states_in (run1 (OpUpdateTool 1500 (fun _ => "r") "o" "delete_draft" (edit_to "/drafts/all" 1)) held_store) = [StateCancelled].
Proof. vm_compute. reflexivity. Qed.

(** An edit of the connector's address sends the same call elsewhere, and
    the request waits on. *)
Example a_moved_connector_keeps_its_requests :
  let moved := mkUpdateInput None None None None (Some (mkTransport TransportHTTP "https://elsewhere.example" "" "" [] 0 None false)) None 1 "ann" in
  let s := run1 (OpUpdate 1500 "r" "o" "con" moved) held_store in
  states_in s = [StatePending] /\ map (fun c => tr_BaseURL (cr_Transport c)) (s_connectors s) = ["https://elsewhere.example"].
Proof. vm_compute. split; reflexivity. Qed.

(** Deleting the connector takes the tool and leaves the request open. *)
Example a_deleted_connector_leaves_requests :
  let s := run1 (OpDelete 1500 "r" "o" "con" "ann") held_store in states_in s = [StatePending] /\ s_tools s = [].
Proof. vm_compute. split; reflexivity. Qed.
